(* ===== verification/_CoqProject ===== *)
-Q . S2P
Prelude.v
Monad.v
Memory.v
Arith64.v
Ctype.v
CString.v
Malloc.v
Qsort.v
Numeric.v
Handlers.v
TlsLayout.v
TlsStatic.v
ThreadLocal.v
Semaphore.v
Mutex.v
Pthread.v
Cond.v
Calendar.v
Tz.v
Time.v
Env.v
Libgen.v
Fnmatch.v
FnmatchSpec.v
Getopt.v
Regexec.v
Regcomp.v
Ere.v
Strftime.v
Stdio.v
Strerror.v
Printf.v
PrintfSpec.v
Scanf.v
ArithExp.v
PtrSort.v
Dirent.v
Glob.v
Wordexp.v
Dlfcn.v
DlTable.v
DlScope.v
DlImage.v
DlWorld.v
Ldso.v
LdsoSpec.v
LdsoWorld.v
Crypto.v
TlsRoots.v
TlsClient.v
TlsSafe.v
TlsPem.v
TlsKeys.v
TlsRecord.v
TlsAuth.v
TlsWorld.v
Sys.v
SysSpec.v
Signal.v
Mqueue.v
Flock.v
Devices.v
Socket.v
Spawn.v
Files.v
