(* ===== verification/Prelude.v ===== *)
(** * CactLib/x86_32: a machine-checked model of a freestanding C library

    The program is a C library for a 32-bit hobby operating system: everything a
    program links against, from [memcpy] to a pattern compiler, on top of the
    kernel's traps alone.  This development models its computational core in
    Rocq and proves what makes each part correct.

    ** The parts and how they interact

    The leaves are the character classes (src/ctype.c), the string and block
    routines (src/string.c) and the 64-bit division helpers (src/udivdi3.c).  On
    them stand the heap (src/stdlib.c), which gets memory from the kernel's brk
    and mmap, the sorting and number routines of the same file, and the
    registries of exit and fork handlers.  Threads have three layers: the layout
    of the static TLS block (include/tls_layout.h), the runtime that fills it
    (src/tls_static.c) and the table that finds a thread's block by its stack
    (src/thread_local.c); above them the futex-based semaphores and mutexes and
    the life of a thread (src/semaphore.c, src/pthread.c).  Civil time is the
    calendar, the timezone engine (src/tz.c) and the clocks and conversions of
    src/time.c, which call both.  The environment, path splitting, wildcard
    matching, option scanning and regular expressions are text components of
    their own; they use the character classes and the allocator.  Date
    formatting and parsing (src/strftime.c) call the calendar and the timezone
    engine.  The streams of src/stdio.c read and write through the kernel's
    descriptors without a buffer of their own; one formatter serves the whole
    printf family through a staging area and a sink (a buffer or a stream), and
    one scanner (src/scanf.c) serves scanf on strings and streams.  At the top
    of the text components stands word expansion (src/wordexp.c): it evaluates
    arithmetic, reads and sets the environment, matches patterns and expands
    pathnames through src/glob.c, which walks directories with the streams of
    src/dirent.c, matches with fnmatch and sorts with qsort.  The run-time loader
    (src/dlfcn.c) maps ELF images at their link addresses, resolves and relocates
    them against a table of objects with namespaces, and takes their TLS from the
    static block.  Before any of this runs, the dynamic linker (ldso/ldso.c) reads
    the auxiliary vector, loads the libraries the program needs, relocates them,
    plans the static TLS block and hands its layout and the table of objects to
    the library.  On sockets the library has a TLS 1.3 client (src/tls.c): it
    verifies servers against the trust anchors of a PEM bundle (src/tls_roots.c)
    and does its cryptography with the calls of src/crypto.c, each of which is
    one request to the kernel's /dev/crypto.

    Everything that leaves the process goes through a thin layer over the
    kernel's traps and ioctls (src/nodeio.c, src/unistd.c, src/fcntl.c,
    src/stat.c, src/wait.c).  On it stand the signals, sockets with the passing
    of descriptors, message queues and shared memory, file locks, event
    descriptors and small devices, the opening and closing of streams, path
    resolution, pipes to shells, and process spawning, in which a child reports
    its failure to the parent through a pipe.

    ** Files

    - Prelude: machine integers with their wrap-around, tactics ([zcases],
      [zdecide]), the hint database [cact], lemmas on bits, lists and on counting
      threads.  Monad: state and failure, the one loop combinator and its
      total-correctness logic [wp].  Memory: the byte memory, regions, strings.
    - Ctype, CString, Arith64, Numeric, Qsort: src/ctype.c, src/string.c,
      src/udivdi3.c and the number and sorting parts of src/stdlib.c.
    - Malloc: the heap of src/stdlib.c, with the class [Kernel] for brk, mmap
      and munmap.  Handlers: atexit, exit, pthread_atfork and fork.
    - TlsLayout, TlsStatic, ThreadLocal: include/tls_layout.h,
      src/tls_static.c, src/thread_local.c.
    - Semaphore, Mutex, Pthread (modules [Once], [CondTimeout], [Keys], [Life]),
      Cond: src/semaphore.c and src/pthread.c, as step relations where the code
      is concurrent.
    - Calendar, Tz, Time: the calendar of src/time.c and src/tz.c, the timezone
      engine with the class [TzEnv] for the environment variable and the zone
      files, the clocks with the class [Clock].
    - Env, Libgen, Fnmatch, Getopt: src/env.c, src/libgen.c, src/fnmatch.c,
      src/getopt.c.  FnmatchSpec: the language of wildcard patterns, written
      without the matcher.
    - Regexec, Regcomp, Ere: src/regex.c, its matcher, its compiler, and the
      syntax the compiler reads.
    - Strftime: src/strftime.c.
    - Stdio, Strerror, Printf, Scanf: the streams of src/stdio.c with the class
      [Fds] for read and write, src/errno_str.c, the formatter of src/stdio.c
      with the classes [Sink] for its output and [FloatText] for the digits of
      floating-point values, src/scanf.c with the class [Strtod].  PrintfSpec:
      the reference semantics of formats and the theorems of the formatter.
    - Dirent: src/dirent.c, with the class [Kernel] for open and getdents.
      PtrSort: qsort on arrays of pointers, against the contract of Qsort.  Glob:
      src/glob.c, with the class [Stat].  ArithExp, Wordexp: src/wordexp.c.
    - Dlfcn: src/dlfcn.c with include/dl_elf.h and include/dl_objects.h, and the
      class [Loader] for files, buffers and mmap.  DlTable: the table over any
      history of calls.  DlScope: symbol tables, search orders, namespaces,
      dladdr.  DlImage: images in memory, reference counts, and a builder of
      small ELF files.  DlWorld: runs of the loader on such files.
    - Ldso: ldso/ldso.c, over the same class [Loader].  LdsoSpec: what it hands
      over, against the run-time loader and the TLS runtime.  LdsoWorld: the
      start of a program with three libraries.
    - Crypto: src/crypto.c, with the class [CryptoDev] for the device.  TlsRoots:
      src/tls_roots.c, with the class [Bundles] for files.  TlsClient: src/tls.c,
      with a script of what the socket does, which may end with a socket that fails
      for ever, and the class [Host] for allocation and time.  TlsSafe: every
      session returns.  TlsPem: bundles.  TlsKeys: the
      class [Device] of a device that computes the primitives, HKDF and the key
      schedule of the RFCs.  TlsRecord: records and application data.  TlsAuth:
      what a completed handshake means.  TlsWorld: a device, a server, and whole
      sessions.
    - Sys: the layer over the kernel, with the class [Kernel] that answers a
      [call] with a [reply]; errno, the cached process id and the control
      descriptor are its state.  SysSpec: what the calls do, with the classes
      [Table] of a descriptor table, [Execs] and [Streams].  Signal, Mqueue (with
      src/shm_open.c), Flock, Socket: the files of those names.  Devices:
      src/epoll.c, src/eventfd.c, src/timerfd.c, src/signalfd.c, src/mman.c,
      src/shm.c, src/futex.c, src/random.c, src/sysconf.c, src/termios.c,
      src/sched.c, src/dns.c, src/wlan.c.  Spawn: src/spawn.c, with the class
      [Machine] for fork, and [Spawning] for two processes and their pipe: who
      holds a write end, what is in it, which program the child runs.
      Files: the opening, closing and positioning of streams, rename, popen,
      realpath, mkostemp and system of src/stdio.c and src/stdlib.c.

    Each file has a module of its own name that holds the component's data as
    records and inductive types with the source's field and constructor names,
    one definition per C function under its own name, and the theorems.  C's
    failures to be defined (a wild pointer, an index out of an array, a lock
    spun on for ever) are the result [None]: a theorem that gives a result says
    that they do not happen.

    ** What the theorems show

    - Heap: in every heap a program can reach with allocations, reallocations and
      frees, live blocks are disjoint, aligned, inside the arena and apart from
      every other block of the chain ([heap_safety]); each operation does what it
      promises to the blocks and to their contents ([malloc_correct] and its
      companions), for sizes that the 32-bit arithmetic of the code carries.
    - Concurrency: mutual exclusion, conservation of semaphore counts, the
      once-routine running once, and the absence of lost wake-ups, on mutexes,
      semaphores and condition variables, as invariants of every reachable state
      of any number of threads, by induction over the step relation.
    - Text: [regexec] finds the leftmost longest span of the pattern's
      denotation, and its captures are those of a path that POSIX's rule prefers;
      [regcomp] is total, builds well-formed programs, loses and double-frees
      nothing when it succeeds, and reads back what [Ere.show] writes, bracket
      expressions included; [fnmatch] decides the language of [FnmatchSpec];
      [getopt] makes progress and permutes correctly.
    - Formatted input and output: the formatter prints the reference text of a
      format through every sink that keeps the promises of [SinkOk], for buffers
      of any size and for streams with short writes; [sscanf] reads back what
      [snprintf] prints; [getline] and [fgets] deliver lines.
    - Expansion: the arithmetic evaluator computes the value of every written
      expression; [wordexp] yields the fields of the shell's rules of quoting and
      splitting on the part of the language where the code follows them; [glob]
      finds exactly the paths of a walk; pattern removal is optimal; a directory
      stream is a cursor ([stream_is_cursor]), and [scandir] leaks nothing.
    - Loading: registered images never overlap and a new namespace is empty,
      after any sequence of calls; loading terminates on every set of files;
      [dlsym] follows the search order of its handle and stays in its scope;
      mapping lays the file out as its headers say and unmapping undoes it;
      closing counts references.
    - Start-up: the table the dynamic linker hands over satisfies the run-time
      loader's invariants if the images do not overlap ([startup_sound]), the two
      lookups agree over one list of objects ([binding_agrees]), static and
      dynamic accesses to a
      thread-local variable meet ([tls_access_agrees]), the auxiliary vector is
      read whole ([parse_auxv_reads]).
    - TLS client: a session returns on every input, and on a socket that fails for
      ever as long as errno is not EINTR ([client_total], [stale_eintr_session]);
      a connection in the application state has a trusted chain, a checked
      signature unless the server named scheme 0, and the Finished and keys of the
      schedule ([connect_authenticated]); keys
      are those of RFC 8446 ([key_schedule_rfc]); application data crosses
      unchanged ([data_roundtrip]) and no nonce repeats under a key as long as it
      is not updated ([nonce_injective]); a PEM bundle is loaded whole
      ([load_roots_bundle]).
    - System calls: calls on paths close every descriptor they open
      ([path_calls_close]); [select] asks and answers as its sets say
      ([select_correct]); [execvp] runs the first program of the search path
      ([execvp_search]); [writev] writes a prefix of the concatenation; the lock
      table refines a lock per file ([grant_refines], [release_refines]); opening
      a message queue creates it at most once ([mq_open_creates_once]); control
      messages are read back ([rights_roundtrip]) and no received descriptor is
      lost ([recvmsg_no_leak]).
    - Processes and paths: [posix_spawn] returns 0 exactly when the child became
      the program, and leaves no child and no pipe behind otherwise
      ([spawn_sound]); [realpath] resolves the dots of a path and is
      idempotent ([realpath_canonical]).
    - Time: [gmtime_r] is exact on every 32-bit time ([gmtime_r_exact]), [mktime] undoes
      [localtime_r], POSIX TZ strings survive a print and parse, zone files are
      read inside their buffer; ISO weeks are those of the week's Thursday, and
      [strptime] reads back the time stamps [strftime] writes.
    - Storage and arithmetic: sorting, searching, division, conversions, string
      routines against list-level specifications, [environ] as a finite map,
      TLS layouts with disjoint aligned slices.

    The theorems named as bugs in their comments ([dst_change_hour_shifted],
    [regcomp_error_double_free], [rep_empty_below_minimum], ...) are concrete
    runs of the model that show where the code does not do what it means to.

    ** Bounds and fuel

    Loops run on fuel where their C text has no structural bound; the fuel is
    computed from the input (the length of a string, the number of headers, the
    number of years of a 32-bit time) and the theorems prove that it is enough.
    [exit] takes its fuel from the caller, since a handler may register handlers.
    Loading with dependencies has fuel 9, one more than the table has slots, in
    the run-time loader and in the dynamic linker; the walks over the stack of a
    new process are bounded by the size of memory.  The loops of the TLS client
    are bounded by the bytes that the socket has still to deliver.
    The matcher's own step limit of 4,000,000 is part of the code and of the
    model; the search theorem is about runs that stay below it, the capture
    theorem about all.  Signed overflow, which C leaves undefined, is written as
    two's-complement wrap-around where it can happen.

    ** Not modelled, and why

    Floating point (src/math.c, strtod, difftime, the digits of %f, %e and %g).
    Assembly: the trap of src/syscall.c, the start-up code, the return from a
    signal handler, reading the stack pointer.  The constant tables of
    src/locale.c and the variable of src/errno_var.c.  The functions of
    src/time.c that return a static buffer around their _r variants, and in
    src/pthread.c pthread_self, pthread_equal, pthread_exit and three accessors.
    The kernel, the output of commands, the callbacks a program passes in
    (comparison functions, handlers, destructors) and the content of files are
    parameters throughout. *)

From Stdlib Require Import ZArith Lia.
From stdpp Require Import base gmap list numbers.

#[global] Open Scope Z_scope.

(** ** Scope and notations of the development *)

Declare Scope c_scope.
Delimit Scope c_scope with C.
#[global] Open Scope c_scope.

(** ** Machine integers

    The target is i686: [char] is a signed byte, [int] and [long] are 32 bits,
    [long long] 64 bits.  A w-bit integer is a [Z]; [wrapu]/[wraps] write the
    wrap-around out. *)

Definition wrapu (w x : Z) : Z := x mod 2 ^ w.

Definition wraps (w x : Z) : Z :=
  let y := x mod 2 ^ w in
  if y <? 2 ^ (w - 1) then y else y - 2 ^ w.

Definition u8 (x : Z) : Z := wrapu 8 x.
Definition u32 (x : Z) : Z := wrapu 32 x.
Definition u64 (x : Z) : Z := wrapu 64 x.
Definition s8 (x : Z) : Z := wraps 8 x.
Definition s32 (x : Z) : Z := wraps 32 x.
Definition s64 (x : Z) : Z := wraps 64 x.

(** C's truth values. *)
Definition b2z (b : bool) : Z := if b then 1 else 0.

(** Comparisons stay folded: proofs decide them with [zcases] and [zdecide]. *)
#[global] Arguments Z.eqb : simpl never.
#[global] Arguments Z.ltb : simpl never.
#[global] Arguments Z.leb : simpl never.
#[global] Arguments Z.gtb : simpl never.
#[global] Arguments Z.geb : simpl never.

(** ** Tactics *)

(** Splits every integer comparison of the goal into its two cases. *)
Ltac zcases :=
  repeat match goal with
  | |- context [if ?a =? ?b then _ else _] => destruct (Z.eqb_spec a b)
  | |- context [if ?a <? ?b then _ else _] => destruct (Z.ltb_spec a b)
  | |- context [if ?a <=? ?b then _ else _] => destruct (Z.leb_spec a b)
  | |- context [?a =? ?b] => destruct (Z.eqb_spec a b)
  | |- context [?a <? ?b] => destruct (Z.ltb_spec a b)
  | |- context [?a <=? ?b] => destruct (Z.leb_spec a b)
  | |- context [?a >? ?b] => rewrite (Z.gtb_ltb a b)
  | |- context [?a >=? ?b] => rewrite (Z.geb_leb a b)
  end.

(** The same on a hypothesis. *)
Ltac zcases_in H :=
  repeat match type of H with
  | context [?a =? ?b] => destruct (Z.eqb_spec a b)
  | context [?a <? ?b] => destruct (Z.ltb_spec a b)
  | context [?a <=? ?b] => destruct (Z.leb_spec a b)
  | context [?a >? ?b] => rewrite (Z.gtb_ltb a b) in H
  | context [?a >=? ?b] => rewrite (Z.geb_leb a b) in H
  end.

(** Rewrites the comparisons of the goal whose value is known from the context. *)
Ltac zdecide :=
  repeat match goal with
  | |- context [?a =? ?b] =>
      first [ replace (a =? b) with true by (symmetry; apply Z.eqb_eq; lia)
            | replace (a =? b) with false by (symmetry; apply Z.eqb_neq; lia) ]
  | |- context [?a <? ?b] =>
      first [ replace (a <? b) with true by (symmetry; apply Z.ltb_lt; lia)
            | replace (a <? b) with false by (symmetry; apply Z.ltb_ge; lia) ]
  | |- context [?a <=? ?b] =>
      first [ replace (a <=? b) with true by (symmetry; apply Z.leb_le; lia)
            | replace (a <=? b) with false by (symmetry; apply Z.leb_gt; lia) ]
  | |- context [?a >? ?b] => rewrite (Z.gtb_ltb a b)
  | |- context [?a >=? ?b] => rewrite (Z.geb_leb a b)
  end.

(** ** Lemmas on machine integers *)

Create HintDb cact.

Lemma wrapu_small w x : 0 <= x < 2 ^ w -> wrapu w x = x.
Proof. apply Z.mod_small. Qed.

Lemma wrapu_range w x : 0 <= w -> 0 <= wrapu w x < 2 ^ w.
Proof. intros. apply Z.mod_pos_bound, Z.pow_pos_nonneg; lia. Qed.

Lemma u8_small x : 0 <= x < 256 -> u8 x = x.
Proof. apply (wrapu_small 8). Qed.

Lemma u32_small x : 0 <= x < 2 ^ 32 -> u32 x = x.
Proof. apply (wrapu_small 32). Qed.

Lemma u64_small x : 0 <= x < 2 ^ 64 -> u64 x = x.
Proof. apply (wrapu_small 64). Qed.

Lemma u8_range x : 0 <= u8 x < 256.
Proof. apply (wrapu_range 8); lia. Qed.

Lemma u32_range x : 0 <= u32 x < 2 ^ 32.
Proof. apply (wrapu_range 32); lia. Qed.

Lemma u64_range x : 0 <= u64 x < 2 ^ 64.
Proof. apply (wrapu_range 64); lia. Qed.

Lemma wraps_small w x : 0 < w -> - 2 ^ (w - 1) <= x < 2 ^ (w - 1) -> wraps w x = x.
Proof.
  intros Hw Hx. unfold wraps.
  assert (E : 2 ^ w = 2 * 2 ^ (w - 1)).
  { rewrite <- Z.pow_succ_r by lia. f_equal. lia. }
  destruct (Z_le_gt_dec 0 x).
  - rewrite Z.mod_small by lia. zdecide. reflexivity.
  - replace (x mod 2 ^ w) with (x + 2 ^ w).
    + zdecide. lia.
    + apply (Z.mod_unique_pos _ _ (-1)); lia.
Qed.

Lemma s8_small x : -128 <= x < 128 -> s8 x = x.
Proof. apply (wraps_small 8). lia. Qed.

Lemma s32_small x : - 2 ^ 31 <= x < 2 ^ 31 -> s32 x = x.
Proof. apply (wraps_small 32). lia. Qed.

Lemma s64_small x : - 2 ^ 63 <= x < 2 ^ 63 -> s64 x = x.
Proof. apply (wraps_small 64). lia. Qed.

Lemma wraps_range w x : 0 < w -> - 2 ^ (w - 1) <= wraps w x < 2 ^ (w - 1).
Proof.
  intros Hw. unfold wraps. cbv zeta.
  assert (E : 2 ^ w = 2 * 2 ^ (w - 1)).
  { rewrite <- Z.pow_succ_r by lia. f_equal. lia. }
  assert (0 < 2 ^ (w - 1)) by (apply Z.pow_pos_nonneg; lia).
  pose proof (Z.mod_pos_bound x (2 ^ w) ltac:(lia)). zcases; lia.
Qed.

Lemma s32_range x : - 2 ^ 31 <= s32 x < 2 ^ 31.
Proof. apply (wraps_range 32). lia. Qed.

Lemma s64_range x : - 2 ^ 63 <= s64 x < 2 ^ 63.
Proof. apply (wraps_range 64). lia. Qed.

(** Wrapping twice at the same width. *)
Lemma wrapu_wrapu w x : 0 <= w -> wrapu w (wrapu w x) = wrapu w x.
Proof. intros. apply Z.mod_mod. assert (0 < 2 ^ w) by (apply Z.pow_pos_nonneg; lia). lia. Qed.

Lemma wraps_wrapu w x : 0 <= w -> wraps w (wrapu w x) = wraps w x.
Proof. intros. unfold wraps. change (wrapu w x mod 2 ^ w) with (wrapu w (wrapu w x)). by rewrite wrapu_wrapu. Qed.

Lemma u32_u32 x : u32 (u32 x) = u32 x.
Proof. by apply (wrapu_wrapu 32). Qed.

Lemma s32_u32 x : s32 (u32 x) = s32 x.
Proof. by apply (wraps_wrapu 32). Qed.

Lemma s64_u64 x : s64 (u64 x) = s64 x.
Proof. by apply (wraps_wrapu 64). Qed.

Lemma s8_byte b : 0 <= b < 256 -> s8 b = if b <? 128 then b else b - 256.
Proof.
  intros. unfold s8, wraps. rewrite Z.mod_small by (simpl; lia). reflexivity.
Qed.

(** A signed byte is zero, and two signed bytes are equal, exactly when the
    bytes are. *)
Lemma s8_eq0 b : 0 <= b < 256 -> (s8 b =? 0) = (b =? 0).
Proof. intros. rewrite s8_byte by lia. zcases; lia. Qed.

Lemma s8_eqb a b : 0 <= a < 256 -> 0 <= b < 256 -> (s8 a =? s8 b) = (a =? b).
Proof. intros. rewrite !s8_byte by lia. zcases; lia. Qed.

Lemma s8_pos b : 0 <= b < 128 -> s8 b = b.
Proof. intros. apply s8_small. lia. Qed.

(** ** Lemmas on bit operations *)

(** Masking with [~(a - 1)] for a power of two [a] rounds down. *)
Lemma land_round_down x k :
  0 <= k -> Z.land x (Z.lnot (2 ^ k - 1)) = x - x mod 2 ^ k.
Proof.
  intros Hk. rewrite <- (Z.ldiff_land x (2 ^ k - 1)).
  replace (2 ^ k - 1) with (Z.ones k) by (rewrite Z.ones_equiv; lia).
  rewrite Z.ldiff_ones_r, Z.shiftl_mul_pow2, Z.shiftr_div_pow2 by lia.
  pose proof (Z.div_mod x (2 ^ k)). lia.
Qed.

(** The same mask as an [unsigned int]. *)
Lemma land_u32_mask a k :
  0 <= a < 2 ^ 32 -> 0 <= k -> Z.land a (u32 (Z.lnot (2 ^ k - 1))) = a - a mod 2 ^ k.
Proof.
  intros Ha Hk. unfold u32, wrapu. rewrite <- (Z.land_ones (Z.lnot _)) by lia.
  rewrite Z.land_assoc, land_round_down, Z.land_ones by lia.
  assert (0 < 2 ^ k) by (apply Z.pow_pos_nonneg; lia).
  pose proof (Z.mod_pos_bound a (2 ^ k)). pose proof (Z.mod_le a (2 ^ k)).
  apply Z.mod_small. lia.
Qed.

(** A one-bit mask tests one bit. *)
Lemma land_pow2 b k : 0 <= k -> Z.land b (2 ^ k) = if Z.testbit b k then 2 ^ k else 0.
Proof.
  intros Hk. apply Z.bits_inj'. intros n Hn.
  rewrite Z.land_spec, Z.pow2_bits_eqb by lia.
  destruct (Z.eqb_spec k n) as [<-|].
  - destruct (Z.testbit b k); [by rewrite Z.pow2_bits_true|by rewrite Z.bits_0].
  - rewrite andb_false_r. destruct (Z.testbit b k); [|by rewrite Z.bits_0].
    by rewrite Z.pow2_bits_false by lia.
Qed.

(** The top bit of a [w]-bit number. *)
Lemma testbit_top b w : 0 < w -> 0 <= b < 2 ^ w -> Z.testbit b (w - 1) = (2 ^ (w - 1) <=? b).
Proof.
  intros Hw Hb. rewrite Z.testbit_odd, Z.shiftr_div_pow2 by lia.
  assert (E : 2 ^ w = 2 * 2 ^ (w - 1)).
  { rewrite <- Z.pow_succ_r by lia. f_equal. lia. }
  assert (0 < 2 ^ (w - 1)) by (apply Z.pow_pos_nonneg; lia).
  destruct (Z.leb_spec (2 ^ (w - 1)) b).
  - replace (b / 2 ^ (w - 1)) with 1; [done|].
    apply Z.div_unique with (b - 2 ^ (w - 1)); lia.
  - by rewrite Z.div_small by lia.
Qed.

(** Setting a bit below every bit of a multiple of a larger power adds it. *)
Lemma lor_pow2_add q k : 0 <= k -> q mod 2 ^ (k + 1) = 0 -> Z.lor q (2 ^ k) = q + 2 ^ k.
Proof.
  intros Hk Hq. pose proof (Z.add_lor_land q (2 ^ k)) as H.
  rewrite land_pow2 in H by lia.
  replace (Z.testbit q k) with false in H by
    (symmetry; rewrite <- (Z.mod_pow2_bits_low q (k + 1)), Hq by lia; apply Z.bits_0).
  lia.
Qed.

(** [(v + a - 1) & ~(a - 1)] rounds up to a multiple of the power of two [a]. *)
Lemma round_up_mask v k :
  0 <= v -> 0 <= k -> v + 2 ^ k <= 2 ^ 32 ->
  let r := Z.land (u32 (v + 2 ^ k - 1)) (u32 (Z.lnot (2 ^ k - 1))) in
  v <= r < v + 2 ^ k /\ r mod 2 ^ k = 0.
Proof.
  intros Hv Hk Hs. assert (0 < 2 ^ k) by (apply Z.pow_pos_nonneg; lia). cbv zeta.
  rewrite (u32_small (v + 2 ^ k - 1)), land_u32_mask by lia.
  pose proof (Z.mod_pos_bound (v + 2 ^ k - 1) (2 ^ k) ltac:(lia)). split; [lia|].
  by rewrite Zminus_mod_idemp_r, Z.sub_diag.
Qed.

(** [a & (a - 1)] is zero exactly for powers of two. *)
Lemma land_pred_pow2 a : 0 < a -> Z.land a (a - 1) = 0 <-> a = 2 ^ Z.log2 a.
Proof.
  intros Ha. destruct (Z.log2_spec a ltac:(lia)) as [Hlo Hhi].
  pose proof (Z.log2_nonneg a). split.
  - intros H0. destruct (decide (a = 2 ^ Z.log2 a)) as [|Hne]; [done|].
    assert (0 < 2 ^ Z.log2 a) by (apply Z.pow_pos_nonneg; lia).
    assert (Hbit : Z.testbit (Z.land a (a - 1)) (Z.log2 a) = true).
    { rewrite Z.land_spec, Z.bit_log2 by lia. simpl.
      replace (Z.log2 a) with (Z.log2 (a - 1)); [apply Z.bit_log2; lia|].
      apply Z.log2_unique; lia. }
    by rewrite H0, Z.bits_0 in Hbit.
  - intros E. rewrite E at 1 2. replace (2 ^ Z.log2 a - 1) with (Z.ones (Z.log2 a))
      by (rewrite Z.ones_equiv; lia).
    rewrite Z.land_ones by lia. apply Z_mod_same_full.
Qed.

(** A decidable property of a finite range of integers holds when evaluating it
    everywhere says so. *)
Lemma range_check (P : Z -> Prop) `{forall c, Decision (P c)} lo n :
  bool_decide (Forall P (seqZ lo n)) = true -> forall c, lo <= c < lo + n -> P c.
Proof.
  intros H0 c Hc. apply bool_decide_eq_true in H0.
  rewrite Forall_forall in H0. apply H0, list_elem_of_In, elem_of_seqZ. lia.
Qed.

(** ** Lemmas on lists *)

Lemma lookup_app_case {A} (l k : list A) i :
  (l ++ k) !! i = if decide (i < length l)%nat then l !! i else k !! (i - length l)%nat.
Proof.
  case_decide; [apply lookup_app_l | apply lookup_app_r]; lia.
Qed.

Lemma lookup_rev {A} (l : list A) i :
  (i < length l)%nat -> rev l !! i = l !! (length l - S i)%nat.
Proof. intros H. rewrite rev_alt. by apply reverse_lookup. Qed.

Lemma Forall_lookup_in {A} (P : A -> Prop) (l : list A) i x :
  Forall P l -> l !! i = Some x -> P x.
Proof. intros H. apply (Forall_lookup_1 _ _ _ _ H). Qed.

Lemma forallb_map {A B} (f : A -> B) (p : B -> bool) (l : list A) :
  forallb p (map f l) = forallb (fun x => p (f x)) l.
Proof. induction l as [|a l IH]; simpl; [done|by rewrite IH]. Qed.

Lemma forallb_pointwise {A} (p q : A -> bool) (l : list A) :
  (forall x, p x = q x) -> forallb p l = forallb q l.
Proof. intros H. induction l as [|a l IH]; simpl; [done|by rewrite H, IH]. Qed.

(** Facts guarded by a test hold of a list that passes it. *)
Lemma Forall_guarded {A} (f : A -> bool) (Q : A -> Prop) (l : list A) :
  Forall (fun x => f x = true -> Q x) l -> forallb f l = true -> Forall Q l.
Proof.
  induction 1 as [|a l Ha _ IH]; simpl; intros H; [constructor|].
  apply andb_prop in H as [H1 H2]. constructor; auto.
Qed.

(** The list monad. *)
Lemma bind_assoc {A B C} (l : list A) (f : A -> list B) (g : B -> list C) :
  (l ≫= f) ≫= g = l ≫= fun x => f x ≫= g.
Proof.
  induction l as [|a l IH]; [done|]. cbn [mbind list_bind]. rewrite bind_app. by f_equal.
Qed.

(** Storing one more element behind the first [length done] of an array. *)
Lemma take_store {A} (l done : list A) x :
  (length done < length l)%nat -> take (length done) l = done ->
  take (length done + 1) (<[length done := x]> l) = done ++ [x].
Proof.
  intros Hl Ht. rewrite Nat.add_1_r.
  erewrite take_S_r by (apply list_lookup_insert_eq; lia).
  rewrite take_insert_ge by lia. by rewrite Ht.
Qed.

Lemma ord_pairs_snoc {A} (R : A -> A -> Prop) (l : list A) x :
  ForallOrdPairs R l -> Forall (fun y => R y x) l -> ForallOrdPairs R (l ++ [x]).
Proof.
  induction 1 as [|a l Ha Hl IH]; intros Hx; simpl; [by repeat constructor|].
  apply Forall_cons_1 in Hx as [Hax Hx]. constructor; [|auto].
  apply Forall_app_2; [done|by constructor].
Qed.

Lemma ord_pairs_delete {A} (R : A -> A -> Prop) (l1 l2 : list A) x :
  ForallOrdPairs R (l1 ++ x :: l2) -> ForallOrdPairs R (l1 ++ l2).
Proof.
  induction l1 as [|a l1 IH]; simpl; intros H; inversion H as [|? ? H1 H2]; subst; [done|].
  constructor; [|auto]. apply Forall_app in H1 as [? H1]. apply Forall_cons_1 in H1 as [_ ?].
  by apply Forall_app_2.
Qed.

(** ** Counting threads

    A system of threads is a list of program counters; [cnt f ts] is the number
    of threads at a point [f] accepts. *)
Definition cnt {A} (f : A -> bool) (ts : list A) : Z := Z.of_nat (length (List.filter f ts)).

Lemma cnt_nonneg {A} (f : A -> bool) ts : 0 <= cnt f ts.
Proof. unfold cnt. lia. Qed.

Lemma cnt_app {A} (f : A -> bool) a b : cnt f (a ++ b) = cnt f a + cnt f b.
Proof. unfold cnt. rewrite List.filter_app, length_app. lia. Qed.

Lemma cnt_cons {A} (f : A -> bool) a l : cnt f (a :: l) = b2z (f a) + cnt f l.
Proof. unfold cnt. simpl. destruct (f a); simpl; lia. Qed.

(** One thread moves. *)
Lemma cnt_insert {A} (f : A -> bool) ts i p q :
  ts !! i = Some p -> cnt f (<[i := q]> ts) = cnt f ts - b2z (f p) + b2z (f q).
Proof.
  intros Hi. apply list_elem_of_split_length in Hi as (l1 & l2 & -> & ->).
  rewrite insert_app_r_alt, Nat.sub_diag by lia. simpl. rewrite !cnt_app, !cnt_cons. lia.
Qed.

Lemma cnt_pos {A} (f : A -> bool) ts i p : ts !! i = Some p -> f p = true -> 0 < cnt f ts.
Proof.
  intros Hi Hf. apply list_elem_of_split_length in Hi as (l1 & l2 & -> & ->).
  rewrite cnt_app, cnt_cons, Hf. pose proof (cnt_nonneg f l1). pose proof (cnt_nonneg f l2). simpl. lia.
Qed.

Lemma cnt_pos_inv {A} (f : A -> bool) ts : 0 < cnt f ts -> exists i p, ts !! i = Some p /\ f p = true.
Proof.
  unfold cnt. intros H0. destruct (List.filter f ts) as [|p l] eqn:E; [simpl in H0; lia|].
  assert (Hp : In p (List.filter f ts)) by (rewrite E; by left).
  apply filter_In in Hp as [Hin Hf]. apply list_elem_of_In, list_elem_of_lookup in Hin as [i Hi]. eauto.
Qed.

(** At most one thread at such a point. *)
Lemma cnt_unique {A} (f : A -> bool) ts i j p q :
  cnt f ts <= 1 -> ts !! i = Some p -> ts !! j = Some q -> f p = true -> f q = true -> i = j.
Proof.
  intros H0 Hi Hj Hp Hq. destruct (decide (i = j)) as [|Hne]; [done|]. exfalso.
  apply list_elem_of_split_length in Hi as (l1 & l2 & -> & ->).
  assert (Hin : q ∈ l1 ++ l2).
  { apply lookup_app_Some in Hj as [Hj|[Hl Hj]]; [apply elem_of_app; left; by eapply list_elem_of_lookup_2|].
    apply elem_of_app; right. destruct (j - length l1)%nat as [|d] eqn:Ed; [lia|].
    simpl in Hj. by eapply list_elem_of_lookup_2. }
  apply list_elem_of_lookup in Hin as [k Hk]. pose proof (cnt_pos f _ k q Hk Hq).
  rewrite cnt_app in *. rewrite cnt_cons, Hp in H0. simpl in H0. lia.
Qed.

Lemma cnt_zero {A} (f : A -> bool) ts : (forall p, p ∈ ts -> f p = false) -> cnt f ts = 0.
Proof.
  intros H0. pose proof (cnt_nonneg f ts). destruct (decide (0 < cnt f ts)) as [Hp|]; [|lia].
  apply cnt_pos_inv in Hp as (i & p & Hi & Hf).
  rewrite H0 in Hf; [done|by eapply list_elem_of_lookup_2].
Qed.

#[export] Hint Resolve u8_range u32_range u64_range s32_range s64_range : cact.
