(* ===== verification/Monad.v ===== *)
(** * Monad: state, failure and loops

    The stateful parts of the library are computations [St S A] over an explicit
    state [S]: they return a value and the new state, or [None] when the C code
    would touch an object that does not exist, spin forever, or (in a [loop])
    run out of fuel.  A theorem that concludes [Some] is therefore a totality
    result.  [wp] is the total-correctness weakest precondition and [wp_loop]
    the rule for the one loop combinator. *)

From Stdlib Require Import ZArith Lia.
From stdpp Require Import base list numbers.
From S2P Require Import Prelude.

Definition St (S A : Type) : Type := S -> option (A * S).

Definition ret {S A} (a : A) : St S A := fun s => Some (a, s).

Definition bind {S A B} (c : St S A) (k : A -> St S B) : St S B :=
  fun s => match c s with Some (a, s') => k a s' | None => None end.

Definition fault {S A} : St S A := fun _ => None.

(** Reading and updating the state. *)
Definition gets {S A} (f : S -> A) : St S A := fun s => Some (f s, s).
Definition modify {S} (f : S -> S) : St S unit := fun s => Some (tt, f s).

Notation "'let*' x ':=' c 'in' k" := (bind c (fun x => k))
  (at level 10, x pattern, c at level 100, k at level 200) : c_scope.
Notation "c ';;*' k" := (bind c (fun _ => k))
  (at level 100, k at level 200, right associativity) : c_scope.

(** One loop: the body either continues with a new loop variable or leaves
    with a result. *)
Fixpoint loop {S X R} (fuel : nat) (body : X -> St S (X + R)) (x : X) : St S R :=
  match fuel with
  | O => fault
  | Datatypes.S fuel' =>
      let* r := body x in
      match r with inl x' => loop fuel' body x' | inr r => ret r end
  end.

Definition continue {S X R} (x : X) : St S (X + R) := ret (inl x).
Definition break {S X R} (r : R) : St S (X + R) := ret (inr r).

(** A loop over the elements of an array. *)
Fixpoint for_each {S X} (body : X -> St S unit) (xs : list X) : St S unit :=
  match xs with
  | [] => ret tt
  | x :: xs => body x ;;* for_each body xs
  end.

(** ** The program logic *)

Definition wp {S A} (c : St S A) (s : S) (Q : A -> S -> Prop) : Prop :=
  match c s with Some (a, s') => Q a s' | None => False end.

Section wp_rules.
Context {S A B : Type}.
Implicit Types (Q : A -> S -> Prop) (c : St S A).

Lemma wp_ret a s Q : Q a s -> wp (ret a) s Q.
Proof. done. Qed.

Lemma wp_gets (f : S -> A) s Q : Q (f s) s -> wp (gets f) s Q.
Proof. done. Qed.

Lemma wp_modify (f : S -> S) s (Q : unit -> S -> Prop) : Q tt (f s) -> wp (modify f) s Q.
Proof. done. Qed.

Lemma wp_bind c (k : A -> St S B) s (Q : B -> S -> Prop) :
  wp c s (fun a s' => wp (k a) s' Q) -> wp (bind c k) s Q.
Proof. unfold wp, bind. destruct (c s) as [[a s']|]; done. Qed.

Lemma wp_mono c s Q (Q' : A -> S -> Prop) :
  wp c s Q -> (forall a s', Q a s' -> Q' a s') -> wp c s Q'.
Proof. unfold wp. destruct (c s) as [[a s']|]; auto. Qed.

Lemma wp_eq c s a s' : wp c s (fun a1 s1 => a1 = a /\ s1 = s') -> c s = Some (a, s').
Proof. unfold wp. destruct (c s) as [[a1 s1]|]; [intros [-> ->]|]; done. Qed.

Lemma wp_run c s a s' Q : c s = Some (a, s') -> Q a s' -> wp c s Q.
Proof. unfold wp. intros ->. done. Qed.

Lemma wp_total c s Q : wp c s Q -> exists a s', c s = Some (a, s') /\ Q a s'.
Proof. unfold wp. destruct (c s) as [[a s']|]; [eauto|done]. Qed.

(** Executing the first computation of a sequence whose result is known. *)
Lemma bind_run c (k : A -> St S B) s a s' : c s = Some (a, s') -> bind c k s = k a s'.
Proof. unfold bind. by intros ->. Qed.

(** A decidable postcondition of a concrete run, by evaluation. *)
Lemma wp_check c s Q `{forall a s', Decision (Q a s')} :
  match c s with Some (a, s') => bool_decide (Q a s') | None => false end = true -> wp c s Q.
Proof. unfold wp. destruct (c s) as [[a s']|]; [apply bool_decide_eq_true|done]. Qed.

Lemma wp_total_eq {X} c s (f : X -> A) (g : X -> S) (P : X -> Prop) :
  wp c s (fun a s' => exists x, a = f x /\ s' = g x /\ P x) ->
  exists x, c s = Some (f x, g x) /\ P x.
Proof.
  unfold wp. destruct (c s) as [[a s']|]; [|done].
  intros (x & -> & -> & H). eauto.
Qed.
End wp_rules.

(** ** Partial correctness *)

(** For the parts that may leave an object or run out of memory: whatever
    result there is satisfies [Q]. *)
Definition wlp {S A} (c : St S A) (s : S) (Q : A -> S -> Prop) : Prop := forall a s', c s = Some (a, s') -> Q a s'.

Section wlp_rules.
Context {S A B : Type}.
Implicit Types (Q : A -> S -> Prop) (c : St S A).

Lemma wlp_ret (a : A) s Q : Q a s -> wlp (ret a) s Q.
Proof. by intros H a' s' [= <- <-]. Qed.

Lemma wlp_gets (f : S -> A) s Q : Q (f s) s -> wlp (gets f) s Q.
Proof. by intros H a' s' [= <- <-]. Qed.

Lemma wlp_modify (f : S -> S) s (Q : unit -> S -> Prop) : Q tt (f s) -> wlp (modify f) s Q.
Proof. by intros H a' s' [= <- <-]. Qed.

Lemma wlp_bind c (k : A -> St S B) s (Q : B -> S -> Prop) : wlp c s (fun a s' => wlp (k a) s' Q) -> wlp (bind c k) s Q.
Proof. unfold wlp, bind. intros H b s'. destruct (c s) as [[a s1]|]; [|done]. eauto. Qed.

Lemma wlp_mono c s Q (Q' : A -> S -> Prop) : wlp c s Q -> (forall a s', Q a s' -> Q' a s') -> wlp c s Q'.
Proof. unfold wlp. eauto. Qed.

Lemma wlp_any c s : wlp c s (fun a s' => c s = Some (a, s')).
Proof. by intros a s'. Qed.

(** Replacing the continuation, or both parts, where they agree on what the
    first part can return. *)
Lemma bind_ext c (k k' : A -> St S B) s Q : wlp c s Q -> (forall a s', Q a s' -> k a s' = k' a s') -> bind c k s = bind c k' s.
Proof. unfold wlp, bind. intros H E. destruct (c s) as [[a s']|]; [|done]. auto. Qed.

Lemma bind_cong c (c' : St S A) (k k' : A -> St S B) s Q :
  c s = c' s -> wlp c s Q -> (forall a s', Q a s' -> k a s' = k' a s') -> bind c k s = bind c' k' s.
Proof. intros E H K. rewrite (bind_ext c k k' s Q H K). unfold bind. by rewrite E. Qed.
End wlp_rules.

Lemma wlp_loop {S X R} (I : X -> S -> Prop) (body : X -> St S (X + R)) (Q : R -> S -> Prop) :
  (forall x s, I x s -> wlp (body x) s (fun r s' => match r with inl x' => I x' s' | inr r => Q r s' end)) ->
  forall fuel x s, I x s -> wlp (loop fuel body x) s Q.
Proof.
  intros Hbody. induction fuel as [|fuel IH]; intros x s HI; [done|]. cbn [loop]. apply wlp_bind.
  eapply wlp_mono; [by apply Hbody|]. intros [x'|r] s'; [by apply IH|]. apply wlp_ret.
Qed.

(** The loop rule: [I] holds at every iteration, [meas] decreases, and the
    result satisfies [Q].  The fuel only has to exceed the measure. *)
Lemma wp_loop {S X R} (I : X -> S -> Prop) (meas : X -> nat)
    (body : X -> St S (X + R)) (Q : R -> S -> Prop) :
  (forall x s, I x s ->
     wp (body x) s (fun r s' =>
       match r with
       | inl x' => I x' s' /\ (meas x' < meas x)%nat
       | inr r => Q r s'
       end)) ->
  forall fuel x s, I x s -> (meas x < fuel)%nat -> wp (loop fuel body x) s Q.
Proof.
  intros Hbody. induction fuel as [|fuel IH]; intros x s HI Hf; [lia|].
  simpl. apply wp_bind. eapply wp_mono; [apply Hbody, HI|].
  intros [x'|r] s'; [|done]. intros [HI' Hlt]. apply IH; [done|lia].
Qed.

(** One iteration, for loops that follow a given input. *)
Lemma wp_loop_step {S X R} fuel (body : X -> St S (X + R)) x s (Q : R -> S -> Prop) :
  wp (body x) s (fun r s' => match r with inl x' => wp (loop fuel body x') s' Q | inr r => Q r s' end) ->
  wp (loop (Datatypes.S fuel) body x) s Q.
Proof.
  intros H. cbn [loop]. apply wp_bind. eapply wp_mono; [exact H|]. intros [x'|r] s'; [done|]. by intros.
Qed.

(** The same rule with a ghost value: for loops that walk a linked structure,
    where the measure is the part of the structure still ahead. *)
Lemma wp_loop_ghost {S G X R} (I : G -> X -> S -> Prop) (meas : G -> nat)
    (body : X -> St S (X + R)) (Q : R -> S -> Prop) :
  (forall g x s, I g x s ->
     wp (body x) s (fun r s' =>
       match r with
       | inl x' => exists g', I g' x' s' /\ (meas g' < meas g)%nat
       | inr r => Q r s'
       end)) ->
  forall fuel g x s, I g x s -> (meas g < fuel)%nat -> wp (loop fuel body x) s Q.
Proof.
  intros Hbody. induction fuel as [|fuel IH]; intros g x s HI Hf; [lia|].
  simpl. apply wp_bind. eapply wp_mono; [apply (Hbody g), HI|].
  intros [x'|r] s'; [|done]. intros (g' & HI' & Hlt). apply (IH g'); [done|lia].
Qed.

(** ** Automation *)

(** Runs the straight-line part of a computation: binds and returns. *)
Ltac wp_pure :=
  repeat (cbv beta iota; lazymatch goal with
  | |- wp (bind _ _) _ _ => apply wp_bind
  | |- wp (ret _) _ _ => apply wp_ret
  | |- wp (gets _) _ _ => apply wp_gets
  | |- wp (modify _) _ _ => apply wp_modify
  | |- wp (continue _) _ _ => apply wp_ret
  | |- wp (break _) _ _ => apply wp_ret
  end).

Ltac wlp_pure :=
  repeat (cbv beta iota; lazymatch goal with
  | |- wlp (bind _ _) _ _ => apply wlp_bind
  | |- wlp (ret _) _ _ => apply wlp_ret
  | |- wlp (gets _) _ _ => apply wlp_gets
  | |- wlp (modify _) _ _ => apply wlp_modify
  end).

(** Splits conjunctions and closes the arithmetic and trivial parts. *)
Ltac csplit :=
  repeat match goal with |- _ /\ _ => split end; cbn [fst snd length]; try lia; try done.

(** Equality of loop states, component by component. *)
Ltac state_eq :=
  repeat match goal with |- (_, _) = (_, _) => apply f_equal2 end; try lia; try done.

(** Opens a loop with an invariant and a measure: the goals left are the body,
    and the invariant at entry when it is not immediate. *)
Ltac wp_while I meas :=
  eapply (wp_loop I meas); [ cbv beta | cbv beta; csplit | cbv beta; simpl; try lia ].
