(* ===== verification/Memory.v ===== *)
(** * Memory: the byte memory C code runs on

    A C function that reads and writes through pointers is a computation [M A]
    over a byte memory; touching an address that is not mapped is a fault.
    Regions, NUL-terminated strings and the effect of writing a list of bytes
    are defined here with the lemmas the string and heap components share. *)

From Stdlib Require Import ZArith Lia.
From stdpp Require Import base gmap list numbers.
From S2P Require Import Prelude Monad.

(** Address |-> unsigned byte. *)
Abbreviation mem := (gmap Z Z).

Abbreviation M := (St mem).

(** [*(unsigned char * )p], [*(char * )p] and the byte store. *)
Definition load8 (p : Z) : M Z :=
  fun m => match m !! p with Some b => Some (b, m) | None => None end.

Definition loadc (p : Z) : M Z := let* b := load8 p in ret (s8 b).

Definition store8 (p v : Z) : M unit :=
  fun m => match m !! p with Some _ => Some (tt, <[p := u8 v]> m) | None => None end.

(** A 32-bit word, little-endian. *)
Definition word_bytes (v : Z) : list Z :=
  [u8 v; u8 (Z.shiftr v 8); u8 (Z.shiftr v 16); u8 (Z.shiftr v 24)].

Definition store32 (p v : Z) : M unit :=
  store8 p v ;;* store8 (p + 1) (Z.shiftr v 8) ;;*
  store8 (p + 2) (Z.shiftr v 16) ;;* store8 (p + 3) (Z.shiftr v 24).

(** [n] bytes from [p] on, and a run of stores. *)
Fixpoint load_bytes (p : Z) (n : nat) : M (list Z) :=
  match n with
  | O => ret []
  | S n => let* b := load8 p in let* bs := load_bytes (p + 1) n in ret (b :: bs)
  end.

Fixpoint store_bytes (p : Z) (bs : list Z) : M unit :=
  match bs with
  | [] => ret tt
  | b :: bs => store8 p b ;;* store_bytes (p + 1) bs
  end.

Lemma wp_load8 p m b (Q : Z -> mem -> Prop) :
  m !! p = Some b -> Q b m -> wp (load8 p) m Q.
Proof. unfold wp, load8. intros ->. done. Qed.

Lemma wp_loadc p m b (Q : Z -> mem -> Prop) :
  m !! p = Some b -> Q (s8 b) m -> wp (loadc p) m Q.
Proof. intros. apply wp_bind. eapply wp_load8; eauto. Qed.

Lemma wp_store8 p v m (Q : unit -> mem -> Prop) :
  is_Some (m !! p) -> Q tt (<[p := u8 v]> m) -> wp (store8 p v) m Q.
Proof. unfold wp, store8. intros [b ->]. done. Qed.

(** ** Regions and C strings *)

Definition byte_ok (b : Z) : Prop := 0 <= b < 256.

(** The bytes [l] are at [p]. *)
Definition bytes_at (m : mem) (p : Z) (l : list Z) : Prop :=
  forall i b, l !! i = Some b -> m !! (p + Z.of_nat i) = Some b.

(** [n] writable bytes at [p]. *)
Definition writable (m : mem) (p : Z) (n : nat) : Prop :=
  forall i, (i < n)%nat -> is_Some (m !! (p + Z.of_nat i)).

(** A NUL-terminated string at [p] whose characters are [l]. *)
Definition cstr (m : mem) (p : Z) (l : list Z) : Prop :=
  bytes_at m p (l ++ [0]) /\ Forall (fun b => 0 < b < 256) l.

(** Writing the list [l] at [p]. *)
Fixpoint write_list (p : Z) (l : list Z) (m : mem) : mem :=
  match l with
  | [] => m
  | b :: l => <[p := b]> (write_list (p + 1) l m)
  end.

(** The character a reader of the string [l] finds at offset [i]: the
    terminating NUL once the characters are exhausted. *)
Definition char_at (l : list Z) (i : nat) : Z := default 0 (l !! i).

(** Memory [m'] is [m] with the region [[p, p+n)] replaced. *)
Definition same_outside (m m' : mem) (p : Z) (n : nat) : Prop :=
  forall q, ~ (p <= q < p + Z.of_nat n) -> m' !! q = m !! q.

Section regions.
Implicit Types (m : mem) (p : Z) (l : list Z).

Lemma bytes_at_nil m p : bytes_at m p [].
Proof. intros i b Hb. by rewrite lookup_nil in Hb. Qed.

Lemma bytes_at_cons m p b l :
  bytes_at m p (b :: l) <-> m !! p = Some b /\ bytes_at m (p + 1) l.
Proof.
  unfold bytes_at. split.
  - intros H. split.
    + specialize (H 0%nat b eq_refl). by rewrite Z.add_0_r in H.
    + intros i c Hc. specialize (H (S i) c Hc).
      by replace (p + 1 + Z.of_nat i) with (p + Z.of_nat (S i)) by lia.
  - intros [H0 H] [|i] c Hc; simpl in Hc.
    + simplify_eq. by rewrite Z.add_0_r.
    + replace (p + Z.of_nat (S i)) with (p + 1 + Z.of_nat i) by lia. auto.
Qed.

Lemma bytes_at_app m p l k :
  bytes_at m p (l ++ k) <-> bytes_at m p l /\ bytes_at m (p + Z.of_nat (length l)) k.
Proof.
  revert p. induction l as [|b l IH]; intros p; simpl.
  - replace (p + Z.of_nat 0) with p by lia. pose proof (bytes_at_nil m p). tauto.
  - rewrite !bytes_at_cons, IH.
    replace (p + 1 + Z.of_nat (length l)) with (p + Z.of_nat (S (length l))) by lia.
    tauto.
Qed.

Lemma bytes_at_writable m p l : bytes_at m p l -> writable m p (length l).
Proof.
  intros H i Hi. destruct (lookup_lt_is_Some_2 l i Hi) as [b Hb]. eauto.
Qed.

Lemma bytes_at_insert m p l q v :
  ~ (p <= q < p + Z.of_nat (length l)) ->
  bytes_at m p l -> bytes_at (<[q := v]> m) p l.
Proof.
  intros Hq H i b Hb. pose proof (lookup_lt_Some _ _ _ Hb).
  rewrite lookup_insert_ne by lia. auto.
Qed.

Lemma bytes_at_same_outside m m' p l q n :
  same_outside m m' q n ->
  p + Z.of_nat (length l) <= q \/ q + Z.of_nat n <= p ->
  bytes_at m p l -> bytes_at m' p l.
Proof.
  intros Hs Hd H i b Hb. pose proof (lookup_lt_Some _ _ _ Hb).
  rewrite Hs by lia. auto.
Qed.

Lemma writable_insert m p n q v : writable m p n -> writable (<[q := v]> m) p n.
Proof.
  intros H i Hi. destruct (decide (q = p + Z.of_nat i)) as [->|].
  - rewrite lookup_insert_eq. eauto.
  - rewrite lookup_insert_ne by done. auto.
Qed.

Lemma writable_le m p n k : (k <= n)%nat -> writable m p n -> writable m p k.
Proof. intros ? H i Hi. apply H. lia. Qed.

Lemma same_outside_refl m p n : same_outside m m p n.
Proof. done. Qed.

Lemma same_outside_insert m m' p n q v :
  p <= q < p + Z.of_nat n ->
  same_outside m m' p n -> same_outside m (<[q := v]> m') p n.
Proof. intros Hq H r Hr. rewrite lookup_insert_ne by lia. auto. Qed.

(** What a string gives to a reader walking it. *)
Lemma cstr_cons m p b l :
  cstr m p (b :: l) <-> m !! p = Some b /\ 0 < b < 256 /\ cstr m (p + 1) l.
Proof.
  unfold cstr. simpl. rewrite bytes_at_cons, Forall_cons_iff. tauto.
Qed.

Lemma cstr_nil m p : cstr m p [] <-> m !! p = Some 0.
Proof.
  unfold cstr. simpl. rewrite bytes_at_cons.
  pose proof (bytes_at_nil m (p + 1)). pose proof (Forall_nil_2 (fun b => 0 < b < 256)). tauto.
Qed.

Lemma cstr_app m p l k : cstr m p (l ++ k) -> cstr m (p + Z.of_nat (length l)) k.
Proof.
  unfold cstr. rewrite <- app_assoc, bytes_at_app, Forall_app. tauto.
Qed.

Lemma cstr_nul m p l : cstr m p l -> m !! (p + Z.of_nat (length l)) = Some 0.
Proof. intros H. rewrite <- (app_nil_r l) in H. by apply cstr_app, cstr_nil in H. Qed.

Lemma cstr_at m p l i b : cstr m p l -> l !! i = Some b -> m !! (p + Z.of_nat i) = Some b.
Proof. intros [H _] Hb. apply H. by apply lookup_app_l_Some. Qed.

Lemma cstr_byte m p l i b : cstr m p l -> l !! i = Some b -> 0 < b < 256.
Proof. intros [_ H] Hb. by eapply (Forall_lookup_1 _ _ _ _ H). Qed.

(** What a reader finds at offset [i <= length l], and when it is the NUL. *)
Lemma cstr_read m p l i :
  cstr m p l -> (i <= length l)%nat ->
  m !! (p + Z.of_nat i) = Some (char_at l i) /\ 0 <= char_at l i < 256.
Proof.
  unfold char_at. intros H Hi. destruct (l !! i) as [b|] eqn:E; simpl.
  - split; [by eapply cstr_at|]. pose proof (cstr_byte _ _ _ _ _ H E). lia.
  - apply lookup_ge_None in E. replace i with (length l) by lia.
    split; [by apply cstr_nul|lia].
Qed.

Lemma char_at_end l : char_at l (length l) = 0.
Proof. unfold char_at. by rewrite lookup_ge_None_2 by lia. Qed.

Lemma char_at_zero l i :
  Forall (fun b => 0 < b < 256) l -> (i <= length l)%nat ->
  (char_at l i =? 0) = bool_decide (i = length l).
Proof.
  unfold char_at. intros H Hi. case_bool_decide as E.
  - subst i. by rewrite lookup_ge_None_2 by lia.
  - destruct (lookup_lt_is_Some_2 l i ltac:(lia)) as [b Hb]. rewrite Hb.
    pose proof (Forall_lookup_1 _ _ _ _ H Hb) as Hp. cbv beta in Hp. simpl. zdecide. done.
Qed.

Lemma cstr_drop m p l n :
  (n <= length l)%nat -> cstr m p l -> cstr m (p + Z.of_nat n) (drop n l).
Proof.
  intros Hn H. rewrite <- (take_drop n l) in H. apply cstr_app in H.
  by rewrite length_take_le in H by lia.
Qed.

Lemma cstr_same_outside m m' p l q n :
  same_outside m m' q n ->
  p + Z.of_nat (length l) < q \/ q + Z.of_nat n <= p ->
  cstr m p l -> cstr m' p l.
Proof.
  intros Hs Hd [H Hf]. split; [|done].
  eapply bytes_at_same_outside; eauto. rewrite length_app. simpl. lia.
Qed.

(** [write_list] pointwise. *)
Lemma lookup_write_list m p l q :
  write_list p l m !! q =
    if bool_decide (p <= q < p + Z.of_nat (length l))
    then l !! Z.to_nat (q - p) else m !! q.
Proof.
  revert p. induction l as [|b l IH]; intros p; simpl.
  - by rewrite bool_decide_eq_false_2 by lia.
  - destruct (decide (p = q)) as [<-|].
    + rewrite lookup_insert_eq, bool_decide_eq_true_2, Z.sub_diag by lia. done.
    + rewrite lookup_insert_ne, IH by done.
      destruct (decide (p <= q < p + Z.of_nat (S (length l)))).
      * rewrite !bool_decide_eq_true_2 by lia.
        replace (Z.to_nat (q - p)) with (S (Z.to_nat (q - (p + 1)))) by lia. done.
      * rewrite !bool_decide_eq_false_2 by lia. done.
Qed.

Lemma write_list_snoc m p l b :
  write_list p (l ++ [b]) m = <[p + Z.of_nat (length l) := b]> (write_list p l m).
Proof.
  revert p. induction l as [|c l IH]; intros p; simpl.
  - by rewrite Z.add_0_r.
  - rewrite IH, insert_insert_ne by lia.
    by replace (p + Z.of_nat (S (length l))) with (p + 1 + Z.of_nat (length l)) by lia.
Qed.

Lemma bytes_at_write_list m p l : bytes_at (write_list p l m) p l.
Proof.
  intros i b Hb. pose proof (lookup_lt_Some _ _ _ Hb).
  rewrite lookup_write_list, bool_decide_eq_true_2 by lia.
  by replace (Z.to_nat (p + Z.of_nat i - p)) with i by lia.
Qed.

Lemma same_outside_write_list m p l :
  same_outside m (write_list p l m) p (length l).
Proof. intros q Hq. by rewrite lookup_write_list, bool_decide_eq_false_2. Qed.

Lemma write_list_overwrite m p l1 l2 l3 :
  length l1 = length l2 ->
  write_list p l1 (write_list p (l2 ++ l3) m) = write_list p (l1 ++ l3) m.
Proof.
  intros E. apply map_eq. intros q. rewrite !lookup_write_list, !length_app, E.
  repeat case_bool_decide; try lia; try done.
  - rewrite lookup_app_l by lia. done.
  - rewrite !lookup_app_r by lia. by rewrite E.
Qed.

Lemma writable_write_list m p l q n : writable m q n -> writable (write_list p l m) q n.
Proof.
  intros H i Hi. rewrite lookup_write_list. case_bool_decide; [|auto].
  apply lookup_lt_is_Some_2. lia.
Qed.
Lemma write_list_before p q l b m : q < p -> write_list p l (<[q := b]> m) = <[q := b]> (write_list p l m).
Proof.
  intros Hq. apply map_eq. intros r. rewrite lookup_write_list. destruct (decide (r = q)) as [->|Hr].
  - by rewrite bool_decide_eq_false_2, !lookup_insert_eq by lia.
  - by rewrite !(lookup_insert_ne _ q r) by done; rewrite lookup_write_list.
Qed.

Lemma store_bytes_eq m p l : writable m p (length l) -> Forall byte_ok l ->
  store_bytes p l m = Some (tt, write_list p l m).
Proof.
  revert m p. induction l as [|b l IH]; intros m p Hw Hb; [done|]. apply Forall_cons_1 in Hb as [Hb Hl].
  cbn [store_bytes]. assert (H0 : is_Some (m !! p)) by (specialize (Hw 0%nat ltac:(cbn; lia)); by rewrite Z.add_0_r in Hw).
  apply wp_eq. apply wp_bind, wp_store8; [done|]. unfold byte_ok in Hb. rewrite u8_small by lia.
  eapply wp_run; [apply IH; [|done]|].
  - apply writable_insert. intros i Hi. replace (p + 1 + Z.of_nat i) with (p + Z.of_nat (S i)) by lia. apply Hw. cbn. lia.
  - split; [done|]. by rewrite write_list_before by lia.
Qed.

Lemma load_bytes_eq m p l : bytes_at m p l -> load_bytes p (length l) m = Some (l, m).
Proof.
  revert p. induction l as [|b l IH]; intros p Hb; [done|]. apply bytes_at_cons in Hb as [Hb Hl].
  cbn [load_bytes length]. apply wp_eq. apply wp_bind. eapply wp_load8; [done|].
  apply wp_bind. eapply wp_run; [by apply IH|]. by apply wp_ret.
Qed.
End regions.

#[export] Hint Resolve same_outside_refl writable_insert : cact.

Lemma store32_eq m p v :
  writable m p 4 -> store32 p v m = Some (tt, write_list p (word_bytes v) m).
Proof.
  intros Hw. assert (Hi : forall i, 0 <= i < 4 -> is_Some (m !! (p + i))).
  { intros i Hi. specialize (Hw (Z.to_nat i) ltac:(lia)). by rewrite Z2Nat.id in Hw by lia. }
  pose proof (Hi 0 ltac:(lia)) as H0. rewrite Z.add_0_r in H0.
  pose proof (Hi 1 ltac:(lia)) as H1. pose proof (Hi 2 ltac:(lia)) as H2. pose proof (Hi 3 ltac:(lia)) as H3.
  apply wp_eq. unfold store32. repeat (wp_pure; apply wp_store8;
    [rewrite ?lookup_insert_ne by lia; done|]). split; [done|].
  apply map_eq. intros q. rewrite lookup_write_list. cbn [length word_bytes].
  destruct (decide (q = p + 3)) as [->|]; [|destruct (decide (q = p + 2)) as [->|];
    [|destruct (decide (q = p + 1)) as [->|]; [|destruct (decide (q = p)) as [->|]]]];
    repeat first [rewrite lookup_insert_eq|rewrite lookup_insert_ne by lia].
  all: first [rewrite bool_decide_eq_true_2 by lia|rewrite bool_decide_eq_false_2 by lia; done].
  - by replace (Z.to_nat (p + 3 - p)) with 3%nat by lia.
  - by replace (Z.to_nat (p + 2 - p)) with 2%nat by lia.
  - by replace (Z.to_nat (p + 1 - p)) with 1%nat by lia.
  - by replace (Z.to_nat (p - p)) with 0%nat by lia.
Qed.

(** Filling disjoint regions one after the other: [body x] fills the region of
    [x] and leaves the rest of memory alone; [R] keeps the regions apart. *)
Lemma wp_fill_regions {X} (body : X -> M unit) (region : X -> Z) (content : X -> list Z)
    (P : X -> mem -> Prop) (R : X -> X -> Prop) :
  (forall x m, P x m -> wp (body x) m (fun _ m' =>
     bytes_at m' (region x) (content x) /\ same_outside m m' (region x) (length (content x)))) ->
  (forall x y m m', R x y -> P y m -> same_outside m m' (region x) (length (content x)) -> P y m') ->
  (forall x y q, R x y -> region x <= q < region x + Z.of_nat (length (content x)) ->
     ~ (region y <= q < region y + Z.of_nat (length (content y)))) ->
  forall xs m, ForallOrdPairs R xs -> Forall (fun x => P x m) xs ->
  wp (for_each body xs) m (fun _ m' =>
    Forall (fun x => bytes_at m' (region x) (content x)) xs
    /\ forall q, Forall (fun x => ~ (region x <= q < region x + Z.of_nat (length (content x)))) xs ->
         m' !! q = m !! q).
Proof.
  intros Hbody Hstable Hdis xs. induction xs as [|x xs IH]; intros m HR HP; simpl.
  { apply wp_ret. done. }
  apply Forall_cons_1 in HP as [Hx HP]. inversion HR as [|? ? HRx HR']; subst.
  apply wp_bind. eapply wp_mono; [by apply Hbody|]. intros [] m1 [Hb Hsame].
  eapply wp_mono; [apply (IH m1 HR')|].
  { apply Forall_forall. intros y Hy. rewrite Forall_forall in HRx, HP.
    apply (Hstable x y m m1); auto. }
  intros [] m2 [Hrest Hout]. split.
  - constructor; [|done]. intros i b Hi. rewrite Hout; [by apply Hb|].
    pose proof (lookup_lt_Some _ _ _ Hi).
    apply Forall_forall. intros y Hy. rewrite Forall_forall in HRx.
    apply (Hdis x y); [auto|lia].
  - intros q Hq. apply Forall_cons_1 in Hq as [Hqx Hq]. rewrite Hout by done. by apply Hsame.
Qed.

(** ** Concrete memories *)

Lemma writable_check m p n :
  forallb (fun i => bool_decide (is_Some ((m : mem) !! (p + Z.of_nat i)))) (seq 0 n) = true ->
  writable m p n.
Proof.
  intros H i Hi. rewrite forallb_forall in H.
  specialize (H i ltac:(apply in_seq; lia)). by apply bool_decide_eq_true in H.
Qed.

(** Prove [cstr], [bytes_at] and [writable] of a memory given by its contents. *)
Ltac solve_cstr :=
  repeat (apply cstr_cons; split; [vm_compute; reflexivity|split; [lia|]]);
  apply cstr_nil; vm_compute; reflexivity.
Ltac solve_bytes :=
  repeat (apply bytes_at_cons; split; [vm_compute; reflexivity|]); apply bytes_at_nil.
Ltac solve_writable := apply writable_check; vm_compute; reflexivity.
