(* ===== verification/Arith64.v ===== *)
(** * Arith64: the 64-bit division routines of src/udivdi3.c

    i386 has no 64-bit divide instruction and the library links no libgcc, so
    src/udivdi3.c supplies [__udivdi3], [__umoddi3], [__divdi3] and
    [__moddi3] as shift-and-subtract loops.  [u64] and [i64] values are [Z]s in
    their ranges with the wrap-around written out; the normalising loop has
    fuel 64, one unit per bit, and the theorems show it is never exhausted. *)

From Stdlib Require Import ZArith Lia.
From stdpp Require Import base option.
From S2P Require Import Prelude.

Module Arith64.

(** [while (b < r && !(b & 0x8000000000000000ULL)) { b <<= 1; shift++; }] *)
Fixpoint udiv_norm (fuel : nat) (b r : Z) (shift : nat) : option (Z * nat) :=
  match fuel with
  | O => None
  | S fuel' =>
      if (b <? r) && (Z.land b 0x8000000000000000 =? 0)
      then udiv_norm fuel' (u64 (Z.shiftl b 1)) r (S shift)
      else Some (b, shift)
  end.

(** [for (; shift >= 0; shift--)]: [n] is [shift + 1]. *)
Fixpoint udiv_sub (n : nat) (b r q : Z) : Z :=
  match n with
  | O => q
  | S shift =>
      let '(r, q) :=
        if r >=? b
        then (u64 (r - b), Z.lor q (Z.shiftl 1 (Z.of_nat shift)))
        else (r, q) in
      udiv_sub shift (Z.shiftr b 1) r q
  end.

Definition __udivdi3 (a b : Z) : option Z :=
  if b =? 0 then Some 0
  else
    '(b, shift) ← udiv_norm 65 b a 0;
    Some (udiv_sub (S shift) b a 0).

Definition __umoddi3 (a b : Z) : option Z :=
  if b =? 0 then Some 0
  else q ← __udivdi3 a b; Some (u64 (a - q * b)).

(** The magnitude [(u64)(-(a + 1)) + 1ULL] of a negative operand. *)
Definition magnitude (a : Z) : Z :=
  if a <? 0 then u64 (u64 (- (a + 1)) + 1) else u64 a.

Definition __divdi3 (a b : Z) : option Z :=
  let neg := negb (Bool.eqb (a <? 0) (b <? 0)) in
  q ← __udivdi3 (magnitude a) (magnitude b);
  Some (if neg then s64 (- s64 q) else s64 q).

Definition __moddi3 (a b : Z) : option Z :=
  q ← __divdi3 a b; Some (s64 (a - q * b)).

(** ** The loops *)

Lemma top_bit_clear b :
  0 <= b < 2 ^ 64 -> (Z.land b 0x8000000000000000 =? 0) = (b <? 2 ^ 63).
Proof.
  intros Hb. change 0x8000000000000000 with (2 ^ 63).
  rewrite land_pow2 by lia. change 63 with (64 - 1) at 1.
  rewrite testbit_top by lia. change (64 - 1) with 63.
  destruct (Z.leb_spec (2 ^ 63) b); zdecide; done.
Qed.

(** Normalising leaves [b0 * 2^shift] with the dividend below its double, and
    64 iterations are enough because each one at least doubles [b]. *)
Lemma udiv_norm_spec r b0 :
  0 < b0 -> 0 <= r < 2 ^ 64 ->
  forall fuel shift,
  b0 * 2 ^ Z.of_nat shift < 2 ^ 64 ->
  (64 < shift + fuel)%nat ->
  exists n, udiv_norm fuel (b0 * 2 ^ Z.of_nat shift) r shift = Some (b0 * 2 ^ Z.of_nat n, n)
    /\ r < 2 * (b0 * 2 ^ Z.of_nat n) /\ b0 * 2 ^ Z.of_nat n < 2 ^ 64.
Proof.
  intros Hb0 Hr. induction fuel as [|fuel IH]; intros shift Hb Hfuel.
  - assert (2 ^ 64 < 2 ^ Z.of_nat shift) by (apply Z.pow_lt_mono_r; lia). nia.
  - cbn [udiv_norm]. set (b := b0 * 2 ^ Z.of_nat shift) in *.
    assert (0 < b) by (unfold b; apply Z.mul_pos_pos; [lia|apply Z.pow_pos_nonneg; lia]).
    rewrite top_bit_clear by lia.
    destruct (Z.ltb_spec b r); destruct (Z.ltb_spec b (2 ^ 63)); simpl.
    2-4: exists shift; fold b; repeat split; lia.
    rewrite Z.shiftl_mul_pow2, u64_small by lia.
    replace (b * 2 ^ 1) with (b0 * 2 ^ Z.of_nat (S shift)).
    + apply IH; [|lia]. rewrite Nat2Z.inj_succ, Z.pow_succ_r by lia. lia.
    + unfold b. rewrite Nat2Z.inj_succ, Z.pow_succ_r by lia. lia.
Qed.

(** Subtracting computes the quotient bit by bit: [q * b0 + r] is the invariant. *)
Lemma udiv_sub_spec b0 :
  0 < b0 ->
  forall n b r q,
  (n <> O -> b = b0 * 2 ^ (Z.of_nat n - 1)) ->
  0 <= r < b0 * 2 ^ Z.of_nat n -> b0 * 2 ^ Z.of_nat n < 2 ^ 65 -> r < 2 ^ 64 ->
  q mod 2 ^ Z.of_nat n = 0 ->
  udiv_sub n b r q = q + r / b0.
Proof.
  intros Hb0. induction n as [|k IH]; intros b r q Hb Hr Hlim Hr64 Hq.
  - change (2 ^ Z.of_nat 0) with 1 in *. rewrite Z.div_small by lia. simpl. lia.
  - specialize (Hb ltac:(done)). cbn [udiv_sub].
    rewrite Nat2Z.inj_succ, <- Z.add_1_r in *.
    replace (Z.of_nat k + 1 - 1) with (Z.of_nat k) in Hb by lia.
    rewrite Z.pow_add_r, Z.pow_1_r in * by lia.
    set (P := 2 ^ Z.of_nat k) in *.
    assert (0 < P) by (apply Z.pow_pos_nonneg; lia).
    rewrite Z.geb_leb, Z.shiftl_1_l, Z.shiftr_div_pow2, Z.pow_1_r by lia. fold P.
    assert (Hqk : q mod P = 0).
    { apply Z.mod_divide in Hq; [|lia]. destruct Hq as [c ->].
      rewrite (Z.mul_comm P 2), Z.mul_assoc. apply Z.mod_mul. lia. }
    assert (Hbk : k <> O -> b / 2 = b0 * 2 ^ (Z.of_nat k - 1)).
    { intros Hk. rewrite Hb. unfold P.
      replace (Z.of_nat k) with (Z.of_nat k - 1 + 1) at 1 by lia.
      rewrite Z.pow_add_r, Z.pow_1_r, Z.mul_assoc by lia. apply Z.div_mul. lia. }
    destruct (Z.leb_spec b r).
    + rewrite u64_small by lia.
      unfold P. rewrite lor_pow2_add; [fold P|lia|].
      2:{ rewrite Z.pow_add_r, Z.pow_1_r by lia. done. }
      rewrite IH; try done; try lia.
      * replace r with ((r - b) + P * b0) at 2 by lia.
        rewrite Z.div_add by lia. lia.
      * fold P. rewrite Z.add_mod, Hqk, Z.mod_same by lia. done.
    + rewrite IH; try done; lia.
Qed.

Lemma udiv_correct a b :
  0 <= a < 2 ^ 64 -> 0 < b < 2 ^ 64 -> __udivdi3 a b = Some (a / b).
Proof.
  intros Ha Hb. unfold __udivdi3. zdecide.
  destruct (udiv_norm_spec a b ltac:(lia) Ha 65 0) as (n & E & Hlt & Hlim); [simpl; lia|lia|].
  change (Z.of_nat 0) with 0 in E. rewrite Z.pow_0_r, Z.mul_1_r in E.
  rewrite E. cbn [mbind option_bind]. f_equal.
  assert (2 ^ Z.of_nat (S n) = 2 * 2 ^ Z.of_nat n).
  { rewrite Nat2Z.inj_succ, Z.pow_succ_r by lia. done. }
  rewrite udiv_sub_spec with (b0 := b); try lia.
  - intros _. by replace (Z.of_nat (S n) - 1) with (Z.of_nat n) by lia.
  - by rewrite Z.mod_0_l by (apply Z.pow_nonzero; lia).
Qed.

Lemma magnitude_abs a : - 2 ^ 63 <= a < 2 ^ 63 -> magnitude a = Z.abs a.
Proof.
  intros. unfold magnitude. destruct (Z.ltb_spec a 0).
  - rewrite (u64_small (- (a + 1))) by lia. rewrite u64_small by lia. lia.
  - rewrite u64_small by lia. lia.
Qed.

(** ** Properties *)

(** C40: unsigned division and remainder.  For all 64-bit operands, [__udivdi3]
    and [__umoddi3] terminate and return the exact quotient and remainder; a zero divisor
    yields 0 instead of a trap. *)
Theorem udivdi3_umoddi3_exact a b :
  0 <= a < 2 ^ 64 -> 0 <= b < 2 ^ 64 ->
  __udivdi3 a b = Some (if b =? 0 then 0 else a / b) /\
  __umoddi3 a b = Some (if b =? 0 then 0 else a mod b).
Proof.
  intros Ha Hb. destruct (Z.eqb_spec b 0) as [->|].
  - split; reflexivity.
  - rewrite udiv_correct by lia. split; [done|].
    unfold __umoddi3. zdecide. rewrite udiv_correct by lia.
    cbn [mbind option_bind]. f_equal.
    replace (a - a / b * b) with (a mod b) by (rewrite Z.mod_eq by lia; lia).
    apply u64_small. pose proof (Z.mod_pos_bound a b). lia.
Qed.

Lemma udivdi3_umoddi3_exact_witness :
  __udivdi3 (2 ^ 64 - 1) 10 = Some 1844674407370955161 /\
  __umoddi3 (2 ^ 64 - 1) 10 = Some 5.
Proof. exact (udivdi3_umoddi3_exact (2 ^ 64 - 1) 10 ltac:(lia) ltac:(lia)). Defined.

(** signed division and remainder truncate toward zero.  For all 64-bit signed operands
    with a nonzero divisor, [__divdi3] is C's quotient, wrapped to 64 bits (so
    INT64_MIN / -1 is INT64_MIN), and [__moddi3] is C's remainder, whose sign
    is the dividend's. *)
Theorem divdi3_moddi3_truncate a b :
  - 2 ^ 63 <= a < 2 ^ 63 -> - 2 ^ 63 <= b < 2 ^ 63 -> b <> 0 ->
  __divdi3 a b = Some (s64 (Z.quot a b)) /\
  __moddi3 a b = Some (Z.rem a b).
Proof.
  intros Ha Hb Hb0.
  assert (Hq : __divdi3 a b = Some (s64 (Z.quot a b))).
  { unfold __divdi3. rewrite !magnitude_abs, udiv_correct by lia.
    cbn [mbind option_bind]. f_equal.
    pose proof (Z.quot_abs a b Hb0) as E. rewrite Z.quot_div_nonneg in E by lia.
    rewrite E. set (q := Z.quot a b) in *.
    assert (Hle : Z.abs q <= Z.abs a).
    { rewrite <- E. apply Z.div_le_upper_bound; nia. }
    assert (Hsgn : if negb (Bool.eqb (a <? 0) (b <? 0)) then q <= 0 else 0 <= q).
    { pose proof (Z.quot_rem a b Hb0). pose proof (Z.rem_bound_abs a b Hb0).
      unfold q. destruct (Z.ltb_spec a 0), (Z.ltb_spec b 0); simpl.
      - rewrite <- (Z.quot_opp_opp a b Hb0). apply Z.quot_pos; lia.
      - rewrite <- (Z.opp_involutive a), Z.quot_opp_l by lia.
        pose proof (Z.quot_pos (- a) b). lia.
      - rewrite <- (Z.opp_involutive b), Z.quot_opp_r by lia.
        pose proof (Z.quot_pos a (- b)). lia.
      - apply Z.quot_pos; lia. }
    destruct (negb _).
    - rewrite (Z.abs_neq q) by lia. destruct (Z.eq_dec q (- 2 ^ 63)) as [->|]; [done|].
      rewrite (s64_small (- q)) by lia. f_equal. lia.
    - rewrite (Z.abs_eq q) by lia. done. }
  split; [done|]. unfold __moddi3. rewrite Hq. cbn [mbind option_bind]. f_equal.
  pose proof (Z.quot_rem a b Hb0). pose proof (Z.rem_bound_abs a b Hb0).
  destruct (Z.eq_dec (Z.quot a b) (2 ^ 63)) as [Eq|].
  - rewrite Eq in *. change (s64 (2 ^ 63)) with (- 2 ^ 63).
    assert (b = -1) as -> by nia. assert (a = - 2 ^ 63) as -> by lia. reflexivity.
  - assert (Z.abs (Z.quot a b) <= Z.abs a).
    { rewrite <- Z.quot_abs, Z.quot_div_nonneg by lia. apply Z.div_le_upper_bound; nia. }
    rewrite (s64_small (Z.quot a b)) by lia.
    rewrite s64_small by lia. lia.
Qed.

Lemma divdi3_moddi3_truncate_witness :
  __divdi3 (-7) 2 = Some (-3) /\ __moddi3 (-7) 2 = Some (-1).
Proof. exact (divdi3_moddi3_truncate (-7) 2 ltac:(lia) ltac:(lia) ltac:(lia)). Defined.

End Arith64.
