(* ===== verification/Ctype.v ===== *)
(** * Ctype: the character classes of src/ctype.c

    The C functions return an [int] used as a truth value; here they return a
    [bool], and the two case conversions return the converted code. *)

From Stdlib Require Import ZArith Lia Bool String Ascii.
From stdpp Require Import base list numbers.
From S2P Require Import Prelude.

Module Ctype.

Definition isalpha (c : Z) : bool :=
  ((c >=? 97) && (c <=? 122)) || ((c >=? 65) && (c <=? 90)).
Definition isdigit (c : Z) : bool := (c >=? 48) && (c <=? 57).
Definition isalnum (c : Z) : bool := isalpha c || isdigit c.
Definition iscntrl (c : Z) : bool := ((c >=? 0) && (c <? 32)) || (c =? 127).
Definition isgraph (c : Z) : bool := (c >? 32) && (c <? 127).
Definition islower (c : Z) : bool := (c >=? 97) && (c <=? 122).
Definition isprint (c : Z) : bool := (c >=? 32) && (c <? 127).
Definition ispunct (c : Z) : bool := isgraph c && negb (isalnum c).
Definition isspace (c : Z) : bool := (c =? 32) || ((c >=? 9) && (c <=? 13)).
Definition isupper (c : Z) : bool := (c >=? 65) && (c <=? 90).
Definition isxdigit (c : Z) : bool :=
  isdigit c || ((c >=? 97) && (c <=? 102)) || ((c >=? 65) && (c <=? 70)).
Definition tolower (c : Z) : Z :=
  if (c >=? 65) && (c <=? 90) then c + (97 - 65) else c.
Definition toupper (c : Z) : Z :=
  if (c >=? 97) && (c <=? 122) then c - (97 - 65) else c.

(** ** Properties *)

(** the classes partition the ASCII range as the C standard requires:
    every code in [0, 127] is exactly one of control, space character, letter, digit or
    punctuation mark; letters are exactly the upper- and lower-case ones, and
    a graphic character is a printing character other than the space. *)
Theorem ctype_classes_partition c :
  0 <= c < 128 ->
  (b2z (iscntrl c) + b2z (c =? 32) + b2z (isalpha c) + b2z (isdigit c) + b2z (ispunct c) = 1)
  /\ isalpha c = xorb (isupper c) (islower c)
  /\ isgraph c = isprint c && negb (c =? 32)
  /\ isgraph c = isalnum c || ispunct c.
Proof.
  revert c. apply (range_check _ 0 128). vm_compute. reflexivity.
Qed.

Lemma ctype_classes_partition_witness :
  b2z (iscntrl 65) + b2z (65 =? 32) + b2z (isalpha 65) + b2z (isdigit 65) + b2z (ispunct 65) = 1
  /\ isalpha 65 = xorb (isupper 65) (islower 65)
  /\ isgraph 65 = isprint 65 && negb (65 =? 32)
  /\ isgraph 65 = isalnum 65 || ispunct 65.
Proof. exact (ctype_classes_partition 65 ltac:(lia)). Defined.

(** ** The classes of the C locale as ranges *)

(** The codes of a text. *)
Definition codes (s : string) : list Z := (fun a => Z.of_N (N_of_ascii a)) <$> list_ascii_of_string s.

(** The classes of the C locale. *)
Definition classes : list (string * list (Z * Z)) :=
  [ ("alpha", [(65, 90); (97, 122)]); ("digit", [(48, 57)]);
    ("alnum", [(48, 57); (65, 90); (97, 122)]); ("space", [(9, 13); (32, 32)]);
    ("upper", [(65, 90)]); ("lower", [(97, 122)]);
    ("punct", [(33, 47); (58, 64); (91, 96); (123, 126)]); ("cntrl", [(0, 31); (127, 127)]);
    ("print", [(32, 126)]); ("graph", [(33, 126)]);
    ("blank", [(32, 32); (9, 9)]); ("xdigit", [(48, 57); (65, 70); (97, 102)]) ]%string.

Definition within (rs : list (Z * Z)) (c : Z) : bool := existsb (fun '(lo, hi) => (lo <=? c) && (c <=? hi)) rs.

Lemma byte_check (f g : Z -> bool) c : forallb (fun x => eqb (f x) (g x)) (seqZ 0 256) = true -> 0 <= c < 256 -> f c = g c.
Proof.
  intros H Hc. rewrite forallb_forall in H. apply eqb_prop, H. apply list_elem_of_In, elem_of_seqZ. lia.
Qed.

End Ctype.
