(* ===== verification/CString.v ===== *)
(** * CString: src/string.c on the byte memory

    One definition per function, on the memory of [Memory]: a [char *] is an
    address, [*p] a load of a signed byte, every loop a [loop] with the fuel
    [fuel] as first argument.  Counters that index an object are unbounded [Z]s
    (an object is smaller than 2^31 bytes); integer values computed from data
    ([itoa], [atoi]) carry their 32-bit wrap-around.  A [char **] out-parameter is an extra
    component of the argument and of the result. *)

From Stdlib Require Import ZArith Lia Bool.
From stdpp Require Import base gmap list numbers.
From S2P Require Import Prelude Monad Memory.

Module CString.

Section Defs.
Variable fuel : nat.

Definition compare_string (s1 s2 : Z) : M Z :=
  loop fuel (fun i =>
    let* c1 := loadc (s1 + i) in
    let* c2 := loadc (s2 + i) in
    if c1 =? c2 then
      if c1 =? 0 then break 0 else continue (i + 1)
    else break (c1 - c2)) 0.

Definition strcmp (s1 s2 : Z) : M Z := compare_string s1 s2.

Definition strlen (s : Z) : M Z :=
  loop fuel (fun len =>
    let* c := loadc (s + len) in
    if c =? 0 then break len else continue (len + 1)) 0.

(** [while ( *src != '\0') *ptr++ = *src++;], leaving [ptr]. *)
Definition copy_until_nul (ptr src : Z) : M Z :=
  loop fuel (fun '(ptr, src) =>
    let* c := loadc src in
    if c =? 0 then break ptr
    else store8 ptr c ;;* continue (ptr + 1, src + 1)) (ptr, src).

Definition strcat (dest src : Z) : M Z :=
  let* n := strlen dest in
  let* ptr := copy_until_nul (dest + n) src in
  store8 ptr 0 ;;*
  ret dest.

Definition strcpy (dest src : Z) : M Z :=
  let* ptr := copy_until_nul dest src in
  store8 ptr 0 ;;*
  ret dest.

Definition copy_string (dest src : Z) : M Z := strcpy dest src.

(** [do { str[i++] = n % 10 + '0'; } while ((n /= 10) > 0);], leaving [i]. *)
Definition itoa_digits (str n : Z) : M Z :=
  loop fuel (fun '(i, n) =>
    store8 (str + i) (Z.rem n 10 + 48) ;;*
    let n := Z.quot n 10 in
    if n >? 0 then continue (i + 1, n) else break (i + 1)) (0, n).

(** [for (int j = 0, k = i - 1; j < k; j++, k--)] swap [str[j]] and [str[k]]. *)
Definition reverse_bytes (str i : Z) : M unit :=
  loop fuel (fun '(j, k) =>
    if j <? k then
      let* temp := loadc (str + j) in
      let* c := loadc (str + k) in
      store8 (str + j) c ;;*
      store8 (str + k) temp ;;*
      continue (j + 1, k - 1)
    else break tt) (0, i - 1).

Definition itoa (n str : Z) : M unit :=
  let sign := n in
  let n := if sign <? 0 then s32 (- n) else n in
  let* i := itoa_digits str n in
  let* i := (if sign <? 0 then store8 (str + i) 45 (* '-' *) ;;* ret (i + 1) else ret i) in
  store8 (str + i) 0 ;;*
  reverse_bytes str i.

Definition atoi (str : Z) : M Z :=
  let* c0 := loadc str in
  let '(sign, i) := if c0 =? 45 then (-1, 1) else (1, 0) in
  let* res := loop fuel (fun '(res, i) =>
    let* c := loadc (str + i) in
    if c =? 0 then break res
    else if (c <? 48) || (c >? 57) then break res
    else continue (s32 (res * 10 + c - 48), i + 1)) (0, i) in
  ret (s32 (sign * res)).

Definition hex_to_ascii (n str : Z) : M unit :=
  store8 str 48 ;;*
  store8 (str + 1) 120 ;;*
  loop fuel (fun i =>
    if i >=? 0 then
      let nibble := Z.land (Z.shiftr n (i * 4)) 15 in
      (if nibble <? 10
       then store8 (str + (9 - i)) (nibble + 48)
       else store8 (str + (9 - i)) (nibble - 10 + 65)) ;;*
      continue (i - 1)
    else break tt) 7 ;;*
  store8 (str + 10) 0.

(** [while (len-- > 0) *ptr++ = (unsigned char)val;] *)
Definition set_loop (ptr val len : Z) : M unit :=
  loop fuel (fun '(ptr, len) =>
    if len >? 0 then store8 ptr (u8 val) ;;* continue (ptr + 1, len - 1)
    else break tt) (ptr, len).

(** [while (len-- > 0) *d++ = *s++;] *)
Definition copy_loop (d s len : Z) : M unit :=
  loop fuel (fun '(d, s, len) =>
    if len >? 0 then
      let* b := load8 s in
      store8 d b ;;* continue (d + 1, s + 1, len - 1)
    else break tt) (d, s, len).

Definition memory_set (dest val len : Z) : M Z :=
  set_loop dest val len ;;* ret dest.

Definition memory_copy (dest src len : Z) : M Z :=
  copy_loop dest src len ;;* ret dest.

(** [for (i = 0; i < n; i++) if (p1[i] != p2[i]) return p1[i] - p2[i];] *)
Definition compare_loop (p1 p2 n : Z) : M Z :=
  loop fuel (fun i =>
    if i <? n then
      let* a := load8 (p1 + i) in
      let* b := load8 (p2 + i) in
      if negb (a =? b) then break (a - b) else continue (i + 1)
    else break 0) 0.

Definition memory_compare (s1 s2 n : Z) : M Z := compare_loop s1 s2 n.

Definition memset (dest val len : Z) : M Z :=
  set_loop dest val len ;;* ret dest.

Definition memcpy (dest src len : Z) : M Z :=
  copy_loop dest src len ;;* ret dest.

Definition memcmp (s1 s2 n : Z) : M Z := compare_loop s1 s2 n.

Definition strncmp (a b n : Z) : M Z :=
  loop fuel (fun '(a, b, n) =>
    if n >? 0 then
      let* ca := loadc a in
      if ca =? 0 then let* cb := loadc b in break (ca - cb)
      else
        let* cb := loadc b in
        if ca =? cb then continue (a + 1, b + 1, n - 1)
        else break (ca - cb)
    else break 0) (a, b, n).

Definition strncpy (dst src n : Z) : M unit :=
  let* i := loop fuel (fun i =>
    let* c := loadc (src + i) in
    if negb (c =? 0) && (i <? n - 1)
    then store8 (dst + i) c ;;* continue (i + 1)
    else break i) 0 in
  store8 (dst + i) 0.

Definition buf_append (buf pos max s : Z) : M Z :=
  let* pos := loop fuel (fun '(pos, s) =>
    let* c := loadc s in
    if negb (c =? 0) && (pos <? max - 1)
    then store8 (buf + pos) c ;;* continue (pos + 1, s + 1)
    else break pos) (pos, s) in
  store8 (buf + pos) 0 ;;*
  ret pos.

(** [tmp] is the address of the 32-byte local array. *)
Definition buf_append_int (tmp buf pos max n : Z) : M Z :=
  itoa n tmp ;;*
  buf_append buf pos max tmp.

Definition strchr (s c : Z) : M Z :=
  loop fuel (fun s =>
    let* ch := loadc s in
    if ch =? 0 then break (if c =? 0 then s else 0)
    else if ch =? s8 c then break s
    else continue (s + 1)) s.

Definition strrchr (s c : Z) : M Z :=
  loop fuel (fun '(s, last) =>
    let* ch := loadc s in
    if ch =? 0 then break (if c =? 0 then s else last)
    else continue (s + 1, if ch =? s8 c then s else last)) (s, 0).

(** [while ( *a) { if ( *s == *a) { found = 1; break; } a++; }] *)
Definition char_in_set (ch accept : Z) : M bool :=
  loop fuel (fun a =>
    let* ca := loadc a in
    if ca =? 0 then break false
    else if ch =? ca then break true
    else continue (a + 1)) accept.

Definition strspn (s accept : Z) : M Z :=
  loop fuel (fun '(s, n) =>
    let* ch := loadc s in
    if ch =? 0 then break n
    else
      let* found := char_in_set ch accept in
      if negb found then break n else continue (s + 1, n + 1)) (s, 0).

Definition strcspn (s reject : Z) : M Z :=
  loop fuel (fun '(s, n) =>
    let* ch := loadc s in
    if ch =? 0 then break n
    else
      let* found := char_in_set ch reject in
      if found then break n else continue (s + 1, n + 1)) (s, 0).

(** [while ( *h && *n && *h == *n) { h++; n++; }], leaving [n]. *)
Definition match_prefix (h n : Z) : M Z :=
  loop fuel (fun '(h, n) =>
    let* ch := loadc h in
    if ch =? 0 then break n
    else
      let* cn := loadc n in
      if cn =? 0 then break n
      else if ch =? cn then continue (h + 1, n + 1) else break n) (h, n).

Definition strstr (haystack needle : Z) : M Z :=
  let* c0 := loadc needle in
  if c0 =? 0 then ret haystack
  else
    loop fuel (fun haystack =>
      let* ch := loadc haystack in
      if ch =? 0 then break 0
      else
        let* n := match_prefix haystack needle in
        let* cn := loadc n in
        if cn =? 0 then break haystack else continue (haystack + 1)) haystack.

Definition strpbrk (s accept : Z) : M Z :=
  loop fuel (fun s =>
    let* ch := loadc s in
    if ch =? 0 then break 0
    else
      let* found := char_in_set ch accept in
      if found then break s else continue (s + 1)) s.

Definition memmove (dest src len : Z) : M Z :=
  (if dest <? src then
     loop fuel (fun i =>
       if i <? len then
         let* b := load8 (src + i) in
         store8 (dest + i) b ;;* continue (i + 1)
       else break tt) 0
   else if dest >? src then
     loop fuel (fun i =>
       if i >? 0 then
         let* b := load8 (src + (i - 1)) in
         store8 (dest + (i - 1)) b ;;* continue (i - 1)
       else break tt) len
   else ret tt) ;;*
  ret dest.

Definition _lower (c : Z) : Z :=
  if (c >=? 65) && (c <=? 90) then c + (97 - 65) else c.

Definition strcasecmp (s1 s2 : Z) : M Z :=
  let* r := loop fuel (fun '(s1, s2) =>
    let* c1 := loadc s1 in
    if c1 =? 0 then break (s1, s2)
    else
      let* c2 := loadc s2 in
      if _lower c1 =? _lower c2 then continue (s1 + 1, s2 + 1)
      else break (s1, s2)) (s1, s2) in
  let '(s1, s2) := r in
  let* c1 := load8 s1 in
  let* c2 := load8 s2 in
  ret (_lower c1 - _lower c2).

Definition strncasecmp (s1 s2 n : Z) : M Z :=
  if n =? 0 then ret 0
  else
    loop fuel (fun '(s1, s2, n) =>
      if n >? 0 then
        let* c1 := load8 s1 in
        let* c2 := load8 s2 in
        let a := _lower c1 in
        let b := _lower c2 in
        if negb (a =? b) then break (a - b)
        else if c1 =? 0 then break 0
        else continue (s1 + 1, s2 + 1, n - 1)
      else break 0) (s1, s2, n).

(** The two duplicating functions take the allocator as a parameter. *)
Definition strdup (malloc : Z -> M Z) (s : Z) : M Z :=
  if s =? 0 then ret 0
  else
    let* n := strlen s in
    let* p := malloc (n + 1) in
    if p =? 0 then ret 0
    else memcpy p s (n + 1) ;;* ret p.

(** [while (m < n && s[m]) m++;] *)
Definition strnlen (s maxlen : Z) : M Z :=
  loop fuel (fun n =>
    if n <? maxlen then
      let* c := loadc (s + n) in
      if c =? 0 then break n else continue (n + 1)
    else break n) 0.

Definition strndup (malloc : Z -> M Z) (s n : Z) : M Z :=
  if s =? 0 then ret 0
  else
    let* m := strnlen s n in
    let* p := malloc (m + 1) in
    if p =? 0 then ret 0
    else
      memcpy p s m ;;*
      store8 (p + m) 0 ;;*
      ret p.

Definition strncat (dest src n : Z) : M Z :=
  let* d := loop fuel (fun d =>
    let* c := loadc d in
    if c =? 0 then break d else continue (d + 1)) dest in
  let* d := loop fuel (fun '(d, src, n) =>
    if n >? 0 then
      let* c := loadc src in
      if c =? 0 then break d
      else store8 d c ;;* continue (d + 1, src + 1, n - 1)
    else break d) (d, src, n) in
  store8 d 0 ;;*
  ret dest.

Definition stpcpy (dest src : Z) : M Z :=
  let* dest := copy_until_nul dest src in
  store8 dest 0 ;;*
  ret dest.

Definition memchr (s c n : Z) : M Z :=
  loop fuel (fun i =>
    if i <? n then
      let* b := load8 (s + i) in
      if b =? u8 c then break (s + i) else continue (i + 1)
    else break 0) 0.

Definition memmem (haystack haystacklen needle needlelen : Z) : M Z :=
  if needlelen =? 0 then ret haystack
  else if needlelen >? haystacklen then ret 0
  else
    loop fuel (fun i =>
      if i + needlelen <=? haystacklen then
        let* h := load8 (haystack + i) in
        let* n0 := load8 needle in
        if h =? n0 then
          let* r := memcmp (haystack + i) needle needlelen in
          if r =? 0 then break (haystack + i) else continue (i + 1)
        else continue (i + 1)
      else break 0) 0.

Definition strchrnul (s c : Z) : M Z :=
  loop fuel (fun s =>
    let* ch := loadc s in
    if negb (ch =? 0) && negb (ch =? c) then continue (s + 1) else break s) s.

(** [while ( *n && _lower( *h) == _lower( *n)) { h++; n++; }], leaving [n]. *)
Definition match_prefix_nocase (h n : Z) : M Z :=
  loop fuel (fun '(h, n) =>
    let* cn := load8 n in
    if cn =? 0 then break n
    else
      let* ch := load8 h in
      if _lower ch =? _lower cn then continue (h + 1, n + 1) else break n) (h, n).

Definition strcasestr (haystack needle : Z) : M Z :=
  let* c0 := load8 needle in
  if c0 =? 0 then ret haystack
  else
    loop fuel (fun haystack =>
      let* ch := load8 haystack in
      if ch =? 0 then break 0
      else
        let* n0 := load8 needle in
        if negb (_lower ch =? _lower n0) then continue (haystack + 1)
        else
          let* n := match_prefix_nocase haystack needle in
          let* cn := load8 n in
          if cn =? 0 then break haystack else continue (haystack + 1)) haystack.

(** [while ( *s && strchr(delim, *s) ...) s++;] with the test's polarity. *)
Definition skip_chars (want : bool) (s delim : Z) : M Z :=
  loop fuel (fun s =>
    let* c := loadc s in
    if c =? 0 then break s
    else
      let* r := strchr delim c in
      if Bool.eqb (negb (r =? 0)) want then continue (s + 1) else break s) s.

(** The result and the new value of [*saveptr]. *)
Definition strtok_r (str delim saveptr : Z) : M (Z * Z) :=
  let s := if negb (str =? 0) then str else saveptr in
  if s =? 0 then ret (0, saveptr)
  else
    let* s := skip_chars true s delim in
    let* c := loadc s in
    if c =? 0 then ret (0, 0)
    else
      let tok := s in
      let* s := skip_chars false s delim in
      let* c := loadc s in
      if negb (c =? 0) then store8 s 0 ;;* ret (tok, s + 1)
      else ret (tok, 0).

(** [save] is the function's static variable. *)
Definition strtok (save str delim : Z) : M (Z * Z) := strtok_r str delim save.

(** The result and the new value of [*stringp]. *)
Definition strsep (stringp delim : Z) : M (Z * Z) :=
  let s := stringp in
  if s =? 0 then ret (0, stringp)
  else
    loop fuel (fun p =>
      let* c := loadc p in
      if c =? 0 then break (s, 0)
      else
        let* r := strchr delim c in
        if negb (r =? 0) then store8 p 0 ;;* break (s, p + 1)
        else continue (p + 1)) s.

Definition strcoll (s1 s2 : Z) : M Z := strcmp s1 s2.

Definition strxfrm (dest src n : Z) : M Z :=
  let* len := strlen src in
  if n =? 0 then ret len
  else
    let c := if len <? n - 1 then len else n - 1 in
    memcpy dest src c ;;*
    store8 (dest + c) 0 ;;*
    ret len.
End Defs.

(** ** Reference functions on the character lists *)

(** What [compare_string] computes: the difference of the first two characters
    that differ, as signed bytes. *)
Fixpoint scmp (l1 l2 : list Z) : Z :=
  match l1, l2 with
  | [], [] => 0
  | [], b :: _ => 0 - s8 b
  | a :: _, [] => s8 a - 0
  | a :: l1, b :: l2 => if a =? b then scmp l1 l2 else s8 a - s8 b
  end.

(** Lexicographic order on unsigned bytes, the order C prescribes. *)
Fixpoint lex_lt (l1 l2 : list Z) : bool :=
  match l1, l2 with
  | _, [] => false
  | [], _ :: _ => true
  | a :: l1, b :: l2 => (a <? b) || ((a =? b) && lex_lt l1 l2)
  end.

(** The first suffix of [l] that satisfies [P], as an offset. *)
Fixpoint first_index (P : list Z -> bool) (l : list Z) : option nat :=
  if P l then Some 0%nat
  else match l with [] => None | _ :: l' => S <$> first_index P l' end.

(** The length of the longest prefix whose characters all satisfy [P]. *)
Fixpoint span (P : Z -> bool) (l : list Z) : nat :=
  match l with
  | c :: l => if P c then S (span P l) else 0%nat
  | [] => 0%nat
  end.

(** The length of the longest common prefix. *)
Fixpoint lcp (l1 l2 : list Z) : nat :=
  match l1, l2 with
  | a :: l1, b :: l2 => if a =? b then S (lcp l1 l2) else 0%nat
  | _, _ => 0%nat
  end.

Abbreviation str_ok := (Forall (fun b => 0 < b < 256)).

Lemma scmp_zero l1 l2 : str_ok l1 -> str_ok l2 -> scmp l1 l2 = 0 <-> l1 = l2.
Proof.
  intros H1. revert l2. induction H1 as [|a l1 Ha _ IH]; intros [|b l2] H2; simpl.
  - done.
  - apply Forall_cons_1 in H2 as [Hb _]. rewrite s8_byte by lia. split; [zcases; lia|done].
  - rewrite s8_byte by lia. split; [zcases; lia|done].
  - apply Forall_cons_1 in H2 as [Hb H2]. rewrite !s8_byte by lia.
    destruct (Z.eqb_spec a b) as [<-|].
    + rewrite IH by done. split; congruence.
    + split; [zcases; lia|congruence].
Qed.

(** On characters below 128 the signed difference has the sign of the order. *)
Lemma scmp_lex l1 l2 :
  Forall (fun b => 0 < b < 128) l1 -> Forall (fun b => 0 < b < 128) l2 ->
  (scmp l1 l2 <? 0) = lex_lt l1 l2.
Proof.
  intros H1. revert l2. induction H1 as [|a l1 Ha _ IH]; intros [|b l2] H2; simpl.
  - done.
  - apply Forall_cons_1 in H2 as [Hb _]. rewrite s8_pos by lia. zdecide. done.
  - rewrite s8_pos by lia. zdecide. done.
  - apply Forall_cons_1 in H2 as [Hb H2]. rewrite !s8_pos by lia.
    destruct (Z.eqb_spec a b) as [<-|]; simpl.
    + rewrite Z.ltb_irrefl, IH by done. done.
    + rewrite orb_false_r. zcases; lia.
Qed.

Lemma first_index_Some P l i :
  first_index P l = Some i <->
  (i <= length l)%nat /\ P (drop i l) = true /\ forall j, (j < i)%nat -> P (drop j l) = false.
Proof.
  revert i. induction l as [|a l IH]; intros i; simpl.
  - destruct (P []) eqn:E; split.
    + intros [= <-]. csplit.
    + intros (? & _). by replace i with 0%nat by lia.
    + done.
    + intros (? & H & _). replace i with 0%nat in H by lia. simpl in H. congruence.
  - destruct (P (a :: l)) eqn:E; split.
    + intros [= <-]. csplit.
    + intros (_ & _ & H). destruct i; [done|]. specialize (H 0%nat ltac:(lia)). simpl in H. congruence.
    + intros (k & Hk & ->)%fmap_Some. apply IH in Hk as (? & ? & Hj). csplit.
      intros [|j] Hlt; [done|]. apply Hj. lia.
    + intros (Hi & HP & Hj). destruct i as [|i]; [simpl in HP; congruence|].
      apply fmap_Some. exists i. split; [|done]. apply IH. csplit.
      intros j Hlt. apply (Hj (S j)). lia.
Qed.

Lemma first_index_None P l :
  first_index P l = None <-> forall j, (j <= length l)%nat -> P (drop j l) = false.
Proof.
  induction l as [|a l IH]; simpl.
  - destruct (P []) eqn:E; split; try done.
    + intros H. specialize (H 0%nat ltac:(lia)). simpl in H. congruence.
    + intros _ j Hj. by replace j with 0%nat by lia.
  - destruct (P (a :: l)) eqn:E; split; try done.
    + intros H. specialize (H 0%nat ltac:(lia)). simpl in H. congruence.
    + intros H%fmap_None. rewrite IH in H. intros [|j] Hj; [done|]. apply H. lia.
    + intros H. apply fmap_None, IH. intros j Hj. apply (H (S j)). lia.
Qed.

Lemma span_le P l : (span P l <= length l)%nat.
Proof. induction l as [|c l IH]; simpl; [lia|]. destruct (P c); lia. Qed.

(** Walking into the span one character at a time. *)
Lemma span_step P l i :
  span P (drop i l) =
    match l !! i with
    | Some c => if P c then S (span P (drop (S i) l)) else 0%nat
    | None => 0%nat
    end.
Proof.
  destruct (l !! i) as [c|] eqn:E.
  - by rewrite (drop_S _ _ _ E).
  - apply lookup_ge_None in E. by rewrite drop_ge by lia.
Qed.

Lemma span_stop P l c : l !! span P l = Some c -> P c = false.
Proof.
  induction l as [|d l IH]; [done|]. simpl. destruct (P d) eqn:E; simpl; [done|].
  congruence.
Qed.

Lemma lcp_le l1 l2 : (lcp l1 l2 <= length l1)%nat /\ (lcp l1 l2 <= length l2)%nat.
Proof.
  revert l2. induction l1 as [|a l1 IH]; intros [|b l2]; simpl; try lia.
  specialize (IH l2). destruct (a =? b); lia.
Qed.

Lemma lcp_full l1 l2 : lcp l1 l2 = length l2 <-> l2 `prefix_of` l1.
Proof.
  revert l2. induction l1 as [|a l1 IH]; intros [|b l2]; simpl.
  - split; [intros; apply prefix_nil|done].
  - split; [done|]. intros []%prefix_nil_not.
  - split; [intros; apply prefix_nil|done].
  - destruct (Z.eqb_spec a b) as [<-|].
    + split.
      * intros [= H]. by apply prefix_cons, IH.
      * intros H%prefix_cons_inv_2. f_equal. by apply IH.
    + split; [done|]. intros H%prefix_cons_inv_1. congruence.
Qed.

(** ** Reading loops *)

Section Specs.
Implicit Types (m : mem) (l : list Z).

(** Reading the [i]-th character of a string. *)
Lemma wp_read m s l i (Q : Z -> mem -> Prop) :
  cstr m s l -> 0 <= i <= Z.of_nat (length l) ->
  (0 <= char_at l (Z.to_nat i) < 256 -> Q (s8 (char_at l (Z.to_nat i))) m) ->
  wp (loadc (s + i)) m Q.
Proof.
  intros Hs Hi HQ. destruct (cstr_read m s l (Z.to_nat i) Hs) as [Hr Hb]; [lia|].
  rewrite Z2Nat.id in Hr by lia. eapply wp_loadc; eauto.
Qed.

Lemma char_at_zero_Z l i :
  str_ok l -> 0 <= i <= Z.of_nat (length l) ->
  (char_at l (Z.to_nat i) =? 0) = bool_decide (i = Z.of_nat (length l)).
Proof.
  intros H Hi. rewrite char_at_zero by (done || lia). apply bool_decide_ext. lia.
Qed.

Lemma strlen_eq fuel m s l :
  cstr m s l -> (length l < fuel)%nat ->
  strlen fuel s m = Some (Z.of_nat (length l), m).
Proof.
  intros Hs Hf. apply wp_eq.
  wp_while (fun len m' => m' = m /\ 0 <= len <= Z.of_nat (length l))
           (fun len => (length l - Z.to_nat len)%nat).
  intros len m' [-> Hlen]. wp_pure. apply (wp_read m s l); [done|lia|]. intros Hb.
  rewrite s8_eq0, char_at_zero_Z by (done || lia || apply Hs).
  case_bool_decide; wp_pure; csplit.
Qed.

(** One step of [scmp] at position [i] of both strings. *)
Lemma scmp_step l1 l2 i :
  str_ok l1 -> str_ok l2 ->
  scmp (drop i l1) (drop i l2) =
    if char_at l1 i =? char_at l2 i
    then if char_at l1 i =? 0 then 0 else scmp (drop (S i) l1) (drop (S i) l2)
    else s8 (char_at l1 i) - s8 (char_at l2 i).
Proof.
  intros H1 H2. unfold char_at.
  destruct (l1 !! i) as [a|] eqn:E1, (l2 !! i) as [b|] eqn:E2; simpl.
  - rewrite (drop_S _ _ _ E1), (drop_S _ _ _ E2). simpl.
    pose proof (Forall_lookup_1 _ _ _ _ H1 E1) as Ha. cbv beta in Ha.
    destruct (a =? b); [|done]. zdecide. done.
  - rewrite (drop_S _ _ _ E1). apply lookup_ge_None in E2. rewrite (drop_ge l2) by lia.
    pose proof (Forall_lookup_1 _ _ _ _ H1 E1) as Ha. cbv beta in Ha. zdecide. done.
  - rewrite (drop_S _ _ _ E2). apply lookup_ge_None in E1. rewrite (drop_ge l1) by lia.
    pose proof (Forall_lookup_1 _ _ _ _ H2 E2) as Hb. cbv beta in Hb. zdecide. done.
  - apply lookup_ge_None in E1, E2. rewrite !drop_ge by lia. done.
Qed.

Lemma compare_string_eq fuel m s1 s2 l1 l2 :
  cstr m s1 l1 -> cstr m s2 l2 -> (length l1 < fuel)%nat ->
  compare_string fuel s1 s2 m = Some (scmp l1 l2, m).
Proof.
  intros Hs1 Hs2 Hf. apply wp_eq.
  wp_while (fun i m' => m' = m /\ 0 <= i <= Z.of_nat (length l1) /\ i <= Z.of_nat (length l2)
              /\ scmp (drop (Z.to_nat i) l1) (drop (Z.to_nat i) l2) = scmp l1 l2)
           (fun i => (length l1 - Z.to_nat i)%nat).
  intros i m' (-> & Hi1 & Hi2 & Hsc). rewrite scmp_step in Hsc by apply Hs1 || apply Hs2.
  wp_pure. apply (wp_read m s1 l1); [done|lia|]. intros Hb1.
  wp_pure. apply (wp_read m s2 l2); [done|lia|]. intros Hb2.
  rewrite s8_eqb, s8_eq0 by lia.
  pose proof (char_at_zero_Z l1 i (proj2 Hs1) Hi1) as Hz1.
  pose proof (char_at_zero_Z l2 i (proj2 Hs2) ltac:(lia)) as Hz2.
  destruct (Z.eqb_spec (char_at l1 (Z.to_nat i)) (char_at l2 (Z.to_nat i))) as [E|].
  - rewrite <- E in Hz2. destruct (char_at l1 (Z.to_nat i) =? 0).
    + wp_pure; csplit.
    + symmetry in Hz1, Hz2. apply bool_decide_eq_false in Hz1, Hz2.
      wp_pure; csplit. by replace (Z.to_nat (i + 1)) with (S (Z.to_nat i)) by lia.
  - wp_pure; csplit.
Qed.

(** ** Copying loops *)

(** A forward copy of [n] bytes reads each source byte before overwriting it. *)
Definition forward_ok (dest src n : Z) : Prop := dest <= src \/ src + n <= dest.

Lemma forward_read m dest src l i n :
  forward_ok dest src n -> (i <= length l)%nat -> Z.of_nat i < n ->
  write_list dest (take i l) m !! (src + Z.of_nat i) = m !! (src + Z.of_nat i).
Proof.
  intros Hf Hi Hn. rewrite lookup_write_list, length_take_le by lia.
  unfold forward_ok in Hf. by rewrite bool_decide_eq_false_2 by lia.
Qed.

(** Storing the next byte extends the written prefix. *)
Lemma write_take_S m dest l i b :
  l !! i = Some b ->
  <[dest + Z.of_nat i := b]> (write_list dest (take i l) m) = write_list dest (take (S i) l) m.
Proof.
  intros Hb. pose proof (lookup_lt_Some _ _ _ Hb).
  by rewrite (take_S_r _ _ _ Hb), write_list_snoc, length_take_le by lia.
Qed.

(** The forward copy, whatever the cells hold; a byte is stored as a byte. *)
Lemma copy_loop_u8 fuel m d s l :
  bytes_at m s l -> writable m d (length l) ->
  forward_ok d s (Z.of_nat (length l)) -> (length l < fuel)%nat ->
  copy_loop fuel d s (Z.of_nat (length l)) m = Some (tt, write_list d (u8 <$> l) m).
Proof.
  intros Hs Hd Hfw Hf. apply wp_eq.
  wp_while (fun st m' => exists i, (i <= length l)%nat
              /\ st = (d + Z.of_nat i, s + Z.of_nat i, Z.of_nat (length l) - Z.of_nat i)
              /\ m' = write_list d (take i (u8 <$> l)) m)
           (fun st : Z * Z * Z => Z.to_nat st.2).
  2:{ exists 0%nat. csplit. state_eq. }
  intros st m' (i & Hi & -> & ->). destruct (decide (i = length l)) as [->|].
  - zdecide. wp_pure. rewrite (take_ge (u8 <$> l)) by (by rewrite length_fmap). csplit.
  - destruct (lookup_lt_is_Some_2 l i ltac:(lia)) as [b E].
    assert (Eu : (u8 <$> l) !! i = Some (u8 b)) by (by rewrite list_lookup_fmap, E).
    rewrite Z.gtb_ltb. zdecide. wp_pure. eapply wp_load8.
    { rewrite forward_read with (n := Z.of_nat (length l)) by (rewrite ?length_fmap; (done || lia)). by apply Hs. }
    wp_pure. apply wp_store8; [apply (writable_write_list m _ _ d (length l)); [done|lia]|].
    rewrite (write_take_S m d _ i (u8 b) Eu).
    wp_pure; csplit. exists (S i). csplit. state_eq.
Qed.

Lemma copy_loop_eq fuel m d s l :
  bytes_at m s l -> Forall byte_ok l -> writable m d (length l) ->
  forward_ok d s (Z.of_nat (length l)) -> (length l < fuel)%nat ->
  copy_loop fuel d s (Z.of_nat (length l)) m = Some (tt, write_list d l m).
Proof.
  intros Hs Hb Hd Hfw Hf. rewrite copy_loop_u8 by done. do 3 f_equal. clear -Hb.
  induction Hb as [|b l Hb _ IH]; [done|]. rewrite fmap_cons, IH, u8_small by apply Hb. done.
Qed.

Lemma set_loop_eq fuel m p v n :
  writable m p n -> (n < fuel)%nat ->
  set_loop fuel p v (Z.of_nat n) m = Some (tt, write_list p (replicate n (u8 v)) m).
Proof.
  intros Hd Hf. apply wp_eq.
  wp_while (fun st m' => exists i, (i <= n)%nat
              /\ st = (p + Z.of_nat i, Z.of_nat n - Z.of_nat i)
              /\ m' = write_list p (take i (replicate n (u8 v))) m)
           (fun st : Z * Z => Z.to_nat st.2).
  2:{ exists 0%nat. csplit. state_eq. }
  intros st m' (i & Hi & -> & ->). rewrite Z.gtb_ltb. destruct (decide (i = n)) as [->|].
  - zdecide. wp_pure. rewrite take_replicate, Nat.min_id. csplit.
  - zdecide. wp_pure.
    apply wp_store8; [apply (writable_write_list m _ _ p n); [done|lia]|].
    rewrite (u8_small (u8 v)) by apply u8_range.
    rewrite (write_take_S m p (replicate n (u8 v)) i (u8 v))
      by (apply lookup_replicate_2; lia).
    wp_pure; csplit. exists (S i). csplit. state_eq.
Qed.

Lemma str_ok_byte l : str_ok l -> Forall byte_ok l.
Proof. apply Forall_impl. unfold byte_ok. lia. Qed.

Lemma s8_u8 b : 0 <= b < 256 -> u8 (s8 b) = b.
Proof.
  intros. rewrite s8_byte by lia. unfold u8, wrapu. change (2 ^ 8) with 256. zcases.
  - apply Z.mod_small. lia.
  - symmetry. apply (Z.mod_unique_pos _ _ (-1)); lia.
Qed.

(** Copying up to the terminator, with room for it at the destination. *)
Lemma copy_until_nul_eq fuel m d s l :
  cstr m s l -> writable m d (S (length l)) ->
  forward_ok d s (Z.of_nat (S (length l))) -> (length l < fuel)%nat ->
  copy_until_nul fuel d s m = Some (d + Z.of_nat (length l), write_list d l m).
Proof.
  intros Hs Hd Hfw Hf. apply wp_eq.
  wp_while (fun st m' => exists i, (i <= length l)%nat
              /\ st = (d + Z.of_nat i, s + Z.of_nat i)
              /\ m' = write_list d (take i l) m)
           (fun st : Z * Z => (length l - Z.to_nat (st.2 - s))%nat).
  2:{ exists 0%nat. csplit. state_eq. }
  intros st m' (i & Hi & -> & ->).
  destruct (cstr_read m s l i Hs Hi) as [Hr Hb]. wp_pure. eapply wp_loadc.
  { by rewrite forward_read with (n := Z.of_nat (S (length l))) by (done || lia). }
  rewrite s8_eq0, char_at_zero by (done || apply Hs). case_bool_decide as E.
  - subst i. wp_pure. rewrite firstn_all. csplit.
  - destruct (lookup_lt_is_Some_2 l i ltac:(lia)) as [b Eb].
    wp_pure. apply wp_store8; [apply (writable_write_list m _ _ d (S (length l))); [done|lia]|].
    rewrite s8_u8 by done.
    rewrite (write_take_S m d l i (char_at l i)) by (unfold char_at; by rewrite Eb).
    wp_pure; csplit. exists (S i). csplit. state_eq.
Qed.

(** Ending the copied characters with a NUL makes them a string. *)
Lemma cstr_write m d l :
  str_ok l -> cstr (<[d + Z.of_nat (length l) := 0]> (write_list d l m)) d l.
Proof. intros H. rewrite <- write_list_snoc. split; [apply bytes_at_write_list|done]. Qed.

Lemma strcpy_eq fuel m d s l :
  cstr m s l -> writable m d (S (length l)) ->
  forward_ok d s (Z.of_nat (S (length l))) -> (length l < fuel)%nat ->
  strcpy fuel d s m = Some (d, write_list d (l ++ [0]) m).
Proof.
  intros Hs Hd Hfw Hf. unfold strcpy. apply wp_eq. wp_pure.
  eapply wp_run; [by apply copy_until_nul_eq with (l := l)|].
  wp_pure. apply wp_store8; [apply (writable_write_list m _ _ d (S (length l))); [done|lia]|].
  wp_pure. rewrite <- write_list_snoc. csplit.
Qed.

(** ** [memmove] *)

Lemma memmove_eq fuel m d s l :
  bytes_at m s l -> Forall byte_ok l -> writable m d (length l) -> (length l < fuel)%nat ->
  memmove fuel d s (Z.of_nat (length l)) m = Some (d, write_list d l m).
Proof.
  intros Hs Hb Hd Hf. unfold memmove. apply wp_eq. rewrite Z.gtb_ltb.
  destruct (Z.ltb_spec d s); [|destruct (Z.ltb_spec s d)]; wp_pure.
  - wp_while (fun i m' => 0 <= i <= Z.of_nat (length l)
                /\ m' = write_list d (take (Z.to_nat i) l) m)
             (fun i => (length l - Z.to_nat i)%nat).
    intros i m' (Hi & ->). destruct (Z.ltb_spec i (Z.of_nat (length l))); wp_pure.
    + destruct (lookup_lt_is_Some_2 l (Z.to_nat i) ltac:(lia)) as [b E].
      pose proof (Forall_lookup_1 _ _ _ _ Hb E) as Hbi.
      rewrite <- (Z2Nat.id i) by lia. rewrite !Nat2Z.id. eapply wp_load8.
      { rewrite forward_read with (n := Z.of_nat (length l)) by (left + idtac; lia).
        by apply Hs. }
      wp_pure. apply wp_store8; [apply (writable_write_list m _ _ d (length l)); [done|lia]|].
      rewrite u8_small, (write_take_S m d l (Z.to_nat i) b E) by apply Hbi.
      wp_pure; csplit. by replace (Z.to_nat (Z.of_nat (Z.to_nat i) + 1)) with (S (Z.to_nat i)) by lia.
    + rewrite firstn_all2 by lia. csplit.
  - wp_while (fun i m' => 0 <= i <= Z.of_nat (length l)
                /\ m' = write_list (d + i) (drop (Z.to_nat i) l) m)
             (fun i => Z.to_nat i).
    2:{ rewrite Nat2Z.id, drop_all. done. }
    intros i m' (Hi & ->). rewrite Z.gtb_ltb. destruct (Z.ltb_spec 0 i); wp_pure.
    + destruct (lookup_lt_is_Some_2 l (Z.to_nat (i - 1)) ltac:(lia)) as [b E].
      pose proof (Forall_lookup_1 _ _ _ _ Hb E) as Hbi. eapply wp_load8.
      { rewrite lookup_write_list, bool_decide_eq_false_2 by lia.
        rewrite <- (Z2Nat.id (i - 1)) by lia. by apply Hs. }
      wp_pure. apply wp_store8.
      { rewrite <- (Z2Nat.id (i - 1)) by lia.
        apply (writable_write_list m _ _ d (length l)); [done|lia]. }
      rewrite u8_small by apply Hbi. wp_pure; csplit.
      rewrite (drop_S l b (Z.to_nat (i - 1)) E). simpl.
      replace (S (Z.to_nat (i - 1))) with (Z.to_nat i) by lia.
      by replace (d + (i - 1) + 1) with (d + i) by lia.
    + replace i with 0 by lia. rewrite Z.add_0_r. csplit.
  - assert (d = s) as -> by lia. csplit. apply map_eq. intros q.
    rewrite lookup_write_list. case_bool_decide; [|done].
    destruct (lookup_lt_is_Some_2 l (Z.to_nat (q - s)) ltac:(lia)) as [b E].
    rewrite E. replace q with (s + Z.of_nat (Z.to_nat (q - s))) by lia. by apply Hs.
Qed.

(** ** Bounded copies *)

(** The bounded copying loop of [strncpy] and [buf_append]: it stops at the
    terminator or after [k] characters. *)
Lemma bounded_copy_step m d s l i k :
  cstr m s l -> (k <= length l)%nat -> (i <= k)%nat ->
  forward_ok d s (Z.of_nat (S k)) ->
  write_list d (take i l) m !! (s + Z.of_nat i) = Some (char_at l i)
  /\ 0 <= char_at l i < 256
  /\ (char_at l i =? 0) = bool_decide (i = length l).
Proof.
  intros Hs Hk Hi Hfw. destruct (cstr_read m s l i Hs ltac:(lia)) as [Hr Hb].
  csplit; [|apply char_at_zero; [apply Hs|lia]].
  by rewrite forward_read with (n := Z.of_nat (S k)) by (done || lia).
Qed.

Lemma strncpy_eq fuel m d s n l :
  let k := Nat.min (length l) (Z.to_nat (n - 1)) in
  cstr m s l -> writable m d (S k) -> forward_ok d s (Z.of_nat (S k)) ->
  (k < fuel)%nat ->
  strncpy fuel d s n m = Some (tt, write_list d (take k l ++ [0]) m).
Proof.
  intros k Hs Hd Hfw Hf. unfold strncpy. apply wp_eq. wp_pure.
  wp_while (fun i m' => 0 <= i <= Z.of_nat k /\ m' = write_list d (take (Z.to_nat i) l) m)
           (fun i => (k - Z.to_nat i)%nat).
  intros i m' (Hi & ->).
  destruct (bounded_copy_step m d s l (Z.to_nat i) k) as (Hr & Hb & Hz);
    [done|lia|lia|done|]. rewrite Z2Nat.id in Hr by lia.
  wp_pure. eapply wp_loadc; [exact Hr|]. rewrite s8_eq0, Hz by done.
  destruct (decide (Z.to_nat i = k)) as [E|E].
  - replace (_ && _) with false.
    2:{ case_bool_decide; [done|]. symmetry.
        apply andb_false_iff. right. apply Z.ltb_ge. lia. }
    wp_pure. apply wp_store8.
    { rewrite <- (Z2Nat.id i) by lia.
      apply (writable_write_list m _ _ d (S k)); [done|lia]. }
    rewrite write_list_snoc, length_take_le, <- E, Z2Nat.id by lia. csplit.
  - rewrite bool_decide_eq_false_2 by lia. zdecide. cbn [negb andb]. wp_pure.
    rewrite <- (Z2Nat.id i) by lia. rewrite !Nat2Z.id. apply wp_store8.
    { apply (writable_write_list m _ _ d (S k)); [done|lia]. }
    destruct (lookup_lt_is_Some_2 l (Z.to_nat i) ltac:(lia)) as [b Eb].
    rewrite s8_u8, (write_take_S m d l (Z.to_nat i) (char_at l (Z.to_nat i)))
      by (done || (unfold char_at; by rewrite Eb)).
    wp_pure; csplit. by replace (Z.to_nat (Z.of_nat (Z.to_nat i) + 1)) with (S (Z.to_nat i)) by lia.
Qed.

Lemma buf_append_eq fuel m buf pos max s l :
  let k := Nat.min (length l) (Z.to_nat (max - 1 - pos)) in
  cstr m s l -> writable m (buf + pos) (S k) -> forward_ok (buf + pos) s (Z.of_nat (S k)) ->
  (k < fuel)%nat ->
  buf_append fuel buf pos max s m =
    Some (pos + Z.of_nat k, write_list (buf + pos) (take k l ++ [0]) m).
Proof.
  intros k Hs Hd Hfw Hf. unfold buf_append. apply wp_eq. wp_pure.
  wp_while (fun st m' => exists i, (i <= k)%nat /\ st = (pos + Z.of_nat i, s + Z.of_nat i)
              /\ m' = write_list (buf + pos) (take i l) m)
           (fun st : Z * Z => (k - Z.to_nat (st.2 - s))%nat).
  2:{ exists 0%nat. csplit. state_eq. }
  intros st m' (i & Hi & -> & ->).
  destruct (bounded_copy_step m (buf + pos) s l i k) as (Hr & Hb & Hz);
    [done|lia|lia|done|].
  wp_pure. eapply wp_loadc; [exact Hr|]. rewrite s8_eq0, Hz by done.
  destruct (decide (i = k)) as [->|E].
  - replace (_ && _) with false.
    2:{ case_bool_decide; [done|]. symmetry. apply andb_false_iff. right. apply Z.ltb_ge. lia. }
    wp_pure. rewrite Z.add_assoc. apply wp_store8.
    { apply (writable_write_list m _ _ _ (S k)); [done|lia]. }
    wp_pure. rewrite write_list_snoc, length_take_le by lia. csplit.
  - rewrite bool_decide_eq_false_2 by lia. zdecide. cbn [negb andb]. wp_pure.
    rewrite Z.add_assoc. apply wp_store8.
    { apply (writable_write_list m _ _ _ (S k)); [done|lia]. }
    destruct (lookup_lt_is_Some_2 l i ltac:(lia)) as [b Eb].
    rewrite s8_u8, (write_take_S m (buf + pos) l i (char_at l i))
      by (done || (unfold char_at; by rewrite Eb)).
    wp_pure; csplit. exists (S i). csplit. state_eq.
Qed.

(** ** Searching *)

(** The argument may be the byte [b] itself or the signed [char] with that byte. *)
Lemma strchr_eq fuel m s c b l :
  0 <= b < 256 -> s8 c = s8 b -> (c =? 0) = (b =? 0) ->
  cstr m s l -> (length l < fuel)%nat ->
  strchr fuel s c m =
    Some (if b =? 0 then s + Z.of_nat (length l)
          else match list_find (eq b) l with Some (i, _) => s + Z.of_nat i | None => 0 end, m).
Proof.
  intros Hb0 Hcb Hz Hs Hf. apply wp_eq.
  wp_while (fun p m' => m' = m /\ exists i, (i <= length l)%nat /\ p = s + Z.of_nat i
              /\ Forall (fun d => d <> b) (take i l))
           (fun p => (length l - Z.to_nat (p - s))%nat).
  2:{ exists 0%nat. csplit. }
  intros p m' (-> & i & Hi & -> & Hno). wp_pure.
  apply (wp_read m s l (Z.of_nat i)); [done|lia|]. rewrite Nat2Z.id. intros Hb.
  rewrite Hcb, Hz, s8_eq0, s8_eqb, char_at_zero by (done || apply Hs || lia).
  case_bool_decide as E.
  - subst i. rewrite firstn_all in Hno. wp_pure. csplit.
    destruct (b =? 0); [done|].
    rewrite (proj2 (list_find_None (eq b) l)); [done|].
    eapply Forall_impl; [|exact Hno]. cbv beta. congruence.
  - destruct (lookup_lt_is_Some_2 l i ltac:(lia)) as [d Ed].
    pose proof (Forall_lookup_1 _ _ _ _ (proj2 Hs) Ed) as Hbi. cbv beta in Hbi.
    unfold char_at in *. rewrite Ed in *. simpl in *.
    destruct (Z.eqb_spec d b) as [->|].
    + wp_pure. csplit. zdecide.
      rewrite (proj2 (list_find_Some (eq b) l i b)); [done|]. csplit.
      intros j y Hy Hlt ->. rewrite <- (lookup_take_lt l i) in Hy by lia.
      by apply (Forall_lookup_1 _ _ _ _ Hno Hy).
    + wp_pure; csplit. exists (S i). csplit.
      rewrite (take_S_r _ _ _ Ed). by apply Forall_app_2; [|constructor].
Qed.

Lemma lcp_step l1 l2 i :
  str_ok l1 -> str_ok l2 ->
  lcp (drop i l1) (drop i l2) =
    if bool_decide (length l1 <= i)%nat then 0%nat
    else if bool_decide (length l2 <= i)%nat then 0%nat
    else if char_at l1 i =? char_at l2 i then S (lcp (drop (S i) l1) (drop (S i) l2))
    else 0%nat.
Proof.
  intros H1 H2. case_bool_decide; [by rewrite drop_ge by lia|].
  case_bool_decide; [rewrite (drop_ge l2) by lia; by destruct (drop i l1)|].
  destruct (lookup_lt_is_Some_2 l1 i ltac:(lia)) as [a E1].
  destruct (lookup_lt_is_Some_2 l2 i ltac:(lia)) as [b E2].
  unfold char_at. rewrite (drop_S _ _ _ E1), (drop_S _ _ _ E2), E1, E2. done.
Qed.

Lemma match_prefix_eq fuel m h n lh ln :
  cstr m h lh -> cstr m n ln -> (length ln < fuel)%nat ->
  match_prefix fuel h n m = Some (n + Z.of_nat (lcp lh ln), m).
Proof.
  intros Hh Hn Hf. apply wp_eq.
  wp_while (fun st m' => m' = m /\ exists i, (i <= length lh)%nat /\ (i <= length ln)%nat
              /\ st = (h + Z.of_nat i, n + Z.of_nat i)
              /\ lcp lh ln = (i + lcp (drop i lh) (drop i ln))%nat)
           (fun st : Z * Z => (length ln - Z.to_nat (st.2 - n))%nat).
  2:{ exists 0%nat. csplit. state_eq. }
  intros st m' (-> & i & Hi1 & Hi2 & -> & Hl).
  rewrite lcp_step in Hl by (apply Hh || apply Hn).
  wp_pure. apply (wp_read m h lh (Z.of_nat i)); [done|lia|]. rewrite Nat2Z.id. intros Hb1.
  rewrite s8_eq0, char_at_zero by (done || apply Hh || lia).
  destruct (bool_decide_reflect (i = length lh)) as [E1|E1].
  { wp_pure. rewrite bool_decide_eq_true_2 in Hl by lia. csplit. }
  wp_pure. apply (wp_read m n ln (Z.of_nat i)); [done|lia|]. rewrite Nat2Z.id. intros Hb2.
  rewrite s8_eq0, s8_eqb, char_at_zero by (done || apply Hn || lia).
  rewrite bool_decide_eq_false_2 in Hl by lia.
  destruct (bool_decide_reflect (i = length ln)) as [E2|E2].
  { wp_pure. rewrite bool_decide_eq_true_2 in Hl by lia. csplit. }
  rewrite bool_decide_eq_false_2 in Hl by lia.
  destruct (char_at lh i =? char_at ln i); wp_pure; csplit.
  exists (S i). csplit. state_eq.
Qed.

(** The needle occurs at the front of the suffix. *)
Definition starts_with (needle l : list Z) : bool := bool_decide (needle `prefix_of` l).

Lemma strstr_eq fuel m h n lh ln :
  cstr m h lh -> cstr m n ln -> (length lh < fuel)%nat -> (length ln < fuel)%nat ->
  strstr fuel h n m =
    Some (match first_index (starts_with ln) lh with Some i => h + Z.of_nat i | None => 0 end, m).
Proof.
  intros Hh Hn Hf1 Hf2. unfold strstr. apply wp_eq. wp_pure.
  rewrite <- (Z.add_0_r n) at 1. apply (wp_read m n ln); [done|lia|]. intros Hb.
  rewrite s8_eq0, char_at_zero_Z by (done || apply Hn || lia). case_bool_decide as E.
  { wp_pure. destruct ln; [|simpl in E; lia].
    rewrite (proj2 (first_index_Some _ _ 0)); [csplit|]. csplit. }
  wp_while (fun p m' => m' = m /\ exists i, (i <= length lh)%nat /\ p = h + Z.of_nat i
              /\ forall j, (j < i)%nat -> starts_with ln (drop j lh) = false)
           (fun p => (length lh - Z.to_nat (p - h))%nat).
  2:{ exists 0%nat. csplit. }
  intros p m' (-> & i & Hi & -> & Hno). wp_pure.
  apply (wp_read m h lh (Z.of_nat i)); [done|lia|]. rewrite Nat2Z.id. intros Hbi.
  rewrite s8_eq0, char_at_zero by (done || apply Hh || lia). case_bool_decide as Ei.
  { wp_pure. csplit. rewrite (proj2 (first_index_None _ _)); [done|].
    intros j Hj. destruct (decide (j = length lh)) as [->|]; [|apply Hno; lia].
    rewrite drop_all. apply bool_decide_eq_false_2. intros ->%prefix_nil_inv. done. }
  wp_pure. eapply wp_run; [apply match_prefix_eq with (lh := drop i lh) (ln := ln);
    [by apply cstr_drop|done|done]|].
  pose proof (lcp_le (drop i lh) ln) as [_ Hle]. wp_pure.
  apply (wp_read m n ln (Z.of_nat (lcp (drop i lh) ln))); [done|lia|].
  rewrite Nat2Z.id. intros Hbn.
  rewrite s8_eq0, char_at_zero by (done || apply Hn || lia). case_bool_decide as Ep.
  - wp_pure. csplit. rewrite (proj2 (first_index_Some _ _ i)); [done|]. csplit.
    by apply bool_decide_eq_true_2, lcp_full.
  - wp_pure; csplit. exists (S i). csplit. intros j Hj.
    destruct (decide (j = i)) as [->|]; [|apply Hno; lia].
    apply bool_decide_eq_false_2. by rewrite <- lcp_full.
Qed.

(** ** Tokens *)

Definition in_set (D : list Z) (c : Z) : bool := bool_decide (c ∈ D).

Lemma strchr_char fuel m delim D b :
  0 < b < 256 -> cstr m delim D -> 0 < delim -> (length D < fuel)%nat ->
  wp (strchr fuel delim (s8 b)) m (fun r m' => m' = m /\ negb (r =? 0) = in_set D b).
Proof.
  intros Hb HD Hpos Hf. eapply wp_run.
  { apply strchr_eq with (b := b) (l := D); try done; try lia.
    - apply s8_small, (wraps_range 8). lia.
    - apply s8_eq0. lia. }
  csplit. zdecide. unfold in_set. destruct (list_find (eq b) D) as [[i x]|] eqn:E.
  - apply list_find_Some in E as (Hi & <- & _).
    rewrite bool_decide_eq_true_2 by (apply list_elem_of_lookup; eauto). zdecide. done.
  - apply list_find_None in E. rewrite bool_decide_eq_false_2; [done|].
    intros Hin. rewrite Forall_forall in E. apply (E b); [by apply list_elem_of_In|done].
Qed.

Lemma skip_chars_eq fuel want m s delim l D :
  cstr m s l -> cstr m delim D -> 0 < delim ->
  (length l < fuel)%nat -> (length D < fuel)%nat ->
  skip_chars fuel want s delim m
    = Some (s + Z.of_nat (span (fun c => Bool.eqb (in_set D c) want) l), m).
Proof.
  intros Hs HD Hpos Hf1 Hf2. set (P := fun c => Bool.eqb (in_set D c) want). apply wp_eq.
  wp_while (fun p m' => m' = m /\ exists i, (i <= length l)%nat /\ p = s + Z.of_nat i
              /\ span P l = (i + span P (drop i l))%nat)
           (fun p => (length l - Z.to_nat (p - s))%nat).
  2:{ exists 0%nat. csplit. }
  intros p m' (-> & i & Hi & -> & Hsp). rewrite span_step in Hsp. wp_pure.
  apply (wp_read m s l (Z.of_nat i)); [done|lia|]. rewrite Nat2Z.id. intros Hb.
  rewrite s8_eq0, char_at_zero by (done || apply Hs).
  destruct (bool_decide_reflect (i = length l)) as [->|].
  { wp_pure. rewrite lookup_ge_None_2 in Hsp by lia. csplit. }
  destruct (lookup_lt_is_Some_2 l i ltac:(lia)) as [c E]. rewrite E in Hsp.
  pose proof (Forall_lookup_1 _ _ _ _ (proj2 Hs) E) as Hc. cbv beta in Hc.
  unfold char_at. rewrite E. simpl. wp_pure.
  eapply wp_mono; [by apply strchr_char with (D := D)|]. intros r m' [-> ->].
  change (Bool.eqb (in_set D c) want) with (P c).
  pose proof (lookup_lt_Some _ _ _ E).
  destruct (P c); wp_pure; csplit. exists (S i). csplit.
Qed.

(** What [strtok_r] does to a string [l]: the leading delimiters are skipped,
    the token is the longest run of other characters, and the delimiter after
    it, if any, is overwritten with a NUL. *)
Definition tok_start (D l : list Z) : nat := span (fun c => Bool.eqb (in_set D c) true) l.
Definition tok_len (D l : list Z) : nat :=
  span (fun c => Bool.eqb (in_set D c) false) (drop (tok_start D l) l).

Lemma strtok_r_eq fuel m s delim save l D :
  cstr m s l -> cstr m delim D -> 0 < delim -> 0 < s ->
  (length l < fuel)%nat -> (length D < fuel)%nat ->
  let i := tok_start D l in
  let k := tok_len D l in
  strtok_r fuel s delim save m =
    Some (if bool_decide (i = length l) then ((0, 0), m)
          else if bool_decide (i + k = length l)%nat then ((s + Z.of_nat i, 0), m)
          else ((s + Z.of_nat i, s + Z.of_nat (i + k) + 1), <[s + Z.of_nat (i + k) := 0]> m)).
Proof.
  intros Hs HD Hpos Hsp Hf1 Hf2 i k. unfold strtok_r. cbv zeta. zdecide. cbn [negb]. zdecide.
  assert (Hi : (i <= length l)%nat) by apply span_le.
  assert (Hk : (i + k <= length l)%nat).
  { pose proof (span_le (fun c => Bool.eqb (in_set D c) false) (drop i l)) as H.
    rewrite length_drop in H. unfold k, tok_len. fold i. lia. }
  erewrite bind_run by by apply (skip_chars_eq fuel true m s delim l D).
  change (span _ l) with i.
  assert (Hread : forall j, (j <= length l)%nat ->
     loadc (s + Z.of_nat j) m = Some (s8 (char_at l j), m)).
  { intros j Hj. destruct (cstr_read m s l j Hs Hj) as [H _].
    unfold loadc, bind, load8. by rewrite H. }
  erewrite bind_run by by apply Hread.
  destruct (cstr_read m s l i Hs Hi) as [_ Hbi].
  rewrite s8_eq0, char_at_zero by (done || apply Hs).
  destruct (bool_decide_reflect (i = length l)); [done|].
  erewrite bind_run by (apply (skip_chars_eq fuel false m (s + Z.of_nat i) delim (drop i l) D);
    first [done | by apply cstr_drop | rewrite length_drop; lia]).
  change (span _ (drop i l)) with k.
  replace (s + Z.of_nat i + Z.of_nat k) with (s + Z.of_nat (i + k)) by lia.
  erewrite bind_run by by apply Hread.
  destruct (cstr_read m s l (i + k) Hs Hk) as [Hr Hbk].
  rewrite s8_eq0, char_at_zero by (done || apply Hs).
  destruct (bool_decide_reflect (i + k = length l)%nat); simpl; [done|].
  unfold bind, store8. by rewrite Hr.
Qed.

Lemma tok_len_pos D l : (tok_start D l < length l)%nat -> (1 <= tok_len D l)%nat.
Proof.
  intros H. destruct (lookup_lt_is_Some_2 l (tok_start D l) H) as [c E].
  pose proof (span_stop _ _ _ E) as Hs. cbv beta in Hs. unfold tok_len.
  rewrite (drop_S _ _ _ E). simpl. destruct (in_set D c); [done|]. simpl. lia.
Qed.

Lemma span_take P l c : c ∈ take (span P l) l -> P c = true.
Proof.
  induction l as [|d l IH]; simpl; [by intros ?%not_elem_of_nil|].
  destruct (P d) eqn:E; simpl; [|by intros ?%not_elem_of_nil].
  intros [->|H]%elem_of_cons; auto.
Qed.

Lemma tok_chars D l c : c ∈ take (tok_len D l) (drop (tok_start D l) l) -> c ∉ D.
Proof.
  intros H%span_take. cbv beta in H. unfold in_set in H.
  destruct (bool_decide_reflect (c ∈ D)); done.
Qed.

(** Cutting a string at an inner position leaves its front as a string. *)
Lemma cstr_cut m s l i k :
  cstr m s l -> (i + k < length l)%nat ->
  cstr (<[s + Z.of_nat (i + k) := 0]> m) (s + Z.of_nat i) (take k (drop i l)).
Proof.
  intros Hs Hlt. assert (Hd : cstr m (s + Z.of_nat i) (drop i l)) by (apply cstr_drop; done || lia).
  destruct Hd as [Hb Hf]. split; [|by apply Forall_take].
  apply bytes_at_app. split.
  - apply bytes_at_insert; [rewrite length_take, length_drop; lia|].
    rewrite <- (take_drop k (drop i l)), <- app_assoc in Hb. by apply bytes_at_app in Hb as [Hb _].
  - rewrite length_take_le by (rewrite length_drop; lia).
    apply bytes_at_cons. split; [|apply bytes_at_nil].
    replace (s + Z.of_nat i + Z.of_nat k) with (s + Z.of_nat (i + k)) by lia.
    apply lookup_insert_eq.
Qed.

(** ** Decimal conversion *)

(** The value of a digit string, most significant digit first. *)
Definition dec_val (l : list Z) : Z := fold_left (fun v c => v * 10 + (c - 48)) l 0.

(** The value of a digit string written least significant digit first. *)
Fixpoint rev_val (l : list Z) : Z :=
  match l with [] => 0 | c :: l => (c - 48) + 10 * rev_val l end.

Definition digit (c : Z) : Prop := 48 <= c <= 57.

Lemma dec_val_rev l : dec_val (rev l) = rev_val l.
Proof.
  unfold dec_val. induction l as [|c l IH]; simpl; [done|].
  rewrite fold_left_app. simpl. rewrite IH. lia.
Qed.

Lemma rev_val_snoc l c : rev_val (l ++ [c]) = rev_val l + 10 ^ Z.of_nat (length l) * (c - 48).
Proof.
  induction l as [|d l IH]; simpl; [lia|].
  rewrite IH, Nat2Z.inj_succ, Z.pow_succ_r by lia. lia.
Qed.

Lemma itoa_digits_eq fuel m str n :
  0 <= n < 2 ^ 31 -> writable m str 10 -> (10 < fuel)%nat ->
  exists r, itoa_digits fuel str n m = Some (Z.of_nat (length r), write_list str r m)
    /\ (1 <= length r <= 10)%nat /\ Forall digit r /\ rev_val r = n.
Proof.
  intros Hn Hw Hf. apply wp_total_eq.
  set (I := fun st m' => exists r n', st = (Z.of_nat (length r), n') /\ 0 <= n'
              /\ (n' = 0 -> r = []) /\ m' = write_list str r m /\ Forall digit r
              /\ rev_val r + 10 ^ Z.of_nat (length r) * n' = n).
  wp_while I (fun st : Z * Z => (10 - Z.to_nat st.1)%nat).
  2:{ exists [], n. csplit. simpl. lia. }
  intros st m' (r & n' & -> & Hn' & Hz & -> & Hd & Hv).
  assert (Hlen : (length r < 10)%nat).
  { destruct (decide (n' = 0)) as [E|]; [rewrite (Hz E); simpl; lia|].
    destruct (decide (10 <= length r)%nat) as [Hge|]; [|lia].
    assert (10 ^ 10 <= 10 ^ Z.of_nat (length r)) by (apply Z.pow_le_mono_r; lia).
    assert (0 <= rev_val r).
    { clear -Hd. induction Hd as [|c r Hc _ IH]; simpl; [lia|]. unfold digit in Hc. lia. }
    nia. }
  pose proof (Z.rem_bound_pos n' 10). pose proof (Z.quot_rem n' 10 ltac:(lia)) as Hqr.
  pose proof (Z.quot_pos n' 10).
  wp_pure. apply wp_store8; [apply (writable_write_list m _ _ _ 10); [done|lia]|].
  cbv zeta. rewrite u8_small, <- write_list_snoc, Z.gtb_ltb by lia.
  assert (Hd' : Forall digit (r ++ [Z.rem n' 10 + 48])).
  { apply Forall_app_2; [done|]. constructor; [unfold digit; lia|done]. }
  assert (Hv' : rev_val (r ++ [Z.rem n' 10 + 48])
            + 10 ^ Z.of_nat (length (r ++ [Z.rem n' 10 + 48])) * Z.quot n' 10 = n).
  { rewrite rev_val_snoc, length_app, Nat2Z.inj_add, Z.pow_add_r by lia. simpl. nia. }
  destruct (Z.ltb_spec 0 (Z.quot n' 10)); wp_pure.
  - csplit. exists (r ++ [Z.rem n' 10 + 48]), (Z.quot n' 10). csplit.
    rewrite length_app. simpl. state_eq.
  - exists (r ++ [Z.rem n' 10 + 48]). rewrite length_app in *. simpl in *. csplit.
Qed.

(** The in-place reversal, pointwise: after [j] swaps the first and the last
    [j] bytes have changed places. *)
Definition swapped (l : list Z) (j p : nat) : option Z :=
  if bool_decide (p < j \/ length l <= p + j)%nat then l !! (length l - 1 - p)%nat else l !! p.

Lemma reverse_bytes_eq fuel m str l :
  bytes_at m str l -> Forall byte_ok l -> (length l < fuel)%nat ->
  reverse_bytes fuel str (Z.of_nat (length l)) m = Some (tt, write_list str (rev l) m).
Proof.
  intros Hl Hb Hf. set (n := length l). apply wp_eq.
  wp_while (fun st m' => exists j, st = (Z.of_nat j, Z.of_nat n - 1 - Z.of_nat j)
              /\ (2 * j <= n + 1)%nat
              /\ same_outside m m' str n
              /\ forall p, (p < n)%nat -> m' !! (str + Z.of_nat p) = swapped l j p)
           (fun st : Z * Z => (n - Z.to_nat st.1)%nat).
  2:{ exists 0%nat. csplit; [state_eq|]. intros p Hp. unfold swapped.
      rewrite bool_decide_eq_false_2 by (fold n; lia).
      destruct (lookup_lt_is_Some_2 l p Hp) as [b E]. rewrite E. by apply Hl. }
  intros st m' (j & -> & Hj & Hout & Hin).
  destruct (Z.ltb_spec (Z.of_nat j) (Z.of_nat n - 1 - Z.of_nat j)).
  - assert (Hval : forall p, (j <= p)%nat -> (p + j < n)%nat -> exists b,
              l !! p = Some b /\ m' !! (str + Z.of_nat p) = Some b /\ byte_ok b).
    { intros p H1 H2. destruct (lookup_lt_is_Some_2 l p ltac:(fold n; lia)) as [b E].
      exists b. rewrite Hin by lia. unfold swapped.
      rewrite bool_decide_eq_false_2 by (fold n; lia). csplit.
      by apply (Forall_lookup_1 _ _ _ _ Hb E). }
    destruct (Hval j) as (bj & Ej & Rj & Okj); [lia|lia|].
    destruct (Hval (n - 1 - j)%nat) as (bk & Ek & Rk & Okk); [lia|lia|].
    replace (Z.of_nat n - 1 - Z.of_nat j) with (Z.of_nat (n - 1 - j)) in * by lia.
    wp_pure. eapply wp_loadc; [exact Rj|]. wp_pure. eapply wp_loadc; [exact Rk|].
    wp_pure. apply wp_store8; [eauto|]. wp_pure.
    apply wp_store8; [rewrite lookup_insert_ne by lia; eauto|].
    rewrite !s8_u8 by done. wp_pure; csplit. exists (S j). csplit; [state_eq| |].
    + do 2 (apply same_outside_insert; [lia|]). done.
    + intros p Hp. unfold swapped. fold n.
      destruct (decide (p = n - 1 - j)%nat) as [->|].
      { rewrite lookup_insert_eq, bool_decide_eq_true_2 by lia.
        by replace (n - 1 - (n - 1 - j))%nat with j by lia. }
      rewrite lookup_insert_ne by lia. destruct (decide (p = j)) as [->|].
      { by rewrite lookup_insert_eq, bool_decide_eq_true_2 by lia. }
      rewrite lookup_insert_ne, Hin by lia. unfold swapped. fold n.
      erewrite bool_decide_ext; [done|]. lia.
  - wp_pure. csplit. apply map_eq. intros q. rewrite lookup_write_list, length_rev.
    fold n. case_bool_decide as Hq; [|by apply Hout].
    replace q with (str + Z.of_nat (Z.to_nat (q - str))) at 1 by lia.
    rewrite Hin by lia. unfold swapped. fold n. set (p := Z.to_nat (q - str)).
    assert (Hp : (p < n)%nat) by lia.
    rewrite lookup_rev by (fold n; lia). fold n.
    case_bool_decide as Hd; [f_equal; lia|]. f_equal. lia.
Qed.

Lemma digit_byte l : Forall digit l -> Forall byte_ok l.
Proof. apply Forall_impl. unfold digit, byte_ok. lia. Qed.

(** [itoa] writes the sign, the decimal digits of the magnitude and a NUL. *)
Lemma itoa_eq fuel m str n :
  - 2 ^ 31 < n < 2 ^ 31 -> writable m str 12 -> (12 < fuel)%nat ->
  exists ds, itoa fuel n str m
      = Some (tt, write_list str ((if n <? 0 then [45] else []) ++ ds ++ [0]) m)
    /\ (1 <= length ds <= 10)%nat /\ Forall digit ds /\ dec_val ds = Z.abs n.
Proof.
  intros Hn Hw Hf. unfold itoa. cbv zeta.
  set (a := if n <? 0 then s32 (- n) else n).
  assert (Ha : a = Z.abs n).
  { unfold a. destruct (Z.ltb_spec n 0); [rewrite s32_small by lia|]; lia. }
  destruct (itoa_digits_eq fuel m str a) as (r & Hr & Hlen & Hd & Hv);
    [lia|by eapply writable_le; [|exact Hw]; lia|lia|].
  exists (rev r). rewrite dec_val_rev, length_rev.
  split; [|csplit; by apply Forall_rev]. apply wp_eq. wp_pure.
  eapply wp_run; [exact Hr|]. wp_pure.
  set (sg := if n <? 0 then [45] else [] : list Z).
  assert (Hsg : wp (if n <? 0 then store8 (str + Z.of_nat (length r)) 45 ;;*
                     ret (Z.of_nat (length r) + 1) else ret (Z.of_nat (length r)))
             (write_list str r m)
             (fun i m' => i = Z.of_nat (length (r ++ sg)) /\ m' = write_list str (r ++ sg) m)).
  { unfold sg. rewrite length_app. destruct (n <? 0); wp_pure.
    - apply wp_store8; [apply (writable_write_list m _ _ _ 12); [done|lia]|].
      wp_pure. rewrite write_list_snoc. csplit.
    - rewrite app_nil_r. csplit. }
  eapply wp_mono; [exact Hsg|]. intros i m' [-> ->]. wp_pure.
  assert (Hl : (length (r ++ sg) <= 11)%nat).
  { unfold sg. rewrite length_app. destruct (n <? 0); simpl; lia. }
  apply wp_store8; [apply (writable_write_list m _ _ _ 12); [done|lia]|].
  change (u8 0) with 0. rewrite <- write_list_snoc.
  assert (Hby : Forall byte_ok (r ++ sg)).
  { apply Forall_app_2; [by apply digit_byte|]. unfold sg.
    destruct (n <? 0); repeat constructor; done. }
  eapply wp_run.
  { apply reverse_bytes_eq; [|done|lia].
    apply (proj1 (bytes_at_app _ _ (r ++ sg) [0])), bytes_at_write_list. }
  rewrite write_list_overwrite by apply length_rev. csplit.
  rewrite rev_app_distr, <- app_assoc. unfold sg. by destruct (n <? 0).
Qed.

Lemma dec_val_snoc l c : dec_val (l ++ [c]) = dec_val l * 10 + (c - 48).
Proof. unfold dec_val. by rewrite fold_left_app. Qed.

Lemma dec_val_nonneg l : Forall digit l -> 0 <= dec_val l.
Proof.
  induction l as [|c l IH] using rev_ind; [done|].
  intros [H1 H2]%Forall_app. apply Forall_cons_1 in H2 as [H2 _].
  rewrite dec_val_snoc. unfold digit in H2. specialize (IH H1). lia.
Qed.

Lemma dec_val_prefix l k : Forall digit (l ++ k) -> dec_val l <= dec_val (l ++ k).
Proof.
  induction k as [|c k IH] using rev_ind; rewrite ?app_nil_r; [done|].
  rewrite app_assoc, dec_val_snoc. intros [H1 H2]%Forall_app.
  apply Forall_cons_1 in H2 as [H2 _]. pose proof (dec_val_nonneg _ H1).
  specialize (IH H1). unfold digit in H2. lia.
Qed.

(** [atoi] reads an optionally signed decimal that fits in an [int]. *)
Lemma atoi_eq fuel m str (neg : bool) ds :
  cstr m str ((if neg then [45] else []) ++ ds) -> Forall digit ds ->
  dec_val ds < 2 ^ 31 -> (length ds < fuel)%nat ->
  atoi fuel str m = Some ((if neg then -1 else 1) * dec_val ds, m).
Proof.
  intros Hs Hd Hv Hf. unfold atoi. apply wp_eq. wp_pure.
  set (sg := if neg then [45] else [] : list Z) in *.
  assert (H0 : wp (loadc str) m (fun c0 m' => m' = m /\ (c0 =? 45) = neg)).
  { rewrite <- (Z.add_0_r str). apply (wp_read m str (sg ++ ds)); [done|lia|]. intros _.
    csplit. unfold sg, char_at. destruct neg; [done|]. destruct ds as [|c ds]; [done|].
    apply Forall_cons_1 in Hd as [Hc _]. unfold digit in Hc. simpl.
    rewrite s8_pos by lia. zdecide. done. }
  eapply wp_mono; [exact H0|]. intros c0 m' [-> ->]. clear H0.
  replace (if neg then (-1, 1) else (1, 0)) with (if neg then -1 else 1, Z.of_nat (length sg))
    by (unfold sg; by destruct neg).
  wp_pure. pose proof (proj2 Hs) as Hok.
  wp_while (fun st m' => m' = m /\ exists k, (k <= length ds)%nat
              /\ st = (dec_val (take k ds), Z.of_nat (length sg) + Z.of_nat k))
           (fun st : Z * Z => (length ds - Z.to_nat (st.2 - Z.of_nat (length sg)))%nat).
  2:{ exists 0%nat. csplit. state_eq. }
  intros st m' (-> & k & Hk & ->). wp_pure.
  rewrite <- Nat2Z.inj_add. set (i := (length sg + k)%nat).
  apply (wp_read m str (sg ++ ds)); [done|rewrite length_app; lia|]. rewrite Nat2Z.id. intros Hb.
  assert (Hch : char_at (sg ++ ds) i = char_at ds k).
  { unfold char_at, i. rewrite lookup_app_r by lia. do 2 f_equal. lia. }
  rewrite Hch in *. rewrite s8_eq0 by done. unfold char_at.
  destruct (ds !! k) as [c|] eqn:E; simpl.
  - pose proof (Forall_lookup_1 _ _ _ _ Hd E) as Hc. unfold digit in Hc.
    pose proof (lookup_lt_Some _ _ _ E).
    rewrite s8_pos by lia. rewrite Z.gtb_ltb. zdecide. simpl. wp_pure; csplit.
    exists (S k). csplit. pose proof (take_S_r _ _ _ E) as ET.
    assert (Hle : dec_val (take (S k) ds) <= dec_val ds).
    { rewrite <- (take_drop (S k) ds) at 2. apply dec_val_prefix. by rewrite take_drop. }
    assert (0 <= dec_val (take k ds)) by (apply dec_val_nonneg, Forall_take, Hd).
    rewrite ET, dec_val_snoc in Hle. rewrite ET, dec_val_snoc, s32_small by lia. state_eq.
  - apply lookup_ge_None in E. wp_pure.
    rewrite firstn_all2, s32_small by (destruct neg; pose proof (dec_val_nonneg ds Hd); lia).
    csplit.
Qed.

End Specs.

(** ** Properties *)

(** [strcmp] terminates on every pair of strings, leaves memory alone, and
    returns 0 exactly when the strings are equal; on 7-bit characters its sign
    is that of the lexicographic order. *)
Theorem strcmp_decides fuel m s1 s2 l1 l2 :
  cstr m s1 l1 -> cstr m s2 l2 -> (length l1 < fuel)%nat ->
  exists r, strcmp fuel s1 s2 m = Some (r, m) /\ (r = 0 <-> l1 = l2) /\
    (Forall (fun b => 0 < b < 128) l1 -> Forall (fun b => 0 < b < 128) l2 ->
     (r <? 0) = lex_lt l1 l2).
Proof.
  intros H1 H2 Hf. exists (scmp l1 l2).
  split; [by apply compare_string_eq|]. split; [apply scmp_zero; [apply H1|apply H2]|].
  apply scmp_lex.
Qed.

Definition two_strings : mem := write_list 100 [97; 98; 0] (write_list 200 [97; 99; 0] ∅).

Lemma strcmp_decides_witness :
  exists r, strcmp 10 100 200 two_strings = Some (r, two_strings) /\
    (r = 0 <-> [97; 98] = [97; 99]) /\
    (Forall (fun b => 0 < b < 128) [97; 98] -> Forall (fun b => 0 < b < 128) [97; 99] ->
     (r <? 0) = lex_lt [97; 98] [97; 99]).
Proof.
  apply (strcmp_decides 10 two_strings 100 200 [97; 98] [97; 99]);
    [solve_cstr|solve_cstr|simpl; lia].
Defined.

(** [strcmp] compares signed [char]s, so a character above 127 sorts before
    every 7-bit one: the result for the one-character strings 0x80 and "a" is
    negative although 0x80 > 'a' as unsigned characters, the order C
    prescribes. *)
Theorem strcmp_high_bytes_signed :
  let m := write_list 100 [128; 0] (write_list 200 [97; 0] ∅) in
  strcmp 10 100 200 m = Some (-225, m) /\ lex_lt [128] [97] = false.
Proof. split; vm_compute; reflexivity. Qed.

(** [memmove] copies correctly for every overlap of the two regions: the
    destination receives the bytes the source had before the call, and nothing
    outside the destination changes. *)
Theorem memmove_overlap fuel m d s l :
  bytes_at m s l -> Forall byte_ok l -> writable m d (length l) -> (length l < fuel)%nat ->
  exists m', memmove fuel d s (Z.of_nat (length l)) m = Some (d, m')
    /\ bytes_at m' d l /\ same_outside m m' d (length l).
Proof.
  intros. exists (write_list d l m).
  split; [by apply memmove_eq|]. split; [apply bytes_at_write_list|apply same_outside_write_list].
Qed.

(** An overlapping move by one byte to the right. *)
Lemma memmove_overlap_witness :
  let m := write_list 100 [1; 2; 3; 4] ∅ in
  exists m', memmove 10 101 100 3 m = Some (101, m')
    /\ bytes_at m' 101 [1; 2; 3] /\ same_outside m m' 101 3.
Proof.
  apply (memmove_overlap 10 (write_list 100 [1; 2; 3; 4] ∅) 101 100 [1; 2; 3]);
    [solve_bytes|repeat constructor; lia|solve_writable|simpl; lia].
Defined.

(** the bounded copies never write past their bound and always terminate
    the result: for [n >= 1], [strncpy] writes the first [min (len, n-1)]
    characters and a NUL, inside [n] bytes; [buf_append] does the same from
    [pos] within [max] bytes and returns the new end. *)
Theorem bounded_copy_safe fuel m d s n pos l :
  let k := Nat.min (length l) (Z.to_nat (n - 1 - pos)) in
  cstr m s l -> 0 <= pos < n -> writable m d (Z.to_nat n) ->
  d + n <= s \/ s + Z.of_nat (length l) < d -> (length l < fuel)%nat ->
  (exists m', buf_append fuel d pos n s m = Some (pos + Z.of_nat k, m')
     /\ cstr m' (d + pos) (take k l) /\ same_outside m m' d (Z.to_nat n))
  /\ (pos = 0 -> exists m', strncpy fuel d s n m = Some (tt, m')
     /\ cstr m' d (take k l) /\ same_outside m m' d (Z.to_nat n)).
Proof.
  intros k Hs Hpos Hw Hd Hf.
  assert (Hk : (k <= length l)%nat /\ pos + Z.of_nat k < n) by lia.
  assert (Hfw : forward_ok (d + pos) s (Z.of_nat (S k))) by (unfold forward_ok; lia).
  assert (Hwk : writable m (d + pos) (S k)).
  { intros i Hi. replace (d + pos + Z.of_nat i) with (d + Z.of_nat (Z.to_nat pos + i)) by lia.
    apply Hw. lia. }
  set (m' := write_list (d + pos) (take k l ++ [0]) m).
  assert (Hc : cstr m' (d + pos) (take k l)).
  { split; [apply bytes_at_write_list|apply Forall_take, Hs]. }
  assert (Ho : same_outside m m' d (Z.to_nat n)).
  { intros q Hq. apply same_outside_write_list. rewrite length_app, length_take_le by lia.
    simpl. lia. }
  split.
  - exists m'. split; [apply buf_append_eq; done || lia|done].
  - intros ->. rewrite Z.add_0_r in *. exists m'. split; [|done].
    unfold m'. subst k. rewrite Z.sub_0_r in *. rewrite Z.add_0_r.
    apply strncpy_eq; done || lia.
Qed.

(** Truncation to a four-byte buffer. *)
Lemma bounded_copy_safe_witness :
  let m := write_list 100 (replicate 4 255) (write_list 200 [97; 98; 99; 100; 101; 0] ∅) in
  (exists m', buf_append 10 100 0 4 200 m = Some (3, m')
     /\ cstr m' (100 + 0) [97; 98; 99] /\ same_outside m m' 100 4)
  /\ (0 = 0 -> exists m', strncpy 10 100 200 4 m = Some (tt, m')
     /\ cstr m' 100 [97; 98; 99] /\ same_outside m m' 100 4).
Proof.
  apply (bounded_copy_safe 10
    (write_list 100 (replicate 4 255) (write_list 200 [97; 98; 99; 100; 101; 0] ∅))
    100 200 4 0 [97; 98; 99; 100; 101]);
    [solve_cstr|lia|solve_writable|simpl; lia|simpl; lia].
Defined.

(** [strstr] returns the first occurrence: the address of the first
    suffix of the haystack the needle is a prefix of, or NULL when the needle occurs nowhere. *)
Theorem strstr_first_occurrence fuel m h n lh ln :
  cstr m h lh -> cstr m n ln -> (length lh < fuel)%nat -> (length ln < fuel)%nat ->
  (exists i, strstr fuel h n m = Some (h + Z.of_nat i, m) /\ (i <= length lh)%nat
     /\ ln `prefix_of` drop i lh /\ forall j, (j < i)%nat -> ~ ln `prefix_of` drop j lh)
  \/ (strstr fuel h n m = Some (0, m) /\ forall j, ~ ln `prefix_of` drop j lh).
Proof.
  intros Hh Hn Hf1 Hf2. rewrite (strstr_eq _ _ _ _ lh ln) by done.
  destruct (first_index (starts_with ln) lh) as [i|] eqn:E.
  - apply first_index_Some in E as (Hi & HP & Hno). left. exists i. csplit.
    + by apply bool_decide_eq_true in HP.
    + intros j Hj. specialize (Hno j Hj). by apply bool_decide_eq_false in Hno.
  - rewrite first_index_None in E. right. csplit. intros j.
    destruct (decide (j <= length lh)%nat) as [Hj|].
    + specialize (E j Hj). by apply bool_decide_eq_false in E.
    + specialize (E (length lh) ltac:(lia)). rewrite drop_all in E.
      rewrite drop_ge by lia. by apply bool_decide_eq_false in E.
Qed.

Lemma strstr_first_occurrence_witness :
  let m := write_list 100 [97; 97; 98; 0] (write_list 200 [97; 98; 0] ∅) in
  (exists i, strstr 10 100 200 m = Some (100 + Z.of_nat i, m) /\ (i <= 3)%nat
     /\ [97; 98] `prefix_of` drop i [97; 97; 98]
     /\ forall j, (j < i)%nat -> ~ [97; 98] `prefix_of` drop j [97; 97; 98])
  \/ (strstr 10 100 200 m = Some (0, m)
      /\ forall j, ~ [97; 98] `prefix_of` drop j [97; 97; 98]).
Proof.
  apply (strstr_first_occurrence 10 (write_list 100 [97; 97; 98; 0] (write_list 200 [97; 98; 0] ∅))
    100 200 [97; 97; 98] [97; 98]); [solve_cstr|solve_cstr|simpl; lia|simpl; lia].
Defined.

(** [itoa] followed by [atoi] is the identity on every [int] but INT_MIN,
    inside a 12-byte buffer. *)
Theorem itoa_atoi_roundtrip fuel m str n :
  - 2 ^ 31 < n < 2 ^ 31 -> writable m str 12 -> (12 < fuel)%nat ->
  exists m', itoa fuel n str m = Some (tt, m') /\ same_outside m m' str 12
    /\ atoi fuel str m' = Some (n, m').
Proof.
  intros Hn Hw Hf. destruct (itoa_eq fuel m str n Hn Hw Hf) as (ds & E & Hl & Hd & Hv).
  set (m' := write_list _ _ _) in E. exists m'. split; [done|]. split.
  - intros q Hq. apply same_outside_write_list. rewrite !length_app. simpl.
    destruct (n <? 0); simpl; lia.
  - rewrite (atoi_eq fuel m' str (n <? 0) ds); [|split| | |]; try done; try lia.
    + destruct (Z.ltb_spec n 0); do 2 f_equal; lia.
    + rewrite <- app_assoc. apply bytes_at_write_list.
    + apply Forall_app_2; [by destruct (n <? 0); repeat constructor|].
      eapply Forall_impl; [|exact Hd]. unfold digit. lia.
Qed.

Lemma itoa_atoi_roundtrip_witness :
  let m := write_list 100 (replicate 12 0) ∅ in
  exists m', itoa 20 (-2147483647) 100 m = Some (tt, m') /\ same_outside m m' 100 12
    /\ atoi 20 100 m' = Some (-2147483647, m').
Proof.
  apply (itoa_atoi_roundtrip 20 (write_list 100 (replicate 12 0) ∅) 100 (-2147483647));
    [lia|solve_writable|lia].
Defined.

(** [strtok_r] splits off the next token.  It skips the leading delimiters,
    returns the longest run of non-delimiters as a terminated string, and
    leaves [*saveptr] at the rest of the string, which is intact; a string of
    delimiters only has no token. *)
Theorem strtok_r_token fuel m s delim save l D :
  cstr m s l -> cstr m delim D -> 0 < delim -> 0 < s ->
  (length l < fuel)%nat -> (length D < fuel)%nat ->
  let i := tok_start D l in
  let k := tok_len D l in
  (i = length l /\ strtok_r fuel s delim save m = Some ((0, 0), m))
  \/ ((i < length l)%nat /\ exists p m',
      strtok_r fuel s delim save m = Some ((s + Z.of_nat i, p), m')
      /\ (1 <= k)%nat
      /\ cstr m' (s + Z.of_nat i) (take k (drop i l))
      /\ (forall c, c ∈ take k (drop i l) -> c ∉ D)
      /\ if bool_decide (i + k = length l)%nat then p = 0
         else cstr m' p (drop (S (i + k)) l)).
Proof.
  intros Hs HD Hd Hsp Hf1 Hf2 i k.
  rewrite (strtok_r_eq fuel m s delim save l D) by done. cbv zeta. fold i k.
  assert (Hi : (i <= length l)%nat) by apply span_le.
  assert (Hk : (i + k <= length l)%nat).
  { pose proof (span_le (fun c => Bool.eqb (in_set D c) false) (drop i l)) as H.
    rewrite length_drop in H. unfold k, tok_len. fold i. lia. }
  destruct (bool_decide_reflect (i = length l)); [by left|right].
  split; [lia|]. assert (Hk1 : (1 <= k)%nat) by (by apply tok_len_pos; fold i; lia).
  pose proof (tok_chars D l) as Hc. fold i k in Hc.
  destruct (bool_decide_reflect (i + k = length l)%nat) as [E|E].
  - exists 0, m. csplit. rewrite take_ge by (rewrite length_drop; lia). by apply cstr_drop.
  - exists (s + Z.of_nat (i + k) + 1), (<[s + Z.of_nat (i + k) := 0]> m). csplit.
    + apply cstr_cut; [done|lia].
    + replace (s + Z.of_nat (i + k) + 1) with (s + Z.of_nat (S (i + k))) by lia.
      eapply (cstr_same_outside m _ _ _ (s + Z.of_nat (i + k)) 1); [|lia|apply cstr_drop; done || lia].
      apply same_outside_insert; [lia|done].
Qed.

(** The first token of ",ab,c" with the delimiter ",". *)
Lemma strtok_r_token_witness :
  let m := write_list 100 [44; 97; 98; 44; 99; 0] (write_list 200 [44; 0] ∅) in
  (1%nat = 5%nat /\ strtok_r 10 100 200 0 m = Some ((0, 0), m))
  \/ ((1 < 5)%nat /\ exists p m',
      strtok_r 10 100 200 0 m = Some ((101, p), m')
      /\ (1 <= 2)%nat
      /\ cstr m' 101 [97; 98]
      /\ (forall c, c ∈ [97; 98] -> c ∉ [44])
      /\ cstr m' p [99]).
Proof.
  apply (strtok_r_token 10 (write_list 100 [44; 97; 98; 44; 99; 0] (write_list 200 [44; 0] ∅))
    100 200 0 [44; 97; 98; 44; 99] [44]);
    [solve_cstr|solve_cstr|lia|lia|simpl; lia|simpl; lia].
Defined.

End CString.
