(* ===== verification/Malloc.v ===== *)
(** * Malloc: the heap of src/stdlib.c

    [malloc], [free], [calloc], [realloc] and the aligned allocators keep one
    singly linked chain of block headers, [free_list], which holds every block,
    used or free, in address order; memory comes from the kernel's [brk], and
    from [mmap] for very large alignments.

    A header is a record stored in [hdrs] under its address, so [next] pointers
    are followed exactly as the C code follows them; payload bytes are a
    [mem].  [unsigned int] fields and pointer sums carry their 32-bit
    wrap-around.  A walk along the chain has fuel [chain_fuel], more than there are headers.
    The spinlock is a field: acquiring a held lock would spin forever and
    is modelled as no result, so every theorem that gives a result also shows that the lock was released. *)

From Stdlib Require Import ZArith Lia Bool.
From stdpp Require Import base gmap list numbers sorting.
From S2P Require Import Prelude Monad Memory CString.

Module Malloc.

(** ** The kernel interface

    [brk], [mmap] and [munmap] are system calls: parameters of the model.  The laws
    are what the allocator relies on. *)
Class Kernel (K : Type) := {
  sys_brk : Z -> K -> mem -> Z * K * mem;
  sys_mmap : Z -> K -> mem -> Z * K * mem;
  sys_munmap : Z -> Z -> K -> mem -> K * mem;
  cur_brk : K -> Z;

  (** [brk(0)] reports the break. *)
  brk_query : forall k m, sys_brk 0 k m = (cur_brk k, k, m);
  (** [brk(a)] either fails with -1 and changes nothing, or moves the break to
      [a] and maps the bytes in between, leaving the others alone. *)
  brk_grow : forall a k m, cur_brk k <= a -> a <> 0 ->
    let '(r, k', m') := sys_brk a k m in
    (r = 2 ^ 32 - 1 /\ k' = k /\ m' = m) \/
    (r <> 2 ^ 32 - 1 /\ cur_brk k' = a
     /\ (forall q, ~ (cur_brk k <= q < a) -> m' !! q = m !! q)
     /\ (forall q, cur_brk k <= q < a -> is_Some (m' !! q)));
}.

Definition BLOCK_MAGIC : Z := 0xA110CA7E.
Definition MMAP_MAGIC : Z := 0xA110CA7F.
Definition BLOCK_SIZE : Z := 24.
Definition UINTPTR_MAX : Z := 2 ^ 32 - 1.
Definition CACT_PAGE_SIZE : Z := 4096.
Definition ENOMEM : Z := 12.
Definition EINVAL : Z := 22.

(** [ALIGN8(x)] on [unsigned int]: [((x) + 7) & ~7]. *)
Definition ALIGN8 (x : Z) : Z := Z.land (u32 (x + 7)) (u32 (Z.lnot 7)).

(** [ALIGN_UP(v, a)] on [uintptr_t]. *)
Definition ALIGN_UP (v a : Z) : Z := Z.land (u32 (v + u32 (a - 1))) (u32 (Z.lnot (u32 (a - 1)))).

(** [struct block_header] *)
Record block_header := mk_header {
  magic : Z;
  size : Z;
  is_free : Z;
  next : Z;
  mbase : Z;
  mlen : Z;
}.

Definition with_size (h : block_header) (v : Z) : block_header :=
  mk_header (magic h) v (is_free h) (next h) (mbase h) (mlen h).
Definition with_free (h : block_header) (v : Z) : block_header :=
  mk_header (magic h) (size h) v (next h) (mbase h) (mlen h).
Definition with_next (h : block_header) (v : Z) : block_header :=
  mk_header (magic h) (size h) (is_free h) v (mbase h) (mlen h).
Definition with_magic (h : block_header) (v : Z) : block_header :=
  mk_header v (size h) (is_free h) (next h) (mbase h) (mlen h).

(** The header a fresh piece of memory has before its fields are assigned:
    only the assigned ones are ever read. *)
Definition fresh : block_header := mk_header 0 0 0 0 0 0.

Section Heap.
Context {K : Type} {KK : Kernel K}.

Record heap := mk_heap {
  hdrs : gmap Z block_header;
  free_list : Z;
  heap_initialized : bool;
  malloc_lock : Z;
  errno : Z;
  bytes : mem;
  kern : K;
}.

Definition set_hdrs (f : gmap Z block_header -> gmap Z block_header) (s : heap) : heap :=
  mk_heap (f (hdrs s)) (free_list s) (heap_initialized s) (malloc_lock s) (errno s) (bytes s) (kern s).
Definition set_free_list (p : Z) (s : heap) : heap :=
  mk_heap (hdrs s) p (heap_initialized s) (malloc_lock s) (errno s) (bytes s) (kern s).
Definition set_lock (v : Z) (s : heap) : heap :=
  mk_heap (hdrs s) (free_list s) (heap_initialized s) v (errno s) (bytes s) (kern s).
Definition set_init (v : bool) (s : heap) : heap :=
  mk_heap (hdrs s) (free_list s) v (malloc_lock s) (errno s) (bytes s) (kern s).
Definition set_errno (v : Z) (s : heap) : heap :=
  mk_heap (hdrs s) (free_list s) (heap_initialized s) (malloc_lock s) v (bytes s) (kern s).
Definition set_kernel (k : K) (m : mem) (s : heap) : heap :=
  mk_heap (hdrs s) (free_list s) (heap_initialized s) (malloc_lock s) (errno s) m k.

Abbreviation HM := (St heap).

(** [*p] and [*p = h] for a header. *)
Definition hdr (p : Z) : HM block_header :=
  fun s => match hdrs s !! p with Some h => Some (h, s) | None => None end.
Definition set_hdr (p : Z) (h : block_header) : HM unit := modify (set_hdrs (<[p := h]>)).

(** Running byte-memory code inside the heap. *)
Definition on_bytes {A} (c : M A) : HM A :=
  fun s => match c (bytes s) with
           | Some (a, m) => Some (a, set_kernel (kern s) m s)
           | None => None
           end.

Definition brk_call (a : Z) : HM Z :=
  fun s => let '(r, k, m) := sys_brk a (kern s) (bytes s) in Some (r, set_kernel k m s).

Definition chain_fuel (s : heap) : nat := Datatypes.S (Datatypes.S (base.size (hdrs s))).

Definition malloc_lock_acquire : HM unit :=
  let* l := gets malloc_lock in
  if l =? 0 then modify (set_lock 1) else fault.
Definition malloc_lock_release : HM unit := modify (set_lock 0).

Definition heap_init : HM unit :=
  let* i := gets heap_initialized in
  if i then ret tt
  else modify (set_init true) ;;* modify (set_free_list 0).

Definition find_free_block (sz : Z) : HM Z :=
  let* fuel := gets chain_fuel in
  let* cur := gets free_list in
  loop fuel (fun cur =>
    if cur =? 0 then break 0
    else
      let* h := hdr cur in
      if negb (is_free h =? 0) && (size h >=? sz) then break cur
      else continue (next h)) cur.

(** [last = free_list; while (last->next) last = last->next; last->next = block;]
    or the first block of an empty list. *)
Definition append_block (block : Z) : HM unit :=
  let* fl := gets free_list in
  if fl =? 0 then modify (set_free_list block)
  else
    let* fuel := gets chain_fuel in
    let* last := loop fuel (fun last =>
      let* h := hdr last in
      if negb (next h =? 0) then continue (next h) else break last) fl in
    let* h := hdr last in
    set_hdr last (with_next h block).

Definition request_space (sz : Z) : HM Z :=
  let total := u32 (BLOCK_SIZE + sz) in
  let request := if total <? 4096 then 4096 else total in
  let* cur := brk_call 0 in
  if cur =? UINTPTR_MAX then ret 0
  else
    let req_brk := u32 (cur + request) in
    if req_brk <? cur then ret 0
    else
      let* new_brk := brk_call req_brk in
      if new_brk =? UINTPTR_MAX then ret 0
      else
        let block := cur in
        let bsize := u32 (request - BLOCK_SIZE) in
        set_hdr block (mk_header BLOCK_MAGIC bsize 0 0 0 0) ;;*
        if bsize >? u32 (sz + BLOCK_SIZE + 16) then
          let remainder := u32 (block + BLOCK_SIZE + sz) in
          set_hdr remainder
            (mk_header BLOCK_MAGIC (u32 (bsize - sz - BLOCK_SIZE)) 1 0 0 0) ;;*
          let* h := hdr block in
          set_hdr block (with_next (with_size h sz) remainder) ;;*
          append_block block ;;*
          ret block
        else
          append_block block ;;*
          ret block.

(** [malloc]'s use of a free block: split off what is not needed, mark it. *)
Definition take_block (block aligned : Z) : HM unit :=
  let* h := hdr block in
  (if size h >? u32 (aligned + BLOCK_SIZE + 16) then
     let remainder := u32 (block + BLOCK_SIZE + aligned) in
     set_hdr remainder
       (mk_header BLOCK_MAGIC (u32 (size h - aligned - BLOCK_SIZE)) 1 (next h) 0 0) ;;*
     let* h := hdr block in
     set_hdr block (with_next (with_size h aligned) remainder)
   else ret tt) ;;*
  let* h := hdr block in
  set_hdr block (with_free h 0).

Definition malloc (sz : Z) : HM Z :=
  let sz := if sz =? 0 then 1 else sz in
  malloc_lock_acquire ;;*
  heap_init ;;*
  let aligned := ALIGN8 (u32 sz) in
  let* block := find_free_block aligned in
  if negb (block =? 0) then
    take_block block aligned ;;*
    malloc_lock_release ;;*
    ret (u32 (block + BLOCK_SIZE))
  else
    let* block := request_space aligned in
    if block =? 0 then malloc_lock_release ;;* ret 0
    else
      let* h := hdr block in
      set_hdr block (with_free h 0) ;;*
      malloc_lock_release ;;*
      ret (u32 (block + BLOCK_SIZE)).

(** The coalescing pass of [free]. *)
Definition coalesce : HM unit :=
  let* fuel := gets chain_fuel in
  let* fl := gets free_list in
  loop (2 * fuel) (fun cur =>
    if cur =? 0 then break tt
    else
      let* h := hdr cur in
      if negb (is_free h =? 0) && negb (next h =? 0) then
        let* n := hdr (next h) in
        if negb (is_free n =? 0) then
          set_hdr cur (with_next (with_size h (u32 (size h + (BLOCK_SIZE + size n)))) (next n)) ;;*
          continue cur
        else continue (next h)
      else continue (next h)) fl.

Definition munmap_call (base len : Z) : HM unit :=
  fun s => let '(k, m) := sys_munmap base len (kern s) (bytes s) in Some (tt, set_kernel k m s).

Definition free (ptr : Z) : HM unit :=
  if ptr =? 0 then ret tt
  else
    let block := u32 (ptr - BLOCK_SIZE) in
    let* h := hdr block in
    if magic h =? MMAP_MAGIC then munmap_call (mbase h) (mlen h)
    else if negb (magic h =? BLOCK_MAGIC) then ret tt
    else
      malloc_lock_acquire ;;*
      set_hdr block (with_free h 1) ;;*
      coalesce ;;*
      malloc_lock_release.

Definition mmap_call (len : Z) : HM Z :=
  fun s => let '(r, k, m) := sys_mmap len (kern s) (bytes s) in Some (r, set_kernel k m s).

Definition malloc_aligned_mmap (sz align : Z) : HM Z :=
  let need := u32 (if sz =? 0 then 1 else sz) in
  let page := CACT_PAGE_SIZE in
  let total := u32 (need + align + BLOCK_SIZE) in
  let total := Z.land (u32 (total + page - 1)) (u32 (Z.lnot (page - 1))) in
  let* map := mmap_call total in
  if map =? UINTPTR_MAX then modify (set_errno ENOMEM) ;;* ret 0
  else
    let payload := ALIGN_UP (u32 (map + BLOCK_SIZE)) align in
    set_hdr (u32 (payload - BLOCK_SIZE)) (mk_header MMAP_MAGIC need 0 0 map total) ;;*
    ret payload.

(** [malloc_aligned] once it has a block: leading fragment, aligned block, tail. *)
Definition carve (block align need : Z) : HM Z :=
  let* h := hdr block in
  let bend := u32 (block + BLOCK_SIZE + size h) in
  let astart := u32 (block + BLOCK_SIZE) in
  let p := ALIGN_UP astart align in
  let p := if negb (p =? astart) && (u32 (p - block) <? 2 * BLOCK_SIZE)
           then u32 (p + align) else p in
  let lead := u32 (p - astart) in
  let used := need in
  let tail := u32 (bend - u32 (p + used)) in
  let '(used, tail) := if tail <? BLOCK_SIZE + 8 then (u32 (used + tail), 0) else (used, tail) in
  let old_next := next h in
  let* aligned := (if lead =? 0 then ret block
    else
      let aligned := u32 (p - BLOCK_SIZE) in
      set_hdr aligned (with_magic fresh BLOCK_MAGIC) ;;*
      let* h := hdr block in
      set_hdr block (with_next (with_free (with_size h (u32 (lead - BLOCK_SIZE))) 1) aligned) ;;*
      ret aligned) in
  let* h := hdr aligned in
  set_hdr aligned (with_free (with_size h used) 0) ;;*
  (if negb (tail =? 0) then
     let rest := u32 (p + used) in
     set_hdr rest (mk_header BLOCK_MAGIC (u32 (tail - BLOCK_SIZE)) 1 old_next 0 0) ;;*
     let* h := hdr aligned in
     set_hdr aligned (with_next h rest)
   else
     let* h := hdr aligned in
     set_hdr aligned (with_next h old_next)) ;;*
  ret p.

Definition malloc_aligned (sz alignment : Z) : HM Z :=
  let align := u32 alignment in
  let need := ALIGN8 (u32 (if sz =? 0 then 1 else sz)) in
  if align >? Z.shiftl 1 20 then malloc_aligned_mmap sz alignment
  else
    malloc_lock_acquire ;;*
    heap_init ;;*
    let want := u32 (need + 2 * align + 2 * BLOCK_SIZE + 8) in
    let* block := find_free_block want in
    let* block := (if block =? 0 then request_space want else ret block) in
    if block =? 0 then malloc_lock_release ;;* ret 0
    else
      let* p := carve block align need in
      malloc_lock_release ;;*
      ret p.

(** [alignment < sizeof(void * ) || (alignment & (alignment - 1)) != 0] *)
Definition bad_alignment (alignment : Z) : bool :=
  (alignment <? 4) || negb (Z.land alignment (u32 (alignment - 1)) =? 0).

Definition alloc_for (alignment sz : Z) : HM Z :=
  if alignment <=? 8 then malloc sz else malloc_aligned sz alignment.

(** The error number and the value stored through [memptr], if any. *)
Definition posix_memalign (memptr : Z) (alignment sz : Z) : HM (Z * option Z) :=
  if memptr =? 0 then ret (EINVAL, None)
  else if bad_alignment alignment then ret (EINVAL, None)
  else
    let* p := alloc_for alignment sz in
    if p =? 0 then ret (ENOMEM, None) else ret (0, Some p).

Definition aligned_alloc (alignment sz : Z) : HM Z :=
  if bad_alignment alignment then modify (set_errno EINVAL) ;;* ret 0
  else
    let* p := alloc_for alignment sz in
    (if p =? 0 then modify (set_errno ENOMEM) else ret tt) ;;*
    ret p.

Definition memalign (alignment sz : Z) : HM Z := aligned_alloc alignment sz.

Definition calloc (nmemb sz : Z) : HM Z :=
  let total := u32 (nmemb * sz) in
  let* ptr := malloc total in
  (if negb (ptr =? 0)
   then on_bytes (CString.memset (Datatypes.S (Z.to_nat total)) ptr 0 total) ;;* ret tt
   else ret tt) ;;*
  ret ptr.

Definition realloc (ptr sz : Z) : HM Z :=
  if ptr =? 0 then malloc sz
  else if sz =? 0 then free ptr ;;* ret 0
  else
    let block := u32 (ptr - BLOCK_SIZE) in
    let* h := hdr block in
    if magic h =? MMAP_MAGIC then
      let* np := malloc sz in
      if np =? 0 then ret 0
      else
        let* h := hdr block in
        let n := if size h <? sz then size h else u32 sz in
        on_bytes (CString.memcpy (Datatypes.S (Z.to_nat n)) np ptr n) ;;*
        free ptr ;;*
        ret np
    else if negb (magic h =? BLOCK_MAGIC) then ret 0
    else if size h >=? u32 sz then ret ptr
    else
      let* new_ptr := malloc sz in
      if new_ptr =? 0 then ret 0
      else
        let* h := hdr block in
        on_bytes (CString.memcpy (Datatypes.S (Z.to_nat (size h))) new_ptr ptr (size h)) ;;*
        free ptr ;;*
        ret new_ptr.

(** ** The heap invariant

    The chain from [free_list] is the list [bl] of every block in address
    order; the blocks tile the arena from its start up to the break, so no
    byte is lost and no two blocks overlap. *)

Abbreviation block := (Z * block_header)%type.

(** The chain segment from [p] up to (and not including) [q]. *)
Fixpoint lseg (hs : gmap Z block_header) (p : Z) (l : list block) (q : Z) : Prop :=
  match l with
  | [] => p = q
  | (a, h) :: l => p = a /\ a <> 0 /\ hs !! a = Some h /\ lseg hs (next h) l q
  end.

(** The blocks of [l] cover [start, stop) without gaps. *)
Fixpoint tiles (start : Z) (l : list block) (stop : Z) : Prop :=
  match l with
  | [] => start = stop
  | (a, h) :: l =>
      a = start /\ magic h = BLOCK_MAGIC /\ 0 <= size h /\ size h mod 8 = 0
      /\ tiles (a + BLOCK_SIZE + size h) l stop
  end.

Record heap_inv (start : Z) (bl : list block) (s : heap) : Prop := {
  ok_init : heap_initialized s = false -> free_list s = 0;
  ok_chain : lseg (hdrs s) (free_list s) bl 0;
  ok_tiles : tiles start bl (cur_brk (kern s));
  ok_start : 0 < start /\ start mod 8 = 0;
  ok_brk : cur_brk (kern s) < 2 ^ 32;
  ok_mapped : forall q, start <= q < cur_brk (kern s) -> is_Some (bytes s !! q);
}.

(** Between calls the lock is free. *)
Definition heap_ok (start : Z) (bl : list block) (s : heap) : Prop :=
  heap_inv start bl s /\ malloc_lock s = 0.

(** The bytes of the existing arena are untouched. *)
Definition keeps_bytes (start : Z) (s s' : heap) : Prop :=
  forall q, start <= q < cur_brk (kern s) -> bytes s' !! q = bytes s !! q.

(** The live allocations: payload address and usable size. *)
Definition used (bl : list block) : list (Z * Z) :=
  omap (fun '(a, h) => if is_free h =? 0 then Some (a + BLOCK_SIZE, size h) else None) bl.

Section Chains.
Implicit Types (hs : gmap Z block_header) (l : list block).

Lemma lseg_app hs p l1 l2 q :
  lseg hs p (l1 ++ l2) q <-> exists r, lseg hs p l1 r /\ lseg hs r l2 q.
Proof.
  revert p. induction l1 as [|[a h] l1 IH]; intros p; simpl.
  - split; [eauto|]. intros (r & -> & ?). done.
  - rewrite IH. split; [intros (?&?&?&r&?&?)|intros (r&(?&?&?&?)&?)]; eauto 10.
Qed.

Lemma lseg_insert hs p l q a h :
  a ∉ l.*1 -> lseg (<[a := h]> hs) p l q <-> lseg hs p l q.
Proof.
  revert p. induction l as [|[b g] l IH]; intros p Ha; simpl; [done|].
  apply not_elem_of_cons in Ha as [Hne Ha].
  rewrite lookup_insert_ne, IH by done. done.
Qed.

Lemma tiles_app start l1 l2 stop :
  tiles start (l1 ++ l2) stop <-> exists mid, tiles start l1 mid /\ tiles mid l2 stop.
Proof.
  revert start. induction l1 as [|[a h] l1 IH]; intros start; simpl.
  - split; [eauto|]. intros (r & -> & ?). done.
  - rewrite IH. split; [intros (?&?&?&?&r&?&?)|intros (r&(?&?&?&?&?)&?)]; eauto 10.
Qed.

Lemma tiles_le start l stop : tiles start l stop -> start <= stop.
Proof.
  revert start. induction l as [|[a h] l IH]; intros start; simpl; [lia|].
  intros (-> & _ & Hs & _ & Ht). apply IH in Ht. unfold BLOCK_SIZE in Ht. lia.
Qed.

Lemma tiles_bounds start l stop a h :
  tiles start l stop -> (a, h) ∈ l ->
  start <= a /\ a + BLOCK_SIZE + size h <= stop /\ 0 <= size h /\ magic h = BLOCK_MAGIC.
Proof.
  revert start. induction l as [|[b g] l IH]; intros start; simpl.
  - by intros _ ?%not_elem_of_nil.
  - intros (-> & Hm & Hs & _ & Ht) [E|Hin]%elem_of_cons.
    + simplify_eq. apply tiles_le in Ht. csplit.
    + destruct (IH _ Ht Hin) as (? & ? & ? & ?). unfold BLOCK_SIZE in *. csplit.
Qed.

(** Addresses outside an interval are not those of blocks tiling it. *)
Lemma tiles_notin start l stop a :
  tiles start l stop -> ~ (start <= a < stop) -> a ∉ l.*1.
Proof.
  intros Ht Hn ([b h] & -> & Hin)%list_elem_of_fmap.
  destruct (tiles_bounds _ _ _ _ _ Ht Hin) as (? & ? & ? & _).
  unfold BLOCK_SIZE in *. simpl in *. lia.
Qed.

Lemma tiles_NoDup start l stop : tiles start l stop -> NoDup l.*1.
Proof.
  revert start. induction l as [|[a h] l IH]; intros start; simpl; [constructor|].
  intros (-> & _ & Hs & _ & Ht). constructor; [|eauto].
  apply (tiles_notin _ _ _ _ Ht). unfold BLOCK_SIZE. lia.
Qed.

Lemma tiles_aligned start l stop :
  tiles start l stop -> start mod 8 = 0 -> stop mod 8 = 0.
Proof.
  revert start. induction l as [|[a h] l IH]; intros start; simpl; [by intros ->|].
  intros (-> & _ & _ & Hm & Ht) Hs. apply (IH _ Ht). unfold BLOCK_SIZE.
  rewrite <- Z.add_assoc, Z.add_mod, Hs, (Z.add_mod 24), Hm by lia. done.
Qed.

Lemma lseg_dom hs p l q : lseg hs p l q -> forall a, a ∈ l.*1 -> a ∈ dom hs.
Proof.
  revert p. induction l as [|[b h] l IH]; intros p; simpl; [by intros _ ? ?%not_elem_of_nil|].
  intros (-> & _ & Hl & Hs) a [->|Ha]%elem_of_cons; [|eauto].
  apply elem_of_dom. eauto.
Qed.

(** The chain is no longer than the number of headers: the walks' fuel. *)
Lemma chain_length hs p l q : NoDup l.*1 -> lseg hs p l q -> (length l <= base.size hs)%nat.
Proof.
  intros Hnd Hs. rewrite <- (length_fmap fst l), <- (size_list_to_set (C := gset Z) l.*1 Hnd).
  rewrite <- size_dom. apply subseteq_size. intros a Ha%elem_of_list_to_set. 
  by eapply lseg_dom.
Qed.

Lemma used_app l1 l2 : used (l1 ++ l2) = used l1 ++ used l2.
Proof. apply omap_app. Qed.

Lemma used_cons a h l :
  used ((a, h) :: l) =
    (if is_free h =? 0 then [(a + BLOCK_SIZE, size h)] else []) ++ used l.
Proof. unfold used. simpl. by destruct (is_free h =? 0). Qed.
End Chains.

(** ** The walks *)

Lemma wp_hdr p h s (Q : block_header -> heap -> Prop) :
  hdrs s !! p = Some h -> Q h s -> wp (hdr p) s Q.
Proof. unfold wp, hdr. by intros ->. Qed.

Lemma wp_set_hdr p h s (Q : unit -> heap -> Prop) :
  Q tt (set_hdrs (<[p := h]>) s) -> wp (set_hdr p h) s Q.
Proof. done. Qed.

Definition fits (sz : Z) (h : block_header) : bool :=
  negb (is_free h =? 0) && (size h >=? sz).

(** First fit: the first block that is free and large enough, or NULL. *)
Lemma find_free_block_spec start bl s sz :
  tiles start bl (cur_brk (kern s)) -> lseg (hdrs s) (free_list s) bl 0 ->
  wp (find_free_block sz) s (fun r s' => s' = s /\
    ((r = 0 /\ Forall (fun b => fits sz b.2 = false) bl) \/
     (exists l1 h l2, bl = l1 ++ (r, h) :: l2 /\ r <> 0 /\ fits sz h = true
        /\ Forall (fun b => fits sz b.2 = false) l1))).
Proof.
  intros Ht Hc. unfold find_free_block. wp_pure.
  eapply (wp_loop_ghost
    (fun l2 cur s' => s' = s /\ lseg (hdrs s) cur l2 0 /\
       exists l1, bl = l1 ++ l2 /\ Forall (fun b => fits sz b.2 = false) l1)
    length) with (g := bl).
  - intros l2 cur s' (-> & Hl & l1 & -> & Hno). destruct l2 as [|[a h] l2]; simpl in Hl.
    + subst cur. simpl. wp_pure. csplit. left. by rewrite app_nil_r.
    + destruct Hl as (-> & Ha & Hh & Hl). zdecide.
      wp_pure. apply (wp_hdr _ h); [done|]. change (_ && _) with (fits sz h).
      destruct (fits sz h) eqn:Hf; wp_pure.
      * csplit. right. eauto 10.
      * exists l2. csplit. exists (l1 ++ [(a, h)]). rewrite <- app_assoc. csplit.
        apply Forall_app_2; [done|by constructor].
  - csplit. by exists [].
  - pose proof (chain_length _ _ _ _ (tiles_NoDup _ _ _ Ht) Hc). unfold chain_fuel. lia.
Qed.

(** The chain with its last link redirected to [b]. *)
Fixpoint relink (l : list block) (b : Z) : list block :=
  match l with
  | [] => []
  | [(a, h)] => [(a, with_next h b)]
  | x :: l => x :: relink l b
  end.

Lemma relink_snoc l a h b : relink (l ++ [(a, h)]) b = l ++ [(a, with_next h b)].
Proof.
  induction l as [|x l IH]; [done|]. simpl. rewrite IH. destruct x as [c g].
  by destruct l as [|[? ?] ?].
Qed.

Lemma relink_used l b : used (relink l b) = used l.
Proof.
  destruct l as [|[a h] l _] using rev_ind; [done|].
  rewrite relink_snoc, !used_app, !used_cons. done.
Qed.

Lemma relink_tiles l b start stop : tiles start l stop -> tiles start (relink l b) stop.
Proof.
  destruct l as [|[a h] l _] using rev_ind; [done|].
  rewrite relink_snoc, !tiles_app. done.
Qed.

(** Appending links a new tail of the chain behind the last block. *)
Lemma append_block_spec start stop bl s b tl :
  tiles start bl stop -> lseg (hdrs s) (free_list s) bl 0 ->
  b <> 0 -> lseg (hdrs s) b tl 0 -> (forall a, a ∈ bl.*1 -> a ∉ tl.*1) ->
  wp (append_block b) s (fun _ s' => exists fl hs,
    s' = set_hdrs (fun _ => hs) (set_free_list fl s) /\ fl <> 0
    /\ lseg hs fl (relink bl b ++ tl) 0).
Proof.
  intros Ht Hc Hb Htl Hdisj. unfold append_block. wp_pure.
  destruct bl as [|[a h] l _] using rev_ind.
  - simpl in Hc. rewrite Hc. simpl. wp_pure. exists b, (hdrs s). csplit.
  - pose proof (chain_length _ _ _ _ (tiles_NoDup _ _ _ Ht) Hc) as Hlen.
    assert (Hfl : free_list s <> 0) by (destruct l as [|[? ?] ?]; simpl in Hc; naive_solver).
    zdecide. wp_pure. apply lseg_app in Hc as Hc'. destruct Hc' as (r & Hl & Hr).
    simpl in Hr. destruct Hr as (-> & Ha & Hh & Hn).
    eapply (wp_loop_ghost
      (fun l2 cur s' => s' = s /\ lseg (hdrs s) cur (l2 ++ [(a, h)]) 0 /\
         exists l1, l = l1 ++ l2) length) with (g := l).
    + intros l2 cur s' (-> & Hseg & l1 & ->). wp_pure. destruct l2 as [|[a2 h2] l2]; simpl in Hseg.
      * destruct Hseg as (-> & _ & _ & _). apply (wp_hdr _ h); [done|].
        rewrite Hn. simpl. wp_pure. apply (wp_hdr _ h); [done|]. apply wp_set_hdr.
        exists (free_list s), (<[a := with_next h b]> (hdrs s)). csplit.
        rewrite app_nil_r in *. rewrite relink_snoc, <- app_assoc. simpl.
        apply tiles_app in Ht as (mid & Ht1 & Ht2). simpl in Ht2. destruct Ht2 as (-> & _).
        apply lseg_app. exists mid. split.
        { apply lseg_insert; [|done]. apply (tiles_notin _ _ _ _ Ht1). lia. }
        simpl. rewrite lookup_insert_eq. csplit.
        apply lseg_insert; [|done]. apply Hdisj. rewrite fmap_app. set_solver.
      * destruct Hseg as (-> & Ha2 & Hh2 & Hseg). apply (wp_hdr _ h2); [done|].
        assert (next h2 <> 0).
        { destruct l2 as [|[? ?] ?]; simpl in Hseg; naive_solver. }
        zdecide. simpl. wp_pure. exists l2. csplit. exists (l1 ++ [(a2, h2)]). by rewrite <- app_assoc.
    + csplit. by exists [].
    + rewrite length_app in Hlen. simpl in Hlen. unfold chain_fuel. lia.
Qed.

(** ** Growing the heap *)

Lemma wp_brk_query s (Q : Z -> heap -> Prop) :
  Q (cur_brk (kern s)) s -> wp (brk_call 0) s Q.
Proof. unfold wp, brk_call. rewrite brk_query. by destruct s. Qed.

Lemma wp_brk_grow a s (Q : Z -> heap -> Prop) :
  cur_brk (kern s) <= a -> a <> 0 ->
  Q UINTPTR_MAX s ->
  (forall r k m, r <> UINTPTR_MAX -> cur_brk k = a ->
     (forall q, ~ (cur_brk (kern s) <= q < a) -> m !! q = bytes s !! q) ->
     (forall q, cur_brk (kern s) <= q < a -> is_Some (m !! q)) ->
     Q r (set_kernel k m s)) ->
  wp (brk_call a) s Q.
Proof.
  intros Ha H0 Hfail Hok. unfold wp, brk_call.
  pose proof (brk_grow a (kern s) (bytes s) Ha H0) as Hg.
  destruct (sys_brk a (kern s) (bytes s)) as [[r k] m].
  destruct Hg as [(-> & -> & ->)|(? & ? & ? & ?)]; [by destruct s|]. by apply Hok.
Qed.

(** The result of a successful growth: the new blocks [tl] at the old break. *)
Lemma grow_inv start bl s s' k m a tl :
  heap_inv start bl s ->
  wp (append_block (cur_brk (kern s))) s' (fun _ s'' => exists fl hs,
    s'' = set_hdrs (fun _ => hs) (set_free_list fl s') /\ fl <> 0
    /\ lseg hs fl (relink bl (cur_brk (kern s)) ++ tl) 0) ->
  kern s' = k -> bytes s' = m -> heap_initialized s' = true ->
  tiles (cur_brk (kern s)) tl a -> cur_brk k = a -> a < 2 ^ 32 ->
  (forall q, ~ (cur_brk (kern s) <= q < a) -> m !! q = bytes s !! q) ->
  (forall q, cur_brk (kern s) <= q < a -> is_Some (m !! q)) ->
  wp (append_block (cur_brk (kern s))) s' (fun _ s'' =>
    heap_inv start (relink bl (cur_brk (kern s)) ++ tl) s'' /\ keeps_bytes start s s''
    /\ malloc_lock s'' = malloc_lock s').
Proof.
  intros Hi Hw <- <- Hinit Ht Ha Hlim Hout Hin.
  eapply wp_mono; [exact Hw|]. intros _ s'' (fl & hs & -> & Hfl & Hseg).
  split; [|split; [|done]].
  - constructor; simpl; try done.
    + by rewrite Hinit.
    + apply tiles_app. exists (cur_brk (kern s)). rewrite Ha.
      split; [apply relink_tiles, Hi|done].
    + apply Hi.
    + lia.
    + intros q Hq. destruct (decide (cur_brk (kern s) <= q)); [apply Hin; lia|].
      rewrite Hout by lia. apply Hi. lia.
  - intros q Hq. simpl. apply Hout. lia.
Qed.

Lemma request_space_spec start bl s sz :
  heap_inv start bl s -> heap_initialized s = true ->
  0 <= sz -> sz mod 8 = 0 -> sz + 40 < 2 ^ 32 ->
  wp (request_space sz) s (fun r s' =>
    malloc_lock s' = malloc_lock s /\ keeps_bytes start s s' /\
    ((r = 0 /\ s' = s) \/
     (exists h tl, r <> 0 /\ heap_inv start (relink bl r ++ (r, h) :: tl) s'
        /\ sz <= size h /\ is_free h = 0 /\ used tl = []))).
Proof.
  intros Hi Hinit Hsz Hm8 Hlim. pose proof Hi as [_ Hc Ht [Hs0 Hs8] Hb Hmap].
  pose proof (tiles_le _ _ _ Ht) as Hle. set (cur := cur_brk (kern s)) in *.
  pose proof (tiles_aligned _ _ _ Ht Hs8) as Hc8.
  unfold request_space. cbv zeta. rewrite (u32_small (BLOCK_SIZE + sz)) by (unfold BLOCK_SIZE; lia).
  set (request := if BLOCK_SIZE + sz <? 4096 then 4096 else BLOCK_SIZE + sz).
  assert (Hreq : BLOCK_SIZE + sz <= request < 2 ^ 32 /\ request mod 8 = 0).
  { unfold request, BLOCK_SIZE. zcases; split; try lia; [done|].
    rewrite Z.add_mod, Hm8 by lia. done. }
  destruct Hreq as [Hreq Hr8]. clearbody request. unfold BLOCK_SIZE in *.
  wp_pure. apply wp_brk_query. fold cur.
  destruct (Z.eqb_spec cur UINTPTR_MAX) as [|Hcm]; wp_pure; [csplit; by left|].
  assert (Hw : u32 (cur + request) < cur \/ (u32 (cur + request) = cur + request /\ cur + request < 2 ^ 32)).
  { destruct (Z_lt_le_dec (cur + request) (2 ^ 32)); [right; rewrite u32_small by lia; lia|left].
    unfold u32, wrapu. rewrite <- (Z_mod_plus_full _ (-1)), Z.mod_small by lia. lia. }
  destruct (Z.ltb_spec (u32 (cur + request)) cur); wp_pure; [csplit; by left|].
  destruct Hw as [|[Hw Hnb]]; [lia|]. rewrite Hw.
  apply wp_brk_grow; [fold cur; lia|lia| |].
  { rewrite Z.eqb_refl. wp_pure. csplit. by left. }
  fold cur. intros r k m Hr Hk Hout Hin. zdecide. wp_pure. apply wp_set_hdr.
  rewrite (u32_small (request - 24)), (u32_small (sz + 24 + 16)) by lia.
  assert (Hcur : cur ∉ bl.*1) by (apply (tiles_notin _ _ _ _ Ht); lia).
  destruct (Z.ltb_spec (sz + 24 + 16) (request - 24)).
  - rewrite (u32_small (cur + 24 + sz)), (u32_small (request - 24 - sz - 24)) by lia.
    assert (Hrem : cur + 24 + sz ∉ bl.*1) by (apply (tiles_notin _ _ _ _ Ht); lia).
    wp_pure. apply wp_set_hdr. wp_pure. eapply wp_hdr.
    { simpl. rewrite lookup_insert_ne, lookup_insert_eq by lia. done. }
    wp_pure. apply wp_set_hdr. wp_pure.
    set (h1 := with_next _ _).
    set (h2 := mk_header BLOCK_MAGIC (request - 24 - sz - 24) 1 0 0 0).
    eapply wp_mono; [eapply (grow_inv start bl s _ k m (cur + request) [(cur, h1); (cur + 24 + sz, h2)]);
      try done|].
    + fold cur. eapply (append_block_spec start cur bl); try done; try lia.
      * simpl. rewrite !lseg_insert by done. done.
      * simpl. rewrite lookup_insert_eq, lookup_insert_ne, lookup_insert_eq by lia. csplit.
      * intros a Ha Hin'. simpl in Hin'. set_solver.
    + fold cur. simpl. unfold BLOCK_SIZE. csplit.
      rewrite <- !Z.sub_add_distr. rewrite Zminus_mod, Hr8. 
      replace (24 + (sz + 24)) with (sz + 6 * 8) by lia. rewrite Z_mod_plus_full, Hm8. done.
    + intros [] s' (Hi' & Hkb & Hlk). wp_pure. csplit. right.
      exists h1, [(cur + 24 + sz, h2)]. csplit.
  - wp_pure. set (h1 := mk_header BLOCK_MAGIC (request - 24) 0 0 0 0).
    eapply wp_mono; [eapply (grow_inv start bl s _ k m (cur + request) [(cur, h1)]); try done|].
    + fold cur. eapply (append_block_spec start cur bl); try done; try lia.
      * simpl. rewrite !lseg_insert by done. done.
      * simpl. rewrite lookup_insert_eq. csplit.
      * intros a Ha Hin'. simpl in Hin'. set_solver.
    + fold cur. simpl. unfold BLOCK_SIZE. csplit. rewrite Zminus_mod, Hr8. done.
    + intros [] s' (Hi' & Hkb & Hlk). wp_pure. csplit. right.
      exists h1, []. csplit. simpl. lia.
Qed.

(** ** [malloc] *)

Lemma ALIGN8_spec x :
  0 <= x <= 2 ^ 32 - 8 -> x <= ALIGN8 x < x + 8 /\ ALIGN8 x mod 8 = 0.
Proof.
  intros Hx. assert (E : ALIGN8 x = x + 7 - (x + 7) mod 8).
  { unfold ALIGN8. change (Z.lnot 7) with (Z.lnot (2 ^ 3 - 1)).
    rewrite land_u32_mask by (lia || apply u32_range). by rewrite u32_small by lia. }
  rewrite E. pose proof (Z.mod_pos_bound (x + 7) 8 ltac:(lia)). split; [lia|].
  rewrite Zminus_mod_idemp_r, Z.sub_diag. done.
Qed.

Lemma heap_init_spec start bl s :
  heap_inv start bl s ->
  wp heap_init s (fun _ s' => s' = set_init true s /\ heap_inv start bl s').
Proof.
  intros Hi. unfold heap_init. wp_pure. destruct (heap_initialized s) eqn:E; wp_pure.
  - split; [by destruct s; simpl in *; subst|done].
  - pose proof (ok_init _ _ _ Hi E) as E0. assert (Hs : set_free_list 0 (set_init true s) = set_init true s).
    { destruct s; simpl in *. by subst. }
    rewrite Hs. split; [done|]. destruct Hi. by constructor.
Qed.

(** The contents of the live blocks [lv] are the same in both heaps. *)
Definition keeps_live (lv : list (Z * Z)) (s s' : heap) : Prop :=
  forall p n q, (p, n) ∈ lv -> p <= q < p + n -> bytes s' !! q = bytes s !! q.

(** What a successful allocation of [sz] bytes at [r] does to the heap. *)
Definition allocated (start : Z) (bl : list block) (s : heap) (sz r : Z) (s' : heap) : Prop :=
  exists bl' n, heap_ok start bl' s' /\ keeps_live (used bl) s s'
    /\ 0 < r /\ r mod 8 = 0 /\ sz <= n
    /\ used bl' ≡ₚ (r, n) :: used bl.

(** A refused allocation changes nothing the caller can see. *)
Definition refused (start : Z) (bl : list block) (s s' : heap) : Prop :=
  heap_ok start bl s' /\ keeps_live (used bl) s s'.

Lemma tiles_mid_aligned start l1 a h l2 stop :
  tiles start (l1 ++ (a, h) :: l2) stop -> start mod 8 = 0 -> a mod 8 = 0.
Proof.
  intros (mid & H1 & H2)%tiles_app Hs. simpl in H2. destruct H2 as (-> & _).
  by apply (tiles_aligned _ _ _ H1).
Qed.

(** Replacing the block [(a, h)] by the blocks [mid], which tile the same
    range and whose headers are the ones written. *)
Lemma replace_block start l1 a h l2 s hs mid :
  heap_inv start (l1 ++ (a, h) :: l2) s ->
  (forall b, ~ (a <= b < a + BLOCK_SIZE + size h) -> hs !! b = hdrs s !! b) ->
  lseg hs a mid (next h) -> tiles a mid (a + BLOCK_SIZE + size h) ->
  heap_inv start (l1 ++ mid ++ l2) (set_hdrs (fun _ => hs) s).
Proof.
  intros [Hin Hc Ht Hs Hb Hmap] Hout Hseg Htl. 
  apply lseg_app in Hc as (r & Hc1 & Hc2). simpl in Hc2. destruct Hc2 as (-> & Ha & Hh & Hc2).
  apply tiles_app in Ht as (md & Ht1 & Ht2). simpl in Ht2. destruct Ht2 as (<- & _ & _ & _ & Ht2).
  assert (Hfr : forall l p q, (forall b, b ∈ l.*1 -> ~ (a <= b < a + BLOCK_SIZE + size h)) ->
            lseg (hdrs s) p l q -> lseg hs p l q).
  { clear -Hout. induction l as [|[b g] l IH]; intros p q Hb; simpl; [done|].
    intros (-> & ? & ? & ?). csplit.
    - rewrite Hout; [done|]. apply Hb. simpl. set_solver.
    - apply IH; [|done]. intros c Hc. apply Hb. simpl. set_solver. }
  constructor; simpl; try done.
  - apply lseg_app. exists a. split; [|apply lseg_app; exists (next h); split; [done|]].
    + apply Hfr; [|done]. intros b Hb'. destruct (decide (b ∈ l1.*1)); [|done]. intros Hr.
      apply (tiles_notin _ _ _ b Ht1); [lia|done].
    + apply Hfr; [|done]. intros b Hb' Hr. apply (tiles_notin _ _ _ b Ht2); [lia|done].
  - apply tiles_app. exists a. split; [done|]. apply tiles_app. eauto.
Qed.

(** Taking a free block, splitting off the part that is not needed. *)
Lemma take_block_spec start l1 a h l2 s sz :
  heap_inv start (l1 ++ (a, h) :: l2) s -> fits sz h = true ->
  0 <= sz -> sz mod 8 = 0 -> sz + 40 < 2 ^ 32 ->
  wp (take_block a sz) s (fun _ s' => exists hs mid n,
    s' = set_hdrs (fun _ => hs) s /\ heap_inv start (l1 ++ mid ++ l2) s'
    /\ used mid = [(a + BLOCK_SIZE, n)] /\ sz <= n).
Proof.
  intros Hi Hfit Hsz Hm8 Hlim. pose proof Hi as [_ Hc Ht Hs Hb _].
  apply lseg_app in Hc as (r & _ & Hc). simpl in Hc. destruct Hc as (-> & Ha0 & Hh & _).
  pose proof (tiles_bounds _ _ _ a h Ht ltac:(set_solver)) as (Hlo & Hhi & Hsh & Hmg).
  apply tiles_app in Ht as (md & Ht1 & Ht2). simpl in Ht2. destruct Ht2 as (_ & _ & _ & Hs8 & _).
  unfold fits in Hfit. apply andb_true_iff in Hfit as [Hfree Hge].
  rewrite Z.geb_leb in Hge. apply Z.leb_le in Hge. unfold BLOCK_SIZE in *.
  unfold take_block, BLOCK_SIZE. wp_pure. apply (wp_hdr _ h); [done|].
  rewrite (u32_small (sz + 24 + 16)) by lia. rewrite Z.gtb_ltb. wp_pure.
  destruct (Z.ltb_spec (sz + 24 + 16) (size h)).
  - rewrite (u32_small (a + 24 + sz)), (u32_small (size h - sz - 24)) by lia.
    wp_pure. apply wp_set_hdr. wp_pure. eapply wp_hdr.
    { simpl. rewrite lookup_insert_ne by lia. done. }
    apply wp_set_hdr. wp_pure. eapply wp_hdr; [simpl; apply lookup_insert_eq|].
    apply wp_set_hdr. set (h1 := with_free _ 0). set (h2 := mk_header _ _ _ _ _ _).
    set (hs := <[a := h1]> (<[a := with_next (with_size h sz) (a + 24 + sz)]>
              (<[a + 24 + sz := h2]> (hdrs s)))).
    exists hs, [(a, h1); (a + 24 + sz, h2)], sz.
    split; [done|]. split; [|done].
    apply (replace_block start l1 a h l2 s hs); [done| | |]; unfold hs.
    + intros b Hb'. unfold BLOCK_SIZE in Hb'. by rewrite !lookup_insert_ne by lia.
    + simpl. rewrite lookup_insert_eq, !lookup_insert_ne, lookup_insert_eq by lia. csplit.
    + simpl. unfold BLOCK_SIZE. csplit.
      rewrite <- Z.sub_add_distr, Zminus_mod, Hs8.
      replace (sz + 24) with (sz + 3 * 8) by lia. rewrite Z_mod_plus_full, Hm8. done.
  - wp_pure. apply (wp_hdr _ h); [done|]. apply wp_set_hdr.
    set (hs := <[a := with_free h 0]> (hdrs s)).
    exists hs, [(a, with_free h 0)], (size h).
    split; [done|]. split; [|done].
    apply (replace_block start l1 a h l2 s hs); [done| | |]; unfold hs.
    + intros b Hb'. unfold BLOCK_SIZE in Hb'. by rewrite lookup_insert_ne by lia.
    + simpl. rewrite lookup_insert_eq. csplit.
    + simpl. unfold BLOCK_SIZE. csplit.
Qed.

Lemma heap_inv_ext start bl s s' :
  heap_inv start bl s -> hdrs s' = hdrs s -> free_list s' = free_list s ->
  heap_initialized s' = heap_initialized s -> bytes s' = bytes s -> kern s' = kern s ->
  heap_inv start bl s'.
Proof. intros [] E1 E2 E3 E4 E5. constructor; rewrite ?E1, ?E2, ?E3, ?E4, ?E5; done. Qed.

Lemma used_in p n bl :
  (p, n) ∈ used bl ->
  exists l1 h l2, bl = l1 ++ (p - BLOCK_SIZE, h) :: l2 /\ is_free h = 0 /\ size h = n.
Proof.
  unfold used. intros ([a h] & Hin & E)%list_elem_of_omap.
  destruct (Z.eqb_spec (is_free h) 0) as [Ef|]; [|done]. simplify_eq.
  apply list_elem_of_split in Hin as (l1 & l2 & ->).
  exists l1, h, l2. unfold BLOCK_SIZE. by replace (a + 24 - 24) with a by lia.
Qed.

(** A live block lies inside the arena, is mapped, and its header is found at
    its address. *)
Lemma used_bounds start bl s p n :
  heap_inv start bl s -> (p, n) ∈ used bl ->
  start + BLOCK_SIZE <= p /\ 0 <= n /\ p + n <= cur_brk (kern s)
  /\ writable (bytes s) p (Z.to_nat n)
  /\ exists h, hdrs s !! (p - BLOCK_SIZE) = Some h /\ size h = n /\ magic h = BLOCK_MAGIC.
Proof.
  intros Hi (l1 & h & l2 & -> & Hf & Hn)%used_in. destruct Hi as [_ Hc Ht _ _ Hm].
  pose proof (tiles_bounds _ _ _ (p - BLOCK_SIZE) h Ht ltac:(set_solver)) as (? & ? & ? & ?).
  unfold BLOCK_SIZE in *. csplit.
  - intros i Hi. apply Hm. lia.
  - apply lseg_app in Hc as (r & _ & Hc). simpl in Hc. destruct Hc as (-> & _ & Hh & _). eauto.
Qed.

Lemma keeps_bytes_live start bl s s' s0 :
  heap_inv start bl s0 -> kern s0 = kern s -> keeps_bytes start s s' -> keeps_live (used bl) s s'.
Proof.
  intros Hi Hk Hb p n q Hin Hq.
  destruct (used_bounds _ _ _ _ _ Hi Hin) as (? & ? & ? & _). rewrite Hk in *.
  apply Hb. unfold BLOCK_SIZE in *. lia.
Qed.

Lemma malloc_ok start bl s sz :
  heap_ok start bl s -> 0 <= sz <= 2 ^ 32 - 48 ->
  wp (malloc sz) s (fun r s' =>
    (r = 0 /\ refused start bl s s') \/ allocated start bl s sz r s').
Proof.
  intros [Hi Hl] Hsz. unfold malloc, malloc_lock_acquire, malloc_lock_release. cbv zeta.
  set (sz1 := if sz =? 0 then 1 else sz).
  assert (H1 : sz <= sz1 /\ 0 <= sz1 <= 2 ^ 32 - 48) by (unfold sz1; zcases; lia).
  rewrite u32_small by lia.
  destruct (ALIGN8_spec sz1 ltac:(lia)) as [Ha Ha8]. set (al := ALIGN8 sz1) in *.
  assert (Hal : al + 40 < 2 ^ 32).
  { apply Z.mod_divide in Ha8 as [c Hc]; lia. }
  wp_pure. rewrite Hl. simpl. wp_pure.
  assert (Hi1 : heap_inv start bl (set_lock 1 s)) by (by eapply heap_inv_ext).
  eapply wp_mono; [apply (heap_init_spec _ _ _ Hi1)|]. intros [] s1 [-> Hi2].
  set (s1 := set_init true (set_lock 1 s)) in *. wp_pure.
  eapply wp_mono; [apply (find_free_block_spec start bl s1); apply Hi2|].
  intros b s' [-> [[-> Hno]|(l1 & h & l2 & -> & Hb & Hfit & _)]]; zdecide; cbn [negb]; wp_pure.
  - eapply wp_mono; [apply (request_space_spec start bl s1 al); first [done|lia]|].
    intros r s2 (Hlk & Hkb & [[-> ->]|(h & tl & Hr & Hi3 & Hsz3 & Hf3 & Hu)]); zdecide; wp_pure.
    + left. split; [done|]. split; [split; [by eapply heap_inv_ext|done]|].
      by apply (keeps_bytes_live start _ _ _ s1 Hi2).
    + pose proof Hi3 as [_ Hc3 Ht3 Hs3 Hb3 _].
      apply lseg_app in Hc3 as (r' & _ & Hc3). simpl in Hc3. destruct Hc3 as (-> & _ & Hh3 & _).
      pose proof (tiles_bounds _ _ _ r h Ht3 ltac:(set_solver)) as (Hlo & Hhi & ? & ?).
      apply (wp_hdr _ h); [done|]. wp_pure. apply wp_set_hdr. wp_pure.
      right. exists (relink bl r ++ (r, h) :: tl), (size h). unfold BLOCK_SIZE in *. split; [split; [|done]|].
      * eapply heap_inv_ext; [exact Hi3|..]; try done. simpl.
        replace (with_free h 0) with h by (destruct h; simpl in *; by subst). by rewrite insert_id.
      * split; [by apply (keeps_bytes_live start _ _ _ s1 Hi2)|]. rewrite u32_small by lia. csplit.
        { rewrite Z.add_mod, (tiles_mid_aligned _ _ _ _ _ _ Ht3) by (apply Hs3 || lia). done. }
        rewrite used_app, used_cons, relink_used, Hu, Hf3. simpl.
        by rewrite Permutation_app_comm.
  - pose proof Hi2 as [_ _ Ht2 Hs2 Hb2 _].
    pose proof (tiles_bounds _ _ _ b h Ht2 ltac:(set_solver)) as (Hlo & Hhi & ? & ?).
    eapply wp_mono; [apply (take_block_spec start l1 b h l2 s1 al); first [done|lia]|].
    intros [] s2 (hs & mid & n & -> & Hi3 & Hu & Hn). wp_pure.
    right. exists (l1 ++ mid ++ l2), n. unfold BLOCK_SIZE in *. split; [split; [|done]|].
    + by eapply heap_inv_ext.
    + split; [by apply (keeps_bytes_live start _ _ _ s1 Hi2)|]. rewrite u32_small by lia. csplit.
      { rewrite Z.add_mod, (tiles_mid_aligned _ _ _ _ _ _ Ht2) by (apply Hs2 || lia). done. }
      unfold fits in Hfit. apply andb_true_iff in Hfit as [Hf _].
      rewrite !used_app, used_cons, Hu. destruct (is_free h =? 0); [done|]. simpl.
      by rewrite Permutation_middle.
Qed.

(** ** [free] *)

(** The coalescing pass on the list of blocks: a free block absorbs the free
    blocks behind it. *)
Fixpoint merge_from (a : Z) (h : block_header) (l : list block) : list block :=
  match l with
  | [] => [(a, h)]
  | (b, g) :: l =>
      if negb (is_free h =? 0) && negb (is_free g =? 0)
      then merge_from a (with_next (with_size h (size h + (BLOCK_SIZE + size g))) (next g)) l
      else (a, h) :: merge_from b g l
  end.

Definition merge_all (l : list block) : list block :=
  match l with [] => [] | (a, h) :: l => merge_from a h l end.

(** No two neighbouring blocks are both free. *)
Fixpoint coalesced (l : list block) : Prop :=
  match l with
  | (_, h) :: ((_, g) :: _) as l' => (is_free h = 0 \/ is_free g = 0) /\ coalesced l'
  | _ => True
  end.

Lemma merge_from_used a h l : used (merge_from a h l) = used ((a, h) :: l).
Proof.
  revert a h. induction l as [|[b g] l IH]; intros a h; simpl; [done|].
  destruct (Z.eqb_spec (is_free h) 0), (Z.eqb_spec (is_free g) 0); simpl;
    rewrite ?used_cons, ?IH, ?used_cons; simpl; zdecide; done.
Qed.

(** The merged list starts with the same block, as free as before. *)
Lemma merge_from_head a h l :
  exists h' l', merge_from a h l = (a, h') :: l' /\ is_free h' = is_free h.
Proof.
  revert a h. induction l as [|[b g] l IH]; intros a h; simpl; [eauto|].
  destruct (_ && _); [|eauto]. destruct (IH a (with_next
    (with_size h (size h + (BLOCK_SIZE + size g))) (next g))) as (h' & l' & -> & E). eauto.
Qed.

Lemma merge_from_coalesced a h l : coalesced (merge_from a h l).
Proof.
  revert a h. induction l as [|[b g] l IH]; intros a h; [done|]. cbn [merge_from].
  destruct (_ && _) eqn:E; [apply IH|].
  destruct (merge_from_head b g l) as (h' & l' & Em & Ef). specialize (IH b g).
  rewrite Em in *. cbn [coalesced]. split; [|done]. rewrite Ef.
  apply andb_false_iff in E as [E|E]; apply negb_false_iff, Z.eqb_eq in E; tauto.
Qed.

Lemma merge_step_inv start l1 a h b g l2 s :
  let h' := with_next (with_size h (u32 (size h + (BLOCK_SIZE + size g)))) (next g) in
  heap_inv start (l1 ++ (a, h) :: (b, g) :: l2) s ->
  u32 (size h + (BLOCK_SIZE + size g)) = size h + (BLOCK_SIZE + size g)
  /\ heap_inv start (l1 ++ (a, h') :: l2) (set_hdrs (<[a := h']>) s).
Proof.
  intros h' [Hin Hc Ht Hs Hb Hmap].
  apply lseg_app in Hc as (r & Hc1 & Hc2). simpl in Hc2.
  destruct Hc2 as (-> & Ha & Hh & Hnext & Hb0 & Hg & Hc2).
  apply tiles_app in Ht as (md & Ht1 & Ht2). simpl in Ht2.
  destruct Ht2 as (<- & Hm & Hsh & Hs8 & Hb' & _ & Hsg & Hg8 & Ht2).
  pose proof (tiles_le _ _ _ Ht1). pose proof (tiles_le _ _ _ Ht2). unfold BLOCK_SIZE in *.
  assert (E : u32 (size h + (24 + size g)) = size h + (24 + size g)) by (apply u32_small; lia).
  split; [done|]. unfold h'. rewrite E. constructor; simpl; try done.
  - apply lseg_app. exists a. split.
    + apply lseg_insert; [|done]. apply (tiles_notin _ _ _ _ Ht1). lia.
    + simpl. rewrite lookup_insert_eq. csplit. apply lseg_insert; [|done].
      apply (tiles_notin _ _ _ _ Ht2). lia.
  - apply tiles_app. exists a. split; [done|]. simpl. unfold BLOCK_SIZE. csplit.
    + rewrite Z.add_mod, Hs8, (Z.add_mod 24), Hg8 by lia. done.
    + replace (a + 24 + (size h + (24 + size g))) with (b + 24 + size g) by lia. done.
Qed.

Lemma coalesce_spec start bl s :
  heap_inv start bl s ->
  wp coalesce s (fun _ s' => heap_inv start (merge_all bl) s' /\ keeps_bytes start s s'
    /\ malloc_lock s' = malloc_lock s).
Proof.
  intros Hi. unfold coalesce. wp_pure.
  eapply (wp_loop_ghost (fun g cur s' => exists l1 hs, s' = set_hdrs (fun _ => hs) s
      /\ heap_inv start (l1 ++ g) s' /\ lseg (hdrs s') cur g 0
      /\ merge_all bl = l1 ++ merge_all g) length) with (g := bl).
  - intros g cur s' (l1 & hs & -> & Hi' & Hseg & Hm). destruct g as [|[a h] g]; simpl in Hseg.
    { subst cur. simpl. wp_pure. rewrite app_nil_r in Hi'. simpl in Hm.
      rewrite app_nil_r in Hm. rewrite Hm. done. }
    destruct Hseg as (-> & Ha & Hh & Hseg). zdecide. wp_pure. apply (wp_hdr _ h); [done|].
    assert (Hmove : merge_all ((a, h) :: g) = (a, h) :: merge_all g ->
        exists g', (exists l1 hs', set_hdrs (fun _ => hs) s = set_hdrs (fun _ => hs') s
          /\ heap_inv start (l1 ++ g') (set_hdrs (fun _ => hs) s)
          /\ lseg (hdrs (set_hdrs (fun _ => hs) s)) (next h) g' 0
          /\ merge_all bl = l1 ++ merge_all g') /\ (length g' < length ((a, h) :: g))%nat).
    { intros E. exists g. csplit. exists (l1 ++ [(a, h)]), hs. rewrite <- !app_assoc.
      csplit. by rewrite Hm, E. }
    destruct g as [|[b f] g]; simpl in Hseg.
    { rewrite Hseg in Hmove |- *. change (negb (0 =? 0)) with false.
      rewrite andb_false_r. wp_pure. by apply Hmove. }
    destruct Hseg as (Hnb & Hb & Hf & Hseg). rewrite Hnb in *. rewrite (proj2 (Z.eqb_neq b 0)) by done.
    destruct (is_free h =? 0) eqn:Eh; cbn [negb andb].
    { wp_pure. apply Hmove. simpl. by rewrite Eh. }
    wp_pure. apply (wp_hdr _ f); [done|]. destruct (is_free f =? 0) eqn:Ef; cbn [negb].
    { wp_pure. apply Hmove. simpl. by rewrite Eh, Ef. }
    wp_pure. apply wp_set_hdr. wp_pure.
    destruct (merge_step_inv start l1 a h b f g (set_hdrs (fun _ => hs) s) Hi') as [Eu Hi''].
    set (h' := with_next _ _) in *. exists ((a, h') :: g). csplit.
    exists l1, (<[a := h']> hs). split; [done|]. split; [done|]. split.
    + destruct Hi'' as [_ Hc _ _ _ _]. apply lseg_app in Hc as (r & _ & Hc).
      simpl in Hc. destruct Hc as (-> & Hc). simpl. done.
    + rewrite Hm. f_equal. cbn [merge_all merge_from]. rewrite Eh, Ef. simpl.
      unfold h'. by rewrite Eu.
  - exists [], (hdrs s). csplit; [by destruct s|apply Hi].
  - pose proof (chain_length _ _ _ _ (tiles_NoDup _ _ _ (ok_tiles _ _ _ Hi)) (ok_chain _ _ _ Hi)).
    unfold chain_fuel. lia.
Qed.

Lemma free_ok start bl s p n :
  heap_ok start bl s -> (p, n) ∈ used bl ->
  wp (free p) s (fun _ s' => exists bl', heap_ok start bl' s' /\ keeps_bytes start s s'
    /\ used bl ≡ₚ (p, n) :: used bl' /\ coalesced bl').
Proof.
  intros [Hi Hl] (l1 & h & l2 & -> & Hf & Hn)%used_in. set (a := p - BLOCK_SIZE) in *.
  pose proof Hi as [_ Hc Ht Hs Hb _].
  apply lseg_app in Hc as (r & _ & Hc). simpl in Hc. destruct Hc as (-> & Ha0 & Hh & _).
  pose proof (tiles_bounds _ _ _ a h Ht ltac:(set_solver)) as (Hlo & Hhi & Hsh & Hmg).
  assert (Hp : p <> 0 /\ 0 <= a < 2 ^ 32) by (unfold a, BLOCK_SIZE in *; lia).
  unfold free, malloc_lock_acquire, malloc_lock_release. cbv zeta. fold a. zdecide.
  rewrite u32_small by lia. wp_pure. apply (wp_hdr _ h); [done|]. rewrite Hmg.
  change (BLOCK_MAGIC =? MMAP_MAGIC) with false. change (negb (BLOCK_MAGIC =? BLOCK_MAGIC)) with false.
  cbv iota. wp_pure. rewrite Hl. simpl. wp_pure. apply wp_set_hdr. wp_pure.
  set (s1 := set_hdrs _ _).
  assert (Hi1 : heap_inv start (l1 ++ [(a, with_free h 1)] ++ l2) s1).
  { eapply heap_inv_ext; [apply (replace_block start l1 a h l2 s (<[a := with_free h 1]> (hdrs s)))|..];
      try done.
    - intros b Hb'. unfold BLOCK_SIZE in Hb'. by rewrite lookup_insert_ne by lia.
    - simpl. rewrite lookup_insert_eq. done.
    - apply tiles_app in Ht as (md & _ & Ht). simpl in *. tauto. }
  eapply wp_mono; [apply (coalesce_spec start _ s1 Hi1)|].
  intros [] s2 (Hi2 & Hkb & Hlk). wp_pure.
  exists (merge_all (l1 ++ [(a, with_free h 1)] ++ l2)). split; [split; [by eapply heap_inv_ext|done]|].
  split; [exact Hkb|].
  assert (Hu : forall l, used (merge_all l) = used l /\ coalesced (merge_all l)).
  { intros [|[c g] l]; [done|]. split; [apply merge_from_used|apply merge_from_coalesced]. }
  destruct (Hu (l1 ++ [(a, with_free h 1)] ++ l2)) as [-> Hco]. split; [|done].
  rewrite !used_app, !used_cons, Hf, <- Hn. simpl. unfold a, BLOCK_SIZE.
  replace (p - 24 + 24) with p by lia. by rewrite <- Permutation_middle.
Qed.

(** ** [calloc] and [realloc] *)

Lemma on_bytes_eq {A} (c : M A) s a m :
  c (bytes s) = Some (a, m) -> on_bytes c s = Some (a, set_kernel (kern s) m s).
Proof. unfold on_bytes. by intros ->. Qed.

(** Writing inside the arena keeps the invariant. *)
Lemma heap_ok_write start bl s p l :
  heap_ok start bl s ->
  heap_ok start bl (set_kernel (kern s) (write_list p l (bytes s)) s).
Proof.
  intros [[] Hl]. split; [|done]. constructor; try done. simpl. intros q Hq.
  rewrite lookup_write_list. case_bool_decide; [|auto].
  apply lookup_lt_is_Some_2. lia.
Qed.

(** Live blocks are listed by address, one after the other. *)
Lemma used_disjoint start bl stop i j p n q k :
  tiles start bl stop -> (i < j)%nat ->
  used bl !! i = Some (p, n) -> used bl !! j = Some (q, k) -> p + n + BLOCK_SIZE <= q.
Proof.
  revert start i j. induction bl as [|[a h] bl IH]; intros start i j; [done|].
  intros (-> & _ & Hs & _ & Ht) Hij. rewrite used_cons.
  destruct (is_free h =? 0); simpl; [|by apply (IH _ i j Ht)].
  destruct j as [|j]; [lia|]. destruct i as [|i]; simpl;
    [|intros; apply (IH _ i j Ht); done || lia].
  intros [= <- <-] Hj.
  apply list_elem_of_lookup_2, used_in in Hj as (l1 & g & l2 & -> & _).
  pose proof (tiles_bounds _ _ _ (q - BLOCK_SIZE) g Ht ltac:(set_solver)) as (? & _).
  unfold BLOCK_SIZE in *. lia.
Qed.

Lemma used_disjoint_cons start bl stop p n q k rest :
  tiles start bl stop -> used bl ≡ₚ (p, n) :: rest -> (q, k) ∈ rest ->
  p + n <= q \/ q + k <= p.
Proof.
  intros Ht Hp Hin. apply list_elem_of_lookup in Hin as [j Hj].
  assert (H2 : exists i1 i2, i1 <> i2 /\ used bl !! i1 = Some (p, n) /\ used bl !! i2 = Some (q, k)).
  { symmetry in Hp. apply Permutation_inj in Hp as (_ & f & Hf & Hl).
    exists (f 0%nat), (f (S j)). repeat split.
    - intros E. apply Hf in E. done.
    - by rewrite <- Hl.
    - by rewrite <- Hl. }
  destruct H2 as (i1 & i2 & Hne & H1 & H2). unfold BLOCK_SIZE in *.
  destruct (decide (i1 < i2)%nat).
  - pose proof (used_disjoint _ _ _ _ _ _ _ _ _ Ht l H1 H2). unfold BLOCK_SIZE in *. lia.
  - pose proof (used_disjoint _ _ _ i2 i1 _ _ _ _ Ht ltac:(lia) H2 H1). unfold BLOCK_SIZE in *. lia.
Qed.

Lemma calloc_ok start bl s nmemb sz :
  heap_ok start bl s -> 0 <= u32 (nmemb * sz) <= 2 ^ 32 - 48 ->
  wp (calloc nmemb sz) s (fun r s' =>
    (r = 0 /\ refused start bl s s') \/
    (allocated start bl s (u32 (nmemb * sz)) r s' /\
     bytes_at (bytes s') r (replicate (Z.to_nat (u32 (nmemb * sz))) 0))).
Proof.
  intros Hok Ht. unfold calloc. cbv zeta. set (total := u32 (nmemb * sz)) in *. wp_pure.
  eapply wp_mono; [by apply malloc_ok|].
  intros r s' [[-> Href]|(bl' & n & Hok' & Hkb & Hr & Hr8 & Hn & Hp)].
  - change (negb (0 =? 0)) with false. cbv iota. wp_pure. by left.
  - zdecide. cbn [negb]. wp_pure.
    assert (Hin : (r, n) ∈ used bl') by (rewrite Hp; set_solver).
    destruct (used_bounds _ _ _ _ _ (proj1 Hok') Hin) as (Hlo & Hn0 & Hhi & Hw & _).
    rewrite <- (Z2Nat.id total) at 2 by lia. unfold CString.memset.
    eapply wp_run.
    { apply on_bytes_eq. erewrite bind_run; [done|].
      apply CString.set_loop_eq; [|lia]. eapply writable_le; [|exact Hw]. lia. }
    wp_pure. right. change (u8 0) with 0. split; [|apply bytes_at_write_list].
    exists bl', n. split; [by apply heap_ok_write|]. csplit.
    intros q k c Hin' Hc. simpl. rewrite lookup_write_list, length_replicate.
    destruct (used_disjoint_cons _ _ _ _ _ _ _ _ (ok_tiles _ _ _ (proj1 Hok')) Hp Hin');
      (rewrite bool_decide_eq_false_2 by lia; by apply (Hkb q k)).
Qed.

(** What a successful [realloc] of the block [(p, n)] does: the block moved to
    [r] with its contents [l], and the other live blocks stayed as they were. *)
Definition reallocated (start : Z) (bl : list block) (s : heap) (p n sz r : Z) (l : list Z)
    (s' : heap) : Prop :=
  exists bl' k rest, heap_ok start bl' s' /\ 0 < r /\ r mod 8 = 0 /\ sz <= k
    /\ used bl ≡ₚ (p, n) :: rest /\ used bl' ≡ₚ (r, k) :: rest
    /\ keeps_live rest s s' /\ bytes_at (bytes s') r l.

Lemma used_aligned start bl s p n : heap_inv start bl s -> (p, n) ∈ used bl -> p mod 8 = 0.
Proof.
  intros Hi (l1 & h & l2 & -> & _)%used_in. destruct Hi as [_ _ Ht [_ Hs] _ _].
  pose proof (tiles_mid_aligned _ _ _ _ _ _ Ht Hs) as E. unfold BLOCK_SIZE in E.
  replace p with (p - 24 + 3 * 8) by lia. by rewrite Z_mod_plus_full.
Qed.

Lemma bytes_at_live lv s s' p n l :
  keeps_live lv s s' -> (p, n) ∈ lv -> Z.of_nat (length l) <= n ->
  bytes_at (bytes s) p l -> bytes_at (bytes s') p l.
Proof.
  intros Hk Hin Hl Hb i b E. pose proof (lookup_lt_Some _ _ _ E).
  rewrite (Hk p n) by (done || lia). auto.
Qed.

(** Whatever the cells of the block hold. *)
Lemma realloc_cells start bl s p n sz l :
  heap_ok start bl s -> (p, n) ∈ used bl -> 0 < sz <= 2 ^ 32 - 48 ->
  bytes_at (bytes s) p l -> Z.of_nat (length l) = n ->
  wp (realloc p sz) s (fun r s' =>
    (r = 0 /\ refused start bl s s') \/
    exists l', (l' = l \/ l' = u8 <$> l) /\ reallocated start bl s p n sz r l' s').
Proof.
  intros Hok Hin Hsz Hl Hn.
  destruct (used_bounds _ _ _ _ _ (proj1 Hok) Hin) as (Hlo & Hn0 & Hhi & _ & h & Hh & Hhs & Hmg).
  pose proof (ok_start _ _ _ (proj1 Hok)). pose proof (ok_brk _ _ _ (proj1 Hok)).
  destruct (elem_of_Permutation (used bl) (p, n)) as [[rest Hrest] _]; [done|].
  unfold realloc. cbv zeta. unfold BLOCK_SIZE in *. zdecide. rewrite !u32_small by lia.
  wp_pure. apply (wp_hdr _ h); [done|]. rewrite Hmg, Hhs.
  change (BLOCK_MAGIC =? MMAP_MAGIC) with false. change (negb (BLOCK_MAGIC =? BLOCK_MAGIC)) with false.
  cbv iota. rewrite Z.geb_leb. destruct (Z.leb_spec sz n); wp_pure.
  { right. exists l. split; [by left|]. exists bl, n, rest. csplit. by apply (used_aligned _ _ _ _ _ (proj1 Hok) Hin). }
  eapply wp_mono; [apply malloc_ok; first [done|lia]|].
  intros r s1 [[-> Href]|(bl' & k & Hok' & Hkb & Hr & Hr8 & Hk & Hp)]; zdecide; wp_pure; [by left|].
  assert (Hin' : (p, n) ∈ used bl') by (rewrite Hp; set_solver).
  destruct (used_bounds _ _ _ _ _ (proj1 Hok') Hin') as (_ & _ & _ & _ & h1 & Hh1 & Hhs1 & _).
  assert (Hrin : (r, k) ∈ used bl') by (rewrite Hp; set_solver).
  destruct (used_bounds _ _ _ _ _ (proj1 Hok') Hrin) as (Hrlo & _ & Hrhi & Hw & _).
  apply (wp_hdr _ h1); [done|]. rewrite Hhs1. wp_pure.
  assert (Hdis : forall q c, (q, c) ∈ used bl -> r + k <= q \/ q + c <= r)
    by (intros; by eapply (used_disjoint_cons _ _ _ _ _ _ _ _ (ok_tiles _ _ _ (proj1 Hok')) Hp)).
  eapply wp_run.
  { apply on_bytes_eq. unfold CString.memcpy. erewrite bind_run; [done|]. rewrite <- Hn.
    apply CString.copy_loop_u8; try done; [by apply (bytes_at_live _ _ _ _ _ _ Hkb Hin); [lia|]| | |lia].
    - eapply writable_le; [|exact Hw]. lia.
    - specialize (Hdis p n Hin). unfold CString.forward_ok. lia. }
  set (s2 := set_kernel _ _ _).
  assert (Hok2 : heap_ok start bl' s2) by (by apply heap_ok_write).
  wp_pure. eapply wp_mono; [by apply (free_ok start bl' s2 p n)|].
  intros [] s3 (bl3 & Hok3 & Hkb3 & Hp3 & _). wp_pure. right. exists (u8 <$> l). split; [by right|]. exists bl3, k, rest.
  assert (Hp' : used bl3 ≡ₚ (r, k) :: rest).
  { apply (Permutation_cons_inv (a := (p, n))). rewrite <- Hp3, Hp, Hrest. apply perm_swap. }
  assert (Hlive := keeps_bytes_live _ _ _ _ s2 (proj1 Hok2) eq_refl Hkb3).
  csplit.
  - intros q c x Hq Hx. assert (Hqu : (q, c) ∈ used bl) by (rewrite Hrest; set_solver).
    rewrite (Hlive q c) by (done || rewrite Hp; set_solver).
    simpl. rewrite lookup_write_list, length_fmap.
    specialize (Hdis q c Hqu). rewrite bool_decide_eq_false_2 by lia. by apply (Hkb q c).
  - apply (bytes_at_live _ _ _ _ k _ Hlive Hrin); [rewrite length_fmap; lia|]. apply bytes_at_write_list.
Qed.

Lemma realloc_ok start bl s p n sz l :
  heap_ok start bl s -> (p, n) ∈ used bl -> 0 < sz <= 2 ^ 32 - 48 ->
  bytes_at (bytes s) p l -> Z.of_nat (length l) = n -> Forall byte_ok l ->
  wp (realloc p sz) s (fun r s' =>
    (r = 0 /\ refused start bl s s') \/ reallocated start bl s p n sz r l s').
Proof.
  intros Hok Hin Hsz Hl Hn Hb. eapply wp_mono; [by apply (realloc_cells start bl s p n sz l)|].
  intros r s' [H|(l' & [->| ->] & H)]; [by left|by right|right].
  replace (u8 <$> l) with l in H; [done|]. clear -Hb.
  induction Hb as [|b l Hb _ IH]; [done|]. rewrite fmap_cons, <- IH, u8_small by apply Hb. done.
Qed.

(** The cells of a live block, as a list. *)
Lemma block_cells start bl s p n :
  heap_ok start bl s -> (p, n) ∈ used bl ->
  exists l, bytes_at (bytes s) p l /\ Z.of_nat (length l) = n.
Proof.
  intros [Hi _] Hin. destruct (used_bounds _ _ _ _ _ Hi Hin) as (_ & Hn & _ & Hw & _).
  exists ((fun i => default 0 (bytes s !! (p + Z.of_nat i))) <$> seq 0 (Z.to_nat n)).
  rewrite length_fmap, length_seq. split; [|lia]. intros i b E.
  rewrite list_lookup_fmap in E. destruct (seq 0 (Z.to_nat n) !! i) as [j|] eqn:Ej; simplify_eq/=.
  apply lookup_seq in Ej as [-> Hj].
  destruct (Hw i) as [v Ev]; [done|]. cbn [Nat.add]. by rewrite Ev.
Qed.

(** ** Aligned allocation *)

Lemma ALIGN_UP_spec v k :
  0 <= v -> 0 <= k -> v + 2 ^ k <= 2 ^ 32 ->
  v <= ALIGN_UP v (2 ^ k) < v + 2 ^ k /\ ALIGN_UP v (2 ^ k) mod 2 ^ k = 0.
Proof.
  intros Hv Hk Hs. assert (0 < 2 ^ k) by (apply Z.pow_pos_nonneg; lia).
  pose proof (round_up_mask v k Hv Hk Hs) as H1. unfold ALIGN_UP.
  rewrite !(u32_small (2 ^ k - 1)) by lia. by rewrite Z.add_sub_assoc.
Qed.

(** Where [carve] puts the payload: aligned, inside the block, and with room for
    a header in front unless the block itself starts there. *)
Lemma carve_place a k :
  0 <= a -> a mod 8 = 0 -> 4 <= k -> a + 24 + 2 * 2 ^ k <= 2 ^ 32 ->
  let p0 := ALIGN_UP (a + 24) (2 ^ k) in
  let p := if negb (p0 =? a + 24) && (u32 (p0 - a) <? 48) then u32 (p0 + 2 ^ k) else p0 in
  p mod 2 ^ k = 0 /\ p mod 8 = 0 /\ a + 24 <= p < a + 24 + 2 * 2 ^ k
  /\ (p = a + 24 \/ a + 48 <= p).
Proof.
  intros Ha Ha8 Hk Hlim p0 p.
  assert (E16 : exists j, 2 ^ k = 16 * j /\ 0 < j).
  { exists (2 ^ (k - 4)). split; [|apply Z.pow_pos_nonneg; lia].
    change 16 with (2 ^ 4). rewrite <- Z.pow_add_r by lia. f_equal. lia. }
  destruct E16 as (j & Ej & Hj).
  destruct (ALIGN_UP_spec (a + 24) k) as [Hp Hpm]; try lia. fold p0 in Hp, Hpm.
  apply Z.mod_divide in Ha8 as [a' Ea]; [|lia].
  assert (Hd : exists c, p = c * 2 ^ k /\ a + 24 <= p < a + 24 + 2 * 2 ^ k
                         /\ (p = a + 24 \/ a + 48 <= p)).
  { apply Z.mod_divide in Hpm as [c Ec]; [|lia]. unfold p. rewrite u32_small by lia.
    destruct (Z.eqb_spec p0 (a + 24)), (Z.ltb_spec (p0 - a) 48); cbn [negb andb];
      [exists c; lia..| |exists c; lia].
    exists (c + 1). rewrite u32_small by lia. rewrite Ej in *. repeat split; lia. }
  destruct Hd as (c & Ec & Hrange & Hroom). split; [rewrite Ec; apply Z_mod_mult|].
  split; [|done]. rewrite Ec, Ej. replace (c * (16 * j)) with (2 * c * j * 8) by lia. apply Z_mod_mult.
Qed.

Lemma carve_spec start l1 a h l2 s k need :
  heap_inv start (l1 ++ (a, h) :: l2) s -> 4 <= k -> 0 <= need -> need mod 8 = 0 ->
  need + 2 * 2 ^ k + 56 <= size h ->
  wp (carve a (2 ^ k) need) s (fun p s' => exists hs mid,
    s' = set_hdrs (fun _ => hs) s /\ heap_inv start (l1 ++ mid ++ l2) s'
    /\ used mid = [(p, need)] /\ p mod 2 ^ k = 0 /\ p mod 8 = 0 /\ 0 < p).
Proof.
  intros Hi Hk Hn0 Hn8 Hsz. pose proof Hi as [_ Hc Ht Hs Hb _].
  apply lseg_app in Hc as (r & _ & Hc). simpl in Hc. destruct Hc as (-> & Ha0 & Hh & _).
  pose proof (tiles_bounds _ _ _ a h Ht ltac:(set_solver)) as (Hlo & Hhi & Hsh & Hmg).
  pose proof (tiles_mid_aligned _ _ _ _ _ _ Ht (proj2 Hs)) as Ha8.
  apply tiles_app in Ht as (md & Ht1 & Ht2). simpl in Ht2. destruct Ht2 as (_ & _ & _ & Hs8 & _).
  assert (0 < 2 ^ k) by (apply Z.pow_pos_nonneg; lia). unfold BLOCK_SIZE in *.
  destruct (carve_place a k) as (Hpk & Hp8 & Hp & Hroom); try lia.
  unfold carve, BLOCK_SIZE. wp_pure. apply (wp_hdr _ h); [done|]. cbv zeta.
  rewrite (u32_small (a + 24 + size h)), (u32_small (a + 24)) by lia.
  change (2 * 24) with 48. set (p := if (_ : bool) then u32 (_ + 2 ^ k) else (_ : Z)) in *. clearbody p.
  rewrite (u32_small (p - (a + 24))), (u32_small (p + need)), (u32_small (_ - (p + need))) by lia.
  zdecide. wp_pure.
  set (tailh := mk_header BLOCK_MAGIC (a + 24 + size h - (p + need) - 24) 1 (next h) 0 0).
  assert (Ht8 : (a + 24 + size h - (p + need) - 24) mod 8 = 0).
  { replace (a + 24 + size h - (p + need) - 24) with ((a + size h) - (p + need)) by lia.
    rewrite Zminus_mod, (Z.add_mod a), (Z.add_mod p), Ha8, Hs8, Hp8, Hn8 by lia. done. }
  destruct Hroom as [->|Hroom].
  - replace (a + 24 - (a + 24) =? 0) with true by (symmetry; apply Z.eqb_eq; lia). wp_pure.
    apply (wp_hdr _ h); [done|]. wp_pure. apply wp_set_hdr. cbn [negb]. wp_pure. apply wp_set_hdr.
    rewrite !u32_small by lia. wp_pure.
    eapply wp_hdr; [simpl; rewrite lookup_insert_ne, lookup_insert_eq by lia; done|].
    apply wp_set_hdr. wp_pure. set (h1 := with_next _ _). fold tailh.
    eexists _, [(a, h1); (a + 24 + need, tailh)]. split; [done|]. csplit.
    apply (replace_block start l1 a h l2 s); [done| | |].
    + intros b Hb'. unfold BLOCK_SIZE in Hb'. simpl. by rewrite !lookup_insert_ne by lia.
    + simpl. rewrite lookup_insert_eq, lookup_insert_ne, lookup_insert_eq by lia. csplit.
    + simpl. unfold BLOCK_SIZE. csplit.
  - replace (p - (a + 24) =? 0) with false by (symmetry; apply Z.eqb_neq; lia). wp_pure.
    rewrite !u32_small by lia. apply wp_set_hdr. wp_pure.
    eapply wp_hdr; [simpl; rewrite lookup_insert_ne by lia; done|]. wp_pure. apply wp_set_hdr. wp_pure.
    eapply wp_hdr; [simpl; rewrite lookup_insert_ne, lookup_insert_eq by lia; done|].
    wp_pure. apply wp_set_hdr. cbn [negb]. wp_pure. apply wp_set_hdr. wp_pure.
    eapply wp_hdr; [simpl; rewrite lookup_insert_ne, lookup_insert_eq by lia; done|].
    apply wp_set_hdr. wp_pure. fold tailh.
    set (h0 := with_next (with_free _ 1) _). set (h1 := with_next (with_free _ 0) _).
    eexists _, [(a, h0); (p - 24, h1); (p + need, tailh)]. split; [done|]. csplit.
    + apply (replace_block start l1 a h l2 s); [done| | |].
      * intros b Hb'. unfold BLOCK_SIZE in Hb'. simpl. by rewrite !lookup_insert_ne by lia.
      * simpl. rewrite !(lookup_insert_ne _ _ a), !lookup_insert_eq by lia.
        rewrite (lookup_insert_ne _ _ (p + need)), lookup_insert_eq by lia. csplit.
      * simpl. unfold BLOCK_SIZE. csplit.
        replace (p - (a + 24) - 24) with (p - a - 6 * 8) by lia.
        rewrite Zminus_mod, Z_mod_mult, (Zminus_mod p), Hp8, Ha8. done.
    + simpl. unfold BLOCK_SIZE. by replace (p - 24 + 24) with p by lia.
Qed.

Lemma malloc_aligned_ok start bl s sz k :
  heap_ok start bl s -> 4 <= k <= 20 -> 0 <= sz < 2 ^ 31 ->
  wp (malloc_aligned sz (2 ^ k)) s (fun r s' =>
    (r = 0 /\ refused start bl s s') \/ (allocated start bl s sz r s' /\ r mod 2 ^ k = 0)).
Proof.
  intros [Hi Hl] Hk Hsz. unfold malloc_aligned, malloc_lock_acquire, malloc_lock_release. cbv zeta.
  set (sz1 := if sz =? 0 then 1 else sz).
  assert (H1 : sz <= sz1 /\ 0 <= sz1 <= 2 ^ 31) by (unfold sz1; zcases; lia). clearbody sz1.
  assert (Hk2 : 16 <= 2 ^ k <= 2 ^ 20 /\ 2 ^ k mod 8 = 0).
  { split; [split; [change 16 with (2 ^ 4)|]; apply Z.pow_le_mono_r; lia|].
    replace (2 ^ k) with (2 ^ (k - 3) * 8); [apply Z_mod_mult|].
    change 8 with (2 ^ 3). rewrite <- Z.pow_add_r by lia. f_equal. lia. }
  destruct Hk2 as [Hk2 Hk8]. rewrite (u32_small sz1), (u32_small (2 ^ k)) by lia. change (Z.shiftl 1 20) with (2 ^ 20). zdecide.
  destruct (ALIGN8_spec sz1 ltac:(lia)) as [Ha Ha8]. set (need := ALIGN8 sz1) in *. unfold BLOCK_SIZE.
  rewrite (u32_small (need + _ + _ + _)) by lia. set (want := need + _ + _ + _).
  assert (Hw8 : want mod 8 = 0).
  { unfold want. replace (need + 2 * 2 ^ k + 2 * 24 + 8) with (need + 2 ^ k + 2 ^ k + 7 * 8) by lia.
    rewrite Z_mod_plus_full, (Z.add_mod (need + _)), (Z.add_mod need), Ha8, Hk8 by lia. done. }
  wp_pure. rewrite Hl. simpl. wp_pure.
  assert (Hi1 : heap_inv start bl (set_lock 1 s)) by (by eapply heap_inv_ext).
  eapply wp_mono; [apply (heap_init_spec _ _ _ Hi1)|]. intros [] s1 [-> Hi2].
  set (s1 := set_init true (set_lock 1 s)) in *. wp_pure.
  eapply wp_mono; [apply (find_free_block_spec start bl s1); apply Hi2|].
  assert (Hcarve : forall l1 b h l2 s2, b <> 0 ->
    heap_inv start (l1 ++ (b, h) :: l2) s2 -> want <= size h ->
    used l1 ++ used l2 ≡ₚ used bl -> keeps_bytes start s1 s2 ->
    wp (if b =? 0 then modify (set_lock 0) ;;* ret 0
        else let* p := carve b (2 ^ k) need in modify (set_lock 0) ;;* ret p) s2
      (fun r s' => (r = 0 /\ refused start bl s s') \/
         (allocated start bl s sz r s' /\ r mod 2 ^ k = 0))).
  { intros l1 b h l2 s2 Hb Hi' Hwant Hu Hkb. zdecide. wp_pure.
    eapply wp_mono; [apply (carve_spec start l1 b h l2 s2 k need); first [done|lia]|].
    intros p s3 (hs & mid & -> & Hi3 & Hum & Hpk & Hp8 & Hp0). wp_pure. right. split; [|done].
    exists (l1 ++ mid ++ l2), need. split; [split; [by eapply heap_inv_ext|done]|].
    split; [by apply (keeps_bytes_live start _ _ _ s1 Hi2)|]. csplit.
    rewrite !used_app, Hum, <- Hu. simpl. by rewrite Permutation_middle. }
  intros b s' [-> [[-> Hno]|(l1 & h & l2 & -> & Hb & Hfit & _)]]; zdecide; wp_pure.
  - eapply wp_mono; [apply (request_space_spec start bl s1 want); first [done|lia]|].
    intros r s2 (Hlk & Hkb & [[-> ->]|(h & tl & Hr & Hi3 & Hsz3 & Hf3 & Hu)]).
    + simpl. wp_pure. left. split; [done|]. split; [split; [by eapply heap_inv_ext|done]|].
      by apply (keeps_bytes_live start _ _ _ s1 Hi2).
    + apply (Hcarve (relink bl r) r h tl); try done. by rewrite relink_used, Hu, app_nil_r.
  - unfold fits in Hfit. apply andb_true_iff in Hfit as [Hf Hge].
    rewrite Z.geb_leb in Hge. apply Z.leb_le in Hge.
    apply (Hcarve l1 b h l2); try done.
    rewrite used_app, used_cons. by destruct (is_free h =? 0).
Qed.

(** The alignments accepted are exactly the powers of two from 4 up. *)
Lemma bad_alignment_spec a :
  0 <= a < 2 ^ 32 -> bad_alignment a = false <-> exists k, 2 <= k < 32 /\ a = 2 ^ k.
Proof.
  intros Ha. unfold bad_alignment. rewrite orb_false_iff, Z.ltb_ge, negb_false_iff, Z.eqb_eq. split.
  - intros [H4 H]. rewrite u32_small in H by lia. exists (Z.log2 a).
    apply land_pred_pow2 in H; [|lia]. split; [|done]. split.
    + change 2 with (Z.log2 4). by apply Z.log2_le_mono.
    + apply Z.log2_lt_pow2; lia.
  - intros (k & Hk & ->). assert (4 <= 2 ^ k) by (change 4 with (2 ^ 2); apply Z.pow_le_mono_r; lia).
    split; [done|]. rewrite u32_small by lia. apply land_pred_pow2; [lia|]. by rewrite Z.log2_pow2 by lia.
Qed.

(** ** Programs using the heap

    [reach s lv]: the heap [s] is the result of some sequence of calls by a
    client that only frees what it owns and only writes inside its own blocks;
    [lv] is the client's ledger of pointers and requested sizes. *)
Inductive reach (start : Z) : heap -> list (Z * Z) -> Prop :=
| reach_init s :
    heap_ok start [] s -> reach start s []
| reach_malloc s lv sz r s' :
    reach start s lv -> 0 <= sz <= 2 ^ 32 - 48 -> malloc sz s = Some (r, s') ->
    reach start s' (if r =? 0 then lv else (r, sz) :: lv)
| reach_calloc s lv nmemb sz r s' :
    reach start s lv -> u32 (nmemb * sz) <= 2 ^ 32 - 48 -> calloc nmemb sz s = Some (r, s') ->
    reach start s' (if r =? 0 then lv else (r, u32 (nmemb * sz)) :: lv)
| reach_aligned s lv sz k r s' :
    reach start s lv -> 4 <= k <= 20 -> 0 <= sz < 2 ^ 31 ->
    malloc_aligned sz (2 ^ k) s = Some (r, s') ->
    reach start s' (if r =? 0 then lv else (r, sz) :: lv)
| reach_free s lv1 p sz lv2 s' :
    reach start s (lv1 ++ (p, sz) :: lv2) -> free p s = Some (tt, s') ->
    reach start s' (lv1 ++ lv2)
| reach_realloc s lv1 p sz lv2 sz' r s' :
    reach start s (lv1 ++ (p, sz) :: lv2) -> 0 <= sz' <= 2 ^ 32 - 48 -> realloc p sz' s = Some (r, s') ->
    reach start s' (lv1 ++ (if sz' =? 0 then [] else if r =? 0 then [(p, sz)] else [(r, sz')]) ++ lv2)
| reach_write s lv p sz q v :
    reach start s lv -> (p, sz) ∈ lv -> p <= q < p + sz ->
    reach start (set_kernel (kern s) (<[q := u8 v]> (bytes s)) s) lv.

(** The ledger covered by the heap's live blocks. *)
Definition covered (bl : list block) (lv : list (Z * Z)) : Prop :=
  exists ns, used bl ≡ₚ ns /\ Forall2 (fun b e => b.1 = e.1 /\ e.2 <= b.2) ns lv.

Lemma covered_alloc bl bl' lv r n sz :
  used bl' ≡ₚ (r, n) :: used bl -> sz <= n -> covered bl lv -> covered bl' ((r, sz) :: lv).
Proof.
  intros Hp Hn (ns & Hu & HF). exists ((r, n) :: ns). split; [by rewrite Hp, Hu|]. by constructor.
Qed.

Lemma covered_result start bl s sz r s' lv (P : Prop) :
  covered bl lv ->
  (r = 0 /\ refused start bl s s') \/ (allocated start bl s sz r s' /\ P) ->
  exists bl', heap_ok start bl' s' /\ covered bl' (if r =? 0 then lv else (r, sz) :: lv).
Proof.
  intros Hc [[-> [Hok _]]|[(bl' & n & Hok & _ & Hr & _ & Hn & Hp) _]].
  - exists bl. done.
  - exists bl'. zdecide. split; [done|]. by eapply covered_alloc.
Qed.

Lemma covered_free start bl s lv1 p sz lv2 s' :
  heap_ok start bl s -> covered bl (lv1 ++ (p, sz) :: lv2) -> free p s = Some (tt, s') ->
  exists bl', heap_ok start bl' s' /\ covered bl' (lv1 ++ lv2).
Proof.
  intros Hok (ns & Hu & HF) E. apply Forall2_app_inv_r in HF as (n1 & n2 & HF1 & HF2 & ->).
  inversion HF2 as [|[p' n] ? n2' ? [Ep Hn] HF3]; subst. simpl in Ep, Hn. subst p'.
  pose proof (free_ok start bl s p n Hok ltac:(rewrite Hu; set_solver)) as Hw.
  unfold wp in Hw. rewrite E in Hw. destruct Hw as (bl' & Hok' & _ & Hp & _).
  exists bl'. split; [done|]. exists (n1 ++ n2'). split; [|by apply Forall2_app].
  apply (Permutation_cons_inv (a := (p, n))). rewrite <- Hp, Hu. by rewrite Permutation_middle.
Qed.

Lemma covered_realloc start bl s lv1 p sz lv2 sz' r s' :
  heap_ok start bl s -> covered bl (lv1 ++ (p, sz) :: lv2) -> 0 <= sz' <= 2 ^ 32 - 48 ->
  realloc p sz' s = Some (r, s') ->
  exists bl', heap_ok start bl' s' /\
    covered bl' (lv1 ++ (if sz' =? 0 then [] else if r =? 0 then [(p, sz)] else [(r, sz')]) ++ lv2).
Proof.
  intros Hok Hc Hsz E. pose proof Hc as (ns & Hu & HF). apply Forall2_app_inv_r in HF as (n1 & n2 & HF1 & HF2 & ->).
  inversion HF2 as [|[p' n] ? n2' ? [Ep Hn] HF3]; subst. simpl in Ep, Hn. subst p'.
  assert (Hin : (p, n) ∈ used bl) by (rewrite Hu; set_solver).
  destruct (used_bounds _ _ _ _ _ (proj1 Hok) Hin) as (Hlo & _). pose proof (ok_start _ _ _ (proj1 Hok)).
  unfold BLOCK_SIZE in Hlo. destruct (Z.eqb_spec sz' 0) as [->|H0].
  { unfold realloc in E. rewrite (proj2 (Z.eqb_neq p 0)) in E by lia. change (0 =? 0) with true in E. cbv iota in E.
    unfold bind in E. destruct (free p s) as [[[] s1]|] eqn:E1; [|done]. injection E as _ ->.
    exact (covered_free start bl s lv1 p sz lv2 s' Hok Hc E1). }
  destruct (block_cells start bl s p n Hok Hin) as (l & Hl & Hll).
  pose proof (realloc_cells start bl s p n sz' l Hok Hin ltac:(lia) Hl Hll) as Hw. unfold wp in Hw. rewrite E in Hw.
  destruct Hw as [[-> [Hok' _]]|(l' & _ & bl' & k & rest & Hok' & Hr & _ & Hk & Hp & Hp' & _)]; zdecide; [by exists bl|].
  exists bl'. split; [done|]. exists (n1 ++ (r, k) :: n2'). split; [|apply Forall2_app; [done|simpl; by constructor]].
  rewrite Hp', <- Permutation_middle. constructor. apply (Permutation_cons_inv (a := (p, n))).
  rewrite <- Hp, Hu. by rewrite Permutation_middle.
Qed.

(** Every reachable heap satisfies the invariant, and covers the ledger. *)
Lemma heap_reach_inv start s lv :
  reach start s lv -> exists bl, heap_ok start bl s /\ covered bl lv.
Proof.
  induction 1 as [s Hok|s lv sz r s' _ (bl & Hok & Hc) Hsz E|s lv n sz r s' _ (bl & Hok & Hc) Hsz E
    |s lv sz k r s' _ (bl & Hok & Hc) Hk Hsz E|s lv1 p sz lv2 s' _ (bl & Hok & Hc) E
    |s lv1 p sz lv2 sz' r s' _ (bl & Hok & Hc) Hsz E|s lv p sz q v _ (bl & Hok & Hc) Hin Hq].
  - exists []. split; [done|]. by exists [].
  - pose proof (malloc_ok start bl s sz Hok Hsz) as Hw. unfold wp in Hw. rewrite E in Hw.
    apply (covered_result start bl s sz r s' lv True Hc). tauto.
  - pose proof (calloc_ok start bl s n sz Hok) as Hw. unfold wp in Hw. rewrite E in Hw.
    pose proof (u32_range (n * sz)). eapply (covered_result start bl s _ r s' lv _ Hc), Hw. lia.
  - pose proof (malloc_aligned_ok start bl s sz k Hok Hk Hsz) as Hw. unfold wp in Hw.
    rewrite E in Hw. by eapply (covered_result start bl s sz r s' lv _ Hc).
  - by apply (covered_free start bl s lv1 p sz lv2 s' Hok Hc).
  - by apply (covered_realloc start bl s lv1 p sz lv2 sz' r s' Hok Hc Hsz).
  - exists bl. split; [|done]. change (<[q := u8 v]> (bytes s)) with (write_list q [u8 v] (bytes s)).
    by apply heap_ok_write.
Qed.

(** Entries of a covered ledger, as live blocks. *)
Lemma covered_in start bl s lv i p sz :
  heap_ok start bl s -> covered bl lv -> lv !! i = Some (p, sz) ->
  exists n, (p, n) ∈ used bl /\ sz <= n.
Proof.
  intros Hok (ns & Hu & HF) Hi. destruct (Forall2_lookup_r _ _ _ _ _ HF Hi) as ([p' n] & Hn & E & Hs).
  simpl in *. subst p'. exists n. split; [|done]. rewrite Hu. by eapply list_elem_of_lookup_2.
Qed.

Lemma covered_disjoint start bl s lv i j p sz q sz' :
  heap_ok start bl s -> covered bl lv -> i <> j ->
  lv !! i = Some (p, sz) -> lv !! j = Some (q, sz') -> p + sz <= q \/ q + sz' <= p.
Proof.
  intros [Hi _] (ns & Hu & HF) Hij Hp Hq.
  destruct (Forall2_lookup_r _ _ _ _ _ HF Hp) as ([p' n] & Hn & E & Hs).
  destruct (Forall2_lookup_r _ _ _ _ _ HF Hq) as ([q' k] & Hk & E' & Hs'). simpl in *. subst p' q'.
  apply list_elem_of_split_length in Hn as (n1 & n2 & -> & ->).
  assert (Hin : (q, k) ∈ n1 ++ n2).
  { apply lookup_app_Some in Hk as [Hk|[Hl Hk]]; [apply elem_of_app; left; by eapply list_elem_of_lookup_2|].
    apply elem_of_app; right. destruct (j - length n1)%nat as [|d] eqn:Ed; [lia|].
    simpl in Hk. by eapply list_elem_of_lookup_2. }
  destruct (used_disjoint_cons start bl _ p n q k (n1 ++ n2) (ok_tiles _ _ _ Hi)); [|done|lia..].
  by rewrite Hu, Permutation_middle.
Qed.

(** A live block against any block of the chain. *)
Lemma used_apart start bl stop p n a h :
  tiles start bl stop -> (p, n) ∈ used bl -> (a, h) ∈ bl ->
  (p = a + BLOCK_SIZE /\ is_free h = 0 /\ n = size h) \/ p + n <= a \/ a + BLOCK_SIZE + size h <= p.
Proof.
  intros Ht (l1 & g & l2 & -> & Hg & Hn)%used_in Ha. apply tiles_app in Ht as (mid & H1 & H2).
  simpl in H2. destruct H2 as (Em & _ & Hs & _ & H2). pose proof (tiles_le _ _ _ H2). unfold BLOCK_SIZE in *.
  apply elem_of_app in Ha as [Ha|[Ha|Ha]%elem_of_cons].
  - destruct (tiles_bounds _ _ _ _ _ H1 Ha) as (_ & ? & _). unfold BLOCK_SIZE in *. lia.
  - simplify_eq. left. lia.
  - destruct (tiles_bounds _ _ _ _ _ H2 Ha) as (? & _). unfold BLOCK_SIZE in *. lia.
Qed.

Lemma live_block start bl s p n sz :
  heap_ok start bl s -> (p, n) ∈ used bl -> sz <= n ->
  p mod 8 = 0 /\ start <= p /\ p + sz <= cur_brk (kern s) /\ writable (bytes s) p (Z.to_nat sz)
  /\ (exists s', free p s = Some (tt, s'))
  /\ (forall sz', 0 <= sz' <= 2 ^ 32 - 48 -> exists r s', realloc p sz' s = Some (r, s')).
Proof.
  intros Hok Hin Hn. destruct (used_bounds _ _ _ _ _ (proj1 Hok) Hin) as (Hlo & _ & Hhi & Hw & _).
  assert (Hf : exists s', free p s = Some (tt, s')).
  { destruct (wp_total _ _ _ (free_ok _ _ _ _ _ Hok Hin)) as ([] & s' & E & _). eauto. }
  unfold BLOCK_SIZE in Hlo. split_and!; [by apply (used_aligned _ _ _ _ _ (proj1 Hok) Hin)|lia|lia| |done|].
  - eapply writable_le; [|exact Hw]. lia.
  - intros sz' Hs. pose proof (ok_start _ _ _ (proj1 Hok)). destruct (Z.eqb_spec sz' 0) as [->|H0].
    { destruct Hf as [s' E]. exists 0, s'. unfold realloc. zdecide. by rewrite (bind_run _ _ _ _ _ E). }
    destruct (block_cells start bl s p n Hok Hin) as (l & Hl & Hll).
    destruct (wp_total _ _ _ (realloc_cells start bl s p n sz' l Hok Hin ltac:(lia) Hl Hll)) as (r & s' & E & _). eauto.
Qed.

(** ** Properties *)

(** C2: for a request of 0 to 2^32 - 48 bytes [malloc] always returns.  It either
    returns NULL and leaves the heap and every live block as they were, or an
    8-aligned pointer to a fresh block of at least the requested size: the live
    blocks are the old ones, with their contents, and the new one, and the blocks
    still tile the arena.  A request of zero bytes is served like one byte.
    Larger requests wrap ([size_arithmetic_wraps]). *)
Theorem malloc_correct start bl s sz :
  heap_ok start bl s -> 0 <= sz <= 2 ^ 32 - 48 ->
  wp (malloc sz) s (fun r s' =>
    (r = 0 /\ refused start bl s s') \/ allocated start bl s sz r s').
Proof. apply malloc_ok. Qed.

(** C3: [free] of a live block returns; the block leaves the live set, every
    other block and all contents stay, and no two neighbouring blocks remain
    free: the coalescing pass merges completely. *)
Theorem free_correct start bl s p n :
  heap_ok start bl s -> (p, n) ∈ used bl ->
  wp (free p) s (fun _ s' => exists bl', heap_ok start bl' s' /\ keeps_bytes start s s'
    /\ used bl ≡ₚ (p, n) :: used bl' /\ coalesced bl').
Proof. apply free_ok. Qed.

(** C4: [realloc] of a live block of the arena (not one with a mapping of its own)
    to a size from 1 to 2^32 - 48 returns NULL with the old block untouched, or a
    block of at least the new size that starts with the whole old contents; the
    other live blocks and their contents are unchanged, and the old block is gone
    unless it was large enough. *)
Theorem realloc_correct start bl s p n sz l :
  heap_ok start bl s -> (p, n) ∈ used bl -> 0 < sz <= 2 ^ 32 - 48 ->
  bytes_at (bytes s) p l -> Z.of_nat (length l) = n -> Forall byte_ok l ->
  wp (realloc p sz) s (fun r s' =>
    (r = 0 /\ refused start bl s s') \/ reallocated start bl s p n sz r l s').
Proof. apply realloc_ok. Qed.

(** when the product of its arguments fits, [calloc] returns NULL or a fresh
    block of that many bytes, all zero, and disturbs no live block, even where
    the space was used before. *)
Theorem calloc_zeroes start bl s nmemb sz :
  heap_ok start bl s -> 0 <= nmemb * sz <= 2 ^ 32 - 48 ->
  wp (calloc nmemb sz) s (fun r s' =>
    (r = 0 /\ refused start bl s s') \/
    (allocated start bl s (nmemb * sz) r s' /\
     bytes_at (bytes s') r (replicate (Z.to_nat (nmemb * sz)) 0))).
Proof.
  intros Hok Ht. pose proof (calloc_ok start bl s nmemb sz Hok) as H.
  rewrite u32_small in H by lia. by apply H.
Qed.

(** [posix_memalign] rejects exactly the alignments that are not a power of
    two of at least 4 with EINVAL, changing nothing; otherwise it reports ENOMEM
    with the heap intact, or stores a fresh block's address that is a multiple
    of the alignment. *)
Theorem posix_memalign_correct start bl s memptr alignment sz :
  heap_ok start bl s -> memptr <> 0 -> 0 <= alignment <= 2 ^ 20 -> 0 <= sz < 2 ^ 31 ->
  wp (posix_memalign memptr alignment sz) s (fun r s' =>
    match r with
    | (0, Some p) => allocated start bl s sz p s' /\ p mod alignment = 0
                     /\ exists k, 2 <= k /\ alignment = 2 ^ k
    | (e, None) => (e = EINVAL /\ s' = s /\ ~ exists k, 2 <= k /\ alignment = 2 ^ k)
                   \/ (e = ENOMEM /\ refused start bl s s')
    | _ => False
    end).
Proof.
  intros Hok Hm Ha Hsz. unfold posix_memalign, alloc_for. zdecide.
  pose proof (bad_alignment_spec alignment ltac:(lia)) as Hbad.
  destruct (bad_alignment alignment); wp_pure.
  { left. csplit. intros (k & Hk & ->). enough (true = false) by done. apply Hbad.
    exists k. split; [|done]. destruct (decide (k < 32)); [lia|].
    pose proof (Z.pow_le_mono_r 2 32 k). lia. }
  destruct Hbad as [(k & Hk & ->) _]; [done|]. 
  destruct (Z.leb_spec (2 ^ k) 8) as [H8|H8].
  - eapply wp_mono; [apply malloc_ok; first [done|lia]|].
    intros r s' [[-> Href]|Hal]; wp_pure; [simpl; right; done|].
    pose proof Hal as (bl' & n & _ & _ & Hr & Hr8 & _). zdecide. wp_pure. split; [done|].
    split; [|exists k; lia]. apply Z.mod_divide; [lia|]. transitivity 8; [|apply Z.mod_divide; lia].
    assert (k = 2 \/ k = 3) as [-> | ->]; [|by exists 2|by exists 1].
    destruct (decide (k < 4)); [lia|]. pose proof (Z.pow_le_mono_r 2 4 k). lia.
  - assert (4 <= k <= 20).
    { split; [destruct (decide (k < 4)); [pose proof (Z.pow_le_mono_r 2 k 3); lia|lia]|].
      apply (Z.pow_le_mono_r_iff 2); lia. }
    eapply wp_mono; [apply malloc_aligned_ok; first [done|lia]|].
    intros r s' [[-> Href]|[Hal Hmod]]; wp_pure; [simpl; right; done|].
    pose proof Hal as (bl' & n & _ & _ & Hr & _). zdecide. wp_pure. csplit. exists k. lia.
Qed.

(** C1: whatever sequence of [malloc], [calloc], [realloc], aligned allocations,
    [free] and writes to its own blocks a client performs, with sizes of at most
    2^32 - 48 (2^31 and an alignment of at most 2^20 for aligned ones), the blocks
    it owns are mapped, inside the arena, 8-aligned and pairwise disjoint; of all
    the blocks in the chain each overlaps only the one it is the payload of, and
    that one is not free; and a further [malloc], [realloc] or [free] returns. *)
Theorem heap_safety start s lv :
  reach start s lv ->
  (forall i p sz, lv !! i = Some (p, sz) ->
     p mod 8 = 0 /\ start <= p /\ p + sz <= cur_brk (kern s) /\ writable (bytes s) p (Z.to_nat sz)
     /\ (exists s', free p s = Some (tt, s'))
     /\ (forall sz', 0 <= sz' <= 2 ^ 32 - 48 -> exists r s', realloc p sz' s = Some (r, s')))
  /\ (forall i j p sz q sz', i <> j -> lv !! i = Some (p, sz) -> lv !! j = Some (q, sz') ->
       p + sz <= q \/ q + sz' <= p)
  /\ (forall sz, 0 <= sz <= 2 ^ 32 - 48 -> exists r s', malloc sz s = Some (r, s'))
  /\ exists bl, lseg (hdrs s) (free_list s) bl 0 /\
       forall i p sz a h, lv !! i = Some (p, sz) -> (a, h) ∈ bl ->
         (p = a + BLOCK_SIZE /\ is_free h = 0 /\ sz <= size h) \/
         p + sz <= a \/ a + BLOCK_SIZE + size h <= p.
Proof.
  intros (bl & Hok & Hc)%heap_reach_inv. split_and!.
  - intros i p sz Hi. destruct (covered_in _ _ _ _ _ _ _ Hok Hc Hi) as (n & Hin & Hn).
    by apply (live_block start bl s p n sz).
  - intros i j p sz q sz' Hij. by apply (covered_disjoint start bl s lv i j).
  - intros sz Hsz. destruct (wp_total _ _ _ (malloc_ok _ _ _ _ Hok Hsz)) as (r & s' & E & _). eauto.
  - exists bl. split; [apply Hok|]. intros i p sz a h Hi Ha.
    destruct (covered_in _ _ _ _ _ _ _ Hok Hc Hi) as (n & Hin & Hn).
    destruct (used_apart start bl _ p n a h (ok_tiles _ _ _ (proj1 Hok)) Hin Ha) as [(? & ? & ?)|?]; [left|right]; lia.
Qed.

End Heap.

(** ** A concrete kernel

    A break that grows up to a limit over zero-filled memory, and no mappings. *)
Definition brk_limit : Z := 0x100000.

Definition brk_kernel (a k : Z) (m : mem) : Z * Z * mem :=
  if a =? 0 then (k, k, m)
  else if (k <=? a) && (a <=? brk_limit)
  then (a, a, write_list k (replicate (Z.to_nat (a - k)) 0) m)
  else (2 ^ 32 - 1, k, m).

Lemma brk_kernel_grow a k m :
  k <= a -> a <> 0 ->
  let '(r, k', m') := brk_kernel a k m in
  (r = 2 ^ 32 - 1 /\ k' = k /\ m' = m) \/
  (r <> 2 ^ 32 - 1 /\ k' = a
   /\ (forall q, ~ (k <= q < a) -> m' !! q = m !! q)
   /\ (forall q, k <= q < a -> is_Some (m' !! q))).
Proof.
  intros Hk Ha. unfold brk_kernel. zdecide. cbn [andb].
  destruct (Z.leb_spec a brk_limit) as [Hl|]; [right|by left].
  unfold brk_limit in Hl. csplit; intros q Hq; rewrite lookup_write_list, length_replicate.
  - by rewrite bool_decide_eq_false_2 by lia.
  - rewrite bool_decide_eq_true_2 by lia. rewrite lookup_replicate_2 by lia. done.
Qed.

#[export] Instance zero_fill_kernel : Kernel Z := {|
  sys_brk := brk_kernel;
  sys_mmap := fun _ k m => (2 ^ 32 - 1, k, m);
  sys_munmap := fun _ _ k m => (k, m);
  cur_brk := fun k => k;
  brk_query := fun k m => eq_refl;
  brk_grow := brk_kernel_grow;
|}.

(** The heap at start-up, and after [malloc(100)]. *)
Definition heap0 : heap (K := Z) := mk_heap ∅ 0 false 0 0 ∅ 0x10000.
Definition blk1 : block_header := mk_header BLOCK_MAGIC 104 0 0x10080 0 0.
Definition blk2 : block_header := mk_header BLOCK_MAGIC 3944 1 0 0 0.
Definition heap1 : heap (K := Z) :=
  mk_heap (<[0x10000 := blk1]> (<[0x10080 := blk2]> ∅)) 0x10000 true 0 0
    (write_list 0x10000 (replicate 4096 0) ∅) 0x11000.

Lemma heap0_ok : heap_ok 0x10000 [] heap0.
Proof. split; [|done]. constructor; simpl; try done. lia. Qed.

Lemma heap1_ok : heap_ok 0x10000 [(0x10000, blk1); (0x10080, blk2)] heap1.
Proof.
  unfold heap1. set (m := write_list _ _ _).
  assert (Hm : forall q, 0x10000 <= q < 0x11000 -> is_Some (m !! q)).
  { intros q Hq. unfold m. rewrite lookup_write_list, length_replicate, bool_decide_eq_true_2 by lia.
    rewrite lookup_replicate_2 by lia. done. }
  clearbody m. split; [|done]. constructor; simpl; done.
Qed.

Lemma malloc_correct_witness :
  heap_ok 0x10000 [(0x10000, blk1); (0x10080, blk2)] heap1 /\
  wp (malloc 100) heap1 (fun r s' =>
    (r = 0 /\ refused 0x10000 [(0x10000, blk1); (0x10080, blk2)] heap1 s')
    \/ allocated 0x10000 [(0x10000, blk1); (0x10080, blk2)] heap1 100 r s').
Proof. split; [apply heap1_ok|]. apply malloc_correct; [apply heap1_ok|lia]. Defined.

Lemma free_correct_witness :
  (0x10018, 104) ∈ used [(0x10000, blk1); (0x10080, blk2)] /\
  wp (free 0x10018) heap1 (fun _ s' => exists bl', heap_ok 0x10000 bl' s'
    /\ keeps_bytes 0x10000 heap1 s'
    /\ used [(0x10000, blk1); (0x10080, blk2)] ≡ₚ (0x10018, 104) :: used bl' /\ coalesced bl').
Proof.
  split; [vm_compute; by left|].
  apply free_correct; [apply heap1_ok|vm_compute; by left].
Defined.

(** The 104 zero bytes of the block of [heap1]. *)
Lemma heap1_block : bytes_at (bytes heap1) 0x10018 (replicate 104 0).
Proof.
  intros i b Hi. apply lookup_replicate in Hi as [-> Hi].
  unfold heap1. cbn [bytes]. rewrite lookup_write_list, length_replicate, bool_decide_eq_true_2 by lia.
  by rewrite lookup_replicate_2 by lia.
Qed.

Lemma realloc_correct_witness :
  bytes_at (bytes heap1) 0x10018 (replicate 104 0) /\
  wp (realloc 0x10018 5000) heap1 (fun r s' =>
    (r = 0 /\ refused 0x10000 [(0x10000, blk1); (0x10080, blk2)] heap1 s')
    \/ reallocated 0x10000 [(0x10000, blk1); (0x10080, blk2)] heap1 0x10018 104 5000 r
         (replicate 104 0) s').
Proof.
  split; [apply heap1_block|].
  apply realloc_correct; [apply heap1_ok|vm_compute; by left|lia|apply heap1_block|done|].
  by apply Forall_replicate.
Defined.

Lemma calloc_zeroes_witness :
  0 <= 10 * 12 <= 2 ^ 32 - 48 /\
  wp (calloc 10 12) heap0 (fun r s' =>
    (r = 0 /\ refused 0x10000 [] heap0 s') \/
    (allocated 0x10000 [] heap0 (10 * 12) r s' /\
     bytes_at (bytes s') r (replicate (Z.to_nat (10 * 12)) 0))).
Proof. split; [lia|]. apply calloc_zeroes; [apply heap0_ok|lia]. Defined.

Lemma posix_memalign_correct_witness :
  0 <= 64 <= 2 ^ 20 /\
  wp (posix_memalign 4 64 100) heap0 (fun r s' =>
    match r with
    | (0, Some p) => allocated 0x10000 [] heap0 100 p s' /\ p mod 64 = 0
                     /\ exists k, 2 <= k /\ 64 = 2 ^ k
    | (e, None) => (e = EINVAL /\ s' = heap0 /\ ~ exists k, 2 <= k /\ 64 = 2 ^ k)
                   \/ (e = ENOMEM /\ refused 0x10000 [] heap0 s')
    | _ => False
    end).
Proof. split; [lia|]. apply posix_memalign_correct; [apply heap0_ok|lia..]. Defined.

(** The heap after [malloc(100)] returned a block, with its ledger. *)
Lemma heap_safety_witness :
  wp (malloc 100) heap0 (fun r _ => r = 0x10018) /\
  forall s, malloc 100 heap0 = Some (0x10018, s) ->
    exists s', free 0x10018 s = Some (tt, s').
Proof.
  split.
  - eapply wp_check; vm_compute; reflexivity.
  - intros s E.
    destruct (heap_safety 0x10000 s [(0x10018, 100)]
      (reach_malloc 0x10000 heap0 [] 100 0x10018 s (reach_init _ _ heap0_ok) ltac:(lia) E)) as [H _].
    destruct (H 0%nat 0x10018 100 eq_refl) as (_ & _ & _ & _ & Hf & _). exact Hf.
Defined.

(** the size arithmetic is not checked for overflow: a request of
    2^32 - 1 bytes is answered with a block of size 0, and
    [calloc(65536, 65536)] with a block of 8 bytes. *)
Theorem size_arithmetic_wraps :
  wp (malloc (2 ^ 32 - 1)) heap0 (fun r s =>
    r <> 0 /\ size <$> hdrs s !! (r - BLOCK_SIZE) = Some 0)
  /\ wp (calloc 65536 65536) heap0 (fun r s =>
    r <> 0 /\ size <$> hdrs s !! (r - BLOCK_SIZE) = Some 8).
Proof. split; (eapply wp_check; vm_compute; reflexivity). Qed.

End Malloc.
