(* ===== verification/Qsort.v ===== *)
(** * Qsort: [qsort], [qsort_r] and [bsearch] of src/stdlib.c

    The routines work on bytes: elements are [size] bytes apart, are moved by
    [_qsort_swap] through a 64-byte buffer, and are compared through pointers
    by the caller's function.  That function is a parameter; the class
    [Comparator] states the contract the C standard asks of it.  The theorems
    relate the memory before and after to lists of elements.

    The recursion of [_qsort_r] has depth fuel [nmemb + 1]; loops have their
    trip count plus one. *)

From Stdlib Require Import ZArith Lia Bool.
From stdpp Require Import base gmap list numbers sorting.
From S2P Require Import Prelude Monad Memory CString.

Module Qsort.

(** The three inner loops of [_qsort_swap]: through [tmp], a local array. *)
Definition read_chunk (pa i chunk : Z) : M (list Z) :=
  loop (S (Z.to_nat chunk)) (fun '(j, tmp) =>
    if j <? chunk then
      let* b := load8 (pa + (i + j)) in continue (j + 1, tmp ++ [b])
    else break tmp) (0, []).

Definition copy_chunk (pa pb i chunk : Z) : M unit :=
  loop (S (Z.to_nat chunk)) (fun j =>
    if j <? chunk then
      let* b := load8 (pb + (i + j)) in store8 (pa + (i + j)) b ;;* continue (j + 1)
    else break tt) 0.

Definition write_chunk (pb i chunk : Z) (tmp : list Z) : M unit :=
  loop (S (Z.to_nat chunk)) (fun j =>
    if j <? chunk then
      store8 (pb + (i + j)) (nth (Z.to_nat j) tmp 0) ;;* continue (j + 1)
    else break tt) 0.

Definition _qsort_swap (pa pb size : Z) : M unit :=
  loop (S (Z.to_nat size)) (fun i =>
    if i <? size then
      let chunk := u32 (size - i) in
      let chunk := if chunk >? 64 then 64 else chunk in
      let* tmp := read_chunk pa i chunk in
      copy_chunk pa pb i chunk ;;*
      write_chunk pb i chunk tmp ;;*
      continue (u32 (i + 64))
    else break tt) 0.

Section Sorting.
Context {Arg : Type} (compar : Z -> Z -> Arg -> M Z) (arg : Arg) (size : Z).

(** [arr + i * size] *)
Definition elt (arr i : Z) : Z := arr + u32 (i * size).

(** The partition loop: elements below the last one move to the front. *)
Definition partition (arr last : Z) : M Z :=
  loop (S (Z.to_nat last)) (fun '(i, pivot) =>
    if i <? last then
      let* c := compar (elt arr i) (elt arr last) arg in
      if c <? 0 then
        _qsort_swap (elt arr i) (elt arr pivot) size ;;*
        continue (i + 1, pivot + 1)
      else continue (i + 1, pivot)
    else break pivot) (0, 0).

Fixpoint _qsort_r (depth : nat) (arr nmemb : Z) : M unit :=
  match depth with
  | O => fault
  | S depth =>
      if nmemb <=? 1 then ret tt
      else
        let last := nmemb - 1 in
        let* pivot := partition arr last in
        _qsort_swap (elt arr pivot) (elt arr last) size ;;*
        (if pivot >? 1 then _qsort_r depth arr pivot else ret tt) ;;*
        if pivot <? nmemb - 1
        then _qsort_r depth (elt arr (pivot + 1)) (nmemb - pivot - 1)
        else ret tt
  end.
End Sorting.

Definition _qsort_ctx (a b : Z) (arg : Z -> Z -> M Z) : M Z := arg a b.

Definition qsort (base nmemb size : Z) (compar : Z -> Z -> M Z) : M unit :=
  _qsort_r _qsort_ctx compar size (S (Z.to_nat nmemb)) base nmemb.

Definition qsort_r {Arg} (base nmemb size : Z) (compar : Z -> Z -> Arg -> M Z) (arg : Arg) : M unit :=
  _qsort_r compar arg size (S (Z.to_nat nmemb)) base nmemb.

Definition bsearch (key base nmemb size : Z) (compar : Z -> Z -> M Z) : M Z :=
  loop (S (Z.to_nat nmemb)) (fun '(lo, hi) =>
    if lo <? hi then
      let mid := lo + (hi - lo) / 2 in
      let* c := compar key (elt size base mid) in
      if c =? 0 then break (elt size base mid)
      else if c <? 0 then continue (lo, mid)
      else continue (mid + 1, hi)
    else break 0) (0, nmemb).

(** ** The comparator's contract

    It reads its two elements, changes nothing, and orders element contents by
    a total preorder. *)
Class Comparator (size : Z) (compar : Z -> Z -> M Z) (cmp : list Z -> list Z -> Z) : Prop := {
  compar_runs : forall m a b x y,
    bytes_at m a x -> bytes_at m b y ->
    Z.of_nat (length x) = size -> Z.of_nat (length y) = size ->
    compar a b m = Some (cmp x y, m);
  cmp_flip : forall x y, cmp x y < 0 <-> 0 < cmp y x;
  cmp_trans : forall x y z, cmp x y <= 0 -> cmp y z <= 0 -> cmp x z <= 0;
}.

(** ** Swapping two elements *)

Lemma wp_load_at m p l i (Q : Z -> mem -> Prop) :
  bytes_at m p l -> (i < length l)%nat ->
  (forall b, l !! i = Some b -> Q b m) -> wp (load8 (p + Z.of_nat i)) m Q.
Proof.
  intros H Hi HQ. destruct (lookup_lt_is_Some_2 l i Hi) as [b Hb].
  apply (wp_load8 _ _ b); [by apply H|auto].
Qed.

Lemma read_chunk_eq m pa i l :
  bytes_at m (pa + i) l -> read_chunk pa i (Z.of_nat (length l)) m = Some (l, m).
Proof.
  intros H. apply wp_eq. unfold read_chunk.
  wp_while (fun st m' => exists n, (n <= length l)%nat /\ st = (Z.of_nat n, take n l) /\ m' = m)
           (fun st : Z * list Z => (length l - Z.to_nat st.1)%nat).
  2:{ exists 0%nat. csplit. }
  intros st m' (n & Hn & -> & ->). destruct (Z.ltb_spec (Z.of_nat n) (Z.of_nat (length l))).
  - wp_pure. rewrite Z.add_assoc. apply (wp_load_at m _ l); [done|lia|]. intros b Hb.
    wp_pure. csplit. exists (S n). csplit. rewrite (take_S_r _ _ _ Hb). state_eq.
  - wp_pure. rewrite take_ge by lia. done.
Qed.

Lemma copy_chunk_eq m pa pb i l :
  bytes_at m (pb + i) l -> Forall byte_ok l -> writable m (pa + i) (length l) ->
  CString.forward_ok (pa + i) (pb + i) (Z.of_nat (length l)) ->
  copy_chunk pa pb i (Z.of_nat (length l)) m = Some (tt, write_list (pa + i) l m).
Proof.
  intros Hs Hb Hd Hfw. apply wp_eq. unfold copy_chunk.
  wp_while (fun j m' => exists n, (n <= length l)%nat /\ j = Z.of_nat n
              /\ m' = write_list (pa + i) (take n l) m)
           (fun j => (length l - Z.to_nat j)%nat).
  2:{ exists 0%nat. csplit. }
  intros j m' (n & Hn & -> & ->). destruct (Z.ltb_spec (Z.of_nat n) (Z.of_nat (length l))).
  - wp_pure. rewrite !Z.add_assoc. destruct (lookup_lt_is_Some_2 l n ltac:(lia)) as [b E].
    pose proof (Forall_lookup_1 _ _ _ _ Hb E) as Hbi. eapply wp_load8.
    { rewrite CString.forward_read with (n := Z.of_nat (length l)) by (done || lia). by apply Hs. }
    wp_pure. apply wp_store8; [apply (writable_write_list m _ _ _ (length l)); [done|lia]|].
    rewrite u8_small, (CString.write_take_S m _ l n b E) by (apply Hbi).
    wp_pure; csplit. exists (S n). csplit.
  - wp_pure. rewrite take_ge by lia. done.
Qed.

Lemma write_chunk_eq m pb i l :
  Forall byte_ok l -> writable m (pb + i) (length l) ->
  write_chunk pb i (Z.of_nat (length l)) l m = Some (tt, write_list (pb + i) l m).
Proof.
  intros Hb Hd. apply wp_eq. unfold write_chunk.
  wp_while (fun j m' => exists n, (n <= length l)%nat /\ j = Z.of_nat n
              /\ m' = write_list (pb + i) (take n l) m)
           (fun j => (length l - Z.to_nat j)%nat).
  2:{ exists 0%nat. csplit. }
  intros j m' (n & Hn & -> & ->). destruct (Z.ltb_spec (Z.of_nat n) (Z.of_nat (length l))).
  - destruct (lookup_lt_is_Some_2 l n ltac:(lia)) as [b E].
    pose proof (Forall_lookup_1 _ _ _ _ Hb E) as Hbi.
    wp_pure. rewrite Z.add_assoc, Nat2Z.id, (nth_lookup_Some _ _ 0 b) by done.
    apply wp_store8; [apply (writable_write_list m _ _ _ (length l)); [done|lia]|].
    rewrite u8_small, (CString.write_take_S m _ l n b E) by (apply Hbi).
    wp_pure; csplit. exists (S n). csplit.
  - wp_pure. rewrite take_ge by lia. done.
Qed.

(** Two elements are the same one or apart. *)
Definition apart (pa pb size : Z) : Prop := pa = pb \/ pa + size <= pb \/ pb + size <= pa.

Lemma bytes_at_eq m p x y :
  bytes_at m p x -> bytes_at m p y -> length x = length y -> x = y.
Proof.
  intros Hx Hy E. apply (list_eq_same_length _ _ (length x)); [done..|].
  intros i a b Hi Ha Hb. specialize (Hx _ _ Ha). specialize (Hy _ _ Hb). congruence.
Qed.

(** The memory after the first [n] bytes have been exchanged. *)
Definition swapped (pa pb : Z) (x y : list Z) (n : nat) (m : mem) : mem :=
  write_list pb (take n x) (write_list pa (take n y) m).

Lemma lookup_swapped m pa pb x y n q :
  bytes_at m pa x -> bytes_at m pb y -> length x = length y ->
  apart pa pb (Z.of_nat (length x)) ->
  swapped pa pb x y n m !! q =
    if bool_decide (pb <= q < pb + Z.of_nat (n `min` length x)) then x !! Z.to_nat (q - pb)
    else if bool_decide (pa <= q < pa + Z.of_nat (n `min` length x)) then y !! Z.to_nat (q - pa)
    else m !! q.
Proof.
  intros Hx Hy E Ha. unfold swapped. rewrite !lookup_write_list, !length_take, <- E.
  repeat case_bool_decide; try done; rewrite lookup_take_lt by lia; done.
Qed.

Lemma chunk_read m pa pb x y n c :
  bytes_at m pa x -> bytes_at m pb y -> length x = length y ->
  apart pa pb (Z.of_nat (length x)) ->
  bytes_at (swapped pa pb x y n m) (pa + Z.of_nat n) (take c (drop n x)) /\
  bytes_at (swapped pa pb x y n m) (pb + Z.of_nat n) (take c (drop n y)).
Proof.
  intros Hx Hy E Ha. assert (Hsame : pa = pb -> x = y) by (intros ->; by eapply bytes_at_eq).
  split; intros i b Hi; apply lookup_take_Some in Hi as [Hi _]; rewrite lookup_drop in Hi;
    pose proof (lookup_lt_Some _ _ _ Hi); rewrite lookup_swapped by done;
    rewrite !bool_decide_eq_false_2 by (unfold apart in Ha; lia);
    rewrite <- Z.add_assoc, <- Nat2Z.inj_add; auto.
Qed.

Lemma swapped_chunk m pa pb x y n c :
  bytes_at m pa x -> bytes_at m pb y -> length x = length y ->
  apart pa pb (Z.of_nat (length x)) ->
  write_list (pb + Z.of_nat n) (take c (drop n x))
    (write_list (pa + Z.of_nat n) (take c (drop n y)) (swapped pa pb x y n m))
  = swapped pa pb x y (n + c) m.
Proof.
  intros Hx Hy E Ha. assert (Hsame : pa = pb -> x = y) by (intros ->; by eapply bytes_at_eq).
  apply map_eq. intros q. rewrite !lookup_write_list, !lookup_swapped, !length_take, !length_drop by done.
  unfold apart in Ha. repeat case_bool_decide; try lia; try done;
    rewrite ?lookup_take_lt, ?lookup_drop by lia; try (rewrite Hsame by lia); f_equal; lia.
Qed.

Lemma _qsort_swap_eq m pa pb x y size :
  bytes_at m pa x -> bytes_at m pb y -> Forall byte_ok x -> Forall byte_ok y ->
  Z.of_nat (length x) = size -> Z.of_nat (length y) = size ->
  apart pa pb size -> size + 64 < 2 ^ 32 ->
  _qsort_swap pa pb size m = Some (tt, write_list pb x (write_list pa y m)).
Proof.
  intros Hx Hy Hbx Hby <- Ey Ha Hs. apply Nat2Z.inj in Ey. unfold _qsort_swap. apply wp_eq.
  wp_while (fun i m' => exists n, i = Z.of_nat n /\ m' = swapped pa pb x y n m)
           (fun i => (length x - Z.to_nat i)%nat).
  2:{ exists 0%nat. csplit. }
  intros i m' (n & -> & ->). destruct (Z.ltb_spec (Z.of_nat n) (Z.of_nat (length x))); wp_pure.
  2:{ unfold swapped. rewrite !take_ge by lia. done. }
  rewrite !u32_small by lia. set (c := (if (_ : bool) then 64 else (_ : Z))).
  set (k := (64 `min` (length x - n))%nat).
  assert (Ec : c = Z.of_nat k) by (unfold c, k; rewrite Z.gtb_ltb; zcases; lia).
  destruct (chunk_read m pa pb x y n k) as [Hxk Hyk]; [done..|].
  set (xk := take k (drop n x)) in *. set (yk := take k (drop n y)) in *.
  assert (Hlx : length xk = k) by (unfold xk; rewrite length_take, length_drop; lia).
  assert (Hly : length yk = k) by (unfold yk; rewrite length_take, length_drop; lia).
  assert (Forall byte_ok xk /\ Forall byte_ok yk) as [? ?] by (split; by apply Forall_take, Forall_drop).
  rewrite Ec. rewrite <- Hlx at 1. eapply wp_run; [by apply read_chunk_eq|]. wp_pure.
  rewrite <- Hly at 1. eapply wp_run.
  { apply copy_chunk_eq; try done.
    - rewrite Hly, <- Hlx. by apply bytes_at_writable.
    - unfold CString.forward_ok, apart in *. lia. }
  wp_pure. rewrite <- Hlx at 1. eapply wp_run.
  { apply write_chunk_eq; [done|]. apply writable_write_list. rewrite Hlx, <- Hly.
    by apply bytes_at_writable. }
  wp_pure. csplit. exists (n + 64)%nat. csplit. unfold xk, yk.
  rewrite swapped_chunk by done. unfold swapped.
  destruct (decide (n + 64 <= length x)%nat).
  - replace (n + k)%nat with (n + 64)%nat by lia. done.
  - rewrite !(take_ge _ (n + k)), !(take_ge _ (n + 64)) by lia. done.
Qed.

(** ** Arrays of elements *)

(** [xs] are elements of [size] bytes. *)
Definition elems (size : Z) (xs : list (list Z)) : Prop :=
  Forall (fun x => Z.of_nat (length x) = size /\ Forall byte_ok x) xs.

Lemma concat_size size xs :
  elems size xs -> Z.of_nat (length (concat xs)) = Z.of_nat (length xs) * size.
Proof.
  induction 1 as [|x xs [Hx _] _ IH]; [done|]. simpl. rewrite length_app. lia.
Qed.

(** Overwriting part of a written region. *)
Lemma write_list_middle m p a l l' b :
  length l = length l' ->
  write_list (p + Z.of_nat (length a)) l' (write_list p (a ++ l ++ b) m)
  = write_list p (a ++ l' ++ b) m.
Proof.
  intros E. apply map_eq. intros q. rewrite !lookup_write_list, !length_app, E.
  repeat case_bool_decide; try lia; try done.
  - rewrite lookup_app_r, lookup_app_l by lia. f_equal. lia.
  - destruct (decide (Z.to_nat (q - p) < length a)%nat).
    + rewrite !lookup_app_l by lia. done.
    + rewrite !(lookup_app_r a), !lookup_app_r by lia. by rewrite E.
Qed.

Lemma write_list_id m p l : bytes_at m p l -> write_list p l m = m.
Proof.
  intros H. apply map_eq. intros q. rewrite lookup_write_list. case_bool_decide; [|done].
  destruct (lookup_lt_is_Some_2 l (Z.to_nat (q - p))) as [b Hb]; [lia|].
  rewrite Hb. specialize (H _ _ Hb). by replace (p + Z.of_nat (Z.to_nat (q - p))) with q in H by lia.
Qed.

Section Arrays.
Context (size base : Z) (m : mem).
Implicit Types xs : list (list Z).

(** The memory holding the array [xs] at [base]. *)
Definition array xs : mem := write_list base (concat xs) m.

Lemma array_split xs i x :
  elems size xs -> xs !! i = Some x ->
  exists l r, xs = l ++ x :: r /\ length l = i /\ elems size l /\
    Z.of_nat (length (concat l)) = Z.of_nat i * size.
Proof.
  intros He Hi. apply list_elem_of_split_length in Hi as (l & r & -> & ->).
  exists l, r. apply Forall_app in He as [Hl _]. csplit. by apply concat_size.
Qed.

Lemma array_read xs i x :
  elems size xs -> xs !! i = Some x -> bytes_at (array xs) (base + Z.of_nat i * size) x.
Proof.
  intros He Hi. destruct (array_split xs i x He Hi) as (l & r & -> & <- & Hl & <-).
  pose proof (bytes_at_write_list m base (concat (l ++ x :: r))) as H.
  rewrite concat_app in H at 2. apply bytes_at_app in H as [_ H]. simpl in H.
  by apply bytes_at_app in H as [H _].
Qed.

Lemma array_write xs i x y :
  elems size xs -> xs !! i = Some x -> length y = length x ->
  write_list (base + Z.of_nat i * size) y (array xs) = array (<[i := y]> xs).
Proof.
  intros He Hi Hy. destruct (array_split xs i x He Hi) as (l & r & -> & <- & Hl & <-).
  unfold array. rewrite insert_app_r_alt, Nat.sub_diag by lia. simpl.
  rewrite !concat_app. simpl. by rewrite write_list_middle.
Qed.

Lemma elem_of_elems xs i x : elems size xs -> xs !! i = Some x ->
  Z.of_nat (length x) = size /\ Forall byte_ok x.
Proof. intros He Hi. exact (Forall_lookup_in _ _ _ _ He Hi). Qed.

Lemma elt_eq xs i :
  Z.of_nat (length xs) * size + 64 < 2 ^ 32 -> 0 <= size -> (i <= length xs)%nat ->
  elt size base (Z.of_nat i) = base + Z.of_nat i * size.
Proof. intros Hs Hz Hi. unfold elt. rewrite u32_small; nia. Qed.

(** Exchanging two elements of the array. *)
Lemma array_swap xs i j x y :
  elems size xs -> Z.of_nat (length xs) * size + 64 < 2 ^ 32 ->
  xs !! i = Some x -> xs !! j = Some y ->
  _qsort_swap (elt size base (Z.of_nat i)) (elt size base (Z.of_nat j)) size (array xs)
  = Some (tt, array (<[j := x]> (<[i := y]> xs))).
Proof.
  intros He Hs Hi Hj. pose proof (lookup_lt_Some _ _ _ Hi). pose proof (lookup_lt_Some _ _ _ Hj).
  destruct (elem_of_elems _ _ _ He Hi) as [Ex Hbx]. destruct (elem_of_elems _ _ _ He Hj) as [Ey Hby].
  rewrite !(elt_eq xs) by lia.
  rewrite (_qsort_swap_eq (array xs) _ _ x y size); try done; try (by apply array_read); try nia.
  - rewrite (array_write xs i x y) by (done || lia).
    assert (exists y', <[i := y]> xs !! j = Some y' /\ length y' = length x) as (y' & Hy' & El).
    { destruct (decide (i = j)) as [->|]; [rewrite list_lookup_insert_eq by lia|
        rewrite list_lookup_insert_ne by done]; eexists; split; try done; lia. }
    rewrite (array_write _ j y' x); [done| |done|done]. apply Forall_insert; done.
  - unfold apart. destruct (decide (i = j)) as [->|]; [by left|right].
    destruct (decide (i < j)%nat); [left|right]; nia.
Qed.
End Arrays.

Section Correctness.
Context {Arg : Type} (compar : Z -> Z -> Arg -> M Z) (arg : Arg) (size : Z)
        (cmp : list Z -> list Z -> Z).
Context `{HC : !Comparator size (fun a b => compar a b arg) cmp}.
Implicit Types xs zs : list (list Z).

(** The order the result is sorted in. *)
Definition cmp_le (x y : list Z) : Prop := cmp x y <= 0.

Lemma compare_elts base m xs i j x y :
  elems size xs -> Z.of_nat (length xs) * size + 64 < 2 ^ 32 ->
  xs !! i = Some x -> xs !! j = Some y ->
  compar (elt size base (Z.of_nat i)) (elt size base (Z.of_nat j)) arg (array base m xs)
  = Some (cmp x y, array base m xs).
Proof.
  intros He Hs Hi Hj. pose proof (lookup_lt_Some _ _ _ Hi). pose proof (lookup_lt_Some _ _ _ Hj).
  destruct (elem_of_elems _ _ _ _ He Hi) as [Ex _]. destruct (elem_of_elems _ _ _ _ He Hj) as [Ey _].
  rewrite !(elt_eq size base xs) by lia.
  apply (compar_runs (compar := fun a b => compar a b arg)); try done; by apply array_read.
Qed.

Lemma elems_perm xs zs : zs ≡ₚ xs -> elems size xs -> elems size zs.
Proof. unfold elems. by intros ->. Qed.

(** What the partition loop has established after [i] elements. *)
Definition parted (p : list Z) (last i pv : nat) zs : Prop :=
  (pv <= i <= last)%nat /\ zs !! last = Some p
  /\ (forall k z, (k < pv)%nat -> zs !! k = Some z -> cmp z p < 0)
  /\ (forall k z, (pv <= k < i)%nat -> zs !! k = Some z -> 0 <= cmp z p).

Lemma parted_swap p last i pv zs x y :
  parted p last i pv zs -> (i < last)%nat -> zs !! i = Some x -> zs !! pv = Some y ->
  cmp x p < 0 -> parted p last (S i) (S pv) (<[pv := x]> (<[i := y]> zs)).
Proof.
  intros (Hpi & Hl & Hlo & Hhi) Hi Hx Hy Hc.
  pose proof (lookup_lt_Some _ _ _ Hx). pose proof (lookup_lt_Some _ _ _ Hl).
  split; [lia|]. split; [by rewrite !list_lookup_insert_ne by lia|]. split; intros k z Hk Hz.
  - destruct (decide (k = pv)) as [->|].
    + rewrite list_lookup_insert_eq in Hz by (rewrite length_insert; lia). by simplify_eq.
    + rewrite !list_lookup_insert_ne in Hz by lia. apply (Hlo k); [lia|done].
  - rewrite list_lookup_insert_ne in Hz by lia. destruct (decide (k = i)) as [->|].
    + rewrite list_lookup_insert_eq in Hz by lia. simplify_eq. apply (Hhi pv); [lia|done].
    + rewrite list_lookup_insert_ne in Hz by lia. apply (Hhi k); [lia|done].
Qed.

Lemma partition_spec base m xs last p :
  elems size xs -> Z.of_nat (length xs) * size + 64 < 2 ^ 32 -> xs !! last = Some p ->
  exists zs pv, partition compar arg size base (Z.of_nat last) (array base m xs)
      = Some (Z.of_nat pv, array base m zs)
    /\ zs ≡ₚ xs /\ parted p last last pv zs.
Proof.
  intros He Hs Hp. pose proof (lookup_lt_Some _ _ _ Hp) as Hlast.
  assert (H : wp (partition compar arg size base (Z.of_nat last)) (array base m xs)
    (fun r m' => exists zs pv, r = Z.of_nat pv /\ m' = array base m zs
       /\ zs ≡ₚ xs /\ parted p last last pv zs)).
  { unfold partition.
    wp_while (fun st m' => exists zs i pv, st = (Z.of_nat i, Z.of_nat pv) /\ m' = array base m zs
                /\ zs ≡ₚ xs /\ parted p last i pv zs)
             (fun st : Z * Z => (last - Z.to_nat st.1)%nat).
    2:{ exists xs, 0%nat, 0%nat. csplit. unfold parted. csplit; intros; lia. }
    intros st m' (zs & i & pv & -> & -> & Hperm & Hpart).
    pose proof Hpart as (Hpi & Hl & Hlo & Hhi). pose proof (Permutation_length Hperm) as Hlen.
    pose proof (elems_perm _ _ Hperm He) as Hez. rewrite <- Hlen in Hs.
    destruct (Z.ltb_spec (Z.of_nat i) (Z.of_nat last)); wp_pure.
    - destruct (lookup_lt_is_Some_2 zs i ltac:(lia)) as [x Hx].
      destruct (lookup_lt_is_Some_2 zs pv ltac:(lia)) as [y Hy].
      eapply wp_run; [by apply (compare_elts base m zs i last x p)|].
      destruct (Z.ltb_spec (cmp x p) 0); wp_pure.
      + eapply wp_run; [by apply (array_swap size base m zs i pv x y)|]. wp_pure. csplit.
        exists (<[pv := x]> (<[i := y]> zs)), (S i), (S pv). csplit; [state_eq| |].
        * by rewrite (Permutation_insert_swap zs i pv x y).
        * by apply (parted_swap p last i pv zs x y); [|lia|..].
      + csplit. exists zs, (S i), pv. csplit; [state_eq|].
        split; [lia|]. csplit. intros k z Hk Hz. destruct (decide (k = i)) as [->|].
        * by simplify_eq.
        * apply (Hhi k); [lia|done].
    - exists zs, pv. csplit. assert (i = last) by lia. by subst i. }
  apply wp_total in H as (r & m' & E & zs & pv & -> & -> & Hz). eauto.
Qed.

(** The pivot moved to its place splits the array in two. *)
Lemma pivot_split p last pv zs y :
  parted p last last pv zs -> length zs = S last -> zs !! pv = Some y ->
  exists l r, <[last := y]> (<[pv := p]> zs) = l ++ p :: r /\ length l = pv
    /\ Forall (fun z => cmp z p < 0) l /\ Forall (fun z => 0 <= cmp z p) r.
Proof.
  intros (Hpi & Hl & Hlo & Hhi) Hlen Hy. set (ws := <[last := y]> (<[pv := p]> zs)).
  assert (Hpv : ws !! pv = Some p).
  { unfold ws. destruct (decide (pv = last)) as [->|].
    - rewrite list_lookup_insert_eq by (rewrite length_insert; lia). congruence.
    - rewrite list_lookup_insert_ne, list_lookup_insert_eq by lia. done. }
  assert (Hother : forall k z, k <> pv -> ws !! k = Some z -> 
            exists j, zs !! j = Some z /\ ((k < pv)%nat -> j = k) /\ ((pv < k)%nat -> (pv <= j < last)%nat)).
  { intros k z Hk Hz. unfold ws in Hz. pose proof (lookup_lt_Some _ _ _ Hz) as Hb.
    rewrite !length_insert in Hb. destruct (decide (k = last)) as [->|].
    - rewrite list_lookup_insert_eq in Hz by (rewrite length_insert; lia). simplify_eq.
      exists pv. csplit.
    - rewrite !list_lookup_insert_ne in Hz by lia. exists k. csplit. }
  apply list_elem_of_split_length in Hpv as (l & r & Ews & Epv). exists l, r. split; [done|].
  split; [done|]. rewrite Ews in Hother. split; apply Forall_lookup; intros k z Hz.
  - pose proof (lookup_lt_Some _ _ _ Hz). destruct (Hother k z) as (j & Hj & Hlt & _); [lia| |].
    + by apply lookup_app_l_Some.
    + apply (Hlo j); [|done]. rewrite Hlt; lia.
  - destruct (Hother (length l + S k)%nat z) as (j & Hj & _ & Hgt); [lia| |].
    + rewrite lookup_app_r by lia. by replace (length l + S k - length l)%nat with (S k) by lia.
    + apply (Hhi j); [|done]. lia.
Qed.

Lemma sub_array base m l k k' r :
  elems size l -> length (concat k') = length (concat k) ->
  array (base + Z.of_nat (length l) * size) (array base m (l ++ k ++ r)) k'
  = array base m (l ++ k' ++ r).
Proof.
  intros Hl Ek. unfold array. rewrite <- (concat_size size l Hl).
  rewrite !concat_app. by rewrite write_list_middle.
Qed.

(** Sorting a slice of an array, given that the recursive call sorts. *)
Lemma sort_slice depth base m l k r :
  (forall base m xs, elems size xs -> Z.of_nat (length xs) * size + 64 < 2 ^ 32 ->
     (length xs < depth)%nat ->
     exists ys, _qsort_r compar arg size depth base (Z.of_nat (length xs)) (array base m xs)
         = Some (tt, array base m ys) /\ ys ≡ₚ xs /\ StronglySorted cmp_le ys) ->
  elems size (l ++ k ++ r) -> Z.of_nat (length (l ++ k ++ r)) * size + 64 < 2 ^ 32 -> 0 <= size ->
  (length k < depth)%nat ->
  exists k', _qsort_r compar arg size depth (base + Z.of_nat (length l) * size)
      (Z.of_nat (length k)) (array base m (l ++ k ++ r)) = Some (tt, array base m (l ++ k' ++ r))
    /\ k' ≡ₚ k /\ StronglySorted cmp_le k'.
Proof.
  intros IH He Hs Hsz Hd. pose proof He as [Hl [Hk _]%Forall_app]%Forall_app.
  rewrite !length_app in Hs.
  destruct (IH (base + Z.of_nat (length l) * size) (array base m (l ++ k ++ r)) k)
    as (k' & E & Hp & Hso); [done|nia|done|].
  rewrite sub_array in E by done.
  exists k'. rewrite E, sub_array; [done|done|].
  pose proof (concat_size _ _ Hk). pose proof (concat_size _ _ (elems_perm _ _ Hp Hk)).
  rewrite (Permutation_length Hp) in *. lia.
Qed.

(** Putting sorted halves around the pivot. *)
Lemma sorted_join l p r :
  StronglySorted cmp_le l -> StronglySorted cmp_le r ->
  Forall (fun z => cmp z p < 0) l -> Forall (fun z => 0 <= cmp z p) r ->
  StronglySorted cmp_le (l ++ p :: r).
Proof.
  intros Hl Hr Hlp Hrp. rewrite Forall_forall in Hlp, Hrp.
  assert (Hpr : forall z, z ∈ r -> cmp_le p z).
  { intros z Hz. specialize (Hrp z Hz). unfold cmp_le.
    destruct (Z_lt_le_dec 0 (cmp p z)) as [H|]; [|lia]. apply cmp_flip in H. lia. }
  apply StronglySorted_app. split; [|split; [done|]].
  - intros x y Hx [->|Hy]%elem_of_cons; specialize (Hlp x Hx).
    + unfold cmp_le. lia.
    + unfold cmp_le. eapply cmp_trans; [|by apply Hpr]. lia.
  - constructor; [done|]. apply Forall_forall. intros z Hz. by apply Hpr.
Qed.

Lemma _qsort_r_spec depth : forall base m xs,
  elems size xs -> Z.of_nat (length xs) * size + 64 < 2 ^ 32 -> (length xs < depth)%nat ->
  exists ys, _qsort_r compar arg size depth base (Z.of_nat (length xs)) (array base m xs)
      = Some (tt, array base m ys)
    /\ ys ≡ₚ xs /\ StronglySorted cmp_le ys.
Proof.
  induction depth as [|depth IH]; intros base m xs He Hs Hd; [lia|]. simpl.
  destruct (Z.leb_spec (Z.of_nat (length xs)) 1) as [H1|H1].
  { exists xs. csplit. destruct xs as [|x [|y xs]]; [constructor|by repeat constructor|simpl in H1; lia]. }
  set (last := (length xs - 1)%nat). replace (Z.of_nat (length xs) - 1) with (Z.of_nat last) by lia.
  destruct (lookup_lt_is_Some_2 xs last ltac:(lia)) as [p Hp].
  assert (Hsz : 0 <= size) by (destruct (elem_of_elems _ _ _ _ He Hp); lia).
  destruct (partition_spec base m xs last p He Hs Hp) as (zs & pv & E & Hperm & Hpart).
  rewrite (bind_run _ _ _ _ _ E).
  pose proof (Permutation_length Hperm) as Hlen. pose proof Hpart as (Hpv & Hl & _).
  destruct (lookup_lt_is_Some_2 zs pv ltac:(lia)) as [y Hy].
  rewrite (bind_run _ _ _ _ _ (array_swap size base m zs pv last y p
    (elems_perm _ _ Hperm He) ltac:(rewrite Hlen; lia) Hy Hl)).
  destruct (pivot_split p last pv zs y Hpart ltac:(lia) Hy) as (l & r & Ez & Epv & Hlp & Hrp).
  pose proof (Permutation_insert_swap zs pv last y p Hy Hl) as Hsw. rewrite Ez in *.
  assert (Hall : l ++ p :: r ≡ₚ xs) by (by rewrite Hsw). clear E Hsw Ez.
  pose proof (Permutation_length Hall) as Hlen2. rewrite length_app in Hlen2. simpl in Hlen2.
  assert (Hleft : exists l', (if Z.of_nat pv >? 1
      then _qsort_r compar arg size depth base (Z.of_nat pv) else ret tt)
      (array base m (l ++ p :: r)) = Some (tt, array base m (l' ++ p :: r))
      /\ l' ≡ₚ l /\ StronglySorted cmp_le l').
  { rewrite Z.gtb_ltb. destruct (Z.ltb_spec 1 (Z.of_nat pv)).
    - destruct (sort_slice depth base m [] l (p :: r)) as (l' & E & Hl'); try done.
      + by apply (elems_perm _ _ Hall).
      + simpl. rewrite length_app. simpl. rewrite Hlen2. lia.
      + lia.
      + simpl in E. rewrite Z.add_0_r, Epv in E. eauto.
    - exists l. csplit. destruct l as [|a [|b l]]; [constructor|by repeat constructor|simpl in *; lia]. }
  destruct Hleft as (l' & El & Hpl & Hsl). rewrite (bind_run _ _ _ _ _ El).
  assert (Hall' : l' ++ [p] ++ r ≡ₚ xs) by (by rewrite Hpl).
  pose proof (Permutation_length Hpl) as Hll.
  assert (Hlp' : Forall (fun z => cmp z p < 0) l') by (by rewrite Hpl).
  destruct (Z.ltb_spec (Z.of_nat pv) (Z.of_nat last)).
  - destruct (sort_slice depth base m (l' ++ [p]) r []) as (r' & E & Hr & Hsr); try done.
    + rewrite app_nil_r, <- app_assoc. by apply (elems_perm _ _ Hall').
    + rewrite app_nil_r, <- app_assoc. by rewrite (Permutation_length Hall').
    + lia.
    + rewrite !app_nil_r, <- !app_assoc in E. simpl in E.
      replace (Z.of_nat pv + 1) with (Z.of_nat (S pv)) by lia.
      rewrite (elt_eq size base xs (S pv)) by lia.
      rewrite length_app, Hll in E. simpl in E.
      replace (Z.of_nat (length l + 1)) with (Z.of_nat (S pv)) in E by lia.
      replace (Z.of_nat (length xs) - Z.of_nat pv - 1) with (Z.of_nat (length r)) by lia.
      rewrite E. exists (l' ++ p :: r'). csplit.
      * by rewrite Hr, <- Hall'.
      * apply sorted_join; try done. by rewrite Hr.
  - assert (r = []) as -> by (destruct r; [done|simpl in *; lia]).
    exists (l' ++ [p]). csplit. apply sorted_join; try done. constructor.
Qed.

End Correctness.

(** ** Properties *)

Section Properties.
Context (size : Z) (compar : Z -> Z -> M Z) (cmp : list Z -> list Z -> Z).
Context `{HC : !Comparator size compar cmp}.

(** C17: [qsort] terminates and leaves a sorted permutation of the array's
    elements in its place, for every comparator that is a total preorder on
    element contents; no other byte of memory changes.  The elements are moved
    in one piece whatever their size, through the 64-byte buffer. *)
Theorem qsort_sorts m base xs :
  elems size xs -> Z.of_nat (length xs) * size + 64 < 2 ^ 32 ->
  bytes_at m base (concat xs) ->
  exists ys, qsort base (Z.of_nat (length xs)) size compar m
      = Some (tt, write_list base (concat ys) m)
    /\ length (concat ys) = length (concat xs)
    /\ ys ≡ₚ xs /\ StronglySorted (cmp_le cmp) ys.
Proof.
  intros He Hs Hb. unfold qsort.
  destruct (_qsort_r_spec _qsort_ctx compar size cmp
    (S (Z.to_nat (Z.of_nat (length xs)))) base m xs He Hs ltac:(lia)) as (ys & E & Hp & Hso).
  exists ys. unfold array in E. rewrite (write_list_id m base (concat xs) Hb) in E. csplit.
  pose proof (concat_size _ _ He). pose proof (concat_size _ _ (elems_perm _ _ _ Hp He)).
  rewrite (Permutation_length Hp) in *. lia.
Qed.

(** On a sorted array the comparisons with a key go from positive through zero
    to negative. *)
Lemma sorted_sides k xs i j x y :
  StronglySorted (cmp_le cmp) xs -> (i <= j)%nat -> xs !! i = Some x -> xs !! j = Some y ->
  (cmp k x < 0 -> cmp k y < 0) /\ (0 < cmp k y -> 0 < cmp k x).
Proof.
  intros Hso Hij Hx Hy.
  destruct (decide (i = j)) as [->|]; [by simplify_eq|].
  assert (Hle : cmp x y <= 0).
  { apply list_elem_of_split_length in Hx as (l & r & -> & ->).
    apply StronglySorted_app in Hso as (_ & _ & Hso). inversion Hso as [|? ? _ Hall]; subst.
    rewrite lookup_app_r in Hy by lia. replace (j - length l)%nat with (S (j - length l - 1)) in Hy by lia.
    simpl in Hy. exact (Forall_lookup_in _ _ _ _ Hall Hy). }
  split; intros H.
  - destruct (Z_lt_le_dec (cmp k y) 0) as [|H']; [done|].
    assert (cmp y k <= 0) by (destruct (Z_lt_le_dec 0 (cmp y k)) as [H2|]; [apply cmp_flip in H2|]; lia).
    assert (cmp x k <= 0) by (by eapply cmp_trans). apply cmp_flip in H. lia.
  - destruct (Z_lt_le_dec 0 (cmp k x)) as [|H']; [done|].
    assert (cmp k y <= 0) by (by eapply cmp_trans). lia.
Qed.

(** [bsearch] on a sorted array terminates, changes nothing, and returns the
    address of an element that compares equal to the key when there is one, and
    NULL otherwise. *)
Theorem bsearch_finds m key k base xs :
  elems size xs -> Z.of_nat (length xs) * size + 64 < 2 ^ 32 ->
  bytes_at m base (concat xs) -> bytes_at m key k -> Z.of_nat (length k) = size ->
  StronglySorted (cmp_le cmp) xs ->
  exists r, bsearch key base (Z.of_nat (length xs)) size compar m = Some (r, m)
    /\ ((exists i x, xs !! i = Some x /\ cmp k x = 0 /\ r = base + Z.of_nat i * size)
        \/ (r = 0 /\ forall x, x ∈ xs -> cmp k x <> 0)).
Proof.
  intros He Hs Hb Hk Ek Hso.
  assert (Hm : array base m xs = m) by (by apply write_list_id).
  assert (H : wp (bsearch key base (Z.of_nat (length xs)) size compar) m (fun r m' => m' = m /\
    ((exists i x, xs !! i = Some x /\ cmp k x = 0 /\ r = base + Z.of_nat i * size)
        \/ (r = 0 /\ forall x, x ∈ xs -> cmp k x <> 0)))).
  { unfold bsearch.
    wp_while (fun st m' => exists lo hi, st = (Z.of_nat lo, Z.of_nat hi) /\ m' = m
                /\ (lo <= hi <= length xs)%nat
                /\ (forall i x, (i < lo)%nat -> xs !! i = Some x -> 0 < cmp k x)
                /\ (forall i x, (hi <= i)%nat -> xs !! i = Some x -> cmp k x < 0))
             (fun st : Z * Z => Z.to_nat (st.2 - st.1)).
    2:{ exists 0%nat, (length xs). csplit. intros i x Hi Hx.
        pose proof (lookup_lt_Some _ _ _ Hx). lia. }
    intros st m' (lo & hi & -> & -> & Hlh & Hlo & Hhi).
    destruct (Z.ltb_spec (Z.of_nat lo) (Z.of_nat hi)); wp_pure.
    - set (mid := (lo + (hi - lo) / 2)%nat).
      assert (Emid : Z.of_nat lo + (Z.of_nat hi - Z.of_nat lo) / 2 = Z.of_nat mid).
      { unfold mid. rewrite Nat2Z.inj_add, Nat2Z.inj_div, Nat2Z.inj_sub by lia. done. }
      rewrite Emid. assert (lo <= mid < hi)%nat.
      { pose proof (Nat.div_lt (hi - lo) 2). unfold mid. lia. }
      destruct (lookup_lt_is_Some_2 xs mid ltac:(lia)) as [x Hx].
      destruct (elem_of_elems _ _ _ _ He Hx) as [Ex _].
      rewrite !(elt_eq size base xs) by lia.
      eapply wp_run.
      { apply (compar_runs m key _ k x); try done. rewrite <- Hm. by apply array_read. }
      destruct (Z.eqb_spec (cmp k x) 0); wp_pure.
      { csplit. left. eauto. }
      destruct (Z.ltb_spec (cmp k x) 0); wp_pure; csplit.
      + exists lo, mid. csplit. intros i y Hi Hy.
        by apply (sorted_sides k xs mid i x y Hso Hi Hx Hy).
      + exists (S mid), hi. csplit; [state_eq|]. intros i y Hi Hy.
        apply (sorted_sides k xs i mid y x Hso ltac:(lia) Hy Hx). lia.
    - csplit. right. csplit. intros x (i & Hi)%list_elem_of_lookup.
      destruct (decide (i < lo)%nat); [specialize (Hlo i x ltac:(lia) Hi); lia|].
      specialize (Hhi i x ltac:(lia) Hi). lia. }
  apply wp_total in H as (r & m' & E & -> & H). eauto.
Qed.
End Properties.

(** A comparator of the kind programs pass: the first byte, unsigned. *)
Definition compare_bytes (a b : Z) : M Z :=
  let* x := load8 a in let* y := load8 b in ret (x - y).

#[export] Instance compare_bytes_ok size :
  TCEq (0 <? size) true -> Comparator size compare_bytes (fun x y => nth 0 x 0 - nth 0 y 0).
Proof.
  intros Hsz. apply TCEq_eq, Z.ltb_lt in Hsz. split; [|lia..].
  intros m a b [|x xs] [|y ys] Hx Hy Lx Ly; simpl in *; try lia.
  apply bytes_at_cons in Hx as [Hx _], Hy as [Hy _].
  unfold compare_bytes, bind, load8. by rewrite Hx, Hy.
Qed.

Definition three : mem := write_list 100 [9; 1; 3; 2; 7; 3] (write_list 50 [7; 0] ∅).

Lemma qsort_sorts_witness :
  bytes_at three 100 (concat [[9; 1]; [3; 2]; [7; 3]]) /\
  exists ys, qsort 100 3 2 compare_bytes three = Some (tt, write_list 100 (concat ys) three)
    /\ length (concat ys) = 6%nat /\ ys ≡ₚ [[9; 1]; [3; 2]; [7; 3]]
    /\ StronglySorted (cmp_le (fun x y => nth 0 x 0 - nth 0 y 0)) ys.
Proof.
  split; [solve_bytes|].
  apply (qsort_sorts 2 compare_bytes _ three 100 [[9; 1]; [3; 2]; [7; 3]]); [|simpl; lia|solve_bytes].
  unfold elems, byte_ok. repeat constructor; simpl; lia.
Defined.

Definition three_sorted : mem := write_list 100 [3; 2; 7; 3; 9; 1] (write_list 50 [7; 0] ∅).

Lemma bsearch_finds_witness :
  bytes_at three_sorted 100 (concat [[3; 2]; [7; 3]; [9; 1]]) /\
  exists r, bsearch 50 100 3 2 compare_bytes three_sorted = Some (r, three_sorted)
    /\ ((exists i x, [[3; 2]; [7; 3]; [9; 1]] !! i = Some x /\ nth 0 [7; 0] 0 - nth 0 x 0 = 0
           /\ r = 100 + Z.of_nat i * 2)
        \/ (r = 0 /\ forall x, x ∈ [[3; 2]; [7; 3]; [9; 1]] -> nth 0 [7; 0] 0 - nth 0 x 0 <> 0)).
Proof.
  split; [solve_bytes|].
  apply (bsearch_finds 2 compare_bytes (fun x y => nth 0 x 0 - nth 0 y 0) three_sorted 50 [7; 0] 100
    [[3; 2]; [7; 3]; [9; 1]]); [|simpl; lia|solve_bytes|solve_bytes|done|].
  - unfold elems, byte_ok. repeat constructor; simpl; lia.
  - repeat constructor; unfold cmp_le; simpl; lia.
Defined.

End Qsort.
