(* ===== verification/Numeric.v ===== *)
(** * Numeric: numbers and small arithmetic of src/stdlib.c

    [strtoul], [strtol], [strtoull], [strtoll], [atol], [atoll], the [abs] and
    [div] families and the [rand] generator.  The conversions read a string
    through memory; the pointer they store through [endptr] is the second
    component of their result.  [fuel] bounds the loops: more than the length of the string is enough. *)

From Stdlib Require Import ZArith Lia Bool.
From stdpp Require Import base gmap list numbers.
From S2P Require Import Prelude Monad Memory CString.

Module Numeric.

Definition abs (x : Z) : Z := if x <? 0 then s32 (- x) else x.
Definition labs (x : Z) : Z := if x <? 0 then s32 (- x) else x.
Definition llabs (x : Z) : Z := if x <? 0 then s64 (- x) else x.

(** [div_t]: quotient and remainder; division by zero and [INT_MIN / -1] trap. *)
Definition div (numer denom : Z) : option (Z * Z) :=
  if (denom =? 0) || ((numer =? - 2 ^ 31) && (denom =? -1)) then None
  else Some (Z.quot numer denom, Z.rem numer denom).
Definition ldiv (numer denom : Z) : option (Z * Z) := div numer denom.

(** The state [_rand_state]. *)
Definition rand : St Z Z :=
  modify (fun st => u32 (st * 1103515245 + 12345)) ;;*
  let* st := gets id in
  ret (Z.land (Z.shiftr st 16) 0x7FFF).
Definition srand (seed : Z) : St Z unit := modify (fun _ => if seed =? 0 then 1 else seed).

(** The value of a digit character, in any base up to sixteen. *)
Definition digit_val (c : Z) : option Z :=
  if (c >=? 48) && (c <=? 57) then Some (c - 48)
  else if (c >=? 97) && (c <=? 102) then Some (c - 97 + 10)
  else if (c >=? 65) && (c <=? 70) then Some (c - 65 + 10)
  else None.

Section Parsing.
Context (fuel : nat).

(** [while (str[i] == ' ') i++;] *)
Definition skip_spaces (str : Z) : M Z :=
  loop fuel (fun i =>
    let* c := loadc (str + i) in
    if c =? 32 then continue (i + 1) else break i) 0.

Definition is_x (c : Z) : bool := (c =? 120) || (c =? 88).

(** Base detection for base 0. *)
Definition detect_base (str i base : Z) : M (Z * Z) :=
  if base =? 0 then
    let* c := loadc (str + i) in
    if c =? 48 then
      let* d := loadc (str + (i + 1)) in
      if is_x d then ret (16, i + 2) else ret (8, i)
    else ret (10, i)
  else ret (base, i).

(** [if (base == 16 && str[i] == '0' && (str[i+1] == 'x' || ...)) i += 2;] *)
Definition skip_0x (str i base : Z) : M Z :=
  if base =? 16 then
    let* c := loadc (str + i) in
    if c =? 48 then
      let* d := loadc (str + (i + 1)) in
      ret (if is_x d then i + 2 else i)
    else ret i
  else ret i.

(** The digit loop, on a [w]-bit unsigned accumulator. *)
Definition digits (w str i base : Z) : M (Z * Z) :=
  loop fuel (fun '(result, i) =>
    let* c := loadc (str + i) in
    if c =? 0 then break (result, i)
    else
      match digit_val c with
      | None => break (result, i)
      | Some d => if d >=? base then break (result, i)
                  else continue (wrapu w (result * base + d), i + 1)
      end) (0, i).

Definition strtoul (str base : Z) : M (Z * Z) :=
  let* i := skip_spaces str in
  let* (base, i) := detect_base str i base in
  let* i := skip_0x str i base in
  let* (result, i) := digits 32 str i base in
  ret (result, str + i).

(** The leading sign of [strtol] and [strtoll]. *)
Definition read_sign (str i : Z) : M (Z * Z) :=
  let* c := loadc (str + i) in
  if c =? 45 then ret (-1, i + 1)
  else if c =? 43 then ret (1, i + 1)
  else ret (1, i).

Definition strtol (str base : Z) : M (Z * Z) :=
  let* i := skip_spaces str in
  let* (sign, i) := read_sign str i in
  let* (v, e) := strtoul (str + i) base in
  ret (s32 (s32 v * sign), e).

Definition strtoull (str base : Z) : M (Z * Z) :=
  let* i := skip_spaces str in
  let* i := skip_0x str i base in
  let* (result, i) := digits 64 str i base in
  ret (result, str + i).

Definition strtoll (str base : Z) : M (Z * Z) :=
  let* i := skip_spaces str in
  let* (sign, i) := read_sign str i in
  let* (v, e) := strtoull (str + i) base in
  ret (s64 (s64 v * sign), e).

Definition atol (str : Z) : M Z := let* (v, _) := strtol str 10 in ret v.
Definition atoll (str : Z) : M Z := let* (v, _) := strtoll str 10 in ret v.
End Parsing.

(** ** Numerals *)

(** [b] is a digit of the base. *)
Definition digit_in (base b : Z) : Prop :=
  exists d, digit_val (s8 b) = Some d /\ 0 <= d < base.

(** The number the digits [ds] denote. *)
Definition num_val (base : Z) (ds : list Z) : Z :=
  fold_left (fun v b => v * base + default 0 (digit_val (s8 b))) ds 0.

(** The characters after a numeral do not continue it. *)
Definition ends_numeral (base : Z) (rest : list Z) : Prop :=
  match rest with [] => True | b :: _ => ~ digit_in base b end.

Lemma num_val_snoc base ds b :
  num_val base (ds ++ [b]) = num_val base ds * base + default 0 (digit_val (s8 b)).
Proof. unfold num_val. by rewrite fold_left_app. Qed.

Lemma num_val_nonneg base ds : 0 <= base -> Forall (digit_in base) ds -> 0 <= num_val base ds.
Proof.
  intros Hb. induction ds as [|b ds IH] using rev_ind; [done|].
  rewrite num_val_snoc. intros [H1 H2]%Forall_app. apply Forall_cons_1 in H2 as [(d & -> & Hd) _].
  specialize (IH H1). simpl. nia.
Qed.

Lemma digit_val_range c d : digit_val c = Some d -> 0 <= d < 16 /\ c <> 0.
Proof. unfold digit_val. zcases; simpl; intros; simplify_eq; lia. Qed.

Lemma digits_eq fuel w m str l pfx ds rest base :
  cstr m str l -> l = pfx ++ ds ++ rest -> Forall (digit_in base) ds -> ends_numeral base rest ->
  0 < w -> (length ds < fuel)%nat ->
  digits fuel w str (Z.of_nat (length pfx)) base m
  = Some ((wrapu w (num_val base ds), Z.of_nat (length pfx + length ds)), m).
Proof.
  intros Hs -> Hd He Hw Hf. apply wp_eq. unfold digits.
  wp_while (fun st m' => m' = m /\ exists k, (k <= length ds)%nat
      /\ st = (wrapu w (num_val base (take k ds)), Z.of_nat (length pfx + k)))
    (fun st : Z * Z => (length pfx + length ds - Z.to_nat st.2)%nat).
  2:{ exists 0%nat. csplit. rewrite Nat.add_0_r. unfold num_val. simpl.
      rewrite wrapu_small; [done|]. pose proof (Z.pow_pos_nonneg 2 w). lia. }
  intros st m' (-> & k & Hk & ->). wp_pure.
  apply (CString.wp_read m str (pfx ++ ds ++ rest)); [done|rewrite !length_app; lia|].
  rewrite Nat2Z.id. intros Hb. set (c := char_at _ _) in *.
  rewrite s8_eq0 by done.
  destruct (decide (k = length ds)) as [->|].
  - assert (Hc : c = char_at rest 0).
    { unfold c, char_at. rewrite !lookup_app_r by lia. do 2 f_equal. lia. }
    rewrite take_ge by lia. destruct (Z.eqb_spec c 0); [by wp_pure|].
    destruct rest as [|b rest]; [done|]. change (char_at (b :: rest) 0) with b in Hc. rewrite Hc in *.
    destruct (digit_val (s8 b)) as [d|] eqn:Ed; [|by wp_pure].
    rewrite Z.geb_leb. destruct (Z.leb_spec base d); [by wp_pure|]. exfalso. apply He. exists d.
    apply digit_val_range in Ed as ?. split; [done|lia].
  - destruct (lookup_lt_is_Some_2 ds k ltac:(lia)) as [b Eb].
    assert (Hc : c = b).
    { unfold c, char_at. rewrite lookup_app_r, lookup_app_l by lia.
      replace (length pfx + k - length pfx)%nat with k by lia. by rewrite Eb. }
    pose proof (Forall_lookup_in _ _ _ _ Hd Eb) as (d & Ed & Hdb). rewrite Hc in *.
    destruct (Z.eqb_spec b 0) as [->|]; [by apply digit_val_range in Ed as [_ []]|].
    rewrite Ed, Z.geb_leb. zdecide. wp_pure. csplit. exists (S k). csplit.
    rewrite (take_S_r _ _ _ Eb), num_val_snoc, Ed. simpl. f_equal; [|f_equal; lia].
    unfold wrapu. rewrite <- Z.add_mod_idemp_l, Z.mul_mod_idemp_l, Z.add_mod_idemp_l; try lia.
    all: apply Z.pow_nonzero; lia.
Qed.

Lemma skip_spaces_eq fuel m str n l :
  cstr m str (replicate n 32 ++ l) -> hd 0 l <> 32 -> (n < fuel)%nat ->
  skip_spaces fuel str m = Some (Z.of_nat n, m).
Proof.
  intros Hs Hl Hf. apply wp_eq. unfold skip_spaces.
  wp_while (fun i m' => m' = m /\ 0 <= i <= Z.of_nat n) (fun i => (n - Z.to_nat i)%nat).
  intros i m' [-> Hi]. wp_pure.
  apply (CString.wp_read m str (replicate n 32 ++ l)); [done|rewrite length_app, length_replicate; lia|].
  intros Hb. rewrite (s8_eqb _ 32) by lia. unfold char_at in *.
  destruct (decide (i = Z.of_nat n)) as [->|].
  - rewrite Nat2Z.id, lookup_app_r, length_replicate, Nat.sub_diag in * by (rewrite length_replicate; lia).
    replace (default 0 (l !! 0%nat)) with (hd 0 l) by (by destruct l). zdecide. by wp_pure.
  - rewrite lookup_app_l, lookup_replicate_2 by (rewrite ?length_replicate; lia). simpl.
    zdecide. wp_pure. csplit.
Qed.

(** How a numeral of base [eff] with prefix [pre] is written when [base] is asked for. *)
Definition radix (base eff : Z) (pre ds : list Z) : Prop :=
  (pre = [] /\ eff = base /\ 2 <= base <= 16)
  \/ (pre = [] /\ base = 0 /\ eff = if hd 0 ds =? 48 then 8 else 10)
  \/ ((pre = [48; 120] \/ pre = [48; 88]) /\ eff = 16 /\ (base = 16 \/ base = 0)).

(** A lone "0" is not followed by an x, which would read as another prefix. *)
Definition no_x_after_0 (ds rest : list Z) : Prop := ds = [48] -> is_x (hd 0 rest) = false.

Lemma wp_char m str a b (Q : Z -> mem -> Prop) :
  cstr m str (a ++ b) -> Q (s8 (hd 0 b)) m -> wp (loadc (str + Z.of_nat (length a))) m Q.
Proof.
  intros Hs HQ. eapply CString.wp_read; [exact Hs|rewrite length_app; lia|]. intros _.
  rewrite Nat2Z.id. unfold char_at. rewrite lookup_app_r, Nat.sub_diag by lia. by destruct b.
Qed.

Lemma str_byte m str a b : cstr m str (a ++ b) -> 0 <= hd 0 b < 256.
Proof.
  intros [_ H]. apply Forall_app in H as [_ H]. destruct b; simpl; [lia|].
  apply Forall_cons_1 in H as [H _]. lia.
Qed.

(** A digit character is neither a space nor an x, nor a sign. *)
Lemma digit_in_char base b : 0 <= b < 256 -> digit_in base b ->
  b <> 32 /\ is_x b = false /\ b <> 45 /\ b <> 43.
Proof.
  intros Hb (d & Hd & _). rewrite s8_byte in Hd by lia. unfold digit_val in Hd. unfold is_x.
  destruct (Z.ltb_spec b 128); [|zcases_in Hd; simpl in Hd; try done; lia].
  repeat split; try (intros ->; done). zcases; subst; done.
Qed.

(** The second character of a numeral that starts with 0 is no x. *)
Lemma second_char m str a ds rest eff :
  cstr m str (a ++ 48 :: ds ++ rest) -> Forall (digit_in eff) (48 :: ds) ->
  no_x_after_0 (48 :: ds) rest ->
  wp (loadc (str + (Z.of_nat (length a) + 1))) m (fun d m' => m' = m /\ is_x d = false).
Proof.
  intros Hs Hd Hx.
  replace (Z.of_nat (length a) + 1) with (Z.of_nat (length (a ++ [48]))) by (rewrite length_app; simpl; lia).
  rewrite (cons_middle 48 a), app_assoc in Hs.
  eapply wp_char; [exact Hs|]. pose proof (str_byte _ _ _ _ Hs) as Hb2. split; [done|].
  unfold is_x. rewrite (s8_eqb _ 120), (s8_eqb _ 88) by lia. fold (is_x (hd 0 (ds ++ rest))).
  destruct ds as [|c ds]; [by apply Hx|]. apply Forall_cons_1 in Hd as [_ Hd].
  apply Forall_cons_1 in Hd as [Hc _]. by apply (digit_in_char eff).
Qed.

Lemma skip_0x_none m str a ds rest base eff :
  cstr m str (a ++ ds ++ rest) -> ds <> [] -> Forall (digit_in eff) ds -> no_x_after_0 ds rest ->
  skip_0x str (Z.of_nat (length a)) base m = Some (Z.of_nat (length a), m).
Proof.
  intros Hs Hne Hd Hx. destruct ds as [|b ds]; [done|]. pose proof (str_byte _ _ _ _ Hs) as Hb.
  apply wp_eq. unfold skip_0x. destruct (base =? 16); wp_pure; [|done].
  eapply wp_char; [exact Hs|]. rewrite (s8_eqb _ 48) by lia. simpl hd in *.
  destruct (Z.eqb_spec b 48) as [->|]; wp_pure; [|done].
  eapply wp_mono; [by eapply second_char|]. intros d m' [-> ->]. by wp_pure.
Qed.

(** Reading "0x" or "0X". *)
Lemma two_chars m str a x l (Q : Z -> mem -> Prop) :
  cstr m str (a ++ 48 :: x :: l) -> Q (s8 x) m -> wp (loadc (str + (Z.of_nat (length a) + 1))) m Q.
Proof.
  intros Hs HQ.
  replace (Z.of_nat (length a) + 1) with (Z.of_nat (length (a ++ [48]))) by (rewrite length_app; simpl; lia).
  rewrite (cons_middle 48 a), app_assoc in Hs. by eapply wp_char.
Qed.

(** [detect_base] and [skip_0x] find the base and the first digit. *)
Lemma find_digits {A} m str a pre ds rest base eff (k : Z -> Z -> M A) :
  cstr m str (a ++ pre ++ ds ++ rest) -> radix base eff pre ds ->
  ds <> [] -> Forall (digit_in eff) ds -> no_x_after_0 ds rest ->
  (let* (b, i) := detect_base str (Z.of_nat (length a)) base in
   let* i := skip_0x str i b in k b i) m
  = k eff (Z.of_nat (length (a ++ pre))) m.
Proof.
  intros Hs Hr Hne Hd Hx.
  assert (Hdet : exists p1 p2 b, pre = p1 ++ p2 /\ b = eff
    /\ detect_base str (Z.of_nat (length a)) base m = Some ((b, Z.of_nat (length (a ++ p1))), m)
    /\ skip_0x str (Z.of_nat (length (a ++ p1))) b m = Some (Z.of_nat (length (a ++ pre)), m)).
  { destruct Hr as [(-> & -> & Hb)|[(-> & -> & Heff)|(Hpre & -> & Hb)]].
    - exists [], [], base. rewrite (app_nil_r a). csplit; [|by eapply (skip_0x_none m str a ds rest)].
      unfold detect_base. by zdecide.
    - exists [], [], eff. rewrite (app_nil_r a). csplit; [|by eapply (skip_0x_none m str a ds rest)].
      unfold detect_base. apply wp_eq. simpl. wp_pure. eapply wp_char; [exact Hs|].
      pose proof (str_byte _ _ _ _ Hs). rewrite (s8_eqb _ 48) by lia.
      destruct ds as [|c ds]; [done|]. simpl hd in *. subst eff.
      destruct (Z.eqb_spec c 48) as [->|]; wp_pure; [|done].
      eapply wp_mono; [by eapply second_char|]. intros d m' [-> ->]. by wp_pure.
    - destruct Hb as [-> | ->].
      + exists [], pre, 16. rewrite (app_nil_r a). csplit. apply wp_eq. unfold skip_0x. simpl. wp_pure.
        destruct Hpre as [-> | ->]; (eapply wp_char; [exact Hs|]; simpl; wp_pure;
          eapply two_chars; [exact Hs|]; wp_pure; split; [|done];
          rewrite length_app; simpl; lia).
      + exists pre, [], 16. rewrite (app_nil_r pre). csplit.
        * apply wp_eq. unfold detect_base. simpl. wp_pure.
          destruct Hpre as [-> | ->]; (eapply wp_char; [exact Hs|]; simpl; wp_pure;
            eapply two_chars; [exact Hs|]; simpl; wp_pure; split; [|done];
            f_equal; rewrite length_app; simpl; lia).
        * eapply (skip_0x_none m str _ ds rest); [|done..]. by rewrite <- app_assoc. }
  destruct Hdet as (p1 & p2 & b & Ep & -> & Ed & Es).
  rewrite (bind_run _ _ _ _ _ Ed). by rewrite (bind_run _ _ _ _ _ Es).
Qed.

Lemma strtoul_eq fuel m str n pre ds rest base eff :
  cstr m str (replicate n 32 ++ pre ++ ds ++ rest) -> radix base eff pre ds ->
  ds <> [] -> Forall (digit_in eff) ds -> ends_numeral eff rest -> no_x_after_0 ds rest ->
  (n + length ds < fuel)%nat ->
  strtoul fuel str base m
  = Some ((u32 (num_val eff ds), str + Z.of_nat (n + length pre + length ds)), m).
Proof.
  intros Hs Hr Hne Hd He Hx Hf. unfold strtoul.
  assert (Hsp : hd 0 (pre ++ ds ++ rest) <> 32).
  { destruct Hr as [(-> & _)|[(-> & _)|([-> | ->] & _)]]; try done;
      (destruct ds as [|c ds]; [done|]; pose proof (str_byte _ _ _ _ Hs);
       apply Forall_cons_1 in Hd as [Hc _]; by apply (digit_in_char eff)). }
  rewrite (bind_run _ _ _ _ _ (skip_spaces_eq fuel m str n _ Hs Hsp ltac:(lia))).
  rewrite <- (length_replicate n 32) at 1. erewrite find_digits by done.
  erewrite bind_run; [|eapply digits_eq; [exact Hs|by rewrite app_assoc|done..|lia|lia]].
  unfold ret. rewrite length_app, length_replicate. done.
Qed.

(** A sign and its value. *)
Definition sign_chars (sg : list Z) (v : Z) : Prop :=
  (sg = [] /\ v = 1) \/ (sg = [43] /\ v = 1) \/ (sg = [45] /\ v = -1).

Lemma read_sign_eq m str a sg v pre ds rest base eff :
  cstr m str (a ++ sg ++ pre ++ ds ++ rest) -> sign_chars sg v -> radix base eff pre ds ->
  ds <> [] -> Forall (digit_in eff) ds ->
  read_sign str (Z.of_nat (length a)) m = Some ((v, Z.of_nat (length (a ++ sg))), m)
  /\ hd 0 (sg ++ pre ++ ds ++ rest) <> 32.
Proof.
  intros Hs Hsg Hr Hne Hd. rewrite length_app.
  assert (Hh : hd 0 (pre ++ ds ++ rest) <> 32 /\ hd 0 (pre ++ ds ++ rest) <> 45
               /\ hd 0 (pre ++ ds ++ rest) <> 43).
  { destruct Hr as [(-> & _)|[(-> & _)|([-> | ->] & _)]]; try done;
      (destruct ds as [|c ds]; [done|];
       rewrite app_assoc in Hs; pose proof (str_byte _ _ _ _ Hs);
       apply Forall_cons_1 in Hd as [Hc _]; apply (digit_in_char eff) in Hc; [|done]; simpl; tauto). }
  pose proof (str_byte _ _ _ _ Hs) as Hb. split.
  - apply wp_eq. unfold read_sign. wp_pure. eapply wp_char; [exact Hs|].
    rewrite (s8_eqb _ 45), (s8_eqb _ 43) by lia.
    destruct Hsg as [(-> & ->)|[(-> & ->)|(-> & ->)]]; simpl app in *; simpl hd; zdecide; wp_pure;
      split; try done; f_equal; simpl; lia.
  - destruct Hsg as [(-> & ->)|[(-> & ->)|(-> & ->)]]; [apply Hh|simpl; lia..].
Qed.

(** [strtol] (and [strtoul] under it) reads a numeral in any base from 2 to
    16 exactly: leading blanks, an optional sign, the "0x" prefix for base 16,
    and base 0 choosing 8, 10 or 16 by the prefix.  The value is exact when it
    fits in a [long], and [endptr] points at the first character that is
    not a digit of the base. *)
Theorem strtol_numeral fuel m str n sg v pre ds rest base eff :
  cstr m str (replicate n 32 ++ sg ++ pre ++ ds ++ rest) ->
  sign_chars sg v -> radix base eff pre ds ->
  ds <> [] -> Forall (digit_in eff) ds -> ends_numeral eff rest -> no_x_after_0 ds rest ->
  num_val eff ds < 2 ^ 31 -> (n + length ds < fuel)%nat ->
  strtol fuel str base m
  = Some ((v * num_val eff ds,
           str + Z.of_nat (n + length sg + length pre + length ds)), m).
Proof.
  intros Hs Hsg Hr Hne Hd He Hx Hv Hf. unfold strtol.
  destruct (read_sign_eq _ _ _ _ _ _ _ _ _ _ Hs Hsg Hr Hne Hd) as [Hrs Hsp].
  rewrite (bind_run _ _ _ _ _ (skip_spaces_eq fuel m str n _ Hs Hsp ltac:(lia))).
  rewrite length_replicate in Hrs. rewrite (bind_run _ _ _ _ _ Hrs).
  rewrite app_assoc in Hs. apply cstr_app in Hs.
  rewrite (bind_run _ _ _ _ _ (strtoul_eq fuel m _ 0 pre ds rest base eff Hs Hr Hne Hd He Hx ltac:(lia))).
  unfold ret. assert (0 <= eff) by (destruct Hr as [?|[(_ & _ & ->)|?]]; zcases; lia).
  pose proof (num_val_nonneg eff ds ltac:(done) Hd).
  rewrite u32_small, (s32_small (num_val _ _)) by lia. rewrite length_app, length_replicate.
  rewrite s32_small by (destruct Hsg as [[_ ->]|[[_ ->]|[_ ->]]]; lia). do 3 f_equal; lia.
Qed.

(** "  -0x1F;" in base 0 *)
Lemma strtol_numeral_witness :
  cstr (write_list 100 [32; 32; 45; 48; 120; 49; 70; 59; 0] ∅) 100 [32; 32; 45; 48; 120; 49; 70; 59] /\
  strtol 20 100 0 (write_list 100 [32; 32; 45; 48; 120; 49; 70; 59; 0] ∅)
  = Some ((- 31, 107), write_list 100 [32; 32; 45; 48; 120; 49; 70; 59; 0] ∅).
Proof.
  split; [solve_cstr|].
  apply (strtol_numeral 20 (write_list 100 [32; 32; 45; 48; 120; 49; 70; 59; 0] ∅) 100 2
    [45] (-1) [48; 120] [49; 70] [59] 0 16).
  - solve_cstr.
  - right. right. done.
  - right. right. auto.
  - done.
  - repeat constructor; (eexists; split; [vm_compute; reflexivity|lia]).
  - intros (d & E & _). vm_compute in E. done.
  - intros E. done.
  - vm_compute. done.
  - simpl. lia.
Defined.

(** unlike [strtoul], [strtoull] does not choose a base for base 0: it reads
    no digit at all, where [strtoul] reads the number. *)
Theorem strtoull_base0_reads_nothing fuel m str l :
  cstr m str l -> hd 0 l <> 32 -> (1 < fuel)%nat ->
  strtoull fuel str 0 m = Some ((0, str), m).
Proof.
  intros Hs Hh Hf. unfold strtoull.
  rewrite (bind_run _ _ _ _ _ (skip_spaces_eq fuel m str 0 l Hs Hh ltac:(lia))).
  rewrite (bind_run _ _ _ 0 m) by done.
  erewrite bind_run; [|apply (digits_eq fuel 64 m str l [] [] l 0); [done|done|constructor| |lia|simpl; lia]].
  - unfold ret. do 3 f_equal. simpl. lia.
  - destruct l as [|b l]; [done|]. intros (d & _ & Hd). lia.
Qed.

Lemma strtoull_base0_reads_nothing_witness :
  cstr (write_list 100 [52; 50; 0] ∅) 100 [52; 50] /\
  strtoull 5 100 0 (write_list 100 [52; 50; 0] ∅) = Some ((0, 100), write_list 100 [52; 50; 0] ∅).
Proof.
  split; [solve_cstr|].
  apply (strtoull_base0_reads_nothing 5 _ 100 [52; 50]); [solve_cstr|simpl; lia|lia].
Defined.

End Numeric.
