(* ===== verification/Handlers.v ===== *)
(** * Handlers: the [atexit] and [pthread_atfork] registries

    src/stdlib.c ([atexit], [exit]), src/atfork.c and [fork] of src/unistd.c.
    Registered functions are code of the program that uses the library: the
    section variable [call] runs one.  Every call leaves an event in the
    state's trace, so the order of calls can be stated.  [exit] runs with fuel:
    a handler may register another one, so its loop has no bound of its own. *)

From Stdlib Require Import ZArith Lia Bool.
From stdpp Require Import base list numbers.
From S2P Require Import Prelude Monad.

Module Handlers.

Definition ATEXIT_MAX : Z := 32.
Definition ATFORK_MAX : Z := 32.
Definition ENOMEM : Z := 12.

(** What happened: a registered function was called, the process ended. *)
Inductive event :=
| Called (f : Z)
| Forked (p : Z)
| Exited (status : Z).

(** One entry of [g_atfork]. *)
Record fork_entry := mk_entry { prepare : Z; parent : Z; child : Z }.

Record registry := mk_registry {
  _atexit_handlers : list Z;
  _atexit_count : Z;
  g_atfork : list fork_entry;
  g_atfork_n : Z;
  errno : Z;
  trace : list event;
}.

Definition set_atexit (l : list Z) (n : Z) (s : registry) : registry :=
  mk_registry l n (g_atfork s) (g_atfork_n s) (errno s) (trace s).
Definition set_atfork (l : list fork_entry) (n : Z) (s : registry) : registry :=
  mk_registry (_atexit_handlers s) (_atexit_count s) l n (errno s) (trace s).
Definition set_errno (e : Z) (s : registry) : registry :=
  mk_registry (_atexit_handlers s) (_atexit_count s) (g_atfork s) (g_atfork_n s) e (trace s).
Definition log (e : event) (s : registry) : registry :=
  mk_registry (_atexit_handlers s) (_atexit_count s) (g_atfork s) (g_atfork_n s) (errno s)
    (trace s ++ [e]).

(** The static arrays before [main]. *)
Definition start : registry :=
  mk_registry (replicate 32 0) 0 (replicate 32 (mk_entry 0 0 0)) 0 0 [].

(** [a[i]] and [a[i] = v]: outside the array there is no result. *)
Definition array_get {A} (l : list A) (i : Z) : St registry A :=
  match l !! Z.to_nat i with Some v => if i <? 0 then fault else ret v | None => fault end.

Definition atexit (function : Z) : St registry Z :=
  let* s := gets id in
  if (function =? 0) || (_atexit_count s >=? ATEXIT_MAX) then
    modify (set_errno ENOMEM) ;;* ret (-1)
  else
    modify (set_atexit (<[Z.to_nat (_atexit_count s) := function]> (_atexit_handlers s))
              (_atexit_count s + 1)) ;;*
    ret 0.

Definition pthread_atfork (prep par chi : Z) : St registry Z :=
  let* s := gets id in
  if g_atfork_n s >=? ATFORK_MAX then ret ENOMEM
  else
    modify (set_atfork (<[Z.to_nat (g_atfork_n s) := mk_entry prep par chi]> (g_atfork s))
              (g_atfork_n s + 1)) ;;*
    ret 0.

Section Calls.
Context (fuel : nat) (call : Z -> St registry unit).

Definition exit (status : Z) : St registry unit :=
  loop fuel (fun _ =>
    let* n := gets _atexit_count in
    if n >? 0 then
      let* l := gets _atexit_handlers in
      modify (set_atexit l (n - 1)) ;;*
      let* f := array_get l (n - 1) in
      call f ;;*
      continue tt
    else break tt) tt ;;*
  modify (log (Exited status)).

(** [if (f) f();] *)
Definition call_if (f : Z) : St registry unit := if f =? 0 then ret tt else call f.

Definition __cact_atfork_prepare : St registry unit :=
  let* n := gets g_atfork_n in
  loop fuel (fun i =>
    if i >=? 0 then
      let* l := gets g_atfork in
      let* e := array_get l i in
      call_if (prepare e) ;;*
      continue (i - 1)
    else break tt) (n - 1).

(** The forward walk of [__cact_atfork_parent] and [__cact_atfork_child]. *)
Definition walk (which : fork_entry -> Z) : St registry unit :=
  loop fuel (fun i =>
    let* n := gets g_atfork_n in
    if i <? n then
      let* l := gets g_atfork in
      let* e := array_get l i in
      call_if (which e) ;;*
      continue (i + 1)
    else break tt) 0.

Definition __cact_atfork_parent : St registry unit := walk parent.
Definition __cact_atfork_child : St registry unit := walk child.

(** [fork] on one side of the trap: [p] is what the kernel returned there. *)
Definition fork (p : Z) : St registry Z :=
  __cact_atfork_prepare ;;*
  modify (log (Forked p)) ;;*
  (if p =? 0 then __cact_atfork_child
   else if p >? 0 then __cact_atfork_parent
   else ret tt) ;;*
  ret p.
End Calls.

(** A handler that does its work and returns, without touching the registries. *)
Definition plain (f : Z) : St registry unit := modify (log (Called f)).

(** ** Registration *)

Fixpoint register (fs : list Z) : St registry (list Z) :=
  match fs with
  | [] => ret []
  | f :: fs => let* r := atexit f in let* rs := register fs in ret (r :: rs)
  end.

Fixpoint register_forks (es : list fork_entry) : St registry (list Z) :=
  match es with
  | [] => ret []
  | e :: es =>
      let* r := pthread_atfork (prepare e) (parent e) (child e) in
      let* rs := register_forks es in
      ret (r :: rs)
  end.

(** The registry after [done] has been registered. *)
Definition with_exits (done : list Z) (s : registry) : Prop :=
  _atexit_count s = Z.of_nat (length done) /\ (length done <= 32)%nat
  /\ length (_atexit_handlers s) = 32%nat
  /\ take (length done) (_atexit_handlers s) = done.

Definition with_forks (done : list fork_entry) (s : registry) : Prop :=
  g_atfork_n s = Z.of_nat (length done) /\ (length done <= 32)%nat
  /\ length (g_atfork s) = 32%nat
  /\ take (length done) (g_atfork s) = done.

Lemma register_spec fs : forall done s,
  with_exits done s -> Forall (fun f => f <> 0) fs ->
  wp (register fs) s (fun rs s' => 
    with_exits (done ++ take (32 - length done) fs) s' /\ trace s' = trace s
    /\ rs = replicate (length (take (32 - length done) fs)) 0
            ++ replicate (length fs - length (take (32 - length done) fs)) (-1)).
Proof.
  induction fs as [|f fs IH]; intros done s Hd Hne; simpl.
  { wp_pure. rewrite take_nil, app_nil_r. done. }
  apply Forall_cons_1 in Hne as [Hf Hne]. destruct Hd as (Hc & Hle & Hl & Ht).
  wp_pure. unfold atexit. wp_pure. simpl. rewrite Hc, Z.geb_leb. unfold ATEXIT_MAX.
  destruct (decide (length done = 32)%nat) as [E|].
  - zdecide. simpl. wp_pure. eapply wp_mono; [apply (IH done (set_errno ENOMEM s))|]; [done..|].
    intros rs s' (Hw & Htr & ->). wp_pure. rewrite E in *. simpl in *. rewrite take_0 in *.
    split; [done|]. split; [done|]. simpl. by rewrite Nat.sub_0_r.
  - zdecide. simpl. wp_pure. rewrite Nat2Z.id.
    eapply wp_mono; [apply (IH (done ++ [f])); [|done]|].
    + unfold with_exits. simpl. rewrite length_app, length_insert. simpl. csplit.
      apply take_store; [lia|done].
    + intros rs s' (Hw & Htr & ->). wp_pure. rewrite length_app in *. simpl in *.
      replace (32 - length done)%nat with (S (32 - (length done + 1))) by lia. simpl.
      rewrite <- app_assoc in Hw. done.
Qed.

Lemma register_forks_spec es : forall done s,
  with_forks done s ->
  wp (register_forks es) s (fun rs s' =>
    with_forks (done ++ take (32 - length done) es) s' /\ trace s' = trace s
    /\ rs = replicate (length (take (32 - length done) es)) 0
            ++ replicate (length es - length (take (32 - length done) es)) ENOMEM).
Proof.
  induction es as [|e es IH]; intros done s Hd; simpl.
  { wp_pure. rewrite take_nil, app_nil_r. done. }
  pose proof Hd as (Hc & Hle & Hl & Ht).
  wp_pure. unfold pthread_atfork. wp_pure. simpl. rewrite Hc, Z.geb_leb. unfold ATFORK_MAX.
  destruct (decide (length done = 32)%nat) as [E|].
  - zdecide. wp_pure. eapply wp_mono; [apply (IH done s Hd)|].
    intros rs s' (Hw & Htr & ->). wp_pure. rewrite E in *. simpl in *. rewrite take_0 in *.
    split; [done|]. split; [done|]. simpl. by rewrite Nat.sub_0_r.
  - zdecide. simpl. wp_pure. rewrite Nat2Z.id.
    eapply wp_mono; [apply (IH (done ++ [e]))|].
    + unfold with_forks. simpl. rewrite length_app, length_insert. simpl. csplit.
      replace (mk_entry _ _ _) with e by (by destruct e). apply take_store; [lia|done].
    + intros rs s' (Hw & Htr & ->). wp_pure. rewrite length_app in *. simpl in *.
      replace (32 - length done)%nat with (S (32 - (length done + 1))) by lia. simpl.
      rewrite <- app_assoc in Hw. done.
Qed.

Lemma wp_array_get {A} (l done : list A) i x s (Q : A -> registry -> Prop) :
  take (length done) l = done -> done !! i = Some x -> Q x s ->
  wp (array_get l (Z.of_nat i)) s Q.
Proof.
  intros Ht Hi HQ. unfold array_get. rewrite Nat2Z.id.
  rewrite <- Ht, lookup_take_Some in Hi. destruct Hi as [-> _]. zdecide. done.
Qed.

(** ** The order of calls *)

Lemma exit_spec fuel status done s :
  with_exits done s -> (length done < fuel)%nat ->
  wp (exit fuel plain status) s (fun _ s' =>
    trace s' = trace s ++ map Called (rev done) ++ [Exited status]).
Proof.
  intros Hd Hf. unfold exit. wp_pure.
  eapply (wp_loop_ghost (fun g (_ : unit) s' => with_exits g s' /\ exists called,
    done = g ++ called /\ trace s' = trace s ++ map Called (rev called)) length) with (g := done);
    [| |done].
  - intros g [] s' ((Hc & Hle & Hl & Ht) & called & -> & Htr). wp_pure. rewrite Hc, Z.gtb_ltb.
    destruct g as [|f g _] using rev_ind; simpl.
    + wp_pure. simpl. by rewrite Htr, <- app_assoc.
    + rewrite length_app in *. simpl in *. zdecide. wp_pure.
      replace (Z.of_nat (length g + 1) - 1) with (Z.of_nat (length g)) by lia.
      eapply (wp_array_get _ (g ++ [f])); [by rewrite length_app|
        rewrite lookup_app_r, Nat.sub_diag by lia; done|].
      wp_pure. exists g. csplit.
      * unfold with_exits. simpl. csplit. apply (f_equal (take (length g))) in Ht.
        rewrite take_take, take_app_length in Ht. by rewrite Nat.min_l in Ht by lia.
      * exists (f :: called). simpl. rewrite <- app_assoc. csplit.
        by rewrite Htr, map_app, <- app_assoc.
  - split; [done|]. exists []. rewrite !app_nil_r. done.
Qed.

(** The events of calling the non-null ones of [fs]. *)
Definition calls (fs : list Z) : list event := map Called (filter (fun f => f <> 0) fs).

Lemma calls_app a b : calls (a ++ b) = calls a ++ calls b.
Proof. unfold calls. by rewrite list.filter_app, map_app. Qed.

Lemma wp_call_if f s (Q : unit -> registry -> Prop) :
  (forall s', trace s' = trace s ++ calls [f] -> g_atfork s' = g_atfork s ->
     g_atfork_n s' = g_atfork_n s -> Q tt s') ->
  wp (call_if plain f) s Q.
Proof.
  intros HQ. unfold call_if, calls in *. destruct (Z.eqb_spec f 0) as [->|].
  - wp_pure. apply HQ; try done. rewrite filter_cons_False by auto. by rewrite app_nil_r.
  - unfold plain. wp_pure. apply HQ; try done. by rewrite filter_cons_True.
Qed.

Lemma prepare_spec fuel done s :
  with_forks done s -> (length done < fuel)%nat ->
  wp (__cact_atfork_prepare fuel plain) s (fun _ s' =>
    with_forks done s' /\ trace s' = trace s ++ calls (map prepare (rev done))).
Proof.
  intros (Hc & Hle & Hl & Ht) Hf. unfold __cact_atfork_prepare. wp_pure. rewrite Hc.
  wp_while (fun i s' => exists n, i = Z.of_nat n - 1 /\ (n <= length done)%nat
      /\ g_atfork_n s' = g_atfork_n s /\ g_atfork s' = g_atfork s
      /\ trace s' = trace s ++ calls (map prepare (rev (drop n done))))
    (fun i => Z.to_nat (i + 1)).
  2:{ exists (length done). rewrite drop_all. csplit. by rewrite app_nil_r. }
  intros i s' (n & -> & Hn & E1 & E2 & Htr). rewrite Z.geb_leb.
  destruct n as [|n].
  - zdecide. wp_pure. unfold with_forks. rewrite E1, E2. done.
  - destruct (lookup_lt_is_Some_2 done n ltac:(lia)) as [e He].
    replace (Z.of_nat (S n) - 1) with (Z.of_nat n) by lia.
    zdecide. wp_pure. rewrite E2. eapply wp_array_get; [exact Ht|exact He|].
    wp_pure. apply wp_call_if. intros s2 Htr2 E3 E4. wp_pure. csplit. exists n. csplit; [congruence..|].
    rewrite Htr2, Htr, (drop_S _ _ _ He). simpl. by rewrite map_app, calls_app, <- app_assoc.
Qed.

Lemma walk_spec fuel which done s :
  with_forks done s -> (length done < fuel)%nat ->
  wp (walk fuel plain which) s (fun _ s' =>
    with_forks done s' /\ trace s' = trace s ++ calls (map which done)).
Proof.
  intros (Hc & Hle & Hl & Ht) Hf. unfold walk.
  wp_while (fun i s' => exists n, i = Z.of_nat n /\ (n <= length done)%nat
      /\ g_atfork_n s' = g_atfork_n s /\ g_atfork s' = g_atfork s
      /\ trace s' = trace s ++ calls (map which (take n done)))
    (fun i => (length done - Z.to_nat i)%nat).
  2:{ exists 0%nat. csplit. by rewrite app_nil_r. }
  intros i s' (n & -> & Hn & E1 & E2 & Htr). wp_pure. rewrite E1, Hc.
  destruct (Z.ltb_spec (Z.of_nat n) (Z.of_nat (length done))).
  - destruct (lookup_lt_is_Some_2 done n ltac:(lia)) as [e He].
    wp_pure. rewrite E2. eapply wp_array_get; [exact Ht|exact He|].
    wp_pure. apply wp_call_if. intros s2 Htr2 E3 E4. wp_pure. csplit. exists (S n). csplit; [congruence..|].
    rewrite Htr2, Htr, (take_S_r _ _ _ He). by rewrite map_app, calls_app, <- app_assoc.
  - wp_pure. rewrite take_ge in Htr by lia. unfold with_forks. rewrite E1, E2. done.
Qed.

(** ** Properties *)

(** of any sequence of [atexit] registrations the first 32 succeed and the
    others return -1; [exit] then calls the registered functions once each, the
    latest first, and only then ends the process. *)
Theorem atexit_exit_lifo fuel fs status :
  Forall (fun f => f <> 0) fs -> (32 < fuel)%nat ->
  wp (let* rs := register fs in exit fuel plain status ;;* ret rs) start (fun rs s =>
    rs = replicate (length (take 32 fs)) 0 ++ replicate (length fs - 32) (-1)
    /\ trace s = map Called (rev (take 32 fs)) ++ [Exited status]).
Proof.
  intros Hne Hf. wp_pure.
  eapply wp_mono; [apply (register_spec fs [] start); [by vm_compute; auto 10 with lia|done]|].
  intros rs s (Hw & Htr & ->). simpl in Hw. wp_pure.
  eapply wp_mono; [apply (exit_spec fuel status _ s Hw); rewrite length_take; lia|].
  intros [] s' Htr'. wp_pure. rewrite Htr in Htr'. split; [|exact Htr']. f_equal. f_equal.
  change (32 - length [])%nat with 32%nat. rewrite length_take. lia.
Qed.

(** [fork] runs the registered prepare handlers newest first before the
    trap, and afterwards the child's handlers in the child and the parent's
    handlers in the parent, oldest first; NULL handlers are skipped.  When the
    trap fails no handler runs after it, so what the prepare handlers did is
    not undone. *)
Theorem fork_handler_order fuel es p :
  (32 < fuel)%nat -> (length es <= 32)%nat ->
  wp (register_forks es ;;* fork fuel plain p) start (fun r s => r = p /\
    trace s = calls (map prepare (rev es)) ++ Forked p ::
      (if p =? 0 then calls (map child es)
       else if p >? 0 then calls (map parent es) else [])).
Proof.
  intros Hf Hl. wp_pure.
  eapply wp_mono; [apply (register_forks_spec es [] start); by vm_compute; auto 10 with lia|].
  intros rs s (Hw & Htr & _). change (32 - length [])%nat with 32%nat in Hw. rewrite take_ge in Hw by lia. simpl app in Hw.
  unfold fork. wp_pure. eapply wp_mono; [apply (prepare_spec fuel es s Hw); lia|].
  intros [] s1 (Hw1 & Htr1). wp_pure.
  assert (Hw2 : with_forks es (log (Forked p) s1)) by done.
  assert (Ht2 : trace (log (Forked p) s1) = calls (map prepare (rev es)) ++ [Forked p])
    by (simpl; by rewrite Htr1, Htr).
  destruct (p =? 0); [|destruct (p >? 0)]; wp_pure.
  - eapply wp_mono; [apply (walk_spec fuel child es _ Hw2); lia|].
    intros [] s2 (_ & Ht). wp_pure. by rewrite Ht, Ht2, <- app_assoc.
  - eapply wp_mono; [apply (walk_spec fuel parent es _ Hw2); lia|].
    intros [] s2 (_ & Ht). wp_pure. by rewrite Ht, Ht2, <- app_assoc.
  - done.
Qed.

Lemma atexit_exit_lifo_witness :
  Forall (fun f => f <> 0) (repeat 7 40) /\
  wp (let* rs := register (repeat 7 40) in exit 33 plain 3 ;;* ret rs) start (fun rs s =>
    rs = replicate 32 0 ++ replicate 8 (-1)
    /\ trace s = map Called (repeat 7 32) ++ [Exited 3]).
Proof.
  assert (H : Forall (fun f => f <> 0) (repeat 7 40)) by (by repeat constructor).
  split; [exact H|]. apply (atexit_exit_lifo 33 (repeat 7 40) 3); [exact H|lia].
Defined.

Lemma fork_handler_order_witness :
  (length [mk_entry 1 0 3; mk_entry 4 5 6] <= 32)%nat /\
  wp (register_forks [mk_entry 1 0 3; mk_entry 4 5 6] ;;* fork 33 plain 99) start (fun r s => r = 99 /\
    trace s = [Called 4; Called 1; Forked 99; Called 5]).
Proof.
  split; [simpl; lia|].
  apply (fork_handler_order 33 [mk_entry 1 0 3; mk_entry 4 5 6] 99); simpl; lia.
Defined.

End Handlers.
