(* ===== verification/TlsLayout.v ===== *)
(** * TlsLayout: the layout of the static TLS block (include/tls_layout.h)

    Every thread has one block that holds the [__thread] variables of every
    loaded object.  The dynamic linker lays the block out before the program
    starts ([cact_tls_plan_reserved]); objects that arrive later take a slice of
    the spare room at its bottom ([cact_tls_take]).  [mods] is the C array of
    eight entries, of which the first [count] are in use.  The invariant
    [layout_ok] says that the modules' slices are aligned, inside the block and
    disjoint, and that the program's own slice ends at the thread pointer. *)

From Stdlib Require Import ZArith Lia Bool.
From stdpp Require Import base gmap list numbers.
From S2P Require Import Prelude Monad.

Module TlsLayout.

Definition CACT_TLS_MAX_MODULES : Z := 8.
Definition CACT_TLS_TCB_SIZE : Z := 8.
Definition CACT_TLS_RESERVE : Z := 1024.
Definition CACT_TLS_MAX_BLOCKS : Z := 128.

(** [cact_tls_module_t] *)
Record tls_module := mk_module {
  id : Z;
  off : Z;
  vaddr : Z;
  filesz : Z;
  memsz : Z;
  align : Z;
}.

Definition set_off (o : Z) (m : tls_module) : tls_module :=
  mk_module (id m) o (vaddr m) (filesz m) (memsz m) (align m).
Definition set_id (i : Z) (m : tls_module) : tls_module :=
  mk_module i (off m) (vaddr m) (filesz m) (memsz m) (align m).
Definition forget (m : tls_module) : tls_module :=
  mk_module (id m) (off m) (vaddr m) 0 0 (align m).

(** [cact_tls_layout_t] *)
Record layout := mk_layout {
  total : Z;
  count : Z;
  spare : Z;
  spare_used : Z;
  next_id : Z;
  mods : list tls_module;
}.

(** ** include/tls_layout.h *)

(** [if (a < 4 || (a & (a - 1))) a = 4;] *)
Definition fix_align (a : Z) : Z :=
  if (a <? 4) || negb (Z.land a (u32 (a - 1)) =? 0) then 4 else a.

(** [(off + a - 1) & ~(a - 1)] *)
Definition round_up (off a : Z) : Z :=
  Z.land (u32 (off + a - 1)) (u32 (Z.lnot (u32 (a - 1)))).

(** One iteration of the placing loop: module [i] goes at the next offset. *)
Definition place (i : nat) (st : Z * list tls_module) : Z * list tls_module :=
  let '(off, ms) := st in
  match ms !! i with
  | None => st
  | Some m =>
      let off := round_up off (fix_align (align m)) in
      (u32 (off + memsz m), <[i := set_off off m]> ms)
  end.

(** [for (i = n - 1; i >= 1; i--)] *)
Fixpoint place_down (i : nat) (st : Z * list tls_module) : Z * list tls_module :=
  match i with
  | O => st
  | S i' => place_down i' (place i st)
  end.

(** [for (i = 0; i < n; i++) lay->mods[i].id = i + 1;] *)
Definition number (n : nat) (ms : list tls_module) : list tls_module :=
  imap (fun i m => if decide (i < n)%nat then set_id (Z.of_nat i + 1) m else m) ms.

Definition cact_tls_plan_inline (lay : layout) (nmods : Z) : layout :=
  let n := if nmods <? CACT_TLS_MAX_MODULES then nmods else CACT_TLS_MAX_MODULES in
  let st := place_down (Z.to_nat n - 1) (0, mods lay) in
  let '(off, ms) := if n >? 0 then place 0 st else st in
  mk_layout off n (spare lay) (spare_used lay) (n + 1) (number (Z.to_nat n) ms).

Definition cact_tls_plan (lay : layout) (nmods : Z) : layout := cact_tls_plan_inline lay nmods.

Definition cact_tls_reserve (lay : layout) (bytes : Z) : layout :=
  if bytes =? 0 then lay
  else
    let bytes := Z.land (u32 (bytes + 63)) (u32 (Z.lnot 63)) in
    let ms := imap (fun i m => if decide (i < Z.to_nat (count lay))%nat
                               then set_off (u32 (off m + bytes)) m else m) (mods lay) in
    mk_layout (u32 (total lay + bytes)) (count lay) bytes 0 (next_id lay) ms.

Definition cact_tls_plan_reserved (lay : layout) (nmods bytes : Z) : layout :=
  cact_tls_reserve (cact_tls_plan_inline lay nmods) bytes.

(** [cact_tls_take]: the offset, or -1. *)
Definition cact_tls_take (lay : layout) (memsz align : Z) : Z * layout :=
  let a := fix_align align in
  let off := round_up (spare_used lay) a in
  if (off >? spare lay) || (memsz >? u32 (spare lay - off)) then (-1, lay)
  else (s32 off, mk_layout (total lay) (count lay) (spare lay) (u32 (off + memsz))
                   (next_id lay) (mods lay)).

Definition cact_tls_addr (lay : layout) (ident offset tp : Z) : Z :=
  match list_find (fun m => id m = ident) (take (Z.to_nat (count lay)) (mods lay)) with
  | Some (_, m) => u32 (tp + off m + offset - total lay)
  | None => 0
  end.

(** ** Placement *)

(** [fix_align] always yields a power of two of at least 4. *)
Lemma fix_align_pow2 a :
  0 <= a < 2 ^ 32 -> exists k, 2 <= k < 32 /\ fix_align a = 2 ^ k /\ (fix_align a <= a \/ fix_align a = 4).
Proof.
  intros Ha. unfold fix_align.
  destruct (Z.ltb_spec a 4) as [|H4]; [exists 2; simpl; lia|].
  destruct (Z.eqb_spec (Z.land a (u32 (a - 1))) 0) as [H|]; [|exists 2; simpl; lia].
  simpl. rewrite u32_small in H by lia. apply land_pred_pow2 in H; [|lia].
  exists (Z.log2 a). split; [|split; [done|lia]]. split.
  - change 2 with (Z.log2 4). by apply Z.log2_le_mono.
  - apply Z.log2_lt_pow2; lia.
Qed.

Lemma round_up_spec v a :
  0 <= v -> 0 <= a < 2 ^ 32 -> v + fix_align a <= 2 ^ 32 ->
  let r := round_up v (fix_align a) in
  v <= r < v + fix_align a /\ r mod fix_align a = 0.
Proof.
  intros Hv Ha Hs. destruct (fix_align_pow2 a Ha) as (k & Hk & E & _). rewrite E in *.
  assert (0 < 2 ^ k) by (apply Z.pow_pos_nonneg; lia).
  unfold round_up. rewrite (u32_small (2 ^ k - 1)) by lia. apply round_up_mask; lia.
Qed.

(** A module whose placement arithmetic stays inside 32 bits. *)
Definition sane (m : tls_module) : Prop :=
  0 <= filesz m <= memsz m /\ memsz m <= 2 ^ 24 /\ 0 <= align m <= 2 ^ 24.

(** [m'] is [m] placed at an aligned offset. *)
Definition placed (m m' : tls_module) : Prop :=
  m' = set_off (off m') m /\ off m' mod fix_align (align m) = 0.

Lemma place_spec i o ms m :
  ms !! i = Some m -> sane m -> 0 <= o <= 2 ^ 30 ->
  exists o' m', place i (o, ms) = (o', <[i := m']> ms) /\ placed m m'
    /\ o <= off m' /\ o' = off m' + memsz m /\ o' <= o + 2 ^ 25.
Proof.
  intros Hi (Hf & Hm & Ha) Ho. unfold place. rewrite Hi.
  destruct (fix_align_pow2 (align m)) as (k & Hk & E & Hle); [lia|].
  assert (4 <= fix_align (align m) <= 2 ^ 24).
  { rewrite E. split; [change 4 with (2 ^ 2); apply Z.pow_le_mono_r; lia|].
    rewrite <- E. destruct Hle as [|Hle]; [lia|]. rewrite Hle. lia. }
  destruct (round_up_spec o (align m)) as [Hr Hr0]; [lia..|].
  eexists _, (set_off _ m). split; [done|]. split; [done|]. cbn [set_off off memsz].
  rewrite u32_small by lia. lia.
Qed.

(** Below index [i + 1] the modules were placed from the highest index down,
    each above the previous one. *)
Lemma place_down_spec i : forall o ms,
  (i < length ms)%nat -> Forall sane ms -> 0 <= o -> o + Z.of_nat i * 2 ^ 25 <= 2 ^ 30 ->
  exists o' ms', place_down i (o, ms) = (o', ms') /\ length ms' = length ms
    /\ o <= o' <= o + Z.of_nat i * 2 ^ 25
    /\ (forall j, (j = 0 \/ i < j)%nat -> ms' !! j = ms !! j)
    /\ (forall j m, (1 <= j <= i)%nat -> ms !! j = Some m ->
         exists m', ms' !! j = Some m' /\ placed m m' /\ o <= off m' /\ off m' + memsz m' <= o')
    /\ (forall j k mj mk, (1 <= j < k)%nat -> (k <= i)%nat ->
         ms' !! j = Some mj -> ms' !! k = Some mk -> off mk + memsz mk <= off mj).
Proof.
  induction i as [|i IH]; intros o ms Hi Hs Ho Hb.
  { exists o, ms. csplit; intros; lia. }
  destruct (lookup_lt_is_Some_2 ms (S i) Hi) as [m Hm].
  destruct (place_spec (S i) o ms m Hm) as (o1 & m1 & E & Hpl & Ho1 & Eo1 & Hb1);
    [by eapply Forall_lookup_in|lia|].
  assert (Hsz : memsz m1 = memsz m) by (destruct Hpl as [-> _]; done).
  pose proof (Forall_lookup_in _ _ _ _ Hs Hm) as (Hfz & Hmz & Hal).
  destruct (IH o1 (<[S i := m1]> ms)) as (o' & ms' & E' & Hl & Ho' & Hout & Hin & Hsep).
  { rewrite length_insert. lia. }
  { apply Forall_insert; [done|]. destruct Hpl as [-> _]. split; simpl; lia. }
  { lia. }
  { lia. }
  cbn [place_down]. rewrite E, E'. exists o', ms'. rewrite length_insert in Hl.
  split; [done|]. split; [done|]. split; [lia|]. split; [|split].
  - intros j Hj. rewrite Hout by lia. by rewrite list_lookup_insert_ne by lia.
  - intros j mj Hj Hmj. destruct (decide (j = S i)) as [->|].
    + simplify_eq. exists m1. rewrite Hout, list_lookup_insert_eq by lia. csplit.
    + destruct (Hin j mj ltac:(lia)) as (m' & ? & ? & ? & ?); [by rewrite list_lookup_insert_ne by lia|].
      exists m'. csplit.
  - intros j k mj mk Hjk Hk Hmj Hmk. destruct (decide (k = S i)) as [->|].
    + rewrite Hout, list_lookup_insert_eq in Hmk by lia. simplify_eq.
      assert (Hj : (j < length ms)%nat) by (rewrite <- Hl; by eapply lookup_lt_Some).
      destruct (lookup_lt_is_Some_2 ms j Hj) as [m0 Hm0].
      destruct (Hin j m0 ltac:(lia)) as (m' & Hm' & _ & Hge & _); [by rewrite list_lookup_insert_ne by lia|].
      simplify_eq. lia.
    + apply (Hsep j k); first [done|lia].
Qed.

(** All [n] modules placed: the whole of the planning loop. *)
Lemma plan_placed n ms :
  (0 < n <= 8)%nat -> (n <= length ms)%nat -> Forall sane ms ->
  exists o ms', place 0 (place_down (n - 1) (0, ms)) = (o, ms') /\ length ms' = length ms
    /\ 0 <= o <= 2 ^ 28
    /\ (forall j m, (j < n)%nat -> ms !! j = Some m ->
         exists m', ms' !! j = Some m' /\ placed m m' /\ 0 <= off m' /\ off m' + memsz m' <= o
                    /\ (j = 0%nat -> off m' + memsz m' = o))
    /\ (forall j k mj mk, (j < k < n)%nat ->
         ms' !! j = Some mj -> ms' !! k = Some mk -> off mk + memsz mk <= off mj).
Proof.
  intros Hn Hl Hs.
  destruct (place_down_spec (n - 1) 0 ms) as (o1 & ms1 & E & Hl1 & Ho1 & Hout & Hin & Hsep);
    [lia|done|lia|lia|]. rewrite E.
  destruct (lookup_lt_is_Some_2 ms 0 ltac:(lia)) as [m0 Hm0].
  destruct (place_spec 0 o1 ms1 m0) as (o & m' & E0 & Hpl & Hge & Eo & Hb);
    [by rewrite Hout by lia|by eapply Forall_lookup_in|lia|].
  pose proof (Forall_lookup_in _ _ _ _ Hs Hm0) as (Hfz & Hmz & Hal).
  assert (Hsz : memsz m' = memsz m0) by (destruct Hpl as [-> _]; done).
  assert (Hother : forall j m, (0 < j < n)%nat -> ms !! j = Some m -> exists mj,
            <[0%nat := m']> ms1 !! j = Some mj /\ placed m mj /\ 0 <= off mj /\ off mj + memsz mj <= o1).
  { intros j m Hj Hm. destruct (Hin j m ltac:(lia) Hm) as (mj & Hmj & Hp & ? & ?).
    exists mj. rewrite list_lookup_insert_ne by lia. done. }
  exists o, (<[0%nat := m']> ms1). rewrite length_insert. csplit.
  - intros j m Hj Hm. destruct (decide (j = 0%nat)) as [->|].
    + simplify_eq. exists m'. rewrite list_lookup_insert_eq by lia. csplit.
    + destruct (Hother j m ltac:(lia) Hm) as (mj & ? & ? & ? & ?). exists mj. csplit.
  - intros j k mj mk Hjk Hmj Hmk.
    assert (Hk : (k < length ms)%nat) by (rewrite <- Hl1, <- (length_insert ms1 0 m'); by eapply lookup_lt_Some).
    destruct (lookup_lt_is_Some_2 ms k Hk) as [mk0 Hmk0].
    destruct (Hother k mk0 ltac:(lia) Hmk0) as (mk' & Hmk' & _ & _ & Hle). simplify_eq.
    destruct (decide (j = 0%nat)) as [->|].
    + rewrite list_lookup_insert_eq in Hmj by lia. simplify_eq. lia.
    + rewrite list_lookup_insert_ne in Hmj, Hmk by lia. apply (Hsep j k); first [done|lia].
Qed.

(** ** The layout invariant *)

(** Two slices of the block do not overlap. *)
Definition apart (m m' : tls_module) : Prop :=
  off m + memsz m <= off m' \/ off m' + memsz m' <= off m.

(** One module inside the block: aligned, in the spare room that has been
    handed out or above it. *)
Definition module_ok (lay : layout) (m : tls_module) : Prop :=
  0 <= filesz m <= memsz m /\ 0 <= off m /\ off m + memsz m <= total lay
  /\ off m mod fix_align (align m) = 0 /\ 0 < id m < next_id lay
  /\ (off m + memsz m <= spare_used lay \/ spare lay <= off m)
  /\ (id m = 1 -> off m + memsz m = total lay).

Definition live (lay : layout) : list tls_module := take (Z.to_nat (count lay)) (mods lay).

Record layout_ok (lay : layout) : Prop := {
  lay_len : length (mods lay) = 8%nat;
  lay_count : 0 <= count lay <= 8;
  lay_spare : 0 <= spare_used lay <= spare lay /\ spare lay <= total lay < 2 ^ 31;
  lay_next : 2 <= next_id lay < 2 ^ 31;
  lay_mods : Forall (module_ok lay) (live lay);
  lay_apart : ForallOrdPairs apart (live lay);
  lay_ids : NoDup (id <$> live lay);
}.

Lemma fix_align_divides_64 a : 0 <= a <= 64 -> exists c, 64 = c * fix_align a.
Proof.
  intros Ha. destruct (fix_align_pow2 a) as (k & Hk & E & Hle); [lia|].
  assert (fix_align a <= 64) by (destruct Hle as [|Hle]; rewrite ?Hle; lia).
  assert (k <= 6) by (apply (Z.pow_le_mono_r_iff 2); [lia..|]; rewrite <- E; simpl; lia).
  exists (2 ^ (6 - k)). rewrite E, <- Z.pow_add_r by lia. by replace (6 - k + k) with 6 by lia.
Qed.

Lemma ForallOrdPairs_lookup {A} (R : A -> A -> Prop) (l : list A) :
  (forall i j x y, (i < j)%nat -> l !! i = Some x -> l !! j = Some y -> R x y) -> ForallOrdPairs R l.
Proof.
  induction l as [|a l IH]; intros H; constructor.
  - apply Forall_lookup. intros i x Hx. apply (H 0%nat (S i)); [lia|done|done].
  - apply IH. intros i j x y Hij Hx Hy. apply (H (S i) (S j)); [lia|done|done].
Qed.

Lemma reserve_round bytes :
  0 < bytes <= 2 ^ 24 ->
  exists c, Z.land (u32 (bytes + 63)) (u32 (Z.lnot 63)) = c * 64 /\ bytes <= c * 64 < bytes + 64.
Proof.
  intros Hb. destruct (round_up_mask bytes 6) as [Hr Hm]; [lia..|].
  change (2 ^ 6) with 64 in *. change (64 - 1) with 63 in *. rewrite <- Z.add_sub_assoc in *.
  apply Z.mod_divide in Hm as [c Hc]; [|lia]. exists c. change (64 - 1) with 63 in *. lia.
Qed.

(** A module of the finished layout: the image asked for, numbered, moved above the spare room. *)
Definition planned (bytes : Z) (i : nat) (m m' : tls_module) : Prop :=
  m' = mk_module (Z.of_nat i + 1) (off m') (vaddr m) (filesz m) (memsz m) (align m).

Lemma plan_reserved_ok lay nmods bytes :
  length (mods lay) = 8%nat -> 0 < nmods -> 0 < bytes <= 2 ^ 24 ->
  Forall sane (mods lay) -> Forall (fun m => align m <= 64) (mods lay) ->
  let lay' := cact_tls_plan_reserved lay nmods bytes in
  layout_ok lay' /\ count lay' = Z.min nmods 8 /\ spare_used lay' = 0 /\ bytes <= spare lay'
  /\ forall i m, (i < Z.to_nat (count lay'))%nat -> mods lay !! i = Some m ->
       exists m', live lay' !! i = Some m' /\ planned bytes i m m'.
Proof.
  intros Hl Hn Hb Hs Ha64. unfold cact_tls_plan_reserved, cact_tls_plan_inline, CACT_TLS_MAX_MODULES.
  set (n := if nmods <? 8 then nmods else 8). assert (Hn8 : n = Z.min nmods 8) by (unfold n; zcases; lia).
  clearbody n. replace (n >? 0) with true by (rewrite Z.gtb_ltb; symmetry; apply Z.ltb_lt; lia).
  destruct (plan_placed (Z.to_nat n) (mods lay)) as (o & ms & E & Hlm & Ho & Hin & Hsep); [lia|lia|done|].
  rewrite E. unfold cact_tls_reserve. zdecide. destruct (reserve_round bytes Hb) as (c & Ec & Hc).
  cbn [total count mods next_id]. rewrite Ec. set (B := c * 64) in *. cbv zeta. rewrite u32_small by lia.
  set (lay' := mk_layout _ _ _ _ _ _).
  assert (Hlook : forall i m, live lay' !! i = Some m -> exists m0 m1, (i < Z.to_nat n)%nat
            /\ mods lay !! i = Some m0 /\ ms !! i = Some m1 /\ placed m0 m1 /\ 0 <= off m1
            /\ off m1 + memsz m1 <= o /\ (i = 0%nat -> off m1 + memsz m1 = o)
            /\ m = mk_module (Z.of_nat i + 1) (off m1 + B) (vaddr m0) (filesz m0) (memsz m0) (align m0)).
  { intros i m Hm. unfold live, lay' in Hm. cbn [count mods] in Hm. apply lookup_take_Some in Hm as [Hm Hi].
    unfold number in Hm. rewrite !list_lookup_imap in Hm.
    destruct (lookup_lt_is_Some_2 (mods lay) i ltac:(lia)) as [m0 Hm0].
    destruct (Hin i m0 Hi Hm0) as (m1 & Hm1 & Hp & H0 & H1 & H2). rewrite Hm1 in Hm. simpl in Hm.
    rewrite !decide_True in Hm by done. injection Hm as <-. exists m0, m1.
    pose proof (Forall_lookup_in _ _ _ _ Hs Hm0) as (? & ? & ?).
    destruct Hp as [Hp Hp2]. csplit. unfold set_off, set_id. cbn.
    rewrite u32_small; [by rewrite Hp|]. rewrite Hp in H1. cbn in H1. lia. }
  assert (Hlive : length (live lay') = Z.to_nat n).
  { unfold live, lay', number. cbn [count mods]. rewrite length_take, !length_imap. lia. }
  split; [constructor|].
  - unfold lay', number. cbn. by rewrite !length_imap, Hlm.
  - cbn. lia.
  - cbn. lia.
  - cbn. lia.
  - apply Forall_lookup. intros i m Hm.
    destruct (Hlook i m Hm) as (m0 & m1 & Hi & Hm0 & Hm1 & [Hp Hal] & Hge & Hle & Htop & ->).
    pose proof (Forall_lookup_in _ _ _ _ Hs Hm0) as (? & ? & ?).
    pose proof (Forall_lookup_in _ _ _ _ Ha64 Hm0) as H64. cbv beta in H64.
    destruct (fix_align_divides_64 (align m0)) as [d Hd]; [lia|].
    assert (Hms : memsz m1 = memsz m0) by (rewrite Hp; done). rewrite Hms in *.
    unfold module_ok. cbn. csplit.
    unfold B. rewrite Hd, Z.mul_assoc, Z_mod_plus_full. done.
  - apply ForallOrdPairs_lookup. intros i j x y Hij Hx Hy.
    destruct (Hlook i x Hx) as (x0 & x1 & Hi & Hx0 & Hx1 & [Hpx _] & _ & _ & _ & ->).
    destruct (Hlook j y Hy) as (y0 & y1 & Hj & Hy0 & Hy1 & [Hpy _] & _ & _ & _ & ->).
    right. cbn. pose proof (Hsep i j x1 y1 ltac:(lia) Hx1 Hy1) as Hs'.
    rewrite Hpx, Hpy in Hs'. cbn in Hs'. lia.
  - apply NoDup_alt. intros i j x Hi Hj. rewrite !list_lookup_fmap in *.
    apply fmap_Some in Hi as (a & Ha & ->). apply fmap_Some in Hj as (b & Hb' & Eb).
    destruct (Hlook i a Ha) as (a0 & a1 & _ & _ & _ & _ & _ & _ & _ & ->).
    destruct (Hlook j b Hb') as (b0 & b1 & _ & _ & _ & _ & _ & _ & _ & ->). cbn in Eb. lia.
  - split; [exact Hn8|]. split; [done|]. split; [unfold lay'; cbn; lia|]. intros i m Hi Hm. unfold lay' in Hi. cbn [count] in Hi.
    destruct (lookup_lt_is_Some_2 (live lay') i ltac:(lia)) as [m' Hm'].
    destruct (Hlook i m' Hm') as (m0 & m1 & _ & Hm0 & _ & _ & _ & _ & _ & ->). simplify_eq.
    eexists. split; [exact Hm'|]. done.
Qed.

End TlsLayout.
