(* ===== verification/TlsStatic.v ===== *)
(** * TlsStatic: the runtime half of static TLS (src/tls_static.c)

    Builds a thread's block from the layout ([cact_tls_fill],
    [cact_tls_block_new], [__cact_tls_start]), gives objects that arrive with
    [dlopen] a slice and copies their image into the blocks that exist
    ([cact_tls_module_add]), and forgets them again ([cact_tls_module_drop]).

    [tls_blocks] is the list of the blocks registered so far, the first
    [tls_nblocks] entries of the C array.  The allocator and the call that
    installs the %gs base belong to other parts of the library and to the
    kernel: they are arguments of the operations that use them. *)

From Stdlib Require Import ZArith Lia Bool.
From stdpp Require Import base gmap list numbers.
From S2P Require Import Prelude Monad Memory CString TlsLayout.

Module TlsStatic.
Import TlsLayout.

Record tls := mk_tls {
  lay : layout;
  tls_blocks : list (Z * Z);
  tmem : mem;
}.

Definition set_lay (l : layout) (s : tls) : tls := mk_tls l (tls_blocks s) (tmem s).
Definition set_blocks (b : list (Z * Z)) (s : tls) : tls := mk_tls (lay s) b (tmem s).

Definition on_mem {A} (c : M A) : St tls A :=
  fun s => match c (tmem s) with
           | Some (a, m) => Some (a, mk_tls (lay s) (tls_blocks s) m)
           | None => None
           end.

(** [memcpy] and [memset] with the fuel their length asks for. *)
Definition memcpy (d s n : Z) : M Z := CString.memcpy (S (Z.to_nat n)) d s n.
Definition memset (d v n : Z) : M Z := CString.memset (S (Z.to_nat n)) d v n.

Definition tls_block_register (tp : Z) : St tls unit :=
  let* s := gets (fun s => s) in
  if Z.of_nat (length (tls_blocks s)) <? CACT_TLS_MAX_BLOCKS
  then modify (set_blocks (tls_blocks s ++ [(tp, total (lay s))]))
  else ret tt.

(** [if (m->filesz) memcpy(base + m->off, m->vaddr, m->filesz);] *)
Definition copy_image (base : Z) (m : tls_module) : M unit :=
  if negb (filesz m =? 0) then memcpy (base + off m) (vaddr m) (filesz m) ;;* ret tt
  else ret tt.

Definition cact_tls_fill (block : Z) (lay : layout) : M Z :=
  memset block 0 (total lay) ;;*
  for_each (copy_image block) (take (Z.to_nat (count lay)) (mods lay)) ;;*
  let tcb := block + total lay in
  store32 tcb tcb ;;*
  ret tcb.

Section Allocating.
Context (malloc : Z -> St tls Z) (set_thread_area : Z -> St tls Z).

Definition cact_tls_alloc : St tls Z :=
  let* t := gets (fun s => total (lay s)) in
  let* p := malloc (u32 (t + CACT_TLS_TCB_SIZE + 16)) in
  if p =? 0 then ret 0
  else ret (Z.land (u32 (p + 15)) (u32 (Z.lnot 15))).

Definition cact_tls_block_new : St tls Z :=
  let* l := gets lay in
  if total l =? 0 then ret 0
  else
    let* block := cact_tls_alloc in
    if block =? 0 then ret 0
    else
      let* tcb := on_mem (cact_tls_fill block l) in
      tls_block_register tcb ;;*
      ret tcb.

Definition __cact_tls_start : St tls unit :=
  let* l := gets lay in
  if total l =? 0 then ret tt
  else
    let* block := cact_tls_alloc in
    if block =? 0 then ret tt
    else
      let* tcb := on_mem (cact_tls_fill block l) in
      tls_block_register tcb ;;*
      set_thread_area tcb ;;*
      ret tt.
End Allocating.

(** The loop body of [cact_tls_module_add]: the image into one existing block. *)
Definition copy_to_block (tot o vaddr filesz memsz : Z) (b : Z * Z) : M unit :=
  if negb (b.2 =? tot) then ret tt
  else
    let slot := b.1 - tot + o in
    (if negb (filesz =? 0) then memcpy slot vaddr filesz ;;* ret tt else ret tt) ;;*
    (if memsz >? filesz then memset (slot + filesz) 0 (memsz - filesz) ;;* ret tt else ret tt).

(** [m = &mods[count++]; m->id = next_id++; ...] *)
Definition append_module (o vaddr filesz memsz align : Z) (l : layout) : layout :=
  mk_layout (total l) (count l + 1) (spare l) (spare_used l) (u32 (next_id l + 1))
    (<[Z.to_nat (count l) := mk_module (next_id l) (u32 o) vaddr filesz memsz align]> (mods l)).

Definition cact_tls_module_add (vaddr filesz memsz align : Z) : St tls Z :=
  let* l := gets lay in
  if count l >=? CACT_TLS_MAX_MODULES then ret (-1)
  else
    let '(o, l) := cact_tls_take l memsz align in
    modify (set_lay l) ;;*
    if o <? 0 then ret (-1)
    else
      modify (set_lay (append_module o vaddr filesz memsz align l)) ;;*
      let* bs := gets tls_blocks in
      on_mem (for_each (copy_to_block (total l) o vaddr filesz memsz) bs) ;;*
      ret o.

(** [for (j = i + 1; j < count; j++) mods[j - 1] = mods[j];] *)
Fixpoint shift_down (steps j : nat) (ms : list tls_module) : list tls_module :=
  match steps with
  | O => ms
  | S steps =>
      match ms !! j with
      | Some m => shift_down steps (S j) (<[(j - 1)%nat := m]> ms)
      | None => ms
      end
  end.

Definition drop_module (o : Z) (l : layout) : layout :=
  let n := Z.to_nat (count l) in
  match list_find (fun m => off m = o /\ memsz m <> 0) (take n (mods l)) with
  | None => l
  | Some (i, _) =>
      let ms := shift_down (n - (i + 1)) (i + 1) (mods l) in
      mk_layout (total l) (count l - 1) (spare l) (spare_used l) (next_id l)
        (alter forget (n - 1)%nat ms)
  end.

Definition cact_tls_module_drop (o : Z) : St tls unit :=
  modify (fun s => set_lay (drop_module o (lay s)) s).

(** [tp32] is the word at %gs:0. *)
Definition ___tls_get_addr (l : layout) (ti : option (Z * Z)) (tp32 : Z) : Z :=
  match ti with
  | None => 0
  | Some (ident, offset) =>
      if total l =? 0 then 0
      else if tp32 =? 0 then 0
      else cact_tls_addr l ident offset tp32
  end.

(** ** Building a block *)

Lemma memcpy_eq m d s l :
  bytes_at m s l -> Forall byte_ok l -> writable m d (length l) ->
  CString.forward_ok d s (Z.of_nat (length l)) ->
  memcpy d s (Z.of_nat (length l)) m = Some (d, write_list d l m).
Proof.
  intros Hs Hb Hd Hf. unfold memcpy, CString.memcpy, CString.memory_copy.
  erewrite bind_run; [done|]. apply CString.copy_loop_eq; try done. lia.
Qed.

Lemma memset_eq m d n :
  writable m d n -> memset d 0 (Z.of_nat n) m = Some (d, write_list d (replicate n 0) m).
Proof.
  intros Hd. unfold memset, CString.memset, CString.memory_set.
  erewrite bind_run; [done|]. apply CString.set_loop_eq; [done|]. lia.
Qed.

(** What a module's slice of a block holds: its image, then zeros. *)
Definition slice (m : tls_module) (img : list Z) : list Z :=
  img ++ replicate (Z.to_nat (memsz m - filesz m)) 0.

(** The image [img] of module [m], somewhere outside the block. *)
Definition image_at (mm : mem) (base size : Z) (x : tls_module * list Z) : Prop :=
  let '(m, img) := x in
  bytes_at mm (vaddr m) img /\ Forall byte_ok img /\ Z.of_nat (length img) = filesz m
  /\ (vaddr m + filesz m <= base \/ base + size <= vaddr m).

Lemma for_each_map {S X Y} (f : Y -> St S unit) (g : X -> Y) xs :
  for_each f (g <$> xs) = for_each (fun x => f (g x)) xs.
Proof. induction xs as [|x xs IH]; csimpl; [done|]. by rewrite IH. Qed.

(** A module lies inside a block of the given size. *)
Definition inside (size : Z) (m : tls_module) : Prop :=
  0 <= filesz m <= memsz m /\ 0 <= off m /\ off m + memsz m <= size.

Lemma slice_length m img :
  Z.of_nat (length img) = filesz m -> filesz m <= memsz m ->
  Z.of_nat (length (slice m img)) = memsz m.
Proof. intros Hi Hf. unfold slice. rewrite length_app, length_replicate. lia. Qed.

(** One image into its zeroed slice. *)
Lemma copy_image_spec base size m img mm :
  image_at mm base size (m, img) -> inside size m ->
  bytes_at mm (base + off m) (replicate (Z.to_nat (memsz m)) 0) ->
  wp (copy_image base m) mm (fun _ mm' =>
    bytes_at mm' (base + off m) (slice m img)
    /\ same_outside mm mm' (base + off m) (length (slice m img))).
Proof.
  intros (Hb & Hok & Hl & Hd) (Hf & Ho & Ht) Hz. unfold copy_image.
  pose proof (slice_length m img Hl ltac:(lia)) as Hsl.
  destruct (Z.eqb_spec (filesz m) 0) as [E|]; cbn [negb]; wp_pure.
  - split; [|done]. unfold slice. destruct img; [|simpl in Hl; lia].
    by replace (memsz m - filesz m) with (memsz m) by lia.
  - rewrite <- Hl. eapply wp_run.
    { apply memcpy_eq; try done.
      - apply bytes_at_writable in Hz. eapply writable_le; [|exact Hz]. rewrite length_replicate. lia.
      - unfold CString.forward_ok. lia. }
    wp_pure. split.
    + unfold slice. apply bytes_at_app. split; [apply bytes_at_write_list|].
      eapply bytes_at_same_outside; [apply same_outside_write_list|right; lia|].
      intros i b [-> Hi]%lookup_replicate. rewrite <- Z.add_assoc, <- Nat2Z.inj_add.
      apply Hz. apply lookup_replicate_2. lia.
    + intros q Hq. apply same_outside_write_list. lia.
Qed.

Lemma fill_images_spec base size xs mm :
  ForallOrdPairs (fun x y => apart x.1 y.1) xs ->
  Forall (fun x => image_at mm base size x /\ inside size x.1) xs ->
  Forall (fun x => bytes_at mm (base + off x.1) (replicate (Z.to_nat (memsz x.1)) 0)) xs ->
  wp (for_each (copy_image base) xs.*1) mm (fun _ mm' =>
    Forall (fun x => bytes_at mm' (base + off x.1) (slice x.1 x.2)) xs
    /\ same_outside mm mm' base (Z.to_nat size)).
Proof.
  intros Hap Him Hz. rewrite for_each_map.
  pose (P := fun (x : tls_module * list Z) mm => image_at mm base size x /\ inside size x.1
    /\ bytes_at mm (base + off x.1) (replicate (Z.to_nat (memsz x.1)) 0)).
  pose (R := fun x y : tls_module * list Z => apart x.1 y.1
    /\ (inside size x.1 /\ Z.of_nat (length x.2) = filesz x.1)
    /\ (inside size y.1 /\ Z.of_nat (length y.2) = filesz y.1)).
  assert (Hsane : Forall (fun x : tls_module * list Z =>
    inside size x.1 /\ Z.of_nat (length x.2) = filesz x.1) xs).
  { eapply Forall_impl; [|exact Him]. intros [m img] [(_ & _ & ? & _) ?]. done. }
  eapply wp_mono; [apply (wp_fill_regions (fun x => copy_image base x.1) (fun x => base + off x.1)
    (fun x => slice x.1 x.2) P R)|].
  - intros [m img] mm1 (Hi & Hin & Hz1). by apply (copy_image_spec base size).
  - intros [m img] [m' img'] mm1 mm2 (Hxy & ((Hf & Ho & Ht) & Hl) & _)
      ((Hb & Hok & Hl' & Hd) & Hin' & Hz') Hsame. simpl in *.
    pose proof (slice_length m img Hl ltac:(lia)) as Hsl. split; [split; [|done]|split; [done|]].
    + eapply bytes_at_same_outside; [exact Hsame| |exact Hb]. lia.
    + destruct Hin' as (? & ? & ?).
      eapply bytes_at_same_outside; [exact Hsame| |exact Hz']. rewrite length_replicate.
      simpl. destruct Hxy; lia.
  - intros [m img] [m' img'] q (Hxy & ((Hf & Ho & Ht) & Hl) & ((Hf' & Ho' & Ht') & Hl')). simpl in *.
    rewrite !slice_length by (done || lia). destruct Hxy; lia.
  - clear -Hap Hsane. induction Hap as [|x xs Hx _ IH]; constructor.
    + apply Forall_cons_1 in Hsane as [? Hs]. apply Forall_forall. intros y Hy. unfold R.
      rewrite Forall_forall in Hx, Hs. auto.
    + apply IH. by apply Forall_cons_1 in Hsane as [_ ?].
  - apply Forall_forall. intros x Hx. rewrite Forall_forall in Him, Hz.
    destruct (Him x Hx). split; [done|]. auto.
  - intros [] mm' [Hall Hout]. split; [done|]. intros q Hq. apply Hout.
    eapply Forall_impl; [|exact Hsane]. intros [m img] [(Hf & Ho & Ht) Hl]. simpl in *.
    rewrite slice_length by (done || lia). lia.
Qed.

Lemma ord_pairs_fmap {A B} (R : B -> B -> Prop) (f : A -> B) l :
  ForallOrdPairs R (f <$> l) -> ForallOrdPairs (fun x y => R (f x) (f y)) l.
Proof.
  induction l as [|a l IH]; csimpl; intros H; [constructor|].
  inversion H as [|? ? H1 H2]; subst. constructor; [|auto]. apply (Forall_fmap f) in H1. exact H1.
Qed.

Lemma layout_inside l : layout_ok l -> Forall (inside (total l)) (live l).
Proof.
  intros Hl. eapply Forall_impl; [|apply (lay_mods _ Hl)].
  intros m (? & ? & ? & _). done.
Qed.

Lemma fill_spec block l xs mm :
  layout_ok l -> live l = xs.*1 ->
  Forall (image_at mm block (total l + 4)) xs ->
  writable mm block (Z.to_nat (total l) + 4) ->
  wp (cact_tls_fill block l) mm (fun tcb mm' =>
    tcb = block + total l
    /\ Forall (fun x => bytes_at mm' (block + off x.1) (slice x.1 x.2)) xs
    /\ bytes_at mm' tcb (word_bytes tcb)
    /\ same_outside mm mm' block (Z.to_nat (total l) + 4)).
Proof.
  intros Hl Hxs Him Hw. destruct (lay_spare _ Hl) as [_ Ht]. pose proof (lay_spare _ Hl) as [Hs _].
  assert (Hin : Forall (fun x : tls_module * list Z => inside (total l) x.1) xs).
  { apply (proj1 (Forall_fmap fst (inside (total l)) xs)). rewrite <- Hxs. by apply layout_inside. }
  unfold cact_tls_fill. wp_pure. rewrite <- (Z2Nat.id (total l)) at 1 by lia.
  eapply wp_run; [apply memset_eq; eapply writable_le; [|exact Hw]; lia|].
  set (m1 := write_list block _ mm).
  assert (Hsame1 : same_outside mm m1 block (Z.to_nat (total l))).
  { pose proof (same_outside_write_list mm block (replicate (Z.to_nat (total l)) 0)) as H.
    by rewrite length_replicate in H. }
  wp_pure. fold (live l). rewrite Hxs.
  eapply wp_mono; [apply (fill_images_spec block (total l) xs m1)|].
  - apply ord_pairs_fmap. rewrite <- Hxs. by apply lay_apart.
  - apply Forall_and; [|exact Hin]. eapply Forall_impl; [|exact Him].
    intros [m img] (Hb & Hok & Hlen & Hd). split; [|csplit].
    eapply bytes_at_same_outside; [exact Hsame1| |exact Hb]. lia.
  - eapply Forall_impl; [|exact Hin]. intros [m img] (Hf & Ho & Hm). simpl in *.
    intros i b [-> Hi]%lookup_replicate. unfold m1. rewrite lookup_write_list, length_replicate.
    rewrite bool_decide_eq_true_2 by lia. by rewrite lookup_replicate_2 by lia.
  - intros [] m2 [Hsl Hsame2]. wp_pure.
    assert (Hw2 : writable m2 (block + total l) 4).
    { intros i Hi. rewrite Hsame2, Hsame1 by lia. specialize (Hw (Z.to_nat (total l) + i)%nat ltac:(lia)).
      by replace (block + Z.of_nat (Z.to_nat (total l) + i)) with (block + total l + Z.of_nat i) in Hw by lia. }
    eapply wp_run; [by apply store32_eq|]. wp_pure. split; [done|].
    set (w := word_bytes _). assert (Hw4 : length w = 4%nat) by done. clearbody w. split; [|split].
    + apply Forall_forall. intros [m img] Hx. rewrite Forall_forall in Hsl, Hin, Him.
      specialize (Hsl _ Hx). specialize (Hin _ Hx). destruct Hin as (Hf & Ho & Hm).
      pose proof (Him _ Hx) as (_ & _ & Hlen & _). simpl in *.
      eapply bytes_at_same_outside; [apply same_outside_write_list| |exact Hsl].
      rewrite slice_length by lia. lia.
    + apply bytes_at_write_list.
    + intros q Hq. rewrite same_outside_write_list by (rewrite Hw4; lia).
      rewrite Hsame2 by lia. apply Hsame1. lia.
Qed.

(** ** Adding a module *)

(** A registered block of the current layout, and the image to copy. *)
Definition block_ready (tot vad fsz : Z) (img : list Z) (b : Z * Z) (mm : mem) : Prop :=
  bytes_at mm vad img /\ Forall byte_ok img /\ Z.of_nat (length img) = fsz
  /\ (b.2 = tot -> writable mm (b.1 - tot) (Z.to_nat tot)
                   /\ (vad + fsz <= b.1 - tot \/ b.1 <= vad)).

Lemma copy_to_block_spec tot o vad fsz msz img b mm :
  b.2 = tot -> 0 <= fsz <= msz -> 0 <= o -> o + msz <= tot ->
  block_ready tot vad fsz img b mm ->
  wp (copy_to_block tot o vad fsz msz b) mm (fun _ mm' =>
    mm' = write_list (b.1 - tot + o) (img ++ replicate (Z.to_nat (msz - fsz)) 0) mm).
Proof.
  intros Hb Hf Ho Hot (Him & Hok & Hlen & Hrdy). destruct (Hrdy Hb) as [Hw Hd].
  unfold copy_to_block. zdecide. cbn [negb]. cbv zeta. set (slot := b.1 - tot + o).
  assert (Hws : writable mm slot (Z.to_nat msz)).
  { intros i Hi. specialize (Hw (Z.to_nat o + i)%nat ltac:(lia)).
    by replace (b.1 - tot + Z.of_nat (Z.to_nat o + i)) with (slot + Z.of_nat i) in Hw by (unfold slot; lia). }
  wp_pure.
  assert (H1 : wp (if negb (fsz =? 0) then memcpy slot vad fsz ;;* ret tt else ret tt) mm
                 (fun _ mm' => mm' = write_list slot img mm)).
  { destruct (Z.eqb_spec fsz 0) as [E|]; cbn [negb]; wp_pure.
    - destruct img; [done|simpl in Hlen; lia].
    - rewrite <- Hlen. eapply wp_run; [|by wp_pure]. apply memcpy_eq; try done.
      + eapply writable_le; [|exact Hws]. lia.
      + unfold CString.forward_ok, slot. lia. }
  eapply wp_mono; [exact H1|]. intros [] mm1 ->.
  destruct (Z.ltb_spec fsz msz); wp_pure.
  - rewrite <- (Z2Nat.id (msz - fsz)) at 1 by lia.
    eapply wp_run; [apply memset_eq; apply writable_write_list|].
    { intros i Hi. specialize (Hws (Z.to_nat fsz + i)%nat ltac:(lia)).
      by replace (slot + Z.of_nat (Z.to_nat fsz + i)) with (slot + fsz + Z.of_nat i) in Hws by lia. }
    wp_pure. rewrite <- Hlen. apply map_eq. intros q.
    rewrite !lookup_write_list, length_app, length_replicate. repeat case_bool_decide; try lia; try done.
    + rewrite lookup_app_r by lia. f_equal. lia.
    + by rewrite lookup_app_l by lia.
  - replace (Z.to_nat (msz - fsz)) with 0%nat by lia. by rewrite app_nil_r.
Qed.

Lemma take_spec l msz al :
  layout_ok l -> 0 <= msz < 2 ^ 31 -> 0 <= al <= 2 ^ 24 ->
  let '(r, l') := cact_tls_take l msz al in
  (r = -1 /\ l' = l /\ spare l < spare_used l + (fix_align al - 1) + msz)
  \/ (0 <= r /\ spare_used l <= r /\ r + msz <= spare l /\ r mod fix_align al = 0
     /\ l' = mk_layout (total l) (count l) (spare l) (r + msz) (next_id l) (mods l)).
Proof.
  intros Hl Hm Ha. destruct (lay_spare _ Hl) as [Hu Hs]. unfold cact_tls_take.
  destruct (fix_align_pow2 al) as (k & Hk & E & Hle); [lia|].
  assert (4 <= fix_align al <= 2 ^ 24).
  { rewrite E. split; [change 4 with (2 ^ 2); apply Z.pow_le_mono_r; lia|].
    rewrite <- E. destruct Hle as [|Hle]; [lia|]. rewrite Hle. lia. }
  destruct (round_up_spec (spare_used l) al) as [Hr Hr0]; [lia..|].
  set (r := round_up _ _) in *. rewrite !Z.gtb_ltb.
  destruct (Z.ltb_spec (spare l) r); [left; csplit|]. rewrite (u32_small (spare l - r)) by lia.
  destruct (Z.ltb_spec (spare l - r) msz); simpl; [left; csplit|right].
  rewrite s32_small, u32_small by lia. csplit.
Qed.

Lemma append_ok l o vad fsz msz al :
  layout_ok l -> count l < 8 -> next_id l + 1 < 2 ^ 31 -> 0 <= fsz <= msz ->
  spare_used l <= o -> o + msz <= spare l -> 0 <= o -> o mod fix_align al = 0 ->
  let l' := append_module o vad fsz msz al
              (mk_layout (total l) (count l) (spare l) (o + msz) (next_id l) (mods l)) in
  layout_ok l' /\ live l' = live l ++ [mk_module (next_id l) o vad fsz msz al]
  /\ total l' = total l.
Proof.
  intros Hl Hc Hid Hf Hu Hs Ho Hal l'. pose proof Hl as [Hlen Hcnt Hsp Hnx Hms Hap Hids].
  set (m := mk_module (next_id l) o vad fsz msz al).
  assert (Hlive : live l' = live l ++ [m]).
  { unfold live, l', append_module. cbn [count mods next_id]. rewrite u32_small by lia. fold m.
    assert (Hln : length (live l) = Z.to_nat (count l)) by (unfold live; rewrite length_take; lia).
    replace (Z.to_nat (count l + 1)) with (Z.to_nat (count l) + 1)%nat by lia.
    pose proof (take_store (mods l) (live l) m) as Hst. rewrite Hln in Hst. apply Hst; [lia|done]. }
  assert (Hnext : next_id l' = next_id l + 1) by (unfold l', append_module; cbn; by rewrite u32_small by lia).
  assert (Hok : forall x, module_ok l' x <->
    module_ok (mk_layout (total l) (count l + 1) (spare l) (o + msz) (next_id l + 1) (mods l)) x).
  { intros x. unfold module_ok. by rewrite Hnext. }
  split; [|done]. constructor; rewrite ?Hlive, ?Hnext; try (unfold l', append_module; cbn; lia).
  - unfold l', append_module. cbn. by rewrite length_insert.
  - apply Forall_app_2.
    + eapply Forall_impl; [|exact Hms]. intros x (? & ? & ? & ? & ? & ? & ?).
      apply Hok. unfold module_ok. cbn. csplit.
    + constructor; [|constructor]. apply Hok. unfold module_ok, m. cbn. csplit.
  - apply ord_pairs_snoc; [done|]. eapply Forall_impl; [|exact Hms].
    intros x (? & ? & ? & ? & ? & Hw & ?). unfold apart, m. cbn. lia.
  - rewrite fmap_app. apply list.NoDup_app. split; [done|]. split; [|apply NoDup_singleton].
    intros x (y & Ex & Hy)%list_elem_of_fmap Ex'%list_elem_of_singleton.
    rewrite Forall_forall in Hms. specialize (Hms y ltac:(by apply list_elem_of_In)).
    destruct Hms as (_ & _ & _ & _ & Hid' & _). cbn in *. lia.
Qed.

(** Registered blocks do not overlap. *)
Definition blocks_apart (tot : Z) (b c : Z * Z) : Prop :=
  b.2 = tot -> c.2 = tot -> b.1 <= c.1 - tot \/ c.1 <= b.1 - tot.

(** The result of adding module [m] with image [img]: the layout has it, every
    registered block holds its image, nothing else changed. *)
Definition added (s : tls) (m : tls_module) (img : list Z) (s' : tls) : Prop :=
  layout_ok (lay s') /\ live (lay s') = live (lay s) ++ [m]
  /\ total (lay s') = total (lay s) /\ tls_blocks s' = tls_blocks s
  /\ Forall (fun b => b.2 = total (lay s) ->
       bytes_at (tmem s') (b.1 - total (lay s) + off m) (slice m img)) (tls_blocks s)
  /\ forall q, Forall (fun b => b.2 = total (lay s) ->
       ~ (b.1 - total (lay s) + off m <= q < b.1 - total (lay s) + off m + memsz m)) (tls_blocks s) ->
     tmem s' !! q = tmem s !! q.

Lemma copy_to_blocks_spec tot o vad fsz msz al img bs mm :
  0 <= fsz <= msz -> 0 <= o -> o + msz <= tot -> Z.of_nat (length img) = fsz ->
  ForallOrdPairs (blocks_apart tot) bs ->
  Forall (fun b => block_ready tot vad fsz img b mm) bs ->
  let m := mk_module 0 o vad fsz msz al in
  wp (for_each (copy_to_block tot o vad fsz msz) bs) mm (fun _ mm' =>
    Forall (fun b => b.2 = tot -> bytes_at mm' (b.1 - tot + o) (slice m img)) bs
    /\ forall q, Forall (fun b => b.2 = tot -> ~ (b.1 - tot + o <= q < b.1 - tot + o + msz)) bs ->
         mm' !! q = mm !! q).
Proof.
  intros Hf Ho Ht Hi Hap Hrdy m.
  assert (Hsl : Z.of_nat (length (slice m img)) = msz) by (apply slice_length; simpl; lia).
  pose (content := fun b : Z * Z => if b.2 =? tot then slice m img else []).
  eapply wp_mono; [apply (wp_fill_regions _ (fun b => b.1 - tot + o) content
    (fun b mm => block_ready tot vad fsz img b mm)
    (fun b c => blocks_apart tot b c /\ block_ready tot vad fsz img b mm))|].
  - intros b mm1 Hb. unfold content. destruct (Z.eqb_spec b.2 tot) as [E|].
    + eapply wp_mono; [by apply (copy_to_block_spec tot o vad fsz msz img)|].
      intros [] mm2 ->. split; [apply bytes_at_write_list|apply same_outside_write_list].
    + unfold copy_to_block. zdecide. wp_pure. split; [apply bytes_at_nil|done].
  - intros b c mm1 mm2 [Hbc Hb] (Hi1 & Hok & Hl & Hc) Hsame. unfold content in Hsame. cbv beta in Hsame.
    assert (Hsome : forall q, is_Some (mm1 !! q) -> b.2 = tot -> c.2 = tot -> 
              c.1 - tot <= q < c.1 -> is_Some (mm2 !! q)).
    { intros q Hq Eb Ec Hr. rewrite Hsame; [done|]. rewrite Eb, Z.eqb_refl, Hsl.
      destruct (Hbc Eb Ec); lia. }
    split; [|csplit].
    + destruct (Z.eqb_spec b.2 tot) as [E|].
      * destruct Hb as (_ & _ & _ & Hb). destruct (Hb E) as [_ Hd].
        eapply bytes_at_same_outside; [exact Hsame| |exact Hi1]. lia.
      * intros i x Hx. rewrite Hsame by (simpl; lia). by apply Hi1.
    + intros E. destruct (Hc E) as [Hw Hd]. split; [|done]. intros i Hi'.
      destruct (Z.eqb_spec b.2 tot) as [Eb|].
      * apply Hsome; [by apply Hw|done|done|lia].
      * rewrite Hsame by (simpl; lia). by apply Hw.
  - intros b c q [Hbc _]. unfold content. destruct (Z.eqb_spec b.2 tot), (Z.eqb_spec c.2 tot);
      rewrite ?Hsl; simpl; try lia. destruct Hbc; lia.
  - clear -Hap Hrdy. induction Hap as [|b bs Hb _ IH]; constructor.
    + apply Forall_cons_1 in Hrdy as [Hr _]. eapply Forall_impl; [|exact Hb]. done.
    + apply IH. by apply Forall_cons_1 in Hrdy as [_ ?].
  - exact Hrdy.
  - intros [] mm' [Hall Hout]. split.
    + eapply Forall_impl; [|exact Hall]. intros b Hb E. unfold content in Hb.
      by rewrite E, Z.eqb_refl in Hb.
    + intros q Hq. apply Hout. eapply Forall_impl; [|exact Hq]. intros b Hb. unfold content.
      destruct (Z.eqb_spec b.2 tot) as [E|]; [rewrite Hsl; by apply Hb|simpl; lia].
Qed.

Lemma module_add_ok s vad fsz msz al img :
  layout_ok (lay s) -> next_id (lay s) + 1 < 2 ^ 31 ->
  0 <= fsz <= msz -> msz < 2 ^ 31 -> 0 <= al <= 2 ^ 24 -> Z.of_nat (length img) = fsz ->
  ForallOrdPairs (blocks_apart (total (lay s))) (tls_blocks s) ->
  Forall (fun b => block_ready (total (lay s)) vad fsz img b (tmem s)) (tls_blocks s) ->
  wp (cact_tls_module_add vad fsz msz al) s (fun r s' =>
    (r = -1 /\ s' = s /\ (count (lay s) = 8 \/
       spare (lay s) < spare_used (lay s) + (fix_align al - 1) + msz))
    \/ (0 <= r /\ r mod fix_align al = 0
       /\ added s (mk_module (next_id (lay s)) r vad fsz msz al) img s')).
Proof.
  intros Hl Hid Hf Hm Ha Hi Hap Hrdy. unfold cact_tls_module_add, CACT_TLS_MAX_MODULES. wp_pure.
  pose proof (lay_count _ Hl). pose proof (lay_spare _ Hl). rewrite Z.geb_leb.
  destruct (Z.leb_spec 8 (count (lay s))); wp_pure; [left; csplit|].
  pose proof (take_spec (lay s) msz al Hl ltac:(lia) Ha) as Ht.
  destruct (cact_tls_take (lay s) msz al) as [o l']. wp_pure.
  destruct Ht as [(-> & -> & Hno)|(Ho & Hu & Hs & Hal & El)].
  { simpl. wp_pure. left. csplit. by destruct s. }
  zdecide. wp_pure. cbn [lay tls_blocks set_lay tmem].
  assert (Etot : total l' = total (lay s)) by (by rewrite El). rewrite Etot.
  destruct (append_ok (lay s) o vad fsz msz al) as (Hok & Hlive & Htot); [done|lia..|done|].
  pose proof (copy_to_blocks_spec (total (lay s)) o vad fsz msz al img (tls_blocks s) (tmem s)
    Hf Ho ltac:(lia) Hi Hap Hrdy) as Hcp.
  apply wp_total in Hcp as ([] & mm' & E & Hall & Hout). eapply wp_run.
  { unfold on_mem. cbn [lay tls_blocks set_lay tmem]. rewrite E. done. }
  wp_pure. right. csplit. rewrite <- El in *. unfold added. cbn [lay tls_blocks tmem set_lay off memsz]. csplit.
Qed.

(** ** Dropping a module, and addresses *)

Lemma shift_down_spec B : forall A x C,
  exists z, shift_down (length B) (S (length A)) (A ++ x :: B ++ C) = A ++ B ++ z :: C.
Proof.
  induction B as [|b B IH]; intros A x C; simpl; [eauto|].
  rewrite lookup_app_r by lia. replace (S (length A) - length A)%nat with 1%nat by lia. simpl.
  rewrite Nat.sub_0_r, insert_app_r_alt, Nat.sub_diag by lia. simpl.
  destruct (IH (A ++ [b]) b C) as [z Hz]. exists z.
  rewrite length_app, <- !app_assoc, Nat.add_1_r in Hz. simpl in Hz. exact Hz.
Qed.

Lemma drop_module_spec o l :
  layout_ok l ->
  (drop_module o l = l /\ forall m, m ∈ live l -> off m = o -> memsz m = 0)
  \/ exists l1 m l2, live l = l1 ++ m :: l2 /\ off m = o /\ memsz m <> 0
       /\ live (drop_module o l) = l1 ++ l2 /\ layout_ok (drop_module o l)
       /\ total (drop_module o l) = total l.
Proof.
  intros Hl. pose proof Hl as [Hlen Hcnt Hsp Hnx Hms Hap Hids].
  unfold drop_module. fold (live l). destruct (list_find _ (live l)) as [[i m]|] eqn:Ef.
  2:{ left. split; [done|]. apply list_find_None in Ef. rewrite Forall_forall in Ef.
      intros m Hm Ho. specialize (Ef m ltac:(by apply list_elem_of_In)).
      destruct (decide (memsz m = 0)); [done|]. exfalso. by apply Ef. }
  right. apply list_find_Some in Ef as (Hi & [Ho Hm] & _).
  apply list_elem_of_split_length in Hi as (l1 & l2 & E & ->). exists l1, m, l2.
  assert (Hn : length (live l) = Z.to_nat (count l)) by (unfold live; rewrite length_take; lia).
  rewrite E, length_app in Hn. simpl in Hn.
  assert (Emods : mods l = l1 ++ m :: l2 ++ drop (Z.to_nat (count l)) (mods l)).
  { rewrite <- (take_drop (Z.to_nat (count l)) (mods l)) at 1. fold (live l). rewrite E.
    by rewrite <- app_assoc. }
  destruct (shift_down_spec l2 l1 m (drop (Z.to_nat (count l)) (mods l))) as [z Hz].
  rewrite <- Emods in Hz.
  replace (Z.to_nat (count l) - (length l1 + 1))%nat with (length l2) by lia.
  rewrite Nat.add_1_r, Hz. set (l' := mk_layout _ _ _ _ _ _).
  assert (Hlive : live l' = l1 ++ l2).
  { unfold live, l'. cbn [count mods]. rewrite take_alter, decide_False by lia. rewrite app_assoc.
    rewrite take_app_le by (rewrite length_app; lia). apply take_ge. rewrite length_app. lia. }
  csplit. constructor; rewrite ?Hlive; cbn.
  - rewrite length_alter, !length_app. simpl. rewrite length_drop. lia.
  - lia.
  - lia.
  - lia.
  - rewrite E in Hms. apply Forall_app in Hms as [H1 H2]. apply Forall_cons_1 in H2 as [_ H2].
    by apply Forall_app_2.
  - rewrite E in Hap. by apply ord_pairs_delete in Hap.
  - rewrite E, fmap_app, fmap_cons in Hids. rewrite fmap_app.
    rewrite <- Permutation_middle in Hids. by apply list.NoDup_cons in Hids as [_ ?].
Qed.

(** A module is found by its id. *)
Lemma tls_addr_eq l m v tp :
  layout_ok l -> m ∈ live l ->
  cact_tls_addr l (id m) v tp = u32 (tp + off m + v - total l).
Proof.
  intros Hl Hm. unfold cact_tls_addr. fold (live l). destruct (list_find _ (live l)) as [[i m']|] eqn:Ef.
  - apply list_find_Some in Ef as (Hi & Hid & _). apply list_elem_of_lookup in Hm as [j Hj].
    assert (i = j) as ->.
    { apply (NoDup_lookup (id <$> live l) i j (id m)); [apply Hl|..];
        rewrite list_lookup_fmap, ?Hi, ?Hj; simpl; congruence. }
    by simplify_eq.
  - apply list_find_None in Ef. rewrite Forall_forall in Ef.
    by destruct (Ef m ltac:(by apply list_elem_of_In)).
Qed.

(** ** Properties *)

(** the layout the dynamic linker makes gives every module an aligned slice
    of the block, no two overlapping and none in the spare room, keeps the
    modules' images, and puts the program's own module right below the thread
    pointer: the address of its variable at offset [v] is [tp - memsz + v], as
    the linker's local-exec displacements assume. *)
Theorem tls_plan_layout l nmods bytes v tp :
  length (mods l) = 8%nat -> 0 < nmods -> 0 < bytes <= 2 ^ 24 ->
  Forall sane (mods l) -> Forall (fun m => align m <= 64) (mods l) ->
  let l' := cact_tls_plan_reserved l nmods bytes in
  layout_ok l' /\ count l' = Z.min nmods 8 /\ spare_used l' = 0 /\ bytes <= spare l'
  /\ (forall i m, (i < Z.to_nat (count l'))%nat -> mods l !! i = Some m ->
       exists m', live l' !! i = Some m' /\ planned bytes i m m')
  /\ (forall m, mods l !! 0%nat = Some m -> cact_tls_addr l' 1 v tp = u32 (tp - memsz m + v)).
Proof.
  intros Hl Hn Hb Hs Ha l'.
  destruct (plan_reserved_ok l nmods bytes Hl Hn Hb Hs Ha) as (Hok & Hc & Hu & Hsp & Him).
  fold l' in Hok, Hc, Hu, Hsp, Him. csplit. intros m Hm.
  destruct (Him 0%nat m ltac:(lia) Hm) as (m' & Hm' & Hp).
  assert (Hid : id m' = 1) by (rewrite Hp; done). assert (Hsz : memsz m' = memsz m) by (rewrite Hp; done).
  rewrite <- Hid, tls_addr_eq by (done || by eapply list_elem_of_lookup_2).
  pose proof (Forall_lookup_in _ _ _ _ (lay_mods _ Hok) Hm') as (_ & _ & _ & _ & _ & _ & Htop).
  specialize (Htop Hid). f_equal. lia.
Qed.

(** [cact_tls_fill] builds a thread's block: each module's slice holds its
    initialised image followed by zeros, the word at the thread pointer is the
    thread pointer itself, and nothing outside the block is written. *)
Theorem tls_fill_block block l xs mm :
  layout_ok l -> live l = xs.*1 ->
  Forall (image_at mm block (total l + 4)) xs ->
  writable mm block (Z.to_nat (total l) + 4) ->
  wp (cact_tls_fill block l) mm (fun tcb mm' =>
    tcb = block + total l
    /\ Forall (fun x => bytes_at mm' (block + off x.1) (slice x.1 x.2)) xs
    /\ bytes_at mm' tcb (word_bytes tcb)
    /\ same_outside mm mm' block (Z.to_nat (total l) + 4)).
Proof. apply fill_spec. Qed.

(** [cact_tls_module_add] either refuses, changing nothing, because the
    table or the spare room is full, or gives the new module an aligned slice
    disjoint from every other one and a new id, and puts its image into every
    block that exists, touching nothing else. *)
Theorem tls_module_add_correct s vad fsz msz al img :
  layout_ok (lay s) -> next_id (lay s) + 1 < 2 ^ 31 ->
  0 <= fsz <= msz -> msz < 2 ^ 31 -> 0 <= al <= 2 ^ 24 -> Z.of_nat (length img) = fsz ->
  ForallOrdPairs (blocks_apart (total (lay s))) (tls_blocks s) ->
  Forall (fun b => block_ready (total (lay s)) vad fsz img b (tmem s)) (tls_blocks s) ->
  wp (cact_tls_module_add vad fsz msz al) s (fun r s' =>
    (r = -1 /\ s' = s /\ (count (lay s) = 8 \/
       spare (lay s) < spare_used (lay s) + (fix_align al - 1) + msz))
    \/ (0 <= r /\ r mod fix_align al = 0
       /\ added s (mk_module (next_id (lay s)) r vad fsz msz al) img s')).
Proof. apply module_add_ok. Qed.

(** dropping a module keeps the layout valid, removes that module and no
    other, and does not move any variable: the address of every module that
    stays is the one it had, although the table is compacted. *)
Theorem tls_drop_addresses l o :
  layout_ok l ->
  layout_ok (drop_module o l)
  /\ (forall m, m ∈ live (drop_module o l) -> m ∈ live l)
  /\ (forall m v tp, m ∈ live l -> off m <> o ->
       cact_tls_addr (drop_module o l) (id m) v tp = cact_tls_addr l (id m) v tp).
Proof.
  intros Hl. destruct (drop_module_spec o l Hl) as [[E _]|(l1 & m0 & l2 & E & Ho & Hm & Ed & Hok & Ht)].
  - by rewrite E.
  - split; [done|]. split.
    + intros m. rewrite Ed, E. set_solver.
    + intros m v tp Hin Hne. rewrite !tls_addr_eq; try done; [by rewrite Ht|].
      rewrite E in Hin. rewrite Ed. set_solver.
Qed.

(** ** A concrete process: a program and a library with [__thread] variables *)

Definition empty_module : tls_module := mk_module 0 0 0 0 0 0.
Definition demo : layout :=
  mk_layout 0 0 0 0 0 ([mk_module 0 0 100 3 12 4; mk_module 0 0 110 2 20 16] ++ replicate 6 empty_module).
Definition demo_lay : layout := cact_tls_plan_reserved demo 2 CACT_TLS_RESERVE.

(** The images at 100 and 110, a block at 4096 whose thread pointer is 5152. *)
Definition demo_mem : mem :=
  write_list 4096 (replicate 1064 0) (write_list 110 [7; 8] (write_list 100 [1; 2; 3] ∅)).

Definition demo_images : list (tls_module * list Z) :=
  [(mk_module 1 1044 100 3 12 4, [1; 2; 3]); (mk_module 2 1024 110 2 20 16, [7; 8])].

Lemma tls_plan_layout_witness :
  0 < CACT_TLS_RESERVE <= 2 ^ 24 /\
  layout_ok demo_lay /\ cact_tls_addr demo_lay 1 4 5152 = u32 (5152 - 12 + 4).
Proof.
  split; [unfold CACT_TLS_RESERVE; lia|].
  destruct (tls_plan_layout demo 2 CACT_TLS_RESERVE 4 5152) as (Hok & _ & _ & _ & _ & Ha).
  - reflexivity.
  - lia.
  - unfold CACT_TLS_RESERVE; lia.
  - unfold sane. repeat constructor; simpl; lia.
  - repeat constructor; simpl; lia.
  - split; [exact Hok|]. exact (Ha _ eq_refl).
Defined.

Lemma demo_lay_ok : layout_ok demo_lay.
Proof.
  apply plan_reserved_ok; try done; try (unfold CACT_TLS_RESERVE; lia).
  - unfold sane. repeat constructor; simpl; lia.
  - repeat constructor; simpl; lia.
Qed.

Lemma demo_images_ok : Forall (image_at demo_mem 4096 (total demo_lay + 4)) demo_images.
Proof.
  repeat constructor; unfold byte_ok; try lia; try solve_bytes; try (simpl; lia).
Qed.

Lemma tls_fill_block_witness :
  layout_ok demo_lay /\
  wp (cact_tls_fill 4096 demo_lay) demo_mem (fun tcb mm' =>
    tcb = 4096 + total demo_lay
    /\ Forall (fun x => bytes_at mm' (4096 + off x.1) (slice x.1 x.2)) demo_images
    /\ bytes_at mm' tcb (word_bytes tcb)
    /\ same_outside demo_mem mm' 4096 (Z.to_nat (total demo_lay) + 4)).
Proof.
  split; [apply demo_lay_ok|].
  apply tls_fill_block; [apply demo_lay_ok|vm_compute; reflexivity|apply demo_images_ok|solve_writable].
Defined.

Definition demo_tls : tls := mk_tls demo_lay [(5152, 1056)] demo_mem.

Lemma tls_module_add_correct_witness :
  next_id demo_lay + 1 < 2 ^ 31 /\
  wp (cact_tls_module_add 100 3 8 8) demo_tls (fun r s' =>
    (r = -1 /\ s' = demo_tls /\ (count demo_lay = 8 \/
       spare demo_lay < spare_used demo_lay + (fix_align 8 - 1) + 8))
    \/ (0 <= r /\ r mod fix_align 8 = 0
       /\ added demo_tls (mk_module (next_id demo_lay) r 100 3 8 8) [1; 2; 3] s')).
Proof.
  split; [vm_compute; reflexivity|].
  apply (tls_module_add_correct demo_tls 100 3 8 8 [1; 2; 3]); try lia.
  - apply demo_lay_ok.
  - vm_compute; reflexivity.
  - reflexivity.
  - repeat constructor.
  - constructor; [|constructor]. split; [solve_bytes|]. split; [unfold byte_ok; repeat constructor; lia|].
    split; [reflexivity|]. intros _. split; [solve_writable|left; vm_compute; discriminate].
Defined.

Lemma tls_drop_addresses_witness :
  layout_ok demo_lay /\
  cact_tls_addr (drop_module 1024 demo_lay) 1 4 5152 = cact_tls_addr demo_lay 1 4 5152.
Proof.
  split; [apply demo_lay_ok|].
  destruct (tls_drop_addresses demo_lay 1024 demo_lay_ok) as (_ & _ & H).
  apply (H (mk_module 1 1044 100 3 12 4) 4 5152); [vm_compute; by left|vm_compute; discriminate].
Defined.

End TlsStatic.
