(* ===== verification/ThreadLocal.v ===== *)
(** * ThreadLocal: finding the running thread's block by its stack (src/thread_local.c)

    [slots] is the C array of 128 entries; a slot is free when its [blk] is
    NULL.  [tls_hint] is a cache that may hold anything.  The stack pointer
    [current_sp] reads from the register and the address of the leader's static
    block are arguments.  The abstract view of the table is the list of its
    live ranges ([ranges]). *)

From Stdlib Require Import ZArith Lia Bool.
From stdpp Require Import base list numbers sets.
From S2P Require Import Prelude Monad.

Module ThreadLocal.

Definition CACT_TLS_MAX_THREADS : Z := 128.

(** [struct tls_slot] *)
Record tls_slot := mk_slot { lo : Z; hi : Z; blk : Z }.

Record table := mk_table { slots : list tls_slot; tls_hint : Z }.

Definition free_slot : tls_slot := mk_slot 0 0 0.
Definition start : table := mk_table (replicate 128 free_slot) (-1).

Definition set_slot (i : nat) (s : tls_slot) (t : table) : table :=
  mk_table (<[i := s]> (slots t)) (tls_hint t).

Definition cact_tlocal_register (stack_base stack_size b : Z) (t : table) : Z * table :=
  if (b =? 0) || (stack_base =? 0) || (stack_size =? 0) then (-1, t)
  else match list_find (fun s => blk s = 0) (slots t) with
       | Some (i, _) =>
           (Z.of_nat i, set_slot i (mk_slot stack_base (u32 (stack_base + stack_size)) b) t)
       | None => (-1, t)
       end.

Definition cact_tlocal_unregister (b : Z) (t : table) : table :=
  if b =? 0 then t
  else match list_find (fun s => blk s = b) (slots t) with
       | Some (i, _) =>
           mk_table (<[i := free_slot]> (slots t))
             (if tls_hint t =? Z.of_nat i then -1 else tls_hint t)
       | None => t
       end.

(** [b && sp >= lo && sp < hi] *)
Definition covers (sp : Z) (s : tls_slot) : bool :=
  negb (blk s =? 0) && (sp >=? lo s) && (sp <? hi s).

(** The scan over the table. *)
Definition scan (leader sp : Z) (t : table) : Z * table :=
  match list_find (fun s => covers sp s = true) (slots t) with
  | Some (i, s) => (blk s, mk_table (slots t) (Z.of_nat i))
  | None => (leader, t)
  end.

Definition cact_tlocal_self (leader sp : Z) (t : table) : Z * table :=
  let h := tls_hint t in
  if (h >=? 0) && (h <? CACT_TLS_MAX_THREADS) then
    match slots t !! Z.to_nat h with
    | Some s => if covers sp s then (blk s, t) else scan leader sp t
    | None => scan leader sp t
    end
  else scan leader sp t.

(** [&cact_tlocal_self()->errno_val]: the first field of the block. *)
Definition __errno_location (leader sp : Z) (t : table) : Z * table := cact_tlocal_self leader sp t.

(** ** The table as a set of live ranges *)

Definition range : Type := Z * Z * Z.

Definition to_range (s : tls_slot) : option range :=
  if blk s =? 0 then None else Some (lo s, hi s, blk s).

Definition ranges (t : table) : list range := omap to_range (slots t).

Definition overlap_free (r r' : range) : Prop := r.1.2 <= r'.1.1 \/ r'.1.2 <= r.1.1.

(** Live stacks do not overlap and belong to different blocks. *)
Definition table_ok (t : table) : Prop :=
  length (slots t) = 128%nat /\ ForallOrdPairs overlap_free (ranges t)
  /\ NoDup (snd <$> ranges t).

(** The block of the range that holds [sp], or the leader's. *)
Definition owner (leader sp : Z) (rs : list range) (b : Z) : Prop :=
  (exists l h, (l, h, b) ∈ rs /\ l <= sp < h)
  \/ (b = leader /\ forall l h b', (l, h, b') ∈ rs -> ~ (l <= sp < h)).

Lemma covers_spec sp s :
  covers sp s = true <-> blk s <> 0 /\ lo s <= sp < hi s.
Proof. unfold covers. rewrite Z.geb_leb. zcases; simpl; intuition (lia || discriminate). Qed.

Lemma in_ranges t i s :
  slots t !! i = Some s -> blk s <> 0 -> (lo s, hi s, blk s) ∈ ranges t.
Proof.
  intros Hi Hb. apply list_elem_of_omap. exists s. split; [by eapply list_elem_of_lookup_2|].
  unfold to_range. by zdecide.
Qed.

Lemma scan_owner leader sp t : owner leader sp (ranges t) (scan leader sp t).1.
Proof.
  unfold scan. destruct (list_find _ (slots t)) as [[i s]|] eqn:E; simpl.
  - apply list_find_Some in E as (Hi & Hc & _). apply covers_spec in Hc as [Hb Hr].
    left. exists (lo s), (hi s). split; [by eapply in_ranges|done].
  - right. split; [done|]. intros l h b Hin Hr.
    apply list_elem_of_omap in Hin as (s & Hs & E'). unfold to_range in E'.
    destruct (Z.eqb_spec (blk s) 0); [done|]. simplify_eq.
    apply list_find_None in E. rewrite Forall_forall in E.
    apply (E s); [done|]. by apply covers_spec.
Qed.

Lemma self_owner leader sp t :
  owner leader sp (ranges t) (cact_tlocal_self leader sp t).1
  /\ slots (cact_tlocal_self leader sp t).2 = slots t.
Proof.
  assert (Hscan : owner leader sp (ranges t) (scan leader sp t).1 /\ slots (scan leader sp t).2 = slots t).
  { split; [apply scan_owner|]. unfold scan. by destruct (list_find _ _) as [[??]|]. }
  unfold cact_tlocal_self. cbv zeta. destruct (_ && _); [|done].
  destruct (slots t !! _) as [s|] eqn:Es; [|done].
  destruct (covers sp s) eqn:Ec; [|done]. apply covers_spec in Ec as [Hb Hr].
  split; [|done]. left. exists (lo s), (hi s). split; [by eapply in_ranges|done].
Qed.

(** In a valid table the owner is unique. *)
Lemma owner_unique leader sp t b b' :
  table_ok t -> owner leader sp (ranges t) b -> owner leader sp (ranges t) b' -> b = b'.
Proof.
  intros (_ & Hd & _) [(l & h & Hin & Hr)|[-> Hno]] [(l' & h' & Hin' & Hr')|[-> Hno']].
  - assert (Hu : forall rs, ForallOrdPairs overlap_free rs -> (l, h, b) ∈ rs -> (l', h', b') ∈ rs -> b = b').
    { clear -Hr Hr'. induction 1 as [|r rs Hf _ IH]; [by intros ?%not_elem_of_nil|].
      rewrite Forall_forall in Hf.
      intros [E|H1]%elem_of_cons [E'|H2]%elem_of_cons; simplify_eq; try done; [..|auto];
        (destruct (Hf _ ltac:(done)); simpl in *; lia). }
    by apply (Hu _ Hd).
  - by destruct (Hno' _ _ _ Hin).
  - by destruct (Hno _ _ _ Hin').
  - done.
Qed.

(** Replacing one slot of the table. *)
Lemma ranges_insert t i s0 s :
  slots t !! i = Some s0 ->
  exists A B, ranges t = A ++ option_list (to_range s0) ++ B
    /\ forall h, ranges (mk_table (<[i := s]> (slots t)) h) = A ++ option_list (to_range s) ++ B.
Proof.
  intros Hi. apply list_elem_of_split_length in Hi as (l1 & l2 & E & ->).
  exists (omap to_range l1), (omap to_range l2). unfold ranges. simpl slots. rewrite E. split.
  - rewrite omap_app. simpl. by destruct (to_range s0).
  - intros h. rewrite insert_app_r_alt, Nat.sub_diag by lia. simpl. rewrite omap_app. simpl.
    by destruct (to_range s).
Qed.

Lemma ord_pairs_perm_cons (r : range) A B :
  ForallOrdPairs overlap_free (A ++ B) -> Forall (overlap_free r) (A ++ B) ->
  ForallOrdPairs overlap_free (A ++ r :: B).
Proof.
  induction A as [|a A IH]; simpl; intros H Hr; [by constructor|].
  inversion H as [|? ? H1 H2]; subst. apply Forall_cons_1 in Hr as [Ha Hr]. constructor; [|auto].
  apply Forall_app in H1 as [? ?]. apply Forall_app_2; [done|]. constructor; [|done].
  unfold overlap_free in *. lia.
Qed.

Lemma tlocal_register_spec base size b t :
  table_ok t -> 0 < base -> 0 < size -> base + size < 2 ^ 32 -> b <> 0 ->
  Forall (overlap_free (base, base + size, b)) (ranges t) -> b ∉ snd <$> ranges t ->
  let '(r, t') := cact_tlocal_register base size b t in
  (r = -1 /\ t' = t /\ length (ranges t) = 128%nat)
  \/ (0 <= r < 128 /\ table_ok t' /\ ranges t' ≡ₚ (base, base + size, b) :: ranges t).
Proof.
  intros (Hlen & Hd & Hnd) Hb Hs Hlim Hb0 Hap Hni. unfold cact_tlocal_register. zdecide. cbn [orb].
  destruct (list_find _ (slots t)) as [[i s0]|] eqn:Ef.
  - right. apply list_find_Some in Ef as (Hi & H0 & _). pose proof (lookup_lt_Some _ _ _ Hi).
    rewrite u32_small by lia. set (s := mk_slot base (base + size) b).
    destruct (ranges_insert t i s0 s Hi) as (A & B & E & E'). unfold set_slot.
    assert (Es0 : to_range s0 = None) by (unfold to_range; by rewrite H0).
    assert (Es : to_range s = Some (base, base + size, b)) by (unfold to_range; simpl; by zdecide).
    rewrite Es0 in E. rewrite Es in E'. simpl in E, E'. split; [lia|].
    rewrite E', E in *. split; [|by rewrite Permutation_middle]. split; [|split].
    + simpl. by rewrite length_insert.
    + rewrite E'. by apply ord_pairs_perm_cons.
    + rewrite E', fmap_app, fmap_cons. rewrite <- Permutation_middle, <- fmap_app.
      by apply list.NoDup_cons.
  - left. csplit. apply list_find_None in Ef. rewrite <- Hlen. unfold ranges. clear -Ef.
    induction (slots t) as [|s l IH]; [done|]. apply Forall_cons_1 in Ef as [Hs Hl].
    csimpl. unfold to_range at 1. zdecide. simpl. by rewrite IH.
Qed.

Lemma unregister_spec l h b t :
  table_ok t -> (l, h, b) ∈ ranges t -> 
  table_ok (cact_tlocal_unregister b t)
  /\ ranges t ≡ₚ (l, h, b) :: ranges (cact_tlocal_unregister b t).
Proof.
  intros (Hlen & Hd & Hnd) Hin. unfold cact_tlocal_unregister.
  pose proof Hin as Hin'. apply list_elem_of_omap in Hin' as (s & Hs & Er). unfold to_range in Er.
  destruct (Z.eqb_spec (blk s) 0) as [|Hb]; [done|]. injection Er as <- <- <-. zdecide.
  destruct (list_find _ (slots t)) as [[i s0]|] eqn:Ef.
  - apply list_find_Some in Ef as (Hi & Hb0 & _).
    destruct (ranges_insert t i s0 free_slot Hi) as (A & B & E & E').
    assert (Er : to_range s0 = Some (lo s0, hi s0, blk s)).
    { unfold to_range. rewrite Hb0. by zdecide. }
    rewrite Er in E. simpl in E, E'.
    assert (Es : (lo s0, hi s0, blk s) = (lo s, hi s, blk s)).
    { rewrite E, fmap_app, fmap_cons in Hnd. rewrite E in Hin.
      rewrite <- Permutation_middle, <- fmap_app in Hnd. apply list.NoDup_cons in Hnd as [Hni _].
      rewrite <- Permutation_middle in Hin. apply elem_of_cons in Hin as [->|Hin]; [done|].
      destruct Hni. by apply (list_elem_of_fmap_2 snd _ (lo s, hi s, blk s)). }
    rewrite Es in E. unfold table_ok. rewrite E', E in *. split; [|by rewrite Permutation_middle].
    split; [simpl; by rewrite length_insert|]. split; [by apply ord_pairs_delete in Hd|].
    rewrite fmap_app, fmap_cons in Hnd. rewrite <- Permutation_middle, <- fmap_app in Hnd.
    by apply list.NoDup_cons in Hnd as [_ ?].
  - apply list_find_None in Ef. rewrite Forall_forall in Ef.
    by destruct (Ef s ltac:(done)).
Qed.

(** ** Runs

    The table after some sequence of thread starts, exits and lookups, with the
    stacks registered in it. *)
Inductive reach : table -> list range -> Prop :=
| reach_start : reach start []
| reach_register t rs base size b r t' :
    reach t rs -> 0 < base -> 0 < size -> base + size < 2 ^ 32 -> b <> 0 ->
    Forall (overlap_free (base, base + size, b)) rs -> b ∉ snd <$> rs ->
    cact_tlocal_register base size b t = (r, t') ->
    reach t' (if r <? 0 then rs else (base, base + size, b) :: rs)
| reach_unregister t rs1 l h b rs2 :
    reach t (rs1 ++ (l, h, b) :: rs2) -> reach (cact_tlocal_unregister b t) (rs1 ++ rs2)
| reach_self t rs leader sp :
    reach t rs -> reach (cact_tlocal_self leader sp t).2 rs.

Lemma reach_ok t rs : reach t rs -> table_ok t /\ ranges t ≡ₚ rs.
Proof.
  induction 1 as [|t rs base size b r t' _ [Hok Hp] Hb Hs Hl Hb0 Hap Hni E
                  |t rs1 l h b rs2 _ [Hok Hp]|t rs leader sp _ [Hok Hp]].
  - split; [|by vm_compute]. split; [done|]. split; vm_compute; constructor.
  - assert (Hap' : Forall (overlap_free (base, base + size, b)) (ranges t)) by (by rewrite Hp).
    assert (Hni' : b ∉ snd <$> ranges t) by (by rewrite Hp).
    pose proof (tlocal_register_spec base size b t Hok Hb Hs Hl Hb0 Hap' Hni') as Hr. rewrite E in Hr.
    destruct Hr as [(-> & -> & _)|(Hr0 & Hok' & Hp')]; [done|]. zdecide.
    split; [done|]. by rewrite Hp', Hp.
  - destruct (unregister_spec l h b t Hok) as [Hok' Hp']; [rewrite Hp; set_solver|].
    split; [done|]. apply (Permutation_cons_inv (a := (l, h, b))).
    by rewrite <- Hp', Hp, Permutation_middle.
  - destruct (self_owner leader sp t) as [_ E]. unfold table_ok, ranges in *. by rewrite E.
Qed.

(** at any time a thread whose stack is registered finds its own block, and
    a stack pointer in no registered range finds the leader's, whatever the
    hint holds: [errno] and the other per-thread values are never mixed up. *)
Theorem tlocal_self_correct t rs leader sp :
  reach t rs ->
  (forall l h b, (l, h, b) ∈ rs -> l <= sp < h -> (cact_tlocal_self leader sp t).1 = b)
  /\ ((forall l h b, (l, h, b) ∈ rs -> ~ (l <= sp < h)) -> (cact_tlocal_self leader sp t).1 = leader).
Proof.
  intros Hr. destruct (reach_ok t rs Hr) as [Hok Hp].
  destruct (self_owner leader sp t) as [Ho _]. split.
  - intros l h b Hin Hsp. apply (owner_unique leader sp t _ _ Hok Ho). left. exists l, h.
    by rewrite Hp.
  - intros Hno. destruct Ho as [(l & h & Hin & Hsp)|[-> _]]; [|done].
    rewrite Hp in Hin. by destruct (Hno _ _ _ Hin).
Qed.

Lemma tlocal_self_correct_witness :
  reach (cact_tlocal_register 4096 1024 77 start).2 [(4096, 5120, 77)] /\
  (cact_tlocal_self 9 5000 (cact_tlocal_register 4096 1024 77 start).2).1 = 77.
Proof.
  assert (Hr : reach (cact_tlocal_register 4096 1024 77 start).2 [(4096, 5120, 77)]).
  { apply (reach_register start [] 4096 1024 77 0 _ reach_start); try lia; [constructor|set_solver|].
    reflexivity. }
  split; [exact Hr|].
  destruct (tlocal_self_correct _ _ 9 5000 Hr) as [H _].
  apply (H 4096 5120 77); [by left|lia].
Defined.

End ThreadLocal.
