(* ===== verification/Semaphore.v ===== *)
(** * Semaphore: POSIX semaphores on a futex word (src/semaphore.c)

    Any number of threads run [sem_wait], [sem_trywait], [sem_timedwait] and
    [sem_post] on one semaphore.  A thread is a program counter; [sem_step] is
    its next atomic action on the shared word, a translation of the code
    between two accesses to the word, and [step] interleaves the threads.
    [Asleep] is a thread queued in the kernel: [FUTEX_WAIT] compares and sleeps
    atomically, [FUTEX_WAKE 1] releases one sleeper if there is one, a signal
    or the timeout ends a sleep (futex.h).  What the clock and the kernel answer is an argument of the step.
    The fields [posted] and [taken] only count completed operations. *)

From Stdlib Require Import ZArith Lia Bool.
From stdpp Require Import base list numbers.
From S2P Require Import Prelude Monad.

Module Semaphore.

Definition EINTR : Z := 4.
Definition EAGAIN : Z := 11.
Definition EINVAL : Z := 22.
Definition ETIMEDOUT : Z := 110.

(** [sem_t] *)
Record sem_t := mk_sem { count : Z; pshared : Z }.

(** [sem_init], [sem_destroy] and [sem_getvalue]: result, errno if it is set,
    and the new semaphore or the value stored. *)
Definition sem_init (sem : option sem_t) (psh value : Z) : Z * option Z * option sem_t :=
  match sem with
  | None => (-1, Some EINVAL, None)
  | Some _ => (0, None, Some (mk_sem (s32 value) (if psh =? 0 then 0 else 1)))
  end.

Definition sem_destroy (sem : option sem_t) : Z * option Z :=
  match sem with None => (-1, Some EINVAL) | Some _ => (0, None) end.

Definition sem_getvalue (sem : option sem_t) (sval : Z) : Z * option Z * option Z :=
  match sem with
  | Some s => if sval =? 0 then (-1, Some EINVAL, None) else (0, None, Some (count s))
  | None => (-1, Some EINVAL, None)
  end.

(** The futex operation a semaphore uses: the shared key when it is pshared. *)
Inductive futex_key := Private | Shared.
Definition sem_futex_key (s : sem_t) : futex_key := if pshared s =? 0 then Private else Shared.

(** Milliseconds left until [abstime], in the [long] arithmetic of the code. *)
Definition remaining_ms (abstime now : Z * Z) : Z :=
  s32 (s32 (s32 (abstime.1 - now.1) * 1000) + Z.quot (s32 (abstime.2 - now.2)) 1000000).

Inductive call := Wait | TryWait | TimedWait (abstime : Z * Z) | Post.

Inductive pc :=
| Out (r e : Z)              (** not in a call: the last result and errno *)
| Load (c : call)            (** [sem_try_decr]: about to load the count *)
| Cas (c : call) (v : Z)     (** about to compare-and-swap [v] to [v - 1] *)
| Zero (c : call)            (** [sem_try_decr] found 0 *)
| FWait (c : call) (ms : Z)  (** about to [FUTEX_WAIT] for 0 *)
| Asleep (c : call)          (** queued in the kernel *)
| Back (c : call) (r : Z)    (** [FUTEX_WAIT] returned [r] *)
| Add                        (** [sem_post]: about to add 1 *)
| Wake.                      (** about to [FUTEX_WAKE] one *)

(** What the environment answers to a step: the clock, if it is read. *)
Inductive answer := NoAnswer | Clock (now : Z * Z) | ClockFails.

(** The value of the count decides how [sem_try_decr] goes on. *)
Definition try_decr (c : call) (n : Z) : pc := if n >? 0 then Cas c n else Zero c.

(** [sem_wait], [sem_trywait] and [sem_timedwait] after [sem_try_decr] failed. *)
Definition after_zero (c : call) (a : answer) : option pc :=
  match c, a with
  | Wait, _ => Some (FWait Wait (-1))
  | TryWait, _ => Some (Out (-1) EAGAIN)
  | TimedWait abstime, Clock now =>
      let ms := remaining_ms abstime now in
      if ms <=? 0 then Some (Out (-1) ETIMEDOUT)
      else Some (FWait c (if ms >? 0x7fffffff then 0x7fffffff else ms))
  | TimedWait _, ClockFails => Some (Out (-1) EINVAL)
  | _, _ => None
  end.

(** And after [sem_futex_wait] returned [r]. *)
Definition after_wait (c : call) (r : Z) : pc :=
  if (match c with TimedWait _ => r =? - ETIMEDOUT | _ => false end) then Out (-1) ETIMEDOUT
  else if r =? - EINTR then Out (-1) EINTR
  else if (r <? 0) && negb (r =? - EAGAIN) then Out (-1) EINVAL
  else Load c.

Definition sem_step (p : pc) (n : Z) (a : answer) : option (pc * Z) :=
  match p with
  | Load c => Some (try_decr c n, n)
  | Cas c v => if n =? v then Some (Out 0 0, n - 1) else Some (try_decr c n, n)
  | Zero c => match after_zero c a with Some p' => Some (p', n) | None => None end
  | FWait c ms => if n =? 0 then Some (Asleep c, n) else Some (Back c (- EAGAIN), n)
  | Back c r => Some (after_wait c r, n)
  | Add => Some (Wake, s32 (n + 1))
  | Out _ _ | Asleep _ | Wake => None
  end.

Definition entry (c : call) : pc := match c with Post => Add | _ => Load c end.

(** The whole system. *)
Record sys := mk_sys { word : Z; threads : list pc; posted : Z; taken : Z }.

(** Completed operations, for the count. *)
Definition posts (p : pc) : Z := match p with Add => 1 | _ => 0 end.
Definition takes (p : pc) (n : Z) : Z :=
  match p with Cas _ v => if n =? v then 1 else 0 | _ => 0 end.

Inductive step (s : sys) : sys -> Prop :=
| step_call i r e c :
    threads s !! i = Some (Out r e) ->
    step s (mk_sys (word s) (<[i := entry c]> (threads s)) (posted s) (taken s))
| step_run i p a p' n' :
    threads s !! i = Some p -> sem_step p (word s) a = Some (p', n') ->
    step s (mk_sys n' (<[i := p']> (threads s)) (posted s + posts p) (taken s + takes p (word s)))
| step_wake i j c :
    threads s !! i = Some Wake -> threads s !! j = Some (Asleep c) ->
    step s (mk_sys (word s) (<[j := Back c 0]> (<[i := Out 0 0]> (threads s))) (posted s) (taken s))
| step_wake_none i :
    threads s !! i = Some Wake -> (forall c, Asleep c ∉ threads s) ->
    step s (mk_sys (word s) (<[i := Out 0 0]> (threads s)) (posted s) (taken s))
| step_interrupt j c r :
    threads s !! j = Some (Asleep c) -> r = - EINTR \/ (r = - ETIMEDOUT /\ c <> Wait) ->
    step s (mk_sys (word s) (<[j := Back c r]> (threads s)) (posted s) (taken s)).

(** [n] threads about to use a semaphore initialised to [v]. *)
Definition init (v : Z) (n : nat) : sys := mk_sys (s32 v) (replicate n (Out 0 0)) 0 0.

Inductive reach (v : Z) (n : nat) : sys -> Prop :=
| reach_init : reach v n (init v n)
| reach_step s s' : reach v n s -> step s s' -> reach v n s'.

(** ** The count *)

Definition cas_ok (p : pc) : Prop := match p with Cas _ v => 0 < v | _ => True end.

Definition count_inv (v : Z) (s : sys) : Prop :=
  (0 <= posted s /\ 0 <= taken s) /\ (v + posted s < 2 ^ 31 -> word s = v + posted s - taken s /\ 0 <= word s)
  /\ Forall cas_ok (threads s).

Lemma entry_ok c : cas_ok (entry c).
Proof. by destruct c. Qed.

Lemma try_decr_ok c n : cas_ok (try_decr c n).
Proof. unfold try_decr. rewrite Z.gtb_ltb. zcases; done. Qed.

Lemma sem_step_ok p n a p' n' : sem_step p n a = Some (p', n') -> cas_ok p'.
Proof.
  pose proof try_decr_ok.
  destruct p as [| |? v|[] |c ms| |c r| |]; simpl; intros; simplify_eq; try done;
    repeat (case_match; simplify_eq; try done); try auto.
  unfold after_wait. repeat case_match; done.
Qed.

Lemma reach_count v n s : 0 <= v < 2 ^ 31 -> reach v n s -> count_inv v s.
Proof.
  intros Hv. induction 1 as [|s s' _ (Hp & Hc & Hok) Hs].
  - split; [done|]. split; [simpl; rewrite s32_small by lia; lia|]. by apply Forall_replicate.
  - destruct Hs as [i r e c Hi|i p a p' n' Hi E|i j c Hi Hj|i Hi Hno|j c r Hj Hr];
      (split; [simpl; unfold posts, takes in *; try destruct p; zcases; lia|]); simpl;
      (split; [|repeat apply Forall_insert; eauto using entry_ok, sem_step_ok; done]); auto.
    intros Hb. pose proof (Forall_lookup_in _ _ _ _ Hok Hi) as Hpi.
    destruct p as [| |c v0|c|c ms| |c r| |]; simpl in *; simplify_eq;
      rewrite ?Z.add_0_r in *; try (destruct (Hc ltac:(lia)); simplify_eq; try done; lia).
    + destruct (Z.eqb_spec (word s) v0); simplify_eq; destruct (Hc ltac:(lia)); lia.
    + case_match; [|done]. simplify_eq. auto.
    + case_match; simplify_eq; auto.
    + destruct (Hc ltac:(lia)). rewrite s32_small; lia.
Qed.

(** ** Wake-ups *)

Definition waiter (c : call) : bool :=
  match c with Wait | TimedWait _ => true | _ => false end.

Definition asleep (p : pc) : bool := match p with Asleep _ => true | _ => false end.
Definition waking (p : pc) : bool := match p with Wake => true | _ => false end.

(** A waiter that will look at the count again before it sleeps. *)
Definition trying (p : pc) : bool :=
  match p with
  | Load c | Cas c _ => waiter c
  | Back c r => (r =? 0) || (r =? - EAGAIN)
  | _ => false
  end.

(** Only waiters sleep. *)
Definition sleeper_ok (p : pc) : Prop :=
  match p with FWait c _ | Asleep c | Back c _ => waiter c = true | _ => True end.

Lemma sem_step_sleeper p n a p' n' :
  sleeper_ok p -> sem_step p n a = Some (p', n') -> sleeper_ok p'.
Proof.
  intros Hp. destruct p as [| |? v|[] |c ms| |c r| |]; simpl in *; intros; simplify_eq; try done;
    unfold try_decr in *; repeat (case_match; simplify_eq; try done).
  unfold after_wait. repeat case_match; done.
Qed.

(** How one thread's action moves the three counts. *)
Definition balance (p : pc) : Z := b2z (trying p) + b2z (waking p).

Lemma sem_step_balance p n a p' n' :
  sleeper_ok p -> 0 <= n -> (p = Add -> n < 2 ^ 31 - 1) -> sem_step p n a = Some (p', n') ->
  (asleep p = false /\ n' - n <= balance p' - balance p /\ asleep p' = false)
  \/ n' <= 0.
Proof.
  intros Hp Hn Hadd. unfold balance. destruct p as [| |c v|c|c ms| |c r| |]; simpl in *; intros; simplify_eq; try done.
  - unfold try_decr. rewrite Z.gtb_ltb. zcases; [left|right; lia]. simpl. csplit.
  - destruct (Z.eqb_spec n v); simplify_eq.
    + left. simpl. destruct (waiter c); simpl; csplit.
    + unfold try_decr. rewrite Z.gtb_ltb. zcases; [left|right; lia]. simpl. csplit.
  - left. destruct c, a; simpl in *; simplify_eq; repeat (case_match; simplify_eq); simpl; csplit.
  - destruct (Z.eqb_spec n 0); simplify_eq; [right; lia|left]. simpl. csplit.
  - left. unfold after_wait. split; [done|].
    assert (Hw : forall b : bool, b2z b >= 0) by (intros []; simpl; lia).
    destruct ((r =? 0) || (r =? - EAGAIN)) eqn:Er; simpl.
    + assert (E : (match c with TimedWait _ => r =? - ETIMEDOUT | _ => false end) = false
                /\ (r =? - EINTR) = false /\ (r <? 0) && negb (r =? - EAGAIN) = false).
      { unfold ETIMEDOUT, EINTR, EAGAIN in *. apply orb_true_iff in Er as [->%Z.eqb_eq| ->%Z.eqb_eq];
          by destruct c. }
      destruct E as (-> & -> & ->). simpl. rewrite Hp. simpl. csplit.
    + repeat case_match; simpl; csplit.
  - specialize (Hadd eq_refl). left. rewrite s32_small by lia. simpl. csplit.
Qed.

Definition wake_inv (v : Z) (s : sys) : Prop :=
  Forall sleeper_ok (threads s) /\
  (v + posted s < 2 ^ 31 -> 0 < cnt asleep (threads s) ->
   word s <= cnt trying (threads s) + cnt waking (threads s)).

Lemma reach_wake v n s : 0 <= v < 2 ^ 31 -> reach v n s -> wake_inv v s.
Proof.
  intros Hv Hr. induction Hr as [|s s' Hr [Hok Hw] Hs].
  - split; [by apply Forall_replicate|]. intros _ Hp. exfalso.
    apply cnt_pos_inv in Hp as (i & p & Hi & Hf). apply lookup_replicate in Hi as [-> _]. done.
  - pose proof (reach_count v n s Hv Hr) as ((Hp & Ht) & Hc & _).
    assert (Hpos : forall f : pc -> bool, 0 <= cnt f (threads s)) by (intros; apply cnt_nonneg).
    pose proof (Hpos trying). pose proof (Hpos waking). pose proof (Hpos asleep).
    destruct Hs as [i r e c Hi|i p a p' n' Hi E|i j c Hi Hj|i Hi Hno|j c r Hj Hrr]; split; simpl.
    + apply Forall_insert; [done|]. by destruct c.
    + rewrite !(cnt_insert _ _ i _ _ Hi). simpl. destruct c; simpl; lia.
    + apply Forall_insert; [done|]. eapply sem_step_sleeper; [|exact E].
      by eapply Forall_lookup_in.
    + pose proof (Forall_lookup_in _ _ _ _ Hok Hi) as Hpi.
      rewrite !(cnt_insert _ _ i _ _ Hi). intros Hb Ha. unfold posts in Hb.
      destruct (Hc ltac:(destruct p; lia)) as [Hword Hn0].
      destruct (sem_step_balance p (word s) a p' n' Hpi) as [(E1 & E2 & E3)|Hle].
      { done. }
      { intros ->. simpl in Hb. lia. }
      { exact E. }
      * rewrite E1, E3 in Ha. simpl in Ha. unfold balance in E2.
        specialize (Hw ltac:(destruct p; lia) ltac:(lia)). lia.
      * pose proof (cnt_insert trying _ i _ p' Hi). pose proof (cnt_insert waking _ i _ p' Hi).
        pose proof (cnt_nonneg trying (<[i := p']> (threads s))).
        pose proof (cnt_nonneg waking (<[i := p']> (threads s))). lia.
    + apply Forall_insert; [by apply Forall_insert|].
      exact (Forall_lookup_in _ _ _ _ Hok Hj).
    + assert (Hij : i <> j) by (intros ->; congruence).
      assert (E : forall f, cnt f (<[j := Back c 0]> (<[i := Out 0 0]> (threads s)))
                = cnt f (threads s) - b2z (f Wake) + b2z (f (Out 0 0)) - b2z (f (Asleep c)) + b2z (f (Back c 0))).
      { intros f. rewrite (cnt_insert f _ j (Asleep c)) by (by rewrite list_lookup_insert_ne).
        by rewrite (cnt_insert f _ i _ _ Hi). }
      rewrite !E. simpl. lia.
    + by apply Forall_insert.
    + rewrite !(cnt_insert _ _ i _ _ Hi). simpl. intros Hb Ha. exfalso.
      assert (0 < cnt asleep (threads s)) as (k & p & Hk & Hf)%cnt_pos_inv by lia.
      destruct p; try done. apply (Hno c). by eapply list_elem_of_lookup_2.
    + apply Forall_insert; [done|]. exact (Forall_lookup_in _ _ _ _ Hok Hj).
    + rewrite !(cnt_insert _ _ j _ _ Hj). simpl. 
      replace ((r =? 0) || (r =? - EAGAIN)) with false
        by (destruct Hrr as [->|[-> _]]; done). simpl. lia.
Qed.

(** ** Properties *)

(** C7: whatever the interleaving of waits, timed waits, try-waits, posts,
    signals and timeouts, the value of the semaphore is its initial value plus
    the posts done minus the decrements done, and it is never negative (as long
    as the posts do not overflow the [int]). *)
Theorem sem_conservation v n s :
  0 <= v < 2 ^ 31 -> reach v n s -> v + posted s < 2 ^ 31 ->
  word s = v + posted s - taken s /\ 0 <= word s.
Proof. intros Hv Hr Hp. by apply (reach_count v n s Hv Hr). Qed.

(** C8: no wake-up is lost: in every reachable state in which some thread sleeps
    in the kernel, the value is at most the number of waiters that will look at
    it again before they sleep and of posters that have yet to wake a sleeper
    (as long as the posts do not overflow the [int]); so when every thread has
    returned or sleeps, and one sleeps, the value is 0. *)
Theorem sem_no_lost_wakeup v n s :
  0 <= v < 2 ^ 31 -> reach v n s -> v + posted s < 2 ^ 31 ->
  (exists p, p ∈ threads s /\ asleep p = true) ->
  word s <= cnt trying (threads s) + cnt waking (threads s)
  /\ ((forall p, p ∈ threads s -> asleep p = true \/ exists r e, p = Out r e) -> word s = 0).
Proof.
  intros Hv Hr Hp (p & (i & Hi)%list_elem_of_lookup & Ha).
  destruct (reach_wake v n s Hv Hr) as [_ Hw].
  specialize (Hw Hp (cnt_pos asleep _ i p Hi Ha)). split; [exact Hw|]. intros Hq.
  rewrite (cnt_zero trying), (cnt_zero waking) in Hw.
  - destruct (reach_count v n s Hv Hr) as (_ & Hc & _). destruct (Hc Hp). lia.
  - intros q Hin. destruct (Hq q Hin) as [?|(r & e & ->)]; [by destruct q|done].
  - intros q Hin. destruct (Hq q Hin) as [?|(r & e & ->)]; [by destruct q|done].
Qed.

(** Two threads on a semaphore of value 0: the first sleeps, the second posts. *)
Definition asleep_one : sys := mk_sys 0 [Asleep Wait; Out 0 0] 0 0.

Lemma asleep_one_reach : reach 0 2 asleep_one.
Proof.
  assert (H1 : reach 0 2 (mk_sys 0 [Load Wait; Out 0 0] 0 0))
    by exact (reach_step _ _ _ _ (reach_init 0 2) (step_call (init 0 2) 0 0 0 Wait eq_refl)).
  assert (H2 : reach 0 2 (mk_sys 0 [Zero Wait; Out 0 0] 0 0))
    by exact (reach_step _ _ _ _ H1 (step_run (mk_sys 0 [Load Wait; Out 0 0] 0 0) 0 _ NoAnswer _ _ eq_refl eq_refl)).
  assert (H3 : reach 0 2 (mk_sys 0 [FWait Wait (-1); Out 0 0] 0 0))
    by exact (reach_step _ _ _ _ H2 (step_run (mk_sys 0 [Zero Wait; Out 0 0] 0 0) 0 _ NoAnswer _ _ eq_refl eq_refl)).
  exact (reach_step _ _ _ _ H3
    (step_run (mk_sys 0 [FWait Wait (-1); Out 0 0] 0 0) 0 _ NoAnswer _ _ eq_refl eq_refl)).
Qed.

Lemma sem_conservation_witness :
  reach 0 2 asleep_one /\ word asleep_one = 0 + posted asleep_one - taken asleep_one
  /\ 0 <= word asleep_one.
Proof.
  split; [apply asleep_one_reach|].
  apply (sem_conservation 0 2 asleep_one); [lia|apply asleep_one_reach|simpl; lia].
Defined.

Lemma sem_no_lost_wakeup_witness :
  (exists p, p ∈ threads asleep_one /\ asleep p = true) /\ word asleep_one = 0.
Proof.
  assert (H : exists p, p ∈ threads asleep_one /\ asleep p = true)
    by (exists (Asleep Wait); split; [by left|done]).
  split; [exact H|].
  apply (sem_no_lost_wakeup 0 2 asleep_one); [lia|apply asleep_one_reach|simpl; lia|exact H|].
  intros p Hp. simpl in Hp. apply elem_of_cons in Hp as [->|Hp]; [by left|].
  apply elem_of_cons in Hp as [->|Hp]; [right; eauto|by apply not_elem_of_nil in Hp].
Defined.

(** [sem_timedwait] computes the time left in a 32-bit [long]: for a deadline
    25 days (2,160,000 seconds) ahead the product wraps, the result is
    negative, and the call reports ETIMEDOUT at once instead of waiting. *)
Theorem sem_timedwait_far_deadline now :
  - 2 ^ 31 <= now.1 -> now.1 + 2160000 < 2 ^ 31 -> 0 <= now.2 < 10 ^ 9 ->
  after_zero (TimedWait (now.1 + 2160000, now.2)) (Clock now) = Some (Out (-1) ETIMEDOUT).
Proof.
  intros H1 H2 H3. unfold after_zero, remaining_ms. cbn [fst snd].
  replace (now.1 + 2160000 - now.1) with 2160000 by lia. rewrite Z.sub_diag. reflexivity.
Qed.

Lemma sem_timedwait_far_deadline_witness :
  1750000000 + 2160000 < 2 ^ 31 /\
  after_zero (TimedWait (1750000000 + 2160000, 0)) (Clock (1750000000, 0)) = Some (Out (-1) ETIMEDOUT).
Proof.
  split; [lia|]. apply (sem_timedwait_far_deadline (1750000000, 0)); simpl; lia.
Defined.

End Semaphore.
