(* ===== verification/Mutex.v ===== *)
(** * Mutex: the pthread mutex on a futex word (src/pthread.c)

    Any number of threads lock, try to lock and unlock one mutex, of any type.
    [mutex_step] is a thread's next atomic action, a translation of the code
    between two accesses to the mutex; [step] interleaves the threads.  A
    thread's kernel id is [tid]: positive and distinct.  The number carried by
    a program point is the depth to which the thread holds a recursive mutex.
    [Asleep] is a thread queued in the kernel; [FUTEX_WAIT] compares and sleeps
    atomically, [FUTEX_WAKE 1] releases a sleeper if there is one, and a sleep
    may end for other reasons (futex.h). *)

From Stdlib Require Import ZArith Lia Bool.
From stdpp Require Import base list numbers.
From S2P Require Import Prelude Monad.

Module Mutex.

Definition EPERM : Z := 1.
Definition EBUSY : Z := 16.
Definition EINVAL : Z := 22.
Definition EDEADLK : Z := 35.
Definition PTHREAD_MUTEX_NORMAL : Z := 0.
Definition PTHREAD_MUTEX_RECURSIVE : Z := 1.
Definition PTHREAD_MUTEX_ERRORCHECK : Z := 2.

(** [pthread_mutex_t] *)
Record mutex := mk_mutex { state : Z; mtype : Z; mcount : Z; owner : Z }.

Definition set_state (v : Z) (m : mutex) : mutex := mk_mutex v (mtype m) (mcount m) (owner m).
Definition set_count (v : Z) (m : mutex) : mutex := mk_mutex (state m) (mtype m) v (owner m).
Definition set_owner (v : Z) (m : mutex) : mutex := mk_mutex (state m) (mtype m) (mcount m) v.

Definition pthread_mutex_init (m : option mutex) : Z * option mutex :=
  match m with
  | None => (EINVAL, None)
  | Some _ => (0, Some (mk_mutex 0 PTHREAD_MUTEX_NORMAL 0 0))
  end.

Definition pthread_mutex_destroy (m : option mutex) : Z :=
  match m with
  | None => EINVAL
  | Some m => if negb (state m =? 0) then EBUSY else 0
  end.

Inductive pc :=
| Idle (r : Z)         (** holds nothing; the last call returned [r] *)
| Held (n : Z)         (** holds the mutex, [n] deep *)
| LockEnter (n : Z)    (** [pthread_mutex_lock]: the recursive test *)
| LockCount (n : Z)    (** owner again: [mutex->count++] *)
| LockLoad             (** about to load [state] *)
| LockCas              (** about to compare-and-swap 0 to 1 *)
| LockCheck            (** the error-check test *)
| SlowCas              (** [mutex_lock_slow]: about to compare-and-swap 0 to 2 *)
| SlowPromote          (** saw 1: about to compare-and-swap 1 to 2 *)
| SlowWait             (** about to [FUTEX_WAIT] while 2 *)
| Asleep               (** queued in the kernel *)
| SetOwner             (** recursive: about to record the owner *)
| SetCount             (** and the depth *)
| TryEnter (n : Z)     (** [pthread_mutex_trylock]: the recursive test *)
| TryCas               (** about to compare-and-swap 0 to 1 *)
| UnlockEnter (n : Z)  (** [pthread_mutex_unlock]: the owner test *)
| UnlockTest (n : Z)   (** the depth test *)
| UnlockDecr (n : Z)   (** about to [count--] *)
| UnlockCount          (** about to [count = 0] *)
| UnlockOwner          (** about to [owner = 0] *)
| UnlockXchg           (** about to exchange [state] with 0 *)
| UnlockWake.          (** it was 2: about to [FUTEX_WAKE] one *)

Definition recursive (m : mutex) : bool := mtype m =? PTHREAD_MUTEX_RECURSIVE.

(** A thread that got the lock: a recursive mutex records it. *)
Definition acquired (m : mutex) : pc := if recursive m then SetOwner else Held 1.

Definition mutex_step (me : Z) (p : pc) (m : mutex) : option (pc * mutex) :=
  match p with
  | LockEnter n =>
      if recursive m then
        if owner m =? me then Some (LockCount n, m) else Some (LockLoad, m)
      else Some (LockLoad, m)
  | LockCount n => Some (Held (n + 1), set_count (s32 (mcount m + 1)) m)
  | LockLoad => if state m =? 0 then Some (LockCas, m) else Some (LockCheck, m)
  | LockCas =>
      if state m =? 0 then Some (acquired m, set_state 1 m) else Some (LockCheck, m)
  | LockCheck =>
      if (mtype m =? PTHREAD_MUTEX_ERRORCHECK) && (owner m =? me)
      then Some (Idle EDEADLK, m) else Some (SlowCas, m)
  | SlowCas =>
      if state m =? 0 then Some (acquired m, set_state 2 m)
      else if state m =? 1 then Some (SlowPromote, m) else Some (SlowWait, m)
  | SlowPromote => Some (SlowWait, if state m =? 1 then set_state 2 m else m)
  | SlowWait => if state m =? 2 then Some (Asleep, m) else Some (SlowCas, m)
  | SetOwner => Some (SetCount, set_owner me m)
  | SetCount => Some (Held 1, set_count 1 m)
  | TryEnter n =>
      if recursive m && (owner m =? me) then Some (LockCount n, m) else Some (TryCas, m)
  | TryCas =>
      if state m =? 0 then Some (acquired m, set_state 1 m) else Some (Idle EBUSY, m)
  | UnlockEnter n =>
      if recursive m then
        if negb (owner m =? me) then Some (Held n, m) else Some (UnlockTest n, m)
      else Some (UnlockXchg, m)
  | UnlockTest n => if mcount m >? 1 then Some (UnlockDecr n, m) else Some (UnlockCount, m)
  | UnlockDecr n => Some (Held (n - 1), set_count (s32 (mcount m - 1)) m)
  | UnlockCount => Some (UnlockOwner, set_count 0 m)
  | UnlockOwner => Some (UnlockXchg, set_owner 0 m)
  | UnlockXchg =>
      if state m =? 2 then Some (UnlockWake, set_state 0 m) else Some (Idle 0, set_state 0 m)
  | Idle _ | Held _ | Asleep | UnlockWake => None
  end.

(** ** The system *)

Record sys := mk_sys { lock : mutex; threads : list pc }.

Definition tid (i : nat) : Z := Z.of_nat i + 1.

(** What a client may call: a thread that holds the mutex locks it again only
    when it is recursive, and only a holder unlocks. *)
Inductive client (m : mutex) : pc -> pc -> Prop :=
| client_lock r : client m (Idle r) (LockEnter 0)
| client_trylock r : client m (Idle r) (TryEnter 0)
| client_relock n : recursive m = true -> n < 2 ^ 31 - 1 -> client m (Held n) (LockEnter n)
| client_retry n : recursive m = true -> n < 2 ^ 31 - 1 -> client m (Held n) (TryEnter n)
| client_unlock n : client m (Held n) (UnlockEnter n).

Inductive step (s : sys) : sys -> Prop :=
| step_client i p p' :
    threads s !! i = Some p -> client (lock s) p p' ->
    step s (mk_sys (lock s) (<[i := p']> (threads s)))
| step_run i p p' m' :
    threads s !! i = Some p -> mutex_step (tid i) p (lock s) = Some (p', m') ->
    step s (mk_sys m' (<[i := p']> (threads s)))
| step_wake i j :
    threads s !! i = Some UnlockWake -> threads s !! j = Some Asleep ->
    step s (mk_sys (lock s) (<[j := SlowCas]> (<[i := Idle 0]> (threads s))))
| step_wake_none i :
    threads s !! i = Some UnlockWake -> Asleep ∉ threads s ->
    step s (mk_sys (lock s) (<[i := Idle 0]> (threads s)))
| step_resume j :
    threads s !! j = Some Asleep ->
    step s (mk_sys (lock s) (<[j := SlowCas]> (threads s))).

Inductive reach (ty : Z) (n : nat) : sys -> Prop :=
| reach_init : reach ty n (mk_sys (mk_mutex 0 ty 0 0) (replicate n (Idle 0)))
| reach_step s s' : reach ty n s -> step s s' -> reach ty n s'.

(** ** Invariants *)

(** The thread has the lock. *)
Definition owns (p : pc) : bool :=
  match p with
  | Held _ | LockCount _ | SetOwner | SetCount | UnlockEnter _ | UnlockTest _ | UnlockDecr _
  | UnlockCount | UnlockOwner | UnlockXchg => true
  | LockEnter n | TryEnter n => 0 <? n
  | _ => false
  end.

Definition asleep (p : pc) : bool := match p with Asleep => true | _ => false end.

(** A thread that will retry, or wake another one, without help. *)
Definition awake (p : pc) : bool :=
  match p with SlowCas | SlowPromote | SlowWait | UnlockWake => true | _ => false end.

(** Recorded as the owner, [n] deep. *)
Definition records (me n : Z) (m : mutex) : Prop :=
  recursive m = true /\ owner m = me /\ mcount m = n /\ 0 < n < 2 ^ 31.

Definition holds (me n : Z) (m : mutex) : Prop :=
  (recursive m = true -> records me n m) /\ (recursive m = false -> n = 1).

Definition pc_ok (me : Z) (p : pc) (m : mutex) : Prop :=
  match p with
  | Held n | UnlockEnter n => holds me n m
  | LockEnter n | TryEnter n =>
      if 0 <? n then records me n m /\ n < 2 ^ 31 - 1 else owner m <> me
  | LockCount n => records me n m /\ n < 2 ^ 31 - 1
  | SetOwner => recursive m = true /\ owner m = 0
  | SetCount => recursive m = true /\ owner m = me
  | UnlockTest n => records me n m
  | UnlockDecr n => records me n m /\ 1 < n
  | UnlockCount | UnlockOwner => recursive m = true /\ owner m = me
  | UnlockXchg => owner m <> me
  | _ => owner m <> me
  end.

Record inv (ty : Z) (s : sys) : Prop := {
  inv_type : mtype (lock s) = ty;
  inv_state : state (lock s) = 0 \/ state (lock s) = 1 \/ state (lock s) = 2;
  inv_owns : cnt owns (threads s) = b2z (negb (state (lock s) =? 0));
  inv_pcs : forall i p, threads s !! i = Some p -> pc_ok (tid i) p (lock s);
  inv_owner : owner (lock s) = 0 \/
    (recursive (lock s) = true /\ exists i p, threads s !! i = Some p /\ owns p = true
       /\ owner (lock s) = tid i);
  inv_wake : 0 < cnt asleep (threads s) -> state (lock s) = 2 \/ 0 < cnt awake (threads s);
}.

(** What one action of a thread does, given what it may rely on. *)
Record local_step (me : Z) (p : pc) (m : mutex) (p' : pc) (m' : mutex) : Prop := {
  ls_pc : pc_ok me p' m';
  ls_type : mtype m' = mtype m;
  ls_state : state m' = 0 \/ state m' = 1 \/ state m' = 2;
  ls_owns : b2z (owns p') - b2z (owns p) = b2z (negb (state m' =? 0)) - b2z (negb (state m =? 0));
  ls_frame : owns p = false -> owner m' = owner m /\ mcount m' = mcount m;
  ls_owner : owner m' = owner m \/ owner m' = 0 \/ owner m' = me;
  ls_me : owner m' = me -> owns p' = true /\ recursive m' = true;
  ls_wake : awake p' = true \/ state m' = 2 \/
            (awake p = false /\ asleep p' = false /\ state m <> 2);
  ls_awake : asleep p = false;
}.

Lemma acquired_ok me m v :
  me <> 0 -> owner m = 0 -> pc_ok me (acquired m) (set_state v m) /\ owns (acquired m) = true
    /\ asleep (acquired m) = false.
Proof.
  intros Hme Ho. unfold acquired. destruct (recursive m) eqn:E; simpl; [done|].
  csplit. split; [|done]. unfold recursive in *. simpl. congruence.
Qed.

Ltac mutex_cases :=
  repeat match goal with
  | H : Some _ = Some _ |- _ => injection H as <- <-
  | H : None = Some _ |- _ => discriminate H
  | H : (if ?b then _ else _) = Some _ |- _ => destruct b eqn:?
  end.

Lemma mutex_step_local me p m p' m' :
  0 < me -> pc_ok me p m -> (state m = 0 \/ state m = 1 \/ state m = 2) ->
  (state m = 0 -> owner m = 0) -> (owns p = true -> state m <> 0) ->
  (owner m <> 0 -> recursive m = true) ->
  mutex_step me p m = Some (p', m') -> local_step me p m p' m'.
Proof.
  intros Hme Hok Hst H0 Hown Hrec Hs.
  assert (Hacq : forall v, state m = 0 -> v = 1 \/ v = 2 -> owns p = false -> asleep p = false ->
            (v = 1 -> awake p = false) -> local_step me p m (acquired m) (set_state v m)).
  { intros v Hz Hv Hp Ha Haw. specialize (H0 Hz).
    destruct (acquired_ok me m v ltac:(lia) H0) as (H1 & H2 & H3).
    constructor; simpl; rewrite ?H2, ?H3, ?Hp; try done; try lia.
    - rewrite Hz. destruct Hv as [-> | ->]; done.
    - destruct Hv as [-> | ->]; [right; right|right; left]; csplit. auto. }
  destruct p; simpl in Hs; mutex_cases; try (apply Hacq; simpl; auto; zcases; lia || done).
  all: repeat match goal with
       | H : (_ =? _) = true |- _ => apply Z.eqb_eq in H
       | H : (_ =? _) = false |- _ => apply Z.eqb_neq in H
       end.
  all: try (apply Hacq; simpl; auto; lia).
  all: clear Hacq; try match goal with
       | H : pc_ok _ (LockEnter ?n) _ |- _ => simpl in H; destruct (Z.ltb_spec 0 n) as [E|E]
       | H : pc_ok _ (TryEnter ?n) _ |- _ => simpl in H; destruct (Z.ltb_spec 0 n) as [E|E]
       end.
  all: constructor; simpl in *; unfold records, holds, recursive, awake, asleep in *; simpl in *;
       try solve [intuition (auto; try lia; try congruence)].
  all: try solve [zcases; simpl; intuition (auto; try lia; try congruence)].
  - destruct Hok as ((? & ? & ? & ?) & ?). split; [intros _|congruence].
    unfold records. simpl. rewrite s32_small by lia. csplit.
  - destruct (Z.eqb_spec (state m) 1) as [E|]; [rewrite E|]; simpl; lia.
  - destruct Hok as [? ?]. split; [intros _|done]. unfold records. simpl. csplit.
  - apply negb_false_iff, Z.eqb_eq in Heqb0. destruct Hok as [Hr _]. by destruct (Hr Heqb).
  - destruct Hok as ((? & ? & ? & ?) & ?). split; [intros _|congruence].
    unfold records. simpl. rewrite s32_small by lia. csplit.
Qed.

(** A thread without the lock only relies on not being recorded as the owner. *)
Lemma pc_ok_other me p m : owns p = false -> pc_ok me p m <-> owner m <> me.
Proof. destruct p; simpl; try done; intros ->; done. Qed.

Lemma pc_ok_ext me p m m' :
  mtype m' = mtype m -> mcount m' = mcount m -> owner m' = owner m -> pc_ok me p m -> pc_ok me p m'.
Proof.
  intros E1 E2 E3. destruct p; simpl; unfold holds, records, recursive; rewrite ?E1, ?E2, ?E3; done.
Qed.

Lemma client_ok me m p p' :
  me <> 0 -> client m p p' -> pc_ok me p m ->
  pc_ok me p' m /\ owns p' = owns p /\ asleep p = false /\ asleep p' = false
  /\ awake p = false /\ awake p' = false.
Proof.
  intros Hme Hc Hok. destruct Hc as [r|r|n Hr Hn|n Hr Hn|n]; simpl in *; csplit;
    destruct Hok as [Hrec _]; destruct (Hrec Hr) as (? & ? & ? & ?); unfold records; zdecide; csplit.
Qed.

Lemma tid_pos i : 0 < tid i.
Proof. unfold tid. lia. Qed.

Section Preservation.
Context (ty : Z) (s : sys) (Hi : inv ty s).

Lemma unlocked_no_owner : state (lock s) = 0 -> owner (lock s) = 0.
Proof.
  intros E. destruct (inv_owner _ _ Hi) as [|(_ & i & p & Hp & Ho & _)]; [done|].
  pose proof (cnt_pos owns _ i p Hp Ho). pose proof (inv_owns _ _ Hi) as Hc. rewrite E in Hc. simpl in Hc. lia.
Qed.

Lemma owner_locked i p : threads s !! i = Some p -> owns p = true -> state (lock s) <> 0.
Proof.
  intros Hp Ho E. pose proof (cnt_pos owns _ i p Hp Ho). pose proof (inv_owns _ _ Hi) as Hc.
  rewrite E in Hc. simpl in Hc. lia.
Qed.

Lemma other_not_owner i j p q :
  threads s !! i = Some p -> threads s !! j = Some q -> i <> j -> owns p = true -> owns q = false.
Proof.
  intros Hp Hq Hne Ho. destruct (owns q) eqn:E; [|done]. destruct Hne.
  apply (cnt_unique owns (threads s) i j p q); try done.
  rewrite (inv_owns _ _ Hi). by destruct (negb _).
Qed.

Lemma mutex_run_inv i p p' m' :
  threads s !! i = Some p -> mutex_step (tid i) p (lock s) = Some (p', m') ->
  inv ty (mk_sys m' (<[i := p']> (threads s))).
Proof.
  intros Hp Hs. pose proof (tid_pos i). pose proof (lookup_lt_Some _ _ _ Hp) as Hlt.
  assert (Hrec : owner (lock s) <> 0 -> recursive (lock s) = true)
    by (destruct (inv_owner _ _ Hi) as [|[? _]]; done).
  destruct (mutex_step_local (tid i) p (lock s) p' m') as [Lpc Ltype Lst Lown Lframe Lowner Lme Lwake Law];
    try done; [by apply (inv_pcs _ _ Hi)|by apply Hi|apply unlocked_no_owner|
               intros Ho; by apply (owner_locked i p)|].
  constructor; simpl.
  - rewrite Ltype. apply Hi.
  - done.
  - rewrite (cnt_insert _ _ i p) by done. pose proof (inv_owns _ _ Hi). lia.
  - intros j q Hq. destruct (decide (i = j)) as [<-|Hne].
    + rewrite list_lookup_insert_eq in Hq by done. by simplify_eq.
    + rewrite list_lookup_insert_ne in Hq by done. pose proof (inv_pcs _ _ Hi j q Hq) as Hok.
      destruct (owns p) eqn:Ho.
      * pose proof (other_not_owner i j p q Hp Hq Hne Ho) as Hq0.
        apply pc_ok_other in Hok; [|done]. apply pc_ok_other; [done|].
        pose proof (tid_pos j). unfold tid in *. lia.
      * destruct (Lframe eq_refl) as [E1 E2]. by apply (pc_ok_ext _ _ (lock s)).
  - destruct (decide (owner m' = 0)) as [|Hne]; [by left|right].
    destruct (decide (owner m' = tid i)) as [E|Hni].
    + destruct (Lme E) as [Ho Hr]. split; [done|]. exists i, p'. by rewrite list_lookup_insert_eq.
    + destruct Lowner as [E|[|]]; [|done|done]. rewrite E in *.
      destruct (inv_owner _ _ Hi) as [|(Hr & k & q & Hq & Hoq & Ek)]; [done|].
      split; [unfold recursive; by rewrite Ltype|]. exists k, q.
      rewrite list_lookup_insert_ne; [done|]. intros ->. done.
  - rewrite !(cnt_insert _ _ i p) by done. rewrite Law. intros Ha.
    pose proof (cnt_nonneg awake (<[i := p']> (threads s))) as Hnn.
    rewrite (cnt_insert _ _ i p) in Hnn by done.
    destruct Lwake as [Hw|[|(Hw1 & Hw2 & Hw3)]]; [right|by left|right].
    + pose proof (cnt_pos awake (<[i := p']> (threads s)) i p') as Hc.
      rewrite list_lookup_insert_eq in Hc by done. specialize (Hc eq_refl Hw).
      by rewrite (cnt_insert _ _ i p) in Hc.
    + rewrite Hw2 in Ha. simpl in Ha. destruct (inv_wake _ _ Hi) as [|Hc]; [lia|done|].
      rewrite Hw1. destruct (awake p'); simpl; lia.
Qed.

End Preservation.

(** A thread that neither has nor gets the lock moves, the lock word stays. *)
Lemma move_inv ty s i p p' :
  inv ty s -> threads s !! i = Some p -> pc_ok (tid i) p' (lock s) -> owns p' = owns p ->
  (0 < cnt asleep (<[i := p']> (threads s)) ->
   state (lock s) = 2 \/ 0 < cnt awake (<[i := p']> (threads s))) ->
  inv ty (mk_sys (lock s) (<[i := p']> (threads s))).
Proof.
  intros Hi Hp Hok Ho Hw. pose proof (lookup_lt_Some _ _ _ Hp).
  constructor; simpl; try apply Hi; try done.
  - rewrite (cnt_insert _ _ i p), Ho by done. pose proof (inv_owns _ _ Hi). lia.
  - intros j q Hq. destruct (decide (i = j)) as [<-|].
    + rewrite list_lookup_insert_eq in Hq by done. by simplify_eq.
    + rewrite list_lookup_insert_ne in Hq by done. by apply Hi.
  - destruct (inv_owner _ _ Hi) as [|(Hr & k & q & Hq & Hoq & Ek)]; [by left|right].
    split; [done|]. destruct (decide (i = k)) as [<-|].
    + simplify_eq. exists i, p'. rewrite list_lookup_insert_eq by done. csplit. congruence.
    + exists k, q. by rewrite list_lookup_insert_ne.
Qed.

Lemma mutex_reach_inv ty n s : reach ty n s -> inv ty s.
Proof.
  induction 1 as [|s s' _ Hi Hs].
  - assert (Hz : forall f, f (Idle 0) = false -> cnt f (replicate n (Idle 0)) = 0).
    { intros f Hf. apply cnt_zero. intros p (-> & _)%elem_of_replicate. done. }
    constructor; simpl; try (by left); try done.
    + by rewrite Hz.
    + intros i p (-> & _)%lookup_replicate. simpl. pose proof (tid_pos i). lia.
    + rewrite Hz by done. lia.
  - destruct Hs as [i p p' Hp Hc|i p p' m' Hp E|i j Hp Hj|i Hp Hno|j Hj].
    + destruct (client_ok (tid i) (lock s) p p') as (H1 & H2 & H3 & H4 & H5 & H6);
        [pose proof (tid_pos i); lia|done|by apply Hi|].
      apply (move_inv ty s i p); try done. rewrite !(cnt_insert _ _ i p) by done.
      rewrite H3, H4, H5, H6. intros Ha. pose proof (inv_wake _ _ Hi). simpl in *.
      destruct H; [lia|by left|right; lia].
    + by apply (mutex_run_inv ty s Hi i p).
    + assert (Hij : i <> j) by (intros ->; congruence).
      assert (H1 : inv ty (mk_sys (lock s) (<[j := SlowCas]> (threads s)))).
      { apply (move_inv ty s j Asleep); try done; [by apply (inv_pcs _ _ Hi j Asleep)|].
        intros _. right. apply (cnt_pos awake _ j SlowCas); [|done].
        apply list_lookup_insert_eq. by eapply lookup_lt_Some. }
      rewrite list_insert_insert_ne by done.
      apply (move_inv ty _ i UnlockWake (Idle 0) H1); simpl; [by rewrite list_lookup_insert_ne| |done|].
      * exact (inv_pcs _ _ Hi i UnlockWake Hp).
      * intros _. right. apply (cnt_pos awake _ j SlowCas); [|done].
        rewrite list_lookup_insert_ne by done. apply list_lookup_insert_eq. by eapply lookup_lt_Some.
    + apply (move_inv ty s i UnlockWake); try done; [exact (inv_pcs _ _ Hi i UnlockWake Hp)|].
      intros Ha. exfalso. rewrite (cnt_insert _ _ i UnlockWake) in Ha by done. simpl in Ha.
      assert (0 < cnt asleep (threads s)) as (k & q & Hk & Hf)%cnt_pos_inv by lia.
      destruct q; try done. apply Hno. by eapply list_elem_of_lookup_2.
    + apply (move_inv ty s j Asleep); try done; [exact (inv_pcs _ _ Hi j Asleep Hj)|].
      intros _. right. apply (cnt_pos awake _ j SlowCas); [|done].
      apply list_lookup_insert_eq. by eapply lookup_lt_Some.
Qed.

(** ** Properties *)

(** C5: mutual exclusion.  In every interleaving of any number of threads at
    most one thread has the mutex, the lock word is non-zero exactly when one
    has it, and a recursive mutex knows its holder and depth. *)
Theorem mutex_exclusion ty n s :
  reach ty n s ->
  cnt owns (threads s) = b2z (negb (state (lock s) =? 0))
  /\ (forall i j p q, threads s !! i = Some p -> threads s !! j = Some q ->
        owns p = true -> owns q = true -> i = j)
  /\ (forall i d, threads s !! i = Some (Held d) -> ty = PTHREAD_MUTEX_RECURSIVE ->
        owner (lock s) = tid i /\ mcount (lock s) = d).
Proof.
  intros Hi%mutex_reach_inv. pose proof (inv_owns _ _ Hi) as Hc. split; [done|]. split.
  - intros i j p q Hp Hq Ho Hoq. apply (cnt_unique owns (threads s) i j p q); try done.
    rewrite Hc. by destruct (negb _).
  - intros i d Hd ->. destruct (inv_pcs _ _ Hi i _ Hd) as [Hr _].
    destruct Hr as (_ & ? & ? & _); [|done]. unfold recursive. by rewrite (inv_type _ _ Hi).
Qed.

(** C6: no wake-up is lost, although an uncontended unlock makes no system call:
    in every reachable state in which some thread sleeps in the kernel, either the
    word is the contended mark 2 and some thread has the mutex, whose unlock will
    see the mark, or some thread is about to wake a sleeper or is itself in the
    slow path and will try again with the mark.  So when every thread is outside
    the mutex code, holds the mutex or sleeps, and one sleeps, the first case
    holds: a sleeper is never left behind by a free mutex. *)
Theorem mutex_no_lost_wakeup ty n s :
  reach ty n s -> (exists p, p ∈ threads s /\ asleep p = true) ->
  ((state (lock s) = 2 /\ exists i p, threads s !! i = Some p /\ owns p = true)
   \/ exists i p, threads s !! i = Some p /\ awake p = true)
  /\ ((forall p, p ∈ threads s -> asleep p = true \/ (exists r, p = Idle r) \/ (exists d, p = Held d)) ->
      state (lock s) = 2 /\ exists i d, threads s !! i = Some (Held d)).
Proof.
  intros Hi%mutex_reach_inv (p & (i & Hp)%list_elem_of_lookup & Ha).
  assert (Hany : (state (lock s) = 2 /\ exists i p, threads s !! i = Some p /\ owns p = true)
                 \/ exists i p, threads s !! i = Some p /\ awake p = true).
  { destruct (inv_wake _ _ Hi (cnt_pos asleep _ i p Hp Ha)) as [H2|Hc]; [left|right; by apply cnt_pos_inv].
    split; [done|]. apply cnt_pos_inv. rewrite (inv_owns _ _ Hi), H2. simpl. lia. }
  split; [exact Hany|]. intros Hq. destruct Hany as [(H2 & k & q & Hk & Ho)|(k & q & Hk & Hw)].
  - split; [done|]. destruct (Hq q) as [?|[(r & ->)|(d & ->)]]; [by eapply list_elem_of_lookup_2|by destruct q|done|eauto].
  - destruct (Hq q) as [?|[(r & ->)|(d & ->)]]; [by eapply list_elem_of_lookup_2|by destruct q|done|done].
Qed.

(** an error-checking mutex never detects a deadlock: its owner is never
    recorded, so a thread that locks it again goes to sleep on itself instead
    of getting EDEADLK. *)
Theorem errorcheck_never_detects n s i p' m' :
  reach PTHREAD_MUTEX_ERRORCHECK n s ->
  mutex_step (tid i) LockCheck (lock s) = Some (p', m') ->
  owner (lock s) = 0 /\ p' = SlowCas.
Proof.
  intros Hi%mutex_reach_inv Hs.
  assert (Ho : owner (lock s) = 0).
  { destruct (inv_owner _ _ Hi) as [|[Hr _]]; [done|]. unfold recursive in Hr.
    by rewrite (inv_type _ _ Hi) in Hr. }
  split; [done|]. simpl in Hs. rewrite Ho in Hs. pose proof (tid_pos i).
  replace (0 =? tid i) with false in Hs by (symmetry; apply Z.eqb_neq; lia).
  rewrite andb_false_r in Hs. by simplify_eq.
Qed.

(** Two threads: one holds the mutex, the other sleeps on it. *)
Definition contended : sys := mk_sys (mk_mutex 2 0 0 0) [Held 1; Asleep].

Lemma contended_reach : reach 0 2 contended.
Proof.
  pose (st := fun v ts => mk_sys (mk_mutex v 0 0 0) ts).
  assert (H1 : reach 0 2 (st 0 [LockEnter 0; Idle 0]))
    by exact (reach_step _ _ _ _ (reach_init 0 2) (step_client (st 0 [Idle 0; Idle 0]) 0 _ _ eq_refl (client_lock _ 0))).
  assert (H2 : reach 0 2 (st 0 [LockLoad; Idle 0]))
    by exact (reach_step _ _ _ _ H1 (step_run (st 0 [LockEnter 0; Idle 0]) 0 _ _ _ eq_refl eq_refl)).
  assert (H3 : reach 0 2 (st 0 [LockCas; Idle 0]))
    by exact (reach_step _ _ _ _ H2 (step_run (st 0 [LockLoad; Idle 0]) 0 _ _ _ eq_refl eq_refl)).
  assert (H4 : reach 0 2 (st 1 [Held 1; Idle 0]))
    by exact (reach_step _ _ _ _ H3 (step_run (st 0 [LockCas; Idle 0]) 0 _ _ _ eq_refl eq_refl)).
  assert (H5 : reach 0 2 (st 1 [Held 1; LockEnter 0]))
    by exact (reach_step _ _ _ _ H4 (step_client (st 1 [Held 1; Idle 0]) 1 _ _ eq_refl (client_lock _ 0))).
  assert (H6 : reach 0 2 (st 1 [Held 1; LockLoad]))
    by exact (reach_step _ _ _ _ H5 (step_run (st 1 [Held 1; LockEnter 0]) 1 _ _ _ eq_refl eq_refl)).
  assert (H7 : reach 0 2 (st 1 [Held 1; LockCheck]))
    by exact (reach_step _ _ _ _ H6 (step_run (st 1 [Held 1; LockLoad]) 1 _ _ _ eq_refl eq_refl)).
  assert (H8 : reach 0 2 (st 1 [Held 1; SlowCas]))
    by exact (reach_step _ _ _ _ H7 (step_run (st 1 [Held 1; LockCheck]) 1 _ _ _ eq_refl eq_refl)).
  assert (H9 : reach 0 2 (st 1 [Held 1; SlowPromote]))
    by exact (reach_step _ _ _ _ H8 (step_run (st 1 [Held 1; SlowCas]) 1 _ _ _ eq_refl eq_refl)).
  assert (H10 : reach 0 2 (st 2 [Held 1; SlowWait]))
    by exact (reach_step _ _ _ _ H9 (step_run (st 1 [Held 1; SlowPromote]) 1 _ _ _ eq_refl eq_refl)).
  exact (reach_step _ _ _ _ H10 (step_run (st 2 [Held 1; SlowWait]) 1 _ _ _ eq_refl eq_refl)).
Qed.

Lemma mutex_exclusion_witness :
  reach 0 2 contended /\ cnt owns (threads contended) = b2z (negb (state (lock contended) =? 0)).
Proof.
  split; [apply contended_reach|]. apply (mutex_exclusion 0 2 contended contended_reach).
Defined.

Lemma mutex_no_lost_wakeup_witness :
  (exists p, p ∈ threads contended /\ asleep p = true) /\
  (state (lock contended) = 2 /\ exists i d, threads contended !! i = Some (Held d)).
Proof.
  assert (H : exists p, p ∈ threads contended /\ asleep p = true)
    by (exists Asleep; split; [by right; left|done]).
  split; [exact H|].
  apply (mutex_no_lost_wakeup 0 2 contended contended_reach H).
  intros p Hp. apply elem_of_cons in Hp as [->|Hp]; [right; right; eauto|].
  apply elem_of_cons in Hp as [->|Hp]; [by left|by apply not_elem_of_nil in Hp].
Defined.

Lemma errorcheck_never_detects_witness :
  reach PTHREAD_MUTEX_ERRORCHECK 1 (mk_sys (mk_mutex 0 2 0 0) [Idle 0]) /\
  owner (mk_mutex 0 2 0 0) = 0 /\ SlowCas = SlowCas.
Proof.
  split; [apply (reach_init 2 1)|].
  apply (errorcheck_never_detects 1 (mk_sys (mk_mutex 0 2 0 0) [Idle 0]) 0 SlowCas (mk_mutex 0 2 0 0));
    [apply (reach_init 2 1)|reflexivity].
Defined.

End Mutex.
