(* ===== verification/Pthread.v ===== *)
(** * Pthread: once, keys, attributes and the life of a thread (src/pthread.c)

    - [Once]: [pthread_once] as a step machine over its word, any number of
      threads interleaved.
    - [Keys]: the key table, thread-specific values, and the destructors a
      thread runs when it exits.
    - [Life]: attributes, [pthread_create], [pthread_join], [pthread_detach]
      and the thread registry.  What [mmap], [calloc] and the kernel's
      THREAD_CREATE answer are arguments.  The registry lock is taken around
      each access of the registry and released again, so the operations here
      are the critical sections in sequence.
    - the timeout computation of [pthread_cond_timedwait]. *)

From Stdlib Require Import ZArith Lia Bool.
From stdpp Require Import base list numbers sets.
From S2P Require Import Prelude Monad ThreadLocal.

(** ** [pthread_once] *)
Module Once.

Inductive pc :=
| OIdle      (** has not called *)
| OEnter     (** about to load [done] *)
| OCas       (** about to compare-and-swap 0 to 1 *)
| ORun       (** about to call [init_routine] *)
| OStore     (** about to store 2 *)
| OWake      (** about to wake everybody *)
| OCheck     (** the loop: about to load [done] *)
| OWait      (** about to [FUTEX_WAIT] while 1 *)
| OAsleep    (** queued in the kernel *)
| ODone.     (** returned 0 *)

(** The next action: new point, new word, and whether [init_routine] ran. *)
Definition once_step (p : pc) (done : Z) : option (pc * Z * Z) :=
  match p with
  | OEnter => if done =? 2 then Some (ODone, done, 0) else Some (OCas, done, 0)
  | OCas => if done =? 0 then Some (ORun, 1, 0) else Some (OCheck, done, 0)
  | ORun => Some (OStore, done, 1)
  | OStore => Some (OWake, 2, 0)
  | OCheck => if negb (done =? 2) then Some (OWait, done, 0) else Some (ODone, done, 0)
  | OWait => if done =? 1 then Some (OAsleep, done, 0) else Some (OCheck, done, 0)
  | OIdle | OWake | OAsleep | ODone => None
  end.

(** [FUTEX_WAKE] with the count 0x7fffffff: everybody. *)
Definition wake_all (p : pc) : pc := match p with OAsleep => OCheck | _ => p end.

Record sys := mk_sys { word : Z; threads : list pc; runs : Z }.

Inductive step (s : sys) : sys -> Prop :=
| step_call i :
    threads s !! i = Some OIdle -> step s (mk_sys (word s) (<[i := OEnter]> (threads s)) (runs s))
| step_run i p p' w' r :
    threads s !! i = Some p -> once_step p (word s) = Some (p', w', r) ->
    step s (mk_sys w' (<[i := p']> (threads s)) (runs s + r))
| step_wake i :
    threads s !! i = Some OWake ->
    step s (mk_sys (word s) (map wake_all (<[i := ODone]> (threads s))) (runs s))
| step_resume i :
    threads s !! i = Some OAsleep -> step s (mk_sys (word s) (<[i := OCheck]> (threads s)) (runs s)).

Inductive reach (n : nat) : sys -> Prop :=
| reach_init : reach n (mk_sys 0 (replicate n OIdle) 0)
| reach_step s s' : reach n s -> step s s' -> reach n s'.

Definition starting (p : pc) : bool := match p with ORun => true | _ => false end.
Definition running (p : pc) : bool := match p with ORun | OStore => true | _ => false end.
Definition waking (p : pc) : bool := match p with OWake => true | _ => false end.
Definition asleep (p : pc) : bool := match p with OAsleep => true | _ => false end.
Definition returned (p : pc) : bool := match p with OWake | ODone => true | _ => false end.

Definition inv (s : sys) : Prop :=
  (word s = 0 \/ word s = 1 \/ word s = 2)
  /\ cnt running (threads s) = b2z (word s =? 1)
  /\ runs s + cnt starting (threads s) = b2z (negb (word s =? 0))
  /\ (0 < cnt returned (threads s) -> word s = 2)
  /\ (0 < cnt asleep (threads s) -> word s = 1 \/ 0 < cnt waking (threads s)).

Lemma cnt_wake_all f ts :
  (forall p, f (wake_all p) = f p) -> cnt f (map wake_all ts) = cnt f ts.
Proof.
  intros Hf. induction ts as [|p ts IH]; [done|]. simpl. by rewrite !cnt_cons, IH, Hf.
Qed.

Lemma once_run_inv s i p p' w' r :
  inv s -> threads s !! i = Some p -> once_step p (word s) = Some (p', w', r) ->
  inv (mk_sys w' (<[i := p']> (threads s)) (runs s + r)).
Proof.
  intros (Hw & Hr & Hn & Hd & Ha) Hp E. unfold inv. simpl.
  rewrite !(cnt_insert _ _ i p _ Hp).
  pose proof (cnt_nonneg running (threads s)). pose proof (cnt_nonneg starting (threads s)).
  pose proof (cnt_nonneg returned (threads s)). pose proof (cnt_nonneg waking (threads s)).
  pose proof (cnt_nonneg asleep (threads s)).
  pose proof (cnt_pos starting _ i p Hp) as Hps. pose proof (cnt_pos running _ i p Hp) as Hpr.
  destruct p; simpl in E; try done; simpl in *;
    repeat match type of E with context [if ?a =? ?b then _ else _] => destruct (Z.eqb_spec a b) as [Ew|]
           | context [if negb (?a =? ?b) then _ else _] => destruct (Z.eqb_spec a b) as [Ew|] end;
    simpl in E; simplify_eq; simpl; try rewrite Ew in *; simpl in *;
    destruct Hw as [Hw|[Hw|Hw]]; try rewrite Hw in *; simpl in *; try lia;
    repeat split; try lia.
Qed.

Lemma starting_running ts : cnt starting ts <= cnt running ts.
Proof.
  induction ts as [|p ts IH]; [done|]. rewrite !cnt_cons. destruct p; simpl; lia.
Qed.

Lemma once_reach_inv n s : reach n s -> inv s.
Proof.
  induction 1 as [|s s' _ Hi Hs].
  - assert (Hz : forall f, f OIdle = false -> cnt f (replicate n OIdle) = 0).
    { intros f Hf. apply cnt_zero. intros p (-> & _)%elem_of_replicate. done. }
    unfold inv. simpl. rewrite !Hz by done. simpl. lia.
  - destruct Hs as [i Hp|i p p' w' r Hp E|i Hp|i Hp]; [|by apply (once_run_inv s i p)|..];
      pose proof Hi as (Hw & Hr & Hn & Hd & Ha); unfold inv; simpl.
    + rewrite !(cnt_insert _ _ i _ _ Hp). simpl. lia.
    + pose proof (cnt_pos returned _ i _ Hp eq_refl).
      rewrite (cnt_wake_all running), (cnt_wake_all starting), (cnt_wake_all returned),
        (cnt_wake_all waking) by (by intros []).
      rewrite !(cnt_insert _ _ i _ _ Hp). simpl. split; [done|]. split; [lia|]. split; [lia|].
      split; [intros _; by apply Hd|]. intros Hpos. exfalso.
      apply cnt_pos_inv in Hpos as (k & p & Hk & Hf).
      apply list_elem_of_lookup_2, list_elem_of_In, in_map_iff in Hk as (q & <- & _). by destruct q.
    + rewrite !(cnt_insert _ _ i _ _ Hp). simpl. lia.
Qed.

(** C9: [pthread_once] runs the initialiser exactly once however many threads
    call it at the same time: it never starts twice, a call that has returned
    proves that it has run and finished, and when no thread is active in the
    code any more nobody is left sleeping. *)
Theorem once_exactly_once n s :
  reach n s ->
  runs s <= 1
  /\ (forall i, threads s !! i = Some ODone -> runs s = 1 /\ word s = 2)
  /\ ((forall p, p ∈ threads s -> p = OIdle \/ p = ODone \/ p = OAsleep) -> OAsleep ∉ threads s).
Proof.
  intros (Hw & Hr & Hn & Hd & Ha)%once_reach_inv.
  pose proof (cnt_nonneg starting (threads s)).
  pose proof (starting_running (threads s)) as Hst.
  assert (Hb : forall b : bool, b2z b <= 1) by (intros []; simpl; lia).
  split; [pose proof (Hb (negb (word s =? 0))); lia|]. split.
  - intros i Hi. pose proof (cnt_pos returned _ i _ Hi eq_refl) as Hpos. specialize (Hd Hpos).
    rewrite Hd in *. simpl in *. lia.
  - intros Hq Hin. apply list_elem_of_lookup in Hin as [i Hi].
    destruct (Ha (cnt_pos asleep _ i _ Hi eq_refl)) as [E|Hpos].
    + rewrite E in Hr. simpl in Hr. rewrite cnt_zero in Hr; [done|].
      intros p Hp. destruct (Hq p Hp) as [->|[->| ->]]; done.
    + rewrite cnt_zero in Hpos; [lia|]. intros p Hp. destruct (Hq p Hp) as [->|[->| ->]]; done.
Qed.

Lemma once_exactly_once_witness :
  reach 1 (mk_sys 2 [ODone] 1) /\ runs (mk_sys 2 [ODone] 1) = 1 /\ word (mk_sys 2 [ODone] 1) = 2.
Proof.
  assert (Hr : reach 1 (mk_sys 2 [ODone] 1)).
  { assert (H1 : reach 1 (mk_sys 0 [OEnter] 0))
      by exact (reach_step _ _ _ (reach_init 1) (step_call (mk_sys 0 [OIdle] 0) 0 eq_refl)).
    assert (H2 : reach 1 (mk_sys 0 [OCas] 0))
      by exact (reach_step _ _ _ H1 (step_run (mk_sys 0 [OEnter] 0) 0 _ _ _ _ eq_refl eq_refl)).
    assert (H3 : reach 1 (mk_sys 1 [ORun] 0))
      by exact (reach_step _ _ _ H2 (step_run (mk_sys 0 [OCas] 0) 0 _ _ _ _ eq_refl eq_refl)).
    assert (H4 : reach 1 (mk_sys 1 [OStore] 1))
      by exact (reach_step _ _ _ H3 (step_run (mk_sys 1 [ORun] 0) 0 _ _ _ _ eq_refl eq_refl)).
    assert (H5 : reach 1 (mk_sys 2 [OWake] 1))
      by exact (reach_step _ _ _ H4 (step_run (mk_sys 1 [OStore] 1) 0 _ _ _ _ eq_refl eq_refl)).
    exact (reach_step _ _ _ H5 (step_wake (mk_sys 2 [OWake] 1) 0 eq_refl)). }
  split; [exact Hr|]. destruct (once_exactly_once 1 _ Hr) as (_ & H & _).
  apply (H 0%nat). reflexivity.
Defined.

End Once.

(** ** The timeout of [pthread_cond_timedwait] *)
Module CondTimeout.

(** [cact_futex_wait]'s documented reading of its timeout: 0 and below is no
    timeout at all. *)
Definition waits_forever (timeout_ms : Z) : bool := timeout_ms <=? 0.

Definition cond_timeout (abstime now : Z * Z) : Z :=
  let ms := s32 (s32 (s32 (abstime.1 - now.1) * 1000) + Z.quot (s32 (abstime.2 - now.2)) 1000000) in
  if ms <=? 0 then 0 else ms.

(** a deadline that has already passed is not a timeout but an endless wait:
    [pthread_cond_timedwait] turns it into the futex timeout 0, which means
    forever, so without a signal the call never returns ETIMEDOUT. *)
Theorem cond_timedwait_past_deadline abstime now :
  - 2 ^ 20 <= abstime.1 - now.1 <= 0 -> 0 <= abstime.2 < 10 ^ 9 -> 0 <= now.2 < 10 ^ 9 ->
  abstime.1 - now.1 < 0 \/ abstime.2 <= now.2 ->
  waits_forever (cond_timeout abstime now) = true.
Proof.
  intros Hs Ha Hn Hpast. unfold cond_timeout. rewrite !(s32_small (_ - _)) by lia.
  assert (Hq : - 999 <= Z.quot (abstime.2 - now.2) 1000000 <= 999).
  { split; [change (-999) with (Z.quot (-999999999) 1000000)|
            change 999 with (Z.quot 999999999 1000000)]; apply Z.quot_le_mono; lia. }
  assert (Hneg : (abstime.1 - now.1) * 1000 + Z.quot (abstime.2 - now.2) 1000000 <= 0).
  { destruct Hpast as [|Hp]; [lia|].
    assert (Z.quot (abstime.2 - now.2) 1000000 <= 0); [|lia].
    change 0 with (Z.quot 0 1000000). apply Z.quot_le_mono; lia. }
  rewrite (s32_small (_ * 1000)), s32_small by lia. zdecide. done.
Qed.

Lemma cond_timedwait_past_deadline_witness :
  - 2 ^ 20 <= 99 - 100 <= 0 /\ waits_forever (cond_timeout (99, 0) (100, 0)) = true.
Proof.
  split; [lia|]. apply (cond_timedwait_past_deadline (99, 0) (100, 0)); simpl; lia.
Defined.

End CondTimeout.

(** ** Thread-specific data *)
Module Keys.

Definition PTHREAD_KEYS_MAX : Z := 64.
Definition PTHREAD_DESTRUCTOR_ITERATIONS : nat := 4.
Definition EAGAIN : Z := 11.
Definition ENOMEM : Z := 12.
Definition EINVAL : Z := 22.

(** The key table and one thread's values; [calls] records the destructor calls. *)
Record kstate := mk_k {
  g_key_used : list Z;
  g_key_destructors : list Z;
  keys : list Z;
  calls : list (Z * Z);
}.

Definition set_table (u d : list Z) (s : kstate) : kstate := mk_k u d (keys s) (calls s).
Definition set_keys (k : list Z) (s : kstate) : kstate :=
  mk_k (g_key_used s) (g_key_destructors s) k (calls s).
Definition log_call (d v : Z) (s : kstate) : kstate :=
  mk_k (g_key_used s) (g_key_destructors s) (keys s) (calls s ++ [(d, v)]).

(** The result, and the key stored through the pointer. *)
Definition pthread_key_create (key destructor : Z) : St kstate (Z * option Z) :=
  if key =? 0 then ret (EINVAL, None)
  else
    let* s := gets (fun s => s) in
    match list_find (fun u => u = 0) (g_key_used s) with
    | Some (i, _) =>
        modify (set_table (<[i := 1]> (g_key_used s)) (<[i := destructor]> (g_key_destructors s))) ;;*
        ret (0, Some (Z.of_nat i))
    | None => ret (EAGAIN, None)
    end.

Definition pthread_key_delete (key : Z) : St kstate Z :=
  if key >=? PTHREAD_KEYS_MAX then ret EINVAL
  else
    let* s := gets (fun s => s) in
    if nth (Z.to_nat key) (g_key_used s) 0 =? 0 then ret EINVAL
    else
      modify (set_table (<[Z.to_nat key := 0]> (g_key_used s))
                        (<[Z.to_nat key := 0]> (g_key_destructors s))) ;;*
      ret 0.

(** [has_desc]: whether the thread has or gets a descriptor. *)
Definition pthread_getspecific (has_desc : bool) (key : Z) : St kstate Z :=
  if key >=? PTHREAD_KEYS_MAX then ret 0
  else if negb has_desc then ret 0
  else gets (fun s => nth (Z.to_nat key) (keys s) 0).

Definition pthread_setspecific (has_desc : bool) (key value : Z) : St kstate Z :=
  if key >=? PTHREAD_KEYS_MAX then ret EINVAL
  else
    let* u := gets (fun s => nth (Z.to_nat key) (g_key_used s) 0) in
    if u =? 0 then ret EINVAL
    else if negb has_desc then ret ENOMEM
    else modify (fun s => set_keys (<[Z.to_nat key := value]> (keys s)) s) ;;* ret 0.

Section Destructors.
Context (dtor : Z -> Z -> St kstate unit).

(** One round over the keys [ks]; the result says whether a destructor ran. *)
Fixpoint destructor_round (ks : list nat) (ran : bool) : St kstate bool :=
  match ks with
  | [] => ret ran
  | k :: ks =>
      let* d := gets (fun s => nth k (g_key_destructors s) 0) in
      let* v := gets (fun s => nth k (keys s) 0) in
      if negb (d =? 0) && negb (v =? 0) then
        modify (fun s => set_keys (<[k := 0]> (keys s)) s) ;;*
        dtor d v ;;*
        destructor_round ks true
      else destructor_round ks ran
  end.

Fixpoint destructor_rounds (n : nat) : St kstate unit :=
  match n with
  | O => ret tt
  | S n =>
      let* ran := destructor_round (seq 0 (Z.to_nat PTHREAD_KEYS_MAX)) false in
      if ran then destructor_rounds n else ret tt
  end.

(** The destructors of [__cact_thread_exit_body]. *)
Definition run_destructors : St kstate unit := destructor_rounds PTHREAD_DESTRUCTOR_ITERATIONS.
End Destructors.

(** A destructor that releases its value and returns. *)
Definition plain (d v : Z) : St kstate unit := modify (log_call d v).

(** The key [k] has a destructor and a value. *)
Definition pending (s : kstate) (k : nat) : bool :=
  negb (nth k (g_key_destructors s) 0 =? 0) && negb (nth k (keys s) 0 =? 0).

Definition call_of (s : kstate) (k : nat) : Z * Z :=
  (nth k (g_key_destructors s) 0, nth k (keys s) 0).

(** A round over distinct keys calls the destructor of every pending one. *)
Lemma round_spec ks : forall ran s,
  List.NoDup ks -> (forall k, In k ks -> (k < length (keys s))%nat) ->
  wp (destructor_round plain ks ran) s (fun r s' =>
    r = ran || existsb (pending s) ks
    /\ g_key_used s' = g_key_used s /\ g_key_destructors s' = g_key_destructors s
    /\ length (keys s') = length (keys s)
    /\ calls s' = calls s ++ map (call_of s) (List.filter (pending s) ks)
    /\ forall k, nth k (keys s') 0 =
         if existsb (Nat.eqb k) ks && pending s k then 0 else nth k (keys s) 0).
Proof.
  induction ks as [|k ks IH]; intros ran s Hnd Hlt; simpl.
  { wp_pure. rewrite orb_false_r, app_nil_r. done. }
  inversion Hnd as [|? ? Hni Hnd']; subst. wp_pure. fold (pending s k).
  assert (Hk : (k < length (keys s))%nat) by (apply Hlt; by left).
  destruct (pending s k) eqn:Hp; wp_pure.
  - apply wp_modify. set (s1 := log_call _ _ _).
    assert (Hsame : forall j, j <> k -> pending s1 j = pending s j /\ call_of s1 j = call_of s j
              /\ nth j (keys s1) 0 = nth j (keys s) 0).
    { intros j Hj. unfold pending, call_of, s1. simpl.
      assert (E : nth j (<[k := 0]> (keys s)) 0 = nth j (keys s) 0).
      { rewrite !nth_lookup. by rewrite list_lookup_insert_ne by lia. }
      by rewrite E. }
    assert (Hf : existsb (pending s1) ks = existsb (pending s) ks
               /\ map (call_of s1) (List.filter (pending s1) ks)
                  = map (call_of s) (List.filter (pending s) ks)).
    { clear IH Hnd Hnd' Hlt. induction ks as [|j ks IH]; [done|].
      destruct (Hsame j) as (E1 & E2 & _); [intros ->; apply Hni; by left|].
      destruct IH as [I1 I2]; [intros Hin; apply Hni; by right|]. simpl. rewrite E1, I1.
      split; [done|]. destruct (pending s j); simpl; by rewrite ?E2, I2. }
    destruct Hf as [Hf1 Hf2].
    eapply wp_mono; [apply (IH true s1 Hnd')|].
    { intros j Hj. unfold s1. simpl. rewrite length_insert. apply Hlt. by right. }
    intros r s' (-> & E1 & E2 & E3 & E4 & E5). rewrite Hf2 in E4. csplit.
    + rewrite E3. unfold s1. simpl. by rewrite length_insert.
    + rewrite E4. unfold s1. simpl. by rewrite <- app_assoc.
    + assert (E : nth k (keys s1) 0 = 0).
      { unfold s1. simpl. rewrite nth_lookup, list_lookup_insert_eq by done. done. }
      clearbody s1. intros j. rewrite E5. destruct (Nat.eqb_spec j k) as [->|Hj]; simpl.
      * rewrite E, Hp. by destruct (_ && _).
      * destruct (Hsame j Hj) as (-> & _ & ->). done.
  - eapply wp_mono; [apply (IH ran s Hnd')|].
    { intros j Hj. apply Hlt. by right. }
    intros r s' (-> & E1 & E2 & E3 & E4 & E5). csplit. intros j. rewrite E5.
    destruct (Nat.eqb_spec j k) as [->|Hj]; simpl; [|done]. rewrite Hp.
    rewrite andb_false_r. done.
Qed.

Lemma none_pending s l :
  (forall k, In k l -> pending s k = false) ->
  existsb (pending s) l = false /\ List.filter (pending s) l = [].
Proof.
  induction l as [|k l IH]; intros H; [done|]. simpl. rewrite H by (by left).
  apply IH. intros j Hj. apply H. by right.
Qed.

(** a thread that exits calls the destructor of every key for which it has a
    non-NULL value, once, in key order and with that value, after setting the
    value to NULL; a second round then finds nothing to do.  Values of keys
    without a destructor stay. *)
Theorem thread_exit_destructors s :
  length (keys s) = 64%nat ->
  wp (run_destructors plain) s (fun _ s' =>
    calls s' = calls s ++ map (call_of s) (List.filter (pending s) (seq 0 64))
    /\ forall k, (k < 64)%nat ->
         nth k (keys s') 0 = if pending s k then 0 else nth k (keys s) 0).
Proof.
  intros Hl. unfold run_destructors, PTHREAD_DESTRUCTOR_ITERATIONS, PTHREAD_KEYS_MAX.
  change (Z.to_nat 64) with 64%nat.
  assert (Hin : forall (st : kstate) k, length (keys st) = 64%nat ->
            In k (seq 0 64) -> (k < length (keys st))%nat).
  { intros st k E Hk%in_seq. lia. }
  assert (Hex : forall k, (k < 64)%nat -> existsb (Nat.eqb k) (seq 0 64) = true).
  { intros k Hk. apply existsb_exists. exists k. split; [apply in_seq; lia|apply Nat.eqb_refl]. }
  cbn [destructor_rounds]. wp_pure.
  eapply wp_mono; [apply (round_spec (seq 0 64) false s); [apply seq_NoDup|by intros; apply Hin]|].
  intros r1 s1 (-> & _ & Ed & El & Ec & Ek). cbn [orb].
  assert (Hkeys : forall k, (k < 64)%nat ->
            nth k (keys s1) 0 = if pending s k then 0 else nth k (keys s) 0).
  { intros k Hk. rewrite Ek, Hex by done. done. }
  destruct (existsb (pending s) (seq 0 64)); wp_pure; [|split; [exact Ec|exact Hkeys]].
  assert (Hno : forall k, In k (seq 0 64) -> pending s1 k = false).
  { intros k Hk%in_seq. unfold pending. rewrite Ed, Hkeys by lia. unfold pending.
    destruct (nth k (g_key_destructors s) 0 =? 0) eqn:E1; [done|]. simpl.
    destruct (nth k (keys s) 0 =? 0) eqn:E2; simpl; [by rewrite E2|done]. }
  eapply wp_mono; [apply (round_spec (seq 0 64) false s1); [apply seq_NoDup|]|].
  { intros k Hk. apply Hin; [congruence|done]. }
  intros r2 s2 (-> & _ & _ & _ & Ec2 & Ek2). cbn [orb].
  assert (E0 : existsb (pending s1) (seq 0 64) = false /\ List.filter (pending s1) (seq 0 64) = []).
  { apply none_pending. exact Hno. }
  destruct E0 as [-> E0]. rewrite E0 in Ec2. wp_pure. simpl in Ec2. rewrite app_nil_r in Ec2.
  split; [congruence|]. intros k Hk. rewrite Ek2, Hno by (apply in_seq; lia).
  rewrite andb_false_r. by apply Hkeys.
Qed.

Definition demo_keys : kstate :=
  mk_k (replicate 64 1) (<[3%nat := 30]> (<[5%nat := 50]> (replicate 64 0)))
    (<[3%nat := 7]> (<[4%nat := 8]> (replicate 64 0))) [].

Lemma thread_exit_destructors_witness :
  length (keys demo_keys) = 64%nat /\
  wp (run_destructors plain) demo_keys (fun _ s' =>
    calls s' = [(30, 7)]
    /\ forall k, (k < 64)%nat ->
         nth k (keys s') 0 = if pending demo_keys k then 0 else nth k (keys demo_keys) 0).
Proof. split; [reflexivity|]. apply (thread_exit_destructors demo_keys). reflexivity. Defined.

End Keys.

(** ** Attributes, creation and joining *)
Module Life.

Definition EINTR : Z := 4.
Definition EAGAIN : Z := 11.
Definition EINVAL : Z := 22.
Definition ESRCH : Z := 3.
Definition SCHED_OTHER : Z := 0.
Definition PTHREAD_INHERIT_SCHED : Z := 0.
Definition PTHREAD_EXPLICIT_SCHED : Z := 1.
Definition PTHREAD_SCOPE_SYSTEM : Z := 0.
Definition DEFAULT_STACK_SIZE : Z := 1024 * 1024.
Definition MAP_FAILED : Z := 2 ^ 32 - 1.

(** [pthread_attr_t]; a NULL argument is [None].  Setters give the result and
    the new attribute, getters the result and the value stored. *)
Record attr := mk_attr { policy : Z; inheritsched : Z; sched_priority : Z }.

Definition pthread_attr_init (a : option attr) : Z * option attr :=
  match a with
  | None => (EINVAL, None)
  | Some _ => (0, Some (mk_attr SCHED_OTHER PTHREAD_INHERIT_SCHED 0))
  end.

Definition pthread_attr_setinheritsched (a : option attr) (v : Z) : Z * option attr :=
  match a with
  | None => (EINVAL, a)
  | Some x =>
      if negb (v =? PTHREAD_INHERIT_SCHED) && negb (v =? PTHREAD_EXPLICIT_SCHED) then (EINVAL, a)
      else (0, Some (mk_attr (policy x) v (sched_priority x)))
  end.

Definition pthread_attr_getinheritsched (a : option attr) (out : bool) : Z * option Z :=
  match a with Some x => if out then (0, Some (inheritsched x)) else (EINVAL, None)
  | None => (EINVAL, None) end.

Definition pthread_attr_setschedpolicy (a : option attr) (v : Z) : Z * option attr :=
  match a with
  | None => (EINVAL, a)
  | Some x => (0, Some (mk_attr v (inheritsched x) (sched_priority x)))
  end.

Definition pthread_attr_getschedpolicy (a : option attr) (out : bool) : Z * option Z :=
  match a with Some x => if out then (0, Some (policy x)) else (EINVAL, None)
  | None => (EINVAL, None) end.

Definition pthread_attr_setschedparam (a : option attr) (p : option Z) : Z * option attr :=
  match a, p with
  | Some x, Some v => (0, Some (mk_attr (policy x) (inheritsched x) v))
  | _, _ => (EINVAL, a)
  end.

Definition pthread_attr_getschedparam (a : option attr) (out : bool) : Z * option Z :=
  match a with Some x => if out then (0, Some (sched_priority x)) else (EINVAL, None)
  | None => (EINVAL, None) end.

Definition pthread_attr_setscope (a : option attr) (scope : Z) : Z :=
  match a with
  | None => EINVAL
  | Some _ => if scope =? PTHREAD_SCOPE_SYSTEM then 0 else EINVAL
  end.

(** [cact_thread_t]: what the operations below read and write.  [addr] is the
    descriptor's address; its [tls] member lies 12 bytes into it. *)
Record desc := mk_desc {
  addr : Z;
  tid : Z;
  clr : Z;
  detached : Z;
  retval : Z;
  stack : Z;
  stack_size : Z;
}.

Definition tls_of (td : desc) : Z := addr td + 12.

(** The process: the registry, the per-thread table, and what has been obtained
    from [mmap] and [calloc] and not given back. *)
Record proc := mk_proc {
  g_threads : list desc;
  tlocal : ThreadLocal.table;
  mapped : list (Z * Z);
  descs : list Z;
}.

Definition find_by_id_locked (id : Z) (s : proc) : option desc :=
  match list_find (fun t => tid t = id) (g_threads s) with
  | Some (_, t) => Some t
  | None => None
  end.

(** The unlinking loop: walk to the entry [td] and skip it. *)
Fixpoint unlink (a : Z) (l : list desc) : list desc :=
  match l with
  | [] => []
  | t :: l => if addr t =? a then l else t :: unlink a l
  end.

(** [munmap] and [free]: one matching entry is given back. *)
Definition munmap (base len : Z) (l : list (Z * Z)) : list (Z * Z) :=
  match list_find (fun x => x = (base, len)) l with
  | Some (i, _) => delete i l
  | None => l
  end.

Definition free (a : Z) (l : list Z) : list Z :=
  match list_find (fun x => x = a) l with
  | Some (i, _) => delete i l
  | None => l
  end.

(** [pthread_create].  [has_thread] and [has_start]: the pointers are not NULL;
    [m], [c] and [k] are the answers of [mmap], [calloc] and the kernel. *)
Definition pthread_create (has_thread has_start : bool) (a : option attr) (m c k : Z) (s : proc)
    : Z * option Z * proc :=
  if negb has_thread || negb has_start then (EINVAL, None, s)
  else if (match a with
           | Some x => (inheritsched x =? PTHREAD_EXPLICIT_SCHED)
                       && (negb (policy x =? SCHED_OTHER) || negb (sched_priority x =? 0))
           | None => false
           end) then (EINVAL, None, s)
  else if m =? MAP_FAILED then (EAGAIN, None, s)
  else
    let maps := (m, DEFAULT_STACK_SIZE) :: mapped s in
    if c =? 0 then
      (EAGAIN, None, mk_proc (g_threads s) (tlocal s) (munmap m DEFAULT_STACK_SIZE maps) (descs s))
    else
      let td := mk_desc c 0 0 0 0 m DEFAULT_STACK_SIZE in
      let t1 := (ThreadLocal.cact_tlocal_register m DEFAULT_STACK_SIZE (tls_of td) (tlocal s)).2 in
      let threads := td :: g_threads s in
      if k <=? 0 then
        (EAGAIN, None, mk_proc (unlink c threads)
           (ThreadLocal.cact_tlocal_unregister (tls_of td) t1)
           (munmap m DEFAULT_STACK_SIZE maps) (free c (c :: descs s)))
      else
        (0, Some k, mk_proc (mk_desc c k k 0 0 m DEFAULT_STACK_SIZE :: g_threads s) t1 maps (c :: descs s)).

(** [pthread_join] once the kernel has cleared the join word; before that the
    call sleeps, which is no result. *)
Definition pthread_join (thread : Z) (s : proc) : option (Z * option Z * proc) :=
  if thread =? 0 then Some (ESRCH, None, s)
  else match find_by_id_locked thread s with
       | None => Some (ESRCH, None, s)
       | Some td =>
           if negb (clr td =? 0) then None
           else
             Some (0, Some (retval td),
                   mk_proc (unlink (addr td) (g_threads s))
                     (ThreadLocal.cact_tlocal_unregister (tls_of td) (tlocal s))
                     (if stack td =? 0 then mapped s else munmap (stack td) (stack_size td) (mapped s))
                     (free (addr td) (descs s)))
       end.

Definition pthread_detach (thread : Z) (s : proc) : Z * proc :=
  match list_find (fun t => tid t = thread) (g_threads s) with
  | Some (i, t) =>
      (0, mk_proc (<[i := mk_desc (addr t) (tid t) (clr t) 1 (retval t) (stack t) (stack_size t)]>
                     (g_threads s)) (tlocal s) (mapped s) (descs s))
  | None => (ESRCH, s)
  end.

(** [thread_known], and the scheduling calls for a running thread. *)
Definition thread_known (self t : Z) (s : proc) : bool :=
  (t =? 0) || (t =? self) ||
  match find_by_id_locked t s with Some _ => true | None => false end.

Definition pthread_setschedparam (self thread pol : Z) (prio : option Z) (s : proc) : Z :=
  if negb (pol =? SCHED_OTHER) then EINVAL
  else match prio with
       | None => EINVAL
       | Some p => if negb (p =? 0) then EINVAL else if thread_known self thread s then 0 else ESRCH
       end.

Definition pthread_setschedprio (self thread prio : Z) (s : proc) : Z :=
  if negb (prio =? 0) then EINVAL else if thread_known self thread s then 0 else ESRCH.

(** ** Properties *)

(** The resources of the process agree with its registry: the table is valid,
    and no descriptor is listed twice. *)
Definition proc_ok (s : proc) : Prop :=
  ThreadLocal.table_ok (tlocal s) /\ NoDup (addr <$> g_threads s).

(** The addresses [mmap] and [calloc] hand out are not in use. *)
Definition fresh (m c : Z) (s : proc) : Prop :=
  0 < m /\ m + DEFAULT_STACK_SIZE < 2 ^ 32 /\ 0 < c
  /\ Forall (ThreadLocal.overlap_free (m, m + DEFAULT_STACK_SIZE, c + 12)) (ThreadLocal.ranges (tlocal s))
  /\ c + 12 ∉ snd <$> ThreadLocal.ranges (tlocal s) /\ c ∉ addr <$> g_threads s.

(** a [pthread_create] that the kernel refuses leaves nothing behind: the
    registry, the mappings and the allocations are the ones before the call,
    and the per-thread table has the same live ranges.  The full table is no
    reason to refuse. *)
Theorem create_failure_undone m c k s :
  proc_ok s -> fresh m c s -> m <> MAP_FAILED -> k <= 0 ->
  match pthread_create true true None m c k s with
  | (e, t, s') => e = EAGAIN /\ t = None /\ g_threads s' = g_threads s /\ mapped s' = mapped s
      /\ descs s' = descs s /\ ThreadLocal.table_ok (tlocal s')
      /\ ThreadLocal.ranges (tlocal s') ≡ₚ ThreadLocal.ranges (tlocal s)
  end.
Proof.
  intros [Hok Hnd] (Hm & Hlim & Hc & Hap & Hni & Hna) Hmf Hk.
  unfold pthread_create. cbn [negb orb]. zdecide. cbn [mapped descs g_threads tlocal unlink addr].
  rewrite Z.eqb_refl. unfold munmap, free. cbn [list_find]. rewrite !decide_True by done. cbn [delete list_delete].
  split; [done|]. do 4 (split; [done|]). pose proof (ThreadLocal.tlocal_register_spec m DEFAULT_STACK_SIZE (c + 12) (tlocal s) Hok Hm
    eq_refl Hlim ltac:(lia) Hap Hni) as Hr. unfold tls_of. cbn [addr].
  destruct (ThreadLocal.cact_tlocal_register _ _ _ _) as [r t1]. cbn [snd].
  destruct Hr as [(_ & -> & _)|(_ & Hok1 & Hp1)].
  - assert (E : ThreadLocal.cact_tlocal_unregister (c + 12) (tlocal s) = tlocal s); [|by rewrite E].
    unfold ThreadLocal.cact_tlocal_unregister. zdecide.
    destruct (list_find _ _) as [[i sl]|] eqn:Ef; [|done].
    apply list_find_Some in Ef as (Hi & Hb & _). destruct Hni.
    apply (list_elem_of_fmap_2' snd _ (ThreadLocal.lo sl, ThreadLocal.hi sl, c + 12)); [|done].
    rewrite <- Hb. apply (ThreadLocal.in_ranges _ i); [done|lia].
  - destruct (ThreadLocal.unregister_spec m (m + DEFAULT_STACK_SIZE) (c + 12) t1 Hok1)
      as [Hok2 Hp2]; [rewrite Hp1; by left|].
    split; [done|]. apply (Permutation_cons_inv (a := (m, m + DEFAULT_STACK_SIZE, c + 12))).
    rewrite <- Hp2, Hp1. unfold DEFAULT_STACK_SIZE. reflexivity.
Qed.

Definition empty_proc : proc := mk_proc [] ThreadLocal.start [] [].

Lemma create_failure_undone_witness :
  fresh 0x40000000 0x1000 empty_proc /\
  match pthread_create true true None 0x40000000 0x1000 (-11) empty_proc with
  | (e, t, s') => e = EAGAIN /\ t = None /\ g_threads s' = [] /\ mapped s' = []
      /\ descs s' = [] /\ ThreadLocal.table_ok (tlocal s')
      /\ ThreadLocal.ranges (tlocal s') ≡ₚ ThreadLocal.ranges ThreadLocal.start
  end.
Proof.
  assert (Hf : fresh 0x40000000 0x1000 empty_proc).
  { unfold fresh, DEFAULT_STACK_SIZE. split; [lia|]. split; [lia|]. split; [lia|].
    change (ThreadLocal.ranges (tlocal empty_proc)) with (@nil ThreadLocal.range).
    split; [constructor|]. split; apply not_elem_of_nil. }
  split; [exact Hf|].
  apply (create_failure_undone 0x40000000 0x1000 (-11) empty_proc); [|exact Hf|done|lia].
  split; [|constructor]. apply (ThreadLocal.reach_ok _ _ ThreadLocal.reach_start).
Defined.

End Life.
