(* ===== verification/Cond.v ===== *)
(** * Cond: condition variables on a futex word (src/pthread.c)

    [cond_step] is a thread's next atomic action in [pthread_cond_wait],
    [pthread_cond_timedwait], [pthread_cond_signal] and [pthread_cond_broadcast];
    [step] interleaves any number of threads that use one condition variable and
    its mutex the way POSIX asks: a waiter tests the condition under the mutex, and
    whoever makes it true does so under the mutex and broadcasts afterwards.  The
    mutex is the one of [Mutex]: at most one thread holds it.  [FUTEX_WAIT]
    compares and sleeps atomically, and a sleep may end for other reasons. *)

From Stdlib Require Import ZArith Lia Bool.
From stdpp Require Import base list numbers relations.
From S2P Require Import Prelude Monad Pthread.

Module Cond.

Definition EINTR : Z := 4.
Definition EAGAIN : Z := 11.
Definition EINVAL : Z := 22.
Definition ETIMEDOUT : Z := 110.

(** [None] is a null pointer; the object is its sequence number. *)
Definition pthread_cond_init (c : option Z) : Z * option Z := match c with None => (EINVAL, None) | Some _ => (0, Some 0) end.
Definition pthread_cond_destroy : Z := 0.

(** The kind of wait: without a limit, or with the futex timeout. *)
Abbreviation limit := (option Z).

(** What the call returns for the result [r] of the futex. *)
Definition result (t : limit) (r : Z) : Z :=
  match t with
  | None => if r =? - EINTR then EINTR else 0
  | Some ms => if (r =? - ETIMEDOUT) || ((ms =? 0) && (r =? - EAGAIN)) then ETIMEDOUT else 0
  end.

(** [g] is the number of signals sent when the waiter loaded the sequence number
    [v]; the program does not have it. *)
Inductive pc :=
| Out (r : Z)                          (** without the mutex; the last wait returned [r] *)
| Locked (r : Z)                       (** with the mutex *)
| WLoad (t : limit)                    (** about to load [seq], with the mutex *)
| WUnlock (t : limit) (v g : Z)        (** about to unlock *)
| WFutex (t : limit) (v g : Z)         (** about to [FUTEX_WAIT] *)
| WAsleep (t : limit) (v g : Z)        (** queued in the kernel *)
| WRelock (r : Z)                      (** about to lock again, then return [r] *)
| Due                                  (** made the condition true, unlocked, has to broadcast *)
| Set_                                 (** made the condition true, with the mutex *)
| SAdd (all h : bool)                  (** signal or broadcast: about to add to [seq]; [h] with the mutex *)
| SWake (all h : bool).                (** about to [FUTEX_WAKE] one or all *)

Record sys := Sys { owner : option nat; seq : Z; sigs : Z; ready : bool; threads : list pc }.

(** The next action of thread [me]: its program point, [seq] and the owner. *)
Definition cond_step (me : nat) (p : pc) (s : sys) : option (pc * Z * option nat) :=
  match p with
  | WLoad t => Some (WUnlock t (seq s) (sigs s), seq s, owner s)
  | WUnlock t v g => Some (WFutex t v g, seq s, None)
  | WFutex t v g => Some (if seq s =? v then WAsleep t v g else WRelock (result t (- EAGAIN)), seq s, owner s)
  | WRelock r => match owner s with None => Some (Locked r, seq s, Some me) | Some _ => None end
  | SAdd all h => Some (SWake all h, u32 (seq s + 1), owner s)
  | _ => None
  end.

Definition wake (p : pc) : pc := match p with WAsleep t _ _ => WRelock (result t 0) | _ => p end.
Definition after_signal (h : bool) : pc := if h then Locked 0 else Out 0.
Definition adds (p : pc) : Z := match p with SAdd _ _ => 1 | _ => 0 end.

(** Results with which a sleep ends by itself. *)
Definition ends (r : Z) : Prop := r = 0 \/ r = - EINTR \/ r = - ETIMEDOUT.

Inductive step (s : sys) : sys -> Prop :=
| step_lock i r : threads s !! i = Some (Out r) -> owner s = None -> step s (Sys (Some i) (seq s) (sigs s) (ready s) (<[i := Locked r]> (threads s)))
| step_unlock i r : threads s !! i = Some (Locked r) -> step s (Sys None (seq s) (sigs s) (ready s) (<[i := Out r]> (threads s)))
| step_wait i r t : threads s !! i = Some (Locked r) -> ready s = false -> step s (Sys (owner s) (seq s) (sigs s) (ready s) (<[i := WLoad t]> (threads s)))
| step_take i r : threads s !! i = Some (Locked r) -> ready s = true -> step s (Sys (owner s) (seq s) (sigs s) false (threads s))
| step_set i r : threads s !! i = Some (Locked r) -> step s (Sys (owner s) (seq s) (sigs s) true (<[i := Set_]> (threads s)))
| step_set_unlock i : threads s !! i = Some Set_ -> step s (Sys None (seq s) (sigs s) (ready s) (<[i := Due]> (threads s)))
| step_broadcast_held i : threads s !! i = Some Set_ -> step s (Sys (owner s) (seq s) (sigs s) (ready s) (<[i := SAdd true true]> (threads s)))
| step_broadcast i : threads s !! i = Some Due -> step s (Sys (owner s) (seq s) (sigs s) (ready s) (<[i := SAdd true false]> (threads s)))
| step_signal i r all : threads s !! i = Some (Out r) -> step s (Sys (owner s) (seq s) (sigs s) (ready s) (<[i := SAdd all false]> (threads s)))
| step_run i p p' q o : threads s !! i = Some p -> cond_step i p s = Some (p', q, o) -> step s (Sys o q (sigs s + adds p) (ready s) (<[i := p']> (threads s)))
| step_wake_all i h : threads s !! i = Some (SWake true h) -> step s (Sys (owner s) (seq s) (sigs s) (ready s) (wake <$> <[i := after_signal h]> (threads s)))
| step_wake_one i h j t v g : threads s !! i = Some (SWake false h) -> threads s !! j = Some (WAsleep t v g) ->
    step s (Sys (owner s) (seq s) (sigs s) (ready s) (<[j := WRelock (result t 0)]> (<[i := after_signal h]> (threads s))))
| step_wake_none i h : threads s !! i = Some (SWake false h) -> (forall j t v g, threads s !! j <> Some (WAsleep t v g)) ->
    step s (Sys (owner s) (seq s) (sigs s) (ready s) (<[i := after_signal h]> (threads s)))
| step_resume j t v g r : threads s !! j = Some (WAsleep t v g) -> ends r ->
    step s (Sys (owner s) (seq s) (sigs s) (ready s) (<[j := WRelock (result t r)]> (threads s))).

Definition init (n : nat) : sys := Sys None 0 0 false (repeat (Out 0) n).
Definition reachable (n : nat) : sys -> Prop := rtc step (init n).

(** ** The invariant *)

Definition holds (p : pc) : bool :=
  match p with Locked _ | WLoad _ | WUnlock _ _ _ | Set_ | SAdd _ true | SWake _ true => true | _ => false end.

(** Somebody still has to add to [seq], or to wake the sleepers. *)
Definition adding (p : pc) : bool := match p with Due | Set_ | SAdd true _ => true | _ => false end.
Definition waking (p : pc) : bool := match p with SWake true _ => true | _ => false end.
Definition some_ (f : pc -> bool) (s : sys) : Prop := exists i p, threads s !! i = Some p /\ f p = true.

Definition point_ok (s : sys) (p : pc) : Prop :=
  match p with
  | WLoad _ => ready s = false
  | WUnlock _ v g => ready s = false /\ v = u32 g /\ 0 <= g <= sigs s
  | WFutex _ v g => v = u32 g /\ 0 <= g <= sigs s /\ (ready s = true -> some_ adding s \/ g < sigs s)
  | WAsleep _ v g => ready s = true -> some_ adding s \/ some_ waking s
  | _ => True
  end.

Record inv (s : sys) : Prop := {
  inv_owner : forall i p, threads s !! i = Some p -> holds p = true <-> owner s = Some i;
  inv_seq : seq s = u32 (sigs s) /\ 0 <= sigs s;
  inv_point : forall i p, threads s !! i = Some p -> point_ok s p
}.

(** Thread [i] moves from [p] to [p'], and the rest of the state with it. *)
Definition moved (s : sys) (i : nat) (p' : pc) (o : option nat) (n : Z) (r : bool) : sys := Sys o (u32 n) n r (<[i := p']> (threads s)).

Lemma some_moved f s i p p' o n r : threads s !! i = Some p -> (f p = true -> f p' = true) -> some_ f s -> some_ f (moved s i p' o n r).
Proof.
  intros Ei Hf (j & x & Ej & Hx). destruct (decide (j = i)) as [->|Hne].
  - exists i, p'. cbn. rewrite list_lookup_insert_eq by (by eapply lookup_lt_Some). split; [done|]. apply Hf. congruence.
  - exists j, x. cbn. by rewrite list_lookup_insert_ne.
Qed.

Lemma some_here f s i p p' o n r : threads s !! i = Some p -> f p' = true -> some_ f (moved s i p' o n r).
Proof. intros Ei Hf. exists i, p'. cbn. rewrite list_lookup_insert_eq by (by eapply lookup_lt_Some). done. Qed.

(** Nothing that a waiting thread relies on is taken away. *)
Lemma point_mono s s' x :
  sigs s <= sigs s' -> (ready s' = true -> ready s = true) ->
  (some_ adding s -> some_ adding s' \/ sigs s < sigs s' /\ some_ waking s') -> (some_ waking s -> some_ waking s') ->
  point_ok s x -> point_ok s' x.
Proof.
  intros Hs Hr Ha Hw. destruct x; cbn; try done.
  - intros E. destruct (ready s'); [|done]. rewrite Hr in E; done.
  - intros (E & -> & Hg). split; [|lia]. destruct (ready s'); [|done]. rewrite Hr in E; done.
  - intros (-> & Hg & H). split; [done|]. split; [lia|]. intros E. destruct (H (Hr E)) as [H1|H1]; [|right; lia]. destruct (Ha H1) as [?|[? _]]; [by left|right; lia].
  - intros H E. destruct (H (Hr E)) as [H1|H1]; [|right; by apply Hw]. destruct (Ha H1) as [?|[_ ?]]; [by left|by right].
Qed.

Lemma inv_moved s i p p' o n r :
  inv s -> threads s !! i = Some p -> (holds p' = true <-> o = Some i) ->
  o = owner s \/ owner s = Some i \/ owner s = None /\ o = Some i ->
  (o <> owner s -> forall j, j <> i -> o <> Some j) ->
  0 <= n -> point_ok (moved s i p' o n r) p' ->
  (forall j x, j <> i -> threads s !! j = Some x -> point_ok s x -> point_ok (moved s i p' o n r) x) ->
  inv (moved s i p' o n r).
Proof.
  intros Hi Ei Ho Hoo Hoj Hn Hp Hx. split; [|done|].
  - intros j x Ej. cbn in Ej. destruct (decide (j = i)) as [->|Hne].
    + rewrite list_lookup_insert_eq in Ej by (by eapply lookup_lt_Some). by injection Ej as <-.
    + rewrite list_lookup_insert_ne in Ej by done. rewrite (inv_owner s Hi j x Ej). cbn. destruct (decide (o = owner s)) as [->|Hd]; [done|].
      specialize (Hoj Hd j Hne). split; [|done]. destruct Hoo as [?|[E|[E _]]]; [done|rewrite E; congruence|rewrite E; congruence].
  - intros j x Ej. cbn in Ej. destruct (decide (j = i)) as [->|Hne].
    + rewrite list_lookup_insert_eq in Ej by (by eapply lookup_lt_Some). by injection Ej as <-.
    + rewrite list_lookup_insert_ne in Ej by done. apply (Hx j); [done..|]. by apply (inv_point s Hi j).
Qed.

(** The moves that leave the sequence number and the condition. *)
Lemma inv_quiet s i p p' o :
  inv s -> threads s !! i = Some p -> (holds p' = true <-> o = Some i) ->
  o = owner s \/ owner s = Some i \/ owner s = None /\ o = Some i -> (o <> owner s -> forall j, j <> i -> o <> Some j) ->
  (adding p = true -> adding p' = true) -> (waking p = true -> waking p' = true) ->
  point_ok (moved s i p' o (sigs s) (ready s)) p' -> inv (Sys o (seq s) (sigs s) (ready s) (<[i := p']> (threads s))).
Proof.
  intros Hi Ei Ho Hoo Hoj Ha Hw Hp. destruct (inv_seq s Hi) as [-> Hn]. apply (inv_moved s i p p' o (sigs s) (ready s)); try done.
  intros j x Hj Ej. apply point_mono; cbn; [lia|done| |].
  - intros H. left. by apply (some_moved adding s i p p' o (sigs s) (ready s)).
  - by apply (some_moved waking s i p p' o (sigs s) (ready s)).
Qed.

Lemma holder s i p : inv s -> threads s !! i = Some p -> holds p = true -> owner s = Some i.
Proof. intros Hi Ei Hh. by apply (inv_owner s Hi i p). Qed.

Lemma not_holder s i p : inv s -> threads s !! i = Some p -> holds p = false -> owner s <> Some i.
Proof. intros Hi Ei Hh E. apply (inv_owner s Hi i p Ei) in E. congruence. Qed.

(** A move that keeps the owner, between two points that agree on it. *)
Lemma inv_same s i p p' :
  inv s -> threads s !! i = Some p -> holds p' = holds p -> (adding p = true -> adding p' = true) -> (waking p = true -> waking p' = true) ->
  point_ok (moved s i p' (owner s) (sigs s) (ready s)) p' -> inv (Sys (owner s) (seq s) (sigs s) (ready s) (<[i := p']> (threads s))).
Proof. intros Hi Ei Hh Ha Hw Hp. apply (inv_quiet s i p); try done; [|by left]. rewrite Hh. by apply (inv_owner s Hi). Qed.

Lemma inv_unlock s i p p' :
  inv s -> threads s !! i = Some p -> holds p = true -> holds p' = false -> (adding p = true -> adding p' = true) -> (waking p = true -> waking p' = true) ->
  point_ok (moved s i p' None (sigs s) (ready s)) p' -> inv (Sys None (seq s) (sigs s) (ready s) (<[i := p']> (threads s))).
Proof. intros Hi Ei Hh Hh' Ha Hw Hp. apply (inv_quiet s i p); try done; [rewrite Hh'; done|right; left; by apply (holder s i p)]. Qed.

Lemma inv_lock s i p p' :
  inv s -> threads s !! i = Some p -> owner s = None -> holds p' = true -> (adding p = true -> adding p' = true) -> (waking p = true -> waking p' = true) ->
  point_ok (moved s i p' (Some i) (sigs s) (ready s)) p' -> inv (Sys (Some i) (seq s) (sigs s) (ready s) (<[i := p']> (threads s))).
Proof. intros Hi Ei Ho Hh Ha Hw Hp. apply (inv_quiet s i p); try done; [right; by right|congruence]. Qed.

Lemma inv_run s i p p' q o : inv s -> sigs s < 2 ^ 32 -> threads s !! i = Some p -> cond_step i p s = Some (p', q, o) -> inv (Sys o q (sigs s + adds p) (ready s) (<[i := p']> (threads s))).
Proof.
  intros Hi Hb Ei E. pose proof (inv_point s Hi i p Ei) as Hp. destruct (inv_seq s Hi) as [Hseq Hn].
  destruct p; cbn in E; try discriminate E; cbn [adds]; rewrite ?Z.add_0_r.
  - injection E as <- <- <-. apply (inv_same s i (WLoad t)); done.
  - injection E as <- <- <-. apply (inv_unlock s i (WUnlock t v g)); try done. destruct Hp as (Hr & Hv & Hg). cbn. split; [done|]. split; [done|]. congruence.
  - injection E as <- <- <-. apply (inv_same s i (WFutex t v g)); try done; [by destruct (_ =? _)|]. destruct (Z.eqb_spec (seq s) v) as [Ev|]; [|done].
    destruct Hp as (Hv & Hg & H). cbn. intros Hr. left. destruct (H Hr) as [Ha|Hlt]; [by apply (some_moved adding s i (WFutex t v g))|].
    exfalso. rewrite Hseq, Hv, !u32_small in Ev by lia. lia.
  - destruct (owner s) eqn:Eo; [discriminate E|]. injection E as <- <- <-. by apply (inv_lock s i (WRelock r)).
  - injection E as <- <- <-. rewrite Hseq. replace (u32 (u32 (sigs s) + 1)) with (u32 (sigs s + 1)) by (unfold u32, wrapu; by rewrite Zplus_mod_idemp_l).
    apply (inv_moved s i (SAdd all h) (SWake all h) (owner s) (sigs s + 1) (ready s)); try done; [| |lia|].
    + rewrite <- (inv_owner s Hi i _ Ei). by destruct h.
    + by left.
    + intros j x Hj Ej. apply point_mono; cbn; [lia|done| |by apply (some_moved waking s i (SAdd all h))].
      intros H. destruct all; [right; split; [lia|by apply (some_here waking s i (SAdd true h))]|left; by apply (some_moved adding s i (SAdd false h))].
Qed.

Lemma inv_wake_all s i h : inv s -> threads s !! i = Some (SWake true h) -> inv (Sys (owner s) (seq s) (sigs s) (ready s) (wake <$> <[i := after_signal h]> (threads s))).
Proof.
  intros Hi Ei. assert (L : forall j y, (wake <$> <[i := after_signal h]> (threads s)) !! j = Some y ->
    exists x, threads s !! j = Some x /\ y = if decide (j = i) then after_signal h else wake x).
  { intros j y Ej. rewrite list_lookup_fmap in Ej. destruct (decide (j = i)) as [->|Hne].
    - rewrite list_lookup_insert_eq in Ej by (by eapply lookup_lt_Some). exists (SWake true h). split; [done|]. by destruct h; injection Ej as <-.
    - rewrite list_lookup_insert_ne in Ej by done. destruct (threads s !! j) as [x|]; [|done]. exists x. split; [done|]. by injection Ej as <-. }
  assert (A : some_ adding s -> some_ adding (Sys (owner s) (seq s) (sigs s) (ready s) (wake <$> <[i := after_signal h]> (threads s)))).
  { intros (j & x & Ej & Hx). exists j, (wake x). cbn. destruct (decide (j = i)) as [->|Hne]; [rewrite Ei in Ej; injection Ej as <-; done|].
    rewrite list_lookup_fmap, list_lookup_insert_ne, Ej by done. split; [done|]. by destruct x. }
  split; [|apply (inv_seq s Hi)|].
  - intros j y Ej. destruct (L j y Ej) as (x & Ex & ->). cbn. rewrite <- (inv_owner s Hi j x Ex). destruct (decide (j = i)) as [->|]; [|by destruct x].
    rewrite Ei in Ex. injection Ex as <-. by destruct h.
  - intros j y Ej. destruct (L j y Ej) as (x & Ex & ->). destruct (decide (j = i)); [by destruct h|]. pose proof (inv_point s Hi j x Ex) as Hp.
    destruct x; cbn in *; try done. destruct Hp as (Hv & Hg & H). split; [done|]. split; [done|]. intros Hr. destruct (H Hr); [left; by apply A|by right].
Qed.

Lemma inv_step s s' : inv s -> sigs s < 2 ^ 32 -> step s s' -> inv s'.
Proof.
  intros Hi Hb Hst. destruct Hst as [i r Ei Ho|i r Ei|i r t Ei Hr|i r Ei Hr|i r Ei|i Ei|i Ei|i Ei|i r all Ei|i p p' q o Ei E|i h Ei|i h j t v g Ei Ej|i h Ei Hno|j t v g r Ej Hr].
  - by apply (inv_lock s i (Out r)).
  - by apply (inv_unlock s i (Locked r)).
  - by apply (inv_same s i (Locked r)).
  - destruct (inv_seq s Hi) as [Hseq Hn]. split; [apply (inv_owner s Hi)|done|]. intros j x Ej. cbn in Ej. pose proof (inv_point s Hi j x Ej) as Hp.
    revert Hp. apply point_mono; cbn; [lia|done|by left|done].
  - destruct (inv_seq s Hi) as [-> Hn]. apply (inv_moved s i (Locked r) Set_ (owner s) (sigs s) true); try done.
    + by apply (inv_owner s Hi i (Locked r)).
    + by left.
    + intros j x Hj Ej Hp. assert (Hh : holds x = false).
      { destruct (holds x) eqn:Ex; [|done]. apply (inv_owner s Hi j x Ej) in Ex. pose proof (holder s i _ Hi Ei eq_refl). congruence. }
      assert (A : some_ adding (moved s i Set_ (owner s) (sigs s) true)) by (by apply (some_here adding s i (Locked r))).
      destruct x; cbn in *; try done; [|by left]. destruct Hp as (Hv & Hg & _). split; [done|]. split; [done|]. by left.
  - by apply (inv_unlock s i Set_).
  - by apply (inv_same s i Set_).
  - by apply (inv_same s i Due).
  - by apply (inv_same s i (Out r)).
  - by apply (inv_run s i p).
  - by apply inv_wake_all.
  - assert (Hij : j <> i) by congruence.
    assert (H1 : inv (Sys (owner s) (seq s) (sigs s) (ready s) (<[i := after_signal h]> (threads s)))) by (apply (inv_same s i (SWake false h)); try done; by destruct h).
    apply (inv_same _ j (WAsleep t v g) (WRelock (result t 0)) H1); try done. cbn. by rewrite list_lookup_insert_ne.
  - apply (inv_same s i (SWake false h)); try done; by destruct h.
  - by apply (inv_same s j (WAsleep t v g)).
Qed.

Lemma sigs_mono s s' : step s s' -> sigs s <= sigs s'.
Proof. intros H. destruct H; cbn; try lia. destruct p; cbn; lia. Qed.

Lemma inv_init n : inv (init n).
Proof.
  assert (L : forall i p, threads (init n) !! i = Some p -> p = Out 0) by (intros i p E; by apply list_elem_of_lookup_2, list_elem_of_In, repeat_spec in E).
  split; [|done|]; intros i p E; rewrite (L i p E); done.
Qed.

Lemma cond_reachable_inv n s : reachable n s -> sigs s < 2 ^ 32 -> inv s.
Proof.
  intros H. apply (rtc_ind_r (R := step) (fun s => sigs s < 2 ^ 32 -> inv s) (init n)); [intros _; apply inv_init| |done].
  intros y z _ Hs IH Hz. pose proof (sigs_mono y z Hs). apply (inv_step y); [apply IH; lia|lia|done].
Qed.

(** C10: no wake-up is lost: whenever the condition holds and a thread sleeps on it, a
    thread that made it true has yet to broadcast or is about to wake the
    sleepers; a thread that tested the condition before it was made true and has
    not slept yet will not.  The mutex is taken as its owner, fewer than 2^32
    signals have been sent, and the threads test and change the condition with the
    mutex held. *)
Theorem cond_no_lost_wakeup n s j t v g : reachable n s -> sigs s < 2 ^ 32 -> threads s !! j = Some (WAsleep t v g) -> ready s = true ->
  exists i p, threads s !! i = Some p /\ (p = Due \/ p = Set_ \/ (exists h, p = SAdd true h) \/ exists h, p = SWake true h).
Proof.
  intros Hr Hb Ej Hready. destruct (inv_point s (cond_reachable_inv n s Hr Hb) j _ Ej Hready) as [(i & p & Ei & Hp)|(i & p & Ei & Hp)]; exists i, p; (split; [done|]).
  - destruct p; try discriminate Hp; eauto. destruct all; [|discriminate Hp]. eauto.
  - destruct p; try discriminate Hp. destruct all; [|discriminate Hp]. eauto.
Qed.

(** A signal sent after a waiter's test reaches it before it sleeps. *)
Theorem signalled_does_not_sleep n s j t v g : reachable n s -> sigs s < 2 ^ 32 -> threads s !! j = Some (WFutex t v g) -> g < sigs s ->
  cond_step j (WFutex t v g) s = Some (WRelock (result t (- EAGAIN)), seq s, owner s).
Proof.
  intros Hr Hb Ej Hg. pose proof (cond_reachable_inv n s Hr Hb) as Hi. destruct (inv_point s Hi j _ Ej) as (Hv & Hgs & _). destruct (inv_seq s Hi) as [Hs _].
  cbn. rewrite Hs, Hv, !u32_small by lia. by rewrite (proj2 (Z.eqb_neq _ _)) by lia.
Qed.

(** Only one thread is past the test with the mutex. *)
Theorem cond_mutex n s i j p q : reachable n s -> sigs s < 2 ^ 32 -> threads s !! i = Some p -> threads s !! j = Some q -> holds p = true -> holds q = true -> i = j.
Proof.
  intros Hr Hb Ei Ej Hp Hq. pose proof (cond_reachable_inv n s Hr Hb) as Hi. pose proof (holder s i p Hi Ei Hp). pose proof (holder s j q Hi Ej Hq). congruence.
Qed.

(** One thread sleeps and the other has just made the condition true. *)
Definition sleeping : sys := Sys (Some 1%nat) 0 0 true [WAsleep None 0 0; Set_].

Lemma sleeping_reachable : reachable 2 sleeping.
Proof.
  eapply rtc_l; [apply (step_lock _ 0 0); reflexivity|]. eapply rtc_l; [apply (step_wait _ 0 0 None); reflexivity|].
  eapply rtc_l; [eapply (step_run _ 0); reflexivity|]. eapply rtc_l; [eapply (step_run _ 0); reflexivity|]. eapply rtc_l; [eapply (step_run _ 0); reflexivity|].
  eapply rtc_l; [apply (step_lock _ 1 0); reflexivity|]. eapply rtc_l; [apply (step_set _ 1 0); reflexivity|]. apply rtc_refl.
Qed.

Lemma cond_no_lost_wakeup_witness :
  exists i p, threads sleeping !! i = Some p /\ (p = Due \/ p = Set_ \/ (exists h, p = SAdd true h) \/ exists h, p = SWake true h).
Proof. apply (cond_no_lost_wakeup 2 sleeping 0 None 0 0); [apply sleeping_reachable|reflexivity|reflexivity|reflexivity]. Defined.
End Cond.
