(* ===== verification/Calendar.v ===== *)
(** * Calendar: the civil calendar of src/time.c and src/tz.c

    [struct tm], the breakdown of a [time_t] into civil fields
    ([_fill_gmtime]) and the day count of a civil date ([_days_from_civil],
    which src/tz.c has a second copy of).  [long], [int] and [time_t] are 32
    bits and the arithmetic is written with its wrap-around.  The year loops
    run on fuel [year_fuel]; the theorems show that it is enough for every
    32-bit [time_t]. *)

From Stdlib Require Import ZArith Lia Bool.
From stdpp Require Import base list numbers.
From S2P Require Import Prelude.

Module Calendar.

Record tm := Tm {
  tm_sec : Z; tm_min : Z; tm_hour : Z;
  tm_mday : Z; tm_mon : Z; tm_year : Z;
  tm_wday : Z; tm_yday : Z; tm_isdst : Z
}.

#[export] Instance tm_eq_dec : EqDecision tm.
Proof. solve_decision. Defined.

(** ** The two leap-year tests *)

Definition _isleap (y : Z) : bool :=
  (Z.rem y 4 =? 0) && (negb (Z.rem y 100 =? 0) || (Z.rem y 400 =? 0)).

Definition is_leap (y : Z) : bool :=
  (Z.rem y 4 =? 0) && (negb (Z.rem y 100 =? 0) || (Z.rem y 400 =? 0)).

(** The tables [mdays] of src/time.c and [md] of src/tz.c. *)
Definition mdays : list Z := [31; 28; 31; 30; 31; 30; 31; 31; 30; 31; 30; 31].

(** An index outside the table is out of bounds. *)
Definition days_in_month (y m : Z) : option Z :=
  if (m =? 2) && is_leap y then Some 29
  else if m - 1 <? 0 then None else mdays !! Z.to_nat (m - 1).

(** ** Day numbers *)

Definition days_from_civil (y m d : Z) : Z :=
  let y := s32 (y - (if m <=? 2 then 1 else 0)) in
  let era := Z.quot (if y >=? 0 then y else s32 (y - 399)) 400 in
  let yoe := u32 (y - era * 400) in
  let mp := u32 (Z.rem (s32 (m + 9)) 12) in
  let doy := u32 (u32 (153 * mp + 2) / 5 + d - 1) in
  let doe := u32 (yoe * 365 + yoe / 4 - yoe / 100 + doy) in
  s32 (era * 146097 + s32 doe - 719468).

(** src/time.c has its own copy of the same function. *)
Definition _days_from_civil (y m d : Z) : Z :=
  let y := s32 (y - (if m <=? 2 then 1 else 0)) in
  let era := Z.quot (if y >=? 0 then y else s32 (y - 399)) 400 in
  let yoe := u32 (y - era * 400) in
  let mp := u32 (Z.rem (s32 (m + 9)) 12) in
  let doy := u32 (u32 (153 * mp + 2) / 5 + d - 1) in
  let doe := u32 (yoe * 365 + yoe / 4 - yoe / 100 + doy) in
  s32 (era * 146097 + s32 doe - 719468).

(** Sunday is 0. *)
Definition weekday_of (days : Z) : Z :=
  let w := Z.rem (s32 (days + 4)) 7 in
  if w <? 0 then w + 7 else w.

(** ** The breakdown of a [time_t] *)

Definition year_fuel : nat := 100.

(** [for (y = 1970;; y++)] over the years after the epoch. *)
Fixpoint year_up (fuel : nat) (y days : Z) : option (Z * Z) :=
  match fuel with
  | O => None
  | S fuel =>
      let d := if _isleap y then 366 else 365 in
      if days <? d then Some (y, days) else year_up fuel (y + 1) (days - d)
  end.

(** [for (y = 1969;; y--)] over the years before it. *)
Fixpoint year_down (fuel : nat) (y days : Z) : option (Z * Z) :=
  match fuel with
  | O => None
  | S fuel =>
      let days := days + (if _isleap y then 366 else 365) in
      if days >=? 0 then Some (y, days) else year_down fuel (y - 1) days
  end.

(** [for (m = 0; m < 12; m++)] over the lengths of the months from [m] on. *)
Fixpoint month_loop (lens : list Z) (leap : bool) (m days : Z) : Z * Z :=
  match lens with
  | [] => (m, days)
  | len :: lens =>
      let d := if (m =? 1) && leap then 29 else len in
      if days <? d then (m, days) else month_loop lens leap (m + 1) (days - d)
  end.

Definition _fill_gmtime (t : Z) : option tm :=
  let days := Z.quot t 86400 in
  let rem := Z.rem t 86400 in
  let '(days, rem) := if rem <? 0 then (days - 1, rem + 86400) else (days, rem) in
  let sec := Z.rem rem 60 in
  let rem := Z.quot rem 60 in
  let min := Z.rem rem 60 in
  let rem := Z.quot rem 60 in
  let w := Z.rem (days + 4) 7 in
  let wday := if w <? 0 then w + 7 else w in
  '(y, yday) ← (if days >=? 0 then year_up year_fuel 1970 days
                else year_down year_fuel 1969 days);
  let '(m, day) := month_loop mdays (_isleap y) 0 yday in
  Some (Tm sec min rem (day + 1) m (y - 1900) wday yday 0).

(** A null pointer is [None]; the result's old content is overwritten. *)
Definition gmtime_r (timep : option Z) (result : option tm) : option (option tm) :=
  match timep, result with
  | Some t, Some _ => r ← _fill_gmtime t; Some (Some r)
  | _, _ => Some None
  end.

(** The local fields read as if they were UTC. *)
Definition civil_seconds (t : tm) : Z :=
  s32 (days_from_civil (s32 (tm_year t + 1900)) (s32 (tm_mon t + 1)) (tm_mday t) * 86400
       + tm_hour t * 3600 + tm_min t * 60 + tm_sec t).

(** ** The calendar, without machine arithmetic *)

(** Days from the epoch to January 1 of year [y]. *)
Definition jan1 (y : Z) : Z :=
  365 * (y - 1) + (y - 1) / 4 - (y - 1) / 100 + (y - 1) / 400 - 719162.

(** Days before month [m] (1..12) of a year. *)
Definition cum_days (leap : bool) (m : Z) : Z :=
  (367 * m - 362) / 12 - (if m <=? 2 then 0 else if leap then 1 else 2).

Definition year_len (y : Z) : Z := if _isleap y then 366 else 365.

(** Years for which no intermediate value leaves 32 bits. *)
Definition year_ok (y : Z) : Prop := 1 <= y <= 5000000.

Lemma isleap_same y : is_leap y = _isleap y.
Proof. reflexivity. Qed.

Lemma days_from_civil_same y m d : _days_from_civil y m d = days_from_civil y m d.
Proof. reflexivity. Qed.

Lemma jan1_succ y : 1 <= y -> jan1 (y + 1) = jan1 y + year_len y.
Proof.
  intros Hy. unfold jan1, year_len, _isleap.
  zcases; cbn [andb orb negb]; Z.to_euclidean_division_equations; lia.
Qed.

Lemma quot_floor400 y : (if y >=? 0 then y else y - 399) ÷ 400 = y / 400.
Proof. zcases; Z.to_euclidean_division_equations; lia. Qed.

(** The month part: [(153 * mp + 2) / 5] counts the days since March 1. *)
Lemma month_days m :
  1 <= m <= 12 ->
  let mp := (m + 9) mod 12 in
  0 <= mp <= 11 /\
  (153 * mp + 2) / 5 = (if m <=? 2 then (367 * m - 362) / 12 + 306 else (367 * m - 362) / 12 - 61).
Proof.
  intros Hm. assert (H : m = 1 \/ m = 2 \/ m = 3 \/ m = 4 \/ m = 5 \/ m = 6 \/ m = 7 \/ m = 8 \/
    m = 9 \/ m = 10 \/ m = 11 \/ m = 12) by lia.
  decompose [or] H; subst m; vm_compute; intuition congruence.
Qed.

(** The year part: the 400-year cycle counts the days to March 1. *)
Lemma march1 y :
  0 <= y ->
  let era := y / 400 in
  let yoe := y - era * 400 in
  0 <= yoe < 400 /\
  era * 146097 + (yoe * 365 + yoe / 4 - yoe / 100) = 365 * y + y / 4 - y / 100 + y / 400.
Proof. intros Hy. cbv zeta. Z.to_euclidean_division_equations; lia. Qed.

(** The era arithmetic computes the calendar. *)
Lemma days_from_civil_spec y m d :
  year_ok y -> 1 <= m <= 12 -> 1 <= d <= 100000 ->
  days_from_civil y m d = jan1 y + cum_days (_isleap y) m + d - 1.
Proof.
  intros Hy Hm Hd. unfold year_ok in Hy. unfold days_from_civil.
  set (y' := y - (if m <=? 2 then 1 else 0)).
  assert (Hy' : 0 <= y' <= 5000000) by (subst y'; zcases; lia).
  rewrite (s32_small y') by lia. cbv zeta.
  rewrite (Z.geb_leb y' 0). replace (0 <=? y') with true by lia.
  rewrite (Z.quot_div_nonneg y' 400) by lia.
  rewrite (s32_small (m + 9)) by lia.
  rewrite (Z.rem_mod_nonneg (m + 9) 12) by lia.
  destruct (month_days m Hm) as [Hmp Emp]. destruct (march1 y') as [Hyoe Eyoe]; [lia|].
  rewrite (u32_small ((m + 9) mod 12)) by lia.
  rewrite (u32_small (153 * _ + 2)) by lia. rewrite Emp.
  rewrite (u32_small (y' - _)) by lia.
  set (q := (367 * m - 362) / 12) in *. assert (0 <= q <= 336) by (clear - Hm; subst q; Z.to_euclidean_division_equations; lia).
  set (yoe := y' - y' / 400 * 400) in *. set (md := if m <=? 2 then q + 306 else q - 61) in *.
  assert (Hmd : 0 <= md <= 400) by (rewrite <- Emp; clear - Hmp; Z.to_euclidean_division_equations; lia).
  assert (Hb : 0 <= yoe / 4 <= 100 /\ 0 <= yoe / 100 <= yoe) by (clear - Hyoe; Z.to_euclidean_division_equations; lia).
  set (y4 := yoe / 4) in *. set (y100 := yoe / 100) in *.
  rewrite (u32_small (md + d - 1)) by lia.
  rewrite (u32_small (yoe * 365 + _ - _ + _)) by lia.
  rewrite (s32_small (yoe * 365 + _ - _ + _)) by lia.
  assert (He : 0 <= y' / 400 <= 12500) by (clear - Hy'; Z.to_euclidean_division_equations; lia).
  rewrite s32_small by lia.
  unfold jan1, cum_days, _isleap. fold q. subst md y'.
  destruct (Z.leb_spec m 2); [lia|].
  clear - Eyoe Hy. rewrite Z.sub_0_r in *.
  zcases; cbn [andb orb negb]; Z.to_euclidean_division_equations; lia.
Qed.

(** ** The loops of the breakdown *)

Lemma year_len_pos y : 365 <= year_len y <= 366.
Proof. unfold year_len. destruct (_isleap y); lia. Qed.

(** [days] counts from January 1 of year [y]. *)
Lemma year_up_spec fuel : forall y days,
  1 <= y -> 0 <= days -> days < 365 * Z.of_nat fuel ->
  exists y' yd, year_up fuel y days = Some (y', yd) /\
    y <= y' < y + Z.of_nat fuel /\ 0 <= yd < year_len y' /\ jan1 y' + yd = jan1 y + days.
Proof.
  induction fuel as [|fuel IH]; intros y days Hy H0 Hf; [lia|]. cbn [year_up].
  fold (year_len y). pose proof (year_len_pos y). destruct (Z.ltb_spec days (year_len y)).
  - exists y, days. split; [done|lia].
  - destruct (IH (y + 1) (days - year_len y)) as (y' & yd & E & ? & ? & Ej); [lia..|].
    exists y', yd. rewrite jan1_succ in Ej by lia. split; [done|lia].
Qed.

(** [days] counts back from January 1 of year [y + 1]. *)
Lemma year_down_spec fuel : forall y days,
  Z.of_nat fuel <= y -> days < 0 -> - days <= 365 * Z.of_nat fuel ->
  exists y' yd, year_down fuel y days = Some (y', yd) /\
    y - Z.of_nat fuel < y' <= y /\ 0 <= yd < year_len y' /\ jan1 y' + yd = jan1 (y + 1) + days.
Proof.
  induction fuel as [|fuel IH]; intros y days Hy H0 Hf; [lia|]. cbn [year_down].
  fold (year_len y). pose proof (year_len_pos y). rewrite Z.geb_leb.
  destruct (Z.leb_spec 0 (days + year_len y)).
  - exists y, (days + year_len y). rewrite jan1_succ by lia. split; [done|lia].
  - destruct (IH (y - 1) (days + year_len y)) as (y' & yd & E & ? & ? & Ej); [lia..|].
    exists y', yd. replace (y - 1 + 1) with y in Ej by lia. rewrite jan1_succ by lia. split; [done|lia].
Qed.

Lemma months_split (P : Z -> Prop) :
  P 1 -> P 2 -> P 3 -> P 4 -> P 5 -> P 6 -> P 7 -> P 8 -> P 9 -> P 10 -> P 11 -> P 12 ->
  forall m, 1 <= m <= 12 -> P m.
Proof.
  intros. assert (H' : m = 1 \/ m = 2 \/ m = 3 \/ m = 4 \/ m = 5 \/ m = 6 \/ m = 7 \/ m = 8 \/
    m = 9 \/ m = 10 \/ m = 11 \/ m = 12) by lia.
  decompose [or] H'; by subst m.
Qed.

Definition month_len (y m : Z) : Z := cum_days (_isleap y) (m + 1) - cum_days (_isleap y) m.

Lemma days_in_month_spec y m : 1 <= m <= 12 -> days_in_month y m = Some (month_len y m).
Proof.
  unfold month_len, days_in_month. rewrite isleap_same. destruct (_isleap y);
  revert m; apply months_split; reflexivity.
Qed.

Lemma month_len_range y m : 1 <= m <= 12 -> 28 <= month_len y m <= 31.
Proof.
  unfold month_len. destruct (_isleap y); revert m; apply months_split; vm_compute; intuition congruence.
Qed.

Lemma cum_days_1 leap : cum_days leap 1 = 0.
Proof. by destruct leap. Qed.

Lemma cum_days_year y : cum_days (_isleap y) 13 = year_len y.
Proof. unfold year_len. by destruct (_isleap y). Qed.

(** One month of the loop, entered at month [m] with [days] left. *)
Lemma month_loop_spec y : forall k m days,
  m = 12 - Z.of_nat k -> 0 <= m -> 0 <= days < year_len y - cum_days (_isleap y) (m + 1) ->
  exists m' day, month_loop (drop (Z.to_nat m) mdays) (_isleap y) m days = (m', day) /\
    0 <= m' < 12 /\ 0 <= day < month_len y (m' + 1) /\
    cum_days (_isleap y) (m' + 1) + day = cum_days (_isleap y) (m + 1) + days.
Proof.
  induction k as [|k IH]; intros m days Em Hm Hd.
  - replace (m + 1) with 13 in Hd by lia. rewrite cum_days_year in Hd. lia.
  - pose proof (days_in_month_spec y (m + 1) ltac:(lia)) as Hlen. unfold days_in_month in Hlen.
    replace (m + 1 - 1) with m in Hlen by lia. replace (m + 1 =? 2) with (m =? 1) in Hlen by lia.
    destruct (mdays !! Z.to_nat m) as [len|] eqn:El.
    2:{ apply lookup_ge_None in El. cbn in El. lia. }
    rewrite (drop_S _ len) by done. cbn [month_loop].
    rewrite isleap_same in Hlen. replace (m <? 0) with false in Hlen by lia.
    assert (Ed : (if (m =? 1) && _isleap y then 29 else len) = month_len y (m + 1))
      by (destruct ((m =? 1) && _isleap y); congruence).
    rewrite Ed. destruct (Z.ltb_spec days (month_len y (m + 1))).
    + exists m, days. split; [done|lia].
    + replace (S (Z.to_nat m)) with (Z.to_nat (m + 1)) by lia.
      unfold month_len in *.
      destruct (IH (m + 1) (days - (cum_days (_isleap y) (m + 1 + 1) - cum_days (_isleap y) (m + 1))))
        as (m' & day & E & ? & ? & ?); [lia..|].
      exists m', day. split; [done|lia].
Qed.

(** ** Every instant has its civil date *)

(** The fields of a civil date in their ranges. *)
Definition civil_ok (r : tm) : Prop :=
  0 <= tm_sec r < 60 /\ 0 <= tm_min r < 60 /\ 0 <= tm_hour r < 24 /\
  0 <= tm_mon r < 12 /\ 1 <= tm_mday r <= month_len (tm_year r + 1900) (tm_mon r + 1).

Definition time32 (t : Z) : Prop := - 2 ^ 31 <= t < 2 ^ 31.

Lemma civil_days r :
  civil_ok r -> year_ok (tm_year r + 1900) ->
  days_from_civil (s32 (tm_year r + 1900)) (s32 (tm_mon r + 1)) (tm_mday r)
  = jan1 (tm_year r + 1900) + cum_days (_isleap (tm_year r + 1900)) (tm_mon r + 1) + tm_mday r - 1.
Proof.
  intros (_ & _ & _ & Hm & Hd) Hy. pose proof (month_len_range (tm_year r + 1900) (tm_mon r + 1) ltac:(lia)).
  unfold year_ok in *. rewrite !s32_small by lia. apply days_from_civil_spec; unfold year_ok; lia.
Qed.

Lemma floor_div t :
  (if Z.rem t 86400 <? 0 then (t ÷ 86400 - 1, Z.rem t 86400 + 86400) else (t ÷ 86400, Z.rem t 86400))
  = (t / 86400, t mod 86400).
Proof. zcases; f_equal; Z.to_euclidean_division_equations; lia. Qed.

Lemma weekday_mod d : (if Z.rem d 7 <? 0 then Z.rem d 7 + 7 else Z.rem d 7) = d mod 7.
Proof. zcases; Z.to_euclidean_division_equations; lia. Qed.

Lemma jan1_mono y1 y2 : 1 <= y1 -> y1 < y2 -> jan1 (y1 + 1) <= jan1 y2.
Proof. intros. unfold jan1. Z.to_euclidean_division_equations; lia. Qed.

Lemma jan1_le y1 y2 : 1 <= y1 <= y2 -> jan1 y1 <= jan1 y2.
Proof.
  intros H. destruct (Z.eq_dec y1 y2) as [->|]; [lia|].
  pose proof (jan1_mono y1 y2 ltac:(lia) ltac:(lia)). pose proof (jan1_succ y1 ltac:(lia)).
  pose proof (year_len_pos y1). lia.
Qed.

Lemma cum_days_mono leap m1 m2 : 1 <= m1 -> m1 < m2 -> cum_days leap (m1 + 1) <= cum_days leap m2.
Proof. intros. unfold cum_days. destruct leap; zcases; Z.to_euclidean_division_equations; lia. Qed.

Definition day_of_year (r : tm) : Z :=
  cum_days (_isleap (tm_year r + 1900)) (tm_mon r + 1) + tm_mday r - 1.

Lemma day_of_year_range r : civil_ok r -> 0 <= day_of_year r < year_len (tm_year r + 1900).
Proof.
  intros (_ & _ & _ & Hm & Hd). unfold day_of_year, month_len in *. rewrite <- cum_days_year.
  set (leap := _isleap _) in *. split.
  - assert (0 <= cum_days leap (tm_mon r + 1)); [|lia].
    unfold cum_days. destruct leap; zcases; Z.to_euclidean_division_equations; lia.
  - assert (cum_days leap (tm_mon r + 1 + 1) <= cum_days leap 13); [|lia].
    destruct (Z.eq_dec (tm_mon r) 11) as [->|]; [done|]. apply cum_days_mono; lia.
Qed.

(** The second count of the civil fields, without the 32-bit wrap. *)
Definition instant (r : tm) : Z :=
  (jan1 (tm_year r + 1900) + day_of_year r) * 86400 + tm_hour r * 3600 + tm_min r * 60 + tm_sec r.

Lemma civil_seconds_wide r :
  civil_ok r -> year_ok (tm_year r + 1900) -> civil_seconds r = s32 (instant r).
Proof.
  intros. unfold civil_seconds, instant. rewrite civil_days by done. unfold day_of_year. f_equal. lia.
Qed.

Lemma fill_gmtime_spec t :
  time32 t ->
  exists r, _fill_gmtime t = Some r /\ civil_ok r /\ 1901 <= tm_year r + 1900 <= 2038 /\
    instant r = t /\ tm_wday r = (t / 86400 + 4) mod 7 /\
    tm_yday r = t / 86400 - jan1 (tm_year r + 1900) /\ tm_isdst r = 0.
Proof.
  intros Ht. unfold time32 in Ht. unfold _fill_gmtime. cbv zeta. rewrite floor_div.
  set (days := t / 86400). set (rem := t mod 86400).
  assert (Hrem : 0 <= rem < 86400 /\ t = days * 86400 + rem /\ -24856 <= days <= 24855)
    by (subst days rem; pose proof (Z.div_mod t 86400); pose proof (Z.mod_pos_bound t 86400); lia).
  destruct Hrem as (Hrem & Et & Hdays). rewrite weekday_mod.
  assert (Hyear : exists y yd,
    (if days >=? 0 then year_up year_fuel 1970 days else year_down year_fuel 1969 days) = Some (y, yd) /\
    1869 < y < 2070 /\ 0 <= yd < year_len y /\ jan1 y + yd = days).
  { assert (Ef : Z.of_nat year_fuel = 100) by reflexivity. rewrite Z.geb_leb.
    destruct (Z.leb_spec 0 days).
    - destruct (year_up_spec year_fuel 1970 days) as (y & yd & E & ? & ? & Ej); [lia..|].
      exists y, yd. change (jan1 1970) with 0 in Ej. split; [done|lia].
    - destruct (year_down_spec year_fuel 1969 days) as (y & yd & E & ? & ? & Ej); [lia..|].
      exists y, yd. change (jan1 (1969 + 1)) with 0 in Ej. split; [done|lia]. }
  destruct Hyear as (y & yd & -> & Hy & Hyd & Ej). cbn [mbind option_bind].
  destruct (month_loop_spec y 12 0 yd) as (m & day & E & Hm & Hday & Ec); [done|done| |].
  { change (0 + 1) with 1. rewrite cum_days_1. lia. }
  change (drop (Z.to_nat 0) mdays) with mdays in E. rewrite E.
  replace (cum_days (_isleap y) (0 + 1)) with 0 in Ec by (by destruct (_isleap y)).
  eexists. split; [done|].
  set (r := Tm _ _ _ _ _ _ _ _ _).
  assert (Hok : civil_ok r).
  { unfold civil_ok, r. cbn. replace (y - 1900 + 1900) with y by lia.
    split_and!; try lia; Z.to_euclidean_division_equations; lia. }
  assert (Hy2 : 1901 <= y <= 2038).
  { unfold jan1 in Ej. clear - Ej Hdays Hyd Hy. pose proof (year_len_pos y).
    Z.to_euclidean_division_equations; lia. }
  split; [done|]. split; [cbn; lia|].
  split.
  { unfold instant, day_of_year, r; cbn. replace (y - 1900 + 1900) with y by lia.
    replace (jan1 y + (cum_days (_isleap y) (m + 1) + (day + 1) - 1)) with days by lia.
    rewrite Et. clear - Hrem. Z.to_euclidean_division_equations; lia. }
  unfold r; cbn. replace (y - 1900 + 1900) with y by lia. split_and!; [done|lia|done].
Qed.

(** ** A civil date is determined by its second count *)

(** The fields that name an instant. *)
Definition same_civil (r r' : tm) : Prop :=
  tm_sec r = tm_sec r' /\ tm_min r = tm_min r' /\ tm_hour r = tm_hour r' /\
  tm_mday r = tm_mday r' /\ tm_mon r = tm_mon r' /\ tm_year r = tm_year r'.

#[export] Instance same_civil_equiv : Equivalence same_civil.
Proof. split; unfold same_civil; repeat intro; intuition congruence. Qed.

Lemma civil_unique r r' :
  civil_ok r -> civil_ok r' -> 1 <= tm_year r + 1900 -> 1 <= tm_year r' + 1900 ->
  instant r = instant r' ->
  same_civil r r'.
Proof.
  intros H H' Hy Hy' E. unfold instant in E.
  pose proof (day_of_year_range r H) as D. pose proof (day_of_year_range r' H') as D'.
  pose proof (jan1_succ (tm_year r + 1900) Hy) as J. pose proof (jan1_succ (tm_year r' + 1900) Hy') as J'.
  destruct H as (? & ? & ? & Hm & Hd), H' as (? & ? & ? & Hm' & Hd').
  assert (tm_year r = tm_year r') as Ey.
  { destruct (Z.lt_trichotomy (tm_year r) (tm_year r')) as [L|[L|L]]; [|done|].
    - pose proof (jan1_mono (tm_year r + 1900) (tm_year r' + 1900) ltac:(lia) ltac:(lia)). lia.
    - pose proof (jan1_mono (tm_year r' + 1900) (tm_year r + 1900) ltac:(lia) ltac:(lia)). lia. }
  unfold day_of_year, month_len in *. rewrite Ey in *. set (leap := _isleap _) in *.
  assert (tm_mon r = tm_mon r') as Em.
  { destruct (Z.lt_trichotomy (tm_mon r) (tm_mon r')) as [L|[L|L]]; [|done|].
    - pose proof (cum_days_mono leap (tm_mon r + 1) (tm_mon r' + 1) ltac:(lia) ltac:(lia)). lia.
    - pose proof (cum_days_mono leap (tm_mon r' + 1) (tm_mon r + 1) ltac:(lia) ltac:(lia)). lia. }
  rewrite Em in *. unfold same_civil. split_and!; lia.
Qed.

(** C29: [gmtime_r] is total on 32-bit times and exact in the Gregorian calendar: the
    civil fields are in their ranges (the day within the month's length, leap
    years included), they name the instant, the weekday and the day of the year
    are those of the date, no other civil date of the common era names the same
    instant, and counting back with the routine of [mktime] gives the time. *)
Theorem gmtime_r_exact t old :
  time32 t ->
  exists r, gmtime_r (Some t) (Some old) = Some (Some r) /\
    civil_ok r /\ instant r = t /\
    tm_wday r = (t / 86400 + 4) mod 7 /\
    tm_yday r = day_of_year r /\
    (forall r', civil_ok r' -> 1 <= tm_year r' + 1900 -> instant r' = t -> same_civil r r') /\
    civil_seconds r = t.
Proof.
  intros Ht. destruct (fill_gmtime_spec t Ht) as (r & E & Hok & Hy & Es & Ew & Eyd & _).
  exists r. unfold gmtime_r. rewrite E. unfold time32 in Ht.
  split; [done|]. split; [done|]. split; [done|]. split; [done|]. split; [|split].
  - pose proof (day_of_year_range r Hok). unfold instant in Es. destruct Hok as (? & ? & ? & _). rewrite Eyd.
    assert (t / 86400 = jan1 (tm_year r + 1900) + day_of_year r) by (symmetry; apply Z.div_unique with (r := tm_hour r * 3600 + tm_min r * 60 + tm_sec r); lia).
    lia.
  - intros r' Hok' Hy' Es'. apply civil_unique; [done|done|lia|lia|congruence].
  - rewrite civil_seconds_wide by (done || (unfold year_ok; lia)). rewrite Es. apply s32_small. lia.
Qed.

Lemma gmtime_r_exact_witness :
  exists r, gmtime_r (Some (-1)) (Some (Tm 0 0 0 0 0 0 0 0 0)) = Some (Some r) /\
    civil_seconds r = -1.
Proof.
  destruct (gmtime_r_exact (-1) (Tm 0 0 0 0 0 0 0 0 0)) as (r & E & _ & _ & _ & _ & _ & Es); [vm_compute; intuition congruence|].
  by exists r.
Defined.

End Calendar.
