(* ===== verification/Tz.v ===== *)
(** * Tz: the timezone engine of src/tz.c

    The parsed zone ([tz], a static struct of the source) with the public
    variables [tzname], [timezone] and [daylight]; the POSIX [TZ] string
    parser, the TZif zone-file reader, [tzset] and the lookups.  A string is the
    list of its characters without the terminating NUL; [const char **pp] is
    the rest of the string; a character array keeps its declared length.  The
    environment variable [TZ] and the content of the zone file that
    [tz_read_whole] delivers are parameters.  [None] stands for an access
    outside an array. *)

From Stdlib Require Import ZArith Lia Bool.
From stdpp Require Import base list numbers.
From S2P Require Import Prelude Monad Memory Calendar.

Module Tz.
Import Calendar.

(** ** The state *)

Record zone := Zone { east : Z; isdst : Z; abbr : list Z }.

Inductive rule_kind := RULE_NONE | RULE_JULIAN | RULE_DAY | RULE_MONTH.

Record rule := Rule { kind : rule_kind; rn : Z; rm : Z; rw : Z; rd : Z; rtime : Z }.

(** The part of [tz] that a POSIX string fills in. *)
Record posix := Posix { st : zone; dt : zone; has_dst : bool; start_rule : rule; end_rule : rule }.

(** The part that a zone file fills in. *)
Record table := Table {
  ntypes : Z; ntrans : Z; first_std : Z; std_idx : Z; dst_idx : Z;
  types : list zone; trans : list Z; ttype : list Z
}.

Record tz_state := TzState {
  valid : bool; key : list Z; pz : posix; named : bool; footer : bool; tab : table;
  (* the public variables *)
  tzname0 : list Z; tzname1 : list Z; timezone : Z; daylight : Z
}.

#[export] Instance zone_eq_dec : EqDecision zone.
Proof. solve_decision. Defined.
#[export] Instance rule_kind_eq_dec : EqDecision rule_kind.
Proof. solve_decision. Defined.
#[export] Instance rule_eq_dec : EqDecision rule.
Proof. solve_decision. Defined.
#[export] Instance posix_eq_dec : EqDecision posix.
Proof. solve_decision. Defined.

Definition TZ_MAXTYPES : Z := 64.
Definition TZ_MAXTRANS : Z := 512.
Definition TZ_PATH_MAX : nat := 256.

Definition UTC : list Z := [85; 84; 67].

(** The string an array holds. *)
Fixpoint string_of (arr : list Z) : list Z :=
  match arr with
  | [] => []
  | c :: arr => if c =? 0 then [] else c :: string_of arr
  end.

(** [strcpy] of a string into an array that is long enough. *)
Definition strcpy (arr s : list Z) : list Z := s ++ 0 :: drop (S (length s)) arr.

(** [*p] and [p[i]]. *)
Definition cur (p : list Z) : Z := default 0 (head p).

Definition clamp (lo hi x : Z) : Z := if x <? lo then lo else if x >? hi then hi else x.

(** ** Rules *)

(** [while (days_from_civil(y + 1, 1, 1) <= days) y++;] and its mirror. *)
Fixpoint year_up_to (fuel : nat) (y days : Z) : option Z :=
  match fuel with
  | O => None
  | S fuel => if days_from_civil (y + 1) 1 1 <=? days then year_up_to fuel (y + 1) days else Some y
  end.

Fixpoint year_down_to (fuel : nat) (y days : Z) : option Z :=
  match fuel with
  | O => None
  | S fuel => if days_from_civil y 1 1 >? days then year_down_to fuel (y - 1) days else Some y
  end.

Definition year_of_days (days : Z) : option Z :=
  let y := 1970 + Z.quot days 365 in
  y ← year_up_to year_fuel y days;
  year_down_to year_fuel y days.

(** [for (i = 1; i < m; i++) first += days_in_month(y, i);] *)
Fixpoint sum_months (n : nat) (y i acc : Z) : option Z :=
  match n with
  | O => Some acc
  | S n => d ← days_in_month y i; sum_months n y (i + 1) (acc + d)
  end.

(** [for (mm = 1; mm < 12; mm++)] of a [Jn] rule: the month and day of day [dd] of year 1. *)
Fixpoint julian_month (n : nat) (mm dd : Z) : option (Z * Z) :=
  match n with
  | O => Some (mm, dd)
  | S n => dm ← days_in_month 1 mm;
           if dd <=? dm then Some (mm, dd) else julian_month n (mm + 1) (dd - dm)
  end.

(** [while (day >= lim) day -= 7;] *)
Fixpoint back_weeks (fuel : nat) (day lim : Z) : option Z :=
  match fuel with
  | O => None
  | S fuel => if day >=? lim then back_weeks fuel (day - 7) lim else Some day
  end.

Definition rule_doy (r : rule) (y : Z) : option Z :=
  match kind r with
  | RULE_JULIAN =>
      let n := clamp 1 365 (rn r) in
      '(mm, dd) ← julian_month 11 1 n;
      doy ← sum_months (Z.to_nat (mm - 1)) y 1 0;
      Some (doy + dd - 1)
  | RULE_DAY => Some (clamp 0 365 (rn r))
  | _ =>
      let m := clamp 1 12 (rm r) in
      let w := clamp 1 5 (rw r) in
      let d := clamp 0 6 (rd r) in
      first ← sum_months (Z.to_nat (m - 1)) y 1 0;
      let wd := weekday_of (days_from_civil y 1 1 + first) in
      let day := first + Z.rem (d - wd + 7) 7 + (w - 1) * 7 in
      len ← days_in_month y m;
      back_weeks 6 day (first + len)
  end.

Definition transition_utc (z : posix) (r : rule) (y : Z) (to_dst : bool) : option Z :=
  doy ← rule_doy r y;
  let base := s32 ((days_from_civil y 1 1 + doy) * 86400 + rtime r) in
  Some (s32 (base - (if to_dst then east (dt z) else east (st z)))).

Definition dst_active (z : posix) (t y : Z) : option bool :=
  s ← transition_utc z (start_rule z) y true;
  e ← transition_utc z (end_rule z) y false;
  Some (if s <=? e then (t >=? s) && (t <? e) else (t >=? s) || (t <? e)).

(** ** The POSIX string parser *)

Definition is_digit (c : Z) : bool := (c >=? 48) && (c <=? 57).
Definition is_alpha (c : Z) : bool := ((c >=? 65) && (c <=? 90)) || ((c >=? 97) && (c <=? 122)).

(** The loop over a bracketed name, up to the bracket or the capacity. *)
Fixpoint name_angle (p out : list Z) (n : nat) : list Z * list Z * nat :=
  match p with
  | c :: p' =>
      if negb (c =? 62) && (S n <? length out)%nat
      then name_angle p' (<[n := c]> out) (S n)
      else (p, out, n)
  | [] => (p, out, n)
  end.

(** The alphabetic run: what does not fit is skipped. *)
Fixpoint name_alpha (p out : list Z) (n : nat) : list Z * list Z * nat :=
  match p with
  | c :: p' =>
      if is_alpha c
      then if (S n <? length out)%nat
           then name_alpha p' (<[n := c]> out) (S n)
           else name_alpha p' out n
      else (p, out, n)
  | [] => (p, out, n)
  end.

(** The capacity is the length of [out]; on failure [*pp] is left alone. *)
Definition parse_name (p out : list Z) : bool * list Z * list Z :=
  if cur p =? 60 then
    let '(p1, out, n) := name_angle (tail p) out 0 in
    if negb (cur p1 =? 62) then (false, p, out)
    else if (n =? 0)%nat then (false, p, out)
    else (true, tail p1, <[n := 0]> out)
  else
    let '(p1, out, n) := name_alpha p out 0 in
    if (n =? 0)%nat then (false, p, out)
    else (true, p1, <[n := 0]> out).

(** The digit loops: [v = v * 10 + digit] while the character is a digit. *)
Fixpoint read_digits (p : list Z) (v : Z) : Z * list Z :=
  match p with
  | c :: p' => if is_digit c then read_digits p' (s32 (v * 10 + (c - 48))) else (v, p)
  | [] => (v, p)
  end.

(** The value, [*present], and the rest of the string. *)
Definition parse_offset (p0 : list Z) : Z * bool * list Z :=
  let '(neg, p) := if (cur p0 =? 43) || (cur p0 =? 45) then (cur p0 =? 45, tail p0) else (false, p0) in
  if (cur p <? 48) || (cur p >? 57) then (0, false, if neg then p0 else p)
  else
    let '(secs, p) := read_digits p 0 in
    let secs := s32 (secs * 3600) in
    let '(secs, p) :=
      if cur p =? 58 then
        let '(mm, p) := read_digits (tail p) 0 in
        let secs := s32 (secs + s32 (mm * 60)) in
        if cur p =? 58 then
          let '(ss, p) := read_digits (tail p) 0 in
          (s32 (secs + ss), p)
        else (secs, p)
      else (secs, p) in
    (if neg then s32 (- secs) else secs, true, p).

Definition parse_rule (p : list Z) (default_time : Z) : rule * list Z :=
  let '(k, n, m, w, d, p) :=
    if cur p =? 74 then
      let '(n, p) := read_digits (tail p) 0 in (RULE_JULIAN, n, 0, 0, 0, p)
    else if cur p =? 77 then
      let '(m, p) := read_digits (tail p) 0 in
      let '(w, p) := if cur p =? 46 then read_digits (tail p) 0 else (0, p) in
      let '(d, p) := if cur p =? 46 then read_digits (tail p) 0 else (0, p) in
      (RULE_MONTH, 0, m, w, d, p)
    else
      let '(n, p) := read_digits p 0 in (RULE_DAY, n, 0, 0, 0, p) in
  if cur p =? 47 then
    let '(time, present, p) := parse_offset (tail p) in
    (Rule k n m w d (if present then time else default_time), p)
  else (Rule k n m w d default_time, p).

Definition no_rule (r : rule) : rule := Rule RULE_NONE (rn r) (rm r) (rw r) (rd r) (rtime r).

Definition set_utc_default (z : posix) : posix :=
  Posix (Zone 0 0 (strcpy (abbr (st z)) UTC)) (Zone 0 1 (strcpy (abbr (dt z)) UTC)) false
        (no_rule (start_rule z)) (no_rule (end_rule z)).

(** [tz.start] and [tz.end] of [default_us_rules]. *)
Definition default_us_rules : rule * rule :=
  (Rule RULE_MONTH 0 3 2 0 (2 * 3600), Rule RULE_MONTH 0 11 1 0 (2 * 3600)).

Definition parse_posix (spec : list Z) (z : posix) : posix :=
  let '(ok, p, ab) := parse_name spec (abbr (st z)) in
  let z := Posix (Zone 0 0 ab) (dt z) false (start_rule z) (end_rule z) in
  if negb ok then set_utc_default z
  else
    let '(o, _, p) := parse_offset p in
    let std := Zone (s32 (- o)) 0 ab in
    let '(ok, p, ab') := parse_name p (abbr (dt z)) in
    if ok then
      let '(o, present, p) := parse_offset p in
      let dst := Zone (if present then s32 (- o) else s32 (east std + 3600)) 1 ab' in
      let '(s, e) :=
        if cur p =? 44 then
          let '(s, p) := parse_rule (tail p) (2 * 3600) in
          let p := if cur p =? 44 then tail p else p in
          let '(e, _) := parse_rule p (2 * 3600) in (s, e)
        else default_us_rules in
      Posix std dst true s e
    else Posix std (Zone 0 (isdst (dt z)) ab') false (start_rule z) (end_rule z).

(** ** The zone-file reader *)

Section ZoneFile.
Context (buf : list Z).

(** A byte of the file buffer. *)
Definition byte_at (i : Z) : option Z := if i <? 0 then None else buf !! Z.to_nat i.

Definition rd_be32 (p : Z) : option Z :=
  b0 ← byte_at p; b1 ← byte_at (p + 1); b2 ← byte_at (p + 2); b3 ← byte_at (p + 3);
  Some (Z.lor (Z.lor (Z.lor (Z.shiftl b0 24) (Z.shiftl b1 16)) (Z.shiftl b2 8)) b3).

(** [(long)rd_be32(p)] *)
Definition rd_long (p : Z) : option Z := v ← rd_be32 p; Some (s32 v).

(** The 64-bit big-endian read of a transition time, as a [long long]. *)
Fixpoint rd_be64_loop (k : nat) (p v : Z) : option Z :=
  match k with
  | O => Some v
  | S k => b ← byte_at p; rd_be64_loop k (p + 1) (u64 (Z.lor (Z.shiftl v 8) b))
  end.

Definition trans_time (ent p : Z) : option Z :=
  if ent =? 8 then v ← rd_be64_loop 8 p 0; Some (s64 v)
  else v ← rd_be32 p; Some (s32 v).

(** [memcmp(buf + off, "TZif", 4) == 0] *)
Definition is_tzif (off : Z) : option bool :=
  b0 ← byte_at off; b1 ← byte_at (off + 1); b2 ← byte_at (off + 2); b3 ← byte_at (off + 3);
  Some ((b0 =? 84) && (b1 =? 90) && (b2 =? 105) && (b3 =? 102)).

(** The six counts of a header whose count block is at [off]. *)
Record header := Header {
  cnt_ut : Z; cnt_std : Z; cnt_leap : Z; cnt_time : Z; cnt_type : Z; cnt_char : Z
}.

Definition rd_header (off : Z) : option header :=
  ut ← rd_long off; sd ← rd_long (off + 4); leap ← rd_long (off + 8);
  ti ← rd_long (off + 12); ty ← rd_long (off + 16); ch ← rd_long (off + 20);
  Some (Header ut sd leap ti ty ch).

(** The header in force, the entry size and the offset of the data block:
    [Some None] when the file is refused. *)
Definition rd_layout : option (option (header * Z * Z)) :=
  let n := Z.of_nat (length buf) in
  if n <? 44 then Some None
  else
    magic ← is_tzif 0;
    if negb (magic : bool) then Some None
    else
      version ← byte_at 4;
      h ← rd_header 20;
      if version >=? 50 then
        let skip := s32 (cnt_time h * 5 + cnt_type h * 6 + cnt_char h + cnt_leap h * 8
                         + cnt_std h + cnt_ut h) in
        let off := s32 (44 + skip) in
        if s32 (off + 44) >? n then Some None
        else
          magic ← is_tzif off;
          if negb (magic : bool) then Some None
          else h ← rd_header (off + 20); Some (Some (h, 8, s32 (off + 44)))
      else Some (Some (h, 4, 44)).

(** [for (j = 0; j < cnt_time && tz.ntrans < TZ_MAXTRANS; j++)]; an in-bounds
    iteration reads a new byte of the file, so its length is enough fuel. *)
Fixpoint rd_trans (fuel : nat) (h : header) (ent off j : Z) (nt : Z) (tr ty : list Z)
  : option (Z * list Z * list Z) :=
  match fuel with
  | O => None
  | S fuel =>
      if (j <? cnt_time h) && (nt <? TZ_MAXTRANS) then
        sv ← trans_time ent (off + j * ent);
        if (sv >? 0x7fffffff) || (sv <? -0x7fffffff - 1)
        then rd_trans fuel h ent off (j + 1) nt tr ty
        else
          i ← byte_at (off + s32 (cnt_time h * ent) + j);
          rd_trans fuel h ent off (j + 1) (nt + 1)
                   (<[Z.to_nat nt := sv]> tr) (<[Z.to_nat nt := i]> ty)
      else Some (nt, tr, ty)
  end.

(** The abbreviation loop of a type: at most eleven characters, then a NUL. *)
Fixpoint rd_abbr (k : nat) (cp abbrind cnt : Z) (a : nat) (ab : list Z) : option (list Z) :=
  match k with
  | O => Some (<[a := 0]> ab)
  | S k =>
      if abbrind + Z.of_nat a <? cnt then
        c ← byte_at (cp + abbrind + Z.of_nat a);
        if c =? 0 then Some (<[a := 0]> ab)
        else rd_abbr k cp abbrind cnt (S a) (<[a := s8 c]> ab)
      else Some (<[a := 0]> ab)
  end.

(** [for (k = 0; k < tz.ntypes; k++)], [n] types left from type [k] on. *)
Fixpoint rd_types (n : nat) (k : nat) (ti cp cnt : Z) (tys : list zone) : option (list zone) :=
  match n with
  | O => Some tys
  | S n =>
      let p := ti + Z.of_nat k * 6 in
      abbrind ← byte_at (p + 5);
      e ← rd_be32 p;
      d ← byte_at (p + 4);
      old ← tys !! k;
      ab ← rd_abbr 11 cp abbrind cnt 0 (abbr old);
      rd_types n (S k) ti cp cnt (<[k := Zone (s32 e) (if d =? 0 then 0 else 1) ab]> tys)
  end.

(** The first standard type, or 0. *)
Definition find_std (nty : Z) (tys : list zone) : Z :=
  match list_find (fun z => isdst z = 0) (take (Z.to_nat nty) tys) with
  | Some (i, _) => Z.of_nat i
  | None => 0
  end.

(** The footer's POSIX string: up to a newline, the end of the file or 127
    characters. *)
Fixpoint rd_footer (k : nat) (q : Z) : option (list Z) :=
  match k with
  | O => Some []
  | S k =>
      if q <? Z.of_nat (length buf) then
        c ← byte_at q;
        if c =? 10 then Some [] else rest ← rd_footer k (q + 1); Some (s8 c :: rest)
      else Some []
  end.

Definition footer_spec (h : header) (ent off : Z) : option (list Z) :=
  let n := Z.of_nat (length buf) in
  let d_end := s32 (off + cnt_time h * (ent + 1) + cnt_type h * 6 + cnt_char h
                    + cnt_leap h * (ent + 4) + cnt_std h + cnt_ut h) in
  if s32 (d_end + 1) <? n then
    c ← byte_at d_end;
    if c =? 10 then rd_footer 127 (d_end + 1) else Some []
  else Some [].

End ZoneFile.

(** [tz_recent_type]: from the last transition back; [i] entries left. *)
Fixpoint tz_recent_type (i : nat) (tb : table) (want_dst : Z) : option Z :=
  match i with
  | O => Some (-1)
  | S i =>
      idx ← ttype tb !! i;
      if (0 <=? idx) && (idx <? ntypes tb) then
        z ← types tb !! Z.to_nat idx;
        if isdst z =? want_dst then Some idx else tz_recent_type i tb want_dst
      else tz_recent_type i tb want_dst
  end.

(** The path of a zone file, cut to [TZ_PATH_MAX - 1] characters; the prefix is
    "/usr/share/zoneinfo/". *)
Definition zone_prefix : list Z :=
  [47; 117; 115; 114; 47; 115; 104; 97; 114; 101; 47; 122; 111; 110; 101; 105; 110; 102; 111; 47].

Definition zone_path (spec : list Z) : list Z :=
  let name := if cur spec =? 58 then tail spec else spec in
  if cur name =? 47 then take (TZ_PATH_MAX - 1) name
  else take (TZ_PATH_MAX - 1) (zone_prefix ++ name).

(** The environment of the engine: what [tz_read_whole] delivers for a path
    (at most [TZ_FILE_MAX] bytes) and the value of [TZ]. *)
Class TzEnv := { zone_file : list Z -> option (list Z); env_TZ : option (list Z) }.

Section Engine.
Context `{TzEnv}.

Definition tz_read_zone (spec : list Z) (s : tz_state) : option (bool * tz_state) :=
  match zone_file (zone_path spec) with
  | None => Some (false, s)
  | Some buf =>
      lay ← rd_layout buf;
      match lay with
      | None => Some (false, s)
      | Some (h, ent, off) =>
          if (cnt_type h <=? 0) || (cnt_type h >? TZ_MAXTYPES) || (cnt_time h <? 0) then Some (false, s)
          else if s32 (off + cnt_time h * (ent + 1) + cnt_type h * 6 + cnt_char h) >? Z.of_nat (length buf)
          then Some (false, s)
          else
            '(nt, tr, ty) ← rd_trans buf (S (length buf)) h ent off 0 0 (trans (tab s)) (ttype (tab s));
            let ti := off + s32 (cnt_time h * (ent + 1)) in
            tys ← rd_types buf (Z.to_nat (cnt_type h)) 0 ti (ti + cnt_type h * 6) (cnt_char h) (types (tab s));
            let fs := find_std (cnt_type h) tys in
            version ← byte_at buf 4;
            spec' ← (if version >=? 50 then footer_spec buf h ent off else Some []);
            let z := match spec' with [] => pz s | _ => parse_posix (string_of spec') (pz s) end in
            let vd := match spec' with [] => valid s | _ => true end in
            let ft := match spec' with [] => footer s | _ => true end in
            let tb := Table (cnt_type h) nt fs (std_idx (tab s)) (dst_idx (tab s)) tys tr ty in
            sidx ← tz_recent_type (Z.to_nat nt) tb 0;
            didx ← tz_recent_type (Z.to_nat nt) tb 1;
            let sidx := if sidx <? 0 then fs else sidx in
            Some (true, TzState vd (key s) z true ft
                                (Table (cnt_type h) nt fs sidx didx tys tr ty)
                                (tzname0 s) (tzname1 s) (timezone s) (daylight s))
      end
  end.

Definition refresh_public_names (s : tz_state) : option tz_state :=
  let z := pz s in
  let pub (n0 n1 : list Z) (tzv dl : Z) :=
    TzState (valid s) (key s) (pz s) (named s) (footer s) (tab s)
            (string_of n0) (string_of n1) (s32 tzv) dl in
  if named s then
    let dl := if footer s then b2z (has_dst z) else b2z (dst_idx (tab s) >=? 0) in
    if footer s then
      Some (pub (abbr (st z)) (if has_dst z then abbr (dt z) else abbr (st z)) (- east (st z)) dl)
    else
      sz ← types (tab s) !! Z.to_nat (std_idx (tab s));
      d ← (if dst_idx (tab s) >=? 0 then types (tab s) !! Z.to_nat (dst_idx (tab s)) else Some sz);
      Some (pub (abbr sz) (abbr d) (- east sz) dl)
  else
    Some (pub (abbr (st z)) (if has_dst z then abbr (dt z) else abbr (st z)) (- east (st z))
              (b2z (has_dst z))).

(** [parse_posix] on the whole state. *)
Definition load_posix (spec : list Z) (s : tz_state) : tz_state :=
  TzState true (key s) (parse_posix spec (pz s)) (named s) (footer s) (tab s)
          (tzname0 s) (tzname1 s) (timezone s) (daylight s).

Definition is_file_name (spec : list Z) : bool :=
  (cur spec =? 58) || (bool_decide (47 ∈ spec) && negb (bool_decide (44 ∈ spec))).

Definition UTC0 : list Z := UTC ++ [48].

Definition tzset (s : tz_state) : option tz_state :=
  let spec := match env_TZ with None => UTC | Some [] => UTC | Some e => e end in
  if valid s && bool_decide (key s = spec) then Some s
  else
    let s := TzState (valid s) (take 127 spec) (pz s) false false (tab s)
                     (tzname0 s) (tzname1 s) (timezone s) (daylight s) in
    s ← (if is_file_name spec then
           '(ok, s) ← tz_read_zone spec s;
           Some (if (ok : bool) then s else load_posix UTC0 s)
         else Some (load_posix spec s));
    refresh_public_names s.

(** ** Lookups *)

(** [while (lo < hi)] of the binary search. *)
Fixpoint type_search (fuel : nat) (tr : list Z) (t lo hi : Z) : option Z :=
  match fuel with
  | O => None
  | S fuel =>
      if lo <? hi then
        let mid := lo + Z.quot (hi - lo + 1) 2 in
        v ← tr !! Z.to_nat mid;
        if v <=? t then type_search fuel tr t mid hi else type_search fuel tr t lo (mid - 1)
      else Some lo
  end.

Definition tz_type_at (tb : table) (t : Z) : option Z :=
  if ntrans tb <=? 0 then Some (first_std tb)
  else
    t0 ← trans tb !! 0%nat;
    if t <? t0 then Some (first_std tb)
    else
      lo ← type_search (Z.to_nat (ntrans tb)) (trans tb) t 0 (ntrans tb - 1);
      ttype tb !! Z.to_nat lo.

(** The offset, the DST flag and the abbreviation in effect at [t]. *)
Definition lookup_posix (z : posix) (t : Z) : option (Z * Z * list Z) :=
  if negb (has_dst z) then Some (east (st z), 0, abbr (st z))
  else
    let days := s32 (t + east (st z)) in
    let day := Z.quot days 86400 - (if (days <? 0) && negb (Z.rem days 86400 =? 0) then 1 else 0) in
    y ← year_of_days day;
    active ← dst_active z t y;
    Some (if (active : bool) then (east (dt z), 1, abbr (dt z)) else (east (st z), 0, abbr (st z))).

Definition lookup (s : tz_state) (t : Z) : option (Z * Z * list Z) :=
  let tb := tab s in
  past ← (if named s && (ntrans tb >? 0) then
            last ← trans tb !! Z.to_nat (ntrans tb - 1);
            Some ((t <=? last) || negb (footer s))
          else Some false);
  if (past : bool) then
    idx ← tz_type_at tb t;
    let idx := if (idx <? 0) || (idx >=? ntypes tb) then 0 else idx in
    z ← types tb !! Z.to_nat idx;
    Some (east z, isdst z, abbr z)
  else lookup_posix (pz s) t.

Definition cact_tz_offset_utc (t : Z) (s : tz_state) : option (Z * Z * tz_state) :=
  s ← tzset s;
  '(e, d, _) ← lookup s t;
  Some (e, d, s).

Definition cact_tz_offset_for_tm (r : tm) (s : tz_state) : option (Z * Z * tz_state) :=
  s ← tzset s;
  let z := pz s in
  if has_dst z && (tm_isdst r >? 0) then Some (east (dt z), 1, s)
  else if has_dst z && (tm_isdst r =? 0) then Some (east (st z), 0, s)
  else
    let d := if tm_isdst r >? 0 then 1 else 0 in
    Some (if d =? 0 then east (st z) else east (dt z), d, s).

(** [for (i = 0; i < 3; i++)]: settle on an offset that is its own. *)
Fixpoint settle (n : nat) (s : tz_state) (u t : Z) : option Z :=
  match n with
  | O => Some t
  | S n =>
      '(e, _, _) ← lookup s t;
      let next := s32 (u - e) in
      if next =? t then Some t else settle n s u next
  end.

Definition cact_tz_utc_from_tm (r : tm) (s : tz_state) : option (Z * tz_state) :=
  let u := civil_seconds r in
  s ← tzset s;
  let z := pz s in
  if negb (has_dst z) then Some (s32 (u - east (st z)), s)
  else if tm_isdst r >? 0 then Some (s32 (u - east (dt z)), s)
  else if tm_isdst r =? 0 then Some (s32 (u - east (st z)), s)
  else
    t ← settle 3 s u (s32 (u - east (st z)));
    Some (t, s).

End Engine.

(** ** Years *)

Lemma jan1_civil y : year_ok y -> days_from_civil y 1 1 = jan1 y.
Proof. intros. rewrite days_from_civil_spec by (done || lia). rewrite cum_days_1. lia. Qed.

Lemma jan1_span y k :
  1 <= y -> jan1 y + 365 * Z.of_nat k <= jan1 (y + Z.of_nat k) <= jan1 y + 366 * Z.of_nat k.
Proof.
  intros Hy. induction k as [|k IH]; [replace (y + Z.of_nat 0) with y by lia; lia|].
  replace (y + Z.of_nat (S k)) with (y + Z.of_nat k + 1) by lia. rewrite jan1_succ by lia.
  pose proof (year_len_pos (y + Z.of_nat k)). lia.
Qed.

Lemma jan1_dist y1 y2 : 1 <= y1 <= y2 -> 365 * (y2 - y1) <= jan1 y2 - jan1 y1 <= 366 * (y2 - y1).
Proof.
  intros H. pose proof (jan1_span y1 (Z.to_nat (y2 - y1))) as S.
  replace (y1 + Z.of_nat (Z.to_nat (y2 - y1))) with y2 in S by lia. lia.
Qed.

Lemma year_down_to_spec days fuel : forall y,
  Z.of_nat fuel <= y <= 1000000 -> jan1 (y + 1 - Z.of_nat fuel) <= days < jan1 (y + 1) ->
  exists y', year_down_to fuel y days = Some y' /\ y - Z.of_nat fuel < y' <= y /\
    jan1 y' <= days < jan1 (y' + 1).
Proof.
  induction fuel as [|fuel IH]; intros y Hy Hd.
  { replace (y + 1 - Z.of_nat 0) with (y + 1) in Hd by lia. lia. }
  cbn [year_down_to]. rewrite jan1_civil by (unfold year_ok; lia). rewrite Z.gtb_ltb.
  destruct (Z.ltb_spec days (jan1 y)).
  - destruct (decide (fuel = 0%nat)) as [->|].
    { replace (y + 1 - Z.of_nat 1) with y in Hd by lia. lia. }
    destruct (IH (y - 1)) as (y' & -> & ? & ?); [lia| |].
    { replace (y - 1 + 1 - Z.of_nat fuel) with (y + 1 - Z.of_nat (S fuel)) by lia.
      replace (y - 1 + 1) with y by lia. lia. }
    exists y'. split; [done|lia].
  - exists y. split; [done|lia].
Qed.

Lemma year_of_days_spec days :
  -30000 <= days <= 30000 ->
  exists y, year_of_days days = Some y /\ 1780 <= y <= 2060 /\ jan1 y <= days < jan1 (y + 1).
Proof.
  intros Hd. unfold year_of_days. cbv zeta. set (y := 1970 + days ÷ 365).
  assert (Hy : 1887 <= y <= 2053) by (subst y; clear - Hd; Z.to_euclidean_division_equations; lia).
  assert (E0 : jan1 1970 = 0) by done.
  assert (Hup : days < jan1 (y + 1) /\ jan1 y <= days + 366).
  { assert (Hq : (0 <= days /\ 365 * (y - 1970) <= days < 365 * (y - 1969)) \/
      (days < 0 /\ 365 * (1970 - y) <= - days < 365 * (1971 - y)))
      by (subst y; clear; Z.to_euclidean_division_equations; lia).
    destruct (Z_lt_ge_dec y 1970).
    - pose proof (jan1_dist y 1970 ltac:(lia)). pose proof (jan1_dist (y + 1) 1970 ltac:(lia)). lia.
    - pose proof (jan1_dist 1970 y ltac:(lia)). pose proof (jan1_dist 1970 (y + 1) ltac:(lia)). lia. }
  assert (Ef : Z.of_nat year_fuel = 100) by done. clearbody y.
  replace (year_up_to year_fuel y days) with (Some y).
  2:{ unfold year_fuel. cbn [year_up_to]. rewrite jan1_civil by (unfold year_ok; lia).
      by destruct (Z.leb_spec (jan1 (y + 1)) days); [lia|]. }
  cbn [mbind option_bind].
  pose proof (jan1_dist (y + 1 - 100) y ltac:(lia)).
  destruct (year_down_to_spec days year_fuel y) as (y' & -> & ? & ?); [lia|rewrite Ef; lia|].
  exists y'. split; [done|lia].
Qed.

(** ** The day a rule names *)

Lemma sum_months_spec n : forall y i acc,
  1 <= i -> i + Z.of_nat n <= 13 ->
  sum_months n y i acc = Some (acc + cum_days (_isleap y) (i + Z.of_nat n) - cum_days (_isleap y) i).
Proof.
  induction n as [|n IH]; intros y i acc Hi Hn.
  - cbn [sum_months]. f_equal. replace (i + Z.of_nat 0) with i by lia. lia.
  - cbn [sum_months]. rewrite days_in_month_spec by lia. cbn [mbind option_bind].
    rewrite IH by lia. f_equal. unfold month_len.
    replace (i + 1 + Z.of_nat n) with (i + Z.of_nat (S n)) by lia. lia.
Qed.

Lemma months_before y m : 1 <= m <= 12 -> sum_months (Z.to_nat (m - 1)) y 1 0 = Some (cum_days (_isleap y) m).
Proof.
  intros. rewrite sum_months_spec by lia. rewrite cum_days_1.
  replace (1 + Z.of_nat (Z.to_nat (m - 1))) with m by lia. f_equal. lia.
Qed.

Lemma clamp_range lo hi x : lo <= hi -> lo <= clamp lo hi x <= hi.
Proof. intros. unfold clamp. rewrite Z.gtb_ltb. zcases; lia. Qed.

Lemma clamp_id lo hi x : lo <= x <= hi -> clamp lo hi x = x.
Proof. intros. unfold clamp. rewrite Z.gtb_ltb. zcases; lia. Qed.

(** an [Mm.w.d] rule names, in every year the arithmetic covers, a day of
    month [m] whose weekday is [d] and which is the [w]-th such day of the
    month; week 5 is the last one. *)
Theorem rule_doy_month r y :
  kind r = RULE_MONTH -> 1 <= rm r <= 12 -> 1 <= rw r <= 5 -> 0 <= rd r <= 6 -> 1 <= y <= 1000000 ->
  exists day, rule_doy r y = Some day /\
    let first := _days_from_civil y (rm r) 1 - _days_from_civil y 1 1 in
    first <= day < first + month_len y (rm r) /\
    weekday_of (days_from_civil y 1 1 + day) = rd r /\
    (rw r <= 4 -> (day - first) / 7 = rw r - 1) /\
    (rw r = 5 -> first + month_len y (rm r) <= day + 7).
Proof.
  intros Hk Hm Hw Hd Hy. unfold rule_doy. rewrite Hk.
  rewrite !clamp_id by lia. cbv zeta. rewrite months_before by lia. cbn [mbind option_bind].
  rewrite days_in_month_spec by lia. cbn [mbind option_bind].
  change _days_from_civil with days_from_civil.
  rewrite (days_from_civil_spec y (rm r)) by (unfold year_ok; lia).
  rewrite jan1_civil by (unfold year_ok; lia).
  set (first := cum_days (_isleap y) (rm r)). pose proof (month_len_range y (rm r) ltac:(lia)) as Hlen.
  set (len := month_len y (rm r)) in *.
  assert (Hj : -800000 <= jan1 y <= 400000000).
  { pose proof (jan1_dist 1 y ltac:(lia)). change (jan1 1) with (-719162) in *. lia. }
  assert (Hf : 0 <= first <= 366).
  { subst first. unfold cum_days. clear - Hm. destruct (_isleap y); zcases; Z.to_euclidean_division_equations; lia. }
  assert (Ewd : forall k, -1000 <= k <= 1000 -> weekday_of (jan1 y + k) = (jan1 y + k + 4) mod 7).
  { intros. unfold weekday_of. rewrite s32_small by lia. by rewrite weekday_mod. }
  rewrite (Ewd first) by lia. set (wd := (jan1 y + first + 4) mod 7).
  assert (Hwd : 0 <= wd < 7) by (apply Z.mod_pos_bound; lia).
  rewrite Z.rem_mod_nonneg by lia. set (k := (rd r - wd + 7) mod 7).
  assert (Hkk : 0 <= k < 7) by (apply Z.mod_pos_bound; lia).
  assert (Hday : exists q, (jan1 y + first + k + 4) = rd r + 7 * q).
  { exists ((jan1 y + first + 4) / 7 + (rd r - wd + 7) / 7 * -1 + 1).
    pose proof (Z.div_mod (jan1 y + first + 4) 7 ltac:(lia)). pose proof (Z.div_mod (rd r - wd + 7) 7 ltac:(lia)).
    fold wd in H. fold k in H0. lia. }
  destruct Hday as [q Hq].
  assert (Hback : exists j, 0 <= j <= 1 /\ (j = 1 -> rw r = 5) /\
    back_weeks 6 (first + k + (rw r - 1) * 7) (first + len) = Some (first + k + (rw r - 1 - j) * 7) /\
    first + k + (rw r - 1 - j) * 7 < first + len /\
    (rw r = 5 -> first + len <= first + k + (rw r - 1 - j) * 7 + 7)).
  { cbn [back_weeks]. rewrite !Z.geb_leb.
    destruct (Z.leb_spec (first + len) (first + k + (rw r - 1) * 7)).
    - exists 1. destruct (Z.leb_spec (first + len) (first + k + (rw r - 1) * 7 - 7)); [lia|].
      split_and!; [lia|lia|lia|f_equal; lia|lia|lia].
    - exists 0. split_and!; [lia|lia|lia|f_equal; lia|lia|lia]. }
  destruct Hback as (j & Hj01 & Hj5 & -> & Hlt & Hlast).
  eexists. split; [done|]. rewrite Z.add_simpl_r.
  replace (jan1 y + first - jan1 y) with first by lia.
  split; [lia|]. split; [|split; [|exact Hlast]].
  - rewrite Ewd by lia. replace (jan1 y + _ + 4) with (rd r + (q + (rw r - 1 - j)) * 7) by lia.
    rewrite Z.mod_add by lia. apply Z.mod_small. lia.
  - intros Hw4. assert (j = 0) by lia. subst j.
    replace (first + k + (rw r - 1 - 0) * 7 - first) with (k + (rw r - 1) * 7) by lia.
    rewrite Z.div_add by lia. rewrite (Z.div_small k) by lia. lia.
Qed.

Lemma rule_doy_month_witness :
  exists day, rule_doy (Rule RULE_MONTH 0 3 2 0 7200) 2024 = Some day /\
    weekday_of (days_from_civil 2024 1 1 + day) = 0.
Proof.
  destruct (rule_doy_month (Rule RULE_MONTH 0 3 2 0 7200) 2024) as (day & E & _ & W & _); [done|cbn; lia..|].
  exact (ex_intro _ day (conj E W)).
Defined.

(** ** The transition table *)

(** The first [n] entries of the table are in order. *)
Definition sorted_upto (tr : list Z) (n : Z) : Prop :=
  forall i j a b, (i < j)%nat -> Z.of_nat j < n -> tr !! i = Some a -> tr !! j = Some b -> a <= b.

Lemma type_search_spec tr t n fuel : forall lo hi,
  n <= Z.of_nat (length tr) -> sorted_upto tr n ->
  0 <= lo <= hi -> hi < n -> hi - lo < Z.of_nat fuel ->
  (forall a, tr !! Z.to_nat lo = Some a -> a <= t) ->
  (forall j a, hi < Z.of_nat j < n -> tr !! j = Some a -> t < a) ->
  exists i, type_search fuel tr t lo hi = Some i /\ 0 <= i < n /\
    (forall a, tr !! Z.to_nat i = Some a -> a <= t) /\
    (forall j a, i < Z.of_nat j < n -> tr !! j = Some a -> t < a).
Proof.
  induction fuel as [|fuel IH]; intros lo hi Hlen Hs Hlo Hhi Hf Hl Hr; [lia|].
  cbn [type_search]. destruct (Z.ltb_spec lo hi).
  - rewrite Z.quot_div_nonneg by lia. cbv zeta. set (mid := lo + (hi - lo + 1) / 2).
    assert (Hmid : lo < mid <= hi) by (subst mid; clear - H; Z.to_euclidean_division_equations; lia).
    clearbody mid. destruct (lookup_lt_is_Some_2 tr (Z.to_nat mid)) as [v Ev]; [lia|].
    rewrite Ev. cbn [mbind option_bind]. destruct (Z.leb_spec v t).
    + apply IH; try done; try lia. intros a Ha. congruence.
    + apply IH; try done; try lia. intros j a Hj Ha.
      destruct (decide (j = Z.to_nat mid)) as [->|]; [replace a with v by congruence; done|].
      pose proof (Hs (Z.to_nat mid) j v a ltac:(lia) ltac:(lia) Ev Ha). lia.
  - replace hi with lo in * by lia. exists lo. split; [done|]. split; [lia|]. done.
Qed.

(** on a table in order the binary search answers with the type of the
    last transition at or before [t], and with the first standard type when
    [t] is before all of them. *)
Theorem tz_type_at_correct tb t :
  0 <= ntrans tb <= Z.of_nat (length (trans tb)) -> length (ttype tb) = length (trans tb) ->
  sorted_upto (trans tb) (ntrans tb) ->
  ((forall j a, Z.of_nat j < ntrans tb -> trans tb !! j = Some a -> t < a) /\
     tz_type_at tb t = Some (first_std tb)) \/
  (exists i ty, Z.of_nat i < ntrans tb /\ tz_type_at tb t = Some ty /\ ttype tb !! i = Some ty /\
     (forall a, trans tb !! i = Some a -> a <= t) /\
     (forall j a, (i < j)%nat -> Z.of_nat j < ntrans tb -> trans tb !! j = Some a -> t < a)).
Proof.
  intros Hn Hl Hs. unfold tz_type_at. destruct (Z.leb_spec (ntrans tb) 0).
  { left. split; [lia|done]. }
  destruct (lookup_lt_is_Some_2 (trans tb) 0) as [t0 E0]; [lia|]. rewrite E0. cbn [mbind option_bind].
  destruct (Z.ltb_spec t t0).
  - left. split; [|done]. intros [|j] a Hj Ha; [congruence|].
    pose proof (Hs 0%nat (S j) t0 a ltac:(lia) Hj E0 Ha). lia.
  - right. destruct (type_search_spec (trans tb) t (ntrans tb) (Z.to_nat (ntrans tb)) 0 (ntrans tb - 1))
      as (i & -> & Hi & Hle & Hgt); [lia|done|lia|lia|lia| |lia|].
    { intros a Ha. change (Z.to_nat 0) with 0%nat in Ha. replace a with t0 by congruence. lia. }
    cbn [mbind option_bind]. destruct (lookup_lt_is_Some_2 (ttype tb) (Z.to_nat i)) as [ty Ey]; [lia|].
    exists (Z.to_nat i), ty. split; [lia|]. split; [done|]. split; [done|]. split; [done|].
    intros j a Hij Hj. apply Hgt. lia.
Qed.

(** Three transitions; the last one at or before 25 is the second. *)
Definition sample_table : table := Table 2 3 0 0 1 [] [10; 20; 30] [1; 0; 1].

Lemma tz_type_at_correct_witness : tz_type_at sample_table 25 = Some 0.
Proof.
  destruct (tz_type_at_correct sample_table 25) as [[H _]|(i & ty & Hi & E & Et & Hle & Hgt)];
    [cbn; lia|done| | |].
  - intros i j a b Hij Hj Ha Hb. cbn in Hj. destruct j as [|[|[|j]]]; [lia| | |lia];
    destruct i as [|[|i]]; cbn in *; simplify_eq; lia.
  - specialize (H 0%nat 10 ltac:(cbn; lia) eq_refl). lia.
  - rewrite E. clear E. destruct i as [|[|[|i]]]; cbn in Et, Hi; simplify_eq; [|done|].
    + specialize (Hgt 1%nat 20 ltac:(lia) ltac:(cbn; lia) eq_refl). lia.
    + specialize (Hle 30 eq_refl). lia.
Defined.

(** ** Reading back a printed zone *)

(** [n] in [k] decimal digits. *)
Fixpoint show_fixed (k : nat) (n : Z) : list Z :=
  match k with O => [] | S k => show_fixed k (n / 10) ++ [48 + n mod 10] end.

Lemma read_digits_show k : forall n v rest,
  0 <= n < 10 ^ Z.of_nat k -> 0 <= v -> v * 10 ^ Z.of_nat k + n < 2 ^ 31 ->
  read_digits (show_fixed k n ++ rest) v = read_digits rest (v * 10 ^ Z.of_nat k + n).
Proof.
  induction k as [|k IH]; intros n v rest Hn Hv Hb.
  - cbn [show_fixed app]. change (10 ^ Z.of_nat 0) with 1 in *. f_equal. lia.
  - replace (10 ^ Z.of_nat (S k)) with (10 * 10 ^ Z.of_nat k) in *
      by (rewrite <- Z.pow_succ_r by lia; f_equal; lia).
    pose proof (Z.div_mod n 10 ltac:(lia)) as E. pose proof (Z.mod_pos_bound n 10 ltac:(lia)).
    set (p := 10 ^ Z.of_nat k) in *. set (q := n / 10) in *. set (r := n mod 10) in *.
    cbn [show_fixed]. fold q r. rewrite <- (assoc_L (++)). rewrite IH by nia.
    cbn [app read_digits]. unfold is_digit. rewrite Z.geb_leb.
    replace ((48 <=? 48 + r) && (48 + r <=? 57)) with true by (symmetry; apply andb_true_iff; lia).
    fold p. rewrite s32_small by nia. f_equal. lia.
Qed.

(** The next character is not a digit. *)
Definition ends_digits (rest : list Z) : Prop := is_digit (cur rest) = false.

Lemma read_digits_end rest v : ends_digits rest -> read_digits rest v = (v, rest).
Proof. unfold ends_digits, cur. destruct rest as [|c rest]; cbn; [done|]. by intros ->. Qed.

Lemma read_number k n rest :
  0 <= n < 10 ^ Z.of_nat k -> n < 2 ^ 31 -> ends_digits rest ->
  read_digits (show_fixed k n ++ rest) 0 = (n, rest).
Proof. intros. rewrite read_digits_show by lia. rewrite Z.mul_0_l. by apply read_digits_end. Qed.

Lemma show_fixed_head k n rest : 0 <= n -> is_digit (cur (show_fixed (S k) n ++ rest)) = true.
Proof.
  intros Hn. revert n rest Hn. induction k as [|k IH]; intros n rest Hn.
  - cbn. unfold is_digit. pose proof (Z.mod_pos_bound n 10 ltac:(lia)).
    rewrite Z.geb_leb. apply andb_true_iff. lia.
  - change (show_fixed (S (S k)) n) with (show_fixed (S k) (n / 10) ++ [48 + n mod 10]).
    rewrite <- (assoc_L (++)). apply IH. apply Z.div_pos; lia.
Qed.

(** An offset as [-hh:mm:ss] or [hh:mm:ss]. *)
Record offset := Offset { neg : bool; hh : Z; mi : Z; ss : Z }.

Definition offset_ok (o : offset) : Prop := 0 <= hh o < 100 /\ 0 <= mi o < 60 /\ 0 <= ss o < 60.

Definition offset_val (o : offset) : Z :=
  (if neg o then -1 else 1) * (hh o * 3600 + mi o * 60 + ss o).

Definition show_offset (o : offset) : list Z :=
  (if neg o then [45] else []) ++ show_fixed 2 (hh o) ++ 58 :: show_fixed 2 (mi o) ++ 58 :: show_fixed 2 (ss o).

Lemma digit_not c : is_digit c = true -> c <> 43 /\ c <> 45 /\ 48 <= c <= 57.
Proof. unfold is_digit. rewrite Z.geb_leb. intros [?%Z.leb_le ?%Z.leb_le]%andb_true_iff. lia. Qed.

Lemma parse_offset_show o rest :
  offset_ok o -> ends_digits rest ->
  parse_offset (show_offset o ++ rest) = (offset_val o, true, rest).
Proof.
  intros (Hh & Hm & Hs) Hr. unfold parse_offset, show_offset.
  rewrite <- !(assoc_L (++)). cbn [app]. rewrite <- !(assoc_L (++)). cbn [app].
  set (body := show_fixed 2 (hh o) ++ _).
  assert (Hd : is_digit (cur body) = true) by (apply (show_fixed_head 1); lia).
  apply digit_not in Hd as (Hp & Hm' & Hd).
  assert (Hsign : (if (cur ((if neg o then [45] else []) ++ body) =? 43)
                      || (cur ((if neg o then [45] else []) ++ body) =? 45)
                   then (cur ((if neg o then [45] else []) ++ body) =? 45,
                         tail ((if neg o then [45] else []) ++ body))
                   else (false, (if neg o then [45] else []) ++ body)) = (neg o, body)).
  { destruct (neg o); [done|]. cbn [app].
    destruct (Z.eqb_spec (cur body) 43); [lia|]. destruct (Z.eqb_spec (cur body) 45); [lia|]. done. }
  rewrite Hsign. cbv zeta.
  replace ((cur body <? 48) || (cur body >? 57)) with false
    by (symmetry; rewrite Z.gtb_ltb; apply orb_false_iff; lia).
  unfold body. rewrite read_number by (done || lia). cbn [cur head default from_option id].
  rewrite Z.eqb_refl. cbn [tail]. rewrite read_number by (done || lia).
  cbn [cur head default from_option id]. rewrite Z.eqb_refl. cbn [tail].
  rewrite read_number by (done || lia).
  unfold offset_val.
  rewrite (s32_small (hh o * 3600)), (s32_small (mi o * 60)), (s32_small (_ + mi o * 60)),
    (s32_small (_ + ss o)), (s32_small (- _)) by lia.
  do 2 f_equal. destruct (neg o); lia.
Qed.

(** A zone name: letters that fit the array. *)
Definition name_ok (l : list Z) : Prop :=
  l <> [] /\ Forall (fun c => is_alpha c = true) l /\ (length l <= 11)%nat.

Lemma name_alpha_run l : forall rest out n,
  Forall (fun c => is_alpha c = true) l -> is_alpha (cur rest) = false ->
  (n + length l < length out)%nat ->
  name_alpha (l ++ rest) out n = (rest, take n out ++ l ++ drop (n + length l) out, (n + length l)%nat).
Proof.
  induction l as [|c l IH]; intros rest out n Hl Hr Hn; cbn [app length].
  - rewrite Nat.add_0_r, take_drop. destruct rest as [|c rest]; [done|]. cbn in *. by rewrite Hr.
  - apply Forall_cons_1 in Hl as [Hc Hl]. cbn [length] in Hn. cbn [name_alpha]. rewrite Hc.
    destruct (Nat.ltb_spec (S n) (length out)); [|lia].
    rewrite IH; [|done|done|rewrite length_insert; lia].
    f_equal; [|lia]. f_equal. rewrite drop_insert_lt by lia.
    rewrite (take_S_r _ _ c) by (apply list_lookup_insert_eq; lia).
    rewrite take_insert_ge by lia. rewrite <- (assoc_L (++)). cbn [app].
    do 3 f_equal. f_equal. lia.
Qed.

Lemma string_of_app l c rest : Forall (fun c => c <> 0) l -> string_of (l ++ c :: rest) = l ++ string_of (c :: rest).
Proof.
  induction l as [|x l IH]; [done|]. intros [Hx Hl]%Forall_cons_1. cbn [app string_of].
  destruct (Z.eqb_spec x 0); [done|]. f_equal. by apply IH.
Qed.

Lemma alpha_range c : is_alpha c = true -> 65 <= c <= 122.
Proof.
  unfold is_alpha. rewrite !Z.geb_leb. intros [H|H]%orb_true_iff; apply andb_true_iff in H; lia.
Qed.

(** A name is read into the array as a string. *)
Lemma parse_name_alpha l rest out :
  name_ok l -> is_alpha (cur rest) = false -> length out = 12%nat ->
  exists out', parse_name (l ++ rest) out = (true, rest, out') /\ string_of out' = l /\ length out' = 12%nat.
Proof.
  intros (Hne & Hl & Hlen) Hr Ho. unfold parse_name.
  destruct l as [|c l']; [done|]. change (cur ((c :: l') ++ rest)) with c.
  pose proof (alpha_range c (proj1 (Forall_cons_1 _ _ _ Hl))). destruct (Z.eqb_spec c 60); [lia|].
  rewrite (name_alpha_run (c :: l') rest out 0) by (done || lia).
  rewrite Nat.add_0_l, take_0. cbn [app]. set (l := c :: l') in *.
  change (c :: l' ++ drop (length l) out) with (l ++ drop (length l) out).
  destruct (Nat.eqb_spec (length l) 0); [done|]. eexists. split; [done|].
  rewrite (insert_app_r_alt l) by lia. rewrite Nat.sub_diag.
  destruct (drop (length l) out) as [|d ds] eqn:Ed.
  { apply (f_equal length) in Ed. rewrite length_drop, Ho in Ed. cbn [length] in Ed, Hlen. lia. }
  cbn [insert list_insert]. split.
  - rewrite string_of_app.
    + cbn [string_of]. rewrite Z.eqb_refl. apply app_nil_r.
    + revert Hl. apply Forall_impl. intros x Hx%alpha_range. lia.
  - apply (f_equal length) in Ed. rewrite length_drop in Ed. rewrite length_app. cbn [length] in *. lia.
Qed.

(** ** Rules *)

Definition rule_ok (r : rule) (o : offset) : Prop :=
  offset_ok o /\ rtime r = offset_val o /\
  match kind r with
  | RULE_NONE => False
  | RULE_JULIAN | RULE_DAY => 0 <= rn r < 1000 /\ rm r = 0 /\ rw r = 0 /\ rd r = 0
  | RULE_MONTH => rn r = 0 /\ 0 <= rm r < 100 /\ 0 <= rw r < 10 /\ 0 <= rd r < 10
  end.

Definition show_day (r : rule) : list Z :=
  match kind r with
  | RULE_JULIAN => 74 :: show_fixed 3 (rn r)
  | RULE_MONTH => 77 :: show_fixed 2 (rm r) ++ 46 :: show_fixed 1 (rw r) ++ 46 :: show_fixed 1 (rd r)
  | _ => show_fixed 3 (rn r)
  end.

Definition show_rule (r : rule) (o : offset) : list Z := show_day r ++ 47 :: show_offset o.

Lemma parse_rule_show r o rest dflt :
  rule_ok r o -> ends_digits rest -> parse_rule (show_rule r o ++ rest) dflt = (r, rest).
Proof.
  intros (Ho & Ht & Hk) Hr. unfold parse_rule, show_rule, show_day.
  destruct r as [k n m w d t]. cbn [kind rn rm rw rd rtime] in *. destruct k; [done| | |].
  - destruct Hk as (Hn & -> & -> & ->). rewrite <- (assoc_L (++)). cbn [app].
    change (cur (74 :: _)) with 74. rewrite Z.eqb_refl. cbn [tail].
    rewrite read_number by (done || lia). change (cur (47 :: _)) with 47. rewrite Z.eqb_refl. cbn [tail].
    rewrite parse_offset_show by done. by rewrite Ht.
  - destruct Hk as (Hn & -> & -> & ->). rewrite <- (assoc_L (++)). cbn [app].
    pose proof (digit_not _ (show_fixed_head 2 n (47 :: show_offset o ++ rest) ltac:(lia))) as (_ & _ & Hd).
    destruct (Z.eqb_spec (cur (show_fixed 3 n ++ 47 :: show_offset o ++ rest)) 74); [lia|].
    destruct (Z.eqb_spec (cur (show_fixed 3 n ++ 47 :: show_offset o ++ rest)) 77); [lia|].
    rewrite read_number by (done || lia). change (cur (47 :: _)) with 47. rewrite Z.eqb_refl. cbn [tail].
    rewrite parse_offset_show by done. by rewrite Ht.
  - destruct Hk as (-> & Hm & Hw & Hd). rewrite <- !(assoc_L (++)). cbn [app].
    rewrite <- !(assoc_L (++)). cbn [app]. rewrite <- !(assoc_L (++)). cbn [app].
    change (cur (77 :: _)) with 77. change (77 =? 74) with false. rewrite Z.eqb_refl. cbn [tail].
    rewrite read_number by (done || lia). change (cur (46 :: _)) with 46. rewrite Z.eqb_refl. cbn [tail].
    rewrite read_number by (done || lia). change (cur (46 :: _)) with 46. rewrite Z.eqb_refl. cbn [tail].
    rewrite read_number by (done || lia). change (cur (47 :: _)) with 47. rewrite Z.eqb_refl. cbn [tail].
    rewrite parse_offset_show by done. by rewrite Ht.
Qed.

Lemma offset_val_range o : offset_ok o -> -360000 < offset_val o < 360000.
Proof. unfold offset_ok, offset_val. intros (? & ? & ?). destruct (neg o); lia. Qed.

Lemma show_offset_head o rest : offset_ok o -> is_alpha (cur (show_offset o ++ rest)) = false.
Proof.
  intros (Hh & _ & _). unfold show_offset. destruct (neg o); [done|]. cbn [app]. rewrite <- (assoc_L (++)).
  pose proof (digit_not _ (show_fixed_head 1 (hh o)
    ((58 :: show_fixed 2 (mi o) ++ 58 :: show_fixed 2 (ss o)) ++ rest) ltac:(lia))) as (_ & _ & Hd).
  destruct (is_alpha _) eqn:E; [|done]. apply alpha_range in E. lia.
Qed.

Lemma name_ends_digits l rest : name_ok l -> ends_digits (l ++ rest).
Proof.
  intros (Hne & Hl & _). destruct l as [|c l]; [done|]. unfold ends_digits. change (cur ((c :: l) ++ rest)) with c.
  pose proof (alpha_range c (proj1 (Forall_cons_1 _ _ _ Hl))).
  destruct (is_digit c) eqn:E; [|done]. apply digit_not in E. lia.
Qed.

(** [parse_posix] reads back every full [std offset dst offset,start,end]
    string it is given: the names, both offsets negated into seconds east of
    UTC, and the two rules with their times, whatever the previous zone was. *)
Theorem parse_posix_print std dst o1 o2 r1 r2 t1 t2 z :
  name_ok std -> name_ok dst -> offset_ok o1 -> offset_ok o2 -> rule_ok r1 t1 -> rule_ok r2 t2 ->
  length (abbr (st z)) = 12%nat -> length (abbr (dt z)) = 12%nat ->
  exists ab1 ab2,
    parse_posix (std ++ show_offset o1 ++ dst ++ show_offset o2 ++ 44 :: show_rule r1 t1 ++ 44 :: show_rule r2 t2) z
    = Posix (Zone (- offset_val o1) 0 ab1) (Zone (- offset_val o2) 1 ab2) true r1 r2 /\
    string_of ab1 = std /\ string_of ab2 = dst.
Proof.
  intros Hn1 Hn2 Ho1 Ho2 Hr1 Hr2 Hl1 Hl2. unfold parse_posix.
  set (tail1 := dst ++ _). set (tail2 := show_offset o2 ++ _) in tail1.
  destruct (parse_name_alpha std (show_offset o1 ++ tail1) (abbr (st z)) Hn1) as (ab1 & -> & E1 & _);
    [by apply show_offset_head|done|].
  cbn [negb]. rewrite parse_offset_show by (done || by apply name_ends_digits).
  cbn [dt abbr]. unfold tail1.
  destruct (parse_name_alpha dst tail2 (abbr (dt z)) Hn2) as (ab2 & -> & E2 & _);
    [by apply show_offset_head|done|].
  unfold tail2. rewrite parse_offset_show by done.
  change (cur (44 :: _)) with 44. rewrite Z.eqb_refl. cbn [tail].
  rewrite parse_rule_show by done. change (cur (44 :: _)) with 44. rewrite Z.eqb_refl. cbn [tail].
  pose proof (parse_rule_show r2 t2 [] (2 * 3600) Hr2 eq_refl) as Hp. rewrite app_nil_r in Hp. rewrite Hp.
  pose proof (offset_val_range o1 Ho1). pose proof (offset_val_range o2 Ho2).
  rewrite !s32_small by lia. by exists ab1, ab2.
Qed.

(** The zone state before anything was parsed. *)
Definition zone0 : zone := Zone 0 0 (replicate 12 0).
Definition rule0 : rule := Rule RULE_NONE 0 0 0 0 0.
Definition posix0 : posix := Posix zone0 zone0 false rule0 rule0.

(** "EST05:00:00EDT04:00:00,M03.2.0/02:00:00,M11.1.0/02:00:00" *)
Lemma parse_posix_print_witness :
  exists ab1 ab2,
    parse_posix ([69; 83; 84] ++ show_offset (Offset false 5 0 0) ++ [69; 68; 84] ++ show_offset (Offset false 4 0 0)
      ++ 44 :: show_rule (Rule RULE_MONTH 0 3 2 0 7200) (Offset false 2 0 0)
      ++ 44 :: show_rule (Rule RULE_MONTH 0 11 1 0 7200) (Offset false 2 0 0)) posix0
    = Posix (Zone (-18000) 0 ab1) (Zone (-14400) 1 ab2) true
        (Rule RULE_MONTH 0 3 2 0 7200) (Rule RULE_MONTH 0 11 1 0 7200).
Proof.
  destruct (parse_posix_print [69; 83; 84] [69; 68; 84] (Offset false 5 0 0) (Offset false 4 0 0)
    (Rule RULE_MONTH 0 3 2 0 7200) (Rule RULE_MONTH 0 11 1 0 7200) (Offset false 2 0 0) (Offset false 2 0 0) posix0)
    as (ab1 & ab2 & E & _); [..|exact (ex_intro _ ab1 (ex_intro _ ab2 E))].
  1-2: (split_and!; [done| |cbn; lia]; repeat constructor).
  1-4: (unfold rule_ok, offset_ok, offset_val; cbn; lia).
  all: done.
Defined.

(** ** Every lookup answers *)

Lemma julian_month_total n : forall mm dd, 1 <= mm -> mm + Z.of_nat n <= 12 ->
  exists mm' dd', julian_month n mm dd = Some (mm', dd') /\ 1 <= mm' <= 12.
Proof.
  induction n as [|n IH]; intros mm dd H1 H2; cbn [julian_month].
  - exists mm, dd. split; [done|lia].
  - rewrite days_in_month_spec by lia. cbn [mbind option_bind]. case_match; [|apply IH; lia].
    exists mm, dd. split; [done|lia].
Qed.

Lemma back_weeks_total lim fuel : forall day, day < lim + 7 * (Z.of_nat fuel - 1) -> (0 < fuel)%nat ->
  exists d, back_weeks fuel day lim = Some d.
Proof.
  induction fuel as [|fuel IH]; intros day H Hf; [lia|]. cbn [back_weeks]. rewrite Z.geb_leb.
  destruct (Z.leb_spec lim day); [|eauto]. destruct fuel; [lia|]. apply IH; lia.
Qed.

Lemma rule_doy_total r y : exists d, rule_doy r y = Some d.
Proof.
  assert (Hmonth : exists d,
    (let m := clamp 1 12 (rm r) in let w := clamp 1 5 (rw r) in let d := clamp 0 6 (rd r) in
     first ← sum_months (Z.to_nat (m - 1)) y 1 0;
     let wd := weekday_of (days_from_civil y 1 1 + first) in
     let day := first + Z.rem (d - wd + 7) 7 + (w - 1) * 7 in
     len ← days_in_month y m; back_weeks 6 day (first + len)) = Some d).
  { pose proof (clamp_range 1 12 (rm r) ltac:(lia)). pose proof (clamp_range 1 5 (rw r) ltac:(lia)).
    cbv zeta. rewrite months_before by lia. cbn [mbind option_bind].
    rewrite days_in_month_spec by lia. cbn [mbind option_bind]. apply back_weeks_total; [|lia].
    pose proof (month_len_range y (clamp 1 12 (rm r)) ltac:(lia)).
    set (x := clamp 0 6 (rd r) - _ + 7). pose proof (Z.rem_bound_abs x 7 ltac:(lia)). lia. }
  unfold rule_doy. destruct (kind r); [done| |eauto|done].
  destruct (julian_month_total 11 1 (clamp 1 365 (rn r)) ltac:(lia) ltac:(lia)) as (mm & dd & -> & Hmm).
  cbn [mbind option_bind]. rewrite months_before by lia. cbn [mbind option_bind]. eauto.
Qed.

Lemma dst_active_total z t y : exists b, dst_active z t y = Some b.
Proof.
  unfold dst_active, transition_utc.
  destruct (rule_doy_total (start_rule z) y) as [s ->]. destruct (rule_doy_total (end_rule z) y) as [e ->].
  cbn [mbind option_bind]. eauto.
Qed.

(** A POSIX zone answers for every time, with its standard or its DST offset. *)
Lemma lookup_posix_total z t :
  exists e d ab, lookup_posix z t = Some (e, d, ab) /\
    ((d = 0 /\ e = east (st z)) \/ (d = 1 /\ e = east (dt z) /\ has_dst z = true)).
Proof.
  unfold lookup_posix. destruct (has_dst z); cbn [negb]; [|do 3 eexists; split; [done|tauto]].
  cbv zeta. set (days := s32 (t + east (st z))).
  assert (Hd : - 2 ^ 31 <= days < 2 ^ 31) by (apply (wraps_range 32); lia). clearbody days.
  set (day := days ÷ 86400 - _).
  destruct (year_of_days_spec day) as (y & -> & _).
  { subst day. destruct (_ && _); Z.to_euclidean_division_equations; lia. }
  cbn [mbind option_bind]. destruct (dst_active_total z t y) as [b ->]. cbn [mbind option_bind].
  destruct b; do 3 eexists; (split; [done|]); [right|left]; tauto.
Qed.

(** ** The hour of the change

    In New York the clocks go forward at 02:00 standard time, 07:00 UTC, and
    back at 02:00 daylight time, 06:00 UTC.  [transition_utc] subtracts the
    offset in force after the change, so the zone is on DST from 06:00 UTC on
    in March, when the standard clock reads 01:00, and still at 06:59:59 UTC in
    November, an hour after the daylight clock read 02:00. *)

(** "EST5EDT,M3.2.0,M11.1.0" *)
Definition new_york : list Z :=
  [69; 83; 84; 53; 69; 68; 84; 44; 77; 51; 46; 50; 46; 48; 44; 77; 49; 49; 46; 49; 46; 48].

(** 2024-03-10 06:00:00 UTC and 2024-11-03 06:59:59 UTC. *)
Theorem dst_change_hour_shifted :
  let z := parse_posix new_york posix0 in
  (civil_seconds (Tm 0 0 6 10 2 124 0 0 0) = 1710050400 /\
   rtime (start_rule z) = 7200 /\ (1710050400 + east (st z)) mod 86400 = 3600 /\
   option_map (fun '(e, d, _) => (e, d)) (lookup_posix z 1710050400) = Some (east (dt z), 1)) /\
  (civil_seconds (Tm 59 59 6 3 10 124 0 0 0) = 1730617199 /\
   rtime (end_rule z) = 7200 /\ (1730617199 + east (dt z)) mod 86400 = 7200 + 3599 /\
   option_map (fun '(e, d, _) => (e, d)) (lookup_posix z 1730617199) = Some (east (dt z), 1)).
Proof. vm_compute. repeat split; reflexivity. Qed.

(** ** Reading a zone file *)

Section FileSafety.
Context (buf : list Z).
Abbreviation n := (Z.of_nat (length buf)).

Lemma byte_at_in i : 0 <= i < n -> exists b, byte_at buf i = Some b.
Proof.
  intros Hi. unfold byte_at. destruct (Z.ltb_spec i 0); [lia|].
  destruct (lookup_lt_is_Some_2 buf (Z.to_nat i)) as [b ->]; [lia|eauto].
Qed.

Lemma rd_be32_in p : 0 <= p -> p + 4 <= n -> exists v, rd_be32 buf p = Some v.
Proof.
  intros. unfold rd_be32. destruct (byte_at_in p) as [? ->]; [lia|].
  destruct (byte_at_in (p + 1)) as [? ->]; [lia|]. destruct (byte_at_in (p + 2)) as [? ->]; [lia|].
  destruct (byte_at_in (p + 3)) as [? ->]; [lia|]. cbn. eauto.
Qed.

Lemma rd_long_in p : 0 <= p -> p + 4 <= n -> exists v, rd_long buf p = Some v.
Proof. intros. unfold rd_long. destruct (rd_be32_in p) as [v ->]; [lia..|]. cbn. eauto. Qed.

Lemma is_tzif_in p : 0 <= p -> p + 4 <= n -> exists b, is_tzif buf p = Some b.
Proof.
  intros. unfold is_tzif. destruct (byte_at_in p) as [? ->]; [lia|].
  destruct (byte_at_in (p + 1)) as [? ->]; [lia|]. destruct (byte_at_in (p + 2)) as [? ->]; [lia|].
  destruct (byte_at_in (p + 3)) as [? ->]; [lia|]. cbn. eauto.
Qed.

Lemma rd_header_in p : 0 <= p -> p + 24 <= n -> exists h, rd_header buf p = Some h.
Proof.
  intros. unfold rd_header.
  destruct (rd_long_in p) as [? ->]; [lia..|]. destruct (rd_long_in (p + 4)) as [? ->]; [lia..|].
  destruct (rd_long_in (p + 8)) as [? ->]; [lia..|]. destruct (rd_long_in (p + 12)) as [? ->]; [lia..|].
  destruct (rd_long_in (p + 16)) as [? ->]; [lia..|]. destruct (rd_long_in (p + 20)) as [? ->]; [lia..|].
  cbn. eauto.
Qed.

(** Counts that no file of [TZ_FILE_MAX] bytes can exceed by much. *)
Definition sane (h : header) : Prop :=
  0 <= cnt_ut h < 2 ^ 20 /\ 0 <= cnt_std h < 2 ^ 20 /\ 0 <= cnt_leap h < 2 ^ 20 /\
  0 <= cnt_time h < 2 ^ 20 /\ 0 <= cnt_type h < 2 ^ 20 /\ 0 <= cnt_char h < 2 ^ 20.

Lemma rd_layout_in :
  n < 2 ^ 20 -> (forall h, rd_header buf 20 = Some h -> sane h) ->
  exists lay, rd_layout buf = Some lay /\
    match lay with
    | Some (h, ent, off) => 44 <= off <= n /\ (ent = 4 \/ ent = 8)
    | None => True
    end.
Proof.
  intros Hn Hs. unfold rd_layout. cbv zeta. destruct (Z.ltb_spec n 44); [by eexists|].
  destruct (is_tzif_in 0) as [b ->]; [lia..|]. cbn [mbind option_bind]. destruct b; cbn [negb]; [|by eexists].
  destruct (byte_at_in 4) as [ver ->]; [lia|]. cbn [mbind option_bind].
  destruct (rd_header_in 20) as [h Eh]; [lia..|]. rewrite Eh. cbn [mbind option_bind].
  specialize (Hs h Eh). unfold sane in Hs. destruct (ver >=? 50); [|eexists; split; [done|]; cbn; lia].
  rewrite (s32_small (cnt_time h * 5 + _ + _ + _ + _ + _)) by lia.
  set (skip := _ + cnt_ut h) in *. assert (0 <= skip < 2 ^ 26) by lia. clearbody skip.
  rewrite (s32_small (44 + skip)) by lia. rewrite (s32_small (44 + skip + 44)) by lia. rewrite Z.gtb_ltb.
  destruct (Z.ltb_spec n (44 + skip + 44)); [by eexists|].
  destruct (is_tzif_in (44 + skip)) as [b ->]; [lia..|]. cbn [mbind option_bind].
  destruct b; cbn [negb]; [|by eexists].
  destruct (rd_header_in (44 + skip + 20)) as [h2 ->]; [lia..|]. cbn [mbind option_bind].
  eexists. split; [done|]. cbn. lia.
Qed.

Lemma rd_be64_in k : forall p v, 0 <= p -> p + Z.of_nat k <= n -> exists w, rd_be64_loop buf k p v = Some w.
Proof.
  induction k as [|k IH]; intros p v H1 H2; [by eexists|]. cbn [rd_be64_loop].
  destruct (byte_at_in p) as [b ->]; [lia|]. cbn [mbind option_bind]. apply IH; lia.
Qed.

Lemma trans_time_in ent p : ent = 4 \/ ent = 8 -> 0 <= p -> p + ent <= n -> exists t, trans_time buf ent p = Some t.
Proof.
  intros [-> | ->] H1 H2; unfold trans_time; cbn [Z.eqb].
  - change (4 =? 8) with false. destruct (rd_be32_in p) as [v ->]; [lia..|]. cbn. eauto.
  - rewrite Z.eqb_refl. destruct (rd_be64_in 8 p 0) as [v ->]; [lia..|]. cbn. eauto.
Qed.

Lemma take_S_store {A} (l : list A) k x : (k < length l)%nat -> take (S k) (<[k := x]> l) = take k l ++ [x].
Proof.
  intros. erewrite take_S_r by (apply list_lookup_insert_eq; lia). by rewrite take_insert_ge by lia.
Qed.

(** The entries from the [j]-th on whose time is a 32-bit [time_t]. *)
Fixpoint kept (k : nat) (h : header) (ent off j : Z) : list (Z * Z) :=
  match k with
  | O => []
  | S k =>
      match trans_time buf ent (off + j * ent), byte_at buf (off + cnt_time h * ent + j) with
      | Some t, Some i =>
          if bool_decide (- 2 ^ 31 <= t < 2 ^ 31) then (t, i) :: kept k h ent off (j + 1)
          else kept k h ent off (j + 1)
      | _, _ => []
      end
  end.

Lemma rd_trans_in h ent off fuel : forall k j nt tr ty,
  ent = 4 \/ ent = 8 -> 0 <= off -> sane h -> off + cnt_time h * (ent + 1) <= n ->
  cnt_time h = j + Z.of_nat k -> 0 <= j -> 0 <= nt <= 512 -> (k < fuel)%nat ->
  length tr = 512%nat -> length ty = 512%nat ->
  exists tr' ty', let es := take (Z.to_nat (512 - nt)) (kept k h ent off j) in
    rd_trans buf fuel h ent off j nt tr ty = Some (nt + Z.of_nat (length es), tr', ty') /\
    length tr' = 512%nat /\ length ty' = 512%nat /\
    take (Z.to_nat nt + length es) tr' = take (Z.to_nat nt) tr ++ es.*1 /\
    take (Z.to_nat nt + length es) ty' = take (Z.to_nat nt) ty ++ es.*2.
Proof.
  induction fuel as [|fuel IH]; intros k j nt tr ty He Ho Hs Hb Hk Hj Hnt Hf Htr Hty; [lia|].
  cbn [rd_trans]. unfold TZ_MAXTRANS. destruct k as [|k].
  { destruct (Z.ltb_spec j (cnt_time h)); [lia|]. cbn [andb]. exists tr, ty. cbn [kept]. rewrite take_nil.
    cbn. rewrite Z.add_0_r, Nat.add_0_r, !app_nil_r. done. }
  destruct (Z.ltb_spec j (cnt_time h)); [|lia]. cbn [andb].
  destruct (Z.ltb_spec nt 512).
  2:{ exists tr, ty. replace (Z.to_nat (512 - nt)) with 0%nat by lia. rewrite take_0. cbn.
      rewrite Z.add_0_r, Nat.add_0_r, !app_nil_r. done. }
  assert (j * ent + ent <= cnt_time h * ent) by nia.
  destruct (trans_time_in ent (off + j * ent)) as [t Et]; [done|nia|nia|]. rewrite Et. cbn [mbind option_bind].
  unfold sane in Hs. cbn [kept]. rewrite Et.
  destruct (byte_at_in (off + cnt_time h * ent + j)) as [i Ei]; [nia|]. rewrite Ei.
  replace ((t >? 0x7fffffff) || (t <? -0x7fffffff - 1)) with (negb (bool_decide (- 2 ^ 31 <= t < 2 ^ 31))).
  2:{ rewrite Z.gtb_ltb. case_bool_decide; symmetry; cbn [negb]; [apply orb_false_iff; lia|apply orb_true_iff; lia]. }
  case_bool_decide as Hr; cbn [negb].
  - replace (s32 (cnt_time h * ent)) with (cnt_time h * ent) by (symmetry; apply s32_small; nia).
    rewrite Ei. cbn [mbind option_bind].
    destruct (IH k (j + 1) (nt + 1) (<[Z.to_nat nt := t]> tr) (<[Z.to_nat nt := i]> ty))
      as (tr' & ty' & E & L1 & L2 & T1 & T2); [done|done|done|done|lia|lia|lia|lia|rewrite length_insert; done..|].
    exists tr', ty'. cbv zeta. rewrite E.
    replace (Z.to_nat (512 - nt)) with (S (Z.to_nat (512 - (nt + 1)))) by lia. cbn [take firstn length fmap list_fmap].
    set (es := take _ _) in *. cbn [length].
    replace (Z.to_nat (nt + 1)) with (S (Z.to_nat nt)) in * by lia.
    replace (Z.to_nat nt + S (length es))%nat with (S (Z.to_nat nt) + length es)%nat by lia.
    rewrite T1, T2. rewrite !take_S_store by lia. rewrite <- !(assoc_L (++)).
    split; [do 3 f_equal; lia|]. done.
  - destruct (IH k (j + 1) nt tr ty) as (tr' & ty' & E & R); [done|done|done|done|lia|lia|lia|lia|done..|].
    exists tr', ty'. done.
Qed.

Lemma rd_abbr_in k : forall cp ai cnt a ab,
  0 <= cp -> 0 <= ai -> cp + cnt <= n -> exists ab', rd_abbr buf k cp ai cnt a ab = Some ab'.
Proof.
  induction k as [|k IH]; intros cp ai cnt a ab H1 H2 H3; cbn [rd_abbr]; [by eexists|].
  destruct (Z.ltb_spec (ai + Z.of_nat a) cnt); [|by eexists].
  destruct (byte_at_in (cp + ai + Z.of_nat a)) as [c ->]; [lia|]. cbn [mbind option_bind].
  destruct (c =? 0); [by eexists|]. apply IH; lia.
Qed.

(** The offset and the DST flag of type [k] are those of its record. *)
Definition type_read (ti : Z) (k : nat) (z : zone) : Prop :=
  exists e d, rd_be32 buf (ti + Z.of_nat k * 6) = Some e /\ byte_at buf (ti + Z.of_nat k * 6 + 4) = Some d /\
    east z = s32 e /\ isdst z = (if d =? 0 then 0 else 1).

Lemma rd_types_in m : forall k ti cp cnt tys,
  Forall byte_ok buf -> 0 <= ti -> ti + Z.of_nat (k + m) * 6 <= cp -> 0 <= cnt -> cp + cnt <= n ->
  (k + m <= length tys)%nat ->
  (forall i z, (i < k)%nat -> tys !! i = Some z -> type_read ti i z) ->
  exists tys', rd_types buf m k ti cp cnt tys = Some tys' /\ length tys' = length tys /\
    (forall i z, (i < k + m)%nat -> tys' !! i = Some z -> type_read ti i z).
Proof.
  induction m as [|m IH]; intros k ti cp cnt tys Hby Hti Hcp Hcnt Hc Hlen Hpre; cbn [rd_types].
  - exists tys. rewrite Nat.add_0_r. done.
  - destruct (byte_at_in (ti + Z.of_nat k * 6 + 5)) as [ai Eai]; [lia|]. rewrite Eai. cbn [mbind option_bind].
    destruct (rd_be32_in (ti + Z.of_nat k * 6)) as [e Ee]; [lia..|]. rewrite Ee. cbn [mbind option_bind].
    destruct (byte_at_in (ti + Z.of_nat k * 6 + 4)) as [d Ed]; [lia|]. rewrite Ed. cbn [mbind option_bind].
    destruct (lookup_lt_is_Some_2 tys k) as [old ->]; [lia|]. cbn [mbind option_bind].
    assert (Hai : 0 <= ai).
    { unfold byte_at in Eai. destruct (_ <? 0); [done|].
      pose proof (Forall_lookup_1 _ _ _ _ Hby Eai) as Hb. unfold byte_ok in Hb. lia. }
    destruct (rd_abbr_in 11 cp ai cnt 0 (abbr old)) as [ab ->]; [lia..|]. cbn [mbind option_bind].
    destruct (IH (S k) ti cp cnt (<[k := Zone (s32 e) (if d =? 0 then 0 else 1) ab]> tys))
      as (tys' & -> & L & R); [done|lia|lia|lia|lia|rewrite length_insert; lia| |].
    { intros i z Hi Hz. destruct (decide (i = k)) as [->|].
      - rewrite list_lookup_insert_eq in Hz by lia. simplify_eq. by exists e, d.
      - rewrite list_lookup_insert_ne in Hz by done. apply Hpre; [lia|done]. }
    exists tys'. split; [done|]. split; [by rewrite L, length_insert|].
    intros i z Hi. apply R. lia.
Qed.

Lemma rd_footer_in k : forall q, 0 <= q -> exists l, rd_footer buf k q = Some l.
Proof.
  induction k as [|k IH]; intros q Hq; cbn [rd_footer]; [by eexists|].
  destruct (Z.ltb_spec q n); [|by eexists]. destruct (byte_at_in q) as [c ->]; [lia|]. cbn [mbind option_bind].
  destruct (c =? 10); [by eexists|]. destruct (IH (q + 1)) as [l ->]; [lia|]. by eexists.
Qed.

Lemma footer_spec_in h ent off :
  sane h -> ent = 4 \/ ent = 8 -> 44 <= off < 2 ^ 21 -> exists l, footer_spec buf h ent off = Some l.
Proof.
  intros Hs He Ho. unfold footer_spec, sane in *. cbv zeta.
  assert (Hb : 0 <= off + cnt_time h * (ent + 1) + cnt_type h * 6 + cnt_char h
                    + cnt_leap h * (ent + 4) + cnt_std h + cnt_ut h < 2 ^ 30) by (destruct He as [-> | ->]; lia).
  rewrite (s32_small (off + _ + _ + _ + _ + _ + _)) by lia.
  set (d := off + _ + _ + _ + _ + _ + _) in *. clearbody d. rewrite s32_small by lia.
  destruct (Z.ltb_spec (d + 1) n); [|by eexists]. destruct (byte_at_in d) as [c ->]; [lia|].
  cbn [mbind option_bind]. destruct (c =? 10); [|by eexists]. apply rd_footer_in. lia.
Qed.

End FileSafety.

Lemma tz_recent_type_in tb want i :
  (i <= length (ttype tb))%nat -> ntypes tb <= Z.of_nat (length (types tb)) ->
  exists r, tz_recent_type i tb want = Some r /\ (0 <= ntypes tb -> -1 <= r < ntypes tb).
Proof.
  induction i as [|i IH]; intros Hi Ht; cbn [tz_recent_type]; [by eexists; split; [done|lia]|].
  destruct (lookup_lt_is_Some_2 (ttype tb) i) as [idx ->]; [lia|]. cbn [mbind option_bind].
  destruct (Z.leb_spec 0 idx); cbn [andb]; [|apply IH; lia].
  destruct (Z.ltb_spec idx (ntypes tb)); [|apply IH; lia].
  destruct (lookup_lt_is_Some_2 (types tb) (Z.to_nat idx)) as [z ->]; [lia|]. cbn [mbind option_bind].
  destruct (isdst z =? want); [eexists; split; [done|lia]|apply IH; lia].
Qed.

(** The arrays of the state have their declared lengths. *)
Definition arrays_ok (s : tz_state) : Prop :=
  length (types (tab s)) = 64%nat /\ length (trans (tab s)) = 512%nat /\ length (ttype (tab s)) = 512%nat.

(** a zone file with sane counts never takes the reader outside its buffers;
    when it accepts the file, the table holds the first 512 of the file's
    transitions that fit a 32-bit time, each with its type, and every type has
    the offset and the DST flag of its record. *)
Theorem tz_read_zone_safe `{TzEnv} spec s buf :
  zone_file (zone_path spec) = Some buf -> Forall byte_ok buf -> Z.of_nat (length buf) <= 8192 ->
  (forall h, rd_header buf 20 = Some h -> sane h) ->
  (forall h ent off, rd_layout buf = Some (Some (h, ent, off)) -> sane h) ->
  arrays_ok s ->
  exists ok s', tz_read_zone spec s = Some (ok, s') /\ arrays_ok s' /\
    if (ok : bool) then
      exists h ent off, rd_layout buf = Some (Some (h, ent, off)) /\
        let es := take 512 (kept buf (Z.to_nat (cnt_time h)) h ent off 0) in
        ntrans (tab s') = Z.of_nat (length es) /\
        take (length es) (trans (tab s')) = es.*1 /\ take (length es) (ttype (tab s')) = es.*2 /\
        (forall i z, Z.of_nat i < ntypes (tab s') -> types (tab s') !! i = Some z ->
           type_read buf (off + cnt_time h * (ent + 1)) i z)
    else s' = s.
Proof.
  intros Hf Hby Hlen Hs1 Hs2 (La & Lb & Lc). unfold tz_read_zone. rewrite Hf.
  destruct (rd_layout_in buf ltac:(lia) Hs1) as ([[[h ent] off]|] & El & Hlay); rewrite El; cbn [mbind option_bind].
  2:{ exists false, s. by repeat split. }
  specialize (Hs2 h ent off El). destruct Hlay as [Hoff He].
  assert (Hs := Hs2). unfold sane in Hs.
  destruct ((cnt_type h <=? 0) || (cnt_type h >? TZ_MAXTYPES) || (cnt_time h <? 0)) eqn:Eg.
  { exists false, s. by repeat split. }
  unfold TZ_MAXTYPES in Eg. rewrite !orb_false_iff, Z.gtb_ltb in Eg.
  destruct Eg as [[Et0%Z.leb_gt Et1%Z.ltb_ge] _].
  rewrite (s32_small (off + _ + _ + _)) by (destruct He as [-> | ->]; lia). rewrite Z.gtb_ltb.
  destruct (Z.ltb_spec (Z.of_nat (length buf)) (off + cnt_time h * (ent + 1) + cnt_type h * 6 + cnt_char h)).
  { exists false, s. by repeat split. }
  assert (Hct : 0 <= cnt_time h * (ent + 1) <= 8192) by (destruct He as [-> | ->]; lia).
  destruct (rd_trans_in buf h ent off (S (length buf)) (Z.to_nat (cnt_time h)) 0 0 (trans (tab s)) (ttype (tab s)))
    as (tr & ty & E & L1 & L2 & T1 & T2); [done|lia|done|lia|lia|lia|lia|destruct He as [-> | ->]; lia|done|done|].
  change (Z.to_nat (512 - 0)) with 512%nat in *. change (Z.to_nat 0) with 0%nat in *.
  rewrite !take_0 in *. cbn [app] in *. rewrite !Nat.add_0_l in *. set (es := take 512 _) in *.
  rewrite E. cbn [mbind option_bind]. rewrite Z.add_0_l.
  rewrite (s32_small (cnt_time h * (ent + 1))) by lia.
  destruct (rd_types_in buf (Z.to_nat (cnt_type h)) 0 (off + cnt_time h * (ent + 1))
    (off + cnt_time h * (ent + 1) + cnt_type h * 6) (cnt_char h) (types (tab s)))
    as (tys & -> & L3 & Rt); [done|lia|lia|lia|lia|lia|lia|].
  cbn [mbind option_bind]. destruct (byte_at_in buf 4) as [ver ->]; [lia|]. cbn [mbind option_bind].
  assert (Hfoot : exists fs, (if ver >=? 50 then footer_spec buf h ent off else Some []) = Some fs).
  { destruct (ver >=? 50); [apply footer_spec_in; done || lia|by eexists]. }
  destruct Hfoot as [fs ->]. cbn [mbind option_bind].
  assert (Hnt : (length es <= 512)%nat) by (subst es; rewrite length_take; lia).
  set (tb := Table _ _ _ _ _ _ _ _).
  destruct (tz_recent_type_in tb 0 (Z.to_nat (Z.of_nat (length es)))) as (si & -> & _); [cbn; lia..|].
  destruct (tz_recent_type_in tb 1 (Z.to_nat (Z.of_nat (length es)))) as (di & -> & _); [cbn; lia..|].
  cbn [mbind option_bind]. do 2 eexists. split; [done|]. split; [split_and!; cbn; congruence|].
  exists h, ent, off. split; [done|]. cbn [tab ntrans trans ttype ntypes types]. fold es.
  split_and!; [done|done|done|]. intros i z Hi. apply Rt. lia.
Qed.

(** ** Two zone files *)

(** The state of the engine at program start. *)
Definition tz0 : tz_state :=
  TzState false [] posix0 false false
    (Table 0 0 0 0 0 (replicate 64 zone0) (replicate 512 0) (replicate 512 0)) UTC UTC 0 0.

(** A version-1 header with these transition, type and character counts. *)
Definition v1_header (ntime ntype nchar : list Z) : list Z :=
  [84; 90; 105; 102; 0] ++ replicate 15 0 ++ replicate 12 0 ++ ntime ++ ntype ++ nchar.

(** Two transitions, at 256 and 512, between "A" (one hour east) and "B"
    (two hours, DST). *)
Definition small_file : list Z :=
  v1_header [0; 0; 0; 2] [0; 0; 0; 2] [0; 0; 0; 4]
  ++ [0; 0; 1; 0; 0; 0; 2; 0] ++ [1; 0]
  ++ [0; 0; 14; 16; 0; 0] ++ [0; 0; 28; 32; 1; 2] ++ [65; 0; 66; 0].

(** [cnt_time * 5] wraps around to 4, so the size check passes. *)
Definition huge_count_file : list Z :=
  v1_header [51; 51; 51; 52] [0; 0; 0; 1] [0; 0; 0; 0] ++ replicate 12 0.

Definition file_env (buf : list Z) : TzEnv := {| zone_file := fun _ => Some buf; env_TZ := None |}.

Lemma tz_read_zone_safe_witness :
  exists ok s', @tz_read_zone (file_env small_file) [58; 65] tz0 = Some (ok, s') /\ arrays_ok s' /\ ok = true.
Proof.
  destruct (@tz_read_zone_safe (file_env small_file) [58; 65] tz0 small_file) as (ok & s' & E & A & R).
  - reflexivity.
  - apply Forall_forall. intros x Hx. unfold byte_ok. vm_compute in Hx.
    repeat (destruct Hx as [<-|Hx]; [lia|]). destruct Hx.
  - vm_compute. congruence.
  - intros h Hh. vm_compute in Hh. injection Hh as <-. unfold sane. cbn. lia.
  - intros h ent off Hh. vm_compute in Hh. injection Hh as <- <- <-. unfold sane. cbn. lia.
  - repeat split.
  - exists ok, s'. split; [exact E|]. split; [exact A|].
    destruct ok; [reflexivity|]. subst s'. exfalso. revert E. vm_compute. discriminate.
Defined.

(** The size check of [tz_read_zone] multiplies 32-bit counts without an
    overflow check: a 56-byte file whose header announces 858993460 transitions
    passes it and is read outside the buffer. *)
Theorem zone_file_overrun :
  length huge_count_file = 56%nat /\
  @tz_read_zone (file_env huge_count_file) [58; 65] tz0 = None.
Proof. vm_compute. split; reflexivity. Qed.

End Tz.
