(* ===== verification/Time.v ===== *)
(** * Time: clocks, sleeps and civil-time conversions of src/time.c

    The clocks read cact_time_t records from the kernel's /proc files and sleep
    with poll; the kernel is the parameter [Clock].  The conversions use the
    calendar and the timezone engine, whose state they thread.  [asctime_r]
    writes its text through memory. *)

From Stdlib Require Import ZArith Lia Bool.
From stdpp Require Import base gmap list numbers.
From S2P Require Import Prelude Monad Memory Calendar Tz.

Module Time.
Import Calendar Tz.

(** ** Clocks *)

Definition EINVAL : Z := 22.
Definition CLOCK_REALTIME : Z := 0.
Definition CLOCK_MONOTONIC : Z := 1.
Definition TIMER_ABSTIME : Z := 1.

Record timespec := Timespec { tv_sec : Z; tv_nsec : Z }.

(** What the kernel answers: the records of /proc/time and /proc/wallclock
    (seconds and microseconds, unsigned), [None] when the file cannot be read,
    and the result of setting the wall clock. *)
Class Clock := {
  proc_time : option (Z * Z);
  proc_wallclock : option (Z * Z);
  set_wallclock : Z * Z -> Z
}.

Section Clocks.
Context `{Clock}.

Definition _read_time : option (Z * Z) := proc_time.
Definition _read_wallclock : option (Z * Z) :=
  match proc_wallclock with Some t => Some t | None => _read_time end.

(** A result or -1; the second component is the value [errno] is set to. *)
Definition clock_gettime (clkid : Z) : timespec + option Z :=
  if negb (clkid =? CLOCK_REALTIME) && negb (clkid =? CLOCK_MONOTONIC) then inr (Some EINVAL)
  else
    match (if clkid =? CLOCK_MONOTONIC then _read_time else _read_wallclock) with
    | None => inr None
    | Some (sec, usec) => inl (Timespec (s32 sec) (s32 (s32 usec * 1000)))
    end.

(** With a non-null [tv]. *)
Definition gettimeofday : option (Z * Z) :=
  '(sec, usec) ← _read_wallclock; Some (s32 sec, s32 usec).

Definition time : Z := match gettimeofday with Some (sec, _) => sec | None => -1 end.

Definition clock_getres (clkid : Z) : timespec + Z :=
  if negb (clkid =? CLOCK_REALTIME) && negb (clkid =? CLOCK_MONOTONIC) then inr EINVAL
  else inl (Timespec 0 1000000).

(** A null [req] is [None]. *)
Definition bad_timespec (req : option timespec) : bool :=
  match req with
  | None => true
  | Some r => (tv_sec r <? 0) || (tv_nsec r <? 0) || (tv_nsec r >=? 1000000000)
  end.

(** [nio_map] of src/nodeio.c: a result, or -1 with the error number. *)
Definition EIO : Z := 5.
Definition nio_map (r : Z) : Z + Z :=
  if r >=? 0 then inl r
  else if r =? -1 then inr EIO
  else let e := s32 (- r) in inr (if (e >? 0) && (e <=? 133) then e else EIO).

(** The kernel's answer to the new time, or [EINVAL]. *)
Definition clock_settime (clkid : Z) (tp : option timespec) : Z + Z :=
  if negb (clkid =? CLOCK_REALTIME) then inr EINVAL
  else if bad_timespec tp then inr EINVAL
  else match tp with
       | None => inr EINVAL
       | Some r => nio_map (set_wallclock (u32 (tv_sec r), u32 (Z.quot (tv_nsec r) 1000)))
       end.

(** The milliseconds given to [poll], or [EINVAL]. *)
Definition nanosleep (req : option timespec) : Z + Z :=
  if bad_timespec req then inr EINVAL
  else match req with
       | None => inr EINVAL
       | Some r =>
           let ms := u32 (u32 (s32 (tv_sec r * 1000)) + u32 (Z.quot (s32 (tv_nsec r + 999999)) 1000000)) in
           inl (if ms =? 0 then 1 else ms)
       end.

(** [inl ms] slept [ms] milliseconds and returned 0; [inr e] returned [e]
    without sleeping (0 when the deadline had passed).  [errno] is [EINVAL]
    when [clock_gettime] or [nanosleep] set it. *)
Definition clock_nanosleep (errno0 clkid flags : Z) (req : option timespec) : Z + Z :=
  if negb (clkid =? CLOCK_REALTIME) && negb (clkid =? CLOCK_MONOTONIC) then inr EINVAL
  else if negb (Z.land flags (Z.lnot TIMER_ABSTIME) =? 0) then inr EINVAL
  else if bad_timespec req then inr EINVAL
  else match req with
  | None => inr EINVAL
  | Some r =>
    if negb (Z.land flags TIMER_ABSTIME =? 0) then
      match clock_gettime clkid with
      | inr e => inr (default errno0 e)
      | inl now =>
          let deadline := s64 (tv_sec r * 1000000000 + tv_nsec r) in
          let now_ns := s64 (tv_sec now * 1000000000 + tv_nsec now) in
          let rel := s64 (deadline - now_ns) in
          if rel <=? 0 then inr 0
          else nanosleep (Some (Timespec (s32 (Z.quot rel 1000000000)) (s32 (Z.rem rel 1000000000))))
      end
    else nanosleep req
  end.

End Clocks.

(** ** Civil time *)

Section Conversions.
Context `{TzEnv}.

Definition localtime_r (timep : option Z) (result : option tm) (s : tz_state)
  : option (option tm * tz_state) :=
  match timep, result with
  | Some t, Some _ =>
      '(e, d, s) ← cact_tz_offset_utc t s;
      r ← gmtime_r (Some (s32 (t + e))) result;
      Some (match r with
            | None => None
            | Some r => Some (Tm (tm_sec r) (tm_min r) (tm_hour r) (tm_mday r) (tm_mon r) (tm_year r)
                                 (tm_wday r) (tm_yday r) d)
            end, s)
  | _, _ => Some (None, s)
  end.

(** The time, the updated fields and the zone state. *)
Definition mktime (r : tm) (s : tz_state) : option (Z * tm * tz_state) :=
  let y := s32 (tm_year r + 1900) in
  let m := tm_mon r in
  let d := tm_mday r in
  if (m <? 0) || (m >? 11) || (d <? 1) || (d >? 31) || (y <? 1) then Some (-1, r, s)
  else
    '(t, s) ← cact_tz_utc_from_tm r s;
    let days := _days_from_civil y (m + 1) d in
    let wday := Z.rem (Z.rem (days + 4) 7 + 7) 7 in
    let yday := days - _days_from_civil y 1 1 in
    '(_, isdst, s) ← cact_tz_offset_utc t s;
    Some (t, Tm (tm_sec r) (tm_min r) (tm_hour r) d m (tm_year r) wday yday isdst, s).

End Conversions.

(** ** Text *)

(** [while] the character is not NUL, [buf[p++]] is the next one. *)
Fixpoint _app_str (buf p : Z) (s : list Z) : M Z :=
  match s with
  | [] => ret p
  | c :: s => store8 (buf + p) c ;;* _app_str buf (p + 1) s
  end.

(** The decimal digits of [v], last first: [while (v > 0)]. *)
Fixpoint int_digits (fuel : nat) (v : Z) : list Z :=
  match fuel with
  | O => []
  | S fuel => if v >? 0 then (48 + Z.rem v 10) :: int_digits fuel (Z.quot v 10) else []
  end.

(** [tmp] holds at most ten digits; the padding loop counts [width] down. *)
Definition _app_int (buf p v width : Z) : M Z :=
  let tmp := (if v =? 0 then [48] else []) ++ int_digits 10 v in
  let pad := Z.to_nat (width - Z.of_nat (length tmp)) in
  let* p := _app_str buf p (replicate pad 48) in
  _app_str buf p (rev tmp).

(** [buf[p++] = c] *)
Definition _app_char (buf p c : Z) : M Z := store8 (buf + p) c ;;* ret (p + 1).

Definition wd : list (list Z) :=
  [[83; 117; 110]; [77; 111; 110]; [84; 117; 101]; [87; 101; 100]; [84; 104; 117]; [70; 114; 105]; [83; 97; 116]].

Definition mo : list (list Z) :=
  [[74; 97; 110]; [70; 101; 98]; [77; 97; 114]; [65; 112; 114]; [77; 97; 121]; [74; 117; 110];
   [74; 117; 108]; [65; 117; 103]; [83; 101; 112]; [79; 99; 116]; [78; 111; 118]; [68; 101; 99]].

(** An index outside the table is a fault. *)
Definition name_at (tbl : list (list Z)) (i : Z) : M (list Z) :=
  if i <? 0 then fault else
  match tbl !! Z.to_nat i with Some s => ret s | None => fault end.

Definition asctime_r (r : tm) (buf : Z) : M Z :=
  let* s := name_at wd (Z.land (tm_wday r) 7) in
  let* p := _app_str buf 0 s in
  let* p := _app_char buf p 32 in
  let* s := name_at mo (tm_mon r) in
  let* p := _app_str buf p s in
  let* p := _app_char buf p 32 in
  let* p := _app_int buf p (tm_mday r) 2 in
  let* p := _app_char buf p 32 in
  let* p := _app_int buf p (tm_hour r) 2 in
  let* p := _app_char buf p 58 in
  let* p := _app_int buf p (tm_min r) 2 in
  let* p := _app_char buf p 58 in
  let* p := _app_int buf p (tm_sec r) 2 in
  let* p := _app_char buf p 32 in
  let* p := _app_int buf p (s32 (tm_year r + 1900)) 4 in
  let* p := _app_char buf p 10 in
  store8 (buf + p) 0 ;;*
  ret buf.

(** A null [timep] is [None]; the local [tmv] is not null. *)
Definition ctime_r (timep : option Z) (buf : Z) : M Z :=
  match gmtime_r timep (Some (Tm 0 0 0 0 0 0 0 0 0)) with
  | None => fault
  | Some None => ret 0
  | Some (Some r) => asctime_r r buf
  end.

(** ** Sleeping long enough *)

Lemma nanosleep_enough r :
  bad_timespec (Some r) = false -> tv_sec r < 2147483 ->
  exists ms, nanosleep (Some r) = inl ms /\ 1 <= ms /\
    tv_sec r * 1000000000 + tv_nsec r <= ms * 1000000.
Proof.
  intros Hb Hs. unfold nanosleep. rewrite Hb. cbn in Hb. rewrite !orb_false_iff, Z.geb_leb in Hb.
  destruct Hb as [[H1%Z.ltb_ge H2%Z.ltb_ge] H3%Z.leb_gt].
  eexists. split; [done|]. rewrite (s32_small (tv_sec r * 1000)), (s32_small (tv_nsec r + 999999)) by lia.
  rewrite Z.quot_div_nonneg by lia.
  pose proof (Z.div_mod (tv_nsec r + 999999) 1000000 ltac:(lia)) as E.
  pose proof (Z.mod_pos_bound (tv_nsec r + 999999) 1000000 ltac:(lia)).
  set (q := (tv_nsec r + 999999) / 1000000) in *. clearbody q.
  rewrite (u32_small (tv_sec r * 1000)), (u32_small q), u32_small by lia.
  zcases; lia.
Qed.

(** an absolute [clock_nanosleep] either rejects its arguments, returns 0 at
    once because the deadline has passed, or sleeps for a whole number of
    milliseconds that takes the clock to the deadline or past it. *)
Theorem clock_nanosleep_reaches_deadline `{Clock} errno0 clkid r now :
  bad_timespec (Some r) = false -> clkid = CLOCK_REALTIME \/ clkid = CLOCK_MONOTONIC ->
  clock_gettime clkid = inl now -> 0 <= tv_sec now < 2 ^ 31 -> 0 <= tv_nsec now < 1000000000 ->
  0 <= tv_sec r < 2 ^ 31 -> tv_sec r - tv_sec now < 2147483 ->
  let deadline := tv_sec r * 1000000000 + tv_nsec r in
  let now_ns := tv_sec now * 1000000000 + tv_nsec now in
  (deadline <= now_ns /\ clock_nanosleep errno0 clkid TIMER_ABSTIME (Some r) = inr 0) \/
  (now_ns < deadline /\ exists ms, clock_nanosleep errno0 clkid TIMER_ABSTIME (Some r) = inl ms /\
     deadline <= now_ns + ms * 1000000).
Proof.
  intros Hb Hc Hnow Hns Hnn Hrs Hd. cbv zeta. unfold clock_nanosleep. rewrite Hb.
  assert (Hr := Hb). cbn in Hr. rewrite !orb_false_iff, Z.geb_leb in Hr.
  destruct Hr as [[H1%Z.ltb_ge H2%Z.ltb_ge] H3%Z.leb_gt].
  replace (negb (clkid =? CLOCK_REALTIME) && negb (clkid =? CLOCK_MONOTONIC)) with false
    by (destruct Hc as [-> | ->]; reflexivity).
  change (negb (Z.land TIMER_ABSTIME (Z.lnot TIMER_ABSTIME) =? 0)) with false.
  change (negb (Z.land TIMER_ABSTIME TIMER_ABSTIME =? 0)) with true. cbn [orb]. rewrite Hnow.
  rewrite (s64_small (tv_sec r * _ + _)), (s64_small (tv_sec now * _ + _)) by lia.
  set (dl := tv_sec r * 1000000000 + tv_nsec r) in *. set (nw := tv_sec now * 1000000000 + tv_nsec now) in *.
  rewrite s64_small by lia. cbv zeta. destruct (Z.leb_spec (dl - nw) 0); [left; split; [lia|done]|].
  right. split; [lia|]. assert (Hrel : 0 < dl - nw < 2147484 * 1000000000) by lia.
  set (rel := dl - nw) in *. rewrite Z.quot_div_nonneg, Z.rem_mod_nonneg by lia.
  pose proof (Z.div_mod rel 1000000000 ltac:(lia)) as E. pose proof (Z.mod_pos_bound rel 1000000000 ltac:(lia)).
  assert (Hq : rel / 1000000000 < 2147483).
  { apply Z.div_lt_upper_bound; [lia|]. subst rel dl nw. lia. }
  assert (0 <= rel / 1000000000) by (apply Z.div_pos; lia).
  rewrite !s32_small by lia.
  destruct (nanosleep_enough (Timespec (rel / 1000000000) (rel mod 1000000000))) as (ms & -> & Hms & Hle);
    [cbn; rewrite Z.geb_leb, !orb_false_iff; lia|cbn; lia|].
  exists ms. split; [done|]. cbn in Hle. lia.
Qed.

#[local] Instance sample_clock : Clock :=
  {| proc_time := Some (100, 250000); proc_wallclock := None; set_wallclock := fun _ => 0 |}.

Lemma clock_nanosleep_reaches_deadline_witness :
  exists ms, clock_nanosleep 0 CLOCK_MONOTONIC TIMER_ABSTIME (Some (Timespec 101 1)) = inl ms /\
    101000000001 <= 100250000000 + ms * 1000000.
Proof.
  destruct (clock_nanosleep_reaches_deadline 0 CLOCK_MONOTONIC (Timespec 101 1) (Timespec 100 250000000))
    as [[E _]|[_ R]]; [reflexivity|by right|reflexivity|cbn; lia..| |exact R].
  cbn in E. lia.
Defined.

(** ** mktime inverts localtime *)

Section RoundTrip.
Context `{TzEnv}.

(** The specification string in force, when it is a POSIX one. *)
Definition posix_spec (spec : list Z) : Prop :=
  env_TZ = Some spec /\ spec <> [] /\ is_file_name spec = false /\ (length spec <= 127)%nat.

(** The engine is set up for [spec]: another [tzset] changes nothing. *)
Definition tz_ready (spec : list Z) (s : tz_state) : Prop :=
  valid s = true /\ key s = spec /\ named s = false.

Lemma tzset_ready spec s : posix_spec spec -> tz_ready spec s -> tzset s = Some s.
Proof.
  intros (He & Hne & _) (Hv & Hk & _). unfold tzset. rewrite He. destruct spec as [|c spec]; [done|].
  rewrite Hv, Hk. by rewrite bool_decide_eq_true_2.
Qed.

Lemma tzset_posix spec s :
  posix_spec spec -> named s = false -> exists s1, tzset s = Some s1 /\ tz_ready spec s1.
Proof.
  intros Hp Hn. assert (Hq := Hp). destruct Hq as (He & Hne & Hf & Hl).
  unfold tzset. rewrite He. destruct spec as [|c spec']; [done|]. set (spec := c :: spec') in *.
  destruct (valid s && bool_decide (key s = spec)) eqn:E.
  { apply andb_true_iff in E as [Hv Hk%bool_decide_eq_true]. exists s. by split. }
  rewrite Hf. cbn [mbind option_bind]. unfold refresh_public_names, load_posix. cbn [named pz footer tab valid key].
  eexists. split; [done|]. unfold tz_ready. cbn [valid key named]. by rewrite take_ge by done.
Qed.

Lemma cact_tz_offset_ready spec s t :
  posix_spec spec -> tz_ready spec s ->
  exists e d, cact_tz_offset_utc t s = Some (e, d, s) /\
    ((d = 0 /\ e = east (st (pz s))) \/ (d = 1 /\ e = east (dt (pz s)) /\ has_dst (pz s) = true)).
Proof.
  intros Hp Hr. unfold cact_tz_offset_utc. rewrite (tzset_ready spec s Hp Hr). cbn [mbind option_bind].
  unfold lookup. destruct Hr as (_ & _ & ->). cbn [andb mbind option_bind].
  destruct (lookup_posix_total (pz s) t) as (e & d & ab & -> & R). cbn [mbind option_bind]. eauto.
Qed.

(** Seconds east of the instant, from its DST flag. *)
Lemma cact_tz_utc_ready spec s r :
  posix_spec spec -> tz_ready spec s ->
  (tm_isdst r = 0 \/ (tm_isdst r = 1 /\ has_dst (pz s) = true)) ->
  cact_tz_utc_from_tm r s
  = Some (s32 (civil_seconds r - (if tm_isdst r =? 0 then east (st (pz s)) else east (dt (pz s)))), s).
Proof.
  intros Hp Hr Hd. unfold cact_tz_utc_from_tm. rewrite (tzset_ready spec s Hp Hr). cbn [mbind option_bind].
  destruct Hd as [-> | [-> ->]]; cbn [negb].
  - destruct (has_dst (pz s)); done.
  - done.
Qed.

(** C38: for every POSIX zone (a specification of at most 127 characters that is not
    the name of a file), [mktime] applied to what [localtime_r] produced returns the
    time it was produced from and leaves the fields as they were, provided the
    local time fits 32 bits. *)
Theorem mktime_localtime_roundtrip spec s t old :
  posix_spec spec -> named s = false -> time32 t ->
  (forall s1, tzset s = Some s1 ->
     time32 (t + east (st (pz s1))) /\ time32 (t + east (dt (pz s1)))) ->
  exists r s1, localtime_r (Some t) (Some old) s = Some (Some r, s1) /\
    mktime r s1 = Some (t, r, s1).
Proof.
  intros Hp Hn Ht Hfit. destruct (tzset_posix spec s Hp Hn) as (s1 & Es & Hr).
  destruct (Hfit s1 Es) as [Hf1 Hf2].
  destruct (cact_tz_offset_ready spec s1 t Hp Hr) as (e & d & Eo & Hed).
  assert (Eo' : cact_tz_offset_utc t s = Some (e, d, s1)).
  { unfold cact_tz_offset_utc in *. rewrite Es. by rewrite (tzset_ready spec s1 Hp Hr) in Eo. }
  assert (Hte : time32 (t + e)) by (destruct Hed as [[_ ->]|(_ & -> & _)]; done).
  destruct (fill_gmtime_spec (t + e) Hte) as (r & Ef & Hok & Hy & Ei & Ew & Eyd & _).
  unfold localtime_r. rewrite Eo'. cbn [mbind option_bind]. rewrite s32_small by exact Hte.
  unfold gmtime_r. rewrite Ef. cbn [mbind option_bind]. do 2 eexists. split; [done|].
  set (r1 := Tm _ _ _ _ _ _ _ _ d).
  assert (Eu : civil_seconds r1 = t + e).
  { transitivity (civil_seconds r);
      [by unfold civil_seconds, r1; cbn [tm_sec tm_min tm_hour tm_mday tm_mon tm_year]|].
    rewrite civil_seconds_wide by (done || (unfold year_ok; lia)). rewrite Ei. by apply s32_small. }
  pose proof Hok as (_ & _ & _ & Hm & Hd). pose proof (month_len_range (tm_year r + 1900) (tm_mon r + 1) ltac:(lia)).
  unfold mktime. cbn [tm_year tm_mon tm_mday r1]. rewrite (s32_small (tm_year r + 1900)) by lia.
  rewrite !Z.gtb_ltb. replace (_ || _ || _ || _ || _) with false.
  2:{ symmetry. rewrite !orb_false_iff. lia. }
  rewrite (cact_tz_utc_ready spec s1 r1 Hp Hr) by (cbn; destruct Hed as [[-> _]|(-> & _ & ->)]; tauto).
  cbn [mbind option_bind]. rewrite Eu.
  replace (s32 (t + e - _)) with t.
  2:{ symmetry. cbn [tm_isdst r1]. destruct Hed as [[-> ->]|(-> & -> & _)]; cbn [Z.eqb].
      - rewrite Z.eqb_refl, Z.add_simpl_r. by apply s32_small.
      - change (1 =? 0) with false. cbn iota. rewrite Z.add_simpl_r. by apply s32_small. }
  rewrite Eo. cbn [mbind option_bind]. do 3 f_equal.
  change _days_from_civil with days_from_civil.
  rewrite !days_from_civil_spec by (unfold year_ok; lia). rewrite cum_days_1.
  assert (Eday : (t + e) / 86400 = jan1 (tm_year r + 1900) + day_of_year r).
  { rewrite <- Ei. unfold instant. destruct Hok as (? & ? & ? & _).
    symmetry. apply (Z.div_unique _ _ _ (tm_hour r * 3600 + tm_min r * 60 + tm_sec r)); lia. }
  unfold day_of_year in Eday. unfold r1. cbn [tm_sec tm_min tm_hour]. f_equal.
  - rewrite Ew, Eday. set (k := jan1 _ + (cum_days _ _ + tm_mday r - 1)).
    replace (jan1 _ + cum_days _ _ + tm_mday r - 1) with k by (subst k; lia).
    rewrite <- weekday_mod. clearbody k. clear. zcases; Z.to_euclidean_division_equations; lia.
  - rewrite Eyd, Eday. lia.
Qed.

End RoundTrip.

#[local] Instance ny_env : TzEnv := {| zone_file := fun _ => None; env_TZ := Some new_york |}.

(** 2024-07-01 12:00:00 UTC in New York. *)
Lemma mktime_localtime_roundtrip_witness :
  exists r s1, localtime_r (Some 1719835200) (Some (Tm 0 0 0 0 0 0 0 0 0)) tz0 = Some (Some r, s1) /\
    mktime r s1 = Some (1719835200, r, s1).
Proof.
  apply (mktime_localtime_roundtrip new_york tz0 1719835200 (Tm 0 0 0 0 0 0 0 0 0)).
  - split; [reflexivity|]. split; [discriminate|]. split; [reflexivity|]. vm_compute. lia.
  - reflexivity.
  - vm_compute. split; congruence.
  - intros s1 E. vm_compute in E. injection E as <-. vm_compute. repeat split; congruence.
Defined.

(** With a version-1 zone file [mktime] takes the offset of the POSIX part of the
    state, which such a file does not fill in: the round trip is lost. *)
Theorem mktime_ignores_zone_table :
  let env := {| zone_file := fun _ => Some small_file; env_TZ := Some [58; 65] |} in
  match @localtime_r env (Some 1000) (Some (Tm 0 0 0 0 0 0 0 0 0)) tz0 with
  | Some (Some r, s1) =>
      (tm_hour r, tm_min r) = (1, 16) /\
      option_map (fun '(t, _, _) => t) (@mktime env r s1) = Some (1000 + 3600)
  | _ => False
  end.
Proof. vm_compute. split; reflexivity. Qed.

(** ** The text of a date *)

Section Text.
Context (buf : Z) (m : mem) (cap : nat) (Hw : writable m buf cap).

(** [text] has been written so far. *)
Abbreviation wrote text := (write_list buf text m).

Lemma app_char_run c text :
  byte_ok c -> (length text < cap)%nat ->
  store8 (buf + Z.of_nat (length text)) c (wrote text) = Some (tt, wrote (text ++ [c])).
Proof.
  intros Hc Hl. rewrite write_list_snoc. rewrite <- (u8_small c) at 2 by exact Hc.
  apply wp_eq, wp_store8; [|done]. apply (writable_write_list m buf text buf cap Hw). lia.
Qed.

Lemma app_str_run s : forall text,
  Forall byte_ok s -> (length text + length s <= cap)%nat ->
  _app_str buf (Z.of_nat (length text)) s (wrote text)
  = Some (Z.of_nat (length (text ++ s)), wrote (text ++ s)).
Proof.
  induction s as [|c s IH]; intros text Hb Hl; cbn [_app_str].
  - by rewrite app_nil_r.
  - cbn [length] in Hl. apply Forall_cons_1 in Hb as [Hc Hb].
    erewrite bind_run by (apply app_char_run; [exact Hc|lia]).
    replace (Z.of_nat (length text) + 1) with (Z.of_nat (length (text ++ [c])))
      by (rewrite length_app; cbn [length]; lia).
    rewrite IH; [|done|rewrite length_app; cbn [length]; lia]. by rewrite <- (assoc_L (++)).
Qed.

Lemma show_fixed_length k : forall v, length (show_fixed k v) = k.
Proof. induction k; intros v; [done|]. cbn [show_fixed]. rewrite length_app, IHk. cbn [length]. lia. Qed.

Lemma show_fixed_bytes k : forall v, Forall byte_ok (show_fixed k v).
Proof.
  induction k as [|k IH]; intros v; [done|]. cbn [show_fixed]. apply Forall_app. split; [apply IH|].
  constructor; [|done]. pose proof (Z.mod_pos_bound v 10 ltac:(lia)). unfold byte_ok. lia.
Qed.

Lemma show_fixed_0 k : show_fixed k 0 = replicate k 48.
Proof.
  induction k as [|k IH]; [done|]. cbn [show_fixed]. change (0 / 10) with 0. rewrite IH.
  change (48 + 0 mod 10) with 48. by rewrite <- replicate_cons_app.
Qed.

(** The digits of the loop, padded on the left, are the fixed-width numeral. *)
Lemma int_digits_show k : forall fuel v,
  (k <= fuel)%nat -> 0 <= v < 10 ^ Z.of_nat k ->
  (length (int_digits fuel v) <= k)%nat /\
  replicate (k - length (int_digits fuel v)) 48 ++ rev (int_digits fuel v) = show_fixed k v.
Proof.
  induction k as [|k IH]; intros fuel v Hf Hv.
  - change (10 ^ Z.of_nat 0) with 1 in Hv. replace v with 0 by lia. destruct fuel; done.
  - destruct fuel as [|fuel]; [lia|]. cbn [int_digits]. rewrite Z.gtb_ltb.
    destruct (Z.ltb_spec 0 v).
    + rewrite Z.quot_div_nonneg, Z.rem_mod_nonneg by lia.
      assert (0 <= v / 10 < 10 ^ Z.of_nat k).
      { replace (Z.of_nat (S k)) with (Z.succ (Z.of_nat k)) in Hv by lia. rewrite Z.pow_succ_r in Hv by lia.
        split; [apply Z.div_pos; lia|apply Z.div_lt_upper_bound; lia]. }
      destruct (IH fuel (v / 10)) as [L E]; [lia|done|]. cbn [length rev show_fixed]. split; [lia|].
      rewrite <- E. cbn [Nat.sub]. by rewrite <- (assoc_L (++)).
    + replace v with 0 by lia. rewrite show_fixed_0. cbn [length rev]. split; [lia|].
      rewrite app_nil_r. by rewrite Nat.sub_0_r.
Qed.

Lemma app_int_run v (k : nat) text :
  (1 <= k <= 10)%nat -> 0 <= v < 10 ^ Z.of_nat k -> (length text + k <= cap)%nat ->
  _app_int buf (Z.of_nat (length text)) v (Z.of_nat k) (wrote text)
  = Some (Z.of_nat (length (text ++ show_fixed k v)), wrote (text ++ show_fixed k v)).
Proof.
  intros Hk Hv Hl. unfold _app_int. cbv zeta. set (tmp := (if v =? 0 then [48] else []) ++ int_digits 10 v).
  assert (Ht : (length tmp <= k)%nat /\ replicate (k - length tmp) 48 ++ rev tmp = show_fixed k v).
  { destruct (Z.eqb_spec v 0) as [->|].
    - change tmp with [48]. cbn [length rev app]. split; [lia|]. rewrite show_fixed_0.
      destruct k as [|k]; [lia|]. cbn [Nat.sub]. rewrite Nat.sub_0_r. by rewrite <- replicate_cons_app.
    - subst tmp. cbn [app]. apply int_digits_show; [lia|done]. }
  destruct Ht as [Hlen Htext]. clearbody tmp.
  replace (Z.to_nat (Z.of_nat k - Z.of_nat (length tmp))) with (k - length tmp)%nat by lia.
  assert (Hb : Forall byte_ok (replicate (k - length tmp) 48 ++ rev tmp)) by (rewrite Htext; apply show_fixed_bytes).
  apply Forall_app in Hb as [Hb1 Hb2].
  erewrite bind_run by (apply app_str_run; [done|rewrite length_replicate; lia]).
  rewrite app_str_run; [|done|rewrite length_app, length_replicate, length_rev; lia].
  by rewrite <- (assoc_L (++)), Htext.
Qed.

Lemma app_char_step c text :
  byte_ok c -> (length text < cap)%nat ->
  _app_char buf (Z.of_nat (length text)) c (wrote text)
  = Some (Z.of_nat (length (text ++ [c])), wrote (text ++ [c])).
Proof.
  intros Hc Hl. unfold _app_char. erewrite bind_run by (by apply app_char_run).
  unfold ret. rewrite length_app. cbn [length]. do 2 f_equal. lia.
Qed.

End Text.

(** The length of the text written so far. *)
Ltac text_len :=
  repeat first [rewrite length_app | rewrite show_fixed_length]; cbn [length]; lia.

(** The text of [asctime_r]: "Www Mmm dd hh:mm:ss yyyy" and a newline. *)
Definition asctime_text (wday mon : list Z) (r : tm) : list Z :=
  wday ++ [32] ++ mon ++ [32] ++ show_fixed 2 (tm_mday r) ++ [32] ++ show_fixed 2 (tm_hour r) ++ [58]
  ++ show_fixed 2 (tm_min r) ++ [58] ++ show_fixed 2 (tm_sec r) ++ [32]
  ++ show_fixed 4 (tm_year r + 1900) ++ [10].

Lemma name_at_run tbl i s m : 0 <= i -> tbl !! Z.to_nat i = Some s -> name_at tbl i m = Some (s, m).
Proof. intros Hi E. unfold name_at. destruct (Z.ltb_spec i 0); [lia|]. by rewrite E. Qed.

Lemma names_len tbl i s :
  tbl = wd \/ tbl = mo -> tbl !! i = Some s -> length s = 3%nat /\ Forall byte_ok s.
Proof.
  intros Ht E. assert (H : Forall (fun s => length s = 3%nat /\ Forall byte_ok s) tbl).
  { destruct Ht as [-> | ->]; repeat (constructor; [split; [done|]; repeat (constructor; [unfold byte_ok; lia|]); done|]); done. }
  exact (Forall_lookup_1 _ _ _ _ H E).
Qed.

Lemma asctime_r_run r buf m wday mon :
  writable m buf 26 -> civil_ok r -> 0 <= tm_year r + 1900 <= 9999 -> 0 <= tm_wday r <= 6 ->
  wd !! Z.to_nat (tm_wday r) = Some wday -> mo !! Z.to_nat (tm_mon r) = Some mon ->
  asctime_r r buf m = Some (buf, write_list buf (asctime_text wday mon r ++ [0]) m).
Proof.
  intros Hw (Hs & Hmi & Hh & Hm & Hd) Hy Hwd Ew Em. unfold asctime_r.
  pose proof (month_len_range (tm_year r + 1900) (tm_mon r + 1) ltac:(lia)).
  destruct (names_len wd _ wday (or_introl eq_refl) Ew) as [Lw Bw].
  destruct (names_len mo _ mon (or_intror eq_refl) Em) as [Lm Bm].
  replace (Z.land (tm_wday r) 7) with (tm_wday r).
  2:{ change 7 with (Z.ones 3). rewrite Z.land_ones by lia. symmetry. apply Z.mod_small. lia. }
  erewrite bind_run by (apply name_at_run; [lia|exact Ew]).
  change m with (write_list buf [] m) at 1. change 0 with (Z.of_nat (length (@nil Z))) at 1.
  erewrite bind_run by (apply (app_str_run _ _ _ Hw); [exact Bw|text_len]).
  erewrite bind_run by (apply (app_char_step _ _ _ Hw); [unfold byte_ok; lia|text_len]).
  erewrite bind_run by (apply name_at_run; [lia|exact Em]).
  erewrite bind_run by (apply (app_str_run _ _ _ Hw); [exact Bm|text_len]).
  erewrite bind_run by (apply (app_char_step _ _ _ Hw); [unfold byte_ok; lia|text_len]).
  erewrite bind_run by (apply (app_int_run _ _ _ Hw _ 2); [lia|cbn; lia|text_len]).
  erewrite bind_run by (apply (app_char_step _ _ _ Hw); [unfold byte_ok; lia|text_len]).
  erewrite bind_run by (apply (app_int_run _ _ _ Hw _ 2); [lia|cbn; lia|text_len]).
  erewrite bind_run by (apply (app_char_step _ _ _ Hw); [unfold byte_ok; lia|text_len]).
  erewrite bind_run by (apply (app_int_run _ _ _ Hw _ 2); [lia|cbn; lia|text_len]).
  erewrite bind_run by (apply (app_char_step _ _ _ Hw); [unfold byte_ok; lia|text_len]).
  erewrite bind_run by (apply (app_int_run _ _ _ Hw _ 2); [lia|cbn; lia|text_len]).
  erewrite bind_run by (apply (app_char_step _ _ _ Hw); [unfold byte_ok; lia|text_len]).
  rewrite (s32_small (tm_year r + 1900)) by lia.
  erewrite bind_run by (apply (app_int_run _ _ _ Hw _ 4); [lia|cbn; lia|text_len]).
  erewrite bind_run by (apply (app_char_step _ _ _ Hw); [unfold byte_ok; lia|text_len]).
  erewrite bind_run by (apply (app_char_run _ _ _ Hw); [unfold byte_ok; lia|text_len]).
  unfold ret, asctime_text. repeat rewrite <- (assoc_L (++)). done.
Qed.

(** [ctime_r] writes, for every 32-bit time, the 25 characters of the date
    it names and a NUL, and nothing outside those 26 bytes; so the 32-byte
    static buffer of [ctime] is never overrun. *)
Theorem ctime_r_text t buf m :
  time32 t -> writable m buf 26 ->
  exists r wday mon,
    gmtime_r (Some t) (Some (Tm 0 0 0 0 0 0 0 0 0)) = Some (Some r) /\ civil_seconds r = t /\
    wd !! Z.to_nat (tm_wday r) = Some wday /\ mo !! Z.to_nat (tm_mon r) = Some mon /\
    length (asctime_text wday mon r) = 25%nat /\
    ctime_r (Some t) buf m = Some (buf, write_list buf (asctime_text wday mon r ++ [0]) m).
Proof.
  intros Ht Hw. destruct (fill_gmtime_spec t Ht) as (r & E & Hok & Hy & Ei & Ew & _).
  assert (Hwd : 0 <= tm_wday r <= 6) by (rewrite Ew; pose proof (Z.mod_pos_bound (t / 86400 + 4) 7); lia).
  pose proof Hok as (_ & _ & _ & Hm & _).
  destruct (lookup_lt_is_Some_2 wd (Z.to_nat (tm_wday r))) as [wday E1]; [cbn; lia|].
  destruct (lookup_lt_is_Some_2 mo (Z.to_nat (tm_mon r))) as [mon E2]; [cbn; lia|].
  exists r, wday, mon. unfold ctime_r, gmtime_r. rewrite E. cbn [mbind option_bind].
  destruct (names_len wd _ wday (or_introl eq_refl) E1) as [Lw _].
  destruct (names_len mo _ mon (or_intror eq_refl) E2) as [Lm _].
  split_and!; [done| |done|done| |].
  - rewrite civil_seconds_wide by (done || (unfold year_ok; lia)). rewrite Ei. by apply s32_small.
  - unfold asctime_text. text_len.
  - apply asctime_r_run; done || lia.
Qed.

Lemma ctime_r_text_witness :
  exists r wday mon, gmtime_r (Some 0) (Some (Tm 0 0 0 0 0 0 0 0 0)) = Some (Some r) /\
    ctime_r (Some 0) 1000 (write_list 1000 (replicate 32 0) ∅)
    = Some (1000, write_list 1000 (asctime_text wday mon r ++ [0]) (write_list 1000 (replicate 32 0) ∅)).
Proof.
  destruct (ctime_r_text 0 1000 (write_list 1000 (replicate 32 0) ∅)) as (r & wday & mon & E & _ & _ & _ & _ & R).
  - split; vm_compute; congruence.
  - solve_writable.
  - exact (ex_intro _ r (ex_intro _ wday (ex_intro _ mon (conj E R)))).
Defined.

End Time.
