(* ===== verification/Env.v ===== *)
(** * Env: the environment of src/env.c, and getenv of src/stdlib.c

    [environ] is the list of its strings (without the terminating null pointer),
    [None] before the start-up code has set it.  A string is the list of its
    characters without the NUL.  Whether a call of [malloc] succeeds is an
    argument of the operations that allocate. *)

From Stdlib Require Import ZArith Lia Bool.
From stdpp Require Import base gmap sets list numbers.
From S2P Require Import Prelude.

Module Env.

Abbreviation str := (list Z).

Record env := MkEnv { environ : option (list str); _env_owned : bool }.

Definition EINVAL : Z := 22.
Definition ENOMEM : Z := 12.

Definition __cact_init_env (envp : option (list str)) (s : env) : env :=
  match envp, environ s with
  | Some l, None => MkEnv (Some l) false
  | _, _ => s
  end.

Definition _env_count (s : env) : nat := match environ s with Some l => length l | None => 0 end.

(** [strncmp(e, name, n) == 0] *)
Fixpoint strncmp_eq (e name : str) (n : nat) {struct n} : bool :=
  match n with
  | O => true
  | S n =>
      match e, name with
      | [], [] => true
      | c :: e, d :: name => (c =? d) && strncmp_eq e name n
      | _, _ => false
      end
  end.

(** The test of the two search loops: the name, then ['=']. *)
Definition is_entry (name : str) (nlen : nat) (e : str) : bool :=
  strncmp_eq e name nlen && (default 0 (e !! nlen) =? 61).

(** The loop of [_env_find]: [None] is its -1. *)
Fixpoint find_from (name : str) (nlen : nat) (i : nat) (l : list str) : option nat :=
  match l with
  | [] => None
  | e :: l => if is_entry name nlen e then Some i else find_from name nlen (S i) l
  end.

Definition _env_find (name : str) (nlen : nat) (s : env) : option nat :=
  l ← environ s; find_from name nlen 0 l.

(** [!name || !*name || strchr(name, '=')] *)
Definition bad_name (name : option str) : bool :=
  match name with
  | None => true
  | Some n => bool_decide (n = []) || bool_decide (61 ∈ n)
  end.

(** The loop that moves the entries after [i] one place down. *)
Definition remove_at (i : nat) (s : env) : env :=
  MkEnv (l ← environ s; Some (take i l ++ drop (S i) l)) (_env_owned s).

(** The result is 0, or the [errno] of a -1. *)
Definition unsetenv (name : option str) (s : env) : Z * env :=
  if bad_name name then (EINVAL, s)
  else
    let n := default [] name in
    match _env_find n (length n) s with
    | None => (0, s)
    | Some i => (0, remove_at i s)
    end.

(** [environ[i] = e] *)
Definition replace_at (i : nat) (e : str) (s : env) : env :=
  MkEnv (l ← environ s; Some (<[i := e]> l)) (_env_owned s).

(** The copy of the array with [e] added at its end. *)
Definition append_entry (e : str) (s : env) : env :=
  MkEnv (Some (default [] (environ s) ++ [e])) true.

Definition setenv (malloc_e malloc_ne : bool) (name value : option str) (overwrite : bool) (s : env) : Z * env :=
  if bad_name name then (EINVAL, s)
  else
    let n := default [] name in
    let v := default [] value in
    let found := _env_find n (length n) s in
    if bool_decide (is_Some found) && negb overwrite then (0, s)
    else if negb malloc_e then (ENOMEM, s)
    else
      let e := n ++ [61] ++ v in
      match found with
      | Some i => (0, replace_at i e s)
      | None => if negb malloc_ne then (ENOMEM, s) else (0, append_entry e s)
      end.

(** [strchr(string, '=') - string] *)
Fixpoint eq_pos (l : str) : option nat :=
  match l with
  | [] => None
  | c :: l => if c =? 61 then Some 0%nat else i ← eq_pos l; Some (S i)
  end.

Definition putenv (malloc_ne : bool) (string : option str) (s : env) : Z * env :=
  match string with
  | None => (EINVAL, s)
  | Some str =>
      match eq_pos str with
      | None =>
          match _env_find str (length str) s with
          | None => (0, s)
          | Some i => (0, remove_at i s)
          end
      | Some nlen =>
          match _env_find str nlen s with
          | Some i => (0, replace_at i str s)
          | None => if negb malloc_ne then (ENOMEM, s) else (0, append_entry str s)
          end
      end
  end.

(** The search of [getenv]. *)
Fixpoint getenv_from (name : str) (l : list str) : option str :=
  match l with
  | [] => None
  | e :: l => if is_entry name (length name) e then Some (drop (S (length name)) e) else getenv_from name l
  end.

Definition getenv (name : option str) (s : env) : option str :=
  match name with
  | None => None
  | Some [] => None
  | Some n => l ← environ s; getenv_from n l
  end.

(** ** Names and values *)

(** An entry as its name and its value. *)
Definition split_entry (e : str) : option (str * str) :=
  i ← eq_pos e; Some (take i e, drop (S i) e).

Lemma eq_pos_app n v : 61 ∉ n -> eq_pos (n ++ 61 :: v) = Some (length n).
Proof.
  induction n as [|c n IH]; intros H; cbn [app eq_pos length]; [by rewrite Z.eqb_refl|].
  rewrite elem_of_cons in H. destruct (Z.eqb_spec c 61); [naive_solver|]. rewrite IH by naive_solver. done.
Qed.

Lemma eq_pos_spec e i : eq_pos e = Some i -> e = take i e ++ 61 :: drop (S i) e /\ 61 ∉ take i e /\ (i < length e)%nat.
Proof.
  revert i. induction e as [|c e IH]; intros i E; cbn [eq_pos] in E; [done|].
  destruct (Z.eqb_spec c 61) as [->|Hc].
  - simplify_eq. cbn. split; [done|]. split; [set_solver|lia].
  - destruct (eq_pos e) as [k|] eqn:Ek; [|done]. cbn in E. simplify_eq.
    destruct (IH k eq_refl) as (E1 & E2 & E3). cbn [take firstn drop skipn app length].
    split; [by f_equal|]. split; [|lia]. rewrite elem_of_cons. naive_solver.
Qed.

Lemma strncmp_prefix n e : strncmp_eq e n (length n) = bool_decide (n `prefix_of` e).
Proof.
  revert e. induction n as [|c n IH]; intros e; cbn [length strncmp_eq].
  - symmetry. apply bool_decide_eq_true. apply prefix_nil.
  - destruct e as [|d e].
    + symmetry. apply bool_decide_eq_false. apply prefix_nil_not.
    + rewrite IH. destruct (Z.eqb_spec d c) as [->|Hd]; cbn [andb].
      * apply bool_decide_ext. split; [apply prefix_cons|apply prefix_cons_inv_2].
      * symmetry. apply bool_decide_eq_false. by intros ?%prefix_cons_inv_1.
Qed.

(** For a name without ['='] the test compares whole names. *)
Lemma is_entry_spec n e :
  61 ∉ n -> is_entry n (length n) e = bool_decide (fst <$> split_entry e = Some n).
Proof.
  intros Hn. unfold is_entry. rewrite strncmp_prefix. symmetry. unfold split_entry.
  destruct (bool_decide (n `prefix_of` e)) eqn:Hp; cbn [andb].
  - apply bool_decide_eq_true in Hp as [k ->]. rewrite lookup_app_r by lia. rewrite Nat.sub_diag.
    destruct k as [|c k]; cbn [lookup list_lookup default from_option].
    + rewrite app_nil_r. apply bool_decide_eq_false. destruct (eq_pos n) as [i|] eqn:E; [|done].
      apply eq_pos_spec in E as (E & _ & _). rewrite E in Hn. set_solver.
    + unfold id. destruct (Z.eqb_spec c 61) as [->|Hc].
      * rewrite eq_pos_app by done. cbn. apply bool_decide_eq_true. by rewrite take_app_length.
      * apply bool_decide_eq_false. destruct (eq_pos (n ++ c :: k)) as [i|] eqn:E; [|done]. cbn.
        intros [= E']. assert (E0 := E). apply eq_pos_spec in E as (E & _ & _).
        assert (Hi : i = length n).
        { rewrite <- E', length_take. apply eq_pos_spec in E0 as (_ & _ & ?). lia. }
        subst i. rewrite E' in E.
        apply (f_equal (lookup (length n))) in E. rewrite !lookup_app_r, Nat.sub_diag in E by lia. cbn in E. congruence.
  - apply bool_decide_eq_false in Hp. apply bool_decide_eq_false. intros E. apply Hp.
    destruct (eq_pos e) as [i|] eqn:Ei; [|done]. cbn in E. simplify_eq.
    apply eq_pos_spec in Ei as (E & _ & _). rewrite E at 2. by apply prefix_app_r.
Qed.

(** ** The environment as a map *)

Definition env_map (l : list str) : gmap str str := list_to_map (omap split_entry l).

(** The map of an environment, and the invariant that a name occurs once. *)
Definition vars (s : env) : gmap str str := env_map (default [] (environ s)).

Definition name_of (e : str) : option str := fst <$> split_entry e.

Definition wf (s : env) : Prop := NoDup (omap name_of (default [] (environ s))).

Lemma env_map_app l k : env_map (l ++ k) = env_map l ∪ env_map k.
Proof. unfold env_map. by rewrite omap_app, list_to_map_app. Qed.

Lemma env_map_cons e n v l : split_entry e = Some (n, v) -> env_map (e :: l) = <[n := v]> (env_map l).
Proof. intros E. unfold env_map. cbn [omap list_omap]. by rewrite E. Qed.

Lemma env_map_absent n l : (forall e, e ∈ l -> name_of e <> Some n) -> env_map l !! n = None.
Proof.
  intros H. apply not_elem_of_list_to_map_1. intros [[n' v] [-> Hin]]%list_elem_of_fmap.
  apply list_elem_of_omap in Hin as (e & He & E). apply (H e He). unfold name_of. by rewrite E.
Qed.

Lemma name_absent n (l : list str) : (forall e, e ∈ l -> name_of e <> Some n) <-> n ∉ omap name_of l.
Proof. rewrite list_elem_of_omap. naive_solver. Qed.

Lemma split_entry_mk n v : 61 ∉ n -> split_entry (n ++ [61] ++ v) = Some (n, v).
Proof.
  intros H. unfold split_entry. cbn [app]. rewrite eq_pos_app by done. cbn [mbind option_bind].
  rewrite take_app_length. rewrite (drop_app_ge n) by lia. by rewrite Nat.sub_succ_l, Nat.sub_diag by lia.
Qed.

Lemma entry_of_spec n e : name_of e = Some n -> exists v, split_entry e = Some (n, v).
Proof. unfold name_of. destruct (split_entry e) as [[n' v]|]; cbn; intros; simplify_eq. eauto. Qed.

Lemma find_from_spec n l : 61 ∉ n -> forall k,
  match find_from n (length n) k l with
  | Some i => exists l1 e v l2, l = l1 ++ e :: l2 /\ i = (k + length l1)%nat /\ split_entry e = Some (n, v) /\
                (forall e', e' ∈ l1 -> name_of e' <> Some n)
  | None => forall e, e ∈ l -> name_of e <> Some n
  end.
Proof.
  intros Hn. induction l as [|e l IH]; intros k; cbn [find_from]; [set_solver|].
  rewrite is_entry_spec by done. fold (name_of e). case_bool_decide as He.
  - destruct (entry_of_spec n e He) as [v Ev]. exists [], e, v, l. cbn. split_and!; [done|lia|done|set_solver].
  - specialize (IH (S k)). destruct (find_from n (length n) (S k) l) as [i|].
    + destruct IH as (l1 & e1 & v & l2 & -> & -> & E & H). exists (e :: l1), e1, v, l2. cbn.
      split_and!; [done|lia|done|]. intros e' [->|Hin]%elem_of_cons; [done|by apply H].
    + intros e' [->|Hin]%elem_of_cons; [done|by apply IH].
Qed.

(** A name that the operations accept. *)
Definition good_name (n : str) : Prop := n <> [] /\ 61 ∉ n.

Lemma good_name_ok n : good_name n -> bad_name (Some n) = false.
Proof. intros [H1 H2]. cbn. by rewrite !bool_decide_eq_false_2. Qed.

Lemma getenv_from_map n l : 61 ∉ n -> getenv_from n l = env_map l !! n.
Proof.
  intros Hn. induction l as [|e l IH]; cbn [getenv_from]; [done|].
  rewrite is_entry_spec by done. fold (name_of e). case_bool_decide as He.
  - destruct (entry_of_spec n e He) as [v Ev]. rewrite (env_map_cons e n v) by done. rewrite lookup_insert_eq.
    unfold split_entry in Ev. destruct (eq_pos e) as [i|] eqn:Ei; [|done]. cbn in Ev. simplify_eq.
    apply eq_pos_spec in Ei as (_ & _ & Hi). rewrite length_take. do 2 f_equal. lia.
  - rewrite IH. unfold name_of in He. destruct (split_entry e) as [[n' v]|] eqn:E; cbn in He.
    + rewrite (env_map_cons e n' v) by done. rewrite lookup_insert_ne by congruence. done.
    + unfold env_map. cbn [omap list_omap]. by rewrite E.
Qed.

Lemma replace_spec n v e i s :
  61 ∉ n -> wf s -> _env_find n (length n) s = Some i -> split_entry e = Some (n, v) ->
  vars (replace_at i e s) = <[n := v]> (vars s) /\ wf (replace_at i e s).
Proof.
  intros Hn Hw Hf He. unfold vars, wf, replace_at, _env_find in *. destruct (environ s) as [l|]; [|done].
  cbn [mbind option_bind default from_option environ id] in *. unfold id in *. pose proof (find_from_spec n l Hn 0) as F. rewrite Hf in F.
  destruct F as (l1 & e1 & w & l2 & -> & -> & E & H). rewrite Nat.add_0_l.
  rewrite insert_app_r_alt, Nat.sub_diag by lia. cbn [insert list_insert].
  split.
  - rewrite !env_map_app, (env_map_cons e n v), (env_map_cons e1 n w) by done.
    rewrite insert_union_r by (by apply env_map_absent). by rewrite insert_insert_eq.
  - revert Hw. rewrite !omap_app. cbn [omap list_omap]. unfold name_of. by rewrite He, E.
Qed.

Lemma append_spec n v e s :
  61 ∉ n -> wf s -> _env_find n (length n) s = None -> split_entry e = Some (n, v) ->
  vars (append_entry e s) = <[n := v]> (vars s) /\ wf (append_entry e s).
Proof.
  intros Hn Hw Hf He. unfold vars, wf, append_entry, _env_find in *. cbn [environ default from_option].
  assert (Habs : forall e, e ∈ default [] (environ s) -> name_of e <> Some n).
  { destruct (environ s) as [l|]; cbn in *; [|set_solver].
    pose proof (find_from_spec n l Hn 0) as F. by rewrite Hf in F. }
  unfold id in *. set (l := default [] (environ s)) in *. split.
  - rewrite env_map_app, (env_map_cons e n v) by done.
    rewrite <- insert_union_r by (by apply env_map_absent). f_equal. apply map_union_empty.
  - rewrite omap_app. cbn [omap list_omap]. unfold name_of at 2. rewrite He. cbn.
    apply list.NoDup_app. split; [done|]. split; [|apply list.NoDup_singleton].
    apply name_absent in Habs. set_solver.
Qed.

Lemma remove_spec n i s :
  61 ∉ n -> wf s -> _env_find n (length n) s = Some i ->
  vars (remove_at i s) = delete n (vars s) /\ wf (remove_at i s).
Proof.
  intros Hn Hw Hf. unfold vars, wf, remove_at, _env_find in *. destruct (environ s) as [l|]; [|done].
  cbn [mbind option_bind default from_option environ id] in *. unfold id in *. pose proof (find_from_spec n l Hn 0) as F. rewrite Hf in F.
  destruct F as (l1 & e & w & l2 & -> & -> & E & H). rewrite Nat.add_0_l.
  rewrite take_app_length. rewrite (drop_app_ge l1) by lia. replace (S (length l1) - length l1)%nat with 1%nat by lia.
  cbn [drop skipn]. rewrite omap_app in Hw. cbn [omap list_omap] in Hw. unfold name_of at 2 in Hw.
  rewrite E in Hw. cbn in Hw. apply list.NoDup_app in Hw as (N1 & D & N2). apply list.NoDup_cons in N2 as [N2 N3].
  split.
  - rewrite !env_map_app, (env_map_cons e n w) by done. rewrite delete_union.
    rewrite (delete_id (env_map l1)) by (by apply env_map_absent).
    rewrite delete_insert_eq. f_equal. symmetry. apply delete_id. apply env_map_absent. by apply name_absent.
  - rewrite omap_app. apply list.NoDup_app. split; [done|]. split; [|done]. intros x Hx. specialize (D x Hx). set_solver.
Qed.

Lemma not_found s n : 61 ∉ n -> _env_find n (length n) s = None -> vars s !! n = None.
Proof.
  intros Hn Hf. unfold vars, _env_find in *. destruct (environ s) as [l|]; [|done]. cbn [mbind option_bind default from_option environ id] in *. unfold id in *.
  apply env_map_absent. pose proof (find_from_spec n l Hn 0) as F. by rewrite Hf in F.
Qed.

Lemma found s n i : 61 ∉ n -> _env_find n (length n) s = Some i -> is_Some (vars s !! n).
Proof.
  intros Hn Hf. unfold vars, _env_find in *. destruct (environ s) as [l|]; [|done]. cbn [mbind option_bind default from_option environ id] in *. unfold id in *.
  pose proof (find_from_spec n l Hn 0) as F. rewrite Hf in F.
  destruct F as (l1 & e & w & l2 & -> & -> & E & H). rewrite env_map_app, (env_map_cons e n w) by done.
  exists w. rewrite lookup_union_r by (by apply env_map_absent). apply lookup_insert_eq.
Qed.

(** C39: the environment is a finite map.  Under the invariant that no name
    occurs twice (which every operation keeps), [getenv] is the map's lookup,
    a successful [setenv] inserts its value, or does nothing when the name is
    set and [overwrite] is 0, [unsetenv] deletes, and a failed allocation
    leaves the environment as it was. *)
Theorem env_refines_map n v ov (m1 m2 : bool) s :
  good_name n -> wf s ->
  getenv (Some n) s = vars s !! n /\
  (let '(r, s') := unsetenv (Some n) s in r = 0 /\ wf s' /\ vars s' = delete n (vars s)) /\
  (let '(r, s') := setenv m1 m2 (Some n) (Some v) ov s in
   wf s' /\
   ((r = 0 /\ vars s' = (if bool_decide (is_Some (vars s !! n)) && negb ov then vars s else <[n := v]> (vars s)))
    \/ (r = ENOMEM /\ m1 && m2 = false /\ s' = s))).
Proof.
  intros Hg Hw. assert (H61 := proj2 Hg). split; [|split].
  - unfold getenv, vars. destruct n as [|c n]; [by destruct Hg|]. destruct (environ s) as [l|]; [|done].
    by apply getenv_from_map.
  - unfold unsetenv. rewrite good_name_ok by done. cbn [default from_option]. unfold id.
    destruct (_env_find n (length n) s) as [i|] eqn:Ef.
    + destruct (remove_spec n i s H61 Hw Ef). done.
    + split; [done|]. split; [done|]. by rewrite delete_id by (by apply not_found).
  - unfold setenv. rewrite good_name_ok by done. cbn [default from_option]. unfold id.
    destruct (_env_find n (length n) s) as [i|] eqn:Ef.
    + pose proof (found s n i H61 Ef) as Hs. rewrite !bool_decide_eq_true_2 by (done || by eexists). cbn [andb].
      destruct ov; cbn [negb]; [|by auto].
      destruct m1; cbn [negb]; [|by auto].
      destruct (replace_spec n v (n ++ [61] ++ v) i s H61 Hw Ef (split_entry_mk n v H61)). auto.
    + rewrite (bool_decide_eq_false_2 (is_Some None)) by (by intros []). cbn [andb].
      rewrite (not_found s n H61 Ef), bool_decide_eq_false_2 by (by intros []). cbn [andb].
      destruct m1; cbn [negb]; [|by auto]. destruct m2; cbn [negb]; [|by auto].
      destruct (append_spec n v (n ++ [61] ++ v) s H61 Hw Ef (split_entry_mk n v H61)). auto.
Qed.

(** The entry "A=1"; [setenv] adds "B=2". *)
Lemma env_refines_map_witness :
  getenv (Some [66]) (snd (setenv true true (Some [66]) (Some [50]) true (MkEnv (Some [[65; 61; 49]]) false))) = Some [50]
  /\ wf (snd (setenv true true (Some [66]) (Some [50]) true (MkEnv (Some [[65; 61; 49]]) false))).
Proof.
  destruct (env_refines_map [66] [50] true true true (MkEnv (Some [[65; 61; 49]]) false)) as (_ & _ & W & _).
  - split; [discriminate|]. vm_compute. set_solver.
  - unfold wf. cbn. apply list.NoDup_singleton.
  - split; [reflexivity|exact W].
Defined.

End Env.
