(* ===== verification/Libgen.v ===== *)
(** * Libgen: dirname and basename of src/libgen.c

    Both functions cut the caller's string in place: they return the result
    string and the path as it is left (a string is the list of its characters
    without the NUL; a null pointer is [None]). *)

From Stdlib Require Import ZArith Lia Bool.
From stdpp Require Import base sets list numbers.
From S2P Require Import Prelude.

Module Libgen.

Abbreviation str := (list Z).

Definition dot : str := [46].
Definition slash : str := [47].

Definition is_slash (path : str) (i : nat) : bool := default 0 (path !! i) =? 47.

(** [while (n > lim && path[n - 1] == '/') n--;] *)
Fixpoint strip (lim n : nat) (path : str) : nat :=
  match n with
  | O => O
  | S k => if (lim <? n)%nat && is_slash path k then strip lim k path else n
  end.

(** The last ['/'], by the forward scan. *)
Fixpoint last_slash (path : str) (i : nat) (found : option nat) : option nat :=
  match path with
  | [] => found
  | c :: path => last_slash path (S i) (if c =? 47 then Some i else found)
  end.

Definition dirname (path : option str) : str * option str :=
  match path with
  | None | Some [] => (dot, path)
  | Some p =>
      let p := take (strip 1 (length p) p) p in
      match last_slash p 0 None with
      | None => (dot, Some p)
      | Some O => (take 1 p, Some (take 1 p))
      | Some i => (take i p, Some (take i p))
      end
  end.

(** [while (base > path && base[-1] != '/') base--;] *)
Fixpoint back_to_slash (n : nat) (path : str) : nat :=
  match n with
  | O => O
  | S k => if is_slash path k then n else back_to_slash k path
  end.

Definition basename (path : option str) : str * option str :=
  match path with
  | None | Some [] => (dot, path)
  | Some p =>
      let e := strip 0 (length p) p in
      if (e =? 0)%nat then (slash, path)
      else
        let p := take e p in
        (drop (back_to_slash e p) p, Some p)
  end.

(** ** The shape of a path *)

Lemma is_slash_at l k c r : k = length l -> is_slash (l ++ c :: r) k = (c =? 47).
Proof. intros ->. unfold is_slash. by rewrite lookup_app_r, Nat.sub_diag by lia. Qed.

(** Trailing slashes are stripped down to the last other character. *)
Lemma strip_run lim l c k :
  c <> 47 -> (lim <= length l + 1)%nat ->
  strip lim (length (l ++ c :: replicate k 47)) (l ++ c :: replicate k 47) = S (length l).
Proof.
  intros Hc Hl. rewrite length_app. cbn [length]. rewrite length_replicate.
  assert (H : forall j, (j <= k)%nat ->
    strip lim (length l + S j) (l ++ c :: replicate k 47) = S (length l)).
  { induction j as [|j IH]; intros Hj.
    - rewrite Nat.add_1_r. cbn [strip]. rewrite is_slash_at by done.
      destruct (Z.eqb_spec c 47); [done|]. by rewrite andb_false_r.
    - rewrite Nat.add_succ_r. cbn [strip].
      replace (is_slash _ _) with true.
      2:{ unfold is_slash. rewrite lookup_app_r by lia.
          replace (length l + S j - length l)%nat with (S j) by lia. cbn [lookup list_lookup].
          change ((replicate k 47 : list Z) !! j) with (replicate k 47 !! j).
          rewrite lookup_replicate_2 by lia. done. }
      destruct (Nat.ltb_spec lim (S (length l + S j))); [|lia]. cbn [andb]. apply IH. lia. }
  apply (H k). lia.
Qed.

Lemma last_slash_none p : forall i f, 47 ∉ p -> last_slash p i f = f.
Proof.
  induction p as [|c p IH]; intros i f H; [done|]. cbn [last_slash]. apply not_elem_of_cons in H as [H1 H2].
  destruct (Z.eqb_spec c 47); [congruence|]. by apply IH.
Qed.

Lemma last_slash_app d b : 47 ∉ b -> forall i f, last_slash (d ++ 47 :: b) i f = Some (i + length d)%nat.
Proof.
  intros Hb. induction d as [|c d IH]; intros i f; cbn [app last_slash length].
  - rewrite Z.eqb_refl, last_slash_none by done. f_equal. lia.
  - rewrite IH. f_equal. lia.
Qed.

Lemma back_to_slash_run b pre :
  47 ∉ b -> back_to_slash (length pre + length b) (pre ++ b) = back_to_slash (length pre) pre.
Proof.
  induction b as [|c b IH] using rev_ind; intros Hb.
  - by rewrite Nat.add_0_r, app_nil_r.
  - assert (Hc : c <> 47 /\ 47 ∉ b) by (split; [intros ->|]; set_solver).
    rewrite length_app. cbn [length]. rewrite Nat.add_1_r, Nat.add_succ_r. cbn [back_to_slash].
    replace (pre ++ b ++ [c]) with ((pre ++ b) ++ c :: []) by (by rewrite <- (assoc_L (++))).
    rewrite is_slash_at by (by rewrite length_app). destruct Hc as [Hc Hb']. destruct (Z.eqb_spec c 47); [done|].
    rewrite <- IH by exact Hb'. clear.
    assert (G : forall n l r, (n <= length l)%nat -> back_to_slash n (l ++ r) = back_to_slash n l).
    { induction n as [|n IHn]; intros l r Hn; [done|]. cbn [back_to_slash].
      replace (is_slash (l ++ r) n) with (is_slash l n) by (unfold is_slash; by rewrite lookup_app_l by lia).
      by rewrite IHn by lia. }
    apply G. rewrite length_app. lia.
Qed.

Lemma back_to_slash_end d : back_to_slash (length (d ++ [47])) (d ++ [47]) = length (d ++ [47]).
Proof.
  rewrite length_app. cbn [length]. rewrite Nat.add_1_r. cbn [back_to_slash]. by rewrite is_slash_at by done.
Qed.

(** a path [dir/base] with any number of trailing slashes is split at its
    last inner slash: [dirname] gives [dir] ("/" when it is empty, "." when
    there is no slash), [basename] gives [base]; a path of slashes only has
    basename "/", and an empty path or a null pointer gives "." for both. *)
Theorem dirname_basename_split dir base k :
  base <> [] -> 47 ∉ base ->
  let full := dir ++ 47 :: base ++ replicate k 47 in
  fst (dirname (Some full)) = (if decide (dir = []) then slash else dir) /\
  fst (basename (Some full)) = base /\
  fst (dirname (Some (base ++ replicate k 47))) = dot /\
  fst (basename (Some (base ++ replicate k 47))) = base /\
  fst (basename (Some (replicate (S k) 47))) = slash /\
  fst (dirname (Some [])) = dot /\ fst (basename None) = dot.
Proof.
  intros Hne Hb. cbv zeta.
  destruct (exists_last Hne) as (b0 & c & Ebase). assert (Hc : c <> 47) by (intros ->; set_solver).
  assert (Efull : dir ++ 47 :: base ++ replicate k 47 = (dir ++ 47 :: b0) ++ c :: replicate k 47)
    by (rewrite Ebase; by repeat (rewrite <- (assoc_L (++)); cbn [app])).
  assert (Ecut : forall l, take (S (length l)) (l ++ c :: replicate k 47) = l ++ [c]).
  { intros l. rewrite take_app_ge by lia. rewrite Nat.sub_succ_l, Nat.sub_diag by lia. done. }
  assert (Eb : base ++ replicate k 47 = b0 ++ c :: replicate k 47) by (by rewrite Ebase, <- (assoc_L (++))).
  assert (Hnn : forall l, exists x xs, l ++ c :: replicate k 47 = x :: xs) by (intros [|x l]; cbn; eauto).
  split_and!; try done.
  - rewrite Efull. unfold dirname. destruct (Hnn (dir ++ 47 :: b0)) as (x & xs & Ex). rewrite Ex, <- Ex.
    rewrite strip_run, Ecut by (done || lia).
    replace ((dir ++ 47 :: b0) ++ [c]) with (dir ++ 47 :: base) by (rewrite Ebase; by repeat (rewrite <- (assoc_L (++)); cbn [app])).
    rewrite last_slash_app by done. cbn [Nat.add]. destruct dir as [|d dir]; [done|].
    cbn [length]. rewrite decide_False by done. cbn [fst]. by rewrite (take_app_length (d :: dir)).
  - rewrite Efull. unfold basename. destruct (Hnn (dir ++ 47 :: b0)) as (x & xs & Ex). rewrite Ex, <- Ex.
    rewrite strip_run, Ecut by (done || lia). cbn [Nat.eqb fst].
    replace ((dir ++ 47 :: b0) ++ [c]) with ((dir ++ [47]) ++ base)
      by (rewrite Ebase; by repeat (rewrite <- (assoc_L (++)); cbn [app])).
    change [47] with slash. replace (S (length (dir ++ 47%Z :: b0))) with (length (dir ++ slash) + length base)%nat
      by (rewrite Ebase, !length_app; unfold slash; cbn [length]; lia).
    unfold slash. rewrite back_to_slash_run, back_to_slash_end by done. by rewrite drop_app_length.
  - rewrite Eb. unfold dirname. destruct (Hnn b0) as (x & xs & Ex). rewrite Ex, <- Ex.
    rewrite strip_run, Ecut by (done || lia). rewrite <- Ebase, last_slash_none by done. done.
  - rewrite Eb. unfold basename. destruct (Hnn b0) as (x & xs & Ex). rewrite Ex, <- Ex.
    rewrite strip_run, Ecut by (done || lia). cbn [Nat.eqb fst]. rewrite <- Ebase.
    replace (S (length b0)) with (length (@nil Z) + length base)%nat
      by (rewrite Ebase, length_app; cbn [length]; lia).
    change base with ([] ++ base) at 2. rewrite back_to_slash_run by done. done.
  - unfold basename. cbn [replicate].
    assert (H : forall j, (j <= S k)%nat -> strip 0 j (replicate (S k) 47) = 0%nat).
    { induction j as [|j IH]; intros Hj; [done|]. cbn [strip].
      replace (is_slash _ _) with true by (unfold is_slash; by rewrite lookup_replicate_2 by lia).
      cbn [Nat.ltb Nat.leb andb]. apply IH. lia. }
    change (47 :: replicate k 47) with (replicate (S k) 47). rewrite length_replicate, H by lia. done.
Qed.

(** "/usr/lib/": directory "/usr", base "lib". *)
Lemma dirname_basename_split_witness :
  fst (dirname (Some [47; 117; 115; 114; 47; 108; 105; 98; 47])) = [47; 117; 115; 114] /\
  fst (basename (Some [47; 117; 115; 114; 47; 108; 105; 98; 47])) = [108; 105; 98].
Proof.
  destruct (dirname_basename_split [47; 117; 115; 114] [108; 105; 98] 1) as (E1 & E2 & _).
  - discriminate.
  - set_solver.
  - split; [exact E1|exact E2].
Defined.

End Libgen.
