(* ===== verification/Fnmatch.v ===== *)
(** * Fnmatch: the wildcard matcher of src/fnmatch.c

    Patterns and strings are lists of [unsigned char] values without the NUL.
    The matcher backtracks over the split points of ['*']; its recursion is on
    fuel, of which one unit more than the length of the pattern is enough.  The
    matcher decides the relation [glob] on the tokens of the pattern; [FnmatchSpec]
    has the pattern language and the theorem about it. *)

From Stdlib Require Import ZArith Lia Bool.
From stdpp Require Import base sets list numbers.
From S2P Require Import Prelude Ctype.

Module Fnmatch.
Import Ctype.

Abbreviation str := (list Z).

Record fnm_flags := Flags {
  FNM_PATHNAME : bool; FNM_NOESCAPE : bool; FNM_PERIOD : bool;
  FNM_LEADING_DIR : bool; FNM_CASEFOLD : bool
}.

Definition cur (p : str) : Z := default 0 (head p).

Section Matcher.
Context (flags : fnm_flags).

Definition lc (c : Z) : Z := if FNM_CASEFOLD flags then tolower (u8 c) else u8 c.

Definition ch_eq (a b : Z) : bool := lc a =? lc b.

(** The class names, as character codes. *)
Definition class_table : list (str * (Z -> bool)) :=
  [ ([97; 108; 112; 104; 97], isalpha); ([100; 105; 103; 105; 116], isdigit);
    ([97; 108; 110; 117; 109], isalnum); ([115; 112; 97; 99; 101], isspace);
    ([117; 112; 112; 101; 114], isupper); ([108; 111; 119; 101; 114], islower);
    ([112; 117; 110; 99; 116], ispunct); ([99; 110; 116; 114; 108], iscntrl);
    ([112; 114; 105; 110; 116], isprint); ([103; 114; 97; 112; 104], isgraph);
    ([98; 108; 97; 110; 107], fun uc => (uc =? 32) || (uc =? 9));
    ([120; 100; 105; 103; 105; 116], isxdigit) ].

Definition class_match (cls : str) (c : Z) : bool :=
  existsb (fun '(name, f) => bool_decide (cls = name) && f (u8 c)) class_table.

(** The scan for the colon and bracket that close a class: the class name and
    what follows them; [None] at the end of the pattern. *)
Fixpoint find_close (p : str) : option (str * str) :=
  match p with
  | [] => None
  | c :: p' =>
      if (c =? 58) && (cur p' =? 93) then Some ([], tail p')
      else '(name, rest) ← find_close p'; Some (c :: name, rest)
  end.

(** A member character, with its escape. *)
Definition member (p : str) : Z * str :=
  let lo := cur p in
  let p := tail p in
  if (lo =? 92) && negb (FNM_NOESCAPE flags) && negb (cur p =? 0) then (cur p, tail p) else (lo, p).

(** The loop over a bracket expression: [Some None] when it is unterminated,
    otherwise whether [c] is a member and the rest of the pattern. *)
Fixpoint bracket_loop (fuel : nat) (p : str) (c : Z) (matched first : bool)
  : option (option (bool * str)) :=
  match fuel with
  | O => None
  | S fuel =>
      if cur p =? 0 then Some None
      else if (cur p =? 93) && negb first then Some (Some (matched, tail p))
      else if (cur p =? 91) && (cur (tail p) =? 58) then
        match find_close (tail (tail p)) with
        | None => Some None
        | Some (cls, p) => bracket_loop fuel p c (matched || class_match cls c) false
        end
      else
        let '(lo, p) := member p in
        if (cur p =? 45) && negb (cur (tail p) =? 93) && negb (cur (tail p) =? 0) then
          let '(hi, p) := member (tail p) in
          bracket_loop fuel p c (matched || ((lc lo <=? lc c) && (lc c <=? lc hi))) false
        else bracket_loop fuel p c (matched || ch_eq lo c) false
  end.

(** One bracket expression, from just past the ['[']. *)
Definition match_bracket (p : str) (c : Z) : option (option (bool * str)) :=
  let negate := (cur p =? 33) || (cur p =? 94) in
  let p := if negate then tail p else p in
  r ← bracket_loop (S (length p)) p c false true;
  Some (match r with None => None | Some (m, rest) => Some (xorb negate m, rest) end).

(** [period_ok] at the start of a call. *)
Definition period_start (s : str) : bool := negb (FNM_PERIOD flags && (cur s =? 46)).

(** [while (p[1] == '*') p++;], on what follows the first ['*']. *)
Fixpoint skip_stars (p : str) : str :=
  match p with
  | c :: p' => if c =? 42 then skip_stars p' else p
  | [] => p
  end.

(** The loop of the ['*'] case: [inner] is the call on the rest of the pattern. *)
Fixpoint star_loop (inner : str -> option bool) (s : str) : option bool :=
  hit ← inner s;
  if (hit : bool) then Some true
  else
    match s with
    | [] => Some false
    | c :: s => if FNM_PATHNAME flags && (c =? 47) then Some false else star_loop inner s
    end.

Fixpoint match_loop (fuel : nat) (p s : str) (period_ok : bool) : option bool :=
  match fuel with
  | O => None
  | S fuel =>
      match p with
      | [] => Some ((cur s =? 0) || (FNM_LEADING_DIR flags && (cur s =? 47)))
      | pc :: p' =>
          if pc =? 63 then
            if (cur s =? 0) || negb period_ok then Some false
            else if FNM_PATHNAME flags && (cur s =? 47) then Some false
            else match_loop fuel p' (tail s) true
          else if pc =? 42 then
            let p' := skip_stars p' in
            if negb period_ok then Some false
            else star_loop (fun s => match_loop fuel p' s (period_start s)) s
          else if pc =? 91 then
            if (cur s =? 0) || negb period_ok then Some false
            else if FNM_PATHNAME flags && (cur s =? 47) then Some false
            else
              r ← match_bracket p' (cur s);
              match r with
              | None => Some false
              | Some (hit, rest) => if negb hit then Some false else match_loop fuel rest (tail s) true
              end
          else
            let '(pc, p') :=
              if (pc =? 92) && negb (FNM_NOESCAPE flags) && negb (cur p' =? 0)
              then (cur p', tail p') else (pc, p') in
            if negb (ch_eq pc (cur s)) then Some false
            else match_loop fuel p' (tail s) (negb (FNM_PERIOD flags && (pc =? 47) && (cur (tail s) =? 46)))
      end
  end.

Definition fnmatch_inner (p s : str) : option bool := match_loop (S (length p)) p s (period_start s).

End Matcher.

Definition FNM_NOMATCH : Z := 1.

Definition fnmatch (pattern string : option str) (flags : fnm_flags) : option Z :=
  match pattern, string with
  | Some p, Some s => r ← fnmatch_inner flags p s; Some (if (r : bool) then 0 else FNM_NOMATCH)
  | _, _ => Some FNM_NOMATCH
  end.

(** ** What a pattern means *)

(** A literal, ['?'], ['*'], a bracket expression, or one that is not closed. *)
Inductive token := TLit (c : Z) | TAny | TStar | TSet (f : Z -> bool) | TBad.

Section Spec.
Context (flags : fnm_flags).

(** Membership in a bracket expression, and the pattern after it. *)
Definition in_set (p : str) (c : Z) : bool :=
  match match_bracket flags p c with Some (Some (b, _)) => b | _ => false end.

Definition after_set (p : str) : option str :=
  match match_bracket flags p 0 with Some (Some (_, r)) => Some r | _ => None end.

Fixpoint tokens (fuel : nat) (p : str) : list token :=
  match fuel with
  | O => []
  | S fuel =>
      match p with
      | [] => []
      | c :: p =>
          if c =? 63 then TAny :: tokens fuel p
          else if c =? 42 then TStar :: tokens fuel (skip_stars p)
          else if c =? 91 then
            match after_set p with
            | None => [TBad]
            | Some rest => TSet (in_set p) :: tokens fuel rest
            end
          else if (c =? 92) && negb (FNM_NOESCAPE flags) && negb (cur p =? 0)
          then TLit (cur p) :: tokens fuel (tail p)
          else TLit c :: tokens fuel p
      end
  end.

(** A wildcard may match [c]; [lead] says whether a period here is protected. *)
Definition wild_ok (lead : bool) (c : Z) : Prop :=
  ~ (FNM_PERIOD flags = true /\ lead = true /\ c = 46) /\ ~ (FNM_PATHNAME flags = true /\ c = 47).

Inductive glob : bool -> list token -> str -> Prop :=
  | glob_end lead s :
      s = [] \/ (FNM_LEADING_DIR flags = true /\ cur s = 47) -> glob lead [] s
  | glob_any lead c s toks :
      wild_ok lead c -> glob false toks s -> glob lead (TAny :: toks) (c :: s)
  | glob_set lead f c s toks :
      wild_ok lead c -> f c = true -> glob false toks s -> glob lead (TSet f :: toks) (c :: s)
  | glob_star lead run s toks :
      ~ (FNM_PERIOD flags = true /\ lead = true /\ cur (run ++ s) = 46) ->
      (FNM_PATHNAME flags = true -> 47 ∉ run) ->
      glob true toks s -> glob lead (TStar :: toks) (run ++ s)
  | glob_lit lead c d s toks :
      ch_eq flags c d = true -> glob (c =? 47) toks s -> glob lead (TLit c :: toks) (d :: s).

End Spec.

(** ** Strings without NUL *)

Definition nz (p : str) : Prop := Forall (fun c => 0 < c < 256) p.

Lemma cur_zero p : nz p -> (cur p =? 0) = bool_decide (p = []).
Proof.
  intros H. destruct p as [|c p]; [done|]. apply Forall_cons_1 in H as [H _].
  change (cur (c :: p)) with c. rewrite bool_decide_eq_false_2 by done. destruct (Z.eqb_spec c 0); [lia|done].
Qed.

Lemma nz_tail p : nz p -> nz (tail p).
Proof. destruct p; [done|]. by intros [_ H]%Forall_cons_1. Qed.

Lemma nz_suffix p q : q `suffix_of` p -> nz p -> nz q.
Proof. intros [k ->] H. by apply Forall_app in H as [_ H]. Qed.

Lemma suffix_tail (p : str) : tail p `suffix_of` p.
Proof. destruct p; [done|]. cbn. by apply suffix_cons_r. Qed.

Lemma suffix_tail_of (p q : str) : q `suffix_of` p -> tail q `suffix_of` p.
Proof. intros H. etrans; [apply suffix_tail|done]. Qed.

Lemma find_close_suffix p : forall n r, find_close p = Some (n, r) -> r `suffix_of` p /\ (length r < length p)%nat.
Proof.
  induction p as [|c p IH]; intros n r E; cbn [find_close] in E; [done|].
  destruct ((c =? 58) && (cur p =? 93)).
  - simplify_eq. split; [apply suffix_cons_r, suffix_tail|]. cbn. destruct p; cbn; lia.
  - destruct (find_close p) as [[n' r']|]; [|done]. cbn in E. simplify_eq.
    destruct (IH n' r eq_refl). split; [by apply suffix_cons_r|cbn; lia].
Qed.

Lemma member_suffix flags p lo q :
  nz p -> p <> [] -> member flags p = (lo, q) -> q `suffix_of` p /\ (length q < length p)%nat.
Proof.
  intros Hz Hne. unfold member. destruct p as [|c p]; [done|]. cbn [tail].
  case_match; intros; simplify_eq.
  - split; [apply suffix_cons_r, suffix_tail|]. cbn. destruct p; cbn; lia.
  - split; [by apply suffix_cons_r|cbn; lia].
Qed.

(** ** Bracket expressions *)

(** Where a bracket expression ends does not depend on the character. *)
Lemma bracket_loop_spec flags fuel : forall p first,
  (length p < fuel)%nat -> nz p ->
  (forall c m, bracket_loop flags fuel p c m first = Some None) \/
  (exists r, r `suffix_of` p /\ (length r < length p)%nat /\
     forall c m, exists b, bracket_loop flags fuel p c m first = Some (Some (b, r))).
Proof.
  induction fuel as [|fuel IH]; intros p first Hl Hz; [lia|]. cbn [bracket_loop].
  rewrite cur_zero by done. case_bool_decide as Hp; [by left|].
  destruct ((cur p =? 93) && negb first) eqn:E1.
  { right. exists (tail p). split; [apply suffix_tail|]. split; [destruct p; [done|cbn; lia]|eauto]. }
  assert (Hcont : forall q (f : Z -> bool -> bool), q `suffix_of` p -> (length q < length p)%nat ->
    (forall c m, bracket_loop flags fuel q c (f c m) false = Some None) \/
    (exists r, r `suffix_of` p /\ (length r < length p)%nat /\
       forall c m, exists b, bracket_loop flags fuel q c (f c m) false = Some (Some (b, r)))).
  { intros q f Hs Hq. destruct (IH q false) as [H|(r & Hr & Hlr & H)]; [lia|by eapply nz_suffix| |].
    - left. eauto.
    - right. exists r. split; [by etrans|]. split; [lia|eauto]. }
  destruct ((cur p =? 91) && (cur (tail p) =? 58)) eqn:E2.
  - destruct (find_close (tail (tail p))) as [[cls q]|] eqn:Ef; [|by left].
    destruct (find_close_suffix _ _ _ Ef) as [Hs Hq].
    apply (Hcont q (fun c m => m || class_match cls c)).
    + etrans; [done|]. apply suffix_tail_of, suffix_tail.
    + destruct p as [|x [|y p]]; cbn in *; lia.
  - destruct (member flags p) as [lo q] eqn:Em. destruct (member_suffix flags p lo q Hz Hp Em) as [Hs Hq].
    destruct ((cur q =? 45) && negb (cur (tail q) =? 93) && negb (cur (tail q) =? 0)) eqn:E3.
    + destruct (member flags (tail q)) as [hi q2] eqn:Em2.
      assert (Hq2 : tail q <> []).
      { intros E. rewrite E in E3. cbn in E3. by rewrite andb_false_r in E3. }
      destruct (member_suffix flags (tail q) hi q2) as [Hs2 Hl2];
        [by apply nz_tail; eapply nz_suffix|done|done|].
      apply (Hcont q2 (fun c m => m || ((lc flags lo <=? lc flags c) && (lc flags c <=? lc flags hi)))).
      * etrans; [done|]. by apply suffix_tail_of.
      * destruct q as [|x q]; cbn in *; lia.
    + by apply (Hcont q (fun c m => m || ch_eq flags lo c)).
Qed.

Lemma match_bracket_spec flags p :
  nz p ->
  (after_set flags p = None /\ forall c, match_bracket flags p c = Some None) \/
  (exists r, after_set flags p = Some r /\ r `suffix_of` p /\ (length r <= length p)%nat /\
     forall c, match_bracket flags p c = Some (Some (in_set flags p c, r))).
Proof.
  intros Hz. unfold after_set, in_set, match_bracket. set (neg := (cur p =? 33) || (cur p =? 94)).
  set (q := if neg then tail p else p).
  assert (Hq : q `suffix_of` p) by (unfold q; destruct neg; [apply suffix_tail|done]).
  destruct (bracket_loop_spec flags (S (length q)) q true) as [H|(r & Hr & Hl & H)];
    [lia|by eapply nz_suffix| |].
  - left. rewrite H. split; [done|]. intros c. by rewrite H.
  - right. exists r. destruct (H 0 false) as [b0 ->]. cbn [mbind option_bind]. split; [done|].
    split; [by etrans|]. split; [apply suffix_length in Hq; lia|].
    intros c. destruct (H c false) as [b ->]. done.
Qed.

(** ** The matcher decides the relation *)

Section Correct.
Context (flags : fnm_flags).

(** [period_ok] when a period is protected at [s]. *)
Definition pok (lead : bool) (s : str) : bool := negb (FNM_PERIOD flags && lead && (cur s =? 46)).

Lemma pok_spec lead s :
  pok lead s = true <-> ~ (FNM_PERIOD flags = true /\ lead = true /\ cur s = 46).
Proof.
  unfold pok. rewrite negb_true_iff. destruct (FNM_PERIOD flags), lead; cbn [andb];
    (destruct (Z.eqb_spec (cur s) 46); split; [try done|..]; naive_solver).
Qed.

Lemma skip_stars_suffix p : skip_stars p `suffix_of` p.
Proof. induction p as [|c p IH]; [done|]. cbn. case_match; [by apply suffix_cons_r|done]. Qed.

Lemma star_loop_spec (inner : str -> option bool) toks s :
  nz s ->
  (forall s', nz s' -> exists b, inner s' = Some b /\ (b = true <-> glob flags true toks s')) ->
  exists b, star_loop flags inner s = Some b /\
    (b = true <-> exists run s', s = run ++ s' /\ (FNM_PATHNAME flags = true -> 47 ∉ run) /\ glob flags true toks s').
Proof.
  intros Hz Hin. induction s as [|c s IH]; cbn [star_loop].
  - destruct (Hin [] Hz) as (b & -> & Hb). cbn [mbind option_bind]. destruct b.
    + exists true. split; [done|]. split; [|done]. intros _. exists [], []. split; [done|]. split; [set_solver|by apply Hb].
    + exists false. split; [done|]. split; [done|]. intros (run & s' & E & _ & Hg).
      symmetry in E. apply app_nil in E as [-> ->]. by apply Hb in Hg.
  - destruct (Hin (c :: s) Hz) as (b & -> & Hb). cbn [mbind option_bind]. destruct b.
    + exists true. split; [done|]. split; [|done]. intros _. exists [], (c :: s).
      split; [done|]. split; [set_solver|by apply Hb].
    + destruct (FNM_PATHNAME flags && (c =? 47)) eqn:Ep.
      * exists false. split; [done|]. split; [done|]. intros (run & s' & E & Hp & Hg).
        apply andb_true_iff in Ep as [Ep ->%Z.eqb_eq].
        destruct run as [|x run]; cbn in E; simplify_eq; [by apply Hb in Hg|]. specialize (Hp Ep). set_solver.
      * apply Forall_cons_1 in Hz as [Hc Hz]. destruct (IH Hz) as (b & -> & Hb'). exists b. split; [done|].
        rewrite Hb'. split.
        -- intros (run & s' & -> & Hp & Hg). exists (c :: run), s'. split; [done|]. split; [|done].
           intros Hpn. rewrite Hpn in Ep. cbn in Ep. apply Z.eqb_neq in Ep.
           rewrite elem_of_cons. intros [?|?]; [done|by apply (Hp Hpn)].
        -- intros (run & s' & E & Hp & Hg). destruct run as [|x run]; cbn in E; simplify_eq; [by apply Hb in Hg|].
           exists run, s'. split; [done|]. split; [|done]. intros Hpn Hin'. apply (Hp Hpn). set_solver.
Qed.

(** [match_loop] answers, and its answer is the relation. *)
Definition decides (r : option bool) (P : Prop) : Prop := exists b, r = Some b /\ (b = true <-> P).

Lemma decides_no (P : Prop) : ~ P -> decides (Some false) P.
Proof. intros H. exists false. split; [done|]. split; [done|]. intros HP. by destruct H. Qed.

Lemma decides_iff r (P Q : Prop) : decides r P -> (P <-> Q) -> decides r Q.
Proof. intros (b & -> & H) HPQ. exists b. by rewrite <- HPQ. Qed.

(** The guards of ['?'] and ['[']. *)
Lemma wild_guard lead s r (P : Prop) :
  nz s -> (P -> exists c s', s = c :: s' /\ wild_ok flags lead c) ->
  (forall c s', s = c :: s' -> wild_ok flags lead c -> decides r P) ->
  decides (if (cur s =? 0) || negb (pok lead s) then Some false
           else if FNM_PATHNAME flags && (cur s =? 47) then Some false else r) P.
Proof.
  intros Hz HP Hr. rewrite cur_zero by done. destruct s as [|c s'].
  { cbn. apply decides_no. intros (c & s' & E & _)%HP. done. }
  rewrite bool_decide_eq_false_2 by done. cbn [orb]. change (cur (c :: s')) with c in *.
  destruct (pok lead (c :: s')) eqn:Hpk; cbn [negb].
  2:{ apply decides_no. intros (c' & s1 & E & [Hw _])%HP. simplify_eq.
      apply not_true_iff_false in Hpk. apply Hpk, pok_spec. done. }
  apply pok_spec in Hpk. destruct (FNM_PATHNAME flags && (c =? 47)) eqn:Ep.
  { apply andb_true_iff in Ep as [Ep ->%Z.eqb_eq]. apply decides_no.
    intros (c' & s1 & E & [_ Hw])%HP. simplify_eq. by apply Hw. }
  apply (Hr c s'); [done|]. split; [done|]. intros [H1 ->]. by rewrite H1 in Ep.
Qed.

Lemma lc_nonzero c : 0 < c < 256 -> lc flags c <> 0.
Proof.
  intros H. unfold lc, tolower. rewrite u8_small by lia. destruct (FNM_CASEFOLD flags); [|lia].
  case_match; lia.
Qed.

(** A literal character. *)
Lemma lit_case fuel p s lead c :
  0 < c < 256 -> nz s ->
  (forall s' lead', nz s' -> decides (match_loop flags fuel p s' (pok lead' s')) (glob flags lead' (tokens flags fuel p) s')) ->
  decides (if negb (ch_eq flags c (cur s)) then Some false
           else match_loop flags fuel p (tail s) (negb (FNM_PERIOD flags && (c =? 47) && (cur (tail s) =? 46))))
          (glob flags lead (TLit c :: tokens flags fuel p) s).
Proof.
  intros Hc Hz IH. destruct s as [|d s'].
  { replace (ch_eq flags c (cur [])) with false.
    - cbn [negb]. apply decides_no. intros H. inversion H.
    - symmetry. apply Z.eqb_neq. replace (lc flags (cur [])) with 0; [by apply lc_nonzero|].
      unfold lc. by destruct (FNM_CASEFOLD flags). }
  change (cur (d :: s')) with d. destruct (ch_eq flags c d) eqn:E; cbn [negb].
  2:{ apply decides_no. intros H. inversion H; subst. congruence. }
  cbn [tail]. eapply decides_iff; [apply (IH s' (c =? 47)); by apply (nz_tail (d :: s'))|].
  split; [by constructor|]. intros H. by inversion H; subst.
Qed.

Lemma match_loop_spec fuel : forall p s lead,
  (length p < fuel)%nat -> nz p -> nz s ->
  decides (match_loop flags fuel p s (pok lead s)) (glob flags lead (tokens flags fuel p) s).
Proof.
  induction fuel as [|fuel IH]; intros p s lead Hl Hp Hs; [lia|].
  destruct p as [|c p]; cbn [match_loop tokens].
  { exists ((cur s =? 0) || (FNM_LEADING_DIR flags && (cur s =? 47))). split; [done|].
    rewrite cur_zero, orb_true_iff, bool_decide_eq_true, andb_true_iff, Z.eqb_eq by done.
    split; [by constructor|]. intros H. by inversion H. }
  cbn [length] in Hl. apply Forall_cons_1 in Hp as [Hc Hp].
  destruct (c =? 63).
  { apply wild_guard; [done| |].
    - intros H. inversion H; subst. eauto.
    - intros x s' -> Hw. cbn [tail]. apply Forall_cons_1 in Hs as [_ Hs].
      eapply decides_iff; [replace true with (pok false s') by (unfold pok; by rewrite andb_false_r); apply IH; done || lia|].
      split; [by constructor|]. intros H. by inversion H; subst. }
  destruct (c =? 42).
  { cbv zeta. pose proof (skip_stars_suffix p) as Hss. pose proof (suffix_length _ _ Hss) as Hsl.
    destruct (pok lead s) eqn:Hpk; cbn [negb].
    2:{ apply decides_no. intros H. inversion H; subst. apply not_true_iff_false in Hpk. by apply Hpk, pok_spec. }
    destruct (star_loop_spec (fun s => match_loop flags fuel (skip_stars p) s (period_start flags s))
      (tokens flags fuel (skip_stars p)) s Hs) as (b & -> & Hb).
    { intros s' Hs'. replace (period_start flags s') with (pok true s')
        by (unfold pok, period_start; by rewrite andb_true_r).
      apply IH; [lia|by eapply nz_suffix|done]. }
    exists b. split; [done|]. rewrite Hb. apply pok_spec in Hpk. split.
    - intros (run & s' & -> & H1 & H2). by constructor.
    - intros H. inversion H; subst. eauto. }
  destruct (c =? 91).
  { destruct (match_bracket_spec flags p Hp) as [[-> Hm]|(r & -> & Hr & Hlr & Hm)].
    - apply wild_guard; [done|by intros H; inversion H|]. intros x s' -> Hw. rewrite Hm. cbn [mbind option_bind].
      apply decides_no. intros H. inversion H.
    - apply wild_guard; [done|intros H; inversion H; subst; eauto|].
      intros x s' -> Hw. change (cur (x :: s')) with x. rewrite Hm. cbn [mbind option_bind tail].
      destruct (in_set flags p x) eqn:Ei; cbn [negb].
      + apply Forall_cons_1 in Hs as [_ Hs].
        eapply decides_iff; [replace true with (pok false s') by (unfold pok; by rewrite andb_false_r);
          apply IH; [lia|by eapply nz_suffix|done]|].
        split; [by constructor|]. intros H. by inversion H; subst.
      + apply decides_no. intros H. inversion H; subst. congruence. }
  destruct ((c =? 92) && negb (FNM_NOESCAPE flags) && negb (cur p =? 0)) eqn:Ee.
  - apply andb_true_iff in Ee as [_ Ee]. rewrite cur_zero in Ee by done.
    destruct p as [|d p]; [done|]. change (cur (d :: p)) with d. cbn [tail].
    apply Forall_cons_1 in Hp as [Hd Hp]. cbn [length] in Hl.
    apply lit_case; [done|done|]. intros s' lead' Hs'. apply IH; done || lia.
  - apply lit_case; [done|done|]. intros s' lead' Hs'. apply IH; done || lia.
Qed.

End Correct.

Lemma fnmatch_decides flags p s : nz p -> nz s ->
  decides (fnmatch_inner flags p s) (glob flags true (tokens flags (S (length p)) p) s).
Proof.
  intros Hp Hs. unfold fnmatch_inner.
  replace (period_start flags s) with (pok flags true s) by (unfold pok, period_start; by rewrite andb_true_r).
  by apply match_loop_spec; [lia|..].
Qed.

Lemma fnmatch_answers flags p s : nz p -> nz s ->
  fnmatch (Some p) (Some s) flags = Some 0 \/ fnmatch (Some p) (Some s) flags = Some FNM_NOMATCH.
Proof. intros Hp Hs. unfold fnmatch. destruct (fnmatch_decides flags p s Hp Hs) as ([] & -> & _); auto. Qed.

(** After a ['*'] every period is protected, not only a leading one: "*?c" does
    not match "a.c" under FNM_PERIOD, although the period there is an ordinary
    character that "a?c" matches. *)
Theorem fnmatch_period_after_star :
  let flags := Flags false false true false false in
  fnmatch (Some [97; 63; 99]) (Some [97; 46; 99]) flags = Some 0 /\
  fnmatch (Some [42; 63; 99]) (Some [97; 46; 99]) flags = Some FNM_NOMATCH.
Proof. vm_compute. split; reflexivity. Qed.

End Fnmatch.
