(* ===== verification/FnmatchSpec.v ===== *)
(** * FnmatchSpec: the pattern language of [fnmatch]

    The language the matcher of [Fnmatch] accepts, written without it: the pieces
    of a pattern and the texts that spell them, the characters a bracket
    expression has, with the classes as ranges, and the strings a list of pieces
    matches. *)

From Stdlib Require Import ZArith Lia Bool String Ascii.
From stdpp Require Import base sets list numbers.
From S2P Require Import Prelude Ctype Fnmatch.

Module FnmatchSpec.
Import Ctype Fnmatch.

(** ** The language *)

(** A member of a bracket expression: a character, a range, a class by its name. *)
Inductive item := IChar (a : Z) | IRange (lo hi : Z) | IClass (name : str).
Inductive piece := Lit (c : Z) | Any | Star | Set_ (neg : bool) (its : list item).

Section Language.
Context (flags : fnm_flags).

(** Upper case counts as lower case under FNM_CASEFOLD. *)
Definition fold (c : Z) : Z := if FNM_CASEFOLD flags && within [(65, 90)] c then c + 32 else c.

Definition has (c : Z) (it : item) : bool :=
  match it with
  | IChar a => fold a =? fold c
  | IRange lo hi => within [(fold lo, fold hi)] (fold c)
  | IClass name => existsb (fun '(n, rs) => bool_decide (name = codes n) && within rs c) classes
  end.

(** A member is a character, or a backslash and a character. *)
Inductive spells_member : str -> Z -> str -> Prop :=
| member_plain c p : (c = 92 -> FNM_NOESCAPE flags = true) -> spells_member (c :: p) c p
| member_escape c p : FNM_NOESCAPE flags = false -> spells_member (92 :: c :: p) c p.

(** Neither the end of the expression, which it is not at its first place, nor a
    class. *)
Definition opens (first : bool) (p : str) : Prop := ~ (first = false /\ cur p = 93) /\ ~ (cur p = 91 /\ cur (tail p) = 58).

(** The text after the bracket spells the items and leaves the rest; a hyphen
    makes a range unless the closing bracket follows it. *)
Inductive spells_set : bool -> str -> list item -> str -> Prop :=
| set_close r : spells_set false (93 :: r) [] r
| set_class first name p its r :
    58 ∉ name -> spells_set false p its r -> spells_set first (91 :: 58 :: name ++ 58 :: 93 :: p) (IClass name :: its) r
| set_range first p lo q hi p' its r :
    opens first p -> spells_member p lo (45 :: q) -> cur q <> 93 -> spells_member q hi p' ->
    spells_set false p' its r -> spells_set first p (IRange lo hi :: its) r
| set_char first p c p' its r :
    opens first p -> spells_member p c p' -> (cur p' = 45 -> cur (tail p') = 93) ->
    spells_set false p' its r -> spells_set first p (IChar c :: its) r.

(** The texts of a pattern. *)
Inductive spells : str -> list piece -> Prop :=
| spells_end : spells [] []
| spells_any p ts : spells p ts -> spells (63 :: p) (Any :: ts)
| spells_star n p ts : cur p <> 42 -> spells p ts -> spells (42 :: repeat 42 n ++ p) (Star :: ts)
| spells_bracket p its r ts :
    cur p <> 33 -> cur p <> 94 -> spells_set true p its r -> spells r ts -> spells (91 :: p) (Set_ false its :: ts)
| spells_negated x p its r ts :
    x = 33 \/ x = 94 -> spells_set true p its r -> spells r ts -> spells (91 :: x :: p) (Set_ true its :: ts)
| spells_lit c p ts :
    c <> 63 -> c <> 42 -> c <> 91 -> (c = 92 -> FNM_NOESCAPE flags = true) -> spells p ts -> spells (c :: p) (Lit c :: ts)
| spells_escape c p ts : FNM_NOESCAPE flags = false -> spells p ts -> spells (92 :: c :: p) (Lit c :: ts).

(** A period is leading at the start of the string and after a slash of the
    pattern; no wildcard matches it under FNM_PERIOD, and none matches a slash
    under FNM_PATHNAME. *)
Definition guarded (lead : bool) (c : Z) : Prop := (FNM_PERIOD flags = true /\ lead = true /\ c = 46) \/ (FNM_PATHNAME flags = true /\ c = 47).

Inductive matches : bool -> list piece -> str -> Prop :=
| matches_end lead : matches lead [] []
| matches_dir lead s : FNM_LEADING_DIR flags = true -> matches lead [] (47 :: s)
| matches_lit lead c d ts s : fold c = fold d -> matches (c =? 47) ts s -> matches lead (Lit c :: ts) (d :: s)
| matches_any lead d ts s : ~ guarded lead d -> matches false ts s -> matches lead (Any :: ts) (d :: s)
| matches_set lead neg its d ts s :
    ~ guarded lead d -> existsb (has d) its = negb neg -> matches false ts s -> matches lead (Set_ neg its :: ts) (d :: s)
| matches_star lead run ts s :
    ~ (FNM_PERIOD flags = true /\ lead = true /\ cur (run ++ s) = 46) -> (FNM_PATHNAME flags = true -> 47 ∉ run) ->
    matches (lead && bool_decide (run = [])) ts s -> matches lead (Star :: ts) (run ++ s).

(** No star is directly before another wildcard. *)
Fixpoint spaced (ts : list piece) : Prop :=
  match ts with
  | [] => True
  | Star :: ((Any :: _ | Set_ _ _ :: _) as ts) => False
  | _ :: ts => spaced ts
  end.
End Language.

(** ** Characters and classes *)

Ltac class_check c :=
  match goal with |- ?l = within ?rs c =>
    let f := eval pattern c in l in match f with ?g c => apply (byte_check g (within rs)); [vm_compute; reflexivity|done] end end.

Lemma class_has name c : 0 <= c < 256 ->
  class_match name c = existsb (fun '(n, rs) => bool_decide (name = codes n) && within rs c) classes.
Proof.
  intros Hc. unfold class_match, class_table, classes. cbn [existsb]. rewrite u8_small by lia.
  repeat match goal with |- context [codes ?s] => let v := eval vm_compute in (codes s) in change (codes s) with v end.
  rewrite !orb_false_r. do 11 (f_equal; [f_equal; class_check c|]). f_equal. class_check c.
Qed.

Section Proofs.
Context (flags : fnm_flags).

Lemma lc_fold c : 0 <= c < 256 -> lc flags c = fold flags c.
Proof.
  intros Hc. unfold lc, fold, within. rewrite u8_small by lia. destruct (FNM_CASEFOLD flags); [|done].
  unfold Ctype.tolower. cbn [existsb andb]. rewrite orb_false_r, Z.geb_leb. done.
Qed.

Lemma nz_parts c p : nz (c :: p) -> 0 < c < 256 /\ nz p.
Proof. by intros [Hc Hp]%Forall_cons_1. Qed.

Lemma member_spelled p c q : spells_member flags p c q -> nz p -> member flags p = (c, q) /\ 0 < c < 256 /\ nz q /\ (length q < length p)%nat /\ p <> [].
Proof.
  intros H Hz. unfold member. inversion H; subst; cbv zeta; cbn [tail].
  - apply nz_parts in Hz as [Hc Hz]. change (cur (c :: q)) with c. destruct (Z.eqb_spec c 92) as [->|]; [rewrite (H0 eq_refl)|]; cbn; split_and!; (done || lia).
  - apply nz_parts in Hz as [_ Hz]. apply nz_parts in Hz as [Hc Hz]. rewrite H0. change (cur (92 :: c :: q)) with 92. change (cur (c :: q)) with c.
    rewrite (proj2 (Z.eqb_neq c 0)) by lia. cbn. split_and!; (done || lia).
Qed.

Lemma find_close_spelled name p : 58 ∉ name -> find_close (name ++ 58 :: 93 :: p) = Some (name, p).
Proof.
  induction name as [|c name IH]; intros Hn; cbn [app find_close]; [done|]. apply not_elem_of_cons in Hn as [Hc Hn].
  rewrite (proj2 (Z.eqb_neq c 58)) by done. cbn [andb]. by rewrite IH.
Qed.

Lemma opens_tests first p : opens first p -> ((cur p =? 93) && negb first) = false /\ ((cur p =? 91) && (cur (tail p) =? 58)) = false.
Proof.
  intros [H1 H2]. split; apply andb_false_iff.
  - destruct first; [by right|]. left. apply Z.eqb_neq. naive_solver.
  - destruct (Z.eqb_spec (cur p) 91); [|by left]. right. apply Z.eqb_neq. naive_solver.
Qed.

(** The loop over a bracket expression finds its members. *)
Lemma bracket_spelled first p its r : spells_set flags first p its r -> forall fuel c m,
  nz p -> 0 < c < 256 -> (length p < fuel)%nat ->
  bracket_loop flags fuel p c m first = Some (Some (m || existsb (has flags c) its, r)) /\ nz r /\ (length r < length p)%nat.
Proof.
  induction 1 as [r|first name p its r Hn _ IH|first p lo q hi p' its r Ho Hlo Hq Hhi _ IH|first p a p' its r Ho Ha Hh _ IH]; intros [|fuel] c m Hz Hc Hf; try lia; cbn [bracket_loop].
  - apply nz_parts in Hz as [_ Hz]. cbn. rewrite orb_false_r. split_and!; (done || lia).
  - cbn [tail cur head default]. change (default 0 (Some 91) =? 0) with false. change (default 0 (Some 91) =? 93) with false.
    change ((default 0 (Some 91) =? 91) && (default 0 (Some 58) =? 58)) with true. cbn [andb]. cbv iota. rewrite find_close_spelled by done.
    do 2 apply nz_parts in Hz as [_ Hz]. apply Forall_app in Hz as [_ Hz]. do 2 apply nz_parts in Hz as [_ Hz]. cbn [length] in Hf. rewrite length_app in Hf. cbn [length] in Hf.
    destruct (IH fuel c (m || class_match name c) Hz Hc ltac:(lia)) as (-> & Hr & Hl). cbn [existsb has]. rewrite class_has, orb_assoc by lia.
    split_and!; [done|done|]. cbn [length]. rewrite length_app. cbn [length]. lia.
  - destruct (opens_tests _ _ Ho) as [-> ->]. destruct (member_spelled _ _ _ Hlo Hz) as (-> & Hl1 & Hz1 & Hn1 & Hp). apply nz_parts in Hz1 as [_ Hz1].
    destruct (member_spelled _ _ _ Hhi Hz1) as (E2 & Hl2 & Hz2 & Hn2 & Hq0). rewrite cur_zero, bool_decide_eq_false_2 by done. cbn [tail length] in *.
    rewrite (cur_zero q), (bool_decide_eq_false_2 (q = [])), (proj2 (Z.eqb_neq (cur q) 93)) by done. change (cur (45 :: q) =? 45) with true. cbn [negb andb]. rewrite E2.
    destruct (IH fuel c (m || ((lc flags lo <=? lc flags c) && (lc flags c <=? lc flags hi))) Hz2 Hc ltac:(lia)) as (-> & Hr & Hl).
    cbn [existsb has within]. rewrite !lc_fold, orb_false_r, orb_assoc by lia. split_and!; (done || lia).
  - destruct (opens_tests _ _ Ho) as [-> ->]. destruct (member_spelled _ _ _ Ha Hz) as (-> & Hl1 & Hz1 & Hn1 & Hp). rewrite cur_zero, bool_decide_eq_false_2 by done.
    assert ((cur p' =? 45) && negb (cur (tail p') =? 93) && negb (cur (tail p') =? 0) = false) as ->.
    { destruct (Z.eqb_spec (cur p') 45) as [E|]; [|done]. rewrite (Hh E). done. }
    destruct (IH fuel c (m || ch_eq flags a c) Hz1 Hc ltac:(lia)) as (-> & Hr & Hl). cbn [existsb has]. unfold ch_eq. rewrite !lc_fold, orb_assoc by lia. split_and!; (done || lia).
Qed.

(** A whole bracket expression, from past the bracket and the negation. *)
Lemma set_spelled (neg : bool) p its r : spells_set flags true p its r -> nz p ->
  (neg = false -> cur p <> 33 /\ cur p <> 94) ->
  forall x, x = 33 \/ x = 94 -> let q := if neg then x :: p else p in
  after_set flags q = Some r /\ nz r /\ (length r <= length q)%nat /\ forall c, 0 < c < 256 -> in_set flags q c = xorb neg (existsb (has flags c) its).
Proof.
  intros Hs Hz Hn x Hx q.
  assert (E : forall c, match_bracket flags q c = (r ← bracket_loop flags (S (length p)) p c false true; Some (match r with None => None | Some (m, rest) => Some (xorb neg m, rest) end))).
  { intros c. unfold match_bracket, q. destruct neg.
    - change (cur (x :: p)) with x. destruct Hx as [-> | ->]; done.
    - destruct (Hn eq_refl). rewrite (proj2 (Z.eqb_neq (cur p) 33)), (proj2 (Z.eqb_neq (cur p) 94)) by done. done. }
  destruct (bracket_spelled _ _ _ _ Hs (S (length p)) 1 false Hz ltac:(lia) ltac:(lia)) as (_ & Hr & Hl).
  destruct (match_bracket_spec flags q) as [[_ E1]|(r' & A & _ & _ & E1)].
  { unfold q. destruct neg; [constructor; [lia|done]|done]. }
  { specialize (E1 1). rewrite E in E1. destruct (bracket_spelled _ _ _ _ Hs (S (length p)) 1 false Hz ltac:(lia) ltac:(lia)) as (E2 & _). by rewrite E2 in E1. }
  assert (E3 : forall c, 0 < c < 256 -> in_set flags q c = xorb neg (existsb (has flags c) its) /\ r' = r).
  { intros c Hc. specialize (E1 c). rewrite E in E1. destruct (bracket_spelled _ _ _ _ Hs (S (length p)) c false Hz Hc ltac:(lia)) as (E2 & _). rewrite E2 in E1. cbn in E1. by simplify_eq. }
  destruct (E3 1 ltac:(lia)) as [_ ->]. split_and!; [done|done|unfold q; destruct neg; cbn; lia|]. intros c Hc. by apply E3.
Qed.

(** ** The tokens of a text *)

Definition means (t : token) (x : piece) : Prop :=
  match t, x with
  | TLit c, Lit d => c = d /\ 0 < c < 256
  | TAny, Any | TStar, Star => True
  | TSet f, Set_ neg its => forall c, 0 < c < 256 -> f c = xorb neg (existsb (has flags c) its)
  | _, _ => False
  end.

Lemma skip_stars_repeat n p : cur p <> 42 -> skip_stars (repeat 42 n ++ p) = p.
Proof.
  intros Hp. induction n as [|n IH]; cbn [repeat app skip_stars]; [|done].
  destruct p as [|c p]; [done|]. cbn. by rewrite (proj2 (Z.eqb_neq c 42)).
Qed.

Lemma tokens_spelled p ts : spells flags p ts -> nz p -> forall fuel, (length p < fuel)%nat -> Forall2 means (tokens flags fuel p) ts.
Proof.
  induction 1 as [|p ts _ IH|n p ts Hp _ IH|p its r ts H1 H2 Hs _ IH|x p its r ts Hx Hs _ IH|c p ts H1 H2 H3 He _ IH|c p ts He _ IH]; intros Hz [|fuel] Hf; try lia; cbn [tokens].
  - constructor.
  - apply nz_parts in Hz as [_ Hz]. cbn in *. constructor; [done|]. apply IH; [done|lia].
  - apply nz_parts in Hz as [_ Hz]. change (42 =? 63) with false. change (42 =? 42) with true. cbv iota. rewrite skip_stars_repeat by done.
    apply Forall_app in Hz as [_ Hz]. constructor; [done|]. apply IH; [done|]. cbn in Hf. rewrite length_app in Hf. lia.
  - apply nz_parts in Hz as [_ Hz]. change (91 =? 63) with false. change (91 =? 42) with false. change (91 =? 91) with true. cbv iota.
    destruct (set_spelled false p its r Hs Hz ltac:(done) 33 ltac:(by left)) as (A & Hr & Hl & Hi). cbv iota in A, Hl, Hi. rewrite A. constructor; [exact Hi|]. apply IH; [done|cbn in Hf; lia].
  - apply nz_parts in Hz as [_ Hz]. apply nz_parts in Hz as [_ Hz]. change (91 =? 63) with false. change (91 =? 42) with false. change (91 =? 91) with true. cbv iota.
    destruct (set_spelled true p its r Hs Hz ltac:(done) x Hx) as (A & Hr & Hl & Hi). cbv iota in A, Hl, Hi. rewrite A. constructor; [exact Hi|]. apply IH; [done|cbn in *; lia].
  - apply nz_parts in Hz as [Hc Hz]. rewrite (proj2 (Z.eqb_neq c 63)), (proj2 (Z.eqb_neq c 42)), (proj2 (Z.eqb_neq c 91)) by done.
    assert ((c =? 92) && negb (FNM_NOESCAPE flags) && negb (cur p =? 0) = false) as -> by (destruct (Z.eqb_spec c 92) as [E|]; [by rewrite (He E)|done]).
    constructor; [done|]. apply IH; [done|cbn in Hf; lia].
  - apply nz_parts in Hz as [_ Hz]. apply nz_parts in Hz as [Hc Hz]. change (92 =? 63) with false. change (92 =? 42) with false. change (92 =? 91) with false. change (92 =? 92) with true. cbv iota.
    rewrite He. change (cur (c :: p)) with c. rewrite (proj2 (Z.eqb_neq c 0)) by lia. cbn [negb andb tail]. constructor; [done|]. apply IH; [done|cbn in Hf; lia].
Qed.

(** ** The two relations *)

Lemma guard_ok lead c : wild_ok flags lead c <-> ~ guarded flags lead c.
Proof. unfold wild_ok, guarded. naive_solver. Qed.

(** Before a literal or the end it does not matter whether a period is leading. *)
Lemma lead_free l l' toks s :
  FNM_PERIOD flags = false \/ (match toks with [] | TLit _ :: _ => True | _ => False end) -> glob flags l toks s -> glob flags l' toks s.
Proof.
  intros H G. inversion G; subst; try (by constructor).
  - destruct H as [H|[]]. constructor; [|done]. unfold wild_ok in *. rewrite H. naive_solver.
  - destruct H as [H|[]]. constructor; [|done|done]. unfold wild_ok in *. rewrite H. naive_solver.
  - destruct H as [H|[]]. constructor; [rewrite H; naive_solver|done|done].
Qed.

Lemma spaced_tail x ts : spaced (x :: ts) -> spaced ts.
Proof. destruct x; try done. by destruct ts as [|[] ?]. Qed.

(** The tokens of a text never have two stars in a row. *)
Definition no_double (ts : list piece) : Prop := forall a b, ts <> a ++ Star :: Star :: b.

Lemma no_double_tail x ts : no_double (x :: ts) -> no_double ts.
Proof. intros H a b ->. by apply (H (x :: a) b). Qed.

Lemma spells_no_double p ts : spells flags p ts -> no_double ts.
Proof.
  assert (C : forall x ts, no_double ts -> (x = Star -> head ts <> Some Star) -> no_double (x :: ts)).
  { intros x ts' H Hx [|y a] b E; cbn in E; simplify_eq; [by apply Hx|]. by apply (H a b). }
  induction 1 as [|p ts _ IH|n p ts Hp Hs IH|p its r ts H1 H2 Hs _ IH|x p its r ts Hx Hs _ IH|c p ts H1 H2 H3 He _ IH|c p ts He _ IH]; try (by apply C).
  - by intros [|] b.
  - apply C; [done|]. intros _. inversion Hs; subst; try done.
Qed.

Lemma globs_match ts : forall toks lead s, Forall2 means toks ts -> nz s -> no_double ts -> (FNM_PERIOD flags = true -> spaced ts) ->
  (glob flags lead toks s <-> matches flags lead ts s).
Proof.
  induction ts as [|x ts IH]; intros toks lead s HF Hz Hd Hp.
  - apply Forall2_nil_inv_r in HF as ->. split.
    + inversion 1 as [? ? [->|[Hl Hc]]| | | |]; subst; [constructor|]. destruct s as [|d s]; [done|]. cbn in Hc. subst. by constructor.
    + inversion 1; subst; constructor; [by left|by right].
  - apply Forall2_cons_inv_r in HF as (t & toks' & Ht & HF & ->). apply no_double_tail in Hd as Hd'.
    assert (Hp' : FNM_PERIOD flags = true -> spaced ts) by (intros E; by apply (spaced_tail x), Hp).
    destruct x as [c| | |neg its], t as [d| | |f|]; try done; cbn in Ht.
    + destruct Ht as [-> Hc]. split; intros G; inversion G; subst; match goal with H : nz (_ :: _) |- _ => apply nz_parts in H as [? ?] end.
      * constructor; [|by apply (IH toks')]. unfold ch_eq in *. match goal with H : (_ =? _) = true |- _ => apply Z.eqb_eq in H; rewrite !lc_fold in H by lia; done end.
      * constructor; [|by apply (IH toks')]. unfold ch_eq. rewrite !lc_fold by lia. by apply Z.eqb_eq.
    + split; intros G; inversion G; subst; match goal with H : nz (_ :: _) |- _ => apply nz_parts in H as [? ?] end; (constructor; [by apply guard_ok|by apply (IH toks')]).
    + split; intros G; inversion G; subst.
      * apply Forall_app in Hz as [_ Hz]. constructor; [done|done|]. apply (IH toks'); [done..|]. apply (lead_free true); [|done].
        destruct (FNM_PERIOD flags) eqn:E; [right|by left]. specialize (Hp eq_refl). destruct HF as [|t y ? ? Hty]; [done|]. destruct t, y; try done. exfalso. by apply (Hd [] l').
      * apply Forall_app in Hz as [_ Hz]. constructor; [done|done|]. eapply lead_free; [|by apply (IH toks')].
        destruct (FNM_PERIOD flags) eqn:E; [right|by left]. specialize (Hp eq_refl). destruct HF as [|t y ? ? Hty]; [done|]. destruct t, y; try done. exfalso. by apply (Hd [] l').
    + split; intros G; inversion G; subst; match goal with H : nz (_ :: _) |- _ => apply nz_parts in H as [? ?] end.
      * constructor; [by apply guard_ok| |by apply (IH toks')]. match goal with H : f _ = true |- _ => rewrite Ht in H by lia; revert H end. by destruct neg, (existsb _ _).
      * constructor; [by apply guard_ok| |by apply (IH toks')]. rewrite Ht by lia. match goal with H : existsb _ _ = _ |- _ => rewrite H end. by destruct neg.
Qed.
End Proofs.

(** C36: for every text of a pattern, with escapes, runs of stars, closed bracket
    expressions with ranges and classes, negated or not, and all the flags,
    [fnmatch] answers, with 0 exactly when the string is one that the pattern
    matches: no wildcard matches a leading period under FNM_PERIOD or a slash
    under FNM_PATHNAME, and backtracking misses no split.  Under FNM_PERIOD the
    pattern has no star directly before another wildcard, where the code takes
    later periods for leading ones ([fnmatch_period_after_star]); the strings and
    texts have no NUL. *)
Theorem fnmatch_correct flags p ts s :
  nz p -> nz s -> spells flags p ts -> (FNM_PERIOD flags = true -> spaced ts) ->
  (fnmatch (Some p) (Some s) flags = Some 0 /\ matches flags true ts s) \/
  (fnmatch (Some p) (Some s) flags = Some FNM_NOMATCH /\ ~ matches flags true ts s).
Proof.
  intros Hp Hs Ht Hq. pose proof (globs_match flags ts _ true s (tokens_spelled flags p ts Ht Hp (S (length p)) ltac:(lia)) Hs (spells_no_double flags p ts Ht) Hq) as G.
  unfold fnmatch. destruct (fnmatch_decides flags p s Hp Hs) as (b & -> & Hb). cbn [mbind option_bind]. destruct b; [left|right]; (split; [done|]).
  - by apply G, Hb.
  - intros H. by apply G, Hb in H.
Qed.

(** "*.[ch]" matches "a.c", under FNM_PERIOD and FNM_PATHNAME. *)
Lemma fnmatch_correct_witness :
  matches (Flags true false true false false) true [Star; Lit 46; Set_ false [IChar 99; IChar 104]] [97; 46; 99].
Proof.
  destruct (fnmatch_correct (Flags true false true false false) [42; 46; 91; 99; 104; 93] [Star; Lit 46; Set_ false [IChar 99; IChar 104]] [97; 46; 99]) as [[_ H]|[H _]].
  - repeat constructor; lia.
  - repeat constructor; lia.
  - apply (spells_star _ 0); [done|]. apply spells_lit; [done..|]. apply (spells_bracket _ _ _ []); [done..| |constructor].
    apply (set_char _ _ _ 99 [104; 93]); [split; naive_solver|by constructor|done|].
    apply (set_char _ _ _ 104 [93]); [split; naive_solver|by constructor|done|]. constructor.
  - done.
  - exact H.
  - exfalso. revert H. vm_compute. discriminate.
Defined.
End FnmatchSpec.
