(* ===== verification/Getopt.v ===== *)
(** * Getopt: the option scanner of src/getopt.c

    The scanner's static and global variables are one record; [argv] is the
    array of argument strings it permutes, a string being the list of its
    characters without the NUL.  [nextchar] is the rest of the current cluster
    of short options, [None] for a null pointer.  The text the scanner writes
    to file descriptor 2 and the stores through a long option's [flag] pointer
    are recorded.  [None] stands for an access outside [argv]. *)

From Stdlib Require Import ZArith Lia Bool.
From stdpp Require Import base sets list numbers.
From S2P Require Import Prelude.

Module Getopt.

Abbreviation str := (list Z).

Record gstate := Gstate {
  argv : list str;
  optarg : option str; optind : Z; opterr : bool; optopt : Z;
  nextchar : option str; first_nonopt : Z; last_nonopt : Z;
  stderr_text : list str; flag_stores : list (Z * Z); long_idx : option Z
}.

Inductive arg_kind := no_argument | required_argument | optional_argument.

(** [flag] is the address it points to, or [None]. *)
Record long_option := LongOption { lname : str; has_arg : arg_kind; flag : option Z; val : Z }.

Definition cur (p : str) : Z := default 0 (head p).

Definition argc (s : gstate) : Z := Z.of_nat (length (argv s)).

(** Reading [argv[i]]. *)
Definition arg_at (s : gstate) (i : Z) : option str :=
  if i <? 0 then None else argv s !! Z.to_nat i.

(** ** Updates of the variables *)

Definition set_optind (v : Z) (s : gstate) : gstate :=
  Gstate (argv s) (optarg s) v (opterr s) (optopt s) (nextchar s) (first_nonopt s) (last_nonopt s)
         (stderr_text s) (flag_stores s) (long_idx s).
Definition set_nonopts (f l : Z) (s : gstate) : gstate :=
  Gstate (argv s) (optarg s) (optind s) (opterr s) (optopt s) (nextchar s) f l
         (stderr_text s) (flag_stores s) (long_idx s).
Definition set_nextchar (c : option str) (s : gstate) : gstate :=
  Gstate (argv s) (optarg s) (optind s) (opterr s) (optopt s) c (first_nonopt s) (last_nonopt s)
         (stderr_text s) (flag_stores s) (long_idx s).
Definition set_optarg (a : option str) (s : gstate) : gstate :=
  Gstate (argv s) a (optind s) (opterr s) (optopt s) (nextchar s) (first_nonopt s) (last_nonopt s)
         (stderr_text s) (flag_stores s) (long_idx s).
Definition set_optopt (c : Z) (s : gstate) : gstate :=
  Gstate (argv s) (optarg s) (optind s) (opterr s) c (nextchar s) (first_nonopt s) (last_nonopt s)
         (stderr_text s) (flag_stores s) (long_idx s).
Definition set_argv (a : list str) (s : gstate) : gstate :=
  Gstate a (optarg s) (optind s) (opterr s) (optopt s) (nextchar s) (first_nonopt s) (last_nonopt s)
         (stderr_text s) (flag_stores s) (long_idx s).
Definition report (text : str) (s : gstate) : gstate :=
  Gstate (argv s) (optarg s) (optind s) (opterr s) (optopt s) (nextchar s) (first_nonopt s) (last_nonopt s)
         (stderr_text s ++ [text]) (flag_stores s) (long_idx s).
Definition store_long (idx : Z) (fl : option Z) (v : Z) (s : gstate) : gstate :=
  Gstate (argv s) (optarg s) (optind s) (opterr s) (optopt s) (nextchar s) (first_nonopt s) (last_nonopt s)
         (stderr_text s)
         (match fl with Some a => flag_stores s ++ [(a, v)] | None => flag_stores s end) (Some idx).

(** ** The permutation *)

(** [for (i = 0; i < len; i++)] swapping two blocks of [argv]. *)
Fixpoint swap_blocks (len : nat) (i j : nat) (l : list str) : option (list str) :=
  match len with
  | O => Some l
  | S len =>
      a ← l !! i; b ← l !! j;
      swap_blocks len (S i) (S j) (<[j := a]> (<[i := b]> l))
  end.

(** [while (top > middle && middle > bottom)] *)
Fixpoint exchange_loop (fuel : nat) (bottom middle top : nat) (l : list str) : option (list str) :=
  match fuel with
  | O => None
  | S fuel =>
      if (middle <? top)%nat && (bottom <? middle)%nat then
        if (middle - bottom <? top - middle)%nat then
          let len := (middle - bottom)%nat in
          l ← swap_blocks len bottom (top - len) l;
          exchange_loop fuel bottom middle (top - len) l
        else
          let len := (top - middle)%nat in
          l ← swap_blocks len bottom middle l;
          exchange_loop fuel (bottom + len) middle top l
      else Some l
  end.

Definition exchange (s : gstate) : option gstate :=
  let bottom := Z.to_nat (first_nonopt s) in
  let middle := Z.to_nat (last_nonopt s) in
  let top := Z.to_nat (optind s) in
  l ← exchange_loop (S top) bottom middle top (argv s);
  Some (set_nonopts (first_nonopt s + (optind s - last_nonopt s)) (optind s) (set_argv l s)).

(** ** Messages *)

(** "invalid option -- '" *)
Definition invalid_option : str :=
  [105; 110; 118; 97; 108; 105; 100; 32; 111; 112; 116; 105; 111; 110; 32; 45; 45; 32; 39].

Definition _opterr_msg_short (c : Z) : str := invalid_option ++ [c; 39; 10].

(** The message buffer has 192 bytes, the last four kept for the end. *)
Definition _opterr_msg_long (body lead : str) : str :=
  let b := take 188 lead in b ++ take (188 - length b) body ++ [39; 10].

(** "ambiguous option '", "unrecognized option '", "option doesn't allow an
    argument '", "option requires an argument '" *)
Definition msg_ambiguous : str := [97; 109; 98; 105; 103; 117; 111; 117; 115; 32; 111; 112; 116; 105; 111; 110; 32; 39].
Definition msg_unrecognized : str := [117; 110; 114; 101; 99; 111; 103; 110; 105; 122; 101; 100; 32; 111; 112; 116; 105; 111; 110; 32; 39].
Definition msg_not_allowed : str :=
  [111; 112; 116; 105; 111; 110; 32; 100; 111; 101; 115; 110; 39; 116; 32; 97; 108; 108; 111; 119; 32; 97; 110; 32; 97; 114; 103; 117; 109; 101; 110; 116; 32; 39].
Definition msg_required : str :=
  [111; 112; 116; 105; 111; 110; 32; 114; 101; 113; 117; 105; 114; 101; 115; 32; 97; 110; 32; 97; 114; 103; 117; 109; 101; 110; 116; 32; 39].

(** ** Long options *)

Definition LONG_NONE : Z := -2.
Definition LONG_ERR : Z := -3.

(** The loop of [long_match] from option [i] on: an exact name ends it. *)
Fixpoint long_scan (name : str) (lo : list long_option) (i found count : Z) : Z :=
  match lo with
  | [] => if count =? 1 then found else if count >? 1 then LONG_ERR else -1
  | o :: lo =>
      if bool_decide (lname o = name) then i
      else if bool_decide (name `prefix_of` lname o) then long_scan name lo (i + 1) i (count + 1)
      else long_scan name lo (i + 1) found count
  end.

Definition long_match (name : str) (lo : list long_option) : Z := long_scan name lo 0 (-1) 0.

(** [strchr(body, '=')]: what precedes it and what follows it. *)
Fixpoint split_eq (body : str) : str * option str :=
  match body with
  | [] => ([], None)
  | c :: body => if c =? 61 then ([], Some body) else let '(n, e) := split_eq body in (c :: n, e)
  end.

Definition colon (optstring : str) : bool := cur optstring =? 58.

(** [if (opterr && quiet-test) _opterr_msg...] *)
Definition complain (loud : bool) (text : str) (s : gstate) : gstate :=
  if opterr s && loud then report text s else s.

Definition do_long (body : str) (double_dash : bool) (optstring : str) (lo : list long_option)
    (long_only : bool) (s : gstate) : option (Z * gstate) :=
  let '(name, eq) := split_eq body in
  if (length name =? 0)%nat || (128 <=? length name)%nat then Some (LONG_NONE, s)
  else
    let idx := long_match name lo in
    if idx =? LONG_ERR then
      let s := complain true (_opterr_msg_long body msg_ambiguous) s in
      Some (LONG_ERR, set_optind (optind s + 1) s)
    else if idx <? 0 then
      if long_only && negb double_dash then Some (LONG_NONE, s)
      else
        let s := complain true (_opterr_msg_long body msg_unrecognized) s in
        Some (LONG_ERR, set_optind (optind s + 1) (set_optopt 0 s))
    else
      o ← lo !! Z.to_nat idx;
      let finish arg s :=
        let s := set_optarg arg (set_optind (optind s + 1) s) in
        let s := store_long idx (flag o) (val o) s in
        Some (match flag o with Some _ => 0 | None => val o end, s) in
      match has_arg o, eq with
      | no_argument, Some _ =>
          let s := complain true (_opterr_msg_long body msg_not_allowed) s in
          Some (LONG_ERR, set_optind (optind s + 1) s)
      | no_argument, None => finish None s
      | _, Some arg => finish (Some arg) s
      | required_argument, None =>
          if optind s + 1 >=? argc s then
            let s := complain (negb (colon optstring)) (_opterr_msg_long body msg_required) s in
            Some (if colon optstring then 58 else LONG_ERR, set_optind (optind s + 1) s)
          else
            arg ← arg_at s (optind s + 1);
            finish (Some arg) (set_optind (optind s + 1) s)
      | optional_argument, None => finish None s
      end.

(** ** The scanner *)

(** [argv[optind][0] != '-' || argv[optind][1] == '\0'] *)
Definition is_operand (a : str) : bool := negb (cur a =? 45) || (cur (tail a) =? 0).

(** [while (optind < argc && ...) optind++;] *)
Fixpoint skip_operands (l : list str) (i : Z) : Z :=
  match l with
  | [] => i
  | a :: l => if is_operand a then skip_operands l (i + 1) else i
  end.

Definition dashes : str := [45; 45].

(** Permute, skip operands, and step over a "--". *)
Definition advance (s : gstate) : option gstate :=
  let l := if last_nonopt s >? optind s then optind s else last_nonopt s in
  let f := if first_nonopt s >? optind s then optind s else first_nonopt s in
  let s := set_nonopts f l s in
  s ← (if negb (f =? l) && negb (l =? optind s) then exchange s
       else if negb (l =? optind s) then Some (set_nonopts (optind s) l s)
       else Some s);
  let s := set_optind (skip_operands (drop (Z.to_nat (optind s)) (argv s)) (optind s)) s in
  let s := set_nonopts (first_nonopt s) (optind s) s in
  if optind s =? argc s then Some s
  else
    a ← arg_at s (optind s);
    if bool_decide (a = dashes) then
      let s := set_optind (optind s + 1) s in
      s ← (if negb (first_nonopt s =? last_nonopt s) && negb (last_nonopt s =? optind s) then exchange s
           else if first_nonopt s =? last_nonopt s then Some (set_nonopts (optind s) (last_nonopt s) s)
           else Some s);
      Some (set_optind (argc s) (set_nonopts (first_nonopt s) (argc s) s))
    else Some s.

(** [strchr(optstring, c)]: the rest of the string from the match on. *)
Fixpoint find_opt (optstring : str) (c : Z) : option str :=
  match optstring with
  | [] => None
  | d :: rest => if d =? c then Some optstring else find_opt rest c
  end.

(** One short option, [nextchar] being the non-empty [c :: next]. *)
Definition short_option (optstring : str) (c : Z) (next : str) (s : gstate) : option (Z * gstate) :=
  let at_end := cur next =? 0 in
  match find_opt optstring c with
  | None =>
      let s := set_optopt c s in
      let s := if at_end then set_optind (optind s + 1) (set_nextchar None s) else set_nextchar (Some next) s in
      Some (63, complain (negb (colon optstring)) (_opterr_msg_short c) s)
  | Some p =>
      if cur (tail p) =? 58 then
        if negb at_end then
          let s := set_nextchar None (set_optarg (Some next) s) in
          Some (c, set_optind (optind s + 1) s)
        else if optind s + 1 <? argc s then
          arg ← arg_at s (optind s + 1);
          let s := set_nextchar None (set_optarg (Some arg) (set_optind (optind s + 1) s)) in
          Some (c, set_optind (optind s + 1) s)
        else
          let s := set_optind (optind s + 1) (set_nextchar None (set_optopt c s)) in
          let s := complain (negb (colon optstring)) (_opterr_msg_short c) s in
          Some (if colon optstring then 58 else 63, s)
      else
        let s := set_optarg None s in
        Some (c, if at_end then set_optind (optind s + 1) (set_nextchar None s) else set_nextchar (Some next) s)
  end.

(** A fresh element of [argv]; [again] is the next round of the loop, taken only
    after a lone dash. *)
Definition take_arg (again : gstate -> option (Z * gstate)) (optstring : str)
    (longopts : option (list long_option)) (long_only : bool) (s : gstate) : option (Z * gstate) :=
  s ← advance s;
  if optind s >=? argc s then Some (-1, set_optind (first_nonopt s) s)
  else
    arg ← arg_at s (optind s);
    let dd := cur (tail arg) =? 45 in
    let short s :=
      match tail arg with
      | [] => again (set_nextchar None (set_optind (optind s + 1) s))
      | c :: next => short_option optstring c next s
      end in
    match longopts with
    | Some lo =>
        if dd || long_only then
          '(r, s) ← do_long (if dd then tail (tail arg) else tail arg) dd optstring lo long_only s;
          if r =? LONG_ERR then Some (63, set_nextchar None s)
          else if negb (r =? LONG_NONE) then Some (r, set_nextchar None s)
          else short s
        else short s
    | None => short s
    end.

(** [for (;;)] *)
Fixpoint scan (fuel : nat) (optstring : str) (longopts : option (list long_option)) (long_only : bool)
    (s : gstate) : option (Z * gstate) :=
  match fuel with
  | O => None
  | S fuel =>
      match nextchar s with
      | Some (c :: next) => short_option optstring c next s
      | _ => take_arg (scan fuel optstring longopts long_only) optstring longopts long_only s
      end
  end.

Definition getopt_common (optstring : str) (longopts : option (list long_option)) (long_only : bool)
    (s : gstate) : option (Z * gstate) :=
  let s := if optind s =? 0 then set_nonopts 1 1 (set_nextchar None (set_optind 1 s)) else s in
  scan (S (S (length (argv s)))) optstring longopts long_only s.

Definition getopt (optstring : str) (s : gstate) : option (Z * gstate) :=
  getopt_common optstring None false s.
Definition getopt_long (optstring : str) (lo : list long_option) (s : gstate) : option (Z * gstate) :=
  getopt_common optstring (Some lo) false s.
Definition getopt_long_only (optstring : str) (lo : list long_option) (s : gstate) : option (Z * gstate) :=
  getopt_common optstring (Some lo) true s.

(** ** The exchange is a rotation *)

Lemma swap_blocks_spec X : forall Y pre mid post,
  length X = length Y ->
  swap_blocks (length X) (length pre) (length pre + length X + length mid) (pre ++ X ++ mid ++ Y ++ post)
  = Some (pre ++ Y ++ mid ++ X ++ post).
Proof.
  induction X as [|x X IH]; intros [|y Y] pre mid post HL; try done. cbn [length] in HL. cbn [length swap_blocks].
  set (j := (length pre + S (length X) + length mid)%nat).
  assert (E1 : (pre ++ (x :: X) ++ mid ++ (y :: Y) ++ post) !! length pre = Some x)
    by (apply (list_lookup_middle pre); done).
  rewrite E1. cbn [mbind option_bind].
  assert (Ej : pre ++ (x :: X) ++ mid ++ (y :: Y) ++ post = (pre ++ (x :: X) ++ mid) ++ y :: (Y ++ post))
    by (by repeat (rewrite <- (assoc_L (++)); cbn [app])).
  assert (Hj : length (pre ++ (x :: X) ++ mid) = j) by (subst j; rewrite !length_app; cbn [length]; lia).
  assert (E2 : (pre ++ (x :: X) ++ mid ++ (y :: Y) ++ post) !! j = Some y)
    by (rewrite Ej; by apply list_lookup_middle).
  rewrite E2. cbn [mbind option_bind].
  replace (<[j := x]> (<[length pre := y]> (pre ++ (x :: X) ++ mid ++ (y :: Y) ++ post)))
    with ((pre ++ [y]) ++ X ++ (mid ++ [x]) ++ Y ++ post).
  - specialize (IH Y (pre ++ [y]) (mid ++ [x]) post ltac:(lia)). rewrite !length_app in IH. cbn [length] in IH.
    replace (length pre + 1)%nat with (S (length pre)) in IH by lia.
    replace (S (length pre) + length X + (length mid + 1))%nat with (S j) in IH by (subst j; lia).
    rewrite IH. f_equal. by repeat (rewrite <- (assoc_L (++)); cbn [app]).
  - rewrite insert_app_r_alt by lia. rewrite Nat.sub_diag. cbn [app insert list_insert].
    replace (pre ++ y :: X ++ mid ++ y :: Y ++ post) with ((pre ++ y :: X ++ mid) ++ y :: (Y ++ post))
      by (by repeat (rewrite <- (assoc_L (++)); cbn [app])).
    rewrite insert_app_r_alt by (rewrite !length_app in *; cbn [length] in *; rewrite ?length_app in *; lia).
    replace (j - length (pre ++ y :: X ++ mid))%nat with 0%nat
      by (rewrite !length_app in *; cbn [length] in *; rewrite ?length_app in *; lia).
    cbn [insert list_insert]. by repeat (rewrite <- (assoc_L (++)); cbn [app]).
Qed.

Lemma exchange_loop_spec fuel : forall A B pre post,
  (length A + length B < fuel)%nat ->
  exchange_loop fuel (length pre) (length pre + length A) (length pre + length A + length B) (pre ++ A ++ B ++ post)
  = Some (pre ++ B ++ A ++ post).
Proof.
  induction fuel as [|fuel IH]; intros A B pre post Hf; [lia|]. cbn [exchange_loop].
  destruct (Nat.ltb_spec (length pre + length A) (length pre + length A + length B)) as [HB|HB]; cbn [andb].
  2:{ destruct B; cbn [length] in *; [|lia]. done. }
  destruct (Nat.ltb_spec (length pre) (length pre + length A)) as [HA|HA].
  2:{ destruct A; cbn [length] in *; [|lia]. done. }
  replace (length pre + length A - length pre)%nat with (length A) by lia.
  replace (length pre + length A + length B - (length pre + length A))%nat with (length B) by lia.
  destruct (Nat.ltb_spec (length A) (length B)) as [HL|HL].
  - (* the last |A| elements of B change places with A *)
    set (B1 := take (length B - length A) B). set (B2 := drop (length B - length A) B).
    assert (EB : B = B1 ++ B2) by (symmetry; apply take_drop).
    assert (L2 : length B2 = length A) by (subst B2; rewrite length_drop; lia).
    assert (L1 : (length B1 + length A = length B)%nat)
      by (transitivity (length (B1 ++ B2)); [rewrite length_app; lia|by rewrite <- EB]).
    pose proof (swap_blocks_spec A B2 pre B1 post ltac:(lia)) as Hs.
    replace (length pre + length A + length B - length A)%nat with (length pre + length A + length B1)%nat by lia.
    replace (pre ++ A ++ B ++ post) with (pre ++ A ++ B1 ++ B2 ++ post) by (by rewrite EB, <- (assoc_L (++))).
    rewrite Hs. cbn [mbind option_bind].
    pose proof (IH B2 B1 pre (A ++ post) ltac:(lia)) as HI. rewrite L2 in HI.
    rewrite HI. rewrite EB. by rewrite <- !(assoc_L (++)).
  - (* the first |B| elements of A change places with B *)
    set (A1 := take (length B) A). set (A2 := drop (length B) A).
    assert (EA : A = A1 ++ A2) by (symmetry; apply take_drop).
    assert (L1 : length A1 = length B) by (subst A1; rewrite length_take; lia).
    assert (L2 : (length A1 + length A2 = length A)%nat) by (transitivity (length (A1 ++ A2)); [by rewrite length_app|by rewrite <- EA]).
    pose proof (swap_blocks_spec A1 B pre A2 post L1) as Hs. rewrite L1 in Hs.
    replace (length pre + length B + length A2)%nat with (length pre + length A)%nat in Hs by lia.
    replace (pre ++ A ++ B ++ post) with (pre ++ A1 ++ A2 ++ B ++ post) by (by rewrite EA, <- (assoc_L (++))).
    rewrite Hs. cbn [mbind option_bind].
    pose proof (IH A2 A1 (pre ++ B) post ltac:(lia)) as HI. rewrite !length_app in HI.
    replace (length pre + length B + length A2)%nat with (length pre + length A)%nat in HI by lia.
    rewrite L1 in HI. rewrite <- !(assoc_L (++)) in HI. rewrite HI.
    rewrite EA. by rewrite <- !(assoc_L (++)).
Qed.

(** The part of a list between two indices. *)
Definition slice {A} (i j : Z) (l : list A) : list A := take (Z.to_nat (j - i)) (drop (Z.to_nat i) l).

Lemma slice_split {A} (l : list A) f m t :
  0 <= f <= m -> m <= t -> t <= Z.of_nat (length l) ->
  l = take (Z.to_nat f) l ++ slice f m l ++ slice m t l ++ drop (Z.to_nat t) l.
Proof.
  intros H1 H2 H3. unfold slice.
  rewrite <- (take_drop (Z.to_nat f) l) at 1. f_equal.
  rewrite <- (take_drop (Z.to_nat (m - f)) (drop (Z.to_nat f) l)) at 1. f_equal.
  rewrite drop_drop. replace (Z.to_nat f + Z.to_nat (m - f))%nat with (Z.to_nat m) by lia.
  rewrite <- (take_drop (Z.to_nat (t - m)) (drop (Z.to_nat m) l)) at 1. f_equal.
  rewrite drop_drop. f_equal. lia.
Qed.

Lemma argv_slice_length {A} (l : list A) i j :
  0 <= i <= j -> j <= Z.of_nat (length l) -> length (slice i j l) = Z.to_nat (j - i).
Proof. intros. unfold slice. rewrite length_take, length_drop. lia. Qed.

Lemma exchange_spec s :
  0 <= first_nonopt s <= last_nonopt s -> last_nonopt s <= optind s -> optind s <= argc s ->
  exchange s = Some (set_nonopts (first_nonopt s + (optind s - last_nonopt s)) (optind s)
    (set_argv (take (Z.to_nat (first_nonopt s)) (argv s) ++ slice (last_nonopt s) (optind s) (argv s)
               ++ slice (first_nonopt s) (last_nonopt s) (argv s) ++ drop (Z.to_nat (optind s)) (argv s)) s)).
Proof.
  intros H1 H2 H3. unfold argc in H3. unfold exchange.
  pose proof (slice_split (argv s) (first_nonopt s) (last_nonopt s) (optind s) H1 H2 H3) as Hl.
  set (f := first_nonopt s) in *. set (m := last_nonopt s) in *. set (t := optind s) in *.
  set (pre := take (Z.to_nat f) (argv s)) in *. set (A := slice f m (argv s)) in *.
  set (B := slice m t (argv s)) in *. set (post := drop (Z.to_nat t) (argv s)) in *.
  assert (Lp : length pre = Z.to_nat f) by (subst pre; rewrite length_take; lia).
  assert (LA : length A = Z.to_nat (m - f)) by (apply argv_slice_length; lia).
  assert (LB : length B = Z.to_nat (t - m)) by (apply argv_slice_length; lia).
  cbv zeta. pose proof (exchange_loop_spec (S (Z.to_nat t)) A B pre post ltac:(lia)) as He.
  replace (length pre + length A)%nat with (Z.to_nat m) in He by lia.
  replace (Z.to_nat m + length B)%nat with (Z.to_nat t) in He by lia. rewrite Lp in He.
  rewrite <- Hl in He. rewrite He. done.
Qed.

(** [exchange] is a rotation: the options found since the pending block of
    operands move in front of it, both blocks keep their order and nothing
    else of [argv] moves. *)
Theorem exchange_rotates s :
  0 <= first_nonopt s <= last_nonopt s -> last_nonopt s <= optind s -> optind s <= argc s ->
  exists s', exchange s = Some s' /\
    argv s' = take (Z.to_nat (first_nonopt s)) (argv s) ++ slice (last_nonopt s) (optind s) (argv s)
              ++ slice (first_nonopt s) (last_nonopt s) (argv s) ++ drop (Z.to_nat (optind s)) (argv s) /\
    last_nonopt s' = optind s /\
    last_nonopt s' - first_nonopt s' = last_nonopt s - first_nonopt s.
Proof. intros H1 H2 H3. rewrite exchange_spec by done. eexists. split; [done|]. cbn. split; [done|lia]. Qed.

Definition start_state (l : list str) : gstate := Gstate l None 1 true 0 None 0 0 [] [] None.

(** "prog a b -v": the operands "a", "b" and the option "-v". *)
Lemma exchange_rotates_witness :
  exists s', exchange (set_nonopts 1 3 (set_optind 4 (start_state [[112]; [97]; [98]; [45; 118]]))) = Some s' /\
    argv s' = [[112]; [45; 118]; [97]; [98]].
Proof.
  destruct (exchange_rotates (set_nonopts 1 3 (set_optind 4 (start_state [[112]; [97]; [98]; [45; 118]]))))
    as (s' & E & Ea & _); [vm_compute; repeat split; congruence..|].
  exact (ex_intro _ s' (conj E Ea)).
Defined.

(** ** Scanning *)

Lemma slice_lookup {A} (l : list A) i j :
  0 <= i <= j -> j <= Z.of_nat (length l) ->
  forall pre mid post, l = pre ++ mid ++ post -> Z.of_nat (length pre) = i -> length mid = Z.to_nat (j - i) ->
  slice i j l = mid.
Proof.
  intros Hij Hj pre mid post -> Hp Hm. subst i. unfold slice. rewrite Nat2Z.id.
  rewrite drop_app_length. rewrite <- Hm. by rewrite take_app_length.
Qed.

(** The pending operands end at [optind]. *)
Definition block_ok (s : gstate) : Prop :=
  0 <= first_nonopt s <= last_nonopt s /\ last_nonopt s = optind s /\ optind s <= argc s /\
  Forall (fun a => is_operand a = true) (slice (first_nonopt s) (last_nonopt s) (argv s)).

(** Between two calls: the pending operands come before [optind], and a cluster
    is pending only while its argument is. *)
Definition wf (s : gstate) : Prop :=
  0 <= first_nonopt s <= last_nonopt s /\ last_nonopt s <= optind s /\ 1 <= optind s <= argc s /\
  Forall (fun a => is_operand a = true) (slice (first_nonopt s) (last_nonopt s) (argv s)) /\
  (forall c next, nextchar s = Some (c :: next) -> optind s < argc s).

Lemma settle_block s :
  wf s ->
  exists s1, (if negb (first_nonopt s =? last_nonopt s) && negb (last_nonopt s =? optind s) then exchange s
              else if negb (last_nonopt s =? optind s) then Some (set_nonopts (optind s) (last_nonopt s) s)
              else Some s) = Some s1 /\
    argv s1 ≡ₚ argv s /\ optind s1 = optind s /\ nextchar s1 = nextchar s /\
    block_ok (set_nonopts (first_nonopt s1) (optind s1) s1).
Proof.
  intros (Hf & Hl & Ho & Hb & _). unfold block_ok, argc in *.
  destruct (Z.eqb_spec (first_nonopt s) (last_nonopt s)) as [E1|E1]; cbn [negb andb].
  - destruct (Z.eqb_spec (last_nonopt s) (optind s)) as [E2|E2]; cbn [negb].
    + exists s. split_and!; try done; cbn; try lia. by rewrite <- E2.
    + eexists. split; [done|]. cbn. split_and!; try done; try lia.
      unfold slice. replace (Z.to_nat (optind s - optind s)) with 0%nat by lia. by rewrite take_0.
  - destruct (Z.eqb_spec (last_nonopt s) (optind s)) as [E2|E2]; cbn [negb].
    + exists s. split_and!; try done; cbn; try lia. by rewrite <- E2.
    + rewrite exchange_spec by (unfold argc; lia). eexists. split; [done|].
      cbn [argv optind nextchar set_nonopts set_argv first_nonopt last_nonopt].
      pose proof (slice_split (argv s) (first_nonopt s) (last_nonopt s) (optind s) Hf Hl ltac:(lia)) as Hs.
      set (pre := take _ _) in *. set (A := slice (first_nonopt s) _ _) in *.
      set (B := slice (last_nonopt s) _ _) in *. set (post := drop _ _) in *.
      assert (LA : length A = Z.to_nat (last_nonopt s - first_nonopt s)) by (apply argv_slice_length; lia).
      assert (LB : length B = Z.to_nat (optind s - last_nonopt s)) by (apply argv_slice_length; lia).
      assert (Lp : length pre = Z.to_nat (first_nonopt s)) by (subst pre; rewrite length_take; lia).
      assert (HL : length (pre ++ B ++ A ++ post) = length (argv s))
        by (transitivity (length (pre ++ A ++ B ++ post)); [rewrite !length_app; lia|by rewrite <- Hs]).
      split. { transitivity (pre ++ A ++ B ++ post); [|by rewrite <- Hs].
               apply Permutation_app_head. rewrite !(assoc_L (++)).
               apply Permutation_app_tail, Permutation_app_comm. }
      split; [done|]. split; [done|]. split; [lia|]. split; [done|]. split; [rewrite HL; lia|].
      replace (slice _ _ _) with A; [done|]. symmetry.
      apply (slice_lookup _ (first_nonopt s + (optind s - last_nonopt s)) (optind s)
        ltac:(lia) ltac:(rewrite HL; lia) (pre ++ B) A post).
      * by rewrite <- (assoc_L (++)).
      * rewrite length_app. lia.
      * lia.
Qed.

Lemma skip_operands_spec l : forall i,
  exists k, skip_operands l i = i + Z.of_nat k /\ (k <= length l)%nat /\
    Forall (fun a => is_operand a = true) (take k l) /\ (forall a, l !! k = Some a -> is_operand a = false).
Proof.
  induction l as [|a l IH]; intros i; cbn [skip_operands].
  - exists 0%nat. split; [lia|]. cbn. split; [lia|]. by split.
  - destruct (is_operand a) eqn:E.
    + destruct (IH (i + 1)) as (k & -> & Hk & Hf & Hn). exists (S k). split; [lia|]. cbn.
      split; [lia|]. split; [by constructor|done].
    + exists 0%nat. split; [lia|]. cbn. split; [lia|]. split; [done|]. intros b [= <-]. done.
Qed.

(** Skipping operands keeps the block. *)
Lemma extend_block s k :
  block_ok s -> (Z.to_nat (optind s) + k <= length (argv s))%nat ->
  Forall (fun a => is_operand a = true) (take k (drop (Z.to_nat (optind s)) (argv s))) ->
  let t := optind s + Z.of_nat k in
  block_ok (set_nonopts (first_nonopt s) t (set_optind t s)).
Proof.
  intros (Hf & Hl & Ho & Hb) Hk Hop. unfold block_ok, argc in *. cbn.
  split; [lia|]. split; [done|]. split; [lia|].
  replace (slice (first_nonopt s) (optind s + Z.of_nat k) (argv s))
    with (slice (first_nonopt s) (last_nonopt s) (argv s) ++ take k (drop (Z.to_nat (optind s)) (argv s))).
  - apply Forall_app. done.
  - unfold slice. rewrite Hl in *.
    replace (drop (Z.to_nat (optind s)) (argv s))
      with (drop (Z.to_nat (optind s - first_nonopt s)) (drop (Z.to_nat (first_nonopt s)) (argv s)))
      by (rewrite drop_drop; f_equal; lia).
    rewrite take_take_drop. f_equal. lia.
Qed.

(** What [advance] leaves: the scan ended, or an option argument at [optind]
    with the pending operands right before it. *)
Lemma advance_spec s :
  wf s ->
  exists s', advance s = Some s' /\ nextchar s' = nextchar s /\ argv s' ≡ₚ argv s /\ 1 <= optind s' /\ 0 <= first_nonopt s' <= argc s' /\
    optind s <= optind s' /\
    ((optind s' = argc s' /\
      (dashes ∉ argv s -> Forall (fun a => is_operand a = true) (drop (Z.to_nat (first_nonopt s')) (argv s')))) \/
     (optind s' < argc s' /\ block_ok s' /\
      exists a, arg_at s' (optind s') = Some a /\ is_operand a = false)).
Proof.
  intros Hwf. assert (H := Hwf). destruct H as (Hf & Hl & Ho & _ & _). unfold advance. rewrite !Z.gtb_ltb.
  destruct (Z.ltb_spec (optind s) (last_nonopt s)); [lia|]. destruct (Z.ltb_spec (optind s) (first_nonopt s)); [lia|].
  cbv zeta. replace (set_nonopts (first_nonopt s) (last_nonopt s) s) with s by (by destruct s).
  destruct (settle_block s Hwf) as (s1 & -> & Hp1 & Eo1 & En1 & Hb1). cbn [mbind option_bind].
  assert (HL1 : length (argv s1) = length (argv s)) by (by rewrite Hp1).
  destruct (skip_operands_spec (drop (Z.to_nat (optind s1)) (argv s1)) (optind s1)) as (k & -> & Hk & Hop & Hn).
  rewrite length_drop in Hk. unfold argc in *.
  pose proof (extend_block _ k Hb1 ltac:(cbn; lia) ltac:(cbn; done)) as Hb2. cbv zeta in Hb2.
  cbn [optind set_nonopts set_optind first_nonopt] in Hb2.
  set (t := optind s1 + Z.of_nat k) in *.
  set (s2 := set_nonopts (first_nonopt (set_optind t s1)) (optind (set_optind t s1)) (set_optind t s1)).
  assert (Hb3 : block_ok s2) by exact Hb2. clear Hb2.
  assert (Ht : 1 <= t <= Z.of_nat (length (argv s1))) by (subst t; lia).
  change (optind s2) with t. change (argv s2) with (argv s1).
  destruct (Z.eqb_spec t (Z.of_nat (length (argv s1)))) as [Et|Et].
  { exists s2. destruct Hb3 as (B1 & B2 & B3 & B4). split; [done|]. split; [done|]. split; [done|]. change (optind s2) with t in *.
    change (argv s2) with (argv s1). change (argv s2) with (argv s1) in B4.
    split; [lia|]. split; [lia|]. split; [subst t; lia|]. left. split; [done|]. intros _.
    revert B4. unfold slice. rewrite B2. rewrite take_ge; [done|]. rewrite length_drop. lia. }
  unfold arg_at. change (argv s2) with (argv s1). destruct (Z.ltb_spec t 0); [lia|].
  destruct (lookup_lt_is_Some_2 (argv s1) (Z.to_nat t)) as [a Ea]; [lia|]. rewrite Ea. cbn [mbind option_bind].
  case_bool_decide as Ed.
  2:{ exists s2. split; [done|]. split; [done|]. split; [done|]. pose proof Hb3 as (B1 & B2 & B3 & B4).
      change (optind s2) with t in *. change (argv s2) with (argv s1). split; [lia|]. split; [lia|].
      split; [subst t; lia|]. right. split; [lia|]. split; [done|]. exists a.
      destruct (Z.ltb_spec t 0); [lia|]. split; [done|]. apply Hn.
      rewrite lookup_drop. rewrite <- Ea. f_equal. subst t. lia. }
  (* "--": everything after it is an operand *)
  set (s3 := set_optind (t + 1) s2).
  assert (Hs4 : exists s4, (if negb (first_nonopt s3 =? last_nonopt s3) && negb (last_nonopt s3 =? optind s3) then exchange s3
           else if first_nonopt s3 =? last_nonopt s3 then Some (set_nonopts (optind s3) (last_nonopt s3) s3)
           else Some s3) = Some s4 /\ nextchar s4 = nextchar s /\ argv s4 ≡ₚ argv s1 /\ 0 <= first_nonopt s4 <= Z.of_nat (length (argv s1))).
  { destruct Hb3 as (B1 & B2 & B3 & B4). change (first_nonopt s3) with (first_nonopt s2).
    change (last_nonopt s3) with (last_nonopt s2). change (optind s3) with (t + 1). change (optind s2) with t in *.
    rewrite B2 in *. destruct (Z.eqb_spec (first_nonopt s2) t); cbn [negb andb].
    - eexists. split; [done|]. cbn. split; [done|]. split; [done|lia].
    - destruct (Z.eqb_spec t (t + 1)); [lia|]. cbn [negb].
      assert (F3 : 0 <= first_nonopt s3 <= last_nonopt s3 /\ last_nonopt s3 <= optind s3 /\ optind s3 <= argc s3).
      { change (first_nonopt s3) with (first_nonopt s2). change (last_nonopt s3) with t.
        change (optind s3) with (t + 1). unfold argc. change (argv s3) with (argv s1). lia. }
      rewrite exchange_spec by tauto.
      eexists. split; [done|]. cbn [argv set_nonopts set_argv first_nonopt nextchar]. split; [done|]. split.
      + change (argv s3) with (argv s1). change (first_nonopt s3) with (first_nonopt s2).
        change (last_nonopt s3) with t. change (optind s3) with (t + 1).
        pose proof (slice_split (argv s1) (first_nonopt s2) t (t + 1) ltac:(lia) ltac:(lia) ltac:(lia)) as Hs.
        etransitivity; [|rewrite Hs; reflexivity]. apply Permutation_app_head. rewrite !(assoc_L (++)).
        apply Permutation_app_tail, Permutation_app_comm.
      + change (first_nonopt s3) with (first_nonopt s2). change (last_nonopt s3) with t.
        change (optind s3) with (t + 1). lia. }
  destruct Hs4 as (s4 & -> & Hn4 & Hp4 & Hf4). cbn [mbind option_bind].
  assert (HL4 : length (argv s4) = length (argv s1)) by (by rewrite Hp4).
  eexists. split; [done|]. cbn [argv optind set_optind set_nonopts first_nonopt nextchar].
  split; [done|]. split; [by rewrite Hp4|]. split; [lia|]. split; [lia|]. split; [lia|]. left. split; [done|].
  intros Hnd. exfalso. apply Hnd. rewrite <- Hp1. apply list_elem_of_lookup. eexists. rewrite Ea. by f_equal.
Qed.

(** ** Progress *)

(** The length of the pending cluster. *)
Definition cluster (s : gstate) : nat := match nextchar s with Some n => length n | None => 0 end.

(** No argument is longer than [M]. *)
Definition bounded (M : nat) (s : gstate) : Prop :=
  Forall (fun a => (length a <= M)%nat) (argv s) /\ (cluster s <= M)%nat.

(** What is left to scan: whole arguments, then the characters of a cluster; an
    argument not yet entered counts more than any cluster. *)
Definition rank (M : nat) (s : gstate) : Z :=
  (argc s - optind s) * (Z.of_nat M + 2) +
  (if (cluster s =? 0)%nat then Z.of_nat M + 1 else Z.of_nat (cluster s)).

(** A step that leaves [argv] and the pending operands alone, and moves on. *)
Definition moved (s s' : gstate) : Prop :=
  argv s' = argv s /\ first_nonopt s' = first_nonopt s /\ last_nonopt s' = last_nonopt s.

Lemma moved_refl s : moved s s.
Proof. done. Qed.

(** A message changes nothing the scan depends on. *)
Lemma complain_frame b t s :
  moved s (complain b t s) /\ optind (complain b t s) = optind s /\ nextchar (complain b t s) = nextchar s.
Proof. unfold complain. by destruct (opterr s && b). Qed.

Lemma arg_at_in s i : 0 <= i < argc s -> exists a, arg_at s i = Some a.
Proof.
  intros H. unfold arg_at, argc in *. destruct (Z.ltb_spec i 0); [lia|].
  destruct (lookup_lt_is_Some_2 (argv s) (Z.to_nat i)) as [a ->]; [lia|eauto].
Qed.

(** The leaves of [short_option]: the cluster ends, or goes on. *)
Ltac leaf := do 2 eexists; split; [reflexivity|].

Lemma short_option_spec optstring c next s :
  0 <= optind s < argc s ->
  exists r s', short_option optstring c next s = Some (r, s') /\ moved s s' /\
    optind s' <= argc s /\
    ((optind s < optind s' /\ cluster s' = 0%nat) \/
     (optind s' = optind s /\ cluster s' = length next /\ next <> [])).
Proof.
  intros Ho. unfold short_option. cbv zeta.
  assert (Hend : (cur next =? 0) = false -> next <> []) by (intros H ->; done).
  destruct (find_opt optstring c) as [p|].
  - destruct (cur (tail p) =? 58).
    + destruct (cur next =? 0) eqn:E; cbn [negb].
      * destruct (Z.ltb_spec (optind s + 1) (argc s)) as [Hlt|Hge].
        -- destruct (arg_at_in s (optind s + 1)) as [a ->]; [lia|]. cbn [mbind option_bind].
           leaf. split; [done|]. unfold cluster. cbn. split; [lia|]. left. split; [lia|done].
        -- leaf. set (s1 := set_optind _ _). destruct (complain_frame (negb (colon optstring)) (_opterr_msg_short c) s1)
             as (Hm & Hi & Hn). unfold moved, cluster in *. rewrite Hi, Hn. destruct Hm as (-> & -> & ->).
           subst s1. cbn. split; [done|]. split; [lia|]. left. split; [lia|done].
      * leaf. unfold moved, cluster. cbn. split; [done|]. split; [lia|]. left. split; [lia|done].
    + leaf. destruct (cur next =? 0) eqn:E; unfold moved, cluster; cbn; (split; [done|]); (split; [lia|]).
      * left. split; [lia|done].
      * right. auto.
  - leaf. set (s1 := if (_ : bool) then _ else _).
    destruct (complain_frame (negb (colon optstring)) (_opterr_msg_short c) s1) as (Hm & Hi & Hn).
    unfold moved, cluster in *. rewrite Hi, Hn. destruct Hm as (-> & -> & ->).
    subst s1. destruct (cur next =? 0) eqn:E; cbn; (split; [done|]); (split; [lia|]).
    + left. split; [lia|done].
    + right. auto.
Qed.

Lemma long_scan_range name lo : forall i found count,
  0 <= i -> -1 <= found < i -> (0 < count -> 0 <= found) ->
  let r := long_scan name lo i found count in r < i + Z.of_nat (length lo).
Proof.
  induction lo as [|o lo IH]; intros i found count Hi Hf Hc; cbn [long_scan length].
  - unfold LONG_ERR. zcases; lia.
  - case_bool_decide; [lia|]. case_bool_decide.
    + pose proof (IH (i + 1) i (count + 1) ltac:(lia) ltac:(lia) ltac:(lia)) as H2. cbv zeta in *. lia.
    + pose proof (IH (i + 1) found count ltac:(lia) ltac:(lia) Hc) as H2. cbv zeta in *. lia.
Qed.

Lemma do_long_spec body dd optstring lo only s :
  0 <= optind s < argc s -> Forall (fun o => val o <> LONG_NONE) lo ->
  exists r s', do_long body dd optstring lo only s = Some (r, s') /\ moved s s' /\ nextchar s' = nextchar s /\
    ((r = LONG_NONE /\ s' = s) \/ (r <> LONG_NONE /\ optind s < optind s' <= argc s)).
Proof.
  intros Ho Hv. unfold do_long. destruct (split_eq body) as [name eq].
  destruct ((length name =? 0)%nat || (128 <=? length name)%nat); [leaf; split; [done|]; split; [done|]; by left|].
  assert (Hr : long_match name lo < Z.of_nat (length lo)) by (apply (long_scan_range name lo 0 (-1) 0); lia).
  cbv zeta. set (idx := long_match name lo) in *.
  assert (Herr : forall b t r f, r <> LONG_NONE -> (forall s1, moved s1 (f s1) /\ optind (f s1) = optind s1 /\ nextchar (f s1) = nextchar s1) ->
    exists r0 s', Some (r, set_optind (optind (f (complain b t s)) + 1) (f (complain b t s))) = Some (r0, s') /\
      moved s s' /\ nextchar s' = nextchar s /\ ((r0 = LONG_NONE /\ s' = s) \/ (r0 <> LONG_NONE /\ optind s < optind s' <= argc s))).
  { intros b t r f Hne Hf. leaf. destruct (complain_frame b t s) as ((A1 & A2 & A3) & Hi & Hn).
    destruct (Hf (complain b t s)) as ((B1 & B2 & B3) & Hi2 & Hn2).
    unfold moved. cbn. rewrite B1, B2, B3, Hi2, Hn2, A1, A2, A3, Hi, Hn. split; [done|]. split; [done|]. right. split; [done|lia]. }
  destruct (Z.eqb_spec idx LONG_ERR); [by apply (Herr true _ LONG_ERR id)|].
  destruct (Z.ltb_spec idx 0).
  { destruct (only && negb dd); [leaf; split; [done|]; split; [done|]; by left|].
    apply (Herr true _ LONG_ERR (set_optopt 0)); [done|]. intros s1. done. }
  destruct (lookup_lt_is_Some_2 lo (Z.to_nat idx)) as [o Eo]; [lia|]. rewrite Eo. cbn [mbind option_bind].
  pose proof (Forall_lookup_1 _ _ _ _ Hv Eo) as Hvo. cbv beta in Hvo.
  assert (Hr0 : match flag o with Some _ => 0 | None => val o end <> LONG_NONE) by (by destruct (flag o)).
  assert (Hfin : forall arg s1, moved s s1 -> nextchar s1 = nextchar s -> optind s <= optind s1 < argc s ->
    exists r s', Some (match flag o with Some _ => 0 | None => val o end,
        store_long idx (flag o) (val o) (set_optarg arg (set_optind (optind s1 + 1) s1))) = Some (r, s') /\
      moved s s' /\ nextchar s' = nextchar s /\ ((r = LONG_NONE /\ s' = s) \/ (r <> LONG_NONE /\ optind s < optind s' <= argc s))).
  { intros arg s1 (A1 & A2 & A3) Hn Hi. leaf. unfold moved. cbn. split; [done|]. split; [done|]. right. split; [done|lia]. }
  destruct (has_arg o), eq as [arg|];
    try (by apply (Hfin _ s); [done|done|lia]); [by apply (Herr true _ LONG_ERR id)|].
  rewrite Z.geb_leb. destruct (Z.leb_spec (argc s) (optind s + 1)).
  - apply (Herr _ _ _ id); [by destruct (colon optstring)|done].
  - destruct (arg_at_in s (optind s + 1)) as [a ->]; [lia|]. cbn [mbind option_bind].
    apply (Hfin (Some a) (set_optind (optind s + 1) s)); [done|done|cbn; lia].
Qed.

(** Moving on keeps the state well formed and lowers the rank. *)
Lemma moved_wf M s s' :
  moved s s' -> 0 <= first_nonopt s <= last_nonopt s -> last_nonopt s <= optind s -> 1 <= optind s < argc s ->
  Forall (fun a => is_operand a = true) (slice (first_nonopt s) (last_nonopt s) (argv s)) ->
  bounded M s -> optind s' <= argc s ->
  (optind s < optind s' /\ cluster s' = 0%nat) \/
  (optind s' = optind s /\ (0 < cluster s' <= M)%nat /\ (cluster s = 0 \/ cluster s' < cluster s)%nat) ->
  wf s' /\ bounded M s' /\ rank M s' < rank M s.
Proof.
  intros (A1 & A2 & A3) Hf Hl Ho Hb [Hm Hcl] Ho' Hc.
  assert (Hc' : (cluster s' <= M)%nat) by lia. unfold wf, bounded, rank, argc in *. rewrite A1, A2, A3.
  split; [|split].
  - split_and!; try done; try lia. intros c next E. unfold cluster in Hc. rewrite E in Hc. cbn in Hc. lia.
  - done.
  - destruct (Nat.eqb_spec (cluster s) 0), (Nat.eqb_spec (cluster s') 0); nia.
Qed.

Lemma bounded_perm M s s' : argv s' ≡ₚ argv s -> nextchar s' = nextchar s -> bounded M s -> bounded M s'.
Proof. intros Hp Hn [H1 H2]. unfold bounded, cluster. rewrite Hn. split; [by rewrite Hp|done]. Qed.

(** The options a call may be given: no [val] is the scanner's own marker. *)
Definition opts_ok (lo : option (list long_option)) : Prop :=
  match lo with None => True | Some lo => Forall (fun o => val o <> LONG_NONE) lo end.

(** What a call promises: [argv] is permuted only, and the scan has ended, with
    operands alone from [optind] on unless there was a "--", or it went on. *)
Definition call_ok (M : nat) (s : gstate) (r : Z) (s' : gstate) : Prop :=
  argv s' ≡ₚ argv s /\
  ((r = -1 /\ (dashes ∉ argv s -> Forall (fun a => is_operand a = true) (drop (Z.to_nat (optind s')) (argv s')))) \/
   (wf s' /\ bounded M s' /\ rank M s' < rank M s)).

(** A state at an option argument, reached from [s] by a permutation. *)
Definition at_option (M : nat) (s s1 : gstate) : Prop :=
  argv s1 ≡ₚ argv s /\ bounded M s1 /\ rank M s1 <= rank M s /\
  0 <= first_nonopt s1 <= last_nonopt s1 /\ last_nonopt s1 <= optind s1 /\ 1 <= optind s1 < argc s1 /\
  Forall (fun a => is_operand a = true) (slice (first_nonopt s1) (last_nonopt s1) (argv s1)).

Lemma moved_ok M s s1 s' r :
  at_option M s s1 -> moved s1 s' -> optind s' <= argc s1 ->
  (optind s1 < optind s' /\ cluster s' = 0%nat) \/
  (optind s' = optind s1 /\ (0 < cluster s' <= M)%nat /\ (cluster s1 = 0 \/ cluster s' < cluster s1)%nat) ->
  call_ok M s r s'.
Proof.
  intros (Hp & Hb & Hrk & Hf & Hl & Ho & Hop) Hm Ho' Hc.
  destruct (moved_wf M s1 s' Hm Hf Hl Ho Hop Hb Ho' Hc) as (W & B & R).
  split; [destruct Hm as (-> & _); done|]. right. split; [done|]. split; [done|lia].
Qed.

Lemma short_ok M s s1 optstring c next :
  at_option M s s1 -> (length next < M)%nat -> (cluster s1 = 0 \/ cluster s1 = S (length next))%nat ->
  exists r s', short_option optstring c next s1 = Some (r, s') /\ call_ok M s r s'.
Proof.
  intros Hat Hn Hcl. pose proof Hat as (_ & _ & _ & _ & _ & Ho & _).
  destruct (short_option_spec optstring c next s1 ltac:(lia)) as (r & s' & E & Hm & Ho' & Hc).
  exists r, s'. split; [done|]. apply (moved_ok M s s1); [done..|].
  destruct Hc as [?|(E1 & E2 & E3)]; [by left|]. right. split; [done|]. destruct next; [done|]. cbn in *. lia.
Qed.

(** An option argument has characters after its dash. *)
Lemma option_tail M s i a :
  bounded M s -> arg_at s i = Some a -> is_operand a = false ->
  exists c next, tail a = c :: next /\ (length next < M)%nat.
Proof.
  intros [Hb _] Ea Hna. unfold is_operand in Hna. apply orb_false_iff in Hna as [H1 H2].
  destruct a as [|x [|c next]]; [done|done|]. exists c, next. split; [done|].
  unfold arg_at in Ea. destruct (i <? 0); [done|]. pose proof (Forall_lookup_1 _ _ _ _ Hb Ea) as Hx. cbn in Hx. lia.
Qed.

Lemma take_arg_ok M again optstring lo only s :
  wf s -> bounded M s -> opts_ok lo -> cluster s = 0%nat ->
  exists r s', take_arg again optstring lo only s = Some (r, s') /\ call_ok M s r s'.
Proof.
  intros Hwf Hbd Hlo Hc0. unfold take_arg.
  destruct (advance_spec s Hwf) as (s1 & -> & En1 & Hp1 & Ho1 & Hf1 & Hge & Hcase). cbn [mbind option_bind].
  rewrite Z.geb_leb. assert (HL : argc s1 = argc s) by (unfold argc; by rewrite Hp1).
  destruct Hcase as [[Eend Hops]|(Hlt & (B1 & B2 & B3 & B4) & a & Ea & Hna)].
  { destruct (Z.leb_spec (argc s1) (optind s1)); [|lia]. leaf. split; [done|]. by left. }
  destruct (Z.leb_spec (argc s1) (optind s1)); [lia|]. rewrite Ea. cbn [mbind option_bind]. cbv zeta.
  assert (Hb1 : bounded M s1) by (by apply (bounded_perm M s)).
  assert (Hc1 : cluster s1 = 0%nat) by (unfold cluster in *; by rewrite En1).
  assert (Hat : at_option M s s1).
  { unfold at_option. split_and!; try done; try lia. unfold rank. rewrite Hc1, Hc0, HL. cbn [Nat.eqb]. nia. }
  destruct (option_tail M s1 _ a Hb1 Ea Hna) as (c & next & Et & Hnx). rewrite Et.
  pose proof (short_ok M s s1 optstring c next Hat Hnx (or_introl Hc1)) as Hs.
  destruct lo as [lo|]; [|done]. destruct ((cur (c :: next) =? 45) || only); [|done].
  destruct (do_long_spec (if cur (c :: next) =? 45 then tail (c :: next) else c :: next) (cur (c :: next) =? 45)
         optstring lo only s1 ltac:(lia) Hlo) as (r & s2 & -> & Hm & Hn2 & Hr). cbn [mbind option_bind].
  destruct Hr as [[-> ->]|[Hr Ho2]]; [done|].
  assert (Hend : forall r, call_ok M s r (set_nextchar None s2)).
  { intros r0. apply (moved_ok M s s1); [done|done|cbn; lia|]. left. split; [cbn; lia|done]. }
  destruct (r =? LONG_ERR); [by leaf|].
  replace (r =? LONG_NONE) with false by (symmetry; by apply Z.eqb_neq). by leaf.
Qed.

Lemma scan_spec M fuel optstring lo only s :
  wf s -> bounded M s -> opts_ok lo ->
  exists r s', scan (S fuel) optstring lo only s = Some (r, s') /\ call_ok M s r s'.
Proof.
  intros Hwf Hbd Hlo. cbn [scan]. destruct (nextchar s) as [[|c next]|] eqn:En.
  - apply take_arg_ok; try done. unfold cluster. by rewrite En.
  - destruct Hwf as (Hf & Hl & Ho & Hop & Hc). pose proof (Hc c next En). pose proof Hbd as [B1 B2].
    assert (Hcl : cluster s = S (length next)) by (unfold cluster; by rewrite En).
    apply short_ok; [|lia|by right]. unfold at_option. split_and!; try done; lia.
  - apply take_arg_ok; try done. unfold cluster. by rewrite En.
Qed.

(** a call of the scanner always returns and only permutes [argv].  It
    either reports the end (-1), with nothing but operands left from [optind]
    on when no "--" occurs, or it makes progress: the state stays well formed
    and what is left to scan shrinks, so repeated calls reach the end. *)
Theorem getopt_progress M optstring lo only s :
  wf s -> bounded M s -> opts_ok lo ->
  exists r s', getopt_common optstring lo only s = Some (r, s') /\ call_ok M s r s'.
Proof.
  intros Hwf Hb Hlo. unfold getopt_common. destruct (Z.eqb_spec (optind s) 0) as [E|_].
  - destruct Hwf as (_ & _ & H & _). lia.
  - by apply scan_spec.
Qed.

(** "prog file -v", scanned for "v". *)
Lemma getopt_progress_witness :
  exists r s', getopt_common [118] None false (start_state [[112]; [102]; [45; 118]]) = Some (r, s') /\
    argv s' ≡ₚ [[112]; [102]; [45; 118]].
Proof.
  destruct (getopt_progress 2 [118] None false (start_state [[112]; [102]; [45; 118]])) as (r & s' & E & P & _).
  - unfold wf. split_and!; try (vm_compute; congruence). apply Forall_nil_2.
  - split; [repeat constructor|cbn; lia].
  - exact I.
  - exact (ex_intro _ r (ex_intro _ s' (conj E P))).
Defined.

(** include/getopt.h says that scanning stops at the first operand and that
    [argv] is not permuted; the scanner returns the option behind it and
    moves the operand. *)
Theorem getopt_permutes_argv :
  option_map (fun '(r, _) => r) (getopt [118] (start_state [[112]; [102]; [45; 118]])) = Some 118 /\
  option_map (fun '(r, s) => (r, optind s, argv s))
    (r ← getopt [118] (start_state [[112]; [102]; [45; 118]]); getopt [118] (snd r))
  = Some (-1, 2, [[112]; [45; 118]; [102]]).
Proof. vm_compute. split; reflexivity. Qed.

End Getopt.
