(* ===== verification/Regexec.v ===== *)
(** * Regexec: the matcher of src/regex.c

    A compiled pattern is a tree of [cnode]s.  The matcher walks it in
    continuation-passing style: every node, once it has matched, calls the
    continuation of the rest of the pattern, and a continuation that answers
    false sends it back for its next way to match.  The state it threads is the
    capture arrays, the step counter and the best match so far.

    The reference semantics is twofold: [paths] lists the ways a node can match,
    in the order of the search, with the captures each leaves behind; [den] is
    the set of spans a pattern denotes, as in a textbook.  The theorems say that
    [regexec] visits exactly [paths], and that it reports the leftmost and
    longest span of [den]. *)

From Stdlib Require Import ZArith Lia Bool.
From stdpp Require Import base sets list numbers.
From S2P Require Import Prelude Monad Ctype.

Module Regexec.
Import Ctype.

Definition REG_NGROUPS : Z := 32.
Definition REG_STEP_LIMIT : Z := 4000000.

Definition REG_EXTENDED : Z := 1.
Definition REG_ICASE : Z := 2.
Definition REG_NEWLINE : Z := 4.
Definition REG_NOTBOL : Z := 1.
Definition REG_NOTEOL : Z := 2.
Definition REG_STARTEND : Z := 4.
Definition REG_NOMATCH : Z := 1.

(** [flags & bit] *)
Definition flag (flags bit : Z) : bool := negb (Z.land flags bit =? 0).

(** ** The compiled pattern *)

Inductive cnode :=
| OP_CHAR (ch : Z)
| OP_ANY
| OP_CLASS (cls : list Z) (neg : bool)
| OP_BOL
| OP_EOL
| OP_GROUP (idx : Z) (sub : list cnode)
| OP_BACKREF (idx : Z)
| OP_ALT (alts : list (list cnode))
| OP_REP (sub : list cnode) (min max : Z).

(** The bitmap of a class: 32 bytes, one bit per character. *)
Definition set_bit (b : list Z) (c : Z) : list Z :=
  let i := Z.to_nat (Z.shiftr (u8 c) 3) in
  <[i := u8 (Z.lor (default 0 (b !! i)) (Z.shiftl 1 (Z.land c 7)))]> b.

Definition get_bit (b : list Z) (c : Z) : bool :=
  negb (Z.land (Z.shiftr (default 0 (b !! Z.to_nat (Z.shiftr (u8 c) 3))) (Z.land c 7)) 1 =? 0).

(** ** The state of a match attempt *)

(** [gstart], [gend] and [steps] of [struct re_ctx]; [best_end], [best_g] and
    [best_ge] of [struct top_ctx]. *)
Record rx := Rx {
  gstart : list Z; gend : list Z; steps : Z;
  best_end : Z; best_g : list Z; best_ge : list Z
}.

Definition set_gstart (g : list Z) (x : rx) : rx :=
  Rx g (gend x) (steps x) (best_end x) (best_g x) (best_ge x).
Definition set_gend (g : list Z) (x : rx) : rx :=
  Rx (gstart x) g (steps x) (best_end x) (best_g x) (best_ge x).
Definition set_steps (n : Z) (x : rx) : rx :=
  Rx (gstart x) (gend x) n (best_end x) (best_g x) (best_ge x).
Definition set_best (e : Z) (g ge : list Z) (x : rx) : rx :=
  Rx (gstart x) (gend x) (steps x) e g ge.

Abbreviation X := (St rx).
(** A continuation: the rest of the pattern, from a position on. *)
Abbreviation cont := (Z -> X bool).

(** Array accesses: a fault outside the array. *)
Definition at_index (l : list Z) (i : Z) : X Z :=
  fun x => if i <? 0 then None else match l !! Z.to_nat i with Some c => Some (c, x) | None => None end.

Definition put_gstart (i v : Z) : X unit :=
  let* g := gets gstart in
  at_index g i ;;* modify (set_gstart (<[Z.to_nat i := v]> g)).
Definition put_gend (i v : Z) : X unit :=
  let* g := gets gend in
  at_index g i ;;* modify (set_gend (<[Z.to_nat i := v]> g)).

Section Matcher.
(** [rc->s], [rc->len], [rc->cflags], [rc->eflags] *)
Context (s : list Z) (len : Z) (cflags eflags : Z).

Definition ch_eq (a b : Z) : bool :=
  (a =? b) || (flag cflags REG_ICASE && (tolower (u8 a) =? tolower (u8 b))).

(** [if (c) return 1; d] *)
Definition orelse (c d : X bool) : X bool :=
  let* r := c in if (r : bool) then ret true else d.

Definition kgrp_fn (idx : Z) (k : cont) (pos : Z) : X bool :=
  let* ge := gets gend in
  let* old := at_index ge idx in
  put_gend idx pos ;;*
  orelse (k pos) (put_gend idx old ;;* ret false).

(** [m_rep] and its continuation [krep_fn]; [body] is [m_seq] on the operand. *)
Section Rep.
Context (body : Z -> cont -> X bool) (min max : Z) (k : cont).

Definition krep_fn (m_rep : Z -> Z -> X bool) (done prev pos : Z) : X bool :=
  if pos =? prev then (if done + 1 >=? min then k pos else ret false)
  else m_rep (done + 1) pos.

Fixpoint m_rep (fuel : nat) (done pos : Z) : X bool :=
  match fuel with
  | O => fault
  | S fuel =>
      orelse (if done >=? min then k pos else ret false)
        (if (max >=? 0) && (done >=? max) then ret false
         else body pos (krep_fn (m_rep fuel) done pos))
  end.
End Rep.

(** The loop that compares a back reference with its group. *)
Fixpoint same_text (n : nat) (gs pos : Z) : X bool :=
  match n with
  | O => ret true
  | S n =>
      let* a := at_index s gs in
      let* b := at_index s pos in
      if negb (ch_eq a b) then ret false else same_text n (gs + 1) (pos + 1)
  end.

(** The class test of [OP_CLASS]. *)
Definition class_hit (cls : list Z) (neg : bool) (c : Z) : bool :=
  let hit := get_bit cls c in
  let hit := if flag cflags REG_ICASE
             then hit || get_bit cls (tolower (u8 c)) || get_bit cls (toupper (u8 c)) else hit in
  if neg then (if flag cflags REG_NEWLINE && (c =? 10) then false else negb hit) else hit.

(** [m_seq] over the nodes still to match, given [m_node]. *)
Definition seq_of (m_node : cnode -> Z -> cont -> X bool) : list cnode -> Z -> cont -> X bool :=
  fix m_seq (q : list cnode) (pos : Z) (k : cont) : X bool :=
    match q with
    | [] => k pos
    | n :: q => m_node n pos (fun pos => m_seq q pos k)
    end.

(** The loop of [OP_ALT]. *)
Definition alts_of (m_seq : list cnode -> Z -> cont -> X bool) : list (list cnode) -> Z -> cont -> X bool :=
  fix go (alts : list (list cnode)) (pos : Z) (k : cont) : X bool :=
    match alts with
    | [] => ret false
    | q :: alts => orelse (m_seq q pos k) (go alts pos k)
    end.

Definition one_char (hit : Z -> bool) (pos : Z) (k : cont) : X bool :=
  if pos >=? len then ret false
  else let* c := at_index s pos in if hit c then k (pos + 1) else ret false.

Definition is_newline (pos : Z) : X bool := let* c := at_index s pos in ret (c =? 10).

Fixpoint m_node (n : cnode) (pos : Z) (k : cont) : X bool :=
  let* st := gets steps in
  modify (set_steps (st + 1)) ;;*
  if st >? REG_STEP_LIMIT then ret true
  else
    match n with
    | OP_CHAR ch => one_char (fun c => ch_eq c ch) pos k
    | OP_ANY => one_char (fun c => negb (flag cflags REG_NEWLINE && (c =? 10))) pos k
    | OP_CLASS cls neg => one_char (class_hit cls neg) pos k
    | OP_BOL =>
        if (pos =? 0) && negb (flag eflags REG_NOTBOL) then k pos
        else
          let* nl := (if flag cflags REG_NEWLINE && (pos >? 0) then is_newline (pos - 1) else ret false) in
          if (nl : bool) then k pos else ret false
    | OP_EOL =>
        if (pos =? len) && negb (flag eflags REG_NOTEOL) then k pos
        else
          let* nl := (if flag cflags REG_NEWLINE && (pos <? len) then is_newline pos else ret false) in
          if (nl : bool) then k pos else ret false
    | OP_GROUP idx sub =>
        let* gs := gets gstart in
        let* ge := gets gend in
        let* old_s := at_index gs idx in
        let* old_e := at_index ge idx in
        put_gstart idx pos ;;*
        orelse (seq_of m_node sub pos (kgrp_fn idx k))
          (put_gstart idx old_s ;;* put_gend idx old_e ;;* ret false)
    | OP_BACKREF idx =>
        let* gs := gets gstart in
        let* ge := gets gend in
        let* gs := at_index gs idx in
        let* ge := at_index ge idx in
        if (gs <? 0) || (ge <? 0) || (ge <? gs) then ret false
        else
          let gl := ge - gs in
          if pos + gl >? len then ret false
          else
            let* same := same_text (Z.to_nat gl) gs pos in
            if (same : bool) then k (pos + gl) else ret false
    | OP_ALT alts => alts_of (seq_of m_node) alts pos k
    | OP_REP sub min max => m_rep (seq_of m_node sub) min max k (S (Z.to_nat (len - pos))) 0 pos
    end.

Definition m_seq : list cnode -> Z -> cont -> X bool := seq_of m_node.

(** ** The top-level continuation *)

(** Over the groups that are left: is [(gs, ge)] better than [(bs, be)]? *)
Fixpoint better_loop (gs ge bs be : list Z) : bool :=
  match gs, ge, bs, be with
  | a_so :: gs, a_eo :: ge, b_so :: bs, b_eo :: be =>
      let a_len := if (a_so >=? 0) && (a_eo >=? a_so) then a_eo - a_so else -1 in
      let b_len := if (b_so >=? 0) && (b_eo >=? b_so) then b_eo - b_so else -1 in
      if negb (a_len =? b_len) then a_len >? b_len
      else if (a_len >? 0) && negb (a_so =? b_so) then a_so <? b_so
      else better_loop gs ge bs be
  | _, _, _, _ => false
  end.

(** From group 1 on. *)
Definition better_subgroups (x : rx) : bool :=
  better_loop (tail (gstart x)) (tail (gend x)) (tail (best_g x)) (tail (best_ge x)).

Definition top_fn : cont := fun pos =>
  let* x := gets id in
  (if (pos >? best_end x) || ((pos =? best_end x) && (best_end x >=? 0) && better_subgroups x)
   then modify (set_best pos (gstart x) (gend x)) else ret tt) ;;*
  ret false.

(** One start position: [best_g] and [best_ge] are not read before they are set. *)
Definition unset : list Z := replicate (Z.to_nat (REG_NGROUPS + 1)) (-1).

Definition attempt (top : list cnode) (start : Z) : option rx :=
  '(_, x) ← m_seq top start top_fn (Rx unset unset 0 (-1) unset unset);
  Some x.

End Matcher.

(** ** The search *)

Record program := Program { top : list cnode; ngroup : Z; prog_cflags : Z }.

(** [pmatch[1..nmatch-1]] *)
Definition report (prog : program) (start : Z) (x : rx) (nmatch : nat) : list (Z * Z) :=
  match nmatch with
  | O => []
  | S _ =>
      (start, best_end x)
      :: map (fun i => if Z.of_nat i <=? ngroup prog
                       then (default (-1) (best_g x !! i), default (-1) (best_ge x !! i)) else (-1, -1))
           (seq 1 (nmatch - 1))
  end.

(** The loop over the start positions; [None] is a fault or a lack of fuel. *)
Fixpoint search (fuel : nat) (prog : program) (s : list Z) (len eflags start : Z)
    : option (option (Z * rx)) :=
  match fuel with
  | O => None
  | S fuel =>
      if start <=? len then
        x ← attempt s len (prog_cflags prog) eflags (top prog) start;
        if best_end x >=? 0 then Some (Some (start, x))
        else search fuel prog s len eflags (start + 1)
      else Some None
  end.

(** [start_off] and [len]: [slen] is [strlen(string)]; [pm0] is [pmatch[0]] at
    entry when [pmatch] is not null. *)
Definition match_range (slen : Z) (nmatch : nat) (pm0 : option (Z * Z)) (eflags : Z) : option (Z * Z) :=
  match pm0, flag eflags REG_STARTEND && bool_decide (0 < nmatch)%nat with
  | Some (so, eo), true => if (so <? 0) || (eo <? so) then None else Some (so, eo)
  | _, _ => Some (0, slen)
  end.

(** [s] is the memory from [string] on, as far as the matched range reaches.
    The result is the return value and what is stored in [pmatch]. *)
Definition regexec (preg : option program) (s : option (list Z)) (slen : Z) (nmatch : nat)
    (pm0 : option (Z * Z)) (eflags : Z) : option (Z * option (list (Z * Z))) :=
  match preg, s with
  | Some prog, Some s =>
      match match_range slen nmatch pm0 eflags with
      | None => Some (REG_NOMATCH, None)
      | Some (start_off, len) =>
          r ← search (S (S (Z.to_nat (len - start_off)))) prog s len eflags start_off;
          match r with
          | None => Some (REG_NOMATCH, None)
          | Some (start, x) =>
              Some (0, match pm0 with
                       | Some _ => if bool_decide (0 < nmatch)%nat then Some (report prog start x nmatch) else None
                       | None => None end)
          end
      end
  | _, _ => Some (REG_NOMATCH, None)
  end.

(** ** The reference semantics

    [caps] is the pair of capture arrays.  [paths n pos c] lists where the ways
    of matching [n] from [pos] end, and the captures they leave. *)

Abbreviation caps := (list Z * list Z)%type.

Definition caps_of (x : rx) : caps := (gstart x, gend x).
Definition mark_start (idx pos : Z) (c : caps) : caps := (<[Z.to_nat idx := pos]> c.1, c.2).
Definition mark_end (idx pos : Z) (c : caps) : caps := (c.1, <[Z.to_nat idx := pos]> c.2).
Definition cap (idx : Z) (c : caps) : Z * Z :=
  (default (-1) (c.1 !! Z.to_nat idx), default (-1) (c.2 !! Z.to_nat idx)).

Section Reference.
Context (s : list Z) (len : Z) (cflags eflags : Z).

(** The character at a position. *)
Definition byte (pos : Z) : Z := default 0 (s !! Z.to_nat pos).

Definition at_bol (pos : Z) : bool :=
  ((pos =? 0) && negb (flag eflags REG_NOTBOL))
  || (flag cflags REG_NEWLINE && (pos >? 0) && (byte (pos - 1) =? 10)).
Definition at_eol (pos : Z) : bool :=
  ((pos =? len) && negb (flag eflags REG_NOTEOL))
  || (flag cflags REG_NEWLINE && (pos <? len) && (byte pos =? 10)).

(** The characters a one-character node accepts. *)
Definition accepts (n : cnode) (c : Z) : bool :=
  match n with
  | OP_CHAR ch => ch_eq cflags c ch
  | OP_ANY => negb (flag cflags REG_NEWLINE && (c =? 10))
  | OP_CLASS cls neg => class_hit cflags cls neg c
  | _ => false
  end.

Definition one_path (hit : bool) (pos : Z) (c : caps) : list (Z * caps) :=
  if hit then [(pos, c)] else [].

Definition text_eq (n : nat) (gs pos : Z) : bool :=
  forallb (fun i => ch_eq cflags (byte (gs + Z.of_nat i)) (byte (pos + Z.of_nat i))) (seq 0 n).

Definition backref_path (idx pos : Z) (c : caps) : list (Z * caps) :=
  let '(gs, ge) := cap idx c in
  one_path ((0 <=? gs) && (gs <=? ge) && (pos + (ge - gs) <=? len) && text_eq (Z.to_nat (ge - gs)) gs pos)
    (pos + (ge - gs)) c.

Fixpoint rep_paths (body : Z -> caps -> list (Z * caps)) (min max : Z) (fuel : nat) (done pos : Z) (c : caps)
    : list (Z * caps) :=
  match fuel with
  | O => []
  | S fuel =>
      (if done >=? min then [(pos, c)] else [])
      ++ (if (max >=? 0) && (done >=? max) then []
          else body pos c ≫= fun '(p, c') =>
                 if p =? pos then (if done + 1 >=? min then [(p, c')] else [])
                 else rep_paths body min max fuel (done + 1) p c')
  end.

Definition seq_paths_of (paths : cnode -> Z -> caps -> list (Z * caps)) :=
  fix seq_paths (q : list cnode) (pos : Z) (c : caps) : list (Z * caps) :=
    match q with
    | [] => [(pos, c)]
    | n :: q => paths n pos c ≫= fun '(p, c') => seq_paths q p c'
    end.

Fixpoint paths (n : cnode) (pos : Z) (c : caps) : list (Z * caps) :=
  match n with
  | OP_CHAR _ | OP_ANY | OP_CLASS _ _ => one_path ((pos <? len) && accepts n (byte pos)) (pos + 1) c
  | OP_BOL => one_path (at_bol pos) pos c
  | OP_EOL => one_path (at_eol pos) pos c
  | OP_GROUP idx sub =>
      seq_paths_of paths sub pos (mark_start idx pos c) ≫= fun '(p, c') => [(p, mark_end idx p c')]
  | OP_BACKREF idx => backref_path idx pos c
  | OP_ALT alts => concat (map (fun q => seq_paths_of paths q pos c) alts)
  | OP_REP sub min max => rep_paths (seq_paths_of paths sub) min max (S (Z.to_nat (len - pos))) 0 pos c
  end.

Definition seq_paths : list cnode -> Z -> caps -> list (Z * caps) := seq_paths_of paths.

End Reference.

(** The best match of a list of paths: the longest, then the better captures,
    then the first. *)
Definition best : Type := Z * list Z * list Z.
Definition best_of (x : rx) : best := (best_end x, best_g x, best_ge x).
Definition pick (b : best) (p : Z * caps) : best :=
  let '(e, g, ge) := b in
  let '(pos, (gs, gn)) := p in
  if (pos >? e) || ((pos =? e) && (e >=? 0) && better_loop (tail gs) (tail gn) (tail g) (tail ge))
  then (pos, gs, gn) else b.

(** The spans a pattern denotes.  Back references are not regular: [den] leaves
    them out. *)
Section Denotation.
Context (s : list Z) (len : Z) (cflags eflags : Z).

Fixpoint iter (k : nat) (R : Z -> Z -> Prop) (p q : Z) : Prop :=
  match k with
  | O => p = q
  | S k => exists m, R p m /\ iter k R m q
  end.

Definition seq_den_of (den : cnode -> Z -> Z -> Prop) :=
  fix seq_den (q : list cnode) (p e : Z) : Prop :=
    match q with
    | [] => p = e
    | n :: q => exists m, den n p m /\ seq_den q m e
    end.

Definition alt_den_of (seq_den : list cnode -> Z -> Z -> Prop) :=
  fix alt_den (alts : list (list cnode)) (p e : Z) : Prop :=
    match alts with
    | [] => False
    | q :: alts => seq_den q p e \/ alt_den alts p e
    end.

Fixpoint den (n : cnode) (p e : Z) : Prop :=
  match n with
  | OP_CHAR _ | OP_ANY | OP_CLASS _ _ => p < len /\ accepts cflags n (byte s p) = true /\ e = p + 1
  | OP_BOL => at_bol s cflags eflags p = true /\ e = p
  | OP_EOL => at_eol s len cflags eflags p = true /\ e = p
  | OP_GROUP _ sub => seq_den_of den sub p e
  | OP_BACKREF _ => False
  | OP_ALT alts => alt_den_of (seq_den_of den) alts p e
  | OP_REP sub min max =>
      exists k : nat, min <= Z.of_nat k /\ (max < 0 \/ Z.of_nat k <= max) /\ iter k (seq_den_of den sub) p e
  end.

Definition seq_den : list cnode -> Z -> Z -> Prop := seq_den_of den.

End Denotation.

(** The group numbers of a pattern are indices of the capture arrays. *)
Fixpoint groups_ok (n : cnode) : bool :=
  match n with
  | OP_GROUP idx sub => (0 <=? idx) && (idx <=? REG_NGROUPS) && forallb groups_ok sub
  | OP_BACKREF idx => (0 <=? idx) && (idx <=? REG_NGROUPS)
  | OP_ALT alts => forallb (forallb groups_ok) alts
  | OP_REP sub _ _ => forallb groups_ok sub
  | _ => true
  end.

(** Induction over the tree, with the hypothesis for every operand. *)
Section Induction.
Context (P : cnode -> Prop)
  (Hchar : forall ch, P (OP_CHAR ch)) (Hany : P OP_ANY) (Hclass : forall cls neg, P (OP_CLASS cls neg))
  (Hbol : P OP_BOL) (Heol : P OP_EOL)
  (Hgroup : forall idx sub, Forall P sub -> P (OP_GROUP idx sub))
  (Hback : forall idx, P (OP_BACKREF idx))
  (Halt : forall alts, Forall (Forall P) alts -> P (OP_ALT alts))
  (Hrep : forall sub min max, Forall P sub -> P (OP_REP sub min max)).

Fixpoint cnode_tree_ind (n : cnode) : P n :=
  let all := fix all (q : list cnode) : Forall P q :=
    match q with [] => List.Forall_nil _ | n :: q => List.Forall_cons _ _ _ (cnode_tree_ind n) (all q) end in
  match n with
  | OP_CHAR ch => Hchar ch
  | OP_ANY => Hany
  | OP_CLASS cls neg => Hclass cls neg
  | OP_BOL => Hbol
  | OP_EOL => Heol
  | OP_GROUP idx sub => Hgroup idx sub (all sub)
  | OP_BACKREF idx => Hback idx
  | OP_ALT alts =>
      Halt alts ((fix each (l : list (list cnode)) : Forall (Forall P) l :=
        match l with [] => List.Forall_nil _ | q :: l => List.Forall_cons _ _ _ (all q) (each l) end) alts)
  | OP_REP sub min max => Hrep sub min max (all sub)
  end.
End Induction.

(** ** The matcher visits the paths *)

Section Explore.
Context (s : list Z) (len : Z) (cflags eflags : Z).
Hypothesis Hlen : 0 <= len <= Z.of_nat (length s).

Abbreviation visits := (list (Z * caps)).

Definition caps_ok (c : caps) : Prop :=
  length c.1 = 33%nat /\ length c.2 = 33%nat
  /\ Forall (fun v => -1 <= v <= len) c.1 /\ Forall (fun v => -1 <= v <= len) c.2.

(** [c], run on [x], offers the visits [L] to the best match: all of them, and
    then it answers false with the captures as they were; or, out of steps, the
    first few. *)
Definition runs (c : X bool) (x : rx) (L : visits) : Prop :=
  wp c x (fun r x' => steps x <= steps x' /\ exists l, l `prefix_of` L
    /\ best_of x' = fold_left pick l (best_of x)
    /\ if r then REG_STEP_LIMIT + 1 < steps x' else l = L /\ caps_of x' = caps_of x).

(** The continuation [k] makes the visits [P], from every position after [lo]. *)
Definition explores (lo : Z) (k : cont) (P : Z * caps -> visits) : Prop :=
  forall pos x, lo <= pos <= len -> caps_ok (caps_of x) -> runs (k pos) x (P (pos, caps_of x)).

Lemma runs_false x : runs (ret false) x [].
Proof. apply wp_ret. split; [lia|]. by exists []. Qed.

Lemma runs_pure {A} (c : X A) k x a L : c x = Some (a, x) -> runs (k a) x L -> runs (bind c k) x L.
Proof. unfold runs, wp. intros E. by rewrite (bind_run _ _ _ _ _ E). Qed.

(** Another way is tried when the first failed. *)
Lemma runs_orelse c d x L L2 :
  runs c x L ->
  (forall x', caps_of x' = caps_of x -> steps x <= steps x' -> runs d x' L2) ->
  runs (orelse c d) x (L ++ L2).
Proof.
  intros Hc Hd. unfold runs, orelse. apply wp_bind. eapply wp_mono; [exact Hc|].
  intros r x' (Hs & l & Hp & Hb & Hr). destruct r.
  - apply wp_ret. split; [done|]. exists l. split_and!; try done. by apply prefix_app_r.
  - destruct Hr as [-> Hr]. eapply wp_mono; [exact (Hd x' Hr Hs)|].
    intros r x2 (Hs2 & l2 & Hp2 & Hb2 & Hr2). split; [lia|]. exists (L ++ l2).
    split; [by apply prefix_app|]. rewrite fold_left_app, <- Hb. split; [done|].
    destruct r; [done|]. destruct Hr2 as [-> ->]. by rewrite Hr.
Qed.

(** A trial with a set-up before it and a clean-up after it failed. *)
Lemma runs_guard (init : X unit) c d x x1 L :
  init x = Some (tt, x1) -> best_of x1 = best_of x -> steps x1 = steps x -> runs c x1 L ->
  (forall x', caps_of x' = caps_of x1 -> exists x2,
     d x' = Some (false, x2) /\ steps x2 = steps x' /\ best_of x2 = best_of x' /\ caps_of x2 = caps_of x) ->
  runs (init ;;* orelse c d) x L.
Proof.
  intros Hi Hb1 Hs1 Hc Hd. unfold runs, wp. rewrite (bind_run _ _ _ _ _ Hi).
  fold (wp (orelse c d) x1 (fun r x' => steps x <= steps x' /\ exists l, l `prefix_of` L
    /\ best_of x' = fold_left pick l (best_of x)
    /\ if r then REG_STEP_LIMIT + 1 < steps x' else l = L /\ caps_of x' = caps_of x)).
  unfold orelse. apply wp_bind. eapply wp_mono; [exact Hc|].
  intros r x' (Hs & l & Hp & Hb & Hr). rewrite Hs1, Hb1 in *. destruct r.
  - apply wp_ret. split; [done|]. by exists l.
  - destruct Hr as [-> Hr]. destruct (Hd x' Hr) as (x2 & E & Hs2 & Hb2 & Hc2).
    apply (wp_run _ _ _ _ _ E). rewrite Hs2, Hb2. split; [done|]. by exists L.
Qed.

Lemma runs_step body x L :
  (steps x <= REG_STEP_LIMIT -> runs body (set_steps (steps x + 1) x) L) ->
  runs (let* st := gets steps in modify (set_steps (st + 1)) ;;*
        if st >? REG_STEP_LIMIT then ret true else body) x L.
Proof.
  intros Hb. unfold runs. wp_pure. rewrite Z.gtb_ltb. destruct (Z.ltb_spec REG_STEP_LIMIT (steps x)).
  - apply wp_ret. cbn [set_steps steps]. split; [lia|]. exists []. split_and!; [apply prefix_nil|done|lia].
  - eapply wp_mono; [exact (Hb ltac:(lia))|]. cbn [set_steps steps].
    intros r x' (Hs & l & Hp & Hl & Hr). split; [lia|]. by exists l.
Qed.

Lemma at_index_run l i x : 0 <= i < Z.of_nat (length l) -> at_index l i x = Some (default 0 (l !! Z.to_nat i), x).
Proof.
  intros Hi. unfold at_index. zdecide.
  destruct (lookup_lt_is_Some_2 l (Z.to_nat i) ltac:(lia)) as [c ->]. done.
Qed.

Lemma byte_run pos x : 0 <= pos < len -> at_index s pos x = Some (byte s pos, x).
Proof. intros. apply at_index_run. lia. Qed.

(** A test that either goes on or fails. *)
Lemma explores_test lo k P (b : bool) x p :
  explores lo k P -> lo <= p <= len -> caps_ok (caps_of x) ->
  runs (if b then k p else ret false) x (one_path b p (caps_of x) ≫= P).
Proof.
  intros Hk Hp Hc. destruct b; [|apply runs_false].
  simpl. rewrite app_nil_r. by apply Hk.
Qed.

Lemma one_char_runs lo hit pos k P x :
  explores lo k P -> 0 <= lo <= pos -> pos <= len -> caps_ok (caps_of x) ->
  runs (one_char s len hit pos k) x (one_path ((pos <? len) && hit (byte s pos)) (pos + 1) (caps_of x) ≫= P).
Proof.
  intros Hk Hlo Hp Hc. unfold one_char. rewrite Z.geb_leb. destruct (Z.ltb_spec pos len); zdecide.
  - eapply runs_pure; [apply byte_run; lia|]. simpl. apply (explores_test lo); [done..|lia|done].
  - apply runs_false.
Qed.

(** An anchor: a test of the position alone, or of a character next to it. *)
Lemma anchor_runs lo (b nl : bool) (c : bool) (i : Z) pos k P x :
  explores lo k P -> lo <= pos <= len -> (nl = true -> 0 <= i < len) -> caps_ok (caps_of x) ->
  c = b || (nl && (byte s i =? 10)) ->
  runs (if b then k pos
        else let* r := (if nl then is_newline s i else ret false) in if (r : bool) then k pos else ret false)
    x (one_path c pos (caps_of x) ≫= P).
Proof.
  intros Hk Hp Hi Hc ->. destruct b.
  - apply (explores_test lo _ _ true); done.
  - apply (runs_pure _ _ _ (nl && (byte s i =? 10))).
    + destruct nl; [|done]. unfold is_newline. by rewrite (bind_run _ _ _ _ _ (byte_run i x (Hi eq_refl))).
    + by apply (explores_test lo).
Qed.

Lemma caps_ok_marks idx pos c : 0 <= pos <= len -> caps_ok c ->
  caps_ok (mark_start idx pos c) /\ caps_ok (mark_end idx pos c).
Proof using Type.
  clear Hlen. intros Hp (H1 & H2 & H3 & H4). split; split_and!; simpl; rewrite ?length_insert; try done;
    apply Forall_insert; done || lia.
Qed.

Lemma put_gstart_run idx v x : caps_ok (caps_of x) -> 0 <= idx <= REG_NGROUPS ->
  put_gstart idx v x = Some (tt, set_gstart (<[Z.to_nat idx := v]> (gstart x)) x).
Proof.
  intros (H1 & _) Hi. unfold put_gstart, REG_NGROUPS, caps_of in *. simpl in *. unfold bind, gets.
  by rewrite at_index_run by lia.
Qed.

Lemma put_gend_run idx v x : caps_ok (caps_of x) -> 0 <= idx <= REG_NGROUPS ->
  put_gend idx v x = Some (tt, set_gend (<[Z.to_nat idx := v]> (gend x)) x).
Proof.
  intros (_ & H1 & _) Hi. unfold put_gend, REG_NGROUPS, caps_of in *. simpl in *. unfold bind, gets.
  by rewrite at_index_run by lia.
Qed.

Lemma cap_gstart idx x : caps_ok (caps_of x) -> 0 <= idx <= REG_NGROUPS ->
  at_index (gstart x) idx x = Some ((cap idx (caps_of x)).1, x)
  /\ gstart x !! Z.to_nat idx = Some (cap idx (caps_of x)).1.
Proof.
  intros (H1 & _) Hi. unfold REG_NGROUPS, caps_of, cap in *. simpl in *. rewrite at_index_run by lia.
  destruct (lookup_lt_is_Some_2 (gstart x) (Z.to_nat idx) ltac:(lia)) as [c ->]. done.
Qed.

Lemma cap_gend idx x : caps_ok (caps_of x) -> 0 <= idx <= REG_NGROUPS ->
  at_index (gend x) idx x = Some ((cap idx (caps_of x)).2, x)
  /\ gend x !! Z.to_nat idx = Some (cap idx (caps_of x)).2.
Proof.
  intros (_ & H1 & _) Hi. unfold REG_NGROUPS, caps_of, cap in *. simpl in *. rewrite at_index_run by lia.
  destruct (lookup_lt_is_Some_2 (gend x) (Z.to_nat idx) ltac:(lia)) as [c ->]. done.
Qed.

Lemma kgrp_explores lo idx k P : 0 <= lo -> 0 <= idx <= REG_NGROUPS -> explores lo k P ->
  explores lo (kgrp_fn idx k) (fun y => (let '(p, c) := y in [(p, mark_end idx p c)]) ≫= P).
Proof.
  intros Hlo Hi Hk pos x Hp Hc. unfold kgrp_fn.
  destruct (cap_gend idx x Hc Hi) as [E El].
  eapply runs_pure; [done|]. eapply runs_pure; [exact E|].
  set (x1 := set_gend (<[Z.to_nat idx := pos]> (gend x)) x).
  assert (Hx1 : caps_of x1 = mark_end idx pos (caps_of x)) by done.
  eapply (runs_guard _ _ _ _ x1); [by apply put_gend_run|done|done| |].
  - simpl. rewrite app_nil_r, <- Hx1. apply Hk; [done|]. rewrite Hx1. apply caps_ok_marks; [lia|done].
  - intros x' Hx'. eexists. unfold bind. rewrite put_gend_run; [|rewrite Hx', Hx1; apply caps_ok_marks; [lia|done]|done].
    split_and!; [done..|]. unfold caps_of in *. simpl in *. injection Hx' as -> ->. f_equal.
    rewrite list_insert_insert_eq. by apply list_insert_id.
Qed.

Lemma same_text_run n : forall gs pos x,
  0 <= gs -> gs + Z.of_nat n <= len -> 0 <= pos -> pos + Z.of_nat n <= len ->
  same_text s cflags n gs pos x = Some (text_eq s cflags n gs pos, x).
Proof.
  induction n as [|n IH]; intros gs pos x Hg1 Hg2 Hp1 Hp2; [done|].
  cbn [same_text]. rewrite (bind_run _ _ _ _ _ (byte_run gs x ltac:(lia))).
  rewrite (bind_run _ _ _ _ _ (byte_run pos x ltac:(lia))).
  unfold text_eq. cbn [seq forallb]. rewrite !Z.add_0_r. destruct (ch_eq cflags _ _); [|done].
  simpl. rewrite IH by lia. unfold text_eq. rewrite <- seq_shift, forallb_map. do 2 f_equal.
  apply forallb_pointwise. intros i. by rewrite !Nat2Z.inj_succ, <- !Z.add_1_l, !Z.add_assoc.
Qed.

(** [m_seq] on an operand, as a specification of the body of a repetition. *)
Definition follows (body : Z -> cont -> X bool) (B : Z -> caps -> visits) : Prop :=
  forall lo k P, 0 <= lo -> explores lo k P ->
    explores lo (fun pos => body pos k) (fun '(pos, c) => B pos c ≫= P).

Lemma rep_runs body B min max lo k P : follows body B -> 0 <= lo -> explores lo k P ->
  forall fuel done pos x, lo <= pos <= len -> caps_ok (caps_of x) -> (Z.to_nat (len - pos) < fuel)%nat ->
  runs (m_rep body min max k fuel done pos) x (rep_paths B min max fuel done pos (caps_of x) ≫= P).
Proof.
  intros HB Hlo Hk. induction fuel as [|fuel IH]; intros done pos x Hp Hc Hf; [lia|].
  cbn [m_rep rep_paths]. rewrite bind_app. apply runs_orelse.
  - apply (explores_test lo _ _ (done >=? min)); done.
  - intros x' Hx' _. destruct ((max >=? 0) && (done >=? max)); [apply runs_false|].
    rewrite bind_assoc, <- Hx' in *.
    apply (HB pos _ (fun y => (let '(p, c') := y in
              if p =? pos then (if done + 1 >=? min then [(p, c')] else [])
              else rep_paths B min max fuel (done + 1) p c') ≫= P)); [lia| |lia|done].
    intros p y Hpy Hy. unfold krep_fn. destruct (Z.eqb_spec p pos) as [->|].
    + apply (explores_test lo _ _ (done + 1 >=? min)); done.
    + apply IH; [lia|done|lia].
Qed.

Lemma seq_follows q : Forall (fun n => follows (m_node s len cflags eflags n) (paths s len cflags eflags n)) q ->
  follows (seq_of (m_node s len cflags eflags) q) (seq_paths_of (paths s len cflags eflags) q).
Proof.
  induction 1 as [|n q Hn _ IH]; intros lo k P Hlo Hk pos x Hp Hc.
  - cbn [seq_paths_of seq_of mbind list_bind]. rewrite app_nil_r. by apply Hk.
  - cbn [seq_paths_of seq_of]. rewrite bind_assoc.
    apply (Hn lo _ (fun y => (let '(p, c) := y in seq_paths_of (paths s len cflags eflags) q p c) ≫= P));
      [done| |done..].
    exact (IH lo k P Hlo Hk).
Qed.

Lemma backref_follows idx : 0 <= idx <= REG_NGROUPS ->
  follows (m_node s len cflags eflags (OP_BACKREF idx)) (paths s len cflags eflags (OP_BACKREF idx)).
Proof.
  intros Hi lo k P Hlo Hk pos x Hp Hc. cbn [m_node]. apply runs_step. intros _. cbv beta.
  set (y := set_steps _ x). change (caps_of x) with (caps_of y) in *. clearbody y.
  cbn [paths]. unfold backref_path.
  destruct (cap_gstart idx y Hc Hi) as [E1 L1], (cap_gend idx y Hc Hi) as [E2 L2].
  destruct (cap idx (caps_of y)) as [gs ge]. cbn [fst snd] in *.
  do 2 (eapply runs_pure; [done|]). do 2 (eapply runs_pure; [eassumption|]).
  pose proof Hc as (_ & _ & F1 & F2).
  pose proof (Forall_lookup_in _ _ _ _ F1 L1). pose proof (Forall_lookup_in _ _ _ _ F2 L2). cbv beta in *.
  destruct ((gs <? 0) || (ge <? 0) || (ge <? gs)) eqn:E.
  { replace ((0 <=? gs) && (gs <=? ge)) with false; [apply runs_false|].
    symmetry. apply andb_false_iff. rewrite !Z.leb_gt. rewrite !orb_true_iff, !Z.ltb_lt in E. lia. }
  rewrite !orb_false_iff, !Z.ltb_ge in E. destruct E as [[? ?] ?]. zdecide. cbn [andb]. cbv zeta.
  destruct (Z.leb_spec (pos + (ge - gs)) len); zdecide; [|apply runs_false].
  eapply runs_pure; [apply same_text_run; lia|].
  apply (explores_test lo); [done|lia|]. done.
Qed.

Lemma group_follows idx sub : 0 <= idx <= REG_NGROUPS ->
  follows (seq_of (m_node s len cflags eflags) sub) (seq_paths_of (paths s len cflags eflags) sub) ->
  follows (m_node s len cflags eflags (OP_GROUP idx sub)) (paths s len cflags eflags (OP_GROUP idx sub)).
Proof.
  intros Hi Hs lo k P Hlo Hk pos x Hp Hc. cbn [m_node]. apply runs_step. intros _. cbv beta.
  set (y := set_steps _ x). change (caps_of x) with (caps_of y) in *. clearbody y.
  cbn [paths]. destruct (cap_gstart idx y Hc Hi) as [E1 L1], (cap_gend idx y Hc Hi) as [E2 L2].
  do 2 (eapply runs_pure; [done|]). do 2 (eapply runs_pure; [eassumption|]).
  set (x1 := set_gstart (<[Z.to_nat idx := pos]> (gstart y)) y).
  assert (Hx1 : caps_of x1 = mark_start idx pos (caps_of y)) by done.
  assert (Hok : caps_ok (caps_of x1)) by (rewrite Hx1; apply caps_ok_marks; [lia|done]).
  eapply (runs_guard _ _ _ _ x1); [by apply put_gstart_run|done|done| |].
  - rewrite bind_assoc, <- Hx1.
    apply (Hs lo _ (fun y => (let '(p, c') := y in [(p, mark_end idx p c')]) ≫= P)); [done| |done..].
    by apply kgrp_explores.
  - intros x' Hx'. eexists. unfold bind. rewrite put_gstart_run by (rewrite ?Hx'; done).
    rewrite put_gend_run; [|change (caps_ok (mark_start idx (cap idx (caps_of y)).1 (caps_of x')))|done].
    + split_and!; [done..|]. unfold caps_of in *. simpl in *. injection Hx' as -> ->. f_equal.
      * rewrite list_insert_insert_eq. by apply list_insert_id.
      * by apply list_insert_id.
    + rewrite Hx', Hx1. unfold mark_start. simpl. rewrite list_insert_insert_eq. rewrite list_insert_id by done.
      exact Hc.
Qed.

Lemma alts_follow alts lo k P pos : 0 <= lo -> explores lo k P -> lo <= pos <= len ->
  Forall (fun q => follows (seq_of (m_node s len cflags eflags) q) (seq_paths_of (paths s len cflags eflags) q)) alts ->
  forall x, caps_ok (caps_of x) ->
  runs (alts_of (seq_of (m_node s len cflags eflags)) alts pos k) x
    (concat (map (fun q => seq_paths_of (paths s len cflags eflags) q pos (caps_of x)) alts) ≫= P).
Proof.
  intros Hlo Hk Hp. induction 1 as [|q alts Hq _ IH]; intros x Hc; [apply runs_false|].
  cbn [alts_of map concat]. rewrite bind_app. apply runs_orelse.
  - exact (Hq lo k P Hlo Hk pos x Hp Hc).
  - intros x' Hx' _. rewrite <- Hx' in *. auto.
Qed.

Lemma node_follows n : groups_ok n = true ->
  follows (m_node s len cflags eflags n) (paths s len cflags eflags n).
Proof.
  induction n as [ch| |cls neg| | |idx sub IH|idx|alts IH|sub min max IH] using cnode_tree_ind;
    cbn [groups_ok]; intros Hok.
  6: { apply andb_prop in Hok as [Hi Hok]. apply group_follows; [lia|].
       by eapply seq_follows, Forall_guarded. }
  6: { apply backref_follows. lia. }
  all: intros lo k P Hlo Hk pos x Hp Hc; cbn [m_node paths]; apply runs_step; intros _;
    set (y := set_steps _ x); change (caps_of x) with (caps_of y) in *; clearbody y.
  1-3: apply (one_char_runs lo); done || lia.
  1-2: cbv beta; eapply anchor_runs; [exact Hk|lia| |done|unfold at_bol, at_eol; f_equal].
  - rewrite Z.gtb_ltb, andb_true_iff, Z.ltb_lt. lia.
  - rewrite andb_true_iff, Z.ltb_lt. lia.
  - apply (alts_follow alts lo); try done.
    apply (Forall_guarded (forallb groups_ok)); [|done].
    revert IH. apply Forall_impl. intros q Hq Hqok. by eapply seq_follows, Forall_guarded.
  - apply (rep_runs _ _ _ _ lo); [|lia|done|lia|done|lia]. by eapply seq_follows, Forall_guarded.
Qed.

Lemma top_explores : explores 0 top_fn (fun y => [y]).
Proof.
  intros pos x Hp Hc. unfold runs, wp, top_fn, bind, gets, modify, ret, id.
  set (b := (pos >? best_end x) || _).
  assert (Hb : pick (best_of x) (pos, caps_of x) = if b then (pos, gstart x, gend x) else best_of x) by done.
  destruct b; (split; [simpl; lia|]); exists [(pos, caps_of x)]; by rewrite <- Hb || cbn [fold_left]; rewrite Hb.
Qed.

Lemma bind_visit (l : visits) : l ≫= (fun y => [y]) = l.
Proof. induction l as [|y l IH]; [done|]. cbn [mbind list_bind]. simpl. f_equal. exact IH. Qed.

Lemma attempt_spec top start : forallb groups_ok top = true -> 0 <= start <= len ->
  exists x l, attempt s len cflags eflags top start = Some x
    /\ l `prefix_of` seq_paths s len cflags eflags top start (unset, unset)
    /\ best_of x = fold_left pick l (-1, unset, unset)
    /\ (steps x <= REG_STEP_LIMIT + 1 -> l = seq_paths s len cflags eflags top start (unset, unset)).
Proof.
  intros Hok Hst. unfold attempt, m_seq, seq_paths.
  set (x0 := Rx _ _ _ _ _ _).
  assert (Hf : follows (seq_of (m_node s len cflags eflags) top) (seq_paths_of (paths s len cflags eflags) top)).
  { apply seq_follows, (Forall_guarded groups_ok); [|done]. apply Forall_true. apply node_follows. }
  assert (Hc : caps_ok (caps_of x0)).
  { unfold caps_ok, x0, caps_of. cbn [gstart gend fst snd].
    split_and!; try done; apply Forall_replicate; lia. }
  pose proof (Hf 0 top_fn _ ltac:(lia) top_explores start x0 ltac:(lia) Hc) as Hr.
  apply wp_total in Hr as (r & x & -> & Hs & l & Hp & Hb & Hl). cbv beta iota in Hp, Hl.
  replace (seq_paths_of (paths s len cflags eflags) top start (caps_of x0) ≫= (fun y => [y]))
    with (seq_paths_of (paths s len cflags eflags) top start (unset, unset)) in * by (symmetry; apply bind_visit).
  exists x, l. split_and!; [done..|]. destruct r; [lia|]. by destruct Hl.
Qed.
End Explore.

(** ** Where paths end *)

Section Ends.
Context (s : list Z) (len : Z) (cflags eflags : Z).

Lemma elem_of_one_path b p c q c' : (q, c') ∈ one_path b p c <-> b = true /\ q = p /\ c' = c.
Proof. destruct b; simpl; rewrite ?list_elem_of_singleton, ?elem_of_nil; naive_solver. Qed.

(** A step relation that only moves forward, up to the end. *)
Definition forward (B : Z -> caps -> list (Z * caps)) : Prop :=
  forall pos c p c', pos <= len -> (p, c') ∈ B pos c -> pos <= p <= len.

Lemma rep_forward B min max : forward B -> forall fuel done, forward (rep_paths B min max fuel done).
Proof.
  intros HB. induction fuel as [|fuel IH]; intros done pos c p c' Hp; cbn [rep_paths]; [by intros ?%elem_of_nil|].
  rewrite elem_of_app. intros [H|H].
  - destruct (done >=? min); [apply list_elem_of_singleton in H|by apply elem_of_nil in H]. naive_solver lia.
  - destruct (_ && _); [by apply elem_of_nil in H|]. apply list_elem_of_bind in H as ([p1 c1] & H & H1).
    apply HB in H1; [|done]. destruct (p1 =? pos).
    + destruct (done + 1 >=? min); [apply list_elem_of_singleton in H|by apply elem_of_nil in H]. naive_solver lia.
    + apply IH in H; lia.
Qed.

Lemma seq_forward q : Forall (fun n => forward (paths s len cflags eflags n)) q ->
  forward (seq_paths_of (paths s len cflags eflags) q).
Proof.
  induction 1 as [|n q Hn _ IH]; intros pos c p c' Hp; cbn [seq_paths_of].
  - rewrite list_elem_of_singleton. naive_solver lia.
  - intros ([p1 c1] & H & H1)%list_elem_of_bind. apply Hn in H1; [|done]. apply IH in H; lia.
Qed.

Lemma node_forward n : forward (paths s len cflags eflags n).
Proof.
  induction n as [ch| |cls neg| | |idx sub IH|idx|alts IH|sub min max IH] using cnode_tree_ind;
    intros pos c p c' Hp; cbn [paths].
  1-5: rewrite elem_of_one_path; try rewrite andb_true_iff, Z.ltb_lt; lia.
  - intros ([p1 c1] & H & H1)%list_elem_of_bind. apply (seq_forward sub IH) in H1; [|done].
    apply list_elem_of_singleton in H. naive_solver.
  - unfold backref_path. destruct (cap idx c) as [gs ge]. rewrite elem_of_one_path, !andb_true_iff, !Z.leb_le. lia.
  - intros (l & H & Hl)%list_elem_of_In%in_concat. apply in_map_iff in H as (q & <- & Hq).
    rewrite List.Forall_forall in IH. apply list_elem_of_In in Hl. exact (seq_forward q (IH q Hq) _ _ _ _ Hp Hl).
  - intros H. eapply rep_forward; [by apply seq_forward|exact Hp|exact H].
Qed.

Lemma seq_paths_forward q : forward (seq_paths s len cflags eflags q).
Proof. apply seq_forward, Forall_true, node_forward. Qed.

(** The captures stay within the string. *)
Definition keeps_caps (B : Z -> caps -> list (Z * caps)) : Prop :=
  forall pos c p c', 0 <= pos <= len -> caps_ok len c -> (p, c') ∈ B pos c -> caps_ok len c'.

Lemma rep_keeps B min max : forward B -> keeps_caps B ->
  forall fuel done, keeps_caps (rep_paths B min max fuel done).
Proof.
  intros HF HB. induction fuel as [|fuel IH]; intros done pos c p c' Hp Hc; cbn [rep_paths]; [by intros ?%elem_of_nil|].
  rewrite elem_of_app. intros [H|H].
  - destruct (done >=? min); [apply list_elem_of_singleton in H|by apply elem_of_nil in H]. naive_solver.
  - destruct (_ && _); [by apply elem_of_nil in H|]. apply list_elem_of_bind in H as ([p1 c1] & H & H1).
    pose proof (HF _ _ _ _ (proj2 Hp) H1). apply HB in H1; [|done..]. destruct (p1 =? pos).
    + destruct (done + 1 >=? min); [apply list_elem_of_singleton in H|by apply elem_of_nil in H]. naive_solver.
    + apply IH in H; done || lia.
Qed.

Lemma seq_keeps q : Forall (fun n => keeps_caps (paths s len cflags eflags n)) q ->
  keeps_caps (seq_paths_of (paths s len cflags eflags) q).
Proof.
  induction 1 as [|n q Hn _ IH]; intros pos c p c' Hp Hc; cbn [seq_paths_of].
  - rewrite list_elem_of_singleton. naive_solver.
  - intros ([p1 c1] & H & H1)%list_elem_of_bind. pose proof (node_forward _ _ _ _ _ (proj2 Hp) H1).
    apply Hn in H1; [|done..]. apply IH in H; done || lia.
Qed.

Lemma node_keeps n : keeps_caps (paths s len cflags eflags n).
Proof.
  induction n as [ch| |cls neg| | |idx sub IH|idx|alts IH|sub min max IH] using cnode_tree_ind;
    intros pos c p c' Hp Hc; cbn [paths].
  1-5: rewrite elem_of_one_path; naive_solver.
  - intros ([p1 c1] & [= -> ->]%list_elem_of_singleton & H1)%list_elem_of_bind.
    pose proof (seq_paths_forward _ _ _ _ _ (proj2 Hp) H1).
    apply (seq_keeps sub IH) in H1; [|done|by apply caps_ok_marks]. apply caps_ok_marks; [lia|done].
  - unfold backref_path. destruct (cap idx c) as [gs ge]. rewrite elem_of_one_path. naive_solver.
  - intros (l & H & Hl)%list_elem_of_In%in_concat. apply in_map_iff in H as (q & <- & Hq).
    rewrite List.Forall_forall in IH. apply list_elem_of_In in Hl. exact (seq_keeps q (IH q Hq) _ _ _ _ Hp Hc Hl).
  - intros H. eapply rep_keeps; [apply seq_paths_forward|by apply seq_keeps|exact Hp|exact Hc|exact H].
Qed.

End Ends.

(** ** The choice among the paths *)

Definition better (a b : caps) : bool := better_loop (tail a.1) (tail a.2) (tail b.1) (tail b.2).

Lemma better_irrefl gs : forall ge, better_loop gs ge gs ge = false.
Proof.
  induction gs as [|g gs IH]; intros [|e ge]; try done. cbn [better_loop]. cbv zeta.
  rewrite !Z.eqb_refl, andb_false_r. apply IH.
Qed.

Lemma better_trans : forall as_ ae bs be cs ce,
  better_loop as_ ae bs be = true -> better_loop bs be cs ce = true -> better_loop as_ ae cs ce = true.
Proof.
  induction as_ as [|a as_ IH]; intros [|ea ae] [|b bs] [|eb be] [|c cs] [|ec ce]; try done.
  cbn [better_loop]. cbv zeta.
  generalize (if (a >=? 0) && (ea >=? a) then ea - a else -1). intros la.
  generalize (if (b >=? 0) && (eb >=? b) then eb - b else -1). intros lb.
  generalize (if (c >=? 0) && (ec >=? c) then ec - c else -1). intros lc.
  specialize (IH ae bs be cs ce). rewrite !Z.gtb_ltb.
  destruct (Z.eqb_spec la lb), (Z.eqb_spec lb lc), (Z.eqb_spec la lc); cbn [negb]; try lia;
  destruct (Z.ltb_spec 0 la), (Z.ltb_spec 0 lb); cbn [andb]; try lia;
  destruct (Z.eqb_spec a b), (Z.eqb_spec b c), (Z.eqb_spec a c); cbn [negb]; try lia; auto.
Qed.

Lemma better_caps_trans a b c : better a b = true -> better b c = true -> better a c = true.
Proof. apply better_trans. Qed.

(** [b] is a best one of the paths [l]: reached, not shorter than any, and none
    as long has better captures. *)
Definition best_among (l : list (Z * caps)) (e : Z) (g : caps) : Prop :=
  (e, g) ∈ l /\ forall p c, (p, c) ∈ l -> p <= e /\ (p = e -> better c g = false).

Lemma pick_best l : forall done b,
  (done = [] /\ b.1.1 = -1 \/ best_among done b.1.1 (b.1.2, b.2)) -> (forall p c, (p, c) ∈ done ++ l -> 0 <= p) ->
  let '(e, g, ge) := fold_left pick l b in
  (done ++ l = [] /\ e = -1) \/ best_among (done ++ l) e (g, ge).
Proof.
  induction l as [|[p c] l IH]; intros done [[e g] ge] Hd Hpos; [by rewrite app_nil_r|].
  cbn [fold_left]. rewrite (cons_middle (p, c)), app_assoc in *. apply IH; [|done]. right.
  assert (Hp : 0 <= p) by (apply (Hpos p c); set_solver). clear IH Hpos.
  destruct c as [gs gn]. unfold pick.
  change (better_loop (tail gs) (tail gn) (tail g) (tail ge)) with (better (gs, gn) (g, ge)).
  rewrite Z.gtb_ltb, Z.geb_leb. cbn [fst snd] in *. destruct Hd as [[-> ->]|[Hin Hmax]].
  - replace (-1 <? p) with true by lia. cbn [orb fst snd app]. split; [set_solver|].
    intros q c [= -> ->]%list_elem_of_singleton. split; [lia|]. intros _. apply better_irrefl.
  - destruct (Z.ltb_spec e p); [|destruct (Z.eqb_spec p e) as [->|]; [destruct (better (gs, gn) (g, ge)) eqn:E|]];
      cbn [orb andb fst snd]; zdecide; cbn [andb fst snd].
    + split; [set_solver|]. intros q c [Hq|[= -> ->]%list_elem_of_singleton]%elem_of_app.
      * apply Hmax in Hq. lia.
      * split; [lia|]. intros _. apply better_irrefl.
    + split; [set_solver|]. intros q c [Hq|[= -> ->]%list_elem_of_singleton]%elem_of_app.
      * destruct (Hmax _ _ Hq) as [? Hn]. split; [done|]. intros ->. specialize (Hn eq_refl).
        destruct (better c (gs, gn)) eqn:E2; [|done]. by rewrite (better_caps_trans _ _ _ E2 E) in Hn.
      * split; [lia|]. intros _. apply better_irrefl.
    + split; [set_solver|]. intros q c [Hq|[= -> ->]%list_elem_of_singleton]%elem_of_app; [by apply Hmax|]. done.
    + split; [set_solver|]. intros q c [Hq|[= -> ->]%list_elem_of_singleton]%elem_of_app; [by apply Hmax|]. lia.
Qed.

(** ** The denotation *)

(** A conservative test for matching the empty string. *)
Fixpoint nullable (n : cnode) : bool :=
  match n with
  | OP_CHAR _ | OP_ANY | OP_CLASS _ _ => false
  | OP_BOL | OP_EOL | OP_BACKREF _ => true
  | OP_GROUP _ sub => forallb nullable sub
  | OP_ALT alts => existsb (forallb nullable) alts
  | OP_REP sub min _ => (min <=? 0) || forallb nullable sub
  end.

(** No back reference, and no operand that can match the empty string under a
    minimum of two or more. *)
Fixpoint regular (n : cnode) : bool :=
  match n with
  | OP_BACKREF _ => false
  | OP_GROUP _ sub => forallb regular sub
  | OP_ALT alts => forallb (forallb regular) alts
  | OP_REP sub min _ => forallb regular sub && ((min <=? 1) || negb (forallb nullable sub))
  | _ => true
  end.

Section Agreement.
Context (s : list Z) (len : Z) (cflags eflags : Z).
Abbreviation node_den := (den s len cflags eflags).
Abbreviation node_paths := (paths s len cflags eflags).

Lemma iter_forward (R : Z -> Z -> Prop) k : (forall p e, R p e -> p <= e) -> forall p e, iter k R p e -> p <= e.
Proof.
  intros HR. induction k as [|k IH]; intros p e; cbn [iter]; [lia|]. intros (m & Hm%HR & He%IH). lia.
Qed.

Lemma seq_den_forward q : Forall (fun n => forall p e, node_den n p e -> p <= e) q ->
  forall p e, seq_den_of node_den q p e -> p <= e.
Proof.
  induction 1 as [|n q Hn _ IH]; intros p e; cbn [seq_den_of]; [lia|]. intros (m & Hm%Hn & He%IH). lia.
Qed.

Lemma alt_den_elem (S : list cnode -> Z -> Z -> Prop) alts p e :
  alt_den_of S alts p e <-> exists q, q ∈ alts /\ S q p e.
Proof.
  induction alts as [|q alts IH]; cbn [alt_den_of]; [set_solver|]. rewrite IH. set_solver.
Qed.

Lemma den_forward n : forall p e, node_den n p e -> p <= e.
Proof.
  induction n as [ch| |cls neg| | |idx sub IH|idx|alts IH|sub min max IH] using cnode_tree_ind;
    intros p e; cbn [den]; try lia.
  - by apply seq_den_forward.
  - rewrite alt_den_elem. intros (q & Hq%list_elem_of_In & H). rewrite Forall_forall in IH.
    exact (seq_den_forward q (IH q Hq) p e H).
  - intros (k & _ & _ & H). eapply iter_forward; [|exact H]. by apply seq_den_forward.
Qed.

Lemma seq_den_nullable q : Forall (fun n => forall p, node_den n p p -> nullable n = true) q ->
  forall p, seq_den_of node_den q p p -> forallb nullable q = true.
Proof.
  induction 1 as [|n q Hn _ IH]; intros p; cbn [seq_den_of forallb]; [done|]. intros (m & Hm & Hq).
  assert (m = p) as ->.
  { apply den_forward in Hm. apply seq_den_forward in Hq; [lia|]. apply Forall_true, den_forward. }
  by rewrite (Hn p Hm), (IH p Hq).
Qed.

Lemma den_nullable n : forall p, node_den n p p -> nullable n = true.
Proof.
  induction n as [ch| |cls neg| | |idx sub IH|idx|alts IH|sub min max IH] using cnode_tree_ind;
    intros p; cbn [den nullable]; try lia; try done.
  - by apply seq_den_nullable.
  - rewrite alt_den_elem. intros (q & Hq%list_elem_of_In & H). rewrite Forall_forall in IH.
    apply existsb_exists. exists q. split; [done|]. exact (seq_den_nullable q (IH q Hq) p H).
  - intros (k & Hk & _ & H). destruct k as [|k]; [replace (min <=? 0) with true by lia; done|].
    cbn [iter] in H. destruct H as (m & H1 & H2).
    assert (Hf : forall p e, seq_den_of node_den sub p e -> p <= e) by (apply seq_den_forward, Forall_true, den_forward).
    assert (m = p) as -> by (apply (iter_forward _ _ Hf) in H2; apply Hf in H1; lia).
    rewrite (seq_den_nullable sub IH p H1). apply orb_true_r.
Qed.

(** Paths and spans agree. *)
Definition agrees (B : Z -> caps -> list (Z * caps)) (R : Z -> Z -> Prop) : Prop :=
  forall p c e, p <= len -> (exists c', (e, c') ∈ B p c) <-> R p e.

Lemma rep_sound B R min max : agrees B R -> forward len B -> forall fuel done p c e c',
  p <= len -> (max < 0 \/ done <= max) -> (e, c') ∈ rep_paths B min max fuel done p c ->
  exists k : nat, min <= done + Z.of_nat k /\ (max < 0 \/ done + Z.of_nat k <= max) /\ iter k R p e.
Proof.
  intros HA HF. induction fuel as [|fuel IH]; intros done p c e c' Hp Hmax; cbn [rep_paths]; [by intros ?%elem_of_nil|].
  rewrite elem_of_app. intros [H|H].
  - rewrite Z.geb_leb in H. destruct (Z.leb_spec min done); [|by apply elem_of_nil in H].
    apply list_elem_of_singleton in H as [= -> ->]. exists 0%nat. split_and!; [lia|lia|done].
  - rewrite !Z.geb_leb in H. destruct ((0 <=? max) && (max <=? done)) eqn:Em; [by apply elem_of_nil in H|].
    rewrite andb_false_iff, !Z.leb_gt in Em. apply list_elem_of_bind in H as ([p1 c1] & H & H1).
    assert (HR : R p p1) by (apply (HA p c); eauto). pose proof (HF _ _ _ _ Hp H1).
    destruct (Z.eqb_spec p1 p) as [->|].
    + destruct (Z.leb_spec min (done + 1)); [|by apply elem_of_nil in H].
      apply list_elem_of_singleton in H as [= -> ->]. exists 1%nat. split_and!; [lia|lia|]. by exists p.
    + apply IH in H as (k & Hk1 & Hk2 & Hk); [|lia..]. exists (S k). split_and!; [lia|lia|]. by exists p1.
Qed.

Lemma rep_complete B R min max : agrees B R -> forward len B -> (min <= 1 \/ forall p, ~ R p p) ->
  forall (k : nat) fuel done p c e,
  0 <= done -> p <= len -> min <= done + Z.of_nat k -> (max < 0 \/ done + Z.of_nat k <= max) ->
  (Z.to_nat (len - p) < fuel)%nat -> iter k R p e -> exists c', (e, c') ∈ rep_paths B min max fuel done p c.
Proof.
  intros HA HF Hm. induction k as [|k IH]; intros [|fuel] done p c e Hd Hp Hmin Hmax Hf; try lia; cbn [iter].
  - intros <-. exists c. cbn [rep_paths]. apply elem_of_app. left. rewrite Z.geb_leb. zdecide. by left.
  - intros (m & HR & Hk). destruct (proj2 (HA p c m Hp) HR) as [c1 H1]. pose proof (HF _ _ _ _ Hp H1).
    destruct (decide (m = p)) as [->|Hne].
    + destruct Hm as [Hm|Hm]; [|by apply Hm in HR].
      destruct (decide (min <= done + Z.of_nat k)); [apply IH; done || lia|].
      assert (k = 0%nat) as -> by lia. cbn [iter] in Hk. subst e. exists c1. cbn [rep_paths].
      apply elem_of_app. right. rewrite !Z.geb_leb. replace ((0 <=? max) && (max <=? done)) with false by lia.
      apply list_elem_of_bind. exists (p, c1). split; [|done]. rewrite Z.eqb_refl. zdecide. by left.
    + destruct (IH fuel (done + 1) m c1 e) as [c' H']; try lia; [done|]. exists c'. cbn [rep_paths].
      apply elem_of_app. right. rewrite !Z.geb_leb. replace ((0 <=? max) && (max <=? done)) with false by lia.
      apply list_elem_of_bind. exists (m, c1). split; [|done]. zdecide. done.
Qed.

Lemma seq_agrees q : Forall (fun n => agrees (node_paths n) (node_den n)) q ->
  agrees (seq_paths_of node_paths q) (seq_den_of node_den q).
Proof.
  induction 1 as [|n q Hn _ IH]; intros p c e Hp; cbn [seq_paths_of seq_den_of].
  - split; [by intros (c' & [= -> ->]%list_elem_of_singleton)|]. intros ->. exists c. by apply list_elem_of_singleton.
  - split.
    + intros (c' & ([m c1] & H & H1)%list_elem_of_bind). pose proof (node_forward _ _ _ _ _ _ _ _ _ Hp H1).
      exists m. split; [apply (Hn p c); eauto|apply (IH m c1); [lia|eauto]].
    + intros (m & H1 & H). apply (Hn p c) in H1 as [c1 H1]; [|done].
      pose proof (node_forward _ _ _ _ _ _ _ _ _ Hp H1). apply (IH m c1) in H as [c' H]; [|lia].
      exists c'. apply list_elem_of_bind. by exists (m, c1).
Qed.

Lemma one_agrees (b : Z -> bool) (next : Z -> Z) :
  agrees (fun p c => one_path (b p) (next p) c) (fun p e => b p = true /\ e = next p).
Proof. intros p c e Hp. setoid_rewrite elem_of_one_path. naive_solver. Qed.

Lemma node_agrees n : regular n = true -> agrees (node_paths n) (node_den n).
Proof.
  induction n as [ch| |cls neg| | |idx sub IH|idx|alts IH|sub min max IH] using cnode_tree_ind;
    cbn [regular]; intros Hr; try done.
  1-3: intros p c e Hp; cbn [paths den]; setoid_rewrite elem_of_one_path;
    setoid_rewrite andb_true_iff; setoid_rewrite Z.ltb_lt; naive_solver.
  1-2: apply one_agrees with (next := fun p => p).
  - apply (Forall_guarded _ _ _ IH), seq_agrees in Hr. intros p c e Hp. cbn [paths den].
    rewrite <- (Hr p (mark_start idx p c) e Hp). setoid_rewrite list_elem_of_bind.
    split; [intros (c' & [p1 c1] & [= -> ->]%list_elem_of_singleton & H); eauto|].
    intros (c' & H). exists (mark_end idx e c'), (e, c'). split; [by left|done].
  - intros p c e Hp. cbn [paths den]. rewrite alt_den_elem. rewrite Forall_forall in IH.
    rewrite forallb_forall in Hr.
    setoid_rewrite list_elem_of_In. setoid_rewrite in_concat. setoid_rewrite in_map_iff.
    assert (Hq : forall q, In q alts -> agrees (seq_paths_of node_paths q) (seq_den_of node_den q))
      by (intros q Hq; eapply seq_agrees, Forall_guarded; [by apply IH|by apply Hr]).
    split.
    + intros (c' & l & (q & <- & Hin) & H). exists q. split; [done|]. apply (Hq q Hin p c e Hp).
      exists c'. by apply list_elem_of_In.
    + intros (q & Hin & H). apply (Hq q Hin p c e Hp) in H as [c' H]. exists c'. eexists. split; [by eexists|].
      by apply list_elem_of_In.
  - apply andb_prop in Hr as [Hr Hn]. apply (Forall_guarded _ _ _ IH), seq_agrees in Hr.
    assert (HF : forward len (seq_paths_of node_paths sub)) by apply seq_paths_forward.
    intros p c e Hp. cbn [paths den]. split.
    + intros [c' H]. destruct (decide (max < 0 \/ 0 <= max)) as [Hm|]; [|lia].
      by destruct (rep_sound _ _ _ _ Hr HF _ _ _ _ _ _ Hp Hm H) as (k & ? & ? & ?); exists k.
    + intros (k & H1 & H2 & H3). apply (rep_complete _ _ _ _ Hr HF) with (k := k); try lia; [|done].
      apply orb_prop in Hn as [Hn|Hn]; [left; lia|right]. intros q Hq.
      rewrite (seq_den_nullable sub) with (p := q) in Hn; [done| |done]. apply Forall_true, den_nullable.
Qed.

End Agreement.

(** ** The search *)

Section Search.
Context (prog : program) (s : list Z) (len eflags : Z).
Hypothesis Hlen : 0 <= len <= Z.of_nat (length s).
Hypothesis Hok : forallb groups_ok (top prog) = true.

Abbreviation all_paths st := (seq_paths s len (prog_cflags prog) eflags (top prog) st (unset, unset)).
Definition captures (x : rx) : caps := (best_g x, best_ge x).

(** The attempt at [st] ended before the step limit. *)
Definition finishes (st : Z) : bool :=
  match attempt s len (prog_cflags prog) eflags (top prog) st with
  | Some x => steps x <=? REG_STEP_LIMIT + 1
  | None => false
  end.

(** What one attempt finds: a path if anything; within the step limit, a best
    one, and nothing only when there is none. *)
Definition found (st : Z) (x : rx) : Prop :=
  (0 <= best_end x -> (best_end x, captures x) ∈ all_paths st)
  /\ (finishes st = true ->
      (all_paths st = [] /\ best_end x = -1) \/ best_among (all_paths st) (best_end x) (captures x)).

Lemma attempt_found st : 0 <= st <= len ->
  exists x, attempt s len (prog_cflags prog) eflags (top prog) st = Some x /\ found st x.
Proof.
  intros Hst. destruct (attempt_spec s len (prog_cflags prog) eflags Hlen (top prog) st Hok Hst)
    as (x & l & E & Hp & Hb & Hl). exists x. split; [done|].
  assert (Hpick : (l = [] /\ best_end x = -1) \/ best_among l (best_end x) (captures x)).
  { pose proof (pick_best l [] (-1, unset, unset)) as H. cbn [app] in H. rewrite <- Hb in H. apply H; [by left|].
    intros p c Hin. eapply elem_of_prefix in Hin; [|exact Hp]. apply seq_paths_forward in Hin; lia. }
  split.
  - intros He. destruct Hpick as [[_ ?]|[Hin _]]; [lia|]. by eapply elem_of_prefix.
  - unfold finishes. rewrite E, Z.leb_le. intros Hs. by rewrite <- (Hl Hs).
Qed.

Lemma search_spec : forall fuel st, 0 <= st <= len + 1 -> len + 1 < st + Z.of_nat fuel ->
  (exists st1 x, search fuel prog s len eflags st = Some (Some (st1, x)) /\ st <= st1 <= len
     /\ 0 <= best_end x /\ found st1 x
     /\ forall st2, st <= st2 < st1 -> exists x2, best_end x2 < 0 /\ found st2 x2)
  \/ (search fuel prog s len eflags st = Some None
      /\ forall st2, st <= st2 <= len -> exists x2, best_end x2 < 0 /\ found st2 x2).
Proof.
  induction fuel as [|fuel IH]; intros st H0 Hf.
  - lia.
  - cbn [search]. destruct (Z.leb_spec st len); [|right; split; [done|lia]].
    destruct (attempt_found st ltac:(lia)) as (x & -> & Hx). cbn [mbind option_bind]. rewrite Z.geb_leb.
    destruct (Z.leb_spec 0 (best_end x)); [left; exists st, x; split_and!; try done; lia|].
    destruct (IH (st + 1) ltac:(lia) ltac:(lia)) as [(st1 & x1 & E & Hr & Hb & Hx1 & Hall)|[E Hall]].
    + left. exists st1, x1. split_and!; try done; try lia. intros st2 H2.
      destruct (decide (st2 = st)) as [->|]; [eauto|]. apply Hall. lia.
    + right. split; [done|]. intros st2 H2. destruct (decide (st2 = st)) as [->|]; [eauto|]. apply Hall. lia.
Qed.

(** Nothing found within the step limit: there is no path. *)
Lemma none_found st x : 0 <= st <= len -> found st x -> best_end x < 0 -> finishes st = true -> all_paths st = [].
Proof.
  intros Hst [_ Hf] Hb Hfin. destruct (Hf Hfin) as [[? _]|[Hin _]]; [done|].
  apply seq_paths_forward in Hin; lia.
Qed.

(** On regular patterns the paths are the spans. *)
Lemma regular_spans st e : forallb regular (top prog) = true -> st <= len ->
  (exists c, (e, c) ∈ all_paths st) <-> seq_den s len (prog_cflags prog) eflags (top prog) st e.
Proof.
  intros Hr Hst. apply seq_agrees; [|done]. eapply Forall_guarded; [|exact Hr]. apply Forall_true, node_agrees.
Qed.
End Search.

(** What [regexec] answers, in terms of the search. *)
Lemma regexec_search prog s slen nmatch pm0 eflags so len :
  match_range slen nmatch pm0 eflags = Some (so, len) -> 0 <= slen -> 0 <= len <= Z.of_nat (length s) ->
  forallb groups_ok (top prog) = true ->
  (exists st x, regexec (Some prog) (Some s) slen nmatch pm0 eflags
      = Some (0, match pm0 with
                 | Some _ => if bool_decide (0 < nmatch)%nat then Some (report prog st x nmatch) else None
                 | None => None end)
     /\ 0 <= so <= st /\ st <= len /\ 0 <= best_end x /\ found prog s len eflags st x
     /\ forall st2, so <= st2 < st -> exists x2, best_end x2 < 0 /\ found prog s len eflags st2 x2)
  \/ (regexec (Some prog) (Some s) slen nmatch pm0 eflags = Some (REG_NOMATCH, None)
      /\ 0 <= so
      /\ forall st2, so <= st2 <= len -> exists x2, best_end x2 < 0 /\ found prog s len eflags st2 x2).
Proof.
  intros Hr Hsl Hlen Hok. unfold regexec. rewrite Hr.
  assert (Hso : 0 <= so <= len).
  { unfold match_range in Hr. destruct pm0 as [[a b]|]; [|by injection Hr as <- <-].
    destruct (_ && _); [|by injection Hr as <- <-].
    destruct ((a <? 0) || (b <? a)) eqn:E; [done|]. injection Hr as <- <-. rewrite orb_false_iff in E. lia. }
  destruct (search_spec prog s len eflags Hlen Hok (S (S (Z.to_nat (len - so)))) so) as
    [(st & x & -> & H1 & H2 & H3 & H4)|[-> H]]; [lia..| |]; cbn [mbind option_bind].
  - left. exists st, x. split; [done|]. split_and!; try done; lia.
  - right. split_and!; [done|lia|done].
Qed.

(** C18: on a pattern without back references and without an operand that can be
    empty under a minimum of two or more (the case of
    [rep_empty_below_minimum]), and as long as no attempt reaches the limit of 4,000,000 steps, [regexec] finds a match exactly when the
    pattern denotes a span of the searched range, and reports the span that
    starts leftmost and, among those, is longest. *)
Theorem regexec_leftmost_longest prog s slen nmatch pm0 eflags so len :
  forallb groups_ok (top prog) = true -> forallb regular (top prog) = true ->
  match_range slen nmatch pm0 eflags = Some (so, len) -> 0 <= slen -> 0 <= len <= Z.of_nat (length s) ->
  (forall st, so <= st <= len -> finishes prog s len eflags st = true) ->
  let span := seq_den s len (prog_cflags prog) eflags (top prog) in
  (exists st e pm, regexec (Some prog) (Some s) slen nmatch pm0 eflags = Some (0, pm)
     /\ so <= st <= len /\ span st e
     /\ (forall st' e', so <= st' < st -> ~ span st' e') /\ (forall e', span st e' -> e' <= e)
     /\ (is_Some pm0 -> (0 < nmatch)%nat -> exists l, pm = Some ((st, e) :: l) /\ length l = (nmatch - 1)%nat))
  \/ (regexec (Some prog) (Some s) slen nmatch pm0 eflags = Some (REG_NOMATCH, None)
      /\ forall st e, so <= st <= len -> ~ span st e).
Proof.
  intros Hok Hreg Hr Hsl Hlen Hfin span.
  assert (Hnone : forall st x e, 0 <= so <= st -> st <= len -> found prog s len eflags st x -> best_end x < 0 -> ~ span st e).
  { intros st x e Hst Hst2 Hf Hb He. apply (regular_spans prog s len eflags st e Hreg) in He as [c Hc]; [|lia].
    rewrite (none_found prog s len eflags st x) in Hc; [by apply elem_of_nil in Hc|lia|done..|apply Hfin; lia]. }
  destruct (regexec_search prog s slen nmatch pm0 eflags so len Hr Hsl Hlen Hok) as
    [(st & x & E & H1 & H2 & H3 & [Hp Hf] & H5)|(E & H1 & H2)].
  - left. exists st, (best_end x). eexists. split; [exact E|]. split_and!; [lia|lia| | | |].
    + apply (regular_spans prog s len eflags st _ Hreg); eauto.
    + intros st' e' Hst'. destruct (H5 st' Hst') as (x2 & Hb & Hx2). apply (Hnone st' x2); done || lia.
    + intros e' [c Hc]%(regular_spans prog s len eflags st e' Hreg); [|lia].
      destruct (Hf (Hfin st ltac:(lia))) as [[_ ?]|[_ Hmax]]; [lia|]. by destruct (Hmax _ _ Hc).
    + intros [p ->] Hn. rewrite bool_decide_eq_true_2 by done. destruct nmatch as [|n]; [lia|]. cbn [report].
      eexists. split; [done|]. by rewrite length_map, length_seq.
  - right. split; [done|]. intros st e Hst. destruct (H2 st Hst) as (x2 & Hb & Hx2). apply (Hnone st x2); done || lia.
Qed.

Lemma cap_range len idx c : -1 <= len -> caps_ok len c ->
  -1 <= (cap idx c).1 <= len /\ -1 <= (cap idx c).2 <= len.
Proof.
  intros Hl (_ & _ & F1 & F2). unfold cap. cbn [fst snd]. split.
  - destruct (c.1 !! Z.to_nat idx) eqn:E; [exact (Forall_lookup_in _ _ _ _ F1 E)|simpl; lia].
  - destruct (c.2 !! Z.to_nat idx) eqn:E; [exact (Forall_lookup_in _ _ _ _ F2 E)|simpl; lia].
Qed.

(** POSIX 9.1: of two matches of the same length the one is preferred that has,
    at the first group in which they differ, the longer capture, or one of the
    same length that begins earlier; a group that is not set counts as shorter
    than an empty one. *)
Definition cap_len (i : Z) (c : caps) : Z :=
  if decide (0 <= (cap i c).1 <= (cap i c).2) then (cap i c).2 - (cap i c).1 else -1.

Definition same_cap (i : Z) (a b : caps) : Prop := cap_len i a = cap_len i b /\ (0 < cap_len i a -> (cap i a).1 = (cap i b).1).

Definition prefers (a b : caps) : Prop :=
  exists i, 1 <= i <= REG_NGROUPS /\ (forall j, 1 <= j < i -> same_cap j a b) /\
    (cap_len i b < cap_len i a \/ (cap_len i a = cap_len i b /\ 0 < cap_len i a /\ (cap i a).1 < (cap i b).1)).

Lemma cap_len_test i c : (if ((cap i c).1 >=? 0) && ((cap i c).2 >=? (cap i c).1) then (cap i c).2 - (cap i c).1 else -1) = cap_len i c.
Proof. unfold cap_len. destruct (decide _); destruct (Z.geb_spec (cap i c).1 0), (Z.geb_spec (cap i c).2 (cap i c).1); cbn; lia. Qed.

(** The loop over the groups from [k] on. *)
Lemma better_from d : forall k a b, length a.1 = 33%nat -> length a.2 = 33%nat -> length b.1 = 33%nat -> length b.2 = 33%nat ->
  (k + d <= 32)%nat -> (forall j, (k <= j < k + d)%nat -> same_cap (Z.of_nat j) a b) ->
  (let i := Z.of_nat (k + d) in cap_len i b < cap_len i a \/ (cap_len i a = cap_len i b /\ 0 < cap_len i a /\ (cap i a).1 < (cap i b).1)) ->
  better_loop (drop k a.1) (drop k a.2) (drop k b.1) (drop k b.2) = true.
Proof.
  induction d as [|d IH]; intros k a b L1 L2 L3 L4 Hk Hs Hw.
  all: assert (Hd : forall l : list Z, length l = 33%nat -> drop k l = default (-1) (l !! k) :: drop (S k) l)
    by (intros l Hl; destruct (lookup_lt_is_Some_2 l k ltac:(lia)) as [x Ex]; rewrite Ex; by apply drop_S).
  all: rewrite !Hd by done; cbn [better_loop]; cbv zeta.
  all: change (default (-1) (a.1 !! k)) with (cap (Z.of_nat k) a).1 || (replace (default (-1) (a.1 !! k)) with (cap (Z.of_nat k) a).1 by (unfold cap; cbn; by rewrite Nat2Z.id)).
  all: replace (default (-1) (a.2 !! k)) with (cap (Z.of_nat k) a).2 by (unfold cap; cbn; by rewrite Nat2Z.id).
  all: replace (default (-1) (b.1 !! k)) with (cap (Z.of_nat k) b).1 by (unfold cap; cbn; by rewrite Nat2Z.id).
  all: replace (default (-1) (b.2 !! k)) with (cap (Z.of_nat k) b).2 by (unfold cap; cbn; by rewrite Nat2Z.id).
  all: rewrite !cap_len_test, !Z.gtb_ltb.
  - rewrite Nat.add_0_r in Hw. cbv zeta in Hw. destruct Hw as [Hw|(E & H0 & Hw)].
    + rewrite (proj2 (Z.eqb_neq _ _)) by lia. cbn. by apply Z.ltb_lt.
    + rewrite E, Z.eqb_refl. cbn [negb]. rewrite <- E, (proj2 (Z.ltb_lt _ _) H0), (proj2 (Z.eqb_neq _ _)) by lia. cbn. by apply Z.ltb_lt.
  - destruct (Hs k ltac:(lia)) as [E Hst]. rewrite E, Z.eqb_refl. cbn [negb]. rewrite <- E.
    destruct (Z.ltb_spec 0 (cap_len (Z.of_nat k) a)) as [H|H]; [rewrite (Hst H), Z.eqb_refl|]; cbn [negb andb];
      (apply IH; [done..|lia|intros j Hj; apply Hs; lia|by replace (S k + d)%nat with (k + S d)%nat by lia]).
Qed.

Lemma prefers_better len a b : caps_ok len a -> caps_ok len b -> prefers a b -> better a b = true.
Proof.
  intros (L1 & L2 & _) (L3 & L4 & _) (i & Hi & Hs & Hw). unfold REG_NGROUPS in Hi. unfold better.
  pose proof (better_from (Z.to_nat i - 1) 1 a b L1 L2 L3 L4 ltac:(lia)) as H.
  replace (1 + (Z.to_nat i - 1))%nat with (Z.to_nat i) in H by lia. rewrite Z2Nat.id in H by lia.
  specialize (H ltac:(intros j Hj; apply Hs; lia) Hw). destruct a as [[] []], b as [[] []]; done.
Qed.

(** C22: whatever the pattern, back references included, what [regexec] stores in
    [pmatch] on success is the record of one way of matching: its span, and for
    each group of the pattern the span it captured, all of them inside the
    searched range or -1; and unless the step limit was reached, no other way of
    matching from there is longer, or as long and preferred by POSIX's rule for
    the subexpressions, which the comment above [better_subgroups] states: each
    as long as possible, earlier ones first.  (The comment at the top of regex.c
    names another rule, the first such path.) *)
Theorem regexec_captures prog s slen nmatch pm0 eflags so len pm :
  forallb groups_ok (top prog) = true ->
  match_range slen nmatch pm0 eflags = Some (so, len) -> 0 <= slen -> 0 <= len <= Z.of_nat (length s) ->
  regexec (Some prog) (Some s) slen nmatch pm0 eflags = Some (0, Some pm) ->
  exists st e c, so <= st <= e /\ e <= len
    /\ (e, c) ∈ seq_paths s len (prog_cflags prog) eflags (top prog) st (unset, unset)
    /\ pm !! 0%nat = Some (st, e) /\ length pm = nmatch
    /\ (forall i, (1 <= i < nmatch)%nat ->
          pm !! i = Some (if Z.of_nat i <=? ngroup prog then cap (Z.of_nat i) c else (-1, -1)))
    /\ (forall i a b, pm !! i = Some (a, b) -> -1 <= a <= len /\ -1 <= b <= len)
    /\ (finishes prog s len eflags st = true ->
        forall e' c', (e', c') ∈ seq_paths s len (prog_cflags prog) eflags (top prog) st (unset, unset) ->
          e' <= e /\ (e' = e -> ~ prefers c' c)).
Proof.
  intros Hok Hr Hsl Hlen E.
  destruct (regexec_search prog s slen nmatch pm0 eflags so len Hr Hsl Hlen Hok) as
    [(st & x & E2 & H1 & H2 & H3 & [Hp Hf] & H5)|(E2 & _)]; rewrite E in E2; [|done].
  destruct pm0 as [p0|]; [|done]. destruct (bool_decide_reflect (0 < nmatch)%nat) as [Hn|]; [|done].
  injection E2 as Epm. specialize (Hp H3). pose proof (seq_paths_forward _ _ _ _ _ _ _ _ _ H2 Hp) as Hfw.
  assert (Hall : forall e' c', (e', c') ∈ seq_paths s len (prog_cflags prog) eflags (top prog) st (unset, unset) -> caps_ok len c').
  { intros e' c' Hin. eapply (seq_keeps s len (prog_cflags prog) eflags); [apply Forall_true, node_keeps| | |exact Hin]; [lia|].
    split_and!; try done; apply Forall_replicate; lia. }
  assert (Hc : caps_ok len (captures x)) by exact (Hall _ _ Hp).
  assert (Hcap : forall i, (1 <= i < nmatch)%nat ->
          pm !! i = Some (if Z.of_nat i <=? ngroup prog then cap (Z.of_nat i) (captures x) else (-1, -1))).
  { intros [|i] Hi; [lia|]. rewrite Epm. destruct nmatch as [|n]; [lia|]. cbn [report]. rewrite lookup_cons.
    change (map ?f ?l) with (f <$> l). rewrite list_lookup_fmap, lookup_seq_lt by lia. cbn [fmap option_fmap option_map].
    unfold cap. by rewrite Nat2Z.id. }
  exists st, (best_end x), (captures x). split_and!; try lia; try done.
  - rewrite Epm. by destruct nmatch; [lia|].
  - rewrite Epm. destruct nmatch; [lia|]. cbn [report length]. rewrite length_map, length_seq. lia.
  - intros [|i] a b Hi.
    + rewrite Epm in Hi. destruct nmatch; [lia|]. cbn [report] in Hi. injection Hi as <- <-. lia.
    + assert (Hlt : (S i < nmatch)%nat).
      { apply lookup_lt_Some in Hi. rewrite Epm in Hi. destruct nmatch; [lia|].
        cbn [report length] in Hi. rewrite length_map, length_seq in Hi. lia. }
      rewrite (Hcap (S i)) in Hi by lia. destruct (_ <=? _); [|injection Hi as <- <-; lia].
      pose proof (cap_range len (Z.of_nat (S i)) (captures x) ltac:(lia) Hc) as Hcr.
      assert (Hab : cap (Z.of_nat (S i)) (captures x) = (a, b)) by congruence. by rewrite Hab in Hcr.
  - intros Hfin e' c' Hin. destruct (Hf Hfin) as [[_ ?]|[_ Hmax]]; [lia|]. destruct (Hmax _ _ Hin) as [Hle Hb]. split; [done|].
    intros Ee Hpr. specialize (Hb Ee). rewrite (prefers_better len c' (captures x)) in Hb; [done|by eapply Hall|done|done].
Qed.

(** [(a|ab)(c|bcd)(d* )] on [abcd]: the whole string, and of the two ways to get
    it the one whose first group is longer. *)
Definition demo : program :=
  Program [OP_GROUP 1 [OP_ALT [[OP_CHAR 97]; [OP_CHAR 97; OP_CHAR 98]]];
           OP_GROUP 2 [OP_ALT [[OP_CHAR 99]; [OP_CHAR 98; OP_CHAR 99; OP_CHAR 100]]];
           OP_GROUP 3 [OP_REP [OP_CHAR 100] 0 (-1)]] 3 REG_EXTENDED.
Definition abcd : list Z := [97; 98; 99; 100].

Lemma demo_run :
  regexec (Some demo) (Some abcd) 4 4 (Some (0, 0)) 0 = Some (0, Some [(0, 4); (0, 2); (2, 3); (3, 4)]).
Proof. vm_compute. reflexivity. Qed.

Lemma demo_finishes st : 0 <= st <= 4 -> finishes demo abcd 4 0 st = true.
Proof.
  intros Hst. apply (range_check (fun st => finishes demo abcd 4 0 st = true) 0 5); [by vm_compute|lia].
Qed.

Lemma regexec_leftmost_longest_witness :
  exists st e pm, regexec (Some demo) (Some abcd) 4 4 (Some (0, 0)) 0 = Some (0, pm)
    /\ seq_den abcd 4 REG_EXTENDED 0 (top demo) st e
    /\ (forall e', seq_den abcd 4 REG_EXTENDED 0 (top demo) st e' -> e' <= e).
Proof.
  destruct (regexec_leftmost_longest demo abcd 4 4 (Some (0, 0)) 0 0 4 eq_refl eq_refl eq_refl
    ltac:(lia) ltac:(simpl; lia) demo_finishes) as [(st & e & pm & H1 & _ & H2 & _ & H3 & _)|[H _]].
  - exists st, e, pm. split; [exact H1|]. split; [exact H2|exact H3].
  - exfalso. rewrite demo_run in H. discriminate H.
Defined.

Lemma regexec_captures_witness :
  exists st e c, 0 <= st <= e
    /\ (forall e' c', (e', c') ∈ seq_paths abcd 4 REG_EXTENDED 0 (top demo) st (unset, unset) -> e' <= e /\ (e' = e -> ~ prefers c' c))
    /\ [(0, 4); (0, 2); (2, 3); (3, 4)] !! 1%nat = Some (cap 1 c).
Proof.
  destruct (regexec_captures demo abcd 4 4 (Some (0, 0)) 0 0 4 _ eq_refl eq_refl
    ltac:(lia) ltac:(simpl; lia) demo_run) as (st & e & c & H1 & H2 & _ & _ & _ & H3 & _ & H4).
  exists st, e, c. split; [exact H1|]. split; [apply H4, demo_finishes; lia|exact (H3 1%nat ltac:(lia))].
Defined.

(** The repetition rule is not POSIX's for an operand that can be empty: an empty
    iteration ends the repetition even below the minimum, so that [(a* ){2}] does
    not match the empty string although it denotes it. *)
Definition twice_empty : program := Program [OP_REP [OP_GROUP 1 [OP_REP [OP_CHAR 97] 0 (-1)]] 2 2] 1 REG_EXTENDED.

Lemma rep_empty_below_minimum :
  regexec (Some twice_empty) (Some []) 0 0 None 0 = Some (REG_NOMATCH, None)
  /\ seq_den [] 0 REG_EXTENDED 0 (top twice_empty) 0 0.
Proof.
  split; [by vm_compute|]. exists 0. split; [|done]. exists 2%nat. split_and!; [lia|lia|].
  assert (H : seq_den [] 0 REG_EXTENDED 0 [OP_GROUP 1 [OP_REP [OP_CHAR 97] 0 (-1)]] 0 0).
  { exists 0. split; [|done]. exists 0. split; [|done]. exists 0%nat. split_and!; [lia|lia|done]. }
  exists 0. split; [exact H|]. exists 0. split; [exact H|done].
Qed.

End Regexec.
