(* ===== verification/Regcomp.v ===== *)
(** * Regcomp: the pattern compiler of src/regex.c

    A recursive-descent parser over the rest of the pattern.  Its state is
    [struct cstate] with the part of [struct program] it writes: the cursor, the
    group depth and count, the error, and the arena of allocated nodes.  The tree
    it builds is a value; what the allocator sees of it is kept beside it, as the
    list of live blocks and, for every node of the arena, the blocks
    [program_free] releases with it.  Whether the [n]th allocation succeeds is
    the parameter [ok].

    The recursion is on fuel, one unit more than the length of the pattern. *)

From Stdlib Require Import ZArith Lia Bool.
From stdpp Require Import base sets list numbers strings.
From S2P Require Import Prelude Monad Ctype Regexec.

Module Regcomp.
Import Ctype Regexec.

Abbreviation str := (list Z).

Definition REG_BADPAT : Z := 2.
Definition REG_ECOLLATE : Z := 3.
Definition REG_ECTYPE : Z := 4.
Definition REG_EESCAPE : Z := 5.
Definition REG_ESUBREG : Z := 6.
Definition REG_EBRACK : Z := 7.
Definition REG_EPAREN : Z := 8.
Definition REG_EBRACE : Z := 9.
Definition REG_BADBR : Z := 10.
Definition REG_ERANGE : Z := 11.
Definition REG_ESPACE : Z := 12.
Definition REG_BADRPT : Z := 13.

(** ** The state *)

Record cstate := CS {
  p : str; depth : Z; err : Z; groups : Z;
  allocs : list (Z * list Z);   (** a node and what is freed with it *)
  live : list Z;                (** the blocks allocated and not freed *)
  nalloc : nat                  (** the calls of the allocator so far *)
}.

Definition set_p (v : str) (c : cstate) : cstate := CS v (depth c) (err c) (groups c) (allocs c) (live c) (nalloc c).
Definition set_depth (v : Z) (c : cstate) : cstate := CS (p c) v (err c) (groups c) (allocs c) (live c) (nalloc c).
Definition set_err (v : Z) (c : cstate) : cstate := CS (p c) (depth c) v (groups c) (allocs c) (live c) (nalloc c).
Definition set_groups (v : Z) (c : cstate) : cstate := CS (p c) (depth c) (err c) v (allocs c) (live c) (nalloc c).
Definition set_allocs (v : list (Z * list Z)) (c : cstate) : cstate :=
  CS (p c) (depth c) (err c) (groups c) v (live c) (nalloc c).
Definition set_heap (l : list Z) (n : nat) (c : cstate) : cstate :=
  CS (p c) (depth c) (err c) (groups c) (allocs c) l n.

Abbreviation CM := (St cstate).

(** [cs->p[i]]; the test on the characters before it comes first in the code. *)
Definition pk (s : str) (i : nat) : Z := default 0 (s !! i).

(** [cs->p += n]: a fault past the NUL. *)
Definition skip (n : nat) : CM unit :=
  fun c => if (n <=? length (p c))%nat then Some (tt, set_p (drop n (p c)) c) else None.

Definition raise {A} (e : Z) (r : A) : CM A := modify (set_err e) ;;* ret r.

(** [struct cseq]: the array and its nodes. *)
Record cseq := Seq { v : Z; nodes : list cnode }.

Section Compiler.
Context (ok : nat -> bool) (extended : bool).

(** ** Allocation *)

(** [calloc] and [realloc]: a new block, or null. *)
Definition calloc : CM Z :=
  fun c => let n := nalloc c in
    if ok n then Some (Z.of_nat n + 1, set_heap (Z.of_nat n + 1 :: live c) (S n) c)
    else Some (0, set_heap (live c) (S n) c).

Definition realloc (old : Z) : CM Z :=
  fun c => let n := nalloc c in
    if ok n then Some (Z.of_nat n + 1, set_heap (Z.of_nat n + 1 :: List.remove Z.eq_dec old (live c)) (S n) c)
    else Some (0, set_heap (live c) (S n) c).

Definition node_new : CM Z :=
  let* n := calloc in
  if n =? 0 then raise REG_ESPACE 0
  else
    let* a := gets allocs in
    modify (set_allocs ((n, []) :: a)) ;;* ret n.

(** The blocks a node points to: [n->sub->v] and [n->sub], or the arrays of [n->alts]. *)
Definition set_owned (n : Z) (l : list Z) : CM unit :=
  let* a := gets allocs in
  modify (set_allocs (map (fun '(m, l') => if m =? n then (m, l) else (m, l')) a)).

(** [None] is the failure. *)
Definition seq_add (q : cseq) (n : cnode) : CM (option cseq) :=
  if Z.of_nat (length (nodes q)) mod 8 =? 0 then
    let* w := realloc (v q) in
    if w =? 0 then ret None else ret (Some (Seq w (nodes q ++ [n])))
  else ret (Some (Seq (v q) (nodes q ++ [n]))).

Definition new_branch : CM Z :=
  let* b := calloc in
  if b =? 0 then raise REG_ESPACE 0 else ret b.

(** ** Where the cursor is *)

(** The end of the current sequence, [i] characters ahead. *)
Definition seq_end_at (i : nat) (s : str) (d : Z) : bool :=
  let c := pk s i in
  if c =? 0 then true
  else if extended then (c =? 124) || ((c =? 41) && (d >? 0))
  else (c =? 92) && ((pk s (i + 1) =? 124) || ((pk s (i + 1) =? 41) && (d >? 0))).

Definition at_seq_end (c : cstate) : bool := seq_end_at 0 (p c) (depth c).
Definition at_seq_end_after_one (c : cstate) : bool := seq_end_at 1 (p c) (depth c).

Definition at_alt (c : cstate) : bool :=
  if extended then pk (p c) 0 =? 124 else (pk (p c) 0 =? 92) && (pk (p c) 1 =? 124).

Definition eat_alt : CM unit := skip (if extended then 1 else 2).

(** ** Bracket expressions *)

Definition posix_classes : list (str * (Z -> bool)) :=
  [ ([97; 108; 112; 104; 97], isalpha); ([100; 105; 103; 105; 116], isdigit);
    ([97; 108; 110; 117; 109], isalnum); ([117; 112; 112; 101; 114], isupper);
    ([108; 111; 119; 101; 114], islower); ([115; 112; 97; 99; 101], isspace);
    ([98; 108; 97; 110; 107], fun uc => (uc =? 32) || (uc =? 9)); ([112; 117; 110; 99; 116], ispunct);
    ([112; 114; 105; 110; 116], isprint); ([103; 114; 97; 112; 104], isgraph);
    ([99; 110; 116; 114; 108], iscntrl); ([120; 100; 105; 103; 105; 116], isxdigit) ].

(** The class of that name; [None] for an unknown one. *)
Definition class_has (name : str) : option (Z -> bool) :=
  snd <$> List.find (fun '(n, _) => bool_decide (n = name)) posix_classes.

(** The scan for the closing colon and bracket: the name, and what follows. *)
Fixpoint class_close (s : str) : option (str * str) :=
  match s with
  | [] => None
  | c :: s' =>
      if (c =? 58) && (pk s' 0 =? 93) then Some ([], tail s')
      else '(name, rest) ← class_close s'; Some (c :: name, rest)
  end.

Definition set_bits (cs : list Z) (b : list Z) : list Z := fold_left set_bit cs b.

(** The loop over the bracket expression, from [first] on. *)
Fixpoint class_loop (fuel : nat) (cls : list Z) (first : bool) : CM (option (list Z)) :=
  match fuel with
  | O => fault
  | S fuel =>
      let* s := gets p in
      if pk s 0 =? 0 then raise REG_BADPAT None
      else if first && (pk s 0 =? 93) then skip 1 ;;* class_loop fuel (set_bit cls 93) false
      else if (pk s 0 =? 93) && negb first then skip 1 ;;* ret (Some cls)
      else if (pk s 0 =? 91) && (pk s 1 =? 58) then
        match class_close (drop 2 s) with
        | None => raise REG_BADPAT None
        | Some (name, rest) =>
            match class_has name with
            | None => raise REG_ECTYPE None
            | Some f =>
                modify (set_p rest) ;;*
                class_loop fuel (set_bits (List.filter f (seqZ 0 256)) cls) false
            end
        end
      else
        let lo := pk s 0 in
        skip 1 ;;*
        let* s := gets p in
        if (pk s 0 =? 45) && negb (pk s 1 =? 93) && negb (pk s 1 =? 0) then
          skip 1 ;;*
          let* s := gets p in
          let hi := pk s 0 in
          skip 1 ;;*
          if lo >? hi then raise REG_ERANGE None
          else class_loop fuel (set_bits (seqZ lo (hi - lo + 1)) cls) false
        else class_loop fuel (set_bit cls lo) false
  end.

Definition parse_class : CM (option cnode) :=
  let* n := node_new in
  if n =? 0 then ret None
  else
    skip 1 ;;*
    let* s := gets p in
    let neg := pk s 0 =? 94 in
    (if neg then skip 1 else ret tt) ;;*
    let* s := gets p in
    let* cls := class_loop (S (length s)) (replicate 32 0) true in
    ret (match cls with Some cls => Some (OP_CLASS cls neg) | None => None end).

(** ** Repetition bounds *)

(** [while (isdigit( *cs->p)) ...]: the number, whether there was one, the rest.
    The sum is an [int]. *)
Fixpoint number (s : str) (n : Z) (have : bool) : Z * bool * str :=
  match s with
  | c :: s' => if isdigit c then number s' (s32 (n * 10 + (c - 48))) true else (n, have, s)
  | [] => (n, have, s)
  end.

(** 1 with the bounds, 0 when there is no brace, -1 on an error. *)
Definition parse_bounds : CM (Z * (Z * Z)) :=
  let* s := gets p in
  if (if extended then negb (pk s 0 =? 123) else negb ((pk s 0 =? 92) && (pk s 1 =? 123))) then ret (0, (0, -1))
  else
    let w := if extended then 1%nat else 2%nat in
    skip w ;;*
    let* s := gets p in
    let '(lo, have_lo, s) := number s 0 false in
    let '(hi, have_hi, s) :=
      if pk s 0 =? 44 then
        let '(hi, have_hi, s) := number (tail s) 0 false in
        ((if have_hi then hi else -1), have_hi, s)
      else (lo, true, s) in
    modify (set_p s) ;;*
    let closed := if extended then pk s 0 =? 125 else (pk s 0 =? 92) && (pk s 1 =? 125) in
    if negb have_lo || negb closed then raise REG_EBRACE (-1, (0, -1))
    else
      skip w ;;*
      if have_hi && (hi >=? 0) && (lo >? hi) then raise REG_BADBR (-1, (0, -1))
      else ret (1, (lo, if have_hi && (hi >=? 0) then hi else -1)).

(** A repetition operator at the cursor; the probe leaves the state alone. *)
Definition bounds_here : CM bool :=
  fun c => match parse_bounds c with Some ((r, _), _) => Some (r =? 1, c) | None => None end.

Definition at_rep_op : CM bool :=
  let* s := gets p in
  let c := pk s 0 in
  if extended then
    if (c =? 42) || (c =? 43) || (c =? 63) then ret true
    else if c =? 123 then bounds_here else ret false
  else if c =? 42 then ret true
  else if negb (c =? 92) then ret false
  else if (pk s 1 =? 43) || (pk s 1 =? 63) then ret true
  else if pk s 1 =? 123 then bounds_here else ret false.

(** ** Atoms *)

(** [cs->p += n; atom = node_new(cs, op)] *)
Definition plain_atom (n : nat) (a : cnode) : CM (option cnode) :=
  skip n ;;*
  let* w := node_new in
  ret (if w =? 0 then None else Some a).

Definition backref_atom (d : Z) : CM (option cnode) :=
  let idx := d - 48 in
  let* g := gets groups in
  if idx >? g then raise REG_ESUBREG None else plain_atom 2 (OP_BACKREF idx).

(** A brace where an operand is required. *)
Definition brace_atom : CM (option cnode) :=
  parse_bounds ;;*
  let* e := gets err in
  if e =? 0 then raise REG_BADRPT None else ret None.

Section Piece.
(** [parse_alt], for the groups. *)
Context (parse_alt : CM cseq).

(** A group, [w] being the length of its parentheses. *)
Definition group_atom (w : nat) : CM (option cnode) :=
  skip w ;;*
  let* g := gets groups in
  modify (set_groups (g + 1)) ;;*
  if g + 1 >=? REG_NGROUPS then raise REG_ESUBREG None
  else
    let* sub := new_branch in
    if sub =? 0 then ret None
    else
      let* d := gets depth in
      modify (set_depth (d + 1)) ;;*
      let* q := parse_alt in
      let* d := gets depth in
      modify (set_depth (d - 1)) ;;*
      let* e := gets err in
      if negb (e =? 0) then ret None
      else
        let* s := gets p in
        if negb (if extended then pk s 0 =? 41 else (pk s 0 =? 92) && (pk s 1 =? 41)) then raise REG_EPAREN None
        else
          skip w ;;*
          let* n := node_new in
          if n =? 0 then ret None
          else set_owned n [v q; sub] ;;* ret (Some (OP_GROUP (g + 1) (nodes q))).

Definition ere_atom (first : bool) : CM (option cnode) :=
  let* cs := gets id in
  let c := pk (p cs) 0 in
  let d := pk (p cs) 1 in
  if c =? 40 then group_atom 1
  else if (c =? 41) && (depth cs >? 0) then ret None
  else if ((c =? 42) || (c =? 43) || (c =? 63)) && first then raise REG_BADRPT None
  else if c =? 123 then brace_atom
  else if c =? 46 then plain_atom 1 OP_ANY
  else if (c =? 94) && first then plain_atom 1 OP_BOL
  else if (c =? 36) && at_seq_end_after_one cs then plain_atom 1 OP_EOL
  else if c =? 91 then parse_class
  else if c =? 92 then
    if d =? 0 then raise REG_EESCAPE None
    else if isdigit d then backref_atom d
    else plain_atom 2 (OP_CHAR d)
  else plain_atom 1 (OP_CHAR c).

Definition bre_atom (first : bool) : CM (option cnode) :=
  let* cs := gets id in
  let c := pk (p cs) 0 in
  let d := pk (p cs) 1 in
  if c =? 92 then
    if d =? 0 then raise REG_EESCAPE None
    else if d =? 40 then group_atom 2
    else if d =? 41 then (if depth cs >? 0 then ret None else plain_atom 2 (OP_CHAR 41))
    else if d =? 124 then ret None
    else if (d =? 43) || (d =? 63) then ret None
    else if d =? 123 then brace_atom
    else if isdigit d then backref_atom d
    else plain_atom 2 (OP_CHAR d)
  else if c =? 46 then plain_atom 1 OP_ANY
  else if (c =? 94) && first then plain_atom 1 OP_BOL
  else if (c =? 36) && at_seq_end_after_one cs then plain_atom 1 OP_EOL
  else if c =? 91 then parse_class
  else if (c =? 42) && first then plain_atom 1 (OP_CHAR 42)
  else plain_atom 1 (OP_CHAR c).

(** The operator after an atom: [None] on an error, [Some None] when there is none. *)
Definition rep_op : CM (option (option (Z * Z))) :=
  let* s := gets p in
  let c := pk s 0 in
  let d := pk s 1 in
  let bounds :=
    let* (r, b) := parse_bounds in
    ret (if r <? 0 then None else if r =? 1 then Some (Some b) else Some None) in
  if c =? 42 then skip 1 ;;* ret (Some (Some (0, -1)))
  else if extended then
    if c =? 43 then skip 1 ;;* ret (Some (Some (1, -1)))
    else if c =? 63 then skip 1 ;;* ret (Some (Some (0, 1)))
    else bounds
  else if (c =? 92) && (d =? 43) then skip 2 ;;* ret (Some (Some (1, -1)))
  else if (c =? 92) && (d =? 63) then skip 2 ;;* ret (Some (Some (0, 1)))
  else bounds.

(** The node of a repetition, around its atom. *)
Definition rep_node (atom : cnode) (b : Z * Z) : CM (option cnode) :=
  let* r := node_new in
  if r =? 0 then ret None
  else
    let* sub := new_branch in
    if sub =? 0 then ret None
    else
      let* q := seq_add (Seq 0 []) atom in
      match q with
      | None => raise REG_ESPACE None
      | Some q => set_owned r [v q; sub] ;;* ret (Some (OP_REP (nodes q) b.1 b.2))
      end.

Definition parse_piece (first : bool) : CM (option cnode) :=
  let* atom := (if extended then ere_atom first else bre_atom first) in
  let* e := gets err in
  match atom with
  | None => ret None
  | Some atom =>
      if negb (e =? 0) then ret None
      else
        let* r := rep_op in
        match r with
        | None => ret None
        | Some None => ret (Some atom)
        | Some (Some b) => rep_node atom b
        end
  end.

Definition parse_seq : CM cseq :=
  let* s := gets p in
  loop (S (length s)) (fun '(q, first) =>
    let* cs := gets id in
    if at_seq_end cs then break q
    else if at_alt cs then break q
    else
      let* n := parse_piece first in
      match n with
      | None =>
          let* e := gets err in
          let* r := (if e =? 0 then at_rep_op else ret false) in
          (if (r : bool) then raise REG_BADRPT tt else ret tt) ;;*
          break q
      | Some n =>
          let* q' := seq_add q n in
          match q' with
          | None => raise REG_ESPACE tt ;;* break q
          | Some q' => continue (q', false)
          end
      end) (Seq 0 [], true).
End Piece.

(** The loop of [parse_alt] over the alternatives; [alts] is the array, [cap]
    its capacity, [bs] the branches in it.  [None] is a return on an error. *)
Definition alt_loop (parse_seq : CM cseq) (alt : Z) (alts : Z) (bs : list cseq) : CM (option (list cseq)) :=
  let* s := gets p in
  loop (S (length s)) (fun '(alts, cap, bs) =>
    let* cs := gets id in
    if negb (at_alt cs) then break (Some bs)
    else
      eat_alt ;;*
      let* b := parse_seq in
      let* e := gets err in
      if negb (e =? 0) then break None
      else
        let full := (length bs =? cap)%nat in
        let* grown := (if full then realloc alts else ret alts) in
        if full && (grown =? 0) then raise REG_ESPACE tt ;;* break None
        else
          set_owned alt (map v (bs ++ [b]) ++ [grown]) ;;*
          continue (grown, (if full then 2 * cap else cap)%nat, bs ++ [b])) (alts, 4%nat, bs).

Fixpoint parse_alt (fuel : nat) : CM cseq :=
  match fuel with
  | O => fault
  | S fuel =>
      let seq := parse_seq (parse_alt fuel) in
      let* first := seq in
      let* cs := gets id in
      if negb (err cs =? 0) then ret first
      else if negb (at_alt cs) then ret first
      else
        let* alt := node_new in
        if alt =? 0 then ret first
        else
          let* alts := calloc in
          if alts =? 0 then raise REG_ESPACE first
          else
            set_owned alt [v first; alts] ;;*
            let* bs := alt_loop seq alt alts [first] in
            match bs with
            | None => ret first
            | Some bs =>
                let* out := seq_add (Seq 0 []) (OP_ALT (map nodes bs)) in
                match out with
                | None => raise REG_ESPACE (Seq 0 [])
                | Some out => ret out
                end
            end
  end.

End Compiler.

(** ** The interface *)

(** [free] on a list of pointers: the blocks left, and the pointers that were
    not allocated when they were freed. *)
Fixpoint release (ps : list Z) (l : list Z) : list Z * list Z :=
  match ps with
  | [] => (l, [])
  | q :: ps =>
      if q =? 0 then release ps l
      else if bool_decide (q ∈ l) then release ps (List.remove Z.eq_dec q l)
      else let '(l', bad) := release ps l in (l', q :: bad)
  end.

(** What [program_free] frees, in its order. *)
Definition program_blocks (prog : Z) (top : Z) (a : list (Z * list Z)) : list Z :=
  concat (map (fun '(n, l) => l ++ [n]) a) ++ [top; prog].

(** The outcome: the code; on success the program, with the blocks [regfree]
    will free and those that are live; on failure the live blocks after the
    clean-up and the pointers it freed twice. *)
Inductive outcome :=
| Compiled (prog : program) (blocks live : list Z)
| Failed (code : Z) (live bad : list Z).

Definition regcomp (ok : nat -> bool) (preg : bool) (pattern : option str) (cflags : Z) : option outcome :=
  match pattern with
  | Some s =>
      if negb preg then Some (Failed REG_BADPAT [] [])
      else
        let extended := flag cflags REG_EXTENDED in
        '(prog, c) ← calloc ok (CS s 0 0 0 [] [] 0);
        if prog =? 0 then Some (Failed REG_ESPACE (live c) [])
        else
          '(q, c) ← parse_alt ok extended (S (length s)) c;
          let e := if (err c =? 0) && negb (pk (p c) 0 =? 0) then REG_EPAREN else err c in
          let blocks := program_blocks prog (v q) (allocs c) in
          if negb (e =? 0) then
            let '(l, bad) := release blocks (live c) in Some (Failed e l bad)
          else Some (Compiled (Program (nodes q) (groups c) cflags) blocks (live c))
  | None => Some (Failed REG_BADPAT [] [])
  end.

(** [regfree] on a compiled pattern. *)
Definition regfree (o : outcome) : list Z * list Z :=
  match o with Compiled _ blocks l => release blocks l | Failed _ l bad => (l, []) end.

Definition regerror_table : list (Z * string) :=
  [ (0, "no error"%string); (REG_NOMATCH, "no match"%string);
    (REG_BADPAT, "invalid regular expression"%string); (REG_ECOLLATE, "invalid collating element"%string);
    (REG_ECTYPE, "invalid character class"%string); (REG_EESCAPE, "trailing backslash"%string);
    (REG_ESUBREG, "invalid back reference"%string); (REG_EBRACK, "unbalanced brackets"%string);
    (REG_EPAREN, "unbalanced parentheses"%string); (REG_EBRACE, "unbalanced braces"%string);
    (REG_BADBR, "invalid repetition count"%string); (REG_ERANGE, "invalid character range"%string);
    (REG_ESPACE, "out of memory"%string); (REG_BADRPT, "repetition operator with no operand"%string) ].

(** The message of a code, as character codes. *)
Definition regerror_msg (errcode : Z) : str :=
  map (fun a => Z.of_nat (Ascii.nat_of_ascii a)) (String.list_ascii_of_string
    (match List.find (fun '(e, _) => e =? errcode) regerror_table with
     | Some (_, m) => m
     | None => "unknown error"%string
     end)).

(** The size the message needs, and what is stored at [errbuf], when anything is. *)
Definition regerror (errcode : Z) (errbuf : bool) (errbuf_size : nat) : nat * option str :=
  let msg := regerror_msg errcode in
  let need := (length msg + 1)%nat in
  (need,
   if errbuf && (0 <? errbuf_size)%nat then
     let copy := (if (need <=? errbuf_size)%nat then need - 1 else errbuf_size - 1)%nat in
     Some (take copy msg ++ [0])
   else None).

(** ** The invariant

    [inv c extra]: no error so far, and every live block belongs to exactly one
    owner: a node of the arena, or a call in progress, whose blocks are [extra]. *)

Definition nz (l : list Z) : list Z := List.filter (fun q => negb (q =? 0)) l.

Definition owned (a : list (Z * list Z)) : list Z := concat (map (fun '(n, l) => n :: nz l) a).

Record inv (c : cstate) (extra : list Z) : Prop := {
  inv_err : err c = 0;
  inv_groups : 0 <= groups c < REG_NGROUPS;
  inv_live : Forall (fun q => 0 < q <= Z.of_nat (nalloc c)) (live c);
  inv_nodup : NoDup (live c);
  inv_owners : live c ≡ₚ owned (allocs c) ++ nz extra
}.

(** What a successful parsing step does to the state: the cursor advances, and
    groups and nodes are only added. *)
Definition advances (c c' : cstate) : Prop :=
  (length (p c') <= length (p c))%nat /\ depth c' = depth c /\ groups c <= groups c'
  /\ exists new, allocs c' = new ++ allocs c.

(** The same without the arena. *)
Definition ahead (c c' : cstate) : Prop :=
  (length (p c') <= length (p c))%nat /\ depth c' = depth c /\ groups c <= groups c'.

(** Only the heap changes. *)
Definition heap_only (c c' : cstate) : Prop :=
  p c' = p c /\ depth c' = depth c /\ groups c' = groups c /\ allocs c' = allocs c.

(** A tree whose group numbers are at most [g]. *)
Fixpoint tree_ok (g : Z) (n : cnode) : bool :=
  match n with
  | OP_CLASS cls _ => (length cls =? 32)%nat
  | OP_GROUP idx sub => (1 <=? idx) && (idx <=? g) && forallb (tree_ok g) sub
  | OP_BACKREF idx => (0 <=? idx) && (idx <=? g)
  | OP_ALT alts => forallb (forallb (tree_ok g)) alts
  | OP_REP sub min max => forallb (tree_ok g) sub && ((max =? -1) || ((0 <=? max) && (min <=? max)))
  | _ => true
  end.

(** *** Lists of blocks *)

Lemma nz_app a b : nz (a ++ b) = nz a ++ nz b.
Proof. apply List.filter_app. Qed.

Lemma nz_cons q l : nz (q :: l) = if q =? 0 then nz l else q :: nz l.
Proof. unfold nz. cbn [List.filter]. by destruct (q =? 0). Qed.

#[global] Instance nz_perm : Proper ((≡ₚ) ==> (≡ₚ)) nz.
Proof.
  induction 1 as [|x l l' _ IH|x y l|l l1 l2 _ IH1 _ IH2]; rewrite ?nz_cons; try done.
  - destruct (x =? 0); [done|by f_equiv].
  - destruct (x =? 0), (y =? 0); try done. constructor.
  - by etrans.
Qed.

Lemma owned_app a b : owned (a ++ b) = owned a ++ owned b.
Proof. unfold owned. by rewrite map_app, concat_app. Qed.

Lemma owned_cons n l a : owned ((n, l) :: a) = n :: nz l ++ owned a.
Proof. done. Qed.

Lemma remove_perm (l k : list Z) q : NoDup l -> l ≡ₚ q :: k -> List.remove Z.eq_dec q l ≡ₚ k.
Proof.
  intros Hn Hp. assert (Hk : NoDup (q :: k)) by (by rewrite <- Hp).
  apply list.NoDup_cons in Hk as [Hq Hk].
  assert (E : forall x, x ∈ List.remove Z.eq_dec q l <-> x ∈ l /\ x <> q).
  { intros x. rewrite !list_elem_of_In. split; [apply in_remove|]. intros [H1 H2]. by apply in_in_remove. }
  apply NoDup_Permutation; [|done|].
  - clear -Hn. induction Hn as [|x l Hx Hn IH]; cbn [List.remove]; [constructor|].
    destruct (Z.eq_dec q x); [done|]. constructor; [|done]. rewrite list_elem_of_In in *.
    intros [H _]%in_remove. done.
  - intros x. rewrite E, Hp, elem_of_cons. naive_solver.
Qed.

Lemma remove_absent (l : list Z) q : q ∉ l -> List.remove Z.eq_dec q l = l.
Proof. rewrite list_elem_of_In. apply notin_remove. Qed.

(** Freeing every live block once leaves nothing. *)
Lemma release_all ps : forall l, NoDup l -> l ≡ₚ nz ps -> release ps l = ([], []).
Proof.
  induction ps as [|q ps IH]; intros l Hn Hp; cbn [release].
  - apply Permutation_nil_r in Hp as ->. done.
  - rewrite nz_cons in Hp. destruct (q =? 0); [auto|].
    rewrite bool_decide_eq_true_2 by (rewrite Hp; by left).
    assert (E : List.remove Z.eq_dec q l ≡ₚ nz ps) by (by apply remove_perm).
    apply IH; [|done]. rewrite E. assert (H : NoDup (q :: nz ps)) by (by rewrite <- Hp).
    by apply list.NoDup_cons in H as [_ H].
Qed.

(** *** The allocator *)

Section Specs.
Context (ok : nat -> bool) (extended : bool).

#[local] Instance advances_refl : Reflexive advances.
Proof. intros c. split_and!; try done. by exists []. Qed.

#[local] Instance advances_trans : Transitive advances.
Proof.
  intros a b c (H1 & H2 & H3 & n1 & H4) (K1 & K2 & K3 & n2 & K4).
  split_and!; [lia|congruence|lia|]. exists (n2 ++ n1). by rewrite K4, H4, app_assoc.
Qed.

Lemma heap_only_advances c c' : heap_only c c' -> advances c c'.
Proof. intros (H1 & H2 & H3 & H4). split_and!; [by rewrite H1|done|lia|by exists []]. Qed.

Lemma inv_fresh c extra : inv c extra -> Z.of_nat (nalloc c) + 1 ∉ live c.
Proof.
  intros [_ _ Hl _ _] Hin. rewrite List.Forall_forall in Hl. specialize (Hl _ (proj1 (list_elem_of_In _ _) Hin)). lia.
Qed.

Lemma inv_weaken n c : Forall (fun q => 0 < q <= Z.of_nat n) c -> Forall (fun q => 0 < q <= Z.of_nat (S n)) c.
Proof. apply List.Forall_impl. lia. Qed.

Lemma calloc_wp c extra : inv c extra ->
  wp (calloc ok) c (fun q c' => inv c' (q :: extra) /\ heap_only c c').
Proof.
  intros Hi. pose proof (inv_fresh _ _ Hi) as Hf. destruct Hi as [He Hg Hl Hn Ho].
  unfold wp, calloc. destruct (ok (nalloc c)); (split; [|done]); constructor; cbn [set_heap err groups live nalloc allocs];
    try done; rewrite ?nz_cons; zdecide.
  - constructor; [lia|by apply inv_weaken].
  - by constructor.
  - rewrite Ho. by rewrite <- Permutation_middle.
  - by apply inv_weaken.
Qed.

Lemma realloc_wp c old extra : inv c (old :: extra) ->
  wp (realloc ok old) c (fun q c' => heap_only c c' /\
    if q =? 0 then inv c' (old :: extra) else inv c' (q :: extra)).
Proof.
  intros Hi. pose proof (inv_fresh _ _ Hi) as Hf. destruct Hi as [He Hg Hl Hn Ho].
  unfold wp, realloc. destruct (ok (nalloc c)); (split; [done|]); [zdecide|].
  - assert (Hr : List.remove Z.eq_dec old (live c) ≡ₚ owned (allocs c) ++ nz extra).
    { rewrite nz_cons in Ho. destruct (Z.eqb_spec old 0) as [->|].
      - rewrite remove_absent; [done|]. intros Hin. rewrite List.Forall_forall in Hl.
        specialize (Hl _ (proj1 (list_elem_of_In _ _) Hin)). lia.
      - apply remove_perm; [done|]. by rewrite Ho, <- Permutation_middle. }
    assert (Hs : forall x, x ∈ List.remove Z.eq_dec old (live c) -> x ∈ live c).
    { intros x. rewrite !list_elem_of_In. by intros [? _]%in_remove. }
    constructor; cbn [set_heap err groups live nalloc allocs]; try done.
    + constructor; [lia|]. apply inv_weaken. rewrite list.Forall_forall in *. auto.
    + constructor; [auto|]. rewrite Hr. rewrite Ho, nz_cons in Hn.
      destruct (old =? 0); [done|]. rewrite <- Permutation_middle in Hn. by apply list.NoDup_cons in Hn as [_ Hn].
    + rewrite nz_cons. zdecide. rewrite Hr. by rewrite <- Permutation_middle.
  - constructor; cbn [set_heap err groups live nalloc allocs]; try done. by apply inv_weaken.
Qed.

Lemma raise_wp {A} e (r : A) c (Q : A -> cstate -> Prop) : Q r (set_err e c) -> wp (raise e r) c Q.
Proof. done. Qed.

Lemma node_new_wp c extra : inv c extra ->
  wp (node_new ok) c (fun n c' =>
    if n =? 0 then err c' <> 0
    else inv c' extra /\ p c' = p c /\ depth c' = depth c /\ groups c' = groups c
         /\ allocs c' = (n, []) :: allocs c).
Proof.
  intros Hi. unfold node_new. apply wp_bind. eapply wp_mono; [by apply calloc_wp|].
  intros n c' ([He Hg Hl Hn Ho] & H1 & H2 & H3 & H4). destruct (Z.eqb_spec n 0) as [->|].
  - by apply raise_wp.
  - wp_pure. zdecide. split; [|rewrite ?H4; done].
    constructor; cbn [set_allocs err groups live nalloc allocs]; try done.
    rewrite Ho, nz_cons. zdecide. rewrite owned_cons. simpl. by rewrite <- Permutation_middle.
Qed.

Lemma new_branch_wp c extra : inv c extra ->
  wp (new_branch ok) c (fun b c' => if b =? 0 then err c' <> 0 else inv c' (b :: extra) /\ heap_only c c').
Proof.
  intros Hi. unfold new_branch. apply wp_bind. eapply wp_mono; [by apply calloc_wp|].
  intros n c' (Hi' & Hh). destruct (Z.eqb_spec n 0) as [->|]; [by apply raise_wp|].
  apply wp_ret. by zdecide.
Qed.

Lemma seq_add_wp q n c extra : inv c (v q :: extra) ->
  wp (seq_add ok q n) c (fun r c' => heap_only c c' /\
    match r with
    | None => inv c' (v q :: extra)
    | Some q' => inv c' (v q' :: extra) /\ nodes q' = nodes q ++ [n]
    end).
Proof.
  intros Hi. unfold seq_add. destruct (_ =? 0).
  - apply wp_bind. eapply wp_mono; [by apply realloc_wp|]. intros w c' [Hh Hw].
    destruct (w =? 0); by apply wp_ret.
  - by apply wp_ret.
Qed.

(** The node [n] gets the blocks [k]: [l] of them were its own, a call held the
    others.  Its entry may be out of date by what happened in between. *)
Lemma set_owned_gen n l0 l l' k c extra a1 a2 : inv (set_allocs (a1 ++ (n, l) :: a2) c) (l' ++ extra) ->
  allocs c = a1 ++ (n, l0) :: a2 -> l ++ l' ≡ₚ k ->
  wp (set_owned n k) c (fun _ c' => inv c' extra /\ p c' = p c /\ depth c' = depth c /\ groups c' = groups c
    /\ allocs c' = a1 ++ (n, k) :: a2).
Proof.
  intros [He Hg Hl Hn Ho] Ha Hk. cbn [set_allocs err groups live nalloc allocs] in *. unfold set_owned. wp_pure.
  assert (E : map (fun '(m, l1) => if m =? n then (m, k) else (m, l1)) (allocs c) = a1 ++ (n, k) :: a2).
  { assert (Hkeep : forall a, n ∉ owned a -> map (fun '(m, l1) => if m =? n then (m, k) else (m, l1)) a = a).
    { induction a as [|[m l1] a IH]; [done|]. rewrite owned_cons, not_elem_of_cons, not_elem_of_app.
      intros (Hm & _ & Hin). cbn [map]. zdecide. by rewrite IH. }
    rewrite Ho, owned_app, owned_cons in Hn. rewrite <- app_assoc in Hn.
    apply list.NoDup_app in Hn as (_ & Hd & Hn). cbn [app] in Hn. apply list.NoDup_cons in Hn as [Hn _].
    rewrite Ha, map_app. cbn [map]. rewrite Z.eqb_refl, !Hkeep; [done| |].
    - intros Hin. apply Hn. apply elem_of_app. left. apply elem_of_app. by right.
    - intros Hin. apply (Hd n Hin). by left. }
  split; [|by rewrite E].
  constructor; cbn [set_allocs err groups live nalloc allocs]; try done.
  rewrite E, Ho, !owned_app, !owned_cons, <- Hk, !nz_app. solve_Permutation.
Qed.

Lemma set_owned_wp n l l' k c extra a1 a2 : inv c (l' ++ extra) ->
  allocs c = a1 ++ (n, l) :: a2 -> l ++ l' ≡ₚ k ->
  wp (set_owned n k) c (fun _ c' => inv c' extra /\ p c' = p c /\ depth c' = depth c /\ groups c' = groups c
    /\ allocs c' = a1 ++ (n, k) :: a2).
Proof. intros Hi Ha. apply (set_owned_gen n l); [|done]. rewrite <- Ha. by destruct Hi. Qed.

(** [realloc] of a block that a node owns. *)
Lemma realloc_owned_wp n l old c extra a1 a2 : inv c extra -> allocs c = a1 ++ (n, l ++ [old]) :: a2 ->
  wp (realloc ok old) c (fun q c' => heap_only c c' /\
    if q =? 0 then True else inv (set_allocs (a1 ++ (n, l) :: a2) c') (q :: extra)).
Proof.
  intros [He Hg Hl Hn Ho] Ha.
  assert (Hi : inv (set_allocs (a1 ++ (n, l) :: a2) c) (old :: extra)).
  { constructor; cbn [set_allocs err groups live nalloc allocs]; try done.
    rewrite Ho, Ha, !owned_app, !owned_cons, (nz_cons old), !nz_app, (nz_cons old).
    destruct (old =? 0); simpl; solve_Permutation. }
  apply realloc_wp in Hi. unfold wp, realloc in *. cbn [set_allocs nalloc live] in Hi.
  destruct (ok (nalloc c)); (split; [done|]); [|done]. destruct Hi as [_ Hi].
  destruct (Z.of_nat (nalloc c) + 1 =? 0); [done|exact Hi].
Qed.

(** *** The cursor *)

Lemma inv_set_p s c extra : inv c extra -> inv (set_p s c) extra.
Proof. by intros []. Qed.

Lemma inv_set_depth d c extra : inv c extra -> inv (set_depth d c) extra.
Proof. by intros []. Qed.

Lemma advances_set_p s c : (length s <= length (p c))%nat -> advances c (set_p s c).
Proof. intros H. split_and!; try done. by exists []. Qed.

Lemma skip_wp n c (Q : unit -> cstate -> Prop) :
  (n <= length (p c))%nat -> Q tt (set_p (drop n (p c)) c) -> wp (skip n) c Q.
Proof.
  intros Hn HQ. unfold wp, skip. by rewrite (proj2 (Nat.leb_le _ _) Hn).
Qed.

Lemma pk_len s i : pk s i <> 0 -> (i < length s)%nat.
Proof.
  unfold pk. destruct (s !! i) eqn:E; [by apply lookup_lt_Some in E|done].
Qed.

(** *** Bounds *)

Lemma number_len s : forall n h n' h' s', number s n h = (n', h', s') -> (length s' <= length s)%nat.
Proof.
  induction s as [|c s IH]; intros n h n' h' s'; cbn [number]; [by intros [= <- <- <-]|].
  destruct (isdigit c); [|by intros [= <- <- <-]]. intros E%IH. cbn [length]. lia.
Qed.

(** What follows a successful operation: the invariant, and progress. *)
Definition moves (c : cstate) (extra : list Z) (c' : cstate) : Prop :=
  inv c' extra /\ advances c c' /\ (length (p c') < length (p c))%nat.

Lemma moves_set_p s c extra : inv c extra -> (length s < length (p c))%nat -> moves c extra (set_p s c).
Proof.
  intros Hi Hs. split; [by apply inv_set_p|]. split; [apply advances_set_p; lia|done].
Qed.

Lemma moves_trans c1 c2 c3 e1 e2 : moves c1 e1 c2 -> moves c2 e2 c3 -> moves c1 e2 c3.
Proof. intros (_ & H1 & H2) (H3 & H4 & H5). split; [done|]. split; [by etrans|lia]. Qed.

Definition bounds_ok (b : Z * Z) : Prop := b.2 = -1 \/ (0 <= b.2 /\ b.1 <= b.2).

Lemma parse_bounds_wp c extra : inv c extra ->
  wp (parse_bounds extended) c (fun '(r, b) c' =>
    (r = 1 /\ moves c extra c' /\ bounds_ok b) \/ (r = 0 /\ c' = c) \/ (r = -1 /\ err c' <> 0)).
Proof.
  intros Hi. unfold parse_bounds. wp_pure.
  destruct (if extended then negb _ else _) eqn:Eo; [apply wp_ret; auto|].
  set (w := if extended then 1%nat else 2%nat).
  assert (Hw : (0 < w <= length (p c))%nat).
  { unfold w. destruct extended.
    - apply negb_false_iff, Z.eqb_eq in Eo. split; [lia|]. pose proof (pk_len (p c) 0). lia.
    - apply negb_false_iff, andb_prop in Eo as [_ Eo]. apply Z.eqb_eq in Eo.
      split; [lia|]. pose proof (pk_len (p c) 1). lia. }
  apply wp_bind, skip_wp; [lia|]. wp_pure. cbn [set_p p].
  destruct (number (drop w (p c)) 0 false) as [[lo have_lo] s1] eqn:E1.
  apply number_len in E1. rewrite length_drop in E1.
  destruct (if pk s1 0 =? 44 then _ else _) as [[hi have_hi] s2] eqn:E2.
  assert (Hs2 : (length s2 <= length s1)%nat).
  { destruct (pk s1 0 =? 44); [|by injection E2 as <- <- <-].
    destruct (number (tail s1) 0 false) as [[n h] s3] eqn:E3. injection E2 as <- <- <-.
    apply number_len in E3. destruct s1; simpl in *; lia. }
  clear E2. wp_pure. destruct (negb have_lo || _) eqn:Ec.
  { apply raise_wp. right; right. by split. }
  assert (Hc : (w <= length s2)%nat).
  { apply orb_false_iff in Ec as [_ Ec]. apply negb_false_iff in Ec. unfold w. destruct extended.
    - apply Z.eqb_eq in Ec. pose proof (pk_len s2 0). lia.
    - apply andb_prop in Ec as [_ Ec]. apply Z.eqb_eq in Ec. pose proof (pk_len s2 1). lia. }
  apply wp_bind, skip_wp; [done|]. destruct (have_hi && (hi >=? 0)) eqn:Eh; cbn [andb].
  - destruct (Z.leb_spec lo hi); zdecide.
    + apply wp_ret. left. split; [done|]. split.
      * change (moves c extra (set_p (drop w s2) c)). apply moves_set_p; [done|]. rewrite length_drop. lia.
      * right. split; [|done]. rewrite Z.geb_leb in Eh. simpl. lia.
    + apply raise_wp. right; right. by split.
  - apply wp_ret. left. split; [done|]. split; [|by left].
    change (moves c extra (set_p (drop w s2) c)). apply moves_set_p; [done|]. rewrite length_drop. lia.
Qed.

Lemma at_rep_op_wp c extra : inv c extra -> wp (at_rep_op extended) c (fun _ c' => c' = c).
Proof.
  intros Hi.
  assert (Hb : wp (bounds_here extended) c (fun _ c' => c' = c)).
  { pose proof (parse_bounds_wp c extra Hi) as H. apply wp_total in H as ([r b] & c' & E & _).
    unfold wp, bounds_here. by rewrite E. }
  unfold at_rep_op. wp_pure. repeat case_match; first [exact Hb | by apply wp_ret].
Qed.

(** *** Bracket expressions *)

Lemma set_bit_length b c : length (set_bit b c) = length b.
Proof. unfold set_bit. apply length_insert. Qed.

Lemma set_bits_length cs : forall b, length (set_bits cs b) = length b.
Proof. induction cs as [|c cs IH]; intros b; [done|]. cbn. change (fold_left set_bit cs ?x) with (set_bits cs x). by rewrite IH, set_bit_length. Qed.

Lemma class_close_len s : forall name rest, class_close s = Some (name, rest) -> (length rest < length s)%nat.
Proof.
  induction s as [|c s IH]; intros name rest; cbn [class_close]; [done|].
  destruct (_ && _); [intros [= <- <-]; destruct s; simpl; lia|].
  destruct (class_close s) as [[n r]|]; [|done]. cbn. intros [= <- <-]. specialize (IH n r eq_refl). lia.
Qed.

Lemma class_loop_wp fuel : forall cls first c extra, inv c extra -> (length (p c) < fuel)%nat -> length cls = 32%nat ->
  wp (class_loop fuel cls first) c (fun r c' =>
    match r with None => err c' <> 0 | Some cls => moves c extra c' /\ length cls = 32%nat end).
Proof.
  induction fuel as [|fuel IH]; intros cls first c extra Hi Hf Hl; [lia|].
  assert (Hgo : forall cls first c', moves c extra c' -> length cls = 32%nat ->
    wp (class_loop fuel cls first) c' (fun r c' =>
      match r with None => err c' <> 0 | Some cls => moves c extra c' /\ length cls = 32%nat end)).
  { intros cls1 f1 c1 H1 H4. eapply wp_mono; [apply (IH cls1 f1 c1 extra); [apply H1| |done]|].
    - destruct H1 as (_ & _ & H1). lia.
    - intros [cls2|] c2; [|done]. intros [K1 K4]. split; [by eapply moves_trans|done]. }
  cbn [class_loop]. wp_pure. destruct (Z.eqb_spec (pk (p c) 0) 0) as [|H0]; [by apply raise_wp|].
  apply pk_len in H0.
  assert (Hs : moves c extra (set_p (drop 1 (p c)) c)) by (apply moves_set_p; [done|rewrite length_drop; lia]).
  destruct (first && _).
  { apply wp_bind, skip_wp; [lia|]. apply Hgo; [done|]. by rewrite set_bit_length. }
  destruct (_ && negb first).
  { apply wp_bind, skip_wp; [lia|]. by apply wp_ret. }
  destruct ((pk (p c) 0 =? 91) && _).
  { destruct (class_close _) as [[name rest]|] eqn:Ec; [|by apply raise_wp].
    apply class_close_len in Ec. rewrite length_drop in Ec.
    destruct (class_has name); [|by apply raise_wp]. wp_pure.
    apply Hgo; [apply moves_set_p; [done|lia]|by rewrite set_bits_length]. }
  apply wp_bind, skip_wp; [lia|]. wp_pure. cbn [set_p p].
  destruct (_ && negb (pk (drop 1 (p c)) 1 =? 0)) eqn:Er.
  - apply andb_prop in Er as [_ Er]. apply negb_true_iff, Z.eqb_neq, pk_len in Er. rewrite length_drop in Er.
    apply wp_bind, skip_wp; [cbn [set_p p]; rewrite length_drop; lia|]. wp_pure. cbn [set_p p].
    apply skip_wp; [cbn [set_p p]; rewrite !length_drop; lia|].
    destruct (_ >? _); [by apply raise_wp|].
    apply Hgo; [|by rewrite set_bits_length].
    change (moves c extra (set_p (drop 1 (drop 1 (drop 1 (p c)))) c)).
    apply moves_set_p; [done|rewrite !length_drop; lia].
  - apply Hgo; [done|by rewrite set_bit_length].
Qed.

(** *** Atoms and pieces *)

(** A node whose groups are counted, read with progress; or an error; or nothing
    was read at all. *)
Definition piece_post (c : cstate) (extra : list Z) (r : option cnode) (c' : cstate) : Prop :=
  match r with
  | Some n => moves c extra c' /\ tree_ok (groups c') n = true
  | None => err c' <> 0 \/ c' = c
  end.

Lemma node_moves c c1 extra n : inv c1 extra -> p c1 = p c -> depth c1 = depth c -> groups c1 = groups c ->
  allocs c1 = (n, []) :: allocs c -> advances c c1.
Proof. intros Hi H1 H2 H3 H4. split_and!; [by rewrite H1|done|lia|]. by exists [(n, [])]. Qed.

Lemma plain_atom_wp n a c extra : inv c extra -> (0 < n <= length (p c))%nat -> tree_ok (groups c) a = true ->
  wp (plain_atom ok n a) c (piece_post c extra).
Proof.
  intros Hi Hn Ha. unfold plain_atom. apply wp_bind, skip_wp; [lia|].
  assert (Hm : moves c extra (set_p (drop n (p c)) c)) by (apply moves_set_p; [done|rewrite length_drop; lia]).
  apply wp_bind. eapply wp_mono; [apply node_new_wp, Hm|]. intros w c' Hw. cbv beta in Hw.
  apply wp_ret. destruct (w =? 0); [left; exact Hw|]. destruct Hw as (H1 & H2 & H3 & H4 & H5).
  split; [|by rewrite H4]. destruct Hm as (_ & Ha1 & Hlt). split; [done|]. split.
  - etrans; [exact Ha1|]. by eapply node_moves.
  - by rewrite H2.
Qed.

Lemma raise_post c1 c extra e : e <> 0 -> wp (raise e (@None cnode)) c1 (piece_post c extra).
Proof. intros He. apply raise_wp. by left. Qed.

Lemma stay_post c extra : wp (ret None) c (piece_post c extra).
Proof. apply wp_ret. by right. Qed.

Lemma parse_class_wp c extra : inv c extra -> (0 < length (p c))%nat -> wp (parse_class ok) c (piece_post c extra).
Proof.
  intros Hi Hp. unfold parse_class. apply wp_bind. eapply wp_mono; [by apply node_new_wp|]. intros n c1 Hn. cbv beta in Hn.
  destruct (n =? 0); [apply wp_ret; left; exact Hn|]. destruct Hn as (Hi1 & H1 & H2 & H3 & H4).
  apply wp_bind, skip_wp; [by rewrite H1|]. wp_pure.
  set (c2 := set_p (drop 1 (p c1)) c1).
  assert (Hm : moves c1 extra c2) by (apply moves_set_p; [done|rewrite length_drop, H1; lia]).
  set (neg := pk (p c2) 0 =? 94).
  assert (Hnext : wp (if neg then skip 1 else ret tt) c2 (fun _ c' => moves c1 extra c')).
  { unfold neg. destruct (Z.eqb_spec (pk (p c2) 0) 94) as [E|]; [|by apply wp_ret].
    assert (0 < length (p c2))%nat by (apply pk_len; lia).
    apply skip_wp; [lia|]. eapply moves_trans; [exact Hm|]. apply moves_set_p; [apply Hm|rewrite length_drop; lia]. }
  eapply wp_mono; [exact Hnext|]. intros u c3 Hm3. cbv beta in Hm3. clear u. wp_pure.
  eapply wp_mono; [apply (class_loop_wp _ _ _ c3 extra); [apply Hm3|lia|done]|]. intros r c4 Hr. cbv beta in Hr. wp_pure.
  destruct r as [cls|]; [|by left]. destruct Hr as [Hm4 Hl]. split; [|cbn [tree_ok]; by rewrite Hl].
  pose proof (moves_trans _ _ _ _ _ Hm3 Hm4) as (K1 & K2 & K3). split; [done|]. split.
  - etrans; [|exact K2]. by eapply node_moves.
  - by rewrite <- H1.
Qed.

Lemma brace_atom_wp c extra : inv c extra -> wp (brace_atom extended) c (piece_post c extra).
Proof.
  intros Hi. unfold brace_atom. apply wp_bind. eapply wp_mono; [by apply parse_bounds_wp|].
  intros [r b] c' _. wp_pure. destruct (Z.eqb_spec (err c') 0); [by apply raise_post|]. apply wp_ret. by left.
Qed.

Lemma backref_atom_wp d c extra : inv c extra -> (2 <= length (p c))%nat -> isdigit d = true ->
  wp (backref_atom ok d) c (piece_post c extra).
Proof.
  intros Hi Hl Hd. unfold backref_atom. wp_pure. rewrite Z.gtb_ltb.
  destruct (Z.ltb_spec (groups c) (d - 48)); [by apply raise_post|].
  apply plain_atom_wp; [done|lia|]. cbn [tree_ok]. unfold isdigit in Hd. lia.
Qed.

(** The specification of [parse_alt], for patterns shorter than the fuel. *)
Definition alt_spec (fuel : nat) (palt : CM cseq) : Prop := forall c extra,
  inv c extra -> (length (p c) < fuel)%nat ->
  wp palt c (fun q c' => err c' <> 0 \/
    (inv c' (v q :: extra) /\ advances c c' /\ forallb (tree_ok (groups c')) (nodes q) = true)).

Lemma group_atom_wp fuel palt w c extra : alt_spec fuel palt -> inv c extra ->
  w = (if extended then 1%nat else 2%nat) -> (w <= length (p c))%nat -> (length (p c) <= fuel)%nat ->
  wp (group_atom ok extended palt w) c (piece_post c extra).
Proof.
  intros Hpalt Hi Hw Hl Hf. unfold group_atom. apply wp_bind, skip_wp; [done|]. wp_pure. rewrite Z.geb_leb.
  cbn [set_p groups]. destruct (Z.leb_spec REG_NGROUPS (groups c + 1)); [by apply raise_post|].
  set (c1 := set_groups (groups c + 1) (set_p (drop w (p c)) c)).
  assert (Hi1 : inv c1 extra).
  { destruct Hi as [He Hg Hl' Hn Ho]. constructor; try done. unfold c1, REG_NGROUPS in *. cbn. lia. }
  assert (Hw0 : (0 < w)%nat) by (destruct extended; lia).
  apply wp_bind. eapply wp_mono; [by apply new_branch_wp|]. intros sub c2 Hs. cbv beta in Hs.
  destruct (sub =? 0); [apply wp_ret; left; exact Hs|]. destruct Hs as [Hi2 Hh2]. wp_pure.
  destruct Hh2 as (P2 & D2 & G2 & A2).
  set (c3 := set_depth (depth c2 + 1) c2).
  assert (Hc3 : (length (p c3) < length (p c))%nat).
  { unfold c3. cbn [set_depth p]. rewrite P2. unfold c1. cbn [set_groups set_p p]. rewrite length_drop. lia. }
  eapply wp_mono; [apply (Hpalt c3 (sub :: extra)); [by apply inv_set_depth|lia]|].
  intros q c4 Hq. wp_pure. cbn [set_depth err].
  destruct (Z.eqb_spec (err c4) 0) as [He4|]; [|apply wp_ret; by left].
  destruct Hq as [?|(Hi4 & Ha4 & Hok4)]; [done|]. cbn [negb]. wp_pure. cbn [set_depth p].
  destruct (negb _) eqn:Ec; [by apply raise_post|].
  assert (Hl4 : (w <= length (p c4))%nat).
  { apply negb_false_iff in Ec. rewrite Hw. destruct extended.
    - apply Z.eqb_eq in Ec. pose proof (pk_len (p c4) 0). lia.
    - apply andb_prop in Ec as [_ Ec]. apply Z.eqb_eq in Ec. pose proof (pk_len (p c4) 1). lia. }
  apply wp_bind, skip_wp; [done|].
  set (c5 := set_p _ _).
  apply wp_bind. eapply wp_mono; [apply (node_new_wp _ (v q :: sub :: extra)); by apply inv_set_p, inv_set_depth|].
  intros n c6 Hn. cbv beta in Hn. destruct (n =? 0); [apply wp_ret; left; exact Hn|]. destruct Hn as (Hi6 & P6 & D6 & G6 & A6).
  apply wp_bind. eapply wp_mono.
  { apply (set_owned_wp n [] [v q; sub] [v q; sub] c6 extra [] (allocs c5)); done. }
  intros _ c7 (Hi7 & P7 & D7 & G7 & A7). apply wp_ret.
  destruct Ha4 as (L4 & D4 & G4 & new & A4).
  assert (G71 : groups c7 = groups c4) by (by rewrite G7, G6).
  assert (G31 : groups c3 = groups c + 1) by (unfold c3; cbn [set_depth groups]; by rewrite G2).
  split.
  - split; [done|]. split; [split_and!|].
    + rewrite P7, P6. unfold c5. cbn [set_p p set_depth]. rewrite length_drop. lia.
    + rewrite D7, D6. unfold c5. cbn [set_p depth set_depth]. rewrite D4. unfold c3. cbn [set_depth depth]. rewrite D2.
      unfold c1. cbn. lia.
    + lia.
    + exists ((n, [v q; sub]) :: new). rewrite A7. cbn [app]. unfold c5. cbn [set_p set_depth allocs]. rewrite A4.
      unfold c3. cbn [set_depth allocs]. by rewrite A2.
    + rewrite P7, P6. unfold c5. cbn [set_p p set_depth]. rewrite length_drop. lia.
  - cbn [tree_ok]. rewrite G71, Hok4, andb_true_r. destruct Hi as [_ Hg _ _ _]. lia.
Qed.

(** The cursor is not at the NUL where an atom is read. *)
Lemma seq_end_len i s d : seq_end_at extended i s d = false -> (i < length s)%nat.
Proof.
  unfold seq_end_at. destruct (Z.eqb_spec (pk s i) 0) as [|H]; [done|]. intros _. by apply pk_len.
Qed.

Lemma ere_atom_wp fuel palt first c extra : extended = true -> alt_spec fuel palt -> inv c extra ->
  (0 < length (p c) <= fuel)%nat -> wp (ere_atom ok extended palt first) c (piece_post c extra).
Proof.
  intros Hx Hpalt Hi Hl. unfold ere_atom. wp_pure. change (id c) with c. cbv zeta.
  destruct (_ =? 40); [eapply group_atom_wp; try done; rewrite ?Hx; done || lia|].
  destruct (_ && (depth c >? 0)); [apply stay_post|].
  destruct (_ && first); [by apply raise_post|].
  destruct (_ =? 123); [by apply brace_atom_wp|].
  destruct (_ =? 46); [apply plain_atom_wp; done || lia|].
  destruct (_ && first); [apply plain_atom_wp; done || lia|].
  destruct (_ && at_seq_end_after_one _ _); [apply plain_atom_wp; done || lia|].
  destruct (_ =? 91); [apply parse_class_wp; done || lia|].
  destruct (_ =? 92); [|apply plain_atom_wp; done || lia].
  destruct (Z.eqb_spec (pk (p c) 1) 0) as [|H1%pk_len]; [by apply raise_post|].
  destruct (isdigit _) eqn:Ed; [by apply backref_atom_wp|apply plain_atom_wp; done || lia].
Qed.

Lemma bre_atom_wp fuel palt first c extra : extended = false -> alt_spec fuel palt -> inv c extra ->
  (0 < length (p c) <= fuel)%nat -> wp (bre_atom ok extended palt first) c (piece_post c extra).
Proof.
  intros Hx Hpalt Hi Hl. unfold bre_atom. wp_pure. change (id c) with c. cbv zeta.
  destruct (_ =? 92).
  - destruct (Z.eqb_spec (pk (p c) 1) 0) as [|H1%pk_len]; [by apply raise_post|].
    destruct (_ =? 40); [eapply group_atom_wp; try done; rewrite ?Hx; done || lia|].
    destruct (_ =? 41); [destruct (_ >? _); [apply stay_post|apply plain_atom_wp; done || lia]|].
    destruct (_ =? 124); [apply stay_post|].
    destruct (_ || _); [apply stay_post|].
    destruct (_ =? 123); [by apply brace_atom_wp|].
    destruct (isdigit _) eqn:Ed; [by apply backref_atom_wp|apply plain_atom_wp; done || lia].
  - destruct (_ =? 46); [apply plain_atom_wp; done || lia|].
    destruct (_ && first); [apply plain_atom_wp; done || lia|].
    destruct (_ && at_seq_end_after_one _ _); [apply plain_atom_wp; done || lia|].
    destruct (_ =? 91); [apply parse_class_wp; done || lia|].
    destruct (_ && first); apply plain_atom_wp; done || lia.
Qed.

Lemma rep_op_wp c extra : inv c extra ->
  wp (rep_op extended) c (fun r c' =>
    match r with
    | None => err c' <> 0
    | Some None => c' = c
    | Some (Some b) => moves c extra c' /\ bounds_ok b
    end).
Proof.
  intros Hi. unfold rep_op. wp_pure.
  set (Q := fun r c' => match r with None => _ | Some None => _ | Some (Some b) => _ end).
  assert (Hb : wp (let* (r, b) := parse_bounds extended in
      ret (if r <? 0 then None else if r =? 1 then Some (Some b) else Some None)) c Q).
  { apply wp_bind. eapply wp_mono; [by apply parse_bounds_wp|].
    intros [r b] c' [(-> & H1 & H2)|[(-> & ->)|(-> & H1)]]; by apply wp_ret. }
  assert (Hs : forall n b, (0 < n <= length (p c))%nat -> bounds_ok b -> wp (skip n ;;* ret (Some (Some b))) c Q).
  { intros n b Hn Hok. apply wp_bind, skip_wp; [lia|]. apply wp_ret. split; [|done].
    apply moves_set_p; [done|rewrite length_drop; lia]. }
  assert (B1 : forall lo, bounds_ok (lo, -1)) by (by left).
  assert (B2 : bounds_ok (0, 1)) by (right; simpl; lia).
  assert (P0 : forall k, pk (p c) 0 =? k = true -> k <> 0 -> (0 < 1 <= length (p c))%nat).
  { intros k E Hk. pose proof (pk_len (p c) 0). lia. }
  assert (P1 : forall b k, b && (pk (p c) 1 =? k) = true -> k <> 0 -> (0 < 2 <= length (p c))%nat).
  { intros b k E Hk. pose proof (pk_len (p c) 1). apply andb_prop in E as [_ E]. lia. }
  destruct (pk (p c) 0 =? 42) eqn:E1; [apply Hs; [by eapply P0|done]|].
  destruct extended.
  - destruct (pk (p c) 0 =? 43) eqn:E2; [apply Hs; [by eapply P0|done]|].
    destruct (pk (p c) 0 =? 63) eqn:E3; [apply Hs; [by eapply P0|done]|exact Hb].
  - destruct (_ && (pk (p c) 1 =? 43)) eqn:E2; [apply Hs; [by eapply P1|done]|].
    destruct (_ && (pk (p c) 1 =? 63)) eqn:E3; [apply Hs; [by eapply P1|done]|exact Hb].
Qed.

Lemma tree_ok_mono g g' n : g <= g' -> tree_ok g n = true -> tree_ok g' n = true.
Proof.
  intros Hg. induction n as [ch| |cls neg| | |idx sub IH|idx|alts IH|sub min max IH] using cnode_tree_ind;
    cbn [tree_ok]; intros H; try done; try lia.
  - apply andb_prop in H as [H1 H2]. apply andb_true_intro. split; [lia|].
    apply forallb_forall. rewrite forallb_forall in H2. rewrite List.Forall_forall in IH. auto.
  - rewrite forallb_forall in H |- *. intros q Hq. specialize (H q Hq). rewrite List.Forall_forall in IH.
    specialize (IH q Hq). rewrite forallb_forall in H |- *. rewrite List.Forall_forall in IH. auto.
  - apply andb_prop in H as [H1 H2]. apply andb_true_intro. split; [|done].
    apply forallb_forall. rewrite forallb_forall in H1. rewrite List.Forall_forall in IH. auto.
Qed.

Lemma trees_ok_mono g g' q : g <= g' -> forallb (tree_ok g) q = true -> forallb (tree_ok g') q = true.
Proof. rewrite !forallb_forall. intros Hg H n Hn. by eapply tree_ok_mono; [|apply H]. Qed.

Lemma rep_node_wp c c1 extra atom b : moves c extra c1 -> tree_ok (groups c1) atom = true -> bounds_ok b ->
  wp (rep_node ok atom b) c1 (piece_post c extra).
Proof.
  intros (Hi & Ha & Hlt) Hok Hb. unfold rep_node. apply wp_bind. eapply wp_mono; [by apply node_new_wp|].
  intros r c2 Hr. cbv beta in Hr. destruct (r =? 0); [apply wp_ret; left; exact Hr|].
  destruct Hr as (Hi2 & P2 & D2 & G2 & A2).
  apply wp_bind. eapply wp_mono; [by apply new_branch_wp|]. intros sub c3 Hs. cbv beta in Hs.
  destruct (sub =? 0); [apply wp_ret; left; exact Hs|]. destruct Hs as (Hi3 & P3 & D3 & G3 & A3).
  assert (Hi3' : inv c3 (v (Seq 0 []) :: sub :: extra)) by (by destruct Hi3).
  apply wp_bind. eapply wp_mono; [apply seq_add_wp, Hi3'|]. intros q c4 [(P4 & D4 & G4 & A4) Hq].
  destruct q as [q|]; [|by apply raise_post]. destruct Hq as [Hi4 Hq]. cbn [nodes app] in Hq.
  apply wp_bind. eapply wp_mono.
  { apply (set_owned_wp r [] [v q; sub] [v q; sub] c4 extra [] (allocs c1)); [done| |done]. by rewrite A4, A3, A2. }
  intros _ c5 (Hi5 & P5 & D5 & G5 & A5). apply wp_ret. split.
  - split; [done|]. split; [|rewrite P5, P4, P3, P2; done]. etrans; [exact Ha|]. split_and!.
    + by rewrite P5, P4, P3, P2.
    + by rewrite D5, D4, D3, D2.
    + rewrite G5, G4, G3, G2. lia.
    + exists [(r, [v q; sub])]. by rewrite A5.
  - cbn [tree_ok]. rewrite Hq, G5, G4, G3, G2. cbn [forallb]. rewrite Hok. cbn [andb]. destruct Hb; lia.
Qed.

Lemma parse_piece_wp fuel palt first c extra : alt_spec fuel palt -> inv c extra ->
  (0 < length (p c) <= fuel)%nat -> wp (parse_piece ok extended palt first) c (piece_post c extra).
Proof.
  intros Hpalt Hi Hl. unfold parse_piece. apply wp_bind.
  apply wp_mono with (Q := piece_post c extra).
  { pose proof (fun Hx => ere_atom_wp fuel palt first c extra Hx Hpalt Hi Hl) as H1.
    pose proof (fun Hx => bre_atom_wp fuel palt first c extra Hx Hpalt Hi Hl) as H2.
    destruct extended; auto. }
  intros [atom|] c1 H1; wp_pure; [|exact H1]. destruct H1 as [Hm Hok]. pose proof Hm as (Hi1 & Ha1 & Hlt).
  rewrite (inv_err _ _ Hi1). cbn [Z.eqb negb].
  apply wp_bind. eapply wp_mono; [by apply rep_op_wp|]. intros [[b|]|] c2 H2; cbv beta iota in H2.
  - destruct H2 as [Hm2 Hb]. apply rep_node_wp; [by eapply moves_trans| |done].
    eapply tree_ok_mono; [|exact Hok]. apply Hm2.
  - subst c2. by apply wp_ret.
  - apply wp_ret. by left.
Qed.

(** *** Sequences and alternatives *)

Definition seq_post (c : cstate) (extra : list Z) (q : cseq) (c' : cstate) : Prop :=
  err c' <> 0 \/ (inv c' (v q :: extra) /\ advances c c' /\ forallb (tree_ok (groups c')) (nodes q) = true).

Lemma parse_seq_wp fuel palt c extra : alt_spec fuel palt -> inv c extra -> (length (p c) <= fuel)%nat ->
  wp (parse_seq ok extended palt) c (seq_post c extra).
Proof.
  intros Hpalt Hi Hl. unfold parse_seq. wp_pure.
  set (I := fun (g : nat) (x : cseq * bool) c' => g = length (p c') /\ inv c' (v x.1 :: extra) /\ advances c c'
              /\ forallb (tree_ok (groups c')) (nodes x.1) = true).
  eapply (wp_loop_ghost I (fun g => g)) with (g := length (p c)).
  - intros g [q first] c1 (-> & Hi1 & Ha1 & Hok1). wp_pure. change (id c1) with c1.
    destruct (at_seq_end extended c1) eqn:Ee; [apply wp_ret; by right|].
    destruct (at_alt extended c1); [apply wp_ret; by right|].
    apply seq_end_len in Ee. pose proof Ha1 as (L1 & _).
    apply wp_bind. eapply wp_mono; [apply (parse_piece_wp fuel palt first c1 (v q :: extra)); [done..|lia]|].
    intros [n|] c2 H2.
    + destruct H2 as [(Hi2 & Ha2 & Hlt2) Hok2]. apply wp_bind. eapply wp_mono; [by apply seq_add_wp|].
      intros [q'|] c3 (Hh & H3); pose proof (heap_only_advances _ _ Hh) as Ha3.
      * apply wp_ret. destruct H3 as [Hi3 Hn3]. destruct Hh as (P3 & D3 & G3 & A3). exists (length (p c3)).
        split; [|rewrite P3; lia]. split; [done|]. split; [done|].
        split; [etrans; [exact Ha1|]; etrans; [exact Ha2|done]|].
        cbn [fst] in *. rewrite Hn3, forallb_app, G3. cbn [forallb]. rewrite Hok2.
        rewrite (trees_ok_mono (groups c1)); [done|apply Ha2|done].
      * wp_pure. apply raise_wp, wp_ret. by left.
    + wp_pure. destruct (Z.eqb_spec (err c2) 0) as [He2|He2].
      * destruct H2 as [H2| ->]; [done|].
        eapply wp_mono; [by eapply at_rep_op_wp|]. intros r c3 ->. wp_pure. destruct r.
        -- apply raise_wp, wp_ret. by left.
        -- wp_pure. by right.
      * wp_pure. by left.
  - split; [done|]. split; [by destruct Hi|]. done.
  - lia.
Qed.

Lemma at_alt_len c : at_alt extended c = true -> ((if extended then 1 else 2) <= length (p c))%nat.
Proof.
  unfold at_alt. intros H. pose proof (pk_len (p c) 0). pose proof (pk_len (p c) 1).
  destruct extended; [|apply andb_prop in H as [_ H]]; apply Z.eqb_eq in H; lia.
Qed.

Lemma ahead_trans c1 c2 c3 : ahead c1 c2 -> ahead c2 c3 -> ahead c1 c3.
Proof. intros (H1 & H2 & H3) (K1 & K2 & K3). split_and!; [lia|congruence|lia]. Qed.

Lemma advances_ahead c c' : advances c c' -> ahead c c'.
Proof. by intros (H1 & H2 & H3 & _). Qed.

(** The branches read so far. *)
Definition branches_ok (g : Z) (bs : list cseq) : bool := forallb (fun q => forallb (tree_ok g) (nodes q)) bs.

Lemma branches_ok_snoc g g' bs b : g <= g' -> branches_ok g bs = true -> forallb (tree_ok g') (nodes b) = true ->
  branches_ok g' (bs ++ [b]) = true.
Proof.
  intros Hg H Hb. unfold branches_ok. rewrite forallb_app. cbn [forallb]. rewrite Hb, !andb_true_r.
  unfold branches_ok in H. rewrite forallb_forall in H |- *. intros q Hq. eapply trees_ok_mono; [done|by apply H].
Qed.

Section Alternatives.
Context (alt : Z) (a0 : list (Z * list Z)) (extra : list Z).

(** The arena holds the [OP_ALT] node with its branches. *)
Definition alt_inv (c : cstate) (g : nat) (x : Z * nat * list cseq) (c' : cstate) : Prop :=
  let '(alts, _, bs) := x in
  g = length (p c') /\ inv c' extra /\ ahead c c'
  /\ (exists new, allocs c' = new ++ (alt, map v bs ++ [alts]) :: a0) /\ branches_ok (groups c') bs = true.

Definition alt_post (c : cstate) (r : option (list cseq)) (c' : cstate) : Prop :=
  match r with
  | None => err c' <> 0
  | Some bs => inv c' extra /\ ahead c c' /\ (exists new, allocs c' = new ++ a0) /\ branches_ok (groups c') bs = true
  end.

(** The new branch is stored in the array. *)
Lemma alt_store_wp c c1 c3 c4 grown cap bs b new l0 l l' :
  ahead c c1 -> ahead c1 c3 -> (length (p c3) < length (p c1))%nat -> heap_only c3 c4 ->
  allocs c3 = new ++ (alt, l0) :: a0 -> inv (set_allocs (new ++ (alt, l) :: a0) c4) (l' ++ extra) ->
  l ++ l' ≡ₚ map v (bs ++ [b]) ++ [grown] -> branches_ok (groups c3) (bs ++ [b]) = true ->
  wp (set_owned alt (map v (bs ++ [b]) ++ [grown]) ;;* continue (grown, cap, bs ++ [b])) c4
    (fun r s' => match r with
     | inl x' => exists g', alt_inv c g' x' s' /\ (g' < length (p c1))%nat
     | inr r => alt_post c r s'
     end).
Proof.
  intros H1 H13 Hlt (P4 & D4 & G4 & A4) A3 Hi Hp Hok. apply wp_bind.
  eapply wp_mono; [apply (set_owned_gen alt l0 l l' _ c4 extra new a0 Hi); [by rewrite A4|done]|].
  intros _ c5 (Hi5 & P5 & D5 & G5 & A5). apply wp_ret. exists (length (p c5)).
  split; [|by rewrite P5, P4]. split; [done|]. split; [done|].
  split; [|split; [by exists new|by rewrite G5, G4]].
  destruct (ahead_trans _ _ _ H1 H13) as (L & D & G). unfold ahead. rewrite P5, P4, D5, D4, G5, G4. done.
Qed.

Lemma alt_loop_wp fuel palt alts c first : alt_spec fuel palt -> inv c extra -> (length (p c) <= fuel)%nat ->
  allocs c = (alt, [v first; alts]) :: a0 -> forallb (tree_ok (groups c)) (nodes first) = true ->
  wp (alt_loop ok extended (parse_seq ok extended palt) alt alts [first]) c (alt_post c).
Proof.
  intros Hpalt Hi Hl Ha Hok. unfold alt_loop. wp_pure.
  eapply (wp_loop_ghost (alt_inv c) (fun g => g)) with (g := length (p c)).
  - intros g [[al cap] bs] c1 (-> & Hi1 & Ha1 & (new & A1) & Hok1). wp_pure. change (id c1) with c1.
    destruct (at_alt extended c1) eqn:Ea; cbn [negb].
    2:{ apply wp_ret. split; [done|]. split; [done|]. split; [|done]. eexists. by rewrite A1, cons_middle, app_assoc. }
    apply at_alt_len in Ea. pose proof Ha1 as (L1 & _). unfold eat_alt.
    apply wp_bind, skip_wp; [done|]. set (w := if extended then 1%nat else 2%nat) in *.
    assert (Hw : (0 < w)%nat) by (unfold w; destruct extended; lia).
    assert (Hm : moves c1 extra (set_p (drop w (p c1)) c1)) by (apply moves_set_p; [done|rewrite length_drop; lia]).
    destruct Hm as (Hi2 & Ha2 & Hlt). apply wp_bind.
    eapply wp_mono; [apply (parse_seq_wp fuel palt _ extra); [done|exact Hi2|lia]|].
    intros b c3 Hb. wp_pure. destruct (Z.eqb_spec (err c3) 0) as [He3|]; cbn [negb]; [|by apply wp_ret].
    destruct Hb as [?|(Hi3 & Ha3 & Hok3)]; [done|].
    pose proof Ha3 as (L3 & _ & G3 & new3 & A3). cbn [set_p allocs groups] in A3, G3.
    rewrite A1, app_assoc in A3. pose proof (branches_ok_snoc _ _ _ _ G3 Hok1 Hok3) as Hbs.
    assert (H13 : ahead c1 c3) by (apply advances_ahead; by etrans).
    assert (Hlt3 : (length (p c3) < length (p c1))%nat) by lia.
    destruct (length bs =? cap)%nat eqn:Ef; cbn [andb].
    + apply wp_bind. eapply wp_mono; [apply (realloc_owned_wp alt (map v bs) al c3 (v b :: extra)); done|].
      intros grown c4 [Hh Hg]. cbn [andb]. destruct (grown =? 0); [wp_pure; by apply raise_wp, wp_ret|].
      eapply (alt_store_wp c c1 c3 c4 _ _ _ _ _ _ (map v bs) [grown; v b]); try done.
      rewrite map_app. cbn [map]. solve_Permutation.
    + wp_pure. eapply (alt_store_wp c c1 c3 c3 _ _ _ _ _ _ (map v bs ++ [al]) [v b]); try done.
      * rewrite <- A3. by destruct Hi3.
      * rewrite map_app. cbn [map]. solve_Permutation.
  - split; [done|]. split; [done|]. split; [done|]. split; [by exists []|].
    unfold branches_ok. cbn [forallb]. by rewrite Hok.
  - lia.
Qed.
End Alternatives.

Lemma parse_alt_wp fuel : alt_spec fuel (parse_alt ok extended fuel).
Proof.
  induction fuel as [|fuel IH]; intros c extra Hi Hl; [lia|]. cbn [parse_alt]. cbv zeta.
  apply wp_bind. eapply wp_mono; [apply (parse_seq_wp fuel _ c extra IH Hi); lia|].
  intros first c1 H1. wp_pure. change (id c1) with c1.
  destruct (Z.eqb_spec (err c1) 0) as [He1|He1]; cbn [negb]; [|apply wp_ret; by left].
  destruct H1 as [?|(Hi1 & Ha1 & Hok1)]; [done|].
  destruct (at_alt extended c1); cbn [negb]; [|apply wp_ret; by right].
  apply wp_bind. eapply wp_mono; [by apply node_new_wp|]. intros alt c2 H2. cbv beta in H2.
  destruct (alt =? 0); [apply wp_ret; left; exact H2|]. destruct H2 as (Hi2 & P2 & D2 & G2 & A2).
  apply wp_bind. eapply wp_mono; [by apply calloc_wp|]. intros alts c3 (Hi3 & P3 & D3 & G3 & A3).
  destruct (alts =? 0); [apply raise_wp; by left|].
  apply wp_bind. eapply wp_mono.
  { apply (set_owned_wp alt [] [v first; alts] [v first; alts] c3 extra [] (allocs c1)); [|by rewrite A3|done].
    destruct Hi3 as [He Hg Hlv Hn Ho]. constructor; try done. rewrite Ho. apply Permutation_app_head, nz_perm. constructor. }
  intros _ c4 (Hi4 & P4 & D4 & G4 & A4).
  assert (H14 : ahead c1 c4) by (split_and!; [by rewrite P4, P3, P2|by rewrite D4, D3, D2|rewrite G4, G3, G2; lia]).
  apply wp_bind. eapply wp_mono.
  { apply (alt_loop_wp alt (allocs c1) extra fuel (parse_alt ok extended fuel) alts c4 first); try done.
    - destruct H14, Ha1. lia.
    - rewrite G4, G3, G2. done. }
  intros [bs|] c5 H5; [|apply wp_ret; by left]. destruct H5 as (Hi5 & Ha5 & (new & A5) & Hok5).
  assert (Hi5' : inv c5 (v (Seq 0 []) :: extra)) by (by destruct Hi5).
  apply wp_bind. eapply wp_mono; [apply seq_add_wp, Hi5'|].
  intros [out|] c6 ((P6 & D6 & G6 & A6) & H6); [|apply raise_wp; by left]. apply wp_ret. right.
  destruct H6 as [Hi6 Hn6]. split; [done|].
  pose proof (ahead_trans _ _ _ (advances_ahead _ _ Ha1) (ahead_trans _ _ _ H14 Ha5)) as (L & D & G).
  destruct Ha1 as (_ & _ & _ & new1 & A1). split; [split_and!|].
  - by rewrite P6.
  - by rewrite D6.
  - by rewrite G6.
  - exists (new ++ new1). by rewrite A6, A5, A1, app_assoc.
  - rewrite Hn6, G6. cbn [nodes app forallb tree_ok]. rewrite andb_true_r. unfold branches_ok in Hok5.
    by rewrite forallb_map.
Qed.

End Specs.

(** ** The compiled program *)

Lemma tree_groups_ok g n : g < REG_NGROUPS -> tree_ok g n = true -> groups_ok n = true.
Proof.
  intros Hg. unfold REG_NGROUPS in *.
  induction n as [ch| |cls neg| | |idx sub IH|idx|alts IH|sub min max IH] using cnode_tree_ind;
    cbn [tree_ok groups_ok]; intros H; try done; try (unfold REG_NGROUPS; lia).
  - apply andb_prop in H as [H1 H2]. apply andb_true_intro. split; [unfold REG_NGROUPS; lia|].
    apply forallb_forall. rewrite forallb_forall in H2. rewrite List.Forall_forall in IH. auto.
  - rewrite forallb_forall in H |- *. intros q Hq. specialize (H q Hq). rewrite List.Forall_forall in IH.
    specialize (IH q Hq). rewrite forallb_forall in H |- *. rewrite List.Forall_forall in IH. auto.
  - apply andb_prop in H as [H1 H2].
    apply forallb_forall. rewrite forallb_forall in H1. rewrite List.Forall_forall in IH. auto.
Qed.

Lemma blocks_owned prog top a : nz (program_blocks prog top a) ≡ₚ nz (map fst a) ++ nz (concat (map snd a)) ++ nz [top; prog].
Proof.
  unfold program_blocks. rewrite nz_app, app_assoc. apply Permutation_app_tail. rewrite <- nz_app. apply nz_perm.
  induction a as [|[n l] a IH]; [done|]. cbn [map concat fst snd app]. rewrite IH. solve_Permutation.
Qed.

Lemma owned_nz a : Forall (fun q => 0 < q) (owned a) ->
  owned a ≡ₚ nz (map fst a) ++ nz (concat (map snd a)).
Proof.
  induction a as [|[n l] a IH]; [done|]. rewrite owned_cons. intros [Hn [_ Ha]%Forall_app]%Forall_cons_1.
  cbn [map concat fst snd]. rewrite nz_cons, nz_app, (IH Ha). zdecide. solve_Permutation.
Qed.

(** What [regcomp] returns: an error, or a program that is well formed and whose
    blocks are exactly the live ones. *)
Lemma regcomp_spec ok pattern cflags : exists o, regcomp ok true (Some pattern) cflags = Some o /\
  match o with
  | Failed e _ _ => e <> 0
  | Compiled prog blocks l =>
      0 <= ngroup prog < REG_NGROUPS /\ prog_cflags prog = cflags
      /\ forallb (tree_ok (ngroup prog)) (Regexec.top prog) = true /\ NoDup l /\ l ≡ₚ nz blocks
  end.
Proof.
  unfold regcomp. cbn [negb].
  assert (Hi0 : inv (CS pattern 0 0 0 [] [] 0) []) by (constructor; cbn; unfold REG_NGROUPS; try done; try lia; constructor).
  apply (calloc_wp ok), wp_total in Hi0 as (prog & c1 & -> & Hi1 & P1 & _). cbn [mbind option_bind].
  destruct (prog =? 0); [by eexists|].
  assert (Hl : (length (p c1) < S (length pattern))%nat) by (rewrite P1; cbn; lia).
  pose proof (parse_alt_wp ok (flag cflags REG_EXTENDED) (S (length pattern)) c1 [prog] Hi1 Hl) as H.
  apply wp_total in H as (q & c2 & -> & H2). cbn [mbind option_bind].
  set (e := if _ && _ then _ else _). destruct (Z.eqb_spec e 0) as [He|He]; cbn [negb].
  2:{ destruct (release _ _) as [l bad]. by eexists. }
  assert (He2 : err c2 = 0) by (unfold e in He; destruct ((err c2 =? 0) && _); done).
  destruct H2 as [?|([_ Hg Hlv Hn Ho] & Ha & Hok)]; [done|]. eexists. split; [done|]. cbn [ngroup prog_cflags Regexec.top].
  split_and!; try done; try apply Hg. rewrite blocks_owned, app_assoc, Ho. apply Permutation_app; [|done].
  apply owned_nz. rewrite Ho in Hlv. apply Forall_app in Hlv as [Hlv _]. revert Hlv. apply List.Forall_impl. lia.
Qed.

(** C20: [regcomp] always returns, on every pattern and whichever allocations
    fail, without reading past the pattern.  On success the program is well
    formed: its groups are numbered from 1 to [re_nsub], at most 31, its back
    references name groups that exist, classes have 32 bytes and repetition
    bounds are in order; and so [regexec] on it stays inside its capture arrays
    and the string, and returns. *)
Theorem regcomp_total_wf ok pattern cflags :
  exists o, regcomp ok true (Some pattern) cflags = Some o /\
  match o with
  | Failed e _ _ => e <> 0
  | Compiled prog _ _ =>
      0 <= ngroup prog <= 31 /\ prog_cflags prog = cflags
      /\ forallb (tree_ok (ngroup prog)) (Regexec.top prog) = true
      /\ forall s nmatch pm0 eflags so len, match_range (Z.of_nat (length s)) nmatch pm0 eflags = Some (so, len) ->
           len <= Z.of_nat (length s) ->
           is_Some (regexec (Some prog) (Some s) (Z.of_nat (length s)) nmatch pm0 eflags)
  end.
Proof.
  destruct (regcomp_spec ok pattern cflags) as (o & E & H). exists o. split; [done|].
  destruct o as [prog blocks l|e l bad]; [|done]. destruct H as (Hg & Hf & Hok & _).
  split_and!; [apply Hg|unfold REG_NGROUPS in Hg; lia|done|done|].
  intros s nmatch pm0 eflags so len Hr Hlen.
  assert (Hgr : forallb groups_ok (Regexec.top prog) = true).
  { rewrite forallb_forall in Hok |- *. intros n Hn. eapply tree_groups_ok; [apply Hg|auto]. }
  destruct (decide (0 <= len)) as [H0|H0].
  - destruct (regexec_search prog s (Z.of_nat (length s)) nmatch pm0 eflags so len Hr ltac:(lia) ltac:(lia) Hgr)
      as [(st & x & -> & _)|(-> & _)]; by eexists.
  - exfalso. unfold match_range in Hr. destruct pm0 as [[a b]|]; [destruct (_ && _)|]; [|injection Hr as <- <-; lia..].
    destruct (_ || _) eqn:Ea; [done|]. injection Hr as <- <-. apply orb_false_iff in Ea. lia.
Qed.

(** [regerror] never writes past its buffer, and what it writes is a string. *)
Lemma regerror_fits errcode errbuf size need s : regerror errcode errbuf size = (need, Some s) ->
  (length s <= size)%nat /\ (length s <= need)%nat /\ exists m, s = m ++ [0] /\ m `prefix_of` regerror_msg errcode.
Proof.
  unfold regerror. destruct (errbuf && (0 <? size)%nat) eqn:E; [|done]. intros [= <- <-].
  apply andb_prop in E as [_ E%Nat.ltb_lt]. rewrite length_app, length_take. cbn [length].
  destruct (Nat.leb_spec (length (regerror_msg errcode) + 1) size).
  - split_and!; [lia|lia|]. eexists. split; [done|]. apply prefix_take.
  - split_and!; [lia|lia|]. eexists. split; [done|]. apply prefix_take.
Qed.

(** C21: Every block a successful [regcomp] allocated is released by [regfree],
    exactly once: nothing is left and nothing is freed twice. *)
Theorem regfree_releases_all ok pattern cflags o :
  regcomp ok true (Some pattern) cflags = Some o -> (exists prog blocks l, o = Compiled prog blocks l) ->
  regfree o = ([], []).
Proof.
  intros E (prog & blocks & l & ->). destruct (regcomp_spec ok pattern cflags) as (o' & E' & H).
  rewrite E in E'. injection E' as <-. destruct H as (_ & _ & _ & Hn & Hp). by apply release_all.
Qed.

(** The pattern [(a|b)*\1{2}] *)
Definition sample : str := [40; 97; 124; 98; 41; 42; 92; 49; 123; 50; 125].

Lemma regfree_releases_all_witness : exists o, regcomp (fun _ => true) true (Some sample) 1 = Some o /\ regfree o = ([], []).
Proof.
  eexists. split; [vm_compute; reflexivity|].
  refine (regfree_releases_all (fun _ => true) sample 1 _ _ _); [vm_compute; reflexivity|].
  do 3 eexists. reflexivity.
Defined.

(** On an error in a later alternative the branches of the first are freed with
    the [OP_ALT] node and again as the top of the program: [a|*] in an ERE.  The
    same inside parentheses loses the block of the group's sequence. *)
Lemma regcomp_error_double_free :
  regcomp (fun _ => true) true (Some [97; 124; 42]) 1 = Some (Failed REG_BADRPT [] [3])
  /\ regcomp (fun _ => true) true (Some [40; 97; 124; 42; 41]) 1 = Some (Failed REG_BADRPT [2] []).
Proof. by vm_compute. Qed.

End Regcomp.
