(* ===== verification/Ere.v ===== *)
(** * Ere: what regcomp makes of an extended regular expression

    A syntax of extended regular expressions of its own, bracket expressions
    included, with the tree each denotes and the text it is written as.  The round trip: compiling the text
    gives the tree.  Together with the theorems of Regexec this settles what
    matching a written pattern means. *)

From Stdlib Require Import ZArith Lia Bool String Ascii.
From stdpp Require Import base sets list numbers.
From S2P Require Import Prelude Monad Ctype Regexec Regcomp.

Module Ere.
Import Ctype Regexec Regcomp.

(** ** Syntax *)

(** Numbers are written as their decimal digits. *)
Inductive quant :=
| One | Star | Plus | Opt
| Exactly (n : str) | AtLeast (n : str) | Between (n m : str).

(** A member of a bracket expression: a character, a range, a class by its name. *)
Inductive item := Single (c : Z) | Range (lo hi : Z) | Class (name : string).

(** A bracket expression may start with a closing bracket and end with a hyphen. *)
Inductive atom :=
| Char (c : Z)
| Any
| Bracket (neg rb : bool) (items : list item) (dash : bool)
| Group (first : branch) (others : list branch)
with branch :=
| Branch (bol : bool) (pieces : list (atom * quant)) (eol : bool).

Definition value (ds : str) : Z := fold_left (fun n c => n * 10 + (c - 48)) ds 0.

(** ** The tree *)

Definition item_has (c : Z) (i : item) : bool :=
  match i with
  | Single a => c =? a
  | Range lo hi => within [(lo, hi)] c
  | Class n => existsb (fun '(m, rs) => String.eqb m n && within rs c) classes
  end.

Definition members (rb : bool) (items : list item) (dash : bool) (c : Z) : bool :=
  (rb && (c =? 93)) || existsb (item_has c) items || (dash && (c =? 45)).

(** The bit map of a set of characters, eight to a byte. *)
Definition byte_of (f : Z -> bool) : Z :=
  b2z (f 0) + 2 * b2z (f 1) + 4 * b2z (f 2) + 8 * b2z (f 3) + 16 * b2z (f 4) + 32 * b2z (f 5) + 64 * b2z (f 6) + 128 * b2z (f 7).
Definition bitmap (f : Z -> bool) : list Z := (fun k => byte_of (fun j => f (8 * k + j))) <$> seqZ 0 32.

Definition quantify (q : quant) (n : cnode) : cnode :=
  match q with
  | One => n
  | Star => OP_REP [n] 0 (-1)
  | Plus => OP_REP [n] 1 (-1)
  | Opt => OP_REP [n] 0 1
  | Exactly k => OP_REP [n] (value k) (value k)
  | AtLeast k => OP_REP [n] (value k) (-1)
  | Between k m => OP_REP [n] (value k) (value m)
  end.

(** Groups are numbered by their opening parentheses, after [g]. *)
Definition alternatives (bs : list (list cnode)) : list cnode :=
  match bs with [b] => b | _ => [OP_ALT bs] end.

Fixpoint atom_tree (g : Z) (a : atom) : cnode * Z :=
  match a with
  | Char c => (OP_CHAR c, g)
  | Any => (OP_ANY, g)
  | Bracket neg rb items dash => (OP_CLASS (bitmap (members rb items dash)) neg, g)
  | Group b bs =>
      let '(t, g1) := branch_tree (g + 1) b in
      let '(ts, g2) :=
        (fix go (g : Z) (bs : list branch) : list (list cnode) * Z :=
           match bs with
           | [] => ([], g)
           | b :: bs => let '(t, g) := branch_tree g b in let '(ts, g) := go g bs in (t :: ts, g)
           end) g1 bs in
      (OP_GROUP (g + 1) (alternatives (t :: ts)), g2)
  end
with branch_tree (g : Z) (b : branch) : list cnode * Z :=
  match b with
  | Branch bol ps eol =>
      let '(ns, g) :=
        (fix go (g : Z) (ps : list (atom * quant)) : list cnode * Z :=
           match ps with
           | [] => ([], g)
           | (a, q) :: ps => let '(n, g) := atom_tree g a in let '(ns, g) := go g ps in (quantify q n :: ns, g)
           end) g ps in
      ((if bol then [OP_BOL] else []) ++ ns ++ (if eol then [OP_EOL] else []), g)
  end.

Definition pieces_tree : Z -> list (atom * quant) -> list cnode * Z :=
  fix go (g : Z) (ps : list (atom * quant)) : list cnode * Z :=
    match ps with
    | [] => ([], g)
    | (a, q) :: ps => let '(n, g) := atom_tree g a in let '(ns, g) := go g ps in (quantify q n :: ns, g)
    end.

Definition branches_tree : Z -> list branch -> list (list cnode) * Z :=
  fix go (g : Z) (bs : list branch) : list (list cnode) * Z :=
    match bs with
    | [] => ([], g)
    | b :: bs => let '(t, g) := branch_tree g b in let '(ts, g) := go g bs in (t :: ts, g)
    end.

Definition tree (g : Z) (b : branch) (bs : list branch) : list cnode * Z :=
  let '(ts, g) := branches_tree g (b :: bs) in (alternatives ts, g).

(** ** The text *)

(** The characters an ERE gives a meaning to: parentheses, bar, the repetition
    operators, dot, the anchors, the opening bracket and the backslash. *)
Definition special (c : Z) : bool :=
  bool_decide (c ∈ [40; 41; 124; 42; 43; 63; 123; 46; 94; 36; 91; 92]).

Definition show_quant (q : quant) : str :=
  match q with
  | One => []
  | Star => [42]
  | Plus => [43]
  | Opt => [63]
  | Exactly n => [123] ++ n ++ [125]
  | AtLeast n => [123] ++ n ++ [44; 125]
  | Between n m => [123] ++ n ++ [44] ++ m ++ [125]
  end.

Definition show_item (i : item) : str :=
  match i with Single c => [c] | Range lo hi => [lo; 45; hi] | Class n => [91; 58] ++ codes n ++ [58; 93] end.
Definition show_items (items : list item) (dash : bool) : str := concat (map show_item items) ++ (if dash then [45] else []) ++ [93].

Fixpoint show_atom (a : atom) : str :=
  match a with
  | Char c => if special c then [92; c] else [c]
  | Any => [46]
  | Bracket neg rb items dash => [91] ++ (if neg then [94] else []) ++ (if rb then [93] else []) ++ show_items items dash
  | Group b bs => [40] ++ show_branch b ++ concat (map (fun b => 124 :: show_branch b) bs) ++ [41]
  end
with show_branch (b : branch) : str :=
  match b with
  | Branch bol ps eol =>
      (if bol then [94] else []) ++ concat (map (fun '(a, q) => show_atom a ++ show_quant q) ps)
      ++ (if eol then [36] else [])
  end.

Definition show_pieces (ps : list (atom * quant)) : str := concat (map (fun '(a, q) => show_atom a ++ show_quant q) ps).
Definition show (b : branch) (bs : list branch) : str := show_branch b ++ concat (map (fun b => 124 :: show_branch b) bs).

(** ** Well-formed expressions *)

Definition number_ok (ds : str) : bool := bool_decide (0 < length ds < 10)%nat && forallb isdigit ds.

Definition quant_ok (q : quant) : bool :=
  match q with
  | Exactly n | AtLeast n => number_ok n
  | Between n m => number_ok n && number_ok m && (value n <=? value m)
  | _ => true
  end.

(** A character that starts a member: not a bracket, a hyphen or a circumflex. *)
Definition starts (c : Z) : bool := (1 <=? c) && (c <? 256) && negb (bool_decide (c ∈ [45; 91; 93; 94])).

Definition item_ok (i : item) : bool :=
  match i with
  | Single c => starts c
  | Range lo hi => starts lo && (lo <=? hi) && (hi <? 256) && negb (hi =? 93)
  | Class n => existsb (fun '(m, _) => String.eqb m n) classes
  end.

Fixpoint atom_ok (a : atom) : bool :=
  match a with
  | Char c => (1 <=? c) && (c <? 256)
  | Any => true
  | Bracket _ rb items dash => forallb item_ok items && (rb || dash || negb (bool_decide (length items = 0%nat)))
  | Group b bs => branch_ok b && forallb branch_ok bs
  end
with branch_ok (b : branch) : bool :=
  match b with Branch _ ps _ => forallb (fun '(a, q) => atom_ok a && quant_ok q) ps end.

(** The groups of an expression. *)
Definition groups_of (b : branch) (bs : list branch) : Z := (tree 0 b bs).2.

(** ** The parser on the text

    With an allocator that does not fail. *)

Definition always : nat -> bool := fun _ => true.

(** The parser is at the text [s], with [g] groups behind it, [d] deep. *)
Definition is_at (c : cstate) (s : str) (g d : Z) : Prop := p c = s /\ groups c = g /\ depth c = d /\ err c = 0.

Section Steps.
Context (g d : Z).

Lemma calloc_at c s : is_at c s g d -> wp (calloc always) c (fun q c' => q <> 0 /\ is_at c' s g d).
Proof. intros H. unfold wp, calloc. cbn. split; [lia|done]. Qed.

Lemma realloc_at c s old : is_at c s g d -> wp (realloc always old) c (fun q c' => q <> 0 /\ is_at c' s g d).
Proof. intros H. unfold wp, realloc. cbn. split; [lia|done]. Qed.

Lemma node_new_at c s : is_at c s g d -> wp (node_new always) c (fun q c' => q <> 0 /\ is_at c' s g d).
Proof.
  intros H. unfold node_new. apply wp_bind. eapply wp_mono; [by apply calloc_at|]. intros q c' [Hq H'].
  zdecide. by wp_pure.
Qed.

Lemma new_branch_at c s : is_at c s g d -> wp (new_branch always) c (fun q c' => q <> 0 /\ is_at c' s g d).
Proof.
  intros H. unfold new_branch. apply wp_bind. eapply wp_mono; [by apply calloc_at|]. intros q c' [Hq H'].
  zdecide. by apply wp_ret.
Qed.

Lemma set_owned_at c s n l : is_at c s g d -> wp (set_owned n l) c (fun _ c' => is_at c' s g d).
Proof. intros H. unfold set_owned. by wp_pure. Qed.

Lemma seq_add_at c s q n : is_at c s g d ->
  wp (seq_add always q n) c (fun r c' => is_at c' s g d /\ exists q', r = Some q' /\ nodes q' = nodes q ++ [n]).
Proof.
  intros H. unfold seq_add. destruct (_ =? 0).
  - apply wp_bind. eapply wp_mono; [by apply realloc_at|]. intros w c' [Hw H']. zdecide. apply wp_ret.
    split; [done|]. by eexists.
  - apply wp_ret. split; [done|]. by eexists.
Qed.

Lemma skip_at c x s (Q : unit -> cstate -> Prop) : is_at c (x ++ s) g d ->
  (forall c', is_at c' s g d -> Q tt c') -> wp (skip (length x)) c Q.
Proof.
  intros (H1 & H2 & H3 & H4) HQ. apply skip_wp; rewrite H1; [rewrite length_app; lia|].
  rewrite drop_app_length. by apply HQ.
Qed.

Lemma plain_atom_at c x s a : is_at c (x ++ s) g d ->
  wp (plain_atom always (length x) a) c (fun r c' => r = Some a /\ is_at c' s g d).
Proof.
  intros H. unfold plain_atom. apply wp_bind. eapply skip_at; [exact H|]. intros c' H'.
  apply wp_bind. eapply wp_mono; [by apply node_new_at|]. intros w c2 [Hw H2]. apply wp_ret. zdecide. done.
Qed.

End Steps.

(** *** Quantifiers *)

Definition bounds (q : quant) : option (Z * Z) :=
  match q with
  | One => None
  | Star => Some (0, -1)
  | Plus => Some (1, -1)
  | Opt => Some (0, 1)
  | Exactly n => Some (value n, value n)
  | AtLeast n => Some (value n, -1)
  | Between n m => Some (value n, value m)
  end.

Lemma number_run ds : forall n h rest, forallb isdigit ds = true -> isdigit (pk rest 0) = false ->
  0 <= n -> (n + 1) * 10 ^ Z.of_nat (length ds) <= 10 ^ 9 ->
  number (ds ++ rest) n h = (fold_left (fun n c => n * 10 + (c - 48)) ds n, h || bool_decide (ds <> []), rest)
  /\ 0 <= fold_left (fun n c => n * 10 + (c - 48)) ds n.
Proof.
  induction ds as [|c ds IH]; intros n h rest Hd Hr Hn Hb.
  - rewrite orb_false_r. split; [|done]. destruct rest as [|c rest]; [done|]. cbn [number app].
    cbn in Hr. by rewrite Hr.
  - cbn [forallb] in Hd. apply andb_prop in Hd as [Hc Hd]. cbn [app number fold_left]. rewrite Hc.
    unfold isdigit in Hc. cbn [length] in Hb. rewrite Nat2Z.inj_succ, Z.pow_succ_r in Hb by lia.
    assert (0 < 10 ^ Z.of_nat (length ds)) by (apply Z.pow_pos_nonneg; lia).
    rewrite s32_small by (change (10 ^ 9) with 1000000000 in Hb; change (2 ^ 31) with 2147483648; nia).
    destruct (IH (n * 10 + (c - 48)) true rest Hd Hr ltac:(lia) ltac:(nia)) as [-> H0]. split; [|done].
    by rewrite orb_true_l, orb_true_r.
Qed.

Lemma value_run ds rest : number_ok ds = true -> isdigit (pk rest 0) = false ->
  number (ds ++ rest) 0 false = (value ds, true, rest) /\ 0 <= value ds.
Proof.
  unfold number_ok. intros [H1%bool_decide_eq_true Hd]%andb_prop Hr.
  destruct (number_run ds 0 false rest Hd Hr ltac:(lia)) as [E H0].
  - rewrite Z.mul_1_l. apply Z.pow_le_mono_r; lia.
  - split; [|done]. rewrite E. rewrite orb_false_l, bool_decide_eq_true_2; [done|]. intros ->. cbn in H1. lia.
Qed.

(** A brace expression: [hi] and [have] are what its second half says. *)
Lemma parse_bounds_at c g d n mid (hi : Z) (have : bool) s :
  is_at c ([123] ++ n ++ mid ++ [125] ++ s) g d -> number_ok n = true -> isdigit (pk (mid ++ [125]) 0) = false ->
  (if pk (mid ++ [125]) 0 =? 44
   then let '(h, hv, r) := number (tail (mid ++ [125] ++ s)) 0 false in ((if hv then h else -1), hv, r)
   else (value n, true, mid ++ [125] ++ s)) = (hi, have, [125] ++ s) ->
  (have = true -> value n <= hi) ->
  wp (parse_bounds true) c (fun r c' => r = (1, (value n, if have && (hi >=? 0) then hi else -1)) /\ is_at c' s g d).
Proof.
  intros (P & G & D & E) Hn Hm Hh Hle. unfold parse_bounds. wp_pure. rewrite P. cbn [app].
  change (pk (123 :: _) 0) with 123. cbn [Z.eqb negb]. change (123 =? 123) with true. cbn [negb].
  apply wp_bind, skip_wp; [rewrite P; cbn; lia|]. wp_pure. cbn [set_p p]. rewrite P. cbn [app drop]. rewrite ?drop_0.
  assert (Hpk : forall t, pk (mid ++ 125 :: t) 0 = pk (mid ++ [125]) 0) by (by destruct mid).
  destruct (value_run n (mid ++ 125 :: s) Hn) as [-> Hv]; [by rewrite Hpk|].
  rewrite Hpk. cbn [app] in Hh. rewrite Hh. wp_pure. cbn [orb]. change (pk (125 :: s) 0) with 125. change (125 =? 125) with true. cbn [negb].
  apply wp_bind, skip_wp; [cbn; lia|].
  destruct (have && (hi >=? 0)) eqn:Eh; cbn [andb].
  - assert (have = true) as -> by (by destruct have). specialize (Hle eq_refl). zdecide. by apply wp_ret.
  - by apply wp_ret.
Qed.

(** The next character does not continue a piece. *)
Definition no_quant (s : str) : Prop := pk s 0 <> 42 /\ pk s 0 <> 43 /\ pk s 0 <> 63 /\ pk s 0 <> 123.

Lemma rep_op_at c g d q s : is_at c (show_quant q ++ s) g d -> quant_ok q = true -> no_quant s ->
  wp (rep_op true) c (fun r c' => r = Some (bounds q) /\ is_at c' s g d).
Proof.
  intros H Hq (N1 & N2 & N3 & N4). pose proof H as (P & _).
  assert (Hbr : forall r, bounds q = Some r -> pk (p c) 0 = 123 ->
    wp (parse_bounds true) c (fun a c' => a = (1, r) /\ is_at c' s g d) ->
    wp (rep_op true) c (fun r c' => r = Some (bounds q) /\ is_at c' s g d)).
  { intros r -> E0 Hb. unfold rep_op. wp_pure. rewrite E0. zdecide.
    apply wp_bind. eapply wp_mono; [exact Hb|]. intros a c' [-> H']. by apply wp_ret. }
  destruct q as [| | | |n|n|n m]; cbn [show_quant app quant_ok] in *.
  - unfold rep_op. wp_pure. rewrite P. zdecide. unfold parse_bounds. wp_pure. rewrite P. zdecide. cbn [negb].
    by apply wp_ret.
  - unfold rep_op. wp_pure. rewrite P. change (pk (42 :: s) 0) with 42. zdecide.
    apply wp_bind, (skip_at g d c [42] s); [done|]. intros c' H'. by apply wp_ret.
  - unfold rep_op. wp_pure. rewrite P. change (pk (43 :: s) 0) with 43. zdecide.
    apply wp_bind, (skip_at g d c [43] s); [done|]. intros c' H'. by apply wp_ret.
  - unfold rep_op. wp_pure. rewrite P. change (pk (63 :: s) 0) with 63. zdecide.
    apply wp_bind, (skip_at g d c [63] s); [done|]. intros c' H'. by apply wp_ret.
  - apply (Hbr _ eq_refl); [by rewrite P|].
    eapply wp_mono; [apply (parse_bounds_at c g d n [] (value n) true s); try done|].
    + by rewrite <- app_assoc in H.
    + intros a c' [-> H']. split; [|done]. destruct (value_run n [125] Hq eq_refl) as [_ Hv]. zdecide. done.
  - apply (Hbr _ eq_refl); [by rewrite P|].
    eapply wp_mono; [apply (parse_bounds_at c g d n [44] (-1) false s); try done|].
    + by rewrite <- app_assoc in H.
    + by intros a c' [-> H'].
  - apply andb_prop in Hq as [[Hq1 Hq2]%andb_prop Hq]. apply (Hbr _ eq_refl); [by rewrite P|].
    destruct (value_run m (125 :: s) Hq2 eq_refl) as [E Hv].
    eapply wp_mono; [apply (parse_bounds_at c g d n (44 :: m) (value m) true s); try done|].
    + rewrite <- !app_assoc in H. cbn [app] in H |- *. by rewrite <- app_assoc in H.
    + change (pk ((44 :: m) ++ [125]) 0) with 44. cbn [app tail]. zdecide. by rewrite E.
    + lia.
    + intros a c' [-> H']. split; [|done]. cbn [andb]. zdecide. done.
Qed.

Lemma quantify_bounds q n :
  quantify q n = match bounds q with None => n | Some (lo, hi) => OP_REP [n] lo hi end.
Proof. by destruct q. Qed.

Lemma rep_node_at c g d s n b : is_at c s g d ->
  wp (rep_node always n b) c (fun r c' => r = Some (OP_REP [n] b.1 b.2) /\ is_at c' s g d).
Proof.
  intros H. unfold rep_node. apply wp_bind. eapply wp_mono; [by apply node_new_at|]. intros r c1 [Hr H1]. zdecide.
  apply wp_bind. eapply wp_mono; [by apply new_branch_at|]. intros w c2 [Hw H2]. zdecide.
  apply wp_bind. eapply wp_mono; [by apply seq_add_at|]. intros q c3 (H3 & q' & -> & Hq).
  apply wp_bind. eapply wp_mono; [by apply set_owned_at|]. intros u c4 H4. apply wp_ret. by rewrite Hq.
Qed.

(** *** Pieces *)

(** How an atom starts. *)
Lemma special_false c : special c = false ->
  c <> 40 /\ c <> 41 /\ c <> 124 /\ c <> 42 /\ c <> 43 /\ c <> 63 /\ c <> 123 /\ c <> 46 /\ c <> 94 /\ c <> 36
  /\ c <> 91 /\ c <> 92.
Proof. unfold special. rewrite bool_decide_eq_false. set_solver. Qed.

Lemma special_digit c : special c = true -> isdigit c = false /\ c <> 0.
Proof.
  unfold special. rewrite bool_decide_eq_true, !elem_of_cons, elem_of_nil.
  intros Hc. repeat (destruct Hc as [->|Hc]; [done|]). done.
Qed.

Lemma atom_head a s : atom_ok a = true ->
  let c := pk (show_atom a ++ s) 0 in
  c <> 0 /\ c <> 41 /\ c <> 124 /\ c <> 94 /\ c <> 36 /\ no_quant (show_atom a ++ s).
Proof.
  destruct a as [c| |neg rb items dash|b bs]; cbn [show_atom atom_ok]; intros H; cbv zeta; [|by unfold no_quant..].
  destruct (special c) eqn:E; [by unfold no_quant|]. apply special_false in E. unfold no_quant.
  change (pk ([c] ++ s) 0) with c. lia.
Qed.

Lemma atom_tree_group g b bs :
  atom_tree g (Group b bs) = (OP_GROUP (g + 1) (tree (g + 1) b bs).1, (tree (g + 1) b bs).2).
Proof.
  transitivity (let '(t, g1) := branch_tree (g + 1) b in let '(ts, g2) := branches_tree g1 bs in
                (OP_GROUP (g + 1) (alternatives (t :: ts)), g2)); [reflexivity|].
  unfold tree. cbn [branches_tree]. destruct (branch_tree (g + 1) b) as [t g1]. by destruct (branches_tree g1 bs).
Qed.

Lemma branch_tree_pieces g bol ps eol :
  branch_tree g (Branch bol ps eol)
  = ((if bol then [OP_BOL] else []) ++ (pieces_tree g ps).1 ++ (if eol then [OP_EOL] else []), (pieces_tree g ps).2).
Proof.
  transitivity (let '(ns, g) := pieces_tree g ps in
                ((if bol then [OP_BOL] else []) ++ ns ++ (if eol then [OP_EOL] else []), g)); [reflexivity|].
  by destruct (pieces_tree g ps).
Qed.

Lemma tree_snd g b bs : (tree g b bs).2 = (branches_tree g (b :: bs)).2.
Proof. unfold tree. by destruct (branches_tree g (b :: bs)). Qed.

(** The group numbers only grow. *)
Fixpoint atom_mono (a : atom) : forall g, g <= (atom_tree g a).2
with branch_mono (b : branch) : forall g, g <= (branch_tree g b).2.
Proof.
  - destruct a as [c| |neg rb items dash|b bs]; intros g; [done..|]. rewrite atom_tree_group. cbn [snd].
    rewrite tree_snd. cbn [branches_tree]. pose proof (branch_mono b (g + 1)) as H1.
    destruct (branch_tree (g + 1) b) as [t g1]. cbn [snd] in H1.
    assert (H2 : g1 <= (branches_tree g1 bs).2).
    { clear H1. revert g1. induction bs as [|b' bs IH]; intros g1; cbn [branches_tree]; [done|].
      pose proof (branch_mono b' g1) as H3. destruct (branch_tree g1 b') as [t' g2]. specialize (IH g2).
      destruct (branches_tree g2 bs). cbn [snd] in *. lia. }
    destruct (branches_tree g1 bs). cbn [snd] in *. lia.
  - destruct b as [bol ps eol]. intros g. rewrite branch_tree_pieces. cbn [snd]. revert g.
    induction ps as [|[a q] ps IH]; intros g; cbn [pieces_tree]; [done|].
    pose proof (atom_mono a g) as H1. destruct (atom_tree g a) as [n g1]. specialize (IH g1).
    destruct (pieces_tree g1 ps). cbn [snd] in *. lia.
Qed.

Lemma branches_tree_mono bs : forall g, g <= (branches_tree g bs).2.
Proof.
  induction bs as [|b bs IH]; intros g; cbn [branches_tree]; [done|].
  pose proof (branch_mono b g) as H1. destruct (branch_tree g b) as [t g1]. specialize (IH g1).
  destruct (branches_tree g1 bs). cbn [snd] in *. lia.
Qed.

Lemma pieces_tree_mono ps : forall g, g <= (pieces_tree g ps).2.
Proof.
  induction ps as [|[a q] ps IH]; intros g; cbn [pieces_tree]; [done|].
  pose proof (atom_mono a g) as H1. destruct (atom_tree g a) as [n g1]. specialize (IH g1).
  destruct (pieces_tree g1 ps). cbn [snd] in *. lia.
Qed.

(** An alternation is followed by its closing parenthesis or by the end. *)
Definition closes (d : Z) (s : str) : Prop := s = [] \/ (pk s 0 = 41 /\ 0 < d).

(** The specification of [parse_alt] on texts shorter than the fuel. *)
Definition reads (fuel : nat) (palt : CM cseq) : Prop := forall c g d b bs s,
  is_at c (show b bs ++ s) g d -> (length (show b bs ++ s) < fuel)%nat ->
  branch_ok b && forallb branch_ok bs = true -> closes d s -> 0 <= d -> (tree g b bs).2 < REG_NGROUPS ->
  wp palt c (fun q c' => nodes q = (tree g b bs).1 /\ is_at c' s (tree g b bs).2 d).

Lemma group_atom_at fuel palt c g d b bs s : reads fuel palt ->
  is_at c ([40] ++ show b bs ++ [41] ++ s) g d -> (length (show b bs) + S (length s) < fuel)%nat ->
  branch_ok b && forallb branch_ok bs = true -> 0 <= d -> (tree (g + 1) b bs).2 < REG_NGROUPS ->
  wp (group_atom always true palt 1) c (fun r c' =>
    r = Some (OP_GROUP (g + 1) (tree (g + 1) b bs).1) /\ is_at c' s (tree (g + 1) b bs).2 d).
Proof.
  intros Hr H Hl Hok Hd Hg. unfold group_atom.
  apply wp_bind, (skip_at g d c [40] (show b bs ++ [41] ++ s)); [done|]. intros c1 (P1 & G1 & D1 & E1). wp_pure.
  pose proof (branches_tree_mono (b :: bs) (g + 1)) as Hm. rewrite <- tree_snd in Hm.
  rewrite G1, Z.geb_leb. zdecide. set (c2 := set_groups (g + 1) c1).
  assert (H2 : is_at c2 (show b bs ++ [41] ++ s) (g + 1) d) by done.
  apply wp_bind. eapply wp_mono; [exact (new_branch_at _ _ _ _ H2)|]. intros sub c3 [Hs (P3 & G3 & D3 & E3)]. zdecide. wp_pure.
  eapply wp_mono.
  { apply (Hr (set_depth (depth c3 + 1) c3) (g + 1) (d + 1) b bs ([41] ++ s)); try done.
    - split_and!; try done. cbn. lia.
    - by rewrite length_app.
    - right. split; [done|lia].
    - lia. }
  intros q c4 [Hq (P4 & G4 & D4 & E4)]. wp_pure. cbn [set_depth err]. rewrite E4. cbn [negb]. change (0 =? 0) with true.
  cbn [negb]. wp_pure. cbn [set_depth p]. rewrite P4. change (pk ([41] ++ s) 0) with 41. change (41 =? 41) with true. cbn [negb].
  apply wp_bind. apply (skip_at (tree (g + 1) b bs).2 d _ [41] s).
  { split_and!; try done. cbn. lia. }
  intros c5 H5. apply wp_bind. eapply wp_mono; [exact (node_new_at _ _ _ _ H5)|]. intros n c6 [Hn H6]. zdecide.
  apply wp_bind. eapply wp_mono; [exact (set_owned_at _ _ _ _ n _ H6)|]. intros u c7 H7. apply wp_ret. by rewrite Hq.
Qed.

(** *** Bracket expressions *)

Lemma byte_ext f g : (forall j, 0 <= j < 8 -> f j = g j) -> byte_of f = byte_of g.
Proof. intros H. unfold byte_of. by rewrite !H by lia. Qed.

Lemma byte_set f j : 0 <= j < 8 -> u8 (Z.lor (byte_of f) (Z.shiftl 1 j)) = byte_of (fun x => f x || (x =? j)).
Proof.
  intros Hj. unfold byte_of. assert (Hc : j = 0 \/ j = 1 \/ j = 2 \/ j = 3 \/ j = 4 \/ j = 5 \/ j = 6 \/ j = 7) by lia.
  destruct (f 0), (f 1), (f 2), (f 3), (f 4), (f 5), (f 6), (f 7); repeat (destruct Hc as [->|Hc]; [reflexivity|]); rewrite Hc; reflexivity.
Qed.

Lemma bitmap_ext f g : (forall c, 0 <= c < 256 -> f c = g c) -> bitmap f = bitmap g.
Proof.
  intros H. apply list_fmap_ext. intros i k Hk. apply lookup_seqZ in Hk as [-> Hi]. apply byte_ext. intros j Hj. apply H. lia.
Qed.

Lemma bitmap_set f c : 0 <= c < 256 -> set_bit (bitmap f) c = bitmap (fun x => f x || (x =? c)).
Proof.
  intros Hc. unfold set_bit. rewrite u8_small, Z.shiftr_div_pow2 by lia. change (2 ^ 3) with 8.
  assert (El : Z.land c 7 = c mod 8) by (change 7 with (Z.ones 3); apply Z.land_ones; lia). rewrite El.
  pose proof (Z.div_mod c 8 ltac:(lia)) as Hdm. pose proof (Z.mod_pos_bound c 8 ltac:(lia)) as Hm.
  assert (Hd : 0 <= c / 8 < 32) by (split; [apply Z.div_pos; lia|apply Z.div_lt_upper_bound; lia]).
  apply list_eq. intros i. unfold bitmap.
  destruct (decide (i = Z.to_nat (c / 8))) as [->|Hne].
  - rewrite list_lookup_insert_eq by (rewrite length_fmap, length_seqZ; lia). rewrite !list_lookup_fmap, lookup_seqZ_lt by lia.
    cbn. f_equal. rewrite byte_set by lia. apply byte_ext. intros j Hj. rewrite Z.add_0_l, Z2Nat.id by lia. f_equal.
    clear El. apply eq_true_iff_eq. rewrite !Z.eqb_eq. lia.
  - rewrite list_lookup_insert_ne, !list_lookup_fmap by done. destruct (seqZ 0 32 !! i) as [k|] eqn:E; [|done]. cbn. f_equal.
    apply lookup_seqZ in E as [-> Hi]. apply byte_ext. intros j Hj.
    destruct (Z.eqb_spec (8 * (0 + Z.of_nat i) + j) c); [|by rewrite orb_false_r]. exfalso. apply Hne. subst c. rewrite Z.add_comm, Z.mul_comm, Z.div_add, Z.div_small by lia. lia.
Qed.

Lemma bitmap_sets cs : forall f, Forall (fun c => 0 <= c < 256) cs ->
  set_bits cs (bitmap f) = bitmap (fun x => f x || bool_decide (x ∈ cs)).
Proof.
  unfold set_bits. induction cs as [|c cs IH]; intros f H; cbn [fold_left].
  - apply bitmap_ext. intros x _. case_bool_decide as Hx; [by apply elem_of_nil in Hx|]. by rewrite orb_false_r.
  - apply Forall_cons_1 in H as [Hc H]. rewrite bitmap_set, IH by done. apply bitmap_ext. intros x _. rewrite <- orb_assoc. f_equal.
    destruct (Z.eqb_spec x c) as [->|]; symmetry; [apply bool_decide_eq_true_2; by left|]. apply bool_decide_ext. rewrite elem_of_cons. intuition congruence.
Qed.

Lemma bitmap_none : replicate 32 0 = bitmap (fun _ => false).
Proof. reflexivity. Qed.

Lemma starts_not c : starts c = true -> 1 <= c < 256 /\ c <> 45 /\ c <> 91 /\ c <> 93 /\ c <> 94.
Proof.
  unfold starts. intros [[H1%Z.leb_le H2%Z.ltb_lt]%andb_prop H3%negb_true_iff%bool_decide_eq_false]%andb_prop.
  repeat (apply not_elem_of_cons in H3 as [? H3]). lia.
Qed.

Lemma item_head i s : item_ok i = true -> let c := pk (show_item i ++ s) 0 in c <> 0 /\ c <> 45 /\ c <> 93 /\ c <> 94.
Proof.
  destruct i as [c|lo hi|n]; cbn [item_ok show_item]; cbv zeta; [| |done].
  - intros H%starts_not. change (pk ([c] ++ s) 0) with c. lia.
  - intros [[[H%starts_not _]%andb_prop _]%andb_prop _]%andb_prop. change (pk ([lo; 45; hi] ++ s) 0) with lo. lia.
Qed.

(** A hyphen before the closing bracket does not make a range. *)
Lemma items_no_range items dash s : forallb item_ok items = true ->
  (pk (show_items items dash ++ s) 0 =? 45) && negb (pk (show_items items dash ++ s) 1 =? 93) = false.
Proof.
  destruct items as [|i items]; cbn [forallb]; [by destruct dash|]. intros [Hi _]%andb_prop.
  unfold show_items. cbn [map concat]. rewrite <- !app_assoc. destruct (item_head i (concat (map show_item items) ++ (if dash then [45] else []) ++ [93] ++ s) Hi) as (_ & H & _).
  by zdecide.
Qed.

Lemma class_close_run n rest : 58 ∉ n -> class_close (n ++ 58 :: 93 :: rest) = Some (n, rest).
Proof.
  induction n as [|c n IH]; intros H; [done|]. apply not_elem_of_cons in H as [Hc H]. cbn [app class_close].
  zdecide. cbn [andb]. by rewrite IH.
Qed.

(** The table of the code has the classes. *)
Lemma class_known n : item_ok (Class n) = true -> 58 ∉ codes n /\
  exists f, class_has (codes n) = Some f /\ forall c, 0 <= c < 256 -> f c = item_has c (Class n).
Proof.
  cbn [item_ok]. intros [[m rs] [Hin E%String.eqb_eq]]%existsb_exists. subst m.
  repeat (destruct Hin as [[= <- <-]|Hin];
    [split; [refine (bool_decide_eq_true_1 _ _); vm_compute; reflexivity|]; eexists; split; [reflexivity|];
     intros c Hc; match goal with |- _ = item_has c ?i => apply (byte_check _ (fun c => item_has c i) c) end; [vm_compute; reflexivity|done]|]).
  done.
Qed.

Section Members.
Context (g d : Z).

Lemma class_loop_at items : forall fuel f first dash c s, is_at c (show_items items dash ++ s) g d ->
  (length (show_items items dash ++ s) < fuel)%nat -> forallb item_ok items = true -> (first = true -> items <> [] \/ dash = true) ->
  wp (class_loop fuel (bitmap f) first) c (fun r c' =>
    r = Some (bitmap (fun x => f x || existsb (item_has x) items || (dash && (x =? 45)))) /\ is_at c' s g d).
Proof.
  induction items as [|i items IH]; intros fuel f first dash c s H Hl Hok Hf; pose proof H as (P & _); (destruct fuel as [|fuel]; [lia|]); cbn [class_loop]; wp_pure; rewrite P.
  - unfold show_items in *. cbn [map concat app] in *. destruct dash; cbn [app] in *.
    + change (pk (45 :: 93 :: s) 0) with 45. change (pk (45 :: 93 :: s) 1) with 93. zdecide. cbn [andb]. rewrite andb_false_r.
      apply wp_bind, (skip_at g d c [45] (93 :: s)); [done|]. intros c1 H1. pose proof H1 as (P1 & _). wp_pure. rewrite P1.
      change (pk (93 :: s) 0) with 93. zdecide. cbn [andb]. destruct fuel as [|fuel]; [cbn in Hl; lia|]. cbn [class_loop]. wp_pure. rewrite P1.
      change (pk (93 :: s) 0) with 93. zdecide. cbn [andb negb]. apply wp_bind, (skip_at g d c1 [93] s); [done|]. intros c2 H2. apply wp_ret.
      split; [|done]. f_equal. rewrite bitmap_set by lia. apply bitmap_ext. intros x _. by rewrite orb_false_r.
    + destruct first; [destruct (Hf eq_refl); done|]. change (pk (93 :: s) 0) with 93. zdecide. cbn [andb negb].
      apply wp_bind, (skip_at g d c [93] s); [done|]. intros c2 H2. apply wp_ret. split; [|done]. f_equal. apply bitmap_ext. intros x _. by rewrite !orb_false_r.
  - cbn [forallb] in Hok. apply andb_prop in Hok as [Hi Hok].
    assert (E : show_items (i :: items) dash ++ s = show_item i ++ show_items items dash ++ s) by (unfold show_items; cbn [map concat]; by rewrite <- !app_assoc).
    rewrite E in *. destruct (item_head i (show_items items dash ++ s) Hi) as (h0 & h1 & h2 & _). zdecide. rewrite andb_false_r. cbn [andb].
    rewrite length_app in Hl.
    assert (Hgo : forall f' c', is_at c' (show_items items dash ++ s) g d -> (forall x, 0 <= x < 256 -> f' x = f x || item_has x i) ->
      (length (show_items items dash ++ s) < fuel)%nat ->
      wp (class_loop fuel (bitmap f') false) c' (fun r c' =>
        r = Some (bitmap (fun x => f x || existsb (item_has x) (i :: items) || (dash && (x =? 45)))) /\ is_at c' s g d)).
    { intros f' c' H' Hf' Hl'. eapply wp_mono; [apply (IH fuel f' false dash c' s H' Hl' Hok); done|]. intros r c2 [-> H2]. split; [|done].
      f_equal. apply bitmap_ext. intros x Hx. rewrite Hf' by done. cbn [existsb]. by rewrite !orb_assoc. }
    destruct i as [a|lo hi|n]; cbn [show_item app length] in *.
    + pose proof (starts_not a Hi) as Ha. change (pk (a :: _) 0) with a. zdecide. cbn [andb].
      apply wp_bind, (skip_at g d c [a] (show_items items dash ++ s)); [done|]. intros c1 H1. pose proof H1 as (P1 & _). wp_pure. rewrite P1.
      rewrite items_no_range by done. cbn [andb]. rewrite bitmap_set by lia. apply Hgo; [done|done|lia].
    + cbn [item_ok] in Hi. apply andb_prop in Hi as [[[Ha%starts_not H2%Z.leb_le]%andb_prop H3%Z.ltb_lt]%andb_prop H4%negb_true_iff%Z.eqb_neq].
      change (pk (lo :: _) 0) with lo. zdecide. cbn [andb].
      apply wp_bind, (skip_at g d c [lo] (45 :: hi :: show_items items dash ++ s)); [done|]. intros c1 H1. pose proof H1 as (P1 & _). wp_pure. rewrite P1.
      change (pk (45 :: _) 0) with 45. change (pk (45 :: hi :: _) 1) with hi. zdecide. cbn [andb negb].
      apply wp_bind, (skip_at g d c1 [45] (hi :: show_items items dash ++ s)); [done|]. intros c2 H5. pose proof H5 as (P2 & _). wp_pure. rewrite P2.
      change (pk (hi :: _) 0) with hi. apply (skip_at g d c2 [hi] (show_items items dash ++ s)); [done|]. intros c3 H6.
      rewrite Z.gtb_ltb. zdecide. rewrite bitmap_sets by (apply Forall_forall; intros x Hx%list_elem_of_In%elem_of_seqZ; lia).
      apply Hgo; [done| |lia]. intros x Hx. f_equal. cbn [item_has within existsb]. rewrite orb_false_r. apply eq_true_iff_eq.
      rewrite bool_decide_eq_true, elem_of_seqZ, andb_true_iff, !Z.leb_le. lia.
    + change (pk (91 :: _) 0) with 91. change (pk (91 :: 58 :: _) 1) with 58. zdecide. cbn [andb drop]. rewrite drop_0.
      destruct (class_known n Hi) as (H58 & f' & Ef & Hf'). rewrite <- app_assoc. cbn [app]. rewrite class_close_run, Ef by done. wp_pure.
      rewrite bitmap_sets by (apply Forall_forall; intros x [Hx%list_elem_of_In%elem_of_seqZ _]%filter_In; lia).
      apply Hgo; [destruct H as (_ & ? & ? & ?); done| |rewrite !length_app in *; cbn [length] in Hl; lia].
      intros x Hx. f_equal. rewrite <- (Hf' x Hx). apply eq_true_iff_eq. rewrite bool_decide_eq_true, list_elem_of_In, filter_In, <- list_elem_of_In, elem_of_seqZ. intuition lia.
Qed.
End Members.

Lemma parse_class_at g d c neg rb items dash s : is_at c (show_atom (Bracket neg rb items dash) ++ s) g d ->
  forallb item_ok items = true -> rb || dash || negb (bool_decide (length items = 0%nat)) = true ->
  wp (parse_class always) c (fun r c' => r = Some (OP_CLASS (bitmap (members rb items dash)) neg) /\ is_at c' s g d).
Proof.
  intros H Hok Hne. cbn [show_atom] in H. unfold parse_class. rewrite <- app_assoc in H.
  apply wp_bind. eapply wp_mono; [exact (node_new_at _ _ _ _ H)|]. intros n c1 [Hn H1]. zdecide.
  apply wp_bind, (skip_at g d c1 [91] _ _ H1). intros c2 H2. pose proof H2 as (P2 & _). wp_pure. rewrite P2, <- !app_assoc.
  set (body := (if rb then [93] else []) ++ show_items items dash ++ s) in *.
  assert (Hneg : (pk ((if neg then [94] else []) ++ body) 0 =? 94) = neg).
  { destruct neg; [done|]. apply Z.eqb_neq. unfold body. cbn [app]. destruct rb; [done|]. destruct items as [|i items]; [by destruct dash|].
    cbn [forallb] in Hok. apply andb_prop in Hok as [Hi _]. unfold show_items. cbn [map concat app]. rewrite <- !app_assoc. by apply item_head. }
  rewrite Hneg. eapply wp_mono with (Q := fun _ c' => is_at c' body g d).
  { rewrite <- !app_assoc in H2. fold body in H2. destruct neg; [|by apply wp_ret]. apply (skip_at g d c2 [94] body); [done|by intros]. }
  intros _ c3 H3. pose proof H3 as (P3 & _). wp_pure. rewrite P3, bitmap_none. unfold members.
  eapply (wp_mono _ _ (fun r c' => r = Some (bitmap (members rb items dash)) /\ is_at c' s g d)); [|intros r c' [-> H']; by wp_pure].
  unfold body in *. destruct rb; cbn [app orb] in *.
  - remember (length (93 :: show_items items dash ++ s)) as k eqn:Ek. cbn [length] in Ek. cbn [class_loop]. wp_pure. rewrite P3. change (pk (93 :: _) 0) with 93. zdecide. cbn [andb].
    apply wp_bind, (skip_at g d c3 [93] _ _ H3). intros c4 H4. rewrite bitmap_set by lia.
    eapply wp_mono; [apply (class_loop_at g d items _ _ _ dash c4 s H4); [lia|done|done]|]. done.
  - eapply wp_mono; [apply (class_loop_at g d items _ _ _ dash c3 s H3); [lia|done|]|done].
    intros _. destruct items; [right; by destruct dash|by left].
Qed.

Lemma ere_atom_at fuel palt first c g d a s : reads fuel palt ->
  is_at c (show_atom a ++ s) g d -> (length (show_atom a ++ s) <= fuel)%nat -> atom_ok a = true ->
  0 <= d -> (atom_tree g a).2 < REG_NGROUPS ->
  wp (ere_atom always true palt first) c (fun r c' => r = Some (atom_tree g a).1 /\ is_at c' s (atom_tree g a).2 d).
Proof.
  intros Hr H Hl Hok Hd Hg. pose proof H as (P & _). unfold ere_atom. wp_pure. change (id c) with c.
  destruct a as [ch| |neg rb items dash|b bs]; cbn [show_atom atom_ok] in *.
  - destruct (special ch) eqn:Es.
    + apply special_digit in Es as [Ed E0]. rewrite P. change (pk ([92; ch] ++ s) 0) with 92.
      change (pk ([92; ch] ++ s) 1) with ch. zdecide. cbn [andb orb]. rewrite Ed.
      by apply (plain_atom_at g d c [92; ch] s).
    + apply special_false in Es. rewrite P. change (pk ([ch] ++ s) 0) with ch.
      destruct Es as (? & ? & ? & ? & ? & ? & ? & ? & ? & ? & ? & ?). zdecide. cbn [andb orb].
      by apply (plain_atom_at g d c [ch] s).
  - rewrite P. change (pk ([46] ++ s) 0) with 46. zdecide. cbn [andb orb]. by apply (plain_atom_at g d c [46] s).
  - rewrite P. change (pk (([91] ++ ?x) ++ s) 0) with 91. zdecide. cbn [andb orb].
    apply andb_prop in Hok as [Hi Hne]. by apply parse_class_at.
  - rewrite P. change (pk (([40] ++ ?x) ++ s) 0) with 40. zdecide.
    rewrite atom_tree_group in *. cbn [fst snd] in *.
    assert (E : ([40] ++ show_branch b ++ concat (map (fun b => 124 :: show_branch b) bs) ++ [41]) ++ s
                = [40] ++ show b bs ++ [41] ++ s) by (unfold show; by rewrite <- !app_assoc).
    rewrite E in *. eapply group_atom_at; try done. rewrite !length_app in Hl. cbn [length] in Hl. lia.
Qed.

Lemma parse_piece_at fuel palt first c g d a q s : reads fuel palt ->
  is_at c (show_atom a ++ show_quant q ++ s) g d -> (length (show_atom a ++ show_quant q ++ s) <= fuel)%nat ->
  atom_ok a = true -> quant_ok q = true -> no_quant s -> 0 <= d -> (atom_tree g a).2 < REG_NGROUPS ->
  wp (parse_piece always true palt first) c (fun r c' =>
    r = Some (quantify q (atom_tree g a).1) /\ is_at c' s (atom_tree g a).2 d).
Proof.
  intros Hr H Hl Ha Hq Hs Hd Hg. unfold parse_piece. apply wp_bind.
  eapply wp_mono; [by eapply ere_atom_at|]. intros r c1 [-> H1]. wp_pure. pose proof H1 as (_ & _ & _ & E1).
  rewrite E1. change (0 =? 0) with true. cbn [negb].
  apply wp_bind. eapply wp_mono; [by apply rep_op_at|]. intros r c2 [-> H2]. rewrite quantify_bounds.
  destruct (bounds q) as [[lo hi]|]; [|by apply wp_ret]. by apply rep_node_at.
Qed.

(** *** Branches *)

(** A branch is followed by the next one or by the end of the alternation. *)
Definition ends (d : Z) (s : str) : Prop := closes d s \/ pk s 0 = 124.

Lemma ends_seq d s : ends d s -> seq_end_at true 0 s d = true /\ no_quant s.
Proof.
  unfold seq_end_at, no_quant. intros [[->|[-> Hd]]| ->]; (split; [|done]); [done| |done].
  rewrite Z.gtb_ltb. zdecide. done.
Qed.

Lemma eol_next d s (eol : bool) : ends d s -> no_quant ((if eol then [36] else []) ++ s).
Proof. intros H. destruct eol; [done|]. by apply (ends_seq d). Qed.

Section Branches.
Context (fuel : nat) (palt : CM cseq) (d : Z).
Hypothesis Hr : reads fuel palt.
Hypothesis Hd : 0 <= d.

(** The body of the loop of [parse_seq]. *)
Definition seq_body : cseq * bool -> CM (cseq * bool + cseq) := fun '(q, first) =>
  let* cs := gets id in
  if at_seq_end true cs then break q
  else if at_alt true cs then break q
  else
    let* n := parse_piece always true palt first in
    match n with
    | None =>
        let* e := gets err in
        let* r := (if e =? 0 then at_rep_op true else ret false) in
        (if (r : bool) then raise REG_BADRPT tt else ret tt) ;;*
        break q
    | Some n =>
        let* q' := seq_add always q n in
        match q' with
        | None => raise REG_ESPACE tt ;;* break q
        | Some q' => continue (q', false)
        end
    end.

(** One turn that reads a node. *)
Lemma seq_turn c g g1 q first n s s1 : is_at c s g d ->
  pk s 0 <> 0 -> pk s 0 <> 124 -> pk s 0 <> 41 ->
  wp (parse_piece always true palt first) c (fun r c' => r = Some n /\ is_at c' s1 g1 d) ->
  wp (seq_body (q, first)) c (fun r c' =>
    exists q', r = inl (q', false) /\ nodes q' = nodes q ++ [n] /\ is_at c' s1 g1 d).
Proof.
  intros (P & G & D & E) H0 H1 H2 Hp. unfold seq_body. wp_pure. change (id c) with c.
  unfold at_seq_end, seq_end_at, at_alt. rewrite P. zdecide. cbn [orb andb].
  apply wp_bind. eapply wp_mono; [exact Hp|]. intros r c1 [-> Hc1].
  apply wp_bind. eapply wp_mono; [exact (seq_add_at _ _ _ _ q n Hc1)|]. intros r c2 (Hc2 & q' & -> & Hq).
  apply wp_ret. by exists q'.
Qed.

Lemma seq_stop c g q first s : is_at c s g d -> ends d s -> wp (seq_body (q, first)) c (fun r c' => r = inr q /\ c' = c).
Proof.
  intros (P & G & D & E) Hs. unfold seq_body. wp_pure. change (id c) with c. unfold at_seq_end.
  rewrite P, D. destruct (ends_seq d s Hs) as [-> _]. by apply wp_ret.
Qed.

(** The end anchor and the end. *)
Lemma seq_eol n c g q first (eol : bool) s : is_at c ((if eol then [36] else []) ++ s) g d -> ends d s ->
  ((if eol then 1 else 0) < n)%nat ->
  wp (loop n seq_body (q, first)) c (fun q' c' =>
    nodes q' = nodes q ++ (if eol then [OP_EOL] else []) /\ is_at c' s g d).
Proof.
  intros H Hs Hn.
  assert (Hstop : forall n q' first c', (0 < n)%nat -> is_at c' s g d ->
    wp (loop n seq_body (q', first)) c' (fun q2 c2 => nodes q2 = nodes q' /\ is_at c2 s g d)).
  { intros [|n'] q' f c' Hn' H'; [lia|]. apply wp_loop_step. eapply wp_mono; [exact (seq_stop _ _ _ _ _ H' Hs)|]. by intros r c2 [-> ->]. }
  destruct eol; cbn [app] in H.
  - destruct n as [|n]; [lia|]. apply wp_loop_step. eapply wp_mono.
    { apply (seq_turn c g g q first OP_EOL _ s H); try done. pose proof H as (P & _ & D & _).
      unfold parse_piece. apply wp_bind. unfold ere_atom. wp_pure. change (id c) with c. unfold at_seq_end_after_one.
      rewrite P, D. change (pk (36 :: s) 0) with 36. zdecide. cbn [andb orb].
      replace (seq_end_at true 1 (36 :: s) d) with true by (symmetry; apply (ends_seq d s Hs)).
      eapply wp_mono; [exact (plain_atom_at g d c [36] s OP_EOL H)|]. intros r c1 [-> H1]. wp_pure.
      pose proof H1 as (_ & _ & _ & E1). rewrite E1. change (0 =? 0) with true. cbn [negb]. apply wp_bind.
      eapply wp_mono; [apply (rep_op_at c1 g d One s); [done|done|by apply (ends_seq d)]|]. intros r c2 [-> H2].
      by apply wp_ret. }
    intros r c1 (q' & -> & Hq & H1). eapply wp_mono; [apply Hstop; [lia|done]|]. intros q2 c2 [E2 H2]. by rewrite E2.
  - rewrite app_nil_r. by apply Hstop.
Qed.

Lemma seq_pieces ps : forall n c g q first (eol : bool) s,
  is_at c (show_pieces ps ++ (if eol then [36] else []) ++ s) g d ->
  (length (show_pieces ps ++ (if eol then [36%Z] else []) ++ s) <= fuel)%nat ->
  (length ps + (if eol then 1 else 0) < n)%nat -> ends d s ->
  forallb (fun '(a, q) => atom_ok a && quant_ok q) ps = true -> (pieces_tree g ps).2 < REG_NGROUPS ->
  wp (loop n seq_body (q, first)) c (fun q' c' =>
    nodes q' = nodes q ++ (pieces_tree g ps).1 ++ (if eol then [OP_EOL] else []) /\ is_at c' s (pieces_tree g ps).2 d).
Proof.
  induction ps as [|[a qt] ps IH]; intros n c g q first eol s H Hl Hn Hs Hok Hg.
  - by apply seq_eol; [| |cbn [length] in Hn; lia].
  - destruct n as [|n]; [lia|]. cbn [forallb] in Hok. apply andb_prop in Hok as [[Ha Hq]%andb_prop Hok].
    set (rest := show_pieces ps ++ (if eol then [36] else []) ++ s) in *.
    assert (E : show_pieces ((a, qt) :: ps) ++ (if eol then [36] else []) ++ s = show_atom a ++ show_quant qt ++ rest).
    { unfold show_pieces, rest. cbn [map concat]. by rewrite <- !app_assoc. }
    rewrite E in H, Hl. cbn [pieces_tree] in Hg |- *.
    pose proof (pieces_tree_mono ps (atom_tree g a).2) as Hm.
    destruct (atom_tree g a) as [nd g1] eqn:Et. cbn [snd] in Hm.
    specialize (IH n). destruct (pieces_tree g1 ps) as [ns g2] eqn:Ep. cbn [fst snd] in *.
    assert (Hnq : no_quant rest).
    { unfold rest. destruct ps as [|[a2 q2] ps]; [cbn; by apply (eol_next d)|].
      unfold show_pieces. cbn [map concat]. rewrite <- !app_assoc. cbn [forallb] in Hok.
      apply andb_prop in Hok as [[Ha2 _]%andb_prop _]. by apply atom_head. }
    destruct (atom_head a (show_quant qt ++ rest) Ha) as (h0 & h1 & h2 & _).
    apply wp_loop_step. eapply wp_mono.
    { apply (seq_turn c g g1 q first (quantify qt nd) _ rest H); try done.
      pose proof (parse_piece_at fuel palt first c g d a qt rest Hr H Hl Ha Hq Hnq Hd) as Hp.
      rewrite Et in Hp. apply Hp. cbn [snd]. lia. }
    intros r c1 (q' & -> & Hq' & H1). rewrite !length_app in Hl.
    eapply wp_mono; [apply (IH c1 g1 q' false eol s); try done|].
    + unfold rest in Hl. lia.
    + cbn [length] in Hn. lia.
    + by rewrite Ep.
    + intros q2 c2 [E2 H2]. rewrite Ep in E2, H2. cbn [fst snd] in *. by rewrite E2, Hq', <- app_assoc.
Qed.

Lemma show_pieces_length ps : forallb (fun '(a, q) => atom_ok a && quant_ok q) ps = true ->
  (length ps <= length (show_pieces ps))%nat.
Proof.
  induction ps as [|[a q] ps IH]; [done|]. cbn [forallb]. intros [[Ha _]%andb_prop Hok]%andb_prop.
  unfold show_pieces. cbn [map concat]. rewrite !length_app. specialize (IH Hok). unfold show_pieces in IH.
  destruct (atom_head a [] Ha) as [h0 _]. rewrite app_nil_r in h0. apply pk_len in h0. cbn [length]. lia.
Qed.

Lemma parse_seq_at c g b s : is_at c (show_branch b ++ s) g d -> (length (show_branch b ++ s) <= fuel)%nat ->
  branch_ok b = true -> ends d s -> (branch_tree g b).2 < REG_NGROUPS ->
  wp (parse_seq always true palt) c (fun q c' => nodes q = (branch_tree g b).1 /\ is_at c' s (branch_tree g b).2 d).
Proof.
  intros H Hl Hok Hs Hg. destruct b as [bol ps eol]. rewrite branch_tree_pieces in *. cbn [fst snd branch_ok] in *.
  pose proof (show_pieces_length ps Hok) as Hlen. cbn [show_branch] in H, Hl.
  change (concat (map (fun '(a, q) => show_atom a ++ show_quant q) ps)) with (show_pieces ps) in *.
  rewrite <- !app_assoc in H, Hl. unfold parse_seq. wp_pure. pose proof H as (P & _). rewrite P.
  change (wp (loop (S (length ((if bol then [94] else []) ++ show_pieces ps ++ (if eol then [36] else []) ++ s)))
             seq_body (Seq 0 [], true)) c
    (fun q c' => nodes q = (if bol then [OP_BOL] else []) ++ (pieces_tree g ps).1 ++ (if eol then [OP_EOL] else [])
                 /\ is_at c' s (pieces_tree g ps).2 d)).
  destruct bol; cbn [app] in *.
  - apply wp_loop_step. eapply wp_mono.
    { apply (seq_turn c g g _ true OP_BOL _ (show_pieces ps ++ (if eol then [36] else []) ++ s) H); try done.
      unfold parse_piece. apply wp_bind. unfold ere_atom. wp_pure. change (id c) with c. rewrite P.
      change (pk (94 :: ?x) 0) with 94. zdecide. cbn [andb orb].
      eapply wp_mono; [exact (plain_atom_at g d c [94] _ OP_BOL H)|]. intros r c1 [-> H1]. wp_pure.
      pose proof H1 as (_ & _ & _ & E1). rewrite E1. change (0 =? 0) with true. cbn [negb]. apply wp_bind.
      eapply wp_mono; [apply (rep_op_at c1 g d One); [exact H1|done|]|].
      - destruct ps as [|[a2 q2] ps]; [cbn; by apply (eol_next d)|].
        unfold show_pieces. cbn [map concat]. rewrite <- !app_assoc. cbn [forallb] in Hok.
        apply andb_prop in Hok as [[Ha2 _]%andb_prop _]. by apply atom_head.
      - intros r c2 [-> H2]. by apply wp_ret. }
    intros r c1 (q' & -> & Hq & H1). cbn [length] in Hl |- *.
    eapply wp_mono; [apply (seq_pieces ps _ c1 g q' false eol s); try done; [lia|]|].
    + rewrite !length_app. destruct eol; cbn [length]; lia.
    + intros q2 c2 [E2 H2]. by rewrite E2, Hq.
  - eapply wp_mono; [apply (seq_pieces ps _ c g (Seq 0 []) true eol s); try done|].
    + rewrite !length_app. destruct eol; cbn [length]; lia.
    + by intros q2 c2 [E2 H2].
Qed.

(** The body of the loop over the alternatives. *)
Definition alt_body (alt : Z) : Z * nat * list cseq -> CM (Z * nat * list cseq + option (list cseq)) :=
  fun '(alts, cap, bs) =>
    let* cs := gets id in
    if negb (at_alt true cs) then break (Some bs)
    else
      eat_alt true ;;*
      let* b := parse_seq always true palt in
      let* e := gets err in
      if negb (e =? 0) then break None
      else
        let full := (length bs =? cap)%nat in
        let* grown := (if full then realloc always alts else ret alts) in
        if full && (grown =? 0) then raise REG_ESPACE tt ;;* break None
        else
          set_owned alt (map v (bs ++ [b]) ++ [grown]) ;;*
          continue (grown, (if full then 2 * cap else cap)%nat, bs ++ [b]).

Definition show_others (bs : list branch) : str := concat (map (fun b => 124 :: show_branch b) bs).

Lemma closes_alt s : closes d s -> pk s 0 <> 124.
Proof. intros [->|[-> _]]; done. Qed.

Lemma others_end bs s : closes d s -> ends d (show_others bs ++ s).
Proof. intros Hs. destruct bs as [|b bs]; [by left|by right]. Qed.

Lemma alts_at alt bs : forall n c g s al cap done, is_at c (show_others bs ++ s) g d ->
  (length (show_others bs ++ s) <= fuel)%nat -> (length bs < n)%nat -> closes d s ->
  forallb branch_ok bs = true -> (branches_tree g bs).2 < REG_NGROUPS ->
  wp (loop n (alt_body alt) (al, cap, done)) c (fun r c' =>
    exists qs, r = Some (done ++ qs) /\ map nodes qs = (branches_tree g bs).1 /\ is_at c' s (branches_tree g bs).2 d).
Proof.
  induction bs as [|b bs IH]; intros n c g s al cap done H Hl Hn Hs Hok Hg; (destruct n as [|n]; [lia|]);
    apply wp_loop_step; pose proof H as (P & G & D & E).
  - unfold alt_body. wp_pure. change (id c) with c. unfold at_alt. rewrite P. cbn [show_others map concat app].
    pose proof (closes_alt s Hs). zdecide. cbn [negb]. apply wp_ret. exists []. by rewrite app_nil_r.
  - assert (Et : show_others (b :: bs) ++ s = [124] ++ show_branch b ++ show_others bs ++ s).
    { unfold show_others. cbn [map concat app]. by rewrite <- app_assoc. }
    rewrite Et in *. cbn [forallb] in Hok. apply andb_prop in Hok as [Hb Hok]. cbn [branches_tree] in Hg |- *.
    pose proof (branches_tree_mono bs (branch_tree g b).2) as Hm.
    destruct (branch_tree g b) as [t1 g1] eqn:Eb. cbn [snd] in Hm. specialize (IH n).
    destruct (branches_tree g1 bs) as [ts g2] eqn:Ebs. cbn [fst snd] in *.
    unfold alt_body. wp_pure. change (id c) with c. unfold at_alt. rewrite P. change (pk ([124] ++ ?x) 0) with 124.
    zdecide. cbn [negb]. unfold eat_alt. apply wp_bind, (skip_at g d c [124] _ _ H). intros c1 H1.
    rewrite length_app in Hl. cbn [length] in Hl.
    apply wp_bind. eapply wp_mono.
    { apply (parse_seq_at c1 g b (show_others bs ++ s) H1); [lia|done|by apply others_end|rewrite Eb; cbn [snd]; lia]. }
    intros q c2 [Hq H2]. rewrite Eb in Hq, H2. cbn [fst snd] in *. wp_pure. pose proof H2 as (_ & _ & _ & E2).
    rewrite E2. change (0 =? 0) with true. cbn [negb].
    apply wp_bind. apply wp_mono with (Q := fun w c' => ((length done =? cap)%nat && (w =? 0) = false) /\ is_at c' (show_others bs ++ s) g1 d).
    { destruct (length done =? cap)%nat; [|by apply wp_ret]. eapply wp_mono; [exact (realloc_at _ _ _ _ al H2)|].
      intros w c' [Hw H']. by zdecide. }
    intros w c3 [-> H3]. apply wp_bind. eapply wp_mono; [exact (set_owned_at _ _ _ _ _ _ H3)|]. intros u c4 H4.
    apply wp_ret. rewrite !length_app in Hl. cbn [length] in Hn.
    eapply wp_mono; [apply (IH c4 g1 s); try done; [rewrite length_app; lia|lia|by rewrite Ebs]|].
    rewrite Ebs. intros r c5 (qs & -> & Hqs & H5). exists (q :: qs). split; [by rewrite <- app_assoc|].
    cbn [map fst snd]. by rewrite Hq, Hqs.
Qed.

End Branches.

Lemma show_others_length bs : (length bs <= length (show_others bs))%nat.
Proof.
  unfold show_others. induction bs as [|b bs IH]; [done|]. cbn [map concat length app]. rewrite length_app. lia.
Qed.

Lemma parse_alt_reads fuel : reads fuel (parse_alt always true fuel).
Proof.
  induction fuel as [|fuel IH]; intros c g d b bs s H Hl Hok Hs Hd Hg; [lia|].
  apply andb_prop in Hok as [Hb Hbs]. unfold show in H, Hl. fold (show_others bs) in H, Hl. rewrite <- app_assoc in H, Hl.
  rewrite tree_snd in Hg. pose proof (branches_tree_mono bs (branch_tree g b).2) as Hm.
  unfold tree. cbn [branches_tree] in Hg |- *. destruct (branch_tree g b) as [t1 g1] eqn:Eb.
  destruct (branches_tree g1 bs) as [ts g2] eqn:Ebs. cbn [fst snd] in *. rewrite Ebs in Hm. cbn [snd] in Hm.
  cbn [parse_alt]. cbv zeta. apply wp_bind. eapply wp_mono.
  { apply (parse_seq_at fuel _ d IH Hd c g b _ H); [lia|done|by apply others_end|rewrite Eb; cbn [snd]; lia]. }
  intros q c1 [Hq H1]. rewrite Eb in Hq, H1. cbn [fst snd] in *. wp_pure. change (id c1) with c1.
  pose proof H1 as (P1 & G1 & D1 & E1). rewrite E1. change (0 =? 0) with true. cbn [negb]. unfold at_alt. rewrite P1.
  destruct bs as [|b2 bs].
  - cbn [show_others map concat app]. pose proof (closes_alt d s Hs). zdecide. cbn [negb]. apply wp_ret.
    injection Ebs as <- <-. done.
  - change (pk (show_others (b2 :: bs) ++ s) 0) with 124. zdecide. cbn [negb].
    apply wp_bind. eapply wp_mono; [exact (node_new_at _ _ _ _ H1)|]. intros alt c2 [Ha H2]. zdecide.
    apply wp_bind. eapply wp_mono; [exact (calloc_at _ _ _ _ H2)|]. intros al c3 [Hal H3]. zdecide.
    apply wp_bind. eapply wp_mono; [exact (set_owned_at _ _ _ _ _ _ H3)|]. intros u c4 H4.
    rewrite length_app in Hl. apply wp_bind.
    eapply (wp_mono _ _ (fun r c' => exists qs, r = Some ([q] ++ qs) /\ map nodes qs = ts /\ is_at c' s g2 d)).
    { unfold alt_loop. wp_pure. pose proof H4 as (P4 & _). rewrite P4.
      pose proof (alts_at fuel _ d IH Hd alt (b2 :: bs) (S (length (show_others (b2 :: bs) ++ s))) c4 g1 s al 4 [q] H4) as Ha4.
      rewrite Ebs in Ha4. cbn [fst snd] in Ha4. apply Ha4; try done; try lia.
      rewrite length_app. pose proof (show_others_length (b2 :: bs)). lia. }
    intros r c5 (qs & -> & Hqs & H5). apply wp_bind. eapply wp_mono; [exact (seq_add_at _ _ _ _ _ _ H5)|].
    intros out c6 (H6 & q' & -> & Hq'). apply wp_ret. split; [|done]. rewrite Hq'. cbn [nodes app map]. rewrite Hq, Hqs.
    destruct ts; [|done]. cbn [branches_tree] in Ebs. destruct (branch_tree g1 b2), (branches_tree z bs). done.
Qed.

(** C19: compiling the text of an extended regular expression gives its tree.
    The expressions are those with characters (special ones escaped), dots,
    bracket expressions (negated or not; characters, ranges and the twelve
    classes, a closing bracket at the front, a hyphen at the end), groups,
    alternatives, anchors at the ends of a branch, and one of the operators
    [* + ? {n} {n,} {n,m}] per piece, with counts of fewer than ten digits and at
    most 31 groups; back references, which EREs have only as an extension, and
    the characters [^] and [[] as members of a bracket expression are left out.
    With an allocator that does not fail, [regcomp] succeeds on what [show]
    writes, and the program it builds is the tree the expression denotes: the
    groups numbered by their opening parentheses, a bracket expression with the
    bits of its members and no others. *)
Theorem regcomp_show b bs cflags :
  flag cflags REG_EXTENDED = true -> branch_ok b && forallb branch_ok bs = true -> groups_of b bs <= 31 ->
  exists blocks live, regcomp always true (Some (show b bs)) cflags
    = Some (Compiled (Program (tree 0 b bs).1 (groups_of b bs) cflags) blocks live).
Proof.
  intros Hf Hok Hg. unfold regcomp. rewrite Hf. cbn [negb].
  set (c0 := CS _ _ _ _ _ _ _). assert (H0 : is_at c0 (show b bs ++ []) 0 0) by (unfold is_at; rewrite app_nil_r; done).
  apply calloc_at, wp_total in H0 as (prog & c1 & -> & Hp & H1). cbn [mbind option_bind]. zdecide.
  pose proof (parse_alt_reads (S (length (show b bs))) c1 0 0 b bs [] H1) as H.
  rewrite app_nil_r in H. specialize (H ltac:(lia) Hok ltac:(by left) ltac:(lia)).
  apply wp_total in H as (q & c2 & -> & Hq & (P2 & G2 & D2 & E2)); [|unfold groups_of in Hg; unfold REG_NGROUPS; lia].
  cbn [mbind option_bind]. rewrite E2, P2, G2, Hq. cbn. by do 2 eexists.
Qed.

(** [^(a|b+)\.{2,3}[^a-z[:digit:]_-]*$|x] *)
Definition sample_branch : branch :=
  Branch true [(Group (Branch false [(Char 97, One)] false) [Branch false [(Char 98, Plus)] false], One);
               (Char 46, Between [50] [51]); (Bracket true false [Range 97 122; Class "digit"; Single 95] true, Star)] true.
Definition sample_others : list branch := [Branch false [(Char 120, One)] false].

Lemma regcomp_show_witness :
  show sample_branch sample_others = [94; 40; 97; 124; 98; 43; 41; 92; 46; 123; 50; 44; 51; 125;
      91; 94; 97; 45; 122; 91; 58; 100; 105; 103; 105; 116; 58; 93; 95; 45; 93; 42; 36; 124; 120]
  /\ exists blocks live, regcomp always true (Some (show sample_branch sample_others)) 1
    = Some (Compiled (Program (tree 0 sample_branch sample_others).1 1 1) blocks live).
Proof.
  split; [vm_compute; reflexivity|].
  exact (regcomp_show sample_branch sample_others 1 eq_refl eq_refl ltac:(vm_compute; congruence)).
Defined.

End Ere.
