(* ===== verification/Strftime.v ===== *)
(** * Strftime: date formatting and parsing, src/strftime.c

    [strftime] runs over its format with an output buffer of [max] bytes that
    counts what did not fit; the composite conversions format into a scratch
    buffer of 128 bytes first.  [strptime] reads a string by a format into a
    [struct tm].  A string is the list of its characters without the NUL; the
    buffer keeps its length.  The zone state is threaded, since [%z], [%Z] and
    [%s] ask the timezone engine.  Counters that index an object are unbounded,
    [int] values computed from the format carry their wrap-around.

    The composites nest two deep at most, which the depth test of [fmt_run] and
    the fuel of [strptime] allow for. *)

From Stdlib Require Import ZArith Lia Bool Ascii String.
From stdpp Require Import base sets list numbers.
From S2P Require Import Prelude Monad Memory Ctype Calendar Tz Time.

Module Strftime.
Import Ctype Calendar Tz Time.

Abbreviation str := (list Z).

(** The characters of a C string literal. *)
Definition codes (s : string) : str := map (fun a => Z.of_nat (nat_of_ascii a)) (list_ascii_of_string s).

Definition wday_full : list str := Eval vm_compute in
  map codes ["Sunday"; "Monday"; "Tuesday"; "Wednesday"; "Thursday"; "Friday"; "Saturday"]%string.
Definition wday_abbr : list str := Eval vm_compute in
  map codes ["Sun"; "Mon"; "Tue"; "Wed"; "Thu"; "Fri"; "Sat"]%string.
Definition mon_full : list str := Eval vm_compute in
  map codes ["January"; "February"; "March"; "April"; "May"; "June"; "July"; "August"; "September"; "October";
             "November"; "December"]%string.
Definition mon_abbr : list str := Eval vm_compute in
  map codes ["Jan"; "Feb"; "Mar"; "Apr"; "May"; "Jun"; "Jul"; "Aug"; "Sep"; "Oct"; "Nov"; "Dec"]%string.

(** The formats of the composites. *)
Definition fmt_c : str := Eval vm_compute in codes "%a %b %e %H:%M:%S %Y".
Definition fmt_D : str := Eval vm_compute in codes "%m/%d/%y".
Definition fmt_F : str := Eval vm_compute in codes "%Y-%m-%d".
Definition fmt_r : str := Eval vm_compute in codes "%I:%M:%S %p".
Definition fmt_R : str := Eval vm_compute in codes "%H:%M".
Definition fmt_T : str := Eval vm_compute in codes "%H:%M:%S".

(** ** The output buffer *)

Record sbuf := SB { out : list Z; max : Z; n : Z; overflow : bool }.

Abbreviation FM := (St (sbuf * tz_state)).

(** A fault if the store is outside the buffer. *)
Definition sb_putc (c : Z) : FM unit := fun '(b, z) =>
  if n b + 1 <? max b then
    if n b <? Z.of_nat (List.length (out b))
    then Some (tt, (SB (<[Z.to_nat (n b) := u8 c]> (out b)) (max b) (n b + 1) (overflow b), z)) else None
  else Some (tt, (SB (out b) (max b) (n b + 1) true, z)).

Definition sb_puts (s : str) : FM unit := for_each sb_putc s.

(** The modifiers [M_NONE], [M_SPACE], [M_ZERO], [M_UPPER] and [M_SWAP]. *)
Record mods := Mods { m_none : bool; m_space : bool; m_zero : bool; m_upper : bool; m_swap : bool }.

Definition no_mods : mods := Mods false false false false false.

Definition recase (s : str) (m : mods) : str :=
  let has_upper := existsb isupper s in
  let has_lower := existsb (fun c => negb (isupper c) && islower c) s in
  let upper := m_upper m || (m_swap m && has_upper && has_lower) in
  let lower := m_swap m && has_upper && negb has_lower in
  map (fun c => if upper then toupper c else if lower then tolower c else c) s.

Definition str_out (s : str) (m : mods) (width : Z) : FM unit :=
  let len := List.length s in
  sb_puts (replicate (Z.to_nat (u32 width - Z.of_nat len)) 32) ;;*
  sb_puts (recase s m).

(** [do tmp[n++] = '0' + u % 10; while (u)]: the digits, least significant first. *)
Definition num_digits (u : Z) : str := int_digits 24 u.

Definition num_out (v defw defpad : Z) (m : mods) (width : Z) : FM unit :=
  let u := u32 (if v <? 0 then - v else v) in
  let tmp := match num_digits u with [] => [48] | ds => ds end in
  let pad := if m_none m then 0 else if m_space m then 32 else if m_zero m then 48 else defpad in
  let w := if width =? 0 then defw else width in
  let len := Z.of_nat (List.length tmp) + (if v <? 0 then 1 else 0) in
  (if v <? 0 then sb_putc 45 else ret tt) ;;*
  (if pad =? 0 then ret tt else sb_puts (replicate (Z.to_nat (w - len)) pad)) ;;*
  sb_puts (rev tmp).

(** ** ISO weeks *)

Definition days_in_year (y : Z) : Z :=
  if (Z.rem y 4 =? 0) && (negb (Z.rem y 100 =? 0) || (Z.rem y 400 =? 0)) then 366 else 365.

(** Monday is 1, Sunday 7. *)
Definition jan1_wd (y : Z) : Z :=
  let yy := s32 (y - 1) in
  let days := s32 (365 * yy + Z.quot yy 4 - Z.quot yy 100 + Z.quot yy 400
                   - (365 * 1969 + 1969 ÷ 4 - 1969 ÷ 100 + 1969 ÷ 400)) in
  Z.rem (Z.rem days 7 + 3 + 7) 7 + 1.

Definition iso_weeks_in_year (y : Z) : Z :=
  let wd := jan1_wd y in
  if (wd =? 4) || ((wd =? 3) && (days_in_year y =? 366)) then 53 else 52.

(** The week and its year. *)
Definition iso_week (r : tm) : Z * Z :=
  let y := s32 (tm_year r + 1900) in
  let doy := s32 (tm_yday r + 1) in
  let wd := if tm_wday r =? 0 then 7 else tm_wday r in
  let w := Z.quot (s32 (doy - wd + 10)) 7 in
  if w <? 1 then let y := s32 (y - 1) in (iso_weeks_in_year y, y)
  else if w >? iso_weeks_in_year y then (1, s32 (y + 1))
  else (w, y).

(** ** Formatting *)

(** The flag characters after the percent sign. *)
Fixpoint read_mods (p : str) (m : mods) : mods * str :=
  match p with
  | c :: p' =>
      if c =? 45 then read_mods p' (Mods true false false false false)
      else if c =? 95 then read_mods p' (Mods false true false false false)
      else if c =? 48 then read_mods p' (Mods false false true false false)
      else if c =? 94 then read_mods p' (Mods (m_none m) (m_space m) (m_zero m) true (m_swap m))
      else if c =? 35 then read_mods p' (Mods (m_none m) (m_space m) (m_zero m) (m_upper m) true)
      else (m, p)
  | [] => (m, p)
  end.

Fixpoint read_width (p : str) (w : Z) : Z * str :=
  match p with
  | c :: p' => if isdigit c then read_width p' (s32 (w * 10 + (c - 48))) else (w, p)
  | [] => (w, p)
  end.

(** A table entry, [None] outside the table. *)
Definition entry (l : list str) (i : Z) : option str := if i <? 0 then None else l !! Z.to_nat i.

Definition name_out (l : list str) (i : Z) (m : mods) (width : Z) : FM unit :=
  match entry l i with Some s => str_out s m width | None => fault end.

(** The zone's offset, as a sign and four digits. *)
Definition zone_text (east : Z) : str :=
  let neg := east <? 0 in
  let e := if neg then - east else east in
  let hh := Z.quot e 3600 in
  let mm := Z.quot (Z.rem e 3600) 60 in
  [if neg then 45 else 43; 48 + Z.rem (Z.quot hh 10) 10; 48 + Z.rem hh 10; 48 + Z.rem (Z.quot mm 10) 10; 48 + Z.rem mm 10].

(** A character array up to its NUL. *)
Fixpoint cut_nul (l : str) : str :=
  match l with c :: l => if c =? 0 then [] else c :: cut_nul l | [] => [] end.

Section Format.
Context `{TzEnv}.

(** Zone calls on the threaded zone state. *)
Definition tz_offset_for_tm (r : tm) : FM (Z * Z) := fun '(b, z) =>
  '(e, d, z) ← cact_tz_offset_for_tm r z; Some ((e, d), (b, z)).
Definition mktime_of (r : tm) : FM Z := fun '(b, z) => '(t, _, z) ← mktime r z; Some (t, (b, z)).
Definition tzname_of (d : Z) : FM str := fun '(b, z) => Some (cut_nul (if d =? 0 then tzname0 z else tzname1 z), (b, z)).

(** The scratch buffer of a composite: [run] formats into it. *)
Definition comp_out (run : str -> FM bool) (fmt : str) (m : mods) (width : Z) : FM bool :=
  fun '(b, z) =>
    '(ok, (t, z)) ← run fmt (SB (replicate 128 0) 128 0 false, z);
    if negb ok || overflow t then Some (false, (b, z))
    else
      let tmp := take (Z.to_nat (n t)) (out t) in
      (str_out (cut_nul tmp) (Mods (m_none m) (m_space m) (m_zero m) (m_upper m) false) width ;;* ret true) (b, z).

(** One conversion; [run] is [fmt_run] one level deeper.  The result is false
    where the code returns 0. *)
Definition convert (run : str -> FM bool) (r : tm) (c : Z) (m : mods) (width : Z) : FM bool :=
  let y := s32 (tm_year r + 1900) in
  let h12 := let h := Z.rem (tm_hour r) 12 in if h =? 0 then 12 else h in
  let num v defw defpad := num_out v defw defpad m width ;;* ret true in
  let name l i := name_out l i m width ;;* ret true in
  let text s := str_out s m width ;;* ret true in
  let comp fmt := comp_out run fmt m width in
  let week := (iso_week r).1 in
  let iso_y := (iso_week r).2 in
  if c =? 97 then name wday_abbr (Z.rem (tm_wday r) 7)
  else if c =? 65 then name wday_full (Z.rem (tm_wday r) 7)
  else if (c =? 98) || (c =? 104) then name mon_abbr (Z.rem (tm_mon r) 12)
  else if c =? 66 then name mon_full (Z.rem (tm_mon r) 12)
  else if c =? 99 then comp fmt_c
  else if c =? 67 then num (Z.quot y 100) 2 48
  else if c =? 100 then num (tm_mday r) 2 48
  else if c =? 68 then comp fmt_D
  else if c =? 101 then num (tm_mday r) 2 32
  else if c =? 70 then comp fmt_F
  else if c =? 103 then num (Z.rem iso_y 100) 2 48
  else if c =? 71 then num iso_y 0 48
  else if c =? 72 then num (tm_hour r) 2 48
  else if c =? 73 then num h12 2 48
  else if c =? 106 then num (s32 (tm_yday r + 1)) 3 48
  else if c =? 107 then num (tm_hour r) 2 32
  else if c =? 108 then num h12 2 32
  else if c =? 109 then num (s32 (tm_mon r + 1)) 2 48
  else if c =? 77 then num (tm_min r) 2 48
  else if c =? 110 then sb_putc 10 ;;* ret true
  else if c =? 112 then text (if tm_hour r <? 12 then [65; 77] else [80; 77])
  else if c =? 80 then text (if tm_hour r <? 12 then [97; 109] else [112; 109])
  else if c =? 114 then comp fmt_r
  else if c =? 82 then comp fmt_R
  else if c =? 115 then let* t := mktime_of r in num t 0 48
  else if c =? 83 then num (tm_sec r) 2 48
  else if c =? 116 then sb_putc 9 ;;* ret true
  else if (c =? 84) || (c =? 88) then comp fmt_T
  else if c =? 117 then num (if tm_wday r =? 0 then 7 else tm_wday r) 1 48
  else if c =? 85 then num (Z.quot (s32 (tm_yday r + 7 - tm_wday r)) 7) 2 48
  else if c =? 86 then num week 2 48
  else if c =? 119 then num (tm_wday r) 1 48
  else if c =? 87 then num (Z.quot (s32 (tm_yday r + 7 - Z.rem (s32 (tm_wday r + 6)) 7)) 7) 2 48
  else if c =? 120 then comp fmt_D
  else if c =? 121 then num (Z.rem y 100) 2 48
  else if c =? 89 then num y 0 48
  else if c =? 122 then let* (e, _) := tz_offset_for_tm r in text (zone_text e)
  else if c =? 90 then let* (_, d) := tz_offset_for_tm r in let* s := tzname_of d in text s
  else if c =? 37 then sb_putc 37 ;;* ret true
  else if c =? 0 then ret false
  else sb_putc 37 ;;* sb_putc c ;;* ret true.

(** The loop over the format. *)
Fixpoint fmt_loop (run : str -> FM bool) (r : tm) (fuel : nat) (p : str) : FM bool :=
  match fuel with
  | O => fault
  | S fuel =>
      match p with
      | [] => ret true
      | c :: p =>
          if negb (c =? 37) then sb_putc c ;;* fmt_loop run r fuel p
          else
            let '(m, p) := read_mods p no_mods in
            let '(width, p) := read_width p 0 in
            let* ok := convert run r (default 0 (head p)) m width in
            let* b := gets fst in
            if negb ok || overflow b then ret false else fmt_loop run r fuel (tail p)
      end
  end.

(** [room] is what the depth test leaves: [5 - depth]. *)
Fixpoint fmt_run (r : tm) (room : nat) (format : str) : FM bool :=
  match room with
  | O => ret false
  | S room => fmt_loop (fmt_run r room) r (S (List.length format)) format
  end.

(** The length and the buffer; [s] is the memory at [s], [None] for null. *)
Definition strftime (s : option (list Z)) (mx : Z) (format : option str) (r : option tm) (z : tz_state)
    : option (Z * option (list Z) * tz_state) :=
  match s, format, r with
  | Some buf, Some f, Some r =>
      if mx =? 0 then Some (0, Some buf, z)
      else
        '(ok, (b, z)) ← fmt_run r 5 f (SB buf mx 0 false, z);
        if negb ok || (n b >=? max b) then Some (0, Some (out b), z)
        else if n b <? Z.of_nat (List.length (out b))
        then Some (n b, Some (<[Z.to_nat (n b) := 0]> (out b)), z) else None
  | _, _, _ => Some (0, s, z)
  end.

End Format.

(** ** Parsing *)

(** [(unsigned char)( *in)[i]], 0 at the end. *)
Definition ch (s : str) (i : nat) : Z := default 0 (s !! i).

Fixpoint ci_match (s name : str) : option str :=
  match name with
  | [] => Some s
  | c :: name => if tolower (ch s 0) =? tolower c then ci_match (tail s) name else None
  end.

(** The value and what follows; [None] without a digit. *)
Fixpoint num_loop (maxdigits : nat) (s : str) (v : Z) : Z * str :=
  match maxdigits, s with
  | S k, c :: s' => if isdigit c then num_loop k s' (v * 10 + (c - 48)) else (v, s)
  | _, _ => (v, s)
  end.

Definition get_num (s : str) (maxdigits : nat) : option (Z * str) :=
  if isdigit (ch s 0) then Some (num_loop maxdigits s 0) else None.

Fixpoint skip_ws (s : str) : str :=
  match s with c :: s' => if (c =? 32) || ((c >=? 9) && (c <=? 13)) then skip_ws s' else s | [] => s end.

(** The loop of [yday_to_md]: month lengths left, month, day. *)
Fixpoint yday_loop (lens : list Z) (y m doy : Z) : Z * Z :=
  match lens with
  | [] => (m, doy)
  | len :: lens =>
      let dm := if (m =? 1) && (days_in_year y =? 366) then 29 else len in
      if doy <=? dm then (m, doy) else yday_loop lens y (m + 1) (doy - dm)
  end.

Definition yday_to_md (y doy : Z) : Z * Z := yday_loop (take 11 mdays) y 0 doy.

(** The loop of [finalize_date]: the days of the months before. *)
Fixpoint sum_days (lens : list Z) (y i m doy : Z) : Z :=
  match lens with
  | [] => doy
  | len :: lens =>
      if i <? m - 1
      then sum_days lens y (i + 1) m (doy + (if (i =? 1) && (days_in_year y =? 366) then 29 else len))
      else doy
  end.

(** The weekday of day [doy] (from 1) of a year, Sunday being 0. *)
Definition wday_of_doy (y doy : Z) : Z := Z.rem (Z.rem (jan1_wd y - 1 + (doy - 1)) 7 + 1) 7.

Definition finalize_date (r : tm) : tm :=
  let y := s32 (tm_year r + 1900) in
  let m := s32 (tm_mon r + 1) in
  let doy := sum_days mdays y 0 m (tm_mday r) in
  Tm (tm_sec r) (tm_min r) (tm_hour r) (tm_mday r) (tm_mon r) (tm_year r) (wday_of_doy y doy) (doy - 1) (tm_isdst r).

Definition set_sec (v : Z) (r : tm) : tm :=
  Tm v (tm_min r) (tm_hour r) (tm_mday r) (tm_mon r) (tm_year r) (tm_wday r) (tm_yday r) (tm_isdst r).
Definition set_min (v : Z) (r : tm) : tm :=
  Tm (tm_sec r) v (tm_hour r) (tm_mday r) (tm_mon r) (tm_year r) (tm_wday r) (tm_yday r) (tm_isdst r).
Definition set_hour (v : Z) (r : tm) : tm :=
  Tm (tm_sec r) (tm_min r) v (tm_mday r) (tm_mon r) (tm_year r) (tm_wday r) (tm_yday r) (tm_isdst r).
Definition set_mday (v : Z) (r : tm) : tm :=
  Tm (tm_sec r) (tm_min r) (tm_hour r) v (tm_mon r) (tm_year r) (tm_wday r) (tm_yday r) (tm_isdst r).
Definition set_mon (v : Z) (r : tm) : tm :=
  Tm (tm_sec r) (tm_min r) (tm_hour r) (tm_mday r) v (tm_year r) (tm_wday r) (tm_yday r) (tm_isdst r).
Definition set_year (v : Z) (r : tm) : tm :=
  Tm (tm_sec r) (tm_min r) (tm_hour r) (tm_mday r) (tm_mon r) v (tm_wday r) (tm_yday r) (tm_isdst r).
Definition set_wday (v : Z) (r : tm) : tm :=
  Tm (tm_sec r) (tm_min r) (tm_hour r) (tm_mday r) (tm_mon r) (tm_year r) v (tm_yday r) (tm_isdst r).
Definition set_yday (v : Z) (r : tm) : tm :=
  Tm (tm_sec r) (tm_min r) (tm_hour r) (tm_mday r) (tm_mon r) (tm_year r) (tm_wday r) v (tm_isdst r).

(** The local variables of [strptime]. *)
Record pstate := PS {
  inp : str; ptm : tm;
  have_year : bool; have_mon : bool; have_mday : bool; have_yday : bool;
  yday_val : Z; year : Z; mon : Z; mday : Z; hour12 : Z; pm : Z
}.

Definition p_inp (s : str) (x : pstate) : pstate :=
  PS s (ptm x) (have_year x) (have_mon x) (have_mday x) (have_yday x) (yday_val x) (year x) (mon x) (mday x) (hour12 x) (pm x).
Definition p_tm (f : tm -> tm) (x : pstate) : pstate :=
  PS (inp x) (f (ptm x)) (have_year x) (have_mon x) (have_mday x) (have_yday x) (yday_val x) (year x) (mon x) (mday x) (hour12 x) (pm x).
Definition p_year (v : Z) (x : pstate) : pstate :=
  PS (inp x) (ptm x) true (have_mon x) (have_mday x) (have_yday x) (yday_val x) v (mon x) (mday x) (hour12 x) (pm x).
Definition p_mon (v : Z) (x : pstate) : pstate :=
  PS (inp x) (ptm x) (have_year x) true (have_mday x) (have_yday x) (yday_val x) (year x) v (mday x) (hour12 x) (pm x).
Definition p_mday (v : Z) (x : pstate) : pstate :=
  PS (inp x) (ptm x) (have_year x) (have_mon x) true (have_yday x) (yday_val x) (year x) (mon x) v (hour12 x) (pm x).
Definition p_yday (v : Z) (x : pstate) : pstate :=
  PS (inp x) (ptm x) (have_year x) (have_mon x) (have_mday x) true v (year x) (mon x) (mday x) (hour12 x) (pm x).
Definition p_hour12 (v : Z) (x : pstate) : pstate :=
  PS (inp x) (ptm x) (have_year x) (have_mon x) (have_mday x) (have_yday x) (yday_val x) (year x) (mon x) (mday x) v (pm x).
Definition p_pm (v : Z) (x : pstate) : pstate :=
  PS (inp x) (ptm x) (have_year x) (have_mon x) (have_mday x) (have_yday x) (yday_val x) (year x) (mon x) (mday x) (hour12 x) v.
(** After a composite: the fields it stored, with what it counts as given. *)
Definition p_sync (y : bool) (x : pstate) : pstate :=
  PS (inp x) (ptm x) (have_year x || y) true true (have_yday x) (yday_val x)
     (s32 (tm_year (ptm x) + 1900)) (tm_mon (ptm x)) (tm_mday (ptm x)) (hour12 x) (pm x).

(** A return of 0 leaves what was stored in [*tm]; [None] is a lack of fuel. *)
Abbreviation presult := (option (tm + pstate)).
Definition pfail (x : pstate) : presult := Some (inl (ptm x)).
Definition pok (x : pstate) : presult := Some (inr x).

(** The first name of the tables that the input starts with: the full name
    before the abbreviation. *)
Fixpoint match_names (full abbr : list str) (i : Z) (s : str) : option (Z * str) :=
  match full, abbr with
  | f :: full, a :: abbr =>
      match ci_match s f with
      | Some rest => Some (i, rest)
      | None => match ci_match s a with Some rest => Some (i, rest) | None => match_names full abbr (i + 1) s end
      end
  | _, _ => None
  end.

(** [get_num] into the state. *)
Definition with_num (k : nat) (f : Z -> pstate -> pstate) (x : pstate) : presult :=
  match get_num (inp x) k with Some (v, rest) => pok (f v (p_inp rest x)) | None => pfail x end.

(** [sub] is the call of [strptime] on a composite's format. *)
Definition composite (sub : str -> str -> tm -> option (option str * tm)) (fmt : str)
    (f : pstate -> pstate) (x : pstate) : presult :=
  '(r, t) ← sub (inp x) fmt (ptm x);
  match r with
  | None => Some (inl t)
  | Some rest => pok (f (p_inp rest (p_tm (fun _ => t) x)))
  end.

Fixpoint skip_alpha (s : str) : str :=
  match s with c :: s' => if isalpha c then skip_alpha s' else s | [] => s end.

(** [%z]: a letter Z, or a sign and two numbers with an optional colon. *)
Definition read_zone (s : str) : option str :=
  if ch s 0 =? 90 then Some (tail s)
  else if negb (ch s 0 =? 43) && negb (ch s 0 =? 45) then None
  else
    '(_, s) ← get_num (tail s) 2;
    let s := if ch s 0 =? 58 then tail s else s in
    '(_, s) ← get_num s 2;
    Some s.

(** [%Z]: one of the three names, or a run of letters. *)
Definition read_zone_name (s : str) : option str :=
  match ci_match s [85; 84; 67] with
  | Some r => Some r
  | None =>
      match ci_match s [71; 77; 84] with
      | Some r => Some r
      | None =>
          match ci_match s [90] with
          | Some r => Some r
          | None => if isalpha (ch s 0) then Some (skip_alpha s) else None
          end
      end
  end.

Definition take_input (r : option str) (x : pstate) : presult :=
  match r with Some rest => pok (p_inp rest x) | None => pfail x end.

(** One conversion of the format. *)
Definition scan_conv (sub : str -> str -> tm -> option (option str * tm)) (c : Z) (x : pstate) : presult :=
  if (c =? 97) || (c =? 65) then
    match match_names wday_full wday_abbr 0 (inp x) with
    | Some (i, rest) => pok (p_tm (set_wday i) (p_inp rest x)) | None => pfail x end
  else if (c =? 98) || (c =? 66) || (c =? 104) then
    match match_names mon_full mon_abbr 0 (inp x) with
    | Some (i, rest) => pok (p_mon i (p_inp rest x)) | None => pfail x end
  else if c =? 99 then composite sub fmt_c (p_sync true) x
  else if c =? 67 then with_num 2 (fun v x => p_year (v * 100 + Z.rem (year x) 100) x) x
  else if c =? 100 then with_num 2 p_mday x
  else if c =? 101 then with_num 2 p_mday (p_inp (skip_ws (inp x)) x)
  else if c =? 68 then composite sub fmt_D (p_sync false) x
  else if c =? 70 then composite sub fmt_F (p_sync true) x
  else if (c =? 72) || (c =? 107) then with_num 2 (fun v => p_tm (set_hour v)) x
  else if (c =? 73) || (c =? 108) then with_num 2 p_hour12 x
  else if c =? 106 then with_num 3 p_yday x
  else if c =? 109 then with_num 2 (fun v => p_mon (v - 1)) x
  else if c =? 77 then with_num 2 (fun v => p_tm (set_min v)) x
  else if (c =? 110) || (c =? 116) then pok (p_inp (skip_ws (inp x)) x)
  else if (c =? 112) || (c =? 80) then
    match ci_match (inp x) [65; 77] with
    | Some rest => pok (p_pm 0 (p_inp rest x))
    | None => match ci_match (inp x) [80; 77] with Some rest => pok (p_pm 1 (p_inp rest x)) | None => pfail x end
    end
  else if c =? 114 then composite sub fmt_r (fun x => x) x
  else if c =? 82 then composite sub fmt_R (fun x => x) x
  else if c =? 83 then with_num 2 (fun v => p_tm (set_sec v)) x
  else if (c =? 84) || (c =? 88) then composite sub fmt_T (fun x => x) x
  else if (c =? 117) || (c =? 119) then
    with_num 1 (fun v => p_tm (set_wday (if c =? 117 then Z.rem v 7 else v))) x
  else if (c =? 85) || (c =? 87) then with_num 2 (fun _ x => x) x
  else if c =? 86 then with_num 2 (fun _ x => x) x
  else if c =? 121 then with_num 2 (fun v => p_year (if v <=? 68 then 2000 + v else 1900 + v)) x
  else if c =? 89 then with_num 4 p_year x
  else if c =? 122 then take_input (read_zone (inp x)) x
  else if c =? 90 then take_input (read_zone_name (inp x)) x
  else if c =? 37 then (if ch (inp x) 0 =? 37 then pok (p_inp (tail (inp x)) x) else pfail x)
  else pfail x.

(** The loop over the format. *)
Fixpoint scan_loop (sub : str -> str -> tm -> option (option str * tm)) (fuel : nat) (f : str) (x : pstate) : presult :=
  match fuel with
  | O => None
  | S fuel =>
      match f with
      | [] => pok x
      | c :: f =>
          if isspace c then scan_loop sub fuel f (p_inp (skip_ws (inp x)) x)
          else if negb (c =? 37) then
            if ch (inp x) 0 =? c then scan_loop sub fuel f (p_inp (tail (inp x)) x) else pfail x
          else
            let '(_, f) := read_width f 0 in
            r ← scan_conv sub (ch f 0) x;
            match r with inl t => Some (inl t) | inr x => scan_loop sub fuel (tail f) x end
      end
  end.

(** The 12-hour clock. *)
Definition close_hour (x : pstate) : option tm :=
  if hour12 x >=? 0 then
    if (hour12 x <? 1) || (hour12 x >? 12) then None
    else
      let h := Z.rem (hour12 x) 12 in
      Some (set_hour (if pm x =? 1 then h + 12 else if (pm x <? 0) && (hour12 x =? 12) then 12 else h) (ptm x))
  else Some (ptm x).

(** The date fields and those derived from them; the fields stored before a
    return of 0 are in the left case. *)
Definition close_date (x : pstate) (t : tm) : tm + tm :=
  let t := if have_year x then set_year (s32 (year x - 1900)) t else t in
  if have_mon x && ((mon x <? 0) || (mon x >? 11)) then inl t
  else
    let t := if have_mon x then set_mon (mon x) t else t in
    if have_mday x && ((mday x <? 1) || (mday x >? 31)) then inl t
    else
      let t := if have_mday x then set_mday (mday x) t else t in
      if have_yday x && negb (have_mday x) then
        let y := s32 (tm_year t + 1900) in
        let '(m2, d2) := yday_to_md y (yday_val x) in
        inr (set_wday (wday_of_doy y (yday_val x)) (set_yday (yday_val x - 1) (set_mday d2 (set_mon m2 t))))
      else if have_year x || have_mon x || have_mday x then inr (finalize_date t)
      else inr t.

(** The rest of the input and the fields; [sub] calls use one unit of fuel. *)
Fixpoint strptime_run (fuel : nat) (s format : str) (t : tm) : option (option str * tm) :=
  match fuel with
  | O => None
  | S fuel =>
      let x := PS s t false false false false 0 (s32 (tm_year t + 1900)) (tm_mon t) (tm_mday t) (-1) (-1) in
      r ← scan_loop (strptime_run fuel) (S (List.length format)) format x;
      match r with
      | inl t => Some (None, t)
      | inr x =>
          match close_hour x with
          | None => Some (None, ptm x)
          | Some t =>
              match close_date x t with
              | inl t => Some (None, t)
              | inr t => Some (Some (inp x), t)
              end
          end
      end
  end.

(** Composites do not nest in [strptime]: two levels. *)
Definition strptime (s format : option str) (t : tm) : option (option str * tm) :=
  match s, format with
  | Some s, Some f => strptime_run 2 s f t
  | _, _ => Some (None, t)
  end.

(** ** ISO weeks *)

Lemma days_in_year_len y : days_in_year y = year_len y.
Proof.
  unfold days_in_year, year_len, _isleap. by rewrite andb_comm, (orb_comm _ (Z.rem y 400 =? 0)).
Qed.

(** The weekday of January 1 is that of its day count. *)
Lemma jan1_wd_spec y : year_ok y -> jan1_wd y = (jan1 y + 3) mod 7 + 1.
Proof.
  unfold year_ok. intros Hy. unfold jan1_wd. rewrite (s32_small (y - 1)) by lia.
  rewrite !Z.quot_div_nonneg by lia.
  change (365 * 1969 + 1969 / 4 - 1969 / 100 + 1969 / 400) with 719162. fold (jan1 y).
  assert (Hb : - 2 ^ 31 <= jan1 y < 2 ^ 31) by (unfold jan1; Z.to_euclidean_division_equations; lia).
  rewrite (s32_small (jan1 y)) by done. f_equal. Z.to_euclidean_division_equations; lia.
Qed.

(** The day count of a date, and of the Thursday of its week (weeks start on
    Monday): the ISO year of the week is the year that Thursday falls in. *)
Definition day_number (r : tm) : Z := jan1 (tm_year r + 1900) + tm_yday r.
Definition thursday (d : Z) : Z := d - (d + 3) mod 7 + 3.

(** The week of a year's last Thursday; day counts divisible by 7 are Thursdays. *)
Lemma iso_weeks_spec y : year_ok y ->
  let last := jan1 y + year_len y - 1 in
  iso_weeks_in_year y = (last - last mod 7 - jan1 y) / 7 + 1.
Proof.
  intros Hy. unfold iso_weeks_in_year. rewrite jan1_wd_spec, days_in_year_len by done. cbv zeta.
  unfold year_len. destruct (_isleap y); zcases; cbn [orb andb]; Z.to_euclidean_division_equations; lia.
Qed.

(** The ISO 8601 week: for every date with a consistent weekday, the year
    [iso_week] answers is the one the Thursday of the date's week falls in, and
    the week number counts the Thursdays of that year up to it. *)
Theorem iso_week_thursday r :
  2 <= tm_year r + 1900 <= 4999999 -> 0 <= tm_yday r < year_len (tm_year r + 1900) ->
  tm_wday r = (day_number r + 4) mod 7 ->
  let '(week, year) := iso_week r in
  let thu := thursday (day_number r) in
  jan1 year <= thu < jan1 (year + 1) /\ week = (thu - jan1 year) / 7 + 1 /\ 1 <= week <= 53.
Proof.
  intros Hy Hd Hw. unfold iso_week. set (y := tm_year r + 1900) in *.
  assert (Hl : 365 <= year_len y <= 366) by apply year_len_pos.
  assert (Hwd : (if tm_wday r =? 0 then 7 else tm_wday r) = (day_number r + 3) mod 7 + 1).
  { rewrite Hw. clear. zcases; Z.to_euclidean_division_equations; lia. }
  rewrite Hwd. clear Hw Hwd.
  pose proof (jan1_succ y ltac:(lia)) as S1. pose proof (jan1_succ (y - 1) ltac:(lia)) as S0.
  rewrite Z.sub_add in S0. assert (Hl0 : 365 <= year_len (y - 1) <= 366) by apply year_len_pos.
  pose proof (iso_weeks_spec y ltac:(unfold year_ok; lia)) as W1.
  pose proof (iso_weeks_spec (y - 1) ltac:(unfold year_ok; lia)) as W0. cbv zeta in W0, W1.
  pose proof (jan1_succ (y + 1) ltac:(lia)) as S2.
  assert (Hl2 : 365 <= year_len (y + 1) <= 366) by apply year_len_pos.
  pose proof (Z.mod_pos_bound (day_number r + 3) 7 ltac:(lia)) as Hm0.
  rewrite (s32_small (tm_yday r + 1)) by lia. rewrite (s32_small (_ - _ + 10)) by lia.
  rewrite (s32_small y), (s32_small (y - 1)), (s32_small (y + 1)) by lia. clear Hm0.
  unfold thursday, day_number. fold y. set (d := tm_yday r) in *.
  pose proof (Z.mod_pos_bound (jan1 y + d + 3) 7 ltac:(lia)) as Hm.
  rewrite Z.quot_div_nonneg by lia. rewrite Z.gtb_ltb.
  destruct (Z.ltb_spec ((d + 1 - ((jan1 y + d + 3) mod 7 + 1) + 10) / 7) 1) as [H1|H1];
    [|destruct (Z.ltb_spec (iso_weeks_in_year y) ((d + 1 - ((jan1 y + d + 3) mod 7 + 1) + 10) / 7)) as [H2|H2]];
    rewrite ?Z.sub_add, ?W0, ?W1 in *; clear W0 W1; Z.to_euclidean_division_equations; lia.
Qed.

(** January 1, 2021 was a Friday: week 53 of 2020. *)
Lemma iso_week_thursday_witness :
  let r := Tm 0 0 0 1 0 121 5 0 0 in
  iso_week r = (53, 2020) /\ jan1 2020 <= thursday (day_number r) < jan1 2021.
Proof.
  split; [vm_compute; reflexivity|].
  assert (H : let '(week, year) := iso_week (Tm 0 0 0 1 0 121 5 0 0) in
    let thu := thursday (day_number (Tm 0 0 0 1 0 121 5 0 0)) in
    jan1 year <= thu < jan1 (year + 1) /\ week = (thu - jan1 year) / 7 + 1 /\ 1 <= week <= 53).
  { apply (iso_week_thursday (Tm 0 0 0 1 0 121 5 0 0)); vm_compute; intuition congruence. }
  exact (proj1 H).
Defined.

(** ** What is written *)

(** The buffer holds [text] so far, with nothing lost. *)
Definition holds (text : str) (m : Z) (b : sbuf) : Prop :=
  max b = m /\ Z.of_nat (List.length (out b)) = m /\ n b = Z.of_nat (List.length text) /\ overflow b = false
  /\ take (List.length text) (out b) = text.

(** [c] appends [text] when there is room for it and its NUL. *)
Definition writes (c : FM unit) (text : str) : Prop := forall b z before m, holds before m b ->
  Z.of_nat (List.length before + List.length text) < m ->
  wp c (b, z) (fun _ x => x.2 = z /\ holds (before ++ text) m x.1).

Lemma writes_seq c1 c2 t1 t2 : writes c1 t1 -> writes c2 t2 -> writes (c1 ;;* c2) (t1 ++ t2).
Proof.
  intros H1 H2 b z before m Hb Hm. rewrite length_app in Hm. apply wp_bind.
  eapply wp_mono; [apply (H1 b z before m Hb); lia|]. intros u [b1 z1] [E Hb1]. cbn [fst snd] in *. subst z1.
  rewrite app_assoc. apply H2; [done|]. rewrite length_app. lia.
Qed.

Lemma writes_none : writes (ret tt) [].
Proof. intros b z before m Hb _. apply wp_ret. by rewrite app_nil_r. Qed.

Lemma putc_writes c : byte_ok c -> writes (sb_putc c) [c].
Proof.
  intros Hc b z before m (Hx & Hl & Hn & Ho & Ht) Hm. cbn [List.length] in Hm. unfold wp, sb_putc. zdecide.
  split; [done|]. cbn [fst]. unfold holds. cbn [max out n overflow]. rewrite length_insert, length_app.
  split_and!; [done|done|cbn [List.length]; lia|done|]. rewrite Hn, Nat2Z.id, u8_small by exact Hc.
  cbn [List.length]. apply take_store; [lia|done].
Qed.

Lemma puts_writes s : Forall byte_ok s -> writes (sb_puts s) s.
Proof.
  induction 1 as [|c s Hc _ IH]; [apply writes_none|].
  exact (writes_seq (sb_putc c) _ [c] s (putc_writes c Hc) IH).
Qed.

(** Numbers of a fixed width. *)
Lemma digits_fixed k v : (k = 2%nat /\ 0 <= v < 100) \/ (k = 4%nat /\ 1000 <= v < 10000) ->
  let tmp := match num_digits v with [] => [48] | ds => ds end in
  (List.length tmp <= k)%nat /\ replicate (k - List.length tmp) 48 ++ rev tmp = show_fixed k v
  /\ (k = 4%nat -> List.length tmp = 4%nat).
Proof.
  intros H. unfold num_digits.
  destruct (int_digits_show k 24 v) as [Hl He]; [lia|destruct H as [[-> ?]|[-> ?]]; cbn; lia|].
  destruct H as [[-> Hv]|[-> Hv]].
  - destruct (int_digits 24 v) as [|d ds] eqn:E; [|split_and!; [done|done|lia]].
    cbn [List.length rev app Nat.sub] in He |- *. rewrite app_nil_r in He. rewrite <- He. split_and!; [lia|done|lia].
  - assert (H4 : List.length (int_digits 24 v) = 4%nat).
    { destruct (decide (List.length (int_digits 24 v) = 4%nat)) as [|Hne]; [done|exfalso].
      assert (H3 : (List.length (int_digits 24 v) <= 3)%nat) by lia. clear Hl.
      assert (Hb : forall fuel w k, (k <= 4)%nat -> (List.length (int_digits fuel w) <= k)%nat -> (k < fuel)%nat -> w < 10 ^ Z.of_nat k).
      { clear. induction fuel as [|fuel IH]; intros w k Hk Hl Hf; [lia|]. cbn [int_digits] in Hl.
        rewrite Z.gtb_ltb in Hl. destruct (Z.ltb_spec 0 w).
        - cbn [List.length] in Hl. destruct k as [|k]; [lia|]. specialize (IH (Z.quot w 10) k ltac:(lia) ltac:(lia) ltac:(lia)).
          rewrite Nat2Z.inj_succ, Z.pow_succ_r by lia. rewrite Z.quot_div_nonneg in IH by lia.
          pose proof (Z.div_mod w 10). pose proof (Z.mod_pos_bound w 10). lia.
        - assert (0 < 10 ^ Z.of_nat k) by (apply Z.pow_pos_nonneg; lia). lia. }
      specialize (Hb 24%nat v 3%nat ltac:(lia) H3 ltac:(lia)). cbn in Hb. lia. }
    destruct (int_digits 24 v) as [|d ds]; [done|]. split_and!; [lia|done|done].
Qed.

Lemma num2_writes v : 0 <= v < 100 -> writes (num_out v 2 48 no_mods 0) (show_fixed 2 v).
Proof.
  intros Hv. destruct (digits_fixed 2 v ltac:(lia)) as (Hl & He & _). unfold num_out.
  rewrite u32_small by (zdecide; lia). zdecide. cbn [no_mods m_none m_space m_zero].
  set (tmp := match num_digits v with [] => [48] | ds => ds end) in *. cbv zeta.
  rewrite <- (app_nil_l (show_fixed 2 v)). apply writes_seq; [apply writes_none|]. zdecide.
  replace (Z.to_nat (2 - (Z.of_nat (List.length tmp) + 0))) with (2 - List.length tmp)%nat by lia.
  pose proof (show_fixed_bytes 2 v) as Hb. rewrite <- He in Hb |- *. apply Forall_app in Hb as [Hb1 Hb2].
  apply writes_seq; by apply puts_writes.
Qed.

Lemma num4_writes v : 1000 <= v < 10000 -> writes (num_out v 0 48 no_mods 0) (show_fixed 4 v).
Proof.
  intros Hv. destruct (digits_fixed 4 v ltac:(lia)) as (Hl & He & H4). specialize (H4 eq_refl). unfold num_out.
  rewrite u32_small by (zdecide; lia). zdecide. cbn [no_mods m_none m_space m_zero].
  set (tmp := match num_digits v with [] => [48] | ds => ds end) in *. cbv zeta.
  rewrite <- (app_nil_l (show_fixed 4 v)). apply writes_seq; [apply writes_none|]. zdecide.
  replace (Z.to_nat (0 - (Z.of_nat (List.length tmp) + 0))) with 0%nat by lia.
  rewrite H4 in He. cbn [Nat.sub replicate app] in He.
  pose proof (show_fixed_bytes 4 v) as Hb. rewrite <- He in Hb |- *.
  rewrite <- (app_nil_l (rev tmp)). apply writes_seq; [apply writes_none|by apply puts_writes].
Qed.

Lemma str_out_writes s : Forall byte_ok s -> writes (str_out s no_mods 0) s.
Proof.
  intros Hs. unfold str_out, recase. cbn [no_mods m_upper m_swap andb orb]. rewrite map_id.
  replace (Z.to_nat (u32 0 - Z.of_nat (List.length s))) with 0%nat by (change (u32 0) with 0; lia).
  apply (writes_seq _ _ [] s); [apply writes_none|by apply puts_writes].
Qed.

(** A formatting step that appends [text] and goes on. *)
Definition emits (c : FM bool) (text : str) : Prop := forall b z before m, holds before m b ->
  Z.of_nat (List.length before + List.length text) < m ->
  wp c (b, z) (fun ok x => ok = true /\ x.2 = z /\ holds (before ++ text) m x.1).

Lemma emits_ret c text : writes c text -> emits (c ;;* ret true) text.
Proof.
  intros Hc b z before m Hb Hm. apply wp_bind. eapply wp_mono; [by apply Hc|]. intros u x [H1 H2]. by apply wp_ret.
Qed.

Section Loop.
Context `{TzEnv} (r : tm) (run : str -> FM bool).

Lemma loop_end fuel : emits (fmt_loop run r (S fuel) []) [].
Proof. intros b z before m Hb _. apply wp_ret. by rewrite app_nil_r. Qed.

Lemma loop_literal fuel c p text : byte_ok c -> c <> 37 -> emits (fmt_loop run r fuel p) text ->
  emits (fmt_loop run r (S fuel) (c :: p)) (c :: text).
Proof.
  intros Hc Hne Hp b z before m Hb Hm. cbn [fmt_loop]. zdecide. cbn [negb List.length] in *.
  apply wp_bind. eapply wp_mono; [apply (putc_writes c Hc b z before m Hb); cbn [List.length]; lia|].
  intros u [b1 z1] [E Hb1]. cbn [fst snd] in *. subst z1. rewrite (cons_middle c before text), app_assoc.
  apply Hp; [done|]. rewrite length_app. cbn [List.length]. lia.
Qed.

(** A conversion character without flags or width. *)
Definition plain_conv (c : Z) : Prop := c <> 45 /\ c <> 95 /\ c <> 94 /\ c <> 35 /\ isdigit c = false.

Lemma loop_conv fuel c p text rest : plain_conv c ->
  emits (convert run r c no_mods 0) text -> emits (fmt_loop run r fuel p) rest ->
  emits (fmt_loop run r (S fuel) (37 :: c :: p)) (text ++ rest).
Proof.
  intros (H1 & H2 & H3 & H4 & H5) Hc Hp b z before m Hb Hm. cbn [fmt_loop]. change (37 =? 37) with true. cbn [negb].
  assert (E0 : c =? 48 = false) by (unfold isdigit in H5; destruct (Z.eqb_spec c 48); [subst; done|done]).
  cbn [read_mods]. zdecide. rewrite ?E0. cbn [read_width]. rewrite H5. cbn [head default tail].
  rewrite length_app in Hm. apply wp_bind. eapply wp_mono; [apply (Hc b z before m Hb); lia|].
  intros ok [b1 z1] (-> & E & Hb1). cbn [fst snd] in *. subst z1. wp_pure. cbn [fst].
  pose proof Hb1 as (_ & _ & _ & Ho & _). rewrite Ho. cbn [negb orb]. rewrite app_assoc.
  apply Hp; [done|]. rewrite length_app. lia.
Qed.
End Loop.

Lemma cut_nul_id s : Forall (fun c => 0 < c) s -> cut_nul s = s.
Proof. induction 1 as [|c s Hc _ IH]; [done|]. cbn [cut_nul]. zdecide. by rewrite IH. Qed.

Lemma comp_emits (run : str -> FM bool) fmt text : emits (run fmt) text ->
  Forall (fun c => 0 < c < 256) text -> (List.length text < 128)%nat -> emits (comp_out run fmt no_mods 0) text.
Proof.
  intros Hr Ht Hl b z before m Hb Hm. unfold wp, comp_out.
  assert (H0 : holds [] 128 (SB (replicate 128 0) 128 0 false)) by (unfold holds; cbn; done).
  pose proof (Hr _ z [] 128 H0 ltac:(cbn [List.length]; lia)) as Hw.
  apply wp_total in Hw as (ok & [t z1] & -> & -> & Hz & (Hx & Ho & Hn & Hv & Htk)). cbn [fst snd app] in *. subst z1.
  cbn [mbind option_bind negb]. rewrite Hv. cbn [orb]. rewrite Hn, Nat2Z.id, Htk.
  rewrite cut_nul_id by (revert Ht; apply List.Forall_impl; lia).
  assert (Hb8 : Forall byte_ok text) by (revert Ht; apply List.Forall_impl; unfold byte_ok; lia).
  exact (emits_ret _ _ (str_out_writes text Hb8) b z before m Hb Hm).
Qed.

Lemma show_fixed_pos k : forall v, Forall (fun c => 0 < c < 256) (show_fixed k v).
Proof.
  induction k as [|k IH]; intros v; [done|]. cbn [show_fixed]. apply Forall_app. split; [apply IH|].
  constructor; [|done]. pose proof (Z.mod_pos_bound v 10). lia.
Qed.

(** The text of [%F] and [%T]. *)
Definition date_text (r : tm) : str :=
  show_fixed 4 (tm_year r + 1900) ++ 45 :: show_fixed 2 (tm_mon r + 1) ++ 45 :: show_fixed 2 (tm_mday r).
Definition clock_text (r : tm) : str :=
  show_fixed 2 (tm_hour r) ++ 58 :: show_fixed 2 (tm_min r) ++ 58 :: show_fixed 2 (tm_sec r).

(** Dates of four-digit years. *)
Definition printable (r : tm) : Prop :=
  1000 <= tm_year r + 1900 < 10000 /\ 0 <= tm_mon r < 12 /\ 1 <= tm_mday r <= 31
  /\ 0 <= tm_hour r < 24 /\ 0 <= tm_min r < 60 /\ 0 <= tm_sec r < 60.

Section Texts.
Context `{TzEnv} (r : tm).
Hypothesis Hr : printable r.

Lemma date_emits room : emits (fmt_run r (S room) fmt_F) (date_text r).
Proof.
  destruct Hr as (Hy & Hm & Hd & _). unfold date_text. rewrite <- (app_nil_r (show_fixed 2 (tm_mday r))).
  cbn [fmt_run fmt_F List.length].
  apply loop_conv; [by split_and!| |apply loop_literal; [unfold byte_ok; lia|lia|apply loop_conv; [by split_and!| |
    apply loop_literal; [unfold byte_ok; lia|lia|apply loop_conv; [by split_and!| |apply loop_end]]]]].
  - pose proof (num4_writes (tm_year r + 1900) Hy) as Hw. rewrite <- (s32_small (tm_year r + 1900)) in Hw at 1 by lia.
    exact (emits_ret _ _ Hw).
  - pose proof (num2_writes (tm_mon r + 1) ltac:(lia)) as Hw. rewrite <- (s32_small (tm_mon r + 1)) in Hw at 1 by lia.
    exact (emits_ret _ _ Hw).
  - exact (emits_ret _ _ (num2_writes (tm_mday r) ltac:(lia))).
Qed.

Lemma clock_emits room : emits (fmt_run r (S room) fmt_T) (clock_text r).
Proof.
  destruct Hr as (_ & _ & _ & Hh & Hm & Hs). unfold clock_text. rewrite <- (app_nil_r (show_fixed 2 (tm_sec r))).
  cbn [fmt_run fmt_T List.length].
  apply loop_conv; [by split_and!| |apply loop_literal; [unfold byte_ok; lia|lia|apply loop_conv; [by split_and!| |
    apply loop_literal; [unfold byte_ok; lia|lia|apply loop_conv; [by split_and!| |apply loop_end]]]]].
  - exact (emits_ret _ _ (num2_writes (tm_hour r) ltac:(lia))).
  - exact (emits_ret _ _ (num2_writes (tm_min r) ltac:(lia))).
  - exact (emits_ret _ _ (num2_writes (tm_sec r) ltac:(lia))).
Qed.
Definition fmt_FT : str := Eval vm_compute in codes "%F %T".
Definition stamp : str := date_text r ++ 32 :: clock_text r.

Lemma stamp_pos : Forall (fun c => 0 < c < 256) stamp.
Proof.
  unfold stamp, date_text, clock_text.
  repeat first [apply show_fixed_pos | apply Forall_app_2 | apply List.Forall_cons; [lia|]].
Qed.

Lemma stamp_length : List.length stamp = 19%nat.
Proof.
  unfold stamp, date_text, clock_text. rewrite !length_app; cbn [List.length]; rewrite !length_app; cbn [List.length];
  rewrite !length_app; cbn [List.length]. by rewrite !show_fixed_length.
Qed.

Lemma strftime_stamp buf m z : Z.of_nat (List.length buf) = m -> 20 <= m ->
  exists buf', strftime (Some buf) m (Some fmt_FT) (Some r) z = Some (19, Some buf', z) /\ cut_nul buf' = stamp.
Proof.
  intros Hl Hm.
  pose proof stamp_pos as Hp. pose proof stamp_length as Hsl. unfold stamp in *.
  assert (He : emits (fmt_run r 5 fmt_FT) (date_text r ++ 32 :: clock_text r)).
  { apply Forall_app in Hp as [Hp1 Hp2]. apply Forall_cons_1 in Hp2 as [_ Hp2].
    rewrite length_app in Hsl. cbn [List.length] in Hsl.
    rewrite <- (app_nil_r (clock_text r)). cbn [fmt_run fmt_FT List.length].
    apply loop_conv; [by split_and!| |apply loop_literal; [unfold byte_ok; lia|lia|apply loop_conv; [by split_and!| |apply loop_end]]].
    - exact (comp_emits (fmt_run r 4) fmt_F (date_text r) (date_emits 3) Hp1 ltac:(lia)).
    - exact (comp_emits (fmt_run r 4) fmt_T (clock_text r) (clock_emits 3) Hp2 ltac:(lia)). }
  fold stamp in *. set (text := stamp) in *.
  assert (H0 : holds [] m (SB buf m 0 false)) by (split_and!; done).
  unfold strftime. zdecide.
  pose proof (He _ z [] m H0 ltac:(cbn [List.length]; lia)) as Hw.
  apply wp_total in Hw as (ok & [b z1] & -> & -> & Hz & (Hx & Ho & Hn & Hv & Htk)). cbn [fst snd app] in *. subst z1.
  cbn [mbind option_bind negb orb]. rewrite Hx, Hn, Hsl. zdecide.
  eexists. split; [done|]. change (Z.to_nat (Z.of_nat 19)) with 19%nat.
  assert (Ht : take 19 (out b) = text) by (by rewrite <- Hsl).
  rewrite <- (take_drop 19 (out b)), Ht.
  assert (Hd : (0 < List.length (drop 19 (out b)))%nat) by (rewrite length_drop; lia).
  destruct (drop 19 (out b)) as [|c rest]; [cbn in Hd; lia|].
  rewrite insert_app_r_alt by lia. replace (19 - List.length text)%nat with 0%nat by lia.
  change (<[0%nat := 0]> (c :: rest)) with (0 :: rest).
  clear - Hp. induction Hp as [|d l Hd _ IH]; [done|]. cbn [app cut_nul]. zdecide. by rewrite IH.
Qed.
End Texts.

(** ** What is read *)

Lemma num_loop_show k : forall j v w rest, 0 <= v < 10 ^ Z.of_nat k ->
  num_loop (k + j) (show_fixed k v ++ rest) w = num_loop j rest (w * 10 ^ Z.of_nat k + v).
Proof.
  induction k as [|k IH]; intros j v w rest Hv.
  - change (10 ^ Z.of_nat 0) with 1 in *. cbn [show_fixed app Nat.add]. f_equal. lia.
  - rewrite Nat2Z.inj_succ, Z.pow_succ_r in * by lia. cbn [show_fixed]. rewrite <- app_assoc.
    replace (S k + j)%nat with (k + S j)%nat by lia.
    rewrite IH by (split; [apply Z.div_pos; lia|apply Z.div_lt_upper_bound; lia]).
    pose proof (Z.mod_pos_bound v 10 ltac:(lia)). cbn [app num_loop].
    assert (Hd : isdigit (48 + v mod 10) = true) by (unfold isdigit; lia). rewrite Hd. f_equal.
    pose proof (Z.div_mod v 10). lia.
Qed.

Lemma show_fixed_digit k v : isdigit (ch (show_fixed (S k) v) 0) = true.
Proof.
  revert v. induction k as [|k IH]; intros v.
  - cbn [show_fixed app ch]. unfold ch. cbn. pose proof (Z.mod_pos_bound v 10 ltac:(lia)). unfold isdigit. lia.
  - cbn [show_fixed] in *. specialize (IH (v / 10)). unfold ch in *. rewrite lookup_app_l; [done|].
    rewrite length_app. cbn [List.length]. lia.
Qed.

Lemma get_num_show k v rest : 0 <= v < 10 ^ Z.of_nat (S k) ->
  get_num (show_fixed (S k) v ++ rest) (S k) = Some (v, rest).
Proof.
  intros Hv. unfold get_num. pose proof (show_fixed_digit k v) as Hd. unfold ch in *.
  rewrite lookup_app_l by (rewrite show_fixed_length; lia). rewrite Hd.
  rewrite <- (Nat.add_0_r (S k)) at 1. rewrite num_loop_show by done. by destruct rest.
Qed.

(** The scan of a number field. *)
Lemma with_num_show k f x v rest : inp x = show_fixed (S k) v ++ rest -> 0 <= v < 10 ^ Z.of_nat (S k) ->
  with_num (S k) f x = pok (f v (p_inp rest x)).
Proof. intros Hi Hv. unfold with_num. by rewrite Hi, get_num_show. Qed.

Section Scan.
Context (sub : str -> str -> tm -> option (option str * tm)).

Lemma scan_conv_step fuel c f x x1 : isdigit c = false -> scan_conv sub c x = pok x1 ->
  scan_loop sub (S fuel) (37 :: c :: f) x = scan_loop sub fuel f x1.
Proof.
  intros Hc Hs. cbn [scan_loop]. change (isspace 37) with false. change (37 =? 37) with true. cbn [negb read_width].
  rewrite Hc. cbn [tail]. change (ch (c :: f) 0) with c. by rewrite Hs.
Qed.

Lemma scan_literal_step fuel c f x rest : isspace c = false -> c <> 37 -> inp x = c :: rest ->
  scan_loop sub (S fuel) (c :: f) x = scan_loop sub fuel f (p_inp rest x).
Proof.
  intros Hc H1 Hi. cbn [scan_loop]. rewrite Hc. zdecide. cbn [negb]. rewrite Hi. change (ch (c :: rest) 0) with c.
  by rewrite Z.eqb_refl.
Qed.
(** A number field of the format, matched by its fixed-width text. *)
Lemma scan_num_step fuel c f k g x v rest : isdigit c = false -> scan_conv sub c x = with_num (S k) g x ->
  inp x = show_fixed (S k) v ++ rest -> 0 <= v < 10 ^ Z.of_nat (S k) ->
  scan_loop sub (S fuel) (37 :: c :: f) x = scan_loop sub fuel f (g v (p_inp rest x)).
Proof. intros Hc Hs Hi Hv. apply scan_conv_step; [done|]. rewrite Hs. by apply with_num_show. Qed.
End Scan.

(** The local variables before the first conversion. *)
Definition p_start (s : str) (t : tm) : pstate :=
  PS s t false false false false 0 (s32 (tm_year t + 1900)) (tm_mon t) (tm_mday t) (-1) (-1).

Lemma scan_date sub r rest t : printable r ->
  scan_loop sub 9 fmt_F (p_start (date_text r ++ rest) t)
  = pok (PS rest t true true true false 0 (tm_year r + 1900) (tm_mon r + 1 - 1) (tm_mday r) (-1) (-1)).
Proof.
  intros (Hy & Hm & Hd & _). unfold date_text. rewrite <- !app_assoc. cbn [app]. rewrite <- !app_assoc. cbn [app].
  unfold fmt_F, p_start.
  erewrite scan_num_step by first [done|reflexivity|cbn; lia].
  erewrite scan_literal_step; [|done|done|reflexivity].
  erewrite scan_num_step by first [done|reflexivity|cbn; lia].
  erewrite scan_literal_step; [|done|done|reflexivity].
  erewrite scan_num_step by first [done|reflexivity|cbn; lia].
  reflexivity.
Qed.

Lemma scan_clock sub r rest t : printable r ->
  scan_loop sub 9 fmt_T (p_start (clock_text r ++ rest) t)
  = pok (PS rest (set_sec (tm_sec r) (set_min (tm_min r) (set_hour (tm_hour r) t)))
           false false false false 0 (s32 (tm_year t + 1900)) (tm_mon t) (tm_mday t) (-1) (-1)).
Proof.
  intros (_ & _ & _ & Hh & Hm & Hs). unfold clock_text. rewrite <- !app_assoc. cbn [app]. rewrite <- !app_assoc. cbn [app].
  unfold fmt_T, p_start.
  erewrite scan_num_step by first [done|reflexivity|cbn; lia].
  erewrite scan_literal_step; [|done|done|reflexivity].
  erewrite scan_num_step by first [done|reflexivity|cbn; lia].
  erewrite scan_literal_step; [|done|done|reflexivity].
  erewrite scan_num_step by first [done|reflexivity|cbn; lia].
  reflexivity.
Qed.

(** The date of a complete scan. *)
Lemma close_full r rest t : printable r ->
  close_date (PS rest t true true true false 0 (tm_year r + 1900) (tm_mon r) (tm_mday r) (-1) (-1)) t
  = inr (finalize_date (set_mday (tm_mday r) (set_mon (tm_mon r) (set_year (tm_year r) t)))).
Proof.
  intros (Hy & Hm & Hd & _). unfold close_date. cbn [have_year have_mon have_mday have_yday year mon mday].
  rewrite !Z.gtb_ltb. zdecide. cbn [andb orb negb]. rewrite s32_small by lia.
  by replace (tm_year r + 1900 - 1900) with (tm_year r) by lia.
Qed.

Lemma strptime_date fuel r rest t : printable r ->
  strptime_run (S fuel) (date_text r ++ rest) fmt_F t
  = Some (Some rest, finalize_date (set_mday (tm_mday r) (set_mon (tm_mon r) (set_year (tm_year r) t)))).
Proof.
  intros Hr. cbn [strptime_run]. change (S (List.length fmt_F)) with 9%nat. fold (p_start (date_text r ++ rest) t).
  rewrite scan_date by done. replace (tm_mon r + 1 - 1) with (tm_mon r) by lia.
  unfold pok. cbn [mbind option_bind]. unfold close_hour. cbn [hour12 ptm inp].
  change (-1 >=? 0) with false. cbv iota. by rewrite close_full.
Qed.

Lemma strptime_clock fuel r rest t : printable r ->
  strptime_run (S fuel) (clock_text r ++ rest) fmt_T t
  = Some (Some rest, set_sec (tm_sec r) (set_min (tm_min r) (set_hour (tm_hour r) t))).
Proof.
  intros Hr. cbn [strptime_run]. change (S (List.length fmt_T)) with 9%nat. fold (p_start (clock_text r ++ rest) t).
  by rewrite scan_clock.
Qed.

(** ** The date that is read back *)

Lemma sum_days_shift lens y m d : forall i a, sum_days lens y i m (a + d) = sum_days lens y i m a + d.
Proof.
  induction lens as [|len lens IH]; intros i a; cbn [sum_days]; [done|]. destruct (i <? m - 1); [|done].
  rewrite <- IH. f_equal. lia.
Qed.

Lemma sum_days_spec y m d : 1 <= m <= 12 -> sum_days mdays y 0 m d = cum_days (_isleap y) m + d.
Proof.
  intros Hm. assert (He : (days_in_year y =? 366) = _isleap y)
    by (rewrite days_in_year_len; unfold year_len; by destruct (_isleap y)).
  rewrite <- (Z.add_0_l d) at 1. rewrite sum_days_shift. f_equal.
  unfold mdays. cbn [sum_days]. rewrite He. clear He. revert m Hm.
  destruct (_isleap y); apply months_split; vm_compute; reflexivity.
Qed.

Lemma wday_of_doy_spec y doy : year_ok y -> 1 <= doy -> wday_of_doy y doy = (jan1 y + doy + 3) mod 7.
Proof.
  intros Hy Hd. unfold wday_of_doy. rewrite jan1_wd_spec by done.
  pose proof (Z.mod_pos_bound (jan1 y + 3) 7 ltac:(lia)).
  rewrite (Z.rem_mod_nonneg (_ + (_ - 1))) by lia.
  pose proof (Z.mod_pos_bound ((jan1 y + 3) mod 7 + 1 - 1 + (doy - 1)) 7 ltac:(lia)).
  rewrite Z.rem_mod_nonneg by lia. rewrite Zplus_mod_idemp_l.
  replace (_ + 1) with ((jan1 y + 3) mod 7 + doy) by lia. rewrite Zplus_mod_idemp_l. f_equal. lia.
Qed.

(** The derived fields [finalize_date] computes, for a date in its ranges. *)
Lemma finalize_date_spec r : civil_ok r -> year_ok (tm_year r + 1900) ->
  finalize_date r = set_wday ((day_of_year r + jan1 (tm_year r + 1900) + 4) mod 7) (set_yday (day_of_year r) r).
Proof.
  intros Hr Hy. pose proof (day_of_year_range r Hr) as Hrange. pose proof Hr as (_ & _ & _ & Hm & Hd).
  assert (0 < 2 ^ 31) by lia. unfold year_ok in Hy. unfold finalize_date. rewrite !s32_small by lia.
  rewrite sum_days_spec by lia. unfold day_of_year in *. rewrite wday_of_doy_spec by (unfold year_ok; lia).
  unfold set_wday, set_yday. cbn. f_equal. f_equal. lia.
Qed.

Lemma skip_ws_digit s : isdigit (ch s 0) = true -> skip_ws s = s.
Proof.
  destruct s as [|c s]; [done|]. unfold isdigit. change (ch (c :: s) 0) with c. intros H. cbn [skip_ws].
  rewrite !Z.geb_leb in *. by zdecide.
Qed.

Lemma scan_space_step sub fuel c f x : isspace c = true ->
  scan_loop sub (S fuel) (c :: f) x = scan_loop sub fuel f (p_inp (skip_ws (inp x)) x).
Proof. intros Hc. cbn [scan_loop]. by rewrite Hc. Qed.

Lemma clock_head r rest : isdigit (ch (clock_text r ++ rest) 0) = true.
Proof.
  unfold clock_text. rewrite <- app_assoc. pose proof (show_fixed_digit 1 (tm_hour r)) as H. unfold ch in *.
  by rewrite lookup_app_l by (rewrite show_fixed_length; lia).
Qed.

(** The time stamp, read into any [struct tm]: the six fields of its text. *)
Lemma strptime_stamp r old : printable r ->
  let date := fun t => set_mday (tm_mday r) (set_mon (tm_mon r) (set_year (tm_year r) t)) in
  strptime (Some (stamp r)) (Some fmt_FT) old
  = Some (Some [], finalize_date (date (set_sec (tm_sec r) (set_min (tm_min r) (set_hour (tm_hour r)
      (finalize_date (date old))))))).
Proof.
  intros Hr date. unfold strptime. remember 1%nat as fuel eqn:Ef. cbn [strptime_run].
  change (S (List.length fmt_FT)) with 6%nat. fold (p_start (stamp r) old).
  set (t1 := finalize_date (date old)).
  set (t2 := set_sec (tm_sec r) (set_min (tm_min r) (set_hour (tm_hour r) t1))).
  unfold fmt_FT. erewrite scan_conv_step; [|done|].
  2:{ change (scan_conv (strptime_run fuel) 70) with (composite (strptime_run fuel) fmt_F (p_sync true)).
      unfold composite, stamp, p_start. cbn [inp ptm]. subst fuel. rewrite strptime_date by done. reflexivity. }
  rewrite scan_space_step by done.
  cbn [p_inp p_sync p_tm inp skip_ws]. change ((32 =? 32) || _) with true. cbv iota.
  rewrite <- (app_nil_r (clock_text r)), skip_ws_digit by apply clock_head.
  erewrite scan_conv_step; [|done|].
  2:{ match goal with |- scan_conv _ 84 ?x = _ => change (scan_conv (strptime_run fuel) 84 x) with
        (composite (strptime_run fuel) fmt_T (fun w => w) x) end.
      unfold composite. cbn [p_inp p_sync p_tm inp ptm]. subst fuel. rewrite strptime_clock by done. reflexivity. }
  fold (date old). fold t1. fold t2.
  cbn [scan_loop]. unfold pok. cbn [mbind option_bind].
  unfold close_hour. cbn [p_inp p_sync p_tm p_start hour12 ptm inp have_year have_mon have_mday have_yday yday_val year mon mday pm].
  change (-1 >=? 0) with false. cbv iota.
  assert (Hy : s32 (tm_year t1 + 1900) = tm_year r + 1900).
  { destruct Hr as (Hy & _). unfold t1, date. cbn. by rewrite s32_small by lia. }
  match goal with |- context[close_date ?x _] =>
    replace x with (PS [] t2 true true true false 0 (tm_year r + 1900) (tm_mon r) (tm_mday r) (-1) (-1))
      by (rewrite <- Hy; reflexivity) end.
  by rewrite close_full.
Qed.

Lemma printable_civil r : civil_ok r -> 1000 <= tm_year r + 1900 < 10000 -> printable r.
Proof.
  intros (? & ? & ? & ? & ?) Hy. pose proof (month_len_range (tm_year r + 1900) (tm_mon r + 1) ltac:(lia)).
  unfold printable. lia.
Qed.

(** C37: Printing and reading a time stamp are inverse: for every 32-bit time,
    [strftime] with the format [%F %T] on its UTC fields writes 19 bytes and a
    NUL into any buffer of 20 bytes or more, and [strptime] with the same
    format on those bytes, starting from any [struct tm], consumes them all and
    restores every field, the weekday and the day of the year included, except
    the daylight flag, which it does not touch. *)
Theorem strptime_strftime `{TzEnv} t r buf m old z : time32 t -> _fill_gmtime t = Some r ->
  Z.of_nat (List.length buf) = m -> 20 <= m ->
  exists buf', strftime (Some buf) m (Some fmt_FT) (Some r) z = Some (19, Some buf', z)
    /\ strptime (Some (cut_nul buf')) (Some fmt_FT) old
       = Some (Some [], Tm (tm_sec r) (tm_min r) (tm_hour r) (tm_mday r) (tm_mon r) (tm_year r) (tm_wday r) (tm_yday r)
                           (tm_isdst old)).
Proof.
  intros Ht Hr Hl Hm. destruct (fill_gmtime_spec t Ht) as (r' & E & Hok & Hy & Hi & Hw & Hyd & _).
  rewrite Hr in E. injection E as <-. assert (Hp : printable r) by (apply printable_civil; [done|lia]).
  destruct (strftime_stamp r Hp buf m z Hl Hm) as (buf' & Hf & Hc). exists buf'. split; [done|]. rewrite Hc.
  rewrite strptime_stamp by done. cbv zeta. f_equal. f_equal.
  assert (Hdays : t / 86400 = jan1 (tm_year r + 1900) + day_of_year r).
  { pose proof Hok as (? & ? & ? & _). rewrite <- Hi. unfold instant. Z.to_euclidean_division_equations; lia. }
  rewrite finalize_date_spec by (exact Hok || (unfold year_ok; cbn; lia)).
  unfold set_wday, set_yday, day_of_year in *. cbn. f_equal; rewrite ?Hw, ?Hyd, ?Hdays; [f_equal; lia|lia].
Qed.

#[local] Instance utc_env : TzEnv := {| zone_file := fun _ => None; env_TZ := None |}.

(** 2024-07-01 12:00:00, into a buffer of 20 bytes. *)
Lemma strptime_strftime_witness :
  exists r buf', _fill_gmtime 1719835200 = Some r /\
    strftime (Some (replicate 20 0)) 20 (Some fmt_FT) (Some r) tz0 = Some (19, Some buf', tz0) /\
    strptime (Some (cut_nul buf')) (Some fmt_FT) (Tm 7 7 7 7 7 7 7 7 0) = Some (Some [], r).
Proof.
  destruct (_fill_gmtime 1719835200) as [r|] eqn:E; [|vm_compute in E; discriminate].
  destruct (strptime_strftime 1719835200 r (replicate 20 0) 20 (Tm 7 7 7 7 7 7 7 7 0) tz0) as (buf' & H1 & H2);
    [vm_compute; intuition congruence|exact E|reflexivity|vm_compute; congruence|].
  exists r, buf'. split; [reflexivity|]. split; [exact H1|]. vm_compute in E. injection E as <-. exact H2.
Defined.

End Strftime.
