(* ===== verification/Stdio.v ===== *)
(** * Stdio: the streams of src/stdio.c

    A [FILE] is a descriptor, two flags and one pushed-back character; there is
    no buffer, every read and write is a system call.  The system calls are the
    class [Fds] over the state [F] of the descriptors, with their results as the
    kernel returns them.  [Input] and [Output] state what a readable and a
    writable descriptor promise: the bytes that are still to come, and the bytes
    received so far. *)

From Stdlib Require Import ZArith Lia Bool.
From stdpp Require Import base gmap list numbers.
From S2P Require Import Prelude Monad Memory CString.

Module Stdio.

Definition EOF : Z := -1.
Definition F_EOF : Z := 1.
Definition F_ERR : Z := 2.

Record FILE := File { fd : Z; flags : Z; ungotten : Z }.

Definition with_flags (v : Z) (f : FILE) : FILE := File (fd f) v (ungotten f).
Definition with_ungotten (v : Z) (f : FILE) : FILE := File (fd f) (flags f) v.

(** [sys_read fd n]: the result and the bytes stored; [sys_write fd bytes]. *)
Class Fds (F : Type) := {
  sys_read : Z -> Z -> F -> Z * list Z * F;
  sys_write : Z -> list Z -> F -> Z * F
}.

Section Streams.
Context {F : Type} `{Fds F}.
Variable fuel : nat.

(** The memory, the stream and the descriptors. *)
Record io := Io { bytes : mem; file : FILE; world : F }.

Abbreviation IO := (St io).

Definition set_file (f : FILE -> FILE) : IO unit := modify (fun s => Io (bytes s) (f (file s)) (world s)).

Definition on_mem {A} (c : M A) : IO A :=
  fun s => '(a, m) ← c (bytes s); Some (a, Io m (file s) (world s)).

Definition read_fd (n : Z) : IO (Z * list Z) := fun s =>
  let '(r, bs, w) := sys_read (fd (file s)) n (world s) in Some ((r, bs), Io (bytes s) (file s) w).

Definition write_fd (bs : list Z) : IO Z := fun s =>
  let '(r, w) := sys_write (fd (file s)) bs (world s) in Some (r, Io (bytes s) (file s) w).

Definition feof : IO bool := gets (fun s => negb (Z.land (flags (file s)) F_EOF =? 0)).
Definition ferror : IO bool := gets (fun s => negb (Z.land (flags (file s)) F_ERR =? 0)).
Definition clearerr : IO unit := set_file (fun f => with_flags (Z.land (flags f) (Z.lnot (Z.lor F_EOF F_ERR))) f).
Definition raise_flag (b : Z) : IO unit := set_file (fun f => with_flags (Z.lor (flags f) b) f).

Definition fgetc : IO Z :=
  let* f := gets file in
  if ungotten f >=? 0 then set_file (with_ungotten (-1)) ;;* ret (ungotten f)
  else
    let* (r, bs) := read_fd 1 in
    if r =? 0 then raise_flag F_EOF ;;* ret EOF
    else if r <? 0 then raise_flag F_ERR ;;* ret EOF
    else match bs with c :: _ => ret (u8 c) | [] => fault end.

Definition ungetc (c : Z) : IO Z := set_file (with_ungotten c) ;;* ret c.

Definition fputc (c : Z) : IO Z :=
  let* w := write_fd [u8 c] in
  if negb (w =? 1) then raise_flag F_ERR ;;* ret EOF else ret c.

Definition fputs (s : Z) : IO Z :=
  let* len := on_mem (CString.strlen fuel s) in
  let* bs := on_mem (load_bytes s (Z.to_nat len)) in
  let* w := write_fd bs in
  if w <? 0 then raise_flag F_ERR ;;* ret EOF else ret 0.

(** The byte count is computed in 32 bits. *)
Definition fread (ptr size nmemb : Z) : IO Z :=
  let total := u32 (size * nmemb) in
  if total =? 0 then ret 0
  else
    let* (r, bs) := read_fd total in
    if r <? 0 then raise_flag F_ERR ;;* ret 0
    else if r =? 0 then raise_flag F_EOF ;;* ret 0
    else on_mem (store_bytes ptr (take (Z.to_nat r) bs)) ;;* ret (r / size).

Definition fwrite (ptr size nmemb : Z) : IO Z :=
  let total := u32 (size * nmemb) in
  if total =? 0 then ret 0
  else
    let* bs := on_mem (load_bytes ptr (Z.to_nat total)) in
    let* w := write_fd bs in
    if w <? 0 then raise_flag F_ERR ;;* ret 0 else ret (w / size).

(** The loop variable is [i]. *)
Definition fgets_step (s size i : Z) : IO (Z + Z) :=
  if i <? size - 1 then
    let* c := fgetc in
    if c =? EOF then break i
    else
      on_mem (store8 (s + i) c) ;;*
      if c =? 10 then break (i + 1) else continue (i + 1)
  else break i.

Definition fgets (s size : Z) : IO Z :=
  let* i := loop fuel (fgets_step s size) 0 in
  if i =? 0 then ret 0
  else on_mem (store8 (s + i) 0) ;;* ret s.

(** [getline] with the allocator as an argument: [realloc old n] answers a
    block of [n] bytes that holds what [old] held, or 0.  The line pointer and
    the capacity are in and out parameters. *)
Definition getline_room (realloc : Z -> Z -> M Z) (line n len : Z) : IO (option (Z * Z)) :=
  if len + 1 >=? n then
    let* np := on_mem (realloc line (u32 (n * 2))) in
    if np =? 0 then ret None else ret (Some (np, u32 (n * 2)))
  else ret (Some (line, n)).

Definition getline_finish (line n len : Z) : IO (Z * Z * Z + Z * Z * Z) :=
  on_mem (store8 (line + len) 0) ;;* break (len, line, n).

(** The loop variables are [*lineptr], [*n] and [len]. *)
Definition getline_step (realloc : Z -> Z -> M Z) '(line, n, len) : IO (Z * Z * Z + Z * Z * Z) :=
  let* c := fgetc in
  if c =? EOF then (if len =? 0 then break (-1, line, n) else getline_finish line n len)
  else
    let* r := getline_room realloc line n len in
    match r with
    | None => break (-1, line, n)
    | Some (line, n) =>
        on_mem (store8 (line + len) c) ;;*
        if c =? 10 then getline_finish line n (len + 1) else continue (line, n, len + 1)
    end.

Definition getline (malloc : Z -> M Z) (realloc : Z -> Z -> M Z) (lineptr n : Z) : IO (Z * Z * Z) :=
  let* (lineptr, n) :=
    if lineptr =? 0 then let* p := on_mem (malloc 128) in ret (p, 128) else ret (lineptr, n) in
  if lineptr =? 0 then ret (-1, 0, n)
  else loop fuel (getline_step realloc) (lineptr, n, 0).

(** The sink of the formatter for a stream: write the run, retrying after a
    short write. *)
Definition _file_sink_put (bs : list Z) : IO unit :=
  loop (S (length bs)) (fun bs =>
    match bs with
    | [] => break tt
    | _ =>
        let* w := write_fd bs in
        if w <=? 0 then break tt else continue (drop (Z.to_nat w) bs)
    end) bs.

End Streams.
Arguments io : clear implicits.

(** ** What descriptors promise *)

(** A descriptor from which the bytes [l] and then the end of file are read. *)
Class Input (F : Type) `{Fds F} (pending : F -> Z -> list Z -> Prop) := {
  read_byte w fd b l : pending w fd (b :: l) -> exists w', sys_read fd 1 w = (1, [b], w') /\ pending w' fd l;
  read_end w fd : pending w fd [] -> exists w', sys_read fd 1 w = (0, [], w') /\ pending w' fd []
}.

(** A descriptor that takes at least one byte of every write; [received] is
    what it has taken so far. *)
Class Output (F : Type) `{Fds F} (received : F -> Z -> list Z -> Prop) := {
  write_some w fd l bs : received w fd l -> bs <> [] -> exists k w', sys_write fd bs w = (k, w') /\
    0 < k <= Z.of_nat (length bs) /\ received w' fd (l ++ take (Z.to_nat k) bs)
}.

(** The first line of a text, with its newline. *)
Fixpoint line_of (l : list Z) : list Z :=
  match l with [] => [] | c :: l => if c =? 10 then [10] else c :: line_of l end.

Section Reading.
Context {F : Type} `{Input F pending}.
Variable fuel : nat.
Implicit Types s : io F.

(** The characters a stream will deliver: the one pushed back first. *)
Definition upcoming s (l : list Z) : Prop :=
  Forall byte_ok l /\
  (if ungotten (file s) >=? 0
   then exists l', l = ungotten (file s) :: l' /\ pending (world s) (fd (file s)) l'
   else pending (world s) (fd (file s)) l).

(** The streams that reading leads to. *)
Abbreviation moved s l' := (fun s' => bytes s' = bytes s /\ upcoming s' l').

Lemma wp_fgetc_byte s b l (Q : Z -> io F -> Prop) : upcoming s (b :: l) ->
  (forall s', moved s l s' -> Q b s') -> wp fgetc s Q.
Proof.
  intros [Hb Hp] HQ. apply Forall_cons_1 in Hb as [Hb Hl]. unfold fgetc. wp_pure.
  destruct (ungotten (file s) >=? 0) eqn:Eu.
  - destruct Hp as (l' & [= -> ->] & Hp). unfold set_file. wp_pure. apply HQ. done.
  - destruct (read_byte _ _ _ _ Hp) as (w' & Er & Hp').
    apply wp_bind. eapply wp_run; [unfold read_fd; by rewrite Er|]. cbv iota beta. zdecide. change (1 =? 0) with false. change (1 <? 0) with false.
    wp_pure. rewrite u8_small by (unfold byte_ok in Hb; lia). apply HQ. split; [done|]. split; [done|].
    cbn. by rewrite Eu.
Qed.

Lemma wp_fgetc_end s (Q : Z -> io F -> Prop) : upcoming s [] ->
  (forall s', moved s [] s' -> Q EOF s') -> wp fgetc s Q.
Proof.
  intros [_ Hp] HQ. unfold fgetc. wp_pure. destruct (ungotten (file s) >=? 0) eqn:Eu.
  - by destruct Hp as (l' & [=] & _).
  - destruct (read_end _ _ Hp) as (w' & Er & Hp').
    apply wp_bind. eapply wp_run; [unfold read_fd; by rewrite Er|]. cbv iota beta. change (0 =? 0) with true.
    unfold raise_flag, set_file. wp_pure. apply HQ. split; [done|]. split; [done|]. cbn. by rewrite Eu.
Qed.

Lemma wp_on_mem {A} (c : M A) s (Q : A -> io F -> Prop) :
  wp c (bytes s) (fun a m => Q a (Io m (file s) (world s))) -> wp (on_mem c) s Q.
Proof. unfold wp, on_mem. destruct (c (bytes s)) as [[a m]|]; done. Qed.

Lemma wp_on_mem_store p b m (s : io F) (Q : unit -> io F -> Prop) : bytes s = m -> is_Some (m !! p) -> byte_ok b ->
  Q tt (Io (<[p := b]> m) (file s) (world s)) -> wp (on_mem (store8 p b)) s Q.
Proof.
  intros <- Hp Hb HQ. apply wp_on_mem. apply wp_store8; [done|]. by rewrite u8_small by (unfold byte_ok in Hb; lia).
Qed.

(** The reading loop of [fgets], entered with [i] characters stored. *)
Lemma fgets_loop p size : forall k l i s, upcoming s l -> 0 <= i -> (length l < k)%nat ->
  writable (bytes s) p (Z.to_nat size) ->
  let t := take (Z.to_nat (size - 1 - i)) (line_of l) in
  wp (loop k (fgets_step p size) i) s
    (fun r s' => r = i + Z.of_nat (length t) /\ bytes s' = write_list (p + i) t (bytes s) /\
                 upcoming s' (drop (length t) l)).
Proof.
  induction k as [|k IH]; intros l i s Hu Hi Hk Hw t; [lia|]. apply wp_loop_step. unfold t, fgets_step at 1.
  destruct (Z.ltb_spec i (size - 1)) as [Hlt|Hge].
  2:{ wp_pure. replace (Z.to_nat (size - 1 - i)) with 0%nat by lia. rewrite take_0. cbn [length]. split; [lia|done]. }
  replace (Z.to_nat (size - 1 - i)) with (S (Z.to_nat (size - 1 - (i + 1)))) by lia.
  apply wp_bind. destruct l as [|c l].
  { apply wp_fgetc_end; [done|]. intros s' [Eb Hu']. change (EOF =? EOF) with true. wp_pure.
    cbn. split; [lia|done]. }
  eapply wp_fgetc_byte; [done|]. intros s' [Eb Hu']. destruct Hu as [Hf _]. apply Forall_cons_1 in Hf as [Hc _].
  unfold byte_ok in Hc. unfold EOF. zdecide. wp_pure.
  apply (wp_on_mem_store _ _ (bytes s)); [done| |done|].
  { specialize (Hw (Z.to_nat i) ltac:(lia)). by rewrite Z2Nat.id in Hw by lia. }
  cbn [line_of]. destruct (Z.eqb_spec c 10) as [->|Hn]; wp_pure.
  - rewrite firstn_cons, take_nil. cbn. split; [lia|]. done.
  - rewrite firstn_cons. cbn [length]. cbn [length] in Hk.
    eapply wp_mono; [apply (IH l (i + 1)); [|lia|lia|]|].
    + destruct Hu'; done.
    + cbn. by apply writable_insert.
    + cbn [bytes]. intros r s2 (-> & Em & Hu2). split; [lia|]. split; [|done].
      rewrite Em, write_list_before by lia. cbn [write_list]. by rewrite Z.add_assoc.
Qed.

(** [fgets] on a stream about to deliver the text [l]: the first line of [l]
    (newline included), cut to [size - 1] characters, is stored at [p] with a
    NUL, the rest of memory is untouched, and the stream goes on right after
    what was taken; at the end of the text it answers null and stores nothing. *)
Theorem fgets_line p size l s : upcoming s l -> (length l < fuel)%nat -> 2 <= size -> p <> 0 ->
  writable (bytes s) p (Z.to_nat size) ->
  let t := take (Z.to_nat (size - 1)) (line_of l) in
  wp (fgets fuel p size) s (fun r s' =>
    r = (if bool_decide (l = []) then 0 else p) /\
    bytes s' = (if bool_decide (l = []) then bytes s else write_list p (t ++ [0]) (bytes s)) /\
    upcoming s' (drop (length t) l)).
Proof.
  intros Hu Hl Hs Hp Hw t. unfold fgets. apply wp_bind.
  eapply wp_mono; [apply (fgets_loop p size fuel l 0 s Hu ltac:(lia) Hl Hw)|].
  cbv beta zeta. rewrite !Z.sub_0_r, !Z.add_0_r. fold t. intros r s' (-> & Em & Hu').
  assert (Ht : (length t <= Z.to_nat (size - 1))%nat) by (unfold t; rewrite length_take; lia).
  destruct l as [|c l].
  { assert (t = []) as Et by (unfold t; cbn [line_of]; by rewrite take_nil). rewrite Et in *. cbn [length] in *.
    change (0 + Z.of_nat 0 =? 0) with true. wp_pure. rewrite !bool_decide_eq_true_2 by done. done. }
  assert (Hpos : (0 < length t)%nat).
  { unfold t. rewrite length_take. cbn [line_of]. destruct (c =? 10); cbn [length]; lia. }
  rewrite !bool_decide_eq_false_2 by done. zdecide. wp_pure.
  apply (wp_on_mem_store _ _ (write_list p t (bytes s))); [done| |unfold byte_ok; lia|].
  { apply writable_write_list with (n := Z.to_nat size) (i := length t); [done|lia]. }
  wp_pure. split; [done|]. rewrite write_list_snoc. split; [done|]. by destruct Hu'.
Qed.

(** What [getline] needs of the allocator: requests up to [room] bytes succeed,
    and the new block holds what the old one held. *)
Class Grows (realloc : Z -> Z -> M Z) (room : Z) := {
  realloc_grows m p l n : p <> 0 -> bytes_at m p l -> Z.of_nat (length l) <= n <= room ->
    wp (realloc p n) m (fun q m' => q <> 0 /\ bytes_at m' q l /\ writable m' q (Z.to_nat n))
}.

(** The NUL at the end of a line that is stored. *)
Lemma terminate line n acc s (Q : Z * Z * Z + Z * Z * Z -> io F -> Prop) :
  bytes_at (bytes s) line acc -> writable (bytes s) line (Z.to_nat n) -> Z.of_nat (length acc) < n ->
  (forall s', bytes_at (bytes s') line (acc ++ [0]) -> file s' = file s -> world s' = world s ->
     Q (inr (Z.of_nat (length acc), line, n)) s') ->
  wp (getline_finish line n (Z.of_nat (length acc))) s Q.
Proof.
  intros Hb Hw Hl HQ. apply wp_bind. apply (wp_on_mem_store _ _ (bytes s)); [done|apply Hw; lia|unfold byte_ok; lia|].
  wp_pure. apply HQ; [|done..]. cbn [bytes]. apply bytes_at_app. split; [apply bytes_at_insert; [lia|done]|].
  apply bytes_at_cons. split; [apply lookup_insert_eq|apply bytes_at_nil].
Qed.

Lemma upcoming_stream s s' l : file s' = file s -> world s' = world s -> upcoming s l -> upcoming s' l.
Proof. unfold upcoming. by intros -> ->. Qed.

Context (malloc : Z -> M Z) (realloc : Z -> Z -> M Z) (room : Z) `{!Grows realloc room}.

(** Room for one more character. *)
Lemma getline_grow line n acc s (Q : option (Z * Z) -> io F -> Prop) :
  line <> 0 -> bytes_at (bytes s) line acc -> writable (bytes s) line (Z.to_nat n) -> Z.of_nat (length acc) < n ->
  2 * n <= room \/ Z.of_nat (length acc) + 1 < n -> room < 2 ^ 32 ->
  (forall line' n' s', line' <> 0 -> bytes_at (bytes s') line' acc -> writable (bytes s') line' (Z.to_nat n') ->
     Z.of_nat (length acc) + 1 < n' -> n' <= Z.max n (2 * (Z.of_nat (length acc) + 1)) ->
     file s' = file s -> world s' = world s -> Q (Some (line', n')) s') ->
  wp (getline_room realloc line n (Z.of_nat (length acc))) s Q.
Proof.
  intros Hl Hb Hw Hn Hroom Hr HQ. unfold getline_room. rewrite Z.geb_leb.
  destruct (Z.leb_spec n (Z.of_nat (length acc) + 1)) as [Hle|Hgt]; [|wp_pure; apply HQ; done || lia].
  rewrite u32_small by lia. apply wp_bind, wp_on_mem.
  eapply wp_mono; [apply realloc_grows; [done|exact Hb|lia]|]. intros q m' (Hq & Hb' & Hw'). zdecide. wp_pure.
  apply HQ; cbn; done || lia.
Qed.

(** The loop, with [acc] already in the block. *)
Lemma getline_loop : forall k l line n acc s, upcoming s l -> (length l < k)%nat ->
  line <> 0 -> bytes_at (bytes s) line acc -> writable (bytes s) line (Z.to_nat n) -> Z.of_nat (length acc) < n ->
  acc ++ l <> [] -> 2 * (Z.of_nat (length acc + length (line_of l)) + 1) <= room -> room < 2 ^ 32 ->
  wp (loop k (getline_step realloc) (line, n, Z.of_nat (length acc))) s
    (fun '(r, line', n') s' => r = Z.of_nat (length acc + length (line_of l)) /\
       bytes_at (bytes s') line' (acc ++ line_of l ++ [0]) /\ upcoming s' (drop (length (line_of l)) l)).
Proof.
  induction k as [|k IH]; intros l line n acc s Hu Hk Hl Hb Hw Hn Hne Hroom Hr; [lia|]. apply wp_loop_step.
  apply wp_bind. destruct l as [|c l].
  { apply wp_fgetc_end; [done|]. intros s' [Eb Hu']. change (EOF =? EOF) with true. cbv iota.
    assert (0 < length acc)%nat by (destruct acc; [done|cbn; lia]). zdecide.
    apply terminate; [by rewrite Eb..|done|]. intros s2 Hb2 Ef Ew. cbn [line_of length drop app].
    split; [lia|]. split; [done|]. by apply (upcoming_stream s'). }
  eapply wp_fgetc_byte; [done|]. intros s' [Eb Hu']. destruct Hu as [Hf _]. apply Forall_cons_1 in Hf as [Hc _].
  pose proof Hc as Hc2. unfold byte_ok in Hc2. unfold EOF. zdecide. apply wp_bind.
  assert (Hlen : (1 <= length (line_of (c :: l)))%nat) by (cbn [line_of]; destruct (c =? 10); cbn; lia).
  apply (getline_grow _ _ acc); [done|by rewrite Eb..|done|lia|done|].
  intros line' n' s2 Hl' Hb' Hw' Hn' _ Ef Ew. apply wp_bind.
  apply (wp_on_mem_store _ _ (bytes s2)); [done|apply Hw'; lia|done|].
  set (s3 := Io _ _ _).
  assert (Hb3 : bytes_at (bytes s3) line' (acc ++ [c])).
  { apply bytes_at_app. split; [apply bytes_at_insert; [lia|done]|].
    apply bytes_at_cons. split; [apply lookup_insert_eq|apply bytes_at_nil]. }
  assert (Hu3 : upcoming s3 l) by (by apply (upcoming_stream s')).
  assert (Hw3 : writable (bytes s3) line' (Z.to_nat n')) by (by apply writable_insert).
  replace (Z.of_nat (length acc) + 1) with (Z.of_nat (length (acc ++ [c]))) by (rewrite length_app; cbn; lia).
  assert (Hn3 : Z.of_nat (length (acc ++ [c])) < n') by (rewrite length_app; cbn; lia).
  cbn [line_of] in *. destruct (Z.eqb_spec c 10) as [->|Hc10].
  - apply terminate; [done..|]. intros s4 Hb4 Ef4 Ew4. rewrite length_app. cbn [length drop].
    split; [lia|]. rewrite <- app_assoc in Hb4. split; [done|]. by apply (upcoming_stream s3).
  - wp_pure. cbn [length] in *. eapply wp_mono; [apply (IH l line' n' (acc ++ [c])); try done|].
    + lia.
    + by destruct acc.
    + rewrite length_app. cbn [length]. lia.
    + intros [[r line2] n2] s4 (-> & Hb4 & Hu4). rewrite length_app. cbn [length drop].
      rewrite <- app_assoc in Hb4. split; [lia|done].
Qed.

(** [getline] reads one whole line of any length: on a stream about to
    deliver the non-empty text [l], with a block of [n] bytes and an allocator
    that grants what the line needs, it answers the length of the first line of
    [l] and a block that holds exactly that line and a NUL, growing the block as
    needed, and leaves the stream after the line. *)
Theorem getline_line l line n s : upcoming s l -> (length l < fuel)%nat -> l <> [] ->
  line <> 0 -> writable (bytes s) line (Z.to_nat n) -> 0 < n ->
  2 * (Z.of_nat (length (line_of l)) + 1) <= room -> room < 2 ^ 32 ->
  wp (getline fuel malloc realloc line n) s (fun '(r, line', n') s' =>
    r = Z.of_nat (length (line_of l)) /\ bytes_at (bytes s') line' (line_of l ++ [0]) /\
    upcoming s' (drop (length (line_of l)) l)).
Proof.
  intros Hu Hk Hne Hl Hw Hn Hroom Hr. unfold getline. zdecide. wp_pure. zdecide.
  by apply (getline_loop fuel l line n []).
Qed.
End Reading.

(** ** Writing a run *)

Section Writing.
Context {F : Type} `{Output F received}.
Implicit Types s : io F.

(** Short writes are retried until the whole run is out. *)
Lemma file_sink_put_all bs l s : received (world s) (fd (file s)) l ->
  wp (_file_sink_put bs) s (fun _ s' => bytes s' = bytes s /\ file s' = file s /\
    received (world s') (fd (file s)) (l ++ bs)).
Proof.
  intros Hr. unfold _file_sink_put.
  set (k := S (length bs)). assert (Hk : (length bs < k)%nat) by (unfold k; lia). clearbody k.
  revert bs l s Hr Hk. induction k as [|k IH]; intros bs l s Hr Hk; [lia|]. apply wp_loop_step.
  destruct bs as [|b bs]; [wp_pure; by rewrite app_nil_r|]. apply wp_bind.
  destruct (write_some _ _ _ (b :: bs) Hr ltac:(done)) as (w & x & Ew & Hw & Hr').
  eapply wp_run; [unfold write_fd; by rewrite Ew|]. cbv iota beta. zdecide. wp_pure.
  eapply wp_mono; [apply (IH _ (l ++ take (Z.to_nat w) (b :: bs))); [done|rewrite length_drop; cbn [length] in *; lia]|].
  intros [] s' (Eb & Ef & Hs'). cbn [bytes file] in *. split; [done|]. split; [done|].
  by rewrite <- app_assoc, take_drop in Hs'.
Qed.
End Writing.

(** ** A concrete descriptor

    A pipe that delivers its first list and appends what is written to its
    second, three bytes of a write at most. *)

#[export] Instance pipe_fds : Fds (list Z * list Z) := {|
  sys_read _ n w := (Z.min n (Z.of_nat (length w.1)), take (Z.to_nat n) w.1, (drop (Z.to_nat n) w.1, w.2));
  sys_write _ bs w := (Z.min 3 (Z.of_nat (length bs)), (w.1, w.2 ++ take 3 bs))
|}.

Definition pipe_pending (w : list Z * list Z) (_ : Z) (l : list Z) : Prop := w.1 = l.
Definition pipe_received (w : list Z * list Z) (_ : Z) (l : list Z) : Prop := w.2 = l.

#[export] Instance pipe_input : Input (list Z * list Z) pipe_pending.
Proof.
  split.
  - intros [i o] fd b l Hp. unfold pipe_pending in *. cbn [fst] in Hp. subst i. exists (l, o). split; [|done].
    unfold sys_read, pipe_fds. cbn [fst snd length]. by replace (Z.min 1 _) with 1 by lia.
  - intros [i o] fd Hp. unfold pipe_pending in *. cbn [fst] in Hp. subst i. by exists ([], o).
Qed.

#[export] Instance pipe_output : Output (list Z * list Z) pipe_received.
Proof.
  split. unfold pipe_received. intros [i o] fd l bs <- Hb. eexists _, _. split; [reflexivity|]. cbn [snd].
  assert (0 < length bs)%nat by (destruct bs; [done|cbn; lia]). split; [lia|]. f_equal.
  destruct (decide (length bs <= 3)%nat).
  - by rewrite !take_ge by lia.
  - by replace (Z.to_nat (Z.min 3 (Z.of_nat (length bs)))) with 3%nat by lia.
Qed.

(** Two lines, "ab" and "c", into a buffer of 8 bytes at 100. *)
Definition two_lines : io (list Z * list Z) :=
  Io (write_list 100 (replicate 64 7) ∅) (File 0 0 (-1)) ([97; 98; 10; 99; 10], []).

Lemma two_lines_upcoming : upcoming (pending := pipe_pending) two_lines [97; 98; 10; 99; 10].
Proof. split; [repeat (constructor; [by split|]); constructor|done]. Qed.

Lemma fgets_line_witness :
  wp (fgets 10 100 8) two_lines (fun r s' => r = 100 /\ bytes s' = write_list 100 [97; 98; 10; 0] (bytes two_lines) /\
    upcoming (pending := pipe_pending) s' [99; 10]).
Proof.
  apply (fgets_line 10 100 8 [97; 98; 10; 99; 10] two_lines); [apply two_lines_upcoming|cbn; lia|lia|lia|].
  solve_writable.
Defined.

(** An allocator that extends a block in place, up to 64 bytes. *)
Definition extend (p n : Z) : M Z := fun m =>
  if n <=? 64 then Some (p, write_list p (map (fun i => default 0 (m !! (p + Z.of_nat i))) (seq 0 (Z.to_nat n))) m)
  else Some (0, m).

#[export] Instance extend_grows : Grows extend 64.
Proof.
  split. intros m p l n Hp Hb Hn. unfold wp, extend. zdecide. split; [done|]. split.
  - intros i b Hi. pose proof (lookup_lt_Some _ _ _ Hi).
    rewrite lookup_write_list, length_map, length_seq, bool_decide_eq_true_2 by lia.
    replace (Z.to_nat (p + Z.of_nat i - p)) with i by lia.
    rewrite list_lookup_fmap, lookup_seq_lt by lia. cbn. by rewrite (Hb i b Hi).
  - intros i Hi. rewrite lookup_write_list, length_map, length_seq, bool_decide_eq_true_2 by lia.
    apply lookup_lt_is_Some_2. rewrite length_map, length_seq. lia.
Qed.

(** The same two lines, into a block of 2 bytes that has to grow. *)
Lemma getline_line_witness :
  wp (getline 10 (fun _ => ret 0) extend 100 2) two_lines (fun '(r, line, n) s' => r = 3 /\
    bytes_at (bytes s') line [97; 98; 10; 0] /\ upcoming (pending := pipe_pending) s' [99; 10]).
Proof.
  apply (getline_line 10 (fun _ => ret 0) extend 64 [97; 98; 10; 99; 10] 100 2 two_lines);
    [apply two_lines_upcoming|cbn; lia|done|lia| |lia|vm_compute; congruence|vm_compute; reflexivity].
  solve_writable.
Defined.

End Stdio.
