(* ===== verification/Strerror.v ===== *)
(** * Strerror: the error messages, src/errno_str.c

    The table is given as the entries its designated initialisers name; every
    other entry of the 134 is null. *)

From Stdlib Require Import ZArith Lia Bool Ascii String.
From stdpp Require Import base gmap list numbers.
From S2P Require Import Prelude Monad Memory.

Module Strerror.

(** The characters of a C string literal. *)
Definition text (s : string) : list Z := List.map (fun a => Z.of_nat (nat_of_ascii a)) (list_ascii_of_string s).

Definition _err_map : list (Z * string) :=
  [
   (1, "Operation not permitted");
   (2, "No such file or directory");
   (3, "No such process");
   (4, "Interrupted system call");
   (5, "I/O error");
   (6, "No such device or address");
   (7, "Argument list too long");
   (8, "Exec format error");
   (9, "Bad file number");
   (10, "No child processes");
   (11, "Try again");
   (12, "Out of memory");
   (13, "Permission denied");
   (14, "Bad address");
   (15, "Block device required");
   (16, "Device or resource busy");
   (17, "File exists");
   (18, "Cross-device link");
   (19, "No such device");
   (20, "Not a directory");
   (21, "Is a directory");
   (22, "Invalid argument");
   (23, "File table overflow");
   (24, "Too many open files");
   (25, "Not a typewriter");
   (26, "Text file busy");
   (27, "File too large");
   (28, "No space left on device");
   (29, "Illegal seek");
   (30, "Read-only file system");
   (31, "Too many links");
   (32, "Broken pipe");
   (33, "Math argument out of domain of func");
   (34, "Math result not representable");
   (35, "Resource deadlock would occur");
   (36, "File name too long");
   (37, "No record locks available");
   (38, "Function not implemented");
   (39, "Directory not empty");
   (40, "Too many symbolic links encountered");
   (42, "No message of desired type");
   (43, "Identifier removed");
   (61, "No data available");
   (62, "Timer expired");
   (75, "Value too large for defined data type");
   (84, "Illegal byte sequence");
   (88, "Socket operation on non-socket");
   (89, "Destination address required");
   (90, "Message too long");
   (91, "Protocol wrong type for socket");
   (92, "Protocol not available");
   (93, "Protocol not supported");
   (94, "Socket type not supported");
   (95, "Operation not supported");
   (96, "Protocol family not supported");
   (97, "Address family not supported by protocol");
   (98, "Address already in use");
   (99, "Cannot assign requested address");
   (100, "Network is down");
   (101, "Network is unreachable");
   (102, "Network dropped connection because of reset");
   (103, "Software caused connection abort");
   (104, "Connection reset by peer");
   (105, "No buffer space available");
   (106, "Transport endpoint is already connected");
   (107, "Transport endpoint is not connected");
   (108, "Cannot send after transport endpoint shutdown");
   (109, "Too many references: cannot splice");
   (110, "Connection timed out");
   (111, "Connection refused");
   (112, "Host is down");
   (113, "No route to host");
   (114, "Operation already in progress");
   (115, "Operation now in progress");
   (116, "Stale NFS file handle");
   (122, "Disk quota exceeded");
   (125, "Operation canceled");
   (130, "Owner died");
   (131, "State not recoverable")]%string.

Fixpoint entry (errnum : Z) (l : list (Z * string)) : option string :=
  match l with
  | [] => None
  | (k, s) :: l => if k =? errnum then Some s else entry errnum l
  end.

Definition strerror (errnum : Z) : list Z :=
  if (errnum >=? 0) && (errnum <? 134) then
    match entry errnum _err_map with Some s => text s | None => text "Unknown error" end
  else text "Unknown error".

Definition EINVAL : Z := 22.
Definition ERANGE : Z := 34.

(** The copy loop writes [buf[i] = msg[i]]. *)
Definition strerror_r (errnum buf buflen : Z) : M Z :=
  if (buf =? 0) || (buflen =? 0) then ret EINVAL
  else
    let msg := strerror errnum in
    let n := Z.of_nat (List.length msg) in
    let copy := if n <? buflen - 1 then n else buflen - 1 in
    store_bytes buf (take (Z.to_nat copy) msg) ;;*
    store8 (buf + copy) 0 ;;*
    ret (if copy =? n then 0 else ERANGE).

(** Every message is plain, printable text. *)
Lemma strerror_text errnum : Forall (fun c => 32 <= c < 127) (strerror errnum) /\
  (0 < List.length (strerror errnum) <= 45)%nat.
Proof.
  assert (H : List.forallb (fun '(_, s) => forallb (fun c => (32 <=? c) && (c <? 127)) (text s)
    && (0 <? List.length (text s))%nat && (List.length (text s) <=? 45)%nat) ((0, "Unknown error"%string) :: _err_map) = true)
    by (vm_compute; reflexivity).
  assert (He : exists k s, (k, s) ∈ (0, "Unknown error"%string) :: _err_map /\ strerror errnum = text s).
  { unfold strerror. set (l := _err_map). assert (Hl : forall s, entry errnum l = Some s -> exists k, (k, s) ∈ l).
    { clear. induction l as [|[k s] l IH]; [done|]. cbn [entry]. intros s' E. destruct (k =? errnum).
      - injection E as <-. exists k. by apply list_elem_of_here.
      - destruct (IH s' E) as [k' Hk]. exists k'. by apply list_elem_of_further. }
    destruct ((errnum >=? 0) && (errnum <? 134)); [destruct (entry errnum l) as [s|] eqn:E|].
    - destruct (Hl s eq_refl) as [k Hk]. exists k, s. split; [by apply list_elem_of_further|done].
    - exists 0, "Unknown error"%string. split; [by apply list_elem_of_here|done].
    - exists 0, "Unknown error"%string. split; [by apply list_elem_of_here|done]. }
  destruct He as (k & s & Hin & ->). rewrite forallb_forall in H. apply list_elem_of_In in Hin.
  specialize (H _ Hin). cbv beta iota in H. apply andb_prop in H as [H H3]. apply andb_prop in H as [H1 H2].
  apply Nat.ltb_lt in H2. apply Nat.leb_le in H3. split; [|lia].
  apply List.Forall_forall. intros c Hc. rewrite forallb_forall in H1. specialize (H1 c Hc).
  apply andb_prop in H1 as [? ?]. lia.
Qed.

(** [strerror_r] stays inside the caller's buffer: it stores as much of the
    message as fits and a NUL, touches nothing else, and answers 0 exactly when
    the whole message is there. *)
Theorem strerror_r_bounded errnum buf buflen m : buf <> 0 -> 0 < buflen -> writable m buf (Z.to_nat buflen) ->
  let msg := strerror errnum in
  strerror_r errnum buf buflen m
  = Some (if Z.of_nat (List.length msg) <? buflen then 0 else ERANGE,
          write_list buf (take (Z.to_nat (buflen - 1)) msg ++ [0]) m).
Proof.
  intros Hb Hl Hw msg. destruct (strerror_text errnum) as [Ht Hlen]. fold msg in Ht, Hlen.
  unfold strerror_r. fold msg. zdecide. cbn [orb].
  set (n := Z.of_nat (List.length msg)). set (copy := if n <? buflen - 1 then n else buflen - 1).
  assert (Hc : take (Z.to_nat copy) msg = take (Z.to_nat (buflen - 1)) msg).
  { unfold copy. destruct (Z.ltb_spec n (buflen - 1)); [|done]. by rewrite !take_ge by lia. }
  assert (Hcl : List.length (take (Z.to_nat (buflen - 1)) msg) = Z.to_nat copy).
  { rewrite length_take. unfold copy. destruct (Z.ltb_spec n (buflen - 1)); lia. }
  assert (Hcb : 0 <= copy < buflen) by (unfold copy; destruct (Z.ltb_spec n (buflen - 1)); lia).
  rewrite Hc. apply wp_eq. apply wp_bind. eapply wp_run.
  { apply store_bytes_eq; [eapply writable_le; [|exact Hw]; lia|].
    apply Forall_take. refine (List.Forall_impl _ _ Ht). unfold byte_ok. lia. }
  apply wp_bind, wp_store8.
  { replace (buf + copy) with (buf + Z.of_nat (Z.to_nat copy)) by lia. apply writable_write_list with (n := Z.to_nat buflen); [done|lia]. }
  wp_pure. rewrite write_list_snoc, Hcl, Z2Nat.id by lia. split; [|done].
  unfold copy. destruct (Z.ltb_spec n (buflen - 1)); zcases; lia || done.
Qed.

End Strerror.
