(* ===== verification/Printf.v ===== *)
(** * Printf: the formatter of src/stdio.c

    The whole family runs through [_vfmt_core], which walks the format twice: a
    first walk finds the type of each argument position, the arguments are then
    taken off the list, and the second walk formats.  Output goes through a
    staging area of 128 bytes to a sink: the [Sink] of a state [S] is the memory
    in it, its [put] the function that receives a staged run.  [vsnprintf] is
    the formatter with the buffer sink, [vfprintf] the one with the stream sink
    of [Stdio].

    A format is the list of its characters without the NUL.  The variable
    arguments are the 32-bit words of the caller's stack ([long long] and
    [double] take two, [long double] three); reading past them, an index outside
    the arrays of 64 slots, and a write outside the 80 bytes of [tmp] are faults.
    The digits of a floating-point value are the parameter [FloatText]. *)

From Stdlib Require Import ZArith Lia Bool.
From stdpp Require Import base gmap list numbers.
From S2P Require Import Prelude Monad Memory CString Stdio Strerror.

Module Printf.

Abbreviation str := (list Z).

(** ** Numbers *)

Definition digit_char (upper : bool) (d : Z) : Z := if d <? 10 then 48 + d else (if upper then 55 else 87) + d.

(** [while (v) { tmp[n++] = dig[v % base]; v /= base; }] *)
Fixpoint udigits (fuel : nat) (v base : Z) (upper : bool) : str :=
  match fuel with
  | O => []
  | S fuel => if v =? 0 then [] else digit_char upper (v mod base) :: udigits fuel (v / base) base upper
  end.

Definition _fmt_uint (v base : Z) (upper : bool) : str :=
  rev (if v =? 0 then [48] else udigits 40 v base upper).

(** Base 16 by halves; any other base prints in base 10. *)
Definition _fmt_u64 (v base : Z) (upper : bool) : str :=
  if base =? 16 then
    let hi := Z.shiftr v 32 in
    let lo := Z.land v 0xffffffff in
    let low := if lo =? 0 then [48] else udigits 8 lo 16 upper in
    rev (if hi =? 0 then low else low ++ replicate (8 - length low) 48 ++ udigits 8 hi 16 upper)
  else rev (if v =? 0 then [48] else udigits 40 v 10 false).

(** ** Directives *)

Inductive kind := K_NONE | K_INT | K_UINT | K_LONG | K_ULONG | K_LLONG | K_ULLONG | K_DBL | K_LDBL | K_PTR.
Inductive lenmod := LEN_NONE | LEN_H | LEN_HH | LEN_L | LEN_LL | LEN_LD | LEN_Z | LEN_T | LEN_J.

#[export] Instance kind_eq_dec : EqDecision kind.
Proof. solve_decision. Defined.
#[export] Instance lenmod_eq_dec : EqDecision lenmod.
Proof. solve_decision. Defined.

Definition _FMT_MAXARGS : Z := 64.

(** [LEN_LL] and [LEN_J]; [LEN_L], [LEN_Z] and [LEN_T]. *)
Definition wide (len : lenmod) : bool := match len with LEN_LL | LEN_J => true | _ => false end.
Definition long (len : lenmod) : bool := match len with LEN_L | LEN_Z | LEN_T => true | _ => false end.

Definition is_signed (c : Z) : bool := (c =? 100) || (c =? 105).
Definition is_unsigned (c : Z) : bool := (c =? 117) || (c =? 111) || (c =? 120) || (c =? 88).
Definition is_int (c : Z) : bool := is_signed c || is_unsigned c.
Definition is_float (c : Z) : bool :=
  (c =? 102) || (c =? 70) || (c =? 101) || (c =? 69) || (c =? 103) || (c =? 71).

Definition _arg_kind (conv : Z) (len : lenmod) : kind :=
  if is_signed conv then (if wide len then K_LLONG else if long len then K_LONG else K_INT)
  else if is_unsigned conv then (if wide len then K_ULLONG else if long len then K_ULONG else K_UINT)
  else if conv =? 99 then K_INT
  else if is_float conv then (match len with LEN_LD => K_LDBL | _ => K_DBL end)
  else if (conv =? 115) || (conv =? 112) || (conv =? 110) then K_PTR
  else K_NONE.

(** [width] and [prec] are -1 when absent, -2 when taken from the list. *)
Record spec := Spec {
  zero : bool; minus : bool; plus : bool; space : bool; hash : bool; group : bool;
  width : Z; prec : Z; wpos : Z; ppos : Z; pos : Z; len : lenmod; conv : Z
}.

(** [*f], 0 at the end. *)
Definition cur (f : str) : Z := default 0 (head f).
Definition digit (c : Z) : bool := (48 <=? c) && (c <=? 57).

Fixpoint scan_from (n : Z) (f : str) : Z * str :=
  match f with
  | c :: f' => if digit c then scan_from (s32 (n * 10 + (c - 48))) f' else (n, f)
  | [] => (n, f)
  end.

Definition _scan_uint (f : str) : Z * str := scan_from 0 f.

(** An index [n$]; 0 when there is none. *)
Definition index (f : str) : Z * str :=
  if (49 <=? cur f) && (cur f <=? 57) then
    let '(n, g) := _scan_uint f in
    if cur g =? 36 then (n, tail g) else (0, f)
  else (0, f).

Record fflags := Flags { f_zero : bool; f_minus : bool; f_plus : bool; f_space : bool; f_hash : bool; f_group : bool }.

Fixpoint read_flags (x : fflags) (f : str) : fflags * str :=
  match f with
  | c :: f' =>
      let '(Flags z m p s h g) := x in
      if c =? 48 then read_flags (Flags true m p s h g) f'
      else if c =? 45 then read_flags (Flags z true p s h g) f'
      else if c =? 43 then read_flags (Flags z m true s h g) f'
      else if c =? 32 then read_flags (Flags z m p true h g) f'
      else if c =? 35 then read_flags (Flags z m p s true g) f'
      else if c =? 39 then read_flags (Flags z m p s h true) f'
      else (x, f)
  | [] => (x, f)
  end.

(** The value and the index of a star, for a width and for what follows the
    point of a precision; [dflt] is the value when there is neither. *)
Definition read_size (dflt : Z) (f : str) : Z * Z * str :=
  if cur f =? 42 then let '(i, g) := index (tail f) in (-2, i, g)
  else if digit (cur f) then let '(n, g) := _scan_uint f in (n, 0, g)
  else (dflt, 0, f).

Definition read_len (f : str) : lenmod * str :=
  let c := cur f in
  if c =? 104 then (if cur (tail f) =? 104 then (LEN_HH, tail (tail f)) else (LEN_H, tail f))
  else if c =? 108 then (if cur (tail f) =? 108 then (LEN_LL, tail (tail f)) else (LEN_L, tail f))
  else if c =? 76 then (LEN_LD, tail f)
  else if c =? 122 then (LEN_Z, tail f)
  else if c =? 116 then (LEN_T, tail f)
  else if c =? 106 then (LEN_J, tail f)
  else if c =? 113 then (LEN_LL, tail f)
  else (LEN_NONE, f).

(** [None]: the format ends inside the directive. *)
Definition _parse_spec (f : str) : option (spec * str) :=
  let '(p, f) := index f in
  let '(x, f) := read_flags (Flags false false false false false false) f in
  let '(w, wp, f) := read_size (-1) f in
  let '(pr, pp, f) := if cur f =? 46 then read_size 0 (tail f) else (-1, 0, f) in
  let '(l, f) := read_len f in
  match f with
  | [] => None
  | c :: f => Some (Spec (f_zero x) (f_minus x) (f_plus x) (f_space x) (f_hash x) (f_group x) w pr wp pp p l c, f)
  end.

(** ** Arguments *)

(** The first walk: the next position, the highest one, the kinds so far. *)
Record walk := Walk { argpos : Z; maxpos : Z; kinds : list kind }.

(** One position is used for an argument of kind [k]; [i] is its index, 0 for
    the next in order. *)
Definition use (i : Z) (k : kind) (x : walk) : walk :=
  let '(j, a) := if i =? 0 then (argpos x, argpos x + 1) else (i, argpos x) in
  Walk a (if j >? maxpos x then j else maxpos x)
    (if (j >? 0) && (j <? _FMT_MAXARGS) then <[Z.to_nat j := k]> (kinds x) else kinds x).

Definition collect_spec (s : spec) (x : walk) : walk :=
  let x := if width s =? -2 then use (wpos s) K_INT x else x in
  let x := if prec s =? -2 then use (ppos s) K_INT x else x in
  match _arg_kind (conv s) (len s) with
  | K_NONE => if pos s >? maxpos x then Walk (argpos x) (pos s) (kinds x) else x
  | k => use (pos s) k x
  end.

Fixpoint collect_loop (fuel : nat) (f : str) (x : walk) : option walk :=
  match fuel with
  | O => None
  | S fuel =>
      match f with
      | [] => Some x
      | c :: f =>
          if negb (c =? 37) then collect_loop fuel f x
          else match _parse_spec f with
               | None => collect_loop fuel f x
               | Some (s, f) => collect_loop fuel f (collect_spec s x)
               end
      end
  end.

(** Positions 1 to [max], unnamed ones as pointers; outside the array a fault. *)
Definition _collect_args (format : str) : option (list kind) :=
  x ← collect_loop (S (length format)) format (Walk 1 0 (replicate 64 K_NONE));
  if maxpos x >=? _FMT_MAXARGS then None
  else Some (map (fun k => match k with K_NONE => K_PTR | k => k end) (take (Z.to_nat (maxpos x)) (tail (kinds x)))).

(** A slot: the 64 bits of [i] and [u], the bits of a [double] or of a [long
    double] widened to [ld], or a pointer. *)
Inductive slot := SInt (v : Z) | SDbl (bits : Z) | SLdbl (bits : Z) | SPtr (p : Z).

Definition slot_i (x : slot) : option Z := match x with SInt v => Some (s64 v) | _ => None end.
Definition slot_u (x : slot) : option Z := match x with SInt v => Some (u64 v) | _ => None end.
Definition slot_p (x : slot) : option Z := match x with SPtr p => Some p | _ => None end.

(** [va_arg] over the words of the stack. *)
Definition va_word (ws : list Z) : option (Z * list Z) := match ws with w :: ws => Some (u32 w, ws) | [] => None end.
Definition va_two (ws : list Z) : option (Z * list Z) :=
  '(a, ws) ← va_word ws; '(b, ws) ← va_word ws; Some (a + 2 ^ 32 * b, ws).

Definition va_slot (k : kind) (ws : list Z) : option (slot * list Z) :=
  match k with
  | K_INT | K_LONG => '(a, ws) ← va_word ws; Some (SInt (s32 a), ws)
  | K_UINT | K_ULONG => '(a, ws) ← va_word ws; Some (SInt a, ws)
  | K_LLONG | K_ULLONG => '(a, ws) ← va_two ws; Some (SInt a, ws)
  | K_DBL => '(a, ws) ← va_two ws; Some (SDbl a, ws)
  | K_LDBL => '(a, ws) ← va_two ws; '(b, ws) ← va_word ws; Some (SLdbl (a + 2 ^ 64 * b), ws)
  | K_PTR => '(a, ws) ← va_word ws; Some (SPtr a, ws)
  | K_NONE => Some (SInt 0, ws)
  end.

Fixpoint _fill_args (ks : list kind) (ws : list Z) : option (list slot) :=
  match ks with
  | [] => Some []
  | k :: ks => '(x, ws) ← va_slot k ws; xs ← _fill_args ks ws; Some (x :: xs)
  end.

(** [slot[i]]: positions start at 1. *)
Definition slot_at (xs : list slot) (i : Z) : option slot := if i <? 1 then None else xs !! Z.to_nat (i - 1).

(** The slot of an index, or of the next position. *)
Definition next_slot (xs : list slot) (i a : Z) : option (slot * Z) :=
  if i =? 0 then x ← slot_at xs a; Some (x, a + 1) else x ← slot_at xs i; Some (x, a).

(** Left-justify flag, width and next position. *)
Definition width_of (xs : list slot) (s : spec) (a : Z) : option (bool * Z * Z) :=
  if width s =? -2 then
    '(x, a) ← next_slot xs (wpos s) a; v ← slot_i x;
    let w := s32 v in
    Some (if w <? 0 then (true, s32 (- w), a) else (minus s, w, a))
  else Some (minus s, if width s <? 0 then 0 else width s, a).

Definition prec_of (xs : list slot) (s : spec) (a : Z) : option (Z * Z) :=
  if prec s =? -2 then
    '(x, a) ← next_slot xs (ppos s) a; v ← slot_i x;
    let p := s32 v in
    Some (if p <? 0 then -1 else p, a)
  else Some (if prec s <? 0 then -1 else prec s, a).

(** ** The text of a number *)

(** The sign and the digits of the magnitude of a floating-point slot. *)
Class FloatText := float_text : slot -> Z -> Z -> bool * str.

Section Number.
Context `{FloatText}.

(** [(signed char)v], [(short)v], [(unsigned char)v], [(unsigned short)v]. *)
Definition s_trunc (l : lenmod) (v : Z) : Z := match l with LEN_HH => s8 v | LEN_H => wraps 16 v | _ => v end.
Definition u_trunc (l : lenmod) (v : Z) : Z := match l with LEN_HH => u8 v | LEN_H => wrapu 16 v | _ => v end.

(** By the length modifier, through the 64-bit or the 32-bit routine. *)
Definition fmt_len (l : lenmod) (v base : Z) (upper : bool) : str :=
  if wide l then _fmt_u64 v base upper else _fmt_uint (u32 v) base upper.

(** [neg] and [tmp]. *)
Definition number (s : spec) (pr : Z) (x : slot) : option (bool * str) :=
  let c := conv s in
  if is_signed c then
    v ← slot_i x;
    let v := s_trunc (len s) v in
    let u := if v <? 0 then u64 (u64 (- (v + 1)) + 1) else u64 v in
    Some (v <? 0, fmt_len (len s) u 10 false)
  else if c =? 117 then v ← slot_u x; Some (false, fmt_len (len s) (u_trunc (len s) v) 10 false)
  else if c =? 111 then v ← slot_u x; Some (false, fmt_len (len s) v 8 false)
  else if (c =? 120) || (c =? 88) then v ← slot_u x; Some (false, fmt_len (len s) v 16 (c =? 88))
  else if c =? 112 then
    p ← slot_p x;
    Some (false, if p =? 0 then [40; 110; 105; 108; 41] else 48 :: 120 :: _fmt_uint p 16 false)
  else
    match x with
    | SDbl _ | SLdbl _ => Some (float_text x (if pr <? 0 then 6 else pr) c)
    | _ => None
    end.

(** Minimum digits of an integer: the zero flag and [tmp] after it.  The shift
    writes [tmp[len - 1 + z]], which the array must have. *)
Definition precise (c pr : Z) (z : bool) (tmp : str) : option (bool * str) :=
  if (pr >=? 0) && is_int c then
    let n := Z.of_nat (length tmp) in
    if (pr =? 0) && bool_decide (tmp = [48]) then Some (false, [])
    else if pr >? n then
      let k := Z.min (pr - n) 78 in
      if n + k <=? 80 then Some (false, replicate (Z.to_nat k) 48 ++ tmp) else None
    else Some (false, tmp)
  else Some (z, tmp).

(** [#] on a floating-point conversion: a decimal point before the exponent or
    at the end. *)
Fixpoint before_exp (l : str) : str * str :=
  match l with
  | [] => ([], [])
  | c :: l' => if (c =? 101) || (c =? 69) then ([], l) else let '(a, b) := before_exp l' in (c :: a, b)
  end.

Definition pointed (h : bool) (c : Z) (tmp : str) : str :=
  if h && is_float c && existsb digit tmp && negb (existsb (Z.eqb 46) tmp) && (Z.of_nat (length tmp) <? 79)
  then let '(a, b) := before_exp tmp in a ++ 46 :: b
  else tmp.

(** The C locale: no thousands separator. *)
Definition thousands_sep : str := [].
Definition grouping : str := [].

(** The digits in groups, from the right; [rev] has 80 bytes. *)
Fixpoint group_loop (sep : str) (g since : Z) (rdig acc : str) : str :=
  match rdig with
  | [] => acc
  | d :: rdig =>
      if Z.of_nat (length acc) <? 80 - Z.of_nat (length sep) - 1 then
        if since =? g then group_loop sep g 1 rdig ((acc ++ rev sep) ++ [d])
        else group_loop sep g (since + 1) rdig (acc ++ [d])
      else acc
  end.

Definition _group_digits (cap : Z) (dig sep grp : str) : str :=
  let n := Z.of_nat (length dig) in
  let g := cur grp in
  let all := if (cur sep =? 0) || (g =? 0) || (u8 g =? 127) then dig
             else rev (group_loop sep (u8 g) 0 (rev dig) []) in
  take (Z.to_nat (Z.min (Z.of_nat (length all)) (cap - 1))) all.

Definition grouped (g : bool) (c : Z) (tmp : str) : str :=
  if g && (is_signed c || (c =? 117)) && negb (cur thousands_sep =? 0)
  then _group_digits 80 tmp thousands_sep grouping else tmp.

(** [#] on octal and hexadecimal: the prefix and [tmp]. *)
Definition hashed (h : bool) (c : Z) (tmp : str) : str * str :=
  let nonzero := existsb (fun d => negb (d =? 48)) tmp in
  if h && (c =? 111) then
    ([], match tmp with
         | [] => [48]
         | d :: _ => if nonzero && negb (d =? 48) && (Z.of_nat (length tmp) <? 79) then 48 :: tmp else tmp
         end)
  else if h && ((c =? 120) || (c =? 88)) then ((if nonzero then [48; if c =? 88 then 88 else 120] else []), tmp)
  else ([], tmp).

Definition sign (s : spec) (neg : bool) : str :=
  if is_signed (conv s) || is_float (conv s)
  then (if neg then [45] else if plus s then [43] else if space s then [32] else []) else [].

End Number.

(** ** Output *)

Record fout := Fout { count : Z; stage : str }.

(** What the formatter needs of its caller: the memory and the sink. *)
Class Sink (S : Type) := { memory : forall A, M A -> St S A; put : str -> St S unit }.
Arguments memory {S _ A} _.

Section Core.
Context {S : Type} `{Sink S} `{FloatText}.
(** [strlen]'s fuel and [errno]. *)
Variables (fuel : nat) (errno : Z).

Abbreviation OM := (St (S * fout)).

Definition sink_do {A} (c : St S A) : OM A := fun '(x, o) => '(a, x) ← c x; Some (a, (x, o)).
Definition need {A} (r : option A) : OM A := match r with Some a => ret a | None => fault end.

Definition _o_flush : OM unit :=
  let* o := gets snd in
  match stage o with
  | [] => ret tt
  | l => sink_do (put l) ;;* modify (fun '(x, o) => (x, Fout (s32 (count o + Z.of_nat (length l))) []))
  end.

(** [o->stage[o->n++] = c], inside the array. *)
Definition stage_push (c : Z) : OM unit := fun '(x, o) =>
  if (length (stage o) <? 128)%nat then Some (tt, (x, Fout (count o) (stage o ++ [u8 c]))) else None.

Definition _o_char (c : Z) : OM unit :=
  let* o := gets snd in
  (if bool_decide (length (stage o) = 128%nat) then _o_flush else ret tt) ;;*
  stage_push c.

Definition emit (l : str) : OM unit := for_each _o_char l.

(** [%n]: the bytes of the count, by the length modifier. *)
Definition le_bytes (k : nat) (v : Z) : list Z := map (fun i => u8 (Z.shiftr v (8 * Z.of_nat i))) (seq 0 k).

Definition store_count (l : lenmod) (p : Z) : OM unit :=
  let* o := gets snd in
  let nc := s32 (count o + Z.of_nat (length (stage o))) in
  if p =? 0 then ret tt
  else sink_do (memory (store_bytes p (le_bytes (match l with LEN_HH => 1 | LEN_H => 2 | LEN_LL => 8 | _ => 4 end) nc))).

(** What is printed between the padding: characters, or [n] bytes of memory. *)
Inductive body := BText (l : str) | BMem (p n : Z).

Definition body_len (b : body) : Z := match b with BText l => Z.of_nat (length l) | BMem _ n => n end.

Definition emit_body (b : body) : OM unit :=
  match b with
  | BText l => emit l
  | BMem p n => for_each (fun i => let* c := sink_do (memory (load8 (p + i))) in _o_char c) (seqZ 0 n)
  end.

(** The string of [%s] and [%m], cut to the precision. *)
Definition cut (pr : Z) (b : body) : body :=
  if (pr >=? 0) && (body_len b >? pr) then
    match b with BText l => BText (take (Z.to_nat pr) l) | BMem p _ => BMem p pr end
  else b.

Definition emit_field (mi ze : bool) (w : Z) (lead : str) (b : body) : OM unit :=
  let pad := s32 (w - (body_len b + Z.of_nat (length lead))) in
  (if mi then emit lead
   else if ze then emit lead ;;* emit (replicate (Z.to_nat pad) 48)
   else emit (replicate (Z.to_nat pad) 32) ;;* emit lead) ;;*
  emit_body b ;;*
  if mi then emit (replicate (Z.to_nat pad) 32) else ret tt.

(** The conversions that take an argument. *)
Definition convert_slot (s : spec) (mi : bool) (w pr : Z) (x : slot) : OM unit :=
  let c := conv s in
  if c =? 110 then let* p := need (slot_p x) in store_count (len s) p
  else if c =? 99 then let* v := need (slot_i x) in emit_field mi false w [] (BText [u8 v])
  else if c =? 115 then
    let* p := need (slot_p x) in
    let* b := if p =? 0 then ret (BText [40; 110; 117; 108; 108; 41])
              else (let* n := sink_do (memory (CString.strlen fuel p)) in ret (BMem p n)) in
    emit_field mi false w [] (cut pr b)
  else
    let* (neg, tmp) := need (number s pr x) in
    let* (ze, tmp) := need (precise c pr (zero s) tmp) in
    let '(pfx, tmp) := hashed (hash s) c (grouped (group s) c (pointed (hash s) c tmp)) in
    emit_field mi ze w (sign s neg ++ pfx) (BText tmp).

(** The conversion with its effective flag, width and precision; the result is
    the next position. *)
Definition convert_spec (xs : list slot) (s : spec) (mi : bool) (w pr a : Z) : OM Z :=
  let c := conv s in
  match _arg_kind c (len s) with
  | K_NONE =>
      (if c =? 109 then emit_field mi false w [] (cut pr (BText (Strerror.strerror errno)))
       else if c =? 37 then _o_char 37
       else _o_char 37 ;;* _o_char c) ;;*
      ret a
  | _ =>
      let* (x, a) := need (next_slot xs (pos s) a) in
      convert_slot s mi w pr x ;;*
      ret a
  end.

(** One directive. *)
Definition directive (xs : list slot) (s : spec) (a : Z) : OM Z :=
  let* (mi, w, a) := need (width_of xs s a) in
  let* (pr, a) := need (prec_of xs s a) in
  convert_spec xs s mi w pr a.

Fixpoint format_loop (xs : list slot) (k : nat) (f : str) (a : Z) : OM unit :=
  match k with
  | O => fault
  | Datatypes.S k =>
      match f with
      | [] => ret tt
      | c :: f =>
          if negb (c =? 37) then _o_char c ;;* format_loop xs k f a
          else match _parse_spec f with
               | None => _o_char 37 ;;* format_loop xs k f a
               | Some (s, f) => let* a := directive xs s a in format_loop xs k f a
               end
      end
  end.

Definition _vfmt_core (format : str) (args : list Z) : OM Z :=
  let* ks := need (_collect_args format) in
  let* xs := need (_fill_args ks args) in
  format_loop xs (Datatypes.S (length format)) format 1 ;;*
  _o_flush ;;*
  gets (fun '(_, o) => count o).

(** A run from an empty staging area. *)
Definition run_core (format : str) (args : list Z) : St S Z := fun x =>
  '(r, (x, _)) ← _vfmt_core format args (x, Fout 0 []); Some (r, x).

End Core.

(** ** The family *)

Record _buf_ctx_t := Buf { dst : Z; size : Z; bpos : Z }.

Definition buf_put_char (c : Z) : St (mem * _buf_ctx_t) unit := fun '(m, b) =>
  '(_, m) ← (if (size b >? 0) && (bpos b <? size b) then store8 (dst b + bpos b) c else ret tt) m;
  Some (tt, (m, Buf (dst b) (size b) (u32 (bpos b + 1)))).

Definition _buf_sink_put (l : str) : St (mem * _buf_ctx_t) unit := for_each buf_put_char l.

#[export] Instance buf_sink : Sink (mem * _buf_ctx_t) := {|
  memory A c := fun '(m, b) => '(a, m) ← c m; Some (a, (m, b));
  put := _buf_sink_put
|}.

#[export] Instance file_sink {F} `{Stdio.Fds F} : Sink (Stdio.io F) := {|
  memory A c := Stdio.on_mem c;
  put := Stdio._file_sink_put
|}.

Section Family.
Context `{FloatText}.
Variables (fuel : nat) (errno : Z).

Definition vsnprintf (d sz : Z) (format : str) (ap : list Z) : M Z := fun m =>
  '(_, (m, b)) ← run_core fuel errno format ap (m, Buf d sz 0);
  '(_, m) ← (if sz >? 0 then store8 (d + (if bpos b <? sz then bpos b else sz - 1)) 0 else ret tt) m;
  Some (s32 (bpos b), m).

Definition snprintf (d sz : Z) (format : str) (ap : list Z) : M Z := vsnprintf d sz format ap.
Definition vsprintf (d : Z) (format : str) (ap : list Z) : M Z := vsnprintf d (u32 (-1)) format ap.
Definition sprintf (d : Z) (format : str) (ap : list Z) : M Z := vsnprintf d (u32 (-1)) format ap.

(** The result and [*strp]; the allocator is an argument. *)
Definition vasprintf (malloc : Z -> M Z) (format : str) (ap : list Z) : M (Z * Z) :=
  let* want := vsnprintf 0 0 format ap in
  if want <? 0 then ret (-1, 0)
  else
    let* buf := malloc (u32 (want + 1)) in
    if buf =? 0 then ret (-1, 0)
    else
      let* got := vsnprintf buf (u32 (want + 1)) format ap in
      if got <? 0 then ret (-1, 0) else ret (got, buf).

Definition asprintf (malloc : Z -> M Z) (format : str) (ap : list Z) : M (Z * Z) := vasprintf malloc format ap.

Section Streams.
Context {F : Type} `{Stdio.Fds F}.

Definition vfprintf (format : str) (ap : list Z) : St (Stdio.io F) Z := run_core fuel errno format ap.
Definition fprintf (format : str) (ap : list Z) : St (Stdio.io F) Z := vfprintf format ap.

(** On standard output: the stream is the [FILE] of descriptor 1. *)
Definition printf (format : str) (ap : list Z) : St (mem * F) Z := fun '(m, w) =>
  '(r, s) ← vfprintf format ap (Stdio.Io m (Stdio.File 1 0 (-1)) w); Some (r, (Stdio.bytes s, Stdio.world s)).

(** A stack [FILE] around a descriptor. *)
Definition vdprintf (fd : Z) (format : str) (ap : list Z) : St (mem * F) Z := fun '(m, w) =>
  '(r, s) ← vfprintf format ap (Stdio.Io m (Stdio.File fd 0 0) w); Some (r, (Stdio.bytes s, Stdio.world s)).

Definition dprintf (fd : Z) (format : str) (ap : list Z) : St (mem * F) Z := vdprintf fd format ap.
End Streams.
End Family.
End Printf.
