(* ===== verification/PrintfSpec.v ===== *)
(** * PrintfSpec: what the printf family prints

    [render] is a reference semantics of formats in the C standard's terms: a
    format is a list of items, an item a literal character or a directive with
    its flags, width, precision, length and conversion, and arguments are typed
    values.  The theorems say that the formatter of [Printf] prints exactly that
    text for the written form of the items and the arguments' words, through any
    sink that keeps its promises, and instantiate this for buffers and streams. *)

From Stdlib Require Import ZArith Lia Bool.
From stdpp Require Import base gmap list numbers.
From S2P Require Import Prelude Monad Memory CString Stdio Strerror Printf.

Module PrintfSpec.
Import Printf.

(** ** Numerals *)

(** Most significant digit first, without leading zeros; [k] bounds the digits. *)
Fixpoint shown (k : nat) (base : Z) (upper : bool) (n : Z) : str :=
  match k with
  | O => []
  | S k => if n <? base then [digit_char upper n] else shown k base upper (n / base) ++ [digit_char upper (n mod base)]
  end.

Definition numeral (base : Z) (upper : bool) (n : Z) : str := shown 64 base upper n.

(** The reference semantics of a directive. *)

Inductive size := Absent | Num (n : Z) | Star.

Record dir := Dir {
  d_flags : fflags; d_width : size; d_prec : option size; d_len : lenmod; d_conv : Z
}.

Inductive item := Lit (c : Z) | Conv (d : dir).

(** A typed argument; a string comes with its characters. *)
Inductive arg := AInt (v : Z) | AUInt (v : Z) | ALong (v : Z) | AULong (v : Z) | ALLong (v : Z) | AULLong (v : Z)
  | APtr (p : Z) | AStr (p : Z) (l : str).

Definition field (mi ze : bool) (w : Z) (lead body : str) : str :=
  let pad := Z.to_nat (w - Z.of_nat (length lead + length body)) in
  if mi then lead ++ body ++ replicate pad 32
  else if ze then lead ++ replicate pad 48 ++ body
  else replicate pad 32 ++ lead ++ body.

(** At least [pr] digits; no digits for zero with precision 0. *)
Definition int_digits (pr : option Z) (base : Z) (upper : bool) (n : Z) : str :=
  match pr with
  | None => numeral base upper n
  | Some p =>
      let ds := if (p =? 0) && (n =? 0) then [] else numeral base upper n in
      replicate (Z.to_nat (p - Z.of_nat (length ds))) 48 ++ ds
  end.

Definition no_prec (pr : option Z) : bool := match pr with None => true | Some _ => false end.

Definition signed_text (x : fflags) (mi : bool) (w : Z) (pr : option Z) (v : Z) : str :=
  let lead := if v <? 0 then [45] else if f_plus x then [43] else if f_space x then [32] else [] in
  field mi (f_zero x && no_prec pr) w lead (int_digits pr 10 false (Z.abs v)).

(** The alternate form of octal: a first digit of zero. *)
Definition lead_zero (ds : str) : str :=
  match ds with d :: _ => if d =? 48 then ds else 48 :: ds | [] => [48] end.

Definition unsigned_text (x : fflags) (mi : bool) (w : Z) (pr : option Z) (c n : Z) : str :=
  let base := if c =? 117 then 10 else if c =? 111 then 8 else 16 in
  let ds := int_digits pr base (c =? 88) n in
  let ds := if f_hash x && (c =? 111) then lead_zero ds else ds in
  let lead := if f_hash x && (base =? 16) && negb (n =? 0) then [48; if c =? 88 then 88 else 120] else [] in
  field mi (f_zero x && no_prec pr) w lead ds.

Definition string_text (mi : bool) (w : Z) (pr : option Z) (l : str) : str :=
  field mi false w [] (match pr with None => l | Some p => take (Z.to_nat p) l end).

(** The values of the integer conversions by the length modifier.  The
    combinations that the formatter does not follow the standard on are left
    out: [h] and [hh] with [o], [x] and [X], and the 64-bit lengths with [o]. *)
Definition signed_value (l : lenmod) (a : arg) : option Z :=
  match l, a with
  | LEN_NONE, AInt v | LEN_LD, AInt v => Some v
  | LEN_H, AInt v => Some (wraps 16 v)
  | LEN_HH, AInt v => Some (s8 v)
  | LEN_L, ALong v | LEN_Z, ALong v | LEN_T, ALong v => Some v
  | LEN_LL, ALLong v | LEN_J, ALLong v => Some v
  | _, _ => None
  end.

Definition unsigned_value (c : Z) (l : lenmod) (a : arg) : option Z :=
  match l, a with
  | LEN_NONE, AUInt v | LEN_LD, AUInt v => Some v
  | LEN_H, AUInt v => if c =? 117 then Some (wrapu 16 v) else None
  | LEN_HH, AUInt v => if c =? 117 then Some (u8 v) else None
  | LEN_L, AULong v | LEN_Z, AULong v | LEN_T, AULong v => Some v
  | LEN_LL, AULLong v | LEN_J, AULLong v => if c =? 111 then None else Some v
  | _, _ => None
  end.

(** The effective width (with the left-justify flag) and precision.  Precisions
    above 79 overflow the formatter's scratch array. *)
Definition eff_width (x : fflags) (w : size) (args : list arg) : option (bool * Z * list arg) :=
  match w, args with
  | Absent, _ => Some (f_minus x, 0, args)
  | Num n, _ => Some (f_minus x, n, args)
  | Star, AInt v :: args => if v =? - 2 ^ 31 then None else Some (if v <? 0 then (true, - v, args) else (f_minus x, v, args))
  | Star, _ => None
  end.

Definition eff_prec (p : option size) (args : list arg) : option (option Z * list arg) :=
  match p, args with
  | None, _ => Some (None, args)
  | Some Absent, _ => Some (Some 0, args)
  | Some (Num n), _ => Some (Some n, args)
  | Some Star, AInt v :: args => Some (if v <? 0 then None else Some v, args)
  | Some Star, _ => None
  end.

Definition prec_fits (pr : option Z) : bool := match pr with None => true | Some p => p <=? 79 end.

(** The text of one conversion and the arguments left. *)
Definition render_arg (x : fflags) (mi : bool) (w : Z) (pr : option Z) (l : lenmod) (c : Z) (a : arg) : option str :=
  if is_signed c then
    v ← signed_value l a; if prec_fits pr then Some (signed_text x mi w pr v) else None
  else if is_unsigned c then
    v ← unsigned_value c l a; if prec_fits pr then Some (unsigned_text x mi w pr c v) else None
  else if c =? 99 then match a with AInt v => Some (field mi false w [] [u8 v]) | _ => None end
  else if c =? 115 then
    match a with
    | AStr _ t => Some (string_text mi w pr t)
    | APtr 0 => Some (string_text mi w pr [40; 110; 117; 108; 108; 41])
    | _ => None
    end
  else if c =? 112 then
    match a with
    | APtr p => Some (field mi (f_zero x) w [] (if p =? 0 then [40; 110; 105; 108; 41] else 48 :: 120 :: numeral 16 false p))
    | _ => None
    end
  else None.

Section Render.
Variable errno : Z.

Definition render_dir (d : dir) (args : list arg) : option (str * list arg) :=
  '(mi, w, args) ← eff_width (d_flags d) (d_width d) args;
  '(pr, args) ← eff_prec (d_prec d) args;
  if d_conv d =? 37 then Some ([37], args)
  else if d_conv d =? 109 then Some (string_text mi w pr (Strerror.strerror errno), args)
  else
    match args with
    | a :: args => t ← render_arg (d_flags d) mi w pr (d_len d) (d_conv d) a; Some (t, args)
    | [] => None
    end.

(** The text of a format with all its arguments. *)
Fixpoint render (its : list item) (args : list arg) : option str :=
  match its with
  | [] => match args with [] => Some [] | _ => None end
  | Lit c :: its => t ← render its args; Some (c :: t)
  | Conv d :: its => '(t, args) ← render_dir d args; u ← render its args; Some (t ++ u)
  end.
End Render.

(** ** The written form *)

Definition show_flags (x : fflags) : str :=
  (if f_zero x then [48] else []) ++ (if f_minus x then [45] else []) ++ (if f_plus x then [43] else []) ++
  (if f_space x then [32] else []) ++ (if f_hash x then [35] else []) ++ (if f_group x then [39] else []).

Definition show_size (w : size) : str :=
  match w with Absent => [] | Num n => numeral 10 false n | Star => [42] end.

Definition show_len (l : lenmod) : str :=
  match l with
  | LEN_NONE => [] | LEN_H => [104] | LEN_HH => [104; 104] | LEN_L => [108] | LEN_LL => [108; 108]
  | LEN_LD => [76] | LEN_Z => [122] | LEN_T => [116] | LEN_J => [106]
  end.

Definition show_dir (d : dir) : str :=
  show_flags (d_flags d) ++ show_size (d_width d) ++
  match d_prec d with None => [] | Some p => 46 :: show_size p end ++
  show_len (d_len d) ++ [d_conv d].

Definition show_item (i : item) : str := match i with Lit c => [c] | Conv d => 37 :: show_dir d end.
Definition show (its : list item) : str := flat_map show_item its.

(** What can be written so that it reads back: literals other than the percent
    sign, a width that does not start with the zero flag, the conversions. *)
Definition width_ok (w : size) : Prop := match w with Num n => 0 < n < 2 ^ 31 | _ => True end.
Definition prec_ok (p : option size) : Prop := match p with Some (Num n) => 0 <= n < 2 ^ 31 | _ => True end.
Definition conversions : list Z := [100; 105; 117; 111; 120; 88; 99; 115; 112; 109; 37].
Definition item_ok (i : item) : Prop :=
  match i with
  | Lit c => byte_ok c /\ c <> 37
  | Conv d => width_ok (d_width d) /\ prec_ok (d_prec d) /\ d_conv d ∈ conversions
  end.

(** The words of an argument, and its range. *)
Definition arg_words (a : arg) : list Z :=
  match a with
  | AInt v | AUInt v | ALong v | AULong v => [u32 v]
  | ALLong v | AULLong v => [u64 v mod 2 ^ 32; u64 v / 2 ^ 32]
  | APtr p | AStr p _ => [u32 p]
  end.

Definition arg_ok (a : arg) : Prop :=
  match a with
  | AInt v | ALong v => - 2 ^ 31 <= v < 2 ^ 31
  | AUInt v | AULong v | APtr v => 0 <= v < 2 ^ 32
  | ALLong v => - 2 ^ 63 <= v < 2 ^ 63
  | AULLong v => 0 <= v < 2 ^ 64
  | AStr p l => 0 < p < 2 ^ 32 /\ Z.of_nat (length l) < 2 ^ 31
  end.

(** ** Numbers *)

Section Digits.
Variables (base : Z) (upper : bool).
Hypothesis Hbase : 2 <= base <= 16.

Lemma udigits_shown f : forall k v, 0 < v < base ^ Z.of_nat f -> (f <= k)%nat ->
  rev (udigits f v base upper) = shown k base upper v.
Proof.
  induction f as [|f IH]; intros k v Hv Hk; [change (base ^ Z.of_nat 0) with 1 in Hv; lia|].
  destruct k as [|k]; [lia|]. rewrite Nat2Z.inj_succ, Z.pow_succ_r in Hv by lia.
  cbn [udigits shown]. zdecide. cbn [rev]. destruct (Z.ltb_spec v base) as [Hs|Hs].
  - rewrite Z.div_small, Z.mod_small by lia. by destruct f.
  - rewrite (IH k); [done| |lia]. split; [apply Z.div_str_pos; lia|apply Z.div_lt_upper_bound; lia].
Qed.

(** The digits of a number in two parts, the lower one padded. *)
Lemma udigits_split k : forall f hi lo, 0 < hi -> 0 <= lo < base ^ Z.of_nat k ->
  udigits (k + f) (hi * base ^ Z.of_nat k + lo) base upper
  = (udigits k lo base upper ++ replicate (k - length (udigits k lo base upper)) 48) ++ udigits f hi base upper.
Proof.
  induction k as [|k IH]; intros f hi lo Hhi Hlo.
  - change (base ^ Z.of_nat 0) with 1 in *. cbn [Nat.add udigits app length Nat.sub replicate]. f_equal. lia.
  - rewrite Nat2Z.inj_succ, Z.pow_succ_r in * by lia. cbn [Nat.add udigits].
    assert (0 < base ^ Z.of_nat k) by (apply Z.pow_pos_nonneg; lia).
    assert (Hd : (hi * (base * base ^ Z.of_nat k) + lo) / base = hi * base ^ Z.of_nat k + lo / base)
      by (replace (hi * (base * base ^ Z.of_nat k) + lo) with (lo + hi * base ^ Z.of_nat k * base) by lia;
          rewrite Z.div_add by lia; lia).
    assert (Hm : (hi * (base * base ^ Z.of_nat k) + lo) mod base = lo mod base)
      by (replace (hi * (base * base ^ Z.of_nat k) + lo) with (lo + hi * base ^ Z.of_nat k * base) by lia;
          by rewrite Z.mod_add by lia).
    destruct (Z.eqb_spec (hi * (base * base ^ Z.of_nat k) + lo) 0) as [E|_]; [nia|].
    rewrite Hd, Hm, IH by (first [lia|split; [apply Z.div_pos; lia|apply Z.div_lt_upper_bound; lia]]).
    destruct (Z.eqb_spec lo 0) as [->|Hlo0]; [|done].
    rewrite Z.div_0_l, Z.mod_0_l by lia. by destruct k.
Qed.
End Digits.

Lemma numeral_0 base upper : 2 <= base -> numeral base upper 0 = [48].
Proof. intros. unfold numeral. cbn [shown]. by zdecide. Qed.

Lemma fmt_uint_numeral v base upper : 2 <= base <= 16 -> 0 <= v < 2 ^ 32 ->
  _fmt_uint v base upper = numeral base upper v.
Proof.
  intros Hb Hv. unfold _fmt_uint. destruct (Z.eqb_spec v 0) as [->|Hn]; [by rewrite numeral_0 by lia|].
  apply udigits_shown; [done| |lia]. split; [lia|]. apply (Z.lt_le_trans _ (2 ^ 40)); [lia|]. apply Z.pow_le_mono_l. lia.
Qed.

(** The halves of the 64-bit routine. *)
Lemma fmt_u64_numeral v base upper : base = 16 \/ base = 10 /\ upper = false -> 0 <= v < 2 ^ 64 ->
  _fmt_u64 v base upper = numeral base upper v.
Proof.
  intros Hb Hv. unfold _fmt_u64. destruct (Z.eqb_spec base 16) as [->|Hn].
  2:{ destruct Hb as [?|[-> ->]]; [lia|]. destruct (Z.eqb_spec v 0) as [->|]; [by rewrite numeral_0 by lia|].
      apply udigits_shown; [lia| |lia]. split; [lia|]. apply (Z.lt_le_trans _ (10 ^ 20)); [lia|]. apply Z.pow_le_mono_r; lia. }
  rewrite Z.shiftr_div_pow2 by lia. change 0xffffffff with (Z.ones 32). rewrite Z.land_ones by lia.
  pose proof (Z.div_mod v (2 ^ 32) ltac:(lia)) as Ev. pose proof (Z.mod_pos_bound v (2 ^ 32) ltac:(lia)) as Hlo.
  set (hi := v / 2 ^ 32) in *. set (lo := v mod 2 ^ 32) in *. assert (Hhi : 0 <= hi < 2 ^ 32) by (unfold hi; split; [apply Z.div_pos; lia|apply Z.div_lt_upper_bound; lia]).
  destruct (Z.eqb_spec hi 0) as [E0|Hh].
  - replace v with lo by lia. destruct (Z.eqb_spec lo 0) as [->|Hl]; [by rewrite numeral_0 by lia|].
    apply udigits_shown; [lia|split; [lia|change (16 ^ Z.of_nat 8) with (2 ^ 32); lia]|lia].
  - unfold numeral. rewrite <- (udigits_shown 16 upper ltac:(lia) 16) by (try lia; change (16 ^ Z.of_nat 16) with (2 ^ 64); lia).
    f_equal. replace v with (hi * 16 ^ Z.of_nat 8 + lo) by (change (16 ^ Z.of_nat 8) with (2 ^ 32); lia).
    change 16%nat with (8 + 8)%nat. rewrite (udigits_split 16 upper ltac:(lia) 8 8 hi lo)
      by (try lia; change (16 ^ Z.of_nat 8) with (2 ^ 32); lia).
    rewrite <- app_assoc. destruct (Z.eqb_spec lo 0) as [->|]; done.
Qed.

(** *** Shape of numerals *)

Section Shape.
Variables (base : Z) (upper : bool).
Hypothesis Hbase : 2 <= base <= 16.

Lemma digit_char_range d : 0 <= d < 16 -> 48 <= digit_char upper d < 128 /\ (digit_char upper d = 48 <-> d = 0).
Proof. intros Hd. unfold digit_char. destruct (Z.ltb_spec d 10), upper; lia. Qed.

Lemma shown_bytes k : forall n, 0 <= n -> Forall byte_ok (shown k base upper n).
Proof.
  induction k as [|k IH]; intros n Hn; [constructor|]. cbn [shown]. pose proof (Z.mod_pos_bound n base ltac:(lia)).
  destruct (Z.ltb_spec n base).
  - constructor; [|constructor]. pose proof (digit_char_range n). unfold byte_ok. lia.
  - apply Forall_app. split; [apply IH, Z.div_pos; lia|]. constructor; [|constructor].
    pose proof (digit_char_range (n mod base)). unfold byte_ok. lia.
Qed.

Lemma shown_length k K : forall n, 0 <= n < base ^ Z.of_nat k -> (0 < k <= K)%nat ->
  (1 <= length (shown K base upper n) <= k)%nat.
Proof.
  revert K. induction k as [|k IH]; intros K n Hn Hk; [lia|]. destruct K as [|K]; [lia|]. cbn [shown].
  rewrite Nat2Z.inj_succ, Z.pow_succ_r in Hn by lia. destruct (Z.ltb_spec n base); [cbn; lia|].
  rewrite length_app. cbn [length]. destruct k as [|k]; [change (base ^ Z.of_nat 0) with 1 in Hn; lia|].
  specialize (IH K (n / base) ltac:(split; [apply Z.div_pos; lia|apply Z.div_lt_upper_bound; lia]) ltac:(lia)). lia.
Qed.

(** The first digit of a positive number is not zero. *)
Lemma shown_head k : forall n, 0 < n < base ^ Z.of_nat k ->
  exists d l, shown k base upper n = d :: l /\ d <> 48.
Proof.
  induction k as [|k IH]; intros n Hn; [change (base ^ Z.of_nat 0) with 1 in Hn; lia|]. cbn [shown].
  rewrite Nat2Z.inj_succ, Z.pow_succ_r in Hn by lia. destruct (Z.ltb_spec n base).
  - exists (digit_char upper n), []. split; [done|]. pose proof (digit_char_range n ltac:(lia)). lia.
  - destruct (IH (n / base)) as (d & l & -> & Hd); [split; [apply Z.div_str_pos; lia|apply Z.div_lt_upper_bound; lia]|].
    by exists d, (l ++ [digit_char upper (n mod base)]).
Qed.

Lemma wide_enough n : n < 2 ^ 64 -> n < base ^ Z.of_nat 64.
Proof. intros Hn. apply (Z.lt_le_trans _ (2 ^ 64)); [done|]. apply Z.pow_le_mono_l. lia. Qed.

Lemma numeral_48 n : 0 <= n < 2 ^ 64 -> bool_decide (numeral base upper n = [48]) = (n =? 0).
Proof.
  intros Hn. destruct (Z.eqb_spec n 0) as [->|H0].
  - rewrite numeral_0 by lia. by rewrite bool_decide_eq_true_2.
  - apply bool_decide_eq_false_2. destruct (shown_head 64 n) as (d & l & E & Hd); [pose proof (wide_enough n); lia|].
    unfold numeral. rewrite E. congruence.
Qed.

Lemma numeral_length n : 0 <= n < 2 ^ 64 -> (1 <= length (numeral base upper n) <= 64)%nat.
Proof. intros Hn. apply (shown_length 64 64); [pose proof (wide_enough n); lia|lia]. Qed.

Lemma existsb_zeros k : existsb (fun d => negb (d =? 48)) (replicate k 48) = false.
Proof. induction k; [done|]. cbn. by rewrite IHk. Qed.

Lemma int_digits_nonzero pr n : 0 <= n < 2 ^ 64 ->
  existsb (fun d => negb (d =? 48)) (int_digits pr base upper n) = negb (n =? 0).
Proof.
  intros Hn. assert (Hd : existsb (fun d => negb (d =? 48)) (numeral base upper n) = negb (n =? 0)).
  { destruct (Z.eqb_spec n 0) as [->|H0]; [by rewrite numeral_0 by lia|].
    destruct (shown_head 64 n) as (d & l & E & Hd); [pose proof (wide_enough n); lia|].
    unfold numeral. rewrite E. cbn [existsb]. by zdecide. }
  unfold int_digits. destruct pr as [p|]; [|done]. rewrite existsb_app, existsb_zeros. cbn [orb].
  destruct (Z.eqb_spec n 0) as [->|H0]; [|by rewrite andb_false_r].
  rewrite andb_true_r. destruct (p =? 0); [done|]. by rewrite numeral_0 by lia.
Qed.

Lemma int_digits_bytes pr n : 0 <= n -> Forall byte_ok (int_digits pr base upper n).
Proof.
  intros Hn. unfold int_digits. destruct pr as [p|]; [|by apply shown_bytes]. apply Forall_app. split.
  - apply Forall_replicate. unfold byte_ok. lia.
  - destruct ((p =? 0) && (n =? 0)); [constructor|by apply shown_bytes].
Qed.

(** The precision of an integer conversion. *)
Lemma precise_int c pr z n : is_int c = true -> prec_fits pr = true ->
  (match pr with Some p => 0 <= p | None => True end) -> 0 <= n < 2 ^ 64 ->
  precise c (match pr with None => -1 | Some p => p end) z (numeral base upper n)
  = Some (z && no_prec pr, int_digits pr base upper n).
Proof.
  intros Hc Hf Hp Hn. pose proof (numeral_length n Hn) as Hlen. unfold precise, int_digits. rewrite Hc.
  destruct pr as [p|]; cbn [no_prec prec_fits] in *; [|change (-1 >=? 0) with false; cbn [andb]; by rewrite andb_true_r].
  rewrite Z.geb_leb, Z.gtb_ltb. zdecide. cbn [andb]. rewrite numeral_48, andb_false_r by done.
  destruct (Z.eqb_spec p 0) as [->|Hp0]; cbn [andb].
  - destruct (n =? 0); [done|]. zdecide. by replace (Z.to_nat _) with 0%nat by lia.
  - destruct (Z.ltb_spec (Z.of_nat (length (numeral base upper n))) p) as [Hl|Hl].
    + rewrite Z.min_l by lia. zdecide. done.
    + by replace (Z.to_nat _) with 0%nat by lia.
Qed.
End Shape.

(** The prefix of the alternate form. *)
Lemma hashed_plain h c tmp : c <> 111 -> c <> 120 -> c <> 88 -> hashed h c tmp = ([], tmp).
Proof. intros. unfold hashed. zdecide. by rewrite !andb_false_r. Qed.

Lemma hashed_octal h pr n : 0 <= n < 2 ^ 32 -> prec_fits pr = true ->
  hashed h 111 (int_digits pr 8 false n)
  = ([], if h then lead_zero (int_digits pr 8 false n) else int_digits pr 8 false n).
Proof.
  intros Hn Hf. unfold hashed. rewrite int_digits_nonzero by lia. change (111 =? 111) with true.
  rewrite !andb_false_r, !andb_true_r. destruct h; [|done]. f_equal.
  pose proof (shown_length 8 false ltac:(lia) 11 64 n ltac:(change (8 ^ Z.of_nat 11) with (2 ^ 33); lia) ltac:(lia)) as Hlen.
  destruct (int_digits pr 8 false n) as [|d l] eqn:E; [done|]. cbn [lead_zero].
  destruct (Z.eqb_spec d 48) as [->|Hd]; [by rewrite andb_false_r|]. rewrite andb_true_r.
  assert (Hshort : Z.of_nat (length (d :: l)) < 79 /\ n <> 0).
  { rewrite <- E. revert E. unfold int_digits. fold (numeral 8 false n) in Hlen. destruct pr as [p|].
    - destruct ((p =? 0) && (n =? 0)); [rewrite app_nil_r; destruct (Z.to_nat _); cbn; congruence|].
      destruct (Z.to_nat _) as [|k] eqn:Ek; [|cbn; congruence]. cbn [replicate app]. intros E. split; [lia|].
      intros ->. rewrite numeral_0 in E by lia. congruence.
    - intros E. split; [lia|]. intros ->. rewrite numeral_0 in E by lia. congruence. }
  destruct Hshort as [Hs H0]. by zdecide.
Qed.

Lemma hashed_hex h c pr up n : c = 120 \/ c = 88 -> 0 <= n < 2 ^ 64 ->
  hashed h c (int_digits pr 16 up n)
  = (if h && negb (n =? 0) then [48; if c =? 88 then 88 else 120] else [], int_digits pr 16 up n).
Proof.
  intros Hc Hn. unfold hashed. rewrite int_digits_nonzero by lia.
  replace (c =? 111) with false by lia. replace ((c =? 120) || (c =? 88)) with true by lia.
  rewrite andb_false_r, andb_true_r. destruct h; [|done]. by destruct (n =? 0).
Qed.

(** ** Reading a written directive *)

Definition size_code (w : size) : Z := match w with Absent => -1 | Num n => n | Star => -2 end.
Definition prec_size (p : option size) : Z := match p with None => -1 | Some Absent => 0 | Some w => size_code w end.

Definition spec_of (d : dir) : spec :=
  let x := d_flags d in
  Spec (f_zero x) (f_minus x) (f_plus x) (f_space x) (f_hash x) (f_group x)
    (size_code (d_width d)) (prec_size (d_prec d)) 0 0 0 (d_len d) (d_conv d).

Lemma shown_digits k : forall n, 0 <= n -> Forall (fun c => 48 <= c <= 57) (shown k 10 false n).
Proof.
  induction k as [|k IH]; intros n Hn; [constructor|]. cbn [shown].
  pose proof (Z.mod_pos_bound n 10 ltac:(lia)). unfold digit_char in *.
  destruct (Z.ltb_spec n 10); [constructor; [zdecide; lia|constructor]|].
  apply Forall_app. split; [apply IH, Z.div_pos; lia|]. constructor; [zdecide; lia|constructor].
Qed.

Lemma scan_shown k : forall n rest, 0 <= n < 10 ^ Z.of_nat k -> n < 2 ^ 31 ->
  (0 < k)%nat -> scan_from 0 (shown k 10 false n ++ rest) = scan_from n rest.
Proof.
  assert (Hstep : forall v d rest, 0 <= d < 10 -> 0 <= v * 10 + d < 2 ^ 31 ->
    scan_from v (digit_char false d :: rest) = scan_from (v * 10 + d) rest).
  { intros v d rest Hd Hv. cbn [scan_from]. unfold digit_char, digit. zdecide. cbn [andb]. f_equal. rewrite s32_small; lia. }
  induction k as [|k IH]; intros n rest Hn Hlt Hk; [lia|]. cbn [shown]. rewrite Nat2Z.inj_succ, Z.pow_succ_r in Hn by lia.
  pose proof (Z.div_mod n 10 ltac:(lia)) as Ed. pose proof (Z.mod_pos_bound n 10 ltac:(lia)).
  destruct (Z.ltb_spec n 10); [cbn [app]; rewrite Hstep by lia; done|].
  rewrite <- app_assoc. cbn [app]. destruct k as [|k]; [change (10 ^ Z.of_nat 0) with 1 in Hn; lia|].
  rewrite IH by lia. rewrite Hstep by lia. f_equal. lia.
Qed.

Lemma scan_numeral n rest : 0 <= n < 2 ^ 31 -> digit (cur rest) = false ->
  _scan_uint (numeral 10 false n ++ rest) = (n, rest).
Proof.
  intros Hn Hr. unfold _scan_uint, numeral. rewrite scan_shown by (try lia; pose proof (wide_enough 10 ltac:(lia) n); lia).
  destruct rest as [|c rest]; [done|]. cbn [scan_from]. unfold cur in Hr. cbn in Hr. by rewrite Hr.
Qed.

Definition flag_char (c : Z) : bool := (c =? 48) || (c =? 45) || (c =? 43) || (c =? 32) || (c =? 35) || (c =? 39).

Lemma read_flags_stop x f : flag_char (cur f) = false -> read_flags x f = (x, f).
Proof.
  destruct x, f as [|c f]; [done|]. unfold flag_char. change (cur (c :: f)) with c. intros H. cbn [read_flags].
  repeat (apply orb_false_elim in H as [H ->]). by rewrite H.
Qed.

Lemma read_flags_show x f : flag_char (cur f) = false ->
  read_flags (Flags false false false false false false) (show_flags x ++ f) = (x, f).
Proof.
  intros H. destruct x as [z m p s h g].
  destruct z, m, p, s, h, g; exact (read_flags_stop (Flags _ _ _ _ _ _) f H).
Qed.

(** What follows the width: nothing that a width or an index could go on with. *)
Definition after (c : Z) : bool := negb (digit c) && negb (c =? 36) && negb (c =? 42) && negb (flag_char c).

Lemma after_len l c rest : c ∈ conversions -> after (cur (show_len l ++ c :: rest)) = true /\
  cur (show_len l ++ c :: rest) <> 46 /\ read_len (show_len l ++ c :: rest) = (l, c :: rest).
Proof.
  intros Hc. apply list_elem_of_In in Hc. cbn in Hc.
  repeat (destruct Hc as [<-|Hc]; [destruct l; split_and!; done|]). done.
Qed.

Lemma after_digit c : after c = true -> digit c = false.
Proof. unfold after. by destruct (digit c). Qed.

Lemma after_dollar c : after c = true -> c <> 36 /\ c <> 42 /\ flag_char c = false.
Proof.
  unfold after. intros H. destruct (Z.eqb_spec c 36), (Z.eqb_spec c 42), (flag_char c); try done;
  cbn in H; rewrite ?andb_false_r in H; done.
Qed.

Lemma index_none f : (49 <=? cur f) && (cur f <=? 57) = false -> index f = (0, f).
Proof. unfold index. by intros ->. Qed.

Lemma not_digit_index f : digit (cur f) = false -> index f = (0, f).
Proof. intros H. apply index_none. unfold digit in H. destruct (Z.leb_spec 49 (cur f)), (Z.leb_spec (cur f) 57); try done. lia. Qed.

(** A width or a precision. *)
Lemma read_size_show dflt w rest : prec_ok (Some w) -> after (cur rest) = true ->
  read_size dflt (show_size w ++ rest) = (match w with Absent => dflt | w => size_code w end, 0, rest).
Proof.
  intros Hw Hr. pose proof (after_digit _ Hr) as Hd. destruct (after_dollar _ Hr) as (H36 & H42 & _).
  unfold read_size. destruct w as [|n|]; cbn [show_size app].
  - zdecide. by rewrite Hd.
  - cbn in Hw. rewrite scan_numeral by done.
    assert (Hc : digit (cur (numeral 10 false n ++ rest)) = true).
    { pose proof (numeral_length 10 false ltac:(lia) n ltac:(lia)) as Hlen.
      pose proof (shown_digits 64 n ltac:(lia)) as Hall. fold (numeral 10 false n) in Hall.
      destruct (numeral 10 false n) as [|d l]; [cbn in Hlen; lia|]. apply Forall_cons_1 in Hall as [Hall _].
      unfold digit. change (cur ((d :: l) ++ rest)) with d. lia. }
    rewrite Hc. replace (_ =? 42) with false; [done|]. unfold digit in Hc. lia.
  - change (cur (42 :: rest) =? 42) with true. cbn [tail]. by rewrite not_digit_index.
Qed.

(** The first character of a width is no flag, and it is not an index. *)
Lemma width_start w rest : width_ok w -> after (cur rest) = true ->
  flag_char (cur (show_size w ++ rest)) = false /\ index (show_size w ++ rest) = (0, show_size w ++ rest).
Proof.
  intros Hw Hr. pose proof (after_digit _ Hr) as Hd. destruct (after_dollar _ Hr) as (H36 & H42 & Hf).
  destruct w as [|n|]; cbn [show_size app].
  - split; [done|]. by apply not_digit_index.
  - cbn in Hw. split.
    + destruct (shown_head 10 false ltac:(lia) 64 n) as (d & l & E & Hd0); [pose proof (wide_enough 10 ltac:(lia) n); lia|].
      assert (Hdd : 48 <= d <= 57).
      { pose proof (shown_digits 64 n ltac:(lia)) as Hall. rewrite E in Hall. by apply Forall_cons_1 in Hall as [? _]. }
      unfold numeral. rewrite E. unfold flag_char. change (cur ((d :: l) ++ rest)) with d. lia.
    + unfold index. rewrite scan_numeral by (done || lia). replace (cur rest =? 36) with false by lia. by destruct (_ && _).
  - done.
Qed.

Lemma parse_show d rest : item_ok (Conv d) -> _parse_spec (show_dir d ++ rest) = Some (spec_of d, rest).
Proof.
  intros (Hw & Hp & Hc). unfold _parse_spec, show_dir, spec_of. rewrite <- !app_assoc. cbn [app].
  destruct (after_len (d_len d) (d_conv d) rest Hc) as (Ha & H46 & Hl).
  set (L := show_len (d_len d) ++ d_conv d :: rest) in *.
  assert (Hap : after (cur (match d_prec d with None => [] | Some p => 46 :: show_size p end ++ L)) = true)
    by (by destruct (d_prec d)).
  destruct (width_start (d_width d) _ Hw Hap) as [Hfl Hix].
  set (W := show_size (d_width d) ++ _) in *.
  assert (Hi : index (show_flags (d_flags d) ++ W) = (0, show_flags (d_flags d) ++ W)).
  { destruct (d_flags d) as [z m p s h g]. destruct z, m, p, s, h, g; first [exact Hix|reflexivity]. }
  rewrite Hi, read_flags_show by done. unfold W. rewrite read_size_show by (done || by destruct (d_width d) as [|n|]; cbn in *; lia).
  destruct (d_prec d) as [p|]; cbn [app].
  - change (cur (46 :: _) =? 46) with true. cbn [tail]. rewrite read_size_show by done. rewrite Hl.
    by destruct (d_width d), p.
  - replace (cur L =? 46) with false by lia. rewrite Hl. by destruct (d_width d).
Qed.

(** ** Arguments *)

Definition size_kinds (w : size) : list kind := match w with Star => [K_INT] | _ => [] end.
Definition dir_kinds (d : dir) : list kind :=
  size_kinds (d_width d) ++ match d_prec d with Some p => size_kinds p | None => [] end ++
  match _arg_kind (d_conv d) (d_len d) with K_NONE => [] | k => [k] end.
Definition item_kinds (i : item) : list kind := match i with Lit _ => [] | Conv d => dir_kinds d end.

(** The first walk after arguments of the kinds [ks]. *)
Definition walked (ks : list kind) : walk :=
  Walk (1 + Z.of_nat (length ks)) (Z.of_nat (length ks)) (K_NONE :: ks ++ replicate (63 - length ks) K_NONE).

Lemma use_next k ks : (length ks < 63)%nat -> use 0 k (walked ks) = walked (ks ++ [k]).
Proof.
  intros Hl. unfold use, walked, _FMT_MAXARGS. cbn [argpos maxpos kinds]. change (0 =? 0) with true. cbv iota beta.
  rewrite !Z.gtb_ltb, length_app. cbn [length]. zdecide. cbn [andb]. f_equal; try lia.
  replace (Z.to_nat (1 + Z.of_nat (length ks))) with (S (length ks)) by lia.
  match goal with |- <[_ := _]> (_ :: ?l) = _ => change (<[S (length ks) := k]> (K_NONE :: l)) with (K_NONE :: <[length ks := k]> l) end.
  f_equal.
  rewrite insert_app_r_alt by lia. rewrite Nat.sub_diag, <- app_assoc. f_equal.
  replace (63 - length ks)%nat with (S (63 - (length ks + 1))) by lia. done.
Qed.

Lemma collect_spec_show d ks : item_ok (Conv d) -> (length (ks ++ dir_kinds d) <= 63)%nat ->
  collect_spec (spec_of d) (walked ks) = walked (ks ++ dir_kinds d).
Proof.
  intros (Hw & Hp & _) Hl. unfold collect_spec, spec_of. cbn [width prec wpos ppos pos conv len]. unfold dir_kinds in *.
  rewrite !app_assoc in *.
  assert (E1 : (if size_code (d_width d) =? -2 then use 0 K_INT (walked ks) else walked ks) = walked (ks ++ size_kinds (d_width d))).
  { destruct (d_width d) as [|n|]; cbn [size_code size_kinds] in *; rewrite ?app_nil_r; [done|..].
    - cbn in Hw. by replace (n =? -2) with false by lia.
    - change (-2 =? -2) with true. apply use_next. rewrite !length_app in Hl. cbn in Hl. lia. }
  rewrite E1. set (ks1 := ks ++ size_kinds (d_width d)) in *.
  assert (E2 : (if prec_size (d_prec d) =? -2 then use 0 K_INT (walked ks1) else walked ks1)
    = walked (ks1 ++ match d_prec d with Some p => size_kinds p | None => [] end)).
  { destruct (d_prec d) as [[|n|]|]; cbn [prec_size size_code size_kinds] in *; rewrite ?app_nil_r; try done.
    - cbn in Hp. by replace (n =? -2) with false by lia.
    - change (-2 =? -2) with true. apply use_next. rewrite !length_app in *. cbn in *. lia. }
  rewrite E2. set (ks2 := ks1 ++ _) in *.
  destruct (_arg_kind (d_conv d) (d_len d)) eqn:Ek;
    [cbn [maxpos walked]; rewrite Z.gtb_ltb; zdecide; by rewrite app_nil_r|..];
    apply use_next; rewrite length_app in Hl; cbn in Hl; lia.
Qed.

Lemma collect_show its : forall k ks, Forall item_ok its -> (length (show its) < k)%nat ->
  (length (ks ++ flat_map item_kinds its) <= 63)%nat ->
  collect_loop k (show its) (walked ks) = Some (walked (ks ++ flat_map item_kinds its)).
Proof.
  induction its as [|i its IH]; intros k ks Hok Hk Hl.
  - destruct k; [cbn in Hk; lia|]. cbn. by rewrite app_nil_r.
  - apply Forall_cons_1 in Hok as [Hi Hok]. destruct k as [|k]; [lia|].
    unfold show in *. cbn [flat_map] in *. rewrite length_app in Hk. destruct i as [c|d]; cbn [show_item app item_kinds] in *.
    + destruct Hi as [_ Hc]. cbn [collect_loop]. replace (c =? 37) with false by lia. cbn [negb length] in *. apply IH; [done|lia|done].
    + cbn [collect_loop]. change (37 =? 37) with true. cbn [negb]. rewrite parse_show by done.
      rewrite app_assoc in Hl |- *. rewrite collect_spec_show by (try done; rewrite length_app in Hl; lia).
      cbn [length] in Hk. apply IH; [done|lia|done].
Qed.

Lemma item_kinds_some i : Forall (fun k => k <> K_NONE) (item_kinds i).
Proof.
  destruct i as [c|d]; cbn; [constructor|]. unfold dir_kinds. repeat apply Forall_app_2.
  - destruct (d_width d); repeat constructor; done.
  - destruct (d_prec d) as [[]|]; repeat constructor; done.
  - destruct (_arg_kind _ _); repeat constructor; done.
Qed.

Lemma collect_args_show its : Forall item_ok its -> (length (flat_map item_kinds its) <= 63)%nat ->
  _collect_args (show its) = Some (flat_map item_kinds its).
Proof.
  intros Hok Hl. unfold _collect_args. change (Walk 1 0 (replicate 64 K_NONE)) with (walked []).
  rewrite (collect_show its _ []) by (done || lia). cbn [app mbind option_bind walked maxpos kinds tail].
  unfold _FMT_MAXARGS. rewrite Z.geb_leb. zdecide. f_equal. rewrite Nat2Z.id, take_app_length.
  assert (Hk : Forall (fun k => k <> K_NONE) (flat_map item_kinds its))
    by (clear; induction its; [constructor|apply Forall_app_2; [apply item_kinds_some|done]]).
  revert Hk. generalize (flat_map item_kinds its). clear. intros ks Hk.
  induction Hk as [|k ks Hk _ IH]; [done|]. cbn. rewrite IH. by destruct k.
Qed.

Definition kind_of (a : arg) : kind :=
  match a with
  | AInt _ => K_INT | AUInt _ => K_UINT | ALong _ => K_LONG | AULong _ => K_ULONG | ALLong _ => K_LLONG
  | AULLong _ => K_ULLONG | APtr _ | AStr _ _ => K_PTR
  end.
Definition slot_of (a : arg) : slot :=
  match a with
  | AInt v | AUInt v | ALong v | AULong v | AULLong v => SInt v
  | ALLong v => SInt (u64 v)
  | APtr p | AStr p _ => SPtr p
  end.

Lemma fill_args_words args : Forall arg_ok args ->
  _fill_args (map kind_of args) (flat_map arg_words args) = Some (map slot_of args).
Proof.
  induction 1 as [|a args Ha _ IH]; [done|]. cbn [map flat_map _fill_args].
  assert (Ev : va_slot (kind_of a) (arg_words a ++ flat_map arg_words args) = Some (slot_of a, flat_map arg_words args)).
  { destruct a; cbn [arg_ok arg_words kind_of slot_of app va_slot va_word va_two mbind option_bind] in *;
      rewrite ?u32_u32, ?u32_small, ?s32_u32, ?s32_small by lia; try done.
    - unfold u64, wrapu. rewrite u32_small by (apply Z.mod_pos_bound; lia).
      rewrite u32_small by (pose proof (Z.mod_pos_bound v (2 ^ 64)); split; [apply Z.div_pos; lia|apply Z.div_lt_upper_bound; lia]).
      do 2 f_equal. f_equal. pose proof (Z.div_mod (v mod 2 ^ 64) (2 ^ 32)). lia.
    - rewrite u64_small by lia. rewrite u32_small by (apply Z.mod_pos_bound; lia).
      rewrite u32_small by (split; [apply Z.div_pos; lia|apply Z.div_lt_upper_bound; lia]).
      do 2 f_equal. f_equal. pose proof (Z.div_mod v (2 ^ 32)). lia. }
  rewrite Ev. cbn [mbind option_bind]. by rewrite IH.
Qed.

(** ** The staging area *)

(** What a sink promises: [Inv x l] when it has received [l]; a received run is
    appended, up to [limit] bytes in all, and the strings [Str] stay readable. *)
Class SinkOk (S : Type) `{Sink S} (Inv : S -> str -> Prop) (Str : Z -> str -> Prop) (limit : Z) := {
  sink_limit : 0 <= limit < 2 ^ 31;
  put_ok x out l : Inv x out -> Forall byte_ok l -> Z.of_nat (length (out ++ l)) <= limit ->
    wp (put l) x (fun _ x' => Inv x' (out ++ l));
  read_ok x out : Inv x out -> exists m, (forall p l, Str p l -> cstr m p l) /\
    forall A (c : M A) a, c m = Some (a, m) -> memory c x = Some (a, x)
}.

Section Output.
Context {S : Type} `{SinkOk S Inv Str limit}.
Implicit Types (st : S * fout) (text : str).

(** [out] has been printed: handed over or staged. *)
Definition printed st (out : str) : Prop :=
  exists sent, Inv st.1 sent /\ out = sent ++ stage st.2 /\ count st.2 = Z.of_nat (length sent) /\
    (length (stage st.2) <= 128)%nat /\ Forall byte_ok (stage st.2) /\ Z.of_nat (length out) <= limit.

(** [c] prints [text] and returns [a]. *)
Definition prints {A} (c : St (S * fout) A) (text : str) (a : A) : Prop :=
  forall st out, printed st out -> Z.of_nat (length (out ++ text)) <= limit ->
    wp c st (fun r st' => r = a /\ printed st' (out ++ text)).

Lemma prints_ret {A} (a : A) : prints (ret a) [] a.
Proof. intros st out Hp _. wp_pure. by rewrite app_nil_r. Qed.

Lemma prints_bind {A B} (c : St (S * fout) A) (k : A -> St (S * fout) B) t1 t2 a b :
  prints c t1 a -> prints (k a) t2 b -> prints (bind c k) (t1 ++ t2) b.
Proof.
  intros Hc Hk st out Hp Hl. apply wp_bind. rewrite app_assoc in Hl |- *.
  eapply wp_mono; [apply Hc; [done|rewrite !length_app in *; lia]|]. intros r st1 [-> Hp1]. by apply Hk.
Qed.

Lemma flush_ok st out : printed st out -> wp _o_flush st (fun _ st' =>
  printed st' out /\ stage st'.2 = [] /\ count st'.2 = Z.of_nat (length out) /\ Inv st'.1 out).
Proof.
  destruct st as [x [n l]]. intros (sent & Hi & -> & Hc & Hlen & Hb & Hl). cbn [fst snd stage count] in *. subst n.
  unfold _o_flush. wp_pure. cbn [snd stage]. pose proof sink_limit as Hlim. destruct l as [|c l].
  - wp_pure. rewrite app_nil_r in *. split; [exists sent; by rewrite app_nil_r|done].
  - wp_pure. pose proof (put_ok x sent (c :: l) Hi Hb Hl) as Hput. apply wp_total in Hput as (u & x' & E & Hi').
    eapply wp_run; [unfold sink_do; by rewrite E|]. wp_pure. cbn [snd fst stage count]. rewrite length_app in *.
    rewrite s32_small by lia. split; [|split; [done|split; [lia|done]]].
    exists (sent ++ c :: l). cbn [fst snd stage count length]. rewrite app_nil_r, length_app. split_and!; try done; cbn [length] in *; lia.
Qed.

Lemma prints_char c : prints (_o_char c) [u8 c] tt.
Proof.
  intros st out Hp Hl. unfold _o_char. wp_pure.
  assert (Hst : wp (if bool_decide (length (stage st.2) = 128%nat) then _o_flush else ret tt) st
    (fun _ st' => printed st' out /\ (length (stage st'.2) < 128)%nat)).
  { case_bool_decide.
    - eapply wp_mono; [by apply flush_ok|]. intros u st' (Hp' & -> & _). split; [done|cbn; lia].
    - wp_pure. split; [done|]. destruct Hp as (sent & _ & _ & _ & Hlen & _). lia. }
  eapply wp_mono; [exact Hst|]. intros u [x [n l]] [(sent & Hi & -> & Hc & _ & Hb & _) Hlen].
  cbn [fst snd stage count] in *. unfold wp, stage_push. cbn [stage]. rewrite (proj2 (Nat.ltb_lt _ _) Hlen). split; [done|]. exists sent. cbn [fst snd stage count]. rewrite length_app. cbn [length].
  split_and!; [done|by rewrite app_assoc|done|lia| |done].
  apply Forall_app. split; [done|]. constructor; [apply u8_range|constructor].
Qed.

Lemma prints_emit l : Forall byte_ok l -> prints (emit l) l tt.
Proof.
  induction 1 as [|c l Hc Hl IH]; [apply prints_ret|]. unfold emit. cbn [for_each].
  change (c :: l) with ([c] ++ l). apply (prints_bind _ _ [c] l tt tt); [|exact IH].
  unfold byte_ok in Hc. rewrite <- (u8_small c) at 2 by lia. apply prints_char.
Qed.

(** A computation that only reads. *)
Lemma prints_read {A} (c : M A) a : (forall m, (forall p l, Str p l -> cstr m p l) -> c m = Some (a, m)) ->
  prints (sink_do (memory c)) [] a.
Proof.
  intros Hc [x o] out Hp _. pose proof Hp as (sent & Hi & _). cbn [fst] in Hi.
  destruct (read_ok x sent Hi) as (m & Hm & Hr). eapply wp_run; [unfold sink_do; by rewrite (Hr _ c a (Hc m Hm))|].
  by rewrite app_nil_r.
Qed.

Lemma prints_need {A} (r : option A) a : r = Some a -> prints (need r) [] a.
Proof. intros ->. apply prints_ret. Qed.

(** The characters a body stands for. *)
Definition body_text (b : body) (t : str) : Prop :=
  match b with
  | BText l => t = l /\ Forall byte_ok l
  | BMem p n => exists l, Str p l /\ 0 <= n <= Z.of_nat (length l) /\ t = take (Z.to_nat n) l
  end.

Lemma str_readable p l : Str p l -> (exists st out, printed st out) -> Forall (fun c => 0 < c < 256) l.
Proof.
  intros Hs (st & out & sent & Hi & _). destruct (read_ok st.1 sent Hi) as (m & Hm & _). by destruct (Hm p l Hs).
Qed.

Lemma body_text_bytes b t : (exists st out, printed st out) -> body_text b t -> Forall byte_ok t.
Proof.
  intros Hex. destruct b as [l|p n]; cbn; [by intros [-> ?]|]. intros (l & Hs & _ & ->).
  apply Forall_take. refine (List.Forall_impl _ _ (str_readable _ _ Hs Hex)). unfold byte_ok. lia.
Qed.

Lemma body_text_len b t : body_text b t -> body_len b = Z.of_nat (length t).
Proof.
  destruct b as [l|p n]; cbn; [by intros [-> ?]|]. intros (l & _ & Hn & ->). rewrite length_take. lia.
Qed.

(** Reading a string byte by byte. *)
Lemma prints_mem p l : Str p l -> forall t i, (forall j c, t !! j = Some c -> l !! (i + j)%nat = Some c) ->
  prints (for_each (fun i => let* c := sink_do (memory (load8 (p + i))) in _o_char c) (seqZ (Z.of_nat i) (Z.of_nat (length t)))) t tt.
Proof.
  intros Hs t. induction t as [|c t IH]; intros i Ht; [apply prints_ret|].
  rewrite seqZ_cons by (cbn; lia). cbn [for_each]. change (c :: t) with ([c] ++ t) at 2.
  apply (prints_bind _ _ [c] t tt tt).
  - change [c] with ([] ++ [c]). intros st out Hp Hl.
    assert (Hc : 0 < c < 256).
    { pose proof (str_readable p l Hs ltac:(eauto)) as Hf. rewrite Forall_lookup in Hf.
      apply (Hf (i + 0)%nat c). by apply Ht. }
    revert st out Hp Hl. apply (prints_bind _ _ [] [c] c tt); [|rewrite <- (u8_small c) at 2 by lia; apply prints_char].
    apply prints_read. intros m Hm. apply wp_eq. eapply wp_load8; [|by split].
    apply (cstr_at _ _ l); [by apply Hm|]. rewrite <- (Nat.add_0_r i). by apply Ht.
  - replace (Z.succ (Z.of_nat i)) with (Z.of_nat (Datatypes.S i)) by lia.
    replace (Z.pred (Z.of_nat (length (c :: t)))) with (Z.of_nat (length t)) by (cbn; lia).
    apply IH. intros j d Hj. rewrite Nat.add_succ_l, <- Nat.add_succ_r. by apply Ht.
Qed.

Lemma prints_body b t : body_text b t -> prints (emit_body b) t tt.
Proof.
  destruct b as [l|p n]; cbn [body_text emit_body]; [intros [-> ?]; by apply prints_emit|].
  intros (l & Hs & Hn & ->). replace n with (Z.of_nat (length (take (Z.to_nat n) l))) at 1 by (rewrite length_take; lia).
  apply (prints_mem p l Hs _ 0). intros j c Hj. cbn. by apply lookup_take_Some in Hj as [? _].
Qed.

Lemma replicate_bytes n c : byte_ok c -> Forall byte_ok (replicate n c).
Proof. intros. by apply Forall_replicate. Qed.

Lemma prints_field mi ze w lead b t : 0 <= w < 2 ^ 31 -> Forall byte_ok lead -> body_text b t ->
  prints (emit_field mi ze w lead b) (field mi ze w lead t) tt.
Proof.
  intros Hw Hlead Hb st out Hp Hl. pose proof sink_limit as Hlim.
  assert (Hpad : s32 (w - (body_len b + Z.of_nat (length lead))) = w - Z.of_nat (length lead + length t)).
  { rewrite (body_text_len b t Hb). rewrite s32_small; [lia|]. revert Hl. unfold field. rewrite !length_app.
    destruct mi, ze; rewrite !length_app; lia. }
  unfold emit_field. rewrite Hpad. set (pad := Z.to_nat _).
  assert (H48 : Forall byte_ok (replicate pad 48)) by (apply replicate_bytes; unfold byte_ok; lia).
  assert (H32 : Forall byte_ok (replicate pad 32)) by (apply replicate_bytes; unfold byte_ok; lia).
  revert st out Hp Hl. unfold field. fold pad. destruct mi; [|destruct ze].
  - eapply prints_bind; [by apply prints_emit|]. eapply prints_bind; [by apply prints_body|]. by apply prints_emit.
  - rewrite app_assoc. eapply prints_bind; [eapply prints_bind; by apply prints_emit|].
    rewrite <- (app_nil_r t) at 1. eapply prints_bind; [by apply prints_body|]. apply prints_ret.
  - rewrite app_assoc. eapply prints_bind; [eapply prints_bind; by apply prints_emit|].
    rewrite <- (app_nil_r t) at 1. eapply prints_bind; [by apply prints_body|]. apply prints_ret.
Qed.

(** Strings, cut to the precision. *)
Definition prec_code (pr : option Z) : Z := match pr with None => -1 | Some p => p end.

Lemma cut_text pr b l : (match pr with Some p => 0 <= p | None => True end) -> body_text b l ->
  body_text (cut (prec_code pr) b) (match pr with None => l | Some p => take (Z.to_nat p) l end).
Proof.
  intros Hp Hb. unfold cut. rewrite (body_text_len b l Hb), Z.gtb_ltb, Z.geb_leb.
  destruct pr as [p|]; cbn [prec_code]; [|done]. zdecide. cbn [andb].
  destruct (Z.ltb_spec p (Z.of_nat (length l))).
  - destruct b as [l'|q n]; cbn in *.
    + destruct Hb as [-> Hb]. split; [done|]. by apply Forall_take.
    + destruct Hb as (l' & Hs & Hn & ->). rewrite length_take in *. exists l'. split; [done|]. split; [lia|].
      rewrite take_take. f_equal. lia.
  - by rewrite take_ge by lia.
Qed.

Lemma prints_string mi w pr b l : 0 <= w < 2 ^ 31 -> (match pr with Some p => 0 <= p | None => True end) ->
  body_text b l -> prints (emit_field mi false w [] (cut (prec_code pr) b)) (string_text mi w pr l) tt.
Proof. intros. apply prints_field; [done|constructor|]. by apply cut_text. Qed.
End Output.

(** ** Directives *)

(** The slots of [used] start at position [a]. *)
Definition slots_from (xs : list slot) (a : Z) (used : list arg) : Prop :=
  forall i u, used !! i = Some u -> slot_at xs (a + Z.of_nat i) = Some (slot_of u).

Lemma slots_from_app xs a u1 u2 : slots_from xs a (u1 ++ u2) ->
  slots_from xs a u1 /\ slots_from xs (a + Z.of_nat (length u1)) u2.
Proof.
  intros H. split; intros i u Hi.
  - apply H. by apply lookup_app_l_Some.
  - replace (a + Z.of_nat (length u1) + Z.of_nat i) with (a + Z.of_nat (length u1 + i)) by lia.
    apply H. rewrite lookup_app_r by lia. by replace (length u1 + i - length u1)%nat with i by lia.
Qed.

Lemma next_slot_from xs a u used : slots_from xs a (u :: used) -> next_slot xs 0 a = Some (slot_of u, a + 1).
Proof. intros H. specialize (H 0%nat u eq_refl). rewrite Z.add_0_r in H. unfold next_slot. by rewrite H. Qed.

Lemma star_value v : - 2 ^ 31 <= v < 2 ^ 31 -> s32 (s64 v) = v.
Proof. intros. by rewrite s64_small, s32_small by lia. Qed.

Lemma eff_width_ok x w args mi ww rest : eff_width x w args = Some (mi, ww, rest) -> width_ok w -> Forall arg_ok args ->
  exists used, args = used ++ rest /\ map kind_of used = size_kinds w /\ 0 <= ww < 2 ^ 31 /\
    forall xs s a, width s = size_code w -> wpos s = 0 -> minus s = f_minus x -> slots_from xs a used ->
      width_of xs s a = Some (mi, ww, a + Z.of_nat (length used)).
Proof.
  intros E Hw Ha. destruct w as [|n|]; cbn [eff_width] in E.
  - injection E as <- <- <-. exists []. split_and!; [done|done|lia|lia|]. intros xs s a Es _ Em _. unfold width_of.
    rewrite Es, Em. change (size_code Absent) with (-1). change (-1 =? -2) with false. change (-1 <? 0) with true.
    cbn [length]. by rewrite Z.add_0_r.
  - injection E as <- <- <-. cbn in Hw. exists []. split_and!; [done|done|lia|lia|]. intros xs s a Es _ Em _.
    unfold width_of. rewrite Es, Em. cbn [size_code length]. zdecide. by rewrite Z.add_0_r.
  - destruct args as [|[v| | | | | | |] args]; try done. apply Forall_cons_1 in Ha as [Hv Ha]. cbn in Hv.
    destruct (Z.eqb_spec v (- 2 ^ 31)) as [?|Hmin]; [done|]. exists [AInt v].
    assert (Hs : forall xs s a, width s = -2 -> wpos s = 0 -> minus s = f_minus x -> slots_from xs a [AInt v] ->
      width_of xs s a = Some (if v <? 0 then (true, - v, a + 1) else (f_minus x, v, a + 1))).
    { intros xs s a Es Ep Em Hx. unfold width_of. rewrite Es, Ep, Em. change (-2 =? -2) with true.
      rewrite (next_slot_from xs a (AInt v) []) by done. cbn [mbind option_bind slot_of slot_i].
      rewrite star_value by lia. destruct (Z.ltb_spec v 0); [|done]. by rewrite (s32_small (- v)) by lia. }
    destruct (Z.ltb_spec v 0); injection E as <- <- <-; (split_and!; [done|done|lia|lia|]); intros; by rewrite Hs.
Qed.

Lemma eff_prec_ok p args pr rest : eff_prec p args = Some (pr, rest) -> prec_ok p -> Forall arg_ok args ->
  exists used, args = used ++ rest /\ map kind_of used = (match p with Some w => size_kinds w | None => [] end) /\
    (match pr with Some n => 0 <= n | None => True end) /\
    forall xs s a, prec s = prec_size p -> ppos s = 0 -> slots_from xs a used ->
      prec_of xs s a = Some (prec_code pr, a + Z.of_nat (length used)).
Proof.
  intros E Hp Ha. destruct p as [[|n|]|]; cbn [eff_prec] in E.
  - injection E as <- <-. exists []. split_and!; [done|done|lia|]. intros xs s a Es _ _. unfold prec_of.
    rewrite Es. cbn [length prec_code]. by rewrite Z.add_0_r.
  - injection E as <- <-. cbn in Hp. exists []. split_and!; [done|done|lia|]. intros xs s a Es _ _. unfold prec_of.
    rewrite Es. cbn [prec_size size_code prec_code length]. zdecide. by rewrite Z.add_0_r.
  - destruct args as [|[v| | | | | | |] args]; try done. apply Forall_cons_1 in Ha as [Hv Ha]. cbn in Hv.
    injection E as <- <-. exists [AInt v]. split_and!; [done|done|destruct (Z.ltb_spec v 0); [done|lia]|].
    intros xs s a Es Ep Hx. unfold prec_of. rewrite Es, Ep. change (prec_size (Some Star) =? -2) with true.
    rewrite (next_slot_from xs a (AInt v) []) by done. cbn [mbind option_bind slot_of slot_i].
    rewrite star_value by lia. by destruct (Z.ltb_spec v 0).
  - injection E as <- <-. exists []. split_and!; [done|done|done|]. intros xs s a Es _ _. unfold prec_of.
    rewrite Es. cbn [length prec_code]. by rewrite Z.add_0_r.
Qed.

(** *** Integer conversions *)

Lemma signed_slot l a v : signed_value l a = Some v -> arg_ok a ->
  exists v0, slot_i (slot_of a) = Some v0 /\ s_trunc l v0 = v /\ - 2 ^ 63 <= v < 2 ^ 63 /\
    (wide l = false -> - 2 ^ 31 <= v < 2 ^ 31).
Proof.
  intros Ev Ha. destruct l, a as [n|n|n|n|n|n|n|p t]; try discriminate; cbn in Ev, Ha; injection Ev as <-;
  cbn [slot_of slot_i s_trunc wide]; (eexists; split; [reflexivity|]); rewrite ?s64_u64, ?s64_small by lia;
  (split; [done|]); try lia.
  - pose proof (wraps_range 16 n ltac:(lia)). lia.
  - pose proof (wraps_range 8 n ltac:(lia)). unfold s8. lia.
Qed.

Lemma unsigned_slot c l a v : unsigned_value c l a = Some v -> arg_ok a ->
  exists v0, slot_u (slot_of a) = Some v0 /\ (if c =? 117 then u_trunc l v0 else v0) = v /\ 0 <= v < 2 ^ 64 /\
    (wide l = false -> v < 2 ^ 32) /\ (c = 111 -> wide l = false).
Proof.
  intros Ev Ha. destruct l, a as [n|n|n|n|n|n|n|p t]; try discriminate; cbn in Ev, Ha;
  cbn [slot_of slot_u u_trunc wide]; (eexists; split; [reflexivity|]); rewrite ?u64_small by lia;
  revert Ev; destruct (Z.eqb_spec c 117), (Z.eqb_spec c 111); intros [= <-]; (split; [done|]); try lia.
  all: try (pose proof (wrapu_range 16 n ltac:(lia)); lia).
  all: pose proof (u8_range n); lia.
Qed.

Lemma fmt_len_numeral l n base up : 0 <= n < 2 ^ 64 -> (wide l = false -> n < 2 ^ 32) ->
  base = 16 \/ base = 10 /\ up = false \/ base = 8 /\ wide l = false ->
  fmt_len l n base up = numeral base up n.
Proof.
  intros Hn Hs Hb. unfold fmt_len. destruct (wide l).
  - apply fmt_u64_numeral; [|done]. destruct Hb as [?|[?|[_ ?]]]; [by left|by right|done].
  - rewrite u32_small by lia. apply fmt_uint_numeral; [lia|]. specialize (Hs eq_refl). lia.
Qed.

Section Conversions.
Context `{FloatText}.

Lemma number_signed d pr a v : is_signed (d_conv d) = true -> signed_value (d_len d) a = Some v -> arg_ok a ->
  number (spec_of d) pr (slot_of a) = Some (v <? 0, numeral 10 false (Z.abs v)) /\ 0 <= Z.abs v < 2 ^ 64.
Proof.
  intros Hc Ev Ha. destruct (signed_slot _ _ _ Ev Ha) as (v0 & E0 & Et & Hv & Hs). split; [|lia].
  unfold number, spec_of. cbn [conv len]. rewrite Hc, E0. cbn [mbind option_bind]. rewrite Et.
  replace (if v <? 0 then _ else _) with (Z.abs v).
  - rewrite fmt_len_numeral; [done|lia|intros; specialize (Hs ltac:(done)); lia|by right; left].
  - destruct (Z.ltb_spec v 0); rewrite !u64_small by (rewrite ?u64_small by lia; lia); lia.
Qed.

Lemma number_unsigned d pr a v : is_unsigned (d_conv d) = true -> unsigned_value (d_conv d) (d_len d) a = Some v -> arg_ok a ->
  number (spec_of d) pr (slot_of a)
  = Some (false, numeral (if d_conv d =? 117 then 10 else if d_conv d =? 111 then 8 else 16) (d_conv d =? 88) v)
  /\ 0 <= v < 2 ^ 64 /\ (d_conv d = 111 -> v < 2 ^ 32).
Proof.
  intros Hc Ev Ha. destruct (unsigned_slot _ _ _ _ Ev Ha) as (v0 & E0 & Et & Hv & Hs & Ho). split; [|split; [done|auto]].
  unfold number, spec_of. cbn [conv len]. rewrite E0. unfold is_unsigned in Hc. unfold is_signed.
  destruct (Z.eqb_spec (d_conv d) 117) as [E|H1].
  { rewrite E. change (117 =? 100) with false. change (117 =? 105) with false. change (117 =? 88) with false. cbn [orb mbind option_bind].
    rewrite Et, fmt_len_numeral; [done|done|done|by right; left]. }
  destruct (Z.eqb_spec (d_conv d) 111) as [E|H2].
  { rewrite E. change (111 =? 100) with false. change (111 =? 105) with false. change (111 =? 88) with false. cbn [orb mbind option_bind].
    rewrite Et, fmt_len_numeral; [done|done|done|]. right. right. split; [done|]. by apply Ho. }
  assert (Hx : (d_conv d =? 120) || (d_conv d =? 88) = true) by (by destruct (d_conv d =? 120), (d_conv d =? 88)).
  replace (_ || (d_conv d =? 105)) with false by (destruct (Z.eqb_spec (d_conv d) 120), (Z.eqb_spec (d_conv d) 88); try done; lia).
  rewrite Hx. cbn [mbind option_bind]. rewrite Et, fmt_len_numeral; [done|done|done|by left].
Qed.

Lemma pointed_int h c tmp : is_float c = false -> pointed h c tmp = tmp.
Proof. intros Hc. unfold pointed. by rewrite Hc, andb_false_r. Qed.

(** The C locale has no separator: grouping changes nothing. *)
Lemma grouped_same g c tmp : grouped g c tmp = tmp.
Proof. unfold grouped. change (cur thousands_sep =? 0) with true. by rewrite andb_false_r. Qed.

Lemma int_not_float c : is_int c = true -> is_float c = false /\ c <> 110 /\ c <> 99 /\ c <> 115.
Proof.
  unfold is_int, is_signed, is_unsigned, is_float. intros Hc.
  repeat (apply orb_prop in Hc as [Hc|Hc]); apply Z.eqb_eq in Hc; subst c; split_and!; done || lia.
Qed.

Context {S : Type} `{SinkOk S Inv Str limit}.
Variables (fuel : nat) (errno : Z).

Abbreviation yields := (prints (Inv := Inv) (limit := limit)).

Lemma prints_bind_need {A B} (r : option A) (k : A -> St (S * fout) B) a b t :
  r = Some a -> yields (k a) t b -> yields (bind (need r) k) t b.
Proof. intros -> Hk. exact Hk. Qed.

Lemma sign_bytes s neg : Forall byte_ok (sign s neg).
Proof. unfold sign. destruct (_ || _), neg, (plus s), (space s); repeat constructor; done. Qed.

(** The integer conversions. *)
Lemma prints_signed d mi w pr a v : is_signed (d_conv d) = true -> signed_value (d_len d) a = Some v -> arg_ok a ->
  prec_fits pr = true -> (match pr with Some p => 0 <= p | None => True end) -> 0 <= w < 2 ^ 31 ->
  yields (convert_slot fuel (spec_of d) mi w (prec_code pr) (slot_of a)) (signed_text (d_flags d) mi w pr v) tt.
Proof.
  intros Hc Ev Ha Hf Hp Hw. destruct (number_signed d (prec_code pr) a v Hc Ev Ha) as [En Hv].
  assert (Hi : is_int (d_conv d) = true) by (unfold is_int; by rewrite Hc).
  destruct (int_not_float _ Hi) as (Hfl & Hn1 & Hn2 & Hn3). unfold convert_slot.
  change (conv (spec_of d)) with (d_conv d). zdecide. cbv zeta. eapply prints_bind_need; [exact En|].
  cbv beta iota. eapply prints_bind_need; [apply (precise_int 10 false); done || lia|].
  cbv beta iota. rewrite pointed_int, grouped_same by done.
  rewrite hashed_plain by (unfold is_signed in Hc; lia). rewrite app_nil_r.
  unfold signed_text. replace (if v <? 0 then [45] else _) with (sign (spec_of d) (v <? 0)).
  - apply prints_field; [done|apply sign_bytes|]. split; [done|]. apply int_digits_bytes; lia.
  - unfold sign. change (conv (spec_of d)) with (d_conv d). by rewrite Hc.
Qed.

Lemma lead_zero_bytes ds : Forall byte_ok ds -> Forall byte_ok (lead_zero ds).
Proof.
  intros Hd. destruct Hd as [|d l Hd Hl]; cbn [lead_zero]; [repeat constructor; done|].
  destruct (d =? 48); repeat constructor; done || (unfold byte_ok in *; lia).
Qed.

Lemma prints_unsigned d mi w pr a v : is_signed (d_conv d) = false -> is_unsigned (d_conv d) = true ->
  unsigned_value (d_conv d) (d_len d) a = Some v -> arg_ok a ->
  prec_fits pr = true -> (match pr with Some p => 0 <= p | None => True end) -> 0 <= w < 2 ^ 31 ->
  yields (convert_slot fuel (spec_of d) mi w (prec_code pr) (slot_of a)) (unsigned_text (d_flags d) mi w pr (d_conv d) v) tt.
Proof.
  intros Hns Hc Ev Ha Hf Hp Hw. destruct (number_unsigned d (prec_code pr) a v Hc Ev Ha) as (En & Hv & Ho).
  assert (Hi : is_int (d_conv d) = true) by (unfold is_int; rewrite Hc; apply orb_true_r).
  destruct (int_not_float _ Hi) as (Hfl & Hn1 & Hn2 & Hn3). unfold convert_slot, unsigned_text.
  change (conv (spec_of d)) with (d_conv d). zdecide. cbv zeta. eapply prints_bind_need; [exact En|].
  set (base := if d_conv d =? 117 then 10 else if d_conv d =? 111 then 8 else 16).
  assert (Hb : 2 <= base <= 16) by (unfold base; destruct (d_conv d =? 117), (d_conv d =? 111); lia).
  cbv beta iota. eapply prints_bind_need; [apply (precise_int base (d_conv d =? 88)); done|].
  cbv beta iota. rewrite pointed_int, grouped_same by done.
  replace (sign (spec_of d) false) with ([] : str) by (unfold sign; change (conv (spec_of d)) with (d_conv d); by rewrite Hns, Hfl).
  cbn [app]. change (hash (spec_of d)) with (f_hash (d_flags d)). change (zero (spec_of d)) with (f_zero (d_flags d)).
  set (ds := int_digits pr base (d_conv d =? 88) v).
  assert (Hds : Forall byte_ok ds) by (apply int_digits_bytes; lia).
  assert (Hh : hashed (f_hash (d_flags d)) (d_conv d) ds
    = (if f_hash (d_flags d) && (base =? 16) && negb (v =? 0) then [48; if d_conv d =? 88 then 88 else 120] else [],
       if f_hash (d_flags d) && (d_conv d =? 111) then lead_zero ds else ds)).
  { unfold ds, base. destruct (Z.eqb_spec (d_conv d) 117) as [E|H4].
    { rewrite hashed_plain by lia. rewrite E. change (117 =? 111) with false. change (10 =? 16) with false.
      by rewrite !andb_false_r. }
    destruct (Z.eqb_spec (d_conv d) 111) as [E|H5].
    { rewrite E. change (111 =? 88) with false. rewrite hashed_octal by (done || lia).
      change (8 =? 16) with false. rewrite andb_false_r, andb_true_r. by destruct (f_hash (d_flags d)). }
    assert (Hx : d_conv d = 120 \/ d_conv d = 88) by (unfold is_unsigned in Hc; lia).
    rewrite hashed_hex by (done || lia). change (16 =? 16) with true. by rewrite andb_true_r, andb_false_r. }
  rewrite Hh. apply prints_field; [done| |].
  - destruct (_ && _ && _); repeat constructor; unfold byte_ok; try lia; destruct (d_conv d =? 88); lia.
  - split; [done|]. destruct (f_hash (d_flags d) && (d_conv d =? 111)); [by apply lead_zero_bytes|done].
Qed.

(** A string argument is one of the sink's strings, short enough for [strlen]. *)
Definition arg_here (a : arg) : Prop :=
  match a with AStr p l => Str p l /\ (length l < fuel)%nat | _ => True end.

Lemma prints_convert d mi w pr a t : arg_ok a -> arg_here a -> 0 <= w < 2 ^ 31 ->
  (match pr with Some p => 0 <= p | None => True end) ->
  render_arg (d_flags d) mi w pr (d_len d) (d_conv d) a = Some t ->
  kind_of a = _arg_kind (d_conv d) (d_len d) /\
  yields (convert_slot fuel (spec_of d) mi w (prec_code pr) (slot_of a)) t tt.
Proof.
  intros Ha Hh Hw Hp Hr. unfold render_arg in Hr.
  destruct (is_signed (d_conv d)) eqn:Hs.
  { destruct (signed_value _ _) as [v|] eqn:Ev; [|done]. cbn in Hr. destruct (prec_fits pr) eqn:Hf; [|done]. injection Hr as <-.
    split; [|by apply prints_signed]. unfold _arg_kind. rewrite Hs. revert Ev. by destruct (d_len d), a. }
  destruct (is_unsigned (d_conv d)) eqn:Hu.
  { destruct (unsigned_value _ _ _) as [v|] eqn:Ev; [|done]. cbn in Hr. destruct (prec_fits pr) eqn:Hf; [|done]. injection Hr as <-.
    split; [|by apply prints_unsigned]. unfold _arg_kind. rewrite Hs, Hu. revert Ev. by destruct (d_len d), a. }
  unfold _arg_kind, convert_slot. rewrite Hs, Hu. change (conv (spec_of d)) with (d_conv d).
  destruct (Z.eqb_spec (d_conv d) 99) as [E|H99].
  { rewrite E. change (99 =? 110) with false. change (99 =? 99) with true. cbv zeta iota.
    destruct a as [v| | | | | | |]; try done. injection Hr as <-. split; [done|]. cbn in Ha.
    eapply prints_bind_need; [reflexivity|]. rewrite s64_small by lia.
    apply prints_field; [done|constructor|]. split; [done|]. repeat constructor; apply u8_range. }
  destruct (Z.eqb_spec (d_conv d) 115) as [E|H115].
  { rewrite E. change (115 =? 110) with false. change (115 =? 115) with true. cbv zeta iota.
    destruct a as [| | | | | |p|p l]; try done.
    - split; [by destruct p|]. destruct p; try done. injection Hr as <-. eapply prints_bind_need; [reflexivity|].
      change (0 =? 0) with true. apply (prints_bind (ret _) _ [] _ _ _ (prints_ret _)). apply prints_string; [done|done|].
      split; [done|]. repeat constructor; done.
    - split; [done|]. injection Hr as <-. destruct Hh as [Hstr Hfuel]. cbn in Ha. eapply prints_bind_need; [reflexivity|].
      zdecide. apply (prints_bind _ _ [] _ (BMem p (Z.of_nat (length l))) tt).
      + apply (prints_bind _ _ [] [] (Z.of_nat (length l))); [|apply prints_ret]. apply prints_read.
        intros m Hm. apply CString.strlen_eq; [by apply Hm|done].
      + apply prints_string; [done|done|]. exists l. split; [done|]. split; [lia|]. by rewrite Nat2Z.id, take_ge by lia. }
  destruct (Z.eqb_spec (d_conv d) 112) as [E|H112]; [|done].
  rewrite E. destruct a as [| | | | | |p|p l]; try done. injection Hr as <-. split; [done|]. cbn in Ha.
  change (112 =? 110) with false. cbv zeta iota.
  assert (En : number (spec_of d) (prec_code pr) (SPtr p)
    = Some (false, if p =? 0 then [40; 110; 105; 108; 41] else 48 :: 120 :: numeral 16 false p)).
  { unfold number. change (conv (spec_of d)) with (d_conv d). rewrite Hs, E. cbn. change (112 =? 117) with false.
    change (112 =? 111) with false. change ((112 =? 120) || (112 =? 88)) with false. change (112 =? 112) with true. cbn.
    destruct (p =? 0); [done|]. by rewrite fmt_uint_numeral by lia. }
  eapply prints_bind_need; [exact En|]. cbv beta iota.
  set (text := if p =? 0 then _ else _).
  assert (Ep : precise 112 (prec_code pr) (zero (spec_of d)) text = Some (zero (spec_of d), text))
    by (unfold precise; change (is_int 112) with false; by rewrite andb_false_r).
  eapply prints_bind_need; [exact Ep|]. cbv beta iota. rewrite pointed_int, grouped_same, hashed_plain by done.
  replace (sign (spec_of d) false) with ([] : str) by (unfold sign; change (conv (spec_of d)) with (d_conv d); by rewrite E).
  apply prints_field; [done|constructor|]. split; [done|]. unfold text. destruct (p =? 0); [repeat constructor; done|].
  do 2 (constructor; [done|]). apply (shown_bytes 16 false); lia.
Qed.

Lemma strerror_bytes n : Forall byte_ok (Strerror.strerror n).
Proof. destruct (Strerror.strerror_text n) as [Ht _]. refine (List.Forall_impl _ _ Ht). unfold byte_ok. lia. Qed.

Lemma render_dir_ok d args t rest : item_ok (Conv d) -> Forall arg_ok args -> Forall arg_here args ->
  render_dir errno d args = Some (t, rest) ->
  exists used, args = used ++ rest /\ map kind_of used = dir_kinds d /\
    forall xs a, slots_from xs a used ->
      yields (directive fuel errno xs (spec_of d) a) t (a + Z.of_nat (length used)).
Proof.
  intros (Hw & Hp & _) Ha Hh Hr. unfold render_dir in Hr.
  destruct (eff_width _ _ _) as [[[mi w] args1]|] eqn:Ew; [|done]. cbn [mbind option_bind] in Hr.
  destruct (eff_width_ok _ _ _ _ _ _ Ew Hw Ha) as (u1 & -> & K1 & Hw1 & W1).
  apply Forall_app in Ha as [_ Ha]. apply Forall_app in Hh as [_ Hh].
  destruct (eff_prec _ _) as [[pr args2]|] eqn:Ep; [|done]. cbn [mbind option_bind] in Hr.
  destruct (eff_prec_ok _ _ _ _ Ep Hp Ha) as (u2 & -> & K2 & Hp2 & W2).
  apply Forall_app in Ha as [_ Ha]. apply Forall_app in Hh as [_ Hh].
  set (u3 := if (d_conv d =? 37) || (d_conv d =? 109) then [] else take 1 args2).
  assert (H3 : args2 = u3 ++ rest /\ map kind_of u3 = (match _arg_kind (d_conv d) (d_len d) with K_NONE => [] | k => [k] end) /\
    forall xs a, slots_from xs a u3 ->
      yields (convert_spec fuel errno xs (spec_of d) mi w (prec_code pr) a) t (a + Z.of_nat (length u3))).
  { unfold u3, convert_spec. change (conv (spec_of d)) with (d_conv d). change (len (spec_of d)) with (d_len d).
    destruct (Z.eqb_spec (d_conv d) 37) as [E|_]; [|destruct (Z.eqb_spec (d_conv d) 109) as [E|_]]; cbn [orb].
    - injection Hr as <- <-. rewrite E. split_and!; [done|done|]. intros xs a _. cbn [length]. rewrite Z.add_0_r.
      apply (prints_bind _ _ [37] [] tt a); [apply prints_char|apply prints_ret].
    - injection Hr as <- <-. rewrite E. split_and!; [done|done|]. intros xs a _. cbn [length]. rewrite Z.add_0_r.
      rewrite <- (app_nil_r (string_text _ _ _ _)). eapply prints_bind; [|apply prints_ret].
      apply prints_string; [done|done|]. split; [done|apply strerror_bytes].
    - destruct args2 as [|b args2]; [done|]. apply Forall_cons_1 in Ha as [Hb _]. apply Forall_cons_1 in Hh as [Hhb _].
      destruct (render_arg _ _ _ _ _ _ _) as [t'|] eqn:Er; [|done]. injection Hr as <- <-.
      destruct (prints_convert d mi w pr b t' Hb Hhb Hw1 Hp2 Er) as [Ek Hc]. cbn [take app map length].
      assert (Hk : _arg_kind (d_conv d) (d_len d) <> K_NONE) by (rewrite <- Ek; by destruct b).
      split_and!; [done|rewrite Ek; by destruct (_arg_kind _ _)|]. intros xs a Hx.
      assert (Hall : yields (let* (x, a) := need (next_slot xs (pos (spec_of d)) a) in
        convert_slot fuel (spec_of d) mi w (prec_code pr) x ;;* ret a) t' (a + Z.of_nat 1)).
      { eapply prints_bind_need; [exact (next_slot_from _ _ _ _ Hx)|]. rewrite <- (app_nil_r t').
        eapply prints_bind; [exact Hc|apply prints_ret]. }
      by destruct (_arg_kind _ _). }
  destruct H3 as (E3 & K3 & W3). exists (u1 ++ u2 ++ u3). split_and!.
  - by rewrite E3, <- !app_assoc.
  - rewrite !map_app, K1, K2, K3. done.
  - intros xs a Hx. apply slots_from_app in Hx as [Hx1 Hx]. apply slots_from_app in Hx as [Hx2 Hx3].
    unfold directive. eapply prints_bind_need; [by apply W1|]. cbv beta iota. eapply prints_bind_need; [by apply W2|].
    cbv beta iota. rewrite !length_app. replace (a + Z.of_nat (length u1 + (length u2 + length u3))) with (a + Z.of_nat (length u1) + Z.of_nat (length u2) + Z.of_nat (length u3)) by lia.
    by apply W3.
Qed.

(** A whole format. *)
Lemma render_ok its : forall args text, Forall item_ok its -> Forall arg_ok args -> Forall arg_here args ->
  render errno its args = Some text ->
  map kind_of args = flat_map item_kinds its /\
  forall xs a k, slots_from xs a args -> (length (show its) < k)%nat ->
    yields (format_loop fuel errno xs k (show its) a) text tt.
Proof.
  induction its as [|i its IH]; intros args text Hi Ha Hh Hr.
  - destruct args; [|done]. injection Hr as <-. split; [done|]. intros xs a k _ Hk. destruct k; [cbn in Hk; lia|]. apply prints_ret.
  - apply Forall_cons_1 in Hi as [Hi0 Hi]. destruct i as [c|d]; cbn [render] in Hr.
    + destruct (render errno its args) as [u|] eqn:Eu; [|done]. injection Hr as <-. destruct Hi0 as [Hb Hc].
      destruct (IH args u Hi Ha Hh Eu) as [Ek Hl]. split; [done|]. intros xs a k Hx Hk.
      unfold show in *. cbn [flat_map show_item app length] in *. destruct k as [|k]; [lia|]. cbn [format_loop].
      replace (c =? 37) with false by lia. cbn [negb]. change (c :: u) with ([c] ++ u).
      apply (prints_bind _ _ [c] u tt tt); [|apply Hl; [done|lia]].
      unfold byte_ok in Hb. rewrite <- (u8_small c) at 2 by lia. apply prints_char.
    + destruct (render_dir errno d args) as [[t args']|] eqn:Ed; [|done]. cbn [mbind option_bind] in Hr.
      destruct (render errno its args') as [u|] eqn:Eu; [|done]. injection Hr as <-.
      destruct (render_dir_ok d args t args' Hi0 Ha Hh Ed) as (used & -> & Kd & Hd).
      apply Forall_app in Ha as [_ Ha]. apply Forall_app in Hh as [_ Hh].
      destruct (IH args' u Hi Ha Hh Eu) as [Ek Hl]. split; [by rewrite map_app, Kd, Ek|]. intros xs a k Hx Hk.
      apply slots_from_app in Hx as [Hx1 Hx2].
      unfold show in *. cbn [flat_map show_item app length] in *. rewrite length_app in Hk. destruct k as [|k]; [lia|].
      cbn [format_loop]. change (37 =? 37) with true. cbn [negb]. rewrite parse_show by done.
      eapply prints_bind; [by apply Hd|]. apply Hl; [done|lia].
Qed.

Lemma slots_from_all args : slots_from (map slot_of args) 1 args.
Proof.
  intros i u Hi. unfold slot_at. zdecide. replace (Z.to_nat (1 + Z.of_nat i - 1)) with i by lia.
  rewrite list_lookup_fmap. by rewrite Hi.
Qed.

(** The formatter hands the reference text to its sink and returns its length. *)
Lemma run_core_ok its args text x : Forall item_ok its -> Forall arg_ok args -> Forall arg_here args ->
  (length args <= 63)%nat -> render errno its args = Some text -> Z.of_nat (length text) <= limit -> Inv x [] ->
  wp (run_core fuel errno (show its) (flat_map arg_words args)) x (fun r x' => r = Z.of_nat (length text) /\ Inv x' text).
Proof.
  intros Hi Ha Hh Hn Hr Hl Hx. destruct (render_ok its args text Hi Ha Hh Hr) as [Ek Hf].
  assert (Hrun : wp (_vfmt_core fuel errno (show its) (flat_map arg_words args)) (x, Fout 0 [])
    (fun r st => r = Z.of_nat (length text) /\ Inv st.1 text)).
  { unfold _vfmt_core. rewrite collect_args_show by (rewrite <- ?Ek, ?length_map; done). apply wp_bind.
    apply wp_ret. rewrite <- Ek, fill_args_words by done. apply wp_bind, wp_ret, wp_bind.
    eapply wp_mono; [apply (Hf _ 1 (Datatypes.S (length (show its))) (slots_from_all args) ltac:(lia) (x, Fout 0 []) [])|].
    - exists []. cbn. split_and!; [done|done|done|lia|constructor|]. pose proof sink_limit. lia.
    - done.
    - intros u st [_ Hp]. cbn [app] in Hp. apply wp_bind. eapply wp_mono; [by apply flush_ok|].
      intros v [x' o] (_ & _ & Hc & Hi'). wp_pure. done. }
  apply wp_total in Hrun as (r & [x' o] & E & -> & Hi'). eapply wp_run; [unfold run_core; by rewrite E|]. done.
Qed.
End Conversions.

(** ** The buffer sink *)

Section Buffer.
Variables (m0 : mem) (d sz lim : Z).
Hypothesis Hsz : 0 <= sz < 2 ^ 32.
Hypothesis Hlim : 0 <= lim < 2 ^ 31.
Hypothesis Hwr : writable m0 d (Z.to_nat (Z.min sz (lim + 1))).

Definition buf_inv (x : mem * _buf_ctx_t) (out : str) : Prop :=
  x = (write_list d (take (Z.to_nat sz) out) m0, Buf d sz (Z.of_nat (length out))) /\ Z.of_nat (length out) <= lim.

(** A string that the buffer does not overlap. *)
Definition buf_str (p : Z) (l : str) : Prop :=
  cstr m0 p l /\ (p + Z.of_nat (length l) < d \/ d + Z.min sz (lim + 1) <= p).

Lemma buf_put_char_ok x out c : buf_inv x out -> byte_ok c -> Z.of_nat (length (out ++ [c])) <= lim ->
  wp (buf_put_char c) x (fun _ x' => buf_inv x' (out ++ [c])).
Proof.
  intros [-> _] Hc Hl. rewrite length_app in Hl. cbn [length] in Hl. unfold wp, buf_put_char. cbn [Printf.size bpos dst]. unfold byte_ok in Hc. rewrite Z.gtb_ltb, u32_small by lia.
  destruct (Z.ltb_spec (Z.of_nat (length out)) sz) as [Hin|Hout].
  - replace (0 <? sz) with true by lia. cbn [andb]. rewrite (take_ge out) by lia.
    assert (Hs : store8 (d + Z.of_nat (length out)) c (write_list d out m0)
      = Some (tt, write_list d (out ++ [c]) m0)).
    { apply wp_eq, wp_store8; [|split; [done|by rewrite u8_small, write_list_snoc by lia]].
      apply writable_write_list with (n := Z.to_nat (Z.min sz (lim + 1))); [done|lia]. }
    rewrite Hs. cbn. split; [|rewrite length_app; cbn; lia]. rewrite length_app. cbn [length].
    rewrite (take_ge (out ++ [c])) by (rewrite length_app; cbn; lia). by rewrite Nat2Z.inj_add.
  - rewrite andb_false_r. cbn. split; [|rewrite length_app; cbn; lia]. rewrite length_app, take_app_le by lia.
    cbn [length]. by rewrite Nat2Z.inj_add.
Qed.

#[local] Instance buf_sink_ok : SinkOk (mem * _buf_ctx_t) buf_inv buf_str lim.
Proof.
  split; [done| |].
  - intros x out l. revert x out. induction l as [|c l IH]; intros x out Hx Hb Hl.
    + cbn. by rewrite app_nil_r.
    + apply Forall_cons_1 in Hb as [Hc Hb]. change (c :: l) with ([c] ++ l) in Hl |- *. rewrite app_assoc in Hl |- *.
      change (put ([c] ++ l)) with (buf_put_char c ;;* put l). apply wp_bind.
      eapply wp_mono; [apply (buf_put_char_ok x out c Hx Hc); rewrite length_app in Hl; lia|].
      intros u x' Hx'. by apply IH.
  - intros [m b] out [[= -> ->] Hout]. eexists. split; [|by intros A c a E; cbn; rewrite E].
    intros p l [Hs Hd]. eapply cstr_same_outside; [apply same_outside_write_list| |done].
    rewrite length_take. lia.
Qed.

Lemma buf_start : buf_inv (m0, Buf d sz 0) [].
Proof. split; [by rewrite take_nil|cbn; lia]. Qed.
End Buffer.

(** The buffer after a call, for every size. *)
Lemma vsnprintf_text `{FloatText} fuel errno m d sz its args text :
  Forall item_ok its -> Forall arg_ok args -> (length args <= 63)%nat ->
  render errno its args = Some text -> Z.of_nat (length text) < 2 ^ 31 -> 0 <= sz < 2 ^ 32 ->
  let room := Z.min sz (Z.of_nat (length text) + 1) in
  writable m d (Z.to_nat room) ->
  Forall (fun a => match a with
    | AStr p l => cstr m p l /\ (length l < fuel)%nat /\ (p + Z.of_nat (length l) < d \/ d + room <= p)
    | _ => True end) args ->
  vsnprintf fuel errno d sz (show its) (flat_map arg_words args) m
  = Some (Z.of_nat (length text), if sz =? 0 then m else write_list d (take (Z.to_nat (sz - 1)) text ++ [0]) m).
Proof.
  intros Hi Ha Hn Hr Hl Hsz room Hw Hs. set (lim := Z.of_nat (length text)) in *.
  assert (Hlim : 0 <= lim < 2 ^ 31) by lia.
  pose proof (buf_sink_ok m d sz lim Hsz Hlim Hw) as Hok.
  assert (Hh : Forall (arg_here (Str := buf_str m d sz lim) fuel) args).
  { refine (List.Forall_impl _ _ Hs). intros [v|v|v|v|v|v|p|p l]; try done. by intros (? & ? & ?). }
  pose proof (run_core_ok fuel errno its args text (m, Buf d sz 0) Hi Ha Hh Hn Hr (Z.le_refl lim)
    (buf_start m d sz lim Hlim)) as Hrun.
  apply wp_total in Hrun as (r & x & E & -> & [-> Hlen]). unfold vsnprintf. rewrite E. cbn [mbind option_bind bpos].
  fold lim. rewrite s32_small by lia. destruct (Z.eqb_spec sz 0) as [->|Hz]; [by rewrite take_0|].
  rewrite Z.gtb_ltb. replace (0 <? sz) with true by lia.
  assert (Hst : store8 (d + (if lim <? sz then lim else sz - 1)) 0 (write_list d (take (Z.to_nat sz) text) m)
    = Some (tt, write_list d (take (Z.to_nat (sz - 1)) text ++ [0]) m)).
  { apply wp_eq, wp_store8.
    - assert (Hat : 0 <= (if lim <? sz then lim else sz - 1) < room) by (destruct (Z.ltb_spec lim sz); lia).
      rewrite <- (Z2Nat.id (if lim <? sz then lim else sz - 1)) by lia.
      apply (writable_write_list m d _ d (Z.to_nat room) Hw). lia.
    - split; [done|]. change (u8 0) with 0. rewrite write_list_snoc. destruct (Z.ltb_spec lim sz).
      + rewrite !take_ge by lia. done.
      + replace (Z.to_nat sz) with (S (Z.to_nat (sz - 1))) by lia.
        destruct (lookup_lt_is_Some_2 text (Z.to_nat (sz - 1))) as [c Hc]; [lia|].
        rewrite (take_S_r text _ c Hc), write_list_snoc, length_take, Nat.min_l by lia.
        rewrite Z2Nat.id by lia. by rewrite insert_insert_eq. }
  by rewrite Hst.
Qed.

(** C23: [vsnprintf] prints what the format means.  For every format made of
    literal characters and integer, character, string, pointer, [%m] and [%%]
    directives with any flags, widths (also from the argument list) and length
    modifiers, and precisions of at most 79 for the integer conversions, and at
    most 63 arguments of the right types on the stack, it returns the length of
    the reference text whatever [sz] is, stores as much of it as fits and a NUL,
    touches no other byte of memory, and neither the staging area nor its scratch
    array shows.  The reference text is not defined, and the theorem says
    nothing, for [h] and [hh] with [o], [x] and [X] and for [ll] and [j] with [o],
    where the formatter departs from the standard ([hex_char_not_narrowed],
    [octal_long_long_is_decimal]), for larger precisions
    ([precision_overruns_scratch]), and for floating point. *)
Theorem vsnprintf_renders `{FloatText} fuel errno m d sz its args text :
  Forall item_ok its -> Forall arg_ok args -> (length args <= 63)%nat ->
  render errno its args = Some text -> Z.of_nat (length text) < 2 ^ 31 -> 0 <= sz < 2 ^ 32 ->
  let room := Z.min sz (Z.of_nat (length text) + 1) in
  writable m d (Z.to_nat room) ->
  Forall (fun a => match a with
    | AStr p l => cstr m p l /\ (length l < fuel)%nat /\ (p + Z.of_nat (length l) < d \/ d + room <= p)
    | _ => True end) args ->
  vsnprintf fuel errno d sz (show its) (flat_map arg_words args) m
  = Some (Z.of_nat (length text), if sz =? 0 then m else write_list d (take (Z.to_nat (sz - 1)) text ++ [0]) m).
Proof. apply vsnprintf_text. Qed.

(** ** The stream sink *)

Section Stream.
Context {F : Type} `{Stdio.Output F received}.
Variables (m0 : mem) (f0 : Stdio.FILE) (before : str).

Definition file_inv (s : Stdio.io F) (out : str) : Prop :=
  Stdio.bytes s = m0 /\ Stdio.file s = f0 /\ received (Stdio.world s) (Stdio.fd f0) (before ++ out).

#[local] Instance file_sink_ok : SinkOk (Stdio.io F) file_inv (cstr m0) (2 ^ 31 - 1).
Proof.
  split; [lia| |].
  - intros s out l (Hb & Hf & Hr) _ _. rewrite <- Hf in Hr. eapply wp_mono; [by apply (Stdio.file_sink_put_all l)|].
    intros u s' (Hb' & Hf' & Hr'). unfold file_inv. rewrite Hb', Hf', app_assoc, <- Hf. done.
  - intros s out (Hb & _). exists m0. split; [done|]. intros A c a E. cbn. unfold Stdio.on_mem. rewrite Hb, E. cbn.
    rewrite <- Hb. by destruct s.
Qed.
End Stream.

(** [vfprintf] to a descriptor that may take its writes in pieces: the
    descriptor has received exactly the reference text, in order, whatever the
    staging area and the short writes cut it into, memory is unchanged, and the
    result is the length of the text. *)
Theorem vfprintf_renders `{FloatText} `{Stdio.Output F received} fuel errno (s : Stdio.io F) its args text before :
  Forall item_ok its -> Forall arg_ok args -> (length args <= 63)%nat ->
  render errno its args = Some text -> Z.of_nat (length text) < 2 ^ 31 ->
  Forall (fun a => match a with AStr p l => cstr (Stdio.bytes s) p l /\ (length l < fuel)%nat | _ => True end) args ->
  received (Stdio.world s) (Stdio.fd (Stdio.file s)) before ->
  wp (vfprintf fuel errno (show its) (flat_map arg_words args)) s (fun r s' =>
    r = Z.of_nat (length text) /\ Stdio.bytes s' = Stdio.bytes s /\
    received (Stdio.world s') (Stdio.fd (Stdio.file s)) (before ++ text)).
Proof.
  intros Hi Ha Hn Hr Hl Hs Hb. pose proof (file_sink_ok (Stdio.bytes s) (Stdio.file s) before) as Hok.
  assert (Hst : file_inv (Stdio.bytes s) (Stdio.file s) before s []) by (split_and!; [done|done|by rewrite app_nil_r]).
  eapply wp_mono; [apply (run_core_ok (Inv := file_inv (Stdio.bytes s) (Stdio.file s) before) (limit := 2 ^ 31 - 1) fuel errno its args text s Hi Ha Hs Hn Hr ltac:(lia) Hst)|].
  by intros r s' (-> & Hb' & _ & Hr').
Qed.

(** ** Concrete formats *)

(** No floating-point digits are asked for here. *)
#[local] Instance no_floats : FloatText := fun _ _ _ => (false, []).

(** [n=%-5d|%#06x|%.2s;] with -42, 255 and a string at 1000. *)
Definition sample : list item :=
  [Lit 110; Lit 61; Conv (Dir (Flags false true false false false false) (Num 5) None LEN_NONE 100);
   Lit 124; Conv (Dir (Flags true false false false true false) (Num 6) None LEN_NONE 120);
   Lit 124; Conv (Dir (Flags false false false false false false) Absent (Some (Num 2)) LEN_NONE 115); Lit 59].
Definition sample_args : list arg := [AInt (-42); AUInt 255; AStr 1000 [104; 101; 121]].
Definition sample_text : str := [110; 61; 45; 52; 50; 32; 32; 124; 48; 120; 48; 48; 102; 102; 124; 104; 101; 59].
Definition sample_mem : mem := write_list 1000 [104; 101; 121; 0] (write_list 100 (replicate 10 7) ∅).

Lemma sample_ok : Forall item_ok sample /\ Forall arg_ok sample_args.
Proof.
  split; repeat (apply List.Forall_cons; [|]); try apply List.Forall_nil; cbn; try lia;
  try (unfold byte_ok; lia); split_and!; try done; try lia; apply list_elem_of_In; cbn; lia.
Qed.

Lemma vsnprintf_renders_witness :
  vsnprintf 10 0 100 10 (show sample) (flat_map arg_words sample_args) sample_mem
  = Some (18, write_list 100 (take 9 sample_text ++ [0]) sample_mem).
Proof.
  apply (vsnprintf_renders 10 0 sample_mem 100 10 sample sample_args sample_text);
    [apply sample_ok|apply sample_ok|cbn; lia|vm_compute; reflexivity|cbn; lia|lia|solve_writable|].
  repeat (apply List.Forall_cons; [try exact I|]); [|apply List.Forall_nil].
  split; [solve_cstr|]. split; [cbn; lia|right; cbn; lia].
Defined.

#[local] Existing Instances Stdio.pipe_fds Stdio.pipe_output.

Definition sample_io : Stdio.io (list Z * list Z) := Stdio.Io sample_mem (Stdio.File 1 0 (-1)) ([], [33]).

Lemma vfprintf_renders_witness :
  wp (vfprintf 10 0 (show sample) (flat_map arg_words sample_args)) sample_io (fun r s' =>
    r = 18 /\ Stdio.bytes s' = sample_mem /\ Stdio.pipe_received (Stdio.world s') 1 ([33] ++ sample_text)).
Proof.
  apply (vfprintf_renders (received := Stdio.pipe_received) 10 0 sample_io sample sample_args sample_text [33]);
    [apply sample_ok|apply sample_ok|cbn; lia|vm_compute; reflexivity|cbn; lia| |reflexivity].
  repeat (apply List.Forall_cons; [try exact I|]); [|apply List.Forall_nil].
  split; [solve_cstr|cbn; lia].
Defined.

(** Where the formatter leaves the standard: [%llo] prints decimal, [%hhx] does
    not narrow its argument, and a precision of 100 writes past the scratch
    array for a number of five digits. *)
Theorem octal_long_long_is_decimal :
  vsnprintf 10 0 100 10 [37; 108; 108; 111] [8; 0] sample_mem
  = Some (1, write_list 100 [56; 0] sample_mem).
Proof. vm_compute. reflexivity. Qed.

Theorem hex_char_not_narrowed :
  vsnprintf 10 0 100 10 [37; 104; 104; 120] [0x1ff] sample_mem
  = Some (3, write_list 100 [49; 102; 102; 0] sample_mem).
Proof. vm_compute. reflexivity. Qed.

Theorem precision_overruns_scratch :
  vsnprintf 10 0 0 0 [37; 46; 49; 48; 48; 100] [12345] sample_mem = None.
Proof. vm_compute. reflexivity. Qed.

(** A position of 64 or more leaves the arrays of argument kinds. *)
Theorem position_overruns_kinds : _collect_args [37; 54; 52; 36; 100] = None.
Proof. vm_compute. reflexivity. Qed.

End PrintfSpec.
