(* ===== verification/Scanf.v ===== *)
(** * Scanf: src/scanf.c

    One scanner serves strings and streams: the source is a pointer into memory
    or the stream of [Stdio].  Arguments are the words of the caller's stack,
    all pointers.  [strtod] is the class [Strtod].  A token longer than its
    array and the use of the base that the floating-point case leaves unset are
    faults. *)

From Stdlib Require Import ZArith Lia Bool.
From stdpp Require Import base gmap list numbers.
From S2P Require Import Prelude Monad Memory Ctype CString Stdio Strerror Printf PrintfSpec.

Module Scanf.
Import Stdio.

Abbreviation str := (list Z).

(** The eight bytes of the [double] that a token denotes. *)
Class Strtod := strtod_bytes : str -> list Z.

Section Scan.
Context {F : Type} `{Fds F} `{Strtod}.
(** Fuel of the reading loops; where the characters come from. *)
Variables (fuel : nat) (from_file : bool).

(** The memory with the stream, and the string pointer [p]. *)
Record src := Src { sio : io F; sp : Z }.
Abbreviation SM := (St src).

Definition on_io {A} (c : St (io F) A) : SM A := fun s => '(a, i) ← c (sio s); Some (a, Src i (sp s)).
Definition set_sp (p : Z) : SM unit := modify (fun s => Src (sio s) p).

Definition _s_get : SM Z :=
  if from_file then on_io fgetc
  else
    let* p := gets sp in
    if p =? 0 then ret EOF
    else
      let* c := on_io (on_mem (load8 p)) in
      if c =? 0 then ret EOF else set_sp (p + 1) ;;* ret c.

Definition _s_unget (c : Z) : SM unit :=
  if c =? EOF then ret tt
  else if from_file then on_io (ungetc c) ;;* ret tt
  else
    let* p := gets sp in
    if p =? 0 then ret tt else set_sp (p - 1).

Definition _skip_ws : SM unit :=
  let* c := loop fuel (fun _ : unit =>
    let* c := _s_get in
    if negb (c =? EOF) && Ctype.isspace c then continue tt else break c) tt in
  if c =? EOF then ret tt else _s_unget c.

(** A store through a pointer argument; [dst] is null when suppressed. *)
Definition put_char (d i c : Z) : SM unit := if d =? 0 then ret tt else on_io (on_mem (store8 (d + i) c)).

Definition next_arg (ap : list Z) : SM (Z * list Z) := match ap with p :: ap => ret (u32 p, ap) | [] => fault end.
Definition dest (suppress : bool) (ap : list Z) : SM (Z * list Z) := if suppress then ret (0, ap) else next_arg ap.

(** The value of a digit in base 16, -1 for any other character. *)
Definition digit_value (c : Z) : Z :=
  if (48 <=? c) && (c <=? 57) then c - 48
  else if (97 <=? c) && (c <=? 102) then c - 97 + 10
  else if (65 <=? c) && (c <=? 70) then c - 65 + 10
  else -1.

Definition no_digit (c base : Z) : bool := (c =? EOF) || (digit_value c <? 0) || (digit_value c >=? base).

(** [%c]: the number of characters read. *)
Definition scan_chars (d n : Z) : SM Z :=
  loop fuel (fun got =>
    if got <? n then
      let* c := _s_get in
      if c =? EOF then break got else put_char d got c ;;* continue (got + 1)
    else break got) 0.

(** [%s]: up to white space, which is consumed. *)
Definition scan_word (d mx : Z) : SM Z :=
  loop fuel (fun got =>
    if got <? mx then
      let* c := _s_get in
      if (c =? EOF) || Ctype.isspace c then break got else put_char d got c ;;* continue (got + 1)
    else break got) 0.

(** The token of a floating-point conversion, in an array of 128 bytes. *)
Definition scan_token (mx : Z) : SM str :=
  loop fuel (fun tok =>
    if Z.of_nat (length tok) <? mx then
      let* c := _s_get in
      if (c =? EOF) || Ctype.isspace c then break tok
      else if Z.of_nat (length tok) <? 128 then continue (tok ++ [c]) else fault
    else break tok) [].

(** The digits after the first. *)
Definition scan_digits (base mx val : Z) : SM Z :=
  loop fuel (fun '(val, n) =>
    if n <? mx then
      let* c := _s_get in
      if no_digit c base then (if c =? EOF then ret tt else _s_unget c) ;;* break val
      else continue (u64 (val * base + digit_value c), n + 1)
    else break val) (val, 1).

(** An integer: the sign and the magnitude, or nothing. *)
Definition scan_int (base : Z) (allow_sign : bool) (width : Z) : SM (option (bool * Z)) :=
  let* c := _s_get in
  let* (neg, c) := if allow_sign && ((c =? 45) || (c =? 43)) then let* d := _s_get in ret (c =? 45, d) else ret (false, c) in
  if no_digit c base then (if c =? EOF then ret tt else _s_unget c) ;;* ret None
  else
    let* val := scan_digits base (if width =? 0 then 0x7fffffff else width) (digit_value c) in
    ret (Some (neg, val)).

Definition store_int (p : Z) (v : Z) : SM unit := on_io (on_mem (store32 p v)).

(** One conversion: [inl] leaves the scanner with the count. *)
Definition convert (suppress : bool) (width conv : Z) (ap : list Z) (count : Z) : SM (Z + list Z * Z) :=
  let counted := count + b2z (negb suppress) in
  if conv =? 37 then
    let* c := _s_get in
    if c =? 37 then ret (inr (ap, count)) else (if c =? EOF then ret tt else _s_unget c) ;;* ret (inl count)
  else if conv =? 99 then
    let* (d, ap) := dest suppress ap in
    let* got := scan_chars d (if width =? 0 then 1 else width) in
    if got =? 0 then ret (inl count) else ret (inr (ap, counted))
  else
    _skip_ws ;;*
    if conv =? 115 then
      let* (d, ap) := dest suppress ap in
      let* got := scan_word d (if width =? 0 then 0x7fffffff else width) in
      if got =? 0 then ret (inl count)
      else put_char d got 0 ;;* ret (inr (ap, counted))
    else if (conv =? 102) || (conv =? 101) || (conv =? 103) then
      let* tok := scan_token (if width =? 0 then 127 else width) in
      match tok with
      | [] => fault
      | _ =>
          if Z.of_nat (length tok) <? 128 then
            if suppress then ret (inr (ap, count))
            else let* (d, ap) := next_arg ap in on_io (on_mem (store_bytes d (strtod_bytes tok))) ;;* ret (inr (ap, count + 1))
          else fault
      end
    else
      let base := if (conv =? 100) || (conv =? 105) || (conv =? 117) then 10 else if conv =? 111 then 8
                  else if (conv =? 120) || (conv =? 88) then 16 else 0 in
      let signed := (conv =? 100) || (conv =? 105) in
      if base =? 0 then ret (inl count)
      else
        let* r := scan_int base signed width in
        match r with
        | None => ret (inl count)
        | Some (neg, val) =>
            if suppress then ret (inr (ap, count))
            else
              let* (p, ap) := next_arg ap in
              store_int p (if signed then s32 (if neg then - val else val) else u32 val) ;;*
              ret (inr (ap, count + 1))
        end.

(** The loop over the format. *)
Fixpoint scan_loop (k : nat) (f : str) (ap : list Z) (count : Z) : SM Z :=
  match k with
  | O => fault
  | S k =>
      match f with
      | [] => ret count
      | c :: f =>
          if Ctype.isspace c then _skip_ws ;;* scan_loop k f ap count
          else if negb (c =? 37) then
            let* d := _s_get in
            if d =? c then scan_loop k f ap count else (if d =? EOF then ret tt else _s_unget d) ;;* ret count
          else
            let '(suppress, f) := if Printf.cur f =? 42 then (true, tail f) else (false, f) in
            let '(width, f) := Printf._scan_uint f in
            let* r := convert suppress width (Printf.cur f) ap count in
            match r with inl count => ret count | inr (ap, count) => scan_loop k (tail f) ap count end
      end
  end.

Definition _vscan (format : str) (ap : list Z) : SM Z := scan_loop (S (length format)) format ap 0.

End Scan.

Section Family.
Context {F : Type} `{Fds F} `{Strtod}.
Variable fuel : nat.

Definition vfscanf (format : str) (ap : list Z) : St (io F) Z := fun i =>
  '(r, s) ← _vscan fuel true format ap (Src i 0); Some (r, sio s).

Definition vsscanf (p : Z) (format : str) (ap : list Z) : St (io F) Z := fun i =>
  '(r, s) ← _vscan fuel false format ap (Src i p); Some (r, sio s).

Definition fscanf (format : str) (ap : list Z) : St (io F) Z := vfscanf format ap.
Definition sscanf (p : Z) (format : str) (ap : list Z) : St (io F) Z := vsscanf p format ap.

(** The stream is the one of standard input. *)
Definition scanf (format : str) (ap : list Z) : St (io F) Z := vfscanf format ap.
End Family.


(** ** Reading a string *)

Section Strings.
Context {F : Type} `{Fds F} `{Strtod}.
Variable fuel : nat.
Implicit Types s : @src F.

(** The characters [l] are left to read in the string source. *)
Definition rest s (l : str) : Prop := sp s <> 0 /\ 0 < sp s /\ cstr (bytes (sio s)) (sp s) l.

(** [s] after [k] more characters. *)
Definition ahead (k : Z) s : src := Src (sio s) (sp s + k).

Lemma wp_get_char s c l (Q : Z -> src -> Prop) : rest s (c :: l) -> Q c (ahead 1 s) -> wp (_s_get false) s Q.
Proof.
  intros (Hnz & _ & Hc) HQ. apply cstr_cons in Hc as (Hm & Hc & _). unfold _s_get. wp_pure. zdecide. apply wp_bind.
  eapply wp_run; [unfold on_io, on_mem, load8; by rewrite Hm|]. cbv beta. zdecide. unfold set_sp. wp_pure.
  by destruct s as [[]].
Qed.

Lemma wp_get_end s (Q : Z -> src -> Prop) : rest s [] -> Q EOF s -> wp (_s_get false) s Q.
Proof.
  intros (Hnz & _ & Hc) HQ. apply cstr_nil in Hc. unfold _s_get. wp_pure. zdecide. apply wp_bind.
  eapply wp_run; [unfold on_io, on_mem, load8; by rewrite Hc|]. cbv beta. change (0 =? 0) with true. wp_pure.
  by destruct s as [[]].
Qed.

Lemma rest_ahead s c l : rest s (c :: l) -> rest (ahead 1 s) l.
Proof.
  intros (Hnz & Hp & Hc). apply cstr_cons in Hc as (_ & _ & Hc). unfold rest, ahead. cbn. split_and!; done || lia.
Qed.

Lemma wp_unget s c (Q : unit -> src -> Prop) : 0 < sp s -> c <> EOF -> Q tt s -> wp (_s_unget false c) (ahead 1 s) Q.
Proof.
  intros Hp Hc HQ. unfold _s_unget. zdecide. wp_pure. cbn [ahead sp]. zdecide. unfold set_sp. wp_pure. cbn [ahead sio sp].
  replace (sp s + 1 - 1) with (sp s) by lia. by destruct s.
Qed.

(** White space, one step and its end. *)
Lemma skip_ws_stop s l (Q : unit -> src -> Prop) : (0 < fuel)%nat -> rest s l ->
  (forall c, head l = Some c -> Ctype.isspace c = false) -> Q tt s -> wp (_skip_ws fuel false) s Q.
Proof.
  intros Hf Hr Hh HQ. unfold _skip_ws. apply wp_bind. destruct fuel as [|k]; [lia|]. apply wp_loop_step. apply wp_bind.
  destruct l as [|c l].
  - eapply wp_get_end; [done|]. change (EOF =? EOF) with true. cbn [negb andb]. wp_pure. change (EOF =? EOF) with true. by wp_pure.
  - pose proof Hr as (_ & Hp & Hc). apply cstr_cons in Hc as (_ & Hc & _).
    eapply wp_get_char; [done|]. rewrite (Hh c eq_refl), andb_false_r. wp_pure. unfold EOF. zdecide.
    apply wp_unget; [done|unfold EOF; lia|done].
Qed.

(** One separator before a character that is not white space. *)
Lemma skip_ws_one s c l (Q : unit -> src -> Prop) : (1 < fuel)%nat -> rest s (32 :: c :: l) ->
  Ctype.isspace c = false -> Q tt (ahead 1 s) -> wp (_skip_ws fuel false) s Q.
Proof.
  intros Hf Hr Hh HQ. pose proof (rest_ahead _ _ _ Hr) as Hr1. pose proof Hr1 as (_ & Hp & Hc).
  apply cstr_cons in Hc as (_ & Hc & _). unfold _skip_ws. apply wp_bind.
  destruct fuel as [|[|k]]; [lia..|]. apply wp_loop_step. apply wp_bind. eapply wp_get_char; [done|].
  change (32 =? EOF) with false. change (Ctype.isspace 32) with true. cbn [negb andb]. wp_pure.
  apply wp_loop_step. apply wp_bind. eapply wp_get_char; [done|]. rewrite Hh, andb_false_r. wp_pure. unfold EOF. zdecide.
  apply wp_unget; [done|unfold EOF; lia|done].
Qed.

(** ** Numbers *)

Definition decimal (c : Z) : Prop := 48 <= c <= 57.
Definition value (a : Z) (l : str) : Z := fold_left (fun v c => v * 10 + (c - 48)) l a.

Lemma value_ge l : forall a, 0 <= a -> Forall decimal l -> a <= value a l.
Proof.
  induction l as [|c l IH]; intros a Ha Hl; [done|]. apply Forall_cons_1 in Hl as [Hc Hl]. unfold decimal in Hc. cbn.
  specialize (IH (a * 10 + (c - 48)) ltac:(lia) Hl). unfold value in IH. lia.
Qed.

Lemma digit_value_decimal c : decimal c -> digit_value c = c - 48 /\ no_digit c 10 = false.
Proof.
  unfold decimal, no_digit, digit_value, EOF. intros Hc. zdecide. cbn [andb orb]. zdecide. done.
Qed.

(** What ends a number: the end of the text or a blank. *)
Definition ends (l : str) : Prop := match l with [] => True | c :: _ => c = 32 end.

Lemma scan_digits_run ds : forall k val n s l, (length ds < k)%nat -> rest s (ds ++ l) -> ends l -> Forall decimal ds ->
  0 <= val -> value val ds < 2 ^ 64 -> 0 < n -> n + Z.of_nat (length ds) < 0x7fffffff ->
  wp (loop k (fun '(val, n) =>
    if n <? 0x7fffffff then
      let* c := _s_get false in
      if no_digit c 10 then (if c =? EOF then ret tt else _s_unget false c) ;;* break val
      else continue (u64 (val * 10 + digit_value c), n + 1)
    else break val) (val, n)) s
    (fun r s' => r = value val ds /\ s' = ahead (Z.of_nat (length ds)) s).
Proof.
  induction ds as [|c ds IH]; intros k val n s l Hk Hr He Hd Hv Hlt Hn Hmax; destruct k as [|k]; try lia; apply wp_loop_step; zdecide; apply wp_bind.
  - cbn [app] in Hr. destruct l as [|c l].
    + eapply wp_get_end; [done|]. change (no_digit EOF 10) with true. change (EOF =? EOF) with true. wp_pure.
      split; [done|]. unfold ahead. cbn. rewrite Z.add_0_r. by destruct s.
    + cbn in He. subst c. eapply wp_get_char; [done|]. change (no_digit 32 10) with true. change (32 =? EOF) with false.
      wp_pure. destruct Hr as (_ & Hp & _). apply wp_unget; [done|done|]. wp_pure. split; [done|]. unfold ahead. cbn.
      rewrite Z.add_0_r. by destruct s.
  - apply Forall_cons_1 in Hd as [Hc Hd]. destruct (digit_value_decimal c Hc) as [Ev Hnd]. pose proof Hc as Hc2. unfold decimal in Hc2.
    cbn [app] in Hr. eapply wp_get_char; [done|]. rewrite Hnd, Ev. wp_pure. cbn [length] in *.
    change (value val (c :: ds)) with (value (val * 10 + (c - 48)) ds) in *.
    pose proof (value_ge ds (val * 10 + (c - 48)) ltac:(lia) Hd). rewrite u64_small by lia.
    eapply wp_mono; [apply (IH k (val * 10 + (c - 48)) (n + 1) (ahead 1 s) l); try done; try lia; by apply rest_ahead with (c := c)|].
    intros r s' [-> ->]. split; [done|]. unfold ahead. cbn. f_equal. lia.
Qed.

(** A decimal number, as [%d] prints it. *)
Definition dec_text (v : Z) : str := (if v <? 0 then [45] else []) ++ PrintfSpec.numeral 10 false (Z.abs v).

Lemma value_shown k : forall n, 0 <= n < 10 ^ Z.of_nat k -> value 0 (PrintfSpec.shown k 10 false n) = n.
Proof.
  induction k as [|k IH]; intros n Hn; [change (10 ^ Z.of_nat 0) with 1 in Hn; cbn; lia|]. cbn [PrintfSpec.shown].
  rewrite Nat2Z.inj_succ, Z.pow_succ_r in Hn by lia. unfold Printf.digit_char.
  pose proof (Z.mod_pos_bound n 10 ltac:(lia)). pose proof (Z.div_mod n 10 ltac:(lia)).
  destruct (Z.ltb_spec n 10); [zdecide; cbn; lia|]. unfold value in *. rewrite fold_left_app, IH.
  - cbn. zdecide. lia.
  - split; [apply Z.div_pos; lia|apply Z.div_lt_upper_bound; lia].
Qed.

Lemma dec_text_digits v : - 2 ^ 31 <= v < 2 ^ 31 -> exists c ds, PrintfSpec.numeral 10 false (Z.abs v) = c :: ds /\
  Forall decimal (c :: ds) /\ value (c - 48) ds = Z.abs v /\ (length ds < 64)%nat.
Proof.
  intros Hv. pose proof (PrintfSpec.numeral_length 10 false ltac:(lia) (Z.abs v) ltac:(lia)) as Hlen.
  pose proof (PrintfSpec.shown_digits 64 (Z.abs v) ltac:(lia)) as Hd.
  pose proof (value_shown 64 (Z.abs v) ltac:(lia)) as Hval. fold (PrintfSpec.numeral 10 false (Z.abs v)) in *.
  destruct (PrintfSpec.numeral 10 false (Z.abs v)) as [|c ds]; [cbn in Hlen; lia|]. exists c, ds.
  split; [done|]. split; [done|]. split; [exact Hval|cbn in Hlen; lia].
Qed.

(** One [%d] on the text of a number. *)
Lemma scan_int_text v s l : - 2 ^ 31 <= v < 2 ^ 31 -> (64 < fuel)%nat -> rest s (dec_text v ++ l) -> ends l ->
  wp (scan_int fuel false 10 true 0) s (fun r s' =>
    r = Some (v <? 0, Z.abs v) /\ s' = ahead (Z.of_nat (length (dec_text v))) s).
Proof.
  intros Hv Hf Hr He. destruct (dec_text_digits v Hv) as (c & ds & En & Hd & Hval & Hlen).
  apply Forall_cons_1 in Hd as [Hc Hd]. destruct (digit_value_decimal c Hc) as [Edv Hnd]. pose proof Hc as Hc2. unfold decimal in Hc2.
  unfold scan_int, dec_text in *. rewrite En in *.
  assert (Hrun : forall s1, rest s1 (ds ++ l) -> wp (scan_digits fuel false 10 0x7fffffff (c - 48)) s1
    (fun r s' => r = Z.abs v /\ s' = ahead (Z.of_nat (length ds)) s1)).
  { intros s1 Hr1. unfold scan_digits. rewrite <- Hval. apply (scan_digits_run ds fuel (c - 48) 1 s1 l); try done; try lia. }
  destruct (Z.ltb_spec v 0); cbn [app] in *.
  - apply wp_bind. eapply wp_get_char; [done|]. change ((45 =? 45) || (45 =? 43)) with true. cbn [andb]. wp_pure.
    pose proof (rest_ahead _ _ _ Hr) as Hr1. eapply wp_get_char; [done|]. wp_pure. rewrite Hnd. wp_pure.
    rewrite Edv. change (0 =? 0) with true. cbv iota. eapply wp_mono; [apply Hrun; by apply rest_ahead with (c := c)|].
    intros r s' [-> ->]. wp_pure. split; [done|]. unfold ahead. cbn [sio sp length]. f_equal. lia.
  - apply wp_bind. eapply wp_get_char; [done|]. replace ((c =? 45) || (c =? 43)) with false by lia. cbn [andb]. wp_pure.
    rewrite Hnd. wp_pure. rewrite Edv. change (0 =? 0) with true. cbv iota.
    eapply wp_mono; [apply Hrun; by apply rest_ahead with (c := c)|].
    intros r s' [-> ->]. wp_pure. split; [done|]. unfold ahead. cbn [sio sp length]. f_equal. lia.
Qed.

Lemma dec_text_head v l c : head (dec_text v ++ l) = Some c -> - 2 ^ 31 <= v < 2 ^ 31 -> Ctype.isspace c = false.
Proof.
  intros Hh Hv. destruct (dec_text_digits v Hv) as (d & ds & En & Hd & _). unfold dec_text in Hh. rewrite En in Hh.
  apply Forall_cons_1 in Hd as [Hd _]. unfold decimal in Hd. unfold Ctype.isspace.
  destruct (v <? 0); cbn in Hh; injection Hh as <-; [done|]. lia.
Qed.

Lemma rest_moved s s' k l1 l : sio s' = sio s -> sp s' = sp s + Z.of_nat k -> length l1 = k -> rest s (l1 ++ l) -> rest s' l.
Proof.
  intros Ei Ep Hk (Hnz & Hp & Hc). unfold rest. rewrite Ei, Ep. split_and!; [lia|lia|]. rewrite <- Hk. by apply cstr_app.
Qed.

(** The conversion [%d] stores the number through its pointer. *)
Lemma convert_int v s l q ap count : - 2 ^ 31 <= v < 2 ^ 31 -> (64 < fuel)%nat -> rest s (dec_text v ++ l) -> ends l ->
  0 <= q < 2 ^ 32 -> writable (bytes (sio s)) q 4 ->
  wp (convert fuel false false 0 100 (q :: ap) count) s (fun r s' => r = inr (ap, count + 1) /\
    s' = Src (Io (write_list q (word_bytes v) (bytes (sio s))) (file (sio s)) (world (sio s)))
             (sp s + Z.of_nat (length (dec_text v)))).
Proof.
  intros Hv Hf Hr He Hq Hw. unfold convert. change (100 =? 37) with false. change (100 =? 99) with false. cbv zeta iota.
  apply wp_bind. eapply skip_ws_stop; [lia|exact Hr|by intros c Hh; apply (dec_text_head v l c)|].
  change (100 =? 115) with false. change ((100 =? 102) || (100 =? 101) || (100 =? 103)) with false.
  change ((100 =? 100) || (100 =? 105) || (100 =? 117)) with true. change ((100 =? 100) || (100 =? 105)) with true.
  change (10 =? 0) with false. cbv iota. apply wp_bind.
  eapply wp_mono; [by apply (scan_int_text v s l)|]. intros r s' [-> ->]. cbv iota beta.
  apply wp_bind. eapply wp_run; [reflexivity|]. cbv iota beta. rewrite u32_small by done.
  replace (s32 (if v <? 0 then - Z.abs v else Z.abs v)) with v by (destruct (Z.ltb_spec v 0); rewrite s32_small; lia).
  apply wp_bind. eapply wp_run; [unfold store_int, on_io, on_mem; cbn [ahead sio]; by rewrite store32_eq|].
  by wp_pure.
Qed.

(** ** Lists of numbers *)

Definition int_dir : PrintfSpec.dir :=
  PrintfSpec.Dir (Printf.Flags false false false false false false) PrintfSpec.Absent None Printf.LEN_NONE 100.

(** [%d %d ... %d], and the text of the numbers. *)
Fixpoint int_items (vs : list Z) : list PrintfSpec.item :=
  match vs with
  | [] => []
  | [_] => [PrintfSpec.Conv int_dir]
  | _ :: vs => PrintfSpec.Conv int_dir :: PrintfSpec.Lit 32 :: int_items vs
  end.

Fixpoint ints_text (vs : list Z) : str :=
  match vs with
  | [] => []
  | [v] => dec_text v
  | v :: vs => dec_text v ++ 32 :: ints_text vs
  end.

(** The stores of the numbers through their pointers, in order. *)
Fixpoint store_all (ptrs vs : list Z) (m : mem) : mem :=
  match ptrs, vs with
  | q :: ptrs, v :: vs => store_all ptrs vs (write_list q (word_bytes v) m)
  | _, _ => m
  end.

Definition int_ok (v : Z) : Prop := - 2 ^ 31 <= v < 2 ^ 31.

(** A pointer to four writable bytes outside the text. *)
Definition target (m : mem) (p n q : Z) : Prop := 0 <= q < 2 ^ 32 /\ writable m q 4 /\ (q + 4 <= p \/ p + n < q).

Lemma target_later m p n q r v : target m p n q -> forall p' n', p <= p' -> p' + n' <= p + n ->
  target (write_list r (word_bytes v) m) p' n' q.
Proof. intros (? & Hw & ?) p' n' Hp Hn. split; [done|]. split; [by apply writable_write_list|lia]. Qed.

Lemma scan_ints vs : forall ptrs s count k, vs <> [] -> length ptrs = length vs -> Forall int_ok vs ->
  rest s (ints_text vs) -> Forall (target (bytes (sio s)) (sp s) (Z.of_nat (length (ints_text vs)))) ptrs ->
  (length (PrintfSpec.show (int_items vs)) < k)%nat -> (64 < fuel)%nat ->
  wp (scan_loop fuel false k (PrintfSpec.show (int_items vs)) ptrs count) s (fun r s' =>
    r = count + Z.of_nat (length vs) /\ bytes (sio s') = store_all ptrs vs (bytes (sio s))).
Proof.
  induction vs as [|v vs IH]; intros ptrs s count k Hne Hlen Hok Hr Ht Hk Hf; [done|]. clear Hne.
  destruct ptrs as [|q ptrs]; [done|]. apply Forall_cons_1 in Hok as [Hv Hok]. apply Forall_cons_1 in Ht as [(Hq & Hw & Hd) Ht].
  set (tail_text := match vs with [] => [] | _ => 32 :: ints_text vs end).
  assert (Et : ints_text (v :: vs) = dec_text v ++ tail_text) by (destruct vs; [by rewrite app_nil_r|done]).
  set (tail_fmt := match vs with [] => [] | _ => 32 :: PrintfSpec.show (int_items vs) end).
  assert (Ef : PrintfSpec.show (int_items (v :: vs)) = 37 :: 100 :: tail_fmt) by (by destruct vs).
  rewrite Ef, Et in *. assert (He : ends tail_text) by (by destruct vs).
  destruct k as [|k]; [lia|]. cbn [scan_loop]. change (Ctype.isspace 37) with false. change (37 =? 37) with true. cbn [negb].
  change (Printf.cur (100 :: tail_fmt) =? 42) with false. cbv iota beta.
  change (Printf._scan_uint (100 :: tail_fmt)) with (0, 100 :: tail_fmt). cbv iota beta. cbn [tail].
  change (Printf.cur (100 :: tail_fmt)) with 100. apply wp_bind.
  eapply wp_mono; [by apply (convert_int v s tail_text q ptrs count)|]. intros r s' [-> ->]. cbv iota beta.
  set (s1 := Src _ _). set (m1 := write_list q (word_bytes v) (bytes (sio s))) in *.
  assert (Hr1 : rest s1 tail_text).
  { destruct Hr as (Hnz & Hp & Hc). unfold rest, s1. cbn [sio sp bytes]. split_and!; [lia|lia|].
    apply cstr_app in Hc as Hc'. eapply cstr_same_outside; [apply same_outside_write_list| |exact Hc'].
    rewrite length_app in Hd. cbn [length word_bytes]. lia. }
  destruct vs as [|w vs].
  { destruct k as [|k]; [cbn in Hk; lia|]. cbn [tail_fmt scan_loop]. wp_pure. split; [done|]. destruct ptrs; [done|done]. }
  subst tail_text tail_fmt. cbv iota in *. destruct k as [|k]; [cbn in Hk; lia|].
  cbn [scan_loop]. change (Ctype.isspace 32) with true. cbv iota. apply wp_bind.
  assert (Hh : exists c l, ints_text (w :: vs) = c :: l /\ Ctype.isspace c = false).
  { assert (Hw2 : int_ok w) by (by apply Forall_cons_1 in Hok as [? _]).
    destruct (dec_text_digits w Hw2) as (c & ds & En & _).
    assert (Hne : exists c l, ints_text (w :: vs) = c :: l /\ head (dec_text w ++ match vs with [] => [] | _ => 32 :: ints_text vs end) = Some c).
    { unfold dec_text. cbn [ints_text]. unfold dec_text. rewrite En. destruct vs, (w <? 0); cbn; eauto. }
    destruct Hne as (c' & l' & E & Hhd). exists c', l'. split; [done|]. by apply (dec_text_head _ _ _ Hhd). }
  destruct Hh as (c & l & Ec & Hsp).
  eapply (skip_ws_one s1 c l); [lia|by rewrite <- Ec|done|].
  eapply wp_mono; [apply (IH ptrs (ahead 1 s1) (count + 1) k)|].
  - done.
  - by injection Hlen.
  - done.
  - by apply (rest_ahead s1 32).
  - refine (List.Forall_impl _ _ Ht). intros q' Hq'. cbn [ahead s1 sio sp bytes].
    apply (target_later _ _ _ _ _ _ Hq'); [lia|]. rewrite length_app. cbn [length]. lia.
  - cbn [length] in Hk. lia.
  - done.
  - intros r s2 [-> Em]. cbn [length]. split; [lia|]. rewrite Em. done.
Qed.


(** Pointers four bytes apart keep what was stored. *)
Definition apart (q r : Z) : Prop := q + 4 <= r \/ r + 4 <= q.

Lemma store_all_outside ptrs : forall vs m q, Forall (fun r => ~ (r <= q < r + 4)) ptrs -> store_all ptrs vs m !! q = m !! q.
Proof.
  induction ptrs as [|r ptrs IH]; intros vs m q Hq; [done|]. apply Forall_cons_1 in Hq as [Hr Hq].
  destruct vs as [|v vs]; [done|]. cbn [store_all]. rewrite IH by done.
  rewrite lookup_write_list, bool_decide_eq_false_2; [done|]. cbn. lia.
Qed.

Lemma store_all_at ptrs : forall vs m i q v, ForallOrdPairs apart ptrs -> ptrs !! i = Some q -> vs !! i = Some v ->
  bytes_at (store_all ptrs vs m) q (word_bytes v).
Proof.
  induction ptrs as [|r ptrs IH]; intros vs m i q v Hp Hq Hv; [done|]. inversion Hp as [|? ? Hr Hp']; subst.
  destruct vs as [|w vs]; [by rewrite lookup_nil in Hv|]. destruct i as [|i]; cbn in Hq, Hv.
  - injection Hq as ->. injection Hv as ->. cbn [store_all]. intros j b Hj. pose proof (lookup_lt_Some _ _ _ Hj) as Hlt. cbn in Hlt.
    rewrite store_all_outside.
    + by apply bytes_at_write_list.
    + refine (List.Forall_impl _ _ Hr). unfold apart. intros r Hap. lia.
  - cbn [store_all]. by apply (IH _ _ i).
Qed.
End Strings.

(** ** Printing and scanning back *)

Lemma render_ints errno vs : Forall int_ok vs ->
  PrintfSpec.render errno (int_items vs) (map PrintfSpec.AInt vs) = Some (ints_text vs).
Proof.
  intros Hok. induction Hok as [|v vs Hv Hok IH]; [done|].
  assert (Hd : forall args, PrintfSpec.render_dir errno int_dir (PrintfSpec.AInt v :: args) = Some (dec_text v, args)).
  { intros args. unfold PrintfSpec.render_dir, dec_text. cbn [PrintfSpec.eff_width PrintfSpec.eff_prec int_dir PrintfSpec.d_flags
      PrintfSpec.d_width PrintfSpec.d_prec PrintfSpec.d_conv PrintfSpec.d_len mbind option_bind].
    change (100 =? 37) with false. change (100 =? 109) with false. cbv iota. unfold PrintfSpec.render_arg.
    change (Printf.is_signed 100) with true. cbn [PrintfSpec.signed_value mbind option_bind PrintfSpec.prec_fits].
    unfold PrintfSpec.signed_text, PrintfSpec.field. cbn [Printf.f_zero Printf.f_plus Printf.f_space andb PrintfSpec.int_digits].
    by replace (Z.to_nat (0 - _)) with 0%nat by lia. }
  destruct vs as [|w vs].
  - cbn [int_items map PrintfSpec.render]. rewrite Hd. cbn. by rewrite app_nil_r.
  - change (int_items (v :: w :: vs)) with (PrintfSpec.Conv int_dir :: PrintfSpec.Lit 32 :: int_items (w :: vs)).
    change (map PrintfSpec.AInt (v :: w :: vs)) with (PrintfSpec.AInt v :: map PrintfSpec.AInt (w :: vs)).
    set (its := int_items (w :: vs)) in *. set (args := map PrintfSpec.AInt (w :: vs)) in *.
    cbn [PrintfSpec.render]. rewrite Hd. cbn [mbind option_bind]. by rewrite IH.
Qed.

Lemma int_items_ok vs : Forall PrintfSpec.item_ok (int_items vs).
Proof.
  induction vs as [|v vs IH]; [constructor|].
  assert (Hd : PrintfSpec.item_ok (PrintfSpec.Conv int_dir)) by (cbn; split_and!; [done|done|apply list_elem_of_In; cbn; lia]).
  destruct vs; cbn [int_items]; [by repeat constructor|]. repeat constructor; done || (unfold byte_ok; lia).
Qed.

Lemma ints_text_length vs : Forall int_ok vs -> (length (ints_text vs) <= 66 * length vs)%nat.
Proof.
  intros Hok. induction Hok as [|v vs Hv Hok IH]; [cbn; lia|].
  assert (Hd : (length (dec_text v) <= 65)%nat).
  { destruct (dec_text_digits v Hv) as (c & ds & En & _ & _ & Hl). unfold dec_text. rewrite En, length_app. destruct (v <? 0); cbn; lia. }
  destruct vs as [|w vs]; cbn [ints_text length] in *; [lia|]. rewrite length_app. cbn [length] in *. lia.
Qed.

Lemma ints_text_bytes vs : Forall int_ok vs -> Forall (fun c => 0 < c < 256) (ints_text vs).
Proof.
  intros Hok. induction Hok as [|v vs Hv Hok IH]; [constructor|].
  assert (Hd : Forall (fun c => 0 < c < 256) (dec_text v)).
  { destruct (dec_text_digits v Hv) as (c & ds & En & Hd & _). unfold dec_text. rewrite En. apply Forall_app. split.
    - destruct (v <? 0); repeat constructor; lia.
    - refine (List.Forall_impl _ _ Hd). unfold decimal. lia. }
  destruct vs as [|w vs]; cbn [ints_text] in *; [done|]. apply Forall_app. split; [done|]. constructor; [lia|done].
Qed.

(** C24: [sscanf] undoes [snprintf]: any list of 1 to 63 [int]s, printed by the
    format [%d %d ... %d] into a buffer with room for the text, and scanned back
    from that buffer by the same format into pointers that are apart from each
    other and from the text, is stored, every number (the least [int] included)
    at its pointer, and the scanner answers their number.  (With 64 or more
    arguments the formatter leaves its arrays.) *)
Theorem sscanf_snprintf `{Printf.FloatText} {F} `{Fds F} `{Strtod} fuel errno vs ptrs d sz (s : io F) :
  vs <> [] -> (length vs <= 63)%nat -> Forall int_ok vs -> length ptrs = length vs -> (64 < fuel)%nat -> 0 < d ->
  let n := Z.of_nat (length (ints_text vs)) in
  n < sz < 2 ^ 32 -> writable (bytes s) d (Z.to_nat (n + 1)) ->
  Forall (target (bytes s) d n) ptrs -> ForallOrdPairs apart ptrs ->
  let format := PrintfSpec.show (int_items vs) in
  exists m1, Printf.vsnprintf fuel errno d sz format (map u32 vs) (bytes s) = Some (n, m1) /\
    wp (vsscanf fuel d format ptrs) (Io m1 (file s) (world s)) (fun r s' => r = Z.of_nat (length vs) /\
      forall i q v, ptrs !! i = Some q -> vs !! i = Some v -> bytes_at (bytes s') q (word_bytes v)).
Proof.
  intros Hne Hn Hok Hlen Hf Hd n Hsz Hw Ht Hap format.
  pose proof (ints_text_length vs Hok) as Hl.
  assert (Hwords : flat_map PrintfSpec.arg_words (map PrintfSpec.AInt vs) = map u32 vs) by (clear; induction vs as [|v vs IH]; [done|cbn; by rewrite IH]).
  pose proof (PrintfSpec.vsnprintf_text fuel errno (bytes s) d sz (int_items vs) (map PrintfSpec.AInt vs) (ints_text vs)) as Hp.
  rewrite Hwords in Hp. eexists. split.
  { apply Hp; [apply int_items_ok| |by rewrite length_map|by apply render_ints|lia|lia| |].
    - clear - Hok. induction Hok; constructor; done.
    - fold n. by rewrite Z.min_r by lia.
    - generalize (length (ints_text vs)). clear. intros L. induction vs; constructor; done. }
  clear Hp. zdecide. rewrite take_ge by lia. set (m1 := write_list d _ _).
  assert (Hs1 : cstr m1 d (ints_text vs)).
  { split; [apply bytes_at_write_list|by apply ints_text_bytes]. }
  assert (Hrun : wp (_vscan fuel false format ptrs) (Src (Io m1 (file s) (world s)) d) (fun r s' =>
    r = Z.of_nat (length vs) /\ bytes (sio s') = store_all ptrs vs m1)).
  { unfold _vscan. eapply wp_mono; [apply (scan_ints fuel vs ptrs); try done; [split_and!; cbn; done || lia| |unfold format; lia]|].
    - cbn [sio sp bytes]. refine (List.Forall_impl _ _ Ht). intros q (Hq & Hwq & Hdq). split; [done|].
      split; [by apply writable_write_list|done].
    - intros r s' [-> Em]. split; [lia|done]. }
  apply wp_total in Hrun as (r & s' & E & -> & Em). eapply wp_run; [unfold vsscanf; by rewrite E|]. split; [done|].
  intros i q v Hq Hv. rewrite Em. by apply (store_all_at ptrs vs m1 i).
Qed.

(** ** Concrete calls *)

#[local] Instance no_floats : Printf.FloatText := fun _ _ _ => (false, []).
#[local] Instance no_strtod : Strtod := fun _ => replicate 8 0.
#[local] Existing Instances Stdio.pipe_fds.

(** A buffer at 100 and two [int]s at 500 and 504. *)
Definition sample_io : io (list Z * list Z) :=
  Io (write_list 100 (replicate 32 7) (write_list 500 (replicate 8 7) ∅)) (File 0 0 (-1)) ([], []).

Lemma sscanf_snprintf_witness :
  exists m1, Printf.vsnprintf 70 0 100 32 [37; 100; 32; 37; 100] [u32 (-2147483648); 42] (bytes sample_io) = Some (14, m1) /\
    wp (vsscanf 70 100 [37; 100; 32; 37; 100] [500; 504]) (Io m1 (file sample_io) (world sample_io)) (fun r s' => r = 2 /\
      forall i q v, [500; 504] !! i = Some q -> [-2147483648; 42] !! i = Some v -> bytes_at (bytes s') q (word_bytes v)).
Proof.
  apply (sscanf_snprintf 70 0 [-2147483648; 42] [500; 504] 100 32 sample_io); try done; try (cbn; lia).
  - repeat constructor; lia.
  - solve_writable.
  - apply List.Forall_cons; [|apply List.Forall_cons; [|apply List.Forall_nil]]; (split; [lia|]); (split; [solve_writable|right; vm_compute; reflexivity]).
  - repeat constructor; unfold apart; lia.
Defined.

(** The text [t] at 100, scanned with the pointers 500 and 504. *)
Definition scan_text (t format : str) : option (Z * list Z) :=
  '(r, s) ← vsscanf 70 100 format [500; 504] (Io (write_list 100 (t ++ [0]) (bytes sample_io)) (File 0 0 (-1)) ([], []));
  '(l, _) ← load_bytes 500 8 (bytes s); Some (r, l).

(** [%s] consumes the blank that ends its word: the [%c] of ["%s%c"] on ["a b"]
    stores the letter behind the blank. *)
Theorem word_consumes_blank : scan_text [97; 32; 98] [37; 115; 37; 99] = Some (2, [97; 0; 7; 7; 98; 7; 7; 7]).
Proof. vm_compute. reflexivity. Qed.

(** At the end of the input a floating-point conversion goes on with a base that
    was never set. *)
Theorem float_at_end_unset_base : scan_text [] [37; 102] = None.
Proof. vm_compute. reflexivity. Qed.

(** An input that ends before the first conversion gives 0, not [EOF]. *)
Theorem end_of_input_is_zero : scan_text [] [37; 100] = Some (0, [7; 7; 7; 7; 7; 7; 7; 7]).
Proof. vm_compute. reflexivity. Qed.

End Scanf.
