(* ===== verification/ArithExp.v ===== *)
(** * ArithExp: the arithmetic of word expansion, src/wordexp.c

    The recursive-descent evaluator behind [$((...))] and the offsets of
    substring expansions: ten levels of binary operators, unary operators,
    parentheses, numbers and variables, over 64-bit integers.  Characters are
    codes, the text is the list of those still to read, an error is a flag that
    is never cleared.  The theorem gives the evaluator an independent meaning:
    on the written form of an expression it computes the expression's value. *)

From Stdlib Require Import ZArith Lia Bool.
From stdpp Require Import base gmap list numbers.
From S2P Require Import Prelude Printf PrintfSpec.

Module ArithExp.

Abbreviation str := (list Z).

Definition name_st (c : Z) : bool := (c =? 95) || ((97 <=? c) && (c <=? 122)) || ((65 <=? c) && (c <=? 90)).
Definition name_ch (c : Z) : bool := name_st c || ((48 <=? c) && (c <=? 57)).

Record arith := Ar { p : str; err : bool }.

Definition at0 (l : str) : Z := default 0 (head l).
Definition at1 (l : str) : Z := at0 (tail l).

Definition blank (c : Z) : bool := (c =? 32) || (c =? 9) || (c =? 10).
Fixpoint skip (l : str) : str := match l with c :: l' => if blank c then skip l' else l | [] => [] end.
Definition _a_skip (a : arith) : arith := Ar (skip (p a)) (err a).

Definition _is_hex (c : Z) : bool := ((48 <=? c) && (c <=? 57)) || ((97 <=? c) && (c <=? 102)) || ((65 <=? c) && (c <=? 70)).
Definition _hexval (c : Z) : Z :=
  if (48 <=? c) && (c <=? 57) then c - 48 else if (97 <=? c) && (c <=? 102) then c - 97 + 10 else c - 65 + 10.
Definition is_dec (c : Z) : bool := (48 <=? c) && (c <=? 57).
Definition is_oct (c : Z) : bool := (48 <=? c) && (c <=? 55).

(** A run of digits: [while (ok(p)) { v = v * base + val(p); p++; }]. *)
Fixpoint digits (ok : Z -> bool) (val : Z -> Z) (base : Z) (l : str) (v : Z) : Z * str :=
  match l with
  | c :: l' => if ok c then digits ok val base l' (s64 (v * base + val c)) else (v, l)
  | [] => (v, l)
  end.

Definition number (l : str) : Z * str :=
  if (at0 l =? 48) && ((at1 l =? 120) || (at1 l =? 88)) then digits _is_hex _hexval 16 (tail (tail l)) 0
  else if (at0 l =? 48) && is_oct (at1 l) then digits is_oct (fun c => c - 48) 8 (tail l) 0
  else digits is_dec (fun c => c - 48) 10 l 0.

(** At most [k] characters of a name. *)
Fixpoint take_name (k : nat) (l : str) : str * str :=
  match k, l with
  | S k, c :: l' => if name_ch c then let '(n, r) := take_name k l' in (c :: n, r) else ([], l)
  | _, _ => ([], l)
  end.

(** The number a variable's value starts with. *)
Definition env_number (v : str) : Z :=
  if at0 v =? 45 then s64 (- (digits is_dec (fun c => c - 48) 10 (tail v) 0).1)
  else (digits is_dec (fun c => c - 48) 10 (if at0 v =? 43 then tail v else v) 0).1.

(** The binary operators, by level. *)
Inductive binop := LOr | LAnd | BOr | BXor | BAnd | Eq | Ne | Le | Ge | Lt | Gt | Shl | Shr | Add | Sub | Mul | Div | Mod.

#[export] Instance binop_eq_dec : EqDecision binop.
Proof. solve_decision. Defined.

(** The operator a level recognises in the next two characters, with its length. *)
Definition op_at (lv : nat) (c1 c2 : Z) : option (binop * nat) :=
  match lv with
  | 0%nat => if (c1 =? 124) && (c2 =? 124) then Some (LOr, 2%nat) else None
  | 1%nat => if (c1 =? 38) && (c2 =? 38) then Some (LAnd, 2%nat) else None
  | 2%nat => if negb (c1 =? 124) || (c2 =? 124) then None else Some (BOr, 1%nat)
  | 3%nat => if c1 =? 94 then Some (BXor, 1%nat) else None
  | 4%nat => if negb (c1 =? 38) || (c2 =? 38) then None else Some (BAnd, 1%nat)
  | 5%nat => if (c1 =? 61) && (c2 =? 61) then Some (Eq, 2%nat)
             else if (c1 =? 33) && (c2 =? 61) then Some (Ne, 2%nat) else None
  | 6%nat => if (c1 =? 60) && (c2 =? 61) then Some (Le, 2%nat)
             else if (c1 =? 62) && (c2 =? 61) then Some (Ge, 2%nat)
             else if (c1 =? 60) && negb (c2 =? 60) then Some (Lt, 1%nat)
             else if (c1 =? 62) && negb (c2 =? 62) then Some (Gt, 1%nat) else None
  | 7%nat => if (c1 =? 60) && (c2 =? 60) then Some (Shl, 2%nat)
             else if (c1 =? 62) && (c2 =? 62) then Some (Shr, 2%nat) else None
  | 8%nat => if c1 =? 43 then Some (Add, 1%nat) else if c1 =? 45 then Some (Sub, 1%nat) else None
  | _ => if c1 =? 42 then Some (Mul, 1%nat) else if c1 =? 47 then Some (Div, 1%nat)
         else if c1 =? 37 then Some (Mod, 1%nat) else None
  end.

(** [None] is a division by zero. *)
Definition apply_op (o : binop) (v r : Z) : option Z :=
  match o with
  | LOr => Some (b2z (negb (v =? 0) || negb (r =? 0)))
  | LAnd => Some (b2z (negb (v =? 0) && negb (r =? 0)))
  | BOr => Some (Z.lor v r)
  | BXor => Some (Z.lxor v r)
  | BAnd => Some (Z.land v r)
  | Eq => Some (b2z (v =? r))
  | Ne => Some (b2z (negb (v =? r)))
  | Le => Some (b2z (v <=? r))
  | Ge => Some (b2z (r <=? v))
  | Lt => Some (b2z (v <? r))
  | Gt => Some (b2z (r <? v))
  | Shl => Some (s64 (Z.shiftl v (Z.land r 63)))
  | Shr => Some (Z.shiftr v (Z.land r 63))
  | Add => Some (s64 (v + r))
  | Sub => Some (s64 (v - r))
  | Mul => Some (s64 (v * r))
  | Div => if r =? 0 then None else Some (s64 (Z.quot v r))
  | Mod => if r =? 0 then None else Some (Z.rem v r)
  end.

Inductive unop := Neg | Pos | Not | Compl.

Definition unop_at (c : Z) : option unop :=
  if c =? 45 then Some Neg else if c =? 43 then Some Pos else if c =? 33 then Some Not else if c =? 126 then Some Compl else None.

Definition apply_un (o : unop) (v : Z) : Z :=
  match o with Neg => s64 (- v) | Pos => v | Not => b2z (v =? 0) | Compl => Z.lnot v end.

Section Eval.
Variable getenv : str -> option str.

(** A variable, with or without the dollar sign and an opening brace. *)
Definition variable (l : str) : Z * str :=
  let l := if at0 l =? 36 then (let l := tail l in if at0 l =? 123 then tail l else l) else l in
  let '(name, l) := take_name 127 l in
  let l := if at0 l =? 125 then tail l else l in
  (match getenv name with Some v => env_number v | None => 0 end, l).

(** The functions of the evaluator; [None] is a lack of fuel. *)
Fixpoint _a_bin (fuel : nat) (lv : nat) (a : arith) {struct fuel} : option (Z * arith) :=
  match fuel with
  | O => None
  | S fuel =>
      '(v, a) ← (if (lv =? 9)%nat then _a_unary fuel a else _a_bin fuel (S lv) a);
      a_loop fuel lv v a
  end
with a_loop (fuel : nat) (lv : nat) (v : Z) (a : arith) {struct fuel} : option (Z * arith) :=
  match fuel with
  | O => None
  | S fuel =>
      if err a then Some (v, a)
      else
        let a := _a_skip a in
        match op_at lv (at0 (p a)) (at1 (p a)) with
        | None => Some (v, a)
        | Some (o, k) =>
            let a := Ar (drop k (p a)) (err a) in
            '(r, a) ← (if (lv =? 9)%nat then _a_unary fuel a else _a_bin fuel (S lv) a);
            match apply_op o v r with
            | None => Some (0, Ar (p a) true)
            | Some v => a_loop fuel lv v a
            end
        end
  end
with _a_unary (fuel : nat) (a : arith) {struct fuel} : option (Z * arith) :=
  match fuel with
  | O => None
  | S fuel =>
      let a := _a_skip a in
      match unop_at (at0 (p a)) with
      | Some o => '(v, a) ← _a_unary fuel (Ar (tail (p a)) (err a)); Some (apply_un o v, a)
      | None => _a_prim fuel a
      end
  end
with _a_prim (fuel : nat) (a : arith) {struct fuel} : option (Z * arith) :=
  match fuel with
  | O => None
  | S fuel =>
      let a := _a_skip a in
      if at0 (p a) =? 40 then
        '(v, a) ← _a_bin fuel 0 (Ar (tail (p a)) (err a));
        let a := _a_skip a in
        Some (if at0 (p a) =? 41 then (v, Ar (tail (p a)) (err a)) else (0, Ar (p a) true))
      else if name_st (at0 (p a)) || (at0 (p a) =? 36) then
        let '(v, l) := variable (p a) in Some (v, Ar l (err a))
      else if is_dec (at0 (p a)) then
        let '(v, l) := number (p a) in Some (v, Ar l (err a))
      else Some (0, Ar (p a) true)
  end.

(** Enough for every text: a level or a character is used up at each call. *)
Definition arith_fuel (l : str) : nat := 16 * length l + 20.

(** The value and the error flag. *)
Definition _eval_arith (body : str) : option (Z * bool) :=
  '(v, a) ← _a_bin (arith_fuel body) 0 (Ar body false);
  let a := _a_skip a in
  Some (if err a || negb (at0 (p a) =? 0) then (0, true) else (v, false)).

(** ** Termination *)

Lemma skip_length l : (length (skip l) <= length l)%nat.
Proof. induction l as [|c l IH]; [done|]. cbn [skip]. destruct (blank c); cbn; lia. Qed.

Lemma digits_length ok val base l : forall v, (length (digits ok val base l v).2 <= length l)%nat.
Proof. induction l as [|c l IH]; intros v; [done|]. cbn [digits]. destruct (ok c); [|done]. specialize (IH (s64 (v * base + val c))). cbn. lia. Qed.

Lemma take_name_length k : forall l, (length (take_name k l).2 <= length l)%nat.
Proof.
  induction k as [|k IH]; intros [|c l]; try done. cbn [take_name]. destruct (name_ch c); [|done].
  specialize (IH l). destruct (take_name k l). cbn in *. lia.
Qed.

Lemma tail_length {A} (l : list A) : (length (tail l) <= length l)%nat.
Proof. destruct l; cbn; lia. Qed.

Lemma variable_length l : (length (variable l).2 <= length l)%nat.
Proof.
  unfold variable. set (l0 := if at0 l =? 36 then _ else _).
  assert (H0 : (length l0 <= length l)%nat).
  { unfold l0. destruct (at0 l =? 36); [|done]. pose proof (tail_length l). pose proof (tail_length (tail l)).
    destruct (at0 (tail l) =? 123); lia. }
  pose proof (take_name_length 127 l0). destruct (take_name 127 l0) as [n r]. cbn [snd] in *. pose proof (tail_length r).
  destruct (at0 r =? 125); lia.
Qed.

Lemma number_length l : (length (number l).2 <= length l)%nat.
Proof.
  unfold number. pose proof (tail_length l). pose proof (tail_length (tail l)).
  repeat case_match; (etransitivity; [apply digits_length|]); lia.
Qed.

(** A result that reads on and keeps an error. *)
Definition reads (a : arith) (r : option (Z * arith)) : Prop :=
  exists v a', r = Some (v, a') /\ (length (p a') <= length (p a))%nat /\ (err a = true -> err a' = true).

Lemma op_at_length lv l o k : op_at lv (at0 l) (at1 l) = Some (o, k) -> (length (drop k l) < length l)%nat.
Proof.
  intros H. assert (Hk : (0 < k)%nat) by (unfold op_at in H; repeat case_match; simplify_eq; lia).
  destruct l as [|c l]; [|rewrite length_drop; cbn; lia].
  exfalso. change (at0 []) with 0 in H. change (at1 []) with 0 in H. do 10 (destruct lv as [|lv]; [done|]). done.
Qed.

Lemma unop_at_length l o : unop_at (at0 l) = Some o -> (length (tail l) < length l)%nat.
Proof. destruct l; [done|]. cbn. lia. Qed.

(** Every function returns when it has the fuel its measure asks for. *)
Lemma arith_total n :
  (forall lv a, (lv <= 9)%nat -> (16 * length (p a) + 14 - lv <= n)%nat -> reads a (_a_bin n lv a)) /\
  (forall lv v a, (lv <= 9)%nat -> (16 * length (p a) + 4 <= n)%nat -> reads a (a_loop n lv v a)) /\
  (forall a, (16 * length (p a) + 2 <= n)%nat -> reads a (_a_unary n a)) /\
  (forall a, (16 * length (p a) + 1 <= n)%nat -> reads a (_a_prim n a)).
Proof.
  induction n as [|n (IHb & IHl & IHu & IHp)]; [split_and!; intros; lia|].
  assert (Hoperand : forall lv a, (lv <= 9)%nat -> (16 * length (p a) + 14 - S lv <= n)%nat ->
    reads a (if (lv =? 9)%nat then _a_unary n a else _a_bin n (S lv) a)).
  { intros lv a Hlv Hn. destruct (Nat.eqb_spec lv 9) as [->|]; [apply IHu; lia|apply IHb; lia]. }
  split_and!.
  - intros lv a Hlv Hn. cbn [_a_bin]. destruct (Hoperand lv a Hlv ltac:(lia)) as (v & a1 & -> & Hl1 & He1). cbn [mbind option_bind].
    destruct (IHl lv v a1 Hlv ltac:(lia)) as (v2 & a2 & -> & Hl2 & He2). exists v2, a2. split; [done|]. split; [lia|auto].
  - intros lv v a Hlv Hn. cbn [a_loop]. destruct (err a) eqn:Ee; [by exists v, a|]. cbn [_a_skip p].
    pose proof (skip_length (p a)). destruct (op_at lv _ _) as [[o k]|] eqn:Eo.
    + pose proof (op_at_length _ _ _ _ Eo) as Hd.
      destruct (Hoperand lv (Ar (drop k (skip (p a))) (err (_a_skip a))) Hlv) as (r & a1 & -> & Hl1 & He1); [cbn [p]; lia|].
      cbn [mbind option_bind p] in *. destruct (apply_op o v r) as [w|].
      * destruct (IHl lv w a1 Hlv ltac:(lia)) as (v2 & a2 & -> & Hl2 & He2). exists v2, a2. split; [done|]. split; [lia|congruence].
      * eexists _, _. split; [reflexivity|]. cbn [p err]. split; [lia|done].
    + eexists _, _. split; [reflexivity|]. cbn [p err _a_skip]. split; [lia|congruence].
  - intros a Hn. cbn [_a_unary _a_skip p]. pose proof (skip_length (p a)). destruct (unop_at _) as [o|] eqn:Eo.
    + pose proof (unop_at_length _ _ Eo).
      destruct (IHu (Ar (tail (skip (p a))) (err (_a_skip a)))) as (v & a1 & -> & Hl1 & He1); [cbn [p]; lia|].
      cbn [mbind option_bind p err] in *. eexists _, _. split; [reflexivity|]. split; [lia|done].
    + destruct (IHp (_a_skip a)) as (v & a1 & -> & Hl1 & He1); [cbn [_a_skip p]; lia|].
      cbn [_a_skip p err] in *. eexists _, _. split; [reflexivity|]. split; [lia|done].
  - intros a Hn. cbn [_a_prim _a_skip p]. pose proof (skip_length (p a)).
    destruct (Z.eqb_spec (at0 (skip (p a))) 40) as [E40|_].
    + assert (Hd : (length (tail (skip (p a))) < length (skip (p a)))%nat) by (destruct (skip (p a)); [done|cbn; lia]).
      destruct (IHb 0%nat (Ar (tail (skip (p a))) (err (_a_skip a)))) as (v & a1 & -> & Hl1 & He1); [lia|cbn [p]; lia|].
      cbn [mbind option_bind p err _a_skip] in *. pose proof (skip_length (p a1)). pose proof (tail_length (skip (p a1))).
      destruct (at0 (skip (p a1)) =? 41); eexists _, _; (split; [reflexivity|]); cbn [p err]; (split; [lia|done]).
    + destruct (name_st _ || _).
      * pose proof (variable_length (skip (p a))). destruct (variable (skip (p a))) as [v l]. cbn [snd] in *.
        eexists _, _. split; [reflexivity|]. cbn [p err]. split; [lia|done].
      * destruct (is_dec _).
        -- pose proof (number_length (skip (p a))). destruct (number (skip (p a))) as [v l]. cbn [snd] in *.
           eexists _, _. split; [reflexivity|]. cbn [p err]. split; [lia|done].
        -- eexists _, _. split; [reflexivity|]. cbn [p err]. split; [lia|done].
Qed.

Lemma eval_arith_total body : exists r, _eval_arith body = Some r.
Proof.
  unfold _eval_arith, arith_fuel. destruct (arith_total (16 * length body + 20)) as [Hb _].
  destruct (Hb 0%nat (Ar body false)) as (v & a & -> & _); [lia|cbn [p]; lia|]. cbn. eauto.
Qed.

(** More fuel changes no result. *)
Lemma arith_mono n : forall k,
  (forall lv a r, _a_bin n lv a = Some r -> _a_bin (n + k) lv a = Some r) /\
  (forall lv v a r, a_loop n lv v a = Some r -> a_loop (n + k) lv v a = Some r) /\
  (forall a r, _a_unary n a = Some r -> _a_unary (n + k) a = Some r) /\
  (forall a r, _a_prim n a = Some r -> _a_prim (n + k) a = Some r).
Proof.
  induction n as [|n IH]; intros k; [done|]. destruct (IH k) as (IHb & IHl & IHu & IHp).
  assert (Hoperand : forall lv a r, (if (lv =? 9)%nat then _a_unary n a else _a_bin n (S lv) a) = Some r ->
    (if (lv =? 9)%nat then _a_unary (n + k) a else _a_bin (n + k) (S lv) a) = Some r)
    by (intros lv a r; destruct (lv =? 9)%nat; auto).
  rewrite Nat.add_succ_l. split_and!; cbn [_a_bin a_loop _a_unary _a_prim].
  - intros lv a r Hr. destruct (if (lv =? 9)%nat then _a_unary n a else _) as [[v a1]|] eqn:E; [|done].
    rewrite (Hoperand _ _ _ E). cbn [mbind option_bind] in *. auto.
  - intros lv v a r Hr. destruct (err a); [done|]. destruct (op_at _ _ _) as [[o j]|]; [|done].
    destruct (if (lv =? 9)%nat then _a_unary n _ else _) as [[w a1]|] eqn:E; [|done].
    rewrite (Hoperand _ _ _ E). cbn [mbind option_bind] in *. destruct (apply_op o v w); auto.
  - intros a r Hr. destruct (unop_at _); [|auto].
    destruct (_a_unary n _) as [[v a1]|] eqn:E; [|done]. by rewrite (IHu _ _ E).
  - intros a r Hr. destruct (_ =? 40); [|done].
    destruct (_a_bin n _ _) as [[v a1]|] eqn:E; [|done]. by rewrite (IHb _ _ _ E).
Qed.
(** ** The language of expressions *)

Inductive radix := Dec | Oct | Hex.
Inductive sigil := Bare | Dollar | Braced.
Inductive expr := Lit (b : radix) (n : Z) | Var (g : sigil) (name : str) | Un (o : unop) (e : expr) | Bin (o : binop) (e1 e2 : expr).

Definition prec (o : binop) : nat :=
  match o with
  | LOr => 0 | LAnd => 1 | BOr => 2 | BXor => 3 | BAnd => 4 | Eq | Ne => 5 | Le | Ge | Lt | Gt => 6 | Shl | Shr => 7
  | Add | Sub => 8 | Mul | Div | Mod => 9
  end%nat.

Definition op_text (o : binop) : str :=
  match o with
  | LOr => [124; 124] | LAnd => [38; 38] | BOr => [124] | BXor => [94] | BAnd => [38] | Eq => [61; 61] | Ne => [33; 61]
  | Le => [60; 61] | Ge => [62; 61] | Lt => [60] | Gt => [62] | Shl => [60; 60] | Shr => [62; 62]
  | Add => [43] | Sub => [45] | Mul => [42] | Div => [47] | Mod => [37]
  end.

Definition un_text (o : unop) : Z := match o with Neg => 45 | Pos => 43 | Not => 33 | Compl => 126 end.

Definition lit_text (b : radix) (n : Z) : str :=
  match b with
  | Dec => PrintfSpec.numeral 10 false n
  | Oct => 48 :: PrintfSpec.numeral 8 false n
  | Hex => 48 :: 120 :: PrintfSpec.numeral 16 false n
  end.

Definition var_text (g : sigil) (name : str) : str :=
  match g with Bare => name | Dollar => 36 :: name | Braced => 36 :: 123 :: name ++ [125] end.

Definition name_ok (name : str) : Prop :=
  name_st (at0 name) = true /\ Forall (fun c => name_ch c = true) name /\ (length name <= 127)%nat.

Fixpoint wf (e : expr) : Prop :=
  match e with
  | Lit _ n => 0 <= n < 2 ^ 63
  | Var _ name => name_ok name
  | Un _ e => wf e
  | Bin _ e1 e2 => wf e1 /\ wf e2
  end.

(** Left associative, every operand evaluated; [None] is a division by zero. *)
Fixpoint value (e : expr) : option Z :=
  match e with
  | Lit _ n => Some n
  | Var _ name => Some (match getenv name with Some v => env_number v | None => 0 end)
  | Un o e => v ← value e; Some (apply_un o v)
  | Bin o e1 e2 => v ← value e1; r ← value e2; apply_op o v r
  end.

(** Values are 64-bit integers. *)
Definition ll (v : Z) : Prop := - 2 ^ 63 <= v < 2 ^ 63.

Lemma ll_shiftr v : ll v <-> Z.shiftr v 63 = 0 \/ Z.shiftr v 63 = -1.
Proof.
  unfold ll. rewrite Z.shiftr_div_pow2 by lia. pose proof (Z.div_mod v (2 ^ 63) ltac:(lia)). pose proof (Z.mod_pos_bound v (2 ^ 63) ltac:(lia)).
  split; nia.
Qed.

Lemma ll_bit (f : Z -> Z -> Z) v r : (forall a b n, Z.shiftr (f a b) n = f (Z.shiftr a n) (Z.shiftr b n)) ->
  (forall a b, (a = 0 \/ a = -1) -> (b = 0 \/ b = -1) -> f a b = 0 \/ f a b = -1) -> ll v -> ll r -> ll (f v r).
Proof. intros Hs Hf Hv%ll_shiftr Hr%ll_shiftr. apply ll_shiftr. rewrite Hs. by apply Hf. Qed.

Lemma ll_b2z b : ll (b2z b).
Proof. destruct b; done. Qed.

Lemma apply_op_ll o v r x : ll v -> ll r -> apply_op o v r = Some x -> ll x.
Proof.
  intros Hv Hr. destruct o; cbn [apply_op]; try case_match; intros; simplify_eq; try apply ll_b2z; try apply s64_range.
  - apply (ll_bit Z.lor); [intros; by rewrite Z.shiftr_lor|intros a b [->| ->] [->| ->]; auto|done|done].
  - apply (ll_bit Z.lxor); [intros; by rewrite Z.shiftr_lxor|intros a b [->| ->] [->| ->]; auto|done|done].
  - apply (ll_bit Z.land); [intros; by rewrite Z.shiftr_land|intros a b [->| ->] [->| ->]; auto|done|done].
  - assert (Hk : 0 <= Z.land r 63) by (apply Z.land_nonneg; lia). rewrite Z.shiftr_div_pow2 by done.
    pose proof (Z.pow_pos_nonneg 2 (Z.land r 63) ltac:(lia) Hk). unfold ll in *.
    pose proof (Z.div_mod v (2 ^ Z.land r 63) ltac:(lia)). pose proof (Z.mod_pos_bound v (2 ^ Z.land r 63) ltac:(lia)). nia.
  - unfold ll in *. pose proof (Z.rem_bound_abs v r ltac:(lia)). lia.
Qed.

Lemma apply_un_ll o v : ll v -> ll (apply_un o v).
Proof. intros Hv. destruct o; cbn [apply_un]; [apply s64_range|done|apply ll_b2z|]. unfold ll, Z.lnot in *. lia. Qed.

Lemma digits_ll ok val base l : forall v, ll v -> ll (digits ok val base l v).1.
Proof. induction l as [|c l IH]; intros v Hv; [done|]. cbn [digits]. destruct (ok c); [apply IH, s64_range|done]. Qed.

Lemma env_number_ll v : ll (env_number v).
Proof. unfold env_number. destruct (_ =? 45); [apply s64_range|]. by apply digits_ll. Qed.

Lemma value_ll e v : wf e -> value e = Some v -> ll v.
Proof.
  revert v. induction e as [b n|g name|o e IH|o e1 IH1 e2 IH2]; intros v Hwf; cbn [wf value] in *.
  - intros [= <-]. unfold ll. lia.
  - intros [= <-]. destruct (getenv name); [apply env_number_ll|done].
  - destruct (value e) as [w|]; [|done]. intros [= <-]. apply apply_un_ll. eauto.
  - destruct Hwf as [H1 H2]. destruct (value e1) as [v1|]; [|done]. destruct (value e2) as [v2|]; [|done]. cbn. apply apply_op_ll; eauto.
Qed.

(** The text, with [sp] before each token and the parentheses the levels ask for. *)
Section Text.
Variable sp : str.

Fixpoint show (lv : nat) (e : expr) : str :=
  match e with
  | Lit b n => sp ++ lit_text b n
  | Var g name => sp ++ var_text g name
  | Un o e => sp ++ un_text o :: show 10 e
  | Bin o e1 e2 =>
      let t := show (prec o) e1 ++ sp ++ op_text o ++ show (S (prec o)) e2 in
      if (prec o <? lv)%nat then sp ++ 40 :: t ++ sp ++ [41] else t
  end.
End Text.

(** ** Tokens *)

Lemma digits_shown ok val base upper : 2 <= base <= 16 ->
  (forall d, 0 <= d < base -> ok (Printf.digit_char upper d) = true /\ val (Printf.digit_char upper d) = d) ->
  forall k n rest, 0 <= n < base ^ Z.of_nat k -> n < 2 ^ 63 ->
  digits ok val base (PrintfSpec.shown k base upper n ++ rest) 0 = digits ok val base rest n.
Proof.
  intros Hb Hd. induction k as [|k IH]; intros n rest Hn Hmax; [cbn in Hn; replace n with 0 by lia; done|].
  assert (Hpow : base ^ Z.of_nat (S k) = base * base ^ Z.of_nat k) by (rewrite Nat2Z.inj_succ, Z.pow_succ_r; lia).
  cbn [PrintfSpec.shown]. destruct (Z.ltb_spec n base).
  - cbn [app digits]. destruct (Hd n ltac:(lia)) as [-> ->]. by rewrite s64_small by lia.
  - pose proof (Z.div_mod n base ltac:(lia)). pose proof (Z.mod_pos_bound n base ltac:(lia)).
    rewrite <- app_assoc, IH by nia. cbn [app digits]. destruct (Hd (n mod base) ltac:(lia)) as [-> ->].
    rewrite s64_small by lia. f_equal. lia.
Qed.

Lemma digits_stop ok val base l v : ok (at0 l) = false -> digits ok val base l v = (v, l).
Proof. destruct l as [|c l]; [done|]. cbn. by intros ->. Qed.
Lemma shown_all base upper (P : Z -> Prop) k : 2 <= base -> (forall d, 0 <= d < base -> P (Printf.digit_char upper d)) ->
  forall n, 0 <= n -> Forall P (PrintfSpec.shown k base upper n).
Proof.
  intros Hb HP. induction k as [|k IH]; intros n Hn; [constructor|]. cbn [PrintfSpec.shown].
  pose proof (Z.mod_pos_bound n base ltac:(lia)). destruct (Z.ltb_spec n base); [auto|].
  apply Forall_app. split; [apply IH, Z.div_pos; lia|auto].
Qed.

(** The characters that cannot extend a number or a name. *)
Definition tok_end (l : str) : Prop := name_ch (at0 l) = false /\ at0 l <> 125.

Ltac char_solve := repeat match goal with
  | |- context [?a =? ?b] => destruct (Z.eqb_spec a b)
  | |- context [?a <=? ?b] => destruct (Z.leb_spec a b)
  | H : context [?a =? ?b] |- _ => destruct (Z.eqb_spec a b)
  | H : context [?a <=? ?b] |- _ => destruct (Z.leb_spec a b)
  end; cbn [andb orb negb] in *; try done; try lia.

Lemma tok_end_digit l : tok_end l -> is_dec (at0 l) = false /\ is_oct (at0 l) = false /\ _is_hex (at0 l) = false /\
  at0 l <> 120 /\ at0 l <> 88.
Proof. intros [H _]. revert H. unfold name_ch, name_st, is_dec, is_oct, _is_hex. generalize (at0 l). intros c H. split_and!; char_solve. Qed.

Lemma dec_digit d : 0 <= d < 10 -> is_dec (Printf.digit_char false d) = true /\ Printf.digit_char false d - 48 = d.
Proof. intros Hd. unfold Printf.digit_char, is_dec. zdecide. lia. Qed.
Lemma oct_digit d : 0 <= d < 8 -> is_oct (Printf.digit_char false d) = true /\ Printf.digit_char false d - 48 = d.
Proof. intros Hd. unfold Printf.digit_char, is_oct. zdecide. lia. Qed.
Lemma hex_digit d : 0 <= d < 16 -> _is_hex (Printf.digit_char false d) = true /\ _hexval (Printf.digit_char false d) = d.
Proof. intros Hd. unfold Printf.digit_char, _is_hex, _hexval. destruct (Z.ltb_spec d 10); split; char_solve. Qed.

Lemma digits_numeral ok val base rest n : 2 <= base <= 16 ->
  (forall d, 0 <= d < base -> ok (Printf.digit_char false d) = true /\ val (Printf.digit_char false d) = d) ->
  0 <= n < 2 ^ 63 -> ok (at0 rest) = false -> digits ok val base (PrintfSpec.numeral base false n ++ rest) 0 = (n, rest).
Proof.
  intros Hb Hd Hn Hr. unfold PrintfSpec.numeral. pose proof (PrintfSpec.wide_enough base Hb n ltac:(lia)).
  rewrite (digits_shown ok val base false Hb Hd) by lia. by apply digits_stop.
Qed.

Lemma numeral_head base n rest : 2 <= base <= 16 -> 0 <= n < 2 ^ 63 ->
  exists d, 0 <= d < base /\ at0 (PrintfSpec.numeral base false n ++ rest) = Printf.digit_char false d.
Proof.
  intros Hb Hn. pose proof (PrintfSpec.numeral_length base false Hb n ltac:(lia)) as Hlen.
  assert (HF : Forall (fun c => exists d, 0 <= d < base /\ c = Printf.digit_char false d) (PrintfSpec.numeral base false n))
    by (apply shown_all; [lia|eauto|lia]).
  destruct (PrintfSpec.numeral base false n); [cbn in Hlen; lia|]. by inversion HF.
Qed.

(** A literal is read to its value, in each radix. *)
Lemma number_text b n rest : 0 <= n < 2 ^ 63 -> tok_end rest -> number (lit_text b n ++ rest) = (n, rest).
Proof.
  intros Hn Hr. destruct (tok_end_digit _ Hr) as (Hd & Ho & Hh & Hx & HX). unfold number. destruct b; cbn [lit_text app].
  - set (t := PrintfSpec.numeral 10 false n ++ rest).
    assert (Hz : at0 t = 48 -> tail t = rest).
    { unfold t. destruct (Z.eq_dec n 0) as [->|]; [by rewrite PrintfSpec.numeral_0 by lia|].
      destruct (PrintfSpec.shown_head 10 false ltac:(lia) 64 n) as (d & l & E & Hd0); [lia|].
      unfold PrintfSpec.numeral. rewrite E. done. }
    replace ((at0 t =? 48) && _) with false; [replace ((at0 t =? 48) && is_oct _) with false|].
    + apply digits_numeral; [lia|apply dec_digit|done|done].
    + destruct (Z.eqb_spec (at0 t) 48) as [E|]; [|done]. unfold at1. rewrite Hz by done. by rewrite Ho.
    + destruct (Z.eqb_spec (at0 t) 48) as [E|]; [|done]. unfold at1. rewrite Hz by done. by zdecide.
  - destruct (numeral_head 8 n rest ltac:(lia) Hn) as (d & Hd8 & Hat). change (at0 (48 :: _)) with 48. unfold at1. cbn [tail].
    rewrite Hat. destruct (oct_digit d Hd8) as [-> Hv]. replace (_ || _) with false by (symmetry; zdecide; done).
    cbn [Z.eqb Pos.eqb andb]. apply digits_numeral; [lia|apply oct_digit|done|done].
  - change (at0 (48 :: _)) with 48. change (at1 (48 :: 120 :: _)) with 120. cbn [Z.eqb Pos.eqb andb orb tail].
    apply digits_numeral; [lia|apply hex_digit|done|done].
Qed.

Lemma take_name_run name : forall k rest, Forall (fun c => name_ch c = true) name -> (length name <= k)%nat ->
  name_ch (at0 rest) = false -> take_name k (name ++ rest) = (name, rest).
Proof.
  induction name as [|c name IH]; intros k rest Hn Hk Hr.
  - cbn [app]. destruct k, rest; try done. cbn [take_name]. cbn in Hr. by rewrite Hr.
  - inversion Hn as [|? ? Hc Hn']; subst. destruct k as [|k]; [cbn in Hk; lia|]. cbn [app take_name]. rewrite Hc.
    by rewrite (IH k rest) by (try done; cbn in Hk; lia).
Qed.

Lemma variable_text g name rest : name_ok name -> tok_end rest ->
  variable (var_text g name ++ rest) = (default 0 (value (Var g name)), rest).
Proof.
  intros (Hst & Hch & Hlen) [Hr Hb]. unfold variable.
  set (l := if at0 (var_text g name ++ rest) =? 36 then _ else _).
  assert (Hl : l = name ++ (match g with Braced => [125] | _ => [] end) ++ rest).
  { destruct name as [|c name]; [done|]. unfold l. change (at0 (c :: name)) with c in Hst.
    assert (c <> 36 /\ c <> 123) by (split; intros ->; done).
    destruct g; cbn [var_text app]; [change (at0 (c :: _)) with c; by zdecide| |].
    - change (at0 (36 :: _)) with 36. cbn [Z.eqb Pos.eqb tail]. change (at0 (c :: _)) with c. by zdecide.
    - by rewrite <- app_assoc. }
  rewrite Hl, take_name_run; [|done|done|destruct g; done].
  destruct g; cbn [app value default from_option id]; [zdecide; done..|done].
Qed.
(** ** Runs: the evaluator without its fuel *)

Definition operand (n lv : nat) (a : arith) : option (Z * arith) := if (lv =? 9)%nat then _a_unary n a else _a_bin n (S lv) a.

Definition runs (f : nat -> option (Z * arith)) (v : Z) (a : arith) : Prop := exists n, forall k, f (n + k)%nat = Some (v, a).

Lemma runs_next f g v a : (forall n, f (S n) = g n) -> runs g v a -> runs f v a.
Proof. intros E [n H]. exists (S n). intros k. cbn [Nat.add]. rewrite E. apply H. Qed.

Lemma runs_bind f g v a w b : runs f v a -> runs (fun n => g n v a) w b -> runs (fun n => '(v, a) ← f n; g n v a) w b.
Proof.
  intros [n H] [m G]. exists (n + m)%nat. intros k. rewrite <- Nat.add_assoc, H. cbn [mbind option_bind].
  replace (n + (m + k))%nat with (m + (n + k))%nat by lia. apply G.
Qed.

Lemma runs_ret v a : runs (fun _ => Some (v, a)) v a.
Proof. by exists 0%nat. Qed.

Lemma runs_bin lv a v a1 w a2 :
  runs (fun n => operand n lv a) v a1 -> runs (fun n => a_loop n lv v a1) w a2 -> runs (fun n => _a_bin n lv a) w a2.
Proof.
  intros Ho Hl. apply (runs_next _ (fun n => '(v, a) ← operand n lv a; a_loop n lv v a)); [done|]. by eapply runs_bind.
Qed.

Lemma runs_loop_err lv v a : err a = true -> runs (fun n => a_loop n lv v a) v a.
Proof. intros E. eapply runs_next, runs_ret. intros n. cbn [a_loop]. by rewrite E. Qed.

Lemma skip_skip l : skip (skip l) = skip l.
Proof. induction l as [|c l IH]; [done|]. cbn [skip]. destruct (blank c) eqn:E; [done|]. cbn [skip]. by rewrite E. Qed.

(** The loop looks at the text from its first character that is not a blank. *)
Lemma runs_loop_skip lv v l w a :
  runs (fun n => a_loop n lv v (Ar (skip l) false)) w a -> runs (fun n => a_loop n lv v (Ar l false)) w a.
Proof.
  intros [n H]. exists (S n). intros k. specialize (H (S k)). replace (n + S k)%nat with (S n + k)%nat in H by lia.
  rewrite <- H. cbn [Nat.add a_loop]. unfold _a_skip. cbn [p err]. by rewrite skip_skip.
Qed.

Lemma runs_loop_stop lv v l : op_at lv (at0 (skip l)) (at1 (skip l)) = None ->
  runs (fun n => a_loop n lv v (Ar l false)) v (Ar (skip l) false).
Proof. intros E. eapply runs_next, runs_ret. intros n. cbn [a_loop _a_skip p err]. by rewrite E. Qed.

Lemma runs_loop_op lv v l o k r a1 w a2 : op_at lv (at0 (skip l)) (at1 (skip l)) = Some (o, k) ->
  runs (fun n => operand n lv (Ar (drop k (skip l)) false)) r a1 ->
  runs (fun n => match apply_op o v r with None => Some (0, Ar (p a1) true) | Some v => a_loop n lv v a1 end) w a2 ->
  runs (fun n => a_loop n lv v (Ar l false)) w a2.
Proof.
  intros E Ho Hl.
  apply (runs_next _ (fun n => '(r, a) ← operand n lv (Ar (drop k (skip l)) false);
    match apply_op o v r with None => Some (0, Ar (p a) true) | Some v => a_loop n lv v a end)).
  - intros n. cbn [a_loop _a_skip p err]. by rewrite E.
  - by eapply runs_bind.
Qed.

Lemma runs_unary_op l o v a : unop_at (at0 (skip l)) = Some o ->
  runs (fun n => _a_unary n (Ar (tail (skip l)) false)) v a -> runs (fun n => _a_unary n (Ar l false)) (apply_un o v) a.
Proof.
  intros E Hu. apply (runs_next _ (fun n => '(v, a) ← _a_unary n (Ar (tail (skip l)) false); Some (apply_un o v, a))).
  - intros n. cbn [_a_unary _a_skip p err]. by rewrite E.
  - eapply runs_bind; [done|apply runs_ret].
Qed.

Lemma runs_unary_prim l v a : unop_at (at0 (skip l)) = None ->
  runs (fun n => _a_prim n (Ar (skip l) false)) v a -> runs (fun n => _a_unary n (Ar l false)) v a.
Proof. intros E Hp. eapply runs_next, Hp. intros n. cbn [_a_unary]. unfold _a_skip. cbn [p err]. by rewrite E. Qed.

Lemma runs_paren l v a : skip l = l -> at0 l = 40 -> runs (fun n => _a_bin n 0 (Ar (tail l) false)) v a ->
  runs (fun n => _a_prim n (Ar l false)) (if at0 (skip (p a)) =? 41 then v else 0)
    (if at0 (skip (p a)) =? 41 then Ar (tail (skip (p a))) (err a) else Ar (skip (p a)) true).
Proof.
  intros Hs E Hb. apply (runs_next _ (fun n => '(v, a) ← _a_bin n 0 (Ar (tail l) false);
    Some (if at0 (skip (p a)) =? 41 then (v, Ar (tail (skip (p a))) (err a)) else (0, Ar (skip (p a)) true)))).
  - intros n. cbn [_a_prim _a_skip p err]. by rewrite Hs, E.
  - eapply runs_bind; [done|]. destruct (_ =? 41); apply runs_ret.
Qed.
(** ** The written form is evaluated to the value *)

Lemma skip_blanks sp l : Forall (fun c => blank c = true) sp -> skip (sp ++ l) = skip l.
Proof. induction 1 as [|b sp Hb _ IH]; cbn [app skip]; [done|by rewrite Hb]. Qed.

Lemma skip_id l : blank (at0 l) = false -> skip l = l.
Proof. destruct l as [|c l]; [done|]. cbn. by intros ->. Qed.

Section Shown.
Variable sp : str.
Hypothesis Hsp : Forall (fun c => blank c = true) sp.

Lemma skip_sp c l : blank c = false -> skip (sp ++ c :: l) = c :: l.
Proof. intros Hc. rewrite skip_blanks by done. cbn [skip]. by rewrite Hc. Qed.

Lemma at0_sp l : at0 (sp ++ l) = at0 l \/ blank (at0 (sp ++ l)) = true.
Proof. destruct Hsp; [by left|by right]. Qed.

(** The characters a written expression may start with. *)
Definition opens (c : Z) : Prop := blank c = false /\ ~ In c [124; 38; 61; 60; 62].
Definition starts (l : str) : Prop := ~ In (at0 l) [124; 38; 61; 60; 62].

Lemma starts_sp l : starts l -> starts (sp ++ l).
Proof. intros H. unfold starts. destruct (at0_sp l) as [->|Hb]; [done|].
  revert Hb. generalize (at0 (sp ++ l)). intros c Hb Hin. cbn in Hin. by destruct_or?; subst. Qed.

Lemma lit_head b n rest : 0 <= n < 2 ^ 63 -> is_dec (at0 (lit_text b n ++ rest)) = true.
Proof.
  intros Hn. destruct b; [|done..]. destruct (numeral_head 10 n rest ltac:(lia) Hn) as (d & Hd & E). cbn [lit_text].
  rewrite E. by apply dec_digit.
Qed.

Lemma var_head g name rest : name_ok name -> name_st (at0 (var_text g name ++ rest)) || (at0 (var_text g name ++ rest) =? 36) = true.
Proof. intros (Hst & _). destruct g; [|done..]. destruct name; [done|]. cbn in *. by rewrite Hst. Qed.

Lemma dec_opens c : is_dec c = true -> opens c /\ unop_at c = None /\ c <> 40 /\ name_st c || (c =? 36) = false.
Proof. unfold is_dec, opens, blank, unop_at, name_st. intros H. split_and!; [|intros Hin; cbn in Hin| | |]; char_solve. Qed.

Lemma var_opens c : name_st c || (c =? 36) = true -> opens c /\ unop_at c = None /\ c <> 40.
Proof. unfold opens, blank, unop_at, name_st. intros H. split_and!; [|intros Hin; cbn in Hin| |]; char_solve. Qed.

Lemma skip_opens l : blank (at0 l) = false -> skip (sp ++ l) = l.
Proof. intros Hb. rewrite skip_blanks by done. by apply skip_id. Qed.

Lemma show_starts e : forall lv rest, wf e -> starts (show sp lv e ++ rest).
Proof.
  induction e as [b n|g name|o e IH|o e1 IH1 e2 IH2]; intros lv rest Hwf; cbn [show wf] in *.
  - rewrite <- app_assoc. apply starts_sp. by apply dec_opens, lit_head.
  - rewrite <- app_assoc. apply starts_sp. by apply var_opens, var_head.
  - rewrite <- app_assoc. apply starts_sp. unfold starts. cbn. destruct o; cbn; intuition lia.
  - destruct (_ <? _)%nat; rewrite <- app_assoc; [apply starts_sp|apply IH1, Hwf]. unfold starts. cbn. intuition lia.
Qed.

(** No operator of level [lv] or above follows. *)
Definition ends (lv : nat) (l : str) : Prop :=
  tok_end l /\ (forall j, (lv <= j <= 9)%nat -> op_at j (at0 (skip l)) (at1 (skip l)) = None).

Lemma ends_le lv lv' l : (lv <= lv')%nat -> ends lv l -> ends lv' l.
Proof. intros Hle [Ht Ho]. split; [done|]. intros j Hj. apply Ho. lia. Qed.

Lemma tok_end_sp c l : name_ch c = false -> c <> 125 -> tok_end (sp ++ c :: l).
Proof.
  intros Hc H. unfold tok_end. destruct (at0_sp (c :: l)) as [->|Hb]; [done|]. revert Hb. generalize (at0 (sp ++ c :: l)).
  intros d. unfold blank, name_ch, name_st. intros Hb. split; char_solve.
Qed.

Lemma ends_paren lv rest : ends lv (sp ++ 41 :: rest).
Proof. split; [by apply tok_end_sp|]. intros j _. rewrite skip_sp by done. do 9 (destruct j as [|j]; [done|]). done. Qed.

Ltac op_solve l := unfold at1; cbn [op_text app tail prec op_at]; cbn -[Z.eqb] in *; generalize dependent (at0 l);
  intros c Hs; zdecide; done.

(** An operator is recognised at its level and at no level above. *)
Lemma op_at_text o l : starts l -> op_at (prec o) (at0 (op_text o ++ l)) (at1 (op_text o ++ l)) = Some (o, length (op_text o)).
Proof. intros Hs. unfold starts in Hs. destruct o; first [done|op_solve l]. Qed.

Lemma ends_op o l : starts l -> ends (S (prec o)) (sp ++ op_text o ++ l).
Proof.
  intros Hs. assert (Hb : blank (at0 (op_text o ++ l)) = false) by (destruct o; done).
  split; [destruct o; by apply tok_end_sp|]. intros j Hj. rewrite skip_opens by done. unfold starts in Hs.
  destruct o; cbn [prec] in Hj;
    do 10 (destruct j as [|j]; [first [exfalso; lia|done|op_solve l]|]); exfalso; lia.
Qed.
(** What the evaluator does on a written operand of a level. *)
Definition runs_unary (e : expr) : Prop := forall rest, tok_end rest ->
  match value e with
  | Some v => runs (fun n => _a_unary n (Ar (show sp 10 e ++ rest) false)) v (Ar rest false)
  | None => exists w a, runs (fun n => _a_unary n (Ar (show sp 10 e ++ rest) false)) w a /\ err a = true
  end.

Definition runs_level (lv : nat) (e : expr) : Prop := forall rest, ends (S lv) rest ->
  match value e with
  | Some v => forall w a, runs (fun n => a_loop n lv v (Ar (skip rest) false)) w a ->
      runs (fun n => _a_bin n lv (Ar (show sp lv e ++ rest) false)) w a
  | None => exists w a, runs (fun n => _a_bin n lv (Ar (show sp lv e ++ rest) false)) w a /\ err a = true
  end.

(** The operand of a level, when it is the one of the level below. *)
Lemma runs_operand lv e rest : (lv <= 9)%nat -> ((lv < 9)%nat -> runs_level (S lv) e) -> runs_unary e -> ends (S lv) rest ->
  match value e with
  | Some v => exists l, skip l = skip rest /\ runs (fun n => operand n lv (Ar (show sp (S lv) e ++ rest) false)) v (Ar l false)
  | None => exists w a, runs (fun n => operand n lv (Ar (show sp (S lv) e ++ rest) false)) w a /\ err a = true
  end.
Proof.
  intros Hlv Hl Hu He. unfold operand. destruct (Nat.eqb_spec lv 9) as [->|Hne].
  - specialize (Hu rest (proj1 He)). destruct (value e); [by exists rest|done].
  - specialize (Hl ltac:(lia) rest (ends_le (S lv) (S (S lv)) rest ltac:(lia) He)). destruct (value e) as [v|]; [|done].
    exists (skip rest). split; [apply skip_skip|]. apply Hl. pose proof (runs_loop_stop (S lv) v (skip rest)) as Hr.
    rewrite skip_skip in Hr. apply Hr, He. lia.
Qed.

(** Down one level, for an expression written alike on both. *)
Lemma runs_down lv e : (lv <= 9)%nat -> show sp lv e = show sp (S lv) e -> ((lv < 9)%nat -> runs_level (S lv) e) ->
  runs_unary e -> runs_level lv e.
Proof.
  intros Hlv Hs Hl Hu rest He. pose proof (runs_operand lv e rest Hlv Hl Hu He) as Ho. rewrite Hs.
  destruct (value e) as [v|].
  - destruct Ho as (l & El & Ho). intros w a Hloop. eapply runs_bin; [exact Ho|]. apply runs_loop_skip. by rewrite El.
  - destruct Ho as (w & a & Ho & Ea). exists w, a. split; [|done]. eapply runs_bin; [exact Ho|]. by apply runs_loop_err.
Qed.

(** The levels from [lv] to 9 of an expression that needs no parentheses there. *)
Lemma runs_levels e m : (forall lv, (m <= lv <= 9)%nat -> show sp lv e = show sp (S lv) e) -> runs_unary e ->
  forall lv, (m <= lv <= 9)%nat -> runs_level lv e.
Proof.
  intros Hs Hu lv. remember (9 - lv)%nat as d eqn:Ed. revert lv Ed. induction d as [|d IH]; intros lv Ed Hlv.
  - apply runs_down; [lia|apply Hs; lia|lia|done].
  - apply runs_down; [lia|apply Hs; lia| |done]. intros _. apply IH; lia.
Qed.
Lemma lit_unary b n : 0 <= n < 2 ^ 63 -> runs_unary (Lit b n).
Proof.
  intros Hn rest Hr. cbn [value show]. rewrite <- app_assoc. pose proof (lit_head b n rest Hn) as Hd.
  destruct (dec_opens _ Hd) as ((Hb & _) & Hu & Hp & Hv).
  assert (Hs : skip (lit_text b n ++ rest) = lit_text b n ++ rest) by by apply skip_id.
  apply runs_unary_prim; rewrite skip_opens by done; [done|]. eapply runs_next, runs_ret. intros k.
  cbn [_a_prim _a_skip p err]. rewrite Hs, Hd, Hv. zdecide. by rewrite number_text.
Qed.

Lemma var_unary g name : name_ok name -> runs_unary (Var g name).
Proof.
  intros Hn rest Hr. cbn [value show]. rewrite <- app_assoc. pose proof (var_head g name rest Hn) as Hv.
  destruct (var_opens _ Hv) as ((Hb & _) & Hu & Hp).
  assert (Hs : skip (var_text g name ++ rest) = var_text g name ++ rest) by by apply skip_id.
  apply runs_unary_prim; rewrite skip_opens by done; [done|]. eapply runs_next, runs_ret. intros k.
  cbn [_a_prim _a_skip p err]. rewrite Hs, Hv. zdecide. by rewrite variable_text.
Qed.

Lemma un_unary o e : runs_unary e -> runs_unary (Un o e).
Proof.
  intros Hu rest Hr. cbn [value show]. rewrite <- app_assoc. cbn [app]. specialize (Hu rest Hr).
  assert (Ho : skip (sp ++ un_text o :: show sp 10 e ++ rest) = un_text o :: show sp 10 e ++ rest) by (apply skip_sp; by destruct o).
  assert (Eo : unop_at (at0 (un_text o :: show sp 10 e ++ rest)) = Some o) by by destruct o.
  destruct (value e) as [v|]; cbn [mbind option_bind].
  - apply runs_unary_op; rewrite Ho; done.
  - destruct Hu as (w & a & Hu & Ea). exists (apply_un o w), a. split; [|done]. apply runs_unary_op; rewrite Ho; done.
Qed.

(** The loop of a level takes one operator and its right operand. *)
Lemma bin_loop o v e2 rest : wf e2 -> (forall lv, (prec o < lv <= 9)%nat -> runs_level lv e2) -> runs_unary e2 ->
  ends (S (prec o)) rest ->
  match r ← value e2; apply_op o v r with
  | Some x => forall w a, runs (fun n => a_loop n (prec o) x (Ar (skip rest) false)) w a ->
      runs (fun n => a_loop n (prec o) v (Ar (op_text o ++ show sp (S (prec o)) e2 ++ rest) false)) w a
  | None => exists w a, runs (fun n => a_loop n (prec o) v (Ar (op_text o ++ show sp (S (prec o)) e2 ++ rest) false)) w a /\ err a = true
  end.
Proof.
  intros Hwf Hl Hu He. assert (Hp : (prec o <= 9)%nat) by (destruct o; cbn; lia).
  pose proof (runs_operand (prec o) e2 rest Hp ltac:(intros; apply Hl; lia) Hu He) as Ho.
  set (t := show sp (S (prec o)) e2 ++ rest) in *.
  assert (Hs : skip (op_text o ++ t) = op_text o ++ t) by (apply skip_id; by destruct o).
  pose proof (op_at_text o t (show_starts e2 _ rest Hwf)) as Eo. rewrite <- Hs in Eo at 1 2.
  assert (Hd : drop (length (op_text o)) (skip (op_text o ++ t)) = t) by (rewrite Hs; apply drop_app_length).
  destruct (value e2) as [r|]; cbn [mbind option_bind].
  - destruct Ho as (l & El & Ho). destruct (apply_op o v r) as [x|] eqn:Ex.
    + intros w a Hloop. eapply runs_loop_op; [exact Eo|rewrite Hd; exact Ho|]. rewrite Ex. apply runs_loop_skip. by rewrite El.
    + exists 0, (Ar l true). split; [|done]. eapply runs_loop_op; [exact Eo|rewrite Hd; exact Ho|]. rewrite Ex. apply runs_ret.
  - destruct Ho as (r & a & Ho & Ea). destruct (apply_op o v r) as [x|] eqn:Ex.
    + exists x, a. split; [|done]. eapply runs_loop_op; [exact Eo|rewrite Hd; exact Ho|]. rewrite Ex. by apply runs_loop_err.
    + exists 0, (Ar (p a) true). split; [|done]. eapply runs_loop_op; [exact Eo|rewrite Hd; exact Ho|]. rewrite Ex. apply runs_ret.
Qed.

Lemma bin_level o e1 e2 : wf e2 -> runs_level (prec o) e1 -> (forall lv, (prec o < lv <= 9)%nat -> runs_level lv e2) ->
  runs_unary e2 -> runs_level (prec o) (Bin o e1 e2).
Proof.
  intros Hwf H1 H2 Hu rest He. cbn [value show]. rewrite Nat.ltb_irrefl, <- !app_assoc.
  specialize (H1 (sp ++ op_text o ++ show sp (S (prec o)) e2 ++ rest) (ends_op o _ (show_starts e2 _ rest Hwf))).
  destruct (value e1) as [v|]; [|done]. cbn [mbind option_bind].
  rewrite skip_opens in H1 by by destruct o. pose proof (bin_loop o v e2 rest Hwf H2 Hu He) as Hb.
  destruct (r ← value e2; apply_op o v r) as [x|]; [by auto|]. destruct Hb as (w & a & Hb & Ea). eauto.
Qed.

Lemma bin_unary o e1 e2 : runs_level 0 (Bin o e1 e2) -> runs_unary (Bin o e1 e2).
Proof.
  intros Hl rest Hr.
  assert (Es : show sp 10 (Bin o e1 e2) ++ rest = sp ++ 40 :: show sp 0 (Bin o e1 e2) ++ sp ++ 41 :: rest)
    by (cbn [show]; destruct o; cbn [prec Nat.ltb Nat.leb]; rewrite <- !app_assoc; cbn [app]; by rewrite <- !app_assoc).
  rewrite Es. specialize (Hl (sp ++ 41 :: rest) (ends_paren 1 rest)). rewrite skip_sp in Hl by done.
  set (t := show sp 0 (Bin o e1 e2) ++ sp ++ 41 :: rest) in *.
  destruct (value (Bin o e1 e2)) as [v|].
  - apply runs_unary_prim; rewrite skip_sp by done; [done|].
    refine (runs_paren (40 :: t) v (Ar (41 :: rest) false) eq_refl eq_refl _). apply Hl. by apply (runs_loop_stop 0 v (41 :: rest)).
  - destruct Hl as (w & a & Hl & Ea). eexists _, _. split.
    + apply runs_unary_prim; rewrite skip_sp by done; [done|]. exact (runs_paren (40 :: t) w a eq_refl eq_refl Hl).
    + by destruct (_ =? 41).
Qed.
Lemma runs_expr e : wf e -> runs_unary e /\ forall lv, (lv <= 9)%nat -> runs_level lv e.
Proof.
  induction e as [b n|g name|o e IH|o e1 IH1 e2 IH2]; intros Hwf; cbn [wf] in Hwf.
  - pose proof (lit_unary b n Hwf). split; [done|]. intros lv Hlv. by apply (runs_levels _ 0); [|done|lia].
  - pose proof (var_unary g name Hwf). split; [done|]. intros lv Hlv. by apply (runs_levels _ 0); [|done|lia].
  - destruct (IH Hwf) as [Hu _]. pose proof (un_unary o e Hu). split; [done|]. intros lv Hlv. by apply (runs_levels _ 0); [|done|lia].
  - destruct Hwf as [Hw1 Hw2]. destruct (IH1 Hw1) as [_ Hl1], (IH2 Hw2) as [Hu2 Hl2].
    assert (Hp : (prec o <= 9)%nat) by (destruct o; cbn; lia).
    assert (Hlow : forall d lv, (lv + d = prec o)%nat -> runs_level lv (Bin o e1 e2)).
    { induction d as [|d IH]; intros lv Hd.
      - replace lv with (prec o) by lia. apply bin_level; auto. intros lv' Hlv'. apply Hl2. lia.
      - intros rest He. pose proof (IH (S lv) ltac:(lia) rest (ends_le (S lv) (S (S lv)) rest ltac:(lia) He)) as Hn.
        assert (Es : show sp lv (Bin o e1 e2) = show sp (S lv) (Bin o e1 e2))
          by (cbn [show]; destruct (Nat.ltb_spec (prec o) lv), (Nat.ltb_spec (prec o) (S lv)); [lia..|done]).
        assert (Ho : forall n a, operand n lv a = _a_bin n (S lv) a) by (intros; unfold operand; destruct (Nat.eqb_spec lv 9); [lia|done]).
        rewrite Es. destruct (value (Bin o e1 e2)) as [v|].
        + intros w a Hloop. apply (runs_bin lv _ v (Ar (skip rest) false)); [|done].
          destruct (Hn v (Ar (skip rest) false)) as [n Hr].
          { pose proof (runs_loop_stop (S lv) v (skip rest)) as Hr. rewrite skip_skip in Hr. apply Hr, He. lia. }
          exists n. intros k. rewrite Ho. apply Hr.
        + destruct Hn as (w & a & [n Hr] & Ea). exists w, a. split; [|done]. apply (runs_bin lv _ w a); [|by apply runs_loop_err].
          exists n. intros k. rewrite Ho. apply Hr. }
    pose proof (bin_unary o e1 e2 (Hlow (prec o) 0%nat ltac:(lia))) as Hu. split; [done|]. intros lv Hlv.
    destruct (Nat.le_gt_cases lv (prec o)); [by apply (Hlow (prec o - lv)%nat); lia|].
    apply (runs_levels _ (S (prec o))); [|done|lia]. intros j Hj. cbn [show].
    destruct (Nat.ltb_spec (prec o) j), (Nat.ltb_spec (prec o) (S j)); [done|lia..].
Qed.

Lemma ends_sp : ends 1 sp.
Proof.
  split.
  - unfold tok_end. destruct (at0_sp []) as [E|E]; rewrite app_nil_r in E; [by rewrite E|]. revert E. generalize (at0 sp).
    intros d. unfold blank, name_ch, name_st. intros Hb. split; char_solve.
  - intros j Hj. rewrite <- (app_nil_r sp), skip_blanks by done. by do 10 (destruct j as [|j]; [done|]); lia.
Qed.
End Shown.
Lemma eval_shown sp e : Forall (fun c => blank c = true) sp -> wf e ->
  _eval_arith (show sp 0 e ++ sp) = Some (match value e with Some v => (v, false) | None => (0, true) end).
Proof.
  intros Hsp Hwf. unfold _eval_arith. set (l := show sp 0 e ++ sp).
  destruct (proj1 (arith_total (arith_fuel l)) 0%nat (Ar l false)) as (w & a & Hw & _); [lia|unfold arith_fuel; cbn [p]; lia|].
  assert (Hrun : forall v b, runs (fun n => _a_bin n 0 (Ar l false)) v b -> w = v /\ a = b).
  { intros v b [n Hn]. specialize (Hn (arith_fuel l)). rewrite Nat.add_comm in Hn.
    rewrite (proj1 (arith_mono (arith_fuel l) n) _ _ _ Hw) in Hn. by simplify_eq. }
  pose proof (proj2 (runs_expr sp Hsp e Hwf) 0%nat ltac:(lia) sp (ends_sp sp Hsp)) as He. rewrite Hw. cbn [mbind option_bind].
  assert (Hnil : skip sp = []) by (rewrite <- (app_nil_r sp); by rewrite skip_blanks).
  destruct (value e) as [v|].
  - rewrite Hnil in He. destruct (Hrun v (Ar [] false)) as [-> ->]; [|done]. apply He. by apply (runs_loop_stop 0 v []).
  - destruct He as (v & b & Hb & Eb). destruct (Hrun v b Hb) as [-> ->]. cbn [_a_skip err p]. by rewrite Eb.
Qed.

(** C26: [_eval_arith] on the text of an arithmetic expression (literals in decimal, octal and hexadecimal, variables
    with or without their sigils, the unary and binary operators with the parentheses their levels ask for, any blanks
    before each token and at the end) yields the expression's value in 64-bit arithmetic, left associative; a division
    or remainder by zero anywhere in the expression makes it fail. *)
Theorem eval_arith_value sp e : Forall (fun c => blank c = true) sp -> wf e ->
  _eval_arith (show sp 0 e ++ sp) = Some (match value e with Some v => (v, false) | None => (0, true) end).
Proof. apply eval_shown. Qed.
End Eval.
(** An environment with [N = 7]. *)
Definition env7 (name : str) : option str := if decide (name = [78]) then Some [55] else None.

(** [ ( 1 + ${N} ) * 0x10 - 3 < 012 / 2]. *)
Definition sample : expr :=
  Bin Lt (Bin Sub (Bin Mul (Bin Add (Lit Dec 1) (Var Braced [78])) (Lit Hex 16)) (Lit Dec 3)) (Bin Div (Lit Oct 10) (Lit Dec 2)).

Lemma eval_arith_value_witness :
  wf sample /\ _eval_arith env7 (show [32] 0 sample ++ [32]) = Some (match value env7 sample with Some v => (v, false) | None => (0, true) end) /\
  value env7 sample = Some 0.
Proof.
  assert (Hwf : wf sample).
  { cbn. unfold name_ok. cbn. split_and!; try lia; try done. by repeat constructor. }
  split; [done|]. split; [|by vm_compute]. apply (eval_arith_value env7 [32] sample); [by repeat constructor|done].
Defined.

(** [1 || 1 / 0]: the right operand of a logical operator is evaluated whatever the left one is, and its error stays. *)
Theorem logical_operators_do_not_short_circuit getenv :
  _eval_arith getenv [49; 32; 124; 124; 32; 49; 47; 48] = Some (0, true).
Proof. by vm_compute. Qed.
End ArithExp.
