(* ===== verification/PtrSort.v ===== *)
(** * PtrSort: qsort over an array of pointers

    [scandir] and [glob] sort arrays of pointers with the library's own [qsort].
    The array is laid out in memory as 32-bit words, the comparison function
    loads its two elements and compares the objects they point at; the result
    is read back from the memory the sort leaves.  [qsort_ptrs_sorts] carries
    the contract of [qsort] over to the objects. *)

From Stdlib Require Import ZArith Lia.
From stdpp Require Import base gmap list numbers sorting.
From S2P Require Import Prelude Monad Memory Qsort CString.

Module PtrSort.

Section Ptrs.
Context {A : Type} (d : A) (cmp : A -> A -> Z).

(** The pointer to the [i]-th object, and the object a word points at. *)
Definition ptr (i : nat) : list Z := word_bytes (Z.of_nat i).

Definition word (x : list Z) : Z :=
  match x with
  | [b0; b1; b2; b3] => b0 + 2 ^ 8 * b1 + 2 ^ 16 * b2 + 2 ^ 24 * b3
  | _ => 0
  end.

Definition deref (l : list A) (x : list Z) : A := nth (Z.to_nat (word x)) l d.

Definition compar (l : list A) (a b : Z) : M Z :=
  let* x := load_bytes a 4 in let* y := load_bytes b 4 in ret (cmp (deref l x) (deref l y)).

Definition array_base : Z := 4096.

Fixpoint chunks (n : nat) (bs : list Z) : list (list Z) :=
  match n with O => [] | S n => take 4 bs :: chunks n (drop 4 bs) end.

Definition qsort_ptrs (l : list A) : option (list A) :=
  let n := length l in
  let m := write_list array_base (concat (ptr <$> seq 0 n)) ∅ in
  '(_, m) ← Qsort.qsort array_base (Z.of_nat n) 4 (compar l) m;
  '(bs, _) ← load_bytes array_base (4 * n) m;
  Some (deref l <$> chunks n bs).

(** The laws of a comparison function on the objects that satisfy [P]. *)
Class Order (P : A -> Prop) : Prop := {
  order_flip : forall x y, P x -> P y -> cmp x y < 0 <-> 0 < cmp y x;
  order_trans : forall x y z, P x -> P y -> P z -> cmp x y <= 0 -> cmp y z <= 0 -> cmp x z <= 0;
}.

Lemma word_ptr i : Z.of_nat i < 2 ^ 32 -> word (ptr i) = Z.of_nat i.
Proof.
  intros Hi. assert (H0 : 0 <= Z.of_nat i) by lia. unfold ptr, word, word_bytes, u8, wrapu.
  revert Hi H0. generalize (Z.of_nat i). intros z Hz H0. rewrite !Z.shiftr_div_pow2 by lia.
  rewrite (Z.mod_small (z / 2 ^ 24)) by (split; [apply Z.div_pos; lia|apply Z.div_lt_upper_bound; lia]).
  pose proof (Z.div_mod z (2 ^ 8) ltac:(lia)). pose proof (Z.div_mod (z / 2 ^ 8) (2 ^ 8) ltac:(lia)).
  pose proof (Z.div_mod (z / 2 ^ 16) (2 ^ 8) ltac:(lia)).
  rewrite !Z.div_div in * by lia. change (2 ^ 8 * 2 ^ 8) with (2 ^ 16) in *. change (2 ^ 16 * 2 ^ 8) with (2 ^ 24) in *. lia.
Qed.

Lemma ptrs_elems ix : Qsort.elems 4 (ptr <$> ix).
Proof.
  apply Forall_fmap, Forall_forall. intros i _. split; [done|]. unfold ptr, word_bytes.
  repeat constructor; apply u8_range.
Qed.

Lemma chunks_concat xs : Qsort.elems 4 xs -> chunks (length xs) (concat xs) = xs.
Proof.
  induction 1 as [|x xs [Hx _] _ IH]; [done|]. cbn [length chunks concat].
  assert (Hl : length x = 4%nat) by lia. rewrite (take_app_length' x _ 4) by done. rewrite (drop_app_length' x _ 4) by done. by rewrite IH.
Qed.

Lemma deref_ptrs l : Z.of_nat (length l) < 2 ^ 32 -> deref l <$> (ptr <$> seq 0 (length l)) = l.
Proof.
  intros Hl. apply list_eq. intros i. rewrite !list_lookup_fmap. destruct (decide (i < length l)%nat) as [Hi|Hi].
  - rewrite lookup_seq_lt by done. cbn. unfold deref. rewrite word_ptr by lia. rewrite Nat2Z.id.
    destruct (lookup_lt_is_Some_2 l i Hi) as [x Hx]. rewrite Hx. f_equal. by apply nth_lookup_Some.
  - rewrite lookup_seq_ge by lia. cbn. symmetry. apply lookup_ge_None. lia.
Qed.

Section Sorted.
Context (P : A -> Prop) `{!Order P} (l : list A).
Hypotheses (Hd : P d) (Hl : Forall P l).

Lemma deref_ok x : P (deref l x).
Proof.
  unfold deref. destruct (decide (Z.to_nat (word x) < length l)%nat) as [Hi|Hi].
  - rewrite Forall_forall in Hl. apply Hl, list_elem_of_In, nth_In, Hi.
  - by rewrite nth_overflow by lia.
Qed.

#[local] Instance compar_ok : Qsort.Comparator 4 (compar l) (fun x y => cmp (deref l x) (deref l y)).
Proof.
  split.
  - intros m a b x y Hx Hy Lx Ly. unfold compar.
    assert (Ex : load_bytes a 4 m = Some (x, m)) by (replace 4%nat with (length x) by lia; by apply load_bytes_eq).
    assert (Ey : load_bytes b 4 m = Some (y, m)) by (replace 4%nat with (length y) by lia; by apply load_bytes_eq).
    unfold bind. by rewrite Ex, Ey.
  - intros x y. apply (order_flip (P := P)); apply deref_ok.
  - intros x y z. apply (order_trans (P := P)); apply deref_ok.
Qed.

Lemma qsort_ptrs_sorts : Z.of_nat (length l) * 4 + 64 < 2 ^ 32 ->
  exists ys, qsort_ptrs l = Some ys /\ ys ≡ₚ l /\ StronglySorted (fun x y => cmp x y <= 0) ys.
Proof.
  intros Hn. unfold qsort_ptrs. set (xs := ptr <$> seq 0 (length l)). set (m := write_list _ _ _).
  assert (Hx : length xs = length l) by (unfold xs; by rewrite length_fmap, length_seq).
  destruct (Qsort.qsort_sorts 4 (compar l) _ m array_base xs) as (ys & Eq & Hlen & Hp & Hso).
  { apply ptrs_elems. } { lia. } { apply bytes_at_write_list. }
  rewrite Hx in Eq. rewrite Eq. cbn [mbind option_bind].
  assert (Hy : Qsort.elems 4 ys) by (eapply Qsort.elems_perm; [exact Hp|apply ptrs_elems]).
  assert (Hc : length (concat ys) = (4 * length l)%nat).
  { pose proof (Qsort.concat_size 4 ys Hy). rewrite (Permutation_length Hp), Hx in *. lia. }
  rewrite <- Hc, (load_bytes_eq _ _ (concat ys)) by apply bytes_at_write_list. cbn [mbind option_bind].
  assert (Hly : length ys = length l) by (rewrite (Permutation_length Hp); done).
  rewrite <- Hly, chunks_concat by done. eexists. split; [done|]. split.
  - rewrite Hp. unfold xs. by rewrite deref_ptrs by lia.
  - clear -Hso. induction Hso as [|y ys _ IH HF]; cbn; constructor; [done|]. by apply Forall_fmap.
Qed.
End Sorted.
End Ptrs.

(** ** The order of [strcoll] *)

Section Strings.
Import CString.

Lemma scmp_opp l1 : forall l2, scmp l2 l1 = - scmp l1 l2.
Proof. induction l1 as [|a l1 IH]; intros [|b l2]; cbn [scmp]; try lia. rewrite Z.eqb_sym. destruct (a =? b); [apply IH|lia]. Qed.

Lemma scmp_trans x : forall y z, str_ok x -> str_ok y -> str_ok z -> scmp x y <= 0 -> scmp y z <= 0 -> scmp x z <= 0.
Proof.
  induction x as [|a x IH]; intros [|b y] [|c z] Hx Hy Hz; cbn [scmp]; try lia;
    decompose_Forall_hyps; rewrite ?s8_byte by lia; zcases; subst; try lia; eauto.
Qed.

#[export] Instance strcoll_order : Order scmp str_ok.
Proof.
  split.
  - intros x y _ _. rewrite (scmp_opp x y). lia.
  - intros x y z. apply scmp_trans.
Qed.
End Strings.
End PtrSort.
