(* ===== verification/Dirent.v ===== *)
(** * Dirent: directory streams, src/dirent.c

    A stream reads a directory in blocks of at most 32 entries through
    [getdents], which only runs forward; [seekdir] and [rewinddir] open the path
    again and skip.  The kernel is the class [Kernel]: what a path names, and
    how many bytes of entries a [getdents] returns.  The state threads [errno],
    the number of open descriptors, the number of live heap blocks and the
    outcomes of the allocations to come.  The theorems say that a stream is a
    cursor into the directory's list of entries, and that [scandir] returns the
    selected entries in order and leaves nothing open or allocated behind. *)

From Stdlib Require Import ZArith Lia Bool.
From stdpp Require Import base list numbers sorting.
From S2P Require Import Prelude Monad PtrSort CString.

Module Dirent.

Abbreviation str := (list Z).

Definition EBADF : Z := 9.
Definition ENOENT : Z := 2.
Definition ENOMEM : Z := 12.
Definition ENOTDIR : Z := 20.
Definition EINVAL : Z := 22.

Record dirent := Dent { d_ino : Z; d_name : str }.

#[export] Instance dirent_eq_dec : EqDecision dirent.
Proof. solve_decision. Defined.

(** What a path opened for reading names. *)
Inductive node := Plain | Dir (entries : list dirent).

(** ** The state: errno, open descriptors, live blocks, allocations to come *)

Record io := Io { errno : Z; fds : Z; live : Z; grants : nat -> bool }.

Definition set_errno (e : Z) (s : io) : io := Io e (fds s) (live s) (grants s).
Definition add_fd (k : Z) (s : io) : io := Io (errno s) (fds s + k) (live s) (grants s).
Definition release (k : Z) (s : io) : io := Io (errno s) (fds s) (live s - k) (grants s).

(** One request: granted or not. *)
Definition request (s : io) : bool * io := (grants s 0%nat, Io (errno s) (fds s) (live s) (fun n => grants s (S n))).

Definition malloc (s : io) : bool * io :=
  let '(ok, s) := request s in (ok, if ok then release (-1) s else s).

(** [realloc] of a block, or of a null pointer. *)
Definition realloc (null : bool) (s : io) : bool * io :=
  let '(ok, s) := request s in (ok, if ok && null then release (-1) s else s).

(** ** Streams *)

Definition DIR_BUF_ENTRIES : Z := 32.
Definition sizeof_dirent : Z := 128.

(** [fd_entries] and [fd_off] are the kernel's side of the descriptor. *)
Record DIR := MkDIR {
  fd_entries : list dirent; fd_off : nat;
  path : str; buf : list dirent; n : Z; i : Z; pos : Z; eof : bool
}.

Section Streams.

Class Kernel := {
  open_path : str -> Z + node;
  getdents : list dirent -> nat -> Z;
}.

Context `{Knl : Kernel}.

(** [getdents] copies the entries it returns into the buffer and moves the
    descriptor past them. *)
Definition fill (d : DIR) (bytes : Z) : DIR :=
  let k := Z.quot bytes sizeof_dirent in
  MkDIR (fd_entries d) (fd_off d + Z.to_nat k) (path d) (take (Z.to_nat k) (drop (fd_off d) (fd_entries d)))
    (n d) (i d) (pos d) (eof d).

Definition opendir (name : option str) (s : io) : option DIR * io :=
  match name with
  | None => (None, set_errno ENOENT s)
  | Some name =>
      match open_path name with
      | inl e => (None, set_errno e s)
      | inr f =>
          let s := add_fd 1 s in
          match f with
          | Plain => (None, set_errno ENOTDIR (add_fd (-1) s))
          | Dir es =>
              let '(ok, s) := malloc s in
              if negb ok then (None, set_errno ENOMEM (add_fd (-1) s))
              else
                let '(ok, s) := malloc s in
                if negb ok then (None, set_errno ENOMEM (release 1 (add_fd (-1) s)))
                else (Some (MkDIR es 0 name [] 0 0 0 false), s)
          end
      end
  end.

Definition dir_reset (d : DIR) : DIR := MkDIR (fd_entries d) (fd_off d) (path d) (buf d) 0 0 0 false.

(** The skipping loop of [dir_goto]. *)
Fixpoint goto_loop (fuel : nat) (d : DIR) (loc : Z) : option (bool * DIR) :=
  match fuel with
  | O => None
  | S fuel =>
      if pos d <? loc then
        let bytes := getdents (fd_entries d) (fd_off d) in
        if bytes <=? 0 then Some (true, MkDIR (fd_entries d) (fd_off d) (path d) (buf d) (n d) (i d) (pos d) true)
        else
          let d := fill d bytes in
          let k := Z.quot bytes sizeof_dirent in
          goto_loop fuel (MkDIR (fd_entries d) (fd_off d) (path d) (buf d) k k (pos d + k) (eof d)) loc
      else Some (false, d)
  end.

(** Each round of the loop but the last reads an entry. *)
Definition dir_goto (d : DIR) (loc : Z) (s : io) : option (Z * DIR * io) :=
  match open_path (path d) with
  | inl e => Some (-1, d, set_errno e s)
  | inr f =>
      let es := match f with Dir es => es | Plain => [] end in
      let d := dir_reset (MkDIR es 0 (path d) (buf d) (n d) (i d) (pos d) (eof d)) in
      '(at_end, d) ← goto_loop (S (S (length es))) d loc;
      Some (0,
        (if (at_end : bool) then d
         else if pos d >? loc then
           MkDIR (fd_entries d) (fd_off d) (path d) (buf d) (n d) (n d - (pos d - loc)) loc (eof d)
         else d), s)
  end.

(** The entry at the stream's position; [inl] is a null pointer. *)
Definition take_entry (d : DIR) : option (option dirent * DIR) :=
  e ← buf d !! Z.to_nat (i d);
  Some (Some e, MkDIR (fd_entries d) (fd_off d) (path d) (buf d) (n d) (i d + 1) (pos d + 1) (eof d)).

Definition set_eof (d : DIR) : DIR := MkDIR (fd_entries d) (fd_off d) (path d) (buf d) (n d) (i d) (pos d) true.

(** [None] is a read outside the buffer. *)
Definition readdir (d : DIR) : option (option dirent * DIR) :=
  if n d <=? i d then
    if eof d then Some (None, d)
    else
      let bytes := getdents (fd_entries d) (fd_off d) in
      if bytes <? 0 then Some (None, d)
      else if bytes =? 0 then Some (None, set_eof d)
      else
        let d := fill d bytes in
        let d := MkDIR (fd_entries d) (fd_off d) (path d) (buf d) (Z.quot bytes sizeof_dirent) 0 (pos d) (eof d) in
        if n d =? 0 then Some (None, set_eof d) else take_entry d
  else take_entry d.

(** The status and what the caller's entry and result hold afterwards. *)
Definition readdir_r (d : option DIR) (entry result : bool) : option (Z * option dirent * option DIR) :=
  match d with
  | Some d =>
      if negb entry || negb result then Some (EINVAL, None, Some d)
      else '(e, d) ← readdir d; Some (0, e, Some d)
  | None => Some (EINVAL, None, None)
  end.

(** The descriptor, the path and the stream are given back. *)
Definition closedir (d : option DIR) (s : io) : Z * io :=
  match d with
  | None => (-1, set_errno EBADF s)
  | Some d => (0, release 2 (add_fd (-1) s))
  end.

Definition rewinddir (d : DIR) (s : io) : option (DIR * io) :=
  '(r, d, s) ← dir_goto d 0 s;
  Some (if r =? 0 then d else dir_reset d, s).

Definition telldir (d : option DIR) : Z := match d with Some d => pos d | None => -1 end.

Definition seekdir (d : DIR) (loc : Z) (s : io) : option (DIR * io) :=
  if loc <? 0 then Some (d, s)
  else if pos d =? loc then Some (d, s)
  else '(r, d, s) ← dir_goto d loc s; Some (d, if r =? 0 then s else set_errno EBADF s).

(** ** scandir *)

Definition alphasort (a b : dirent) : Z := CString.scmp (d_name a) (d_name b).

(** The entries copied so far are in [acc], last first. *)
Fixpoint scan_loop (fuel : nat) (filter : dirent -> bool) (d : DIR) (acc : list dirent) (s : io) :
    option (option (list dirent) * DIR * io) :=
  match fuel with
  | O => None
  | S fuel =>
      '(e, d) ← readdir d;
      match e with
      | None => Some (Some (rev acc), d, s)
      | Some e =>
          if negb (filter e) then scan_loop fuel filter d acc s
          else
            let null := match acc with [] => true | _ => false end in
            let count := Z.of_nat (length acc) in
            let '(ok, s) := realloc null s in
            if negb ok then Some (None, d, release (count + if null then 0 else 1) s)
            else
              let '(ok, s) := malloc s in
              if negb ok then Some (None, d, release (count + 1) s)
              else scan_loop fuel filter d (e :: acc) s
      end
  end.

(** The entries, or -1 with errno set. *)
Definition scandir (fuel : nat) (name : option str) (filter : option (dirent -> bool)) (compar : option (dirent -> dirent -> Z))
    (s : io) : option (option (list dirent) * io) :=
  match opendir name s with
  | (None, s) => Some (None, s)
  | (Some d, s) =>
      '(l, d, s) ← scan_loop fuel (default (fun _ => true) filter) d [] s;
      let '(_, s) := closedir (Some d) s in
      match l with
      | None => Some (None, set_errno ENOMEM s)
      | Some l => l ← PtrSort.qsort_ptrs (Dent 0 []) (default alphasort compar) l; Some (Some l, s)
      end
  end.
(** ** A stream is a cursor into the list of entries *)

(** What the kernel documents of [getdents]: whole entries, at least one and at
    most a buffer of them while there are some left, 0 at the end. *)
Class KernelOk : Prop := {
  getdents_some : forall es off, (off < length es)%nat ->
    exists k, (0 < k <= 32)%nat /\ (off + k <= length es)%nat /\ getdents es off = 128 * Z.of_nat k;
  getdents_end : forall es off, (length es <= off)%nat -> getdents es off = 0;
}.

Context `{KnlOk : !KernelOk}.

(** The stream [d] on the entries [es] is at entry number [p]: the buffer holds
    the [n] entries before the descriptor's offset. *)
Record cursor (es : list dirent) (name : str) (d : DIR) (p : nat) : Prop := {
  c_entries : fd_entries d = es;
  c_path : path d = name;
  c_off : (fd_off d <= length es)%nat;
  c_n : 0 <= i d <= n d /\ n d <= Z.of_nat (fd_off d);
  c_pos : pos d = Z.of_nat p /\ Z.of_nat p = Z.of_nat (fd_off d) - n d + i d;
  c_buf : forall j, 0 <= j < n d -> buf d !! Z.to_nat j = es !! (fd_off d - Z.to_nat (n d - j))%nat;
  c_eof : eof d = true -> fd_off d = length es;
}.

Lemma cursor_le es name d p : cursor es name d p -> (p <= length es)%nat.
Proof. intros []. lia. Qed.

Lemma lookup_take_drop (es : list dirent) off k j : (j < k)%nat -> take k (drop off es) !! j = es !! (off + j)%nat.
Proof. intros Hj. by rewrite lookup_take_lt, lookup_drop by done. Qed.

(** Filling the buffer with the next block of [k] entries. *)
Lemma fill_block d k : getdents (fd_entries d) (fd_off d) = 128 * Z.of_nat k ->
  fill d (128 * Z.of_nat k) = MkDIR (fd_entries d) (fd_off d + k) (path d) (take k (drop (fd_off d) (fd_entries d))) (n d) (i d) (pos d) (eof d) /\
  Z.quot (128 * Z.of_nat k) sizeof_dirent = Z.of_nat k.
Proof.
  intros _. unfold fill, sizeof_dirent. rewrite Z.mul_comm, Z.quot_mul by lia. by rewrite Nat2Z.id.
Qed.

Lemma take_entry_cursor es name d p : cursor es name d p -> i d < n d ->
  exists e d', es !! p = Some e /\ take_entry d = Some (Some e, d') /\ cursor es name d' (S p).
Proof.
  intros [] Hi. unfold take_entry. rewrite (c_buf0 (i d)) by lia.
  replace (fd_off d - Z.to_nat (n d - i d))%nat with p by lia.
  destruct (lookup_lt_is_Some_2 es p) as [e He]; [lia|]. rewrite He. cbn. eexists e, _. split_and!; [done..|].
  constructor; cbn; try done; try lia.
Qed.

Lemma readdir_cursor es name d p : cursor es name d p ->
  exists d', readdir d = Some (es !! p, d') /\ cursor es name d' (if decide (p < length es)%nat then S p else p).
Proof.
  intros Hc. unfold readdir. destruct (Z.leb_spec (n d) (i d)) as [Hn|Hn].
  2:{ destruct (take_entry_cursor _ _ _ _ Hc ltac:(lia)) as (e & d' & He & -> & Hc'). exists d'. rewrite He. split; [done|].
      apply lookup_lt_Some in He. by rewrite decide_True. }
  assert (Hp : p = fd_off d) by (destruct Hc; lia).
  destruct (decide (p < length es)%nat) as [Hlt|Hge].
  - destruct (eof d) eqn:Ee; [pose proof (c_eof _ _ _ _ Hc Ee); lia|].
    destruct (getdents_some es (fd_off d) ltac:(lia)) as (k & Hk & Hle & Hg).
    rewrite <- (c_entries _ _ _ _ Hc) in Hg. destruct (fill_block d k Hg) as [Hf Hq]. rewrite Hg, Hf, Hq. cbn.
    destruct (Z.ltb_spec (128 * Z.of_nat k) 0); [lia|]. destruct (Z.eqb_spec (128 * Z.of_nat k) 0); [lia|].
    destruct (Z.eqb_spec (Z.of_nat k) 0); [lia|].
    edestruct (take_entry_cursor es name) as (e & d' & He & -> & Hc'); [| |exists d'; by rewrite He].
    + destruct Hc. constructor; cbn; try done; try lia; try congruence.
      intros j Hj. rewrite lookup_take_drop by lia. rewrite c_entries0. f_equal. lia.
    + cbn. lia.
  - assert (Hnone : es !! p = None) by (apply lookup_ge_None; lia). rewrite Hnone.
    destruct (eof d) eqn:Ee; [by exists d|]. rewrite (c_entries _ _ _ _ Hc), (getdents_end es) by (destruct Hc; lia). cbn.
    exists (set_eof d). split; [done|]. destruct Hc. constructor; cbn; try done; try lia.
Qed.

(** The skipping loop ends on a block boundary at or after [loc], or at the end. *)
Lemma goto_loop_cursor es name loc fuel : forall d p, cursor es name d p -> i d = n d ->
  (length es - p < fuel)%nat ->
  exists (at_end : bool) d' q, goto_loop fuel d loc = Some (at_end, d') /\ cursor es name d' q /\ i d' = n d' /\
    (if at_end then Z.of_nat q < loc /\ q = length es
     else loc <= Z.of_nat q /\ (q = p \/ Z.of_nat q - loc < n d')).
Proof.
  induction fuel as [|fuel IH]; intros d p Hc Hi Hf; [lia|]. cbn [goto_loop].
  destruct (c_pos _ _ _ _ Hc) as [Hp Hp']. rewrite Hp. destruct (Z.ltb_spec (Z.of_nat p) loc) as [Hlt|Hge].
  2:{ exists false, d, p. split_and!; [done..|lia|by left]. }
  assert (Hoff : p = fd_off d) by lia. destruct (decide (p < length es)%nat) as [Hpl|Hpl].
  - destruct (getdents_some es (fd_off d) ltac:(lia)) as (k & Hk & Hle & Hg).
    rewrite <- (c_entries _ _ _ _ Hc) in Hg. destruct (fill_block d k Hg) as [Hfl Hq]. rewrite Hg, Hfl, Hq. cbn.
    destruct (Z.leb_spec (128 * Z.of_nat k) 0); [lia|].
    edestruct (IH (MkDIR (fd_entries d) (fd_off d + k) (path d) (take k (drop (fd_off d) (fd_entries d))) (Z.of_nat k) (Z.of_nat k)
      (pos d + Z.of_nat k) (eof d)) (p + k)%nat) as (b & d' & q & Hr & Hc' & Hi' & Hend); [|done|lia|].
    + destruct Hc. constructor; cbn; try done; try lia.
      * intros j Hj. rewrite lookup_take_drop by lia. rewrite c_entries0. f_equal. lia.
      * intros He. specialize (c_eof0 He). lia.
    + rewrite Hr. exists b, d', q. split_and!; [done..|]. destruct b; [done|]. destruct Hend as [Hq' [->|]]; split; auto.
      right. destruct fuel as [|fuel]; [done|]. cbn [goto_loop] in Hr. cbn [pos] in Hr.
      destruct (Z.ltb_spec (pos d + Z.of_nat k) loc); [lia|]. simplify_eq. cbn. lia.
  - destruct Hc. rewrite c_entries0, getdents_end by lia. cbn. eexists true, _, p. split; [reflexivity|].
    split_and!; [constructor; cbn; try done; try lia|done|lia|lia].
Qed.

Lemma dir_goto_cursor es name d p loc s : cursor es name d p -> open_path name = inr (Dir es) -> 0 <= loc ->
  exists d', dir_goto d loc s = Some (0, d', s) /\ cursor es name d' (Nat.min (Z.to_nat loc) (length es)).
Proof.
  intros Hc Ho Hloc. unfold dir_goto. rewrite (c_path _ _ _ _ Hc), Ho.
  set (d0 := dir_reset _). assert (Hc0 : cursor es name d0 0) by (constructor; cbn; try done; lia).
  destruct (goto_loop_cursor es name loc (S (S (length es))) d0 0 Hc0 eq_refl ltac:(lia)) as (b & d' & q & -> & Hq & Hi & Hb). cbn.
  pose proof (cursor_le _ _ _ _ Hq). destruct b.
  - exists d'. split; [done|]. destruct Hb as [? ->]. by replace (Nat.min _ _) with (length es) by lia.
  - rewrite Z.gtb_ltb, (proj1 (c_pos _ _ _ _ Hq)). destruct (Z.ltb_spec loc (Z.of_nat q)) as [Hlt|].
    + eexists. split; [done|]. replace (Nat.min _ _) with (Z.to_nat loc) by lia. destruct Hq. constructor; cbn; try done; lia.
    + exists d'. split; [done|]. by replace (Nat.min _ _) with q by lia.
Qed.
(** The calls of a client, and the answers it sees. *)
Inductive call := Read | Tell | Seek (loc : Z) | Rewind.
Inductive answer := Entry (e : option dirent) | Position (p : Z) | Done.

Definition do_call (c : call) (d : DIR) (s : io) : option (answer * DIR * io) :=
  match c with
  | Read => '(e, d) ← readdir d; Some (Entry e, d, s)
  | Tell => Some (Position (telldir (Some d)), d, s)
  | Seek loc => '(d, s) ← seekdir d loc s; Some (Done, d, s)
  | Rewind => '(d, s) ← rewinddir d s; Some (Done, d, s)
  end.

Fixpoint do_calls (cs : list call) (d : DIR) (s : io) : option (list answer * io) :=
  match cs with
  | [] => Some ([], s)
  | c :: cs => '(a, d, s) ← do_call c d s; '(l, s) ← do_calls cs d s; Some (a :: l, s)
  end.

(** The specification: a position in a list. *)
Definition spec_call (es : list dirent) (c : call) (p : nat) : answer * nat :=
  match c with
  | Read => (Entry (es !! p), if decide (p < length es)%nat then S p else p)
  | Tell => (Position (Z.of_nat p), p)
  | Seek loc => (Done, if loc <? 0 then p else Nat.min (Z.to_nat loc) (length es))
  | Rewind => (Done, 0%nat)
  end.

Fixpoint spec_calls (es : list dirent) (cs : list call) (p : nat) : list answer :=
  match cs with [] => [] | c :: cs => let '(a, p) := spec_call es c p in a :: spec_calls es cs p end.

Lemma do_call_spec es name c d p s : cursor es name d p -> open_path name = inr (Dir es) ->
  exists d', do_call c d s = Some ((spec_call es c p).1, d', s) /\ cursor es name d' (spec_call es c p).2.
Proof.
  intros Hc Ho. destruct c as [| |loc|]; cbn.
  - destruct (readdir_cursor _ _ _ _ Hc) as (d' & -> & Hc'). by exists d'.
  - exists d. by rewrite (proj1 (c_pos _ _ _ _ Hc)).
  - unfold seekdir. destruct (Z.ltb_spec loc 0) as [|Hl]; [by exists d|].
    destruct (Z.eqb_spec (pos d) loc) as [E|_].
    + exists d. split; [done|]. pose proof (cursor_le _ _ _ _ Hc). rewrite (proj1 (c_pos _ _ _ _ Hc)) in E.
      by replace (Nat.min _ _) with p by lia.
    + destruct (dir_goto_cursor es name d p loc s Hc Ho Hl) as (d' & -> & Hc'). by exists d'.
  - unfold rewinddir. destruct (dir_goto_cursor es name d p 0 s Hc Ho ltac:(lia)) as (d' & -> & Hc'). by exists d'.
Qed.

Lemma do_calls_spec es name cs : forall d p s, cursor es name d p -> open_path name = inr (Dir es) ->
  do_calls cs d s = Some (spec_calls es cs p, s).
Proof.
  induction cs as [|c cs IH]; intros d p s Hc Ho; [done|]. cbn [do_calls spec_calls].
  destruct (do_call_spec es name c d p s Hc Ho) as (d' & -> & Hc'). cbn [mbind option_bind].
  rewrite (IH _ _ s Hc' Ho). cbn. by destruct (spec_call es c p).
Qed.

Lemma opendir_cursor es name s : open_path name = inr (Dir es) -> grants s 0 = true -> grants s 1 = true ->
  exists d s', opendir (Some name) s = (Some d, s') /\ cursor es name d 0 /\ fds s' = fds s + 1 /\ live s' = live s + 2 /\
    errno s' = errno s /\ grants s' = (fun n => grants s (S (S n))).
Proof.
  intros Ho H0 H1. unfold opendir. rewrite Ho. unfold malloc, request. cbn. rewrite H0. cbn. rewrite H1. cbn.
  eexists _, _. split; [reflexivity|]. cbn. split; [constructor; cbn; try done; lia|]. split_and!; done || lia.
Qed.

(** C30: every sequence of [readdir], [telldir], [seekdir] and [rewinddir] on an opened stream answers what a cursor into
    the directory's list of entries answers: the entry at the position and then the next one, a null pointer at the end,
    the position that [telldir] gave after a [seekdir] to it (positions past the end are the end, negative ones are
    ignored), whatever the sizes of the blocks the kernel hands out; the calls change neither errno nor the descriptors
    nor the heap. *)
Theorem stream_is_cursor es name cs s :
  open_path name = inr (Dir es) -> grants s 0 = true -> grants s 1 = true ->
  exists d s', opendir (Some name) s = (Some d, s') /\ do_calls cs d s' = Some (spec_calls es cs 0, s') /\
    (closedir (Some d) s').2 = Io (errno s) (fds s) (live s) (grants s').
Proof.
  intros Ho H0 H1. destruct (opendir_cursor es name s Ho H0 H1) as (d & s' & Hd & Hc & Hf & Hl & He & _). exists d, s'.
  split; [done|]. split; [by eapply do_calls_spec|]. cbn. unfold release, add_fd. cbn. rewrite Hf, Hl, He. f_equal; lia.
Qed.

(** ** scandir *)

(** No allocation fails from here on. *)
Definition granted (s : io) : Prop := forall j, grants s j = true.

Lemma malloc_granted s : granted s ->
  exists s', malloc s = (true, s') /\ granted s' /\ fds s' = fds s /\ errno s' = errno s /\ live s' = live s + 1.
Proof.
  intros Hg. unfold malloc, request. rewrite Hg. eexists. split; [reflexivity|]. cbn.
  split_and!; try done; try lia; intros j; apply Hg.
Qed.

Lemma realloc_granted null s : granted s ->
  exists s', realloc null s = (true, s') /\ granted s' /\ fds s' = fds s /\ errno s' = errno s /\
    live s' = live s + if null then 1 else 0.
Proof.
  intros Hg. unfold realloc, request. rewrite Hg. eexists. split; [reflexivity|].
  destruct null; cbn; split_and!; try done; try lia; intros j; apply Hg.
Qed.

Lemma scan_loop_all filter es name fuel : forall d p acc s, cursor es name d p -> (length es - p < fuel)%nat ->
  granted s ->
  exists d' s', scan_loop fuel filter d acc s = Some (Some (rev acc ++ base.filter filter (drop p es)), d', s') /\
    fds s' = fds s /\ errno s' = errno s /\ granted s' /\
    live s' = live s + Z.of_nat (length (base.filter filter (drop p es)))
      + (match acc, base.filter filter (drop p es) with [], _ :: _ => 1 | _, _ => 0 end).
Proof.
  induction fuel as [|fuel IH]; intros d p acc s Hc Hf Hg; [lia|]. cbn [scan_loop].
  destruct (readdir_cursor _ _ _ _ Hc) as (d' & -> & Hc'). cbn [mbind option_bind].
  destruct (es !! p) as [e|] eqn:Ep.
  2:{ apply lookup_ge_None in Ep. rewrite drop_ge by lia. exists d', s. cbn. rewrite app_nil_r. split_and!; try done.
      destruct acc; cbn; lia. }
  pose proof (lookup_lt_Some _ _ _ Ep) as Hp. rewrite decide_True in Hc' by done. rewrite (drop_S _ _ _ Ep).
  destruct (filter e) eqn:Ef; cbn [negb].
  - destruct (realloc_granted (match acc with [] => true | _ => false end) s Hg) as (s1 & -> & Hg1 & Hf1 & He1 & Hl1). cbn [negb].
    destruct (malloc_granted s1 Hg1) as (s2 & -> & Hg2 & Hf2 & He2 & Hl2). cbn [negb].
    destruct (IH d' (S p) (e :: acc) s2 Hc' ltac:(lia) Hg2) as (d3 & s3 & -> & Hf3 & He3 & Hg3 & Hl3).
    exists d3, s3. rewrite filter_cons_True by (by rewrite Ef). cbn [rev]. rewrite <- app_assoc. split; [done|].
    rewrite Hf3, He3, Hl3, Hf2, He2, Hl2, Hf1, He1, Hl1. destruct acc; cbn; split_and!; done || lia.
  - rewrite filter_cons_False by (rewrite Ef; by intros []). apply IH; [done|lia|done].
Qed.
(** Whatever is granted, the loop gives back what it took when it gives up. *)
Lemma scan_loop_balance filter es name fuel : forall d p acc s d' s' r, cursor es name d p ->
  scan_loop fuel filter d acc s = Some (r, d', s') ->
  fds s' = fds s /\
  (r = None -> live s' = live s - Z.of_nat (length acc) - match acc with [] => 0 | _ => 1 end).
Proof.
  induction fuel as [|fuel IH]; intros d p acc s d' s' r Hc Hr; [done|]. cbn [scan_loop] in Hr.
  destruct (readdir_cursor _ _ _ _ Hc) as (d1 & E & Hc'). rewrite E in Hr. cbn [mbind option_bind] in Hr.
  destruct (es !! p) as [e|]; [|by simplify_eq]. destruct (filter e); cbn [negb] in Hr; [|by eapply IH].
  unfold realloc, malloc, request in Hr. destruct (grants s 0); cbn in Hr.
  2:{ simplify_eq. cbn. split; [done|]. intros _. destruct acc; cbn; lia. }
  set (s1 := if match acc with [] => true | _ => false end then _ else _) in Hr.
  assert (Hf1 : fds s1 = fds s) by (unfold s1; by destruct acc).
  assert (Hl1 : live s1 = live s + match acc with [] => 1 | _ => 0 end) by (unfold s1; destruct acc; cbn; lia).
  destruct (grants s1 0); cbn in Hr.
  - destruct (IH _ _ _ _ _ _ _ Hc' Hr) as [Hf Hl]. cbn in Hf. split; [congruence|]. intros Hn. rewrite (Hl Hn). cbn. destruct acc; cbn in *; lia.
  - simplify_eq. cbn. split; [done|]. intros _. rewrite Hl1. destruct acc; cbn; lia.
Qed.

(** [scandir] of a directory, when memory is not refused, returns the entries the filter selects, all of them and
    nothing else, in the order of the comparison function (by name without one); the descriptor is closed, errno is
    untouched, and what stays on the heap is the entries and, when there is one, their array. *)
Theorem scandir_selects fuel es name filter s :
  open_path name = inr (Dir es) -> granted s -> (length es < fuel)%nat -> Z.of_nat (length es) * 4 + 64 < 2 ^ 32 ->
  Forall (fun e => CString.str_ok (d_name e)) es ->
  exists l s', scandir fuel (Some name) filter None s = Some (Some l, s') /\
    l ≡ₚ base.filter (default (fun _ => true) filter) es /\ StronglySorted (fun a b => alphasort a b <= 0) l /\
    errno s' = errno s /\ fds s' = fds s /\
    live s' = live s + Z.of_nat (length l) + (match l with [] => 0 | _ => 1 end).
Proof.
  intros Ho Hg Hf Hn Hes. unfold scandir.
  destruct (opendir_cursor es name s Ho (Hg _) (Hg _)) as (d & s1 & -> & Hc & Hf1 & Hl1 & He1 & Hg1).
  assert (Hg1' : granted s1) by (intros j; rewrite Hg1; apply Hg).
  set (f := default (fun _ => true) filter).
  destruct (scan_loop_all f es name fuel d 0 [] s1 Hc ltac:(lia) Hg1') as (d2 & s2 & -> & Hf2 & He2 & _ & Hl2).
  cbn [mbind option_bind rev app closedir default from_option]. unfold drop in *. set (l := base.filter f es) in *.
  assert (Hord : PtrSort.Order alphasort (fun e => CString.str_ok (d_name e))).
  { destruct PtrSort.strcoll_order as [Hfl Htr]. split; unfold alphasort; eauto. }
  assert (Hsub : Forall (fun e => CString.str_ok (d_name e)) l).
  { apply Forall_forall. intros x [_ Hx]%list_elem_of_filter. rewrite Forall_forall in Hes. by apply Hes. }
  assert (Hlen : (length l <= length es)%nat) by apply length_filter.
  destruct (PtrSort.qsort_ptrs_sorts (Dent 0 []) alphasort _ l (Forall_nil_2 _) Hsub ltac:(lia)) as (ys & -> & Hp & Hs).
  cbn [mbind option_bind]. eexists ys, _. split; [done|]. split; [done|]. split; [done|]. cbn.
  rewrite (Permutation_length Hp), Hf2, He2, Hl2, Hf1, He1, Hl1. split_and!; [done|lia|].
  pose proof (Permutation_length Hp). destruct ys, l; cbn in *; lia.
Qed.
(** A [scandir] that fails, on whatever path and for whatever reason, leaves no descriptor open and nothing on the heap. *)
Theorem scandir_failure_clean fuel name filter compar s s' :
  scandir fuel name filter compar s = Some (None, s') -> fds s' = fds s /\ live s' = live s.
Proof.
  unfold scandir. destruct (opendir name s) as [[d|] s1] eqn:Eo.
  - intros Hr. destruct (scan_loop fuel _ d [] s1) as [[[[l|] d2] s2]|] eqn:El; cbn [mbind option_bind closedir] in Hr; [by destruct (PtrSort.qsort_ptrs _ _ _)| |done].
    simplify_eq. unfold opendir in Eo. destruct name as [name|]; [|done]. destruct (open_path name) as [e|[|es]]; [done..|].
    unfold malloc, request in Eo. cbn in Eo. destruct (grants s 0); [|done]. cbn in Eo. destruct (grants s 1); [|done]. cbn in Eo. simplify_eq.
    assert (Hc : cursor es name (MkDIR es 0 name [] 0 0 0 false) 0) by (constructor; cbn; try done; lia).
    destruct (scan_loop_balance _ _ _ _ _ _ _ _ _ _ _ Hc El) as [Hf Hl]. specialize (Hl eq_refl). cbn in *. lia.
  - intros [= <-]. unfold opendir in Eo. destruct name as [name|]; [|by simplify_eq]. destruct (open_path name) as [e|[|es]].
    + by simplify_eq.
    + simplify_eq. cbn. lia.
    + unfold malloc, request in Eo. cbn in Eo. destruct (grants s 0); cbn in Eo; [|simplify_eq; cbn; lia].
      destruct (grants s 1); cbn in Eo; simplify_eq. cbn. lia.
Qed.
End Streams.
(** ** A kernel: one directory of five entries, read three at a time *)

Definition five : list dirent := [Dent 1 [46]; Dent 2 [46; 46]; Dent 3 [122]; Dent 4 [98]; Dent 5 [97]].

Definition small_blocks : Kernel := {|
  open_path name := if decide (name = [100]) then inr (Dir five) else inl ENOENT;
  getdents es off := 128 * Z.min 3 (Z.of_nat (length es - off));
|}.

Lemma small_blocks_ok : KernelOk (Knl := small_blocks).
Proof.
  split; cbn.
  - intros es off Hlt. exists (Nat.min 3 (length es - off)). split_and!; lia.
  - intros es off Hle. replace (length es - off)%nat with 0%nat by lia. done.
Qed.

Definition io0 : io := Io 0 3 0 (fun _ => true).

Lemma stream_is_cursor_witness :
  exists d s', opendir (Knl := small_blocks) (Some [100]) io0 = (Some d, s') /\
    do_calls (Knl := small_blocks) [Read; Read; Tell; Seek 4; Read; Read; Seek 1; Read; Rewind; Tell] d s'
    = Some ([Entry (Some (Dent 1 [46])); Entry (Some (Dent 2 [46; 46])); Position 2; Done; Entry (Some (Dent 5 [97])); Entry None;
             Done; Entry (Some (Dent 2 [46; 46])); Done; Position 0], s') /\
    (closedir (Some d) s').2 = Io 0 3 0 (grants s').
Proof.
  exact (stream_is_cursor (Knl := small_blocks) (KnlOk := small_blocks_ok) five [100]
    [Read; Read; Tell; Seek 4; Read; Read; Seek 1; Read; Rewind; Tell] io0 eq_refl eq_refl eq_refl).
Defined.

Definition no_dots (e : dirent) : bool := negb (bool_decide (head (d_name e) = Some 46)).

Lemma scandir_selects_witness :
  exists l s', scandir (Knl := small_blocks) 10 (Some [100]) (Some no_dots) None io0 = Some (Some l, s') /\
    l ≡ₚ base.filter no_dots five /\ StronglySorted (fun a b => alphasort a b <= 0) l /\
    errno s' = 0 /\ fds s' = 3 /\ live s' = 0 + Z.of_nat (length l) + (match l with [] => 0 | _ => 1 end).
Proof.
  refine (scandir_selects (Knl := small_blocks) (KnlOk := small_blocks_ok) 10 five [100] (Some no_dots) io0 eq_refl _ _ _ _).
  - done.
  - cbn. lia.
  - cbn. lia.
  - repeat constructor; cbn; lia.
Defined.

Lemma scandir_sample :
  scandir (Knl := small_blocks) 10 (Some [100]) (Some no_dots) None io0 = Some (Some [Dent 5 [97]; Dent 4 [98]; Dent 3 [122]],
    Io 0 3 4 (fun _ => true)).
Proof. vm_compute. reflexivity. Qed.
End Dirent.
