(* ===== verification/Glob.v ===== *)
(** * Glob: pathname expansion, src/glob.c

    The pattern is cut at its slashes and expanded one component at a time: a
    literal component has to exist, a component with wildcards is matched
    against the entries of the directory reached so far, which are read through
    the directory streams of [Dirent]; the paths that survive are sorted with
    [qsort].  The theorem compares the breadth-first walk with a reference that
    follows one path at a time. *)

From Stdlib Require Import ZArith Lia Bool.
From stdpp Require Import base list numbers sorting.
From S2P Require Import Prelude Monad CString Fnmatch PtrSort Dirent.

Module Glob.
Import Dirent.
#[local] Existing Instance PtrSort.strcoll_order.

Record gflags := Gf {
  GLOB_ERR : bool; GLOB_MARK : bool; GLOB_NOSORT : bool; GLOB_DOOFFS : bool; GLOB_NOCHECK : bool;
  GLOB_APPEND : bool; GLOB_NOESCAPE : bool; GLOB_PERIOD : bool; GLOB_TILDE : bool
}.

Definition GLOB_NOSPACE : Z := 1.
Definition GLOB_ABORTED : Z := 2.
Definition GLOB_NOMATCH : Z := 3.

(** A null slot of [gl_pathv] is [None]. *)
Record glob_t := GlobT { gl_pathc : Z; gl_pathv : option (list (option str)); gl_offs : Z }.

Record pathlist := PL { pv : list str; cap : Z }.
Definition empty_list : pathlist := PL [] 0.

Definition alloc : St io bool := fun s => Some (malloc s).
Definition lift {A} (o : option A) : St io A := fun s => match o with Some a => Some (a, s) | None => None end.
Definition give_back (k : Z) : St io unit := modify (release k).

(** 0, or -1 when memory runs out. *)
Definition list_add (l : pathlist) (t : str) : St io (Z * pathlist) :=
  let* l1 :=
    (if Z.of_nat (length (pv l)) + 1 >=? cap l then
       let* ok := (fun s => Some (realloc (cap l =? 0) s)) in
       ret (if (ok : bool) then Some (PL (pv l) (if cap l =? 0 then 16 else cap l * 2)) else None)
     else ret (Some l)) in
  match l1 with
  | None => ret (-1, l)
  | Some l =>
      let* ok := alloc in
      ret (if (ok : bool) then (0, PL (pv l ++ [t]) (cap l)) else (-1, l))
  end.

Definition list_free (l : pathlist) : St io unit :=
  give_back (Z.of_nat (length (pv l)) + if cap l =? 0 then 0 else 1).

Definition is_meta (c : Z) : bool := (c =? 42) || (c =? 63) || (c =? 91).

Fixpoint has_magic (noescape : bool) (t : str) : bool :=
  match t with
  | [] => false
  | c :: t =>
      if is_meta c then true
      else if (c =? 92) && negb noescape then match t with [] => true | _ :: t => has_magic noescape t end
      else has_magic noescape t
  end.

Definition join_text (dir name : str) : str :=
  dir ++ (if negb ((Z.of_nat (length dir) =? 1) && (default 0 (head dir) =? 47)) && (0 <? Z.of_nat (length dir)) then [47] else []) ++ name.

Definition join (dir name : str) : St io (option str) :=
  let* ok := alloc in ret (if (ok : bool) then Some (join_text dir name) else None).

(** Removing the escapes of a literal component, into a buffer of 256. *)
Fixpoint unescape (room : nat) (t : str) : str :=
  match room, t with
  | S room, c :: t =>
      match t with
      | c2 :: t2 => if c =? 92 then c2 :: unescape room t2 else c :: unescape room t
      | [] => [c]
      end
  | _, _ => []
  end.

Definition literal (flags : gflags) (comp : str) : str := if GLOB_NOESCAPE flags then comp else unescape 255 comp.

Definition fn_flags (flags : gflags) : Fnmatch.fnm_flags :=
  Fnmatch.Flags false (GLOB_NOESCAPE flags) (negb (GLOB_PERIOD flags)) false false.

Section Walk.

(** What [stat] says of a path: an error, or whether it is a directory. *)
Class Stat := stat_path : str -> Z + bool.

Context `{Knl : Kernel} `{Sta : Stat}.
Variable fuel : nat.
Variable getenv_home : option str.

Definition stat (path : str) : St io (option bool) :=
  match stat_path path with
  | inl e => let* _ := modify (set_errno e) in ret None
  | inr dir => ret (Some dir)
  end.

Definition is_dir (path : str) : St io bool := let* r := stat path in ret (default false r).

(** Is the failure on [path] to end the walk? *)
Definition stops (flags : gflags) (errfunc : option (str -> Z -> Z)) (path : str) : St io bool :=
  let* e := gets errno in
  ret (negb (match errfunc with Some f => f path e | None => 0 end =? 0) || GLOB_ERR flags).

(** The loop over the entries of an open directory. *)
Fixpoint match_entries (k : nat) (flags : gflags) (comp base : str) (d : DIR) (out : pathlist) : St io (Z * DIR * pathlist) :=
  match k with
  | O => fault
  | S k =>
      let* (e, d) := lift (readdir d) in
      match e with
      | None => ret (0, d, out)
      | Some e =>
          let* r := lift (Fnmatch.fnmatch (Some comp) (Some (d_name e)) (fn_flags flags)) in
          if negb (r =? 0) then match_entries k flags comp base d out
          else
            let* path := join base (d_name e) in
            match path with
            | None => ret (-1, d, out)
            | Some path =>
                let* (r, out) := list_add out path in
                let* _ := give_back 1 in
                if negb (r =? 0) then ret (-1, d, out) else match_entries k flags comp base d out
            end
      end
  end.

(** The paths of one component from each of the bases. *)
Fixpoint expand_component (flags : gflags) (errfunc : option (str -> Z -> Z)) (comp : str) (last : bool)
    (bases : list str) (out : pathlist) : St io (Z * pathlist) :=
  match bases with
  | [] => ret (0, out)
  | base :: bases =>
      let next := expand_component flags errfunc comp last bases in
      if negb (has_magic (GLOB_NOESCAPE flags) comp) then
        let* path := join base (literal flags comp) in
        match path with
        | None => ret (-1, out)
        | Some path =>
            let* st := stat path in
            match st with
            | Some _ =>
                let* (r, out) := list_add out path in
                let* _ := give_back 1 in
                if negb (r =? 0) then ret (-1, out) else next out
            | None =>
                if negb last then
                  let* stop := stops flags errfunc path in
                  let* _ := give_back 1 in
                  if (stop : bool) then ret (GLOB_ABORTED, out) else next out
                else let* _ := give_back 1 in next out
            end
        end
      else
        let* d := (fun s => Some (opendir (Some (match base with [] => [46] | _ => base end)) s)) in
        match d with
        | None =>
            let* stop := stops flags errfunc base in
            if (stop : bool) then ret (GLOB_ABORTED, out) else next out
        | Some d =>
            let* (r, d, out) := match_entries fuel flags comp base d out in
            let* _ := (fun s => Some (closedir (Some d) s)) in
            if negb (r =? 0) then ret (-1, out) else next out
        end
  end.

(** The part of [work] before its first slash, and what follows the slash. *)
Fixpoint cut (work : str) : str * option str :=
  match work with
  | [] => ([], None)
  | c :: work => if c =? 47 then ([], Some work) else let '(a, b) := cut work in (c :: a, b)
  end.

(** The loop over the components: a status other than 0 is what [glob] returns. *)
Fixpoint components (k : nat) (flags : gflags) (errfunc : option (str -> Z -> Z)) (work : str) (cur : pathlist) (dir_only : bool) :
    St io (Z * pathlist * bool) :=
  match k with
  | O => fault
  | S k =>
      match work with
      | [] => ret (0, cur, dir_only)
      | _ :: _ =>
          let '(comp, slash) := cut work in
          let ends := match slash with Some [] => true | _ => false end in
          match comp, slash with
          | [], Some rest => components k flags errfunc rest cur ends
          | _, _ =>
              if Z.of_nat (length comp) >=? 256 then
                let* _ := give_back 1 in let* _ := list_free cur in ret (GLOB_NOMATCH, empty_list, dir_only)
              else
                let last := match slash with None | Some [] => true | _ => false end in
                let* (r, next) := expand_component flags errfunc comp last (pv cur) empty_list in
                if negb (r =? 0) then
                  let* _ := give_back 1 in let* _ := list_free cur in let* _ := list_free next in
                  ret (if r =? GLOB_ABORTED then GLOB_ABORTED else GLOB_NOSPACE, empty_list, dir_only)
                else
                  let* _ := list_free cur in
                  if (match pv next with [] => true | _ => false end) && negb (GLOB_NOCHECK flags) then
                    let* _ := give_back 1 in ret (GLOB_NOMATCH, empty_list, dir_only)
                  else components k flags errfunc (default [] slash) next dir_only
          end
      end
  end.

(** The directories, each with its slash, and the others unless a slash was asked for. *)
Fixpoint mark (dir_only : bool) (flags : gflags) (paths : list str) (kept : pathlist) : St io (bool * pathlist) :=
  match paths with
  | [] => ret (true, kept)
  | p :: paths =>
      let* isd := is_dir p in
      if dir_only && negb isd then mark dir_only flags paths kept
      else if (isd : bool) && (dir_only || GLOB_MARK flags) then
        if bool_decide (last p = Some 47) then
          let* (r, kept) := list_add kept p in
          if negb (r =? 0) then ret (false, kept) else mark dir_only flags paths kept
        else
          let* ok := alloc in
          if negb ok then ret (false, kept)
          else
            let* (r, kept) := list_add kept (p ++ [47]) in
            let* _ := give_back 1 in
            if negb (r =? 0) then ret (false, kept) else mark dir_only flags paths kept
      else
        let* (r, kept) := list_add kept p in
        if negb (r =? 0) then ret (false, kept) else mark dir_only flags paths kept
  end.

Definition tilde (flags : gflags) (pattern : str) : str :=
  match GLOB_TILDE flags, pattern, getenv_home with
  | true, 126 :: ([] as rest), Some home => home ++ rest
  | true, 126 :: ((47 :: _) as rest), Some home => home ++ rest
  | _, _, _ => pattern
  end.

Definition nospace (cur next : pathlist) (g : glob_t) : St io (Z * glob_t) :=
  let* _ := give_back 1 in let* _ := list_free cur in let* _ := list_free next in ret (GLOB_NOSPACE, g).

(** The new [gl_pathv]: the reserved slots, the previous results, the paths. *)
Definition vector (flags : gflags) (g : glob_t) (paths : list str) : option (list (option str)) :=
  let offs := if GLOB_DOOFFS flags then gl_offs g else 0 in
  let old := if GLOB_APPEND flags then gl_pathc g else 0 in
  kept ← (if old =? 0 then Some []
          else v ← gl_pathv g;
               if (Z.to_nat (offs + old) <=? length v)%nat then Some (take (Z.to_nat old) (drop (Z.to_nat offs) v)) else None);
  Some (replicate (Z.to_nat offs) None ++ kept ++ (Some <$> paths) ++ [None]).

Definition glob (pattern : option str) (flags : gflags) (errfunc : option (str -> Z -> Z)) (pglob : option glob_t) :
    St io (Z * option glob_t) :=
  match pattern, pglob with
  | Some pattern, Some g =>
      let* ok := alloc in
      if negb ok then ret (GLOB_NOSPACE, Some g)
      else
        let pat := tilde flags pattern in
        let dir_only := (1 <? Z.of_nat (length pat)) && bool_decide (last pat = Some 47) in
        let absolute := bool_decide (head pat = Some 47) in
        let* (r, cur) := list_add empty_list (if absolute then [47] else []) in
        if negb (r =? 0) then let* (r, g) := nospace cur empty_list g in ret (r, Some g)
        else
          let work := if absolute then tail pat else pat in
          let* (r, cur, dir_only) := components (S (length work)) flags errfunc work cur dir_only in
          if negb (r =? 0) then ret (r, Some g)
          else
            let* (ok, cur) :=
              (if dir_only || GLOB_MARK flags then
                 let* (ok, kept) := mark dir_only flags (pv cur) empty_list in
                 if (ok : bool) then let* _ := list_free cur in ret (true, kept)
                 else let* _ := list_free kept in ret (false, cur)
               else ret (true, cur)) in
            if negb ok then let* (r, g) := nospace cur empty_list g in ret (r, Some g)
            else
              let* (r, cur) := (match pv cur with [] => list_add cur pattern | _ => ret (0, cur) end) in
              if negb (r =? 0) then let* (r, g) := nospace cur empty_list g in ret (r, Some g)
              else
                let* sorted := (if GLOB_NOSORT flags then ret (pv cur) else lift (PtrSort.qsort_ptrs [] CString.scmp (pv cur))) in
                let* ok := alloc in
                if negb ok then let* (r, g) := nospace cur empty_list g in ret (r, Some g)
                else
                  let* v := lift (vector flags g sorted) in
                  let old := if GLOB_APPEND flags then gl_pathc g else 0 in
                  let* _ := give_back ((if old =? 0 then 0 else 1) + 2) in
                  ret (0, Some (GlobT (old + Z.of_nat (length sorted)) (Some v) (gl_offs g)))
  | _, _ => ret (GLOB_NOMATCH, pglob)
  end.

(** The blocks given back are those of the slots from [gl_offs] on; [None] is a
    read past the vector. *)
Definition globfree (pglob : option glob_t) : St io (option glob_t) :=
  match pglob with
  | Some (GlobT c (Some v) offs) =>
      if (Z.to_nat (offs + c) <=? length v)%nat then
        let* _ := give_back (Z.of_nat (length (omap id (take (Z.to_nat c) (drop (Z.to_nat offs) v)))) + 1) in
        ret (Some (GlobT 0 None offs))
      else fault
  | _ => ret pglob
  end.
(** ** The reference: one path at a time *)

Definition entries (base : str) : list dirent :=
  match open_path (match base with [] => [46] | _ => base end) with inr (Dir es) => es | _ => [] end.

Definition selects (flags : gflags) (comp : str) (e : dirent) : bool :=
  bool_decide (Fnmatch.fnmatch (Some comp) (Some (d_name e)) (fn_flags flags) = Some 0).

Definition one (flags : gflags) (comp base : str) : list str :=
  if has_magic (GLOB_NOESCAPE flags) comp then (fun e => join_text base (d_name e)) <$> filter (selects flags comp) (entries base)
  else match stat_path (join_text base (literal flags comp)) with inr _ => [join_text base (literal flags comp)] | inl _ => [] end.

Fixpoint paths (flags : gflags) (comps : list str) (base : str) : list str :=
  match comps with [] => [base] | c :: comps => one flags c base ≫= paths flags comps end.

(** What the trailing slash and [GLOB_MARK] make of a path. *)
Definition marked (dir_only : bool) (flags : gflags) (p : str) : option str :=
  let isd := match stat_path p with inr b => b | inl _ => false end in
  if dir_only && negb isd then None
  else if isd && (dir_only || GLOB_MARK flags) then Some (if bool_decide (last p = Some 47) then p else p ++ [47])
  else Some p.

(** The text of a pattern with the given components. *)
Fixpoint text (comps : list str) (trailing : bool) : str :=
  match comps with
  | [] => []
  | [c] => c ++ if trailing then [47] else []
  | c :: comps => c ++ 47 :: text comps trailing
  end.

Definition comp_ok (c : str) : Prop := c <> [] /\ 47 ∉ c /\ (length c < 256)%nat /\ CString.str_ok c.

(** ** Steps with memory at hand *)

Context `{KnlOk : !KernelOk}.

(** Memory is still granted and the open descriptors are the same. *)
Definition quiet (s s' : io) : Prop := granted s' /\ fds s' = fds s.

Lemma quiet_trans s1 s2 s3 : quiet s1 s2 -> quiet s2 s3 -> quiet s1 s3.
Proof. unfold quiet. intuition congruence. Qed.

Ltac quiet_chain := repeat match goal with
  | H : quiet ?a ?b |- quiet ?a ?b => exact H
  | H : quiet ?a ?b |- quiet ?a ?c => apply (quiet_trans a b c H); clear H
  end.

Lemma wp_give_back k s (Q : unit -> io -> Prop) : granted s -> (forall s', quiet s s' -> Q tt s') -> wp (give_back k) s Q.
Proof. intros Hg HQ. apply wp_modify, HQ. by split. Qed.

Lemma wp_alloc s (Q : bool -> io -> Prop) : granted s -> (forall s', quiet s s' -> Q true s') -> wp alloc s Q.
Proof. intros Hg HQ. unfold wp, alloc. destruct (malloc_granted s Hg) as (s' & -> & Hg' & Hf & _). apply HQ. by split. Qed.

Lemma wp_list_add l t s (Q : Z * pathlist -> io -> Prop) : granted s ->
  (forall l' s', quiet s s' -> pv l' = pv l ++ [t] -> Q (0, l') s') -> wp (list_add l t) s Q.
Proof.
  intros Hg HQ. unfold list_add. apply wp_bind.
  assert (Hrest : forall l1 s1, quiet s s1 -> pv l1 = pv l -> wp (let* ok := alloc in ret (if (ok : bool) then (0, PL (pv l1 ++ [t]) (cap l1)) else (-1, l1))) s1 Q).
  { intros l1 s1 Hq Hp. apply wp_bind, wp_alloc; [apply Hq|]. intros s2 Hq2. apply wp_ret, HQ; [quiet_chain|]. cbn. by rewrite Hp. }
  destruct (_ >=? _); [|apply wp_ret, Hrest; done]. apply wp_bind. unfold wp at 1.
  destruct (realloc_granted (cap l =? 0) s Hg) as (s' & -> & Hg' & Hf & _). apply wp_ret. by apply Hrest.
Qed.

Lemma wp_join dir name s (Q : option str -> io -> Prop) : granted s ->
  (forall s', quiet s s' -> Q (Some (join_text dir name)) s') -> wp (join dir name) s Q.
Proof. intros Hg HQ. apply wp_bind, wp_alloc; [done|]. intros s' Hq. by apply wp_ret, HQ. Qed.

Lemma wp_lift {A} (o : option A) a s (Q : A -> io -> Prop) : o = Some a -> Q a s -> wp (lift o) s Q.
Proof. intros -> HQ. exact HQ. Qed.

Lemma wp_stat p s (Q : option bool -> io -> Prop) : granted s ->
  (forall s', quiet s s' -> Q (match stat_path p with inr b => Some b | inl _ => None end) s') -> wp (stat p) s Q.
Proof. intros Hg HQ. unfold stat. destruct (stat_path p); [apply wp_bind, wp_modify|]; apply wp_ret, HQ; done. Qed.

Lemma wp_stops flags p s (Q : bool -> io -> Prop) : GLOB_ERR flags = false -> Q false s -> wp (stops flags None p) s Q.
Proof. intros He HQ. apply wp_bind, wp_gets, wp_ret. by rewrite He. Qed.
(** ** The walk *)

(** Directories of less than [fuel] entries with proper names. *)
Hypothesis dirs_ok : forall p es, open_path p = inr (Dir es) ->
  (length es < fuel)%nat /\ Forall (fun e => CString.str_ok (d_name e)) es.

Section Flags.
Variable flags : gflags.
Hypothesis no_err : GLOB_ERR flags = false.

Lemma fnmatch_selects comp e : CString.str_ok comp -> CString.str_ok (d_name e) ->
  exists r, Fnmatch.fnmatch (Some comp) (Some (d_name e)) (fn_flags flags) = Some r /\ (r =? 0) = selects flags comp e.
Proof.
  intros Hc He. unfold selects. destruct (Fnmatch.fnmatch_answers (fn_flags flags) comp (d_name e) Hc He) as [-> | ->]; eexists;
    (split; [reflexivity|]); by case_bool_decide.
Qed.

Lemma wp_match_entries es name comp base : CString.str_ok comp -> Forall (fun e => CString.str_ok (d_name e)) es ->
  forall k d p out s (Q : Z * DIR * pathlist -> io -> Prop), cursor es name d p -> (length es - p < k)%nat -> granted s ->
  (forall d' out' s', quiet s s' ->
     pv out' = pv out ++ ((fun e => join_text base (d_name e)) <$> filter (selects flags comp) (drop p es)) -> Q (0, d', out') s') ->
  wp (match_entries k flags comp base d out) s Q.
Proof.
  intros Hcomp Hes. induction k as [|k IH]; intros d p out s Q Hc Hk Hg HQ; [lia|]. cbn [match_entries].
  destruct (readdir_cursor _ _ _ _ Hc) as (d' & Hr & Hc'). apply wp_bind. eapply wp_lift; [exact Hr|].
  destruct (es !! p) as [e|] eqn:Ep.
  2:{ apply wp_ret, HQ; [done|]. apply lookup_ge_None in Ep. by rewrite drop_ge, app_nil_r by lia. }
  pose proof (lookup_lt_Some _ _ _ Ep) as Hp. rewrite decide_True in Hc' by done. rewrite (drop_S _ _ _ Ep) in HQ.
  assert (He : CString.str_ok (d_name e)) by (rewrite Forall_forall in Hes; apply Hes; by eapply list_elem_of_lookup_2).
  destruct (fnmatch_selects comp e Hcomp He) as (r & Hr' & Hsel). apply wp_bind. eapply wp_lift; [exact Hr'|]. rewrite Hsel.
  destruct (selects flags comp e) eqn:Es; cbn [negb].
  - rewrite filter_cons_True in HQ by by rewrite Es. apply wp_bind, wp_join; [done|]. intros s1 Hq1.
    apply wp_bind, wp_list_add; [apply Hq1|]. intros out1 s2 Hq2 Hpv. cbn [negb]. apply wp_bind, wp_give_back; [apply Hq2|]. intros s3 Hq3.
    eapply IH; [done|lia|apply Hq3|]. intros d2 out2 s4 Hq4 Hpv2. apply HQ; [quiet_chain|].
    rewrite Hpv2, Hpv, <- app_assoc. done.
  - rewrite filter_cons_False in HQ by (rewrite Es; by intros []). eapply IH; [done|lia|done|done].
Qed.

Lemma opendir_entries base s : granted s ->
  let '(d, s') := opendir (Some (match base with [] => [46] | _ => base end)) s in
  granted s' /\
  match d with
  | None => entries base = [] /\ fds s' = fds s
  | Some d => open_path (match base with [] => [46] | _ => base end) = inr (Dir (entries base)) /\
      cursor (entries base) (match base with [] => [46] | _ => base end) d 0 /\ fds s' = fds s + 1
  end.
Proof.
  intros Hg. unfold entries. set (name := match base with [] => [46] | _ => base end).
  destruct (open_path name) as [e|[|es]] eqn:Eo.
  - unfold opendir. rewrite Eo. done.
  - unfold opendir. rewrite Eo. cbn. split_and!; try done. lia.
  - destruct (opendir_cursor es name s Eo (Hg _) (Hg _)) as (d & s' & -> & Hc & Hf & _ & _ & Hg'). split; [|done].
    intros j. rewrite Hg'. apply Hg.
Qed.

Lemma wp_expand comp last : CString.str_ok comp -> forall bases out s (Q : Z * pathlist -> io -> Prop), granted s ->
  (forall out' s', quiet s s' -> pv out' = pv out ++ (bases ≫= one flags comp) -> Q (0, out') s') ->
  wp (expand_component flags None comp last bases out) s Q.
Proof.
  intros Hcomp. induction bases as [|base bases IH]; intros out s Q Hg HQ; cbn [expand_component].
  { apply wp_ret, HQ; [done|]. cbn. by rewrite app_nil_r. }
  assert (Hnext : forall out1 s1, quiet s s1 -> pv out1 = pv out ++ one flags comp base ->
    wp (expand_component flags None comp last bases out1) s1 Q).
  { intros out1 s1 Hq Hpv. apply IH; [apply Hq|]. intros out2 s2 Hq2 Hpv2. apply HQ; [quiet_chain|].
    rewrite Hpv2, Hpv. cbn. by rewrite <- app_assoc. }
  unfold one in Hnext. destruct (has_magic _ _); cbn [negb].
  - apply wp_bind. unfold wp at 1. pose proof (opendir_entries base s Hg) as Hopen.
    destruct (opendir _ s) as [[d|] s1]; destruct Hopen as [Hg1 Hopen].
    + destruct Hopen as (Ho & Hc & Hf). destruct (dirs_ok _ _ Ho) as [Hlen Hnames].
      apply wp_bind. eapply wp_match_entries; [done|exact Hnames|exact Hc|lia|done|]. intros d' out1 s2 [Hg2 Hf2] Hpv.
      apply wp_bind. unfold wp at 1. cbn. apply Hnext; [|done]. split; [done|]. cbn. lia.
    + destruct Hopen as [Hnil Hf]. apply wp_bind, wp_stops; [done|]. apply Hnext; [by split|]. rewrite Hnil. cbn. by rewrite app_nil_r.
  - apply wp_bind, wp_join; [done|]. intros s1 Hq1. apply wp_bind, wp_stat; [apply Hq1|]. intros s2 Hq2.
    destruct (stat_path _) as [e|b].
    + destruct last; cbn [negb].
      * apply wp_bind, wp_give_back; [apply Hq2|]. intros s3 Hq3. apply Hnext; [quiet_chain|by rewrite app_nil_r].
      * apply wp_bind, wp_stops; [done|]. apply wp_bind, wp_give_back; [apply Hq2|]. intros s3 Hq3.
        apply Hnext; [quiet_chain|by rewrite app_nil_r].
    + apply wp_bind, wp_list_add; [apply Hq2|]. intros out1 s3 Hq3 Hpv. cbn [negb]. apply wp_bind, wp_give_back; [apply Hq3|]. intros s4 Hq4.
      apply Hnext; [|done]. quiet_chain.
Qed.
Lemma cut_comp c rest : 47 ∉ c -> cut (c ++ 47 :: rest) = (c, Some rest) /\ cut c = (c, None).
Proof.
  induction c as [|a c IH]; intros Hc; cbn [app cut]; [done|]. apply not_elem_of_cons in Hc as [Ha Hc].
  destruct (Z.eqb_spec a 47); [congruence|]. destruct (IH Hc) as [-> ->]. done.
Qed.

(** A stage of the loop: the next component, the rest and whether it is the last. *)
Lemma cut_component c comps tr : comp_ok c -> exists slash, cut (text (c :: comps) tr) = (c, slash) /\ default [] slash = text comps tr.
Proof.
  intros (_ & H47 & _). destruct (cut_comp c (text comps tr) H47) as [H1 H2], (cut_comp c [] H47) as [H3 _].
  destruct comps as [|c2 comps]; cbn [text] in *.
  - destruct tr; [by exists (Some [])|]. rewrite app_nil_r. by exists None.
  - by exists (Some (text (c2 :: comps) tr)).
Qed.

Lemma text_length c comps tr : comp_ok c -> (length (text comps tr) < length (text (c :: comps) tr))%nat.
Proof.
  intros (Hn & _). destruct c; [done|]. destruct comps; cbn [text app length]; [lia|]. rewrite length_app. cbn. lia.
Qed.

Lemma wp_components tr comps : Forall comp_ok comps -> forall k cur s (Q : Z * pathlist * bool -> io -> Prop), granted s ->
  (length (text comps tr) < k)%nat -> (pv cur <> [] \/ GLOB_NOCHECK flags = true) ->
  (forall st cur' s', quiet s s' ->
     (if bool_decide (pv cur ≫= paths flags comps = []) && negb (GLOB_NOCHECK flags) then st = GLOB_NOMATCH
      else st = 0 /\ pv cur' = pv cur ≫= paths flags comps) -> Q (st, cur', tr) s') ->
  wp (components k flags None (text comps tr) cur tr) s Q.
Proof.
  induction comps as [|c comps IH]; intros Hok k cur s Q Hg Hk Hcur HQ; (destruct k as [|k]; [lia|]); cbn [components].
  { apply wp_ret, HQ; [done|].
    assert (E : pv cur ≫= paths flags [] = pv cur) by (clear; induction (pv cur) as [|x l IH]; [done|]; cbn in *; by f_equal).
    rewrite E. destruct (GLOB_NOCHECK flags); [by rewrite andb_false_r|]. destruct Hcur; [|done]. by rewrite bool_decide_eq_false_2. }
  apply Forall_cons in Hok as [Hc Hok]. pose proof (text_length c comps tr Hc) as Htl.
  destruct (cut_component c comps tr Hc) as (slash & Ecut & Erest).
  destruct (text (c :: comps) tr) as [|x t] eqn:Et; [cbn in Htl; lia|]. rewrite Ecut.
  destruct Hc as (Hne & _ & Hlen & Hs). destruct c as [|c0 c]; [done|]. set (comp := c0 :: c) in *.
  destruct (Z.of_nat (length comp) >=? 256) eqn:E256; [rewrite Z.geb_leb in E256; apply Z.leb_le in E256; lia|].
  apply wp_bind, wp_expand; [done..|]. intros next s1 Hq1 Hpv. cbn [negb]. change (0 =? 0) with true. cbn [negb].
  apply wp_bind, wp_give_back; [apply Hq1|]. intros s2 Hq2. cbn [pv empty_list app] in Hpv.
  assert (Eref : pv cur ≫= paths flags (comp :: comps) = pv next ≫= paths flags comps).
  { rewrite Hpv. cbn [paths]. clear. induction (pv cur) as [|b l IH]; [done|]. cbn. by rewrite bind_app, IH. }
  rewrite Eref in HQ. destruct (match pv next with [] => true | _ => false end && negb (GLOB_NOCHECK flags)) eqn:Estop.
  - apply wp_bind, wp_give_back; [apply Hq2|]. intros s3 Hq3. apply wp_ret, HQ; [quiet_chain|].
    apply andb_true_iff in Estop as [Enil Eno]. destruct (pv next); [|done]. rewrite Eno. done.
  - rewrite Erest. apply IH; [done|apply Hq2|cbn in Htl, Hk; lia| |].
    + destruct (pv next), (GLOB_NOCHECK flags); auto; done.
    + intros st cur' s3 Hq3 Hres. apply HQ; [quiet_chain|done].
Qed.

Lemma wp_mark dir_only ps : forall kept s (Q : bool * pathlist -> io -> Prop), granted s ->
  (forall kept' s', quiet s s' -> pv kept' = pv kept ++ omap (marked dir_only flags) ps -> Q (true, kept') s') ->
  wp (mark dir_only flags ps kept) s Q.
Proof.
  induction ps as [|p ps IH]; intros kept s Q Hg HQ; cbn [mark].
  { apply wp_ret, HQ; [done|]. cbn. by rewrite app_nil_r. }
  apply wp_bind. unfold is_dir. apply wp_bind, wp_stat; [done|]. intros s1 Hq1. apply wp_ret.
  cbn [omap list_omap] in HQ. unfold marked in HQ at 1.
  set (isd := match stat_path p with inr b => b | inl _ => false end) in HQ.
  assert (Eisd : default false (match stat_path p with inr b => Some b | inl _ => None end) = isd) by (unfold isd; by destruct (stat_path p)).
  rewrite Eisd. clearbody isd. clear Eisd.
  assert (Hadd : forall x (P : St io unit), (forall s (Q : unit -> io -> Prop), granted s -> (forall s', quiet s s' -> Q tt s') -> wp P s Q) ->
    forall s2, quiet s s2 -> (forall kept' s', quiet s s' -> pv kept' = pv kept ++ x :: omap (marked dir_only flags) ps -> Q (true, kept') s') ->
    wp (let* (r, kept) := list_add kept x in let* _ := P in if negb (r =? 0) then ret (false, kept) else mark dir_only flags ps kept) s2 Q).
  { intros x P HP s2 Hq2 HQ2. apply wp_bind, wp_list_add; [apply Hq2|]. intros l s3 Hq3 Hpv. apply wp_bind, HP; [apply Hq3|].
    intros s4 Hq4. change (0 =? 0) with true. cbn [negb]. apply IH; [apply Hq4|]. intros l' s5 Hq5 Hpv'. apply HQ2; [quiet_chain|].
    rewrite Hpv', Hpv, <- app_assoc. done. }
  pose proof (fun x => Hadd x (ret tt) (fun s Q Hg HQ => HQ s (conj Hg eq_refl))) as Hadd0.
  destruct (dir_only && negb isd); [apply IH; [apply Hq1|]; intros; apply HQ; [quiet_chain|done]|].
  destruct (isd && _); [|by apply (Hadd0 p s1 Hq1)].
  case_bool_decide; [by apply (Hadd0 p s1 Hq1)|].
  apply wp_bind, wp_alloc; [apply Hq1|]. intros s2 Hq2. cbn [negb].
  apply (Hadd (p ++ [47]) (give_back 1) (wp_give_back 1)); [quiet_chain|done].
Qed.
(** *** The paths are strings *)

Lemma join_ok a b : CString.str_ok a -> CString.str_ok b -> CString.str_ok (join_text a b).
Proof.
  intros Ha Hb. unfold join_text. apply Forall_app. split; [done|]. apply Forall_app. split; [|done].
  destruct (_ && _); repeat constructor.
Qed.

Lemma unescape_ok room : forall t, CString.str_ok t -> CString.str_ok (unescape room t).
Proof.
  induction room as [|room IH]; intros t Ht; [constructor|]. cbn [unescape]. destruct t as [|c [|c2 t]]; [constructor|done|].
  decompose_Forall_hyps. case_match; constructor; auto.
Qed.

Lemma one_ok c base : CString.str_ok c -> CString.str_ok base -> Forall CString.str_ok (one flags c base).
Proof.
  intros Hc Hb. unfold one. destruct (has_magic _ _).
  - apply Forall_fmap, Forall_forall. intros e [_ He]%list_elem_of_filter. apply join_ok; [done|]. unfold entries in He.
    destruct (open_path _) as [|[|es]] eqn:Eo; try (by apply not_elem_of_nil in He). destruct (dirs_ok _ _ Eo) as [_ Hes].
    rewrite Forall_forall in Hes. by apply Hes.
  - destruct (stat_path _); constructor; [|constructor]. apply join_ok; [done|]. unfold literal. case_match; [done|by apply unescape_ok].
Qed.

Lemma paths_ok comps : Forall comp_ok comps -> forall base, CString.str_ok base -> Forall CString.str_ok (paths flags comps base).
Proof.
  induction 1 as [|c comps (_ & _ & _ & Hc) _ IH]; intros base Hb; cbn [paths]; [by repeat constructor|].
  pose proof (one_ok c base Hc Hb) as Ho. induction Ho as [|p l Hp _ IHl]; [constructor|]. cbn. apply Forall_app. split; [by apply IH|done].
Qed.

Lemma marked_ok tr (ps : list str) : Forall CString.str_ok ps -> Forall CString.str_ok (omap (marked tr flags) ps).
Proof.
  induction 1 as [|p ps Hp _ IH]; [constructor|]. cbn [omap list_omap]. unfold marked at 1.
  destruct (_ && negb _); [done|]. destruct (_ && _); [|by constructor]. constructor; [|done].
  case_bool_decide; [done|]. apply Forall_app. split; [done|]. repeat constructor.
Qed.

(** Without a trailing slash or [GLOB_MARK] the paths stay as they are. *)
Lemma marked_plain (ps : list str) : GLOB_MARK flags = false -> omap (marked false flags) ps = ps.
Proof. intros Hm. induction ps as [|p ps IH]; [done|]. cbn. rewrite Hm. rewrite andb_false_r. by f_equal. Qed.

(** *** The pattern *)

Definition pattern_text (absolute : bool) (comps : list str) (tr : bool) : str := (if absolute then [47] else []) ++ text comps tr.

Definition pattern_ok (absolute : bool) (comps : list str) (tr : bool) : Prop :=
  Forall comp_ok comps /\ (comps = [] -> absolute = true /\ tr = false).

Lemma text_head c comps tr : comp_ok c -> exists x t, text (c :: comps) tr = x :: t /\ x <> 47.
Proof.
  intros (Hne & H47 & _). destruct c as [|x c]; [done|]. apply not_elem_of_cons in H47 as [Hx _].
  destruct comps; cbn [text app]; eauto.
Qed.

Lemma text_last comps tr : Forall comp_ok comps -> comps <> [] -> bool_decide (last (text comps tr) = Some 47) = tr.
Proof.
  induction 1 as [|c comps Hc Hcs IH]; [done|]. intros _. destruct comps as [|c2 comps].
  - cbn [text]. destruct tr; [by rewrite last_snoc|]. rewrite app_nil_r. apply bool_decide_eq_false_2. intros Hl.
    destruct Hc as (_ & H47 & _). apply H47. by apply last_Some_elem_of.
  - change (text (c :: c2 :: comps) tr) with (c ++ 47 :: text (c2 :: comps) tr).
    destruct (text_head c2 comps tr) as (x & t & Et & _); [by inversion Hcs|]. rewrite Et in *.
    change (c ++ 47 :: x :: t) with (c ++ [47] ++ x :: t). rewrite app_assoc, last_app_cons. by apply IH.
Qed.

Lemma pattern_parts absolute comps tr : pattern_ok absolute comps tr ->
  let pat := pattern_text absolute comps tr in
  bool_decide (head pat = Some 47) = absolute /\
  (if absolute then tail pat else pat) = text comps tr /\
  (1 <? Z.of_nat (length pat)) && bool_decide (last pat = Some 47) = tr.
Proof.
  intros [Hok Hnil] pat. unfold pat, pattern_text. destruct comps as [|c comps].
  - destruct (Hnil eq_refl) as [-> ->]. done.
  - pose proof (text_last (c :: comps) tr Hok ltac:(done)) as Hl. inversion Hok as [|? ? Hc Hcs]; subst.
    destruct (text_head c comps tr Hc) as (x & t & Et & Hx). rewrite Et in *.
    destruct absolute; cbn [app head tail hd_error].
    + change (47 :: x :: t) with ([47] ++ x :: t). rewrite last_app_cons, Hl. cbn [app length]. zdecide. done.
    + rewrite bool_decide_eq_false_2 by congruence. split_and!; [done|done|]. rewrite Hl. destruct tr; [|by rewrite andb_false_r].
      cbn [length]. destruct t; [|cbn; zdecide; done]. exfalso. apply bool_decide_eq_true in Hl. cbn in Hl. congruence.
Qed.
(** Without a trailing slash no path is left out. *)
Lemma all_marked found : length (omap (marked false flags) found) = length found.
Proof. induction found as [|p ps IH]; [done|]. cbn. destruct (_ && _); cbn; by rewrite IH. Qed.

(** The whole call: [found] is what the walk finds before the trailing slash is
    looked at. *)
Lemma glob_walk absolute comps tr g s :
  let pattern := pattern_text absolute comps tr in
  let found := paths flags comps (if absolute then [47] else []) in
  let result := match omap (marked tr flags) found with [] => [pattern] | l => l end in
  pattern_ok absolute comps tr -> granted s -> tilde flags pattern = pattern -> CString.str_ok pattern ->
  GLOB_DOOFFS flags = false -> GLOB_APPEND flags = false -> Z.of_nat (length result) * 4 + 64 < 2 ^ 32 ->
  exists r s', glob (Some pattern) flags None (Some g) s = Some (r, s') /\ fds s' = fds s /\
    (if bool_decide (found = []) && negb (GLOB_NOCHECK flags) then r = (GLOB_NOMATCH, Some g)
     else exists ys, r = (0, Some (GlobT (Z.of_nat (length ys)) (Some ((Some <$> ys) ++ [None])) (gl_offs g))) /\
       ys ≡ₚ result /\ (GLOB_NOSORT flags = false -> StronglySorted (fun x y => CString.scmp x y <= 0) ys)).
Proof.
  intros pattern found result Hpat Hg Htilde Hstr Hoffs Happ Hsize.
  enough (Hwp : wp (glob (Some pattern) flags None (Some g)) s (fun r s' => fds s' = fds s /\
    (if bool_decide (found = []) && negb (GLOB_NOCHECK flags) then r = (GLOB_NOMATCH, Some g)
     else exists ys, r = (0, Some (GlobT (Z.of_nat (length ys)) (Some ((Some <$> ys) ++ [None])) (gl_offs g))) /\
       ys ≡ₚ result /\ (GLOB_NOSORT flags = false -> StronglySorted (fun x y => CString.scmp x y <= 0) ys))))
    by (apply wp_total in Hwp as (r & s' & ? & ? & ?); eauto).
  unfold glob. apply wp_bind, wp_alloc; [done|]. intros s1 Hq1. cbn [negb]. rewrite Htilde.
  pose proof (pattern_parts absolute comps tr Hpat) as Hparts. cbv zeta in Hparts. fold pattern in Hparts.
  destruct Hparts as (-> & -> & ->).
  apply wp_bind, wp_list_add; [apply Hq1|]. intros cur s2 Hq2 Hcur. change (0 =? 0) with true. cbn [negb pv empty_list app] in *.
  apply wp_bind, wp_components; [apply Hpat|apply Hq2|lia|left; by rewrite Hcur|]. intros st cur1 s3 Hq3.
  assert (Ef : pv cur ≫= paths flags comps = found) by (rewrite Hcur; cbn; apply app_nil_r). rewrite Ef.
  destruct (bool_decide (found = []) && negb (GLOB_NOCHECK flags)).
  { intros ->. cbn. apply wp_ret. split; [|done]. apply (quiet_trans s s1 s3); quiet_chain. }
  intros [-> Hcur1]. cbn [negb Z.eqb]. apply wp_bind.
  assert (Hrest : forall cur2 s4, quiet s s4 -> pv cur2 = omap (marked tr flags) found ->
    wp (ret (true, cur2) : St io (bool * pathlist)) s4 (fun r s' => r.1 = true /\ quiet s s' /\ pv r.2 = omap (marked tr flags) found)) by done.
  assert (Hq : quiet s s3) by quiet_chain. clear Hq1 Hq2 Hq3.
  eapply wp_mono with (Q := fun r s' => r.1 = true /\ quiet s s' /\ pv r.2 = omap (marked tr flags) found).
  { destruct (tr || GLOB_MARK flags) eqn:Em.
    - apply wp_bind, wp_mark; [apply Hq|]. intros kept s4 Hq4 Hk. apply wp_bind, wp_give_back; [apply Hq4|]. intros s5 Hq5.
      apply Hrest; [quiet_chain|]. by rewrite Hk, Hcur1.
    - apply orb_false_iff in Em as [-> Hm]. apply Hrest; [done|]. by rewrite marked_plain. }
  intros [ok cur2] s4 (Hok & Hq4 & Hpv). cbn in Hok, Hpv. subst ok. cbn [negb]. clear Hrest. apply wp_bind.
  eapply wp_mono with (Q := fun r s' => r.1 = 0 /\ quiet s s' /\ pv r.2 = result).
  { unfold result. destruct (pv cur2) as [|x l] eqn:El; rewrite <- Hpv.
    - apply wp_list_add; [apply Hq4|]. intros l' s5 Hq5 Hl'. split_and!; [done|quiet_chain|]. cbn [snd]. by rewrite Hl', El.
    - by apply wp_ret. }
  intros [r cur3] s5 (Hr & Hq5 & Hpv3). cbn in Hr, Hpv3. subst r. cbn [negb Z.eqb]. apply wp_bind. rewrite Hpv3.
  eapply wp_mono with (Q := fun ys s' => s' = s5 /\ ys ≡ₚ result /\ (GLOB_NOSORT flags = false -> StronglySorted (fun x y => CString.scmp x y <= 0) ys)).
  { destruct (GLOB_NOSORT flags); [by apply wp_ret|].
    assert (Hres : Forall CString.str_ok result).
    { unfold result. assert (Hm : Forall CString.str_ok (omap (marked tr flags) found)).
      { apply marked_ok, paths_ok; [apply Hpat|]. destruct absolute; repeat constructor. }
      destruct (omap (marked tr flags) found); [by repeat constructor|done]. }
    destruct (PtrSort.qsort_ptrs_sorts [] CString.scmp _ result (Forall_nil_2 _) Hres Hsize) as (ys & E & Hp & Hs).
    eapply wp_lift; [exact E|]. done. }
  intros ys ? (-> & Hp & Hs). apply wp_bind, wp_alloc; [apply Hq5|]. intros s6 Hq6. cbn [negb].
  apply wp_bind. eapply wp_lift; [unfold vector; by rewrite Hoffs, Happ|]. cbn [app replicate Z.to_nat].
  apply wp_bind, wp_give_back; [apply Hq6|]. intros s7 Hq7. apply wp_ret. rewrite Happ.
  split; [assert (Hfin : quiet s s7) by quiet_chain; apply Hfin|]. by exists ys.
Qed.

(** C27: [glob] of a pattern given by its components (each of 1 to 255 characters, no doubled slash), when memory is
    not refused, with no error handler and any of the flags but [GLOB_ERR], [GLOB_APPEND] and [GLOB_DOOFFS], and no
    tilde to replace, returns exactly the paths that a walk through the file system finds, one component after the
    other: a literal component (its escapes removed) names an existing file, a component with wildcards names an entry
    of the directory reached that [fnmatch] accepts, with [FNM_PERIOD] unless [GLOB_PERIOD]; with a trailing slash only
    the directories, marked with a slash, as [GLOB_MARK] marks them.  The result is sorted by [strcoll] unless
    [GLOB_NOSORT]; without a match the answer is [GLOB_NOMATCH], or the pattern itself under [GLOB_NOCHECK]; every
    directory opened is closed again.  Left out is the case of a trailing slash that only files other than
    directories match, without [GLOB_NOCHECK]: the code then answers with the pattern
    ([trailing_slash_no_match_succeeds]). *)
Theorem glob_expands absolute comps tr g s :
  let pattern := pattern_text absolute comps tr in
  let found := paths flags comps (if absolute then [47] else []) in
  let matches := omap (marked tr flags) found in
  let result := match omap (marked tr flags) found with [] => [pattern] | l => l end in
  pattern_ok absolute comps tr -> granted s -> tilde flags pattern = pattern -> CString.str_ok pattern ->
  GLOB_DOOFFS flags = false -> GLOB_APPEND flags = false -> Z.of_nat (length result) * 4 + 64 < 2 ^ 32 ->
  (tr = true -> found <> [] -> matches = [] -> GLOB_NOCHECK flags = true) ->
  exists r s', glob (Some pattern) flags None (Some g) s = Some (r, s') /\ fds s' = fds s /\
    (if bool_decide (matches = []) && negb (GLOB_NOCHECK flags) then r = (GLOB_NOMATCH, Some g)
     else exists ys, r = (0, Some (GlobT (Z.of_nat (length ys)) (Some ((Some <$> ys) ++ [None])) (gl_offs g))) /\
       ys ≡ₚ result /\ (GLOB_NOSORT flags = false -> StronglySorted (fun x y => CString.scmp x y <= 0) ys)).
Proof.
  intros pattern found matches result Hpat Hg Htilde Hstr Hoffs Happ Hsize Hdirs.
  destruct (glob_walk absolute comps tr g s Hpat Hg Htilde Hstr Hoffs Happ Hsize) as (r & s' & E & Hf & Hr).
  exists r, s'. split; [done|]. split; [done|]. fold found pattern matches result in Hr.
  assert (Hm : found = [] \/ matches <> [] \/ GLOB_NOCHECK flags = true).
  { destruct (decide (found = [])) as [|Hne]; [by left|]. destruct (decide (matches = [])) as [Hm|]; [|by auto]. destruct tr; [by auto|].
    pose proof (all_marked found) as Hl. fold matches in Hl. rewrite Hm in Hl. by destruct found. }
  destruct (decide (found = [])) as [Hnil|Hne].
  - assert (Hm0 : matches = []) by (unfold matches; by rewrite Hnil).
    rewrite (bool_decide_eq_true_2 _ Hm0). by rewrite (bool_decide_eq_true_2 _ Hnil) in Hr.
  - rewrite (bool_decide_eq_false_2 _ Hne) in Hr. destruct Hm as [Hm|[Hm|Hm]]; [done| |]; [by rewrite (bool_decide_eq_false_2 _ Hm)|by rewrite Hm, andb_false_r].
Qed.
End Flags.
End Walk.
(** ** A file system: [d] with [a.c], [b.h], [c.c] and [.x.c]; [f] a plain file *)

Definition d_entries : list dirent := [Dent 2 [99; 46; 99]; Dent 3 [46; 120; 46; 99]; Dent 4 [98; 46; 104]; Dent 5 [97; 46; 99]].

Definition top_entries : list dirent := [Dent 1 [102]; Dent 6 [100]].

Definition sample_fs : Kernel := {|
  open_path p := if decide (p = [100]) then inr (Dir d_entries)
                 else if decide (p = [46]) then inr (Dir top_entries)
                 else if decide (p = [102]) then inr Plain else inl ENOENT;
  getdents es off := 128 * Z.min 32 (Z.of_nat (length es - off));
|}.

Definition sample_stat : Stat := fun p =>
  if decide (p = [100]) then inr true else if decide (p = [102] \/ p = [100; 47; 97; 46; 99]) then inr false else inl ENOENT.

Lemma sample_fs_ok : KernelOk (Knl := sample_fs).
Proof.
  split; cbn.
  - intros es off Hlt. exists (Nat.min 32 (length es - off)). split_and!; lia.
  - intros es off Hle. replace (length es - off)%nat with 0%nat by lia. done.
Qed.

Definition no_flags : gflags := Gf false false false false false false false false false.

Lemma sample_dirs p es : open_path (Kernel := sample_fs) p = inr (Dir es) ->
  (length es < 10)%nat /\ Forall (fun e => CString.str_ok (d_name e)) es.
Proof. cbn. repeat case_decide; intros; simplify_eq; split; cbn; try lia; repeat constructor; cbn; lia. Qed.

(** [d/*.c]. *)
Lemma glob_expands_witness :
  exists r s', glob (Knl := sample_fs) (Sta := sample_stat) 10 None (Some [100; 47; 42; 46; 99]) no_flags None (Some (GlobT 0 None 0)) io0 = Some (r, s') /\
    fds s' = 3 /\
    exists ys, r = (0, Some (GlobT (Z.of_nat (length ys)) (Some ((Some <$> ys) ++ [None])) 0)) /\
      ys ≡ₚ [[100; 47; 99; 46; 99]; [100; 47; 97; 46; 99]] /\
      (GLOB_NOSORT no_flags = false -> StronglySorted (fun x y => CString.scmp x y <= 0) ys).
Proof.
  refine (glob_expands (Knl := sample_fs) (Sta := sample_stat) 10 None (KnlOk := sample_fs_ok) sample_dirs no_flags eq_refl
    false [[100]; [42; 46; 99]] false (GlobT 0 None 0) io0 _ _ eq_refl _ eq_refl eq_refl _ _).
  - split; [|done]. unfold comp_ok. repeat (constructor; [split_and!; [done| |cbn; lia|repeat constructor; lia]|]); [| |constructor].
    all: apply not_elem_of_cons; split; [lia|]; repeat (apply not_elem_of_cons; split; [lia|]); apply not_elem_of_nil.
  - done.
  - repeat constructor; lia.
  - vm_compute. done.
  - discriminate.
Defined.

(** [f/] with [f] a plain file and no flags: nothing matches, yet the answer is a success with the pattern. *)
Theorem trailing_slash_no_match_succeeds :
  (fst <$> glob (Knl := sample_fs) (Sta := sample_stat) 10 None (Some [102; 47]) no_flags None (Some (GlobT 0 None 0)) io0)
  = Some (0, Some (GlobT 1 (Some [Some [102; 47]; None]) 0)).
Proof. vm_compute. reflexivity. Qed.

(** [d//a.c/] with [d/a.c] a plain file: the doubled slash makes the trailing one forgotten. *)
Theorem doubled_slash_forgets_trailing :
  (fst <$> glob (Knl := sample_fs) (Sta := sample_stat) 10 None (Some [100; 47; 47; 97; 46; 99; 47]) no_flags None (Some (GlobT 0 None 0)) io0)
  = Some (0, Some (GlobT 1 (Some [Some [100; 47; 97; 46; 99]; None]) 0)).
Proof. vm_compute. reflexivity. Qed.

(** [gl_offs] is not looked at by [glob] without [GLOB_DOOFFS], but [globfree] starts from it: a result obtained with an
    unset [gl_offs] of 5 makes it read past the vector. *)
Theorem globfree_reads_unset_offs :
  (let* (r, g) := glob (Knl := sample_fs) (Sta := sample_stat) 10 None (Some [102]) no_flags None (Some (GlobT 0 None 5)) in globfree g) io0
  = None.
Proof. vm_compute. reflexivity. Qed.
End Glob.
