(* ===== verification/Wordexp.v ===== *)
(** * Wordexp: shell word expansion, src/wordexp.c

    The expander reads its text once: quotes, escapes, parameters in all their
    braced forms, arithmetic, command substitution, tilde, field splitting and,
    through [Glob], pathname expansion.  It calls the environment ([Env]), the
    pattern matcher ([Fnmatch]), the arithmetic evaluator ([ArithExp]) and the
    shell, whose output is a parameter.  The state threads the environment and
    the heap of [Dirent] with the allocations to come. *)

From Stdlib Require Import ZArith Lia Bool.
From stdpp Require Import base list numbers.
From S2P Require Import Prelude Monad Env Fnmatch Printf PrintfSpec ArithExp Dirent Glob.

Module Wordexp.
Import Dirent ArithExp.

Record wflags := Wf {
  WRDE_APPEND : bool; WRDE_DOOFFS : bool; WRDE_NOCMD : bool; WRDE_REUSE : bool; WRDE_SHOWERR : bool; WRDE_UNDEF : bool
}.

Definition WRDE_NOSPACE : Z := 1.
Definition WRDE_BADCHAR : Z := 2.
Definition WRDE_BADVAL : Z := 3.
Definition WRDE_CMDSUB : Z := 4.
Definition WRDE_SYNTAX : Z := 5.

Record wst := W { wio : io; wenv : Env.env }.

(** A computation on the heap alone. *)
Definition on_io {A} (c : St io A) : St wst A :=
  fun s => match c (wio s) with Some (a, i) => Some (a, W i (wenv s)) | None => None end.

Definition getenv (name : str) : St wst (option str) := gets (fun s => Env.getenv (Some name) (wenv s)).
Definition give_back (k : Z) : St wst unit := on_io (Glob.give_back k).
Definition alloc : St wst bool := on_io Glob.alloc.
Definition realloc (null : bool) : St wst bool := on_io (fun s => Some (Dirent.realloc null s)).

(** ** The text buffer; [None] is the null pointer *)

Record sbuf := Sb { sp : option str; scap : Z }.
Definition sb0 : sbuf := Sb None 0.
Definition chars (b : sbuf) : str := default [] (sp b).
Definition blen (b : sbuf) : Z := Z.of_nat (length (chars b)).

(** [while (nc < need) nc *= 2]. *)
Fixpoint grow (fuel : nat) (nc need : Z) : Z :=
  match fuel with O => nc | S fuel => if nc <? need then grow fuel (nc * 2) need else nc end.

(** 0, or -1 without memory. *)
Definition sb_reserve (b : sbuf) (extra : Z) : St wst (Z * sbuf) :=
  let need := blen b + extra + 1 in
  if need <=? scap b then ret (0, b)
  else
    let nc := grow 32 (if scap b =? 0 then 64 else scap b * 2) need in
    let* ok := realloc (match sp b with None => true | Some _ => false end) in
    ret (if (ok : bool) then (0, Sb (Some (chars b)) nc) else (-1, b)).

Definition sb_write (b : sbuf) (t : str) : St wst (Z * sbuf) :=
  let* (r, b) := sb_reserve b (Z.of_nat (length t)) in
  ret (if r =? 0 then (0, Sb (Some (chars b ++ t)) (scap b)) else (-1, b)).

Definition sb_putc (b : sbuf) (c : Z) : St wst (Z * sbuf) :=
  let* (r, b) := sb_reserve b 1 in
  ret (if r =? 0 then (0, Sb (Some (chars b ++ [c])) (scap b)) else (-1, b)).

Definition sb_free (b : sbuf) : St wst unit := give_back (match sp b with None => 0 | Some _ => 1 end).

(** ** The vector of words *)

Record wlist := Wl { wv : list str; wcap : Z }.
Definition wl0 : wlist := Wl [] 0.

Definition wl_reserve (w : wlist) (extra : Z) : St wst (Z * wlist) :=
  let need := Z.of_nat (length (wv w)) + extra + 1 in
  if need <=? wcap w then ret (0, w)
  else
    let nc := grow 32 (if wcap w =? 0 then 16 else wcap w * 2) need in
    let* ok := realloc (wcap w =? 0) in
    ret (if (ok : bool) then (0, Wl (wv w) nc) else (-1, w)).

Definition wl_push (w : wlist) (t : str) : wlist := Wl (wv w ++ [t]) (wcap w).

Definition wl_push_str (w : wlist) (t : str) : St wst (Z * wlist) :=
  let* ok := alloc in
  if negb ok then ret (-1, w)
  else
    let* (r, w) := wl_reserve w 1 in
    if negb (r =? 0) then let* _ := give_back 1 in ret (-1, w) else ret (0, wl_push w t).

(** The status, the vector and the buffer, which is emptied. *)
Definition wl_take (w : wlist) (b : sbuf) : St wst (Z * wlist * sbuf) :=
  match sp b with
  | None =>
      let* ok := alloc in
      if negb ok then ret (-1, w, b)
      else
        let* (r, w) := wl_reserve w 1 in
        if negb (r =? 0) then let* _ := give_back 1 in ret (-1, w, b) else ret (0, wl_push w [], b)
  | Some t =>
      let* (r, w) := wl_reserve w 1 in
      if negb (r =? 0) then ret (-1, w, b) else ret (0, wl_push w t, sb0)
  end.

Definition wl_free (w : wlist) : St wst unit :=
  give_back (Z.of_nat (length (wv w)) + if wcap w =? 0 then 0 else 1).

(** ** One field *)

Definition ifs_ws (c : Z) : bool := (c =? 32) || (c =? 9) || (c =? 10).
Definition glob_meta (c : Z) : bool := (c =? 42) || (c =? 63) || (c =? 91).

Record fld := Fld { field : sbuf; started : bool; meta : bool }.
Definition fld0 : fld := Fld sb0 false false.

Definition fld_putc (f : fld) (c : Z) : St wst (Z * fld) :=
  let* (r, b) := sb_putc (field f) c in ret (r, Fld b true (meta f)).

Definition fld_write (f : fld) (t : str) : St wst (Z * fld) :=
  let* (r, b) := sb_write (field f) t in
  ret (r, Fld b (started f || negb (match t with [] => true | _ => false end)) (meta f)).

(** The split form of [fld_expand_text], which stops at a null character. *)
Fixpoint split_text (f : fld) (out : wlist) (t : str) : St wst (Z * fld * wlist) :=
  match t with
  | [] => ret (0, f, out)
  | c :: t =>
      if c =? 0 then ret (0, f, out)
      else if ifs_ws c then
        if started f then
          let* (r, out, b) := wl_take out (field f) in
          if negb (r =? 0) then ret (-1, Fld b (started f) (meta f), out) else split_text (Fld b false false) out t
        else split_text f out t
      else
        let* (r, f) := fld_putc f c in
        if negb (r =? 0) then ret (-1, f, out) else split_text f out t
  end.

Fixpoint upto_nul (t : str) : str := match t with c :: t => if c =? 0 then [] else c :: upto_nul t | [] => [] end.

Definition fld_expand_text (f : fld) (out : wlist) (t : str) (split : bool) : St wst (Z * fld * wlist) :=
  if negb split then let* (r, f) := fld_write f (upto_nul t) in ret (r, f, out) else split_text f out t.
(** ** Parameters *)

(** What follows a body of nested parentheses; at most [room] characters are kept. *)
Fixpoint arith_body (room depth : nat) (q : str) : str * str :=
  match q with
  | [] => ([], [])
  | c :: q' =>
      let keep d := let '(b, r) := arith_body (pred room) d q' in (match room with O => b | S _ => c :: b end, r) in
      if c =? 40 then keep (S depth)
      else if c =? 41 then match depth with O => ([], q) | S d => keep d end
      else keep depth
  end.

Definition dec_digits (u : Z) : str := if u =? 0 then [48] else rev (Printf.udigits 20 u 10 false).

Definition signed_digits (r : Z) : str :=
  (if r <? 0 then [45] else []) ++ dec_digits (if r <? 0 then - (r + 1) + 1 else r).

(** An expression of a substring form: up to the brace (or, for the offset, a
    colon outside parentheses); [None] is a syntax error. *)
Fixpoint sub_expr (colon : bool) (room depth : nat) (p : str) : option (str * str) :=
  match p with
  | [] => if (depth =? 0)%nat then Some ([], []) else None
  | c :: p' =>
      let keep d :=
        match room with
        | O => None
        | S room => '(e, r) ← sub_expr colon room d p'; Some (c :: e, r)
        end in
      if c =? 125 then if (depth =? 0)%nat then Some ([], p) else None
      else if c =? 40 then keep (S depth)
      else if c =? 41 then match depth with O => None | S d => keep d end
      else if (c =? 58) && colon && (depth =? 0)%nat then Some ([], p)
      else keep depth
  end.

(** The value cut by an offset and a length (-1 for none). *)
Definition substring (t : str) (off len : Z) : str :=
  let slen := Z.of_nat (length t) in
  let start := if off <? 0 then (let st := slen + off in if st <? 0 then 0 else if st >? slen then slen else st)
               else if off >? slen then slen else off in
  let count := slen - start in
  let count := if (len >=? 0) && (count >? len) then len else count in
  take (Z.to_nat count) (drop (Z.to_nat start) t).

Fixpoint take_word (room : nat) (p : str) : str * str :=
  match room, p with
  | S room, c :: p' => if c =? 125 then ([], p) else let '(w, r) := take_word room p' in (c :: w, r)
  | _, _ => ([], p)
  end.

(** The part of [t] of length [k] that is matched, at its front or its back. *)
Definition part (op : Z) (t : str) (k : nat) : str := if op =? 35 then take k t else drop (length t - k) t.

(** The loop over the lengths; the cut, if some part matched. *)
Fixpoint find_cut (op : Z) (longest : bool) (word t : str) (ks : list nat) (cut : option nat) : option (option nat) :=
  match ks with
  | [] => Some cut
  | k :: ks =>
      r ← Fnmatch.fnmatch (Some word) (Some (part op t k)) (Fnmatch.Flags false false false false false);
      if r =? 0 then
        let cut := match cut with
                   | None => Some k
                   | Some c => if (if longest then (c <? k)%nat else (k <? c)%nat) then Some k else cut
                   end in
        if longest then find_cut op longest word t ks cut else Some (Some k)
      else find_cut op longest word t ks cut
  end.

Definition remove_part (op : Z) (longest : bool) (word t : str) : option str :=
  cut ← find_cut op longest word t (seq 0 (S (length t))) None;
  Some (match cut with
        | None => t
        | Some k => if op =? 35 then drop k t else take (length t - k) t
        end).

(** *** What a pattern removal removes *)

Section Removal.
Variables (op : Z) (longest : bool) (word t : str).
Hypotheses (Hword : Fnmatch.nz word) (Ht : Fnmatch.nz t).

Definition rm_flags : Fnmatch.fnm_flags := Fnmatch.Flags false false false false false.

(** The pattern matches the part of length [k]. *)
Definition part_matches (k : nat) : Prop :=
  Fnmatch.glob rm_flags true (Fnmatch.tokens rm_flags (S (length word)) word) (part op t k).

Lemma part_nz k : Fnmatch.nz (part op t k).
Proof. unfold part, Fnmatch.nz in *. destruct (op =? 35); [by apply Forall_take|by apply Forall_drop]. Qed.

(** The best length below [hi]: none, or one that matches and that no other
    match below [hi] improves on. *)
Definition best (hi : nat) (r : option nat) : Prop :=
  match r with
  | None => forall j, (j < hi)%nat -> ~ part_matches j
  | Some k => (k < hi)%nat /\ part_matches k /\
      forall j, (j < hi)%nat -> part_matches j -> if longest then (j <= k)%nat else (k <= j)%nat
  end.

Lemma find_cut_best n : forall a cut, (longest = false -> cut = None) -> best a cut ->
  exists r hi, find_cut op longest word t (seq a n) cut = Some r /\ (hi <= a + n)%nat /\ best hi r /\
    (hi = (a + n)%nat \/ longest = false /\ is_Some r).
Proof.
  induction n as [|n IH]; intros a cut Hcut Hb; cbn [seq find_cut].
  { exists cut, a. split_and!; [done|lia|done|left; lia]. }
  unfold Fnmatch.fnmatch. destruct (Fnmatch.fnmatch_decides rm_flags word (part op t a) Hword (part_nz a)) as (b & Hb1 & Hb2).
  unfold rm_flags in Hb1. rewrite Hb1. cbn [mbind option_bind]. fold (part_matches a) in Hb2.
  assert (Hup : best (S a) (match cut with None => Some a | Some c => if (if longest then (c <? a)%nat else (a <? c)%nat) then Some a else cut end)
    \/ ~ part_matches a).
  { destruct b; [left|right; intros Hm; by apply Hb2 in Hm]. destruct cut as [c|].
    - destruct longest eqn:El; [|by specialize (Hcut eq_refl)]. destruct Hb as (Hc & Hm & Hmax).
      destruct (Nat.ltb_spec c a); [|lia]. split_and!; [lia|by apply Hb2|]. rewrite El. intros j Hj _. lia.
    - split_and!; [lia|by apply Hb2|]. intros j Hj Hmj. destruct (decide (j = a)) as [->|]; [by destruct longest|].
      exfalso. by apply (Hb j ltac:(lia)). }
  destruct b; cbn match.
  - change (0 =? 0) with true. cbn match. destruct Hup as [Hup|Hup]; [|by destruct Hup; apply Hb2].
    destruct longest eqn:El.
    + assert (Hc' : forall c : option nat, true = false -> c = None) by done.
      destruct (IH (S a) _ (Hc' _) Hup) as (r & hi & Hr & Hhi & Hbest & Hend). exists r, hi.
      split_and!; [done|lia|done|]. destruct Hend as [->|[? _]]; [left; lia|done].
    + specialize (Hcut eq_refl). subst cut. exists (Some a), (S a). split_and!; [done|lia|done|]. right. by split.
  - change (Fnmatch.FNM_NOMATCH =? 0) with false. cbn match.
    assert (Hno : ~ part_matches a) by (intros Hm; by apply Hb2 in Hm).
    destruct (IH (S a) cut Hcut) as (r & hi & Hr & Hhi & Hbest & Hend).
    { destruct cut as [c|].
      - destruct Hb as (Hc & Hm & Hmax). split_and!; [lia|done|]. intros j Hj Hmj. destruct (decide (j = a)) as [->|]; [done|]. apply Hmax; [lia|done].
      - intros j Hj. destruct (decide (j = a)) as [->|]; [done|]. apply Hb. lia. }
    exists r, hi. split_and!; [done|lia|done|]. destruct Hend as [->|?]; [left; lia|by right].
Qed.

(** [${NAME#pattern}], [##], [%] and [%%]: the value is cut at its front (or back) by the shortest (or, with the
    operator doubled, the longest) part that the pattern matches in the sense of [fnmatch]; when no part matches the
    value is unchanged.  The loop over the lengths always ends with an answer. *)
Theorem remove_part_optimal :
  exists r, remove_part op longest word t = Some r /\
    ((r = t /\ forall j, (j <= length t)%nat -> ~ part_matches j) \/
     (exists k, (k <= length t)%nat /\ part_matches k /\
        (forall j, (j <= length t)%nat -> part_matches j -> if longest then (j <= k)%nat else (k <= j)%nat) /\
        if op =? 35 then t = part op t k ++ r else t = r ++ part op t k)).
Proof.
  unfold remove_part. destruct (find_cut_best (S (length t)) 0 None ltac:(done)) as (r & hi & -> & Hhi & Hb & Hend); [intros j Hj; lia|].
  cbn [mbind option_bind]. eexists. split; [done|]. destruct r as [k|].
  - right. destruct Hb as (Hk & Hm & Hbest). exists k. split_and!; [lia|done| |].
    + intros j Hj Hmj. destruct Hend as [->|[El _]]; [apply Hbest; [lia|done]|]. rewrite El in *.
      destruct (decide (j < hi)%nat); [by apply Hbest|lia].
    + unfold part. destruct (op =? 35); [by rewrite take_drop|]. by rewrite take_drop.
  - left. destruct Hend as [->|[_ [? ?]]]; [|done]. split; [done|]. intros j Hj. apply Hb. lia.
Qed.
End Removal.

Section Expansion.

(** The process identifier, and the output of a command ([None] when it cannot
    be started). *)
Variables (getpid : Z) (shell : str -> option str).
Variable flags : wflags.

(** The status of [read_var], the text after it and the buffer. *)
Definition res : Type := Z * str * sbuf.

Definition out_of (w : Z * sbuf) (p : str) : res := ((if w.1 =? 0 then 0 else -1), p, w.2).

Definition write_to (val : sbuf) (t p : str) : St wst res := let* w := sb_write val t in ret (out_of w p).

Definition fail_with (code : Z) (p : str) (val : sbuf) : St wst res := ret (code, p, val).

(** [$((...))], after the second parenthesis. *)
Definition read_arith (q : str) (val : sbuf) : St wst res :=
  let '(body, q) := arith_body 255 0 q in
  if negb (at0 q =? 41) || negb (at1 q =? 41) then fail_with WRDE_SYNTAX q val
  else
    let* env := gets (fun s n => Env.getenv (Some n) (wenv s)) in
    let* (r, err) := (fun s => match _eval_arith env body with Some x => Some (x, s) | None => None end) in
    if (err : bool) then fail_with WRDE_SYNTAX q val
    else write_to val (signed_digits r) (drop 2 q).

(** [$?], [$$] and [$!], at their character. *)
Definition read_special (braced : bool) (p : str) (val : sbuf) : St wst res :=
  let* w := (if at0 p =? 36 then sb_write val (if getpid <? 0 then [] else dec_digits getpid) else ret (0, val)) in
  if negb (w.1 =? 0) then fail_with (-1) p w.2
  else if braced then if at1 p =? 125 then ret (0, drop 2 p, w.2) else fail_with WRDE_SYNTAX p w.2
  else ret (0, tail p, w.2).

(** [${NAME:offset[:length]}], after the first colon. *)
Definition read_substring (v : option str) (p : str) (val : sbuf) : St wst res :=
  match v, WRDE_UNDEF flags with
  | None, true => fail_with WRDE_BADVAL p val
  | _, _ =>
      let t := default [] v in
      let* env := gets (fun s n => Env.getenv (Some n) (wenv s)) in
      let eval e := (fun s : wst => match _eval_arith env e with Some x => Some (x, s) | None => None end) : St wst (Z * bool) in
      match sub_expr true 255 0 p with
      | None => fail_with WRDE_SYNTAX p val
      | Some (e, p) =>
          let* (off, err) := eval e in
          if (err : bool) then fail_with WRDE_SYNTAX p val
          else if at0 p =? 58 then
            match sub_expr false 255 0 (tail p) with
            | None => fail_with WRDE_SYNTAX p val
            | Some (e, p) =>
                let* (len, err) := eval e in
                if (err : bool) || (len <? 0) then fail_with WRDE_SYNTAX p val
                else if negb (at0 p =? 125) then fail_with WRDE_SYNTAX p val
                else write_to val (substring t off len) (tail p)
            end
          else if negb (at0 p =? 125) then fail_with WRDE_SYNTAX p val
          else write_to val (substring t off (-1)) (tail p)
      end
  end.

(** [setenv(name, word, 1)], with the two allocations it may ask for. *)
Definition assign (name word : str) : St wst unit :=
  let* a := on_io (fun s => Some (request s)) in
  let* b := on_io (fun s => Some (request s)) in
  modify (fun s => W (wio s) (Env.setenv a b (Some name) (Some word) true (wenv s)).2).

(** [${NAME<op>word}], after the operator. *)
Definition read_op (name : str) (v : option str) (op : Z) (colon : bool) (p : str) (val : sbuf) : St wst res :=
  let longest := ((op =? 35) || (op =? 37)) && (at0 p =? op) in
  let p := if longest then tail p else p in
  let '(word, p) := take_word 255 p in
  if negb (at0 p =? 125) then fail_with WRDE_SYNTAX p val
  else
    let set := match v with Some _ => true | None => false end in
    let nonnull := match v with Some (_ :: _) => true | _ => false end in
    let have := if colon then nonnull else set in
    let t := default [] v in
    if (op =? 45) || (op =? 61) then
      if negb have then
        let* _ := (if op =? 61 then assign name word else ret tt) in
        write_to val word (tail p)
      else write_to val t (tail p)
    else if op =? 43 then if have then write_to val word (tail p) else ret (0, tail p, val)
    else if op =? 63 then if negb have then fail_with WRDE_BADVAL p val else write_to val t (tail p)
    else if (op =? 35) || (op =? 37) then
      if Z.of_nat (length t) + 1 >? 256 then fail_with WRDE_SYNTAX p val
      else
        let* t := (fun s => match remove_part op longest word t with Some x => Some (x, s) | None => None end) in
        write_to val t (tail p)
    else fail_with WRDE_SYNTAX p val.

(** The text starts after the dollar sign; -2 leaves it at the parenthesis of a
    command substitution.  A brace that is never closed makes the code step over
    the end of the string and read on: a fault. *)
Definition read_var (p : str) (val : sbuf) : St wst res :=
  if at0 p =? 40 then
    if at1 p =? 40 then read_arith (drop 2 p) val else ret (-2, p, val)
  else
    let braced := at0 p =? 123 in
    let p := if braced then tail p else p in
    let is_len := braced && (at0 p =? 35) in
    let p := if is_len then tail p else p in
    if (at0 p =? 63) || (at0 p =? 36) || (at0 p =? 33) then read_special braced p val
    else
      let '(name, p) := take_name 127 p in
      if (match name with [] => true | _ => false end) && negb braced then
        let* w := sb_putc val 36 in ret (out_of w p)
      else
        let* v := getenv name in
        let value := match v with
                     | None => if WRDE_UNDEF flags then None else Some []
                     | Some t => Some t
                     end in
        if negb braced then
          match value with None => fail_with WRDE_BADVAL p val | Some t => write_to val t p end
        else if is_len then
          if negb (at0 p =? 125) then fail_with WRDE_SYNTAX p val
          else write_to val (dec_digits (Z.of_nat (length (default [] v)))) (tail p)
        else if at0 p =? 125 then
          match value with None => fail_with WRDE_BADVAL p val | Some t => write_to val t (tail p) end
        else
          let op := at0 p in
          let p := tail p in
          if op =? 0 then fault
          else if op =? 58 then
            if (at0 p =? 45) || (at0 p =? 61) || (at0 p =? 43) || (at0 p =? 63) then
              read_op name v (at0 p) true (tail p) val
            else read_substring v p val
          else read_op name v op false p val.
(** ** Commands *)

(** The output in blocks of 512, as [fread] delivers it. *)
Fixpoint read_blocks (fuel : nat) (t : str) (out : sbuf) : St wst (Z * sbuf) :=
  match fuel with
  | O => fault
  | S fuel =>
      match t with
      | [] => ret (0, out)
      | _ =>
          let* (r, out) := sb_write out (take 512 t) in
          if negb (r =? 0) then ret (WRDE_NOSPACE, out) else read_blocks fuel (drop 512 t) out
      end
  end.

Fixpoint strip_newlines (rt : str) : str := match rt with c :: rt' => if c =? 10 then strip_newlines rt' else rt | [] => [] end.

Definition run_cmd (cmd : str) (out : sbuf) : St wst (Z * sbuf) :=
  if WRDE_NOCMD flags then ret (WRDE_CMDSUB, out)
  else
    match shell cmd with
    | None => ret (WRDE_CMDSUB, out)
    | Some t =>
        let* (r, out) := read_blocks (S (length t)) t out in
        if negb (r =? 0) then ret (r, out)
        else ret (0, Sb ((fun t => rev (strip_newlines (rev t))) <$> sp out) (scap out))
    end.

(** Up to the closing backquote, and up to the closing parenthesis. *)
Fixpoint upto_backquote (p : str) : option (str * str) :=
  match p with
  | [] => None
  | c :: p => if c =? 96 then Some ([], p) else '(a, r) ← upto_backquote p; Some (c :: a, r)
  end.

Fixpoint upto_paren (depth : nat) (p : str) : option (str * str) :=
  match p with
  | [] => None
  | c :: p =>
      let keep d := '(a, r) ← upto_paren d p; Some (c :: a, r) in
      if c =? 40 then keep (S depth)
      else if c =? 41 then match depth with O => Some ([], p) | S d => keep d end
      else keep depth
  end.

(** The status, the command (a block of its own) and the text after the closer. *)
Definition extract_cmd (p : str) : St wst (Z * option str * str) :=
  match (if at0 p =? 96 then upto_backquote (tail p) else upto_paren 0 (tail p)) with
  | None => ret (WRDE_SYNTAX, None, p)
  | Some (cmd, r) =>
      let* ok := alloc in
      if negb ok then ret (WRDE_NOSPACE, None, p) else ret (0, Some cmd, r)
  end.

(** A substitution at its opener: the status, the output and the text after it.
    The command is given back; the output buffer is still live. *)
Definition substitute (p : str) : St wst (Z * sbuf * str) :=
  let* (r, cmd, p) := extract_cmd p in
  match cmd with
  | Some cmd =>
      let* (r, val) := run_cmd cmd sb0 in
      let* _ := give_back 1 in
      ret (r, val, p)
  | None => ret (r, sb0, p)
  end.

(** ** Fields and words *)

Section Files.
Context `{Knl : Kernel} `{Sta : Glob.Stat}.
Variable fuel : nat.

Definition field_glob_flags : Glob.gflags := Glob.Gf false false false false true false false false true.

(** Pushing the paths a pattern expands to. *)
Fixpoint push_all (out : wlist) (l : list (option str)) : St wst (Z * wlist) :=
  match l with
  | [] => ret (0, out)
  | None :: _ => fault
  | Some t :: l =>
      let* (r, out) := wl_push_str out t in
      if negb (r =? 0) then ret (WRDE_NOSPACE, out) else push_all out l
  end.

Definition plain_flush (f : fld) (out : wlist) : St wst (Z * fld * wlist) :=
  let* (r, out, b) := wl_take out (field f) in
  if negb (r =? 0) then let* _ := sb_free b in ret (WRDE_NOSPACE, Fld sb0 (started f) (meta f), out)
  else ret (0, Fld b false false, out).

Definition fld_flush (f : fld) (out : wlist) : St wst (Z * fld * wlist) :=
  if negb (started f) then let* _ := sb_free (field f) in ret (0, Fld sb0 (started f) (meta f), out)
  else
    match meta f, sp (field f) with
    | true, Some t =>
        let* home := getenv [72; 79; 77; 69] in
        let* (gr, g) := on_io (Glob.glob fuel home (Some t) field_glob_flags None (Some (Glob.GlobT 0 None 0))) in
        if gr =? Glob.GLOB_NOSPACE then let* _ := sb_free (field f) in ret (WRDE_NOSPACE, Fld sb0 (started f) (meta f), out)
        else if gr =? 0 then
          let paths := take (Z.to_nat (default 0 (Glob.gl_pathc <$> g))) (default [] (g ≫= Glob.gl_pathv)) in
          let* (r, out) := push_all out paths in
          let* _ := on_io (Glob.globfree g) in
          let* _ := sb_free (field f) in
          if negb (r =? 0) then ret (r, Fld sb0 (started f) (meta f), out) else ret (0, Fld sb0 false false, out)
        else plain_flush f out
    | _, _ => plain_flush f out
    end.

(** *** Inside double quotes *)

Definition dq_escaped (c : Z) : bool := (c =? 36) || (c =? 96) || (c =? 34) || (c =? 92) || (c =? 10).

(** One step at a character other than the closing quote: a status other than 0
    is what [expand] returns. *)
Definition dq_step (p : str) (f : fld) : St wst (Z * str * fld) :=
  let put c p := (let* (r, f) := fld_putc f c in ret ((if r =? 0 then 0 else WRDE_NOSPACE), p, f)) in
  if at0 p =? 92 then
    let p := tail p in
    if at0 p =? 0 then ret (WRDE_SYNTAX, p, f)
    else if dq_escaped (at0 p) then put (at0 p) (tail p)
    else put 92 p
  else if at0 p =? 36 then
    let* (r, p, val) := read_var (tail p) sb0 in
    let* (r, val, p) := (if r =? -2 then substitute p else ret (r, val, p)) in
    if negb (r =? 0) then
      let* _ := sb_free val in
      ret ((if r =? -1 then WRDE_NOSPACE else r), p, f)
    else
      let* (w, f) := fld_write f (chars val) in
      let* _ := sb_free val in
      ret ((if w =? 0 then 0 else WRDE_NOSPACE), p, f)
  else if at0 p =? 96 then
    let* (r, val, p) := substitute p in
    if negb (r =? 0) then let* _ := sb_free val in ret (r, p, f)
    else
      let* (w, f) := fld_write f (chars val) in
      let* _ := sb_free val in
      ret ((if w =? 0 then 0 else WRDE_NOSPACE), p, f)
  else put (at0 p) (tail p).

(** After the opening quote; the text returned is after the closing one. *)
Fixpoint dq_loop (k : nat) (p : str) (f : fld) : St wst (Z * str * fld) :=
  match k with
  | O => fault
  | S k =>
      if at0 p =? 0 then ret (WRDE_SYNTAX, p, f)
      else if at0 p =? 34 then ret (0, tail p, f)
      else
        let* (r, p, f) := dq_step p f in
        if negb (r =? 0) then ret (r, p, f) else dq_loop k p f
  end.

(** After an opening single quote. *)
Fixpoint sq_loop (p : str) (f : fld) : St wst (Z * str * fld) :=
  match p with
  | [] => ret (WRDE_SYNTAX, p, f)
  | c :: p' =>
      if c =? 39 then ret (0, p', f)
      else
        let* (r, f) := fld_putc f c in
        if negb (r =? 0) then ret (WRDE_NOSPACE, p, f) else sq_loop p' f
  end.

(** *** The expander *)

Definition start (f : fld) : fld := Fld (field f) true (meta f).

(** The text of an expansion outside quotes goes into the field, split. *)
Definition splice (r : Z) (val : sbuf) (p : str) (f : fld) (out : wlist) : St wst (Z * str * fld * wlist) :=
  if negb (r =? 0) then let* _ := sb_free val in ret ((if r =? -1 then WRDE_NOSPACE else r), p, f, out)
  else
    let* (w, f, out) := fld_expand_text f out (chars val) true in
    let* _ := sb_free val in
    ret ((if w =? 0 then 0 else WRDE_NOSPACE), p, f, out).

Definition expand_step (p : str) (f : fld) (out : wlist) : St wst (Z * str * fld * wlist) :=
  let c := at0 p in
  let put c f p := (let* (r, f) := fld_putc f c in ret ((if r =? 0 then 0 else WRDE_NOSPACE), p, f, out)) in
  if ifs_ws c then let* (r, f, out) := fld_flush f out in ret ((if r =? 0 then 0 else WRDE_NOSPACE), tail p, f, out)
  else if c =? 39 then let* (r, p, f) := sq_loop (tail p) (start f) in ret (r, p, f, out)
  else if c =? 34 then let* (r, p, f) := dq_loop (S (length p)) (tail p) (start f) in ret (r, p, f, out)
  else if c =? 92 then
    let p := tail p in
    if at0 p =? 0 then ret (WRDE_SYNTAX, p, f, out) else put (at0 p) f (tail p)
  else if c =? 36 then
    let* (r, p, val) := read_var (tail p) sb0 in
    let* (r, val, p) := (if r =? -2 then substitute p else ret (r, val, p)) in
    splice r val p f out
  else if c =? 96 then let* (r, val, p) := substitute p in splice r val p f out
  else if (c =? 126) && negb (started f) then
    if (at1 p =? 0) || (at1 p =? 47) then
      let* home := getenv [72; 79; 77; 69] in
      match home with
      | None => ret (0, tail p, f, out)
      | Some home => let* (r, f) := fld_write f home in ret ((if r =? 0 then 0 else WRDE_NOSPACE), tail p, f, out)
      end
    else put 126 f (tail p)
  else if glob_meta c then put c (Fld (field f) (started f) true) (tail p)
  else put c f (tail p).

Fixpoint expand_loop (k : nat) (p : str) (f : fld) (out : wlist) : St wst (Z * wlist) :=
  match k with
  | O => fault
  | S k =>
      if at0 p =? 0 then
        let* (r, f, out) := fld_flush f out in
        if negb (r =? 0) then ret (WRDE_NOSPACE, out)
        else let* _ := sb_free (field f) in ret (0, out)
      else
        let* (r, p, f, out) := expand_step p f out in
        if negb (r =? 0) then ret (r, out) else expand_loop k p f out
  end.

Definition expand (text : str) (out : wlist) : St wst (Z * wlist) := expand_loop (S (length text)) text fld0 out.

(** ** Entry points *)

Record wordexp_t := We { we_wordc : Z; we_wordv : option (list (option str)); we_offs : Z }.

(** [None] is a read past the vector. *)
Definition slots (v : list (option str)) (offs c : Z) : option (list (option str)) :=
  if (Z.to_nat (offs + c) <=? length v)%nat then Some (take (Z.to_nat c) (drop (Z.to_nat offs) v)) else None.

Definition wordfree (we : option wordexp_t) : St wst (option wordexp_t) :=
  match we with
  | None => ret None
  | Some (We c None offs) => ret (Some (We 0 None offs))
  | Some (We c (Some v) offs) =>
      match slots v offs c with
      | None => fault
      | Some l => let* _ := give_back (Z.of_nat (length (omap id l)) + 1) in ret (Some (We 0 None offs))
      end
  end.

Definition wordexp (words : option str) (we : option wordexp_t) : St wst (Z * option wordexp_t) :=
  match we with
  | None => ret (WRDE_BADCHAR, None)
  | Some we =>
      let* (r, w) := expand (default [] words) wl0 in
      if negb (r =? 0) then let* _ := wl_free w in ret (r, Some we)
      else
        let append := WRDE_APPEND flags && (match we_wordv we with Some _ => true | None => false end) in
        let oldc := if append then we_wordc we else 0 in
        let oldoffs := if append then we_offs we else 0 in
        let* we1 := (if append then ret (Some we) else if WRDE_REUSE flags then wordfree (Some we) else ret (Some we)) in
        let we := default we we1 in
        let offs := if WRDE_DOOFFS flags then we_offs we else if append then oldoffs else 0 in
        if offs >? 4096 then
          let* _ := wl_free w in let* _ := give_back (if append then 1 else 0) in ret (WRDE_NOSPACE, Some we)
        else
          let* ok := alloc in
          if negb ok then
            let* _ := wl_free w in let* _ := give_back (if append then 1 else 0) in ret (WRDE_NOSPACE, Some we)
          else
            match (if append then slots (default [] (we_wordv we)) oldoffs oldc else Some []) with
            | None => fault
            | Some old =>
                let* _ := give_back ((if append then 1 else 0) + if wcap w =? 0 then 0 else 1) in
                ret (0, Some (We (oldc + Z.of_nat (length (wv w)))
                  (Some (replicate (Z.to_nat offs) None ++ old ++ (Some <$> wv w) ++ [None])) offs))
            end
  end.
(** ** Steps with memory at hand *)

(** Memory is still granted and the environment is the same. *)
Definition calm (s s' : wst) : Prop := granted (wio s') /\ wenv s' = wenv s.

Lemma calm_trans s1 s2 s3 : calm s1 s2 -> calm s2 s3 -> calm s1 s3.
Proof. unfold calm. intuition congruence. Qed.

Ltac calm_chain := repeat match goal with
  | H : calm ?a ?b |- calm ?a ?b => exact H
  | H : calm ?a ?b |- calm ?a ?c => apply (calm_trans a b c H); clear H
  end.

Lemma wp_give k s (Q : unit -> wst -> Prop) : granted (wio s) -> (forall s', calm s s' -> Q tt s') -> wp (give_back k) s Q.
Proof. intros Hg HQ. unfold wp, give_back, on_io. cbn. by apply HQ. Qed.

Lemma wp_walloc s (Q : bool -> wst -> Prop) : granted (wio s) -> (forall s', calm s s' -> Q true s') -> wp alloc s Q.
Proof.
  intros Hg HQ. unfold wp, alloc, on_io, Glob.alloc. destruct (malloc_granted _ Hg) as (i & -> & Hg' & _). by apply HQ.
Qed.

Lemma wp_wrealloc null s (Q : bool -> wst -> Prop) : granted (wio s) -> (forall s', calm s s' -> Q true s') -> wp (realloc null) s Q.
Proof.
  intros Hg HQ. unfold wp, realloc, on_io. destruct (realloc_granted null _ Hg) as (i & -> & Hg' & _). by apply HQ.
Qed.

Lemma wp_reserve b extra s (Q : Z * sbuf -> wst -> Prop) : granted (wio s) ->
  (forall b' s', calm s s' -> chars b' = chars b -> Q (0, b') s') -> wp (sb_reserve b extra) s Q.
Proof.
  intros Hg HQ. unfold sb_reserve. destruct (_ <=? _); [by apply wp_ret, HQ|].
  apply wp_bind, wp_wrealloc; [done|]. intros s' Hc. by apply wp_ret, HQ.
Qed.

Lemma wp_sb_write b t s (Q : Z * sbuf -> wst -> Prop) : granted (wio s) ->
  (forall b' s', calm s s' -> chars b' = chars b ++ t -> Q (0, b') s') -> wp (sb_write b t) s Q.
Proof.
  intros Hg HQ. apply wp_bind, wp_reserve; [done|]. intros b' s' Hc Hb. apply wp_ret, HQ; [done|]. cbn. by rewrite Hb.
Qed.

Lemma wp_sb_putc b c s (Q : Z * sbuf -> wst -> Prop) : granted (wio s) ->
  (forall b' s', calm s s' -> chars b' = chars b ++ [c] -> Q (0, b') s') -> wp (sb_putc b c) s Q.
Proof.
  intros Hg HQ. apply wp_bind, wp_reserve; [done|]. intros b' s' Hc Hb. apply wp_ret, HQ; [done|]. cbn. by rewrite Hb.
Qed.

Lemma wp_wl_reserve w extra s (Q : Z * wlist -> wst -> Prop) : granted (wio s) ->
  (forall w' s', calm s s' -> wv w' = wv w -> Q (0, w') s') -> wp (wl_reserve w extra) s Q.
Proof.
  intros Hg HQ. unfold wl_reserve. destruct (_ <=? _); [by apply wp_ret, HQ|].
  apply wp_bind, wp_wrealloc; [done|]. intros s' Hc. by apply wp_ret, HQ.
Qed.

Lemma wp_wl_take w b s (Q : Z * wlist * sbuf -> wst -> Prop) : granted (wio s) ->
  (forall w' b' s', calm s s' -> wv w' = wv w ++ [chars b] -> chars b' = [] -> Q (0, w', b') s') -> wp (wl_take w b) s Q.
Proof.
  intros Hg HQ. unfold wl_take, chars in *. destruct (sp b) as [t|] eqn:Eb.
  - apply wp_bind, wp_wl_reserve; [done|]. intros w' s' Hc Hw. apply wp_ret, HQ; [done|cbn; by rewrite Hw|done].
  - apply wp_bind, wp_walloc; [done|]. intros s1 Hc1. cbn [negb]. apply wp_bind, wp_wl_reserve; [apply Hc1|]. intros w' s' Hc Hw.
    apply wp_ret, HQ; [calm_chain|cbn; by rewrite Hw|by rewrite Eb].
Qed.

(** ** Fields as a machine over events *)

(** A character, the start of a field, a separator. *)
Inductive ev := Ch (c : Z) | Open | Sep.

Record fstate := Fs { f_started : bool; f_text : str; f_words : list str }.

Definition ev_step (a : fstate) (e : ev) : fstate :=
  match e with
  | Ch c => Fs true (f_text a ++ [c]) (f_words a)
  | Open => Fs true (f_text a) (f_words a)
  | Sep => if f_started a then Fs false [] (f_words a ++ [f_text a]) else a
  end.

Definition ev_run : list ev -> fstate -> fstate := fun l a => foldl ev_step a l.

(** The fields of a sequence of events. *)
Definition fields (l : list ev) : list str := f_words (ev_run (l ++ [Sep]) (Fs false [] [])).

Record shows (f : fld) (out : wlist) (a : fstate) : Prop := {
  sh_started : started f = f_started a;
  sh_text : chars (field f) = f_text a;
  sh_words : wv out = f_words a;
  sh_meta : meta f = false;
}.

Lemma wp_putc f c out a s (Q : Z * fld -> wst -> Prop) : granted (wio s) -> shows f out a ->
  (forall f' s', calm s s' -> shows f' out (ev_step a (Ch c)) -> Q (0, f') s') -> wp (fld_putc f c) s Q.
Proof.
  intros Hg [Hst Ht Hw Hm] HQ. apply wp_bind, wp_sb_putc; [done|]. intros b s' Hc Hb. apply wp_ret, HQ; [done|].
  constructor; cbn; try done. by rewrite Hb, Ht.
Qed.

Lemma ev_run_chars t : forall st tx ws, ev_run (Ch <$> t) (Fs st tx ws) = Fs (st || negb (match t with [] => true | _ => false end)) (tx ++ t) ws.
Proof.
  induction t as [|c t IH]; intros st tx ws; cbn; [by rewrite orb_false_r, app_nil_r|].
  change (ev_run (Ch <$> t) (Fs true (tx ++ [c]) ws) = Fs (st || true) (tx ++ c :: t) ws). rewrite IH, <- app_assoc. by rewrite orb_true_r.
Qed.

Lemma wp_write f t out a s (Q : Z * fld -> wst -> Prop) : granted (wio s) -> shows f out a ->
  (forall f' s', calm s s' -> shows f' out (ev_run (Ch <$> t) a) -> Q (0, f') s') -> wp (fld_write f t) s Q.
Proof.
  intros Hg [Hst Ht Hw Hm] HQ. apply wp_bind, wp_sb_write; [done|]. intros b s' Hc Hb. apply wp_ret, HQ; [done|].
  destruct a as [st tx ws]. rewrite ev_run_chars. cbn in *. subst. by constructor.
Qed.

(** Unquoted text: the blanks separate. *)
Definition split_ev (c : Z) : ev := if ifs_ws c then Sep else Ch c.

Lemma wp_split t : Forall (fun c => c <> 0) t -> forall f out a s (Q : Z * fld * wlist -> wst -> Prop), granted (wio s) -> shows f out a ->
  (forall f' out' s', calm s s' -> shows f' out' (ev_run (split_ev <$> t) a) -> Q (0, f', out') s') -> wp (split_text f out t) s Q.
Proof.
  induction 1 as [|c t Hc0 _ IH]; intros f out a s Q Hg Hsh HQ; cbn [split_text]; [by apply wp_ret, HQ|].
  destruct (Z.eqb_spec c 0); [done|]. unfold split_ev in HQ. cbn in HQ. destruct (ifs_ws c).
  - destruct (started f) eqn:Est.
    + apply wp_bind, wp_wl_take; [done|]. intros w b s' Hc Hw Hb. change (0 =? 0) with true. cbn [negb].
      eapply IH; [apply Hc| |]; [|intros f' out' s2 Hc2 Hsh'; apply HQ; [calm_chain|exact Hsh']].
      destruct Hsh as [Hst Ht Hws Hm]. cbn. rewrite <- Hst, Est. constructor; cbn; try done. by rewrite Hw, Hws, Ht.
    + eapply IH; [done|exact Hsh|]. assert (E : f_started a = false) by by rewrite <- (sh_started _ _ _ Hsh).
      unfold ev_step in HQ at 2. rewrite E in HQ. exact HQ.
  - apply wp_bind. eapply wp_putc; [done|exact Hsh|]. intros f' s' Hc Hsh'. change (0 =? 0) with true. cbn [negb].
    eapply IH; [apply Hc|exact Hsh'|]. intros f2 out2 s2 Hc2 Hsh2. apply HQ; [calm_chain|done].
Qed.

(** A blank of the text, or its end. *)
Lemma wp_flush f out a s (Q : Z * fld * wlist -> wst -> Prop) : granted (wio s) -> shows f out a -> (f_started a = false -> f_text a = []) ->
  (forall f' out' s', calm s s' -> shows f' out' (ev_step a Sep) -> Q (0, f', out') s') -> wp (fld_flush f out) s Q.
Proof.
  intros Hg [Hst Ht Hw Hm] Hemp HQ. unfold fld_flush. rewrite Hst, Hm. cbn in HQ. destruct (f_started a) eqn:Ea; cbn [negb].
  - apply wp_bind, wp_wl_take; [done|]. intros w b s' Hc Hw' Hb. apply wp_ret, HQ; [done|]. constructor; cbn; try done. by rewrite Hw', Hw, Ht.
  - apply wp_bind, wp_give; [done|]. intros s' Hc. apply wp_ret, HQ; [done|]. constructor; cbn; try done. by rewrite Hemp.
Qed.
(** ** The language of words *)

(** Parameters and arithmetic, as they are written in braces and parentheses. *)
Inductive pexp :=
  | Param (name : str)
  | Size (name : str)
  | Default (colon : bool) (name word : str)
  | Math (e : ArithExp.expr).

(** The text after the dollar sign. *)
Definition pexp_text (x : pexp) : str :=
  match x with
  | Param name => 123 :: name ++ [125]
  | Size name => 123 :: 35 :: name ++ [125]
  | Default colon name word => 123 :: name ++ (if colon then [58; 45] else [45]) ++ word ++ [125]
  | Math e => 40 :: 40 :: ArithExp.show [] 0 e ++ [41; 41]
  end.

(** Not a character with a meaning of its own for the shell outside quotes: no
    blank, quote, dollar sign, wildcard or tilde, and none of the operators
    [& ( ) ; < > { | }]. *)
Definition ordinary (c : Z) : Prop := c ∉ [0; 9; 10; 32; 34; 36; 38; 39; 40; 41; 42; 59; 60; 62; 63; 91; 92; 96; 123; 124; 125; 126].
Definition wildcard (c : Z) : Prop := c ∈ [42; 63; 91].

Section Values.
Variable vars : str -> option str.

(** The decimal text of a number. *)
Definition decimal (v : Z) : str := (if v <? 0 then [45] else []) ++ PrintfSpec.numeral 10 false (Z.abs v).

Definition pexp_value (x : pexp) : str :=
  match x with
  | Param name => default [] (vars name)
  | Size name => decimal (Z.of_nat (length (default [] (vars name))))
  | Default colon name word =>
      match vars name with
      | None => word
      | Some [] => if colon then word else []
      | Some t => t
      end
  | Math e => decimal (default 0 (ArithExp.value vars e))
  end.

Definition pexp_ok (x : pexp) : Prop :=
  match x with
  | Param name => name_ok name
  | Size name => name_ok name /\ Z.of_nat (length (default [] (vars name))) < 2 ^ 32
  | Default _ name word => name_ok name /\ Forall (fun c => ordinary c \/ c = 32 \/ c = 9) word /\ (length word <= 255)%nat
  | Math e => ArithExp.wf e /\ is_Some (ArithExp.value vars e) /\ (length (ArithExp.show [] 0 e) <= 255)%nat
  end.
End Values.

(** *** Bodies of arithmetic *)

Definition balanced (t : str) : Prop := forall room depth rest, (length t <= room)%nat ->
  arith_body room depth (t ++ rest) = let '(b, r) := arith_body (room - length t) depth rest in (t ++ b, r).

Lemma balanced_nil : balanced [].
Proof. intros room depth rest _. cbn [app length]. rewrite Nat.sub_0_r. by destruct (arith_body room depth rest). Qed.

Lemma balanced_app t u : balanced t -> balanced u -> balanced (t ++ u).
Proof.
  intros Ht Hu room depth rest Hl. rewrite length_app in *. rewrite <- app_assoc, Ht, Hu by lia.
  replace (room - length t - length u)%nat with (room - (length t + length u))%nat by lia.
  destruct (arith_body _ depth rest). by rewrite <- app_assoc.
Qed.

Lemma balanced_char c : c <> 40 -> c <> 41 -> balanced [c].
Proof.
  intros H1 H2 room depth rest Hl. destruct room as [|room]; [cbn in Hl; lia|]. cbn [app arith_body pred length].
  destruct (Z.eqb_spec c 40); [done|]. destruct (Z.eqb_spec c 41); [done|]. cbn [Nat.sub]. rewrite Nat.sub_0_r. done.
Qed.

Lemma balanced_plain t : Forall (fun c => c <> 40 /\ c <> 41) t -> balanced t.
Proof.
  induction 1 as [|c t [H1 H2] _ IH]; [apply balanced_nil|]. apply (balanced_app [c] t); [by apply balanced_char|done].
Qed.

Lemma balanced_paren t : balanced t -> balanced (40 :: t ++ [41]).
Proof.
  intros Ht room depth rest Hl. destruct room as [|room]; [cbn in Hl; lia|]. cbn [app arith_body pred length Z.eqb Pos.eqb].
  rewrite <- app_assoc, Ht by (cbn in Hl; rewrite length_app in Hl; lia). rewrite length_app. cbn [length app].
  assert (Hr : (length t < room)%nat) by (cbn in Hl; rewrite length_app in Hl; cbn in Hl; lia).
  replace (S room - S (length t + 1))%nat with (pred (room - length t)) by lia.
  destruct (room - length t)%nat as [|k] eqn:Ek; [lia|]. cbn [arith_body pred Z.eqb Pos.eqb].
  destruct (arith_body k depth rest). by rewrite <- app_assoc.
Qed.

Lemma numeral_plain base n : 2 <= base <= 16 -> 0 <= n -> Forall (fun c => c <> 40 /\ c <> 41) (PrintfSpec.numeral base false n).
Proof.
  intros Hb Hn. apply (ArithExp.shown_all base false); [lia| |done]. intros d Hd. unfold Printf.digit_char. destruct (d <? 10); lia.
Qed.

Lemma show_balanced e : forall lv, ArithExp.wf e -> balanced (ArithExp.show [] lv e).
Proof.
  induction e as [b n|g name|o e IH|o e1 IH1 e2 IH2]; intros lv Hwf; cbn [ArithExp.show ArithExp.wf app] in *.
  - apply balanced_plain. destruct b; cbn [lit_text]; repeat (constructor; [lia|]); apply numeral_plain; lia.
  - apply balanced_plain. destruct Hwf as (_ & Hch & _).
    assert (Hn : Forall (fun c => c <> 40 /\ c <> 41) name) by (eapply Forall_impl; [|exact Hch]; intros c Hc; split; intros ->; done).
    destruct g; cbn [var_text]; repeat (constructor; [lia|]); [done..|]. apply Forall_app. split; [done|]. repeat constructor; lia.
  - apply (balanced_app [un_text o]); [by apply balanced_plain; repeat constructor; destruct o|auto].
  - destruct Hwf as [Hw1 Hw2].
    assert (Ht : balanced (ArithExp.show [] (prec o) e1 ++ op_text o ++ ArithExp.show [] (S (prec o)) e2)).
    { apply balanced_app; [auto|]. apply balanced_app; [|auto]. apply balanced_plain. destruct o; repeat constructor; lia. }
    destruct (_ <? _)%nat; [by apply balanced_paren|done].
Qed.

Lemma decimal_digits v : - 2 ^ 63 <= v < 2 ^ 63 -> signed_digits v = decimal v.
Proof.
  intros Hv. unfold signed_digits, decimal. replace (if v <? 0 then - (v + 1) + 1 else v) with (Z.abs v) by (destruct (Z.ltb_spec v 0); lia).
  f_equal. unfold dec_digits. destruct (Z.eqb_spec (Z.abs v) 0) as [->|]; [done|]. apply PrintfSpec.udigits_shown; [lia| |lia].
  split; [lia|]. apply (Z.le_lt_trans _ (2 ^ 63)); [lia|done].
Qed.
(** *** Reading them *)

Section Reading.
Variable env : Env.env.
Hypothesis no_undef : WRDE_UNDEF flags = false.

Definition env_vars (name : str) : option str := Env.getenv (Some name) env.

(** With this environment and memory at hand. *)
Definition ready (s : wst) : Prop := granted (wio s) /\ wenv s = env.

Lemma ready_calm s s' : ready s -> calm s s' -> ready s'.
Proof. unfold ready, calm. intuition congruence. Qed.

Lemma wp_write_to val t p s (Q : res -> wst -> Prop) : ready s ->
  (forall val' s', calm s s' -> chars val' = chars val ++ t -> Q (0, p, val') s') -> wp (write_to val t p) s Q.
Proof. intros Hr HQ. apply wp_bind, wp_sb_write; [apply Hr|]. intros b s' Hc Hb. by apply wp_ret, HQ. Qed.

Lemma name_head name : name_ok name -> exists c t, name = c :: t /\ name_st c = true.
Proof. intros (Hst & _). destruct name as [|c t]; [done|]. eauto. Qed.

Lemma name_st_not c : name_st c = true -> c <> 40 /\ c <> 35 /\ c <> 63 /\ c <> 36 /\ c <> 33 /\ c <> 123.
Proof. intros Hc. split_and!; intros ->; done. Qed.

Lemma take_name_ok name c rest : name_ok name -> name_ch c = false -> take_name 127 (name ++ c :: rest) = (name, c :: rest).
Proof. intros (_ & Hch & Hlen) Hc. by apply take_name_run. Qed.

(** A braced parameter, up to what follows its name. *)
Lemma read_braced name c rest val s : name_ok name -> name_ch c = false ->
  read_var (123 :: name ++ c :: rest) val s =
    (let v := Env.getenv (Some name) (wenv s) in
     if c =? 125 then write_to val (default [] v) rest
     else if c =? 0 then fault
     else if c =? 58 then
       if (at0 rest =? 45) || (at0 rest =? 61) || (at0 rest =? 43) || (at0 rest =? 63) then
         read_op name v (at0 rest) true (tail rest) val
       else read_substring v rest val
     else read_op name v c false rest val) s.
Proof.
  intros Hn Hc. unfold read_var. change (at0 (123 :: _)) with 123.
  destruct (name_head name Hn) as (c0 & t & E & Hst). destruct (name_st_not c0 Hst) as (H1 & H2 & H3 & H4 & H5 & _).
  assert (E0 : at0 (name ++ c :: rest) = c0) by by rewrite E.
  assert (Enil : match name with [] => true | _ => false end = false) by by rewrite E.
  do 3 (zdecide; cbn [andb orb tail]; rewrite ?E0).
  rewrite take_name_ok, Enil by done. cbn [andb negb].
  unfold bind, getenv, gets. cbn [negb at0 head default from_option id tail].
  destruct (c =? 125); [|done]. rewrite no_undef. by destruct (Env.getenv (Some name) (wenv s)).
Qed.

Lemma plain_unclosed word : Forall (fun c => ordinary c \/ c = 32 \/ c = 9) word -> 125 ∉ word.
Proof.
  intros H Hin. rewrite Forall_forall in H. destruct (H 125) as [Ho|Ho]; [by apply list_elem_of_In| |lia].
  apply Ho. unfold ordinary. by repeat constructor.
Qed.

Lemma take_word_run word : forall room rest, 125 ∉ word -> (length word <= room)%nat -> take_word room (word ++ 125 :: rest) = (word, 125 :: rest).
Proof.
  induction word as [|c word IH]; intros room rest Hw Hl; [by destruct room|]. destruct room as [|room]; [cbn in Hl; lia|].
  apply not_elem_of_cons in Hw as [Hc Hw]. cbn [app take_word]. destruct (Z.eqb_spec c 125); [congruence|].
  by rewrite IH by (try done; cbn in Hl; lia).
Qed.

Lemma eval_body e v : ArithExp.wf e -> ArithExp.value env_vars e = Some v -> _eval_arith env_vars (ArithExp.show [] 0 e) = Some (v, false).
Proof.
  intros Hwf Hv. pose proof (ArithExp.eval_shown env_vars [] e (Forall_nil_2 _) Hwf) as He.
  by rewrite app_nil_r, Hv in He.
Qed.

(** An expansion is read to its value, whatever follows it. *)
Lemma wp_read_var x rest val s (Q : res -> wst -> Prop) : pexp_ok env_vars x -> ready s ->
  (forall val' s', calm s s' -> chars val' = chars val ++ pexp_value env_vars x -> Q (0, rest, val') s') ->
  wp (read_var (pexp_text x ++ rest) val) s Q.
Proof.
  intros Hok Hr HQ. pose proof Hr as [Hg He].
  destruct x as [name|name|colon name word|e]; cbn [pexp_text pexp_ok pexp_value app] in *.
  - rewrite <- app_assoc. cbn [app]. unfold wp. rewrite read_braced by done. change (125 =? 125) with true. cbv zeta.
    rewrite He. by apply (wp_write_to _ _ _ s).
  - destruct Hok as [Hn Hlen]. rewrite <- app_assoc. cbn [app]. unfold read_var. change (at0 (123 :: _)) with 123.
    destruct (name_head name Hn) as (c0 & t & E & Hst). destruct (name_st_not c0 Hst) as (_ & _ & H3 & H4 & H5 & _).
    assert (Enil : match name with [] => true | _ => false end = false) by by rewrite E.
    assert (E0 : at0 (name ++ 125 :: rest) = c0) by by rewrite E.
    do 4 (zdecide; cbn [andb orb tail]; try change (at0 (35 :: name ++ 125 :: rest)) with 35; rewrite ?E0).
    rewrite take_name_ok, Enil by done. cbn [andb negb]. apply wp_bind. unfold getenv. apply wp_gets.
    change (at0 (125 :: rest) =? 125) with true. cbn [negb tail]. rewrite He. apply wp_write_to; [done|]. intros val' s' Hc Hv.
    apply HQ; [done|]. rewrite Hv. f_equal. unfold env_vars in *. rewrite <- decimal_digits by lia. unfold signed_digits. zdecide. done.
  - destruct Hok as (Hn & Hword & Hlen). pose proof (plain_unclosed word Hword) as H125. rewrite <- !app_assoc. unfold wp.
    set (v := env_vars name) in *. assert (Ev : Env.getenv (Some name) (wenv s) = v) by by rewrite He.
    assert (Hop : wp (read_op name v 45 colon (word ++ 125 :: rest) val) s Q).
    { unfold read_op. zdecide. cbn [orb andb]. rewrite take_word_run by done. change (at0 (125 :: rest) =? 125) with true. cbn [negb tail].
      destruct v as [[|c t]|]; destruct colon; cbn [negb];
        first [by apply wp_write_to|by apply wp_bind, wp_ret, wp_write_to]. }
    destruct colon; cbn [app]; rewrite read_braced by done; cbv zeta; rewrite Ev; exact Hop.
  - destruct Hok as (Hwf & [v Hv] & Hlen). unfold read_var. change (at0 (40 :: _)) with 40. change (at1 (40 :: 40 :: _)) with 40.
    zdecide. cbn [drop]. unfold read_arith. rewrite drop_0, <- app_assoc, (show_balanced e 0 Hwf) by lia.
    assert (Eb : forall k, arith_body k 0 ([41; 41] ++ rest) = ([], [41; 41] ++ rest)) by done. rewrite Eb.
    change (at0 ([41; 41] ++ rest)) with 41. change (at1 ([41; 41] ++ rest)) with 41. zdecide. cbn [negb orb app].
    apply wp_bind, wp_gets. rewrite He. fold env_vars. apply wp_bind. unfold wp at 1. rewrite app_nil_r, (eval_body e v Hwf Hv).
    cbn [drop]. apply wp_write_to; [done|]. intros val' s' Hc Hchars. apply HQ; [done|]. rewrite Hchars, Hv. cbn. f_equal.
    apply decimal_digits. by eapply ArithExp.value_ll.
Qed.
(** *** Segments of the text *)

Inductive dpart := DChar (c : Z) | DExp (x : pexp).

Inductive seg :=
  | Blank (c : Z)
  | Plain (c : Z)
  | Escaped (c : Z)
  | Single (t : str)
  | Double (l : list dpart)
  | Exp (x : pexp).

Definition dpart_text (d : dpart) : str :=
  match d with
  | DChar c => if (c =? 36) || (c =? 96) || (c =? 34) || (c =? 92) then [92; c] else [c]
  | DExp x => 36 :: pexp_text x
  end.

Definition seg_text (g : seg) : str :=
  match g with
  | Blank c | Plain c => [c]
  | Escaped c => [92; c]
  | Single t => 39 :: t ++ [39]
  | Double l => 34 :: (l ≫= dpart_text) ++ [34]
  | Exp x => 36 :: pexp_text x
  end.

(** Quoted text is taken as it is; the value of an unquoted expansion is split. *)
Definition dpart_ev (d : dpart) : list ev := match d with DChar c => [Ch c] | DExp x => Ch <$> pexp_value env_vars x end.

Definition seg_ev (g : seg) : list ev :=
  match g with
  | Blank _ => [Sep]
  | Plain c | Escaped c => [Ch c]
  | Single t => Open :: (Ch <$> t)
  | Double l => Open :: (l ≫= dpart_ev)
  | Exp x => split_ev <$> pexp_value env_vars x
  end.

Definition dpart_ok (d : dpart) : Prop := match d with DChar c => c <> 0 | DExp x => pexp_ok env_vars x end.

Definition seg_ok (g : seg) : Prop :=
  match g with
  | Blank c => c = 32 \/ c = 9
  | Plain c => ordinary c
  | Escaped c => c <> 0 /\ c <> 10
  | Single t => 0 ∉ t /\ 39 ∉ t
  | Double l => Forall dpart_ok l
  | Exp x => pexp_ok env_vars x /\ Forall (fun c => c <> 0 /\ ~ wildcard c) (pexp_value env_vars x)
  end.

Lemma wp_sq t : forall rest f out a s (Q : Z * str * fld -> wst -> Prop), 39 ∉ t -> ready s -> shows f out a ->
  (forall f' s', calm s s' -> shows f' out (ev_run (Ch <$> t) a) -> Q (0, rest, f') s') -> wp (sq_loop (t ++ 39 :: rest) f) s Q.
Proof.
  induction t as [|c t IH]; intros rest f out a s Q Ht Hr Hsh HQ; cbn [app sq_loop].
  { change (39 =? 39) with true. apply wp_ret, HQ; [by destruct Hr|done]. }
  apply not_elem_of_cons in Ht as [Hc Ht]. destruct (Z.eqb_spec c 39); [congruence|].
  apply wp_bind. eapply wp_putc; [apply Hr|exact Hsh|]. intros f' s' Hc' Hsh'. change (0 =? 0) with true. cbn [negb].
  eapply IH; [done|by eapply ready_calm|exact Hsh'|]. intros f2 s2 Hc2 Hsh2. apply HQ; [calm_chain|done].
Qed.

(** One part of a double-quoted text. *)
Lemma wp_dq_step d rest f out a s (Q : Z * str * fld -> wst -> Prop) : dpart_ok d -> ready s -> shows f out a ->
  (forall f' s', calm s s' -> shows f' out (ev_run (dpart_ev d) a) -> Q (0, rest, f') s') ->
  at0 (dpart_text d ++ rest) <> 0 /\ at0 (dpart_text d ++ rest) <> 34 /\ wp (dq_step (dpart_text d ++ rest) f) s Q.
Proof.
  intros Hd Hr Hsh HQ. destruct d as [c|x]; cbn [dpart_text dpart_ok dpart_ev] in *.
  - assert (Hput : forall p, p = rest ->
      wp (let* (r, f) := fld_putc f c in ret ((if r =? 0 then 0 else WRDE_NOSPACE), p, f)) s Q).
    { intros p ->. apply wp_bind. eapply wp_putc; [apply Hr|exact Hsh|]. intros f' s' Hc Hsh'. change (0 =? 0) with true. by apply wp_ret, HQ. }
    destruct (_ || (c =? 92)) eqn:Esp; cbn [app].
    + change (at0 (92 :: _)) with 92. split_and!; [done..|]. unfold dq_step. change (at0 (92 :: _)) with 92. change (92 =? 92) with true.
      cbn [tail]. change (at0 (c :: rest)) with c. destruct (Z.eqb_spec c 0); [done|].
      replace (dq_escaped c) with true by (unfold dq_escaped; rewrite Esp; done). by apply Hput.
    + change (at0 (c :: rest)) with c. apply orb_false_iff in Esp as [Esp E92]. apply orb_false_iff in Esp as [Esp E34].
      apply orb_false_iff in Esp as [E36 E96]. split_and!; [done|by apply Z.eqb_neq|]. unfold dq_step.
      change (at0 (c :: rest)) with c. rewrite E92, E36, E96. by apply Hput.
  - cbn [app]. change (at0 (36 :: _)) with 36. split_and!; [done..|]. unfold dq_step. change (at0 (36 :: _)) with 36.
    zdecide. cbn [tail]. apply wp_bind. eapply wp_read_var; [done|done|]. intros val s1 Hc1 Hval. change (0 =? -2) with false. cbn match.
    apply wp_bind, wp_ret. change (0 =? 0) with true. cbn [negb]. apply wp_bind.
    eapply wp_write; [apply Hc1|exact Hsh|]. intros f' s2 Hc2 Hsh2. apply wp_bind, wp_give; [apply Hc2|]. intros s3 Hc3. apply wp_ret, HQ; [calm_chain|].
    by rewrite Hval in Hsh2.
Qed.

Lemma wp_dq l : Forall dpart_ok l -> forall k rest f out a s (Q : Z * str * fld -> wst -> Prop), (length l < k)%nat -> ready s -> shows f out a ->
  (forall f' s', calm s s' -> shows f' out (ev_run (l ≫= dpart_ev) a) -> Q (0, rest, f') s') ->
  wp (dq_loop k ((l ≫= dpart_text) ++ 34 :: rest) f) s Q.
Proof.
  induction 1 as [|d l Hd _ IH]; intros k rest f out a s Q Hk Hr Hsh HQ; (destruct k as [|k]; [cbn in Hk; lia|]); cbn [dq_loop].
  { change (at0 _) with 34. zdecide. apply wp_ret, HQ; [by destruct Hr|done]. }
  change ((d :: l) ≫= dpart_text) with (dpart_text d ++ (l ≫= dpart_text)). rewrite <- app_assoc.
  edestruct (wp_dq_step d ((l ≫= dpart_text) ++ 34 :: rest) f out a s) as (H0 & H34 & Hwp); [done|done|exact Hsh| |].
  2:{ zdecide. apply wp_bind. exact Hwp. }
  intros f' s' Hc Hsh'. change (0 =? 0) with true. cbn [negb].
  eapply IH; [cbn in Hk; lia|by eapply ready_calm|exact Hsh'|]. intros f2 s2 Hc2 Hsh2. apply HQ; [calm_chain|].
  change ((d :: l) ≫= dpart_ev) with (dpart_ev d ++ (l ≫= dpart_ev)). unfold ev_run. rewrite foldl_app. exact Hsh2.
Qed.
Definition clean (a : fstate) : Prop := f_started a = false -> f_text a = [].

Lemma clean_run l : forall a, clean a -> clean (ev_run l a).
Proof.
  induction l as [|e l IH]; intros a Ha; [done|]. apply IH. destruct e; cbn; [done..|]. destruct (f_started a) eqn:E; [done|exact Ha].
Qed.

Lemma shows_open f out a : shows f out a -> shows (start f) out (ev_step a Open).
Proof. intros [Hst Ht Hw Hm]. by constructor. Qed.

Lemma length_dparts l : (length l <= length (l ≫= dpart_text))%nat.
Proof.
  induction l as [|d l IH]; [done|]. change ((d :: l) ≫= dpart_text) with (dpart_text d ++ (l ≫= dpart_text)). rewrite length_app. cbn [length].
  assert (1 <= length (dpart_text d))%nat by (destruct d; cbn; [case_match; cbn; lia|lia]). lia.
Qed.

(** One segment. *)
Lemma wp_seg g rest f out a s (Q : Z * str * fld * wlist -> wst -> Prop) : seg_ok g -> ready s -> shows f out a -> clean a ->
  (forall f' out' s', calm s s' -> shows f' out' (ev_run (seg_ev g) a) -> Q (0, rest, f', out') s') ->
  at0 (seg_text g ++ rest) <> 0 /\ wp (expand_step (seg_text g ++ rest) f out) s Q.
Proof.
  intros Hg Hr Hsh Hcl HQ. unfold expand_step.
  assert (Hput : forall c p, p = rest -> seg_ev g = [Ch c] ->
    wp (let* (r, f) := fld_putc f c in ret ((if r =? 0 then 0 else WRDE_NOSPACE), p, f, out)) s Q).
  { intros c p -> Hev. rewrite Hev in HQ. apply wp_bind. eapply wp_putc; [apply Hr|exact Hsh|]. intros f' s' Hc Hsh'.
    change (0 =? 0) with true. by apply wp_ret, HQ. }
  destruct g as [c|c|c|t|l|x]; cbn [seg_text seg_ok app] in *.
  - change (at0 (c :: rest)) with c. split; [lia|]. assert (E : ifs_ws c = true) by by destruct Hg as [-> | ->]. rewrite E. cbn [tail]. apply wp_bind.
    eapply wp_flush; [apply Hr|exact Hsh|exact Hcl|]. intros f' out' s' Hc Hsh'. change (0 =? 0) with true. by apply wp_ret, HQ.
  - change (at0 (c :: rest)) with c. unfold ordinary in Hg. repeat (apply not_elem_of_cons in Hg as [? Hg]). split; [done|].
    unfold ifs_ws, glob_meta. zdecide. cbn [orb andb tail]. by apply Hput.
  - destruct Hg as [Hg _]. change (at0 (92 :: _)) with 92. split; [done|]. cbn [tail]. change (at0 (c :: rest)) with c. unfold ifs_ws. zdecide. cbn [orb]. by apply Hput.
  - change (at0 (39 :: _)) with 39. split; [done|]. cbn [tail]. unfold ifs_ws. zdecide. cbn [orb]. rewrite <- app_assoc. cbn [app].
    apply wp_bind. eapply wp_sq; [apply Hg|done|apply shows_open; exact Hsh|]. intros f' s' Hc Hsh'. by apply wp_ret, HQ.
  - change (at0 (34 :: _)) with 34. split; [done|]. cbn [tail]. unfold ifs_ws. zdecide. cbn [orb]. rewrite <- app_assoc. cbn [app].
    apply wp_bind. eapply wp_dq; [exact Hg| |done|apply shows_open; exact Hsh|].
    + pose proof (length_dparts l). cbn [length]. rewrite length_app. lia.
    + intros f' s' Hc Hsh'. by apply wp_ret, HQ.
  - destruct Hg as [Hx H0]. change (at0 (36 :: _)) with 36. split; [done|]. cbn [tail]. unfold ifs_ws. zdecide. cbn [orb].
    apply wp_bind. eapply wp_read_var; [done|done|]. intros val s1 Hc1 Hval. change (0 =? -2) with false. cbn match.
    apply wp_bind, wp_ret. unfold splice. change (0 =? 0) with true. cbn [negb]. unfold fld_expand_text. cbn [negb]. apply wp_bind.
    rewrite Hval. eapply wp_split; [|apply Hc1|exact Hsh|].
    + eapply Forall_impl; [|exact H0]. by intros c [].
    + intros f' out' s2 Hc2 Hsh2. apply wp_bind, wp_give; [apply Hc2|]. intros s3 Hc3. change (0 =? 0) with true. apply wp_ret, HQ; [calm_chain|exact Hsh2].
Qed.

Lemma wp_expand_loop gs : Forall seg_ok gs -> forall k f out a s (Q : Z * wlist -> wst -> Prop), (length gs < k)%nat -> ready s ->
  shows f out a -> clean a ->
  (forall out' s', calm s s' -> wv out' = f_words (ev_run ((gs ≫= seg_ev) ++ [Sep]) a) -> Q (0, out') s') ->
  wp (expand_loop k (gs ≫= seg_text) f out) s Q.
Proof.
  induction 1 as [|g gs Hg _ IH]; intros k f out a s Q Hk Hr Hsh Hcl HQ; (destruct k as [|k]; [cbn in Hk; lia|]); cbn [expand_loop].
  - change (at0 _) with 0. change (0 =? 0) with true. apply wp_bind. eapply wp_flush; [apply Hr|exact Hsh|exact Hcl|].
    intros f' out' s' Hc [_ _ Hw _]. change (0 =? 0) with true. cbn [negb]. apply wp_bind, wp_give; [apply Hc|]. intros s2 Hc2.
    apply wp_ret, HQ; [calm_chain|done].
  - change ((g :: gs) ≫= seg_text) with (seg_text g ++ (gs ≫= seg_text)).
    edestruct (wp_seg g (gs ≫= seg_text) f out a s) as [H0 Hwp]; [done|done|exact Hsh|exact Hcl| |].
    2:{ zdecide. apply wp_bind. exact Hwp. }
    intros f' out' s' Hc Hsh'. change (0 =? 0) with true. cbn [negb].
    eapply IH; [cbn in Hk; lia|by eapply ready_calm|exact Hsh'|by apply clean_run|]. intros out2 s2 Hc2 Hw. apply HQ; [calm_chain|].
    change ((g :: gs) ≫= seg_ev) with (seg_ev g ++ (gs ≫= seg_ev)). unfold ev_run in *. rewrite <- app_assoc, foldl_app. exact Hw.
Qed.

Lemma length_segs gs : (length gs <= length (gs ≫= seg_text))%nat.
Proof.
  induction gs as [|g gs IH]; [done|]. change ((g :: gs) ≫= seg_text) with (seg_text g ++ (gs ≫= seg_text)). rewrite length_app. cbn [length].
  assert (1 <= length (seg_text g))%nat by (destruct g; cbn; lia). lia.
Qed.

(** C25: [wordexp] yields the fields of the shell's rules (with the default
    IFS) on a text made of spaces and tabs; characters without a meaning of their
    own outside quotes (no wildcard, tilde or operator); escaped characters other
    than a newline; single quotes; double quotes, in which the four special
    characters are escaped; and expansions [${NAME}], [${#NAME}], [${NAME-word}],
    [${NAME:-word}] and [$((expression))], where names are shorter than 127
    characters, the word is of plain characters and blanks, word and expression
    are at most 255 characters, the expression has a value, and an unquoted value
    has no wildcard.  Quoted text is taken as it is and starts a field even when
    it is empty, the values of the expansions are inserted, and those outside
    quotes are split at their blanks; the vector has the reserved slots (at most
    4096) in front and a null pointer at the end, and the environment is
    unchanged.  The flags are WRDE_DOOFFS, WRDE_NOCMD and WRDE_SHOWERR, and every
    allocation is granted. *)
Theorem wordexp_fields gs we s :
  Forall seg_ok gs -> ready s -> WRDE_APPEND flags = false -> WRDE_REUSE flags = false ->
  (WRDE_DOOFFS flags = true -> we_offs we <= 4096) ->
  let words := fields (gs ≫= seg_ev) in
  let offs := if WRDE_DOOFFS flags then we_offs we else 0 in
  exists s', wordexp (Some (gs ≫= seg_text)) (Some we) s =
    Some ((0, Some (We (Z.of_nat (length words)) (Some (replicate (Z.to_nat offs) None ++ (Some <$> words) ++ [None])) offs)), s') /\
    wenv s' = wenv s.
Proof.
  intros Hgs Hr Happ Hre Hoffs words offs.
  enough (Hwp : wp (wordexp (Some (gs ≫= seg_text)) (Some we)) s (fun r s' =>
    r = (0, Some (We (Z.of_nat (length words)) (Some (replicate (Z.to_nat offs) None ++ (Some <$> words) ++ [None])) offs)) /\ wenv s' = wenv s))
    by (apply wp_total in Hwp as (r & s' & E & -> & ?); eauto).
  unfold wordexp. cbn [default from_option id]. apply wp_bind. unfold expand.
  eapply (wp_expand_loop gs Hgs); [pose proof (length_segs gs); lia|done|by apply (Build_shows _ _ (Fs false [] []))|done|].
  intros out s1 Hc1 Hw. change (0 =? 0) with true. cbn [negb]. rewrite Happ, Hre. cbn [andb]. apply wp_bind, wp_ret.
  cbn [default from_option id]. fold offs.
  assert (Ho : offs <= 4096) by (unfold offs; destruct (WRDE_DOOFFS flags); [by apply Hoffs|lia]).
  rewrite Z.gtb_ltb. zdecide. apply wp_bind, wp_walloc; [apply Hc1|]. intros s2 Hc2. cbn [negb].
  apply wp_bind, wp_give; [apply Hc2|]. intros s3 Hc3. apply wp_ret. fold (fields (gs ≫= seg_ev)) in Hw. fold words in Hw.
  rewrite Hw. split; [done|]. assert (Hc : calm s s3) by calm_chain. apply Hc.
Qed.
End Reading.
End Files.
End Expansion.
(** ** Runs *)

Definition no_wflags : wflags := Wf false false false false false false.

(** [N] is [a b]. *)
Definition env_n : Env.env := Env.MkEnv (Some [[78; 61; 97; 32; 98]]) false.

Definition w0 : wst := W io0 env_n.

(** [wordexp] without commands, in the file system of [Glob]. *)
Definition try_wordexp (flags : wflags) (text : str) (we : wordexp_t) : option (Z * option wordexp_t * wst) :=
  wordexp (Knl := Glob.sample_fs) (Sta := Glob.sample_stat) 7 (fun _ => None) flags 10 (Some text) (Some we) w0.

Definition empty_we : wordexp_t := We 0 None 0.

Definition outcome (r : option (Z * option wordexp_t * wst)) : option (Z * option (list (option str)) * Z) :=
  '(c, we, s) ← r; Some (c, we ≫= we_wordv, live (wio s)).

(** [x${N} "$N" '' $((1+2))]. *)
Definition sample_text : list seg :=
  [Plain 120; Exp (Param [78]); Blank 32; Double [DExp (Param [78])]; Blank 32; Single []; Blank 32;
   Exp (Math (ArithExp.Bin ArithExp.Add (ArithExp.Lit ArithExp.Dec 1) (ArithExp.Lit ArithExp.Dec 2)))].

Lemma sample_text_ok : Forall (seg_ok env_n) sample_text.
Proof.
  assert (Hn : name_ok [78]) by (split_and!; [done|by repeat constructor|cbn; lia]).
  repeat constructor; try exact Hn; try (apply not_elem_of_cons; split; [done|]); try apply not_elem_of_nil; try (cbn; lia); try done;
    repeat (apply not_elem_of_cons; split; [vm_compute; done|]); try apply not_elem_of_nil; cbn; try lia; eauto.
Qed.

Lemma wordexp_fields_witness :
  fields (sample_text ≫= seg_ev env_n) = [[120; 97]; [98]; [97; 32; 98]; []; [51]] /\
  exists s', wordexp (Knl := Glob.sample_fs) (Sta := Glob.sample_stat) 7 (fun _ => None) no_wflags 10
      (Some (sample_text ≫= seg_text)) (Some empty_we) w0 =
    Some ((0, Some (We 5 (Some [Some [120; 97]; Some [98]; Some [97; 32; 98]; Some []; Some [51]; None]) 0)), s') /\ wenv s' = wenv w0.
Proof.
  split; [by vm_compute|].
  exact (wordexp_fields (Knl := Glob.sample_fs) (Sta := Glob.sample_stat) 7 (fun _ => None) no_wflags 10 env_n eq_refl sample_text empty_we w0
    sample_text_ok (conj (fun _ => eq_refl) eq_refl) eq_refl eq_refl (fun H => match Bool.diff_false_true H with end)).
Defined.

(** [a.b.c] cut by [*.] at its front, longest: [c]. *)
Lemma remove_part_optimal_witness :
  remove_part 35 true [42; 46] [97; 46; 98; 46; 99] = Some [99] /\
  exists r, remove_part 35 true [42; 46] [97; 46; 98; 46; 99] = Some r /\
    ((r = [97; 46; 98; 46; 99] /\ forall j, (j <= 5)%nat -> ~ part_matches 35 [42; 46] [97; 46; 98; 46; 99] j) \/
     (exists k, (k <= 5)%nat /\ part_matches 35 [42; 46] [97; 46; 98; 46; 99] k /\
        (forall j, (j <= 5)%nat -> part_matches 35 [42; 46] [97; 46; 98; 46; 99] j -> (j <= k)%nat) /\
        [97; 46; 98; 46; 99] = part 35 [97; 46; 98; 46; 99] k ++ r)).
Proof.
  split; [by vm_compute|].
  apply (remove_part_optimal 35 true [42; 46] [97; 46; 98; 46; 99]); repeat constructor.
Defined.

(** [$((] with 254 blanks and [12))]: the body is cut at 255 characters, and the value is 1. *)
Theorem long_arithmetic_truncated :
  outcome (try_wordexp no_wflags ([36; 40; 40] ++ replicate 254 32 ++ [49; 50; 41; 41]) empty_we) = Some (0, Some [Some [49]; None], 2).
Proof. by vm_compute. Qed.

(** [${N] without its closing brace: the text is read past its end. *)
Theorem unclosed_brace_overruns : try_wordexp no_wflags [36; 123; 78] empty_we = None.
Proof. by vm_compute. Qed.

(** [a'b]: the syntax error leaves the field's buffer allocated. *)
Theorem syntax_error_leaks : outcome (try_wordexp no_wflags [97; 39; 98] empty_we) = Some (WRDE_SYNTAX, None, 1).
Proof. by vm_compute. Qed.

(** An appending call that fails frees the caller's vector, which the caller's structure still points at. *)
Theorem failed_append_frees_vector :
  let we := We 1 (Some (replicate 5000 None ++ [Some [97]; None])) 5000 in
  match try_wordexp (Wf true true false false false false) [98] we with
  | Some (r, Some we', s) => r = WRDE_NOSPACE /\ we_wordv we' = we_wordv we /\ live (wio s) = live (wio w0) - 1
  | _ => False
  end.
Proof. vm_compute. done. Qed.

(** [?${M:- b}] in a directory with [d] and [f]: the field that the split ends is not matched against the files. *)
Theorem split_field_not_matched :
  outcome (try_wordexp no_wflags [63; 36; 123; 77; 58; 45; 32; 98; 125] empty_we) = Some (0, Some [Some [63]; Some [98]; None], 3) /\
  outcome (try_wordexp no_wflags [63; 32; 98] empty_we) = Some (0, Some [Some [100]; Some [102]; Some [98]; None], 4).
Proof. by vm_compute. Qed.

(** ['?'*]: the quoted question mark is matched as a wildcard. *)
Theorem quoted_wildcard_matches :
  outcome (try_wordexp no_wflags [39; 63; 39; 42] empty_we) = Some (0, Some [Some [100]; Some [102]; None], 3).
Proof. by vm_compute. Qed.

(** A backslash before a newline is dropped and the newline kept, where the
    shell joins the lines. *)
Theorem escaped_newline_kept : outcome (try_wordexp no_wflags [97; 92; 10; 98] empty_we) = Some (0, Some [Some [97; 10; 98]; None], 2).
Proof. by vm_compute. Qed.

(** [${M:-$N}]: the word of a default is not expanded. *)
Theorem default_word_not_expanded :
  outcome (try_wordexp no_wflags [36; 123; 77; 58; 45; 36; 78; 125] empty_we) = Some (0, Some [Some [36; 78]; None], 2).
Proof. by vm_compute. Qed.

(** [${M:-?}] in the same directory: a wildcard that comes from an expansion is
    not matched against the files. *)
Theorem value_wildcard_not_matched :
  outcome (try_wordexp no_wflags [36; 123; 77; 58; 45; 63; 125] empty_we) = Some (0, Some [Some [63]; None], 2).
Proof. by vm_compute. Qed.

(** [a;b|c]: an unquoted operator, for which WRDE_BADCHAR is documented, is an
    ordinary character. *)
Theorem operators_accepted : outcome (try_wordexp no_wflags [97; 59; 98; 124; 99] empty_we) = Some (0, Some [Some [97; 59; 98; 124; 99]; None], 2).
Proof. by vm_compute. Qed.
End Wordexp.
