(* ===== verification/Dlfcn.v ===== *)
(** * Dlfcn: loading objects at run time, src/dlfcn.c

    The table of mapped objects, symbol lookup in one object and along the
    scopes (the object, its dependencies, the shared objects, the global ones of
    the namespace), relocation, mapping and registering an object with its
    dependencies, and the entry points.  The process memory and the static TLS
    layout are those of [TlsStatic]; the files and the success of [mmap] are
    the class [Loader].  Names are kept as text.  Initialisers are recorded by
    address in the order they are called. *)

From Stdlib Require Import ZArith Lia Bool String Ascii.
From stdpp Require Import base gmap list numbers.
From S2P Require Import Prelude Monad Memory TlsLayout TlsStatic.

Module Dlfcn.
Import TlsStatic.

Abbreviation str := (list Z).

(** A C string literal. *)
Definition txt (t : string) : str := (fun a => Z.of_N (N_of_ascii a)) <$> list_ascii_of_string t.

Definition CACT_DL_MAX_OBJECTS : nat := 8.
Definition CACT_DL_MAX_PHDRS : nat := 16.
Definition CACT_DL_NO_TLS : Z := 4294967295.
Definition DL_MAX_SEGS : nat := 6.
Definition DL_MAX_NS : nat := 16.
Definition LM_ID_BASE : Z := 0.
Definition LM_ID_NEWLM : Z := -1.

Record Elf32_Phdr := Phdr {
  p_type : Z; p_offset : Z; p_vaddr : Z; p_paddr : Z; p_filesz : Z; p_memsz : Z; p_flags : Z; p_align : Z
}.

Record Elf32_Sym := Sym { st_name : Z; st_value : Z; st_size : Z; st_info : Z; st_other : Z; st_shndx : Z }.

Record cact_dl_object_t := Obj {
  name : option str; dyn : Z; dynsz : Z; symtab : Z; strtab : Z; symcount : Z; strsz : Z; phdrs : list Elf32_Phdr;
  base : Z; size : Z; pinned : bool; global : bool; refs : Z; ns : Z; tls_off : Z; tls_modid : Z
}.

Definition no_object : cact_dl_object_t := Obj None 0 0 0 0 0 0 [] 0 0 false false 0 0 0 0.

(** [segs] are the mappings to undo, [deps] indices into the table. *)
Record dl_loaded := Ld { path : str; segs : list (Z * Z); deps : list nat }.

(** An entry of the chain [dlinfo] hands out; the links are indices. *)
Record link_map := Lm { l_addr : Z; l_name : option str; l_ld : Z; l_prev : option nat; l_next : option nat }.

Record dl := Dl {
  count : nat; objs : list cact_dl_object_t; loads : list dl_loaded; ns_used : list bool;
  proc : tls; dlerr : str; dlerr_set : bool; calls : list Z; lms : list link_map
}.

Definition obj (s : dl) (i : nat) : cact_dl_object_t := default no_object (objs s !! i).
Definition load (s : dl) (i : nat) : dl_loaded := default (Ld [] [] []) (loads s !! i).

Definition set_count (k : nat) (s : dl) : dl := Dl k (objs s) (loads s) (ns_used s) (proc s) (dlerr s) (dlerr_set s) (calls s) (lms s).
Definition set_obj (i : nat) (o : cact_dl_object_t) (s : dl) : dl :=
  Dl (count s) (<[i := o]> (objs s)) (loads s) (ns_used s) (proc s) (dlerr s) (dlerr_set s) (calls s) (lms s).
Definition set_load (i : nat) (l : dl_loaded) (s : dl) : dl :=
  Dl (count s) (objs s) (<[i := l]> (loads s)) (ns_used s) (proc s) (dlerr s) (dlerr_set s) (calls s) (lms s).
Definition set_ns_used (l : list bool) (s : dl) : dl := Dl (count s) (objs s) (loads s) l (proc s) (dlerr s) (dlerr_set s) (calls s) (lms s).
Definition set_proc (p : tls) (s : dl) : dl := Dl (count s) (objs s) (loads s) (ns_used s) p (dlerr s) (dlerr_set s) (calls s) (lms s).
Definition set_err (e : str) (b : bool) (s : dl) : dl := Dl (count s) (objs s) (loads s) (ns_used s) (proc s) e b (calls s) (lms s).
Definition set_lms (l : list link_map) (s : dl) : dl :=
  Dl (count s) (objs s) (loads s) (ns_used s) (proc s) (dlerr s) (dlerr_set s) (calls s) l.
Definition add_call (f : Z) (s : dl) : dl := Dl (count s) (objs s) (loads s) (ns_used s) (proc s) (dlerr s) (dlerr_set s) (calls s ++ [f]) (lms s).

Definition on_tls {A} (c : St tls A) : St dl A :=
  fun s => match c (proc s) with Some (a, p) => Some (a, set_proc p s) | None => None end.

Definition on_mem {A} (c : M A) : St dl A := on_tls (TlsStatic.on_mem c).

(** ** Error text *)

Definition dl_err (msg : str) : St dl unit := modify (set_err (take 127 msg) true).
Definition dl_errf (a b : str) : St dl unit := modify (set_err (take 127 (a ++ b)) true).

Definition dlerror : St dl (option str) :=
  let* b := gets dlerr_set in
  if negb b then ret None
  else let* e := gets dlerr in let* _ := modify (fun s => set_err e false s) in ret (Some e).

(** ** Reading memory *)

Definition load16 (p : Z) : M Z := let* a := load8 p in let* b := load8 (p + 1) in ret (a + 2 ^ 8 * b).
Definition load32 (p : Z) : M Z := let* a := load16 p in let* b := load16 (p + 2) in ret (a + 2 ^ 16 * b).

(** [strcmp] of the string at [p] with a text: are they equal? *)
Fixpoint str_eq_at (p : Z) (t : str) : M bool :=
  match t with
  | [] => let* c := load8 p in ret (c =? 0)
  | x :: t => let* c := load8 p in if c =? x then str_eq_at (p + 1) t else ret false
  end.

(** The string at [p], of less than [fuel] characters. *)
Fixpoint str_at (fuel : nat) (p : Z) : M str :=
  match fuel with
  | O => fault
  | S fuel => let* c := load8 p in if c =? 0 then ret [] else let* t := str_at fuel (p + 1) in ret (c :: t)
  end.

Definition sym_at (symtab j : Z) : M Elf32_Sym :=
  let p := symtab + 16 * j in
  let* n := load32 p in let* v := load32 (p + 4) in let* z := load32 (p + 8) in
  let* i := load8 (p + 12) in let* o := load8 (p + 13) in let* x := load16 (p + 14) in
  ret (Sym n v z i o x).

Definition ELF32_ST_BIND (i : Z) : Z := Z.shiftr i 4.
Definition ELF32_ST_TYPE (i : Z) : Z := Z.land i 15.
Definition SHN_UNDEF : Z := 0.
Definition STB_GLOBAL : Z := 1.
Definition STB_WEAK : Z := 2.
Definition STT_TLS : Z := 6.

(** ** Helpers *)

Definition overlaps (a asz b bsz : Z) : bool := (a <? b + bsz) && (b <? a + asz).

Fixpoint find_from (P : cact_dl_object_t -> bool) (k i : nat) (l : list cact_dl_object_t) : option nat :=
  match k, l with
  | S k, o :: l => if P o then Some i else find_from P k (S i) l
  | _, _ => None
  end.

(** The index of the first registered object that satisfies [P]. *)
Definition find_obj (P : cact_dl_object_t -> bool) (s : dl) : option nat := find_from P (count s) 0 (objs s).

Definition named (t : str) (o : cact_dl_object_t) : bool := bool_decide (name o = Some t).
Definition has_name (o : cact_dl_object_t) : bool := match name o with Some _ => true | None => false end.

Definition dl_find_in (t : str) (n : Z) (s : dl) : option nat := find_obj (fun o => (ns o =? n) && named t o) s.
Definition dl_find_pinned (t : str) (s : dl) : option nat := find_obj (fun o => pinned o && named t o) s.

(** The chain from [ci] on to the end mark, at most 8192 words. *)
Fixpoint chain_end (guard : nat) (chains symoffset ci : Z) : M (option Z) :=
  match guard with
  | O => ret None
  | S guard =>
      let* w := load32 (chains + 4 * ci) in
      if negb (Z.land w 1 =? 0) then ret (Some (u32 (symoffset + ci + 1))) else chain_end guard chains symoffset (u32 (ci + 1))
  end.

Fixpoint max_bucket (n : nat) (p m : Z) : M Z :=
  match n with
  | O => ret m
  | S n => let* b := load32 p in max_bucket n (p + 4) (if b >? m then b else m)
  end.

Definition dl_symcount (hash gnu_hash symtab : Z) : M Z :=
  if symtab =? 0 then ret 0
  else if negb (hash =? 0) then load32 (hash + 4)
  else if negb (gnu_hash =? 0) then
    let* nbuckets := load32 gnu_hash in
    let* symoffset := load32 (gnu_hash + 4) in
    let* bloom := load32 (gnu_hash + 8) in
    let bloom := if bloom >? 1024 then 1024 else bloom in
    if nbuckets =? 0 then ret 0
    else
      let buckets := gnu_hash + 16 + 4 * bloom in
      let* max_b := max_bucket (Z.to_nat nbuckets) buckets 0 in
      if max_b <? symoffset then ret symoffset
      else
        let* r := chain_end 8192 (buckets + 4 * nbuckets) symoffset (max_b - symoffset) in
        ret (default (u32 (symoffset + 8192)) r)
  else ret 4096.

(** ** Lookup *)

(** What a symbol of the table answers for a name; 0 when it is not the one. *)
Definition sym_answer (o : cact_dl_object_t) (t : str) (j : Z) : M Z :=
  let* sym := sym_at (symtab o) j in
  if st_shndx sym =? SHN_UNDEF then ret 0
  else if negb (ELF32_ST_BIND (st_info sym) =? STB_GLOBAL) && negb (ELF32_ST_BIND (st_info sym) =? STB_WEAK) then ret 0
  else if st_value sym =? 0 then ret 0
  else if st_name sym >=? strsz o then ret 0
  else let* e := str_eq_at (strtab o + st_name sym) t in ret (if (e : bool) then st_value sym else 0).

Fixpoint lookup_loop (n : nat) (o : cact_dl_object_t) (t : str) (j : Z) : M Z :=
  match n with
  | O => ret 0
  | S n => let* v := sym_answer o t j in if negb (v =? 0) then ret v else lookup_loop n o t (j + 1)
  end.

Definition dl_lookup_in (o : cact_dl_object_t) (t : str) : M Z :=
  if negb (has_name o) || (symtab o =? 0) || (strtab o =? 0) then ret 0
  else lookup_loop (Z.to_nat (symcount o - 1)) o t 1.

(** A value with the index of the object that defines it. *)
Definition hit : Type := Z * nat.

(** The first hit of a sequence of searches. *)
Fixpoint first_hit (l : list (St dl (option hit))) : St dl (option hit) :=
  match l with
  | [] => ret None
  | c :: l => let* r := c in match r with Some h => ret (Some h) | None => first_hit l end
  end.

Definition look (i : nat) (t : str) : St dl (option hit) :=
  let* o := gets (fun s => obj s i) in
  let* v := on_mem (dl_lookup_in o t) in
  ret (if v =? 0 then None else Some (v, i)).

(** Is the object in the scope of a search from namespace [n]? *)
Definition in_scope (n : Z) (o : cact_dl_object_t) : bool := has_name o && (pinned o || (global o && (ns o =? n))).

(** The registered objects in scope, in order. *)
Definition scope (n : Z) (s : dl) : list nat := filter (fun i => in_scope n (obj s i)) (seq 0 (count s)).

(** [k] is 5 less the depth; the search without an object is [None]. *)
Fixpoint dl_resolve_depth (k : nat) (self : option nat) (t : str) : St dl (option hit) :=
  match k with
  | O => ret None
  | S k =>
      let* s := gets id in
      let n := match self with Some i => ns (obj s i) | None => LM_ID_BASE end in
      first_hit
        (match self with
         | Some i =>
             (if has_name (obj s i) then [look i t] else []) ++
             ((fun d => dl_resolve_depth k (Some d) t) <$> filter (fun d => d <> i) (deps (load s i)))
         | None => []
         end ++
         ((fun i => look i t) <$> filter (fun i => Some i <> self) (scope n s)))
  end.

Definition dl_resolve (self : nat) (t : str) : St dl Z :=
  let* r := dl_resolve_depth 5 (Some self) t in ret (default 0 (fst <$> r)).

Definition dl_lookup_global (t : str) : St dl Z :=
  let* s := gets id in
  let idx := scope LM_ID_BASE s in
  let* r := first_hit (((fun i => look i t) <$> idx) ++ ((fun d => look d t) <$> (idx ≫= fun i => deps (load s i)))) in
  ret (default 0 (fst <$> r)).
(** ** Relocation *)

Definition R_386_NONE : Z := 0.
Definition R_386_32 : Z := 1.
Definition R_386_PC32 : Z := 2.
Definition R_386_COPY : Z := 5.
Definition R_386_GLOB_DAT : Z := 6.
Definition R_386_JMP_SLOT : Z := 7.
Definition R_386_RELATIVE : Z := 8.
Definition R_386_TLS_TPOFF : Z := 14.
Definition R_386_TLS_DTPMOD32 : Z := 35.
Definition R_386_TLS_DTPOFF32 : Z := 36.
Definition R_386_TLS_TPOFF32 : Z := 37.

Definition ELF32_R_SYM (i : Z) : Z := Z.shiftr i 8.
Definition ELF32_R_TYPE (i : Z) : Z := u8 i.

Definition msg_tls : str := txt "unsupported TLS relocation in this object".

(** The value of the relocation's symbol and the object that defines it; [None]
    is an undefined symbol that is not weak. *)
Definition reloc_symbol (self : nat) (si : Z) : St dl (option (Z * option nat)) :=
  let* o := gets (fun s => obj s self) in
  if negb (si =? 0) && (si <? symcount o) then
    let* sym := on_mem (sym_at (symtab o) si) in
    if st_shndx sym =? SHN_UNDEF then
      if st_name sym <? strsz o then
        let* t := on_mem (str_at (Z.to_nat (strsz o)) (strtab o + st_name sym)) in
        let* r := dl_resolve_depth 5 (Some self) t in
        match r with
        | Some (v, i) => ret (Some (v, Some i))
        | None =>
            if negb (ELF32_ST_BIND (st_info sym) =? STB_WEAK) then let* _ := dl_errf (txt "undefined symbol: ") t in ret None
            else ret (Some (0, None))
        end
      else ret (Some (0, None))
    else ret (Some (st_value sym, Some self))
  else ret (Some (0, None)).

Definition refuse : St dl Z := let* _ := dl_err msg_tls in ret (-1).

(** One entry: 0, or -1 with the error set. *)
Definition relocate (self : nat) (use_addend : bool) (r_offset r_info r_addend : Z) : St dl Z :=
  let type := ELF32_R_TYPE r_info in
  let si := ELF32_R_SYM r_info in
  let* o := gets (fun s => obj s self) in
  let* r := reloc_symbol self si in
  match r with
  | None => ret (-1)
  | Some (sv, owner) =>
      let addend := (if use_addend then ret (u32 r_addend) else on_mem (load32 r_offset)) : St dl Z in
      let put v := (let* _ := on_mem (store32 r_offset (u32 v)) in ret 0) : St dl Z in
      if type =? R_386_NONE then ret 0
      else if type =? R_386_32 then let* A := addend in put (sv + A)
      else if type =? R_386_PC32 then let* A := addend in put (sv + A - r_offset)
      else if (type =? R_386_GLOB_DAT) || (type =? R_386_JMP_SLOT) then put sv
      else if type =? R_386_RELATIVE then if use_addend then put r_addend else ret 0
      else if type =? R_386_COPY then
        if negb (sv =? 0) && (si <? symcount o) then
          let* sym := on_mem (sym_at (symtab o) si) in
          if negb (st_size sym =? 0) && (st_size sym <=? 65536) then
            let* bs := on_mem (load_bytes sv (Z.to_nat (st_size sym))) in
            let* _ := on_mem (store_bytes r_offset bs) in ret 0
          else ret 0
        else ret 0
      else if (type =? R_386_TLS_TPOFF) || (type =? R_386_TLS_TPOFF32) then
        if (si =? 0) || (symcount o <=? si) || (tls_off o =? CACT_DL_NO_TLS) then refuse
        else
          let* sym := on_mem (sym_at (symtab o) si) in
          if (st_shndx sym =? SHN_UNDEF) || negb (ELF32_ST_TYPE (st_info sym) =? STT_TLS) then refuse
          else
            let* A := addend in
            let* l := gets (fun s => lay (proc s)) in
            put (tls_off o + sv + A - TlsLayout.total l)
      else if type =? R_386_TLS_DTPMOD32 then
        match owner with
        | None => refuse
        | Some i =>
            let* d := gets (fun s => obj s i) in
            if tls_off d =? CACT_DL_NO_TLS then refuse
            else let* A := addend in put (tls_modid d + A)
        end
      else if type =? R_386_TLS_DTPOFF32 then let* A := addend in put (sv + A)
      else if (R_386_TLS_TPOFF <=? type) && (type <=? R_386_TLS_TPOFF32) then refuse
      else ret 0
  end.

Fixpoint reloc_loop (n : nat) (self : nat) (off ent : Z) (use_addend : bool) : St dl Z :=
  match n with
  | O => ret 0
  | S n =>
      let* r_offset := on_mem (load32 off) in
      let* r_info := on_mem (load32 (off + 4)) in
      let* r_addend := (if use_addend then on_mem (load32 (off + 8)) else ret 0) in
      let* r := relocate self use_addend r_offset r_info r_addend in
      if negb (r =? 0) then ret r else reloc_loop n self (off + ent) ent use_addend
  end.

Definition dl_relocs (self : nat) (addr size ent : Z) (use_addend : bool) : St dl Z :=
  if (addr =? 0) || (size =? 0) || (ent =? 0) then ret 0
  else reloc_loop (Z.to_nat (size / ent)) self addr ent use_addend.

(** ** Mapping *)

(** What a read gives: bytes (as many as there is room for; the rest comes
    later), an interruption, or an error. *)
Inductive rd := RData (bs : list Z) | RIntr | RFail.

(** The reads of an open file to its end, or [None] when it cannot be opened;
    whether a buffer of a size is granted; whether a mapping is. *)
Class Loader := {
  file_reads : str -> option (list rd);
  buf_grants : Z -> bool;
  mmap_grants : Z -> Z -> bool;
}.

Section Load.
Context `{Ldr : Loader}.

(** The loop of [dl_read_file]: the buffer doubles when it is full. *)
Fixpoint read_loop (fuel : nat) (cap : Z) (buf : list Z) (rs : list rd) : option (list Z) :=
  match fuel with
  | O => None
  | S fuel =>
      let full := Z.of_nat (length buf) =? cap in
      let cap2 := if full then u32 (cap * 2) else cap in
      if full && negb (buf_grants cap2) then None
      else
        match rs with
        | [] | RData [] :: _ => Some buf
        | RIntr :: rs => read_loop fuel cap2 buf rs
        | RFail :: _ => None
        | RData bs :: rs =>
            let room := Z.to_nat (cap2 - Z.of_nat (length buf)) in
            read_loop fuel cap2 (buf ++ take room bs) (match drop room bs with [] => rs | rest => RData rest :: rs end)
        end
  end.

(** More than the number of reads the loop can make. *)
Definition read_fuel (rs : list rd) : nat :=
  S (foldr (fun r n => match r with RData bs => 1 + length bs | _ => 1 end + n)%nat 0%nat rs).

Definition dl_read_file (p : str) : option (list Z) :=
  match file_reads p with
  | None => None
  | Some rs => if buf_grants 65536 then read_loop (read_fuel rs) 65536 [] rs else None
  end.

Definition usr_lib : str := [47; 117; 115; 114; 47; 108; 105; 98; 47].

(** The path, in a buffer of 256. *)
Definition dl_path_for (t : str) : str := take 255 (if bool_decide (47 ∈ t) then t else usr_lib ++ t).

(** A little-endian field of the file; [None] is a read past it. *)
Definition field (f : list Z) (w : nat) (off : Z) : option Z :=
  let bs := take w (drop (Z.to_nat off) f) in
  if (length bs =? w)%nat && (0 <=? off) then Some (foldr (fun b v => b + 256 * v) 0 bs) else None.

Definition lift {A} (o : option A) : St dl A := fun s => match o with Some a => Some (a, s) | None => None end.

Definition phdr_at (f : list Z) (phoff : Z) (i : nat) : option Elf32_Phdr :=
  let p := phoff + 32 * Z.of_nat i in
  a ← field f 4 p; b ← field f 4 (p + 4); c ← field f 4 (p + 8); d ← field f 4 (p + 12);
  e ← field f 4 (p + 16); g ← field f 4 (p + 20); h ← field f 4 (p + 24); k ← field f 4 (p + 28);
  Some (Phdr a b c d e g h k).

Definition PT_LOAD : Z := 1.
Definition PT_DYNAMIC : Z := 2.
Definition PT_TLS : Z := 7.

Definition page_down (v : Z) : Z := Z.land (u32 v) 4294963200.
Definition loadable (p : Elf32_Phdr) : bool := (p_type p =? PT_LOAD) && negb (p_memsz p =? 0).
Definition seg_lo (p : Elf32_Phdr) : Z := page_down (p_vaddr p).
Definition seg_hi (p : Elf32_Phdr) : Z := page_down (p_vaddr p + p_memsz p + 4095).

(** The span of the loadable segments. *)
Definition span (ph : list Elf32_Phdr) : Z * Z :=
  foldl (fun '(lo, hi) p =>
    if loadable p then ((if (lo =? 0) || (seg_lo p <? lo) then seg_lo p else lo), (if seg_hi p >? hi then seg_hi p else hi))
    else (lo, hi)) (0, 0) ph.

(** Mapping zeroed pages over a range, and removing a range. *)
Fixpoint zero_pages (n : nat) (p : Z) (m : mem) : mem := match n with O => m | S n => <[p := 0]> (zero_pages n (p + 1) m) end.
Fixpoint drop_pages (n : nat) (p : Z) (m : mem) : mem := match n with O => m | S n => delete p (drop_pages n (p + 1) m) end.

Definition edit_mem (f : mem -> mem) : St dl unit := on_mem (fun m => Some (tt, f m)).

Definition munmap (g : Z * Z) : St dl unit := edit_mem (drop_pages (Z.to_nat g.2) g.1).

(** The loop that maps and copies; the segments mapped so far come back with the
    status, and with the dynamic and TLS headers seen. *)
Record mapping := Mapping { mapped : list (Z * Z); m_dyn : Z; m_dynsz : Z; m_tls : option Elf32_Phdr }.

Definition map_one (where_ : str) (f : list Z) (p : Elf32_Phdr) (m : mapping) : St dl (bool * mapping) :=
  if p_type p =? PT_DYNAMIC then ret (true, Mapping (mapped m) (p_vaddr p) (p_filesz p) (m_tls m))
  else if p_type p =? PT_TLS then ret (true, Mapping (mapped m) (m_dyn m) (m_dynsz m) (Some p))
  else if negb (loadable p) then ret (true, m)
  else if (DL_MAX_SEGS <=? length (mapped m))%nat then let* _ := dl_errf (txt "too many segments: ") where_ in ret (false, m)
  else
    let va := seg_lo p in
    let sz := u32 (seg_hi p - va) in
    if negb (mmap_grants va sz) then let* _ := dl_errf (txt "mmap failed: ") where_ in ret (false, m)
    else
      let* _ := edit_mem (zero_pages (Z.to_nat sz) va) in
      let m := Mapping (mapped m ++ [(va, sz)]) (m_dyn m) (m_dynsz m) (m_tls m) in
      if p_filesz p =? 0 then ret (true, m)
      else if u32 (p_offset p + p_filesz p) >? Z.of_nat (length f) then let* _ := dl_errf (txt "truncated segment: ") where_ in ret (false, m)
      else
        let bs := take (Z.to_nat (p_filesz p)) (drop (Z.to_nat (p_offset p)) f) in
        if (length bs =? Z.to_nat (p_filesz p))%nat then let* _ := on_mem (store_bytes (p_vaddr p) bs) in ret (true, m)
        else fault.

Fixpoint map_segs (where_ : str) (f : list Z) (ph : list Elf32_Phdr) (m : mapping) : St dl (bool * mapping) :=
  match ph with
  | [] => ret (true, m)
  | p :: ph => let* (ok, m) := map_one where_ f p m in if (ok : bool) then map_segs where_ f ph m else ret (false, m)
  end.
(** *** The dynamic section *)

Record dynamic := Dyn {
  d_symtab : Z; d_strtab : Z; d_strsz : Z; d_hash : Z; d_gnu_hash : Z; d_soname : option Z;
  d_rel : Z; d_relsz : Z; d_relent : Z; d_rela : Z; d_relasz : Z; d_relaent : Z;
  d_jmprel : Z; d_pltrelsz : Z; d_pltrel : Z; d_init : Z; d_init_array : Z; d_init_arraysz : Z; d_needed : list Z
}.

Definition DT_RELA : Z := 7.
Definition DT_REL : Z := 17.

Definition dyn0 : dynamic := Dyn 0 0 0 0 0 None 0 0 8 0 0 12 0 0 DT_REL 0 0 0 [].

(** One entry, by its tag. *)
Definition dyn_entry (tag v : Z) (d : dynamic) : dynamic :=
  let 'Dyn sy st sz ha gh so re rs rt ra rz rn jm jz pl ini ia iz ne := d in
  if tag =? 6 then Dyn v st sz ha gh so re rs rt ra rz rn jm jz pl ini ia iz ne
  else if tag =? 5 then Dyn sy v sz ha gh so re rs rt ra rz rn jm jz pl ini ia iz ne
  else if tag =? 10 then Dyn sy st v ha gh so re rs rt ra rz rn jm jz pl ini ia iz ne
  else if tag =? 4 then Dyn sy st sz v gh so re rs rt ra rz rn jm jz pl ini ia iz ne
  else if tag =? 1879047925 then Dyn sy st sz ha v so re rs rt ra rz rn jm jz pl ini ia iz ne
  else if tag =? 14 then Dyn sy st sz ha gh (if v =? 4294967295 then None else Some v) re rs rt ra rz rn jm jz pl ini ia iz ne
  else if tag =? 17 then Dyn sy st sz ha gh so v rs rt ra rz rn jm jz pl ini ia iz ne
  else if tag =? 18 then Dyn sy st sz ha gh so re v rt ra rz rn jm jz pl ini ia iz ne
  else if tag =? 19 then Dyn sy st sz ha gh so re rs v ra rz rn jm jz pl ini ia iz ne
  else if tag =? 7 then Dyn sy st sz ha gh so re rs rt v rz rn jm jz pl ini ia iz ne
  else if tag =? 8 then Dyn sy st sz ha gh so re rs rt ra v rn jm jz pl ini ia iz ne
  else if tag =? 9 then Dyn sy st sz ha gh so re rs rt ra rz v jm jz pl ini ia iz ne
  else if tag =? 23 then Dyn sy st sz ha gh so re rs rt ra rz rn v jz pl ini ia iz ne
  else if tag =? 2 then Dyn sy st sz ha gh so re rs rt ra rz rn jm v pl ini ia iz ne
  else if tag =? 20 then Dyn sy st sz ha gh so re rs rt ra rz rn jm jz v ini ia iz ne
  else if tag =? 12 then Dyn sy st sz ha gh so re rs rt ra rz rn jm jz pl v ia iz ne
  else if tag =? 25 then Dyn sy st sz ha gh so re rs rt ra rz rn jm jz pl ini v iz ne
  else if tag =? 27 then Dyn sy st sz ha gh so re rs rt ra rz rn jm jz pl ini ia v ne
  else if tag =? 1 then Dyn sy st sz ha gh so re rs rt ra rz rn jm jz pl ini ia iz (if (length ne <? 16)%nat then ne ++ [v] else ne)
  else d.

Fixpoint walk_dynamic (n : nat) (p : Z) (d : dynamic) : M dynamic :=
  match n with
  | O => ret d
  | S n =>
      let* tag := load32 p in
      if tag =? 0 then ret d else let* v := load32 (p + 4) in walk_dynamic n (p + 8) (dyn_entry tag v d)
  end.

(** *** One object with its dependencies *)

(** The initialisers that are not null, in order. *)
Fixpoint init_loop (n : nat) (p : Z) : St dl unit :=
  match n with
  | O => ret tt
  | S n =>
      let* f := on_mem (load32 p) in
      let* _ := (if f =? 0 then ret tt else modify (add_call f)) in
      init_loop n (p + 4)
  end.

Definition run_inits (d : dynamic) : St dl unit :=
  let* _ := (if d_init d =? 0 then ret tt else modify (add_call (d_init d))) in
  if d_init_array d =? 0 then ret tt else init_loop (Z.to_nat (d_init_arraysz d / 4)) (d_init_array d).

Definition relocate_all (idx : nat) (d : dynamic) : St dl Z :=
  let* r := dl_relocs idx (d_rel d) (d_relsz d) (d_relent d) false in
  if negb (r =? 0) then ret r
  else
    let* r := dl_relocs idx (d_rela d) (d_relasz d) (d_relaent d) true in
    if negb (r =? 0) then ret r
    else if (d_jmprel d =? 0) || (d_pltrelsz d =? 0) then ret 0
    else if d_pltrel d =? DT_RELA then dl_relocs idx (d_jmprel d) (d_pltrelsz d) 12 true
    else dl_relocs idx (d_jmprel d) (d_pltrelsz d) 8 false.

(** The object's own TLS, once its dependencies are there. *)
Definition add_tls (idx : nat) (where_ : str) (t : option Elf32_Phdr) : St dl bool :=
  match t with
  | Some t =>
      if p_memsz t =? 0 then ret true
      else
        let* off := on_tls (cact_tls_module_add (p_vaddr t) (p_filesz t) (p_memsz t) (p_align t)) in
        if off <? 0 then let* _ := dl_errf (txt "cannot allocate memory in static TLS block: ") where_ in ret false
        else
          let* l := gets (fun s => lay (proc s)) in
          let mid := default 0 (TlsLayout.id <$> (TlsLayout.mods l !! Z.to_nat (TlsLayout.count l - 1))) in
          let* o := gets (fun s => obj s idx) in
          let* _ := modify (set_obj idx (Obj (name o) (dyn o) (dynsz o) (symtab o) (strtab o) (symcount o) (strsz o) (phdrs o)
            (base o) (size o) (pinned o) (global o) (refs o) (ns o) off mid)) in
          ret true
  | None => ret true
  end.

Definition unmap_all (gs : list (Z * Z)) : St dl unit := for_each munmap gs.

(** The label [unload]. *)
Definition unload (idx : nat) : St dl (option nat) :=
  let* o := gets (fun s => obj s idx) in
  let* _ := (if tls_off o =? CACT_DL_NO_TLS then ret tt else on_tls (cact_tls_module_drop (tls_off o))) in
  let* l := gets (fun s => load s idx) in
  let* _ := unmap_all (segs l) in
  let* _ := modify (set_load idx (Ld (path l) [] (deps l))) in
  let* o := gets (fun s => obj s idx) in
  let* _ := modify (set_obj idx (Obj None (dyn o) (dynsz o) (symtab o) (strtab o) (symcount o) (strsz o) (phdrs o)
    (base o) (size o) (pinned o) (global o) (refs o) (ns o) (tls_off o) (tls_modid o))) in
  let* _ := modify (fun s => set_count (pred (count s)) s) in
  ret None.

(** The header of the file: the program headers, or the message of a refusal. *)
Definition elf_phdrs (f : list Z) : option (string + list Elf32_Phdr) :=
  let flen := Z.of_nat (length f) in
  if flen <? 52 then Some (inl "not an ELF file: "%string)
  else
    m ← field f 4 0;
    if negb (m =? 1179403647) then Some (inl "not an ELF file: "%string)
    else
      phoff ← field f 4 28; phentsize ← field f 2 42; phnum ← field f 2 44;
      if (phentsize <? 32) || (phnum =? 0) || (u32 (phoff + phnum * phentsize) >? flen) then Some (inl "bad program headers: "%string)
      else inr <$> mapM (phdr_at f phoff) (seq 0 (Z.to_nat phnum)).

Definition collides (lo hi : Z) (s : dl) : bool :=
  existsb (fun i => let o := obj s i in has_name o && negb (size o =? 0) && overlaps lo (u32 (hi - lo)) (base o) (size o)) (seq 0 (count s)).

(** Filling the slot [idx] and counting it. *)
Definition register (idx : nat) (where_ : str) (ph : list Elf32_Phdr) (m : mapping) (lo hi : Z) (glob : bool) (n : Z) : St dl unit :=
  let* _ := modify (set_load idx (Ld where_ (mapped m) [])) in
  let* _ := modify (set_obj idx (Obj (Some where_) (m_dyn m) (m_dynsz m) 0 0 0 0 (take CACT_DL_MAX_PHDRS ph) lo (u32 (hi - lo)) false glob 1 n CACT_DL_NO_TLS 0)) in
  modify (fun s => set_count (S (count s)) s).

(** Reading the dynamic section into the slot. *)
Definition describe (idx : nat) : St dl dynamic :=
  let* o := gets (fun s => obj s idx) in
  let* d := on_mem (walk_dynamic (Z.to_nat (dynsz o / 8)) (dyn o) dyn0) in
  let* k := on_mem (dl_symcount (d_hash d) (d_gnu_hash d) (d_symtab d)) in
  let* t := (match d_soname d with
             | Some off => if negb (d_strtab d =? 0) && (off <? d_strsz d) then
                             let* t := on_mem (str_at (Z.to_nat (d_strsz d)) (d_strtab d + off)) in ret (Some t)
                           else ret (name o)
             | None => ret (name o)
             end) in
  let* _ := modify (set_obj idx (Obj t (dyn o) (dynsz o) (d_symtab d) (d_strtab d) k (d_strsz d) (phdrs o)
    (base o) (size o) (pinned o) (global o) (refs o) (ns o) (tls_off o) (tls_modid o))) in
  ret d.

(** The loop over the needed names; [rec] loads an object that is not there. *)
Fixpoint load_deps (rec : str -> St dl (option nat)) (idx : nat) (d : dynamic) (n : Z) (needed : list Z) : St dl bool :=
  match needed with
  | [] => ret true
  | off :: needed =>
      if (d_strtab d =? 0) || (d_strsz d <=? off) then load_deps rec idx d n needed
      else
        let* t := on_mem (str_at (Z.to_nat (d_strsz d)) (d_strtab d + off)) in
        let* s := gets id in
        let* dep := (match dl_find_in t n s with
                     | Some i => ret (Some i)
                     | None => match dl_find_pinned t s with Some i => ret (Some i) | None => rec t end
                     end) in
        match dep with
        | None => ret false
        | Some i =>
            let* _ := modify (fun s =>
              let l := load s idx in
              if (length (deps l) <? CACT_DL_MAX_OBJECTS)%nat then set_load idx (Ld (path l) (segs l) (deps l ++ [i])) s else s) in
            load_deps rec idx d n needed
        end
  end.

(** The index of the new object; [None] is -1 with the error set. *)
Fixpoint dl_load_one (fuel : nat) (t : str) (glob : bool) (n : Z) {struct fuel} : St dl (option nat) :=
  match fuel with
  | O => fault
  | S fuel =>
      let where_ := dl_path_for t in
      let refuse m := (let* _ := dl_errf (txt m) where_ in ret None) : St dl (option nat) in
      match dl_read_file where_ with
      | None => refuse "cannot read "%string
      | Some f =>
          let* h := lift (elf_phdrs f) in
          match h with
          | inl m => refuse m
          | inr ph =>
              let* s := gets id in
              let idx := count s in
              if (CACT_DL_MAX_OBJECTS <=? idx)%nat then let* _ := dl_err (txt "too many objects loaded") in ret None
              else
                let* _ := modify (set_load idx (Ld (path (load s idx)) [] [])) in
                let '(lo, hi) := span ph in
                if lo =? 0 then refuse "no loadable segments: "%string
                else if collides lo hi s then refuse "would map over an already loaded image: "%string
                else
                  let* (ok, m) := map_segs where_ f ph (Mapping [] 0 0 None) in
                  if negb ok then let* _ := unmap_all (mapped m) in ret None
                  else if m_dyn m =? 0 then
                    let* _ := dl_errf (txt "no PT_DYNAMIC: ") where_ in let* _ := unmap_all (mapped m) in ret None
                  else
                    let* _ := register idx where_ ph m lo hi glob n in
                    let* d := describe idx in
                    let* ok := load_deps (fun t => dl_load_one fuel t false n) idx d n (d_needed d) in
                    if negb ok then unload idx
                    else
                      let* ok := add_tls idx where_ (m_tls m) in
                      if negb ok then unload idx
                      else
                        let* r := relocate_all idx d in
                        if negb (r =? 0) then unload idx
                        else let* _ := run_inits d in ret (Some idx)
          end
      end
  end.
End Load.

(** ** Namespaces *)

Definition dl_ns_new : St dl Z :=
  let* u := gets ns_used in
  match find (fun n => negb (default false (u !! n))) (seq 1 (DL_MAX_NS - 1)) with
  | Some n => let* _ := modify (set_ns_used (<[n := true]> u)) in ret (Z.of_nat n)
  | None => ret 0
  end.

Definition dl_ns_known (n : Z) (s : dl) : bool :=
  (n =? LM_ID_BASE) || ((n <? Z.of_nat DL_MAX_NS) && default false (ns_used s !! Z.to_nat n)).

Definition dl_ns_release_if_empty (n : Z) : St dl unit :=
  let* s := gets id in
  if (n =? LM_ID_BASE) || (n >=? Z.of_nat DL_MAX_NS) then ret tt
  else if existsb (fun i => has_name (obj s i) && (ns (obj s i) =? n)) (seq 0 (count s)) then ret tt
  else modify (set_ns_used (<[Z.to_nat n := false]> (ns_used s))).

(** ** Entry points *)

(** [NULL], 1 (the global scope), -1, and a pointer into the table by its index. *)
Inductive handle := HNull | HGlobal | HNext | HObj (i : Z).

Definition RTLD_GLOBAL : Z := 256.

Definition set_refs (r : Z) (o : cact_dl_object_t) : cact_dl_object_t :=
  Obj (name o) (dyn o) (dynsz o) (symtab o) (strtab o) (symcount o) (strsz o) (phdrs o)
    (base o) (size o) (pinned o) (global o) r (ns o) (tls_off o) (tls_modid o).

(** The object a name stands for in namespace [n], if it is there already. *)
Definition dl_reuse (t : str) (n : Z) (s : dl) : option nat :=
  match dl_find_in t n s with
  | Some i => Some i
  | None => match dl_find_in (dl_path_for t) n s with Some i => Some i | None => dl_find_pinned t s end
  end.

(** Every level of dependencies takes a slot, so 9 levels are enough. *)
Definition dl_fuel : nat := 9.

Section Open.
Context `{Ldr : Loader}.

Definition dl_open_into (filename : option str) (flags n : Z) : St dl handle :=
  match filename with
  | None => ret HGlobal
  | Some t =>
      let* s := gets id in
      match dl_reuse t n s with
      | Some i => let* _ := modify (set_obj i (set_refs (u32 (refs (obj s i) + 1)) (obj s i))) in ret (HObj (Z.of_nat i))
      | None =>
          let* r := dl_load_one dl_fuel t (negb (Z.land flags RTLD_GLOBAL =? 0)) n in
          ret (match r with Some i => HObj (Z.of_nat i) | None => HNull end)
      end
  end.

Definition dlopen (filename : option str) (flags : Z) : St dl handle := dl_open_into filename flags LM_ID_BASE.

Definition dlmopen (nsid : Z) (filename : option str) (flags : Z) : St dl handle :=
  if nsid =? LM_ID_NEWLM then
    let* n := dl_ns_new in
    if n =? 0 then let* _ := dl_err (txt "dlmopen: no namespace left") in ret HNull
    else
      let* h := dl_open_into filename flags n in
      let* _ := (match h with HNull => dl_ns_release_if_empty n | _ => ret tt end) in
      ret h
  else
    let* k := gets (dl_ns_known nsid) in
    if (nsid <? 0) || negb k then let* _ := dl_err (txt "dlmopen: unknown namespace") in ret HNull
    else dl_open_into filename flags nsid.
End Open.

Definition covers (a : Z) (o : cact_dl_object_t) : bool :=
  has_name o && negb (size o =? 0) && (base o <=? a) && (a <? u32 (base o + size o)).

Definition dl_object_of (a : Z) (s : dl) : option nat := find_obj (covers a) s.

(** The slot of a handle that points into the table at a named object. *)
Definition slot_of (i : Z) (s : dl) : option nat :=
  if (i <? 0) || (Z.of_nat CACT_DL_MAX_OBJECTS <=? i) || negb (has_name (obj s (Z.to_nat i))) then None else Some (Z.to_nat i).

(** [caller] is the return address.  The value 0 is the null pointer. *)
Definition dlsym (caller : Z) (h : handle) (symbol : option str) : St dl Z :=
  match symbol with
  | None => let* _ := dl_err (txt "dlsym: no symbol name") in ret 0
  | Some t =>
      let found (m : string) v := (if v =? 0 then let* _ := dl_errf (txt m) t in ret 0 else ret v) : St dl Z in
      match h with
      | HNext =>
          let* s := gets id in
          match dl_object_of caller s with
          | None => let* _ := dl_err (txt "RTLD_NEXT: cannot tell which object called dlsym") in ret 0
          | Some from =>
              let later := filter (fun i => has_name (obj s i) && (pinned (obj s i) || global (obj s i)))
                             (seq (S from) (count s - S from)) in
              let* r := first_hit ((fun i => look i t) <$> later) in
              found "symbol not found after this object: "%string (default 0 (fst <$> r))
          end
      | HNull | HGlobal => let* v := dl_lookup_global t in found "symbol not found: "%string v
      | HObj i =>
          let* s := gets id in
          match slot_of i s with
          | None => let* _ := dl_err (txt "dlsym: invalid handle") in ret 0
          | Some self => let* v := dl_resolve self t in found "symbol not found: "%string v
          end
      end
  end.

Definition dlvsym (caller : Z) (h : handle) (symbol version : option str) : St dl Z := dlsym caller h symbol.

Definition dlclose (h : handle) : St dl Z :=
  match h with
  | HNull | HGlobal | HNext => ret 0
  | HObj i =>
      let* s := gets id in
      match slot_of i s with
      | None => let* _ := dl_err (txt "dlclose: invalid handle") in ret (-1)
      | Some self =>
          let o := obj s self in
          if pinned o then ret 0
          else if refs o >? 1 then let* _ := modify (set_obj self (set_refs (refs o - 1) o)) in ret 0
          else
            let* _ := (if tls_off o =? CACT_DL_NO_TLS then ret tt else on_tls (cact_tls_module_drop (tls_off o))) in
            let* _ := unmap_all (segs (load s self)) in
            let* _ := modify (set_load self (Ld (path (load s self)) [] [])) in
            let* _ := modify (set_obj self (Obj None (dyn o) (dynsz o) (symtab o) (strtab o) (symcount o) (strsz o) (phdrs o)
              (base o) (size o) (pinned o) (global o) (refs o) (ns o) CACT_DL_NO_TLS (tls_modid o))) in
            let* _ := dl_ns_release_if_empty (ns o) in
            ret 0
      end
  end.

(** *** What an address belongs to *)

(** [dli_sname] is the address of the name. *)
Record Dl_info := Info { dli_fname : option str; dli_fbase : Z; dli_sname : Z; dli_saddr : Z }.

Fixpoint nearest (n : nat) (o : cact_dl_object_t) (a j : Z) (best_va best_name : Z) : M (Z * Z) :=
  match n with
  | O => ret (best_va, best_name)
  | S n =>
      let* sym := sym_at (symtab o) j in
      if (st_shndx sym =? SHN_UNDEF) || (st_value sym =? 0) || (st_value sym >? a) || (st_name sym >=? strsz o)
         || (st_value sym <? best_va)
      then nearest n o a (j + 1) best_va best_name
      else nearest n o a (j + 1) (st_value sym) (u32 (strtab o + st_name sym))
  end.

(** [None] is a null [info]. *)
Definition dladdr (a : Z) (info : option Dl_info) : St dl (Z * option Dl_info) :=
  match info with
  | None => ret (0, None)
  | Some _ =>
      let* r := gets (dl_object_of a) in
      if a >? 4294967295 then ret (0, Some (Info None 0 0 0))
      else
        match r with
        | None => ret (0, Some (Info None 0 0 0))
        | Some i =>
            let* o := gets (fun s => obj s i) in
            let* (va, nm) := (if negb (symtab o =? 0) && negb (strtab o =? 0)
                              then on_mem (nearest (Z.to_nat (symcount o - 1)) o a 1 0 0) else ret (0, 0)) in
            ret (1, Some (Info (name o) (base o) (if nm =? 0 then 0 else nm) (if nm =? 0 then 0 else va)))
        end
  end.

(** *** Walking the objects *)

Record dl_phdr_info := PhInfo { dlpi_addr : Z; dlpi_name : option str; dlpi_phdr : list Elf32_Phdr }.

(** The callback may change the table; the count is read again at every object. *)
Fixpoint iterate_from (n : nat) (callback : dl_phdr_info -> St dl Z) (i : nat) : St dl Z :=
  match n with
  | O => ret 0
  | S n =>
      let* s := gets id in
      if (count s <=? i)%nat then ret 0
      else if negb (has_name (obj s i)) then iterate_from n callback (S i)
      else
        let* r := callback (PhInfo 0 (name (obj s i)) (phdrs (obj s i))) in
        if negb (r =? 0) then ret r else iterate_from n callback (S i)
  end.

Definition dl_iterate_phdr (callback : option (dl_phdr_info -> St dl Z)) : St dl Z :=
  match callback with None => ret 0 | Some f => iterate_from CACT_DL_MAX_OBJECTS f 0 end.

(** *** dlinfo *)

Definition link_step (s : dl) (acc : option nat * list link_map) (i : nat) : option nat * list link_map :=
  let '(prev, l) := acc in
  let o := obj s i in
  if has_name o then
    let l := <[i := Lm 0 (name o) (dyn o) prev None]> l in
    (Some i, match prev with Some p => alter (fun m => Lm (l_addr m) (l_name m) (l_ld m) (l_prev m) (Some i)) p l | None => l end)
  else acc.

Definition dl_lms_build : St dl unit :=
  modify (fun s => set_lms (foldl (link_step s) (None, lms s) (seq 0 (count s))).2 s).

(** The part of a path before its last slash. *)
Fixpoint before_last_slash (t : str) : option str :=
  match t with
  | [] => None
  | c :: t => match before_last_slash t with Some d => Some (c :: d) | None => if c =? 47 then Some [] else None end
  end.

Definition dl_origin_of (idx : nat) (s : dl) : str :=
  let nm := match path (load s idx) with [] => name (obj s idx) | p => Some p end in
  match nm with
  | None => txt "."
  | Some t =>
      if bool_decide (t = txt "<main>") then txt "."
      else match before_last_slash t with
           | None => txt "/usr/lib"
           | Some [] => take 1 t
           | Some d => d
           end
  end.

Definition RTLD_DI_LMID : Z := 1.
Definition RTLD_DI_LINKMAP : Z := 2.
Definition RTLD_DI_ORIGIN : Z := 6.
Definition RTLD_DI_PHDR : Z := 11.

(** What is stored through [arg]. *)
Inductive di_answer := DiNothing | DiLmid (n : Z) | DiLinkmap (i : nat) | DiOrigin (d : str) | DiPhdr (ph : list Elf32_Phdr).

Definition di_object (h : handle) (s : dl) : string + nat :=
  match h with
  | HNull | HGlobal => match find_obj has_name s with Some i => inr i | None => inl "dlinfo: no object loaded"%string end
  | HNext => inl "dlinfo: RTLD_NEXT names no object"%string
  | HObj i => match slot_of i s with Some i => inr i | None => inl "dlinfo: invalid handle"%string end
  end.

(** [arg] tells whether there is a buffer. *)
Definition dlinfo (h : handle) (request : Z) (arg : bool) : St dl (Z * di_answer) :=
  let refuse m := (let* _ := dl_err (txt m) in ret (-1, DiNothing)) : St dl (Z * di_answer) in
  if negb arg then refuse "dlinfo: no result buffer"%string
  else
    let* s := gets id in
    match di_object h s with
    | inl m => refuse m
    | inr i =>
        let o := obj s i in
        if request =? RTLD_DI_LMID then ret (0, DiLmid (ns o))
        else if request =? RTLD_DI_LINKMAP then let* _ := dl_lms_build in ret (0, DiLinkmap i)
        else if request =? RTLD_DI_ORIGIN then ret (0, DiOrigin (dl_origin_of i s))
        else if request =? RTLD_DI_PHDR then ret (Z.of_nat (length (phdrs o)), DiPhdr (phdrs o))
        else refuse "unsupported dlinfo request"%string
    end.
End Dlfcn.
