(* ===== verification/DlTable.v ===== *)
(** * DlTable: the table of loaded objects over time

    What the operations of [Dlfcn] do to the table: most leave it alone, a load
    only adds entries above the ones that are there, and the images that are
    registered never overlap, whatever is opened and closed and in which order. *)

From Stdlib Require Import ZArith Lia Bool String Ascii.
From stdpp Require Import base gmap list numbers.
From S2P Require Import Prelude Monad Memory TlsLayout TlsStatic Dlfcn.

Module DlTable.
Import Dlfcn.

(** ** What leaves the table alone *)

(** The part of the state that says which objects there are. *)
Definition table (s : dl) : nat * list cact_dl_object_t * list dl_loaded * list bool :=
  (count s, objs s, loads s, ns_used s).

Definition quiet {A} (c : St dl A) : Prop := forall s a s', c s = Some (a, s') -> table s' = table s.

Create HintDb quiet.

Section Quiet.
Context {A B : Type}.

Lemma quiet_ret (a : A) : quiet (ret a).
Proof. by intros s a' s' [= <- <-]. Qed.

Lemma quiet_gets (f : dl -> A) : quiet (gets f).
Proof. by intros s a' s' [= <- <-]. Qed.

Lemma quiet_fault : quiet (@fault dl A).
Proof. by intros s a' s'. Qed.

Lemma quiet_lift (o : option A) : quiet (lift o).
Proof. unfold lift. by intros s a' s'; destruct o; [intros [= <- <-]|]. Qed.

Lemma quiet_bind (c : St dl A) (k : A -> St dl B) : quiet c -> (forall a, quiet (k a)) -> quiet (bind c k).
Proof.
  unfold bind. intros Hc Hk s b s'. destruct (c s) as [[a s1]|] eqn:E; [|done].
  intros H. by rewrite (Hk _ _ _ _ H), (Hc _ _ _ E).
Qed.

Lemma quiet_on_tls (c : St TlsStatic.tls A) : quiet (on_tls c).
Proof. unfold on_tls. intros s a s'. by destruct (c (proc s)) as [[? ?]|]; [intros [= <- <-]|]. Qed.

Lemma quiet_modify f : (forall s, table (f s) = table s) -> quiet (modify f).
Proof. by intros H s a s' [= <- <-]. Qed.
End Quiet.

Lemma quiet_first_hit l : Forall quiet l -> quiet (first_hit l).
Proof. induction 1 as [|c l Hc _ IH]; cbn [first_hit]; [apply quiet_ret|]. apply quiet_bind; [done|]. intros [h|]; [apply quiet_ret|done]. Qed.

#[export] Hint Resolve quiet_ret quiet_gets quiet_fault quiet_lift quiet_on_tls : quiet.
#[export] Hint Extern 2 (quiet (modify _)) => (apply quiet_modify; reflexivity) : quiet.

(** Walks through binds, tests and matches. *)
Ltac quiet :=
  cbv zeta;
  lazymatch goal with
  | |- quiet (bind _ _) => apply quiet_bind; [quiet | intros; quiet]
  | |- quiet (if ?b then _ else _) => destruct b; quiet
  | |- quiet (match ?x with _ => _ end) => destruct x; quiet
  | |- _ => eauto with quiet
  end.

Lemma quiet_on_mem {A} (c : M A) : quiet (on_mem c).
Proof. apply quiet_on_tls. Qed.
#[export] Hint Resolve quiet_on_mem : quiet.

Lemma quiet_dl_err m : quiet (dl_err m).
Proof. unfold dl_err. quiet. Qed.

Lemma quiet_dl_errf a b : quiet (dl_errf a b).
Proof. unfold dl_errf. quiet. Qed.
#[export] Hint Resolve quiet_dl_err quiet_dl_errf : quiet.

Lemma quiet_look i t : quiet (look i t).
Proof. unfold look. quiet. Qed.
#[export] Hint Resolve quiet_look : quiet.

Lemma quiet_resolve k self t : quiet (dl_resolve_depth k self t).
Proof.
  revert self. induction k as [|k IH]; intros self; cbn [dl_resolve_depth]; [apply quiet_ret|].
  apply quiet_bind; [apply quiet_gets|]. intros s. apply quiet_first_hit. rewrite !Forall_app. split.
  - destruct self as [i|]; [|done]. rewrite Forall_app. split; [by destruct (has_name _); auto using quiet_look|].
    apply Forall_fmap, Forall_true. intros d. apply IH.
  - apply Forall_fmap, Forall_true. intros d. apply quiet_look.
Qed.
#[export] Hint Resolve quiet_resolve : quiet.

Lemma quiet_reloc_symbol self si : quiet (reloc_symbol self si).
Proof. unfold reloc_symbol. quiet. Qed.
#[export] Hint Resolve quiet_reloc_symbol : quiet.

Lemma quiet_relocate self u o i a : quiet (relocate self u o i a).
Proof. unfold relocate, refuse. quiet. Qed.
#[export] Hint Resolve quiet_relocate : quiet.

Lemma quiet_reloc_loop n self off ent u : quiet (reloc_loop n self off ent u).
Proof. revert off. induction n as [|n IH]; intros off; cbn [reloc_loop]; quiet. Qed.
#[export] Hint Resolve quiet_reloc_loop : quiet.

Lemma quiet_relocate_all idx d : quiet (relocate_all idx d).
Proof. unfold relocate_all, dl_relocs. quiet. Qed.
#[export] Hint Resolve quiet_relocate_all : quiet.

Lemma quiet_init_loop n p : quiet (init_loop n p).
Proof. revert p. induction n as [|n IH]; intros p; cbn [init_loop]; quiet. Qed.
#[export] Hint Resolve quiet_init_loop : quiet.

Lemma quiet_run_inits d : quiet (run_inits d).
Proof. unfold run_inits. quiet. Qed.
#[export] Hint Resolve quiet_run_inits : quiet.

Lemma quiet_unmap_all gs : quiet (unmap_all gs).
Proof. unfold unmap_all. induction gs as [|g gs IH]; cbn [for_each]; [apply quiet_ret|]. unfold munmap, edit_mem. quiet. Qed.
#[export] Hint Resolve quiet_unmap_all : quiet.

(** ** Partial correctness *)

Lemma wlp_lift {A} (o : option A) s (Q : A -> dl -> Prop) : (forall a, Q a s) -> wlp (lift o) s Q.
Proof. unfold lift. intros H a' s'. by destruct o; [intros [= <- <-]|]. Qed.

Lemma wlp_quiet {A} (c : St dl A) s (Q : A -> dl -> Prop) : quiet c -> (forall a s', table s' = table s -> Q a s') -> wlp c s Q.
Proof. unfold wlp, quiet. eauto. Qed.

Lemma find_from_some P k i l j :
  find_from P k i l = Some j -> (i <= j < i + k)%nat /\ P (default no_object (l !! (j - i)%nat)) = true.
Proof.
  revert i l. induction k as [|k IH]; intros i [|o l]; cbn [find_from]; try done.
  case_match eqn:E; [intros [= <-]; rewrite Nat.sub_diag; split; [lia|done]|].
  intros [H1 H2]%IH. split; [lia|]. by replace (j - i)%nat with (S (j - S i)) by lia.
Qed.

Lemma find_obj_some P s i : find_obj P s = Some i -> (i < count s)%nat /\ P (obj s i) = true.
Proof. intros [H1 H2]%find_from_some. rewrite Nat.sub_0_r in H2. split; [lia|done]. Qed.

(** ** The invariants *)

Definition live (o : cact_dl_object_t) : bool := has_name o && negb (size o =? 0).

Definition clash (o o' : cact_dl_object_t) : bool := live o && live o' && overlaps (base o) (size o) (base o') (size o').

(** The arrays have their sizes and no two registered images overlap. *)
Record table_ok (s : dl) : Prop := TableOk {
  ok_objs : length (objs s) = CACT_DL_MAX_OBJECTS;
  ok_loads : length (loads s) = CACT_DL_MAX_OBJECTS;
  ok_ns : length (ns_used s) = DL_MAX_NS;
  ok_count : (count s <= CACT_DL_MAX_OBJECTS)%nat;
  ok_apart : forall i j, (i < count s)%nat -> (j < count s)%nat -> i <> j -> clash (obj s i) (obj s j) = false
}.

(** Dependencies are registered, and in the namespace or shared. *)
Definition scoped (s : dl) : Prop :=
  forall i d, (i < count s)%nat -> d ∈ deps (load s i) ->
    (d < count s)%nat /\ (ns (obj s d) = ns (obj s i) \/ pinned (obj s d) = true).

(** Everything that was registered is still there, as it was. *)
Record grows (s s' : dl) : Prop := Grows {
  gr_count : (count s <= count s')%nat;
  gr_ns : ns_used s' = ns_used s;
  gr_obj : forall i, (i < count s)%nat -> obj s' i = obj s i;
  gr_load : forall i, (i < count s)%nat -> load s' i = load s i
}.

Lemma grows_refl s : grows s s.
Proof. by split. Qed.

Lemma grows_trans s1 s2 s3 : grows s1 s2 -> grows s2 s3 -> grows s1 s3.
Proof.
  intros [a1 b1 c1 d1] [a2 b2 c2 d2].
  split; [lia|congruence| |]; intros i Hi; [rewrite c2, c1|rewrite d2, d1]; done || lia.
Qed.

Lemma table_inv s s' : table s' = table s -> count s' = count s /\ objs s' = objs s /\ loads s' = loads s /\ ns_used s' = ns_used s.
Proof. unfold table. by intros [= -> -> -> ->]. Qed.

Lemma obj_table s s' i : table s' = table s -> obj s' i = obj s i.
Proof. unfold obj. by intros (_ & -> & _)%table_inv. Qed.

(** The invariants only look at the table. *)
Lemma same_table s s' : table s' = table s -> (table_ok s -> table_ok s') /\ (scoped s -> scoped s') /\ grows s s'.
Proof.
  intros (E1 & E2 & E3 & E4)%table_inv. unfold scoped. split_and!.
  - intros [a b c d e]. split; unfold obj in *; rewrite ?E1, ?E2, ?E3, ?E4; done.
  - unfold obj, load. rewrite E1, E2, E3. done.
  - split; unfold obj, load; rewrite ?E1, ?E2, ?E3, ?E4; done.
Qed.

Lemma obj_set i o s j : (i < length (objs s))%nat -> obj (set_obj i o s) j = if decide (j = i) then o else obj s j.
Proof. intros Hi. unfold obj, set_obj. cbn [objs]. case_decide; subst; [by rewrite list_lookup_insert_eq|by rewrite list_lookup_insert_ne]. Qed.

Lemma load_set i o s j : (i < length (loads s))%nat -> load (set_load i o s) j = if decide (j = i) then o else load s j.
Proof. intros Hi. unfold load, set_load. cbn [loads]. case_decide; subst; [by rewrite list_lookup_insert_eq|by rewrite list_lookup_insert_ne]. Qed.

Lemma clash_sym o o' : clash o o' = clash o' o.
Proof. unfold clash, overlaps. rewrite (andb_comm (live o)). by rewrite (andb_comm (_ <? _)). Qed.

(** Replacing an entry by one with the same span, named only if it was. *)
Lemma table_ok_set_obj s i o :
  (has_name o = true -> has_name (obj s i) = true) -> base o = base (obj s i) -> size o = size (obj s i) ->
  (i < CACT_DL_MAX_OBJECTS)%nat -> table_ok s -> table_ok (set_obj i o s).
Proof.
  intros Hn Hb Hs Hi [a b c d e].
  assert (Hc : forall o', clash (obj s i) o' = false -> clash o o' = false).
  { intros o'. unfold clash, live. rewrite Hb, Hs. destruct (has_name o); [by rewrite Hn by done|done]. }
  split; cbn [count objs loads ns_used set_obj]; rewrite ?length_insert; try done.
  intros j k Hj Hk Hjk. rewrite !obj_set by lia. repeat case_decide; subst; try done; auto.
  rewrite clash_sym. apply Hc. auto.
Qed.

Lemma scoped_set_obj s i o :
  ns o = ns (obj s i) -> pinned o = pinned (obj s i) -> (i < length (objs s))%nat -> scoped s -> scoped (set_obj i o s).
Proof.
  intros Hn Hp Hi H j d Hj Hd. destruct (H j d Hj Hd) as [H1 H2]. split; [done|].
  rewrite !obj_set by done. repeat case_decide; subst; rewrite ?Hn, ?Hp; done.
Qed.

Lemma table_ok_set_load s i l : table_ok s -> table_ok (set_load i l s).
Proof. intros [a b c d e]. split; cbn [count objs loads ns_used set_load]; rewrite ?length_insert; done. Qed.

Section Loading.
Context `{Ldr : Loader}.

Lemma quiet_map_segs w f ph m : quiet (map_segs w f ph m).
Proof.
  revert m. induction ph as [|p ph IH]; intros m; cbn [map_segs]; [apply quiet_ret|].
  apply quiet_bind; [unfold map_one, edit_mem; quiet|]. intros [ok m']. quiet.
Qed.
#[local] Hint Resolve quiet_map_segs : quiet.

(** ** One load *)

Definition fresh (g : bool) (n : Z) (o : cact_dl_object_t) : Prop :=
  has_name o = true /\ global o = g /\ ns o = n /\ pinned o = false /\ refs o = 1.

(** What was added is in the namespace [n], and its own. *)
Definition joined (n : Z) (s s' : dl) : Prop :=
  forall i, (count s <= i < count s')%nat -> ns (obj s' i) = n /\ pinned (obj s' i) = false.

Lemma joined_trans n s1 s2 s3 : grows s1 s2 -> grows s2 s3 -> joined n s1 s2 -> joined n s2 s3 -> joined n s1 s3.
Proof.
  intros G1 G2 J1 J2 i Hi. destruct (decide (i < count s2)%nat); [|apply J2; lia].
  rewrite (gr_obj _ _ G2) by lia. apply J1. lia.
Qed.

Lemma joined_table n s s1 s2 : table s2 = table s1 -> joined n s s1 -> joined n s s2.
Proof. intros E J i Hi. rewrite (obj_table _ _ _ E). apply J. by destruct (table_inv _ _ E) as (<- & _). Qed.

(** From the moment the object is registered in the slot [count s0]; [b] tells
    whether its dependencies are all there. *)
Record stage (g : bool) (n : Z) (s0 : dl) (b : bool) (s : dl) : Prop := Stage {
  st_ok : table_ok s;
  st_grows : grows s0 s;
  st_count : (count s0 < count s)%nat;
  st_fresh : fresh g n (obj s (count s0));
  st_joined : joined n s0 s;
  st_scoped : b = true -> scoped s0 -> scoped s
}.

Lemma stage_weaken g n s0 b s : stage g n s0 true s -> stage g n s0 b s.
Proof. intros []. by split; auto. Qed.

Lemma stage_table g n s0 b s s' : table s' = table s -> stage g n s0 b s -> stage g n s0 b s'.
Proof.
  intros E [H1 H2 H3 H4 H5 H6]. destruct (same_table _ _ E) as (E1 & E2 & E3). destruct (table_inv _ _ E) as (F1 & F2 & F3 & F4).
  split; [auto|by eapply grows_trans|lia| |by eapply joined_table|auto]. unfold obj. by rewrite F2.
Qed.

Lemma stage_slot g n s0 b s : stage g n s0 b s -> (count s0 < CACT_DL_MAX_OBJECTS)%nat.
Proof. intros [[] _ ? _ _ _]. lia. Qed.

(** Rewriting the slot itself, its span aside. *)
Lemma stage_set_obj g n s0 b s o :
  base o = base (obj s (count s0)) -> size o = size (obj s (count s0)) -> fresh g n o ->
  stage g n s0 b s -> stage g n s0 b (set_obj (count s0) o s).
Proof.
  intros Hb Hs Ho St. pose proof (stage_slot _ _ _ _ _ St) as Hlt. destruct St as [H1 H2 H3 H4 H5 H6].
  destruct H4 as (Hn & Hg & Hns & Hp & Hr). pose proof (ok_objs _ H1) as Hl.
  split; cbn [count set_obj]; [by apply table_ok_set_obj| |done| | |].
  - destruct H2 as [a b' c d]. split; [done|done| |done].
    intros i Hi. rewrite obj_set by lia. rewrite decide_False by lia. auto.
  - rewrite obj_set by lia. by rewrite decide_True.
  - intros i Hi. rewrite obj_set by lia. case_decide; [destruct Ho as (_ & _ & ? & ? & _); done|by apply H5].
  - intros Hb' H0. destruct Ho as (?&?&?&?&?). apply scoped_set_obj; [congruence|congruence|lia|auto].
Qed.

Lemma register_stage w ph m lo hi g n s :
  table_ok s -> (count s < CACT_DL_MAX_OBJECTS)%nat -> collides lo hi s = false ->
  wlp (register (count s) w ph m lo hi g n) s (fun _ s' => stage g n s true s').
Proof.
  intros Ok Hc Hcol. destruct Ok as [a b c d e]. unfold register. wlp_pure.
  set (l := Ld w _ _). set (o := Obj _ _ _ _ _ _ _ _ _ _ _ _ _ _ _ _). set (k := count s) in *.
  assert (Ho : forall j, obj (set_count (S k) (set_obj k o (set_load k l s))) j = if decide (j = k) then o else obj s j).
  { intros j. change (obj (set_count _ ?x) j) with (obj x j). by rewrite obj_set by (cbn; lia). }
  assert (Hl : forall j, load (set_count (S k) (set_obj k o (set_load k l s))) j = if decide (j = k) then l else load s j).
  { intros j. change (load (set_count _ (set_obj _ _ ?x)) j) with (load x j). by rewrite load_set by (cbn; lia). }
  assert (Hap : forall i, (i < k)%nat -> clash o (obj s i) = false).
  { intros i Hi. unfold collides in Hcol.
    assert (Hx := existsb_nth (fun i => let o := obj s i in has_name o && negb (size o =? 0) && overlaps lo (u32 (hi - lo)) (base o) (size o))
      (seq 0 k) 0%nat (n := i)). rewrite length_seq, seq_nth in Hx by done. specialize (Hx Hi Hcol). cbn -[overlaps] in Hx.
    unfold clash, live. cbn [has_name name base size o]. cbn [andb].
    destruct (has_name (obj s i)); [|by rewrite andb_false_r].
    destruct (negb (size (obj s i) =? 0)); [|by rewrite andb_false_r].
    cbn [andb] in Hx |- *. by rewrite Hx, andb_false_r. }
  change (count (set_obj k o (set_load k l s))) with k.
  split; cbn [count set_count].
  - split; cbn [objs loads ns_used count set_count set_obj set_load]; rewrite ?length_insert; [done..|lia|].
    intros i j Hi Hj Hij. rewrite !Ho. repeat case_decide; subst; [done| | |]; [apply Hap; lia| |apply e; lia].
    rewrite clash_sym. apply Hap. lia.
  - split; cbn [count ns_used set_count set_obj set_load]; [lia|done| |]; intros i Hi; rewrite ?Ho, ?Hl; by rewrite decide_False by lia.
  - lia.
  - fold k. rewrite Ho. by rewrite decide_True.
  - intros i Hi. cbn [count set_count] in Hi. rewrite Ho. rewrite decide_True by lia. done.
  - intros _ H i dd Hi. cbn [count set_count] in Hi. rewrite Hl, !Ho. case_decide; subst.
    + cbn [deps l]. intros []%elem_of_nil.
    + intros Hd. destruct (H i dd) as [H1 H2]; [lia|done|]. split; [cbn; lia|]. fold k in H1. by rewrite decide_False by lia.
Qed.

Lemma describe_stage g n s0 b s :
  stage g n s0 b s -> wlp (describe (count s0)) s (fun _ s' => stage g n s0 b s').
Proof.
  intros St. unfold describe. wlp_pure.
  apply wlp_quiet; [apply quiet_on_mem|]. intros d s1 E1. wlp_pure.
  apply wlp_quiet; [apply quiet_on_mem|]. intros k s2 E2. wlp_pure.
  set (o := obj s (count s0)).
  assert (St2 : stage g n s0 b s2) by (eapply stage_table; [|exact St]; congruence).
  assert (Ho : obj s2 (count s0) = o).
  { unfold o. by rewrite (obj_table _ _ _ E2), (obj_table _ _ _ E1). }
  assert (Hf := st_fresh _ _ _ _ _ St). fold o in Hf.
  eapply wlp_mono with (Q := fun t s3 => table s3 = table s2 /\ match t with Some _ => True | None => False end).
  - assert (Hn : match name o with Some _ => True | None => False end).
    { destruct Hf as [Hf _]. unfold has_name in Hf. by destruct (name o). }
    destruct (d_soname d) as [off|]; [destruct (_ && _)|]; wlp_pure; [|done|done].
    apply wlp_quiet; [apply quiet_on_mem|]. intros t s3 E3. wlp_pure. done.
  - intros t s3 [E3 Ht]. wlp_pure. apply stage_set_obj; cbn [base size].
    + by rewrite (obj_table _ _ _ E3), Ho.
    + by rewrite (obj_table _ _ _ E3), Ho.
    + destruct Hf as (_ & ? & ? & ? & ?). by destruct t.
    + by eapply stage_table.
Qed.

Definition load_post (g : bool) (n : Z) (s : dl) (r : option nat) (s' : dl) : Prop :=
  match r with
  | Some i => i = count s /\ stage g n s true s'
  | None => table_ok s' /\ grows s s' /\ joined n s s'
  end.

(** A dependency: an object of the namespace, a shared one, or a new one. *)
Definition get_dep (rec : str -> St dl (option nat)) (t : str) (n : Z) (s : dl) : St dl (option nat) :=
  match dl_find_in t n s with
  | Some i => ret (Some i)
  | None => match dl_find_pinned t s with Some i => ret (Some i) | None => rec t end
  end.

Definition dep_post (g : bool) (n : Z) (s0 : dl) (r : option nat) (s : dl) : Prop :=
  match r with
  | Some i => stage g n s0 true s /\ (i < count s)%nat /\ (ns (obj s i) = n \/ pinned (obj s i) = true)
  | None => stage g n s0 false s
  end.

Lemma get_dep_stage rec g n s0 s t :
  (forall t s, table_ok s -> wlp (rec t) s (load_post false n s)) ->
  stage g n s0 true s -> wlp (get_dep rec t n s) s (dep_post g n s0).
Proof.
  intros Hrec St. unfold get_dep, dl_find_in, dl_find_pinned.
  case_match eqn:F1; wlp_pure; [apply find_obj_some in F1 as [? [F1 _]%andb_true_iff]; split_and!; [done..|left; lia]|].
  case_match eqn:F2; wlp_pure; [apply find_obj_some in F2 as [? [F2 _]%andb_true_iff]; by split_and!; [..|right]|].
  eapply wlp_mono; [apply Hrec, St|]. destruct St as [a b c e ej f].
  assert (Hst : forall b s2, table_ok s2 -> grows s s2 -> joined n s s2 -> (b = true -> scoped s -> scoped s2) -> stage g n s0 b s2).
  { intros b' s2 H1 H2 Hj Hb. split; [done|by eapply grows_trans|destruct H2; lia| |by eapply joined_trans|auto].
    by rewrite (gr_obj _ _ H2) by lia. }
  intros [i|] s2; cbn [load_post dep_post].
  - intros [-> [q1 q2 q3 (_ & _ & q4 & _) q5 q6]]. split_and!; [by apply Hst|done|by left].
  - intros (H1 & H2 & H3). by apply Hst.
Qed.

Definition add_dep (idx i : nat) (s : dl) : dl :=
  let l := load s idx in
  if (length (deps l) <? CACT_DL_MAX_OBJECTS)%nat then set_load idx (Ld (path l) (segs l) (deps l ++ [i])) s else s.

Lemma add_dep_stage g n s0 s i :
  dep_post g n s0 (Some i) s -> stage g n s0 true (add_dep (count s0) i s).
Proof.
  intros (St & Hi & Hn). unfold add_dep. cbv zeta.
  destruct (_ <? _)%nat; [|done]. pose proof (stage_slot _ _ _ _ _ St). destruct St as [a b c e ej f].
  pose proof (ok_loads _ a) as Hl. set (l := Ld _ _ _).
  split; cbn [count set_load]; [by apply table_ok_set_load| |done|done|done|].
  - destruct b as [g1 g2 g3 g4]. split; [done..|]. intros j Hj. rewrite load_set by lia. rewrite decide_False by lia. auto.
  - intros _ Hs0. specialize (f eq_refl Hs0). intros j dd Hj Hd. cbn [count set_load] in Hj.
    change (obj (set_load _ _ s)) with (obj s). change (count (set_load _ _ s)) with (count s).
    rewrite load_set in Hd by lia. case_decide; [subst j|by apply f].
    cbn [deps l] in Hd. apply elem_of_app in Hd as [Hd|Hd]; [by apply f|].
    apply list_elem_of_singleton in Hd as ->. split; [done|]. destruct e as (_ & _ & -> & _). done.
Qed.

Lemma load_deps_stage rec d n g s0 :
  (forall t s, table_ok s -> wlp (rec t) s (load_post false n s)) ->
  forall needed s, stage g n s0 true s -> wlp (load_deps rec (count s0) d n needed) s (fun ok s' => stage g n s0 ok s').
Proof.
  intros Hrec. induction needed as [|off needed IH]; intros s St; cbn [load_deps]; [by wlp_pure|].
  case_match; [by apply IH|]. wlp_pure. apply wlp_quiet; [apply quiet_on_mem|]. intros t s1 E1. wlp_pure.
  eapply wlp_mono; [by eapply get_dep_stage, stage_table|]. intros [i|] s2 H2; wlp_pure; [|done]. by apply IH, add_dep_stage.
Qed.

Lemma add_tls_stage g n s0 b s w t : stage g n s0 b s -> wlp (add_tls (count s0) w t) s (fun _ s' => stage g n s0 b s').
Proof.
  intros St. unfold add_tls. destruct t as [t|]; [|by wlp_pure]. case_match; [by wlp_pure|]. wlp_pure.
  apply wlp_quiet; [apply quiet_on_tls|]. intros off s1 E1. assert (St1 := stage_table _ _ _ _ _ _ E1 St).
  case_match; wlp_pure.
  - apply wlp_quiet; [apply quiet_dl_errf|]. intros [] s2 E2. wlp_pure. by eapply stage_table.
  - apply stage_set_obj; [done..| |done]. apply St1.
Qed.

Lemma unload_stage g n s0 b s :
  stage g n s0 b s -> wlp (unload (count s0)) s (fun r s' => r = None /\ table_ok s' /\ grows s0 s' /\ joined n s0 s').
Proof.
  intros St. unfold unload. wlp_pure. apply wlp_quiet; [quiet|]. intros [] s1 E1. wlp_pure.
  apply wlp_quiet; [apply quiet_unmap_all|]. intros [] s2 E2. wlp_pure.
  assert (St2 : stage g n s0 b s2) by (eapply stage_table; [|exact St]; congruence).
  pose proof (stage_slot _ _ _ _ _ St2). destruct St2 as [a [b1 b2 b3 b4] c e ej f].
  set (l := Ld _ _ _). set (s3 := set_load (count s0) l s2). assert (Ok3 : table_ok s3) by by apply table_ok_set_load.
  set (o := Obj _ _ _ _ _ _ _ _ _ _ _ _ _ _ _ _). assert (Ok4 : table_ok (set_obj (count s0) o s3)) by by apply table_ok_set_obj.
  pose proof (ok_objs _ Ok3) as Hlo. pose proof (ok_loads _ a) as Hll. split_and!; [done| | |].
  - destruct Ok4 as [p1 p2 p3 p4 p5]. cbn [count set_obj set_load s3] in *.
    split; cbn [count set_count objs loads ns_used]; [done..|cbn; lia|]. intros i j Hi Hj. apply p5; cbn in *; lia.
  - split; cbn [count set_count ns_used set_obj set_load s3]; [lia|done| |]; intros i Hi.
    + change (obj (set_count _ ?x) i) with (obj x i). rewrite obj_set by lia. rewrite decide_False by lia. by apply b3.
    + change (load (set_count _ (set_obj _ _ ?x)) i) with (load x i). unfold s3. rewrite load_set by lia. rewrite decide_False by lia. by apply b4.
  - intros i Hi. change (obj (set_count _ ?x) i) with (obj x i). rewrite obj_set by lia.
    case_decide; [cbn [ns pinned o]; apply ej; lia|]. apply ej. cbn in Hi. lia.
Qed.

(** The slot is cleared before anything is checked. *)
Lemma clear_slot s l :
  table_ok s -> (count s < CACT_DL_MAX_OBJECTS)%nat ->
  let s1 := set_load (count s) l s in
  table_ok s1 /\ grows s s1 /\ (scoped s -> scoped s1).
Proof.
  intros Ok Hc s1. pose proof (ok_loads _ Ok) as Hl. split_and!; [by apply table_ok_set_load| |].
  - split; [done..|]. intros i Hi. unfold s1. rewrite load_set by lia. by rewrite decide_False by lia.
  - intros H i d Hi. unfold s1. rewrite load_set by lia. cbn [count set_load s1] in Hi. rewrite decide_False by lia. by apply H.
Qed.

Lemma stage_base g n s s1 b s' :
  count s1 = count s -> grows s s1 -> (scoped s -> scoped s1) -> stage g n s1 b s' -> stage g n s b s'.
Proof. intros E G H [a b' c d e f]. unfold joined in *. rewrite E in *. split; [done|by eapply grows_trans|done..|auto]. Qed.

(** A refusal: the message, and perhaps unmapping. *)
Lemma post_none g n s s1 s2 : table s2 = table s1 -> table_ok s1 -> grows s s1 -> count s1 = count s -> load_post g n s None s2.
Proof.
  intros E Ok G Ec. destruct (same_table _ _ E) as (? & _ & ?). split_and!; [auto|by eapply grows_trans|].
  eapply joined_table; [exact E|]. intros i Hi. lia.
Qed.

Lemma wlp_refuse {A} g n s s1 (c : St dl A) :
  quiet c -> table_ok s1 -> grows s s1 -> count s1 = count s -> wlp (bind c (fun _ => ret None)) s1 (load_post g n s).
Proof.
  intros Hc Ok G Ec. apply wlp_bind. apply wlp_quiet; [done|]. intros a s2 E. apply wlp_ret. by eapply post_none.
Qed.

Lemma load_one_post fuel t g n s : table_ok s -> wlp (dl_load_one fuel t g n) s (load_post g n s).
Proof.
  revert t g s. induction fuel as [|fuel IH]; intros t g s Ok; cbn [dl_load_one]; [by intros ? ?|].
  destruct (dl_read_file _) as [f|]; [|apply wlp_refuse; auto using grows_refl with quiet].
  wlp_pure. apply wlp_lift. intros h.
  destruct h as [m|ph]; [apply wlp_refuse; auto using grows_refl with quiet|]. wlp_pure. unfold id.
  destruct (_ <=? _)%nat eqn:Hfull; [apply wlp_refuse; auto using grows_refl with quiet|].
  apply Nat.leb_gt in Hfull. wlp_pure. set (l := Ld _ _ _).
  destruct (clear_slot s l Ok Hfull) as (Ok1 & G1 & Sc1). set (s1 := set_load (count s) l s) in *.
  destruct (span ph) as [lo hi]. destruct (lo =? 0); [apply wlp_refuse; auto with quiet|].
  destruct (collides lo hi s) eqn:Hcol; [apply wlp_refuse; auto with quiet|]. wlp_pure.
  apply wlp_quiet; [apply quiet_map_segs|]. intros [ok m] s2 E2.
  destruct (same_table _ _ E2) as (Ok2 & Sc2 & G2). specialize (Ok2 Ok1).
  assert (G : grows s s2) by by eapply grows_trans.
  assert (Ec : count s = count s2) by (by destruct (table_inv _ _ E2) as (-> & _)).
  destruct ok; cbn [negb]; [|apply wlp_refuse; auto with quiet].
  destruct (m_dyn m =? 0).
  { wlp_pure. apply wlp_quiet; [apply quiet_dl_errf|]. intros [] s3 E3. destruct (same_table _ _ E3) as (Ok3 & _ & G3).
    apply wlp_refuse; [apply quiet_unmap_all|auto|by eapply grows_trans|]. by destruct (table_inv _ _ E3) as (-> & _). }
  wlp_pure. rewrite Ec. eapply wlp_mono; [apply register_stage; [done|lia|]|].
  { rewrite <- Hcol. unfold collides, obj. by destruct (table_inv _ _ E2) as (-> & -> & _). }
  intros [] s3 St3. wlp_pure. eapply wlp_mono; [by apply describe_stage|]. intros d s4 St4. wlp_pure.
  eapply wlp_mono; [eapply load_deps_stage; [|exact St4]|].
  { intros t' s' Ok'. by apply IH. }
  assert (Hend : forall b s', stage g n s2 b s' -> wlp (unload (count s2)) s' (load_post g n s)).
  { intros b s' St. eapply wlp_mono; [by eapply unload_stage|]. intros r s9 (-> & H1 & H2 & H3).
    split_and!; [done|by eapply grows_trans|]. intros i Hi. apply H3. lia. }
  intros ok s5 St5. destruct ok; cbn [negb]; [|by eapply Hend]. wlp_pure.
  eapply wlp_mono; [by apply add_tls_stage|]. intros ok s6 St6. destruct ok; cbn [negb]; [|by eapply Hend]. wlp_pure.
  apply wlp_quiet; [apply quiet_relocate_all|]. intros r s7 E7. assert (St7 := stage_table _ _ _ _ _ _ E7 St6).
  destruct (r =? 0); cbn [negb]; [|by eapply Hend]. wlp_pure.
  apply wlp_quiet; [apply quiet_run_inits|]. intros [] s8 E8. wlp_pure. split; [done|].
  eapply stage_base; [done|exact G|auto|]. by eapply stage_table.
Qed.

(** ** The entry points *)

Lemma quiet_dl_lookup_global t : quiet (dl_lookup_global t).
Proof.
  unfold dl_lookup_global. apply quiet_bind; [apply quiet_gets|]. intros s. apply quiet_bind; [|quiet].
  apply quiet_first_hit. rewrite Forall_app. split; apply Forall_fmap, Forall_true; intros; apply quiet_look.
Qed.
#[local] Hint Resolve quiet_dl_lookup_global : quiet.

Lemma quiet_looks t l : quiet (first_hit ((fun i => look i t) <$> l)).
Proof. apply quiet_first_hit, Forall_fmap, Forall_true. intros. apply quiet_look. Qed.
#[local] Hint Resolve quiet_looks : quiet.

Lemma quiet_dlsym caller h t : quiet (dlsym caller h t).
Proof. unfold dlsym, dl_resolve. quiet. Qed.

Lemma quiet_dladdr a info : quiet (dladdr a info).
Proof. unfold dladdr. quiet. Qed.

Lemma quiet_dlinfo h r arg : quiet (dlinfo h r arg).
Proof. unfold dlinfo, dl_lms_build. quiet. Qed.

Lemma quiet_dlerror : quiet dlerror.
Proof. unfold dlerror. quiet. Qed.

(** The namespace of a registered object is in use. *)
Definition ns_ok (s : dl) : Prop :=
  forall i, (i < count s)%nat -> has_name (obj s i) = true ->
    0 <= ns (obj s i) < Z.of_nat DL_MAX_NS /\ dl_ns_known (ns (obj s i)) s = true.

(** The shared objects are those of the base namespace, without dependencies of
    their own (the program and its libraries as ld.so leaves them). *)
Definition shared_ok (s : dl) : Prop :=
  forall i, (i < count s)%nat -> pinned (obj s i) = true -> ns (obj s i) = LM_ID_BASE /\ deps (load s i) = [].

Lemma shared_grows n s s' : grows s s' -> joined n s s' -> shared_ok s -> shared_ok s'.
Proof.
  intros G J H i Hi. destruct (decide (i < count s)%nat) as [Hlt|]; [rewrite (gr_obj _ _ G), (gr_load _ _ G) by done; auto|].
  destruct (J i) as [_ ->]; [lia|done].
Qed.

(** What opening into [n] leaves. *)
Record opened (n : Z) (s : dl) (h : handle) (s' : dl) : Prop := Opened {
  op_ok : table_ok s';
  op_ns_used : ns_used s' = ns_used s;
  op_ns : ns_ok s -> 0 <= n < Z.of_nat DL_MAX_NS -> dl_ns_known n s = true -> ns_ok s';
  op_shared : shared_ok s -> shared_ok s';
  op_handle : match h with
              | HObj i => exists k, i = Z.of_nat k /\ (k < count s')%nat /\ has_name (obj s' k) = true /\
                            (ns (obj s' k) = n \/ pinned (obj s' k) = true) /\ (scoped s -> scoped s')
              | HGlobal => table s' = table s
              | HNext => False
              | HNull => True
              end
}.

Lemma known_ns_used n s s' : ns_used s' = ns_used s -> dl_ns_known n s' = dl_ns_known n s.
Proof. unfold dl_ns_known. by intros ->. Qed.

Lemma ns_ok_grows n s s' :
  grows s s' -> joined n s s' -> 0 <= n < Z.of_nat DL_MAX_NS -> dl_ns_known n s = true -> ns_ok s -> ns_ok s'.
Proof.
  intros G J Hn Hk H i Hi. rewrite (known_ns_used _ s s') by apply G.
  destruct (decide (i < count s)%nat); [rewrite (gr_obj _ _ G) by done; auto|].
  destruct (J i) as [-> _]; [lia|]. done.
Qed.

Lemma set_refs_keeps r i s :
  table_ok s -> (i < count s)%nat -> let s' := set_obj i (set_refs r (obj s i)) s in
  table_ok s' /\ (scoped s -> scoped s') /\ (ns_ok s -> ns_ok s') /\ (shared_ok s -> shared_ok s') /\ obj s' i = set_refs r (obj s i).
Proof.
  intros Ok Hi s'. pose proof (ok_objs _ Ok). pose proof (ok_count _ Ok). unfold s'. split_and!.
  - apply table_ok_set_obj; [done..|lia|done].
  - apply scoped_set_obj; [done..|lia].
  - intros H1 j Hj. rewrite obj_set by lia. case_decide; [subst; apply H1; done|by apply H1].
  - intros H1 j Hj. rewrite obj_set by lia. case_decide; [subst; apply H1; done|by apply H1].
  - rewrite obj_set by lia. by rewrite decide_True.
Qed.

Lemma reuse_some t n s i :
  dl_reuse t n s = Some i -> (i < count s)%nat /\ has_name (obj s i) = true /\ (ns (obj s i) = n \/ pinned (obj s i) = true).
Proof.
  assert (Hnm : forall t o, named t o = true -> has_name o = true).
  { unfold named, has_name. intros t' o H. apply bool_decide_eq_true in H. by rewrite H. }
  unfold dl_reuse, dl_find_in, dl_find_pinned. intros H.
  repeat case_match; simplify_eq;
    match goal with E : find_obj _ s = Some i |- _ => apply find_obj_some in E as [? [? ?]%andb_true_iff] end;
    split_and!; eauto; left; lia.
Qed.

Lemma open_into_post f fl n s : table_ok s -> wlp (dl_open_into f fl n) s (opened n s).
Proof.
  intros Ok. unfold dl_open_into. destruct f as [t|]; [|by wlp_pure; split]. wlp_pure. unfold id.
  destruct (dl_reuse t n s) as [i|] eqn:E.
  - apply reuse_some in E as (Hi & Hn & Hs). wlp_pure.
    destruct (set_refs_keeps (u32 (refs (obj s i) + 1)) i s Ok Hi) as (H1 & H2 & H3 & H4 & H5).
    split; [done|done|auto|auto|]. exists i. rewrite H5. by split_and!.
  - wlp_pure. eapply wlp_mono; [by apply load_one_post|]. intros [i|] s'; cbn [load_post]; wlp_pure.
    + intros [-> [a b c (d1 & d2 & d3 & d4 & d5) e g]]. wlp_pure. split; [done|apply b|by intros; eapply ns_ok_grows|by eapply shared_grows|].
      exists (count s). by split_and!; auto.
    + intros (H1 & H2 & H3). wlp_pure. split; [done|apply H2|by intros; eapply ns_ok_grows|by eapply shared_grows|done].
Qed.

(** *** Namespaces *)

Definition empty_ns (n : Z) (s : dl) : Prop := forall i, (i < count s)%nat -> has_name (obj s i) = true -> ns (obj s i) <> n.

Lemma release_keeps n s :
  table_ok s ->
  wlp (dl_ns_release_if_empty n) s (fun _ s' => table_ok s' /\ (ns_ok s -> ns_ok s') /\ (shared_ok s -> shared_ok s') /\ (scoped s -> scoped s')).
Proof.
  intros Ok. unfold dl_ns_release_if_empty. wlp_pure. unfold id.
  destruct (_ || _) eqn:E1; wlp_pure; [done|]. apply orb_false_iff in E1 as [E1 E2].
  destruct (existsb _ _) eqn:E3; wlp_pure; [done|]. split_and!; [|intros H i Hi Hl|done|done].
  - destruct Ok. split; try done. cbn. by rewrite length_insert.
  - destruct (H i Hi Hl) as [H1 H2]. split; [done|]. change (obj (set_ns_used _ s) i) with (obj s i) in *.
    assert (ns (obj s i) <> n).
    { intros F. assert (Hx := existsb_nth (fun i => has_name (obj s i) && (ns (obj s i) =? n)) (seq 0 (count s)) 0%nat (n := i)).
      rewrite length_seq, seq_nth in Hx by done. specialize (Hx Hi E3). cbn in Hx. rewrite Hl, F, Z.eqb_refl in Hx. done. }
    unfold dl_ns_known in *. cbn [ns_used set_ns_used]. destruct (Z.eqb_spec (ns (obj s i)) LM_ID_BASE) as [|Hb]; [done|].
    unfold LM_ID_BASE in Hb. by rewrite list_lookup_insert_ne by lia.
Qed.

Definition use_ns (n : nat) (s : dl) : dl := set_ns_used (<[n := true]> (ns_used s)) s.

Lemma ns_new_post s :
  table_ok s -> ns_ok s ->
  wlp dl_ns_new s (fun r s' =>
    r = 0 /\ s' = s \/
    exists n, r = Z.of_nat n /\ (0 < n < DL_MAX_NS)%nat /\ s' = use_ns n s /\ empty_ns r s /\ table_ok s' /\ ns_ok s' /\ dl_ns_known r s' = true).
Proof.
  intros Ok Hns. unfold dl_ns_new. wlp_pure. destruct (find _ _) as [n|] eqn:E; wlp_pure; [right|by left].
  apply find_some in E as [Hn Hu]. apply in_seq in Hn. unfold DL_MAX_NS in *.
  exists n. split_and!; try lia; try done.
  - intros i Hi Hl F. destruct (Hns i Hi Hl) as [_ H]. rewrite F in H. unfold dl_ns_known in H.
    rewrite Nat2Z.id in H. destruct (default false _); [done|]. rewrite andb_false_r, orb_false_r in H. unfold LM_ID_BASE in H. lia.
  - destruct Ok. split; try done. cbn. by rewrite length_insert.
  - intros i Hi Hl. destruct (Hns i Hi Hl) as [H1 H2]. split; [done|]. change (obj (use_ns n s) i) with (obj s i) in *.
    unfold dl_ns_known in *. cbn [ns_used use_ns set_ns_used]. destruct (decide (Z.to_nat (ns (obj s i)) = n)) as [<-|Hne].
    + rewrite list_lookup_insert_eq by (destruct Ok as [_ _ -> _ _]; unfold DL_MAX_NS in *; lia). cbn [default from_option id].
      rewrite andb_true_r. rewrite orb_true_iff. right. apply Z.ltb_lt, H1.
    + by rewrite list_lookup_insert_ne by done.
  - unfold dl_ns_known. cbn [ns_used use_ns set_ns_used]. rewrite Nat2Z.id, list_lookup_insert_eq by (destruct Ok as [_ _ -> _ _]; unfold DL_MAX_NS; lia).
    cbn [default from_option id]. rewrite andb_true_r. rewrite orb_true_iff. right. apply Z.ltb_lt. unfold DL_MAX_NS. lia.
Qed.

(** The invariant of the table and of the namespaces. *)
Definition inv (s : dl) : Prop := table_ok s /\ ns_ok s /\ shared_ok s.

Lemma same_inv s s' : table s' = table s -> inv s -> inv s'.
Proof.
  intros E (Ok & Hns & Hsh). destruct (same_table _ _ E) as (H1 & _ & G). destruct (table_inv _ _ E) as (Ec & _ & El & _). split_and!; [auto| |].
  - intros i Hi Hl. rewrite (known_ns_used _ s s') by apply G. rewrite (obj_table _ _ _ E) in *. apply Hns; [by rewrite <- Ec|done].
  - intros i Hi. rewrite (obj_table _ _ _ E). unfold load. rewrite El. apply Hsh. by rewrite <- Ec.
Qed.

Lemma opened_scoped n s h s' : opened n s h s' -> h <> HNull -> scoped s -> scoped s'.
Proof.
  intros [_ _ _ _ H] Hh Hs. destruct h; [done| |done|].
  - by apply (same_table _ _ H).
  - destruct H as (k & _ & _ & _ & _ & H). by apply H.
Qed.

Lemma dlmopen_inv nsid f fl s : inv s -> wlp (dlmopen nsid f fl) s (fun h s' => inv s' /\ (h <> HNull -> scoped s -> scoped s')).
Proof.
  intros I. pose proof I as (Ok & Hns & Hsh). unfold dlmopen. destruct (nsid =? LM_ID_NEWLM).
  - wlp_pure. eapply wlp_mono; [by apply ns_new_post|]. intros r s1 [[-> ->]|(n & -> & Hn & -> & He & Ok1 & Hns1 & Hk)].
    + change (0 =? 0) with true. wlp_pure. apply wlp_quiet; [apply quiet_dl_err|]. intros [] s2 E2. wlp_pure.
      split; [by eapply same_inv|done].
    + replace (Z.of_nat n =? 0) with false by (symmetry; apply Z.eqb_neq; lia). wlp_pure. eapply wlp_mono; [by apply open_into_post|].
      intros h s2 O. pose proof (op_ok _ _ _ _ O). pose proof (opened_scoped _ _ _ _ O).
      assert (Hns2 : ns_ok s2) by (apply (op_ns _ _ _ _ O); [done|lia|done]).
      assert (Hsh2 : shared_ok s2) by by apply (op_shared _ _ _ _ O). wlp_pure.
      destruct h; wlp_pure; [|by split..].
      eapply wlp_mono; [by apply release_keeps|]. intros [] s3 (R1 & R2 & R3 & R4). wlp_pure. split; [by split_and!; auto|done].
  - wlp_pure. destruct (_ || _) eqn:E1; wlp_pure.
    + apply wlp_quiet; [apply quiet_dl_err|]. intros [] s2 E2. wlp_pure. split; [by eapply same_inv|done].
    + apply orb_false_iff in E1 as [E1 E2%negb_false_iff]. eapply wlp_mono; [by apply open_into_post|]. intros h s2 O.
      split; [split_and!; [apply O|apply (op_ns _ _ _ _ O); [done| |done]|by apply (op_shared _ _ _ _ O)]|by eapply opened_scoped].
      unfold dl_ns_known, LM_ID_BASE, DL_MAX_NS in *. destruct (Z.eqb_spec nsid 0); [lia|]. cbn in E2. apply andb_true_iff in E2 as [E2 _]. apply Z.ltb_lt in E2. cbn in E2 |- *. lia.
Qed.

Lemma dlopen_inv f fl s : inv s -> wlp (dlopen f fl) s (fun h s' => inv s' /\ (h <> HNull -> scoped s -> scoped s')).
Proof.
  intros (Ok & Hns & Hsh). unfold dlopen. eapply wlp_mono; [by apply open_into_post|]. intros h s2 O.
  split; [split_and!; [apply O|by apply (op_ns _ _ _ _ O)|by apply (op_shared _ _ _ _ O)]|by eapply opened_scoped].
Qed.

Lemma slot_of_some i s k : slot_of i s = Some k -> i = Z.of_nat k /\ (k < CACT_DL_MAX_OBJECTS)%nat /\ has_name (obj s k) = true.
Proof.
  unfold slot_of. destruct (_ || _) eqn:E; [done|]. intros [= <-]. apply orb_false_iff in E as [E1 E2%negb_false_iff].
  apply orb_false_iff in E1 as [?%Z.ltb_ge ?%Z.leb_gt]. unfold CACT_DL_MAX_OBJECTS in *. split_and!; [lia|lia|done].
Qed.

(** Forgetting an object keeps everything. *)
Lemma forget_keeps s1 k o l :
  has_name o = false -> base o = base (obj s1 k) -> size o = size (obj s1 k) -> ns o = ns (obj s1 k) ->
  pinned o = pinned (obj s1 k) -> deps l = [] -> (k < CACT_DL_MAX_OBJECTS)%nat ->
  let s2 := set_obj k o (set_load k l s1) in
  table_ok s1 -> table_ok s2 /\ (ns_ok s1 -> ns_ok s2) /\ (shared_ok s1 -> shared_ok s2) /\ (scoped s1 -> scoped s2).
Proof.
  intros Hn Hb Hz Hs Hp Hd Hk s2 Ok. pose proof (ok_loads _ Ok) as Hl. pose proof (ok_objs _ Ok) as Ho. split_and!.
  - apply table_ok_set_obj; [by rewrite Hn|done..|]. by apply table_ok_set_load.
  - intros H i Hi Hli. revert Hli. unfold s2. rewrite obj_set by (cbn; lia). case_decide; [by rewrite Hn|]. intros. by apply H.
  - intros H i Hi. unfold s2. rewrite obj_set by (cbn; lia). change (load (set_obj _ _ ?x) i) with (load x i). rewrite load_set by lia.
    case_decide; [subst; rewrite Hp, Hs, Hd; intros Hpi; by destruct (H k Hi Hpi)|by apply H].
  - intros H. apply scoped_set_obj; [done..|cbn; lia|]. intros i d Hi. cbn [count set_load] in Hi. rewrite load_set by lia.
    case_decide; [rewrite Hd; by intros []%elem_of_nil|]. by apply H.
Qed.

Lemma dlclose_inv h s : inv s -> wlp (dlclose h) s (fun _ s' => inv s' /\ (scoped s -> scoped s')).
Proof.
  intros I. pose proof I as (Ok & Hns & Hsh). unfold dlclose. destruct h as [| | |i]; [by wlp_pure..|]. wlp_pure. unfold id.
  destruct (slot_of i s) as [k|] eqn:E; wlp_pure.
  2:{ apply wlp_quiet; [apply quiet_dl_err|]. intros [] s2 E2. wlp_pure. split; [by eapply same_inv|by apply same_table]. }
  apply slot_of_some in E as (-> & Hk & Hl). pose proof (ok_objs _ Ok) as Ho.
  destruct (pinned _) eqn:Hp; [by wlp_pure|]. destruct (refs _ >? 1) eqn:Hr; wlp_pure.
  - set (o := set_refs _ _). split; [split_and!; [by apply table_ok_set_obj| |]|apply scoped_set_obj; [done..|lia]];
      intros j Hj; rewrite obj_set by lia; case_decide; subst; by (apply Hns || apply Hsh).
  - apply wlp_quiet; [quiet|]. intros [] s1 E1. wlp_pure. apply wlp_quiet; [apply quiet_unmap_all|]. intros [] s2 E2. wlp_pure.
    assert (E : table s2 = table s) by congruence. destruct (same_inv _ _ E I) as (Ok2 & Hns2 & Hsh2).
    set (o := Obj _ _ _ _ _ _ _ _ _ _ _ _ _ _ _ _). set (l := Ld _ _ _).
    destruct (forget_keeps s2 k o l) as (F1 & F2 & F3 & F4); try done; [by rewrite (obj_table _ _ _ E)..|].
    eapply wlp_mono; [by apply release_keeps|]. intros [] s3 (R1 & R2 & R3 & R4). wlp_pure. split; [by split_and!; auto|].
    intros Hs. apply R4, F4. by apply (same_table _ _ E).
Qed.

(** ** Any history *)

(** One call of the interface, or the program running in between. *)
Inductive step (s : dl) : dl -> Prop :=
  | step_dlopen f fl h s' : dlopen f fl s = Some (h, s') -> step s s'
  | step_dlmopen nsid f fl h s' : dlmopen nsid f fl s = Some (h, s') -> step s s'
  | step_dlclose h r s' : dlclose h s = Some (r, s') -> step s s'
  | step_dlsym caller h t v s' : dlsym caller h t s = Some (v, s') -> step s s'
  | step_dladdr a info r s' : dladdr a info s = Some (r, s') -> step s s'
  | step_dlinfo h req arg r s' : dlinfo h req arg s = Some (r, s') -> step s s'
  | step_dlerror e s' : dlerror s = Some (e, s') -> step s s'
  | step_run s' : table s' = table s -> step s s'.

Lemma step_inv s s' : step s s' -> inv s -> inv s'.
Proof.
  intros H I. destruct H as [? ? ? ? E|? ? ? ? ? E|? ? ? E|? ? ? ? ? E|? ? ? ? E|? ? ? ? ? E|? ? E|? E].
  - by apply (dlopen_inv _ _ _ I _ _ E).
  - by apply (dlmopen_inv _ _ _ _ I _ _ E).
  - by apply (dlclose_inv _ _ I _ _ E).
  - eapply same_inv; [by eapply quiet_dlsym|done].
  - eapply same_inv; [by eapply quiet_dladdr|done].
  - eapply same_inv; [by eapply quiet_dlinfo|done].
  - eapply same_inv; [by eapply quiet_dlerror|done].
  - by eapply same_inv.
Qed.

Lemma reachable_inv s s' : rtc step s s' -> inv s -> inv s'.
Proof. induction 1; eauto using step_inv. Qed.

Lemma clash_apart o o' :
  live o = true -> live o' = true -> clash o o' = false -> base o + size o <= base o' \/ base o' + size o' <= base o.
Proof.
  unfold clash, overlaps. intros -> ->. cbn [andb]. intros [H|H]%andb_false_iff; apply Z.ltb_ge in H; lia.
Qed.

(** C28: whatever sequence of [dlopen], [dlmopen], [dlclose] and lookups a
    program performs from a sound table, successful or not, with or without
    dependencies, no two objects that are registered at the end share an
    address. *)
Theorem images_never_overlap s s' i j :
  inv s -> rtc step s s' -> (i < count s')%nat -> (j < count s')%nat -> i <> j ->
  live (obj s' i) = true -> live (obj s' j) = true ->
  base (obj s' i) + size (obj s' i) <= base (obj s' j) \/ base (obj s' j) + size (obj s' j) <= base (obj s' i).
Proof.
  intros I R Hi Hj Hij Li Lj. destruct (reachable_inv _ _ R I) as (Ok & _).
  apply clash_apart; [done..|]. by apply (ok_apart _ Ok).
Qed.

(** the id [dlmopen] takes for a new namespace names no registered object,
    after any history: an id that was given back cannot reach a live scope. *)
Theorem new_namespace_empty s s' n s2 :
  inv s -> rtc step s s' -> dl_ns_new s' = Some (n, s2) ->
  n = 0 \/ 0 < n < Z.of_nat DL_MAX_NS /\ empty_ns n s' /\ dl_ns_known n s2 = true.
Proof.
  intros I R E. destruct (reachable_inv _ _ R I) as (Ok & Hns & _).
  destruct (ns_new_post _ Ok Hns _ _ E) as [[-> _]|(k & -> & Hk & _ & He & _ & _ & Hu)]; [by left|].
  right. split_and!; [lia|lia|done|done].
Qed.

(** *** A full table *)

(** Closed slots below the count stay closed, and the count stays. *)
Definition no_room (s s' : dl) : Prop :=
  count s' = count s /\ forall i, has_name (obj s i) = false -> has_name (obj s' i) = false.

Lemma no_room_table s s' : table s' = table s -> no_room s s'.
Proof. intros E. split; [by destruct (table_inv _ _ E) as (-> & _)|]. intros i. by rewrite (obj_table _ _ _ E). Qed.

Lemma load_full fuel t g n s : count s = CACT_DL_MAX_OBJECTS -> wlp (dl_load_one fuel t g n) s (fun r s' => r = None /\ table s' = table s).
Proof.
  intros Hc. assert (Hr : forall c : St dl unit, quiet c -> wlp (bind c (fun _ => ret None)) s (fun (r : option nat) s' => r = None /\ table s' = table s)).
  { intros c Q. apply wlp_bind, wlp_quiet; [done|]. intros [] s1 E. by apply wlp_ret. }
  destruct fuel as [|fuel]; cbn [dl_load_one]; [by intros ? ?|].
  destruct (dl_read_file _); [|apply Hr; auto with quiet]. wlp_pure. apply wlp_lift. intros [m|ph]; [apply Hr; auto with quiet|].
  wlp_pure. unfold id. rewrite Hc. cbn [Nat.leb CACT_DL_MAX_OBJECTS]. apply Hr. auto with quiet.
Qed.

Lemma no_room_set_obj s i o : (i < length (objs s))%nat -> (has_name o = true -> has_name (obj s i) = true) -> no_room s (set_obj i o s).
Proof.
  intros Hi Ho. split; [done|]. intros j Hj. rewrite obj_set by done. case_decide; [subst j|done].
  destruct (has_name o); [by rewrite Ho in Hj|done].
Qed.

Lemma no_room_trans s1 s2 s3 : no_room s1 s2 -> no_room s2 s3 -> no_room s1 s3.
Proof. intros [E1 H1] [E2 H2]. split; [congruence|auto]. Qed.

Lemma open_full f fl n s : table_ok s -> count s = CACT_DL_MAX_OBJECTS -> wlp (dl_open_into f fl n) s (fun _ s' => no_room s s').
Proof.
  intros Ok Hc. pose proof (ok_objs _ Ok) as Hl. unfold dl_open_into. destruct f as [t|]; wlp_pure; [|done]. unfold id.
  destruct (dl_reuse t n s) as [i|] eqn:E; wlp_pure.
  - apply reuse_some in E as (Hi & _). apply no_room_set_obj; [lia|done].
  - eapply wlp_mono; [by apply load_full|]. intros r s' [-> E']. wlp_pure. by apply no_room_table.
Qed.

Lemma release_no_room n s : wlp (dl_ns_release_if_empty n) s (fun _ s' => no_room s s').
Proof. unfold dl_ns_release_if_empty. wlp_pure. by repeat (case_match; wlp_pure). Qed.

Lemma dlmopen_full nsid f fl s : inv s -> count s = CACT_DL_MAX_OBJECTS -> wlp (dlmopen nsid f fl) s (fun _ s' => no_room s s').
Proof.
  intros (Ok & Hns & _) Hc. unfold dlmopen. destruct (nsid =? LM_ID_NEWLM); wlp_pure.
  - eapply wlp_mono; [by apply ns_new_post|]. intros r s1 H. assert (N1 : no_room s s1 /\ table_ok s1).
    { destruct H as [[_ ->]|(n & _ & _ & -> & _ & Ok1 & _)]; by split. }
    destruct N1 as [N1 Ok1]. case_match; wlp_pure.
    + apply wlp_quiet; [apply quiet_dl_err|]. intros [] s2 E2. wlp_pure. eapply no_room_trans; [done|by apply no_room_table].
    + eapply wlp_mono; [apply open_full; [done|by destruct N1 as [-> _]]|]. intros h s2 N2. wlp_pure.
      eapply wlp_mono with (Q := fun _ s3 => no_room s2 s3); [destruct h; wlp_pure; try done; apply release_no_room|].
      intros [] s3 N3. wlp_pure. eapply no_room_trans; [exact N1|]. exact (no_room_trans _ _ _ N2 N3).
  - case_match; wlp_pure; [|by apply open_full].
    apply wlp_quiet; [apply quiet_dl_err|]. intros [] s2 E2. wlp_pure. by apply no_room_table.
Qed.

Lemma dlclose_count h s : table_ok s -> wlp (dlclose h) s (fun _ s' => no_room s s').
Proof.
  intros Ok. unfold dlclose. destruct h as [| | |i]; [by wlp_pure..|]. wlp_pure. unfold id.
  destruct (slot_of i s) as [k|] eqn:E; wlp_pure.
  2:{ apply wlp_quiet; [apply quiet_dl_err|]. intros [] s2 E2. wlp_pure. by apply no_room_table. }
  apply slot_of_some in E as (-> & Hk & Hl). pose proof (ok_objs _ Ok) as Ho.
  destruct (pinned _); [by wlp_pure|]. destruct (refs _ >? 1); wlp_pure; [apply no_room_set_obj; [lia|done]|].
  apply wlp_quiet; [quiet|]. intros [] s1 E1. wlp_pure. apply wlp_quiet; [apply quiet_unmap_all|]. intros [] s2 E2. wlp_pure.
  eapply wlp_mono; [apply release_no_room|]. intros [] s3 N3. wlp_pure. eapply no_room_trans; [|exact N3].
  apply (no_room_trans _ s2); [apply no_room_table; congruence|]. set (l := Ld _ _ _).
  apply (no_room_set_obj (set_load k l s2)); [|done]. cbn. destruct (table_inv _ _ E2) as (_ & -> & _). destruct (table_inv _ _ E1) as (_ & -> & _). lia.
Qed.

Lemma step_full s s' : step s s' -> inv s -> count s = CACT_DL_MAX_OBJECTS -> no_room s s'.
Proof.
  intros H I Hc. destruct H as [? ? ? ? E|? ? ? ? ? E|? ? ? E|? ? ? ? ? E|? ? ? ? E|? ? ? ? ? E|? ? E|? E].
  - by apply (open_full _ _ _ _ (proj1 I) Hc _ _ E).
  - by apply (dlmopen_full _ _ _ _ I Hc _ _ E).
  - by apply (dlclose_count _ _ (proj1 I) _ _ E).
  - eapply no_room_table. by eapply quiet_dlsym.
  - eapply no_room_table. by eapply quiet_dladdr.
  - eapply no_room_table. by eapply quiet_dlinfo.
  - eapply no_room_table. by eapply quiet_dlerror.
  - by eapply no_room_table.
Qed.

(** Once eight objects have been opened, an entry that is closed is never used
    again: no later call, whatever else is closed before it, brings one back,
    although [dlclose] marks the slot as reusable. *)
Theorem closed_slots_lost s s' :
  inv s -> count s = CACT_DL_MAX_OBJECTS -> rtc step s s' ->
  count s' = CACT_DL_MAX_OBJECTS /\ forall i, has_name (obj s i) = false -> has_name (obj s' i) = false.
Proof.
  intros I Hc R. revert I Hc. induction R as [s|s s1 s2 S1 R IH]; intros I Hc; [done|].
  destruct (step_full _ _ S1 I Hc) as [E N]. destruct IH as [E' N']; [by eapply step_inv|congruence|]. split; [done|auto].
Qed.

(** ** Depth *)

Lemma load_deps_ext rec rec' d n g s0 :
  (forall t s, table_ok s -> wlp (rec t) s (load_post false n s)) ->
  (forall t s, table_ok s -> (count s0 < count s)%nat -> rec t s = rec' t s) ->
  forall needed s, stage g n s0 true s -> load_deps rec (count s0) d n needed s = load_deps rec' (count s0) d n needed s.
Proof.
  intros Hrec He. induction needed as [|off needed IH]; intros s St; cbn [load_deps]; [done|].
  case_match; [by apply IH|]. eapply bind_ext; [apply wlp_any|]. intros t s1 E1%quiet_on_mem.
  assert (St1 := stage_table _ _ _ _ _ _ E1 St). unfold bind at 1 3, gets, id.
  eapply (bind_cong (get_dep rec t n s1) (get_dep rec' t n s1)); [|by apply get_dep_stage|].
  - unfold get_dep. repeat case_match; [done..|]. by apply He; apply St1.
  - intros [i|] s2 H2; [|done].
    apply (bind_ext _ _ _ _ (fun _ s3 => s3 = add_dep (count s0) i s2)); [by apply wlp_modify|]. intros _ s3 ->. by apply IH, add_dep_stage.
Qed.

Lemma load_one_fuel fuel t g n s :
  table_ok s -> (CACT_DL_MAX_OBJECTS < count s + fuel)%nat -> dl_load_one fuel t g n s = dl_load_one (S fuel) t g n s.
Proof.
  revert t g s. induction fuel as [|fuel IH]; intros t g s Ok Hf; [destruct Ok; lia|].
  remember (S fuel) as fuel' eqn:Ef. rewrite Ef at 1. cbn [dl_load_one].
  destruct (dl_read_file _) as [f|]; [|done].
  apply (bind_ext _ _ _ _ (fun _ s' => s' = s)); [by apply wlp_lift|]. intros h s' ->. destruct h as [|ph]; [done|].
  apply (bind_ext _ _ _ _ (fun a s' => a = s /\ s' = s)); [by apply wlp_gets|]. intros a s' [-> ->].
  destruct (_ <=? _)%nat eqn:Hfull; [done|]. apply Nat.leb_gt in Hfull.
  set (l := Ld _ _ _). destruct (clear_slot s l Ok Hfull) as (Ok1 & G1 & _).
  apply (bind_ext _ _ _ _ (fun _ s' => s' = set_load (count s) l s)); [by apply wlp_modify|]. intros _ s1 ->.
  destruct (span ph) as [lo hi]. destruct (lo =? 0); [done|]. destruct (collides lo hi s) eqn:Hcol; [done|].
  eapply bind_ext; [apply wlp_quiet; [apply quiet_map_segs|]; intros a s2 E2; exact E2|]. intros [ok m] s2 E2. cbv beta in E2.
  assert (Ok2 : table_ok s2) by by apply (same_table _ _ E2).
  destruct (table_inv _ _ E2) as (Ec & Eo & _). destruct ok; [|done]. destruct (m_dyn m =? 0); [done|].
  cbn [count set_load] in Ec. rewrite <- Ec in *.
  eapply bind_ext; [apply register_stage; [done|done|]|].
  { rewrite <- Hcol. unfold collides, obj. by rewrite Ec, Eo. }
  intros [] s3 St3. eapply bind_ext; [by apply describe_stage|]. intros d s4 St4.
  eapply bind_cong; [|eapply load_deps_stage; [|exact St4]|done].
  - eapply load_deps_ext; [|intros t' s' Ok' Hc'; subst fuel'; apply IH; [done|lia]|exact St4].
    intros t' s' Ok'. by apply load_one_post.
  - intros t' s' Ok'. by apply load_one_post.
Qed.

(** loading terminates: every level of dependencies takes a slot before it
    goes deeper, so from any sound table nine levels are enough, whatever the
    files say (cycles of dependencies included). *)
Theorem dl_load_depth fuel t g n s :
  table_ok s -> (dl_fuel <= fuel)%nat -> dl_load_one fuel t g n s = dl_load_one dl_fuel t g n s.
Proof.
  intros Ok Hf. induction Hf as [|fuel Hf IH]; [done|]. rewrite <- IH. symmetry. apply load_one_fuel; [done|].
  unfold dl_fuel, CACT_DL_MAX_OBJECTS in *. lia.
Qed.
End Loading.
End DlTable.
