(* ===== verification/DlScope.v ===== *)
(** * DlScope: which object a name resolves to

    The symbol table of one object read as a list, the order in which [Dlfcn]
    visits the objects for each kind of handle, what a namespace can see, and the
    symbol [dladdr] reports. *)

From Stdlib Require Import ZArith Lia Bool String Ascii.
From stdpp Require Import base gmap list numbers.
From S2P Require Import Prelude Monad Memory TlsLayout TlsStatic Dlfcn DlTable.

Module DlScope.
Import TlsStatic Dlfcn.

(** ** A symbol table *)

(** A symbol with the text of its name. *)
Record dsym := DSym { d_sym : Elf32_Sym; d_text : str }.

Definition half_bytes (v : Z) : list Z := [u8 v; u8 (Z.shiftr v 8)].

Definition sym_bytes (y : Elf32_Sym) : list Z :=
  word_bytes (st_name y) ++ word_bytes (st_value y) ++ word_bytes (st_size y) ++ [st_info y; st_other y] ++ half_bytes (st_shndx y).

Definition word (v : Z) : Prop := 0 <= v < 2 ^ 32.

Definition sym_wf (y : Elf32_Sym) : Prop :=
  word (st_name y) /\ word (st_value y) /\ word (st_size y) /\ byte_ok (st_info y) /\ byte_ok (st_other y) /\ 0 <= st_shndx y < 2 ^ 16.

(** The entries from [j] on are [l]: the symbols are in the table, and a name
    inside the string table is the text. *)
Fixpoint symbols (m : mem) (o : cact_dl_object_t) (j : Z) (l : list dsym) : Prop :=
  match l with
  | [] => True
  | y :: l =>
      sym_wf (d_sym y) /\ bytes_at m (symtab o + 16 * j) (sym_bytes (d_sym y)) /\
      (st_name (d_sym y) < strsz o -> cstr m (strtab o + st_name (d_sym y)) (d_text y)) /\
      symbols m o (j + 1) l
  end.

(** Does the symbol answer to lookups? *)
Definition exported (o : cact_dl_object_t) (y : Elf32_Sym) : bool :=
  negb (st_shndx y =? SHN_UNDEF) && ((ELF32_ST_BIND (st_info y) =? STB_GLOBAL) || (ELF32_ST_BIND (st_info y) =? STB_WEAK)) &&
  negb (st_value y =? 0) && (st_name y <? strsz o).

Definition answers (o : cact_dl_object_t) (t : str) (y : dsym) : bool := exported o (d_sym y) && bool_decide (d_text y = t).

(** The reference: the first symbol of the list that answers to the name. *)
Definition lookup_spec (o : cact_dl_object_t) (t : str) (l : list dsym) : Z :=
  default 0 ((fun y => st_value (d_sym y)) <$> find (answers o t) l).

Lemma load8_at m p b : m !! p = Some b -> load8 p m = Some (b, m).
Proof. unfold load8. by intros ->. Qed.

Lemma load16_at m p v : bytes_at m p (half_bytes v) -> load16 p m = Some (wrapu 16 v, m).
Proof.
  intros H. unfold half_bytes in H. apply bytes_at_cons in H as [H0 H]. apply bytes_at_cons in H as [H1 _].
  unfold load16. rewrite (bind_run _ _ _ _ _ (load8_at _ _ _ H0)), (bind_run _ _ _ _ _ (load8_at _ _ _ H1)).
  unfold ret. do 2 f_equal. unfold u8, wrapu. rewrite Z.shiftr_div_pow2 by lia.
  change (2 ^ 16) with (2 ^ 8 * 2 ^ 8). by rewrite Z.rem_mul_r by lia.
Qed.

Lemma word_halves v : word_bytes v = half_bytes v ++ half_bytes (Z.shiftr v 16).
Proof. unfold word_bytes, half_bytes. cbn [app]. by rewrite !Z.shiftr_shiftr by lia. Qed.

Lemma load32_at m p v : word v -> bytes_at m p (word_bytes v) -> load32 p m = Some (v, m).
Proof.
  intros Hv H. rewrite word_halves in H. apply bytes_at_app in H as [H0 H1]. change (length (half_bytes v)) with 2%nat in H1.
  unfold load32. rewrite (bind_run _ _ _ _ _ (load16_at _ _ _ H0)), (bind_run _ _ _ _ _ (load16_at _ _ _ H1)).
  unfold ret. do 2 f_equal. unfold wrapu. rewrite Z.shiftr_div_pow2 by lia. rewrite <- Z.rem_mul_r by lia.
  change (2 ^ 16 * 2 ^ 16) with (2 ^ 32). by rewrite Z.mod_small.
Qed.

Lemma sym_at_bytes m st j y : sym_wf y -> bytes_at m (st + 16 * j) (sym_bytes y) -> sym_at st j m = Some (y, m).
Proof.
  intros (H1 & H2 & H3 & H4 & H5 & H6) H. unfold sym_bytes in H. set (p := st + 16 * j) in *.
  apply bytes_at_app in H as [B1 H]. apply bytes_at_app in H as [B2 H]. apply bytes_at_app in H as [B3 H].
  apply bytes_at_app in H as [B4 B6]. apply bytes_at_cons in B4 as [B4 B5]. apply bytes_at_cons in B5 as [B5 _].
  cbn [length word_bytes] in *. rewrite <- !Z.add_assoc in *. cbn in B2, B3, B4, B5, B6.
  unfold sym_at. fold p. rewrite (bind_run _ _ _ _ _ (load32_at _ _ _ H1 B1)), (bind_run _ _ _ _ _ (load32_at _ _ _ H2 B2)),
    (bind_run _ _ _ _ _ (load32_at _ _ _ H3 B3)), (bind_run _ _ _ _ _ (load8_at _ _ _ B4)), (bind_run _ _ _ _ _ (load8_at _ _ _ B5)),
    (bind_run _ _ _ _ _ (load16_at _ _ _ B6)).
  rewrite wrapu_small by lia. by destruct y.
Qed.

Lemma str_eq_at_cstr m p u t : cstr m p u -> Forall (fun b => 0 < b < 256) t -> str_eq_at p t m = Some (bool_decide (u = t), m).
Proof.
  intros [Hb Hu] Ht. revert p u Hb Hu. induction Ht as [|c t Hc Ht IH]; intros p u Hb Hu; cbn [str_eq_at].
  - destruct u as [|b u]; apply bytes_at_cons in Hb as [Hb _]; rewrite (bind_run _ _ _ _ _ (load8_at _ _ _ Hb)); [done|].
    apply Forall_cons_1 in Hu as [Hu _]. unfold ret. rewrite bool_decide_eq_false_2 by done. do 2 f_equal. apply Z.eqb_neq. lia.
  - destruct u as [|b u]; apply bytes_at_cons in Hb as [Hb Hr]; rewrite (bind_run _ _ _ _ _ (load8_at _ _ _ Hb)).
    + rewrite bool_decide_eq_false_2 by done. by destruct (Z.eqb_spec 0 c); [lia|].
    + apply Forall_cons_1 in Hu as [_ Hu]. destruct (Z.eqb_spec b c) as [->|Hne].
      * rewrite (IH _ u) by done. do 2 f_equal. apply bool_decide_ext. split; [by intros ->|by intros [= ->]].
      * rewrite bool_decide_eq_false_2 by congruence. done.
Qed.

Lemma symbols_head m o j y l :
  symbols m o j (y :: l) -> sym_at (symtab o) j m = Some (d_sym y, m).
Proof. intros (H1 & H2 & _). by apply sym_at_bytes. Qed.

Lemma sym_answer_spec m o t j y l :
  Forall (fun b => 0 < b < 256) t -> symbols m o j (y :: l) ->
  sym_answer o t j m = Some (if answers o t y then st_value (d_sym y) else 0, m).
Proof.
  intros Ht Hs. pose proof (symbols_head _ _ _ _ _ Hs) as Hy. destruct Hs as (_ & _ & Hn & _).
  unfold sym_answer. rewrite (bind_run _ _ _ _ _ Hy). unfold answers, exported.
  destruct (st_shndx (d_sym y) =? SHN_UNDEF); [done|]. rewrite <- negb_orb.
  destruct (_ || _); [|done]. destruct (st_value (d_sym y) =? 0); [done|]. rewrite Z.geb_leb, Z.leb_antisym.
  destruct (Z.ltb_spec (st_name (d_sym y)) (strsz o)) as [Hlt|]; [|done]. cbn [negb andb].
  rewrite (bind_run _ _ _ _ _ (str_eq_at_cstr _ _ _ _ (Hn Hlt) Ht)). done.
Qed.

Lemma answers_value o t y : answers o t y = true -> st_value (d_sym y) <> 0.
Proof. unfold answers, exported. intros H. destruct (Z.eqb_spec (st_value (d_sym y)) 0); [|done]. rewrite andb_false_r in H. done. Qed.

Lemma lookup_loop_spec m o t l j :
  Forall (fun b => 0 < b < 256) t -> symbols m o j l -> lookup_loop (length l) o t j m = Some (lookup_spec o t l, m).
Proof.
  intros Ht. revert j. induction l as [|y l IH]; intros j Hs; [done|]. cbn [length lookup_loop].
  rewrite (bind_run _ _ _ _ _ (sym_answer_spec _ _ _ _ _ _ Ht Hs)). unfold lookup_spec. cbn [find].
  destruct (answers o t y) eqn:E; cbn [default fmap].
  - apply answers_value, Z.eqb_neq in E. by rewrite E.
  - apply IH, Hs.
Qed.

(** *** Lookups only read *)

Definition reads {A} (c : M A) : Prop := forall m a m', c m = Some (a, m') -> m' = m.

Lemma reads_ret {A} (a : A) : reads (ret a).
Proof. by intros m a' m' [= <- <-]. Qed.

Lemma reads_bind {A B} (c : M A) (k : A -> M B) : reads c -> (forall a, reads (k a)) -> reads (bind c k).
Proof.
  unfold reads, bind. intros Hc Hk m b m'. destruct (c m) as [[a m1]|] eqn:E; [|done]. intros H. by rewrite (Hk _ _ _ _ H), (Hc _ _ _ E).
Qed.

Lemma reads_load8 p : reads (load8 p).
Proof. unfold load8. intros m a m'. by destruct (m !! p); [intros [= <- <-]|]. Qed.

Ltac reads :=
  repeat first [apply reads_ret | apply reads_load8 | apply reads_bind; [|intros] | progress unfold load32, load16 | case_match; cbv zeta | done].

Lemma reads_str_eq_at p t : reads (str_eq_at p t).
Proof. revert p. induction t as [|c t IH]; intros p; cbn [str_eq_at]; reads. Qed.

Lemma reads_sym_at st j : reads (sym_at st j).
Proof. unfold sym_at. cbv zeta. reads. Qed.

Lemma reads_lookup_loop n o t j : reads (lookup_loop n o t j).
Proof.
  revert j. induction n as [|n IH]; intros j; cbn [lookup_loop]; [reads|]. apply reads_bind; [|intros v; destruct (negb _); [reads|apply IH]].
  unfold sym_answer. apply reads_bind; [apply reads_sym_at|]. intros y. repeat (case_match; [reads|]). apply reads_bind; [apply reads_str_eq_at|]. intros. reads.
Qed.

Lemma dl_lookup_reads o t : reads (dl_lookup_in o t).
Proof. unfold dl_lookup_in. case_match; [reads|apply reads_lookup_loop]. Qed.

(** a name is looked up in one object exactly as a scan of its symbol table
    for the first defined, global or weak symbol of that name with a value. *)
Theorem dl_lookup_first m o t l :
  has_name o = true -> symtab o <> 0 -> strtab o <> 0 -> Forall (fun b => 0 < b < 256) t ->
  length l = Z.to_nat (symcount o - 1) -> symbols m o 1 l ->
  dl_lookup_in o t m = Some (lookup_spec o t l, m).
Proof.
  intros Hn H1%Z.eqb_neq H2%Z.eqb_neq Ht Hl Hs. unfold dl_lookup_in. rewrite Hn, H1, H2, <- Hl. by apply lookup_loop_spec.
Qed.

(** ** The order of the search *)

(** The objects a search from [self] visits, in order: itself, the searches of
    its dependencies, then the shared ones and the global ones of its namespace. *)
Fixpoint visits (k : nat) (s : dl) (self : option nat) : list nat :=
  match k with
  | O => []
  | S k =>
      match self with
      | Some i => (if has_name (obj s i) then [i] else []) ++ (filter (fun d => d <> i) (deps (load s i)) ≫= fun d => visits k s (Some d))
      | None => []
      end ++
      filter (fun i => Some i <> self) (scope (match self with Some i => ns (obj s i) | None => LM_ID_BASE end) s)
  end.

(** The objects each kind of handle stands for, in the order they are asked;
    [None] is a handle that is refused. *)
Definition handle_visits (caller : Z) (h : handle) (s : dl) : option (list nat) :=
  match h with
  | HNull | HGlobal => let idx := scope LM_ID_BASE s in Some (idx ++ (idx ≫= fun i => deps (load s i)))
  | HNext => (fun from => filter (fun i => has_name (obj s i) && (pinned (obj s i) || global (obj s i))) (seq (S from) (count s - S from)))
               <$> dl_object_of caller s
  | HObj i => (fun self => visits 5 s (Some self)) <$> slot_of i s
  end.

(** A computation that only reads. *)
Lemma on_mem_reads s {A} (c : M A) a : c (tmem (proc s)) = Some (a, tmem (proc s)) -> on_mem c s = Some (a, s).
Proof. unfold on_mem, on_tls, TlsStatic.on_mem. intros ->. by destruct s as [? ? ? ? []]. Qed.

Section Search.
Context (s : dl) (t : str) (L : nat -> Z).

(** Every table can be read: [L] is what each object answers. *)
Context (Lookup : forall i, dl_lookup_in (obj s i) t (tmem (proc s)) = Some (L i, tmem (proc s))).

Definition first_in (l : list nat) : option hit := (fun i => (L i, i)) <$> find (fun i => negb (L i =? 0)) l.

Lemma look_reads i : look i t s = Some (first_in [i], s).
Proof.
  unfold look. rewrite (bind_run (gets _) _ s _ s eq_refl), (bind_run _ _ _ _ _ (on_mem_reads _ _ _ (Lookup i))).
  unfold ret, first_in. cbn [find]. by destruct (L i =? 0).
Qed.

Lemma first_in_app l k : first_in (l ++ k) = match first_in l with Some h => Some h | None => first_in k end.
Proof. unfold first_in. induction l as [|i l IH]; [done|]. cbn [app find]. by destruct (negb _). Qed.

Lemma first_hit_reads cs ls :
  Forall2 (fun c l => c s = Some (first_in l, s)) cs ls -> first_hit cs s = Some (first_in (concat ls), s).
Proof.
  induction 1 as [|c l cs ls Hc _ IH]; [done|]. cbn [first_hit concat]. rewrite (bind_run _ _ _ _ _ Hc), first_in_app.
  by destruct (first_in l).
Qed.

Lemma looks_read l : Forall2 (fun c l => c s = Some (first_in l, s)) ((fun i => look i t) <$> l) ((fun i => [i]) <$> l).
Proof. induction l as [|i l IH]; constructor; [apply look_reads|done]. Qed.

Lemma concat_singles (l : list nat) : concat ((fun i => [i]) <$> l) = l.
Proof. induction l as [|i l IH]; [done|]. cbn. by f_equal. Qed.

Lemma concat_fmap {A} (f : A -> list nat) l : concat (f <$> l) = l ≫= f.
Proof. induction l as [|i l IH]; [done|]. cbn. by f_equal. Qed.

Lemma resolve_reads k self : dl_resolve_depth k self t s = Some (first_in (visits k s self), s).
Proof.
  revert self. induction k as [|k IH]; intros self; cbn [dl_resolve_depth visits]; [done|].
  rewrite (bind_run (gets _) _ s _ s eq_refl). change (id s) with s. cbv zeta.
  set (n := match self with Some i => ns (obj s i) | None => LM_ID_BASE end).
  assert (Hdeps : forall ds, Forall2 (fun c l => c s = Some (first_in l, s))
    ((fun d => dl_resolve_depth k (Some d) t) <$> ds) ((fun d => visits k s (Some d)) <$> ds)).
  { induction ds; constructor; [apply IH|done]. }
  rewrite (first_hit_reads _ (match self with Some i => (if has_name (obj s i) then [[i]] else []) ++
    ((fun d => visits k s (Some d)) <$> filter (fun d => d <> i) (deps (load s i))) | None => [] end ++
    ((fun i => [i]) <$> filter (fun i => Some i <> self) (scope n s)))).
  - rewrite concat_app, concat_singles. do 3 f_equal. destruct self as [i|]; [|done].
    rewrite concat_app, concat_fmap. f_equal. by destruct (has_name _).
  - apply Forall2_app; [|apply looks_read]. destruct self as [i|]; [|done]. apply Forall2_app; [|apply Hdeps].
    destruct (has_name _); [|done]. constructor; [apply look_reads|done].
Qed.

Lemma global_reads :
  dl_lookup_global t s = Some (default 0 (fst <$> first_in (scope LM_ID_BASE s ++ (scope LM_ID_BASE s ≫= fun i => deps (load s i)))), s).
Proof.
  unfold dl_lookup_global. rewrite (bind_run (gets _) _ s _ s eq_refl). unfold id. cbv zeta.
  rewrite <- fmap_app. rewrite (bind_run _ _ _ _ _ (first_hit_reads _ _ (looks_read _))), concat_singles. done.
Qed.

(** [dlsym] answers the value of the first object in the search order of its
    handle that exports the name, and leaves the state alone; it answers null
    exactly when the handle is refused or no object visited exports it, and then
    an error is pending. *)
Theorem dlsym_first_visited caller h :
  dlsym caller h (Some t) s =
  match handle_visits caller h s with
  | Some l => match first_in l with
              | Some (v, _) => Some (v, s)
              | None => Some (0, set_err (take 127 (txt (match h with HNext => "symbol not found after this object: " | _ => "symbol not found: " end) ++ t)) true s)
              end
  | None => Some (0, set_err (txt (match h with HNext => "RTLD_NEXT: cannot tell which object called dlsym" | _ => "dlsym: invalid handle" end)) true s)
  end.
Proof.
  assert (Hv : forall l v i, first_in l = Some (v, i) -> v =? 0 = false).
  { unfold first_in. intros l v i H. destruct (find _ l) as [j|] eqn:E; [|done]. apply find_some in E as [_ E].
    injection H as <- _. by apply negb_true_iff in E. }
  assert (found : forall (c : St dl Z) v, v =? 0 = false -> (if v =? 0 then c else ret v) s = Some (v, s)) by (by intros c v ->).
  unfold dlsym, handle_visits. destruct h as [| | |i].
  - rewrite (bind_run _ _ _ _ _ global_reads). destruct (first_in _) as [[v i]|] eqn:E; [|done].
    apply found, (Hv _ _ _ E).
  - rewrite (bind_run _ _ _ _ _ global_reads). destruct (first_in _) as [[v i]|] eqn:E; [|done].
    apply found, (Hv _ _ _ E).
  - rewrite (bind_run (gets _) _ s _ s eq_refl). change (id s) with s. destruct (dl_object_of caller s) as [from|]; cbn [fmap option_fmap option_map]; [|done].
    cbv zeta. rewrite (bind_run _ _ _ _ _ (first_hit_reads _ _ (looks_read _))), concat_singles.
    destruct (first_in _) as [[v i]|] eqn:E; [|done]. apply found, (Hv _ _ _ E).
  - rewrite (bind_run (gets _) _ s _ s eq_refl). change (id s) with s. destruct (slot_of i s) as [self|]; cbn [fmap option_fmap option_map]; [|done].
    unfold dl_resolve. rewrite (bind_run _ _ _ _ _ (bind_run _ _ _ _ _ (resolve_reads _ _))).
    destruct (first_in _) as [[v j]|] eqn:E; [|done]. apply found, (Hv _ _ _ E).
Qed.
End Search.

(** ** What a namespace sees *)

(** Own objects, shared ones, and the global ones of the base namespace. *)
Definition visible (n : Z) (o : cact_dl_object_t) : Prop :=
  has_name o = true /\ (ns o = n \/ pinned o = true \/ (global o = true /\ ns o = LM_ID_BASE)).

Lemma in_scope_visible n s i : i ∈ scope n s -> (i < count s)%nat /\ visible n (obj s i).
Proof.
  unfold scope, in_scope. intros [H1 H2]%list_elem_of_filter. apply elem_of_seq in H2. split; [lia|].
  apply Is_true_true, andb_true_iff in H1 as [H1 H3]. split; [done|]. apply orb_true_iff in H3 as [H3|H3]; [by right; left|].
  apply andb_true_iff in H3 as [_ H3]. left. lia.
Qed.

(** From a shared object on, only shared and global base objects are met. *)
Lemma visits_shared k s p n i :
  DlTable.shared_ok s -> (p < count s)%nat -> pinned (obj s p) = true -> i ∈ visits k s (Some p) ->
  has_name (obj s i) = true /\ (pinned (obj s i) = true \/ (global (obj s i) = true /\ ns (obj s i) = LM_ID_BASE)) /\ visible n (obj s i).
Proof.
  intros Sh Hp Hpin. destruct (Sh p Hp Hpin) as [Hn Hd]. destruct k as [|k]; [by intros []%elem_of_nil|].
  cbn [visits]. rewrite Hd, Hn. cbn [filter list_filter mbind list_bind]. rewrite app_nil_r.
  intros [Hi|Hi]%elem_of_app.
  - destruct (has_name (obj s p)) eqn:E; [|by apply elem_of_nil in Hi]. apply list_elem_of_singleton in Hi as ->.
    unfold visible. split_and!; auto.
  - apply list_elem_of_filter in Hi as [_ Hi]. unfold scope, in_scope in Hi. apply list_elem_of_filter in Hi as [Hi _].
    apply Is_true_true, andb_true_iff in Hi as [H1 H2]. unfold visible. split; [done|].
    apply orb_true_iff in H2 as [H2|H2]; [by auto|]. apply andb_true_iff in H2 as [H2 H3]. apply Z.eqb_eq in H3. auto 6.
Qed.

(** a search from an object only meets named objects of its own namespace,
    shared objects, and objects opened with RTLD_GLOBAL in the base namespace. *)
Theorem lookup_scope k s self i :
  DlTable.inv s -> DlTable.scoped s -> (self < count s)%nat -> i ∈ visits k s (Some self) -> visible (ns (obj s self)) (obj s i).
Proof.
  intros (Ok & Hns & Sh) Sc. revert self. induction k as [|k IH]; intros self Hself; cbn [visits]; [by intros []%elem_of_nil|].
  intros [[Hi|Hi]%elem_of_app|Hi]%elem_of_app.
  - destruct (has_name (obj s self)) eqn:E; [|by apply elem_of_nil in Hi]. apply list_elem_of_singleton in Hi as ->. by split; [|left].
  - apply list_elem_of_bind in Hi as (d & Hi & Hd). apply list_elem_of_filter in Hd as [_ Hd].
    destruct (Sc self d Hself Hd) as [Hlt [<-|Hp]]; [by apply IH|].
    by apply (visits_shared k s d (ns (obj s self)) i Sh Hlt Hp Hi).
  - apply list_elem_of_filter in Hi as [_ Hi]. by apply in_scope_visible in Hi as [_ Hi].
Qed.

(** Exact isolation, for an object that depends on no shared one. *)
Definition own_deps (s : dl) (n : Z) : Prop :=
  forall i d, (i < count s)%nat -> ns (obj s i) = n -> d ∈ deps (load s i) -> pinned (obj s d) = false.

(** when no object of a namespace depends on a shared one, a search inside
    it sees its own objects and the shared ones, and nothing else. *)
Theorem lookup_isolated k s self i :
  DlTable.scoped s -> (self < count s)%nat -> own_deps s (ns (obj s self)) -> i ∈ visits k s (Some self) ->
  has_name (obj s i) = true /\ (ns (obj s i) = ns (obj s self) \/ pinned (obj s i) = true).
Proof.
  intros Sc. revert self. induction k as [|k IH]; intros self Hself Own; cbn [visits]; [by intros []%elem_of_nil|].
  intros [[Hi|Hi]%elem_of_app|Hi]%elem_of_app.
  - destruct (has_name (obj s self)) eqn:E; [|by apply elem_of_nil in Hi]. apply list_elem_of_singleton in Hi as ->. by split; [|left].
  - apply list_elem_of_bind in Hi as (d & Hi & Hd). apply list_elem_of_filter in Hd as [_ Hd].
    destruct (Sc self d Hself Hd) as [Hlt [He|Hp]]; [|by rewrite (Own self d Hself eq_refl Hd) in Hp].
    rewrite <- He. apply IH; [done|by rewrite He|done].
  - apply list_elem_of_filter in Hi as [_ Hi]. unfold scope, in_scope in Hi. apply list_elem_of_filter in Hi as [Hi _].
    apply Is_true_true, andb_true_iff in Hi as [H1 H2]. split; [done|]. apply orb_true_iff in H2 as [H2|H2]; [by right|].
    apply andb_true_iff in H2 as [_ H2]. left. lia.
Qed.

(** ** The symbol an address belongs to *)

(** A symbol that may cover the address. *)
Definition below (o : cact_dl_object_t) (a : Z) (y : dsym) : bool :=
  negb (st_shndx (d_sym y) =? SHN_UNDEF) && negb (st_value (d_sym y) =? 0) && (st_value (d_sym y) <=? a) && (st_name (d_sym y) <? strsz o).

Definition closer (o : cact_dl_object_t) (a : Z) (b : Z * Z) (y : dsym) : Z * Z :=
  if below o a y && (b.1 <=? st_value (d_sym y)) then (st_value (d_sym y), u32 (strtab o + st_name (d_sym y))) else b.

Lemma nearest_reads m o a l j va nm :
  symbols m o j l -> nearest (length l) o a j va nm m = Some (foldl (closer o a) (va, nm) l, m).
Proof.
  revert j va nm. induction l as [|y l IH]; intros j va nm Hs; [done|]. cbn [length nearest foldl].
  rewrite (bind_run _ _ _ _ _ (symbols_head _ _ _ _ _ Hs)). destruct Hs as (_ & _ & _ & Hs). unfold closer at 2. cbn [fst].
  replace (below o a y && (va <=? st_value (d_sym y))) with
    (negb ((st_shndx (d_sym y) =? SHN_UNDEF) || (st_value (d_sym y) =? 0) || (st_value (d_sym y) >? a) || (st_name (d_sym y) >=? strsz o)
           || (st_value (d_sym y) <? va))).
  - destruct (_ || _); by apply IH.
  - unfold below. rewrite !negb_orb, Z.gtb_ltb, Z.geb_leb, <- !Z.leb_antisym, <- Z.ltb_antisym. done.
Qed.

Lemma closer_step o a va nm y va1 nm1 :
  closer o a (va, nm) y = (va1, nm1) ->
  va <= va1 /\ (below o a y = true -> st_value (d_sym y) <= va1) /\
  (va1 = va /\ nm1 = nm \/ below o a y = true /\ va1 = st_value (d_sym y) /\ nm1 = u32 (strtab o + st_name (d_sym y))).
Proof.
  unfold closer. cbn [fst]. destruct (below o a y); cbn [andb]; [|intros [= <- <-]; split_and!; auto; lia].
  destruct (Z.leb_spec va (st_value (d_sym y))); intros [= <- <-]; split_and!; auto; try lia.
Qed.

Lemma closer_best o a l va nm :
  let b := foldl (closer o a) (va, nm) l in
  va <= b.1 /\ Forall (fun y => below o a y = true -> st_value (d_sym y) <= b.1) l /\
  (b = (va, nm) \/ exists y, y ∈ l /\ below o a y = true /\ b = (st_value (d_sym y), u32 (strtab o + st_name (d_sym y)))).
Proof.
  revert va nm. induction l as [|y l IH]; intros va nm; cbn [foldl]; cbv zeta; [by split_and!; [done| |left]|].
  destruct (closer o a (va, nm) y) as [va1 nm1] eqn:E. destruct (closer_step _ _ _ _ _ _ _ E) as (E1 & E2 & E3).
  destruct (IH va1 nm1) as (H1 & H2 & H3). split_and!; [lia|constructor; [intros Hb0; specialize (E2 Hb0); lia|exact H2]|].
  destruct H3 as [H3|(z & Hz & Hz' & H3)]; [|right; exists z; split_and!; [by right|done|done]].
  destruct E3 as [[-> ->]|(Hb & -> & ->)]; [by left|right; exists y; split_and!; [by left|done|done]].
Qed.

Lemma symbols_wf m o j l y : symbols m o j l -> y ∈ l -> sym_wf (d_sym y).
Proof.
  intros Hs Hy. revert j Hs. induction Hy as [y l|y z l _ IH]; intros j; cbn [symbols]; [by intros [? _]|]. intros (_ & _ & _ & Hs). by eapply IH.
Qed.

Lemma below_facts o a y : sym_wf (d_sym y) -> below o a y = true -> 0 < st_value (d_sym y) /\ 0 <= st_name (d_sym y) < strsz o.
Proof.
  intros (H1 & H2 & _) H. unfold word in *. unfold below in H. rewrite !andb_true_iff, !negb_true_iff in H.
  destruct H as (((_ & H3%Z.eqb_neq) & _) & H4%Z.ltb_lt). lia.
Qed.

(** for an address inside a registered image, [dladdr] reports that object
    and the defined symbol with the greatest value not above the address, or no
    symbol when there is none. *)
Theorem dladdr_nearest s a info i l :
  let o := obj s i in
  dl_object_of a s = Some i -> a < 2 ^ 32 -> symtab o <> 0 -> 0 < strtab o -> strtab o + strsz o <= 2 ^ 32 ->
  length l = Z.to_nat (symcount o - 1) -> symbols (tmem (proc s)) o 1 l ->
  exists va nm,
    dladdr a (Some info) s = Some ((1, Some (Info (name o) (base o) nm va)), s) /\
    (va = 0 /\ nm = 0 /\ Forall (fun y => below o a y = false) l \/
     exists y, y ∈ l /\ below o a y = true /\ va = st_value (d_sym y) /\ nm = strtab o + st_name (d_sym y) /\
       Forall (fun z => below o a z = true -> st_value (d_sym z) <= va) l).
Proof.
  intros o Ho Ha Hsy Hst Hsz Hl Hs. unfold dladdr. rewrite (bind_run (gets _) _ s _ s eq_refl), Ho.
  replace (a >? 4294967295) with false by (symmetry; rewrite Z.gtb_ltb; apply Z.ltb_ge; lia).
  rewrite (bind_run (gets _) _ s _ s eq_refl). fold o. rewrite (proj2 (Z.eqb_neq _ _) Hsy), (proj2 (Z.eqb_neq (strtab o) 0)) by lia.
  cbn [negb andb]. rewrite <- Hl. rewrite (bind_run _ _ _ _ _ (on_mem_reads s _ _ (nearest_reads _ _ _ _ _ 0 0 Hs))).
  destruct (closer_best o a l 0 0) as (_ & Hmax & Hb). destruct (foldl _ _ l) as [va nm]. cbn [fst] in Hmax.
  destruct Hb as [[= -> ->]|(y & Hy & Hby & [= -> ->])].
  - exists 0, 0. change (0 =? 0) with true. cbv iota. split; [done|]. left. split_and!; [done..|].
    apply Forall_forall. intros z Hz. destruct (below o a z) eqn:E; [|done].
    destruct (below_facts _ _ _ (symbols_wf _ _ _ _ _ Hs (proj2 (list_elem_of_In _ _) Hz)) E) as [? _]. pose proof (proj1 (Forall_forall _ _) Hmax z Hz E). cbv beta in *. lia.
  - exists (st_value (d_sym y)), (strtab o + st_name (d_sym y)).
    destruct (below_facts _ _ _ (symbols_wf _ _ _ _ _ Hs Hy) Hby) as [_ Hn].
    rewrite u32_small by lia. replace (_ =? 0) with false by (symmetry; apply Z.eqb_neq; lia). split; [done|]. right. exists y. by split_and!.
Qed.
End DlScope.
