(* ===== verification/DlImage.v ===== *)
(** * DlImage: mapping a file at its link addresses

    What the mapping loop of [dl_load_one] leaves in memory, and small images
    written as bytes that [dlopen] loads by evaluation. *)

From Stdlib Require Import ZArith Lia Bool String Ascii.
From stdpp Require Import base gmap list numbers.
From S2P Require Import Prelude Monad Memory TlsLayout TlsStatic Dlfcn DlTable DlScope.

Module DlImage.
Import TlsStatic Dlfcn.

(** ** The image in memory *)

(** Is the address on a page of the segment? *)
Definition seg_has (q : Z) (p : Elf32_Phdr) : bool := loadable p && (seg_lo p <=? q) && (q <? seg_hi p).

(** The byte the file gives to an address of the segment, 0 past its part. *)
Definition seg_byte (f : list Z) (p : Elf32_Phdr) (q : Z) : Z :=
  if (p_vaddr p <=? q) && (q <? p_vaddr p + p_filesz p) then default 0 (f !! Z.to_nat (p_offset p + (q - p_vaddr p))) else 0.

(** The reference: memory overlaid with the segments. *)
Definition overlay (f : list Z) (ph : list Elf32_Phdr) (m : mem) (q : Z) : option Z :=
  match find (seg_has q) ph with Some p => Some (seg_byte f p q) | None => m !! q end.

(** A segment whose part of the file exists and that does not reach the top. *)
Definition seg_wf (f : list Z) (p : Elf32_Phdr) : Prop :=
  0 <= p_vaddr p /\ p_vaddr p + p_memsz p + 4095 < 2 ^ 32 /\ 0 <= p_filesz p <= p_memsz p /\
  0 <= p_offset p /\ p_offset p + p_filesz p <= Z.of_nat (length f).

Definition apart (p q : Elf32_Phdr) : Prop := loadable p = true -> loadable q = true -> seg_hi p <= seg_lo q \/ seg_hi q <= seg_lo p.

Definition load_count (ph : list Elf32_Phdr) : nat := length (filter (fun p => loadable p = true) ph).

Lemma page_down_eq v : 0 <= v < 2 ^ 32 -> page_down v = v - v mod 4096.
Proof.
  intros Hv. unfold page_down. rewrite u32_small by done. change 4294963200 with (u32 (Z.lnot (2 ^ 12 - 1))). by apply (land_u32_mask v 12).
Qed.

(** The pages cover the segment. *)
Lemma seg_pages f p : seg_wf f p -> 0 <= seg_lo p <= p_vaddr p /\ p_vaddr p + p_memsz p <= seg_hi p < 2 ^ 32.
Proof.
  intros (H1 & H2 & H3 & _). unfold seg_lo, seg_hi. rewrite !page_down_eq by lia.
  pose proof (Z.mod_pos_bound (p_vaddr p) 4096). pose proof (Z.mod_pos_bound (p_vaddr p + p_memsz p + 4095) 4096).
  pose proof (Z.mod_le (p_vaddr p) 4096). lia.
Qed.

Lemma zero_pages_lookup n p m q : zero_pages n p m !! q = if bool_decide (p <= q < p + Z.of_nat n) then Some 0 else m !! q.
Proof.
  revert p. induction n as [|n IH]; intros p; cbn [zero_pages]; [by rewrite bool_decide_eq_false_2 by lia|].
  destruct (decide (p = q)) as [->|Hne].
  - by rewrite lookup_insert_eq, bool_decide_eq_true_2 by lia.
  - rewrite lookup_insert_ne, IH by done. by repeat case_bool_decide; try lia.
Qed.

Definition upd (m : mem) (s : dl) : dl := set_proc (mk_tls (lay (proc s)) (tls_blocks (proc s)) m) s.

Lemma on_mem_run {A} (c : M A) s a m : c (tmem (proc s)) = Some (a, m) -> on_mem c s = Some (a, upd m s).
Proof. unfold on_mem, on_tls, TlsStatic.on_mem. by intros ->. Qed.

Section Mapping.
Context `{Ldr : Loader}.

(** *** Reading the file *)

Definition rd_bytes (r : rd) : list Z := match r with RData bs => bs | _ => [] end.
Definition rd_fine (r : rd) : Prop := match r with RData bs => bs <> [] | RIntr => True | RFail => False end.

Lemma read_loop_whole rs fuel cap buf :
  (forall z, buf_grants z = true) -> Forall rd_fine rs ->
  0 < cap -> Z.of_nat (length buf) <= cap -> Z.of_nat (length (buf ++ (rs ≫= rd_bytes))) < 2 ^ 31 -> (read_fuel rs <= fuel)%nat ->
  read_loop fuel cap buf rs = Some (buf ++ (rs ≫= rd_bytes)).
Proof.
  intros Hg. revert cap buf rs. induction fuel as [|fuel IH]; intros cap buf rs Hrs Hc Hb Ht Hf; [unfold read_fuel in Hf; lia|].
  cbn [read_loop]. rewrite Hg, andb_false_r. rewrite length_app in Ht. set (cap2 := if Z.of_nat (length buf) =? cap then _ else cap).
  assert (Hc2 : 0 < cap2 /\ Z.of_nat (length buf) < cap2).
  { unfold cap2. destruct (Z.eqb_spec (Z.of_nat (length buf)) cap); [rewrite u32_small by lia|]; lia. }
  clearbody cap2. destruct rs as [|r rs]; [by rewrite app_nil_r|]. apply Forall_cons_1 in Hrs as [Hr Hrs].
  cbn [mbind list_bind] in *. rewrite length_app in Ht. unfold read_fuel in Hf. cbn [foldr] in Hf.
  destruct r as [bs| |]; cbn [rd_bytes rd_fine] in *; [|apply IH; try done; rewrite ?length_app; unfold read_fuel; lia|done].
  destruct bs as [|b bs]; [done|]. set (w := b :: bs) in *. set (room := Z.to_nat _).
  assert (Hroom : (0 < room)%nat) by (unfold room; lia). pose proof (take_drop room w) as Hw.
  pose proof (f_equal length Hw) as Hlen. rewrite length_app in Hlen.
  assert (Htk : Z.of_nat (length (buf ++ take room w)) <= cap2) by (rewrite length_app, length_take; unfold room; lia).
  assert (0 < length (take room w))%nat by (rewrite length_take; cbn; lia).
  rewrite IH; [|..]; try done; try lia.
  - destruct (drop room w) as [|x rest] eqn:E.
    + rewrite app_nil_r in Hw. by rewrite Hw, <- app_assoc.
    + cbn [mbind list_bind rd_bytes]. by rewrite <- app_assoc, (app_assoc (take room w) (x :: rest)), Hw.
  - destruct (drop room w) as [|x rest]; [done|]. by constructor.
  - rewrite <- app_assoc, !length_app. destruct (drop room w) as [|x rest]; cbn [mbind list_bind rd_bytes]; rewrite ?length_app; cbn [length] in *; lia.
  - unfold read_fuel. destruct (drop room w) as [|x rest]; cbn [foldr length] in *; lia.
Qed.

(** A file that is read in any pieces, with interruptions, is read whole. *)
Theorem dl_read_file_whole p rs :
  (forall z, buf_grants z = true) -> file_reads p = Some rs -> Forall rd_fine rs -> Z.of_nat (length (rs ≫= rd_bytes)) < 2 ^ 31 ->
  dl_read_file p = Some (rs ≫= rd_bytes).
Proof. intros Hg Hp Hrs Hl. unfold dl_read_file. rewrite Hp, Hg. by apply (read_loop_whole rs _ 65536 []). Qed.

Definition seg_entry (p : Elf32_Phdr) : Z * Z := (seg_lo p, seg_hi p - seg_lo p).

(** Mapping and copying one segment. *)
Lemma map_one_seg w f p mp s :
  loadable p = true -> seg_wf f p -> mmap_grants (seg_lo p) (seg_hi p - seg_lo p) = true ->
  Forall byte_ok f -> Z.of_nat (length f) < 2 ^ 32 -> (length (mapped mp) < DL_MAX_SEGS)%nat ->
  exists m, map_one w f p mp s = Some ((true, Mapping (mapped mp ++ [seg_entry p]) (m_dyn mp) (m_dynsz mp) (m_tls mp)), upd m s) /\
    forall q, m !! q = if seg_has q p then Some (seg_byte f p q) else tmem (proc s) !! q.
Proof.
  intros Hl Wf Hg Hf Hlen Hm. pose proof (seg_pages f p Wf) as [Hlo Hhi]. destruct Wf as (W1 & W2 & W3 & W4 & W5).
  assert (Ht : p_type p = PT_LOAD) by (unfold loadable in Hl; apply andb_true_iff in Hl as [Hl _]; lia).
  unfold map_one. rewrite Ht, Hl. cbn [negb]. change (PT_LOAD =? PT_DYNAMIC) with false. change (PT_LOAD =? PT_TLS) with false. cbv iota zeta.
  rewrite (proj2 (Nat.leb_gt _ _) Hm). rewrite !(u32_small (seg_hi p - seg_lo p)) by lia. rewrite Hg. cbn [negb].
  unfold edit_mem. set (m1 := zero_pages (Z.to_nat (seg_hi p - seg_lo p)) (seg_lo p) (tmem (proc s))).
  rewrite (bind_run _ _ _ _ _ (on_mem_run _ _ tt m1 eq_refl)).
  assert (H1 : forall q, m1 !! q = if seg_has q p then Some 0 else tmem (proc s) !! q).
  { intros q. unfold m1, seg_has. rewrite zero_pages_lookup, Hl. cbn [andb].
    case_bool_decide; [rewrite (proj2 (Z.leb_le _ _)), (proj2 (Z.ltb_lt _ _)) by lia; done|].
    destruct (Z.leb_spec (seg_lo p) q), (Z.ltb_spec q (seg_hi p)); try done. lia. }
  destruct (Z.eqb_spec (p_filesz p) 0) as [Hz|Hz].
  - exists m1. split; [done|]. intros q. rewrite H1. unfold seg_byte. rewrite Hz.
    replace ((p_vaddr p <=? q) && (q <? p_vaddr p + 0)) with false; [done|]. symmetry. apply andb_false_iff. destruct (Z.leb_spec (p_vaddr p) q); [right; apply Z.ltb_ge; lia|by left].
  - rewrite u32_small by lia. replace (_ >? _) with false by (symmetry; rewrite Z.gtb_ltb; apply Z.ltb_ge; lia).
    set (bs := take _ _). assert (Hbs : length bs = Z.to_nat (p_filesz p)).
    { unfold bs. rewrite length_take, length_drop. lia. }
    rewrite Hbs, Nat.eqb_refl.
    assert (Hw : store_bytes (p_vaddr p) bs (tmem (proc (upd m1 s))) = Some (tt, write_list (p_vaddr p) bs m1)).
    { apply store_bytes_eq.
      - intros i Hi. change (tmem (proc (upd m1 s))) with m1. rewrite H1. unfold seg_has. rewrite Hl. cbn [andb].
        rewrite (proj2 (Z.leb_le _ _)), (proj2 (Z.ltb_lt _ _)) by lia. done.
      - unfold bs. by apply Forall_take, Forall_drop. }
    rewrite (bind_run _ _ _ _ _ (on_mem_run _ _ _ _ Hw)). exists (write_list (p_vaddr p) bs m1). split; [done|].
    intros q. rewrite lookup_write_list, H1, Hbs. unfold seg_byte.
    case_bool_decide as Hq.
    + unfold seg_has. rewrite Hl. cbn [andb]. rewrite (proj2 (Z.leb_le (seg_lo p) _)), (proj2 (Z.ltb_lt q (seg_hi p))) by lia. cbn [andb].
      rewrite (proj2 (Z.leb_le (p_vaddr p) q)), (proj2 (Z.ltb_lt q _)) by lia. cbn [andb].
      unfold bs. rewrite lookup_take_lt, lookup_drop by lia.
      replace (Z.to_nat (p_offset p) + Z.to_nat (q - p_vaddr p))%nat with (Z.to_nat (p_offset p + (q - p_vaddr p))) by lia.
      destruct (lookup_lt_is_Some_2 f (Z.to_nat (p_offset p + (q - p_vaddr p)))) as [b ->]; [lia|done].
    + case_match; [|done]. replace (_ && _) with false; [done|]. symmetry. apply andb_false_iff.
      destruct (Z.leb_spec (p_vaddr p) q); [right; apply Z.ltb_ge; lia|by left].
Qed.

Definition seg_ok (f : list Z) (p : Elf32_Phdr) : Prop :=
  loadable p = true -> seg_wf f p /\ mmap_grants (seg_lo p) (seg_hi p - seg_lo p) = true.

(** Segments that exist in the file, that the kernel maps, on pages of their own. *)
Fixpoint segs_ok (f : list Z) (ph : list Elf32_Phdr) : Prop :=
  match ph with [] => True | p :: ph => seg_ok f p /\ Forall (apart p) ph /\ segs_ok f ph end.

Lemma seg_has_bounds q p : seg_has q p = true -> loadable p = true /\ seg_lo p <= q < seg_hi p.
Proof. unfold seg_has. rewrite !andb_true_iff. intros [[? ?%Z.leb_le] ?%Z.ltb_lt]. done. Qed.

Lemma apart_find p ph q : Forall (apart p) ph -> seg_has q p = true -> find (seg_has q) ph = None.
Proof.
  intros Ha Hp. induction Ha as [|p' ph Hp' _ IH]; [done|]. cbn [find].
  destruct (seg_has q p') eqn:E; [|done]. apply seg_has_bounds in Hp as [L1 B1], E as [L2 B2]. destruct (Hp' L1 L2); lia.
Qed.

Lemma map_segs_overlay w f ph mp s :
  Forall byte_ok f -> Z.of_nat (length f) < 2 ^ 32 -> segs_ok f ph ->
  (length (mapped mp) + load_count ph <= DL_MAX_SEGS)%nat ->
  exists mp' m, map_segs w f ph mp s = Some ((true, mp'), upd m s) /\
    mapped mp' = mapped mp ++ (seg_entry <$> filter (fun p => loadable p = true) ph) /\
    forall q, m !! q = overlay f ph (tmem (proc s)) q.
Proof.
  intros Hf Hlen. revert mp s. induction ph as [|p ph IH]; intros mp s Ok Hc.
  { exists mp, (tmem (proc s)). cbn. rewrite app_nil_r. split_and!; [|done|done]. unfold ret. by destruct s as [? ? ? ? []]. }
  destruct Ok as (Hp & Ha & Ok). cbn [map_segs]. unfold load_count in *. rewrite filter_cons in *. unfold overlay. cbn [find].
  case_decide as Hl.
  - destruct (Hp Hl) as [Wf Hg]. cbn [length] in Hc.
    destruct (map_one_seg w f p mp s Hl Wf Hg Hf Hlen) as (m1 & E1 & H1); [lia|].
    rewrite (bind_run _ _ _ _ _ E1). edestruct (IH (Mapping (mapped mp ++ [seg_entry p]) (m_dyn mp) (m_dynsz mp) (m_tls mp)) (upd m1 s) Ok) as (mp' & m & E & Em & H).
    { cbn [mapped]. rewrite length_app. cbn [length]. lia. }
    exists mp', m. split_and!; [exact E|cbn [mapped] in Em; rewrite Em; by rewrite <- app_assoc|].
    intros q. rewrite H. unfold overlay. change (tmem (proc (upd m1 s))) with m1. rewrite H1.
    destruct (seg_has q p) eqn:Eq; [|done]. by rewrite (apart_find _ _ _ Ha Eq).
  - apply not_true_is_false in Hl. assert (Hq : forall q, seg_has q p = false) by (intros q; unfold seg_has; by rewrite Hl).
    assert (E1 : exists mp1, map_one w f p mp s = Some ((true, mp1), s) /\ mapped mp1 = mapped mp).
    { unfold map_one. rewrite Hl. cbn [negb]. destruct (_ =? _); [by eexists|]. destruct (_ =? _); by eexists. }
    destruct E1 as (mp1 & E1 & Em1). rewrite (bind_run _ _ _ _ _ E1).
    destruct (IH mp1 s Ok) as (mp' & m & E & Em & H); [rewrite Em1; lia|].
    exists mp', m. split_and!; [exact E|by rewrite Em, Em1|]. intros q. rewrite H. unfold overlay. by rewrite Hq.
Qed.

(** mapping a file whose segments are on pages of their own leaves memory
    equal to the old one overlaid with the segments, each its part of the file
    and then zeros to the end of its last page; everything else, the table
    included, is as it was, and the segments to unmap later are recorded. *)
Theorem map_segs_image w f ph s :
  Forall byte_ok f -> Z.of_nat (length f) < 2 ^ 32 -> segs_ok f ph -> (load_count ph <= DL_MAX_SEGS)%nat ->
  exists mp m, map_segs w f ph (Mapping [] 0 0 None) s = Some ((true, mp), upd m s) /\
    mapped mp = seg_entry <$> filter (fun p => loadable p = true) ph /\
    forall q, m !! q = overlay f ph (tmem (proc s)) q.
Proof. intros Hf Hl Ok Hc. by apply (map_segs_overlay w f ph (Mapping [] 0 0 None) s Hf Hl Ok). Qed.

(** *** Unmapping *)

Lemma drop_pages_lookup n p (m : mem) q : drop_pages n p m !! q = if bool_decide (p <= q < p + Z.of_nat n) then None else m !! q.
Proof.
  revert p. induction n as [|n IH]; intros p; cbn [drop_pages]; [by rewrite bool_decide_eq_false_2 by lia|].
  destruct (decide (p = q)) as [->|Hne].
  - by rewrite lookup_delete_eq, bool_decide_eq_true_2 by lia.
  - rewrite lookup_delete_ne, IH by done. by repeat case_bool_decide; try lia.
Qed.

Definition in_entry (q : Z) (g : Z * Z) : bool := (g.1 <=? q) && (q <? g.1 + g.2).

Lemma unmap_all_lookup gs s :
  exists m, unmap_all gs s = Some (tt, upd m s) /\ forall q, m !! q = if existsb (in_entry q) gs then None else tmem (proc s) !! q.
Proof.
  revert s. induction gs as [|g gs IH]; intros s; cbn [unmap_all for_each existsb].
  { exists (tmem (proc s)). split; [|done]. unfold ret. by destruct s as [? ? ? ? []]. }
  unfold munmap, edit_mem. set (m1 := drop_pages (Z.to_nat g.2) g.1 (tmem (proc s))).
  rewrite (bind_run _ _ _ _ _ (on_mem_run _ _ tt m1 eq_refl)). destruct (IH (upd m1 s)) as (m & E & H).
  exists m. split; [exact E|]. intros q. rewrite H. change (tmem (proc (upd m1 s))) with m1. unfold m1. rewrite drop_pages_lookup.
  unfold in_entry at 2. case_bool_decide as Hq.
  - rewrite (proj2 (Z.leb_le _ _)), (proj2 (Z.ltb_lt _ _)) by lia. by destruct (existsb _ _).
  - replace ((g.1 <=? q) && (q <? g.1 + g.2)) with false; [done|]. symmetry. apply andb_false_iff.
    destruct (Z.leb_spec g.1 q); [right; apply Z.ltb_ge; lia|by left].
Qed.

Lemma in_entries q f ph :
  segs_ok f ph ->
  existsb (in_entry q) (seg_entry <$> filter (fun p => loadable p = true) ph) = match find (seg_has q) ph with Some _ => true | None => false end.
Proof.
  induction ph as [|p ph IH]; intros Ok; [done|]. destruct Ok as (Hp & _ & Ok). rewrite filter_cons. cbn [find]. case_decide as Hl.
  - cbn [fmap list_fmap existsb]. rewrite IH by done. unfold in_entry, seg_entry, seg_has. cbn [fst snd]. rewrite Hl. cbn [andb].
    rewrite Z.add_sub_assoc, Z.add_comm, Z.add_simpl_r. by destruct ((_ <=? _) && _).
  - rewrite IH by done. apply not_true_is_false in Hl. unfold seg_has at 2. by rewrite Hl.
Qed.

(** unmapping the segments that mapping a file recorded takes away exactly
    the pages it added: where nothing was mapped before, memory is back to what
    it was. *)
Theorem map_unmap w f ph s mp s1 :
  Forall byte_ok f -> Z.of_nat (length f) < 2 ^ 32 -> segs_ok f ph -> (load_count ph <= DL_MAX_SEGS)%nat ->
  (forall q p, p ∈ ph -> seg_has q p = true -> tmem (proc s) !! q = None) ->
  map_segs w f ph (Mapping [] 0 0 None) s = Some ((true, mp), s1) -> unmap_all (mapped mp) s1 = Some (tt, s).
Proof.
  intros Hf Hl Ok Hc Hfree E. destruct (map_segs_overlay w f ph (Mapping [] 0 0 None) s Hf Hl Ok Hc) as (mp' & m & E' & Em & H).
  rewrite E in E'. injection E' as <- ->. destruct (unmap_all_lookup (mapped mp) (upd m s)) as (m2 & E2 & H2). rewrite E2.
  replace m2 with (tmem (proc s)); [by destruct s as [? ? ? ? []]|]. apply map_eq. intros q. rewrite H2, Em. cbn [mapped app].
  rewrite (in_entries q f ph Ok). change (tmem (proc (upd m s))) with m. rewrite H. unfold overlay.
  destruct (find (seg_has q) ph) as [p|] eqn:F; [|done]. apply find_some in F as [F1 F2]. apply (Hfree q p); [by apply list_elem_of_In|done].
Qed.
End Mapping.

(** ** Reference counts *)

Fixpoint closes (n : nat) (k : nat) (s : dl) : option dl :=
  match n with O => Some s | S n => match dlclose (HObj (Z.of_nat k)) s with Some (0, s) => closes n k s | _ => None end end.

Lemma slot_of_live s k : (k < CACT_DL_MAX_OBJECTS)%nat -> has_name (obj s k) = true -> slot_of (Z.of_nat k) s = Some k.
Proof.
  intros Hk Hn. unfold slot_of. rewrite Nat2Z.id, Hn, (proj2 (Z.ltb_ge _ _)), (proj2 (Z.leb_gt _ _)) by lia. done.
Qed.

Lemma set_obj_twice k o o' s : set_obj k o (set_obj k o' s) = set_obj k o s.
Proof. unfold set_obj. cbn [objs count loads ns_used proc dlerr dlerr_set calls lms]. by rewrite list_insert_insert_eq. Qed.

Lemma closes_counted n k s :
  (k < length (objs s))%nat -> length (objs s) = CACT_DL_MAX_OBJECTS -> has_name (obj s k) = true -> pinned (obj s k) = false ->
  refs (obj s k) = Z.of_nat (S n) -> closes n k s = Some (if n is O then s else set_obj k (set_refs 1 (obj s k)) s).
Proof.
  revert s. induction n as [|n IH]; intros s Hk Hl Hn Hp Hr; [done|]. cbn [closes]. unfold dlclose.
  rewrite (bind_run (gets _) _ s _ s eq_refl). change (id s) with s. rewrite slot_of_live by (done || lia). rewrite Hp, Hr.
  replace (Z.of_nat (S (S n)) >? 1) with true by (symmetry; rewrite Z.gtb_ltb; apply Z.ltb_lt; lia).
  unfold bind, modify, ret. set (s1 := set_obj k _ s).
  assert (H1 : obj s1 k = set_refs (Z.of_nat (S n)) (obj s k)).
  { unfold s1. rewrite DlTable.obj_set by lia. rewrite decide_True by done. f_equal. lia. }
  rewrite IH; [|unfold s1; cbn; rewrite ?length_insert; lia|unfold s1; cbn; by rewrite length_insert|by rewrite H1..].
  f_equal. rewrite H1. destruct n; [unfold s1; do 2 f_equal; lia|]. unfold s1. by rewrite set_obj_twice.
Qed.

Lemma drop_tls_run off s :
  exists s', (if off =? CACT_DL_NO_TLS then ret tt else on_tls (cact_tls_module_drop off)) s = Some (tt, s') /\
    DlTable.table s' = DlTable.table s /\ tmem (proc s') = tmem (proc s).
Proof. destruct (_ =? _); eexists; split_and!; done. Qed.

Lemma release_run n s : exists s', dl_ns_release_if_empty n s = Some (tt, s') /\ objs s' = objs s /\ proc s' = proc s.
Proof.
  unfold dl_ns_release_if_empty. rewrite (bind_run (gets _) _ s _ s eq_refl). destruct (_ || _); [by eexists|].
  destruct (existsb _ _); by eexists.
Qed.

(** an object opened [n + 1] times stays as it is through [n] closes, which
    only count down; the close after that forgets it and unmaps every segment
    it had. *)
Theorem dlclose_counts n k s :
  DlTable.inv s -> (k < CACT_DL_MAX_OBJECTS)%nat -> has_name (obj s k) = true -> pinned (obj s k) = false ->
  refs (obj s k) = Z.of_nat (S n) ->
  exists s1 s2, closes n k s = Some s1 /\ obj s1 k = set_refs 1 (obj s k) /\ tmem (proc s1) = tmem (proc s) /\
    dlclose (HObj (Z.of_nat k)) s1 = Some (0, s2) /\ has_name (obj s2 k) = false /\
    forall q, tmem (proc s2) !! q = if existsb (in_entry q) (segs (load s k)) then None else tmem (proc s) !! q.
Proof.
  intros (Ok & _) Hk Hn Hp Hr. pose proof (DlTable.ok_objs _ Ok) as Hl.
  rewrite closes_counted by (done || lia). set (s1 := if n is O then s else _). exists s1.
  assert (Hs1 : obj s1 k = set_refs 1 (obj s k) /\ loads s1 = loads s /\ proc s1 = proc s /\ length (objs s1) = CACT_DL_MAX_OBJECTS).
  { destruct n; unfold s1; [split_and!; try done; destruct (obj s k); cbn in Hr; by subst|].
    split_and!; try done; [|cbn; by rewrite length_insert]. rewrite DlTable.obj_set by lia. by rewrite decide_True. }
  clearbody s1. destruct Hs1 as (E1 & E2 & E3 & E4). unfold dlclose.
  rewrite (bind_run (gets _) _ s1 _ s1 eq_refl). change (id s1) with s1. rewrite slot_of_live by (done || by rewrite E1). cbv zeta. rewrite E1.
  cbn [pinned refs set_refs tls_off ns]. rewrite Hp. change (1 >? 1) with false. cbv iota.
  destruct (drop_tls_run (tls_off (obj s k)) s1) as (s2 & F2 & T2 & M2). rewrite (bind_run _ _ _ _ _ F2).
  destruct (unmap_all_lookup (segs (load s1 k)) s2) as (m & F3 & H3). rewrite (bind_run _ _ _ _ _ F3).
  rewrite (bind_run (modify _) _ _ tt _ eq_refl), (bind_run (modify _) _ _ tt _ eq_refl). set (s3 := set_obj _ _ _).
  destruct (release_run (ns (obj s k)) s3) as (s4 & F4 & O4 & P4). rewrite (bind_run _ _ _ _ _ F4).
  assert (Hload : load s1 k = load s k) by (unfold load; by rewrite E2).
  exists s4. split_and!; [done|done|by rewrite E3|done| |].
  - unfold obj. rewrite O4. fold (obj s3 k). unfold s3. rewrite DlTable.obj_set; [by rewrite decide_True|].
    cbn. destruct (DlTable.table_inv _ _ T2) as (_ & -> & _). lia.
  - intros q. rewrite P4. change (tmem (proc s3)) with m. rewrite H3, M2, E3, Hload. done.
Qed.

(** ** Small images *)

(** One segment that holds the whole file: the header, the program headers, the
    dynamic section, the symbols, a hash table with their number, the
    relocations and the strings. *)
Section Image.
Context (at_ : Z) (soname : str) (needed : list str) (syms : list (str * Z)) (undefs : list str) (rels : list (Z * Z)).

Definition im_strings : list str := [soname] ++ needed ++ (fst <$> syms) ++ undefs.

Fixpoint str_offsets (off : Z) (l : list str) : list Z :=
  match l with [] => [] | t :: l => off :: str_offsets (off + Z.of_nat (length t) + 1) l end.

Definition im_offsets : list Z := str_offsets 1 im_strings.
Definition im_strtab : list Z := 0 :: (im_strings ≫= fun t => t ++ [0]).

Definition im_symcount : Z := 1 + Z.of_nat (length syms + length undefs).
Definition im_dynsz : Z := 8 * (Z.of_nat (length needed) + 8).
Definition im_dyn : Z := at_ + 116.
Definition im_sym : Z := im_dyn + im_dynsz.
Definition im_hash : Z := im_sym + 16 * im_symcount.
Definition im_rel : Z := im_hash + 8.
Definition im_str : Z := im_rel + 8 * Z.of_nat (length rels).
Definition im_size : Z := im_str - at_ + Z.of_nat (length im_strtab).

Definition halves (l : list Z) : list Z := l ≫= DlScope.half_bytes.
Definition words (l : list Z) : list Z := l ≫= word_bytes.

Definition im_header : list Z :=
  [127; 69; 76; 70] ++ repeat 0 12 ++ halves [3; 3] ++ words [1; 0; 52; 0; 0] ++ halves [52; 32; 2; 0; 0; 0].

Definition im_phdrs : list Z := words ([1; 0; at_; at_; im_size; im_size; 7; 4096] ++ [2; 116; im_dyn; im_dyn; im_dynsz; im_dynsz; 6; 4]).

Definition im_dynamic : list Z :=
  words ([14; 1] ++ (take (length needed) (drop 1 im_offsets) ≫= fun o => [1; o]) ++
    [6; im_sym; 5; im_str; 10; Z.of_nat (length im_strtab); 4; im_hash; 17; im_rel; 18; 8 * Z.of_nat (length rels); 0; 0]).

Definition im_symbols : list Z :=
  repeat 0 16 ++
  (zip (drop (1 + length needed) im_offsets) ((snd <$> syms) ++ (const 0 <$> undefs)) ≫= fun '(o, v) =>
     DlScope.sym_bytes (Sym o v 0 16 0 (if v =? 0 then 0 else 1))).

Definition image : list Z :=
  im_header ++ im_phdrs ++ im_dynamic ++ im_symbols ++ words [0; im_symcount] ++
  words (rels ≫= fun '(o, i) => [o; i]) ++ im_strtab.
End Image.
End DlImage.
