(* ===== verification/DlWorld.v ===== *)
(** * DlWorld: the run-time loader on concrete files

    A process with the program and its library, six small plugins on disk, and
    the runs that show the theorems of [DlTable], [DlScope] and [DlImage] at
    work, and where the loader does not do what its comments say. *)

From Stdlib Require Import ZArith Lia Bool String Ascii.
From stdpp Require Import base gmap list numbers.
From S2P Require Import Prelude Monad Memory TlsLayout TlsStatic Dlfcn DlTable DlScope DlImage.

Module DlWorld.
Import TlsStatic Dlfcn DlImage.

(** ** The files *)

(** A plugin that exports [f]. *)
Definition p_so : list Z := image 65536 (txt "p.so") [] [(txt "f", 65600)] [] [].
(** A library, and another one linked at the same address. *)
Definition b_so : list Z := image 131072 (txt "b.so") [] [(txt "b", 131136)] [] [].
Definition c_so : list Z := image 131072 (txt "c.so") [] [(txt "c", 131140)] [] [].
(** Needs the library and a symbol that nobody has. *)
Definition a_so : list Z := image 196608 (txt "a.so") [txt "b.so"] [] [txt "nope"] [(196620, 263)].
(** Needs the library and its symbol. *)
Definition d_so : list Z := image 262144 (txt "d.so") [txt "b.so"] [] [txt "b"] [(262156, 263)].
(** Needs the shared library, as every plugin does. *)
Definition n_so : list Z := image 327680 (txt "n.so") [txt "clibc.so"] [] [] [].

Definition files : list (str * list Z) :=
  [(txt "/usr/lib/p.so", p_so); (txt "/usr/lib/b.so", b_so); (txt "/usr/lib/c.so", c_so);
   (txt "/usr/lib/a.so", a_so); (txt "/usr/lib/d.so", d_so); (txt "/usr/lib/n.so", n_so)].

#[local] Instance Disk : Loader := {|
  file_reads p := (fun x => [RIntr; RData (snd x)]) <$> find (fun x => bool_decide (x.1 = p)) files;
  buf_grants _ := true;
  mmap_grants _ _ := true
|}.

(** ** The process *)

Definition main_obj : cact_dl_object_t := Obj (Some (txt "<main>")) 0 0 0 0 0 0 [] 32768 4096 true false 1 0 CACT_DL_NO_TLS 0.
Definition libc_obj : cact_dl_object_t := Obj (Some (txt "clibc.so")) 0 0 0 0 0 0 [] 40960 8192 true false 1 0 CACT_DL_NO_TLS 0.

Definition no_tls : tls := mk_tls (TlsLayout.mk_layout 0 0 0 0 1 (repeat (TlsLayout.mk_module 0 0 0 0 0 0) 8)) [] ∅.

Definition s0 : dl :=
  Dl 2 (main_obj :: libc_obj :: repeat no_object 6) (repeat (Ld [] [] []) 8) (repeat false 16) no_tls [] false []
    (repeat (Lm 0 None 0 None None) 8).

(** The state after a computation, and its result. *)
Definition after {A} (c : St dl A) (s : dl) : dl := match c s with Some (_, s') => s' | None => s end.
Definition result {A} (c : St dl A) (s : dl) : option A := fst <$> c s.

Lemma runs {A} (c : St dl A) s : match c s with Some _ => true | None => false end = true -> exists a, c s = Some (a, after c s).
Proof. unfold after. destruct (c s) as [[a s']|]; [by exists a|done]. Qed.

Lemma runs_to {A} (c : St dl A) s a : result c s = Some a -> c s = Some (a, after c s).
Proof. unfold result, after. destruct (c s) as [[a' s']|]; [by intros [= ->]|done]. Qed.

Lemma runs_eq {A} (c : St dl A) s a s' : s' = after c s -> result c s = Some a -> c s = Some (a, s').
Proof. intros ->. apply runs_to. Qed.

Lemma s0_inv : DlTable.inv s0.
Proof.
  split_and!.
  - split; try done; [by apply Nat.leb_le|]. intros [|[|i]] [|[|j]] Hi Hj Hij; cbn in Hi, Hj; try lia; done.
  - intros [|[|i]] Hi _; cbn in Hi; [done..|lia].
  - intros [|[|i]] Hi _; cbn in Hi; [done..|lia].
Qed.

Lemma s0_scoped : DlTable.scoped s0.
Proof. intros [|[|i]] d Hi Hd; cbn in Hi, Hd; [by apply elem_of_nil in Hd..|lia]. Qed.

Definition op (t : string) : St dl handle := dlopen (Some (txt t)) 2.

(** A plugin opened, asked for its symbol and closed again. *)
Example open_ask_close :
  result (let* h := op "p.so" in let* v := dlsym 0 h (Some (txt "f")) in let* r := dlclose h in ret (h, v, r)) s0 = Some (HObj 2, 65600, 0).
Proof. vm_compute. reflexivity. Qed.

(** ** The theorems at work *)

Definition s_d : dl := after (dlopen (Some (txt "d.so")) 2) s0.

Lemma s_d_reached : rtc DlTable.step s0 s_d.
Proof.
  apply rtc_once. apply (DlTable.step_dlopen s0 (Some (txt "d.so")) 2 (HObj 2) s_d).
  apply runs_eq; [reflexivity|vm_compute; reflexivity].
Qed.

Lemma images_never_overlap_witness :
  base (obj s_d 2) + size (obj s_d 2) <= base (obj s_d 3) \/ base (obj s_d 3) + size (obj s_d 3) <= base (obj s_d 2).
Proof.
  apply (DlTable.images_never_overlap s0 s_d 2 3 s0_inv s_d_reached); try (vm_compute; reflexivity); try (apply Nat.ltb_lt; vm_compute; reflexivity). done.
Defined.

Lemma dl_load_depth_witness : dl_load_one 20 (txt "d.so") false 0 s0 = dl_load_one dl_fuel (txt "d.so") false 0 s0.
Proof. apply (DlTable.dl_load_depth 20); [apply s0_inv|]. apply Nat.leb_le. reflexivity. Defined.

Lemma new_namespace_empty_witness :
  DlTable.empty_ns 1 s_d.
Proof.
  destruct (DlTable.new_namespace_empty s0 s_d 1 (after dl_ns_new s_d) s0_inv s_d_reached) as [H|(_ & H & _)]; [|lia|exact H].
  apply runs_eq; [reflexivity|vm_compute; reflexivity].
Defined.

(** A plugin in a namespace of its own, beside a global one. *)
Definition s_g : dl := after (dlopen (Some (txt "p.so")) 256) s0.
Definition s_n : dl := after (dlmopen LM_ID_NEWLM (Some (txt "n.so")) 2) s_g.

Lemma s_n_ok : DlTable.inv s_n /\ DlTable.scoped s_n.
Proof.
  assert (G : dlopen (Some (txt "p.so")) 256 s0 = Some (HObj 2, s_g)) by (apply runs_eq; [reflexivity|vm_compute; reflexivity]).
  assert (N : dlmopen LM_ID_NEWLM (Some (txt "n.so")) 2 s_g = Some (HObj 3, s_n)) by (apply runs_eq; [reflexivity|vm_compute; reflexivity]).
  destruct (DlTable.dlopen_inv _ _ _ s0_inv _ _ G) as [I1 S1]. destruct (DlTable.dlmopen_inv _ _ _ _ I1 _ _ N) as [I2 S2].
  split; [exact I2|]. apply S2; [done|]. apply S1; [done|apply s0_scoped].
Qed.

Lemma lookup_scope_witness : DlScope.visible 1 (obj s_n 2).
Proof.
  apply (DlScope.lookup_scope 5 s_n 3 2 (proj1 s_n_ok) (proj2 s_n_ok)); [apply Nat.ltb_lt; vm_compute; reflexivity|].
  apply list_elem_of_In. vm_compute. tauto.
Defined.

(** What each object of a state answers. *)
Definition answer (s : dl) (t : str) (i : nat) : Z := match dl_lookup_in (obj s i) t (tmem (proc s)) with Some (v, _) => v | None => 0 end.

Lemma answer_reads s t i :
  match dl_lookup_in (obj s i) t (tmem (proc s)) with Some _ => true | None => false end = true ->
  dl_lookup_in (obj s i) t (tmem (proc s)) = Some (answer s t i, tmem (proc s)).
Proof.
  unfold answer. destruct (dl_lookup_in _ _ _) as [[v m]|] eqn:E; [|done]. by rewrite (DlScope.dl_lookup_reads _ _ _ _ _ E).
Qed.

Lemma s_n_lookups i : dl_lookup_in (obj s_n i) (txt "f") (tmem (proc s_n)) = Some (answer s_n (txt "f") i, tmem (proc s_n)).
Proof. apply answer_reads. do 8 (destruct i as [|i]; [vm_compute; reflexivity|]). vm_compute. reflexivity. Qed.

Lemma dlsym_first_visited_witness : dlsym 0 HGlobal (Some (txt "f")) s_n = Some (65600, s_n).
Proof.
  rewrite (DlScope.dlsym_first_visited s_n (txt "f") (answer s_n (txt "f")) s_n_lookups 0 HGlobal).
  replace (DlScope.handle_visits 0 HGlobal s_n) with (Some [0; 1; 2]%nat) by (vm_compute; reflexivity).
  replace (DlScope.first_in (answer s_n (txt "f")) [0; 1; 2]%nat) with (Some (65600, 2%nat)) by (vm_compute; reflexivity).
  reflexivity.
Defined.

(** The segments of the plugin. *)
Definition p_ph : list Elf32_Phdr := match elf_phdrs p_so with Some (inr ph) => ph | _ => [] end.
Definition map_p : St dl (bool * mapping) := map_segs (txt "p.so") p_so p_ph (Mapping [] 0 0 None).

Lemma p_so_bytes : Forall byte_ok p_so.
Proof.
  apply Forall_forall. intros b Hb. assert (forallb (fun b => (0 <=? b) && (b <? 256)) p_so = true) as H by (vm_compute; reflexivity).
  rewrite forallb_forall in H. specialize (H b Hb). apply andb_true_iff in H as [H1%Z.leb_le H2%Z.ltb_lt]. done.
Qed.

Lemma p_segs : segs_ok p_so p_ph.
Proof.
  assert (E : p_ph = [Phdr 1 0 65536 65536 228 228 7 4096; Phdr 2 116 65652 65652 64 64 6 4]) by (vm_compute; reflexivity).
  rewrite E. cbn [segs_ok]. split; [|split; [|done]].
  - intros _. split; [|reflexivity]. unfold seg_wf. cbn [p_vaddr p_memsz p_filesz p_offset].
    replace (length p_so) with 228%nat by (vm_compute; reflexivity). lia.
  - constructor; [|constructor]. intros _ Hl. vm_compute in Hl. discriminate Hl.
Qed.

Lemma map_unmap_witness : unmap_all [(65536, 4096)] (after map_p s0) = Some (tt, s0).
Proof.
  apply (map_unmap (txt "p.so") p_so p_ph s0 (Mapping [(65536, 4096)] 65652 64 None) (after map_p s0)).
  - exact p_so_bytes.
  - vm_compute. reflexivity.
  - exact p_segs.
  - apply Nat.leb_le. vm_compute. reflexivity.
  - intros. apply lookup_empty.
  - apply runs_eq; [reflexivity|vm_compute; reflexivity].
Defined.

(** ** Where the code falls short *)

(** A load that fails after its dependency was loaded takes the dependency out
    of the table and leaves it mapped: a later load finds nothing at its address
    and maps another image over it. *)
Theorem failed_load_loses_dependency :
  let s1 := after (op "a.so") s0 in
  result (op "a.so") s0 = Some HNull /\ dl_find_in (txt "b.so") 0 s1 = None /\
  tmem (proc s1) !! 131072 = Some 127 /\ result (op "c.so") s1 = Some (HObj 3).
Proof. vm_compute. done. Qed.

(** Dependencies are not counted: closing a library that was opened first unmaps
    it under the plugin that needs it. *)
Theorem close_unmaps_dependency :
  let s1 := after (op "d.so") (after (op "b.so") s0) in
  let s2 := after (dlclose (HObj 2)) s1 in
  result (op "d.so") (after (op "b.so") s0) = Some (HObj 3) /\ deps (load s1 3) = [2%nat] /\
  tmem (proc s1) !! 131136 <> None /\ result (dlclose (HObj 2)) s1 = Some 0 /\
  has_name (obj s2 3) = true /\ deps (load s2 3) = [2%nat] /\ tmem (proc s2) !! 131136 = None.
Proof. vm_compute. split_and!; done. Qed.

(** And closing the plugin does not close what only it needed. *)
Theorem close_keeps_dependency :
  let s1 := after (op "d.so") s0 in
  let s2 := after (dlclose (HObj 2)) s1 in
  result (op "d.so") s0 = Some (HObj 2) /\ result (dlclose (HObj 2)) s1 = Some 0 /\
  has_name (obj s2 2) = false /\ has_name (obj s2 3) = true /\ tmem (proc s2) !! 131072 = Some 127.
Proof. vm_compute. done. Qed.

(** A new namespace is not isolated from the global objects of the base one: the
    search goes through the shared library, whose namespace is the base. *)
Theorem namespace_sees_global :
  let s1 := after (dlopen (Some (txt "p.so")) 256) s0 in
  let s2 := after (dlmopen LM_ID_NEWLM (Some (txt "n.so")) 2) s1 in
  result (dlmopen LM_ID_NEWLM (Some (txt "n.so")) 2) s1 = Some (HObj 3) /\
  ns (obj s2 3) = 1 /\ ns (obj s2 2) = 0 /\ result (dlsym 0 (HObj 3) (Some (txt "f"))) s2 = Some 65600.
Proof. vm_compute. done. Qed.

Fixpoint times {A} (n : nat) (c : St dl A) (s : dl) : dl := match n with O => s | S n => times n c (after c s) end.

(** A new namespace for the program itself is taken and never given back. *)
Theorem null_namespaces_leak :
  let s15 := times 15 (dlmopen LM_ID_NEWLM None 2) s0 in
  (forall n, 0 < n -> DlTable.empty_ns n s15) /\ result (dlmopen LM_ID_NEWLM (Some (txt "p.so")) 2) s15 = Some HNull.
Proof.
  split; [|vm_compute; done]. intros n Hn [|[|i]] Hi _; vm_compute in Hi |- *; [lia..|].
  repeat match goal with H : (_ <= _)%nat |- _ => inversion H; clear H; subst end.
Qed.
End DlWorld.
