(* ===== verification/Ldso.v ===== *)
(** * Ldso: the dynamic linker, ldso/ldso.c

    The program that runs before the library: it reads the auxiliary vector,
    loads the libraries the program needs at their link addresses, relocates
    them and the program, plans the static TLS block and hands the layout and
    the table of objects to the library.  The ELF structures are those of
    [Dlfcn], the kernel is its class [Loader].  What is copied into the library's
    variables [cact_tls_layout] and [cact_dl_table] is kept as records, the debug
    output as a list of texts. *)

From Stdlib Require Import ZArith Lia Bool String Ascii.
From stdpp Require Import base gmap list numbers.
From S2P Require Import Prelude Monad Memory TlsLayout TlsStatic Dlfcn.

Module Ldso.
Abbreviation str := (list Z).

Definition LDSO_MAX_OBJS : nat := 8.
Definition LDSO_MAX_NEEDED : nat := 16.
Definition SO_PATH_MAX : Z := 256.
Definition LDSO_SCRATCH : Z := 4194304.

Record auxv_t := Auxv { av_phdr : Z; av_phent : Z; av_phnum : Z; av_pagesz : Z; av_base : Z; av_entry : Z }.

Record ldobj_t := Obj {
  name : str; dyn : Z; dynsz : Z; symtab : Z; symcount : Z; strtab : Z; strsz : Z;
  tls_vaddr : Z; tls_filesz : Z; tls_memsz : Z; tls_align : Z; tls_off : Z; tls_modid : Z;
  phdrs : list Dlfcn.Elf32_Phdr; base : Z; size : Z;
  rel : Z; rel_sz : Z; rel_ent : Z; rela : Z; rela_sz : Z; rela_ent : Z
}.

Definition no_obj : ldobj_t := Obj [] 0 0 0 0 0 0 0 0 0 0 0 0 [] 0 0 0 0 0 0 0 0.

(** The first [g_nobj] entries of [g_objs], memory, the debug output, and what
    the library was handed. *)
Record ld := Ld {
  g_objs : list ldobj_t; mm : mem; out : list str; g_tls_total : Z;
  lib_layout : option TlsLayout.layout; lib_table : option (list Dlfcn.cact_dl_object_t)
}.

Definition g_nobj (s : ld) : nat := length (g_objs s).
Definition obj (s : ld) (i : nat) : ldobj_t := default no_obj (g_objs s !! i).

Definition set_objs (l : list ldobj_t) (s : ld) : ld := Ld l (mm s) (out s) (g_tls_total s) (lib_layout s) (lib_table s).
Definition set_obj (i : nat) (o : ldobj_t) (s : ld) : ld := set_objs (<[i := o]> (g_objs s)) s.
Definition set_mm (m : mem) (s : ld) : ld := Ld (g_objs s) m (out s) (g_tls_total s) (lib_layout s) (lib_table s).

Definition on_mem {A} (c : M A) : St ld A := fun s => match c (mm s) with Some (a, m) => Some (a, set_mm m s) | None => None end.

Definition ld_dbg (t : str) : St ld unit :=
  modify (fun s => Ld (g_objs s) (mm s) (out s ++ [t]) (g_tls_total s) (lib_layout s) (lib_table s)).
(** A line, and a line that names a file. *)
Definition dbg (t : string) : St ld unit := ld_dbg (Dlfcn.txt t ++ [10]).
Definition dbg_path (t : string) (p : str) : St ld unit := let* _ := ld_dbg (Dlfcn.txt t) in let* _ := ld_dbg p in ld_dbg [10].

Fixpoint find_from (P : ldobj_t -> bool) (i : nat) (l : list ldobj_t) : option nat :=
  match l with [] => None | o :: l => if P o then Some i else find_from P (S i) l end.

Definition obj_find_by_name (t : str) (s : ld) : option nat := find_from (fun o => bool_decide (name o = t)) 0 (g_objs s).

Definition symcount_from_hash (hash gnu_hash symtab : Z) : M Z :=
  if symtab =? 0 then ret 0
  else if negb (hash =? 0) then Dlfcn.load32 (hash + 4)
  else if negb (gnu_hash =? 0) then
    let* nbuckets := Dlfcn.load32 gnu_hash in
    let* symoffset := Dlfcn.load32 (gnu_hash + 4) in
    let* bloom_size := Dlfcn.load32 (gnu_hash + 8) in
    let bloom_size := if bloom_size >? 1024 then 1024 else bloom_size in
    if nbuckets =? 0 then ret 0
    else
      let buckets := gnu_hash + 16 + 4 * bloom_size in
      let* max_b := Dlfcn.max_bucket (Z.to_nat nbuckets) buckets 0 in
      if max_b <? symoffset then ret symoffset
      else
        let* r := Dlfcn.chain_end 8192 (buckets + 4 * nbuckets) symoffset (max_b - symoffset) in
        ret (default (u32 (symoffset + 8192)) r)
  else ret 4096.

(** ** Lookup *)

(** One object's table: the inner loop. *)
Definition sym_answer (ob : ldobj_t) (t : str) (j : Z) : M Z :=
  let* sym := Dlfcn.sym_at (symtab ob) j in
  if Dlfcn.st_shndx sym =? Dlfcn.SHN_UNDEF then ret 0
  else
    let bind := Dlfcn.ELF32_ST_BIND (Dlfcn.st_info sym) in
    if negb (bind =? 1) && negb (bind =? Dlfcn.STB_WEAK) then ret 0
    else if Dlfcn.st_value sym =? 0 then ret 0
    else if Dlfcn.st_name sym >=? strsz ob then ret 0
    else let* e := Dlfcn.str_eq_at (strtab ob + Dlfcn.st_name sym) t in ret (if (e : bool) then Dlfcn.st_value sym else 0).

Fixpoint sym_loop (n : nat) (ob : ldobj_t) (t : str) (j : Z) : M Z :=
  match n with
  | O => ret 0
  | S n => let* v := sym_answer ob t j in if negb (v =? 0) then ret v else sym_loop n ob t (j + 1)
  end.

Definition look_in (ob : ldobj_t) (t : str) : M Z :=
  if (symtab ob =? 0) || (strtab ob =? 0) then ret 0 else sym_loop (Z.to_nat (symcount ob - 1)) ob t 1.

Fixpoint resolve_in (l : list ldobj_t) (t : str) : M Z :=
  match l with
  | [] => ret 0
  | ob :: l => let* v := look_in ob t in if negb (v =? 0) then ret v else resolve_in l t
  end.

Definition resolve_symbol (t : str) : St ld Z := let* l := gets g_objs in on_mem (resolve_in l t).

(** ** Relocation *)

(** [S], or [None] where the function returns. *)
Definition reloc_value (ob : ldobj_t) (sym_idx : Z) : St ld (option Z) :=
  if negb (sym_idx =? 0) && negb (symtab ob =? 0) && negb (strtab ob =? 0) then
    if sym_idx >=? symcount ob then ret None
    else
      let* sym := on_mem (Dlfcn.sym_at (symtab ob) sym_idx) in
      if Dlfcn.st_shndx sym =? Dlfcn.SHN_UNDEF then
        if Dlfcn.st_name sym >=? strsz ob then ret None
        else
          let* t := on_mem (Dlfcn.str_at (Z.to_nat (strsz ob)) (strtab ob + Dlfcn.st_name sym)) in
          let* v := resolve_symbol t in ret (Some v)
      else ret (Some (Dlfcn.st_value sym))
  else ret (Some 0).

Definition put (p v : Z) : St ld unit := on_mem (store32 p (u32 v)).

(** [R_386_COPY]. *)
Definition copy_reloc (ob : ldobj_t) (sym_idx sv target : Z) : St ld unit :=
  if negb (sv =? 0) && (sym_idx <? symcount ob) then
    let* sym := on_mem (Dlfcn.sym_at (symtab ob) sym_idx) in
    if (Dlfcn.st_size sym >? 0) && (Dlfcn.st_size sym <=? 65536) then
      let* bs := on_mem (load_bytes sv (Z.to_nat (Dlfcn.st_size sym))) in on_mem (store_bytes target bs)
    else ret tt
  else ret tt.

Definition apply_rel (ob : ldobj_t) (r_offset r_info : Z) : St ld unit :=
  let sym_idx := Dlfcn.ELF32_R_SYM r_info in
  let type := Dlfcn.ELF32_R_TYPE r_info in
  let* r := reloc_value ob sym_idx in
  match r with
  | None => ret tt
  | Some sv =>
      if type =? Dlfcn.R_386_32 then let* A := on_mem (Dlfcn.load32 r_offset) in put r_offset (sv + A)
      else if type =? Dlfcn.R_386_PC32 then let* A := on_mem (Dlfcn.load32 r_offset) in put r_offset (sv + A - r_offset)
      else if (type =? Dlfcn.R_386_GLOB_DAT) || (type =? Dlfcn.R_386_JMP_SLOT) then put r_offset sv
      else if type =? Dlfcn.R_386_COPY then copy_reloc ob sym_idx sv r_offset
      else ret tt
  end.

Definition apply_rela (ob : ldobj_t) (r_offset r_info r_addend : Z) : St ld unit :=
  let sym_idx := Dlfcn.ELF32_R_SYM r_info in
  let type := Dlfcn.ELF32_R_TYPE r_info in
  let* r := reloc_value ob sym_idx in
  match r with
  | None => ret tt
  | Some sv =>
      if type =? Dlfcn.R_386_32 then put r_offset (sv + r_addend)
      else if type =? Dlfcn.R_386_PC32 then put r_offset (sv + r_addend - r_offset)
      else if (type =? Dlfcn.R_386_GLOB_DAT) || (type =? Dlfcn.R_386_JMP_SLOT) then put r_offset sv
      else if type =? Dlfcn.R_386_COPY then copy_reloc ob sym_idx sv r_offset
      else ret tt
  end.

Fixpoint rel_loop (n : nat) (ob : ldobj_t) (p ent : Z) : St ld unit :=
  match n with
  | O => ret tt
  | S n =>
      let* r_offset := on_mem (Dlfcn.load32 p) in let* r_info := on_mem (Dlfcn.load32 (p + 4)) in
      let* _ := apply_rel ob r_offset r_info in rel_loop n ob (p + ent) ent
  end.

Fixpoint rela_loop (n : nat) (ob : ldobj_t) (p ent : Z) : St ld unit :=
  match n with
  | O => ret tt
  | S n =>
      let* r_offset := on_mem (Dlfcn.load32 p) in let* r_info := on_mem (Dlfcn.load32 (p + 4)) in
      let* r_addend := on_mem (Dlfcn.load32 (p + 8)) in
      let* _ := apply_rela ob r_offset r_info r_addend in rela_loop n ob (p + ent) ent
  end.

(** ** One object *)

Record dynamic := Dyn {
  d_symtab : Z; d_strtab : Z; d_strsz : Z; d_hash : Z; d_gnu_hash : Z; d_rel : Z; d_rel_sz : Z; d_rel_ent : Z;
  d_rela : Z; d_rela_sz : Z; d_rela_ent : Z; d_jmprel : Z; d_jmprel_sz : Z; d_pltrel : Z; d_needed : list Z
}.

Definition dyn0 : dynamic := Dyn 0 0 0 0 0 0 0 8 0 0 12 0 0 Dlfcn.DT_REL [].

Definition dyn_entry (tag v : Z) (d : dynamic) : dynamic :=
  let 'Dyn sy st sz ha gh re rs rt ra rz rn jm jz pl ne := d in
  if tag =? 6 then Dyn v st sz ha gh re rs rt ra rz rn jm jz pl ne
  else if tag =? 5 then Dyn sy v sz ha gh re rs rt ra rz rn jm jz pl ne
  else if tag =? 10 then Dyn sy st v ha gh re rs rt ra rz rn jm jz pl ne
  else if tag =? 4 then Dyn sy st sz v gh re rs rt ra rz rn jm jz pl ne
  else if tag =? 1879047925 then Dyn sy st sz ha v re rs rt ra rz rn jm jz pl ne
  else if tag =? 17 then Dyn sy st sz ha gh v rs rt ra rz rn jm jz pl ne
  else if tag =? 18 then Dyn sy st sz ha gh re v rt ra rz rn jm jz pl ne
  else if tag =? 19 then Dyn sy st sz ha gh re rs v ra rz rn jm jz pl ne
  else if tag =? 7 then Dyn sy st sz ha gh re rs rt v rz rn jm jz pl ne
  else if tag =? 8 then Dyn sy st sz ha gh re rs rt ra v rn jm jz pl ne
  else if tag =? 9 then Dyn sy st sz ha gh re rs rt ra rz v jm jz pl ne
  else if tag =? 23 then Dyn sy st sz ha gh re rs rt ra rz rn v jz pl ne
  else if tag =? 2 then Dyn sy st sz ha gh re rs rt ra rz rn jm v pl ne
  else if tag =? 20 then Dyn sy st sz ha gh re rs rt ra rz rn jm jz v ne
  else if tag =? 1 then Dyn sy st sz ha gh re rs rt ra rz rn jm jz pl (if (length ne <? LDSO_MAX_NEEDED)%nat then ne ++ [v] else ne)
  else d.

Fixpoint walk_dynamic (n : nat) (p : Z) (d : dynamic) : M dynamic :=
  match n with
  | O => ret d
  | S n =>
      let* tag := Dlfcn.load32 p in
      if tag =? 0 then ret d else let* v := Dlfcn.load32 (p + 4) in walk_dynamic n (p + 8) (dyn_entry tag v d)
  end.

Definition with_dyn (d : dynamic) (k : Z) (o : ldobj_t) : ldobj_t :=
  Obj (name o) (dyn o) (dynsz o) (d_symtab d) k (d_strtab d) (d_strsz d) (tls_vaddr o) (tls_filesz o) (tls_memsz o) (tls_align o)
    (tls_off o) (tls_modid o) (phdrs o) (base o) (size o) (d_rel d) (d_rel_sz d) (d_rel_ent d) (d_rela d) (d_rela_sz d) (d_rela_ent d).

(** The loops of [process_object] count with an [int]: [(int)n] is negative from [2^31] on. *)
Definition rounds (n : Z) : nat := if n <? 2147483648 then Z.to_nat n else 0.

Definition relocate_object (i : nat) (d : dynamic) : St ld unit :=
  let* ob := gets (fun s => obj s i) in
  let* _ := (if negb (d_rel d =? 0) && negb (d_rel_sz d =? 0) && negb (d_rel_ent d =? 0)
             then rel_loop (rounds (d_rel_sz d / d_rel_ent d)) ob (d_rel d) (d_rel_ent d) else ret tt) in
  let* _ := (if negb (d_rela d =? 0) && negb (d_rela_sz d =? 0) && negb (d_rela_ent d =? 0)
             then rela_loop (rounds (d_rela_sz d / d_rela_ent d)) ob (d_rela d) (d_rela_ent d) else ret tt) in
  if negb (d_jmprel d =? 0) && negb (d_jmprel_sz d =? 0) then
    if d_pltrel d =? Dlfcn.DT_RELA then rela_loop (rounds (d_jmprel_sz d / 12)) ob (d_jmprel d) 12
    else rel_loop (rounds (d_jmprel_sz d / 8)) ob (d_jmprel d) 8
  else ret tt.

(** The loop over the needed names; what loading answers is not looked at. *)
Fixpoint load_needed (rec : str -> St ld Z) (d : dynamic) (needed : list Z) : St ld unit :=
  match needed with
  | [] => ret tt
  | off :: needed =>
      if (d_strtab d =? 0) || (off >=? d_strsz d) then load_needed rec d needed
      else
        let* t := on_mem (Dlfcn.str_at (Z.to_nat (d_strsz d)) (d_strtab d + off)) in
        let* s := gets id in
        let* _ := (match obj_find_by_name t s with Some _ => ret 0 | None => rec t end) in
        load_needed rec d needed
  end.

Definition process_object (rec : str -> St ld Z) (i : nat) : St ld unit :=
  let* ob := gets (fun s => obj s i) in
  let* d := on_mem (walk_dynamic (Z.to_nat (dynsz ob / 8)) (dyn ob) dyn0) in
  let* k := on_mem (symcount_from_hash (d_hash d) (d_gnu_hash d) (d_symtab d)) in
  let* _ := modify (set_obj i (with_dyn d k ob)) in
  let* _ := load_needed rec d (d_needed d) in
  relocate_object i d.

(** ** Loading a library *)

Section Load.
Context `{Ldr : Dlfcn.Loader}.

(** The reads until the buffer is full, the file ends or a read fails. *)
Fixpoint read_loop (fuel : nat) (cap : Z) (buf : list Z) (rs : list Dlfcn.rd) : list Z :=
  match fuel with
  | O => buf
  | S fuel =>
      if Z.of_nat (length buf) >=? cap then buf
      else
        match rs with
        | Dlfcn.RData (b :: bs) :: rs =>
            let room := Z.to_nat (cap - Z.of_nat (length buf)) in
            read_loop fuel cap (buf ++ take room (b :: bs)) (match drop room (b :: bs) with [] => rs | rest => Dlfcn.RData rest :: rs end)
        | _ => buf
        end
  end.

(** The result, with what is in the buffer. *)
Definition read_file_full (path : str) (cap : Z) : Z * list Z :=
  match Dlfcn.file_reads path with
  | None => (-1, [])
  | Some rs =>
      let buf := read_loop (Dlfcn.read_fuel rs) cap [] rs in
      (if Z.of_nat (length buf) >=? cap then -2 else Z.of_nat (length buf), buf)
  end.

(** The scratch mapping: zeros past what was read; [None] is outside of it. *)
Definition scratch (f : list Z) (off : Z) : option Z :=
  if (0 <=? off) && (off <? LDSO_SCRATCH) then Some (default 0 (f !! Z.to_nat off)) else None.

Fixpoint scratch_bytes (n : nat) (f : list Z) (off : Z) : option (list Z) :=
  match n with O => Some [] | S n => b ← scratch f off; bs ← scratch_bytes n f (off + 1); Some (b :: bs) end.

Definition field (f : list Z) (w : nat) (off : Z) : option Z :=
  bs ← scratch_bytes w f off; Some (foldr (fun b v => b + 256 * v) 0 bs).

Definition phdr_at (f : list Z) (phoff phentsz : Z) (i : nat) : option Dlfcn.Elf32_Phdr :=
  let p := u32 (phoff + Z.of_nat i * phentsz) in
  a ← field f 4 p; b ← field f 4 (p + 4); c ← field f 4 (p + 8); d ← field f 4 (p + 12);
  e ← field f 4 (p + 16); g ← field f 4 (p + 20); h ← field f 4 (p + 24); k ← field f 4 (p + 28);
  Some (Dlfcn.Phdr a b c d e g h k).

Definition lift {A} (o : option A) : St ld A := fun s => match o with Some a => Some (a, s) | None => None end.

(** The start of the mapping; 0 is a failure. *)
Definition map_segment (vaddr memsz : Z) : St ld Z :=
  let start := Dlfcn.page_down vaddr in
  let end_ := Dlfcn.page_down (vaddr + memsz + 4095) in
  if end_ <=? start then ret 0
  else if Dlfcn.mmap_grants start (end_ - start) then
    let* _ := on_mem (fun m => Some (tt, Dlfcn.zero_pages (Z.to_nat (end_ - start)) start m)) in ret start
  else ret 0.

(** The first pass: the TLS header seen last, the span, and the mappings. *)
Fixpoint map_pass (ph : list Dlfcn.Elf32_Phdr) (t : option Dlfcn.Elf32_Phdr) (lo hi : Z) : St ld (bool * option Dlfcn.Elf32_Phdr * (Z * Z)) :=
  match ph with
  | [] => ret (true, t, (lo, hi))
  | p :: ph =>
      if Dlfcn.p_type p =? Dlfcn.PT_TLS then map_pass ph (Some p) lo hi
      else if negb (Dlfcn.loadable p) then map_pass ph t lo hi
      else
        let lo := if (lo =? 0) || (Dlfcn.seg_lo p <? lo) then Dlfcn.seg_lo p else lo in
        let hi := if Dlfcn.seg_hi p >? hi then Dlfcn.seg_hi p else hi in
        let* r := map_segment (Dlfcn.p_vaddr p) (Dlfcn.p_memsz p) in
        if r =? 0 then ret (false, t, (lo, hi)) else map_pass ph t lo hi
  end.

Definition find_dynamic (ph : list Dlfcn.Elf32_Phdr) : Z * Z :=
  match find (fun p => Dlfcn.p_type p =? Dlfcn.PT_DYNAMIC) ph with
  | Some p => (Dlfcn.p_vaddr p, Dlfcn.p_filesz p)
  | None => (0, 0)
  end.

Fixpoint copy_pass (f : list Z) (total : Z) (ph : list Dlfcn.Elf32_Phdr) : St ld unit :=
  match ph with
  | [] => ret tt
  | p :: ph =>
      if negb (Dlfcn.p_type p =? Dlfcn.PT_LOAD) || (Dlfcn.p_filesz p =? 0) || (u32 (Dlfcn.p_offset p + Dlfcn.p_filesz p) >? total)
      then copy_pass f total ph
      else
        let* bs := lift (scratch_bytes (Z.to_nat (Dlfcn.p_filesz p)) f (Dlfcn.p_offset p)) in
        let* _ := on_mem (store_bytes (Dlfcn.p_vaddr p) bs) in
        copy_pass f total ph
  end.

(** A new entry, before its dynamic section is read. *)
Definition new_obj (t : str) (dy : Z * Z) (tl : option Dlfcn.Elf32_Phdr) (ph : list Dlfcn.Elf32_Phdr) (lo hi : Z) : ldobj_t :=
  let '(tv, tf, tm, ta) := match tl with
    | Some p => (Dlfcn.p_vaddr p, Dlfcn.p_filesz p, Dlfcn.p_memsz p, Dlfcn.p_align p) | None => (0, 0, 0, 4) end in
  Obj t dy.1 dy.2 0 0 0 0 tv tf tm ta 0 0 (take Dlfcn.CACT_DL_MAX_PHDRS ph) lo (u32 (hi - lo)) 0 0 0 0 0 0.

Definition usr_lib : str := Dlfcn.txt "/usr/lib/".

Fixpoint load_library (fuel : nat) (t : str) {struct fuel} : St ld Z :=
  match fuel with
  | O => fault
  | S fuel =>
      let* s := gets id in
      if (LDSO_MAX_OBJS <=? g_nobj s)%nat then ret (-1)
      else if Z.of_nat (length t) + 10 >? SO_PATH_MAX then ret (-1)
      else if negb (Dlfcn.buf_grants LDSO_SCRATCH) then ret (-1)
      else
        let path := usr_lib ++ t in
        let '(total, f) := read_file_full path LDSO_SCRATCH in
        if total <=? 0 then let* _ := dbg_path "[ld.so] cannot read " path in ret (-1)
        else
          let* magic := lift (field f 4 0) in
          if negb (magic =? 1179403647) then let* _ := dbg_path "[ld.so] bad magic: " path in ret (-1)
          else
            let* phnum := lift (field f 2 44) in let* phoff := lift (field f 4 28) in let* phentsz := lift (field f 2 42) in
            if (phentsz <? 32) || (phnum =? 0) || (u32 (phoff + phnum * phentsz) >? total) then ret (-1)
            else
              let* ph := lift (mapM (phdr_at f phoff phentsz) (seq 0 (Z.to_nat phnum))) in
              let* (ok, tl, (lo, hi)) := map_pass ph None 0 0 in
              if negb ok then let* _ := dbg_path "[ld.so] mmap segment failed: " path in ret (-1)
              else
                let* _ := copy_pass f total ph in
                let* i := gets g_nobj in
                let* _ := modify (fun s => set_objs (g_objs s ++ [new_obj t (find_dynamic ph) tl ph lo hi]) s) in
                let* _ := process_object (load_library fuel) i in
                ret 0
  end.
End Load.

(** ** The auxiliary vector *)

(** The index of the first zero word. *)
Fixpoint zero_word (fuel : nat) (p : Z) : M Z :=
  match fuel with
  | O => fault
  | S fuel => let* w := Dlfcn.load32 p in if w =? 0 then ret p else zero_word fuel (p + 4)
  end.

Definition aux_entry (tag v : Z) (a : auxv_t) : auxv_t :=
  let 'Auxv ph pe pn pg ba en := a in
  if tag =? 3 then Auxv v pe pn pg ba en
  else if tag =? 4 then Auxv ph v pn pg ba en
  else if tag =? 5 then Auxv ph pe v pg ba en
  else if tag =? 6 then Auxv ph pe pn v ba en
  else if tag =? 7 then Auxv ph pe pn pg v en
  else if tag =? 9 then Auxv ph pe pn pg ba v
  else a.

Fixpoint aux_loop (fuel : nat) (p : Z) (a : auxv_t) : M auxv_t :=
  match fuel with
  | O => fault
  | S fuel =>
      let* tag := Dlfcn.load32 p in
      if tag =? 0 then ret a else let* v := Dlfcn.load32 (p + 4) in aux_loop fuel (p + 8) (aux_entry tag v a)
  end.

(** Every round reads a word further on, so memory itself bounds the loops. *)
Definition parse_auxv (stackp : Z) : M (option auxv_t) :=
  let* n := gets (fun m : mem => S (stdpp.base.size m)) in
  let* argv := Dlfcn.load32 (stackp + 4) in
  let* envp := Dlfcn.load32 (stackp + 8) in
  let arr := if negb (envp =? 0) then envp else argv in
  if arr =? 0 then ret None
  else
    let* z := zero_word n arr in
    let* a := aux_loop n (z + 4) (Auxv 0 0 0 0 0 0) in
    ret (if negb (av_phdr a =? 0) && negb (av_phnum a =? 0) && negb (av_phent a =? 0) then Some a else None).

(** ** Static TLS *)

Definition set_tls (o i : Z) (ob : ldobj_t) : ldobj_t :=
  Obj (name ob) (dyn ob) (dynsz ob) (symtab ob) (symcount ob) (strtab ob) (strsz ob) (tls_vaddr ob) (tls_filesz ob) (tls_memsz ob)
    (tls_align ob) o i (phdrs ob) (base ob) (size ob) (rel ob) (rel_sz ob) (rel_ent ob) (rela ob) (rela_sz ob) (rela_ent ob).

Definition has_tls (ob : ldobj_t) : bool := negb (tls_memsz ob =? 0).

Definition module_of (ob : ldobj_t) : TlsLayout.tls_module :=
  TlsLayout.mk_module 0 0 (tls_vaddr ob) (tls_filesz ob) (tls_memsz ob) (tls_align ob).

(** The modules in load order, in an array of eight. *)
Definition tls_modules (l : list ldobj_t) : list TlsLayout.tls_module :=
  let ms := take 8 (module_of <$> filter (fun ob => has_tls ob) l) in
  ms ++ repeat (TlsLayout.mk_module 0 0 0 0 0 0) (8 - length ms).

(** The second walk: each object with TLS learns its offset and its id. *)
Fixpoint hand_out (ms : list TlsLayout.tls_module) (l : list ldobj_t) : list ldobj_t :=
  match l with
  | [] => []
  | ob :: l =>
      if has_tls ob then
        match ms with
        | m :: ms => set_tls (TlsLayout.off m) (TlsLayout.id m) ob :: hand_out ms l
        | [] => set_tls 0 0 ob :: hand_out [] l
        end
      else set_tls 0 0 ob :: hand_out ms l
  end.

Definition tls_publish : St ld unit :=
  let* l := gets g_objs in
  let n := Nat.min 8 (length (filter (fun ob => has_tls ob) l)) in
  let lay := TlsLayout.cact_tls_plan_reserved (TlsLayout.mk_layout 0 0 0 0 0 (tls_modules l)) (Z.of_nat n) TlsLayout.CACT_TLS_RESERVE in
  let* _ := modify (fun s => Ld (hand_out (take n (TlsLayout.mods lay)) l) (mm s) (out s) (TlsLayout.total lay) (lib_layout s) (lib_table s)) in
  let* addr := resolve_symbol (Dlfcn.txt "cact_tls_layout") in
  if negb (addr =? 0) then modify (fun s => Ld (g_objs s) (mm s) (out s) (g_tls_total s) (Some lay) (lib_table s))
  else dbg "[ld.so] libc has no cact_tls_layout".

(** One entry of the TLS pass; [addend] is the word there or that of the entry. *)
Definition tls_reloc (ob : ldobj_t) (r_offset r_info : Z) (addend : St ld Z) : St ld unit :=
  let t := Dlfcn.ELF32_R_TYPE r_info in
  let si := Dlfcn.ELF32_R_SYM r_info in
  let value := (if negb (si =? 0) && (si <? symcount ob) then let* y := on_mem (Dlfcn.sym_at (symtab ob) si) in ret (Dlfcn.st_value y) else ret 0) : St ld Z in
  if (t =? Dlfcn.R_386_TLS_TPOFF) || (t =? Dlfcn.R_386_TLS_TPOFF32) then
    let* sv := value in let* A := addend in let* tot := gets g_tls_total in put r_offset (tls_off ob + sv + A - tot)
  else if t =? Dlfcn.R_386_TLS_DTPMOD32 then
    if tls_memsz ob =? 0 then dbg "[ld.so] unsupported TLS relocation" else let* A := addend in put r_offset (tls_modid ob + A)
  else if t =? Dlfcn.R_386_TLS_DTPOFF32 then let* sv := value in let* A := addend in put r_offset (sv + A)
  else if (Dlfcn.R_386_TLS_TPOFF <=? t) && (t <=? Dlfcn.R_386_TLS_TPOFF32) then dbg "[ld.so] unsupported TLS relocation"
  else ret tt.

Fixpoint tls_rel_loop (n : nat) (ob : ldobj_t) (p ent : Z) (use_addend : bool) : St ld unit :=
  match n with
  | O => ret tt
  | S n =>
      let* r_offset := on_mem (Dlfcn.load32 p) in let* r_info := on_mem (Dlfcn.load32 (p + 4)) in
      let* _ := tls_reloc ob r_offset r_info (on_mem (Dlfcn.load32 (if use_addend then p + 8 else r_offset))) in
      tls_rel_loop n ob (p + ent) ent use_addend
  end.

Definition tls_relocate_obj (ob : ldobj_t) : St ld unit :=
  let* _ := (if negb (rel ob =? 0) && negb (rel_sz ob =? 0) && negb (rel_ent ob =? 0)
             then tls_rel_loop (Z.to_nat (rel_sz ob / rel_ent ob)) ob (rel ob) (rel_ent ob) false else ret tt) in
  if negb (rela ob =? 0) && negb (rela_sz ob =? 0) && negb (rela_ent ob =? 0)
  then tls_rel_loop (Z.to_nat (rela_sz ob / rela_ent ob)) ob (rela ob) (rela_ent ob) true else ret tt.

Definition tls_relocate : St ld unit := let* l := gets g_objs in for_each tls_relocate_obj l.

(** ** Handing over the table *)

(** [ns] is not assigned: it is what the stack held, [junk i] for the entry [i]. *)
Definition publish_obj (junk : Z) (ob : ldobj_t) : Dlfcn.cact_dl_object_t :=
  Dlfcn.Obj (Some (name ob)) (dyn ob) (dynsz ob) (symtab ob) (strtab ob) (symcount ob) (strsz ob) (phdrs ob) (base ob) (size ob)
    true false 1 junk (if has_tls ob then tls_off ob else Dlfcn.CACT_DL_NO_TLS) (if has_tls ob then tls_modid ob else 0).

Definition dl_publish (junk : nat -> Z) : St ld unit :=
  let* addr := resolve_symbol (Dlfcn.txt "cact_dl_table") in
  if addr =? 0 then dbg "[ld.so] libc has no cact_dl_table"
  else modify (fun s => Ld (g_objs s) (mm s) (out s) (g_tls_total s) (lib_layout s)
         (Some (imap (fun i ob => publish_obj (junk i) ob) (take Dlfcn.CACT_DL_MAX_OBJECTS (g_objs s))))).

(** ** Entry *)

Section Entry.
Context `{Ldr : Dlfcn.Loader} (junk : nat -> Z).

Definition mem_phdr (phdr phent : Z) (i : nat) : M Dlfcn.Elf32_Phdr :=
  let p := u32 (phdr + Z.of_nat i * phent) in
  let* a := Dlfcn.load32 p in let* b := Dlfcn.load32 (p + 4) in let* c := Dlfcn.load32 (p + 8) in let* d := Dlfcn.load32 (p + 12) in
  let* e := Dlfcn.load32 (p + 16) in let* g := Dlfcn.load32 (p + 20) in let* h := Dlfcn.load32 (p + 24) in let* k := Dlfcn.load32 (p + 28) in
  ret (Dlfcn.Phdr a b c d e g h k).

Fixpoint mem_phdrs (n : nat) (phdr phent : Z) (i : nat) : M (list Dlfcn.Elf32_Phdr) :=
  match n with O => ret [] | S n => let* p := mem_phdr phdr phent i in let* ph := mem_phdrs n phdr phent (S i) in ret (p :: ph) end.

(** The last header of a type. *)
Definition last_of (ty : Z) (ph : list Dlfcn.Elf32_Phdr) : option Dlfcn.Elf32_Phdr :=
  foldl (fun r p => if Dlfcn.p_type p =? ty then Some p else r) None ph.

Definition ld_fuel : nat := 9.

(** The entry point of the program, or 0. *)
Definition ldso_entry (stackp : Z) : St ld Z :=
  let* av := on_mem (parse_auxv stackp) in
  match av with
  | None => let* _ := dbg "[ld.so] no auxv" in ret 0
  | Some av =>
      let* ph := on_mem (mem_phdrs (Z.to_nat (av_phnum av)) (av_phdr av) (av_phent av) 0) in
      let dy := match last_of Dlfcn.PT_DYNAMIC ph with Some p => (Dlfcn.p_vaddr p, Dlfcn.p_filesz p) | None => (0, 0) end in
      if dy.1 =? 0 then let* _ := dbg "[ld.so] no PT_DYNAMIC in main" in ret 0
      else
        let '(lo, hi) := Dlfcn.span ph in
        let* i := gets g_nobj in
        let* _ := modify (fun s => set_objs (g_objs s ++ [new_obj (Dlfcn.txt "<main>") dy (last_of Dlfcn.PT_TLS ph) ph lo hi]) s) in
        let* _ := process_object (load_library ld_fuel) i in
        let* _ := tls_publish in
        let* _ := tls_relocate in
        let* _ := dl_publish junk in
        ret (av_entry av)
  end.
End Entry.
End Ldso.
