(* ===== verification/LdsoSpec.v ===== *)
(** * LdsoSpec: what the dynamic linker establishes

    The linker and the run-time loader agree on lookups and on TLS addresses,
    loading terminates within the table, and the table the linker hands over is
    the sound start that [DlTable] asks for. *)

From Stdlib Require Import ZArith Lia Bool String Ascii.
From stdpp Require Import base gmap list numbers.
From S2P Require Import Prelude Monad Memory TlsLayout TlsStatic Dlfcn DlTable DlScope DlImage DlWorld Ldso.

Module LdsoSpec.
Import Ldso.

(** ** The same lookup in both loaders *)

Lemma symcount_same h g st : symcount_from_hash h g st = Dlfcn.dl_symcount h g st.
Proof. done. Qed.

Lemma look_same j ob t m : look_in ob t m = Dlfcn.dl_lookup_in (publish_obj j ob) t m.
Proof.
  unfold look_in, Dlfcn.dl_lookup_in. cbn [Dlfcn.has_name Dlfcn.name publish_obj Dlfcn.symtab Dlfcn.strtab Dlfcn.symcount negb orb].
  destruct (_ || _); [done|]. generalize (Z.to_nat (symcount ob - 1)). intros n. generalize 1. intros k. revert k m. induction n as [|n IH]; intros k m; [done|].
  cbn [sym_loop Dlfcn.lookup_loop]. unfold bind.
  change (Dlfcn.sym_answer (publish_obj j ob) t k m) with (sym_answer ob t k m). destruct (sym_answer ob t k m) as [[v m']|] eqn:E; [|done].
  destruct (negb (v =? 0)); [done|apply IH].
Qed.

(** ** What keeps the list of objects *)

Definition keeps {A} (c : St ld A) : Prop := forall s a s', c s = Some (a, s') -> g_objs s' = g_objs s.

Create HintDb keeps.

Section Keeps.
Context {A B : Type}.

Lemma keeps_ret (a : A) : keeps (ret a).
Proof. by intros s a' s' [= <- <-]. Qed.

Lemma keeps_gets (f : ld -> A) : keeps (gets f).
Proof. by intros s a' s' [= <- <-]. Qed.

Lemma keeps_bind (c : St ld A) (k : A -> St ld B) : keeps c -> (forall a, keeps (k a)) -> keeps (bind c k).
Proof.
  unfold bind. intros Hc Hk s b s'. destruct (c s) as [[a s1]|] eqn:E; [|done].
  intros H. by rewrite (Hk _ _ _ _ H), (Hc _ _ _ E).
Qed.

Lemma keeps_on_mem (c : M A) : keeps (on_mem c).
Proof. unfold on_mem. intros s a s'. by destruct (c (mm s)) as [[? ?]|]; [intros [= <- <-]|]. Qed.

Lemma keeps_lift (o : option A) : keeps (lift o).
Proof. unfold lift. by intros s a s'; destruct o; [intros [= <- <-]|]. Qed.

Lemma wlp_keeps (c : St ld A) s (Q : A -> ld -> Prop) : keeps c -> (forall a s', g_objs s' = g_objs s -> Q a s') -> wlp c s Q.
Proof. unfold wlp, keeps. eauto. Qed.
End Keeps.

Lemma keeps_dbg t : keeps (ld_dbg t).
Proof. by intros s a s' [= <- <-]. Qed.

#[export] Hint Resolve keeps_ret keeps_gets keeps_on_mem keeps_lift keeps_dbg : keeps.

Ltac keeps :=
  cbv zeta;
  lazymatch goal with
  | |- keeps (bind _ _) => apply keeps_bind; [keeps | intros; keeps]
  | |- keeps (if ?b then _ else _) => destruct b; keeps
  | |- keeps (match ?x with _ => _ end) => destruct x; keeps
  | |- _ => eauto with keeps
  end.

Lemma keeps_resolve t : keeps (resolve_symbol t).
Proof. unfold resolve_symbol. keeps. Qed.
#[export] Hint Resolve keeps_resolve : keeps.

Lemma keeps_reloc_value ob i : keeps (reloc_value ob i).
Proof. unfold reloc_value. keeps. Qed.
#[export] Hint Resolve keeps_reloc_value : keeps.

Lemma keeps_apply_rel ob o i : keeps (apply_rel ob o i).
Proof. unfold apply_rel, copy_reloc, put. keeps. Qed.

Lemma keeps_apply_rela ob o i a : keeps (apply_rela ob o i a).
Proof. unfold apply_rela, copy_reloc, put. keeps. Qed.
#[export] Hint Resolve keeps_apply_rel keeps_apply_rela : keeps.

Lemma keeps_rel_loop n ob p e : keeps (rel_loop n ob p e).
Proof. revert p. induction n as [|n IH]; intros p; cbn [rel_loop]; keeps. Qed.

Lemma keeps_rela_loop n ob p e : keeps (rela_loop n ob p e).
Proof. revert p. induction n as [|n IH]; intros p; cbn [rela_loop]; keeps. Qed.
#[export] Hint Resolve keeps_rel_loop keeps_rela_loop : keeps.

Lemma keeps_relocate_object i d : keeps (relocate_object i d).
Proof. unfold relocate_object. keeps. Qed.
#[export] Hint Resolve keeps_relocate_object : keeps.

Section Loading.
Context `{Ldr : Dlfcn.Loader}.

Lemma keeps_map_pass ph t lo hi : keeps (map_pass ph t lo hi).
Proof. revert t lo hi. induction ph as [|p ph IH]; intros t lo hi; cbn [map_pass]; [keeps|]. unfold map_segment. keeps. Qed.

Lemma keeps_copy_pass f total ph : keeps (copy_pass f total ph).
Proof. induction ph as [|p ph IH]; cbn [copy_pass]; keeps. Qed.
#[local] Hint Resolve keeps_map_pass keeps_copy_pass : keeps.

(** ** Loading only adds *)

(** Which object is in a slot: what its file says, whatever was filled in. *)
Definition ident (o : ldobj_t) : str * Z * Z := (name o, base o, size o).

Record grows (s s' : ld) : Prop := Grows {
  gr_bound : (g_nobj s <= LDSO_MAX_OBJS)%nat -> (g_nobj s' <= LDSO_MAX_OBJS)%nat;
  gr_prefix : exists l, ident <$> g_objs s' = (ident <$> g_objs s) ++ l
}.

Lemma ld_grows_refl s : grows s s.
Proof. split; [done|]. exists []. by rewrite app_nil_r. Qed.

Lemma ld_grows_trans s1 s2 s3 : grows s1 s2 -> grows s2 s3 -> grows s1 s3.
Proof. intros [b1 [l1 p1]] [b2 [l2 p2]]. split; [auto|]. exists (l1 ++ l2). by rewrite p2, p1, app_assoc. Qed.

Lemma grows_count s s' : grows s s' -> (g_nobj s <= g_nobj s')%nat.
Proof. intros [_ [l p]]. apply (f_equal length) in p. rewrite length_app, !length_fmap in p. unfold g_nobj. lia. Qed.

Lemma grows_same s s' : g_objs s' = g_objs s -> grows s s'.
Proof. intros E. split; [unfold g_nobj; by rewrite E|]. exists []. by rewrite E, app_nil_r. Qed.

(** Filling in a slot that keeps its identity. *)
Lemma grows_set_obj i o s : ident o = ident (obj s i) -> grows s (set_obj i o s).
Proof.
  intros H. split; [unfold g_nobj; cbn; by rewrite length_insert|]. exists []. rewrite app_nil_r. cbn. rewrite list_fmap_insert, H.
  unfold obj. destruct (g_objs s !! i) as [o'|] eqn:E; cbn; [by rewrite list_insert_id by (by rewrite list_lookup_fmap, E)|].
  by rewrite list_insert_ge by (rewrite length_fmap; by apply lookup_ge_None).
Qed.

Lemma process_grows rec i s :
  (forall t s, wlp (rec t) s (fun _ s' => grows s s')) -> wlp (process_object rec i) s (fun _ s' => grows s s').
Proof.
  intros Hrec. unfold process_object. wlp_pure. apply wlp_keeps; [keeps|]. intros d s1 E1. wlp_pure.
  apply wlp_keeps; [keeps|]. intros k s2 E2. wlp_pure.
  assert (G3 : grows s (set_obj i (with_dyn d k (obj s i)) s2)).
  { eapply ld_grows_trans; [apply grows_same; by rewrite E2|]. apply grows_set_obj. unfold obj. rewrite E2, E1. done. }
  revert G3. generalize (set_obj i (with_dyn d k (obj s i)) s2). intros s3 G3.
  eapply wlp_mono with (Q := fun _ s4 => grows s s4).
  - revert s3 G3. induction (d_needed d) as [|off needed IH]; intros s3 G3; cbn [load_needed]; [by wlp_pure|].
    case_match; [by apply IH|]. wlp_pure. apply wlp_keeps; [keeps|]. intros t s4 E4. wlp_pure.
    assert (G4 : grows s s4) by (eapply ld_grows_trans; [exact G3|by apply grows_same]). unfold id.
    case_match; wlp_pure; [by apply IH|]. eapply wlp_mono; [apply Hrec|]. intros r s5 G5. apply IH. by eapply ld_grows_trans.
  - intros [] s4 G4. apply wlp_keeps; [keeps|]. intros [] s5 E5. eapply ld_grows_trans; [exact G4|by apply grows_same].
Qed.

Lemma load_library_grows fuel t s : wlp (load_library fuel t) s (fun _ s' => grows s s').
Proof.
  revert t s. induction fuel as [|fuel IH]; intros t s; cbn [load_library]; [by intros ? ?|]. wlp_pure. unfold id.
  destruct (_ <=? _)%nat eqn:Hn; wlp_pure; [apply ld_grows_refl|]. apply Nat.leb_gt in Hn.
  case_match; wlp_pure; [apply ld_grows_refl|]. case_match; wlp_pure; [apply ld_grows_refl|].
  destruct (read_file_full _ _) as [total f].
  assert (Hd : forall s0 a p, g_objs s0 = g_objs s -> wlp (let* _ := dbg_path a p in ret (-1)) s0 (fun _ s' => grows s s')).
  { intros s0 a p E. apply wlp_keeps; [unfold dbg_path; keeps|]. intros r s1 E1. apply grows_same. by rewrite E1. }
  case_match; [by apply Hd|]. wlp_pure. apply wlp_keeps; [keeps|]. intros magic s1 E1.
  case_match; [by apply Hd|]. wlp_pure. apply wlp_keeps; [keeps|]. intros phnum s2 E2. wlp_pure.
  apply wlp_keeps; [keeps|]. intros phoff s3 E3. wlp_pure. apply wlp_keeps; [keeps|]. intros phentsz s4 E4.
  case_match; wlp_pure; [apply grows_same; congruence|]. apply wlp_keeps; [keeps|]. intros ph s5 E5. wlp_pure.
  apply wlp_keeps; [keeps|]. intros [[ok tl] [lo hi]] s6 E6. destruct ok; cbn [negb]; [|apply Hd; congruence]. wlp_pure.
  apply wlp_keeps; [keeps|]. intros [] s7 E7. wlp_pure. assert (E : g_objs s7 = g_objs s) by congruence.
  set (o := new_obj _ _ _ _ _ _). eapply wlp_mono; [apply process_grows, IH|]. intros [] s8 G8. wlp_pure.
  eapply ld_grows_trans; [|exact G8]. split.
  - intros _. unfold g_nobj. cbn. rewrite length_app, E. unfold g_nobj, LDSO_MAX_OBJS in *. cbn. lia.
  - exists [ident o]. cbn. by rewrite fmap_app, E.
Qed.

(** ** Depth *)

Lemma load_needed_ext rec rec' d k needed s :
  (forall t s, wlp (rec t) s (fun _ s' => grows s s')) -> (forall t s, (k <= g_nobj s)%nat -> rec t s = rec' t s) ->
  (k <= g_nobj s)%nat -> load_needed rec d needed s = load_needed rec' d needed s.
Proof.
  intros Hg He. revert s. induction needed as [|off needed IH]; intros s Hk; cbn [load_needed]; [done|].
  case_match; [by apply IH|]. eapply bind_ext; [apply wlp_any|]. intros t s1 E1%keeps_on_mem.
  assert (Hk1 : (k <= g_nobj s1)%nat) by (unfold g_nobj; by rewrite E1).
  apply (bind_ext _ _ _ _ (fun a s2 => a = s1 /\ s2 = s1)); [by apply wlp_gets|]. intros a s2 [-> ->].
  apply (bind_cong _ _ _ _ _ (fun _ s2 => (k <= g_nobj s2)%nat)).
  - case_match; [done|]. by apply He.
  - case_match; [by apply wlp_ret|]. eapply wlp_mono; [apply Hg|]. intros r s2 G%grows_count. lia.
  - intros r s2 Hk2. by apply IH.
Qed.

Lemma process_ext rec rec' k i s :
  (forall t s, wlp (rec t) s (fun _ s' => grows s s')) -> (forall t s, (k <= g_nobj s)%nat -> rec t s = rec' t s) ->
  (k <= g_nobj s)%nat -> process_object rec i s = process_object rec' i s.
Proof.
  intros Hg He Hk. unfold process_object. apply (bind_ext _ _ _ _ (fun _ s1 => s1 = s)); [by apply wlp_gets|]. intros ob s1 ->.
  eapply bind_ext; [apply wlp_any|]. intros d s1 E1%keeps_on_mem. eapply bind_ext; [apply wlp_any|]. intros n s2 E2%keeps_on_mem.
  apply (bind_ext _ _ _ _ (fun _ s3 => g_nobj s3 = g_nobj s)); [apply wlp_modify; unfold g_nobj; cbn; by rewrite length_insert, E2, E1|].
  intros [] s3 E3. eapply bind_cong; [|apply wlp_any|done]. apply (load_needed_ext _ _ _ k); [done|done|lia].
Qed.

Lemma load_library_fuel fuel t s :
  (LDSO_MAX_OBJS <= g_nobj s + fuel)%nat -> load_library (S fuel) t s = load_library (S (S fuel)) t s.
Proof.
  revert t s. induction fuel as [|fuel IH]; intros t s Hf.
  { cbn [load_library]. apply (bind_ext _ _ _ _ (fun a _ => a = s)); [by apply wlp_gets|]. intros a s1 ->.
    by rewrite (proj2 (Nat.leb_le _ _)) by lia. }
  remember (S fuel) as fuel1 eqn:Ef1. remember (S fuel1) as fuel2 eqn:Ef. rewrite Ef at 1. cbn [load_library].
  apply (bind_ext _ _ _ _ (fun a s1 => a = s /\ s1 = s)); [by apply wlp_gets|]. intros a s1 [-> ->].
  destruct (_ <=? _)%nat eqn:Hfull; [done|]. apply Nat.leb_gt in Hfull. do 2 (case_match; [done|]).
  destruct (read_file_full _ _) as [total f]. case_match; [done|].
  eapply bind_ext; [apply wlp_any|]. intros magic s1 E1%keeps_lift. case_match; [done|].
  eapply bind_ext; [apply wlp_any|]. intros phnum s2 E2%keeps_lift. eapply bind_ext; [apply wlp_any|]. intros phoff s3 E3%keeps_lift.
  eapply bind_ext; [apply wlp_any|]. intros phentsz s4 E4%keeps_lift. case_match; [done|].
  eapply bind_ext; [apply wlp_any|]. intros ph s5 E5%keeps_lift. eapply bind_ext; [apply wlp_any|].
  intros [[ok tl] [lo hi]] s6 E6%keeps_map_pass. destruct ok; cbn [negb]; [|done].
  eapply bind_ext; [apply wlp_any|]. intros [] s7 E7%keeps_copy_pass. assert (E : g_objs s7 = g_objs s) by congruence.
  apply (bind_ext _ _ _ _ (fun n s8 => s8 = s7)); [by apply wlp_gets|]. intros n s8 ->.
  set (o := new_obj _ _ _ _ _ _).
  apply (bind_ext _ _ _ _ (fun _ s8 => g_nobj s8 = S (g_nobj s))); [apply wlp_modify; unfold g_nobj; cbn; rewrite length_app, E; cbn; lia|].
  intros [] s8 E8. eapply bind_cong; [|apply wlp_any|done].
  apply (process_ext _ _ (S (g_nobj s))); [apply load_library_grows| |lia].
  intros t' s' Hs'. subst fuel2 fuel1. apply IH. lia.
Qed.

(** the linker terminates on any set of libraries, cycles included: every
    library takes a slot before it loads its own, so nine levels are enough. *)
Theorem ld_load_depth fuel t s : (ld_fuel <= fuel)%nat -> load_library fuel t s = load_library ld_fuel t s.
Proof.
  intros Hf. induction Hf as [|fuel Hf IH]; [done|]. rewrite <- IH. destruct fuel as [|fuel]; [unfold ld_fuel in Hf; lia|].
  symmetry. apply load_library_fuel. unfold ld_fuel, LDSO_MAX_OBJS in *. lia.
Qed.
End Loading.

(** ** What does not hand anything over *)

Definition silent {A} (c : St ld A) : Prop := forall s a s', c s = Some (a, s') -> lib_table s' = lib_table s.

Create HintDb silent.

Section Silent.
Context {A B : Type}.

Lemma silent_ret (a : A) : silent (ret a).
Proof. by intros s a' s' [= <- <-]. Qed.

Lemma silent_gets (f : ld -> A) : silent (gets f).
Proof. by intros s a' s' [= <- <-]. Qed.

Lemma silent_fault : silent (@fault ld A).
Proof. by intros s a' s'. Qed.

Lemma silent_modify f : (forall s, lib_table (f s) = lib_table s) -> silent (modify f).
Proof. by intros H s a s' [= <- <-]. Qed.

Lemma silent_bind (c : St ld A) (k : A -> St ld B) : silent c -> (forall a, silent (k a)) -> silent (bind c k).
Proof.
  unfold bind. intros Hc Hk s b s'. destruct (c s) as [[a s1]|] eqn:E; [|done].
  intros H. by rewrite (Hk _ _ _ _ H), (Hc _ _ _ E).
Qed.

Lemma silent_on_mem (c : M A) : silent (on_mem c).
Proof. unfold on_mem. intros s a s'. by destruct (c (mm s)) as [[? ?]|]; [intros [= <- <-]|]. Qed.

Lemma silent_lift (o : option A) : silent (lift o).
Proof. unfold lift. by intros s a s'; destruct o; [intros [= <- <-]|]. Qed.
End Silent.

#[export] Hint Resolve silent_ret silent_gets silent_fault silent_on_mem silent_lift : silent.
#[export] Hint Extern 2 (silent (modify _)) => (apply silent_modify; reflexivity) : silent.

Ltac silent :=
  cbv zeta;
  lazymatch goal with
  | |- silent (bind _ _) => apply silent_bind; [silent | intros; silent]
  | |- silent (if ?b then _ else _) => destruct b; silent
  | |- silent (match ?x with _ => _ end) => destruct x; silent
  | |- _ => eauto with silent
  end.

Lemma silent_dbg t : silent (ld_dbg t).
Proof. unfold ld_dbg. silent. Qed.
#[export] Hint Resolve silent_dbg : silent.

Lemma silent_apply_rel ob o i : silent (apply_rel ob o i).
Proof. unfold apply_rel, reloc_value, resolve_symbol, copy_reloc, put. silent. Qed.

Lemma silent_apply_rela ob o i a : silent (apply_rela ob o i a).
Proof. unfold apply_rela, reloc_value, resolve_symbol, copy_reloc, put. silent. Qed.
#[export] Hint Resolve silent_apply_rel silent_apply_rela : silent.

Lemma silent_rel_loop n ob p e : silent (rel_loop n ob p e).
Proof. revert p. induction n as [|n IH]; intros p; cbn [rel_loop]; silent. Qed.

Lemma silent_rela_loop n ob p e : silent (rela_loop n ob p e).
Proof. revert p. induction n as [|n IH]; intros p; cbn [rela_loop]; silent. Qed.
#[export] Hint Resolve silent_rel_loop silent_rela_loop : silent.

Lemma silent_load_needed rec d needed : (forall t, silent (rec t)) -> silent (load_needed rec d needed).
Proof. intros Hr. induction needed as [|off needed IH]; cbn [load_needed]; silent. Qed.
#[export] Hint Resolve silent_load_needed : silent.

Lemma silent_process rec i : (forall t, silent (rec t)) -> silent (process_object rec i).
Proof. intros Hr. unfold process_object, relocate_object. silent. Qed.
#[export] Hint Resolve silent_process : silent.

Lemma silent_tls_rel_loop n ob p e u : silent (tls_rel_loop n ob p e u).
Proof. revert p. induction n as [|n IH]; intros p; cbn [tls_rel_loop]; [silent|]. unfold tls_reloc, dbg, put. silent. Qed.
#[export] Hint Resolve silent_tls_rel_loop : silent.

Lemma silent_tls_relocate : silent tls_relocate.
Proof.
  unfold tls_relocate. apply silent_bind; [silent|]. intros l. induction l as [|ob l IH]; cbn [for_each]; [silent|].
  apply silent_bind; [unfold tls_relocate_obj; silent|done].
Qed.

Lemma silent_tls_publish : silent tls_publish.
Proof. unfold tls_publish, resolve_symbol, dbg. silent. Qed.
#[export] Hint Resolve silent_tls_relocate silent_tls_publish : silent.

Section Handover.
Context `{Ldr : Dlfcn.Loader} (junk : nat -> Z).

Lemma silent_map_pass ph t lo hi : silent (map_pass ph t lo hi).
Proof. revert t lo hi. induction ph as [|p ph IH]; intros t lo hi; cbn [map_pass]; [silent|]. unfold map_segment. silent. Qed.

Lemma silent_copy_pass f total ph : silent (copy_pass f total ph).
Proof. induction ph as [|p ph IH]; cbn [copy_pass]; silent. Qed.
#[local] Hint Resolve silent_map_pass silent_copy_pass : silent.

Lemma silent_load_library fuel t : silent (load_library fuel t).
Proof. revert t. induction fuel as [|fuel IH]; intros t; cbn [load_library]; [silent|]. unfold dbg_path. silent. Qed.
#[local] Hint Resolve silent_load_library : silent.

Lemma wlp_silent {A} (c : St ld A) s (Q : A -> ld -> Prop) : silent c -> wlp c s (fun a s' => lib_table s' = lib_table s -> Q a s') -> wlp c s Q.
Proof. unfold wlp, silent. eauto. Qed.

Lemma hand_out_ident ms l : ident <$> hand_out ms l = ident <$> l.
Proof.
  revert ms. induction l as [|ob l IH]; intros ms; [done|]. cbn [hand_out]. destruct (has_tls ob); [destruct ms|]; cbn; by rewrite IH.
Qed.

Lemma keeps_tls_rel_loop n ob p e u : keeps (tls_rel_loop n ob p e u).
Proof. revert p. induction n as [|n IH]; intros p; cbn [tls_rel_loop]; [keeps|]. unfold tls_reloc, dbg, put. keeps. Qed.
#[local] Hint Resolve keeps_tls_rel_loop : keeps.

Lemma keeps_tls_relocate : keeps tls_relocate.
Proof.
  unfold tls_relocate. apply keeps_bind; [keeps|]. intros l. induction l as [|ob l IH]; cbn [for_each]; [keeps|].
  apply keeps_bind; [unfold tls_relocate_obj; keeps|done].
Qed.

Lemma tls_publish_grows s : wlp tls_publish s (fun _ s' => grows s s').
Proof.
  unfold tls_publish. wlp_pure. set (s1 := Ld _ _ _ _ _ _).
  assert (G1 : grows s s1).
  { assert (E : ident <$> g_objs s1 = ident <$> g_objs s) by apply hand_out_ident. split.
    - apply (f_equal length) in E. rewrite !length_fmap in E. unfold g_nobj. by rewrite E.
    - exists []. by rewrite app_nil_r. }
  apply wlp_keeps; [keeps|]. intros addr s2 E2. case_match; wlp_pure.
  - eapply ld_grows_trans; [exact G1|]. by apply grows_same.
  - apply wlp_keeps; [unfold dbg; keeps|]. intros [] s3 E3. eapply ld_grows_trans; [exact G1|]. apply grows_same. congruence.
Qed.

Lemma new_obj_name t dy tl ph lo hi : name (new_obj t dy tl ph lo hi) = t.
Proof. unfold new_obj. by destruct tl. Qed.

(** What the library finds in its variables: the table, zeroed data, and in the
    unused entries whatever was copied. *)
Definition start (tab rest : list Dlfcn.cact_dl_object_t) (p : TlsStatic.tls) : Dlfcn.dl :=
  Dlfcn.Dl (length tab) (tab ++ rest) (repeat (Dlfcn.Ld [] [] []) 8) (repeat false 16) p [] false [] (repeat (Dlfcn.Lm 0 None 0 None None) 8).

Definition published (s : ld) : list Dlfcn.cact_dl_object_t := imap (fun i ob => publish_obj (junk i) ob) (g_objs s).

Lemma entry_table stackp s e s' tab :
  g_objs s = [] -> lib_table s = None -> ldso_entry junk stackp s = Some (e, s') -> lib_table s' = Some tab ->
  (g_nobj s' <= LDSO_MAX_OBJS)%nat /\ tab = published s' /\ head (name <$> g_objs s') = Some (Dlfcn.txt "<main>").
Proof.
  intros H0 Ht. revert e s'. unfold ldso_entry.
  enough (W : wlp (ldso_entry junk stackp) s (fun _ s' => lib_table s' = Some tab ->
    (g_nobj s' <= LDSO_MAX_OBJS)%nat /\ tab = published s' /\ head (name <$> g_objs s') = Some (Dlfcn.txt "<main>"))).
  { intros e s' E. apply (W _ _ E). }
  assert (Hd : forall t s1, lib_table s1 = None -> wlp (let* _ := dbg t in ret 0) s1 (fun _ s' => lib_table s' = Some tab ->
    (g_nobj s' <= LDSO_MAX_OBJS)%nat /\ tab = published s' /\ head (name <$> g_objs s') = Some (Dlfcn.txt "<main>"))).
  { intros t s1 E. apply wlp_silent; [unfold dbg; silent|]. intros a s2 _ E2 E3. congruence. }
  unfold ldso_entry. wlp_pure. apply wlp_silent; [silent|]. apply wlp_keeps; [keeps|]. intros av s1 E1 T1. destruct av as [av|]; [|apply Hd; congruence].
  wlp_pure. apply wlp_silent; [silent|]. apply wlp_keeps; [keeps|]. intros ph s2 E2 T2. cbv zeta. case_match; [apply Hd; congruence|].
  destruct (Dlfcn.span ph) as [lo hi]. wlp_pure. set (o := new_obj _ _ _ _ _ _). set (s3 := set_objs _ _).
  assert (H3 : ident <$> g_objs s3 = [ident o]) by (cbn; by rewrite E2, E1, H0).
  assert (N3 : g_nobj s3 = 1%nat) by (apply (f_equal length) in H3; by rewrite length_fmap in H3).
  apply wlp_silent; [silent|]. eapply wlp_mono; [apply process_grows; intros; apply load_library_grows|]. intros [] s4 G4 T4. wlp_pure.
  apply wlp_silent; [silent|]. eapply wlp_mono; [apply tls_publish_grows|]. intros [] s5 G5 T5. wlp_pure.
  apply wlp_silent; [silent|]. apply wlp_keeps; [apply keeps_tls_relocate|]. intros [] s6 E6 T6. wlp_pure.
  assert (G : grows s3 s6) by (eapply ld_grows_trans; [exact G4|]; eapply ld_grows_trans; [exact G5|]; by apply grows_same).
  assert (Hn : (g_nobj s6 <= LDSO_MAX_OBJS)%nat) by (apply G; rewrite N3; unfold LDSO_MAX_OBJS; lia).
  assert (Hh : head (name <$> g_objs s6) = Some (Dlfcn.txt "<main>")).
  { destruct G as [_ [l Hl]]. rewrite H3 in Hl. destruct (g_objs s6) as [|o' l']; [done|]. cbn [fmap list_fmap app] in Hl.
    injection Hl as E _ _ _. cbn. unfold o in E. rewrite new_obj_name in E. by rewrite E. }
  unfold dl_publish. wlp_pure. apply wlp_silent; [unfold resolve_symbol; silent|]. apply wlp_keeps; [keeps|]. intros addr s7 E7 T7. destruct (addr =? 0); wlp_pure.
  - apply wlp_silent; [unfold dbg; silent|]. intros [] s8 _ T8. wlp_pure. intros E. exfalso. cbn in T4. congruence.
  - intros [= <-]. unfold g_nobj, published in *. cbn. rewrite E7. split_and!; [done| |done]. by rewrite take_ge.
Qed.

Lemma start_obj s rest p i o : g_objs s !! i = Some o -> Dlfcn.obj (start (published s) rest p) i = publish_obj (junk i) o.
Proof.
  intros H. unfold Dlfcn.obj, start, published. cbn [Dlfcn.objs]. rewrite lookup_app_l; [|rewrite length_imap; by eapply lookup_lt_Some].
  by rewrite list_lookup_imap, H.
Qed.

Lemma start_lookup s rest p i :
  (i < Dlfcn.count (start (published s) rest p))%nat -> exists o, g_objs s !! i = Some o /\ Dlfcn.obj (start (published s) rest p) i = publish_obj (junk i) o.
Proof.
  cbn. unfold published. rewrite length_imap. intros Hi. destruct (lookup_lt_is_Some_2 _ _ Hi) as [o Ho]. exists o. split; [done|by apply start_obj].
Qed.

Lemma start_load s rest p i : Dlfcn.deps (Dlfcn.load (start (published s) rest p) i) = [].
Proof. unfold Dlfcn.load, start. cbn [Dlfcn.loads]. do 8 (destruct i as [|i]; [done|]). done. Qed.

(** Spans that share no address, objects without segments aside. *)
Definition spread (l : list ldobj_t) : Prop :=
  forall i j oi oj, l !! i = Some oi -> l !! j = Some oj -> i <> j ->
    size oi = 0 \/ size oj = 0 \/ base oi + size oi <= base oj \/ base oj + size oj <= base oi.

(** the table the linker hands over is the sound start of the run-time
    loader: whatever libraries it loaded, if their images do not overlap and the
    entries' namespace is the base one, the loader's invariants hold, with the
    program as the first object. *)
Theorem startup_sound stackp s e s' tab rest p :
  g_objs s = [] -> lib_table s = None -> ldso_entry junk stackp s = Some (e, s') -> lib_table s' = Some tab ->
  spread (g_objs s') -> (forall i, junk i = Dlfcn.LM_ID_BASE) -> length rest = (8 - length tab)%nat ->
  DlTable.inv (start tab rest p) /\ DlTable.scoped (start tab rest p) /\
  Dlfcn.name (Dlfcn.obj (start tab rest p) 0) = Some (Dlfcn.txt "<main>").
Proof.
  intros H0 Ht E Et Hs Hj Hr. destruct (entry_table _ _ _ _ _ H0 Ht E Et) as (Hn & -> & Hm).
  unfold g_nobj, LDSO_MAX_OBJS in Hn.
  assert (Hl : length (published s') = length (g_objs s')) by apply length_imap.
  unfold DlTable.inv. split_and!.
  - split; [change (length (published s' ++ rest) = 8)%nat; rewrite length_app, Hr; unfold Dlfcn.CACT_DL_MAX_OBJECTS; lia|done|done|
      change (length (published s') <= 8)%nat; lia|].
    intros i j Hi Hj' Hij. destruct (start_lookup _ _ _ _ Hi) as (oi & Ei & ->), (start_lookup _ _ _ _ Hj') as (oj & Ej & ->).
    destruct (Hs i j oi oj Ei Ej Hij) as [H|[H|[H|H]]]; unfold DlTable.clash, DlTable.live, Dlfcn.overlaps; cbn [Dlfcn.size Dlfcn.base publish_obj].
    + rewrite H. change (0 =? 0) with true. by rewrite andb_false_r.
    + rewrite H. change (0 =? 0) with true. cbn [negb]. by rewrite !andb_false_r.
    + rewrite (proj2 (Z.ltb_ge (base oj) _)) by lia. by rewrite !andb_false_r.
    + rewrite (proj2 (Z.ltb_ge (base oi) _)) by lia. by rewrite !andb_false_r.
  - intros i Hi _. destruct (start_lookup _ _ _ _ Hi) as (o & _ & ->). cbn [Dlfcn.ns publish_obj]. rewrite Hj. done.
  - intros i Hi _. rewrite start_load. destruct (start_lookup _ _ _ _ Hi) as (o & _ & ->). cbn [Dlfcn.ns publish_obj]. by rewrite Hj.
  - intros i d _. rewrite start_load. by intros []%elem_of_nil.
  - destruct (g_objs s') as [|o l] eqn:Eo; [done|]. rewrite (start_obj s' rest p 0 o); [|by rewrite Eo]. cbn in Hm |- *. congruence.
Qed.

Lemma filter_all {A} (P : A -> Prop) `{forall x, Decision (P x)} (l : list A) : (forall x, x ∈ l -> P x) -> filter P l = l.
Proof.
  induction l as [|x l IH]; intros Hl; [done|]. rewrite filter_cons_True by (apply Hl; by left). f_equal. apply IH. intros y Hy. apply Hl. by right.
Qed.

Lemma look_in_reads ob t m v m' : look_in ob t m = Some (v, m') -> m' = m.
Proof. rewrite (look_same 0). apply DlScope.dl_lookup_reads. Qed.

Lemma first_hit_resolve sd t l k v m' :
  (forall i o, l !! i = Some o -> exists j, Dlfcn.obj sd (k + i) = publish_obj j o) ->
  resolve_in l t (TlsStatic.tmem (Dlfcn.proc sd)) = Some (v, m') ->
  exists r, Dlfcn.first_hit ((fun i => Dlfcn.look i t) <$> seq k (length l)) sd = Some (r, sd) /\ default 0 (fst <$> r) = v.
Proof.
  revert k. induction l as [|o l IH]; intros k Ho; cbn [resolve_in length seq fmap list_fmap Dlfcn.first_hit].
  { intros [= <- _]. by exists None. }
  destruct (Ho 0%nat o eq_refl) as [j Hj]. rewrite Nat.add_0_r in Hj. unfold bind at 1.
  destruct (look_in o t _) as [[w m1]|] eqn:E; [|done]. pose proof (look_in_reads _ _ _ _ _ E). subst m1. rewrite (look_same j), <- Hj in E.
  assert (Hk : Dlfcn.look k t sd = Some (if w =? 0 then None else Some (w, k), sd)).
  { unfold Dlfcn.look. rewrite (bind_run (gets _) _ sd _ sd eq_refl), (bind_run _ _ _ _ _ (DlScope.on_mem_reads _ _ _ E)). done. }
  rewrite (bind_run _ _ _ _ _ Hk). destruct (w =? 0); cbn [negb].
  - intros H. apply (IH (S k)); [|done]. intros i o' Hi. destruct (Ho (S i) o' Hi) as [j' Hj']. exists j'. by rewrite <- Hj', Nat.add_succ_r.
  - intros [= <- _]. by exists (Some (w, k)).
Qed.

(** C31: the linker and the library look names up alike.  Over one list of
    objects: a name that the linker's routine resolves to an address is found at
    that address by the run-time lookup in the global scope of the table made
    from the list, with the symbols' bindings, types and weak definitions treated
    the same way.  The list is the one of the moment of the lookup: a relocation
    that was done before a later library was loaded has not seen its symbols
    ([sibling_symbol_unresolved]). *)
Theorem binding_agrees s rest p t v m :
  TlsStatic.tmem p = mm s -> resolve_in (g_objs s) t (mm s) = Some (v, m) ->
  Dlfcn.dl_lookup_global t (start (published s) rest p) = Some (v, start (published s) rest p).
Proof.
  intros Hp Hr. set (sd := start (published s) rest p). assert (Hc : Dlfcn.count sd = length (g_objs s)) by apply length_imap.
  assert (Hsc : Dlfcn.scope Dlfcn.LM_ID_BASE sd = seq 0 (length (g_objs s))).
  { unfold Dlfcn.scope. rewrite Hc. apply filter_all. intros i Hi. apply elem_of_seq in Hi.
    destruct (start_lookup s rest p i) as (o & _ & E); [fold sd; rewrite Hc; lia|]. fold sd in E. by rewrite E. }
  assert (Hd : seq 0 (length (g_objs s)) ≫= (fun i => Dlfcn.deps (Dlfcn.load sd i)) = []).
  { generalize (seq 0 (length (g_objs s))). intros l. induction l as [|i l IH]; [done|]. cbn. unfold sd. rewrite start_load. exact IH. }
  rewrite <- Hp in Hr. destruct (first_hit_resolve sd t (g_objs s) 0 v m) as (r & E & Ev); [|exact Hr|].
  { intros i o Hi. exists (junk i). by apply start_obj. }
  unfold Dlfcn.dl_lookup_global. rewrite (bind_run (gets _) _ sd _ sd eq_refl). change (id sd) with sd. cbv zeta. rewrite Hsc, Hd, app_nil_r.
  rewrite (bind_run _ _ _ _ _ E), Ev. done.
Qed.
End Handover.

(** ** Thread-local variables *)

Definition tls_count (l : list ldobj_t) : nat := length (filter (fun ob => has_tls ob) l).

Lemma hand_out_module ms l ob :
  (tls_count l <= length ms)%nat -> ob ∈ hand_out ms l -> has_tls ob = true ->
  exists m, m ∈ ms /\ tls_off ob = TlsLayout.off m /\ tls_modid ob = TlsLayout.id m.
Proof.
  unfold tls_count. revert ms. induction l as [|o l IH]; intros ms Hc Hob Ht; [by apply elem_of_nil in Hob|].
  cbn [hand_out] in Hob. rewrite filter_cons in Hc. destruct (has_tls o) eqn:Eo.
  - rewrite decide_True in Hc by done. destruct ms as [|m ms]; [cbn in Hc; lia|]. apply elem_of_cons in Hob as [->|Hob].
    + exists m. split_and!; [by left|done|done].
    + destruct (IH ms) as (m' & Hm' & H); [cbn in Hc; lia|done|done|]. exists m'. split; [by right|done].
  - rewrite decide_False in Hc by (by intros []). apply elem_of_cons in Hob as [->|Hob]; [by unfold has_tls in *; cbn in Ht; rewrite Eo in Ht|].
    by apply IH.
Qed.

(** A module a program can have: small, and aligned to at most a cache line. *)
Definition tls_sane (ob : ldobj_t) : Prop := TlsLayout.sane (module_of ob) /\ tls_align ob <= 64.

Lemma Forall_filtered {A} (P : A -> Prop) (Q : A -> Prop) `{forall x, Decision (Q x)} l : Forall P l -> Forall P (filter Q l).
Proof. induction 1 as [|x l Hx _ IH]; [done|]. rewrite filter_cons. case_decide; [by constructor|done]. Qed.

Lemma Forall_repeated {A} (P : A -> Prop) x n : P x -> Forall P (repeat x n).
Proof. intros Hx. induction n; by constructor. Qed.

Lemma tls_modules_sane l : Forall tls_sane l -> Forall TlsLayout.sane (tls_modules l) /\ Forall (fun m => TlsLayout.align m <= 64) (tls_modules l).
Proof.
  intros H. unfold tls_modules. rewrite !Forall_app. assert (Hf : Forall tls_sane (filter (fun ob => has_tls ob) l)) by by apply Forall_filtered.
  split; split; try (apply Forall_repeated; unfold TlsLayout.sane; cbn; lia);
    apply Forall_take, Forall_fmap; (eapply Forall_impl; [|exact Hf]); intros ob [H1 H2]; done.
Qed.

Lemma tls_modules_length l : length (tls_modules l) = 8%nat.
Proof. unfold tls_modules. rewrite length_app, repeat_length, length_take. lia. Qed.

Lemma tls_published s s' lay :
  (g_nobj s <= 8)%nat -> Forall tls_sane (g_objs s) -> (0 < tls_count (g_objs s))%nat -> lib_layout s = None ->
  tls_publish s = Some (tt, s') -> lib_layout s' = Some lay ->
  TlsLayout.layout_ok lay /\ g_tls_total s' = TlsLayout.total lay /\
  forall ob, ob ∈ g_objs s' -> has_tls ob = true -> exists m, m ∈ TlsLayout.live lay /\ tls_off ob = TlsLayout.off m /\ tls_modid ob = TlsLayout.id m.
Proof.
  intros Hn Hs Hc Hlib Hrun Hlay. destruct (tls_modules_sane _ Hs) as [S1 S2]. unfold tls_publish in Hrun.
  rewrite (bind_run (gets _) _ s _ s eq_refl) in Hrun. fold (tls_count (g_objs s)) in Hrun.
  assert (Hc8 : (tls_count (g_objs s) <= 8)%nat) by (unfold tls_count, g_nobj in *; pose proof (length_filter (fun ob => has_tls ob) (g_objs s)); lia).
  rewrite Nat.min_r in Hrun by done. set (n := tls_count (g_objs s)) in *. set (lay0 := TlsLayout.cact_tls_plan_reserved _ _ _) in Hrun. cbv zeta in Hrun.
  destruct (TlsLayout.plan_reserved_ok (TlsLayout.mk_layout 0 0 0 0 0 (tls_modules (g_objs s))) (Z.of_nat n) TlsLayout.CACT_TLS_RESERVE)
    as (Ok & Ec & _ & _ & _); [apply tls_modules_length|lia|by unfold TlsLayout.CACT_TLS_RESERVE|done|done|]. fold lay0 in Ok, Ec.
  rewrite (bind_run (modify _) _ s tt _ eq_refl) in Hrun. set (s1 := Ld _ _ _ _ _ _) in Hrun. unfold bind in Hrun.
  destruct (resolve_symbol _ s1) as [[addr s2]|] eqn:E2; [|done]. pose proof (keeps_resolve _ _ _ _ E2) as K2.
  assert (M2 : lib_layout s2 = None /\ g_tls_total s2 = TlsLayout.total lay0).
  { unfold resolve_symbol, bind, gets, on_mem in E2. destruct (resolve_in _ _ _) as [[v m]|]; [|done]. injection E2 as _ <-. done. }
  destruct (addr =? 0); cbn [negb] in Hrun; [unfold dbg, ld_dbg, modify in Hrun; injection Hrun as <-; cbn in Hlay; destruct M2; congruence|].
  injection Hrun as <-. cbn in Hlay. injection Hlay as <-. split_and!; [done|apply M2|].
  cbn [g_objs]. rewrite K2. intros ob Hob Ht. destruct (hand_out_module (take n (TlsLayout.mods lay0)) (g_objs s) ob) as (m & Hm & H); [|done|done|].
  - rewrite length_take, (TlsLayout.lay_len _ Ok). fold n. lia.
  - exists m. split; [|done]. unfold TlsLayout.live. by rewrite Ec, Z.min_l, Nat2Z.id by lia.
Qed.

(** C32: the two ways to reach a thread-local variable agree: the displacement
    that the linker stores for a static access to a symbol of the object itself,
    added to the thread pointer, is the address [___tls_get_addr] computes from
    the module id it stores for a dynamic one, for every object and every thread.
    There are at most eight objects, whose segments have sane sizes and an
    alignment of at most 64. *)
Theorem tls_access_agrees s s' lay ob r_offset r_info y A tp :
  (g_nobj s <= 8)%nat -> Forall tls_sane (g_objs s) -> (0 < tls_count (g_objs s))%nat -> lib_layout s = None ->
  tls_publish s = Some (tt, s') -> lib_layout s' = Some lay -> ob ∈ g_objs s' -> has_tls ob = true ->
  Dlfcn.ELF32_R_TYPE r_info = Dlfcn.R_386_TLS_TPOFF -> 0 < Dlfcn.ELF32_R_SYM r_info < symcount ob ->
  Dlfcn.sym_at (symtab ob) (Dlfcn.ELF32_R_SYM r_info) (mm s') = Some (y, mm s') -> writable (mm s') r_offset 4 ->
  exists w, tls_reloc ob r_offset r_info (ret A) s' = Some (tt, set_mm (write_list r_offset (word_bytes w) (mm s')) s') /\
    0 <= w < 2 ^ 32 /\ u32 (tp + w) = TlsLayout.cact_tls_addr lay (tls_modid ob) (Dlfcn.st_value y + A) tp.
Proof.
  intros Hn Hs Hc Hlib Hrun Hlay Hob Ht Hty Hsi Hy Hw. destruct (tls_published _ _ _ Hn Hs Hc Hlib Hrun Hlay) as (Ok & Et & Hm).
  destruct (Hm ob Hob Ht) as (m & Hm' & Eo & Ei). exists (u32 (tls_off ob + Dlfcn.st_value y + A - g_tls_total s')). split_and!.
  - unfold tls_reloc. rewrite Hty. change (Dlfcn.R_386_TLS_TPOFF =? Dlfcn.R_386_TLS_TPOFF) with true. cbn [orb].
    rewrite (proj2 (Z.eqb_neq _ _)), (proj2 (Z.ltb_lt _ _)) by lia. cbn [negb andb].
    assert (Hr : on_mem (Dlfcn.sym_at (symtab ob) (Dlfcn.ELF32_R_SYM r_info)) s' = Some (y, s')) by (unfold on_mem; rewrite Hy; by destruct s').
    unfold bind, ret, gets. rewrite Hr. unfold put, on_mem. by rewrite store32_eq.
  - apply u32_range.
  - apply u32_range.
  - rewrite Ei, TlsStatic.tls_addr_eq by done. rewrite Eo, Et. unfold u32, wrapu. rewrite Z.add_mod_idemp_r by lia. f_equal. lia.
Qed.

(** ** The auxiliary vector *)

Definition words_at (m : mem) (p : Z) (ws : list Z) : Prop := bytes_at m p (DlImage.words ws) /\ Forall DlScope.word ws.

Lemma words_at_cons m p w ws : words_at m p (w :: ws) <-> Dlfcn.load32 p m = Some (w, m) /\ words_at m p [w] /\ words_at m (p + 4) ws.
Proof.
  unfold words_at, DlImage.words. cbn [mbind list_bind]. rewrite app_nil_r, bytes_at_app, !Forall_cons_iff. cbn [length word_bytes].
  split.
  - intros [[H1 H2] [H3 H4]]. split_and!; try done. by apply DlScope.load32_at.
  - intros (_ & [H1 [H2 _]] & H3 & H4). done.
Qed.

(** A run of bytes fits into memory. *)
Lemma bytes_at_size m p l : bytes_at m p l -> (length l <= stdpp.base.size m)%nat.
Proof.
  revert m p. induction l as [|b l IH]; intros m p H; [cbn; lia|]. apply bytes_at_cons in H as [H0 H].
  rewrite <- (insert_delete_id m p b H0), map_size_insert_None by apply lookup_delete_eq. cbn [length].
  apply le_n_S, (IH _ (p + 1)). intros i c Hc. rewrite lookup_delete_ne by lia. by apply H.
Qed.

Lemma words_length ws : length (DlImage.words ws) = (4 * length ws)%nat.
Proof.
  induction ws as [|w ws IH]; [done|]. change (DlImage.words (w :: ws)) with (word_bytes w ++ DlImage.words ws).
  rewrite length_app, IH. change (length (word_bytes w)) with 4%nat. cbn [length]. lia.
Qed.

Lemma zero_word_at fuel m p ws rest :
  words_at m p (ws ++ 0 :: rest) -> Forall (fun w => w <> 0) ws -> (length ws < fuel)%nat ->
  zero_word fuel p m = Some (p + 4 * Z.of_nat (length ws), m).
Proof.
  revert fuel p. induction ws as [|w ws IH]; intros [|fuel] p H Hnz Hf; try (cbn in Hf; lia); cbn [app] in H; apply words_at_cons in H as (H0 & _ & H); cbn [zero_word].
  - rewrite (bind_run _ _ _ _ _ H0). change (0 =? 0) with true. cbv iota. unfold ret. cbn. by rewrite Z.add_0_r.
  - apply Forall_cons_1 in Hnz as [Hw Hnz]. rewrite (bind_run _ _ _ _ _ H0), (proj2 (Z.eqb_neq _ _) Hw).
    rewrite (IH fuel (p + 4)); [|done|done|cbn in Hf; lia]. do 2 f_equal. cbn [length]. lia.
Qed.

Definition aux_words (aux : list (Z * Z)) : list Z := (aux ≫= fun e => [e.1; e.2]) ++ [0].

Lemma aux_loop_at fuel m p aux a :
  words_at m p (aux_words aux) -> Forall (fun e => e.1 <> 0) aux -> (length aux < fuel)%nat ->
  aux_loop fuel p a m = Some (foldl (fun a e => aux_entry e.1 e.2 a) a aux, m).
Proof.
  revert fuel p a. induction aux as [|[t v] aux IH]; intros [|fuel] p a H Hnz Hf; try (cbn in Hf; lia); unfold aux_words in H; cbn [mbind list_bind app fst snd] in H;
    apply words_at_cons in H as (H0 & _ & H); cbn [aux_loop].
  - by rewrite (bind_run _ _ _ _ _ H0).
  - apply words_at_cons in H as (H1 & _ & H). apply Forall_cons_1 in Hnz as [Ht Hnz]. cbn in Ht.
    rewrite (bind_run _ _ _ _ _ H0), (proj2 (Z.eqb_neq _ _) Ht), (bind_run _ _ _ _ _ H1). cbn [foldl fst snd]. apply IH; [|done|cbn in Hf; lia].
    by replace (p + 8) with (p + 4 + 4) by lia.
Qed.

(** The auxiliary vector of a stack is read whole, behind the environment: the
    loops need no bound of their own, memory is enough. *)
Theorem parse_auxv_reads m sp argc argv envp env aux :
  words_at m sp [argc; argv; envp] -> envp <> 0 -> words_at m envp (env ++ 0 :: aux_words aux) ->
  Forall (fun w => w <> 0) env -> Forall (fun e => e.1 <> 0) aux ->
  let a := foldl (fun a e => aux_entry e.1 e.2 a) (Auxv 0 0 0 0 0 0) aux in
  parse_auxv sp m = Some (if negb (av_phdr a =? 0) && negb (av_phnum a =? 0) && negb (av_phent a =? 0) then Some a else None, m).
Proof.
  intros Hs He Hw Hnz Haux a.
  assert (Hsz : (4 * length (env ++ 0%Z :: aux_words aux) <= stdpp.base.size m)%nat) by (rewrite <- words_length; by eapply bytes_at_size, Hw).
  rewrite length_app in Hsz. cbn [length] in Hsz.
  assert (Hal : (length aux <= length (aux_words aux))%nat).
  { unfold aux_words. rewrite length_app. clear. induction aux as [|e aux IH]; cbn in *; lia. }
  apply words_at_cons in Hs as (_ & _ & Hs). apply words_at_cons in Hs as (H1 & _ & Hs). apply words_at_cons in Hs as (H2 & _ & _).
  replace (sp + 4 + 4) with (sp + 8) in H2 by lia.
  unfold parse_auxv. rewrite (bind_run (gets _) _ m _ m eq_refl), (bind_run _ _ _ _ _ H1), (bind_run _ _ _ _ _ H2).
  rewrite (proj2 (Z.eqb_neq _ _) He). cbn [negb]. rewrite (proj2 (Z.eqb_neq _ _) He).
  rewrite (bind_run _ _ _ _ _ (zero_word_at (S (stdpp.base.size m)) _ _ _ _ Hw Hnz ltac:(lia))).
  assert (Ha : words_at m (envp + 4 * Z.of_nat (length env) + 4) (aux_words aux)).
  { clear -Hw. revert envp Hw. induction env as [|w env IH]; intros envp Hw; cbn [app] in Hw; apply words_at_cons in Hw as (_ & _ & Hw).
    - cbn. by rewrite Z.add_0_r.
    - specialize (IH _ Hw). cbn [length]. by replace (envp + 4 * Z.of_nat (S (length env)) + 4) with (envp + 4 + 4 * Z.of_nat (length env) + 4) by lia. }
  rewrite (bind_run _ _ _ _ _ (aux_loop_at (S (stdpp.base.size m)) _ _ _ _ Ha Haux ltac:(lia))). done.
Qed.
End LdsoSpec.
