(* ===== verification/LdsoWorld.v ===== *)
(** * LdsoWorld: the start of a process

    A program with three libraries, started by the dynamic linker in the model:
    the theorems of [LdsoSpec] at work, and where the linker falls short. *)

From Stdlib Require Import ZArith Lia Bool String Ascii.
From stdpp Require Import base gmap list numbers.
From S2P Require Import Prelude Monad Memory TlsLayout TlsStatic Dlfcn DlTable DlScope DlImage DlWorld Ldso LdsoSpec.

Module LdsoWorld.
Import Ldso.

Abbreviation txt := Dlfcn.txt.

(** ** The files and the stack *)

(** The C library, with the two variables the linker fills. *)
Definition clibc_so : list Z :=
  DlImage.image 131072 (txt "clibc.so") [] [(txt "cact_tls_layout", 131136); (txt "cact_dl_table", 131140); (txt "puts", 131144)] [] [].
(** Uses [puts], and [late] of the library after it. *)
Definition a_so : list Z := DlImage.image 65536 (txt "a.so") [txt "clibc.so"] [(txt "a", 65600)] [txt "puts"; txt "late"] [(65544, 519); (65548, 775)].
Definition b_so : list Z := DlImage.image 196608 (txt "b.so") [txt "a.so"] [(txt "late", 196672)] [] [].
Definition main_img : list Z := DlImage.image 524288 (txt "prog") [txt "a.so"; txt "b.so"; txt "clibc.so"] [] [txt "a"] [(524300, 263)].

#[local] Instance Disk : Dlfcn.Loader := {|
  Dlfcn.file_reads p := (fun x => [Dlfcn.RData (snd x)]) <$>
    find (fun x => bool_decide (x.1 = p)) [(txt "/usr/lib/clibc.so", clibc_so); (txt "/usr/lib/a.so", a_so); (txt "/usr/lib/b.so", b_so)];
  Dlfcn.buf_grants _ := true;
  Dlfcn.mmap_grants _ _ := true
|}.

(** argc, argv and envp, two empty arrays, and the auxiliary vector. *)
Definition stack : list Z :=
  DlImage.words [0; 4096 + 12; 4096 + 16; 0; 0; 3; 524288 + 52; 4; 32; 5; 2; 6; 4096; 9; 524320; 0; 0].

Definition s0 : ld := Ld [] (write_list 524288 main_img (write_list 4096 stack ∅)) [] 0 None None.

Definition after {A} (c : St ld A) (s : ld) : ld := match c s with Some (_, s') => s' | None => s end.
Definition result {A} (c : St ld A) (s : ld) : option A := fst <$> c s.

Lemma ld_runs_eq {A} (c : St ld A) s a s' : s' = after c s -> result c s = Some a -> c s = Some (a, s').
Proof. unfold result, after. intros ->. destruct (c s) as [[a' s']|]; [by intros [= ->]|done]. Qed.

Definition zeros (i : nat) : Z := 0.
Definition s1 : ld := after (ldso_entry zeros 4096) s0.

Lemma s1_eq : ldso_entry zeros 4096 s0 = Some (524320, s1).
Proof. apply ld_runs_eq; [reflexivity|vm_compute; reflexivity]. Qed.

(** The whole start: the libraries in load order, depth first, and the words
    that relocation fills. *)
Example start_up :
  name <$> g_objs s1 = [txt "<main>"; txt "a.so"; txt "clibc.so"; txt "b.so"] /\ out s1 = [] /\
  fst <$> Dlfcn.load32 524300 (mm s1) = Some 65600 /\ fst <$> Dlfcn.load32 65544 (mm s1) = Some 131144.
Proof. vm_compute. done. Qed.

(** ** The theorems at work *)

Lemma s1_spread : LdsoSpec.spread (g_objs s1).
Proof.
  assert (E : (fun o => (base o, size o)) <$> g_objs s1 = [(524288, 4096); (65536, 4096); (131072, 4096); (196608, 4096)]) by (vm_compute; reflexivity).
  revert E. generalize (g_objs s1). intros l E i j oi oj Hi Hj Hij.
  pose proof (f_equal (fun l => l !! i) E) as Ei. pose proof (f_equal (fun l => l !! j) E) as Ej. cbv beta in Ei, Ej.
  rewrite list_lookup_fmap, Hi in Ei. rewrite list_lookup_fmap, Hj in Ej. cbn in Ei, Ej.
  destruct i as [|[|[|[|i]]]], j as [|[|[|[|j]]]]; cbn in Ei, Ej; simplify_eq; try done; right; right; lia.
Qed.

Definition no_tls : TlsStatic.tls := TlsStatic.mk_tls (TlsLayout.mk_layout 0 0 0 0 0 []) [] (mm s1).

Lemma startup_sound_witness :
  let tab := LdsoSpec.published zeros s1 in
  DlTable.inv (LdsoSpec.start tab (repeat Dlfcn.no_object 4) no_tls) /\ DlTable.scoped (LdsoSpec.start tab (repeat Dlfcn.no_object 4) no_tls) /\
  Dlfcn.name (Dlfcn.obj (LdsoSpec.start tab (repeat Dlfcn.no_object 4) no_tls) 0) = Some (txt "<main>").
Proof.
  apply (LdsoSpec.startup_sound zeros 4096 s0 524320 s1); [done|done|exact s1_eq| |exact s1_spread|done|].
  - unfold LdsoSpec.published. replace (lib_table s1) with (Some (imap (fun i ob => publish_obj (zeros i) ob) (take 8 (g_objs s1)))) by (vm_compute; reflexivity).
    by rewrite take_ge by (apply Nat.leb_le; vm_compute; reflexivity).
  - unfold LdsoSpec.published. rewrite length_imap. vm_compute. reflexivity.
Defined.

(** Resolving only reads. *)
Lemma resolve_eq l t m v : fst <$> resolve_in l t m = Some v -> resolve_in l t m = Some (v, m).
Proof.
  induction l as [|o l IH]; cbn [resolve_in]; [by intros [= <-]|]. unfold bind. destruct (look_in o t m) as [[w m']|] eqn:E; [|done].
  apply LdsoSpec.look_in_reads in E as ->. destruct (negb (w =? 0)); [by intros [= <-]|done].
Qed.

Lemma binding_agrees_witness :
  let sd := LdsoSpec.start (LdsoSpec.published zeros s1) [] no_tls in Dlfcn.dl_lookup_global (txt "puts") sd = Some (131144, sd).
Proof.
  apply (LdsoSpec.binding_agrees zeros s1 [] no_tls (txt "puts") 131144 (mm s1)); [reflexivity|].
  apply resolve_eq. vm_compute. reflexivity.
Defined.

Lemma ld_load_depth_witness : load_library 20 (txt "a.so") s0 = load_library ld_fuel (txt "a.so") s0.
Proof. apply (LdsoSpec.ld_load_depth 20). apply Nat.leb_le. reflexivity. Defined.

(** A program with a variable of its own, beside the library. *)
Definition lib_sym : Z := 131072 + 116 + 64.
Definition lib_str : Z := lib_sym + 64 + 8.
Definition tls_main : ldobj_t := Obj (txt "<main>") 0 0 lib_sym 4 lib_str 60 131072 4 8 4 0 0 [] 0 0 0 0 0 0 0 0.
Definition s_t : ld := Ld [tls_main] (write_list 131072 clibc_so ∅) [] 0 None None.
Definition s_t' : ld := after tls_publish s_t.

Lemma sym_eq st j m y : fst <$> Dlfcn.sym_at st j m = Some y -> Dlfcn.sym_at st j m = Some (y, m).
Proof. destruct (Dlfcn.sym_at st j m) as [[y' m']|] eqn:E; [|done]. apply DlScope.reads_sym_at in E as ->. by intros [= ->]. Qed.

Lemma tls_access_agrees_witness :
  exists w, tls_reloc (set_tls 1024 1 tls_main) 131080 782 (ret 2) s_t' =
      Some (tt, set_mm (write_list 131080 (word_bytes w) (mm s_t')) s_t') /\
    0 <= w < 2 ^ 32 /\ u32 (70000 + w) = TlsLayout.cact_tls_addr (default (TlsLayout.mk_layout 0 0 0 0 0 []) (lib_layout s_t')) 1 (131144 + 2) 70000.
Proof.
  apply (LdsoSpec.tls_access_agrees s_t s_t' _ (set_tls 1024 1 tls_main) 131080 782 (Dlfcn.Sym 40 131144 0 16 0 1) 2 70000).
  - apply Nat.leb_le. reflexivity.
  - constructor; [|constructor]. unfold LdsoSpec.tls_sane, TlsLayout.sane. cbn. lia.
  - apply Nat.ltb_lt. reflexivity.
  - reflexivity.
  - apply ld_runs_eq; [reflexivity|vm_compute; reflexivity].
  - vm_compute. reflexivity.
  - replace (g_objs s_t') with [set_tls 1024 1 tls_main] by (vm_compute; reflexivity). by left.
  - reflexivity.
  - reflexivity.
  - vm_compute. done.
  - apply sym_eq. vm_compute. reflexivity.
  - intros j Hj. apply not_eq_None_Some. do 4 (destruct j as [|j]; [vm_compute; discriminate|]). lia.
Defined.

(** ** Where the code falls short *)

(** A library is relocated before the libraries after it are there: a symbol of
    one of those is bound to 0, although it is found as soon as the loading is
    over. *)
Theorem sibling_symbol_unresolved :
  fst <$> Dlfcn.load32 65548 (mm s1) = Some 0 /\ result (resolve_symbol (txt "late")) s1 = Some 196672.
Proof. vm_compute. done. Qed.

(** With an explicit addend a relative relocation asks for the addend; the
    linker leaves the word as it is, the run-time loader stores it. *)
Theorem rela_relative_ignored ob o a s sd self :
  apply_rela ob o 8 a s = Some (tt, s) /\
  Dlfcn.relocate self true o 8 a sd = (let* _ := Dlfcn.on_mem (store32 o (u32 a)) in ret 0) sd.
Proof. split; reflexivity. Qed.

(** A copy relocation names the program's own variable, which is defined there:
    it copies the variable onto itself and never the library's initial value. *)
Theorem copy_relocation_copies_itself ob o i y bs s :
  let si := Dlfcn.ELF32_R_SYM i in
  Dlfcn.ELF32_R_TYPE i = Dlfcn.R_386_COPY -> symtab ob <> 0 -> strtab ob <> 0 -> 0 < si < symcount ob ->
  Dlfcn.sym_at (symtab ob) si (mm s) = Some (y, mm s) -> Dlfcn.st_shndx y <> Dlfcn.SHN_UNDEF -> Dlfcn.st_value y = o -> o <> 0 ->
  bytes_at (mm s) o bs -> Forall byte_ok bs -> length bs = Z.to_nat (Dlfcn.st_size y) ->
  apply_rel ob o i s = Some (tt, s).
Proof.
  intros si Hty Hst Hss Hsi Hy Hdef Hv Ho Hb Hok Hl. subst si.
  assert (Hr : on_mem (Dlfcn.sym_at (symtab ob) (Dlfcn.ELF32_R_SYM i)) s = Some (y, s)) by (unfold on_mem; rewrite Hy; by destruct s).
  assert (Hval : reloc_value ob (Dlfcn.ELF32_R_SYM i) s = Some (Some o, s)).
  { unfold reloc_value. rewrite (proj2 (Z.eqb_neq (Dlfcn.ELF32_R_SYM i) 0)), (proj2 (Z.eqb_neq _ _) Hst), (proj2 (Z.eqb_neq _ _) Hss) by lia.
    cbn [negb andb]. rewrite Z.geb_leb, (proj2 (Z.leb_gt _ _)) by lia. rewrite (bind_run _ _ _ _ _ Hr), (proj2 (Z.eqb_neq _ _) Hdef). by rewrite Hv. }
  unfold apply_rel. cbv zeta. rewrite (bind_run _ _ _ _ _ Hval), Hty.
  change (copy_reloc ob (Dlfcn.ELF32_R_SYM i) o o s = Some (tt, s)). unfold copy_reloc.
  rewrite (proj2 (Z.eqb_neq o 0) Ho), (proj2 (Z.ltb_lt _ _)) by lia. cbn [negb andb]. rewrite (bind_run _ _ _ _ _ Hr).
  destruct (_ && _); [|done]. rewrite <- Hl.
  assert (Hld : on_mem (load_bytes o (length bs)) s = Some (bs, s)) by (unfold on_mem; rewrite load_bytes_eq by done; by destruct s).
  rewrite (bind_run _ _ _ _ _ Hld). unfold on_mem. rewrite store_bytes_eq by (done || by apply bytes_at_writable).
  replace (write_list o bs (mm s)) with (mm s); [by destruct s|].
  apply map_eq. intros q. rewrite lookup_write_list. case_bool_decide as Hq; [|done].
  destruct (lookup_lt_is_Some_2 bs (Z.to_nat (q - o))) as [b Eb]; [lia|]. rewrite Eb.
  specialize (Hb _ _ Eb). by replace (o + Z.of_nat (Z.to_nat (q - o))) with q in Hb by lia.
Qed.

(** The namespace of the entries is never assigned: what was on the stack is
    reported as the program's namespace. *)
Theorem program_namespace_unset junk s o l rest p :
  g_objs s = o :: l ->
  let sd := LdsoSpec.start (LdsoSpec.published junk s) rest p in
  Dlfcn.dlinfo Dlfcn.HGlobal Dlfcn.RTLD_DI_LMID true sd = Some ((0, Dlfcn.DiLmid (junk 0%nat)), sd).
Proof.
  intros E sd. unfold Dlfcn.dlinfo. cbn [negb]. rewrite (bind_run (gets _) _ sd _ sd eq_refl). change (id sd) with sd.
  assert (Hf : Dlfcn.find_obj Dlfcn.has_name sd = Some 0%nat) by (unfold Dlfcn.find_obj, sd, LdsoSpec.start, LdsoSpec.published; cbn; by rewrite E).
  unfold Dlfcn.di_object. rewrite Hf. unfold sd. rewrite (LdsoSpec.start_obj junk s rest p 0 o) by (by rewrite E). done.
Qed.
End LdsoWorld.
