(* ===== verification/Crypto.v ===== *)
(** * Crypto: the cryptographic calls, src/crypto.c

    Every call checks its pointers, sends one request to /dev/crypto and maps the
    kernel's answer.  The device is the class [CryptoDev]: a request and the
    device's own state (its random numbers, what it refuses) give a result, the
    bytes it wrote and the next state. *)

From Stdlib Require Import ZArith Lia Bool.
From stdpp Require Import base list numbers.
From S2P Require Import Prelude Monad Time.

Module Crypto.
Abbreviation str := (list Z).

Definition EIO : Z := 5.
Definition EINVAL : Z := 22.
Definition EBADMSG : Z := 74.

Definition CACT_CRYPT_SHA256 : Z := 0.
Definition CACT_CRYPT_SHA384 : Z := 1.
Definition CACT_CRYPT_AES128_GCM : Z := 0.
Definition CACT_CRYPT_AES256_GCM : Z := 1.
Definition CACT_CRYPT_KX_X25519 : Z := 0.
Definition CACT_CRYPT_KX_P256 : Z := 1.
Definition CACT_CRYPT_OP_SEAL : Z := 0.
Definition CACT_CRYPT_OP_OPEN : Z := 1.
Definition CACT_SHA256_LEN : nat := 32.
Definition CACT_SHA384_LEN : nat := 48.
Definition CACT_GCM_NONCE_LEN : nat := 12.
Definition CACT_X25519_KEY_LEN : nat := 32.
Definition CACT_P256_PUB_LEN : nat := 65.
Definition CACT_SIG_RSA_PSS_SHA512 : Z := 7.

(** A request: the command and the input fields of its argument. *)
Inductive request :=
| Random (len : Z)
| Hash (alg : Z) (data : str)
| Hmac (alg : Z) (key data : str)
| HmacVerify (alg : Z) (key data tag : str)
| Hkdf (alg : Z) (salt ikm info : str) (out_len : Z)
| Aead (alg op : Z) (key nonce aad inp : str) (out_cap : Z)
| KxKeygen (alg : Z)
| KxDerive (alg : Z) (priv peer_pub : str)
| SigVerify (scheme : Z) (pubkey msg sig : str)
| X509Verify (chain roots hostname : str) (unix_time tls_scheme : Z) (hs_msg hs_sig : str).

(** The result of the ioctl, and the output fields or buffers. *)
Record reply := Reply { result : Z; out1 : str; out2 : str }.

Class CryptoDev (D : Type) := {
  dev_open : D -> bool;
  dev_ioctl : request -> D -> reply * D
}.

(** A pointer argument with its length; [NULL] may come with any length. *)
Inductive ptr := NULL (len : Z) | Buf (bytes : str).

Definition bytes (p : ptr) : str := match p with NULL _ => [] | Buf l => l end.
(** [!p && len] and [!p || !len]. *)
Definition wild (p : ptr) : bool := match p with NULL n => negb (n =? 0) | Buf _ => false end.
Definition empty (p : ptr) : bool := match p with NULL _ => true | Buf l => bool_decide (l = []) end.
Definition is_null (p : ptr) : bool := match p with NULL _ => true | Buf _ => false end.

(** The device and [errno]. *)
Record cst (D : Type) := Cst { kern : D; errno : Z }.
#[global] Arguments Cst {D} _ _.
#[global] Arguments kern {D} _.
#[global] Arguments errno {D} _.

Section Calls.
Context {D : Type} `{CryptoDev D}.
Abbreviation C := (St (cst D)).

Definition set_errno (e : Z) : C unit := modify (fun s => Cst (kern s) e).
Definition refuse (e : Z) : C Z := let* _ := set_errno e in ret (-1).

(** A field of [n] bytes that the kernel fills. *)
Definition field (n : nat) (l : str) : str := resize n 0 l.

(** Open, ioctl, close. *)
Definition nio_dev_cmd (r : request) : C reply := fun s =>
  if dev_open (kern s) then let '(a, k) := dev_ioctl r (kern s) in Some (a, Cst k (errno s))
  else Some (Reply (-1) [] [], s).

Definition nio_map (r : Z) : C Z := match Time.nio_map r with inl r => ret r | inr e => refuse e end.

Definition crypt_cmd (r : request) : C (Z * reply) :=
  let* a := nio_dev_cmd r in
  if result a <? 0 then let* e := nio_map (result a) in ret (e, a) else ret (0, a).

(** Calls that return bytes answer with the code and what is in the output. *)
Definition cact_random (buf : ptr) (len : Z) : C (Z * str) :=
  if is_null buf && negb (len =? 0) then let* e := refuse EINVAL in ret (e, [])
  else let* (e, a) := crypt_cmd (Random len) in ret (e, field (Z.to_nat len) (out1 a)).

Definition crypt_hash (alg : Z) (digest_len : nat) (data : ptr) (out : bool) : C (Z * str) :=
  if wild data || negb out then let* e := refuse EINVAL in ret (e, [])
  else let* (e, a) := crypt_cmd (Hash alg (bytes data)) in ret (e, if e =? 0 then field digest_len (out1 a) else []).

Definition cact_sha256 (data : ptr) (out : bool) : C (Z * str) := crypt_hash CACT_CRYPT_SHA256 CACT_SHA256_LEN data out.
Definition cact_sha384 (data : ptr) (out : bool) : C (Z * str) := crypt_hash CACT_CRYPT_SHA384 CACT_SHA384_LEN data out.

Definition crypt_hmac_sign (alg : Z) (tag_len : nat) (key data : ptr) (out : bool) : C (Z * str) :=
  if wild key || wild data || negb out then let* e := refuse EINVAL in ret (e, [])
  else let* (e, a) := crypt_cmd (Hmac alg (bytes key) (bytes data)) in ret (e, if e =? 0 then field tag_len (out1 a) else []).

Definition crypt_hmac_verify (alg : Z) (tag_len : nat) (key data tag : ptr) : C Z :=
  if wild key || wild data || is_null tag then refuse EINVAL
  else let* (e, _) := crypt_cmd (HmacVerify alg (bytes key) (bytes data) (field 64 (take tag_len (bytes tag)))) in ret e.

Definition cact_hmac_sha256 (key data : ptr) (out : bool) : C (Z * str) := crypt_hmac_sign CACT_CRYPT_SHA256 CACT_SHA256_LEN key data out.
Definition cact_hmac_sha384 (key data : ptr) (out : bool) : C (Z * str) := crypt_hmac_sign CACT_CRYPT_SHA384 CACT_SHA384_LEN key data out.
Definition cact_hmac_sha256_verify (key data tag : ptr) : C Z := crypt_hmac_verify CACT_CRYPT_SHA256 CACT_SHA256_LEN key data tag.
Definition cact_hmac_sha384_verify (key data tag : ptr) : C Z := crypt_hmac_verify CACT_CRYPT_SHA384 CACT_SHA384_LEN key data tag.

(** [out] is a pointer to a buffer of [out_len] bytes, which the kernel writes. *)
Definition crypt_hkdf (alg : Z) (salt ikm info out : ptr) (out_len : Z) : C (Z * str) :=
  if wild salt || wild ikm || wild info || (is_null out && negb (out_len =? 0)) then let* e := refuse EINVAL in ret (e, [])
  else let* (e, a) := crypt_cmd (Hkdf alg (bytes salt) (bytes ikm) (bytes info) out_len) in ret (e, take (Z.to_nat out_len) (out1 a)).

Definition cact_hkdf_sha256 (salt ikm info out : ptr) (out_len : Z) : C (Z * str) := crypt_hkdf CACT_CRYPT_SHA256 salt ikm info out out_len.
Definition cact_hkdf_sha384 (salt ikm info out : ptr) (out_len : Z) : C (Z * str) := crypt_hkdf CACT_CRYPT_SHA384 salt ikm info out out_len.

(** The bytes the kernel stored at [out]. *)
Definition crypt_gcm (alg op : Z) (key_len : nat) (key nonce aad inp : ptr) (out : bool) (out_cap : Z) : C (Z * str) :=
  if is_null key || is_null nonce || wild aad || wild inp || negb out then let* e := refuse EINVAL in ret (e, [])
  else if negb (Nat.eqb key_len 16) && negb (Nat.eqb key_len 32) then let* e := refuse EINVAL in ret (e, [])
  else
    let* (e, a) := crypt_cmd (Aead alg op (field key_len (bytes key)) (field CACT_GCM_NONCE_LEN (bytes nonce)) (bytes aad) (bytes inp) out_cap) in
    ret (e, take (Z.to_nat out_cap) (out1 a)).

Definition cact_aes128_gcm_seal (key nonce aad inp : ptr) (out : bool) (out_cap : Z) : C (Z * str) :=
  crypt_gcm CACT_CRYPT_AES128_GCM CACT_CRYPT_OP_SEAL 16 key nonce aad inp out out_cap.
Definition cact_aes256_gcm_seal (key nonce aad inp : ptr) (out : bool) (out_cap : Z) : C (Z * str) :=
  crypt_gcm CACT_CRYPT_AES256_GCM CACT_CRYPT_OP_SEAL 32 key nonce aad inp out out_cap.
Definition cact_aes128_gcm_open (key nonce aad inp : ptr) (out : bool) (out_cap : Z) : C (Z * str) :=
  crypt_gcm CACT_CRYPT_AES128_GCM CACT_CRYPT_OP_OPEN 16 key nonce aad inp out out_cap.
Definition cact_aes256_gcm_open (key nonce aad inp : ptr) (out : bool) (out_cap : Z) : C (Z * str) :=
  crypt_gcm CACT_CRYPT_AES256_GCM CACT_CRYPT_OP_OPEN 32 key nonce aad inp out out_cap.

(** The public and the private key. *)
Definition crypt_keypair (alg : Z) (pub_len : nat) (pub priv : bool) : C (Z * str * str) :=
  if negb pub || negb priv then let* e := refuse EINVAL in ret (e, [], [])
  else
    let* (e, a) := crypt_cmd (KxKeygen alg) in
    ret (if e =? 0 then (e, field pub_len (out1 a), field CACT_X25519_KEY_LEN (out2 a)) else (e, [], [])).

Definition cact_x25519_keypair (pub priv : bool) : C (Z * str * str) := crypt_keypair CACT_CRYPT_KX_X25519 CACT_X25519_KEY_LEN pub priv.
Definition cact_p256_keypair (pub priv : bool) : C (Z * str * str) := crypt_keypair CACT_CRYPT_KX_P256 CACT_P256_PUB_LEN pub priv.

Definition crypt_kx_derive (alg : Z) (peer_len : nat) (priv peer_pub : ptr) (shared : bool) : C (Z * str) :=
  if is_null priv || is_null peer_pub || negb shared then let* e := refuse EINVAL in ret (e, [])
  else
    let* (e, a) := crypt_cmd (KxDerive alg (field 32 (bytes priv)) (field 65 (take peer_len (bytes peer_pub)))) in
    ret (e, if e =? 0 then field CACT_X25519_KEY_LEN (out1 a) else []).

Definition cact_x25519_derive (priv peer_pub : ptr) (shared : bool) : C (Z * str) :=
  crypt_kx_derive CACT_CRYPT_KX_X25519 CACT_X25519_KEY_LEN priv peer_pub shared.
Definition cact_p256_derive (priv peer_pub : ptr) (shared : bool) : C (Z * str) :=
  crypt_kx_derive CACT_CRYPT_KX_P256 CACT_P256_PUB_LEN priv peer_pub shared.

(** What the verification calls make of the kernel's answer. *)
Definition verdict (r : request) : C Z :=
  let* a := nio_dev_cmd r in
  if result a =? 0 then ret 0
  else if result a =? - EINVAL then refuse EINVAL
  else if result a =? -1 then refuse EBADMSG
  else nio_map (result a).

Definition cact_sig_verify (scheme : Z) (pubkey msg sig : ptr) : C Z :=
  if empty pubkey || empty sig then refuse EINVAL
  else if wild msg then refuse EINVAL
  else if scheme >? CACT_SIG_RSA_PSS_SHA512 then refuse EINVAL
  else verdict (SigVerify scheme (bytes pubkey) (bytes msg) (bytes sig)).

Definition cact_x509_verify (chain roots : ptr) (hostname : ptr) (unix_time tls_scheme : Z) (hs_msg hs_sig : ptr) : C Z :=
  if empty chain || empty roots || empty hostname then refuse EINVAL
  else if wild hs_msg || wild hs_sig then refuse EINVAL
  else verdict (X509Verify (bytes chain) (bytes roots) (bytes hostname) unix_time tls_scheme (bytes hs_msg) (bytes hs_sig)).
End Calls.
End Crypto.
