(* ===== verification/TlsRoots.v ===== *)
(** * TlsRoots: trust anchors, src/tls_roots.c

    A bundle of certificates in PEM is read from a file and turned into the
    concatenated DER that the chain verifier wants.  Files, the environment and
    the success of allocations are the class [Bundles]; a text is a list of
    bytes and a pointer into it what is left from there. *)

From Stdlib Require Import ZArith Lia Bool String Ascii.
From stdpp Require Import base list numbers.
From S2P Require Import Prelude Dlfcn.

Module TlsRoots.
Abbreviation str := (list Z).
Abbreviation txt := Dlfcn.txt.

Definition ROOTS_MAX_BYTES : Z := 4 * 1024 * 1024.

Definition image_paths : list str :=
  [txt "/etc/ssl/certs/ca-certificates.crt"; txt "/etc/ca-certificates.crt"; txt "/usr/share/ca-certificates.crt"].

(** A read gives bytes, at most as many as asked for, or fails. *)
Inductive rd := RData (bs : str) | RFail.

Class Bundles := {
  env_bundle : option str;
  file_reads : str -> option (list rd);
  grants : Z -> bool
}.

(** ** Base64 *)

Definition b64_val (c : Z) : Z :=
  if (c >=? 65) && (c <=? 90) then c - 65
  else if (c >=? 97) && (c <=? 122) then c - 97 + 26
  else if (c >=? 48) && (c <=? 57) then c - 48 + 52
  else if c =? 43 then 62
  else if c =? 47 then 63
  else -1.

(** The loop with its accumulator; [cap] is the room left. *)
Fixpoint b64_loop (s : str) (acc bits cap : Z) : option str :=
  match s with
  | [] => Some []
  | c :: s =>
      if c =? 61 then Some []
      else
        let v := b64_val c in
        if v <? 0 then
          if (c =? 10) || (c =? 13) || (c =? 32) || (c =? 9) then b64_loop s acc bits cap else None
        else
          let acc := Z.lor (u32 (Z.shiftl acc 6)) v in
          let bits := bits + 6 in
          if bits >=? 8 then
            let bits := bits - 8 in
            if cap <=? 0 then None
            else o ← b64_loop s acc bits (cap - 1); Some (Z.land (Z.shiftr acc bits) 255 :: o)
          else b64_loop s acc bits cap
  end.

(** The bytes written; [None] is -1. *)
Definition b64_decode (s : str) (cap : Z) : option str := b64_loop s 0 0 cap.

(** ** PEM *)

(** [memcmp] of the first bytes. *)
Definition starts (t line : str) : bool := bool_decide (take (length t) line = t).

Definition pem_line_is (line tag : str) : bool :=
  if (length line <? length tag + 5)%nat then false
  else if negb (starts (txt "-----") line) then false
  else starts tag (drop 5 line).

(** [memchr] for a newline: the line, and what follows it if there is one. *)
Fixpoint line_of (p : str) : str * option str :=
  match p with
  | [] => ([], None)
  | c :: p => if c =? 10 then ([], Some p) else let '(l, r) := line_of p in (c :: l, r)
  end.

(** The bytes up to the line that ends a block. *)
Fixpoint body_of (fuel : nat) (p : str) : str :=
  match fuel with
  | O => []
  | S fuel =>
      match p with
      | [] => []
      | _ =>
          let '(l, r) := line_of p in
          if pem_line_is l (txt "END CERTIFICATE") then []
          else match r with Some r => l ++ [10] ++ body_of fuel r | None => l end
      end
  end.

Definition DER_CAP : Z := 256 * 1024.

(** The scan: after a block it goes on with the line after the one that opened
    the block. *)
Fixpoint pem_loop (fuel : nat) (p der : str) : option str :=
  match fuel with
  | O => None
  | S fuel =>
      match p with
      | [] => Some der
      | _ =>
          let '(l, r) := line_of p in
          let next d := match r with Some r => pem_loop fuel r d | None => Some d end in
          if pem_line_is l (txt "BEGIN CERTIFICATE") then
            let b := body_of (S (length p)) (default [] r) in
            let len := Z.of_nat (length der) in
            if len + (Z.of_nat (length b) / 4 * 3 + 4) >? DER_CAP then None
            else
              match b64_decode b (DER_CAP - len) with
              | None | Some [] => None
              | Some bs => next (der ++ bs)
              end
          else next der
      end
  end.

Section Load.
Context `{Bs : Bundles}.

Definition pem_to_der (pem : str) : option str :=
  if negb (grants DER_CAP) then None
  else match pem_loop (S (length pem)) pem [] with None | Some [] => None | Some der => Some der end.

(** Reads until the end, doubling the buffer when it is full. *)
Fixpoint read_loop (fuel : nat) (cap : Z) (buf : str) (rs : list rd) : option str :=
  match fuel with
  | O => None
  | S fuel =>
      if Z.of_nat (length buf) =? cap then
        if cap >=? ROOTS_MAX_BYTES then None
        else if grants (cap * 2) then read_loop fuel (cap * 2) buf rs else None
      else
        match rs with
        | [] | RData [] :: _ => Some buf
        | RFail :: _ => None
        | RData bs :: rs =>
            let room := Z.to_nat (cap - Z.of_nat (length buf)) in
            read_loop fuel cap (buf ++ take room bs) (match drop room bs with [] => rs | rest => RData rest :: rs end)
        end
  end.

(** Enough rounds: one per byte, one per read, and the doublings to 4 MiB. *)
Definition read_fuel (rs : list rd) : nat :=
  (8 + length rs + list_sum ((fun r => match r with RData bs => length bs | RFail => 0 end) <$> rs))%nat.

Definition read_file (path : str) : option str :=
  rs ← file_reads path;
  if grants (64 * 1024) then read_loop (read_fuel rs) (64 * 1024) [] rs else None.

Definition cact_tls_load_roots (path : str) : option str := pem ← read_file path; pem_to_der pem.

(** The DER bytes of the first usable bundle. *)
Definition cact_tls_load_default_roots : option str :=
  match env_bundle with
  | Some (c :: env) => cact_tls_load_roots (c :: env)
  | _ => fold_right (fun p r => match cact_tls_load_roots p with Some d => Some d | None => r end) None image_paths
  end.
End Load.
End TlsRoots.
