(* ===== verification/TlsClient.v ===== *)
(** * TlsClient: the TLS 1.3 client, src/tls.c

    The record layer, the key schedule, the handshake and the calls of the public
    interface.  The connection is the record [cact_tls]; fixed arrays are lists
    of their full length, and an access outside of one is a fault.  The socket
    is a list of what the next reads and writes do, the device of [Crypto] and
    the trust anchors of [TlsRoots] are the classes there, and the class [Host]
    says which allocations succeed and what the time is.  Of the heap only the
    number of blocks in use is kept. *)

From Stdlib Require Import ZArith Lia Bool String Ascii.
From stdpp Require Import base list numbers.
From S2P Require Import Prelude Monad Dlfcn Crypto TlsRoots.

Module TlsClient.
Abbreviation str := (list Z).
Abbreviation txt := Dlfcn.txt.

(** ** Limits and constants *)

Definition MAX_PLAIN : Z := 16384.
Definition MAX_CIPHER : Z := MAX_PLAIN + 256.
Definition MAX_HANDSHAKE : Z := 65536.
Definition HASH_LEN : Z := 32.
Definition KEY_LEN : Z := 16.
Definition IV_LEN : Z := 12.
Definition TAG_LEN : Z := 16.

Definition CT_CHANGE_CIPHER : Z := 20.
Definition CT_ALERT : Z := 21.
Definition CT_HANDSHAKE : Z := 22.
Definition CT_APP : Z := 23.

Definition HS_CLIENT_HELLO : Z := 1.
Definition HS_SERVER_HELLO : Z := 2.
Definition HS_NEW_SESSION_TICKET : Z := 4.
Definition HS_ENCRYPTED_EXTENSIONS : Z := 8.
Definition HS_CERTIFICATE : Z := 11.
Definition HS_CERTIFICATE_VERIFY : Z := 15.
Definition HS_FINISHED : Z := 20.
Definition HS_KEY_UPDATE : Z := 24.

Definition ALERT_CLOSE_NOTIFY : Z := 0.
Definition TLS_SUITE_AES128_GCM_SHA256 : Z := 4865.
Definition TLS_GROUP_X25519 : Z := 29.

Definition sig_schemes : str := [4; 3; 5; 3; 8; 4; 8; 5; 8; 6; 4; 1; 5; 1; 6; 1].

Definition hrr_random : str :=
  [207; 33; 173; 116; 229; 154; 97; 17; 190; 29; 140; 2; 30; 101; 184; 145;
   194; 162; 17; 22; 122; 187; 140; 94; 7; 158; 9; 226; 200; 168; 51; 156].

Definition x25519_basepoint : str := 9 :: repeat 0 31.

Inductive state_t := ST_HANDSHAKE | ST_APP | ST_CLOSED.

Definition EINTR : Z := 4.
Definition EPIPE : Z := 32.

(** ** State *)

(** A growable buffer: the bytes in use and the size of the block, 0 for [NULL]. *)
Record gbuf := Gb { data : str; cap : Z }.
Definition no_buf : gbuf := Gb [] 0.
Definition len (b : gbuf) : Z := Z.of_nat (length (data b)).

(** A traffic secret with its key and its iv; the key of a direction in use. *)
Record traffic := Tr { secret : str; tkey : str; tiv : str }.
Record dir := Dir { key : str; iv : str; seq : Z }.

Record cact_tls := T {
  fd : Z; state : state_t; rd_enc : bool; wr_enc : bool;
  c_hs : traffic; s_hs : traffic; c_ap : traffic; s_ap : traffic; hs_secret : str;
  rd : dir; wr : dir;
  rec : str; plain : str; app : str; app_len : Z; app_off : Z;
  hs : gbuf; hs_off : Z; tr : gbuf; chain : gbuf; hostname : str
}.

(** What the next calls of [read] and [write] do: those of src/unistd.c return
    what the kernel says and leave [errno] alone.  [RFail] and [WFail] are one
    failing call, [RBroken] and [WBroken] a socket on which every call from then
    on fails. *)
Inductive rd_ev := RData (bs : str) | RFail | RBroken.
Inductive wr_ev := WTake (k : nat) | WFail | WBroken.

(** The connection, the globals, the socket and the kernel: [sent] is what was
    written, [live] the number of heap blocks in use, [allocs] that of the
    requests so far. *)
Record st (D : Type) := S_ {
  tls : cact_tls; roots : option str; tls_err : str;
  rin : list rd_ev; win : list wr_ev; sent : str; crypto : Crypto.cst D; live : Z; allocs : nat
}.
#[global] Arguments S_ {D} _ _ _ _ _ _ _ _ _.
#[global] Arguments tls {D} _.
#[global] Arguments roots {D} _.
#[global] Arguments tls_err {D} _.
#[global] Arguments rin {D} _.
#[global] Arguments win {D} _.
#[global] Arguments sent {D} _.
#[global] Arguments crypto {D} _.
#[global] Arguments live {D} _.
#[global] Arguments allocs {D} _.

Class Host := { grants : nat -> Z -> bool; now : Z }.

(** Updates of one field. *)
Definition set_state x t := T (fd t) x (rd_enc t) (wr_enc t) (c_hs t) (s_hs t) (c_ap t) (s_ap t) (hs_secret t) (rd t) (wr t) (rec t) (plain t) (app t) (app_len t) (app_off t) (hs t) (hs_off t) (tr t) (chain t) (hostname t).
Definition set_enc x y t := T (fd t) (state t) x y (c_hs t) (s_hs t) (c_ap t) (s_ap t) (hs_secret t) (rd t) (wr t) (rec t) (plain t) (app t) (app_len t) (app_off t) (hs t) (hs_off t) (tr t) (chain t) (hostname t).
Definition set_c_hs x t := T (fd t) (state t) (rd_enc t) (wr_enc t) x (s_hs t) (c_ap t) (s_ap t) (hs_secret t) (rd t) (wr t) (rec t) (plain t) (app t) (app_len t) (app_off t) (hs t) (hs_off t) (tr t) (chain t) (hostname t).
Definition set_s_hs x t := T (fd t) (state t) (rd_enc t) (wr_enc t) (c_hs t) x (c_ap t) (s_ap t) (hs_secret t) (rd t) (wr t) (rec t) (plain t) (app t) (app_len t) (app_off t) (hs t) (hs_off t) (tr t) (chain t) (hostname t).
Definition set_c_ap x t := T (fd t) (state t) (rd_enc t) (wr_enc t) (c_hs t) (s_hs t) x (s_ap t) (hs_secret t) (rd t) (wr t) (rec t) (plain t) (app t) (app_len t) (app_off t) (hs t) (hs_off t) (tr t) (chain t) (hostname t).
Definition set_s_ap x t := T (fd t) (state t) (rd_enc t) (wr_enc t) (c_hs t) (s_hs t) (c_ap t) x (hs_secret t) (rd t) (wr t) (rec t) (plain t) (app t) (app_len t) (app_off t) (hs t) (hs_off t) (tr t) (chain t) (hostname t).
Definition set_hs_secret x t := T (fd t) (state t) (rd_enc t) (wr_enc t) (c_hs t) (s_hs t) (c_ap t) (s_ap t) x (rd t) (wr t) (rec t) (plain t) (app t) (app_len t) (app_off t) (hs t) (hs_off t) (tr t) (chain t) (hostname t).
Definition set_rd x t := T (fd t) (state t) (rd_enc t) (wr_enc t) (c_hs t) (s_hs t) (c_ap t) (s_ap t) (hs_secret t) x (wr t) (rec t) (plain t) (app t) (app_len t) (app_off t) (hs t) (hs_off t) (tr t) (chain t) (hostname t).
Definition set_wr x t := T (fd t) (state t) (rd_enc t) (wr_enc t) (c_hs t) (s_hs t) (c_ap t) (s_ap t) (hs_secret t) (rd t) x (rec t) (plain t) (app t) (app_len t) (app_off t) (hs t) (hs_off t) (tr t) (chain t) (hostname t).
Definition set_rec x t := T (fd t) (state t) (rd_enc t) (wr_enc t) (c_hs t) (s_hs t) (c_ap t) (s_ap t) (hs_secret t) (rd t) (wr t) x (plain t) (app t) (app_len t) (app_off t) (hs t) (hs_off t) (tr t) (chain t) (hostname t).
Definition set_plain x t := T (fd t) (state t) (rd_enc t) (wr_enc t) (c_hs t) (s_hs t) (c_ap t) (s_ap t) (hs_secret t) (rd t) (wr t) (rec t) x (app t) (app_len t) (app_off t) (hs t) (hs_off t) (tr t) (chain t) (hostname t).
Definition set_app x l o t := T (fd t) (state t) (rd_enc t) (wr_enc t) (c_hs t) (s_hs t) (c_ap t) (s_ap t) (hs_secret t) (rd t) (wr t) (rec t) (plain t) x l o (hs t) (hs_off t) (tr t) (chain t) (hostname t).
Definition set_hs x o t := T (fd t) (state t) (rd_enc t) (wr_enc t) (c_hs t) (s_hs t) (c_ap t) (s_ap t) (hs_secret t) (rd t) (wr t) (rec t) (plain t) (app t) (app_len t) (app_off t) x o (tr t) (chain t) (hostname t).
Definition set_tr x t := T (fd t) (state t) (rd_enc t) (wr_enc t) (c_hs t) (s_hs t) (c_ap t) (s_ap t) (hs_secret t) (rd t) (wr t) (rec t) (plain t) (app t) (app_len t) (app_off t) (hs t) (hs_off t) x (chain t) (hostname t).
Definition set_chain x t := T (fd t) (state t) (rd_enc t) (wr_enc t) (c_hs t) (s_hs t) (c_ap t) (s_ap t) (hs_secret t) (rd t) (wr t) (rec t) (plain t) (app t) (app_len t) (app_off t) (hs t) (hs_off t) (tr t) x (hostname t).

(** The four traffic secrets. *)
Inductive slot := CHS | SHS | CAP | SAP.
Definition traffic_of (k : slot) (t : cact_tls) : traffic := match k with CHS => c_hs t | SHS => s_hs t | CAP => c_ap t | SAP => s_ap t end.
Definition set_traffic (k : slot) (x : traffic) (t : cact_tls) : cact_tls :=
  match k with CHS => set_c_hs x t | SHS => set_s_hs x t | CAP => set_c_ap x t | SAP => set_s_ap x t end.

(** [memcpy] into a fixed array; the bytes [l] at [off]. *)
Definition blit (off : Z) (l buf : str) : option str :=
  if (0 <=? off) && (off + Z.of_nat (length l) <=? Z.of_nat (length buf))
  then Some (take (Z.to_nat off) buf ++ l ++ drop (Z.to_nat off + length l) buf) else None.

(** Reading [n] bytes of an array, and one byte: the arrays are of [uint8_t]. *)
Definition slice (off n : Z) (buf : str) : option str :=
  if (0 <=? off) && (0 <=? n) && (off + n <=? Z.of_nat (length buf)) then Some (take (Z.to_nat n) (drop (Z.to_nat off) buf)) else None.
Definition byte (buf : str) (o : Z) : option Z := if 0 <=? o then u8 <$> (buf !! Z.to_nat o) else None.
Definition be16 (buf : str) (o : Z) : option Z := a ← byte buf o; b ← byte buf (o + 1); Some (Z.lor (Z.shiftl a 8) b).
Definition be24 (buf : str) (o : Z) : option Z :=
  a ← byte buf o; b ← byte buf (o + 1); c ← byte buf (o + 2); Some (Z.lor (Z.lor (Z.shiftl a 16) (Z.shiftl b 8)) c).

(** The bytes of a 16-bit number. *)
Definition enc16 (x : Z) : str := [u8 (Z.shiftr x 8); u8 x].

(** ** Computations *)

Section Client.
Context {D : Type} `{CD : Crypto.CryptoDev D} `{HO : Host} `{Bs : TlsRoots.Bundles}.
Abbreviation C := (St (st D)).

Definition upd (f : cact_tls -> cact_tls) : C unit :=
  modify (fun s => S_ (f (tls s)) (roots s) (tls_err s) (rin s) (win s) (sent s) (crypto s) (live s) (allocs s)).
Definition the {A} (f : cact_tls -> A) : C A := gets (fun s => f (tls s)).
Definition lift {A} (o : option A) : C A := fun s => match o with Some a => Some (a, s) | None => None end.
Definition kernel {A} (c : St (Crypto.cst D) A) : C A := fun s =>
  match c (crypto s) with
  | Some (a, k) => Some (a, S_ (tls s) (roots s) (tls_err s) (rin s) (win s) (sent s) k (live s) (allocs s)) | None => None end.
Definition set_errno (e : Z) : C unit := kernel (Crypto.set_errno e).
Definition set_roots (r : option str) : C unit :=
  modify (fun s => S_ (tls s) r (tls_err s) (rin s) (win s) (sent s) (crypto s) (live s) (allocs s)).

Definition err_set (m : str) : C unit :=
  modify (fun s => S_ (tls s) (roots s) (take 159 m) (rin s) (win s) (sent s) (crypto s) (live s) (allocs s)).
Definition err (m : string) : C Z := let* _ := err_set (txt m) in ret (-1).
Definition cact_tls_error : C str := gets tls_err.

(** The heap: a request, and giving back [k] blocks. *)
Definition alloc (n : Z) : C bool := fun s =>
  Some (grants (allocs s) n, S_ (tls s) (roots s) (tls_err s) (rin s) (win s) (sent s) (crypto s) (live s) (S (allocs s))).
Definition live_add (k : Z) : C unit :=
  modify (fun s => S_ (tls s) (roots s) (tls_err s) (rin s) (win s) (sent s) (crypto s) (live s + k) (allocs s)).
Definition malloc (n : Z) : C bool := let* ok := alloc n in if (ok : bool) then let* _ := live_add 1 in ret true else ret false.
Definition free (b : gbuf) : C unit := if cap b =? 0 then ret tt else live_add (-1).

(** The doubling; a wrap to 0 would never end, which 32 rounds exclude. *)
Fixpoint double (fuel : nat) (ncap need : Z) : option Z :=
  match fuel with
  | O => None
  | S fuel => if ncap <? need then double fuel (u32 (ncap * 2)) need else Some ncap
  end.

Definition grow (b : gbuf) (need : Z) : C (Z * gbuf) :=
  if need <=? cap b then ret (0, b)
  else
    let* ncap := lift (double 32 (if cap b =? 0 then 256 else cap b) need) in
    let* ok := alloc ncap in
    if negb ok then ret (-1, b)
    else let* _ := (if cap b =? 0 then live_add 1 else ret tt) in ret (0, Gb (data b) ncap).

Definition append (b : gbuf) (l : str) : C (Z * gbuf) :=
  let* (r, b) := grow b (u32 (len b + Z.of_nat (length l))) in
  if negb (r =? 0) then ret (-1, b) else ret (0, Gb (data b ++ l) (cap b)).

(** ** Socket *)

(** The reads until [n] bytes are there: the result, the bytes, what is left.
    A failed read is repeated if [errno] happens to be EINTR; on a broken socket
    the repetition never ends, which is no result. *)
Fixpoint read_loop (q : list rd_ev) (n : nat) (acc : str) (er : Z) : option (Z * str * list rd_ev) :=
  match n with
  | O => Some (1, acc, q)
  | _ =>
      match q with
      | [] => Some (if bool_decide (acc = []) then 0 else -1, acc, [])
      | RFail :: q => if er =? EINTR then read_loop q n acc er else Some (-1, acc, q)
      | RBroken :: _ => if er =? EINTR then None else Some (-1, acc, q)
      | RData [] :: q => Some (if bool_decide (acc = []) then 0 else -1, acc, q)
      | RData bs :: q =>
          if (n <? length bs)%nat then Some (1, acc ++ take n bs, RData (drop n bs) :: q)
          else read_loop q (n - length bs) (acc ++ bs) er
      end
  end.

Definition read_full (n : Z) : C (Z * str) := fun s =>
  '(r, bs, q) ← read_loop (rin s) (Z.to_nat n) [] (Crypto.errno (crypto s));
  Some ((r, bs), S_ (tls s) (roots s) (tls_err s) q (win s) (sent s) (crypto s) (live s) (allocs s)).

(** The writes until all is sent; a socket without events takes everything. *)
Fixpoint write_loop (q : list wr_ev) (l sent : str) (er : Z) : option (Z * str * list wr_ev) :=
  match l with
  | [] => Some (0, sent, q)
  | _ =>
      match q with
      | [] => Some (0, sent ++ l, [])
      | WFail :: q => if er =? EINTR then write_loop q l sent er else Some (-1, sent, q)
      | WBroken :: _ => if er =? EINTR then None else Some (-1, sent, q)
      | WTake 0 :: q => Some (-1, sent, q)
      | WTake k :: q => write_loop q (drop k l) (sent ++ take k l) er
      end
  end.

Definition write_full (l : str) : C Z := fun s =>
  '(r, o, q) ← write_loop (win s) l (sent s) (Crypto.errno (crypto s));
  Some (r, S_ (tls s) (roots s) (tls_err s) (rin s) q o (crypto s) (live s) (allocs s)).

(** ** Key schedule *)

(** Outputs come with the code. *)
Definition hmac (k m : str) : C (Z * str) := kernel (Crypto.cact_hmac_sha256 (Crypto.Buf k) (Crypto.Buf m) true).
Definition sha256 (m : str) : C (Z * str) := kernel (Crypto.cact_sha256 (Crypto.Buf m) true).

Definition hkdf_extract (salt ikm : str) : C (Z * str) := hmac salt ikm.

(** One block after another; the message array has 332 bytes. *)
Fixpoint expand_loop (fuel : nat) (prk info t out : str) (out_len counter : Z) : C (Z * str) :=
  match fuel with
  | O => fault
  | S fuel =>
      if Z.of_nat (length out) >=? out_len then ret (0, out)
      else
        let msg := t ++ info ++ [counter] in
        if Z.of_nat (length msg) >? HASH_LEN + 300 then fault
        else
          let* (e, t) := hmac prk msg in
          if negb (e =? 0) then ret (-1, out)
          else expand_loop fuel prk info t (out ++ take (Z.to_nat (Z.min (out_len - Z.of_nat (length out)) HASH_LEN)) t) out_len (u8 (counter + 1))
  end.

Definition hkdf_expand (prk info : str) (out_len : Z) : C (Z * str) :=
  if Z.of_nat (length info) >? 300 then ret (-1, [])
  else expand_loop (S (Z.to_nat out_len)) prk info [] [] out_len 1.

(** The info array has 106 bytes. *)
Definition expand_label (secret label ctx : str) (out_len : Z) : C (Z * str) :=
  let label_len := Z.of_nat (length label) in
  let full_len := 6 + label_len in
  let ctx_len := Z.of_nat (length ctx) in
  if (full_len >? 255) || (ctx_len >? 255) then ret (-1, [])
  else if 10 + label_len + ctx_len >? 2 + 1 + 6 + 64 + 1 + HASH_LEN then fault
  else hkdf_expand secret (enc16 out_len ++ [u8 full_len] ++ txt "tls13 " ++ label ++ [u8 ctx_len] ++ ctx) out_len.

Definition transcript_hash : C (Z * str) := let* b := the tr in sha256 (data b).

Definition derive_secret (secret : str) (label : string) : C (Z * str) :=
  let* (e, th) := transcript_hash in
  if negb (e =? 0) then ret (-1, []) else expand_label secret (txt label) th HASH_LEN.

Definition derive_secret_empty (secret : str) (label : string) : C (Z * str) :=
  let* (e, h) := sha256 [] in
  if negb (e =? 0) then ret (-1, []) else expand_label secret (txt label) h HASH_LEN.

(** The key and the iv of a traffic secret, stored beside it. *)
Definition traffic_keys (k : slot) : C Z :=
  let* s := the (fun t => secret (traffic_of k t)) in
  let* (e, x) := expand_label s (txt "key") [] KEY_LEN in
  if negb (e =? 0) then ret (-1)
  else
    let* _ := upd (fun t => set_traffic k (Tr (secret (traffic_of k t)) x (tiv (traffic_of k t))) t) in
    let* (e, y) := expand_label s (txt "iv") [] IV_LEN in
    if negb (e =? 0) then ret e
    else let* _ := upd (fun t => set_traffic k (Tr (secret (traffic_of k t)) (tkey (traffic_of k t)) y) t) in ret 0.

Definition tr_add (m : str) : C Z :=
  let* b := the tr in let* (r, b) := append b m in let* _ := upd (set_tr b) in ret r.

(** ** Record layer *)

(** The sequence number is folded into the last eight bytes, the last first. *)
Definition nonce_from (iv : str) (seq : Z) : str :=
  imap (fun j b => if (j <? 4)%nat then b else Z.lxor b (u8 (Z.shiftr seq (8 * Z.of_nat (11 - j))))) iv.

Definition header (type n : Z) : str := [type; 3; 3] ++ enc16 n.

Definition send_record (type : Z) (l : str) : C Z :=
  let n := Z.of_nat (length l) in
  if n >? MAX_PLAIN then err "record too large to send"
  else
    let* enc := the wr_enc in
    let* r := the rec in
    if negb enc then
      let* r := lift (blit 0 (header type n ++ l) r) in
      let* _ := upd (set_rec r) in
      let* out := lift (slice 0 (5 + n) r) in
      let* e := write_full out in
      if negb (e =? 0) then err "write failed" else ret 0
    else
      let* p := the plain in
      let* p := lift (blit 0 (l ++ [type]) p) in
      let* _ := upd (set_plain p) in
      let inner := n + 1 in
      let ct_len := inner + TAG_LEN in
      let* r := lift (blit 0 (header CT_APP ct_len) r) in
      let* _ := upd (set_rec r) in
      let* w := the wr in
      let* pt := lift (slice 0 inner p) in
      let* aad := lift (slice 0 5 r) in
      let* (e, ct) := kernel (Crypto.cact_aes128_gcm_seal (Crypto.Buf (key w)) (Crypto.Buf (nonce_from (iv w) (seq w))) (Crypto.Buf aad)
                               (Crypto.Buf pt) true MAX_CIPHER) in
      if negb (e =? 0) then err "record encryption failed"
      else
        let* r := lift (blit 5 ct r) in
        let* _ := upd (set_rec r) in
        let* _ := upd (set_wr (Dir (key w) (iv w) (u64 (seq w + 1)))) in
        let* out := lift (slice 0 (5 + ct_len) r) in
        let* e := write_full out in
        if negb (e =? 0) then err "write failed" else ret 0.

(** The length without the zeros at the end. *)
Fixpoint strip (n : nat) (p : str) : nat :=
  match n with
  | O => O
  | S k => if default 1 (p !! k) =? 0 then strip k p else n
  end.

(** What is done with a record of [n] bytes that is in [rec]: the type and the
    length of what is in [plain] afterwards. *)
Definition open_record (hdr : str) (h0 n : Z) (buf : str) : C (unit + (Z * (Z * Z))) :=
  let stop m := let* r := err m in break (r, (0, 0)) in
  let* enc := the rd_enc in
  let* p := the plain in
  if negb enc then
    if negb (h0 =? CT_HANDSHAKE) && negb (h0 =? CT_ALERT) then stop "unexpected plaintext record type"%string
    else
      let* l := lift (slice 0 n buf) in
      let* p := lift (blit 0 l p) in
      let* _ := upd (set_plain p) in break (1, (h0, n))
  else if negb (h0 =? CT_APP) || (n <? TAG_LEN) then stop "unexpected encrypted record"%string
  else
    let* k := the rd in
    let* l := lift (slice 0 n buf) in
    let* p := lift (blit 0 l p) in
    let* _ := upd (set_plain p) in
    let* (e, pt) := kernel (Crypto.cact_aes128_gcm_open (Crypto.Buf (key k)) (Crypto.Buf (nonce_from (iv k) (seq k))) (Crypto.Buf hdr)
                             (Crypto.Buf l) true (n - TAG_LEN)) in
    let* p := lift (blit 0 pt p) in
    let* _ := upd (set_plain p) in
    if negb (e =? 0) then stop "record failed authentication"%string
    else
      let* _ := upd (set_rd (Dir (key k) (iv k) (u64 (seq k + 1)))) in
      let pt_len := Z.of_nat (strip (Z.to_nat (n - TAG_LEN)) p) in
      if pt_len =? 0 then stop "empty inner plaintext"%string
      else let* ty := lift (byte p (pt_len - 1)) in break (1, (ty, pt_len - 1)).

(** One record into [plain]: the code, the type and the length.  The loop goes
    round for each ChangeCipherSpec. *)
Definition recv_body : unit -> C (unit + (Z * (Z * Z))) := fun _ =>
  let stop m := let* r := err m in break (r, (0, 0)) in
  let* (r, hdr) := read_full 5 in
  if r <=? 0 then
    let* _ := err_set (if r =? 0 then txt "peer closed the connection" else txt "short read on the socket") in break (r, (0, 0))
  else
    let* n := lift (be16 hdr 3) in
    let* h0 := lift (byte hdr 0) in
    if n >? MAX_CIPHER then stop "record too large"%string
    else
      let* (r, body) := (if n =? 0 then ret (1, []) else read_full n) in
      let* buf := the rec in
      let* buf := lift (blit 0 body buf) in
      let* _ := upd (set_rec buf) in
      if negb (r =? 1) then stop "short record body"%string
      else if h0 =? CT_CHANGE_CIPHER then
        let* b0 := lift (byte buf 0) in
        if negb (n =? 1) || negb (b0 =? 1) then stop "malformed ChangeCipherSpec"%string else continue tt
      else open_record hdr h0 n buf.

(** The bytes still to come bound the records. *)
Definition pending (q : list rd_ev) : nat := list_sum ((fun e => match e with RData bs => length bs | _ => 0%nat end) <$> q).

#[global] Arguments pending : simpl never.

Definition recv_record : C (Z * (Z * Z)) :=
  let* q := gets rin in loop (S (pending q)) recv_body tt.

(** ** Alerts *)

Definition digit (x : Z) : Z := 48 + x.

Definition alert_text (code : Z) : str :=
  if code =? 10 then txt "peer rejected the parameters (unexpected_message)"
  else if code =? 20 then txt "peer could not decrypt a record (bad_record_mac)"
  else if code =? 47 then txt "peer sent illegal_parameter"
  else if code =? 50 then txt "peer could not decode a message (decode_error)"
  else if code =? 70 then txt "peer supports no TLS 1.3 (protocol_version)"
  else if code =? 80 then txt "peer hit an internal error"
  else if code =? 109 then txt "peer missed a required extension"
  else if code =? 112 then txt "peer did not recognise the server name"
  else
    txt "peer sent a fatal alert " ++ (if code >=? 100 then [digit (code / 100)] else [])
      ++ (if code >=? 10 then [digit (code / 10 mod 10)] else []) ++ [digit (code mod 10)].

(** The body is the first [n] bytes of [plain]. *)
Definition handle_alert (n : Z) : C Z :=
  if n <? 2 then err "malformed alert"
  else
    let* p := the plain in
    let* code := lift (byte p 1) in
    if code =? ALERT_CLOSE_NOTIFY then let* _ := upd (set_state ST_CLOSED) in ret 0
    else let* _ := err_set (alert_text code) in ret (-1).

(** ** Handshake framing *)

Definition hs_append (l : str) : C Z :=
  let* b := the hs in let* o := the hs_off in let* (r, b) := append b l in let* _ := upd (set_hs b o) in ret r.

(** One more record into the reassembly buffer. *)
Definition hs_receive : C (unit + (Z * (Z * str))) :=
  let* (r, (type, n)) := recv_record in
  if r <=? 0 then break (r, (0, []))
  else if type =? CT_HANDSHAKE then
    let* p := the plain in
    let* l := lift (slice 0 n p) in
    let* e := hs_append l in
    if negb (e =? 0) then let* r := err "out of memory" in break (r, (0, [])) else continue tt
  else if type =? CT_ALERT then let* r := handle_alert n in break (r, (0, []))
  else let* r := err "unexpected record during handshake" in break (r, (0, [])).

(** The message that was looked at is dropped. *)
Definition hs_compact : C unit :=
  let* o := the hs_off in
  let* b := the hs in
  if o >? 0 then let* l := lift (slice o (len b - o) (data b)) in upd (set_hs (Gb l (cap b)) 0) else ret tt.

(** The next message with its header: the code, the type and the bytes. *)
Definition hs_body : unit -> C (unit + (Z * (Z * str))) := fun _ =>
  let* _ := hs_compact in
  let* b := the hs in
  if len b >=? 4 then
    let* mlen := lift (be24 (data b) 1) in
    if mlen >? MAX_HANDSHAKE then let* r := err "handshake message too large" in break (r, (0, []))
    else if len b >=? 4 + mlen then
      let* ty := lift (byte (data b) 0) in
      let* m := lift (slice 0 (4 + mlen) (data b)) in
      let* _ := upd (set_hs b (4 + mlen)) in
      break (1, (ty, m))
    else hs_receive
  else hs_receive.

Definition hs_next : C (Z * (Z * str)) := let* q := gets rin in loop (S (S (pending q))) hs_body tt.

(** ** ClientHello *)

(** A chain of [append]s, up to the first that fails. *)
Fixpoint append_all (b : gbuf) (ls : list str) : C (Z * gbuf) :=
  match ls with
  | [] => ret (0, b)
  | l :: ls => let* (r, b) := append b l in if negb (r =? 0) then ret (-1, b) else append_all b ls
  end.

Definition oom (body ext : gbuf) : C (Z * gbuf) :=
  let* _ := err_set (txt "out of memory") in let* _ := free body in let* _ := free ext in ret (-1, no_buf).

(** The extensions after the server's name. *)
Definition ext_groups : str := [0; 10; 0; 4; 0; 2; 0; 29].
Definition ext_schemes : list str := [[0; 13; 0; 18; 0; 16]; sig_schemes].
Definition ext_versions : str := [0; 43; 0; 3; 2; 3; 4].
Definition ext_share : str := [0; 51; 0; 38; 0; 36; 0; 29; 0; 32].

Definition build_client_hello (pub : str) : C (Z * gbuf) :=
  let no_random := (let* _ := err_set (txt "no randomness available") in ret (-1, no_buf)) in
  let* (e, random) := kernel (Crypto.cact_random (Crypto.Buf []) 32) in
  if negb (e =? 0) then no_random
  else
  let* (e, sid) := kernel (Crypto.cact_random (Crypto.Buf []) 32) in
  if negb (e =? 0) then no_random
  else
  let* (r, body) := append_all no_buf [[3; 3]; random; [32]; sid; [0; 2] ++ enc16 TLS_SUITE_AES128_GCM_SHA256; [1; 0]] in
  if negb (r =? 0) then oom body no_buf
  else
  let* host := the hostname in
  let hl := Z.of_nat (length host) in
  let* (r, e) := append_all no_buf [enc16 (hl + 3); [0]; enc16 hl; host] in
  if negb (r =? 0) || (len e >? 65535) then let* _ := free e in oom body no_buf
  else
  let* (r, ext) := append_all no_buf [[0; 0] ++ enc16 (len e); data e] in
  let* _ := free e in
  if negb (r =? 0) then oom body ext
  else
  let* (r, ext) := append_all ext (ext_groups :: ext_schemes ++ [ext_versions; ext_share; pub]) in
  if negb (r =? 0) then oom body ext
  else
  let* (r, body) := append_all body [enc16 (len ext); data ext] in
  if negb (r =? 0) then oom body ext
  else
  let* _ := free ext in
  let* (r, msg) := append_all no_buf [[HS_CLIENT_HELLO; u8 (Z.shiftr (len body) 16)] ++ enc16 (len body); data body] in
  if negb (r =? 0) then let* _ := free msg in oom body no_buf
  else let* _ := free body in ret (0, msg).

(** ** ServerHello *)

(** The extensions between [o] and [ends]: the peer's key and the flag for the
    version.  [inl] is the error text. *)
Fixpoint sh_loop (fuel : nat) (b : str) (o ends : Z) (ver : bool) (peer : option str) : option (string + bool * option str) :=
  match fuel with
  | O => None
  | S fuel =>
      if o + 4 <=? ends then
        type ← be16 b o;
        elen ← be16 b (o + 2);
        let o := o + 4 in
        if o + elen >? ends then Some (inl "truncated extension"%string)
        else if type =? 43 then
          ok ← (if elen =? 2 then x ← be16 b o; Some (x =? 772) else Some false);
          sh_loop fuel b (o + elen) ends (ver || (ok : bool)) peer
        else if type =? 51 then
          if elen >=? 4 + 32 then
            group ← be16 b o;
            klen ← be16 b (o + 2);
            if (group =? TLS_GROUP_X25519) && (klen =? 32)
            then k ← slice (o + 4) 32 b; sh_loop fuel b (o + elen) ends ver (Some k)
            else sh_loop fuel b (o + elen) ends ver peer
          else sh_loop fuel b (o + elen) ends ver peer
        else sh_loop fuel b (o + elen) ends ver peer
      else Some (inr (ver, peer))
  end.

Definition parse_server_hello (b : str) : option (string + str) :=
  let n := Z.of_nat (length b) in
  let short := Some (inl "truncated ServerHello"%string) in
  if n <? 2 + 32 + 1 then short
  else
    random ← slice 2 32 b;
    if bool_decide (random = hrr_random) then Some (inl "server wants another key exchange group (HelloRetryRequest)"%string)
    else
      sid_len ← byte b 34;
      let o := 35 in
      if o + sid_len + 3 >? n then short
      else
        let o := o + sid_len in
        suite ← be16 b o;
        let o := o + 2 in
        if negb (suite =? TLS_SUITE_AES128_GCM_SHA256) then Some (inl "server picked an unsupported cipher suite"%string)
        else
          let o := o + 1 in
          if o + 2 >? n then short
          else
            ext_len ← be16 b o;
            let o := o + 2 in
            if o + ext_len >? n then short
            else
              r ← sh_loop (S (length b)) b o (o + ext_len) false None;
              match r with
              | inl m => Some (inl m)
              | inr (false, _) => Some (inl "server did not negotiate TLS 1.3"%string)
              | inr (true, None) => Some (inl "server sent no x25519 key share"%string)
              | inr (true, Some peer) => Some (inr peer)
              end.

(** ** Key derivation *)

Definition zeros : str := repeat 0 32.

(** A secret under a slot, from the transcript; -1 stops the schedule. *)
Definition derive_into (s : str) (label : string) (k : slot) : C Z :=
  let* (e, x) := derive_secret s label in
  if negb (e =? 0) then ret (-1)
  else let* _ := upd (fun t => set_traffic k (Tr x (tkey (traffic_of k t)) (tiv (traffic_of k t))) t) in ret 0.

Definition setup_handshake_keys (shared : str) : C Z :=
  let* (e, early) := hkdf_extract zeros zeros in
  if negb (e =? 0) then ret (-1) else
  let* (e, derived) := derive_secret_empty early "derived" in
  if negb (e =? 0) then ret (-1) else
  let* (e, h) := hkdf_extract derived shared in
  if negb (e =? 0) then ret (-1) else
  let* _ := upd (set_hs_secret h) in
  let* e := derive_into h "c hs traffic" CHS in
  if negb (e =? 0) then ret (-1) else
  let* e := derive_into h "s hs traffic" SHS in
  if negb (e =? 0) then ret (-1) else
  let* e := traffic_keys CHS in
  if negb (e =? 0) then ret (-1) else
  let* e := traffic_keys SHS in
  if negb (e =? 0) then ret (-1) else ret 0.

Definition setup_application_keys : C Z :=
  let* h := the hs_secret in
  let* (e, derived) := derive_secret_empty h "derived" in
  if negb (e =? 0) then ret (-1) else
  let* (e, master) := hkdf_extract derived zeros in
  if negb (e =? 0) then ret (-1) else
  let* e := derive_into master "c ap traffic" CAP in
  if negb (e =? 0) then ret (-1) else
  let* e := derive_into master "s ap traffic" SAP in
  if negb (e =? 0) then ret (-1) else
  let* e := traffic_keys CAP in
  if negb (e =? 0) then ret (-1) else
  let* e := traffic_keys SAP in
  if negb (e =? 0) then ret (-1) else ret 0.

Definition key_update (from_peer : bool) : C Z :=
  let k := if from_peer then SAP else CAP in
  let* s := the (fun t => secret (traffic_of k t)) in
  let* (e, next) := derive_secret_empty s "traffic upd" in
  if negb (e =? 0) then ret (-1) else
  let* _ := upd (fun t => set_traffic k (Tr next (tkey (traffic_of k t)) (tiv (traffic_of k t))) t) in
  let* e := traffic_keys k in
  if negb (e =? 0) then ret (-1) else
  let* _ := upd (fun t => if from_peer then set_rd (Dir (key (rd t)) (iv (rd t)) 0) t else set_wr (Dir (key (wr t)) (iv (wr t)) 0) t) in
  ret 0.

(** ** Finished *)

Definition finished_verify_data (secret : str) : C (Z * str) :=
  let* (e, k) := expand_label secret (txt "finished") [] HASH_LEN in
  if negb (e =? 0) then ret (-1, []) else
  let* (e, th) := transcript_hash in
  if negb (e =? 0) then ret (-1, []) else hmac k th.

Definition bytes_equal (a b : str) : bool := foldr Z.lor 0 (zip_with Z.lxor a b) =? 0.

(** ** Certificate and CertificateVerify *)

(** The entries of the list between [o] and [ends]. *)
Fixpoint cert_loop (fuel : nat) (b : str) (o ends : Z) : C Z :=
  match fuel with
  | O => fault
  | S fuel =>
      if o <? ends then
        if o + 3 >? ends then err "truncated certificate entry"
        else
          let* clen := lift (be24 b o) in
          let o := o + 3 in
          if (o + clen >? ends) || (clen =? 0) then err "truncated certificate"
          else
            let* l := lift (slice o clen b) in
            let* c := the chain in
            let* (r, c) := append c l in
            let* _ := upd (set_chain c) in
            if negb (r =? 0) then err "out of memory"
            else
              let o := o + clen in
              if o + 2 >? ends then err "truncated certificate entry"
              else
                let* ext_len := lift (be16 b o) in
                let o := o + 2 in
                if o + ext_len >? ends then err "truncated certificate extension" else cert_loop fuel b (o + ext_len) ends
      else ret 0
  end.

Definition handle_certificate (b : str) : C Z :=
  let n := Z.of_nat (length b) in
  if n <? 4 then err "truncated Certificate"
  else
    let* ctx_len := lift (byte b 0) in
    let o := 1 in
    if o + ctx_len + 3 >? n then err "truncated Certificate"
    else
      let o := o + ctx_len in
      let* list_len := lift (be24 b o) in
      let o := o + 3 in
      if o + list_len >? n then err "truncated Certificate"
      else
        let* r := cert_loop (S (length b)) b o (o + list_len) in
        if negb (r =? 0) then ret (-1)
        else
          let* c := the chain in
          if len c =? 0 then err "server sent an empty certificate chain" else ret 0.

Definition CV_CONTEXT : string := "TLS 1.3, server CertificateVerify".

(** The signed message. *)
Definition cv_message (th : str) : str := repeat 32 64 ++ txt CV_CONTEXT ++ [0] ++ th.

Definition handle_certificate_verify (b : str) : C Z :=
  let n := Z.of_nat (length b) in
  if n <? 4 then err "truncated CertificateVerify"
  else
    let* scheme := lift (be16 b 0) in
    let* sig_len := lift (be16 b 2) in
    if 4 + sig_len >? n then err "truncated CertificateVerify"
    else
      let* c := the chain in
      if len c =? 0 then err "CertificateVerify without a certificate"
      else
        let* r := gets roots in
        match r with
        | None | Some [] => err "no trust anchors: cannot verify the certificate"
        | Some ro =>
            let* (e, th) := transcript_hash in
            if negb (e =? 0) then ret (-1)
            else
              let* sig := lift (slice 4 sig_len b) in
              let* host := the hostname in
              let* e := kernel (Crypto.cact_x509_verify (Crypto.Buf (data c)) (Crypto.Buf ro) (Crypto.Buf host) (u64 now) scheme
                                  (Crypto.Buf (cv_message th)) (Crypto.Buf sig)) in
              if negb (e =? 0) then err "certificate rejected (chain, hostname, validity or handshake signature)" else ret 0
        end.

(** ** Handshake *)

(** The messages after ServerHello: leaves with a code to return, or with the
    three flags when Finished was right. *)
Definition flight_body : bool * bool * bool -> C (bool * bool * bool + (Z + bool * bool * bool)) := fun '(ee, cert, cv) =>
  let oom := (let* r := err "out of memory" in break (inl r)) in
  let* (r, (type, m)) := hs_next in
  let body := drop 4 m in
  if r <=? 0 then break (inl r)
  else if type =? HS_ENCRYPTED_EXTENSIONS then
    let* r := tr_add m in if negb (r =? 0) then oom else continue (true, cert, cv)
  else if type =? HS_CERTIFICATE then
    let* r := handle_certificate body in
    if negb (r =? 0) then break (inl (-1))
    else let* r := tr_add m in if negb (r =? 0) then oom else continue (ee, true, cv)
  else if type =? HS_CERTIFICATE_VERIFY then
    let* r := handle_certificate_verify body in
    if negb (r =? 0) then break (inl (-1))
    else let* r := tr_add m in if negb (r =? 0) then oom else continue (ee, cert, true)
  else if type =? HS_FINISHED then
    if negb (Z.of_nat (length body) =? HASH_LEN) then let* r := err "malformed Finished" in break (inl r)
    else
      let* s := the (fun t => secret (s_hs t)) in
      let* (e, expect) := finished_verify_data s in
      if negb (e =? 0) then break (inl (-1))
      else if negb (bytes_equal expect body) then let* r := err "server Finished does not match the transcript" in break (inl r)
      else let* r := tr_add m in if negb (r =? 0) then oom else break (inr (ee, cert, cv))
  else let* r := err "unexpected handshake message" in break (inl r).

(** The bytes of the handshake still to be looked at. *)
Definition hs_left (s : st D) : nat := (length (data (hs (tls s))) + pending (rin s))%nat.

Definition do_handshake : C Z :=
  let* (e, priv) := kernel (Crypto.cact_random (Crypto.Buf []) 32) in
  if negb (e =? 0) then err "no randomness available" else
  let* (e, pub) := kernel (Crypto.cact_x25519_derive (Crypto.Buf priv) (Crypto.Buf x25519_basepoint) true) in
  if negb (e =? 0) then err "could not derive the ephemeral public key" else
  let* (r, ch) := build_client_hello pub in
  if negb (r =? 0) then ret (-1) else
  let* r := tr_add (data ch) in
  if negb (r =? 0) then let* _ := free ch in err "out of memory" else
  let* r := send_record CT_HANDSHAKE (data ch) in
  let* _ := free ch in
  if negb (r =? 0) then ret (-1) else
  let* (r, (type, m)) := hs_next in
  if r <=? 0 then ret r else
  if negb (type =? HS_SERVER_HELLO) then err "expected ServerHello" else
  let* p := lift (parse_server_hello (drop 4 m)) in
  match p with
  | inl msg => err msg
  | inr peer =>
      let* r := tr_add m in
      if negb (r =? 0) then err "out of memory" else
      let* (e, shared) := kernel (Crypto.cact_x25519_derive (Crypto.Buf priv) (Crypto.Buf peer) true) in
      if negb (e =? 0) then err "key exchange failed" else
      let* e := setup_handshake_keys shared in
      if negb (e =? 0) then err "key schedule failed" else
      let* _ := upd (fun t => set_rd (Dir (tkey (s_hs t)) (tiv (s_hs t)) 0) (set_wr (Dir (tkey (c_hs t)) (tiv (c_hs t)) 0) (set_enc true true t))) in
      let* n := gets hs_left in
      let* r := loop (S n) flight_body (false, false, false) in
      match r with
      | inl r => ret r
      | inr (ee, cert, cv) =>
          if negb ee || negb cert || negb cv then err "server omitted part of the authenticated handshake" else
          let* e := setup_application_keys in
          if negb (e =? 0) then err "key schedule failed" else
          let* s := the (fun t => secret (c_hs t)) in
          let* (e, verify_data) := finished_verify_data s in
          if negb (e =? 0) then ret (-1) else
          let* r := send_record CT_HANDSHAKE ([HS_FINISHED; 0; 0; HASH_LEN] ++ verify_data) in
          if negb (r =? 0) then ret (-1) else
          let* _ := upd (fun t => set_state ST_APP (set_rd (Dir (tkey (s_ap t)) (tiv (s_ap t)) 0)
                                    (set_wr (Dir (tkey (c_ap t)) (tiv (c_ap t)) 0) (set_enc (rd_enc t) true t)))) in
          let* b := the tr in let* _ := free b in let* _ := upd (set_tr no_buf) in
          let* b := the chain in let* _ := free b in let* _ := upd (set_chain no_buf) in
          ret 0
      end
  end.

(** ** After the handshake *)

(** The messages are read from [plain], which answering overwrites. *)
Fixpoint post_loop (fuel : nat) (o n : Z) : C Z :=
  match fuel with
  | O => fault
  | S fuel =>
      if o + 4 <=? n then
        let* d := the plain in
        let* mt := lift (byte d o) in
        let* mlen := lift (be24 d (o + 1)) in
        let o := o + 4 in
        if o + mlen >? n then err "truncated post-handshake message"
        else if mt =? HS_NEW_SESSION_TICKET then post_loop fuel (o + mlen) n
        else if mt =? HS_KEY_UPDATE then
          if negb (mlen =? 1) then err "malformed KeyUpdate"
          else
            let* requested := lift (byte d o) in
            let* e := key_update true in
            if negb (e =? 0) then err "KeyUpdate failed"
            else if requested =? 1 then
              let* r := send_record CT_HANDSHAKE [HS_KEY_UPDATE; 0; 0; 1; 0] in
              if negb (r =? 0) then ret (-1)
              else
                let* e := key_update false in
                if negb (e =? 0) then err "KeyUpdate failed" else post_loop fuel (o + mlen) n
            else post_loop fuel (o + mlen) n
        else err "unexpected post-handshake message"
      else ret 0
  end.

Definition handle_post_handshake (n : Z) : C Z := post_loop (S (Z.to_nat n)) 0 n.

(** ** Public interface *)

Definition cact_tls_set_roots (der : Crypto.ptr) : C Z :=
  let* r := gets roots in
  let* _ := (match r with Some _ => live_add (-1) | None => ret tt end) in
  let* _ := set_roots None in
  if Crypto.empty der then ret 0
  else
    let* ok := malloc (Z.of_nat (length (Crypto.bytes der))) in
    if negb ok then err "out of memory" else let* _ := set_roots (Some (Crypto.bytes der)) in ret 0.

Definition no_roots : string :=
  "no CA bundle: looked for /etc/ssl/certs/ca-certificates.crt, /etc/ca-certificates.crt and /usr/share/ca-certificates.crt".

Definition ensure_roots : C Z :=
  let* r := gets roots in
  match r with
  | Some (_ :: _) => ret 0
  | _ =>
      match TlsRoots.cact_tls_load_default_roots with
      | None => let* _ := set_roots None in err no_roots
      | Some d => let* _ := live_add 1 in let* _ := set_roots (Some d) in ret 0
      end
  end.

Definition sizeof_tls : Z := 676.

(** What [calloc] gives, with the three arrays. *)
Definition fresh (fd : Z) (host : str) : cact_tls :=
  let tr0 := Tr zeros (repeat 0 16) (repeat 0 12) in
  T fd ST_HANDSHAKE false false tr0 tr0 tr0 tr0 zeros (Dir (repeat 0 16) (repeat 0 12) 0) (Dir (repeat 0 16) (repeat 0 12) 0)
    (repeat 0 (Z.to_nat (5 + MAX_CIPHER))) (repeat 0 (Z.to_nat MAX_CIPHER)) (repeat 0 (Z.to_nat MAX_CIPHER)) 0 0 no_buf 0 no_buf no_buf host.

(** The connection with its arrays and buffers. *)
Definition release : C unit :=
  let* t := the id in
  let* _ := live_add (-3) in
  let* _ := free (hs t) in let* _ := free (tr t) in let* _ := free (chain t) in
  live_add (-1).

(** Whether a connection is returned; [None] is a null host name. *)
Definition cact_tls_connect (fd : Z) (host : option str) : C bool :=
  let null (c : C Z) := let* _ := c in ret false in
  if (fd <? 0) || bool_decide (default [] host = []) then null (err "invalid argument")
  else if Z.of_nat (length (default [] host)) + 1 >? 256 then null (err "hostname too long")
  else
    let* r := ensure_roots in
    if negb (r =? 0) then ret false
    else
      let* ok := malloc sizeof_tls in
      if negb ok then null (err "out of memory")
      else
        let* a := malloc (5 + MAX_CIPHER) in
        let* b := malloc MAX_CIPHER in
        let* c := malloc MAX_CIPHER in
        if negb a || negb b || negb c then
          let* _ := live_add (- (b2z a + b2z b + b2z c) - 1) in null (err "out of memory")
        else
          let* _ := upd (fun _ => fresh fd (default [] host)) in
          let* r := do_handshake in
          if negb (r =? 0) then let* _ := release in ret false else ret true.

(** The code and the bytes stored; [t] and [buf] say that the pointers are not
    null. *)
Definition read_body (n : Z) : unit -> C (unit + (Z * str)) := fun _ =>
  let* o := the app_off in
  let* l := the app_len in
  let* a := the app in
  if o <? l then
    let take := Z.min (l - o) n in
    let* out := lift (slice o take a) in
    let* _ := upd (if o + take =? l then set_app a 0 0 else set_app a l (o + take)) in
    break (take, out)
  else
    let* (r, (type, got)) := recv_record in
    if r <=? 0 then
      let* _ := (if r <? 0 then set_errno Crypto.EIO else ret tt) in
      let* _ := (if r =? 0 then upd (set_state ST_CLOSED) else ret tt) in
      break (r, [])
    else if type =? CT_APP then
      let take := Z.min got n in
      let* p := the plain in
      let* out := lift (slice 0 take p) in
      let* _ := (if take <? got then
                   let* rest := lift (slice take (got - take) p) in
                   let* a := lift (blit 0 rest a) in
                   upd (set_app a (got - take) 0)
                 else ret tt) in
      break (take, out)
    else if type =? CT_HANDSHAKE then
      let* r := handle_post_handshake got in
      if negb (r =? 0) then let* _ := set_errno Crypto.EIO in break (-1, []) else continue tt
    else if type =? CT_ALERT then
      let* r := handle_alert got in
      if r =? 0 then break (0, []) else let* _ := set_errno Crypto.EIO in break (-1, [])
    else
      let* _ := err "unexpected record type" in let* _ := set_errno Crypto.EIO in break (-1, []).

Definition cact_tls_read (t buf : bool) (n : Z) : C (Z * str) :=
  if negb t || negb buf then let* _ := set_errno Crypto.EINVAL in ret (-1, [])
  else
    let* x := the state in
    match x with
    | ST_CLOSED => ret (0, [])
    | _ =>
        if n =? 0 then ret (0, [])
        else let* q := gets rin in loop (S (pending q)) (read_body n) tt
    end.

Definition cact_tls_write (t : bool) (buf : Crypto.ptr) : C Z :=
  if negb t || Crypto.wild buf then let* _ := set_errno Crypto.EINVAL in ret (-1)
  else
    let* x := the state in
    match x with
    | ST_CLOSED => let* _ := set_errno EPIPE in ret (-1)
    | _ =>
        let n := Z.of_nat (length (Crypto.bytes buf)) in
        let take_ := Z.min n MAX_PLAIN in
        let* r := send_record CT_APP (take (Z.to_nat take_) (Crypto.bytes buf)) in
        if negb (r =? 0) then let* _ := set_errno Crypto.EIO in ret (-1) else ret take_
    end.

Definition cact_tls_close (t : bool) : C Z :=
  if negb t then let* _ := set_errno Crypto.EINVAL in ret (-1)
  else
    let* x := the state in
    let* rc := (match x with
      | ST_CLOSED => ret 0
      | _ => let* r := send_record CT_ALERT [1; ALERT_CLOSE_NOTIFY] in let* _ := upd (set_state ST_CLOSED) in ret r
      end) in
    let* _ := release in ret rc.
End Client.
End TlsClient.
