(* ===== verification/TlsSafe.v ===== *)
(** * TlsSafe: the TLS client against any peer

    Whatever bytes a server sends, in whatever pieces, whatever the device
    answers and whichever allocations fail, the client returns: every access is
    inside its array and every loop ends.  [safe] is the property that carries
    the proof; it composes along the monad. *)

From Stdlib Require Import ZArith Lia Bool String Ascii.
From stdpp Require Import base list numbers.
From S2P Require Import Prelude Monad Dlfcn Crypto TlsRoots TlsClient.

Module TlsSafe.
Import TlsClient.

(** ** Arrays *)

Lemma blit_some off l buf : 0 <= off -> off + Z.of_nat (length l) <= Z.of_nat (length buf) ->
  blit off l buf = Some (take (Z.to_nat off) buf ++ l ++ drop (Z.to_nat off + length l) buf).
Proof. intros. unfold blit. by zdecide. Qed.

Lemma blit_length off l buf r : blit off l buf = Some r -> length r = length buf.
Proof.
  unfold blit. destruct (_ && _) eqn:E; [|done]. apply andb_true_iff in E as [E1 E2]. apply Z.leb_le in E1, E2. intros [= <-].
  rewrite !length_app, length_take, length_drop. lia.
Qed.

Lemma slice_some off n buf : 0 <= off -> 0 <= n -> off + n <= Z.of_nat (length buf) ->
  slice off n buf = Some (take (Z.to_nat n) (drop (Z.to_nat off) buf)).
Proof. intros. unfold slice. by zdecide. Qed.

Lemma tslice_length off n buf l : slice off n buf = Some l -> 0 <= n /\ Z.of_nat (length l) = n.
Proof.
  unfold slice. destruct (_ && _) eqn:E; [|done]. apply andb_true_iff in E as [[E1 E2]%andb_true_iff E3].
  apply Z.leb_le in E1, E2, E3. intros [= <-]. rewrite length_take, length_drop. lia.
Qed.

Lemma byte_some buf o : 0 <= o < Z.of_nat (length buf) -> exists b, byte buf o = Some b /\ 0 <= b < 256.
Proof.
  intros H. unfold byte. zdecide. destruct (lookup_lt_is_Some_2 buf (Z.to_nat o)) as [x E]; [lia|].
  rewrite E. exists (u8 x). split; [done|apply u8_range].
Qed.

Lemma lor_shift a b n : 0 <= n -> 0 <= b < 2 ^ n -> Z.lor (Z.shiftl a n) b = a * 2 ^ n + b.
Proof.
  intros Hn Hb. rewrite Z.shiftl_mul_pow2 by done.
  assert (E : Z.land (a * 2 ^ n) b = 0).
  { apply Z.bits_inj_0. intros k. rewrite Z.land_spec. destruct (Z.ltb_spec k n); [by rewrite Z.mul_pow2_bits_low|].
    rewrite <- (Z.mod_small b (2 ^ n)), Z.mod_pow2_bits_high, andb_false_r by lia. done. }
  rewrite <- Z.lxor_lor, <- Z.add_nocarry_lxor by done. done.
Qed.

Lemma be16_some buf o : 0 <= o -> o + 2 <= Z.of_nat (length buf) -> exists x, be16 buf o = Some x /\ 0 <= x < 65536.
Proof.
  intros. unfold be16. destruct (byte_some buf o) as (a & -> & Ha); [lia|]. destruct (byte_some buf (o + 1)) as (b & -> & Hb); [lia|].
  cbn [mbind option_bind]. eexists. split; [done|]. rewrite lor_shift by lia. lia.
Qed.

Lemma be24_some buf o : 0 <= o -> o + 3 <= Z.of_nat (length buf) -> exists x, be24 buf o = Some x /\ 0 <= x < 16777216.
Proof.
  intros. unfold be24. destruct (byte_some buf o) as (a & -> & Ha); [lia|]. destruct (byte_some buf (o + 1)) as (b & -> & Hb); [lia|].
  destruct (byte_some buf (o + 2)) as (c & -> & Hc); [lia|]. cbn [mbind option_bind]. eexists. split; [done|].
  rewrite (Z.shiftl_mul_pow2 b) by lia. rewrite lor_shift, <- (Z.mul_1_l (2 ^ 16)) by lia.
  replace (a * (1 * 2 ^ 16) + b * 2 ^ 8) with (Z.shiftl (a * 256 + b) 8) by (rewrite Z.shiftl_mul_pow2; lia). rewrite lor_shift by lia. lia.
Qed.

(** ** The invariant *)

(** A growable buffer: its size is 0 or a power of two that doubling reaches. *)
Definition gb_ok (b : gbuf) : Prop :=
  len b <= cap b /\ (cap b = 0 \/ exists k, 0 <= k <= 22 /\ cap b = 256 * 2 ^ k).

Record tls_ok (t : cact_tls) : Prop := {
  rec_len : Z.of_nat (length (rec t)) = 5 + MAX_CIPHER;
  plain_len : Z.of_nat (length (plain t)) = MAX_CIPHER;
  app_arr_len : Z.of_nat (length (app t)) = MAX_CIPHER;
  app_in : 0 <= app_off t /\ app_len t <= MAX_CIPHER;
  hs_ok : gb_ok (hs t); tr_ok : gb_ok (tr t); chain_ok : gb_ok (chain t);
  hs_off_in : 0 <= hs_off t <= len (hs t);
  host_len : (length (hostname t) <= 255)%nat
}.

Section Safe.
Context {D : Type} `{CD : Crypto.CryptoDev D} `{HO : Host} `{Bs : TlsRoots.Bundles}.
(** No block of 2 GiB exists in the address space. *)
Context (small : forall k n, grants k n = true -> n < 2 ^ 31).
Abbreviation C := (St (st D)).

(** The device does not answer that it was interrupted. *)
Definition polite : Prop := forall r k, Time.Time.nio_map (Crypto.result (Crypto.dev_ioctl r k).1) <> inr EINTR.

(** Nothing makes the retry of a failing call endless: either the socket is not
    one that fails for ever, or [errno] is not EINTR and the device keeps it so. *)
Definition calm (s : st D) : Prop :=
  (RBroken ∉ rin s /\ WBroken ∉ win s) \/ (Crypto.errno (crypto s) <> EINTR /\ polite).

Record sok (s : st D) : Prop := { sok_tls :> tls_ok (tls s); sok_calm : calm s }.
#[local] Hint Extern 0 (tls_ok (tls _)) => apply sok_tls; assumption : core.

(** The rest of the state does not matter. *)
Lemma sok_new s t r e o l a : sok s -> tls_ok t -> sok (S_ t r e (rin s) (win s) o (crypto s) l a).
Proof. by intros [] ?. Qed.

#[local] Hint Extern 0 (sok (S_ _ _ _ _ _ _ _ _ _)) => eapply sok_new; [eassumption|]; first [assumption|apply sok_tls; assumption] : core.

(** What the parts that do not receive leave alone: the input and the
    reassembly buffer. *)
Definition frame (s s' : st D) : Prop := rin s' = rin s /\ hs (tls s') = hs (tls s) /\ hs_off (tls s') = hs_off (tls s).

Lemma frame_refl s : frame s s.
Proof. done. Qed.

Lemma frame_trans s1 s2 s3 : frame s1 s2 -> frame s2 s3 -> frame s1 s3.
Proof. unfold frame. intros (-> & -> & ->) (-> & -> & ->). done. Qed.

(** The computation returns, keeps the invariant, and its result satisfies [Q]. *)
Definition safe {A} (c : C A) (Q : A -> Prop) : Prop :=
  forall s, sok s -> wp c s (fun a s' => sok s' /\ frame s s' /\ Q a).

Definition any {A} (_ : A) : Prop := True.

(** A call of the device: a property of the result, and [errno] does not become
    EINTR by itself. *)
Definition quiet {A} (k : Crypto.cst D) (Q : A -> Prop) (a : A) (k' : Crypto.cst D) : Prop :=
  Q a /\ (polite -> Crypto.errno k <> EINTR -> Crypto.errno k' <> EINTR).

Section Rules.
Context {A B : Type}.

Lemma safe_ret (a : A) (Q : A -> Prop) : Q a -> safe (ret a) Q.
Proof. intros H s Hs. apply wp_ret. split_and!; [done..|done]. Qed.

Lemma safe_bind (c : C A) (k : A -> C B) (P : A -> Prop) (Q : B -> Prop) :
  safe c P -> (forall a, P a -> safe (k a) Q) -> safe (bind c k) Q.
Proof.
  intros Hc Hk s Hs. apply wp_bind. eapply wp_mono; [by apply Hc|]. intros a s1 (H1 & F1 & Pa).
  eapply wp_mono; [by apply Hk|]. intros b s2 (H2 & F2 & Qb). split_and!; [done|by eapply frame_trans|done].
Qed.

Lemma safe_mono (c : C A) (P Q : A -> Prop) : safe c P -> (forall a, P a -> Q a) -> safe c Q.
Proof. intros H HPQ s Hs. eapply wp_mono; [by apply H|]. intros a s' (? & ? & ?). auto. Qed.

Lemma safe_lift (o : option A) (Q : A -> Prop) : (exists a, o = Some a /\ Q a) -> safe (lift o) Q.
Proof. intros (a & -> & Ha) s Hs. split_and!; done. Qed.

Lemma safe_the (f : cact_tls -> A) (Q : A -> Prop) : (forall t, tls_ok t -> Q (f t)) -> safe (the f) Q.
Proof. intros H s Hs. apply wp_gets. split_and!; [done..|]. by apply H. Qed.

Lemma safe_gets (f : st D -> A) : safe (gets f) any.
Proof. intros s Hs. apply wp_gets. split_and!; done. Qed.

Lemma safe_kernel (c : St (Crypto.cst D) A) (Q : A -> Prop) : (forall k, wp c k (quiet k Q)) -> safe (kernel c) Q.
Proof.
  intros H s [Ht Hc]. specialize (H (crypto s)). unfold wp, kernel in *. destruct (c (crypto s)) as [[a k]|]; [|done].
  destruct H as [Ha He]. split_and!; [constructor; [done|]|done..]. destruct Hc as [Hc|[Hc Hp]]; [by left|right; auto].
Qed.
End Rules.

Lemma safe_upd f : (forall t, tls_ok t -> tls_ok (f t) /\ hs (f t) = hs t /\ hs_off (f t) = hs_off t) -> safe (upd f) any.
Proof. intros H s Hs. apply wp_modify. destruct (H _ Hs) as (? & ? & ?). split_and!; [by apply sok_new|done..]. Qed.

Lemma safe_err_set m : safe (err_set m) any.
Proof. intros s []. apply wp_modify. by split_and!. Qed.

Lemma safe_err m : safe (err m) (fun r => r = -1).
Proof. eapply safe_bind; [apply safe_err_set|]. intros. by apply safe_ret. Qed.

(** ** The device *)

Lemma wp_nio_dev r k (R : Crypto.reply -> Crypto.cst D -> Prop) :
  (forall a k', Crypto.errno k' = Crypto.errno k -> (polite -> Time.Time.nio_map (Crypto.result a) <> inr EINTR) -> R a k') ->
  wp (Crypto.nio_dev_cmd r) k R.
Proof.
  intros H. unfold wp, Crypto.nio_dev_cmd. destruct (Crypto.dev_open _); [|by apply H].
  destruct (Crypto.dev_ioctl _ _) as [a d] eqn:E. apply H; [done|]. intros P. specialize (P r (Crypto.kern k)). by rewrite E in P.
Qed.

Lemma wp_refuse e k (R : Z -> Crypto.cst D -> Prop) : R (-1) (Crypto.Cst (Crypto.kern k) e) -> wp (Crypto.refuse e) k R.
Proof. intros H. unfold Crypto.refuse, Crypto.set_errno. by wp_pure. Qed.

Lemma wp_cmd r k : wp (Crypto.crypt_cmd r) k (quiet k (fun a => a.1 = 0 \/ a.1 = -1)).
Proof.
  unfold Crypto.crypt_cmd. apply wp_bind, wp_nio_dev. intros a k' Ek Hp. destruct (Crypto.result a <? 0) eqn:E.
  - apply wp_bind. unfold Crypto.nio_map. destruct (Time.Time.nio_map _) as [x|e] eqn:N.
    + exfalso. revert N. unfold Time.Time.nio_map. rewrite Z.geb_leb, Z.leb_antisym, E. cbn [negb]. by destruct (_ =? -1).
    + apply wp_refuse. wp_pure. split; [by right|]. cbn. intros P _ ->. by apply Hp.
  - wp_pure. split; [by left|]. by rewrite Ek.
Qed.

Lemma wp_verdict r k : wp (Crypto.verdict r) k (quiet k any).
Proof.
  unfold Crypto.verdict. apply wp_bind, wp_nio_dev. intros a k' Ek Hp. repeat case_match.
  - wp_pure. split; [done|]. by rewrite Ek.
  - by apply wp_refuse.
  - by apply wp_refuse.
  - unfold Crypto.nio_map. destruct (Time.Time.nio_map _) as [x|e] eqn:N.
    + wp_pure. split; [done|]. by rewrite Ek.
    + apply wp_refuse. split; [done|]. cbn. intros P _ ->. by apply Hp.
Qed.

Lemma field_length n l : length (Crypto.field n l) = n.
Proof. apply length_resize. Qed.

(** A call that answers with a field, and one that answers with the bytes of a
    buffer of [cap] bytes. *)
Lemma wp_field n r k (Q : str -> Prop) (f : Crypto.reply -> str) : (forall a, length (f a) = n) ->
  wp (let* (e, a) := Crypto.crypt_cmd r in ret (e, if e =? 0 then f a else [])) k (quiet k (fun a => a.1 = 0 -> length a.2 = n)).
Proof.
  intros Hf. apply wp_bind. eapply wp_mono; [apply wp_cmd|]. intros [e a] k' He. wp_pure. split; [cbn; intros ->; apply Hf|apply He].
Qed.

Lemma safe_hmac k m : safe (hmac k m) (fun a => a.1 = 0 -> length a.2 = 32%nat).
Proof. apply safe_kernel. intros s. unfold Crypto.cact_hmac_sha256, Crypto.crypt_hmac_sign. cbn [Crypto.wild orb negb]. apply wp_field; [exact any|]. intros. apply field_length. Qed.

Lemma safe_sha256 m : safe (sha256 m) (fun a => a.1 = 0 -> length a.2 = 32%nat).
Proof. apply safe_kernel. intros s. unfold Crypto.cact_sha256, Crypto.crypt_hash. cbn [Crypto.wild orb negb]. apply wp_field; [exact any|]. intros. apply field_length. Qed.

Lemma safe_random : safe (kernel (Crypto.cact_random (Crypto.Buf []) 32)) (fun a => length a.2 = 32%nat).
Proof.
  apply safe_kernel. intros s. unfold Crypto.cact_random. cbn [Crypto.is_null andb]. apply wp_bind.
  eapply wp_mono; [apply wp_cmd|]. intros [e a] k' He. wp_pure. split; [apply field_length|apply He].
Qed.

Lemma safe_derive p q : safe (kernel (Crypto.cact_x25519_derive (Crypto.Buf p) (Crypto.Buf q) true)) (fun a => a.1 = 0 -> length a.2 = 32%nat).
Proof.
  apply safe_kernel. intros s. unfold Crypto.cact_x25519_derive, Crypto.crypt_kx_derive.
  cbn [Crypto.is_null orb negb]. apply wp_field; [exact any|]. intros. apply field_length.
Qed.

Lemma safe_gcm op k n a p c : 0 <= c ->
  safe (kernel (Crypto.crypt_gcm Crypto.CACT_CRYPT_AES128_GCM op 16 (Crypto.Buf k) (Crypto.Buf n) (Crypto.Buf a) (Crypto.Buf p) true c))
    (fun x => Z.of_nat (length x.2) <= c).
Proof.
  intros Hc. apply safe_kernel. intros s. unfold Crypto.crypt_gcm. cbn [Crypto.is_null Crypto.wild orb negb Nat.eqb andb]. apply wp_bind.
  eapply wp_mono; [apply wp_cmd|]. intros [e x] k' He. wp_pure. split; [cbn; rewrite length_take; lia|apply He].
Qed.

Lemma safe_x509 c r h t s m g : safe (kernel (Crypto.cact_x509_verify c r h t s m g)) any.
Proof.
  apply safe_kernel. intros k. unfold Crypto.cact_x509_verify. repeat case_match; [by apply wp_refuse..|]. apply wp_verdict.
Qed.

Lemma safe_errno e : e <> EINTR -> safe (set_errno e) any.
Proof. intros He. by apply safe_kernel. Qed.

(** ** Socket and heap *)

(** The loops end if the socket is not broken or [errno] is not EINTR, and a
    socket that is not broken stays so. *)
Lemma write_loop_returns q l o er : WBroken ∉ q \/ er <> EINTR ->
  exists r o' q', write_loop q l o er = Some (r, o', q') /\ (WBroken ∉ q -> WBroken ∉ q').
Proof.
  revert l o. induction q as [|e q IH]; intros [|b l] o H; cbn [write_loop]; [by eauto 10..|].
  assert (Hq : WBroken ∉ e :: q -> WBroken ∉ q) by (rewrite not_elem_of_cons; tauto).
  assert (Hr : forall l o, exists r o' q', write_loop q l o er = Some (r, o', q') /\ (WBroken ∉ e :: q -> WBroken ∉ q')).
  { intros l' o'. destruct (IH l' o') as (? & ? & ? & ? & ?); [tauto|]. eauto 10. }
  destruct e as [[|k]| |]; [by eauto 10|done| |].
  - destruct (er =? EINTR); [done|by eauto 10].
  - destruct (Z.eqb_spec er EINTR) as [->|]; [|by eauto 10]. exfalso. destruct H as [H|H]; [|done]. apply H. by left.
Qed.

Lemma safe_write_full l : safe (write_full l) any.
Proof.
  intros s [Ht Hc]. unfold wp, write_full. destruct (write_loop_returns (win s) l (sent s) (Crypto.errno (crypto s))) as (r & o & q & -> & Hq).
  { destruct Hc as [[_ Hc]|[Hc _]]; auto. }
  cbn. split_and!; [constructor; [done|]|done..]. destruct Hc as [[H1 H2]|Hc]; [left|by right]. split; [done|]. cbn. auto.
Qed.

Lemma safe_alloc n : safe (alloc n) (fun ok => ok = true -> n < 2 ^ 31).
Proof. intros s []. split_and!; [done..|]. apply small. Qed.

Lemma safe_live k : safe (live_add k) any.
Proof. intros s []. apply wp_modify. by split_and!. Qed.

Lemma safe_free b : safe (free b) any.
Proof. unfold free. case_match; [by apply safe_ret|apply safe_live]. Qed.

Lemma safe_malloc n : safe (malloc n) any.
Proof.
  eapply safe_bind; [apply safe_alloc|]. intros [] _; [|by apply safe_ret].
  eapply safe_bind; [apply safe_live|]. intros. by apply safe_ret.
Qed.

Lemma double_ok fuel k need : 0 <= k <= 22 -> need < 2 ^ 31 -> (Z.to_nat (23 - k) < fuel)%nat ->
  exists k', 0 <= k' <= 23 /\ double fuel (256 * 2 ^ k) need = Some (256 * 2 ^ k') /\ need <= 256 * 2 ^ k'.
Proof.
  intros Hk Hn. revert k Hk. induction fuel as [|fuel IH]; intros k Hk Hf; [lia|]. cbn [double].
  destruct (Z.ltb_spec (256 * 2 ^ k) need); [|exists k; split_and!; done || lia].
  assert (Hp : 256 * 2 ^ k * 2 = 256 * 2 ^ (k + 1)) by (rewrite Z.pow_add_r; lia).
  assert (Hs : 256 * 2 ^ (k + 1) <= 2 ^ 31) by (change (2 ^ 31) with (256 * 2 ^ 23); apply Z.mul_le_mono_nonneg_l; [lia|]; apply Z.pow_le_mono_r; lia).
  rewrite u32_small, Hp by lia. destruct (Z.eq_dec k 22) as [->|].
  - exists 23. split_and!; [lia..| |lia]. destruct fuel; [lia|]. cbn [double]. zdecide. done.
  - apply IH; lia.
Qed.

Lemma safe_append b l : gb_ok b -> Z.of_nat (length l) <= 2 ^ 24 ->
  safe (append b l) (fun a => gb_ok a.2 /\ (a.1 = 0 -> data a.2 = data b ++ l) /\ (a.1 <> 0 -> data a.2 = data b)).
Proof.
  intros [Hlen Hcap] Hl. unfold append. set (need := u32 _).
  assert (Hc : 0 <= cap b <= 2 ^ 30).
  { destruct Hcap as [->|(k & Hk & ->)]; [lia|]. split; [lia|]. change (2 ^ 30) with (256 * 2 ^ 22). apply Z.mul_le_mono_nonneg_l; [lia|]. apply Z.pow_le_mono_r; lia. }
  assert (Hneed : need = len b + Z.of_nat (length l)) by (apply u32_small; unfold len in *; lia).
  apply (safe_bind _ _ (fun a => gb_ok a.2 /\ data a.2 = data b /\ (a.1 = 0 -> need <= cap a.2))).
  - unfold grow. destruct (Z.leb_spec need (cap b)); [by apply safe_ret|].
    assert (exists k, 0 <= k <= 22 /\ (if cap b =? 0 then 256 else cap b) = 256 * 2 ^ k) as (k & Hk & ->).
    { destruct Hcap as [->|(k & Hk & E)]; [by exists 0|]. exists k. rewrite E. assert (0 < 2 ^ k) by (apply Z.pow_pos_nonneg; lia). by zdecide. }
    destruct (double_ok 32 k need) as (k' & Hk' & E & Hle); [lia|unfold len in *; lia|lia|].
    apply (safe_bind _ _ (fun x => x = 256 * 2 ^ k')); [apply safe_lift; by exists (256 * 2 ^ k')|]. intros ? ->.
    eapply safe_bind; [apply safe_alloc|]. intros [] Hok; cbn [negb]; [|by apply safe_ret; split_and!].
    assert (k' <= 22).
    { apply Z.nlt_ge. intros ?. assert (k' = 23) as -> by lia. specialize (Hok eq_refl). cbn in Hok. lia. }
    apply (safe_bind _ _ any); [case_match; [apply safe_live|by apply safe_ret]|]. intros _ _.
    apply safe_ret. cbn [fst snd]. split_and!; [|done|done]. split; [unfold len in *; cbn [data cap]; lia|]. right. exists k'. split; [lia|done].
  - intros [r b'] (Hb & E & Hn). cbn in *. destruct (Z.eqb_spec r 0) as [->|]; cbn [negb].
    + specialize (Hn eq_refl). destruct Hb as [_ Hb]. apply safe_ret. cbn. rewrite E. split_and!; [|done|done].
      split; [|done]. unfold len in *. cbn. rewrite length_app. lia.
    + apply safe_ret. cbn. split_and!; [done|done|by rewrite E].
Qed.

Lemma gb_ok_nil : gb_ok no_buf.
Proof. split; [done|by left]. Qed.

(** ** Automation *)

(** One call of a sequence, by the lemma on it. *)
Tactic Notation "via" tactic3(tac) := eapply safe_bind; [solve [tac]|cbv beta].

(** Splits the conditionals of the straight-line code and applies the lemmas on
    the calls; what is left are the accesses. *)
Ltac safe_step :=
  cbv beta iota; lazymatch goal with
  | |- safe (bind (the ?f) _) _ => eapply safe_bind; [apply (safe_the f any); done|intros ? _]
  | |- safe (bind _ _) _ => eapply safe_bind; [solve [eauto 3 with tls nocore]|intros ? ?]
  | |- safe (ret _) _ => apply safe_ret
  | |- safe (err _) _ => eapply safe_mono; [apply safe_err|]
  | |- safe (if negb ?b then _ else _) _ => destruct b eqn:?; cbn [negb]
  | |- safe (if ?b then _ else _) _ => destruct b eqn:?
  | |- safe (let '(_, _) := ?x in _) _ => destruct x as [? ?]
  end.

Create HintDb tls.
Hint Resolve safe_err_set safe_hmac safe_sha256 safe_random safe_derive safe_x509 safe_errno safe_write_full safe_live safe_free safe_malloc safe_gets : tls.

(** ** Key schedule *)

Lemma expand_loop_safe fuel prk info t out n c :
  (Z.of_nat (length t) <= 32) -> Z.of_nat (length info) <= 106 -> (Z.to_nat (n - Z.of_nat (length out)) < fuel)%nat ->
  safe (expand_loop fuel prk info t out n c) any.
Proof.
  revert t out c. induction fuel as [|fuel IH]; intros t out c Ht Hi Hf; [lia|]. cbn [expand_loop].
  rewrite Z.geb_leb. destruct (Z.leb_spec n (Z.of_nat (length out))); [by apply safe_ret|]. cbv zeta.
  rewrite !length_app, Z.gtb_ltb. cbn [length]. unfold HASH_LEN in *. zdecide.
  eapply safe_bind; [apply safe_hmac|]. intros [e t'] Ht'. cbn in Ht'. destruct (Z.eqb_spec e 0) as [->|]; cbn [negb]; [|by apply safe_ret].
  specialize (Ht' eq_refl). apply IH; [lia|done|]. rewrite length_app, length_take. lia.
Qed.

Lemma safe_expand_label s l c n : Z.of_nat (length l) <= 64 -> Z.of_nat (length c) <= 32 -> safe (expand_label s l c n) any.
Proof.
  intros Hl Hc. unfold expand_label. cbv zeta. rewrite !Z.gtb_ltb. unfold HASH_LEN. zdecide. cbn [orb].
  assert (Hi : Z.of_nat (length (enc16 n ++ [u8 (6 + Z.of_nat (length l))] ++ txt "tls13 " ++ l ++ [u8 (Z.of_nat (length c))] ++ c)) <= 106).
  { rewrite !length_app. cbn. lia. }
  unfold hkdf_expand. rewrite Z.gtb_ltb. zdecide. apply expand_loop_safe; [done|done|cbn; lia].
Qed.

Lemma safe_transcript : safe transcript_hash (fun a => a.1 = 0 -> length a.2 = 32%nat).
Proof. eapply safe_bind; [by apply (safe_the _ any)|]. intros. apply safe_sha256. Qed.

Lemma safe_derive_secret s l : Z.of_nat (length (txt l)) <= 64 -> safe (derive_secret s l) any.
Proof.
  intros Hl. eapply safe_bind; [apply safe_transcript|]. intros [e h] He. cbn in He.
  destruct (Z.eqb_spec e 0); cbn [negb]; [|by apply safe_ret]. apply safe_expand_label; [done|]. rewrite He by done. done.
Qed.

Lemma safe_derive_empty s l : Z.of_nat (length (txt l)) <= 64 -> safe (derive_secret_empty s l) any.
Proof.
  intros Hl. eapply safe_bind; [apply safe_sha256|]. intros [e h] He. cbn in He.
  destruct (Z.eqb_spec e 0); cbn [negb]; [|by apply safe_ret]. apply safe_expand_label; [done|]. rewrite He by done. done.
Qed.

(** Updates that leave the arrays and buffers alone. *)
Lemma set_traffic_ok k x t : tls_ok t -> tls_ok (set_traffic k x t) /\ hs (set_traffic k x t) = hs t /\ hs_off (set_traffic k x t) = hs_off t.
Proof. intros []. destruct k; split_and!; try done; by constructor. Qed.

Lemma safe_set_traffic k f : safe (upd (fun t => set_traffic k (f t) t)) any.
Proof. apply safe_upd. intros t. apply set_traffic_ok. Qed.

Lemma safe_traffic_keys k : safe (traffic_keys k) any.
Proof.
  unfold traffic_keys. safe_step. eapply safe_bind; [by apply safe_expand_label|]. intros [e x] _. safe_step; [|by apply safe_ret].
  eapply safe_bind; [apply safe_set_traffic|]. intros. eapply safe_bind; [by apply safe_expand_label|]. intros [e' y] _.
  safe_step; [|by apply safe_ret]. eapply safe_bind; [apply safe_set_traffic|]. intros. by apply safe_ret.
Qed.

Lemma safe_derive_into s l k : Z.of_nat (length (txt l)) <= 64 -> safe (derive_into s l k) any.
Proof.
  intros Hl. eapply safe_bind; [by apply safe_derive_secret|]. intros [e x] _. safe_step; [|by apply safe_ret].
  eapply safe_bind; [apply safe_set_traffic|]. intros. by apply safe_ret.
Qed.

Lemma safe_extract s i : safe (hkdf_extract s i) any.
Proof. eapply safe_mono; [apply safe_hmac|]. done. Qed.

Lemma safe_hs_secret x : safe (upd (set_hs_secret x)) any.
Proof. apply safe_upd. intros t []. split_and!; [by constructor|done..]. Qed.

Hint Resolve safe_traffic_keys safe_extract safe_hs_secret safe_set_traffic : tls.
Hint Extern 1 (safe (derive_into _ _ _) _) => by apply safe_derive_into : tls.
Hint Extern 1 (safe (derive_secret_empty _ _) _) => by apply safe_derive_empty : tls.
Hint Extern 1 (safe (expand_label _ (txt _) [] _) _) => by apply safe_expand_label : tls.

Lemma safe_handshake_keys x : safe (setup_handshake_keys x) any.
Proof. unfold setup_handshake_keys. repeat (safe_step || done). Qed.

Lemma safe_application_keys : safe setup_application_keys any.
Proof. unfold setup_application_keys. repeat (safe_step || done). Qed.

Lemma safe_key_update b : safe (key_update b) any.
Proof.
  unfold key_update. repeat (safe_step || done). eapply safe_bind; [|intros; by apply safe_ret].
  apply safe_upd. intros t []. destruct b; split_and!; done || by constructor.
Qed.

Lemma safe_finished s : safe (finished_verify_data s) any.
Proof.
  unfold finished_verify_data. repeat (safe_step || done). eapply safe_bind; [apply safe_transcript|]. intros [e h] _.
  repeat (safe_step || done). eapply safe_mono; [apply safe_hmac|]. done.
Qed.

Lemma safe_tr_add m : Z.of_nat (length m) <= 2 ^ 24 -> safe (tr_add m) any.
Proof.
  intros Hm. unfold tr_add. eapply safe_bind; [apply (safe_the tr gb_ok); intros t []; done|]. intros b Hb.
  eapply safe_bind; [by apply safe_append|]. intros [r b'] (Hb' & _). eapply safe_bind; [|intros; by apply safe_ret].
  apply safe_upd. intros t []. split_and!; [by constructor|done..].
Qed.

(** ** Records *)

Lemma safe_set_rec r : Z.of_nat (length r) = 5 + MAX_CIPHER -> safe (upd (set_rec r)) any.
Proof. intros Hr. apply safe_upd. intros t []. split_and!; [by constructor|done..]. Qed.

Lemma safe_set_plain r : Z.of_nat (length r) = MAX_CIPHER -> safe (upd (set_plain r)) any.
Proof. intros Hr. apply safe_upd. intros t []. split_and!; [by constructor|done..]. Qed.

Lemma safe_set_wr d : safe (upd (set_wr d)) any.
Proof. apply safe_upd. intros t []. split_and!; [by constructor|done..]. Qed.

Lemma safe_set_rd d : safe (upd (set_rd d)) any.
Proof. apply safe_upd. intros t []. split_and!; [by constructor|done..]. Qed.

Lemma safe_set_state x : safe (upd (set_state x)) any.
Proof. apply safe_upd. intros t []. split_and!; [by constructor|done..]. Qed.

Hint Resolve safe_set_wr safe_set_rd safe_set_state safe_handshake_keys safe_application_keys safe_key_update safe_finished : tls.

Lemma safe_blit off l buf n : 0 <= off -> off + Z.of_nat (length l) <= n -> Z.of_nat (length buf) = n ->
  safe (lift (blit off l buf)) (fun r => Z.of_nat (length r) = n).
Proof.
  intros H1 H2 H3. apply safe_lift. rewrite blit_some by lia. eexists. split; [done|].
  rewrite (blit_length off l buf) by (apply blit_some; lia). done.
Qed.

Lemma safe_slice off n buf : 0 <= off -> 0 <= n -> off + n <= Z.of_nat (length buf) -> safe (lift (slice off n buf)) (fun l => Z.of_nat (length l) = n).
Proof. intros. apply safe_lift. rewrite slice_some by done. eexists. split; [done|]. rewrite length_take, length_drop. lia. Qed.

Lemma safe_rec : safe (the rec) (fun r => Z.of_nat (length r) = 5 + MAX_CIPHER).
Proof. apply safe_the. by intros t []. Qed.

Lemma safe_plain : safe (the plain) (fun r => Z.of_nat (length r) = MAX_CIPHER).
Proof. apply safe_the. by intros t []. Qed.

Lemma safe_send_record ty l : safe (send_record ty l) any.
Proof.
  unfold send_record. cbv zeta. rewrite Z.gtb_ltb. destruct (Z.ltb_spec MAX_PLAIN (Z.of_nat (length l))) as [|Hl]; [by repeat safe_step|].
  safe_step. via (apply safe_rec). intros r Hr. unfold MAX_CIPHER, MAX_PLAIN, TAG_LEN in *.
  assert (Hh : forall x y, Z.of_nat (length (header x y)) = 5) by done.
  safe_step.
  - via (apply safe_plain). intros p Hp. unfold MAX_CIPHER, MAX_PLAIN in Hp.
    via (apply (safe_blit _ _ _ 16640); [done|rewrite length_app; cbn; lia|lia]). intros p' Hp'.
    via (by apply safe_set_plain). intros _ _.
    via (apply (safe_blit _ _ _ (5 + 16640)); [done|cbn; lia|lia]). intros r' Hr'.
    via (by apply safe_set_rec). intros _ _. safe_step.
    via (apply safe_slice; lia). intros pt _. via (apply safe_slice; lia). intros aad _.
    via (by apply safe_gcm). intros [e ct] Hct. cbn in Hct. safe_step; [|by repeat safe_step].
    via (apply (safe_blit _ _ _ (5 + 16640)); [done|cbn; lia|lia]). intros r2 Hr2.
    via (by apply safe_set_rec). intros _ _. safe_step.
    via (apply safe_slice; lia). intros out _. by repeat safe_step.
  - via (apply (safe_blit _ _ _ (5 + 16640)); [done|rewrite length_app; specialize (Hh ty (Z.of_nat (length l))); lia|lia]). intros r' Hr'.
    via (by apply safe_set_rec). intros _ _. via (apply safe_slice; lia). intros out _. by repeat safe_step.
Qed.

(** ** Receiving *)

Lemma pending_data bs q : pending (RData bs :: q) = (length bs + pending q)%nat.
Proof. done. Qed.

Lemma pending_fail q : pending (RFail :: q) = pending q.
Proof. done. Qed.

Lemma pending_broken q : pending (RBroken :: q) = pending q.
Proof. done. Qed.

Lemma read_loop_returns q n acc er : RBroken ∉ q \/ er <> EINTR ->
  exists r bs q', read_loop q n acc er = Some (r, bs, q') /\ (RBroken ∉ q -> RBroken ∉ q').
Proof.
  revert n acc. induction q as [|e q IH]; intros [|n] acc H; cbn [read_loop]; [by eauto 10..|].
  assert (Hq : RBroken ∉ e :: q -> RBroken ∉ q) by (rewrite not_elem_of_cons; tauto).
  assert (Hr : forall n acc, exists r bs q', read_loop q n acc er = Some (r, bs, q') /\ (RBroken ∉ e :: q -> RBroken ∉ q')).
  { intros n' acc'. destruct (IH n' acc') as (? & ? & ? & ? & ?); [tauto|]. eauto 10. }
  destruct e as [[|b l]| |]; [by eauto 10| | |].
  - destruct (_ <? _)%nat; [|done]. do 3 eexists. split; [done|]. rewrite !not_elem_of_cons. intuition congruence.
  - destruct (er =? EINTR); [done|by eauto 10].
  - destruct (Z.eqb_spec er EINTR) as [->|]; [|by eauto 10]. exfalso. destruct H as [H|H]; [|done]. apply H. by left.
Qed.

Lemma read_loop_facts q n acc er r bs q' : read_loop q n acc er = Some (r, bs, q') ->
  (length bs + pending q' = length acc + pending q)%nat /\ (length bs <= length acc + n)%nat /\ (r = 1 -> (length bs = length acc + n)%nat) /\
  (r = 1 \/ r = 0 \/ r = -1).
Proof.
  revert n acc. induction q as [|[[|b l]| |] q IH]; intros [|n] acc; cbn [read_loop]; rewrite ?pending_data, ?pending_fail, ?pending_broken;
    try (intros [= <- <- <-]; csplit; auto; fail).
  - intros [= <- <- <-]. case_bool_decide; csplit; auto.
  - intros [= <- <- <-]. case_bool_decide; csplit; auto.
  - generalize (b :: l). intros x. destruct (Nat.ltb_spec (S n) (length x)) as [H|H].
    + assert (Ht : length (take (S n) x) = S n) by (rewrite length_take; lia). revert Ht. generalize (take (S n) x). intros y Hy.
      intros [= <- <- <-]. rewrite pending_data, length_app, length_drop. csplit; auto; lia.
    + intros (E1 & E2 & E3 & E4)%IH. rewrite length_app in *. csplit; auto; lia.
  - destruct (er =? EINTR); [|intros [= <- <- <-]; csplit; auto]. intros (E1 & E2 & E3 & E4)%IH. csplit; auto; lia.
  - destruct (er =? EINTR); [done|]. intros [= <- <- <-]. rewrite ?pending_broken. csplit; auto.
Qed.

(** The frame of the parts that receive. *)
Definition rx (s s' : st D) : Prop := hs (tls s') = hs (tls s) /\ hs_off (tls s') = hs_off (tls s) /\ (pending (rin s') <= pending (rin s))%nat.

Lemma wp_read_full n s : 0 <= n -> sok s ->
  wp (read_full n) s (fun a s' => sok s' /\ rx s s' /\ Z.of_nat (length a.2) <= n /\
    (a.1 = 1 -> Z.of_nat (length a.2) = n /\ (pending (rin s') + length a.2 <= pending (rin s))%nat) /\ (a.1 = 1 \/ a.1 = 0 \/ a.1 = -1)).
Proof.
  intros Hn [Ht Hc]. unfold wp, read_full. destruct (read_loop_returns (rin s) (Z.to_nat n) [] (Crypto.errno (crypto s))) as (r & bs & q' & E & Hq).
  { destruct Hc as [[Hc _]|[Hc _]]; auto. }
  rewrite E. apply read_loop_facts in E. destruct E as (E1 & E2 & E3 & E4). unfold rx. cbn in *. split_and!; try done; try lia.
  constructor; [done|]. destruct Hc as [[H1 H2]|Hc]; [left|by right]. split; [cbn; auto|done].
Qed.

(** Using [safe] after something was received. *)
Lemma safe_wp {A} (c : C A) (Q : A -> Prop) s (R : A -> st D -> Prop) :
  safe c Q -> sok s -> (forall a s', sok s' -> frame s s' -> Q a -> R a s') -> wp c s R.
Proof. intros Hc Hs HR. eapply wp_mono; [by apply Hc|]. intros a s' (? & ? & ?). auto. Qed.

(** What becomes of a record of [N] bytes, and how many of them are handed on. *)
Definition rec_ok (N : Z) (a : unit + (Z * (Z * Z))) : Prop :=
  match a with
  | inl _ => True
  | inr (r, (_, n)) => r = -1 \/ r = 0 \/ (r = 1 /\ 0 <= n <= N)
  end.

Definition got (a : unit + (Z * (Z * Z))) : nat := match a with inr (r, (_, n)) => if r =? 1 then Z.to_nat n else 0 | inl _ => 0 end.

Lemma strip_le n p : (strip n p <= n)%nat.
Proof. induction n; cbn; [lia|]. case_match; lia. Qed.

Lemma safe_stop m : safe (let* r := err m in @break (st D) unit (Z * (Z * Z)) (r, (0, 0))) (fun a => exists x, a = inr (-1, x)).
Proof. via (apply safe_err). intros r ->. apply safe_ret. eauto. Qed.

Lemma safe_stop_rec N m : safe (let* r := err m in @break (st D) unit (Z * (Z * Z)) (r, (0, 0))) (rec_ok N).
Proof. eapply safe_mono; [apply safe_stop|]. intros a [[] ->]. by left. Qed.

Lemma safe_opened hdr h0 n buf :
  Z.of_nat (length buf) = 5 + MAX_CIPHER -> 0 <= n <= MAX_CIPHER ->
  safe (open_record hdr h0 n buf) (rec_ok n).
Proof.
  intros Hbuf Hn. unfold open_record. cbv zeta. unfold MAX_CIPHER, MAX_PLAIN, TAG_LEN in *. safe_step. via (apply safe_plain). intros p Hp. unfold MAX_CIPHER, MAX_PLAIN in Hp.
  safe_step.
  - safe_step; [apply safe_stop_rec|]. apply orb_false_iff in Heqb0 as [_ Ht]. apply Z.ltb_ge in Ht. safe_step.
    via (apply safe_slice; lia). intros l Hl. via (apply (safe_blit _ _ _ 16640); lia). intros p1 Hp1. via (by apply safe_set_plain). intros _ _.
    via (apply safe_gcm; lia). intros [e pt] Hpt. cbn in Hpt. via (apply (safe_blit _ _ _ 16640); lia). intros p2 Hp2.
    via (by apply safe_set_plain). intros _ _. safe_step; [|apply safe_stop_rec]. safe_step.
    pose proof (strip_le (Z.to_nat (n - 16)) p2). destruct (Z.eqb_spec (Z.of_nat (strip (Z.to_nat (n - 16)) p2)) 0); [apply safe_stop_rec|].
    eapply safe_bind; [apply (safe_lift _ any); destruct (byte_some p2 (Z.of_nat (strip (Z.to_nat (n - 16)) p2) - 1)) as (b & -> & _); [lia|by exists b]|].
    intros ty _. apply safe_ret. right. right. lia.
  - safe_step; [apply safe_stop_rec|]. via (apply safe_slice; lia). intros l Hl. via (apply (safe_blit _ _ _ 16640); lia). intros p' Hp'.
    via (by apply safe_set_plain). intros _ _. apply safe_ret. right. right. lia.
Qed.

Lemma rx_frame s s1 s2 : rx s s1 -> frame s1 s2 -> rx s s2.
Proof. unfold rx, frame. intros (-> & -> & H) (-> & -> & ->). done. Qed.

Lemma rx_trans s s1 s2 : rx s s1 -> rx s1 s2 -> rx s s2.
Proof. unfold rx. intros (-> & -> & H) (-> & -> & H'). split_and!; done || lia. Qed.

(** The body of a record of [n] bytes. *)
Lemma body_safe s hdr h0 n : sok s -> 0 <= n <= MAX_CIPHER ->
  wp (let* (r, body) := (if n =? 0 then ret (1, []) else read_full n) in
      let* buf := the rec in
      let* buf := lift (blit 0 body buf) in
      let* _ := upd (set_rec buf) in
      if negb (r =? 1) then let* r := err "short record body" in break (r, (0, 0))
      else if h0 =? CT_CHANGE_CIPHER then
        let* b0 := lift (byte buf 0) in
        if negb (n =? 1) || negb (b0 =? 1) then let* r := err "malformed ChangeCipherSpec" in break (r, (0, 0)) else continue tt
      else open_record hdr h0 n buf) s (fun a s' => sok s' /\ rx s s' /\ rec_ok MAX_CIPHER a /\ (pending (rin s') + got a <= pending (rin s))%nat).
Proof.
  intros Hs Hn. unfold MAX_CIPHER, MAX_PLAIN in *. apply wp_bind.
  eapply (wp_mono _ _ (fun a s' => sok s' /\ rx s s' /\ Z.of_nat (length a.2) <= n /\
    (a.1 = 1 -> (pending (rin s') + Z.to_nat n <= pending (rin s))%nat))).
  { destruct (Z.eqb_spec n 0); [wp_pure; by split_and!; [..|cbn; lia|lia]|]. eapply wp_mono; [apply wp_read_full; [lia|done]|].
    intros a s' (? & ? & ? & H & _). split_and!; [done..|]. intros E. apply H in E. lia. }
  intros [r body] s1 (S1 & X1 & Hb & Hp). cbn [fst snd] in *.
  eapply (safe_wp _ (fun a => rec_ok n a /\ (r <> 1 -> got a = 0%nat))); [|done|].
  - via (apply safe_rec). intros buf Hbuf. unfold MAX_CIPHER, MAX_PLAIN in Hbuf. via (apply (safe_blit _ _ _ (5 + 16640)); lia). intros buf' Hbuf'.
    via (by apply safe_set_rec). intros _ _. destruct (Z.eqb_spec r 1); cbn [negb].
    2:{ eapply safe_mono; [apply safe_stop|]. intros a [[] ->]. split; [by left|done]. }
    eapply (safe_mono _ (rec_ok n)); [|by intros]. safe_step; [|by apply safe_opened].
    eapply safe_bind; [apply (safe_lift _ any); destruct (byte_some buf' 0) as (b & -> & _); [lia|by exists b]|].
    intros b0 _. safe_step; [apply safe_stop_rec|by apply safe_ret].
  - intros a s' H1 H2 [H3 H4]. assert (Hle : (got a <= Z.to_nat n)%nat).
    { destruct a as [|[r' [ty k]]]; cbn in *; [lia|]. destruct (Z.eqb_spec r' 1); lia. }
    split_and!; [done|by eapply rx_frame| |].
    + destruct a as [|[r' [ty k]]]; cbn in *; [done|]. lia.
    + destruct H2 as (-> & _). destruct (Z.eq_dec r 1) as [->|Hr]; [specialize (Hp eq_refl); lia|]. rewrite H4 by done. destruct X1 as (_ & _ & X1). lia.
Qed.

(** One round: it either ends or has used up a header. *)
Lemma recv_body_safe s : sok s ->
  wp (recv_body tt) s (fun a s' => sok s' /\ rx s s' /\ rec_ok MAX_CIPHER a /\
    (match a with inl _ => True | inr (r, _) => r = 1 end -> (pending (rin s') + 5 + got a <= pending (rin s))%nat)).
Proof.
  intros Hs. unfold recv_body. cbv zeta. apply wp_bind. eapply wp_mono; [by apply wp_read_full|].
  intros [r hdr] s1 (S1 & X1 & _ & H1 & Hr). cbn [fst snd] in *.
  destruct (Z.leb_spec r 0) as [Hr0|Hr0]; [wp_pure; split_and!; [done|done|cbn; lia|lia]|].
  destruct H1 as [Hl Hp]; [lia|].
  eapply (wp_mono _ _ (fun a s' => sok s' /\ rx s1 s' /\ rec_ok MAX_CIPHER a /\ (pending (rin s') + got a <= pending (rin s1))%nat)).
  2:{ intros a s' (H2 & H3 & H4 & H5). split_and!; [done|by eapply rx_trans|done|]. intros _. lia. }
  destruct (be16_some hdr 3) as (n & En & Hn); [lia..|]. destruct (byte_some hdr 0) as (h0 & Eh & _); [lia|].
  apply wp_bind. unfold wp at 1, lift at 1. rewrite En. apply wp_bind. unfold wp at 1, lift at 1. rewrite Eh.
  rewrite Z.gtb_ltb. destruct (Z.ltb_spec MAX_CIPHER n).
  - eapply safe_wp; [apply safe_stop|done|]. intros a s' Ha F [[x1 x2] ->]. split_and!; [done|eapply rx_frame; [|done]; unfold rx; done|by left|].
    destruct F as (-> & _). change (got _) with 0%nat. lia.
  - apply body_safe; [done|lia].
Qed.

Lemma wp_recv_record s : sok s ->
  wp recv_record s (fun a s' => sok s' /\ rx s s' /\ rec_ok MAX_CIPHER (inr a) /\
    (a.1 = 1 -> (pending (rin s') + 5 + Z.to_nat a.2.2 <= pending (rin s))%nat)).
Proof.
  intros Hs. unfold recv_record. apply wp_bind, wp_gets.
  eapply (wp_loop_ghost (fun (g : nat) _ s' => sok s' /\ rx s s' /\ pending (rin s') = g) id).
  - intros g [] s1 (H1 & X1 & <-). eapply wp_mono; [by apply recv_body_safe|]. intros [[]|[r [ty n]]] s2 (H2 & X2 & H3 & H4).
    + specialize (H4 I). exists (pending (rin s2)). unfold id. split_and!; [done|by eapply rx_trans|done|lia].
    + split_and!; [done|by eapply rx_trans|done|]. cbn in *. intros ->. specialize (H4 eq_refl). destruct X1 as (_ & _ & X1). unfold got in H4. change (1 =? 1) with true in H4. cbv iota in H4. lia.
  - split_and!; [done|by split_and!|done].
  - unfold id. lia.
Qed.

(** ** Reassembly *)

Lemma safe_handle_alert n : n <= MAX_CIPHER -> safe (handle_alert n) (fun r => r = 0 \/ r = -1).
Proof.
  intros Hn. unfold handle_alert. destruct (Z.ltb_spec n 2); [by eapply safe_mono; [apply safe_err|]; auto|].
  via (apply safe_plain). intros p Hp. eapply safe_bind; [apply (safe_lift _ any); destruct (byte_some p 1) as (b & -> & _); [unfold MAX_CIPHER, MAX_PLAIN in *; lia|by exists b]|].
  intros c _. safe_step; safe_step; apply safe_ret; auto.
Qed.

(** What [hs_next] gives: a message inside the bounds, which is the consumed
    part of the buffer. *)
Definition left (s : st D) : nat := (length (data (hs (tls s))) - Z.to_nat (hs_off (tls s)) + pending (rin s))%nat.

Definition msg_ok (a : Z * (Z * str)) : Prop := a.1 = 0 \/ a.1 = -1 \/ (a.1 = 1 /\ 4 <= Z.of_nat (length a.2.2) <= 4 + MAX_HANDSHAKE).

Lemma left_frame s s' : frame s s' -> left s' = left s.
Proof. unfold frame, left. by intros (-> & -> & ->). Qed.

(** Receiving into the reassembly buffer. *)
Lemma hs_receive_safe s : sok s -> hs_off (tls s) = 0 ->
  wp hs_receive s
    (fun a s' => sok s' /\ (pending (rin s') <= pending (rin s))%nat /\
      match a with inl _ => hs_off (tls s') = 0 /\ (left s' <= left s)%nat /\ (pending (rin s') < pending (rin s))%nat
                 | inr m => msg_ok m /\ m.1 <> 1 end).
Proof.
  intros Hs Ho. unfold hs_receive. apply wp_bind. eapply wp_mono; [by apply wp_recv_record|]. intros [r [ty n]] s1 (H1 & X1 & Hr & Hp). cbn [fst snd rec_ok] in *.
  destruct X1 as (Xh & Xo & Xp). destruct (Z.leb_spec r 0) as [Hr0|Hr0].
  { wp_pure. split_and!; [done|done|unfold msg_ok; cbn; lia|cbn; lia]. }
  assert (r = 1) as -> by lia. specialize (Hp eq_refl). destruct Hr as [|[|[_ Hn]]]; [lia..|].
  destruct (ty =? CT_HANDSHAKE); [|].
  - apply wp_bind, wp_gets. apply wp_bind. pose proof (plain_len _ H1) as Hpl. unfold wp at 1, lift at 1. rewrite slice_some by lia.
    set (l := take _ _). assert (Hl : length l = Z.to_nat n) by (unfold l; rewrite length_take, length_drop; lia).
    unfold hs_append, the, upd, err, err_set. wp_pure. unfold MAX_CIPHER, MAX_PLAIN in *.
    eapply safe_wp; [apply (safe_append (hs (tls s1)) l); [apply H1|lia]|done|]. intros [e b] s2 H2 (F1 & F2 & F3) (G1 & G2 & G3). cbn [fst snd] in *. wp_pure.
    assert (H3 : tls_ok (set_hs b 0 (tls s2))) by (destruct H2 as [[] _]; constructor; cbn; try done; unfold len; lia).
    rewrite Xo, Ho. destruct (Z.eqb_spec e 0) as [->|He]; cbn [negb].
    + wp_pure. cbn. split_and!; [done|rewrite F1; lia|done| |rewrite F1; lia]. unfold left. cbn. rewrite G2, length_app, Hl, Ho, Xh, ?F1 by done. lia.
    + wp_pure. cbn. split_and!; [done|rewrite F1; lia|by right; left|done].
  - destruct (ty =? CT_ALERT); unfold err, err_set; wp_pure.
    + eapply safe_wp; [apply (safe_handle_alert n); lia|done|]. intros r s2 H2 F Hr. wp_pure. destruct F as (-> & _). destruct Hr as [-> | ->]; split_and!; done || (by left) || (by right; left).
    + cbn. split_and!; [done|done|by right; left|done].
Qed.

(** The consumed message is dropped; nothing else is lost. *)
Lemma compact_safe s : sok s ->
  wp hs_compact s
    (fun _ s' => sok s' /\ rin s' = rin s /\ hs_off (tls s') = 0 /\ left s' = left s).
Proof.
  intros Hs. unfold hs_compact, the, upd. wp_pure. pose proof (hs_off_in _ Hs) as Ho. rewrite Z.gtb_ltb.
  destruct (Z.ltb_spec 0 (hs_off (tls s))); [|wp_pure; by split_and!; [..|lia|]].
  wp_pure. unfold wp at 1, lift at 1. unfold len in *. rewrite slice_some by lia. wp_pure. cbn [tls rin].
  assert (El : length (take (Z.to_nat (Z.of_nat (length (data (hs (tls s)))) - hs_off (tls s))) (drop (Z.to_nat (hs_off (tls s))) (data (hs (tls s))))) =
    (length (data (hs (tls s))) - Z.to_nat (hs_off (tls s)))%nat) by (rewrite length_take, length_drop; lia).
  split_and!; [|done|done|].
  - apply sok_new; [done|]. destruct Hs as [[? ? ? ? [Hc1 Hc2] ? ? ? ?] _]. constructor; cbn; try done; [|unfold len; cbn; lia]. split; [|done]. unfold len in *. cbn in *. lia.
  - unfold left. cbn. rewrite El. lia.
Qed.

Lemma hs_body_safe s : sok s ->
  wp (hs_body tt) s (fun a s' => sok s' /\
    match a with inl _ => (left s' <= left s)%nat /\ (pending (rin s') < pending (rin s))%nat
               | inr m => msg_ok m /\ (m.1 = 1 -> (left s' + 4 <= left s)%nat) end).
Proof.
  intros Hs. unfold hs_body. apply wp_bind. eapply wp_mono; [by apply compact_safe|]. intros _ s1 (H1 & R1 & O1 & L1). rewrite <- L1, <- R1. clear Hs R1 L1.
  assert (Hrec : wp hs_receive s1 (fun a s' => sok s' /\
    match a with inl _ => (left s' <= left s1)%nat /\ (pending (rin s') < pending (rin s1))%nat
               | inr m => msg_ok m /\ (m.1 = 1 -> (left s' + 4 <= left s1)%nat) end)).
  { eapply wp_mono; [by apply hs_receive_safe|]. intros [a|m] s2 (H2 & _ & H3); [by destruct H3 as (_ & ? & ?)|]. destruct H3. by split_and!. }
  unfold the, upd. wp_pure. unfold len in *. rewrite Z.geb_leb. destruct (Z.leb_spec 4 (Z.of_nat (length (data (hs (tls s1)))))); [|done].
  wp_pure. destruct (be24_some (data (hs (tls s1))) 1) as (mlen & E & Hm); [lia..|]. unfold wp at 1, lift at 1. rewrite E.
  rewrite Z.gtb_ltb. destruct (Z.ltb_spec MAX_HANDSHAKE mlen).
  { unfold err, err_set. wp_pure. split_and!; [done|by right; left|done]. }
  rewrite Z.geb_leb. destruct (Z.leb_spec (4 + mlen) (Z.of_nat (length (data (hs (tls s1)))))); [|done].
  wp_pure. destruct (byte_some (data (hs (tls s1))) 0) as (ty & E0 & _); [lia|]. unfold wp at 1, lift at 1. rewrite E0. wp_pure.
  unfold wp at 1, lift at 1. rewrite slice_some by lia. wp_pure. cbn [tls rin fst snd]. split_and!.
  - apply sok_new; [done|]. destruct H1 as [[] _]. constructor; cbn; try done. unfold len. lia.
  - right. right. split; [done|]. cbn [fst snd]. change (Z.to_nat 0) with 0%nat. rewrite drop_0, length_take. lia.
  - intros _. unfold left. cbn. rewrite O1. lia.
Qed.

Lemma wp_hs_next s : sok s ->
  wp hs_next s (fun a s' => sok s' /\ msg_ok a /\ (a.1 = 1 -> (left s' + 4 <= left s)%nat)).
Proof.
  intros Hs. unfold hs_next. apply wp_bind, wp_gets.
  eapply (wp_loop_ghost (fun (g : nat) _ s' => sok s' /\ (left s' <= left s)%nat /\ pending (rin s') = g) id).
  - intros g [] s1 (H1 & L1 & <-). eapply wp_mono; [by apply hs_body_safe|]. intros [[]|m] s2 (H2 & H3).
    + exists (pending (rin s2)). unfold id. split_and!; [done|lia|done|lia].
    + destruct H3 as [H3 H4]. split_and!; [done..|]. intros E. specialize (H4 E). lia.
  - by split_and!.
  - unfold id. lia.
Qed.

(** ** Parsers *)

Lemma sh_loop_total fuel b o ends v k : 0 <= o -> ends <= Z.of_nat (length b) -> (Z.to_nat (ends - o) < fuel)%nat ->
  exists r, sh_loop fuel b o ends v k = Some r.
Proof.
  revert o v k. induction fuel as [|fuel IH]; intros o v k Ho He Hf; [lia|]. cbn [sh_loop].
  destruct (Z.leb_spec (o + 4) ends); [|eauto]. destruct (be16_some b o) as (ty & -> & _); [lia..|].
  destruct (be16_some b (o + 2)) as (el & -> & Hel); [lia..|]. cbn [mbind option_bind]. cbv zeta. rewrite Z.gtb_ltb.
  destruct (Z.ltb_spec ends (o + 4 + el)); [eauto|].
  assert (Hrec : forall v k, exists r, sh_loop fuel b (o + 4 + el) ends v k = Some r) by (intros; apply IH; lia).
  destruct (ty =? 43); [|destruct (ty =? 51); [|done]].
  - destruct (Z.eqb_spec el 2) as [->|]; cbn [mbind option_bind]; [|done]. destruct (be16_some b (o + 4)) as (x & -> & _); [lia..|]. cbn [mbind option_bind]. apply Hrec.
  - rewrite Z.geb_leb. destruct (Z.leb_spec (4 + 32) el); [|done]. destruct (be16_some b (o + 4)) as (g & -> & _); [lia..|].
    destruct (be16_some b (o + 4 + 2)) as (kl & -> & _); [lia..|]. cbn [mbind option_bind]. destruct (_ && _); [|done].
    rewrite slice_some by lia. cbn [mbind option_bind]. done.
Qed.

Lemma parse_server_hello_total b : exists r, parse_server_hello b = Some r.
Proof.
  unfold parse_server_hello. cbv zeta. destruct (Z.ltb_spec (Z.of_nat (length b)) (2 + 32 + 1)); [eauto|].
  rewrite slice_some by lia. cbn [mbind option_bind]. case_bool_decide; [eauto|]. destruct (byte_some b 34) as (sid & -> & Hsid); [lia|].
  cbn [mbind option_bind]. rewrite !Z.gtb_ltb. destruct (Z.ltb_spec (Z.of_nat (length b)) (35 + sid + 3)); [eauto|].
  destruct (be16_some b (35 + sid)) as (su & -> & _); [lia..|]. cbn [mbind option_bind]. case_match; [eauto|].
  destruct (Z.ltb_spec (Z.of_nat (length b)) (35 + sid + 2 + 1 + 2)); [eauto|].
  destruct (be16_some b (35 + sid + 2 + 1)) as (el & -> & Hel); [lia..|]. cbn [mbind option_bind]. rewrite !Z.gtb_ltb.
  destruct (Z.ltb_spec (Z.of_nat (length b)) (35 + sid + 2 + 1 + 2 + el)); [eauto|].
  edestruct sh_loop_total as [r ->]; [| | |cbn [mbind option_bind]; destruct r as [|[[] []]]; eauto]; lia.
Qed.

Lemma safe_be24 b o : 0 <= o -> o + 3 <= Z.of_nat (length b) -> safe (lift (be24 b o)) (fun x => 0 <= x < 16777216).
Proof. intros. apply safe_lift. destruct (be24_some b o) as (x & -> & ?); eauto. Qed.

Lemma safe_be16 b o : 0 <= o -> o + 2 <= Z.of_nat (length b) -> safe (lift (be16 b o)) (fun x => 0 <= x < 65536).
Proof. intros. apply safe_lift. destruct (be16_some b o) as (x & -> & ?); eauto. Qed.

Lemma safe_byte b o : 0 <= o < Z.of_nat (length b) -> safe (lift (byte b o)) (fun x => 0 <= x < 256).
Proof. intros. apply safe_lift. destruct (byte_some b o) as (x & -> & ?); eauto. Qed.

Lemma safe_set_chain c : gb_ok c -> safe (upd (set_chain c)) any.
Proof. intros Hc. apply safe_upd. intros t []. split_and!; [by constructor|done..]. Qed.

Lemma safe_fail m : safe (err m) any.
Proof. eapply safe_mono; [apply safe_err|]. done. Qed.

Lemma cert_loop_safe fuel b o ends : 0 <= o -> ends <= Z.of_nat (length b) -> Z.of_nat (length b) <= 2 ^ 24 -> (Z.to_nat (ends - o) < fuel)%nat ->
  safe (cert_loop fuel b o ends) any.
Proof.
  revert o. induction fuel as [|fuel IH]; intros o Ho He Hb Hf; [lia|]. cbn [cert_loop]. rewrite !Z.gtb_ltb.
  destruct (Z.ltb_spec o ends); [|by apply safe_ret]. destruct (Z.ltb_spec ends (o + 3)); [apply safe_fail|].
  via (apply safe_be24; lia). intros cl Hcl. cbv zeta. rewrite !Z.gtb_ltb. destruct (Z.ltb_spec ends (o + 3 + cl)); cbn [orb]; [apply safe_fail|].
  destruct (cl =? 0); [apply safe_fail|]. via (apply safe_slice; lia). intros l Hl.
  eapply safe_bind; [apply (safe_the chain gb_ok); intros t []; done|]. intros c Hc.
  via (apply safe_append; [done|lia]). intros [r c'] (Hc' & _). cbn [fst snd] in *. via (by apply safe_set_chain). intros _ _.
  safe_step; [|apply safe_fail]. destruct (Z.ltb_spec ends (o + 3 + cl + 2)); [apply safe_fail|].
  via (apply safe_be16; lia). intros el Hel. rewrite Z.gtb_ltb. destruct (Z.ltb_spec ends (o + 3 + cl + 2 + el)); [apply safe_fail|]. apply IH; lia.
Qed.

Lemma safe_handle_certificate b : Z.of_nat (length b) <= 2 ^ 24 -> safe (handle_certificate b) any.
Proof.
  intros Hb. unfold handle_certificate. cbv zeta. destruct (Z.ltb_spec (Z.of_nat (length b)) 4); [apply safe_fail|].
  via (apply safe_byte; lia). intros cx Hcx. rewrite Z.gtb_ltb. destruct (Z.ltb_spec (Z.of_nat (length b)) (1 + cx + 3)); [apply safe_fail|].
  via (apply safe_be24; lia). intros ll Hll. rewrite Z.gtb_ltb. destruct (Z.ltb_spec (Z.of_nat (length b)) (1 + cx + 3 + ll)); [apply safe_fail|].
  via (apply cert_loop_safe; lia). intros r _. safe_step; [|by apply safe_ret]. safe_step. safe_step; [apply safe_fail|by apply safe_ret].
Qed.

Lemma safe_handle_certificate_verify b : safe (handle_certificate_verify b) any.
Proof.
  unfold handle_certificate_verify. cbv zeta. destruct (Z.ltb_spec (Z.of_nat (length b)) 4); [apply safe_fail|].
  via (apply safe_be16; lia). intros sc _. via (apply safe_be16; lia). intros sl Hsl. rewrite Z.gtb_ltb.
  destruct (Z.ltb_spec (Z.of_nat (length b)) (4 + sl)); [apply safe_fail|]. safe_step. safe_step; [apply safe_fail|].
  via (apply safe_gets). intros [[|x ro]|] _; [apply safe_fail| |apply safe_fail]. via (apply safe_transcript). intros [e th] _.
  safe_step; [|by apply safe_ret]. via (apply safe_slice; lia). intros sig _. safe_step. via (apply safe_x509). intros e' _.
  safe_step; [by apply safe_ret|apply safe_fail].
Qed.

(** ** Handshake *)

Lemma flight_body_safe f s : sok s ->
  wp (flight_body f) s (fun a s' => sok s' /\ match a with inl _ => (left s' < left s)%nat | inr _ => True end).
Proof.
  intros Hs. destruct f as [[ee cert] cv]. unfold flight_body. apply wp_bind. eapply wp_mono; [by apply wp_hs_next|].
  intros [r [ty m]] s1 (H1 & Hm & Hl). unfold msg_ok in Hm. cbn [fst snd] in *. cbv zeta. destruct (Z.leb_spec r 0); [by wp_pure|].
  destruct Hm as [|[|[-> Hm]]]; [lia..|]. specialize (Hl eq_refl). unfold MAX_HANDSHAKE in Hm.
  assert (Hd : Z.of_nat (length (drop 4 m)) <= 2 ^ 24) by (rewrite length_drop; lia).
  eapply (safe_wp _ any); [|done|intros [] s' H2 F _; (split; [done|])].
  2:{ by rewrite (left_frame _ _ F); lia. }
  2:{ done. }
  destruct (ty =? HS_ENCRYPTED_EXTENSIONS); [|destruct (ty =? HS_CERTIFICATE); [|destruct (ty =? HS_CERTIFICATE_VERIFY); [|destruct (ty =? HS_FINISHED)]]].
  - via (apply safe_tr_add; lia). intros r _. safe_step; [by apply safe_ret|]. via (apply safe_fail). intros. by apply safe_ret.
  - via (by apply safe_handle_certificate). intros r _. safe_step; [|by apply safe_ret].
    via (apply safe_tr_add; lia). intros r' _. safe_step; [by apply safe_ret|]. via (apply safe_fail). intros. by apply safe_ret.
  - via (by apply safe_handle_certificate_verify). intros r _. safe_step; [|by apply safe_ret].
    via (apply safe_tr_add; lia). intros r' _. safe_step; [by apply safe_ret|]. via (apply safe_fail). intros. by apply safe_ret.
  - safe_step; [|via (apply safe_fail); intros; by apply safe_ret]. safe_step. via (apply safe_finished). intros [e x] _. safe_step; [|by apply safe_ret].
    safe_step; [|via (apply safe_fail); intros; by apply safe_ret].
    via (apply safe_tr_add; lia). intros r' _. safe_step; [by apply safe_ret|]. via (apply safe_fail). intros. by apply safe_ret.
  - via (apply safe_fail). intros. by apply safe_ret.
Qed.

Lemma safe_append_all b ls : gb_ok b -> Forall (fun l : str => Z.of_nat (length l) <= 2 ^ 24) ls ->
  safe (append_all b ls) (fun a => gb_ok a.2 /\ (a.1 = 0 -> data a.2 = data b ++ concat ls)).
Proof.
  intros Hb Hls. revert b Hb. induction Hls as [|l ls Hl _ IH]; intros b Hb; cbn [append_all]; [apply safe_ret; split; [done|]; by rewrite app_nil_r|].
  via (by apply safe_append). intros [r b'] (Hb' & E & _). cbn [fst snd] in *. destruct (Z.eqb_spec r 0) as [->|]; cbn [negb]; [|by apply safe_ret].
  eapply safe_mono; [by apply IH|]. intros [r' b2] [H2 E2]. cbn [fst snd] in *. split; [done|]. intros Hr. rewrite E2, E by done. cbn. by rewrite app_assoc.
Qed.

Ltac lens := repeat apply Forall_cons_2; try apply Forall_nil_2; cbn; try lia; done.

Lemma safe_oom b e : safe (oom b e) (fun a => a.1 = -1).
Proof. unfold oom. repeat safe_step. done. Qed.

Lemma safe_client_hello pub : length pub = 32%nat -> safe (build_client_hello pub) (fun a => a.1 = 0 -> Z.of_nat (length (data a.2)) <= 2 ^ 20).
Proof.
  intros Hpub. unfold build_client_hello. cbv zeta. via (apply safe_random). intros [e rnd] Hrnd. cbn [fst snd] in Hrnd.
  assert (Hno : safe (let* _ := err_set (txt "no randomness available") in ret (-1, no_buf)) (fun a : Z * gbuf => a.1 = 0 -> Z.of_nat (length (data a.2)) <= 2 ^ 20)) by (by repeat safe_step).
  assert (Ho : forall b e, safe (oom b e) (fun a : Z * gbuf => a.1 = 0 -> Z.of_nat (length (data a.2)) <= 2 ^ 20)).
  { intros. eapply safe_mono; [apply safe_oom|]. cbn. intros a ->. done. }
  safe_step; [|done]. via (apply safe_random). intros [e' sid] Hsid. cbn [fst snd] in Hsid. safe_step; [|done].
  via (apply safe_append_all; [apply gb_ok_nil|lens]). intros [r body] [Hbody Ebody]. cbn [fst snd] in *. safe_step; [|apply Ho].
  apply Z.eqb_eq in Heqb1 as ->. specialize (Ebody eq_refl).
  via (apply (safe_the hostname (fun h => (length h <= 255)%nat)); by intros t []). intros h Hh.
  via (apply safe_append_all; [apply gb_ok_nil|lens]). intros [r x] [Hx Ex]. cbn [fst snd] in *.
  destruct (Z.eqb_spec r 0) as [->|]; cbn [negb orb]; [|via (apply safe_free); intros; apply Ho]. specialize (Ex eq_refl).
  safe_step; [via (apply safe_free); intros; apply Ho|].
  assert (Lx : (length (data x) <= 300)%nat) by (rewrite Ex; cbn; rewrite !length_app; cbn; lia).
  via (apply safe_append_all; [apply gb_ok_nil|lens]). intros [r2 ext] [Hext Eext]. cbn [fst snd] in *.
  via (apply safe_free). intros _ _. destruct (Z.eqb_spec r2 0) as [->|]; cbn [negb]; [|apply Ho]. specialize (Eext eq_refl).
  via (apply safe_append_all; [done|lens]). intros [r3 ext'] [Hext' Eext']. cbn [fst snd] in *.
  destruct (Z.eqb_spec r3 0) as [->|]; cbn [negb]; [|apply Ho]. specialize (Eext' eq_refl).
  assert (Le : (length (data ext') <= 500)%nat) by (rewrite Eext', Eext; cbn; rewrite !length_app; cbn; rewrite !length_app; cbn; lia).
  via (apply safe_append_all; [done|lens]). intros [r4 body'] [Hbody' Ebody']. cbn [fst snd] in *.
  destruct (Z.eqb_spec r4 0) as [->|]; cbn [negb]; [|apply Ho]. specialize (Ebody' eq_refl).
  assert (Lb : (length (data body') <= 1000)%nat) by (rewrite Ebody', Ebody; cbn; rewrite !length_app; cbn; rewrite !length_app; cbn; lia).
  via (apply safe_free). intros _ _. via (apply safe_append_all; [apply gb_ok_nil|lens]). intros [r5 msg] [Hmsg Emsg]. cbn [fst snd] in *.
  destruct (Z.eqb_spec r5 0) as [->|]; cbn [negb]; [|via (apply safe_free); intros; apply Ho]. specialize (Emsg eq_refl).
  via (apply safe_free). intros _ _. apply safe_ret. cbn. intros _. rewrite Emsg. cbn. rewrite !length_app. cbn. lia.
Qed.

(** The same without the frame, for what receives. *)
Definition total {A} (c : C A) (Q : A -> Prop) : Prop := forall s, sok s -> wp c s (fun a s' => sok s' /\ Q a).

Lemma total_safe {A} (c : C A) (Q : A -> Prop) : safe c Q -> total c Q.
Proof. intros H s Hs. eapply wp_mono; [by apply H|]. intros a s' (? & _ & ?). done. Qed.

Lemma total_bind {A B} (c : C A) (k : A -> C B) (P : A -> Prop) (Q : B -> Prop) : total c P -> (forall a, P a -> total (k a) Q) -> total (bind c k) Q.
Proof. intros Hc Hk s Hs. apply wp_bind. eapply wp_mono; [by apply Hc|]. intros a s' [H1 H2]. by apply Hk. Qed.

Lemma total_assoc {A B E} (c : C A) (k : A -> C B) (k' : B -> C E) Q : total (bind (bind c k) k') Q -> total (bind c (fun a => bind (k a) k')) Q.
Proof. intros H s Hs. specialize (H s Hs). unfold wp, bind in *. by destruct (c s) as [[]|]. Qed.

Lemma total_mono {A} (c : C A) (P Q : A -> Prop) : total c P -> (forall a, P a -> Q a) -> total c Q.
Proof. intros H HPQ s Hs. eapply wp_mono; [by apply H|]. intros a s' [? ?]. auto. Qed.

Tactic Notation "then_" tactic3(tac) := eapply total_bind; [solve [tac]|cbv beta].
Tactic Notation "on_code" constr(e) := destruct (Z.eqb_spec e 0) as [->|]; cbn [negb]; [|solve [apply total_safe; first [by apply safe_ret|apply safe_fail]]].

Lemma total_hs_next : total hs_next msg_ok.
Proof. intros s Hs. eapply wp_mono; [by apply wp_hs_next|]. intros a s' (? & ? & _). done. Qed.

Lemma total_flight : total (let* n := gets hs_left in loop (S n) flight_body (false, false, false)) any.
Proof.
  intros s Hs. apply wp_bind, wp_gets.
  eapply (wp_loop_ghost (fun (g : nat) _ s' => sok s' /\ left s' = g) id).
  - intros g f s1 (H1 & <-). eapply wp_mono; [by apply flight_body_safe|]. intros [f'|r] s2 (H2 & H3); [|done]. by exists (left s2).
  - done.
  - unfold id, left, hs_left. lia.
Qed.

Lemma safe_switch f : (forall t, tls_ok t -> tls_ok (f t) /\ hs (f t) = hs t /\ hs_off (f t) = hs_off t) -> total (upd f) any.
Proof. intros H. by apply total_safe, safe_upd. Qed.

Lemma total_handshake : total do_handshake any.
Proof.
  unfold do_handshake. then_ (apply total_safe, safe_random). intros [e priv] _. on_code e.
  then_ (apply total_safe, safe_derive). intros [e pub] Hpub. on_code e. cbn [fst snd] in Hpub.
  then_ (apply total_safe, safe_client_hello; auto). intros [r ch] Hch. on_code r. cbn [fst snd] in Hch. specialize (Hch eq_refl).
  then_ (apply total_safe, safe_tr_add; lia). intros r _. destruct (Z.eqb_spec r 0) as [->|]; cbn [negb].
  2:{ then_ (apply total_safe, safe_free). intros. apply total_safe, safe_fail. }
  then_ (apply total_safe, safe_send_record). intros r _. then_ (apply total_safe, safe_free). intros _ _. on_code r.
  then_ (apply total_hs_next). intros [r [ty m]] Hm. unfold msg_ok in Hm. cbn [fst snd] in Hm. destruct (Z.leb_spec r 0); [by apply total_safe, safe_ret|].
  destruct Hm as [|[|[-> Hm]]]; [lia..|]. unfold MAX_HANDSHAKE in Hm. destruct (ty =? HS_SERVER_HELLO); cbn [negb]; [|apply total_safe, safe_fail].
  destruct (parse_server_hello_total (drop 4 m)) as [p Ep]. rewrite Ep.
  then_ (apply total_safe, (safe_lift _ any); by exists p). intros [msg|peer] _; [apply total_safe, safe_fail|].
  then_ (apply total_safe, safe_tr_add; lia). intros r _. on_code r.
  then_ (apply total_safe, safe_derive). intros [e shared] _. on_code e.
  then_ (apply total_safe, safe_handshake_keys). intros e _. on_code e.
  then_ (apply safe_switch; intros t []; split_and!; [by constructor|done..]). intros _ _.
  apply total_assoc.   then_ (apply total_flight). intros [r|[[ee cert] cv]] _; [by apply total_safe, safe_ret|].
  destruct (_ || _); [apply total_safe, safe_fail|].
  then_ (apply total_safe, safe_application_keys). intros e _. on_code e.
  then_ (apply total_safe, (safe_the _ any); done). intros sec _. then_ (apply total_safe, safe_finished). intros [e vd] _. on_code e.
  then_ (apply total_safe, safe_send_record). intros r _. on_code r.
  then_ (apply safe_switch; intros t []; split_and!; [by constructor|done..]). intros _ _.
  then_ (apply total_safe, (safe_the _ any); done). intros b _. then_ (apply total_safe, safe_free). intros _ _.
  then_ (apply safe_switch; intros t []; split_and!; [constructor; try done; apply gb_ok_nil|done..]). intros _ _.
  then_ (apply total_safe, (safe_the _ any); done). intros b' _. then_ (apply total_safe, safe_free). intros _ _.
  then_ (apply safe_switch; intros t []; split_and!; [constructor; try done; apply gb_ok_nil|done..]). intros _ _.
  by apply total_safe, safe_ret.
Qed.

(** ** After the handshake *)

Lemma post_loop_safe fuel o n : 0 <= o -> n <= MAX_CIPHER -> (Z.to_nat (n - o) < fuel)%nat -> safe (post_loop fuel o n) any.
Proof.
  revert o. induction fuel as [|fuel IH]; intros o Ho Hn Hf; [lia|]. cbn [post_loop]. destruct (Z.leb_spec (o + 4) n); [|by apply safe_ret].
  via (apply safe_plain). intros d Hd. via (apply safe_byte; lia). intros mt _. via (apply safe_be24; lia). intros ml Hml. cbv zeta.
  rewrite Z.gtb_ltb. destruct (Z.ltb_spec n (o + 4 + ml)); [apply safe_fail|]. assert (Hrec : safe (post_loop fuel (o + 4 + ml) n) any) by (apply IH; lia).
  destruct (mt =? HS_NEW_SESSION_TICKET); [done|]. destruct (mt =? HS_KEY_UPDATE); [|apply safe_fail].
  destruct (Z.eqb_spec ml 1) as [->|]; cbn [negb]; [|apply safe_fail]. via (apply safe_byte; lia). intros rq _.
  via (apply safe_key_update). intros e _. safe_step; [|apply safe_fail]. destruct (rq =? 1); [|done].
  via (apply safe_send_record). intros r _. safe_step; [|by apply safe_ret]. via (apply safe_key_update). intros e' _. safe_step; [done|apply safe_fail].
Qed.

Lemma safe_post n : n <= MAX_CIPHER -> safe (handle_post_handshake n) any.
Proof. intros Hn. apply post_loop_safe; lia. Qed.

Lemma safe_set_app a l o : Z.of_nat (length a) = MAX_CIPHER -> 0 <= o -> l <= MAX_CIPHER -> safe (upd (set_app a l o)) any.
Proof. intros. apply safe_upd. intros t []. split_and!; [by constructor|done..]. Qed.

Lemma read_body_safe n s : 0 < n -> sok s ->
  wp (read_body n tt) s (fun a s' => sok s' /\ match a with inl _ => (pending (rin s') < pending (rin s))%nat | inr _ => True end).
Proof.
  intros Hn Hs. unfold read_body, the. wp_pure. pose proof (app_arr_len _ Hs) as Ha. pose proof (app_in _ Hs) as Hi.
  destruct (Z.ltb_spec (app_off (tls s)) (app_len (tls s))).
  { eapply (safe_wp _ (fun a => exists x, a = inr x)); [|done|intros a s' ? _ [x ->]; done]. via (apply safe_slice; lia). intros out _.
    via (case_match; apply safe_set_app; lia). intros. apply safe_ret. eauto. }
  wp_pure. eapply wp_mono; [by apply wp_recv_record|]. intros [r [ty g]] s1 (H1 & X1 & Hr & Hp). cbn [fst snd rec_ok] in *.
  destruct (Z.leb_spec r 0).
  { eapply (safe_wp _ (fun a => exists x, a = inr x)); [|done|intros a s' ? _ [x ->]; done].
    via (destruct (r <? 0); [by apply safe_errno|by apply safe_ret]). intros _ _. via (destruct (r =? 0); [apply safe_set_state|by apply safe_ret]). intros _ _. apply safe_ret. eauto. }
  assert (r = 1) as -> by lia. specialize (Hp eq_refl). assert (Hg : 0 <= g <= MAX_CIPHER) by lia.
  eapply (safe_wp _ any); [|done|intros [] s' ? (F & _) _; (split; [done|]); [rewrite F; lia|done]].
  destruct (ty =? CT_APP); [|destruct (ty =? CT_HANDSHAKE); [|destruct (ty =? CT_ALERT)]].
  - via (apply safe_plain). intros p Hpl. via (apply safe_slice; lia). intros out _.
    via (destruct (Z.ltb_spec (Z.min g n) g); [via (apply safe_slice; lia); intros rest Hrest; via (apply (safe_blit _ _ _ MAX_CIPHER); lia); intros a Hal; apply safe_set_app; lia|by apply safe_ret]).
    intros _ _. by apply safe_ret.
  - via (apply safe_post; lia). intros r _. safe_step; [by apply safe_ret|]. via (by apply safe_errno). intros. by apply safe_ret.
  - via (apply safe_handle_alert; lia). intros r _. safe_step; [by apply safe_ret|]. via (by apply safe_errno). intros. by apply safe_ret.
  - via (apply safe_fail). intros _ _. via (by apply safe_errno). intros. by apply safe_ret.
Qed.

Lemma total_read t b n : 0 <= n -> total (cact_tls_read t b n) any.
Proof.
  intros Hn. unfold cact_tls_read. destruct (_ || _); [then_ (by apply total_safe, safe_errno); intros; by apply total_safe, safe_ret|].
  then_ (apply total_safe, (safe_the _ any); done). intros x _.
  assert (total (if n =? 0 then ret (0, []) else let* q := gets rin in loop (S (pending q)) (read_body n) tt) any).
  { destruct (Z.eqb_spec n 0); [by apply total_safe, safe_ret|]. intros s Hs. apply wp_bind, wp_gets.
    eapply (wp_loop_ghost (fun (g : nat) _ s' => sok s' /\ pending (rin s') = g) id); [|done|unfold id; lia].
    intros g [] s1 (H1 & <-). eapply wp_mono; [apply read_body_safe; [lia|done]|]. intros [[]|r] s2 (H2 & H3); [|done]. by exists (pending (rin s2)). }
  destruct x; [done..|by apply total_safe, safe_ret].
Qed.

Lemma total_write t b : total (cact_tls_write t b) any.
Proof.
  unfold cact_tls_write. apply total_safe. destruct (_ || _); [via (by apply safe_errno); intros; by apply safe_ret|]. safe_step. cbv zeta.
  assert (Hw : forall l r, safe (let* x := send_record CT_APP l in if negb (x =? 0) then let* _ := set_errno Crypto.EIO in ret (-1) else ret r) any).
  { intros. via (apply safe_send_record). intros x _. safe_step; [by apply safe_ret|]. via (by apply safe_errno). intros. by apply safe_ret. }
  destruct a; [apply Hw..|]. via (by apply safe_errno). intros. by apply safe_ret.
Qed.

Lemma total_close t : total (cact_tls_close t) any.
Proof.
  unfold cact_tls_close. apply total_safe. destruct t; cbn [negb]; [|via (by apply safe_errno); intros; by apply safe_ret]. safe_step.
  eapply (safe_bind _ _ any).
  - destruct a; [via (apply safe_send_record); intros; via (apply safe_set_state); intros; by apply safe_ret..|by apply safe_ret].
  - intros r _. via (unfold release; repeat safe_step; apply safe_live). intros. by apply safe_ret.
Qed.

(** ** Whole sessions *)

Inductive call := Read (n : Z) | Write (buf : Crypto.ptr).

Fixpoint calls (l : list call) : C unit :=
  match l with
  | [] => ret tt
  | Read n :: l => let* _ := cact_tls_read true true n in calls l
  | Write b :: l => let* _ := cact_tls_write true b in calls l
  end.

Definition session (fd : Z) (host : option str) (l : list call) : C bool :=
  let* ok := cact_tls_connect fd host in
  if (ok : bool) then let* _ := calls l in let* _ := cact_tls_close true in ret true else ret false.

Lemma total_calls l : Forall (fun c => match c with Read n => 0 <= n | Write _ => True end) l -> total (calls l) any.
Proof.
  induction 1 as [|[n|b] l Hc _ IH]; cbn [calls]; [by apply total_safe, safe_ret| |].
  - then_ (by apply total_read). done.
  - then_ (apply total_write). done.
Qed.

Lemma fresh_ok fd host : (length host <= 255)%nat -> tls_ok (fresh fd host).
Proof.
  intros Hh. unfold fresh. constructor; cbn [rec plain app app_len app_off hs tr chain hs_off hostname]; try apply gb_ok_nil; done.
Qed.

(** Before there is a connection, only the socket and [errno] matter. *)
Definition keeps_calm {A} (c : C A) : Prop := forall s, calm s -> wp c s (fun _ s' => calm s').

Lemma calm_malloc n : keeps_calm (malloc n).
Proof. intros s Hs. unfold malloc, alloc, live_add. apply wp_bind. unfold wp at 1. case_match; wp_pure; done. Qed.

Lemma calm_roots : keeps_calm ensure_roots.
Proof. intros s Hs. unfold ensure_roots, set_roots, err, err_set, live_add. wp_pure. repeat case_match; wp_pure; done. Qed.

Lemma connect_total fd host s : calm s -> wp (cact_tls_connect fd host) s (fun ok s' => ok = true -> sok s').
Proof.
  intros Hs. unfold cact_tls_connect, err, err_set. destruct (_ || _); [by wp_pure|]. rewrite Z.gtb_ltb. destruct (Z.ltb_spec 256 (Z.of_nat (length (default [] host)) + 1)); [by wp_pure|].
  apply wp_bind. eapply wp_mono; [by apply calm_roots|]. intros r s1 H1. case_match; [by wp_pure|].
  apply wp_bind. eapply wp_mono; [by apply calm_malloc|]. intros [] s2 H2; cbn [negb]; [|by wp_pure].
  apply wp_bind. eapply wp_mono; [by apply calm_malloc|]. intros a s3 H3. apply wp_bind. eapply wp_mono; [by apply calm_malloc|]. intros b s4 H4.
  apply wp_bind. eapply wp_mono; [by apply calm_malloc|]. intros c s5 H5. destruct (_ || _); [unfold live_add; by wp_pure|].
  unfold upd. wp_pure. eapply wp_mono; [apply total_handshake; constructor; [apply fresh_ok; lia|done]|]. intros r2 s6 [H6 _]. case_match; [|by wp_pure].
  apply wp_bind. eapply (wp_mono _ _ (fun _ _ => True)); [|intros; by wp_pure].
  unfold release, the, live_add, free. wp_pure. repeat (case_match; unfold live_add; wp_pure); done.
Qed.

(** C13: the client returns from every session: whatever the server sends, in
    whatever pieces, whether it then closes or the socket fails for ever,
    whatever the device answers and whichever allocations fail, connecting, any
    sequence of reads and writes and closing never leave an array and never loop
    for ever.  The code repeats a failing call while [errno] is EINTR, which
    neither [read] nor [write] sets; so on a socket that fails for ever the
    theorem asks that [errno] is not EINTR at the start and that the device does
    not answer EINTR ([stale_eintr_spins] shows the need).  No allocation of
    2 GiB or more is granted. *)
Theorem client_total fd host l s : calm s ->
  Forall (fun c => match c with Read n => 0 <= n | Write _ => True end) l -> exists ok s', session fd host l s = Some (ok, s').
Proof.
  intros Hs Hl. enough (wp (session fd host l) s (fun _ _ => True)) as W by (destruct (wp_total _ _ _ W) as (a & s' & E & _); eauto).
  unfold session. apply wp_bind. eapply wp_mono; [by apply connect_total|]. intros [] s1 H1; [|by wp_pure]. specialize (H1 eq_refl).
  apply wp_bind. eapply wp_mono; [by apply total_calls|]. intros _ s2 [H2 _]. apply wp_bind. eapply wp_mono; [by apply total_close|]. intros. by wp_pure.
Qed.
End Safe.
End TlsSafe.
