(* ===== verification/TlsPem.v ===== *)
(** * TlsPem: loading a bundle of trust anchors

    The bundles that openssl and the distributions write: comments, and
    certificates in base64 between two marker lines.  Loading such a file gives
    the certificates, one after the other, in whatever pieces the file is read
    and wherever the base64 is broken into lines. *)

From Stdlib Require Import ZArith Lia Bool String Ascii.
From stdpp Require Import base list numbers sets.
From S2P Require Import Prelude Dlfcn TlsRoots TlsSafe.

Module TlsPem.
Import TlsRoots.

(** ** Base64, RFC 4648 *)

Definition b64_char (v : Z) : Z :=
  if v <? 26 then 65 + v else if v <? 52 then 97 + (v - 26) else if v <? 62 then 48 + (v - 52) else if v =? 62 then 43 else 47.

Fixpoint b64_encode (l : str) : str :=
  match l with
  | [] => []
  | [a] => [b64_char (a / 4); b64_char (a mod 4 * 16); 61; 61]
  | [a; b] => [b64_char (a / 4); b64_char (a mod 4 * 16 + b / 16); b64_char (b mod 16 * 4); 61]
  | a :: b :: c :: l =>
      [b64_char (a / 4); b64_char (a mod 4 * 16 + b / 16); b64_char (b mod 16 * 4 + c / 64); b64_char (c mod 64)] ++ b64_encode l
  end.

Definition byte_ok (b : Z) : Prop := 0 <= b < 256.

(** What is needed of a character, by looking at all of them. *)
Lemma b64_char_ok v : 0 <= v < 64 ->
  b64_val (b64_char v) = v /\ b64_char v <> 61 /\ b64_char v <> 45 /\ b64_char v <> 10.
Proof.
  intros Hv. assert (H : forallb (fun n => let v := Z.of_nat n in let c := b64_char v in
    (b64_val c =? v) && negb (c =? 61) && negb (c =? 45) && negb (c =? 10)) (List.seq 0 64) = true) by (vm_compute; reflexivity).
  rewrite forallb_forall in H. specialize (H (Z.to_nat v)). rewrite Z2Nat.id in H by lia. cbv zeta in H.
  rewrite !andb_true_iff, !negb_true_iff, Z.eqb_eq, !Z.eqb_neq in H. destruct H as [[[]]]; [|done]. apply in_seq. lia.
Qed.

(** One character more: the accumulator takes it from the right, modulo 2^32. *)
Lemma acc_step acc v : 0 <= acc -> 0 <= v < 64 -> exists q, Z.lor (u32 (Z.shiftl acc 6)) v = 64 * acc + v - 2 ^ 32 * q /\ 0 <= 64 * acc + v - 2 ^ 32 * q.
Proof.
  intros Ha Hv. exists (acc * 64 / 2 ^ 32). unfold u32, wrapu. rewrite Z.shiftl_mul_pow2 by lia. change (2 ^ 6) with 64.
  pose proof (Z.div_mod (acc * 64) (2 ^ 32) ltac:(lia)) as E. pose proof (Z.mod_pos_bound (acc * 64) (2 ^ 32) ltac:(lia)).
  assert (Em : acc * 64 mod 2 ^ 32 = Z.shiftl (acc mod 2 ^ 26) 6).
  { rewrite Z.shiftl_mul_pow2 by lia. change (2 ^ 32) with (2 ^ 26 * 2 ^ 6). change 64 with (2 ^ 6). by rewrite Z.mul_mod_distr_r by lia. }
  assert (El : Z.lor (acc * 64 mod 2 ^ 32) v = acc * 64 mod 2 ^ 32 + v) by (rewrite Em, TlsSafe.lor_shift by lia; rewrite Z.shiftl_mul_pow2 by lia; lia).
  rewrite El. lia.
Qed.

Lemma byte_out x k m y z : 0 <= k -> x = 2 ^ (k + 8) * m + y -> 0 <= y < 2 ^ (k + 8) -> y / 2 ^ k = z -> Z.land (Z.shiftr x k) 255 = z.
Proof.
  intros Hk -> Hy <-. change 255 with (Z.ones 8). rewrite Z.land_ones, Z.shiftr_div_pow2 by lia. change (2 ^ 8) with 256. rewrite Z.pow_add_r in * by lia. change (2 ^ 8) with 256 in *.
  assert (0 < 2 ^ k) by (apply Z.pow_pos_nonneg; lia). replace (2 ^ k * 256 * m + y) with (y + 256 * m * 2 ^ k) by lia. rewrite Z.div_add by lia.
  replace (y / 2 ^ k + 256 * m) with (y / 2 ^ k + m * 256) by lia. rewrite Z.mod_add by lia.
  apply Z.mod_small. split; [apply Z.div_pos; lia|apply Z.div_lt_upper_bound; lia].
Qed.

(** A character of the alphabet: more bits, and a byte when there are eight. *)
Lemma loop_char v s acc bits cap : 0 <= v < 64 -> 0 <= acc -> exists q, 0 <= 64 * acc + v - 2 ^ 32 * q /\
  let acc' := 64 * acc + v - 2 ^ 32 * q in
  b64_loop (b64_char v :: s) acc bits cap =
    if bits + 6 >=? 8 then if cap <=? 0 then None else o ← b64_loop s acc' (bits - 2) (cap - 1); Some (Z.land (Z.shiftr acc' (bits - 2)) 255 :: o)
    else b64_loop s acc' (bits + 6) cap.
Proof.
  intros Hv Ha. destruct (acc_step acc v Ha Hv) as (q & E & Hq). exists q. split; [done|]. cbv zeta. cbn [b64_loop]. destruct (b64_char_ok v Hv) as (Ev & Hn & _).
  rewrite (proj2 (Z.eqb_neq _ _) Hn), Ev, (proj2 (Z.ltb_ge v 0)), E by lia. by replace (bits + 6 - 8) with (bits - 2) by lia.
Qed.

Ltac halves a d := pose proof (Z.div_mod a d ltac:(lia)); pose proof (Z.mod_pos_bound a d ltac:(lia)); assert (0 <= a / d) by (apply Z.div_pos; lia).

(** A byte and what follows, for a last group of one, two and three bytes. *)
Lemma loop_two a b1 s acc cap : byte_ok a -> 0 <= b1 < 16 -> 0 <= acc -> 0 < cap -> exists m, 0 <= 2 ^ 12 * m + 16 * a + b1 /\
  b64_loop (b64_char (a / 4) :: b64_char (a mod 4 * 16 + b1) :: s) acc 0 cap = (o ← b64_loop s (2 ^ 12 * m + 16 * a + b1) 4 (cap - 1); Some (a :: o)).
Proof.
  unfold byte_ok. intros Ha Hb Hacc Hcap. halves a 4.
  destruct (loop_char (a / 4) (b64_char (a mod 4 * 16 + b1) :: s) acc 0 cap) as (q1 & Hq1 & E1); [lia..|]. cbv zeta in E1. rewrite E1. clear E1. change (0 + 6 >=? 8) with false. cbv iota.
  destruct (loop_char (a mod 4 * 16 + b1) s (64 * acc + a / 4 - 2 ^ 32 * q1) (0 + 6) cap) as (q2 & Hq2 & E2); [lia..|]. cbv zeta in E2. rewrite E2. clear E2. change (0 + 6 + 6 >=? 8) with true. cbv iota.
  change (0 + 6 - 2) with 4. rewrite (proj2 (Z.leb_gt cap 0)) by lia. exists (acc - 2 ^ 20 * (64 * q1 + q2)).
  set (x := 64 * _ + _ - _). assert (Ex : x = 2 ^ 12 * (acc - 2 ^ 20 * (64 * q1 + q2)) + 16 * a + b1) by (unfold x; lia). rewrite <- Ex. split; [unfold x; lia|].
  by rewrite (byte_out x 4 (acc - 2 ^ 20 * (64 * q1 + q2)) (16 * a + b1) a) by (lia || (symmetry; apply (Z.div_unique _ _ _ b1); lia)).
Qed.

Lemma loop_three m a b c1 s cap : byte_ok b -> 0 <= a -> 0 <= c1 < 4 -> 0 <= 2 ^ 12 * m + 16 * a + b / 16 -> 0 < cap -> exists m', 0 <= 2 ^ 10 * m' + 4 * b + c1 /\
  b64_loop (b64_char (b mod 16 * 4 + c1) :: s) (2 ^ 12 * m + 16 * a + b / 16) 4 cap = (o ← b64_loop s (2 ^ 10 * m' + 4 * b + c1) 2 (cap - 1); Some (b :: o)).
Proof.
  unfold byte_ok. intros Hb Ha Hc Hacc Hcap. halves b 16.
  destruct (loop_char (b mod 16 * 4 + c1) s (2 ^ 12 * m + 16 * a + b / 16) 4 cap) as (q & Hq1 & E1); [lia..|]. cbv zeta in E1. rewrite E1. clear E1. change (4 + 6 >=? 8) with true. cbv iota.
  change (4 - 2) with 2. rewrite (proj2 (Z.leb_gt cap 0)) by lia. exists (2 ^ 8 * m + a - 2 ^ 22 * q). set (x := 64 * _ + _ - _).
  assert (Ex : x = 2 ^ 10 * (2 ^ 8 * m + a - 2 ^ 22 * q) + 4 * b + c1) by (unfold x; lia). rewrite <- Ex. split; [unfold x; lia|].
  by rewrite (byte_out x 2 (2 ^ 8 * m + a - 2 ^ 22 * q) (4 * b + c1) b) by (lia || (symmetry; apply (Z.div_unique _ _ _ c1); lia)).
Qed.

Lemma loop_four m b c s cap : byte_ok c -> 0 <= b -> 0 <= 2 ^ 10 * m + 4 * b + c / 64 -> 0 < cap -> exists acc', 0 <= acc' /\
  b64_loop (b64_char (c mod 64) :: s) (2 ^ 10 * m + 4 * b + c / 64) 2 cap = (o ← b64_loop s acc' 0 (cap - 1); Some (c :: o)).
Proof.
  unfold byte_ok. intros Hc Hb Hacc Hcap. halves c 64.
  destruct (loop_char (c mod 64) s (2 ^ 10 * m + 4 * b + c / 64) 2 cap) as (q & Hq1 & E1); [lia..|]. cbv zeta in E1. rewrite E1. clear E1. change (2 + 6 >=? 8) with true. cbv iota.
  change (2 - 2) with 0. rewrite (proj2 (Z.leb_gt cap 0)) by lia. eexists. split; [exact Hq1|]. set (x := 64 * _ + _ - _).
  assert (Ex : x = 2 ^ 8 * (2 ^ 8 * m + b - 2 ^ 24 * q) + c) by (unfold x; lia).
  by rewrite (byte_out x 0 (2 ^ 8 * m + b - 2 ^ 24 * q) c c) by (lia || apply Z.div_1_r).
Qed.

Lemma b64_loop_encode l : Forall byte_ok l -> forall acc cap, 0 <= acc -> Z.of_nat (length l) <= cap -> b64_loop (b64_encode l) acc 0 cap = Some l.
Proof.
  remember (length l) as n eqn:Hn. revert l Hn. induction n as [n IH] using (well_founded_induction lt_wf). intros l -> Hl acc cap Ha Hc.
  destruct l as [|a [|b [|c l]]]; cbn [b64_encode length] in *; [done|..].
  - apply Forall_cons_1 in Hl as [Ha' _]. rewrite <- (Z.add_0_r (a mod 4 * 16)). destruct (loop_two a 0 [61; 61] acc cap) as (m & Hm & ->); [done|lia..|]. done.
  - apply Forall_cons_1 in Hl as [Ha' Hl]. apply Forall_cons_1 in Hl as [Hb _]. assert (0 <= b / 16 < 16) by (unfold byte_ok in *; halves b 16; lia).
    destruct (loop_two a (b / 16) [b64_char (b mod 16 * 4); 61] acc cap) as (m & Hm & ->); [done|lia..|]. rewrite <- (Z.add_0_r (b mod 16 * 4)).
    destruct (loop_three m a b 0 [61] (cap - 1)) as (m' & Hm' & ->); [done|unfold byte_ok in *; lia..|]. done.
  - apply Forall_cons_1 in Hl as [Ha' Hl]. apply Forall_cons_1 in Hl as [Hb Hl]. apply Forall_cons_1 in Hl as [Hc' Hl]. cbn [app].
    assert (0 <= b / 16 < 16) by (unfold byte_ok in *; halves b 16; lia). assert (0 <= c / 64 < 4) by (unfold byte_ok in *; halves c 64; lia).
    destruct (loop_two a (b / 16) (b64_char (b mod 16 * 4 + c / 64) :: b64_char (c mod 64) :: b64_encode l) acc cap) as (m & Hm & ->); [done|lia..|].
    destruct (loop_three m a b (c / 64) (b64_char (c mod 64) :: b64_encode l) (cap - 1)) as (m' & Hm' & ->); [done|unfold byte_ok in *; lia..|].
    destruct (loop_four m' b c (b64_encode l) (cap - 1 - 1)) as (acc' & Hacc' & ->); [done|unfold byte_ok in *; lia..|].
    rewrite (IH (length l)); [done|cbn; lia|done|done|done|lia].
Qed.

(** White space counts for nothing. *)
Definition ws (c : Z) : bool := (c =? 10) || (c =? 13) || (c =? 32) || (c =? 9).

Lemma b64_loop_ws s acc bits cap : b64_loop s acc bits cap = b64_loop (List.filter (fun c => negb (ws c)) s) acc bits cap.
Proof.
  revert acc bits cap. induction s as [|c s IH]; intros acc bits cap; [done|]. cbn [List.filter]. destruct (ws c) eqn:Ew; cbn [negb].
  - rewrite <- IH. cbn [b64_loop]. fold (ws c). rewrite Ew. unfold ws in Ew. rewrite !orb_true_iff, !Z.eqb_eq in Ew. destruct Ew as [[[->| ->]| ->]| ->]; done.
  - cbn [b64_loop]. destruct (c =? 61); [done|]. fold (ws c). rewrite Ew. destruct (_ <? 0); [done|]. destruct (_ >=? 8); [|apply IH]. destruct (cap <=? 0); [done|]. by rewrite IH.
Qed.

Lemma b64_alphabet l : Forall byte_ok l -> 45 ∉ b64_encode l.
Proof.
  assert (K : forall v, 0 <= v < 64 -> 45 <> b64_char v) by (intros v Hv E; destruct (b64_char_ok v Hv) as (_ & _ & H & _); congruence).
  remember (length l) as n eqn:Hn. revert l Hn. induction n as [n IH] using (well_founded_induction lt_wf). intros l -> Hl. unfold byte_ok in Hl.
  destruct l as [|a [|b [|c l]]]; cbn [b64_encode app]; [set_solver|..]; rewrite ?Forall_cons in Hl; rewrite !not_elem_of_cons.
  - halves a 4. split_and!; try (apply K; lia); (done || set_solver).
  - destruct Hl as (Ha & Hb & _). halves a 4. halves b 16. split_and!; try (apply K; lia); (done || set_solver).
  - destruct Hl as (Ha & Hb & Hc & Hl). halves a 4. halves b 16. halves c 64. split_and!; try (apply K; lia). by apply (IH (length l)); [cbn; lia|..].
Qed.

(** ** Lines *)

Definition unlines (ls : list str) : str := concat ((fun l => l ++ [10]) <$> ls).

Lemma unlines_cons l ls : unlines (l :: ls) = l ++ 10 :: unlines ls.
Proof. unfold unlines. cbn. by rewrite <- app_assoc. Qed.

Lemma unlines_app a b : unlines (a ++ b) = unlines a ++ unlines b.
Proof. unfold unlines. by rewrite fmap_app, concat_app. Qed.

Lemma line_of_line l rest : 10 ∉ l -> line_of (l ++ 10 :: rest) = (l, Some rest).
Proof.
  induction l as [|c l IH]; intros Hl; [done|]. apply not_elem_of_cons in Hl as [Hc Hl]. cbn. rewrite (proj2 (Z.eqb_neq c 10)) by done. by rewrite IH.
Qed.

Definition BEGIN : str := txt "BEGIN CERTIFICATE".
Definition END : str := txt "END CERTIFICATE".

(** A marker line has dashes. *)
Lemma line_is_dash l tag : pem_line_is l tag = true -> 45 ∈ l.
Proof.
  unfold pem_line_is. destruct (_ <? _)%nat; [done|]. destruct (starts (txt "-----") l) eqn:E; [|done]. intros _. apply bool_decide_eq_true in E.
  destruct l as [|c l]; [done|]. injection E as ->. set_solver.
Qed.

(** Lines without the opening marker are skipped. *)
Lemma pem_skip ls rest der fuel : Forall (fun l => 10 ∉ l /\ pem_line_is l BEGIN = false) ls -> (length (unlines ls ++ rest) < fuel)%nat ->
  exists fuel', (length rest < fuel')%nat /\ pem_loop fuel (unlines ls ++ rest) der = pem_loop fuel' rest der.
Proof.
  intros Hl. revert fuel. induction Hl as [|l ls [Hn Hb] _ IH]; intros fuel Hf; [by exists fuel|].
  rewrite unlines_cons, <- app_assoc in *. cbn [app] in *. destruct fuel as [|fuel]; [lia|].
  destruct (IH fuel) as (f' & Hf' & E); [rewrite length_app in Hf; cbn in Hf; lia|]. exists f'. split; [done|]. rewrite <- E. cbn [pem_loop].
  rewrite (line_of_line l _ Hn). fold BEGIN. rewrite Hb. by destruct l.
Qed.

(** The block goes up to the closing marker. *)
Lemma body_of_lines ls close rest fuel : Forall (fun l => 10 ∉ l /\ pem_line_is l END = false) ls -> 10 ∉ close -> pem_line_is close END = true ->
  (length ls < fuel)%nat -> body_of fuel (unlines ls ++ close ++ 10 :: rest) = unlines ls.
Proof.
  intros Hl Hc He. revert fuel. induction Hl as [|l ls [Hn Hb] _ IH]; intros fuel Hf; destruct fuel as [|fuel]; [lia| |cbn in Hf; lia|].
  - cbn [unlines fmap list_fmap concat app body_of]. rewrite (line_of_line close _ Hc). fold END. rewrite He. by destruct close.
  - rewrite unlines_cons, <- app_assoc. cbn [app body_of]. rewrite (line_of_line l _ Hn). fold END. rewrite Hb. cbn in Hf. rewrite IH by lia. by destruct l.
Qed.

(** ** Bundles *)

(** A certificate of a bundle: lines before it, the marker, its base64, the
    other marker. *)
Record entry := Entry { notes : list str; opening : str; lines : list str; closing : str; der : str }.
Definition entry_lines (e : entry) : list str := notes e ++ [opening e] ++ lines e ++ [closing e].
Definition bundle (es : list entry) : str := unlines (concat (entry_lines <$> es)).

Record entry_ok (e : entry) : Prop := {
  eo_one : Forall (fun l => 10 ∉ l) (entry_lines e);
  eo_notes : Forall (fun l => pem_line_is l BEGIN = false) (notes e);
  eo_opening : pem_line_is (opening e) BEGIN = true;
  eo_closing : pem_line_is (closing e) END = true;
  eo_lines : List.filter (fun c => negb (ws c)) (concat (lines e)) = b64_encode (der e);
  eo_der : der e <> [] /\ Forall byte_ok (der e)
}.

Lemma body_line e tag : entry_ok e -> Forall (fun l => pem_line_is l tag = false) (lines e).
Proof.
  intros [_ _ _ _ Hl [_ Hd]]. apply Forall_forall. intros l Hin. destruct (pem_line_is l tag) eqn:E; [|done]. apply line_is_dash in E.
  destruct (b64_alphabet (der e) Hd). rewrite <- Hl. apply list_elem_of_In, filter_In. split; [|done]. apply list_elem_of_In.
  apply list_elem_of_In, in_concat. exists l. by rewrite <- !list_elem_of_In.
Qed.

Lemma filter_unlines ls : List.filter (fun c => negb (ws c)) (unlines ls) = List.filter (fun c => negb (ws c)) (concat ls).
Proof. induction ls as [|l ls IH]; [done|]. rewrite unlines_cons. cbn. rewrite !List.filter_app. cbn. by rewrite IH. Qed.

Lemma b64_encode_length l : (3 * length (b64_encode l) >= 4 * length l)%nat.
Proof.
  remember (length l) as n eqn:Hn. revert l Hn. induction n as [n IH] using (well_founded_induction lt_wf). intros l ->.
  destruct l as [|a [|b [|c l]]]; cbn [b64_encode app length]; [lia..|]. pose proof (IH (length l) ltac:(cbn; lia) l eq_refl). lia.
Qed.

Lemma filter_le (f : Z -> bool) l : (length (List.filter f l) <= length l)%nat.
Proof. induction l as [|c l IH]; cbn; [done|]. destruct (f c); cbn; lia. Qed.

Lemma der_le e : entry_ok e -> (4 * length (der e) <= 3 * length (unlines (lines e)))%nat.
Proof.
  intros He. pose proof (b64_encode_length (der e)) as H. rewrite <- (eo_lines e He), <- filter_unlines in H.
  pose proof (filter_le (fun c => negb (ws c)) (unlines (lines e))). lia.
Qed.

Lemma body_decodes e cap : entry_ok e -> 4 * cap >= 3 * Z.of_nat (length (unlines (lines e))) -> b64_decode (unlines (lines e)) cap = Some (der e).
Proof.
  intros He Hc. unfold b64_decode. rewrite b64_loop_ws, filter_unlines, (eo_lines e He). apply b64_loop_encode; [by apply He|lia|].
  pose proof (der_le e He). lia.
Qed.

(** A certificate of the bundle is decoded behind those before it. *)
Lemma pem_entry e rest der0 fuel : entry_ok e -> (length (unlines (entry_lines e) ++ rest) < fuel)%nat ->
  4 * Z.of_nat (length der0) + 3 * Z.of_nat (length (unlines (entry_lines e) ++ rest)) <= 4 * DER_CAP ->
  exists fuel', (length rest < fuel')%nat /\ pem_loop fuel (unlines (entry_lines e) ++ rest) der0 = pem_loop fuel' rest (der0 ++ der e).
Proof.
  intros He. pose proof He as [Ho Hn Hop Hcl Hli [Hd0 Hd]]. unfold entry_lines in *. rewrite !unlines_app, <- !app_assoc. cbn [app unlines fmap list_fmap concat].
  apply Forall_app in Ho as [On Ho]. apply Forall_cons_1 in Ho as [Oo Ho]. apply Forall_app in Ho as [Ol Oc]. apply Forall_cons_1 in Oc as [Oc _]. rewrite !app_nil_r, <- !app_assoc. cbn [app].
  intros Hf Hcap. destruct (pem_skip (notes e) (opening e ++ 10 :: unlines (lines e) ++ closing e ++ 10 :: rest) der0 fuel) as (f1 & Hf1 & E1); [by apply Forall_and|done|].
  assert (Hlo : (22 <= length (opening e))%nat) by (revert Hop; unfold pem_line_is; change (length BEGIN) with 17%nat; destruct (Nat.ltb_spec (length (opening e)) (17 + 5)); [done|lia]).
  rewrite E1. clear E1. destruct f1 as [|f1]; [lia|]. do 3 (rewrite ?length_app in Hcap, Hf1; cbn [length] in Hcap, Hf1).
  assert (Hc2 : forall x, pem_line_is x END = true -> pem_line_is x BEGIN = false).
  { intros x. unfold pem_line_is. repeat case_match; try done. intros Ee. unfold starts in *. apply bool_decide_eq_true in Ee. apply bool_decide_eq_false. intros Eb.
    destruct (drop 5 x) as [|c0 ?]; [done|]. cbv in Eb, Ee. congruence. }
  destruct (pem_skip (lines e ++ [closing e]) rest (der0 ++ der e) f1) as (f2 & Hf2 & E2).
  { apply Forall_app. split; [apply Forall_and; split; [done|by apply body_line]|]. constructor; [|constructor]. split; [done|by apply Hc2]. }
  { rewrite length_app, unlines_app, length_app. cbn [unlines fmap list_fmap concat app length]. rewrite !length_app. cbn [length]. lia. }
  exists f2. split; [done|]. rewrite <- E2, unlines_app. cbn [unlines fmap list_fmap concat app]. rewrite app_nil_r, <- !app_assoc. cbn [app]. clear E2.
  cbn [pem_loop]. rewrite (line_of_line (opening e) _ Oo). fold BEGIN. rewrite Hop. cbn [default id].
  set (p := opening e ++ 10 :: _). assert (Hp : p <> []) by (unfold p; destruct (opening e); cbn in *; [lia|done]). 
  rewrite (body_of_lines (lines e) (closing e) rest (S (length p))); [|apply Forall_and; split; [done|by apply body_line]|done|done|].
  2:{ unfold p. rewrite length_app. cbn. rewrite !length_app. enough (length (lines e) <= length (unlines (lines e)))%nat by lia.
      clear. induction (lines e) as [|l ls IH]; [done|]. rewrite unlines_cons, length_app. cbn. lia. }
  pose proof (Z.mul_div_le (Z.of_nat (length (unlines (lines e)))) 4 ltac:(lia)). rewrite Z.gtb_ltb, (proj2 (Z.ltb_ge _ _)) by lia.
  rewrite body_decodes by (done || lia). destruct p; [done|]. by destruct (der e).
Qed.

Lemma pem_bundle es der0 fuel : Forall entry_ok es -> (length (bundle es) < fuel)%nat -> 4 * Z.of_nat (length der0) + 3 * Z.of_nat (length (bundle es)) <= 4 * DER_CAP ->
  pem_loop fuel (bundle es) der0 = Some (der0 ++ concat (der <$> es)).
Proof.
  intros Hes. revert der0 fuel. induction Hes as [|e es He _ IH]; intros der0 fuel Hf Hcap.
  { destruct fuel; [cbn in Hf; lia|]. cbn. by rewrite app_nil_r. }
  unfold bundle in *. cbn [fmap list_fmap concat] in *. rewrite unlines_app in *. destruct (pem_entry e (unlines (concat (entry_lines <$> es))) der0 fuel He Hf Hcap) as (f' & Hf' & ->).
  pose proof (der_le e He). rewrite length_app in Hcap. unfold entry_lines at 1 in Hcap. rewrite !unlines_app, !length_app in Hcap.
  rewrite IH; [by rewrite <- app_assoc|done|]. rewrite length_app. lia.
Qed.

(** ** Files *)

Section File.
Context `{Bs : Bundles} (enough : forall n, grants n = true).

Definition contents (rs : list rd) : str := concat ((fun r => match r with RData bs => bs | RFail => [] end) <$> rs).
Definition reads_ok (rs : list rd) : Prop := Forall (fun r => match r with RData bs => bs <> [] | RFail => False end) rs.

Lemma read_all fuel k buf rs : reads_ok rs -> 0 <= k <= 6 -> Z.of_nat (length buf) <= 65536 * 2 ^ k -> Z.of_nat (length (buf ++ contents rs)) < ROOTS_MAX_BYTES ->
  6 - k + Z.of_nat (length (contents rs)) < Z.of_nat fuel -> read_loop fuel (65536 * 2 ^ k) buf rs = Some (buf ++ contents rs).
Proof.
  revert k buf rs. induction fuel as [|fuel IH]; intros k buf rs Hr Hk Hb Hm Hf; [lia|]. cbn [read_loop]. unfold ROOTS_MAX_BYTES in *. change (4 * 1024 * 1024) with 4194304 in *.
  destruct (Z.eqb_spec (Z.of_nat (length buf)) (65536 * 2 ^ k)) as [Eb|Eb].
  - rewrite length_app in Hm. rewrite Z.geb_leb, (proj2 (Z.leb_gt _ _)), enough by lia. replace (65536 * 2 ^ k * 2) with (65536 * 2 ^ (k + 1)) by (rewrite Z.pow_add_r by lia; lia).
    assert (k <> 6) by (intros ->; change (2 ^ 6) with 64 in *; lia). apply IH; [done|lia|rewrite Z.pow_add_r by lia; lia|by rewrite length_app|lia].
  - destruct rs as [|[[|c bs]|] rs]; [by rewrite app_nil_r|by apply Forall_cons_1 in Hr as []| |by apply Forall_cons_1 in Hr as []].
    apply Forall_cons_1 in Hr as [_ Hr]. set (x := c :: bs) in *. set (room := Z.to_nat _). assert (Hroom : (0 < room)%nat) by lia.
    assert (E : contents (match drop room x with [] => rs | rest => RData rest :: rs end) = drop room x ++ contents rs) by by destruct (drop room x).
    unfold contents in *. cbn [fmap list_fmap concat] in *. fold (contents rs) in *. rewrite !length_app in *.
    assert (Hx : (length (take room x) + length (drop room x) = length x)%nat) by (rewrite <- length_app; by rewrite take_drop).
    assert (H0 : (0 < length (take room x))%nat) by (rewrite length_take; unfold x; cbn [length]; lia).
    rewrite IH; rewrite ?E; [by rewrite <- app_assoc, (app_assoc (take room x)), take_drop| |done|..].
    + unfold reads_ok. destruct (drop room x); [done|]. by constructor.
    + rewrite length_app, length_take. lia.
    + rewrite !length_app. lia.
    + rewrite length_app. lia.
Qed.

Lemma read_file_contents path rs : file_reads path = Some rs -> reads_ok rs -> Z.of_nat (length (contents rs)) < ROOTS_MAX_BYTES -> read_file path = Some (contents rs).
Proof.
  intros E Hr Hm. unfold read_file. rewrite E. cbn [mbind option_bind]. rewrite enough. assert (L : length (contents rs) = list_sum ((fun r => match r with RData bs => length bs | RFail => 0%nat end) <$> rs)).
  { clear. induction rs as [|r rs IH]; [done|]. unfold contents in *. rewrite !fmap_cons. cbn [concat]. rewrite length_app, IH. by destruct r. }
  apply (read_all (read_fuel rs) 0 [] rs); [done|lia|cbn; lia|done|]. unfold read_fuel. rewrite <- L. lia.
Qed.

(** C16: a bundle is loaded whole: for any certificates, however their base64 is
    broken into lines and with whatever comments between them, and however the
    file is cut by the reads, the result is the certificates in order.  The reads
    succeed, the allocations are granted, and the file has at most a third more
    than 256 KiB, the size of the result. *)
Theorem load_roots_bundle path rs es :
  file_reads path = Some rs -> reads_ok rs -> contents rs = bundle es -> es <> [] -> Forall entry_ok es -> 3 * Z.of_nat (length (contents rs)) <= 4 * DER_CAP ->
  cact_tls_load_roots path = Some (concat (der <$> es)).
Proof.
  intros Er Hr Ec Hne Hes Hcap. unfold cact_tls_load_roots. rewrite (read_file_contents path rs) by (done || (unfold DER_CAP, ROOTS_MAX_BYTES in *; lia)).
  cbn [mbind option_bind]. rewrite Ec in *. unfold pem_to_der. rewrite enough. cbn [negb]. rewrite pem_bundle by (done || cbn [length]; lia). cbn [app].
  destruct es as [|e es]; [done|]. apply Forall_cons_1 in Hes as [He _]. pose proof (eo_der e He) as [Hd _]. cbn. by destruct (der e).
Qed.
End File.

(** ** A bundle *)

Definition one_entry : entry :=
  Entry [txt "# a root"] (txt "-----BEGIN CERTIFICATE-----") [txt "AQID"; txt "BA=="] (txt "-----END CERTIFICATE-----") [1; 2; 3; 4].
#[local] Instance one_file : Bundles :=
  {| env_bundle := None; file_reads _ := Some [RData (take 20 (bundle [one_entry; one_entry])); RData (drop 20 (bundle [one_entry; one_entry]))]; grants _ := true |}.

Lemma one_entry_ok : entry_ok one_entry.
Proof.
  split; [|repeat constructor|reflexivity..|].
  - apply (bool_decide_unpack _). vm_compute. exact I.
  - split; [done|]. repeat constructor; done.
Qed.

Lemma load_roots_bundle_witness : cact_tls_load_roots (txt "/etc/ca-certificates.crt") = Some [1; 2; 3; 4; 1; 2; 3; 4].
Proof.
  apply (load_roots_bundle (Bs := one_file) (fun _ => eq_refl) (txt "/etc/ca-certificates.crt") _ [one_entry; one_entry] eq_refl); [|done|done| |vm_compute; done].
  - repeat constructor; done.
  - do 2 (constructor; [apply one_entry_ok|]). constructor.
Defined.
End TlsPem.
