(* ===== verification/TlsKeys.v ===== *)
(** * TlsKeys: the key schedule of the TLS client against RFC 8446

    [Prims] are the primitives of the device as functions, and the class
    [Device] says that a device computes them: what crypto.h documents.  On such
    a device the client's key schedule is that of RFC 8446, section 7.1, over
    HKDF as RFC 5869 defines it. *)

From Stdlib Require Import ZArith Lia Bool String Ascii.
From stdpp Require Import base list numbers.
From S2P Require Import Prelude Monad Dlfcn Crypto TlsRoots TlsClient TlsSafe.

Module TlsKeys.
Import TlsClient TlsSafe.

(** ** The primitives *)

Record Prims := {
  sha : str -> str;
  mac : str -> str -> str;
  seal : str -> str -> str -> str -> str;
  unseal : str -> str -> str -> str -> option str;
  dh : str -> str -> str;
  trusted : str -> str -> str -> Z -> bool;
  signs : str -> Z -> str -> str -> bool
}.

(** What the kernel says of a chain (include/crypto.h:127): it reaches one of
    the roots and is for the name and the time; and unless the scheme is 0, the
    signature is one of the leaf's key over the message. *)
Definition x509 (P : Prims) (c r h : str) (t s : Z) (m g : str) : bool := trusted P c r h t && ((s =? 0) || signs P c s m g).

(** What the primitives promise: sizes, and that opening undoes sealing. *)
Class PrimsOk (P : Prims) : Prop := {
  sha_length m : length (sha P m) = 32%nat;
  mac_length k m : length (mac P k m) = 32%nat;
  dh_length a b : length (dh P a b) = 32%nat;
  seal_length k n a p : length (seal P k n a p) = (length p + 16)%nat;
  unseal_seal k n a p : unseal P k n a (seal P k n a p) = Some p
}.

Section Device.
Context {D : Type} `{CD : Crypto.CryptoDev D}.

(** The device is there and answers with the primitives; its random numbers are
    its own business. *)
Class Device (P : Prims) : Prop := {
  device_open k : Crypto.dev_open k = true;
  device_hash m k : Crypto.dev_ioctl (Crypto.Hash 0 m) k = (Crypto.Reply 0 (sha P m) [], k);
  device_hmac x m k : Crypto.dev_ioctl (Crypto.Hmac 0 x m) k = (Crypto.Reply 0 (mac P x m) [], k);
  device_seal x n a p c k : Z.of_nat (length p) + 16 <= c ->
    Crypto.dev_ioctl (Crypto.Aead 0 0 x n a p c) k = (Crypto.Reply 0 (seal P x n a p) [], k);
  device_unseal x n a p c k : Crypto.dev_ioctl (Crypto.Aead 0 1 x n a p c) k =
    match unseal P x n a p with Some q => (Crypto.Reply 0 q [], k) | None => (Crypto.Reply (-1) [] [], k) end;
  device_derive a b k : Crypto.dev_ioctl (Crypto.KxDerive 0 a b) k = (Crypto.Reply 0 (dh P a b) [], k);
  device_x509 c r h t s m g k : Crypto.dev_ioctl (Crypto.X509Verify c r h t s m g) k =
    (Crypto.Reply (if x509 P c r h t s m g then 0 else -1) [] [], k)
}.
End Device.

(** ** HKDF and the schedule, from the RFCs *)

Section Schedule.
Context (P : Prims).

(** RFC 5869, 2.3: T(i) = HMAC(PRK, T(i-1) || info || i). *)
Fixpoint hkdf_t (prk info : str) (i : nat) : str :=
  match i with
  | O => []
  | S j => mac P prk (hkdf_t prk info j ++ info ++ [Z.of_nat (S j)])
  end.

(** The first [n] bytes of T(1) || T(2) || ..., for [n] up to 255 blocks. *)
Definition hkdf (prk info : str) (n : nat) : str :=
  take n (concat (hkdf_t prk info <$> List.seq 1 ((n + 31) / 32))).

(** RFC 8446, 7.1. *)
Definition hkdf_label (secret : str) (label : string) (ctx : str) (n : nat) : str :=
  hkdf secret ([Z.of_nat n / 256; Z.of_nat n mod 256] ++ [Z.of_nat (6 + length (txt label))] ++ txt "tls13 " ++ txt label
               ++ [Z.of_nat (length ctx)] ++ ctx) n.

Definition Derive_Secret (secret : str) (label : string) (messages : str) : str := hkdf_label secret label (sha P messages) 32.

Definition Early_Secret : str := mac P zeros zeros.
Definition Handshake_Secret (shared : str) : str := mac P (Derive_Secret Early_Secret "derived" []) shared.
Definition Master_Secret (shared : str) : str := mac P (Derive_Secret (Handshake_Secret shared) "derived" []) zeros.

(** A traffic secret with its key and iv. *)
Definition traffic_of_secret (s : str) : traffic := Tr s (hkdf_label s "key" [] 16) (hkdf_label s "iv" [] 12).

Definition c_hs_traffic shared msgs := traffic_of_secret (Derive_Secret (Handshake_Secret shared) "c hs traffic" msgs).
Definition s_hs_traffic shared msgs := traffic_of_secret (Derive_Secret (Handshake_Secret shared) "s hs traffic" msgs).
Definition c_ap_traffic shared msgs := traffic_of_secret (Derive_Secret (Master_Secret shared) "c ap traffic" msgs).
Definition s_ap_traffic shared msgs := traffic_of_secret (Derive_Secret (Master_Secret shared) "s ap traffic" msgs).

(** RFC 8446, 4.4.4: what Finished carries. *)
Definition Finished (secret msgs : str) : str := mac P (hkdf_label secret "finished" [] 32) (sha P msgs).
End Schedule.

(** ** The client's computations on such a device *)

Definition set_tls {D} (t : cact_tls) (s : st D) : st D :=
  S_ t (roots s) (tls_err s) (rin s) (win s) (sent s) (crypto s) (live s) (allocs s).

Section Runs.
Context {D : Type} `{CD : Crypto.CryptoDev D} `{HO : Host} `{Bs : TlsRoots.Bundles} (P : Prims) `{POk : !PrimsOk P} `{Dev : !Device P}.
Abbreviation C := (St (st D)).
Implicit Types s : st D.

Lemma field_id n l : length l = n -> Crypto.field n l = l.
Proof. intros <-. apply resize_all. Qed.

Lemma kernel_run {A} (c : St (Crypto.cst D) A) a s : (forall k, c k = Some (a, k)) -> kernel c s = Some (a, s).
Proof. intros H. unfold kernel. rewrite H. by destruct s. Qed.

Lemma cmd_run r a (k : Crypto.cst D) : Crypto.dev_ioctl r (Crypto.kern k) = (Crypto.Reply 0 a [], Crypto.kern k) ->
  Crypto.crypt_cmd r k = Some ((0, Crypto.Reply 0 a []), k).
Proof. intros E. unfold Crypto.crypt_cmd, Crypto.nio_dev_cmd, bind. rewrite device_open, E. by destruct k. Qed.

Lemma hmac_run x m s : hmac x m s = Some ((0, mac P x m), s).
Proof.
  apply kernel_run. intros k. unfold Crypto.cact_hmac_sha256, Crypto.crypt_hmac_sign. cbn [Crypto.wild orb negb Crypto.bytes].
  rewrite (bind_run _ _ _ _ _ (cmd_run _ _ k (device_hmac x m (Crypto.kern k)))). cbn [Crypto.out1]. change (0 =? 0) with true. by rewrite field_id by apply mac_length.
Qed.

Lemma sha_run m s : sha256 m s = Some ((0, sha P m), s).
Proof.
  apply kernel_run. intros k. unfold Crypto.cact_sha256, Crypto.crypt_hash. cbn [Crypto.wild orb negb Crypto.bytes].
  rewrite (bind_run _ _ _ _ _ (cmd_run _ _ k (device_hash m (Crypto.kern k)))). cbn [Crypto.out1]. change (0 =? 0) with true. by rewrite field_id by apply sha_length.
Qed.

Lemma derive_run a b s : length a = 32%nat -> length b = 32%nat ->
  kernel (Crypto.cact_x25519_derive (Crypto.Buf a) (Crypto.Buf b) true) s = Some ((0, dh P a (b ++ repeat 0 33)), s).
Proof.
  intros Ha Hb. apply kernel_run. intros k. unfold Crypto.cact_x25519_derive, Crypto.crypt_kx_derive. cbn [Crypto.is_null orb negb Crypto.bytes].
  rewrite (bind_run _ _ _ _ _ (cmd_run _ _ k (device_derive _ _ (Crypto.kern k)))). cbn [Crypto.out1]. change (0 =? 0) with true.
  rewrite field_id by apply dh_length. rewrite (field_id 32 a Ha). unfold Crypto.CACT_X25519_KEY_LEN. rewrite take_ge by lia.
  unfold Crypto.field. rewrite resize_ge by lia. rewrite Hb. by change (65 - 32)%nat with 33%nat.
Qed.

(** *** HKDF *)

Definition blocks (prk info : str) (i : nat) : str := concat (hkdf_t P prk info <$> List.seq 1 i).

Lemma blocks_S prk info i : blocks prk info (S i) = blocks prk info i ++ hkdf_t P prk info (S i).
Proof. unfold blocks. rewrite List.seq_S, fmap_app, concat_app. cbn. by rewrite app_nil_r. Qed.

Lemma hkdf_t_length prk info i : length (hkdf_t P prk info (S i)) = 32%nat.
Proof. apply mac_length. Qed.

Lemma blocks_length prk info i : length (blocks prk info i) = (32 * i)%nat.
Proof. induction i as [|i IH]; [done|]. rewrite blocks_S, length_app, IH, hkdf_t_length. lia. Qed.

Lemma expand_loop_run fuel prk info i n s : (length info <= 299)%nat -> (n <= 255 * 32)%nat -> (i <= (n + 31) / 32)%nat -> ((n + 31) / 32 - i < fuel)%nat ->
  expand_loop fuel prk info (hkdf_t P prk info i) (take n (blocks prk info i)) (Z.of_nat n) (u8 (Z.of_nat (S i))) s = Some ((0, hkdf P prk info n), s).
Proof.
  intros Hi Hn. set (N := ((n + 31) / 32)%nat). assert (HN : (32 * N < n + 32 /\ n <= 32 * N)%nat).
  { unfold N. pose proof (Nat.div_mod (n + 31) 32 ltac:(lia)). pose proof (Nat.mod_upper_bound (n + 31) 32 ltac:(lia)). lia. }
  revert i. induction fuel as [|fuel IH]; intros i Hle Hf; [lia|]. cbn [expand_loop].
  rewrite length_take, blocks_length, Z.geb_leb. destruct (Z.leb_spec (Z.of_nat n) (Z.of_nat (n `min` (32 * i)))) as [Hd|Hd].
  - assert (i = N) as -> by lia. done.
  - assert (Hb : (32 * i < n)%nat) by lia. cbv zeta.
    assert (Ht : (length (hkdf_t P prk info i) <= 32)%nat) by (destruct i; [cbn; lia|by rewrite hkdf_t_length]).
    rewrite !length_app, Z.gtb_ltb. unfold HASH_LEN. cbn [length]. rewrite (proj2 (Z.ltb_ge _ _)) by lia.
    rewrite (bind_run _ _ _ _ _ (hmac_run _ _ s)). change (negb (0 =? 0)) with false. cbv iota.
    rewrite u8_small by lia. change (mac P prk (hkdf_t P prk info i ++ info ++ [Z.of_nat (S i)])) with (hkdf_t P prk info (S i)).
    assert (E : take n (blocks prk info i) ++ take (Z.to_nat (Z.min (Z.of_nat n - Z.of_nat (n `min` (32 * i))) 32)) (hkdf_t P prk info (S i)) =
      take n (blocks prk info (S i))).
    { rewrite blocks_S, take_app, blocks_length. f_equal. rewrite Nat.min_r by lia. destruct (decide (n - 32 * i <= 32)%nat).
      - f_equal. lia.
      - rewrite !take_ge by (rewrite hkdf_t_length; lia). done. }
    rewrite E. replace (Z.of_nat (S i) + 1) with (Z.of_nat (S (S i))) by lia. apply IH; lia.
Qed.

Lemma expand_label_run sec l ctx n s : (length (txt l) <= 64)%nat -> (length ctx <= 32)%nat -> (n <= 255 * 32)%nat ->
  expand_label sec (txt l) ctx (Z.of_nat n) s = Some ((0, hkdf_label P sec l ctx n), s).
Proof.
  intros Hl Hc Hn. unfold expand_label. cbv zeta. rewrite !Z.gtb_ltb. unfold HASH_LEN. zdecide. cbn [orb].
  set (info := _ ++ _). assert (Hi : (length info <= 106)%nat) by (unfold info; rewrite !length_app; cbn [length]; change (length (txt "tls13 ")) with 6%nat; cbn; lia).
  unfold hkdf_expand. rewrite Z.gtb_ltb. rewrite (proj2 (Z.ltb_ge _ _)) by lia.
  replace (hkdf_label P sec l ctx n) with (hkdf P sec info n).
  - rewrite Nat2Z.id. pose proof (Nat.div_mod (n + 31) 32 ltac:(lia)) as Hdm.
    pose proof (expand_loop_run (S n) sec info 0 n s ltac:(lia) Hn ltac:(lia) ltac:(lia)) as R.
    change (blocks sec info 0) with (@nil Z) in R. rewrite take_nil in R. exact R.
  - unfold hkdf_label, info, enc16. rewrite Z.shiftr_div_pow2 by lia. change (2 ^ 8) with 256.
    assert (0 <= Z.of_nat n / 256 < 256) by (split; [apply Z.div_pos; lia|apply Z.div_lt_upper_bound; lia]).
    rewrite (u8_small (Z.of_nat n / 256)), (u8_small (6 + _)), (u8_small (Z.of_nat (length ctx))) by lia.
    change (u8 (Z.of_nat n)) with (Z.of_nat n mod 256). replace (6 + Z.of_nat (length (txt l))) with (Z.of_nat (6 + length (txt l))) by lia. done.
Qed.

(** *** The steps of the schedule *)

Abbreviation msgs s := (data (tr (tls s))).

Lemma transcript_run s : transcript_hash s = Some ((0, sha P (msgs s)), s).
Proof. unfold transcript_hash, the. rewrite (bind_run (gets _) _ s _ s eq_refl). apply sha_run. Qed.

Lemma derive_secret_run sec l s : (length (txt l) <= 64)%nat -> derive_secret sec l s = Some ((0, Derive_Secret P sec l (msgs s)), s).
Proof.
  intros Hl. unfold derive_secret. rewrite (bind_run _ _ _ _ _ (transcript_run s)). change (negb (0 =? 0)) with false. cbv iota.
  apply (expand_label_run sec l (sha P (msgs s)) 32 s); [done|by rewrite sha_length|lia].
Qed.

Lemma derive_empty_run sec l s : (length (txt l) <= 64)%nat -> derive_secret_empty sec l s = Some ((0, Derive_Secret P sec l []), s).
Proof.
  intros Hl. unfold derive_secret_empty. rewrite (bind_run _ _ _ _ _ (sha_run [] s)). change (negb (0 =? 0)) with false. cbv iota.
  apply (expand_label_run sec l (sha P []) 32 s); [done|by rewrite sha_length|lia].
Qed.

Lemma upd_run f s : upd f s = Some (tt, set_tls (f (tls s)) s).
Proof. done. Qed.

Lemma traffic_set k x t : traffic_of k (set_traffic k x t) = x.
Proof. by destruct k. Qed.

Lemma set_traffic_twice k x y t : set_traffic k x (set_traffic k y t) = set_traffic k x t.
Proof. by destruct k. Qed.

Lemma traffic_keys_run k s : traffic_keys k s = Some (0, set_tls (set_traffic k (traffic_of_secret P (secret (traffic_of k (tls s)))) (tls s)) s).
Proof.
  unfold traffic_keys, the. rewrite (bind_run (gets _) _ s _ s eq_refl). set (sec := secret _).
  rewrite (bind_run _ _ _ _ _ (expand_label_run sec "key" [] 16 s ltac:(cbn; lia) ltac:(cbn; lia) ltac:(lia))). change (negb (0 =? 0)) with false. cbv iota.
  rewrite (bind_run _ _ _ _ _ (upd_run _ _)).
  rewrite (bind_run _ _ _ _ _ (expand_label_run sec "iv" [] 12 _ ltac:(cbn; lia) ltac:(cbn; lia) ltac:(lia))). change (negb (0 =? 0)) with false. cbv iota.
  rewrite (bind_run _ _ _ _ _ (upd_run _ _)). unfold ret. cbn [tls set_tls]. rewrite traffic_set, set_traffic_twice. done.
Qed.

Lemma derive_into_run sec l k s : (length (txt l) <= 64)%nat ->
  derive_into sec l k s = Some (0, set_tls (set_traffic k (Tr (Derive_Secret P sec l (msgs s)) (tkey (traffic_of k (tls s))) (tiv (traffic_of k (tls s)))) (tls s)) s).
Proof.
  intros Hl. unfold derive_into. rewrite (bind_run _ _ _ _ _ (derive_secret_run sec l s Hl)). change (negb (0 =? 0)) with false. cbv iota.
  by rewrite (bind_run _ _ _ _ _ (upd_run _ _)).
Qed.

Lemma finished_run sec s : finished_verify_data sec s = Some ((0, Finished P sec (msgs s)), s).
Proof.
  unfold finished_verify_data. rewrite (bind_run _ _ _ _ _ (expand_label_run sec "finished" [] 32 s ltac:(cbn; lia) ltac:(cbn; lia) ltac:(lia))).
  change (negb (0 =? 0)) with false. cbv iota. rewrite (bind_run _ _ _ _ _ (transcript_run s)). change (negb (0 =? 0)) with false. cbv iota. apply hmac_run.
Qed.

Ltac step R := rewrite (bind_run _ _ _ _ _ R); change (negb (0 =? 0)) with false; cbv iota.

Lemma handshake_keys_run shared s :
  setup_handshake_keys shared s = Some (0, set_tls (set_s_hs (s_hs_traffic P shared (msgs s)) (set_c_hs (c_hs_traffic P shared (msgs s))
    (set_hs_secret (Handshake_Secret P shared) (tls s)))) s).
Proof.
  unfold setup_handshake_keys, hkdf_extract. step (hmac_run zeros zeros s).
  step (derive_empty_run (mac P zeros zeros) "derived" s ltac:(cbn; lia)). step (hmac_run (Derive_Secret P (mac P zeros zeros) "derived" []) shared s).
  step (upd_run (set_hs_secret (Handshake_Secret P shared)) s). set (s1 := set_tls _ s).
  step (derive_into_run (Handshake_Secret P shared) "c hs traffic" CHS s1 ltac:(cbn; lia)). set (s2 := set_tls _ s1).
  step (derive_into_run (Handshake_Secret P shared) "s hs traffic" SHS s2 ltac:(cbn; lia)). set (s3 := set_tls _ s2).
  step (traffic_keys_run CHS s3). set (s4 := set_tls _ s3). step (traffic_keys_run SHS s4). done.
Qed.

Lemma application_keys_run shared s : hs_secret (tls s) = Handshake_Secret P shared ->
  setup_application_keys s = Some (0, set_tls (set_s_ap (s_ap_traffic P shared (msgs s)) (set_c_ap (c_ap_traffic P shared (msgs s)) (tls s))) s).
Proof.
  intros Hh. unfold setup_application_keys, hkdf_extract, the. rewrite (bind_run (gets _) _ s _ s eq_refl), Hh.
  step (derive_empty_run (Handshake_Secret P shared) "derived" s ltac:(cbn; lia)).
  step (hmac_run (Derive_Secret P (Handshake_Secret P shared) "derived" []) zeros s). change (mac P _ zeros) with (Master_Secret P shared).
  step (derive_into_run (Master_Secret P shared) "c ap traffic" CAP s ltac:(cbn; lia)). set (s2 := set_tls _ s).
  step (derive_into_run (Master_Secret P shared) "s ap traffic" SAP s2 ltac:(cbn; lia)). set (s3 := set_tls _ s2).
  step (traffic_keys_run CAP s3). set (s4 := set_tls _ s3). step (traffic_keys_run SAP s4). done.
Qed.

(** C15: the client derives the keys of RFC 8446: on a device that computes
    HMAC and SHA-256, from a shared secret and the transcript the handshake
    keys, and later the application keys and the Finished values, are those of
    the schedule over HKDF, for any transcript. *)
Theorem key_schedule_rfc shared s s' sec :
  hs_secret (tls s') = Handshake_Secret P shared ->
  (exists s1, setup_handshake_keys shared s = Some (0, s1) /\ hs_secret (tls s1) = Handshake_Secret P shared /\
     c_hs (tls s1) = c_hs_traffic P shared (msgs s) /\ s_hs (tls s1) = s_hs_traffic P shared (msgs s)) /\
  (exists s1, setup_application_keys s' = Some (0, s1) /\ c_ap (tls s1) = c_ap_traffic P shared (msgs s') /\ s_ap (tls s1) = s_ap_traffic P shared (msgs s')) /\
  finished_verify_data sec s = Some ((0, Finished P sec (msgs s)), s).
Proof.
  intros Hh. split_and!; [|..|apply finished_run].
  - eexists. split; [apply handshake_keys_run|]. done.
  - eexists. split; [by apply application_keys_run|]. done.
Qed.
End Runs.
End TlsKeys.
