(* ===== verification/TlsRecord.v ===== *)
(** * TlsRecord: records and application data of the TLS client

    What one end seals and writes, the other reads and opens, in whatever pieces
    the bytes arrive; nonces differ as long as the key stays; and the
    application data is a stream. *)

From Stdlib Require Import ZArith Lia Bool String Ascii.
From stdpp Require Import base list numbers.
From S2P Require Import Prelude Monad Dlfcn Crypto TlsRoots TlsClient TlsSafe TlsKeys.

Module TlsRecord.
Import TlsClient TlsSafe TlsKeys.

Definition byte_ok (b : Z) : Prop := 0 <= b < 256.

(** ** Arrays *)

Lemma blit_front l buf : (length l <= length buf)%nat -> blit 0 l buf = Some (l ++ drop (length l) buf).
Proof. intros H. rewrite blit_some by lia. done. Qed.

Lemma slice_front l r n : n = Z.of_nat (length l) -> slice 0 n (l ++ r) = Some l.
Proof. intros ->. rewrite slice_some by (rewrite ?length_app; lia). change (Z.to_nat 0) with 0%nat. by rewrite drop_0, Nat2Z.id, take_app_length. Qed.

Lemma byte_at l i b : l !! i = Some b -> byte_ok b -> byte l (Z.of_nat i) = Some b.
Proof. intros E Hb. unfold byte. zdecide. rewrite Nat2Z.id, E. cbn. by rewrite u8_small. Qed.

Lemma be16_enc16 pre x post : 0 <= x < 65536 -> be16 (pre ++ enc16 x ++ post) (Z.of_nat (length pre)) = Some x.
Proof.
  intros Hx. unfold be16. rewrite (byte_at _ (length pre) (u8 (Z.shiftr x 8))); [|by rewrite lookup_app_r, Nat.sub_diag by lia|apply u8_range].
  replace (Z.of_nat (length pre) + 1) with (Z.of_nat (length pre + 1)) by lia.
  rewrite (byte_at _ (length pre + 1) (u8 x)); [|rewrite lookup_app_r by lia; by replace (length pre + 1 - length pre)%nat with 1%nat by lia|apply u8_range].
  cbn [mbind option_bind]. rewrite Z.shiftr_div_pow2 by lia. change (2 ^ 8) with 256.
  assert (0 <= x / 256 < 256) by (split; [apply Z.div_pos; lia|apply Z.div_lt_upper_bound; lia]).
  rewrite (u8_small (x / 256)) by lia. change (u8 x) with (x mod 256). pose proof (Z.mod_pos_bound x 256 ltac:(lia)). rewrite lor_shift by lia.
  f_equal. change (2 ^ 8) with 256. pose proof (Z.div_mod x 256 ltac:(lia)). lia.
Qed.

(** ** Nonces *)

(** no nonce is used twice under one key: for every iv of 12 bytes the nonces
    of two different sequence numbers of 64 bits differ. *)
Theorem nonce_injective iv a b : length iv = 12%nat -> 0 <= a < 2 ^ 64 -> 0 <= b < 2 ^ 64 -> nonce_from iv a = nonce_from iv b -> a = b.
Proof.
  intros Hiv Ha Hb E.
  assert (Hbyte : forall i, (i < 8)%nat -> u8 (Z.shiftr a (8 * Z.of_nat i)) = u8 (Z.shiftr b (8 * Z.of_nat i))).
  { intros i Hi. destruct (lookup_lt_is_Some_2 iv (11 - i)) as [x Hx]; [lia|].
    pose proof (f_equal (fun l => l !! (11 - i)%nat) E) as Ei. cbv beta in Ei. unfold nonce_from in Ei. rewrite !list_lookup_imap, Hx in Ei. cbn [fmap option_fmap option_map] in Ei.
    destruct (Nat.ltb_spec (11 - i) 4); [lia|]. replace (11 - (11 - i))%nat with i in Ei by lia. injection Ei as Ei.
    apply (f_equal (Z.lxor x)) in Ei. by rewrite <- !Z.lxor_assoc, !Z.lxor_nilpotent, !Z.lxor_0_l in Ei. }
  apply Z.bits_inj'. intros n Hn. destruct (Z.ltb_spec n 64).
  - pose proof (Hbyte (Z.to_nat (n / 8)) ltac:(assert (n / 8 < 8) by (apply Z.div_lt_upper_bound; lia); assert (0 <= n / 8) by (apply Z.div_pos; lia); lia)) as H8.
    assert (0 <= n / 8) by (apply Z.div_pos; lia). rewrite Z2Nat.id in H8 by done. pose proof (Z.mod_pos_bound n 8 ltac:(lia)). pose proof (Z.div_mod n 8 ltac:(lia)).
    apply (f_equal (fun x => Z.testbit x (n mod 8))) in H8. unfold u8, wrapu in H8. rewrite !Z.mod_pow2_bits_low, !Z.shiftr_spec in H8 by lia.
    by replace (n mod 8 + 8 * (n / 8)) with n in H8 by lia.
  - rewrite <- (Z.mod_small a (2 ^ 64)), <- (Z.mod_small b (2 ^ 64)) by done. by rewrite !Z.mod_pow2_bits_high by lia.
Qed.

(** ** The socket *)

(** Bytes that arrive in pieces. *)
Definition clean (q : list rd_ev) : Prop := Forall (fun e => match e with RData bs => bs <> [] | _ => False end) q.
Definition stream (q : list rd_ev) : str := concat ((fun e => match e with RData bs => bs | _ => [] end) <$> q).

Lemma read_loop_clean q n acc er : clean q -> (n <= length (stream q))%nat ->
  exists q', read_loop q n acc er = Some (1, acc ++ take n (stream q), q') /\ clean q' /\ stream q' = drop n (stream q).
Proof.
  intros Hq. revert n acc. induction Hq as [|[bs| |] q He Hq IH]; intros n acc Hn; [| |done..].
  - assert (n = 0%nat) as -> by (cbn in Hn; lia). exists []. cbn. rewrite app_nil_r. split_and!; [done|by constructor|done].
  - unfold stream in *. cbn [fmap list_fmap concat] in *. destruct n as [|n].
    { exists (RData bs :: q). cbn [read_loop]. rewrite take_0, drop_0, app_nil_r. split_and!; [done|by constructor|done]. }
    destruct bs as [|b bs]; [done|]. cbn [read_loop]. generalize dependent (b :: bs). intros x Hx Hn. destruct (Nat.ltb_spec (S n) (length x)).
    + eexists. split_and!; [rewrite take_app_le by lia; done| |cbn; by rewrite drop_app_le by lia].
      constructor; [|done]. intros E. apply (f_equal length) in E. rewrite length_drop in E. cbn in E. lia.
    + destruct (IH (S n - length x)%nat (acc ++ x)) as (q' & -> & Hq' & Es); [rewrite length_app in Hn; lia|].
      exists q'. rewrite take_app_ge, drop_app_ge by lia. rewrite <- app_assoc. done.
Qed.

(** A socket that takes what it is given, in pieces. *)
Definition takes (q : list wr_ev) : Prop := Forall (fun e => match e with WTake k => k <> 0%nat | _ => False end) q.

Lemma write_loop_takes q l o er : takes q -> exists q', write_loop q l o er = Some (0, o ++ l, q') /\ takes q'.
Proof.
  intros Hq. revert l o. induction Hq as [|[k| |] q He Hq IH]; intros l o; [| |done..].
  - destruct l; cbn; eexists; (split; [by rewrite ?app_nil_r|by constructor]).
  - destruct l as [|b l]; [cbn; eexists; split; [by rewrite app_nil_r|by constructor]|]. destruct k as [|k]; [done|]. cbn [write_loop].
    destruct (IH (drop (S k) (b :: l)) (o ++ take (S k) (b :: l))) as (q' & -> & Hq'). exists q'. by rewrite <- app_assoc, take_drop.
Qed.

(** ** Sealed records *)

Definition dir_ok (d : dir) : Prop := length (key d) = 16%nat /\ length (iv d) = 12%nat.
Definition next (d : dir) : dir := Dir (key d) (iv d) (u64 (seq d + 1)).

Lemma dir_ok_next d : dir_ok d -> dir_ok (next d).
Proof. done. Qed.

Section Records.
Context {D : Type} `{CD : Crypto.CryptoDev D} `{HO : Host} `{Bs : TlsRoots.Bundles} (P : Prims) `{POk : !PrimsOk P} `{Dev : !Device P}.
Implicit Types s : st D.

(** The bytes on the wire: the header, and the sealed content with its type. *)
Definition record (d : dir) (ty : Z) (l : str) : str :=
  let h := header CT_APP (Z.of_nat (length l) + 17) in h ++ seal P (key d) (nonce_from (iv d) (seq d)) h (l ++ [ty]).

Lemma record_length d ty l : length (record d ty l) = (length l + 22)%nat.
Proof. unfold record. cbv zeta. rewrite length_app, seal_length, length_app. cbn. lia. Qed.

(** What a step leaves alone beside the connection. *)
Definition beside s s' : Prop := roots s' = roots s /\ live s' = live s /\ allocs s' = allocs s.

Lemma seal_run d a p c s : dir_ok d -> Z.of_nat (length p) + 16 <= c ->
  kernel (Crypto.cact_aes128_gcm_seal (Crypto.Buf (key d)) (Crypto.Buf (nonce_from (iv d) (seq d))) (Crypto.Buf a) (Crypto.Buf p) true c) s =
  Some ((0, seal P (key d) (nonce_from (iv d) (seq d)) a p), s).
Proof.
  intros [Hk Hi] Hc. apply kernel_run. intros k. unfold Crypto.cact_aes128_gcm_seal, Crypto.crypt_gcm.
  cbn [Crypto.is_null Crypto.wild orb negb Nat.eqb andb Crypto.bytes]. rewrite (field_id 16 _ Hk), (field_id Crypto.CACT_GCM_NONCE_LEN) by (unfold nonce_from; by rewrite length_imap).
  rewrite (bind_run _ _ _ _ _ (cmd_run P _ _ k (device_seal _ _ _ _ _ (Crypto.kern k) Hc))). cbn [Crypto.out1]. rewrite take_ge by (rewrite seal_length; lia). done.
Qed.

Lemma unseal_run d a p c s : dir_ok d -> Z.of_nat (length p) = c ->
  kernel (Crypto.cact_aes128_gcm_open (Crypto.Buf (key d)) (Crypto.Buf (nonce_from (iv d) (seq d))) (Crypto.Buf a)
    (Crypto.Buf (seal P (key d) (nonce_from (iv d) (seq d)) a p)) true c) s = Some ((0, p), s).
Proof.
  intros [Hk Hi] Hc. apply kernel_run. intros k. unfold Crypto.cact_aes128_gcm_open, Crypto.crypt_gcm.
  cbn [Crypto.is_null Crypto.wild orb negb Nat.eqb andb Crypto.bytes]. rewrite (field_id 16 _ Hk), (field_id Crypto.CACT_GCM_NONCE_LEN) by (unfold nonce_from; by rewrite length_imap).
  pose proof (device_unseal (key d) (nonce_from (iv d) (seq d)) a (seal P (key d) (nonce_from (iv d) (seq d)) a p) c (Crypto.kern k)) as E.
  rewrite unseal_seal in E. rewrite (bind_run _ _ _ _ _ (cmd_run P _ _ k E)). cbn [Crypto.out1]. rewrite take_ge by lia. done.
Qed.

Lemma the_run {A} (f : cact_tls -> A) s : the f s = Some (f (tls s), s).
Proof. done. Qed.

Lemma lift_run {A} (o : option A) a s : o = Some a -> lift o s = Some (a, s).
Proof. by intros ->. Qed.

Lemma write_run l s : takes (win s) -> exists s', write_full l s = Some (0, s') /\ tls s' = tls s /\ sent s' = sent s ++ l /\ takes (win s') /\ rin s' = rin s /\ beside s s'.
Proof.
  intros Hw. unfold write_full. destruct (write_loop_takes (win s) l (sent s) (Crypto.errno (crypto s)) Hw) as (q & -> & Hq).
  eexists. by split_and!.
Qed.

Ltac run R := rewrite (bind_run _ _ _ _ _ R); cbv beta iota.

Lemma send_run ty l s :
  tls_ok (tls s) -> wr_enc (tls s) = true -> dir_ok (wr (tls s)) -> Z.of_nat (length l) <= MAX_PLAIN -> takes (win s) ->
  exists s' r p, send_record ty l s = Some (0, s') /\ tls s' = set_wr (next (wr (tls s))) (set_rec r (set_plain p (tls s))) /\ tls_ok (tls s') /\
    sent s' = sent s ++ record (wr (tls s)) ty l /\ takes (win s') /\ rin s' = rin s /\ beside s s'.
Proof.
  intros Hs He Hd Hl Hw. pose proof (rec_len _ Hs) as Hr. pose proof (plain_len _ Hs) as Hp. unfold MAX_CIPHER, MAX_PLAIN in *.
  unfold send_record. cbv zeta. rewrite Z.gtb_ltb. unfold MAX_PLAIN. rewrite (proj2 (Z.ltb_ge _ _)) by lia. unfold TAG_LEN.
  replace (Z.of_nat (length l) + 1 + 16) with (Z.of_nat (length l) + 17) by lia.
  run (the_run wr_enc s). run (the_run rec s). rewrite He. cbn [negb]. run (the_run plain s).
  set (h := header CT_APP (Z.of_nat (length l) + 17)). assert (Hh : length h = 5%nat) by done.
  assert (Hlt : length (l ++ [ty]) = (length l + 1)%nat) by (rewrite length_app; cbn; lia).
  set (pl := (l ++ [ty]) ++ drop (length (l ++ [ty])) (plain (tls s))).
  run (lift_run _ pl s (blit_front (l ++ [ty]) (plain (tls s)) ltac:(lia))). run (upd_run (set_plain pl) s).
  set (r1 := h ++ drop (length h) (rec (tls s))). assert (Hr1 : length r1 = length (rec (tls s))) by (unfold r1; rewrite length_app, length_drop; lia).
  run (lift_run _ r1 (set_tls (set_plain pl (tls s)) s) (blit_front h (rec (tls s)) ltac:(lia))). run (upd_run (set_rec r1) (set_tls (set_plain pl (tls s)) s)).
  set (s2 := set_tls (set_rec r1 _) _). run (the_run wr s2). change (wr (tls s2)) with (wr (tls s)).
  run (lift_run _ _ s2 (slice_front (l ++ [ty]) (drop (length (l ++ [ty])) (plain (tls s))) (Z.of_nat (length l) + 1) ltac:(lia))).
  run (lift_run _ _ s2 (slice_front h (drop (length h) (rec (tls s))) 5 ltac:(lia))).
  run (seal_run (wr (tls s)) h (l ++ [ty]) MAX_CIPHER s2 Hd ltac:(unfold MAX_CIPHER, MAX_PLAIN; lia)). change (negb (0 =? 0)) with false. cbv iota.
  set (ct := seal _ _ _ _ _). assert (Hct : length ct = (length l + 17)%nat) by (unfold ct; rewrite seal_length; lia).
  set (r2 := h ++ ct ++ drop (length l + 22) (rec (tls s))).
  assert (Eb : blit 5 ct r1 = Some r2).
  { rewrite blit_some by lia. unfold r1, r2. change (Z.to_nat 5) with 5%nat. rewrite take_app_le, take_ge by lia. rewrite drop_app_ge, drop_drop by lia. do 4 f_equal. lia. }
  run (lift_run _ r2 s2 Eb). run (upd_run (set_rec r2) s2). set (s3 := set_tls _ s2).
  change (Dir (key (wr (tls s))) (iv (wr (tls s))) (u64 (seq (wr (tls s)) + 1))) with (next (wr (tls s))). run (upd_run (set_wr (next (wr (tls s)))) s3).
  set (s4 := set_tls _ s3).
  assert (Eo : slice 0 (5 + (Z.of_nat (length l) + 17)) r2 = Some (record (wr (tls s)) ty l)).
  { unfold r2. rewrite app_assoc. apply slice_front. rewrite record_length. lia. }
  run (lift_run _ _ s4 Eo). destruct (write_run (record (wr (tls s)) ty l) s4 Hw) as (s5 & E5 & T5 & S5 & W5 & R5 & B5). run E5.
  change (negb (0 =? 0)) with false. cbv iota. exists s5, r2, pl. rewrite T5. split_and!; [done|done| |done|done|done|apply B5..].
  unfold s4, s3, s2. cbn [set_tls tls]. destruct Hs. constructor; cbn; try done.
  - unfold r2. rewrite !length_app, length_drop. unfold MAX_CIPHER, MAX_PLAIN. lia.
  - unfold pl. rewrite length_app, length_drop. unfold MAX_CIPHER, MAX_PLAIN. lia.
Qed.

Lemma read_run n a b s : clean (rin s) -> stream (rin s) = a ++ b -> Z.of_nat (length a) = n ->
  exists s', read_full n s = Some ((1, a), s') /\ tls s' = tls s /\ clean (rin s') /\ stream (rin s') = b /\ win s' = win s /\ sent s' = sent s /\ beside s s'.
Proof.
  intros Hc Hs Hn. unfold read_full. destruct (read_loop_clean (rin s) (Z.to_nat n) [] (Crypto.errno (crypto s)) Hc) as (q & -> & Hq & Eq).
  { rewrite Hs, length_app. lia. }
  rewrite Hs in *. rewrite take_app_le, take_ge in * by lia. rewrite drop_app_ge in Eq by lia. replace (Z.to_nat n - length a)%nat with 0%nat in Eq by lia. eexists. by split_and!.
Qed.

Lemma strip_full n p b : p !! n = Some b -> b <> 0 -> strip (S n) p = S n.
Proof. intros E Hb. cbn [strip]. rewrite E. change (default 1 (Some b)) with b. by rewrite (proj2 (Z.eqb_neq _ _) Hb). Qed.

Lemma opened_run ty l c s :
  tls_ok (tls s) -> rd_enc (tls s) = true -> dir_ok (rd (tls s)) -> Z.of_nat (length l) <= MAX_PLAIN -> byte_ok ty -> ty <> 0 ->
  let h := header CT_APP (Z.of_nat (length l) + 17) in
  let ct := seal P (key (rd (tls s))) (nonce_from (iv (rd (tls s))) (seq (rd (tls s)))) h (l ++ [ty]) in
  exists p, open_record h CT_APP (Z.of_nat (length l) + 17) (ct ++ c) s =
    Some (inr (1, (ty, Z.of_nat (length l))), set_tls (set_rd (next (rd (tls s))) (set_plain p (tls s))) s) /\
    Z.of_nat (length p) = MAX_CIPHER /\ exists q, p = l ++ q.
Proof.
  intros Hs He Hd Hl Hb Hty h ct. pose proof (plain_len _ Hs) as Hp. unfold MAX_CIPHER, MAX_PLAIN in *.
  assert (Hlt : length (l ++ [ty]) = (length l + 1)%nat) by (rewrite length_app; cbn; lia).
  assert (Hct : length ct = (length l + 17)%nat) by (unfold ct; rewrite seal_length; lia).
  unfold open_record. cbv zeta. run (the_run rd_enc s). run (the_run plain s). rewrite He. cbn [negb]. change (CT_APP =? CT_APP) with true. cbn [negb orb].
  unfold TAG_LEN. rewrite (proj2 (Z.ltb_ge _ _)) by lia. run (the_run rd s). run (lift_run _ ct s (slice_front ct c (Z.of_nat (length l) + 17) ltac:(lia))).
  set (p1 := ct ++ drop (length ct) (plain (tls s))). run (lift_run _ p1 s (blit_front ct (plain (tls s)) ltac:(lia))). run (upd_run (set_plain p1) s).
  set (s1 := set_tls _ s).
  run (unseal_run (rd (tls s)) h (l ++ [ty]) (Z.of_nat (length l) + 17 - 16) s1 Hd ltac:(lia)).
  assert (Hp1 : length p1 = length (plain (tls s))) by (unfold p1; rewrite length_app, length_drop; lia).
  set (p2 := (l ++ [ty]) ++ drop (length (l ++ [ty])) p1). run (lift_run _ p2 s1 (blit_front (l ++ [ty]) p1 ltac:(lia))). run (upd_run (set_plain p2) s1).
  set (s2 := set_tls _ s1). change (negb (0 =? 0)) with false. cbv iota.
  change (Dir (key (rd (tls s))) (iv (rd (tls s))) (u64 (seq (rd (tls s)) + 1))) with (next (rd (tls s))). run (upd_run (set_rd (next (rd (tls s)))) s2).
  set (s3 := set_tls _ s2).
  assert (Hn : p2 !! length l = Some ty) by (unfold p2; rewrite <- app_assoc, lookup_app_r, Nat.sub_diag by lia; done).
  replace (Z.to_nat (Z.of_nat (length l) + 17 - 16)) with (S (length l)) by lia. rewrite (strip_full _ _ _ Hn Hty).
  rewrite (proj2 (Z.eqb_neq _ _)) by lia. replace (Z.of_nat (S (length l)) - 1) with (Z.of_nat (length l)) by lia.
  run (lift_run _ ty s3 (byte_at p2 (length l) ty Hn Hb)). exists p2. split_and!.
  - done.
  - unfold p2. rewrite length_app, length_drop. lia.
  - exists ([ty] ++ drop (length (l ++ [ty])) p1). unfold p2. by rewrite <- app_assoc.
Qed.

Lemma recv_run ty l rest s :
  tls_ok (tls s) -> rd_enc (tls s) = true -> dir_ok (rd (tls s)) -> Z.of_nat (length l) <= MAX_PLAIN -> byte_ok ty -> ty <> 0 ->
  clean (rin s) -> stream (rin s) = record (rd (tls s)) ty l ++ rest ->
  exists s' r p, recv_record s = Some ((1, (ty, Z.of_nat (length l))), s') /\ tls s' = set_rd (next (rd (tls s))) (set_plain p (set_rec r (tls s))) /\
    tls_ok (tls s') /\ (exists q, p = l ++ q) /\ clean (rin s') /\ stream (rin s') = rest /\ win s' = win s /\ sent s' = sent s /\ beside s s'.
Proof.
  intros Hs He Hd Hl Hb Hty Hc Hst. pose proof (rec_len _ Hs) as Hr. unfold MAX_CIPHER, MAX_PLAIN in *.
  set (h := header CT_APP (Z.of_nat (length l) + 17)) in *. assert (Hh : length h = 5%nat) by done.
  set (ct := seal P (key (rd (tls s))) (nonce_from (iv (rd (tls s))) (seq (rd (tls s)))) h (l ++ [ty])).
  assert (Hct : length ct = (length l + 17)%nat) by (unfold ct; rewrite seal_length, length_app; cbn; lia).
  assert (Hst' : stream (rin s) = h ++ ct ++ rest) by (rewrite Hst; unfold record; cbv zeta; by rewrite <- app_assoc).
  unfold recv_record. rewrite (bind_run (gets rin) _ s _ s eq_refl). cbn [loop].
  assert (B : exists s' r p, recv_body tt s = Some (inr (1, (ty, Z.of_nat (length l))), s') /\ tls s' = set_rd (next (rd (tls s))) (set_plain p (set_rec r (tls s))) /\
    Z.of_nat (length r) = 5 + MAX_CIPHER /\ Z.of_nat (length p) = MAX_CIPHER /\
    (exists q, p = l ++ q) /\ clean (rin s') /\ stream (rin s') = rest /\ win s' = win s /\ sent s' = sent s /\ beside s s').
  { unfold recv_body. cbv zeta. destruct (read_run 5 h (ct ++ rest) s Hc Hst' ltac:(lia)) as (s1 & E1 & T1 & C1 & S1 & W1 & O1 & B1). run E1.
    change (1 <=? 0) with false. cbv iota.
    assert (E3 : be16 h 3 = Some (Z.of_nat (length l) + 17)) by (apply (be16_enc16 [CT_APP; 3; 3] (Z.of_nat (length l) + 17) []); lia).
    run (lift_run _ _ s1 E3). run (lift_run (byte h 0) CT_APP s1 eq_refl). unfold MAX_CIPHER, MAX_PLAIN. rewrite Z.gtb_ltb, (proj2 (Z.ltb_ge _ _)) by lia.
    rewrite (proj2 (Z.eqb_neq _ _)) by lia. destruct (read_run (Z.of_nat (length l) + 17) ct rest s1 C1 S1 ltac:(lia)) as (s2 & E2 & T2 & C2 & S2 & W2 & O2 & B2). run E2.
    run (the_run rec s2). set (r := ct ++ drop (length ct) (rec (tls s))). rewrite T2, T1. run (lift_run _ r s2 (blit_front ct (rec (tls s)) ltac:(lia))).
    run (upd_run (set_rec r) s2). set (s3 := set_tls _ s2). change (negb (1 =? 1)) with false. change (CT_APP =? CT_CHANGE_CIPHER) with false. cbv iota.
    assert (Hr3 : length r = length (rec (tls s))) by (unfold r; rewrite length_app, length_drop; lia).
    assert (T3 : tls s3 = set_rec r (tls s)) by (unfold s3; cbn; by rewrite T2, T1).
    destruct (opened_run ty l (drop (length ct) (rec (tls s))) s3) as (p & E4 & Hp & Hq); rewrite ?T3; try done.
    { destruct Hs. constructor; cbn; try done. unfold MAX_CIPHER, MAX_PLAIN. lia. }
    rewrite T3 in E4. exists (set_tls (set_rd (next (rd (tls s))) (set_plain p (set_rec r (tls s)))) s3), r, p.
    split_and!; [exact E4|done|unfold MAX_CIPHER, MAX_PLAIN; lia|done|done|done|done|..].
    - change (win s2 = win s). congruence.
    - change (sent s2 = sent s). congruence.
    - destruct B1 as (? & ? & ?), B2 as (? & ? & ?). unfold beside. cbn. split_and!; congruence. }
  destruct B as (s' & r & p & E & T' & Hlr & Hlp & Hq & Rest). exists s', r, p. rewrite (bind_run _ _ _ _ _ E). split_and!; [done|done| |done|apply Rest..].
  rewrite T'. destruct Hs. constructor; cbn; done.
Qed.

(** ** Application data *)

(** The records of a list of chunks, one sequence number after the other. *)
Fixpoint wire (d : dir) (ls : list str) : str :=
  match ls with [] => [] | l :: ls => record d CT_APP l ++ wire (next d) ls end.

Definition chunk_ok (l : str) : Prop := l <> [] /\ Z.of_nat (length l) <= MAX_PLAIN.

(** The reader's state: [left] is what is kept from the last record, [ls] what
    is still on the wire. *)
Record carries (s : st D) (left : str) (ls : list str) : Prop := {
  ca_ok : tls_ok (tls s); ca_open : state (tls s) <> ST_CLOSED; ca_enc : rd_enc (tls s) = true; ca_dir : dir_ok (rd (tls s));
  ca_clean : clean (rin s); ca_wire : stream (rin s) = wire (rd (tls s)) ls; ca_chunks : Forall chunk_ok ls;
  ca_left : slice (app_off (tls s)) (app_len (tls s) - app_off (tls s)) (app (tls s)) = Some left
}.

Lemma read_unfold n s : state (tls s) <> ST_CLOSED -> 0 < n ->
  cact_tls_read true true n s = (let* r := read_body n tt in match r with inl x => loop (pending (rin s)) (read_body n) x | inr r => ret r end) s.
Proof.
  intros Hs Hn. unfold cact_tls_read. cbn [negb orb]. run (the_run state s). rewrite (proj2 (Z.eqb_neq n 0)) by lia. by destruct (state (tls s)).
Qed.

(** Bytes kept from before. *)
Lemma read_left n left ls s : carries s left ls -> left <> [] -> 0 < n ->
  exists out left' s', cact_tls_read true true n s = Some ((Z.of_nat (length out), out), s') /\ carries s' left' ls /\ out <> [] /\ Z.of_nat (length out) <= n /\ left = out ++ left'.
Proof.
  intros [Hok Hop Hen Hdi Hcl Hwi Hch Hle] Hl Hn. rewrite (read_unfold n s Hop Hn). unfold read_body.
  unfold slice in Hle. destruct (_ && _) eqn:Ec in Hle; [|done]. apply andb_true_iff in Ec as [[E1 E2]%andb_true_iff E3]. apply Z.leb_le in E1, E2, E3.
  injection Hle as Hle. assert (Hll : Z.of_nat (length left) = app_len (tls s) - app_off (tls s)) by (rewrite <- Hle, length_take, length_drop; lia).
  assert (0 < Z.of_nat (length left)) by (destruct left; [done|cbn; lia]).
  set (o := app_off (tls s)) in *. set (al := app_len (tls s)) in *. set (a := app (tls s)) in *. set (k := Z.min (al - o) n).
  assert (Es : slice o k a = Some (take (Z.to_nat k) left)).
  { rewrite slice_some by lia. f_equal. rewrite <- Hle, take_take. f_equal. lia. }
  rewrite (bind_run _ _ s (inr (k, take (Z.to_nat k) left)) (set_tls (if o + k =? al then set_app a 0 0 (tls s) else set_app a al (o + k) (tls s)) s)).
  2:{ run (the_run app_off s). run (the_run app_len s). run (the_run app s). fold o al a. rewrite (proj2 (Z.ltb_lt _ _)) by lia. cbv zeta. fold k. run (lift_run _ _ s Es).
      run (upd_run (if o + k =? al then set_app a 0 0 else set_app a al (o + k)) s). by destruct (o + k =? al). }
  assert (Hlen : Z.of_nat (length (take (Z.to_nat k) left)) = k) by (rewrite length_take; lia).
  pose proof (app_arr_len _ Hok) as Ha. pose proof (app_in _ Hok) as Hi. fold o al a in Ha, Hi.
  exists (take (Z.to_nat k) left), (drop (Z.to_nat k) left). eexists. split_and!; [by rewrite Hlen| | |lia|by rewrite take_drop].
  - destruct (Z.eqb_spec (o + k) al).
    + split; cbn; try done; [destruct Hok; constructor; cbn; done || lia|]. rewrite slice_some by lia. change (Z.to_nat 0) with 0%nat.
      rewrite (drop_ge left) by lia. done.
    + split; cbn; try done; [destruct Hok; constructor; cbn; done || lia|]. rewrite slice_some by lia. f_equal. rewrite <- Hle, skipn_firstn_comm, drop_drop.
      f_equal; [lia|]. f_equal. lia.
  - intros E. rewrite E in Hlen. cbn in Hlen. lia.
Qed.

(** The next record. *)
Lemma read_next n l ls s : carries s [] (l :: ls) -> 0 < n ->
  exists out left' s', cact_tls_read true true n s = Some ((Z.of_nat (length out), out), s') /\ carries s' left' ls /\ out <> [] /\ Z.of_nat (length out) <= n /\ l = out ++ left'.
Proof.
  intros [Hok Hop Hen Hdi Hcl Hwi Hch Hle] Hn. rewrite (read_unfold n s Hop Hn). unfold read_body.
  apply tslice_length in Hle as [_ Hle]. cbn in Hle. apply Forall_cons_1 in Hch as [[Hl Hlm] Hch].
  pose proof (app_arr_len _ Hok) as Ha. pose proof (app_in _ Hok) as Hi.
  destruct (recv_run CT_APP l (wire (next (rd (tls s))) ls) s Hok Hen Hdi Hlm) as (s1 & r & p & E1 & T1 & K1 & [q ->] & C1 & S1 & _);
    [unfold byte_ok, CT_APP; lia|done|done|done|].
  set (k := Z.min (Z.of_nat (length l)) n). assert (0 < Z.of_nat (length l)) by (destruct l; [done|cbn; lia]).
  assert (Hp : Z.of_nat (length (l ++ q)) = MAX_CIPHER) by (rewrite <- (plain_len _ K1), T1; done).
  assert (Eo : slice 0 k (l ++ q) = Some (take (Z.to_nat k) l)).
  { rewrite slice_some by (rewrite ?length_app; lia). change (Z.to_nat 0) with 0%nat. rewrite drop_0, take_app_le by lia. done. }
  assert (Er : slice k (Z.of_nat (length l) - k) (l ++ q) = Some (drop (Z.to_nat k) l)).
  { rewrite slice_some by (rewrite ?length_app; lia). rewrite drop_app_le, take_app_le, take_ge by (rewrite ?length_drop; lia). done. }
  assert (Hlen : Z.of_nat (length (take (Z.to_nat k) l)) = k) by (rewrite length_take; lia).
  set (a2 := drop (Z.to_nat k) l ++ drop (length (drop (Z.to_nat k) l)) (app (tls s))).
  assert (La2 : length a2 = length (app (tls s))) by (unfold a2; rewrite length_app, !length_drop; unfold MAX_CIPHER, MAX_PLAIN in *; lia).
  set (s2 := if k <? Z.of_nat (length l) then set_tls (set_app a2 (Z.of_nat (length l) - k) 0 (tls s1)) s1 else s1).
  rewrite (bind_run _ _ s (inr (k, take (Z.to_nat k) l)) s2).
  2:{ run (the_run app_off s). run (the_run app_len s). run (the_run app s). rewrite (proj2 (Z.ltb_ge _ _)) by lia. run E1.
      change (1 <=? 0) with false. change (CT_APP =? CT_APP) with true. cbv zeta iota. fold k. run (the_run plain s1). rewrite T1. cbn [plain set_rd set_plain].
      run (lift_run _ _ s1 Eo). unfold s2. destruct (Z.ltb_spec k (Z.of_nat (length l))); [|done].
      rewrite (bind_run _ _ s1 tt (set_tls (set_app a2 (Z.of_nat (length l) - k) 0 (tls s1)) s1)); [by rewrite T1|]. run (lift_run _ _ s1 Er).
      run (lift_run _ a2 s1 (blit_front (drop (Z.to_nat k) l) (app (tls s)) ltac:(rewrite length_drop; unfold MAX_CIPHER, MAX_PLAIN in *; lia))). done. }
  exists (take (Z.to_nat k) l), (drop (Z.to_nat k) l), s2. split_and!; [by rewrite Hlen| | |lia|by rewrite take_drop].
  - unfold s2. destruct (Z.ltb_spec k (Z.of_nat (length l))).
    + assert (K2 : tls_ok (set_app a2 (Z.of_nat (length l) - k) 0 (tls s1))).
      { destruct K1. constructor; try done; unfold MAX_CIPHER, MAX_PLAIN in *; cbn; lia. }
      split; [exact K2|..]; cbn; rewrite ?T1; try done. apply slice_front. rewrite length_drop. lia.
    + split; rewrite ?T1; try done; [by rewrite <- T1|]. cbn. rewrite drop_ge by lia. rewrite slice_some by lia. do 2 f_equal. by replace (Z.to_nat _) with 0%nat by lia.
  - intros E. rewrite E in Hlen. cbn in Hlen. lia.
Qed.

(** The end of the connection. *)
Lemma read_loop_end q n er : clean q -> stream q = [] -> read_loop q (S n) [] er = Some (0, [], []).
Proof. intros Hq. induction Hq as [|[bs| |] q He _ _]; intros Hs; [done| |done..]. unfold stream in Hs. cbn in Hs. by apply app_eq_nil in Hs as [-> _]. Qed.

Lemma read_end n s : carries s [] [] -> 0 < n -> exists s', cact_tls_read true true n s = Some ((0, []), s') /\ state (tls s') = ST_CLOSED.
Proof.
  intros [Hok Hop Hen Hdi Hcl Hwi Hch Hle] Hn. rewrite (read_unfold n s Hop Hn). unfold read_body. apply tslice_length in Hle as [_ Hle]. cbn in Hle.
  assert (R : exists s1, recv_record s = Some ((0, (0, 0)), s1)).
  { unfold recv_record. rewrite (bind_run (gets rin) _ s _ s eq_refl). cbn [loop].
    assert (B : exists s1, recv_body tt s = Some (inr (0, (0, 0)), s1)).
    { unfold recv_body. cbv zeta. pose proof (read_loop_end (rin s) 4 (Crypto.errno (crypto s)) Hcl Hwi) as E.
      unfold bind at 1, read_full at 1. change (Z.to_nat 5) with 5%nat. rewrite E. change (0 <=? 0) with true. change (0 =? 0) with true. cbv iota. by eexists. }
    destruct B as [s1 B]. exists s1. by rewrite (bind_run _ _ _ _ _ B). }
  destruct R as [s1 R]. exists (set_tls (set_state ST_CLOSED (tls s1)) s1). split; [|done].
  rewrite (bind_run _ _ s (inr (0, [])) (set_tls (set_state ST_CLOSED (tls s1)) s1)); [done|].
  run (the_run app_off s). run (the_run app_len s). run (the_run app s). rewrite (proj2 (Z.ltb_ge _ _)) by lia. run R. done.
Qed.

(** Several reads: what each stored. *)
Fixpoint reads (ns : list Z) : St (st D) (list str) :=
  match ns with
  | [] => ret []
  | n :: ns => let* (_, out) := cact_tls_read true true n in let* outs := reads ns in ret (out :: outs)
  end.

Lemma reads_closed ns s : state (tls s) = ST_CLOSED -> reads ns s = Some (repeat [] (length ns), s).
Proof.
  intros Hs. induction ns as [|n ns IH]; [done|]. cbn [reads]. rewrite (bind_run _ _ s (0, []) s).
  - by rewrite (bind_run _ _ _ _ _ IH).
  - unfold cact_tls_read. cbn [negb orb]. run (the_run state s). by rewrite Hs.
Qed.

Lemma concat_empties {A} k : concat (repeat (@nil A) k) = [].
Proof. by induction k. Qed.

Lemma reads_stream ns left ls s : carries s left ls -> Forall (fun n => 0 < n) ns ->
  exists outs rest s', reads ns s = Some (outs, s') /\ left ++ concat ls = concat outs ++ rest /\ (Forall (fun o => o <> []) outs \/ rest = []).
Proof.
  intros Hc Hns. revert left ls s Hc. induction Hns as [|n ns Hn _ IH]; intros left ls s Hc.
  { exists [], (left ++ concat ls), s. split_and!; [done|done|]. by left. }
  cbn [reads]. destruct (decide (left = [])) as [->|Hl]; [destruct ls as [|l ls]|].
  - destruct (read_end n s Hc Hn) as (s1 & E & Hs1). run E. rewrite (bind_run _ _ _ _ _ (reads_closed ns s1 Hs1)).
    eexists _, [], _. split_and!; [done| |by right]. cbn. by rewrite concat_empties.
  - destruct (read_next n l ls s Hc Hn) as (out & left' & s1 & E & Hc1 & Ho & _ & ->). run E.
    destruct (IH left' ls s1 Hc1) as (outs & rest & s2 & E2 & Eq & Hp). run E2. eexists _, rest, _. split_and!; [done| |].
    + cbn. by rewrite <- !app_assoc, Eq.
    + destruct Hp; [left; by constructor|by right].
  - destruct (read_left n left ls s Hc Hl Hn) as (out & left' & s1 & E & Hc1 & Ho & _ & ->). run E.
    destruct (IH left' ls s1 Hc1) as (outs & rest & s2 & E2 & Eq & Hp). run E2. eexists _, rest, _. split_and!; [done| |].
    + cbn. by rewrite <- !app_assoc, Eq.
    + destruct Hp; [left; by constructor|by right].
Qed.

(** ** From one end to the other *)

Fixpoint writes (bufs : list str) : St (st D) (list Z) :=
  match bufs with
  | [] => ret []
  | b :: bufs => let* r := cact_tls_write true (Crypto.Buf b) in let* rs := writes bufs in ret (r :: rs)
  end.

(** A call writes at most one record. *)
Definition one_record (b : str) : str := take (Z.to_nat MAX_PLAIN) b.

Lemma one_record_length b : Z.of_nat (length (one_record b)) = Z.min (Z.of_nat (length b)) MAX_PLAIN.
Proof. unfold one_record, MAX_PLAIN. rewrite length_take. lia. Qed.

Lemma one_record_chunk b : b <> [] -> chunk_ok (one_record b).
Proof. intros Hb. split; [|rewrite one_record_length; lia]. destruct b; [done|]. unfold one_record, MAX_PLAIN. by destruct (Z.to_nat 16384) eqn:?. Qed.

Lemma writes_wire bufs s : tls_ok (tls s) -> state (tls s) <> ST_CLOSED -> wr_enc (tls s) = true -> dir_ok (wr (tls s)) -> takes (win s) ->
  exists s', writes bufs s = Some ((fun b => Z.of_nat (length (one_record b))) <$> bufs, s') /\ sent s' = sent s ++ wire (wr (tls s)) (one_record <$> bufs).
Proof.
  revert s. induction bufs as [|b bufs IH]; intros s Hok Hop Hen Hdi Htk.
  { exists s. cbn. by rewrite app_nil_r. }
  cbn [writes]. destruct (send_run CT_APP (one_record b) s Hok Hen Hdi) as (s1 & r & p & E1 & T1 & K1 & S1 & W1 & _); [rewrite one_record_length; lia|done|].
  assert (E : cact_tls_write true (Crypto.Buf b) s = Some (Z.of_nat (length (one_record b)), s1)).
  { unfold cact_tls_write. cbn [negb orb Crypto.wild Crypto.bytes]. run (the_run state s). cbv zeta. rewrite one_record_length.
    replace (take (Z.to_nat _) b) with (one_record b).
    - destruct (state (tls s)); [|..|done]; by run E1.
    - unfold one_record. destruct (Z.min_spec (Z.of_nat (length b)) MAX_PLAIN) as [[? ->]|[? ->]]; [|done]. rewrite !take_ge by lia. done. }
  run E. destruct (IH s1) as (s2 & E2 & S2); [done|by rewrite T1..|done|]. run E2. eexists. split; [done|]. rewrite S2, S1, T1, <- app_assoc. done.
Qed.

(** C14: application data crosses the connection unchanged.  Let one end write
    any sequence of non-empty buffers, each call taking the first 16384 bytes
    and saying how many it took, on a socket that takes the bytes in pieces
    without failing; let the other end, open, holding the same key, iv and
    sequence number and with nothing buffered, receive those bytes, cut by the
    network in any way.  Then reads with any sequence of non-zero buffer sizes
    give the taken bytes in order, and each gives some until all have been
    read.  The device is one that opens what it sealed.  (An empty write is a
    record without data, which the reader takes for the end:
    [empty_record_reads_zero].) *)
Theorem data_roundtrip bufs ns sw sr :
  tls_ok (tls sw) -> state (tls sw) <> ST_CLOSED -> wr_enc (tls sw) = true -> dir_ok (wr (tls sw)) -> takes (win sw) -> Forall (fun b => b <> []) bufs ->
  tls_ok (tls sr) -> state (tls sr) <> ST_CLOSED -> rd_enc (tls sr) = true -> rd (tls sr) = wr (tls sw) -> app_len (tls sr) = app_off (tls sr) ->
  Forall (fun n => 0 < n) ns ->
  exists sw', writes bufs sw = Some ((fun b => Z.of_nat (length (one_record b))) <$> bufs, sw') /\
    (clean (rin sr) -> sent sw' = sent sw ++ stream (rin sr) ->
     exists outs rest sr', reads ns sr = Some (outs, sr') /\ concat (one_record <$> bufs) = concat outs ++ rest /\ (Forall (fun o => o <> []) outs \/ rest = [])).
Proof.
  intros Hok Hop Hen Hdi Htk Hb Rok Rop Ren Rdi Rap Hns.
  destruct (writes_wire bufs sw) as (sw' & E & S); [done..|]. exists sw'. split; [done|].
  intros Hcl Hst. rewrite S in Hst. apply app_inv_head in Hst. apply (reads_stream ns [] (one_record <$> bufs) sr); [|done].
  split; try done; rewrite ?Rdi; [done|done| |].
  - apply Forall_fmap. eapply Forall_impl; [|exact Hb]. apply one_record_chunk.
  - pose proof (app_in _ Rok). pose proof (app_arr_len _ Rok). rewrite Rap, Z.sub_diag. rewrite slice_some by lia. by rewrite take_0.
Qed.
End Records.
End TlsRecord.
