(* ===== verification/TlsAuth.v ===== *)
(** * TlsAuth: what a completed handshake of the TLS client means

    When [cact_tls_connect] ends in the application state, the kernel accepted the
    server's chain for the host name and, unless the server named scheme 0, its
    signature over the transcript, the
    server's Finished is the one of the shared secret, and the keys in use are
    those of the schedule; the other ways in which the call returns a
    connection are in [TlsWorld]. *)

From Stdlib Require Import ZArith Lia Bool String Ascii.
From stdpp Require Import base list numbers.
From S2P Require Import Prelude Monad Dlfcn Crypto TlsRoots TlsClient TlsSafe TlsKeys.

Module TlsAuth.
Import TlsClient TlsSafe TlsKeys.

(** ** What the parts keep *)

(** The name and the secrets; and only the end of the handshake makes the
    application state. *)
Record kept (t t' : cact_tls) : Prop := {
  kc_host : hostname t' = hostname t; kc_enc : rd_enc t' = rd_enc t; kc_sec : hs_secret t' = hs_secret t;
  kc_c : c_hs t' = c_hs t; kc_s : s_hs t' = s_hs t; kc_ca : c_ap t' = c_ap t; kc_sa : s_ap t' = s_ap t;
  kc_state : state t <> ST_APP -> state t' <> ST_APP
}.
(** The transcript and the certificates too. *)
Record keep (t t' : cact_tls) : Prop := { kp_k : kept t t'; kp_tr : tr t' = tr t; kp_chain : chain t' = chain t }.

#[global] Instance kept_preorder : PreOrder kept.
Proof. split; [by split|]. intros t1 t2 t3 [] []. split; try congruence. auto. Qed.

#[global] Instance keep_preorder : PreOrder keep.
Proof. split; [by split|]. intros t1 t2 t3 [] []. split; [by transitivity t2|congruence..]. Qed.

Section Pres.
Context {D : Type} `{CD : Crypto.CryptoDev D} `{HO : Host} `{Bs : TlsRoots.Bundles}.
Context (R : cact_tls -> cact_tls -> Prop) `{!PreOrder R}.
Abbreviation C := (St (st D)).

Definition pres {A} (c : C A) : Prop := forall s, wlp c s (fun _ s' => R (tls s) (tls s') /\ roots s' = roots s).

Section Rules.
Context {A B : Type}.

Lemma pres_ret (a : A) : pres (ret a).
Proof. intros s. by apply wlp_ret. Qed.

Lemma pres_bind (c : C A) (k : A -> C B) : pres c -> (forall a, pres (k a)) -> pres (bind c k).
Proof.
  intros Hc Hk s. apply wlp_bind. eapply wlp_mono; [apply Hc|]. intros a s1 [H1 E1]. eapply wlp_mono; [apply Hk|]. intros b s2 [H2 E2].
  split; [by transitivity (tls s1)|congruence].
Qed.

Lemma pres_gets (f : st D -> A) : pres (gets f).
Proof. intros s. by apply wlp_gets. Qed.

Lemma pres_lift (o : option A) : pres (lift o).
Proof. intros s a s'. unfold lift. destruct o; [|done]. by intros [= <- <-]. Qed.

Lemma pres_fault : pres (@fault (st D) A).
Proof. done. Qed.

Lemma pres_kernel (c : St (Crypto.cst D) A) : pres (kernel c).
Proof. intros s a s'. unfold kernel. destruct (c _) as [[]|]; [|done]. by intros [= <- <-]. Qed.
End Rules.

Lemma pres_loop {X A} (body : X -> C (X + A)) fuel x : (forall x, pres (body x)) -> pres (loop fuel body x).
Proof.
  intros H s. apply (wlp_loop (fun _ s' => R (tls s) (tls s') /\ roots s' = roots s)); [|done].
  intros y s1 [H1 E1]. eapply wlp_mono; [apply H|]. intros [] s2 [H2 E2]; (split; [by transitivity (tls s1)|congruence]).
Qed.

Lemma pres_upd f : (forall t, R t (f t)) -> pres (upd f).
Proof. intros H s. by apply wlp_modify. Qed.

Lemma pres_err_set m : pres (err_set m).
Proof. intros s. by apply wlp_modify. Qed.

Lemma pres_live k : pres (live_add k).
Proof. intros s. by apply wlp_modify. Qed.

Lemma pres_alloc n : pres (alloc n).
Proof. intros s a s' [= <- <-]. done. Qed.

Lemma pres_read n : pres (read_full n).
Proof. intros s a s'. unfold read_full. destruct (read_loop _ _ _ _) as [[[]]|]; [|done]. by intros [= <- <-]. Qed.

Lemma pres_write l : pres (write_full l).
Proof. intros s a s'. unfold write_full. destruct (write_loop _ _ _ _) as [[[]]|]; [|done]. by intros [= <- <-]. Qed.
End Pres.

(** Walks through a computation; the updates are left. *)
Ltac pres_step :=
  cbv beta iota zeta; lazymatch goal with
  | |- pres _ (bind _ _) => apply pres_bind; [exact _|..|intros ?]
  | |- pres _ (ret _) => apply pres_ret; exact _
  | |- pres _ (continue _) => apply pres_ret; exact _
  | |- pres _ (break _) => apply pres_ret; exact _
  | |- pres _ (gets _) => apply pres_gets; exact _
  | |- pres _ (the _) => apply pres_gets; exact _
  | |- pres _ (lift _) => apply pres_lift; exact _
  | |- pres _ (kernel _) => apply pres_kernel; exact _
  | |- pres _ (hmac _ _) => apply pres_kernel; exact _
  | |- pres _ (sha256 _) => apply pres_kernel; exact _
  | |- pres _ fault => apply pres_fault
  | |- pres _ (err_set _) => apply pres_err_set; exact _
  | |- pres _ (err _) => unfold err
  | |- pres _ (live_add _) => apply pres_live; exact _
  | |- pres _ (alloc _) => apply pres_alloc; exact _
  | |- pres _ (read_full _) => apply pres_read; exact _
  | |- pres _ (write_full _) => apply pres_write; exact _
  | |- pres _ (loop _ _ _) => apply pres_loop; [exact _|intros ?]
  | |- pres _ (if ?b then _ else _) => destruct b
  | |- pres _ (match ?x with _ => _ end) => destruct x
  | |- pres _ (upd _) => apply pres_upd; intros ?
  end.

Section Parts.
Context {D : Type} `{CD : Crypto.CryptoDev D} `{HO : Host} `{Bs : TlsRoots.Bundles}.
Abbreviation C := (St (st D)).

Lemma pres_free R `{!PreOrder R} b : pres (D := D) R (free b).
Proof. unfold free. by repeat pres_step. Qed.

Lemma pres_grow R `{!PreOrder R} b n : pres (D := D) R (grow b n).
Proof. unfold grow. by repeat pres_step. Qed.

Lemma pres_append R `{!PreOrder R} b l : pres (D := D) R (append b l).
Proof. unfold append. apply pres_bind; [exact _|apply pres_grow; exact _|]. intros []. repeat pres_step. Qed.

Lemma pres_append_all R `{!PreOrder R} b ls : pres (D := D) R (append_all b ls).
Proof. revert b. induction ls as [|l ls IH]; intros b; cbn [append_all]; [apply pres_ret; exact _|]. apply pres_bind; [exact _|apply pres_append; exact _|]. intros []. by repeat pres_step. Qed.

Lemma pres_send ty l : pres (D := D) keep (send_record ty l).
Proof. unfold send_record. repeat pres_step; done. Qed.

Lemma pres_recv : pres (D := D) keep recv_record.
Proof. unfold recv_record, recv_body, open_record. repeat pres_step; done. Qed.

Lemma pres_alert n : pres (D := D) keep (handle_alert n).
Proof. unfold handle_alert. repeat pres_step; done. Qed.

Lemma pres_hs_next : pres (D := D) keep hs_next.
Proof.
  unfold hs_next. repeat pres_step. unfold hs_body. apply pres_bind; [exact _|unfold hs_compact; repeat pres_step; done|]. intros _.
  assert (pres (D := D) keep hs_receive).
  { unfold hs_receive. apply pres_bind; [exact _|apply pres_recv|]. intros [r [ty n]]. repeat pres_step; try done.
    - unfold hs_append. pres_step; [by pres_step|]. pres_step; [by pres_step|]. apply pres_bind; [exact _|apply pres_append; exact _|]. intros []. repeat pres_step; done.
    - apply pres_alert. }
  repeat pres_step; done.
Qed.

(** ** Buffers *)

Implicit Types s : st D.

Lemma append_wlp b l s : wlp (append b l) s (fun '(r, b') s' => tls s' = tls s /\ roots s' = roots s /\ (r = 0 -> data b' = data b ++ l)).
Proof.
  intros [r b'] s' E. pose proof (pres_append eq b l s _ _ E) as [-> ->]. split_and!; [done..|]. revert E. unfold append, grow, bind.
  destruct (_ <=? cap b); [by intros [= <- <- <-]|]. unfold lift. set (o := double _ _ _). destruct o as [n|]; [|done]. unfold alloc.
  destruct (grants _ n); cbn; [|by intros [= <- <- <-]]. by destruct (cap b =? 0); intros [= <- <- <-].
Qed.

Lemma append_all_wlp b ls s : wlp (append_all b ls) s (fun '(r, b') s' => tls s' = tls s /\ roots s' = roots s /\ (r = 0 -> data b' = data b ++ concat ls)).
Proof.
  revert b s. induction ls as [|l ls IH]; intros b s; cbn [append_all].
  - apply wlp_ret. by rewrite app_nil_r.
  - apply wlp_bind. eapply wlp_mono; [apply append_wlp|]. intros [r b1] s1 (E1 & R1 & Hd). cbv beta iota. destruct (Z.eqb_spec r 0) as [->|]; cbn [negb].
    + eapply wlp_mono; [apply IH|]. intros [r2 b2] s2 (E2 & R2 & Hd2). split_and!; [congruence..|]. intros Hr. rewrite (Hd2 Hr), (Hd eq_refl). cbn. by rewrite <- app_assoc.
    + by apply wlp_ret.
Qed.

(** The transcript grows by the message, and nothing else changes. *)
Lemma tr_add_wlp m s : wlp (tr_add m) s (fun r s' => exists b, tls s' = set_tr b (tls s) /\ roots s' = roots s /\ (r = 0 -> data b = data (tr (tls s)) ++ m)).
Proof.
  unfold tr_add, the, upd. wlp_pure. eapply wlp_mono; [apply append_wlp|]. intros [r b] s1 (E & R & Hd). wlp_pure. exists b. cbn [tls roots]. by rewrite E.
Qed.

(** ** Certificates *)

(** The certificates of a message, as RFC 8446, 4.4.2 lays them out. *)
Fixpoint cert_entries (fuel : nat) (b : str) (o ends : Z) : option (list str) :=
  match fuel with
  | O => None
  | S fuel =>
      if ends <=? o then Some []
      else
        clen ← be24 b o;
        c ← slice (o + 3) clen b;
        ext ← be16 b (o + 3 + clen);
        cs ← cert_entries fuel b (o + 5 + clen + ext) ends;
        Some (c :: cs)
  end.

Definition certificates (b : str) : option (list str) :=
  ctx ← byte b 0; n ← be24 b (1 + ctx); cert_entries (S (length b)) b (4 + ctx) (4 + ctx + n).

Lemma err_chain (A : gbuf -> Prop) m s : wlp (err m) s (fun r s' => roots s' = roots s /\ exists c, tls s' = set_chain c (tls s) /\ (r = 0 -> A c)).
Proof. unfold err, err_set. wlp_pure. split; [done|]. exists (chain (tls s)). split; [cbn; by destruct (tls s)|done]. Qed.

Lemma cert_loop_wlp fuel b o ends s : wlp (cert_loop fuel b o ends) s (fun r s' =>
  roots s' = roots s /\ exists c, tls s' = set_chain c (tls s) /\
    (r = 0 -> exists cs, cert_entries fuel b o ends = Some cs /\ data c = data (chain (tls s)) ++ concat cs)).
Proof.
  revert o s. induction fuel as [|fuel IH]; intros o s; [done|]. cbn [cert_loop cert_entries]. rewrite Z.leb_antisym. destruct (o <? ends); cbn [negb].
  2:{ apply wlp_ret. split; [done|]. exists (chain (tls s)). split; [by destruct (tls s)|]. exists []. by rewrite app_nil_r. }
  destruct (o + 3 >? ends); [exact (err_chain _ _ _)|]. apply wlp_bind. intros clen s1 E1. unfold lift in E1. destruct (be24 b o) as [cl|]; [|done]. injection E1 as -> <-. cbv beta zeta.
  destruct (_ || _); [exact (err_chain _ _ _)|]. apply wlp_bind. intros l s2 E2. unfold lift in E2. destruct (slice (o + 3) clen b) as [l'|] eqn:El; [|done]. injection E2 as -> <-.
  unfold the. wlp_pure. eapply wlp_mono; [apply append_wlp|]. intros [r c] s2 (T2 & R2 & H2). unfold upd. wlp_pure.
  set (s3 := S_ _ _ _ _ _ _ _ _ _). assert (K : forall (A : gbuf -> Prop) m, wlp (err m) s3 (fun r s' => roots s' = roots s /\ exists c, tls s' = set_chain c (tls s) /\ (r = 0 -> A c))).
  { intros A m. eapply wlp_mono; [exact (err_chain A _ _)|]. intros r' s' (R' & c' & T' & H'). split; [rewrite R'; exact R2|]. exists c'. split; [|exact H']. rewrite T'. cbn. by rewrite T2. }
  destruct (Z.eqb_spec r 0) as [->|]; cbn [negb]; [|exact (K _ _)]. destruct (_ >? ends); [exact (K _ _)|].
  apply wlp_bind. intros el s4 E4. unfold lift in E4. destruct (be16 b (o + 3 + clen)) as [e'|] eqn:Ee; [|done]. injection E4 as -> <-. destruct (_ >? ends); [exact (K _ _)|].
  eapply wlp_mono; [apply IH|]. intros r' s' (R' & c' & T' & H'). split; [rewrite R'; exact R2|]. exists c'. split; [rewrite T'; cbn; by rewrite T2|]. intros Hr'.
  destruct (H' Hr') as (cs & Ecs & Ec). exists (l :: cs). cbn [mbind option_bind]. rewrite El. cbn [mbind option_bind]. rewrite Ee. cbn [mbind option_bind].
  replace (o + 5 + clen + el) with (o + 3 + clen + 2 + el) by lia. rewrite Ecs. split; [done|]. rewrite Ec. cbn. rewrite H2 by done. by rewrite <- app_assoc.
Qed.

Lemma certificate_wlp b s : wlp (handle_certificate b) s (fun r s' =>
  roots s' = roots s /\ exists c, tls s' = set_chain c (tls s) /\
    (r = 0 -> exists cs, certificates b = Some cs /\ data c = data (chain (tls s)) ++ concat cs)).
Proof.
  unfold handle_certificate, certificates. cbv zeta. destruct (_ <? 4); [exact (err_chain _ _ _)|].
  apply wlp_bind. intros cl s1 E1. unfold lift in E1. destruct (byte b 0) as [x|]; [|done]. injection E1 as -> <-. destruct (_ >? _); [exact (err_chain _ _ _)|].
  apply wlp_bind. intros ll s2 E2. unfold lift in E2. destruct (be24 b (1 + cl)) as [x|] eqn:El; [|done]. injection E2 as -> <-. destruct (_ >? _); [exact (err_chain _ _ _)|].
  apply wlp_bind. eapply wlp_mono; [apply cert_loop_wlp|]. intros r s3 (R3 & c & T3 & H3).
  destruct (Z.eqb_spec r 0) as [->|]; cbn [negb]; [|apply wlp_ret; split; [done|]; by exists c].
  unfold the. wlp_pure. destruct (len _ =? 0).
  - unfold err, err_set. wlp_pure. split; [done|]. by exists c.
  - apply wlp_ret. split; [done|]. exists c. split; [done|]. intros _. destruct (H3 eq_refl) as (cs & Ecs & Ed). exists cs. split; [|done].
    cbn [mbind option_bind]. rewrite El. cbn [mbind option_bind]. by replace (4 + cl) with (1 + cl + 3) by lia.
Qed.

(** ** Messages *)

Definition mtype (m : str) : Z := default (-1) (byte m 0).

Lemma wlp_lifted {A} (o : option A) s Q : (forall a, o = Some a -> Q a s) -> wlp (lift o) s Q.
Proof. intros H a s'. unfold lift. destruct o; [|done]. intros [= <- <-]. by apply H. Qed.

Lemma alert_code n s : wlp (handle_alert n) s (fun r _ => r <= 0).
Proof.
  unfold handle_alert, err, err_set, upd, the. destruct (n <? 2); [by wlp_pure|]. wlp_pure. apply wlp_lifted. intros code _.
  by destruct (code =? _); wlp_pure.
Qed.

Definition msg_ok {X} (r : X + (Z * (Z * str))) : Prop := match r with inl _ => True | inr (r, (ty, m)) => 0 < r -> mtype m = ty end.

Lemma hs_receive_msg s : wlp hs_receive s (fun r _ => msg_ok r).
Proof.
  unfold hs_receive, err, err_set, the. apply wlp_bind. intros [r [ty n]] s1 _. cbv beta iota. destruct (Z.leb_spec r 0); [apply wlp_ret; cbn; lia|].
  destruct (ty =? _); [|destruct (ty =? _)].
  - wlp_pure. apply wlp_lifted. intros l _. wlp_pure. intros e s2 _. destruct (negb _); wlp_pure; [by apply wlp_ret|]. by apply wlp_ret.
  - apply wlp_bind. eapply wlp_mono; [apply alert_code|]. intros a s2 Ha. cbv beta in Ha. apply wlp_ret. cbn. lia.
  - wlp_pure. by apply wlp_ret.
Qed.

Lemma hs_next_wlp s : wlp hs_next s (fun '(r, (ty, m)) s' => keep (tls s) (tls s') /\ roots s' = roots s /\ (0 < r -> mtype m = ty)).
Proof.
  assert (M : wlp hs_next s (fun r _ => msg_ok (X := unit) (inr r))).
  { unfold hs_next. wlp_pure. apply (wlp_loop (fun _ _ => True)); [|done]. intros [] s1 _.
    enough (W : wlp (hs_body tt) s1 (fun r _ => msg_ok r)) by (eapply wlp_mono; [exact W|]; by intros [|]).
    unfold hs_body. apply wlp_bind. intros [] s2 _. unfold the. wlp_pure. destruct (Z.geb_spec (len (hs (tls s2))) 4) as [Hl|]; [|apply hs_receive_msg].
    unfold len in *. apply wlp_bind, wlp_lifted. intros ml E. destruct (be24_some (data (hs (tls s2))) 1) as (x & E' & Hx); [lia..|].
    assert (x = ml) as -> by congruence. destruct (ml >? _); [unfold err, err_set; wlp_pure; by apply wlp_ret|].
    destruct (Z.geb_spec (Z.of_nat (length (data (hs (tls s2))))) (4 + ml)); [|apply hs_receive_msg].
    apply wlp_bind, wlp_lifted. intros ty Ety. apply wlp_bind, wlp_lifted. intros m Em. unfold upd. wlp_pure. apply wlp_ret. cbn. intros _.
    rewrite slice_some in Em by lia. injection Em as <-. unfold mtype, byte in *. cbn [Z.leb Z.compare] in *. change (Z.to_nat 0) with 0%nat in *.
    rewrite drop_0, lookup_take_lt by lia. by rewrite Ety. }
  intros [r [ty m]] s' E. pose proof (pres_hs_next s _ _ E) as [? ?]. pose proof (M _ _ E). done.
Qed.

(** The hello of the client, RFC 8446, 4.1.2, with the extensions it sends. *)
Definition client_hello (random sid host pub : str) : str :=
  let hl := Z.of_nat (length host) in
  let sni := enc16 (hl + 3) ++ [0] ++ enc16 hl ++ host in
  let ext := [0; 0] ++ enc16 (Z.of_nat (length sni)) ++ sni ++ ext_groups ++ concat ext_schemes ++ ext_versions ++ ext_share ++ pub in
  let body := [3; 3] ++ random ++ [32] ++ sid ++ [0; 2] ++ enc16 TLS_SUITE_AES128_GCM_SHA256 ++ [1; 0] ++ enc16 (Z.of_nat (length ext)) ++ ext in
  [HS_CLIENT_HELLO; u8 (Z.shiftr (Z.of_nat (length body)) 16)] ++ enc16 (Z.of_nat (length body)) ++ body.

Lemma free_wlp b s : wlp (free b) s (fun _ s' => tls s' = tls s /\ roots s' = roots s).
Proof. intros r s' E. by pose proof (pres_free eq b s _ _ E) as [-> ->]. Qed.

Lemma kernel_wlp {A} (c : St (Crypto.cst D) A) s : wlp (kernel c) s (fun _ s' => tls s' = tls s /\ roots s' = roots s).
Proof. intros r s' E. by pose proof (pres_kernel eq c s _ _ E) as [-> ->]. Qed.

Lemma oom_wlp (A : gbuf -> Prop) b e t ro s : tls s = t /\ roots s = ro -> wlp (oom b e) s (fun '(r, m) s' => (tls s' = t /\ roots s' = ro) /\ (r = 0 -> A m)).
Proof.
  intros H. unfold oom, err_set. wlp_pure. eapply wlp_mono; [apply free_wlp|]. intros _ s1 [T1 R1]. wlp_pure. eapply wlp_mono; [apply free_wlp|]. intros _ s2 [T2 R2].
  apply wlp_ret. split; [|done]. rewrite T2, T1, R2, R1. done.
Qed.

Lemma client_hello_wlp pub s : wlp (build_client_hello pub) s (fun '(r, m) s' => (tls s' = tls s /\ roots s' = roots s) /\
  (r = 0 -> exists random sid, data m = client_hello random sid (hostname (tls s)) pub)).
Proof.
  unfold build_client_hello. cbv zeta. set (Q := fun m : gbuf => exists random sid, data m = client_hello random sid (hostname (tls s)) pub).
  assert (Rand : forall s1, tls s1 = tls s /\ roots s1 = roots s ->
    wlp (let* _ := err_set (txt "no randomness available") in ret (-1, no_buf)) s1 (fun '(r, m) s' => (tls s' = tls s /\ roots s' = roots s) /\ (r = 0 -> Q m))).
  { intros s1 H. unfold err_set. by wlp_pure. }
  apply wlp_bind. eapply wlp_mono; [apply kernel_wlp|]. intros [e random] s1 [T1 R1]. cbv beta iota. destruct (e =? 0); cbn [negb]; [|by apply Rand].
  apply wlp_bind. eapply wlp_mono; [apply kernel_wlp|]. intros [e1 sid] s2 [T2 R2]. cbv beta iota. destruct (e1 =? 0); cbn [negb]; [|apply Rand; split; congruence].
  apply wlp_bind. eapply wlp_mono; [apply append_all_wlp|]. intros [r body] s3 (T3 & R3 & D3). cbv beta iota.
  destruct (Z.eqb_spec r 0) as [->|]; cbn [negb]; [|apply oom_wlp; split; congruence]. unfold the. wlp_pure.
  assert (E3 : hostname (tls s3) = hostname (tls s)) by congruence. rewrite E3. set (host := hostname (tls s)) in *.
  eapply wlp_mono; [apply append_all_wlp|]. intros [r e2] s4 (T4 & R4 & D4). cbv beta iota. destruct (Z.eqb_spec r 0) as [->|]; cbn [negb orb].
  2:{ apply wlp_bind. eapply wlp_mono; [apply free_wlp|]. intros _ s5 [T5 R5]. apply oom_wlp; split; congruence. }
  destruct (_ >? _).
  { apply wlp_bind. eapply wlp_mono; [apply free_wlp|]. intros _ s5 [T5 R5]. apply oom_wlp; split; congruence. }
  apply wlp_bind. eapply wlp_mono; [apply append_all_wlp|]. intros [r ext] s5 (T5 & R5 & D5). cbv beta iota.
  apply wlp_bind. eapply wlp_mono; [apply free_wlp|]. intros _ s6 [T6 R6]. destruct (Z.eqb_spec r 0) as [->|]; cbn [negb]; [|apply oom_wlp; split; congruence].
  apply wlp_bind. eapply wlp_mono; [apply append_all_wlp|]. intros [r ext'] s7 (T7 & R7 & D7). cbv beta iota.
  destruct (Z.eqb_spec r 0) as [->|]; cbn [negb]; [|apply oom_wlp; split; congruence].
  apply wlp_bind. eapply wlp_mono; [apply append_all_wlp|]. intros [r body'] s8 (T8 & R8 & D8). cbv beta iota.
  destruct (Z.eqb_spec r 0) as [->|]; cbn [negb]; [|apply oom_wlp; split; congruence].
  apply wlp_bind. eapply wlp_mono; [apply free_wlp|]. intros _ s9 [T9 R9].
  apply wlp_bind. eapply wlp_mono; [apply append_all_wlp|]. intros [r msg] s10 (T10 & R10 & D10). cbv beta iota.
  destruct (Z.eqb_spec r 0) as [->|]; cbn [negb].
  2:{ apply wlp_bind. eapply wlp_mono; [apply free_wlp|]. intros _ s11 [T11 R11]. apply oom_wlp; split; congruence. }
  apply wlp_bind. eapply wlp_mono; [apply free_wlp|]. intros _ s11 [T11 R11]. apply wlp_ret. split; [split; congruence|]. intros _. exists random, sid.
  specialize (D3 eq_refl). specialize (D4 eq_refl). specialize (D5 eq_refl). specialize (D7 eq_refl). specialize (D8 eq_refl). specialize (D10 eq_refl).
  unfold client_hello, ext_schemes, len in *. rewrite D10, D8, D3, D7, D5, D4. cbn [concat data no_buf Datatypes.app]. rewrite !app_nil_r.
  repeat (rewrite <- ?app_assoc; cbn [Datatypes.app]). done.
Qed.
End Parts.

(** ** The server's hello *)

Lemma sh_loop_peer fuel b o ends ver peer v k :
  (forall p, peer = Some p -> length p = 32%nat) -> sh_loop fuel b o ends ver peer = Some (inr (v, Some k)) -> length k = 32%nat.
Proof.
  revert o ver peer. induction fuel as [|fuel IH]; intros o ver peer Hp; cbn [sh_loop]; [done|].
  destruct (o + 4 <=? ends); [|by intros [= _ ->]; apply Hp]. destruct (be16 b o) as [ty|]; [|done]. destruct (be16 b (o + 2)) as [el|]; [|done]. cbn [mbind option_bind].
  destruct (_ >? ends); [done|]. destruct (ty =? 43).
  { destruct (if el =? 2 then _ else _) as [ok|]; [|done]. by apply IH. }
  destruct (ty =? 51); [|by apply IH]. destruct (el >=? _); [|by apply IH]. destruct (be16 b (o + 4)); [|done]. destruct (be16 b (o + 4 + 2)); [|done]. cbn [mbind option_bind].
  destruct (_ && _); [|by apply IH]. destruct (slice (o + 4 + 4) 32 b) as [x|] eqn:Ex; [|done]. apply IH. intros p [= <-]. apply tslice_length in Ex. lia.
Qed.

Lemma server_hello_peer b p : parse_server_hello b = Some (inr p) -> length p = 32%nat.
Proof.
  unfold parse_server_hello. destruct (_ <? _); [done|]. destruct (slice 2 32 b); [|done]. cbn [mbind option_bind]. destruct (bool_decide _); [done|].
  destruct (byte b 34) as [sl|]; [|done]. cbn [mbind option_bind]. destruct (_ >? _); [done|]. destruct (be16 b (35 + sl)); [|done]. cbn [mbind option_bind].
  destruct (negb _); [done|]. destruct (_ >? _); [done|]. destruct (be16 b (35 + sl + 2 + 1)) as [el|]; [|done]. cbn [mbind option_bind]. destruct (_ >? _); [done|].
  destruct (sh_loop _ _ _ _ _ _) as [[|[[] [k|]]]|] eqn:E; try done. intros [= <-]. by apply sh_loop_peer in E.
Qed.

(** ** The flight of the server *)

Lemma bytes_equal_eq a b : length a = length b -> bytes_equal a b = true -> a = b.
Proof.
  unfold bytes_equal. intros Hl. apply Forall2_same_length in Hl. induction Hl as [|x y a b _ _ IH]; cbn; [done|]. rewrite Z.eqb_eq, Z.lor_eq_0_iff. intros [Hx Ha].
  apply Z.lxor_eq in Hx as ->. f_equal. apply IH. by apply Z.eqb_eq.
Qed.

Definition seen (ty : Z) (ms : list str) : Prop := Exists (fun m => mtype m = ty) ms.

(** The certificates of the messages, in order. *)
Definition certs_of (ms : list str) : str :=
  concat ((fun m => if mtype m =? HS_CERTIFICATE then concat (default [] (certificates (drop 4 m))) else []) <$> ms).

Lemma certs_of_snoc ms m : certs_of (ms ++ [m]) = certs_of ms ++ (if mtype m =? HS_CERTIFICATE then concat (default [] (certificates (drop 4 m))) else []).
Proof. unfold certs_of. rewrite fmap_app, concat_app. cbn. by rewrite app_nil_r. Qed.

Section Auth.
Context {D : Type} `{CD : Crypto.CryptoDev D} `{HO : Host} `{Bs : TlsRoots.Bundles} (P : Prims) `{POk : !PrimsOk P} `{Dev : !Device P}.
Implicit Types s : st D.

(** One of the messages carries a signature over those before it, which the
    kernel accepted with the certificates, for the name and the time; of scheme
    0 it does not look at the signature. *)
Definition verified (base host : str) (ro : option str) (ms : list str) : Prop :=
  exists ms1 cv ms2 r scheme n sig, ms = ms1 ++ cv :: ms2 /\ mtype cv = HS_CERTIFICATE_VERIFY /\
    be16 (drop 4 cv) 0 = Some scheme /\ be16 (drop 4 cv) 2 = Some n /\ slice 4 n (drop 4 cv) = Some sig /\ ro = Some r /\ certs_of ms1 <> [] /\
    trusted P (certs_of ms1) r host (u64 now) = true /\
    (scheme = 0 \/ signs P (certs_of ms1) scheme (cv_message (sha P (base ++ concat ms1))) sig = true).

Lemma verified_more base host ro ms m : verified base host ro ms -> verified base host ro (ms ++ [m]).
Proof. intros (ms1 & cv & ms2 & r & sc & n & sg & -> & H). exists ms1, cv, (ms2 ++ [m]), r, sc, n, sg. split; [|done]. by rewrite <- app_assoc. Qed.

Lemma x509_wlp c r h t sc m g s :
  wlp (kernel (Crypto.cact_x509_verify (Crypto.Buf c) (Crypto.Buf r) (Crypto.Buf h) t sc (Crypto.Buf m) (Crypto.Buf g))) s
    (fun e s' => (tls s' = tls s /\ roots s' = roots s) /\ (e = 0 -> x509 P c r h t sc m g = true)).
Proof.
  intros e s' E. split; [by apply (kernel_wlp _ _ _ _ E)|]. unfold kernel, Crypto.cact_x509_verify in E. intros ->.
  destruct (_ || _); [done|]. destruct (_ || _); [done|]. unfold Crypto.verdict, Crypto.nio_dev_cmd, bind in E. rewrite device_open, device_x509 in E.
  cbn [Crypto.bytes Crypto.result] in E. by destruct (x509 P c r h t sc m g).
Qed.

Lemma verify_wlp b s : wlp (handle_certificate_verify b) s (fun e s' => (tls s' = tls s /\ roots s' = roots s) /\
  (e = 0 -> exists r scheme n sig, be16 b 0 = Some scheme /\ be16 b 2 = Some n /\ slice 4 n b = Some sig /\ roots s = Some r /\ data (chain (tls s)) <> [] /\
     trusted P (data (chain (tls s))) r (hostname (tls s)) (u64 now) = true /\
     (scheme = 0 \/ signs P (data (chain (tls s))) scheme (cv_message (sha P (data (tr (tls s))))) sig = true))).
Proof.
  unfold handle_certificate_verify, err, err_set, the. cbv zeta. destruct (_ <? 4); [by wlp_pure|].
  apply wlp_bind, wlp_lifted. intros sc Esc. apply wlp_bind, wlp_lifted. intros n En. destruct (_ >? _); [by wlp_pure|]. wlp_pure.
  destruct (Z.eqb_spec (len (chain (tls s))) 0) as [|Hc]; [by wlp_pure|]. wlp_pure. destruct (roots s) as [[|x ro]|] eqn:Er; [by wlp_pure| |by wlp_pure].
  rewrite <- Er. set (r := x :: ro) in *. apply wlp_bind. intros [e th] s1 E1. rewrite (transcript_run P) in E1. injection E1 as <- <- <-. change (negb (0 =? 0)) with false. cbv iota.
  apply wlp_bind, wlp_lifted. intros sg Esg. wlp_pure. eapply wlp_mono; [apply x509_wlp|]. intros e s2 [[T2 R2] H2]. destruct (Z.eqb_spec e 0) as [->|]; cbn [negb]; wlp_pure; [|done].
  specialize (H2 eq_refl). unfold x509 in H2. apply andb_true_iff in H2 as [H2 [H3%Z.eqb_eq|H3]%orb_true_iff].
  all: split; [done|]; intros _; exists r, sc, n, sg; split_and!; auto; intros E; apply Hc; unfold len; by rewrite E.
Qed.

Section Flight.
Context (t0 : cact_tls) (base : str) (ro : option str).

(** The messages so far are in the transcript and their certificates in the
    chain. *)
Record flight (ms : list str) (s : st D) : Prop := {
  fl_kept : kept t0 (tls s); fl_tr : data (tr (tls s)) = base ++ concat ms; fl_chain : data (chain (tls s)) = certs_of ms; fl_roots : roots s = ro
}.

Definition flags_ok (ms : list str) '((ee, cert, cv) : bool * bool * bool) : Prop :=
  (ee = true -> seen HS_ENCRYPTED_EXTENSIONS ms) /\ (cert = true -> seen HS_CERTIFICATE ms) /\ (cv = true -> verified base (hostname t0) ro ms).

Lemma seen_more ty ms m : seen ty ms -> seen ty (ms ++ [m]).
Proof. intros H. by apply Exists_app; left. Qed.

Lemma seen_last ty ms m : mtype m = ty -> seen ty (ms ++ [m]).
Proof. intros H. apply Exists_app. right. by constructor. Qed.

Lemma flags_more ms m f : flags_ok ms f -> flags_ok (ms ++ [m]) f.
Proof. destruct f as [[ee cert] cv]. intros (H1 & H2 & H3). split_and!; intros E; [by apply seen_more, H1|by apply seen_more, H2|by apply verified_more, H3]. Qed.

(** Where the loop stands, and how it is left. *)
Definition going (f : bool * bool * bool) (s : st D) : Prop := exists ms, flight ms s /\ flags_ok ms f.
Definition left_with (r : Z + bool * bool * bool) (s : st D) : Prop :=
  kept t0 (tls s) /\ forall f, r = inr f -> exists ms fin, data (tr (tls s)) = base ++ concat ms ++ fin /\ roots s = ro /\ flags_ok ms f /\
    mtype fin = HS_FINISHED /\ drop 4 fin = Finished P (secret (s_hs t0)) (base ++ concat ms).

Abbreviation post := (fun r s' => match r with inl f => going f s' | inr r => left_with r s' end).

(** Leaving with an error, and adding a message to the transcript. *)
Lemma left_err m s : kept t0 (tls s) -> wlp (let* r := err m in break (inl r)) s post.
Proof. intros H. unfold err, err_set. wlp_pure. apply wlp_ret. by split. Qed.

Lemma left_code z s : kept t0 (tls s) -> wlp (break (inl z)) s post.
Proof. intros H. apply wlp_ret. by split. Qed.

Lemma message_added ms m f s : kept t0 (tls s) -> data (tr (tls s)) = base ++ concat ms -> data (chain (tls s)) = certs_of (ms ++ [m]) -> roots s = ro ->
  flags_ok (ms ++ [m]) f ->
  wlp (let* r := tr_add m in if negb (r =? 0) then let* r := err "out of memory" in break (inl r) else continue f) s post.
Proof.
  intros Hk Ht Hc Hr Hf. apply wlp_bind. eapply wlp_mono; [apply tr_add_wlp|]. intros r s1 (b & T1 & R1 & H1).
  assert (Hk1 : kept t0 (tls s1)) by (rewrite T1; transitivity (tls s); [done|by split]).
  destruct (Z.eqb_spec r 0) as [->|]; cbn [negb]; [|by apply left_err]. apply wlp_ret. exists (ms ++ [m]). split; [|done]. split; rewrite ?T1; try done.
  - by rewrite <- T1.
  - cbn. rewrite (H1 eq_refl), Ht, concat_app. cbn. by rewrite app_nil_r, app_assoc.
  - congruence.
Qed.

Lemma finished_wlp ms m f s : flight ms s -> flags_ok ms f -> mtype m = HS_FINISHED ->
  wlp (if negb (Z.of_nat (length (drop 4 m)) =? HASH_LEN) then let* r := err "malformed Finished" in break (inl r)
       else
         let* k := the (fun t => secret (s_hs t)) in
         let* (e, expect) := finished_verify_data k in
         if negb (e =? 0) then break (inl (-1))
         else if negb (bytes_equal expect (drop 4 m)) then let* r := err "server Finished does not match the transcript" in break (inl r)
         else let* r := tr_add m in if negb (r =? 0) then let* r := err "out of memory" in break (inl r) else break (inr f)) s post.
Proof.
  intros [Hk Ht Hc Hr] Hf Hm. destruct (Z.eqb_spec (Z.of_nat (length (drop 4 m))) HASH_LEN) as [Hl|]; cbn [negb]; [|by apply left_err].
  unfold the at 1. wlp_pure. intros [e x] s1 E1. rewrite (finished_run P) in E1. injection E1 as <- <- <-. change (negb (0 =? 0)) with false. cbv iota.
  destruct (bytes_equal _ _) eqn:Eb; cbn [negb]; [|by apply left_err]. apply bytes_equal_eq in Eb; [|unfold Finished; rewrite mac_length; unfold HASH_LEN in Hl; lia].
  apply wlp_bind. eapply wlp_mono; [apply tr_add_wlp|]. intros r s2 (b & T2 & R2 & H2).
  assert (Hk2 : kept t0 (tls s2)) by (rewrite T2; transitivity (tls s); [done|by split]).
  destruct (Z.eqb_spec r 0) as [->|]; cbn [negb]; [|by apply left_err]. apply wlp_ret. split; [done|]. intros f' [= <-]. exists ms, m.
  rewrite T2. cbn. rewrite (H2 eq_refl), Ht, <- app_assoc. split_and!; try done; [congruence|]. rewrite <- Eb, Ht, (kc_s _ _ Hk). done.
Qed.

Lemma flight_wlp f s : going f s -> wlp (flight_body f) s post.
Proof.
  intros (ms & Hfl & Hf). destruct f as [[ee cert] cv] eqn:Ef. unfold flight_body. cbv zeta. apply wlp_bind. eapply wlp_mono; [apply hs_next_wlp|].
  intros [r [ty m]] s1 (Hk & Hr & Hm). cbv beta iota. assert (Hfl1 : flight ms s1).
  { destruct Hfl as [Fk Ft Fc Fr], Hk as [Kk Kt Kc]. split; [by transitivity (tls s)|congruence..]. }
  destruct (Z.leb_spec r 0); [apply left_code, Hfl1|]. specialize (Hm ltac:(lia)). destruct Hfl1 as [Fk Ft Fc Fr] eqn:EF. clear EF.
  assert (Hn : mtype m <> HS_CERTIFICATE -> certs_of (ms ++ [m]) = certs_of ms).
  { intros H0. rewrite certs_of_snoc. rewrite (proj2 (Z.eqb_neq _ _) H0). by rewrite app_nil_r. }
  apply (flags_more _ m) in Hf as Hf'. destruct Hf' as (F1 & F2 & F3).
  destruct (Z.eqb_spec ty HS_ENCRYPTED_EXTENSIONS); [|destruct (Z.eqb_spec ty HS_CERTIFICATE) as [Ety|]; [|destruct (Z.eqb_spec ty HS_CERTIFICATE_VERIFY)]].
  - apply (message_added ms); try done; [by rewrite Hn by (unfold HS_ENCRYPTED_EXTENSIONS, HS_CERTIFICATE, HS_CERTIFICATE_VERIFY in *; lia)|]. split_and!; try done. intros _. apply seen_last. congruence.
  - apply wlp_bind. eapply wlp_mono; [apply certificate_wlp|]. intros e s2 (R2 & c & T2 & H2).
    assert (Hk2 : kept t0 (tls s2)) by (rewrite T2; transitivity (tls s1); [done|by split]).
    destruct (Z.eqb_spec e 0) as [->|]; cbn [negb]; [|by apply left_code]. destruct (H2 eq_refl) as (cs & Ecs & Ec).
    apply (message_added ms); rewrite ?T2; try done; [by rewrite <- T2| | |].
    + cbn. rewrite certs_of_snoc, Hm, Ety, Ecs, Ec, Fc. done.
    + congruence.
    + split_and!; try done. intros _. apply seen_last. congruence.
  - apply wlp_bind. eapply wlp_mono; [apply verify_wlp|]. intros e2 s2 [[T2 R2] H2].
    assert (Hk2 : kept t0 (tls s2)) by (by rewrite T2).
    destruct (Z.eqb_spec e2 0) as [->|]; cbn [negb]; [|by apply left_code]. destruct (H2 eq_refl) as (r0 & sc & nn & sg & X1 & X2 & X3 & X4 & X5 & X6 & X7).
    rewrite Fc, Ft, (kc_host _ _ Fk) in *. apply (message_added ms); rewrite ?T2; try done; [by rewrite Hn by (unfold HS_ENCRYPTED_EXTENSIONS, HS_CERTIFICATE, HS_CERTIFICATE_VERIFY in *; lia)|congruence|].
    split_and!; try done. intros _. exists ms, m, [], r0, sc, nn, sg. split_and!; try done; congruence.
  - destruct (Z.eqb_spec ty HS_FINISHED); [|by apply left_err]. apply (finished_wlp ms); [done|done|congruence].
Qed.

Lemma flight_loop fuel s : flight [] s -> wlp (loop fuel flight_body (false, false, false)) s left_with.
Proof. intros H. apply (wlp_loop going); [by apply flight_wlp|]. exists []. split; [done|]. by split_and!. Qed.
End Flight.

(** ** The handshake *)

Definition dir_of (x : traffic) : dir := Dir (tkey x) (tiv x) 0.

(** The messages of both sides that led to the connection [t]. *)
Definition authenticated (host : str) (ro : option str) (t : cact_tls) : Prop :=
  exists random sid priv sh peer ms fin,
    let ch := client_hello random sid host (dh P priv (x25519_basepoint ++ repeat 0 33)) in
    let shared := dh P priv (peer ++ repeat 0 33) in
    let all := ch ++ sh ++ concat ms ++ fin in
    (mtype sh = HS_SERVER_HELLO /\ parse_server_hello (drop 4 sh) = Some (inr peer)) /\
    (seen HS_ENCRYPTED_EXTENSIONS ms /\ seen HS_CERTIFICATE ms /\ verified (ch ++ sh) host ro ms) /\
    (mtype fin = HS_FINISHED /\ drop 4 fin = Finished P (secret (s_hs_traffic P shared (ch ++ sh))) (ch ++ sh ++ concat ms)) /\
    (rd t = dir_of (s_ap_traffic P shared all) /\ wr t = dir_of (c_ap_traffic P shared all) /\ rd_enc t = true /\ wr_enc t = true).

Definition only_auth (host : str) (ro : option str) (s : st D) : Prop := state (tls s) = ST_APP -> authenticated host ro (tls s) /\ roots s = ro.

Lemma exit_ret {A} host ro (a : A) s : state (tls s) <> ST_APP -> wlp (ret a) s (fun _ s' => only_auth host ro s').
Proof. intros H. apply wlp_ret. by intros ?. Qed.

Lemma exit_err host ro m s : state (tls s) <> ST_APP -> wlp (err m) s (fun _ s' => only_auth host ro s').
Proof. intros H. unfold err, err_set. wlp_pure. by intros ?. Qed.

(** From the server's Finished to the application state. *)
Definition finish : St (st D) Z :=
  let* e := setup_application_keys in
  if negb (e =? 0) then err "key schedule failed" else
  let* k := the (fun t => secret (c_hs t)) in
  let* (e, verify_data) := finished_verify_data k in
  if negb (e =? 0) then ret (-1) else
  let* r := send_record CT_HANDSHAKE ([HS_FINISHED; 0; 0; HASH_LEN] ++ verify_data) in
  if negb (r =? 0) then ret (-1) else
  let* _ := upd (fun t => set_state ST_APP (set_rd (Dir (tkey (s_ap t)) (tiv (s_ap t)) 0)
                            (set_wr (Dir (tkey (c_ap t)) (tiv (c_ap t)) 0) (set_enc (rd_enc t) true t)))) in
  let* b := the tr in let* _ := free b in let* _ := upd (set_tr no_buf) in
  let* b := the chain in let* _ := free b in let* _ := upd (set_chain no_buf) in
  ret 0.

Lemma finish_wlp shared s : hs_secret (tls s) = Handshake_Secret P shared -> state (tls s) <> ST_APP ->
  wlp finish s (fun _ s' => state (tls s') = ST_APP -> roots s' = roots s /\ rd_enc (tls s') = rd_enc (tls s) /\ wr_enc (tls s') = true /\
    rd (tls s') = dir_of (s_ap_traffic P shared (data (tr (tls s)))) /\ wr (tls s') = dir_of (c_ap_traffic P shared (data (tr (tls s))))).
Proof.
  intros Hh Hs. unfold finish. apply wlp_bind. intros e s1 E1. rewrite (application_keys_run P shared s Hh) in E1. injection E1 as <- <-. change (negb (0 =? 0)) with false. cbv iota.
  set (s1 := set_tls _ s). unfold the at 1. wlp_pure. intros [e vd] s2 E2. rewrite (finished_run P) in E2. injection E2 as <- <- <-. change (negb (0 =? 0)) with false. cbv iota.
  apply wlp_bind. eapply wlp_mono; [apply pres_send|]. intros r s3 [[K3 _ _] R3]. assert (Hs3 : state (tls s3) <> ST_APP) by by apply (kc_state _ _ K3).
  destruct (negb _); [by wlp_pure|]. unfold upd, the. wlp_pure. eapply wlp_mono; [apply free_wlp|]. intros _ s4 [T4 R4]. wlp_pure. eapply wlp_mono; [apply free_wlp|].
  intros _ s5 [T5 R5]. wlp_pure. intros _. cbn. rewrite T5, R5. cbn. rewrite T4, R4. cbn. rewrite (kc_enc _ _ K3), (kc_sa _ _ K3), (kc_ca _ _ K3). done.
Qed.

(** From the server's hello on. *)
Definition after_hello (priv m peer : str) : St (st D) Z :=
  let* r := tr_add m in
  if negb (r =? 0) then err "out of memory" else
  let* (e, shared) := kernel (Crypto.cact_x25519_derive (Crypto.Buf priv) (Crypto.Buf peer) true) in
  if negb (e =? 0) then err "key exchange failed" else
  let* e := setup_handshake_keys shared in
  if negb (e =? 0) then err "key schedule failed" else
  let* _ := upd (fun t => set_rd (Dir (tkey (s_hs t)) (tiv (s_hs t)) 0) (set_wr (Dir (tkey (c_hs t)) (tiv (c_hs t)) 0) (set_enc true true t))) in
  let* n := gets hs_left in
  let* r := loop (S n) flight_body (false, false, false) in
  match r with
  | inl r => ret r
  | inr (ee, cert, cv) => if negb ee || negb cert || negb cv then err "server omitted part of the authenticated handshake" else finish
  end.

Lemma after_hello_wlp random sid priv sh peer s :
  let ch := client_hello random sid (hostname (tls s)) (dh P priv (x25519_basepoint ++ repeat 0 33)) in
  length priv = 32%nat -> mtype sh = HS_SERVER_HELLO -> parse_server_hello (drop 4 sh) = Some (inr peer) ->
  data (tr (tls s)) = ch -> chain (tls s) = no_buf -> state (tls s) <> ST_APP ->
  wlp (after_hello priv sh peer) s (fun _ s' => only_auth (hostname (tls s)) (roots s) s').
Proof.
  intros ch Hp Hty Hsh Htr Hch Hst. unfold after_hello. apply wlp_bind. eapply wlp_mono; [apply tr_add_wlp|]. intros r s1 (b & T1 & R1 & H1).
  assert (Hs1 : state (tls s1) <> ST_APP) by by rewrite T1. destruct (Z.eqb_spec r 0) as [->|]; cbn [negb]; [|by apply exit_err]. specialize (H1 eq_refl). rewrite Htr in H1.
  apply wlp_bind. intros [e shared] s2 E2. rewrite (derive_run P priv peer s1 Hp (server_hello_peer _ _ Hsh)) in E2. injection E2 as <- <- <-. change (negb (0 =? 0)) with false. cbv iota.
  set (shared := dh P priv (peer ++ repeat 0 33)) in *. apply wlp_bind. intros e s2 E2. rewrite (handshake_keys_run P shared s1) in E2. injection E2 as <- <-. change (negb (0 =? 0)) with false. cbv iota.
  unfold upd. wlp_pure. set (s2 := S_ _ _ _ _ _ _ _ _ _). assert (Hm : data (tr (tls s1)) = ch ++ sh) by by rewrite T1.
  eapply wlp_mono; [apply (flight_loop (tls s2) (ch ++ sh) (roots s))|].
  { split; [done| |by unfold s2; cbn; rewrite T1; cbn; rewrite Hch|exact R1]. unfold s2. cbn. by rewrite app_nil_r. }
  intros [r|[[ee cert] cv]] s3 [K3 L3].
  { apply exit_ret. by apply (kc_state _ _ K3). }
  assert (Hs3 : state (tls s3) <> ST_APP) by by apply (kc_state _ _ K3).
  destruct ee; cbn [negb orb]; [|by apply exit_err]. destruct cert; cbn [negb orb]; [|by apply exit_err]. destruct cv; cbn [negb orb]; [|by apply exit_err].
  destruct (L3 _ eq_refl) as (ms & fin & M1 & M2 & (M3 & M4 & M5) & M6 & M7). specialize (M3 eq_refl). specialize (M4 eq_refl). specialize (M5 eq_refl).
  eapply wlp_mono; [apply (finish_wlp shared)|]; [by rewrite (kc_sec _ _ K3)|done|]. intros r' s4 H4 Ha. destruct (H4 Ha) as (X1 & X2 & X3 & X4 & X5).
  split; [|congruence]. assert (Eh : hostname (tls s2) = hostname (tls s)) by (unfold s2; cbn; by rewrite T1). rewrite Eh in M5.
  assert (Es : s_hs (tls s2) = s_hs_traffic P shared (ch ++ sh)) by (unfold s2; cbn; by rewrite Hm). rewrite Es in M7. rewrite <- app_assoc in M1, M7.
  exists random, sid, priv, sh, peer, ms, fin. cbv zeta. fold ch shared. rewrite <- M1. split_and!; try done. by rewrite X2, (kc_enc _ _ K3).
Qed.

Lemma do_handshake_wlp s : data (tr (tls s)) = [] -> chain (tls s) = no_buf -> state (tls s) <> ST_APP ->
  wlp do_handshake s (fun _ s' => only_auth (hostname (tls s)) (roots s) s').
Proof.
  intros Htr Hch Hst. unfold do_handshake. apply wlp_bind. intros [e priv] s1 E1. pose proof (kernel_wlp _ _ _ _ E1) as [T1 R1].
  assert (Hp : length priv = 32%nat).
  { revert E1. unfold kernel, Crypto.cact_random. cbn [Crypto.is_null andb]. unfold bind. destruct (Crypto.crypt_cmd _ _) as [[[e0 a] k]|]; [|done].
    intros [= _ <- _]. apply length_resize. }
  destruct (e =? 0); cbn [negb]; [|apply exit_err; by rewrite T1].
  apply wlp_bind. intros [e1 pub] s2 E2. rewrite (derive_run P priv x25519_basepoint s1 Hp eq_refl) in E2. injection E2 as <- <- <-. change (negb (0 =? 0)) with false. cbv iota.
  apply wlp_bind. eapply wlp_mono; [apply client_hello_wlp|]. intros [r ch] s2 [[T2 R2] H2]. cbv beta iota. destruct (Z.eqb_spec r 0) as [->|]; cbn [negb]; [|apply exit_ret; by rewrite T2, T1].
  destruct (H2 eq_refl) as (random & sid & Ech). rewrite T1 in Ech.
  apply wlp_bind. eapply wlp_mono; [apply tr_add_wlp|]. intros r s3 (b & T3 & R3 & H3). assert (Hs3 : state (tls s3) <> ST_APP) by (rewrite T3, T2, T1; done).
  destruct (Z.eqb_spec r 0) as [->|]; cbn [negb].
  2:{ apply wlp_bind. eapply wlp_mono; [apply free_wlp|]. intros _ s4 [T4 R4]. apply exit_err. by rewrite T4. }
  apply wlp_bind. eapply wlp_mono; [apply pres_send|]. intros r s4 [K4 R4]. apply wlp_bind. eapply wlp_mono; [apply free_wlp|]. intros _ s5 [T5 R5].
  assert (K5 : keep (tls s3) (tls s5)) by by rewrite T5. clear K4. destruct (negb _); [apply exit_ret; by apply (kc_state _ _ (kp_k _ _ K5))|].
  apply wlp_bind. eapply wlp_mono; [apply hs_next_wlp|]. intros [r1 [ty m]] s6 (K6 & R6 & M6). assert (K : keep (tls s3) (tls s6)) by by transitivity (tls s5).
  assert (Hs6 : state (tls s6) <> ST_APP) by by apply (kc_state _ _ (kp_k _ _ K)). cbv beta iota. destruct (Z.leb_spec r1 0); [by apply exit_ret|]. specialize (M6 ltac:(lia)).
  destruct (Z.eqb_spec ty HS_SERVER_HELLO); cbn [negb]; [|by apply exit_err]. apply wlp_bind, wlp_lifted. intros [msg|peer] Ep; [by apply exit_err|].
  assert (Eh : hostname (tls s6) = hostname (tls s)) by (rewrite (kc_host _ _ (kp_k _ _ K)), T3, <- T1, <- T2; done).
  assert (Er : roots s6 = roots s) by congruence. rewrite <- Eh, <- Er. apply (after_hello_wlp random sid priv m peer s6); try done; [congruence| |].
  - rewrite (kp_tr _ _ K), T3. cbn. rewrite (H3 eq_refl), T2, T1, Htr, Eh. exact Ech.
  - rewrite (kp_chain _ _ K), T3, T2, T1. exact Hch.
Qed.

(** C12: a connection in the application state is authenticated: whatever the
    peer and the network do, there are messages such that the key exchange is
    the one of the server's hello, the certificates the server sent are exactly
    the chain that the kernel found trusted, with the loaded anchors, for the
    host name asked for and the current time, and the signature of the server's
    CertificateVerify over the transcript up to it is one of the chain's leaf,
    unless the server named the scheme 0, for which the kernel checks no
    signature and which the client does not refuse ([scheme_zero_accepted]); the
    server's Finished is the one of the schedule over the whole
    transcript, and the connection uses the application keys of that transcript
    with both sequence numbers at zero.  The device is assumed to compute the
    primitives ([Device]). *)
Theorem connect_authenticated fd host s s' :
  cact_tls_connect fd (Some host) s = Some (true, s') -> state (tls s') = ST_APP -> exists ro, roots s' = Some ro /\ authenticated host (Some ro) (tls s').
Proof.
  intros E Ha. assert (W : wlp (cact_tls_connect fd (Some host)) s (fun r s' => r = true -> only_auth host (roots s') s')).
  { unfold cact_tls_connect, err, err_set. cbv zeta. destruct (_ || _); [by wlp_pure|]. destruct (_ >? _); [by wlp_pure|].
    apply wlp_bind. intros e s1 _. destruct (negb _); [by apply wlp_ret|]. apply wlp_bind. intros ok s2 _. destruct ok; cbn [negb]; [|by wlp_pure].
    apply wlp_bind. intros a s3 _. apply wlp_bind. intros b s4 _. apply wlp_bind. intros c s5 _. destruct (_ || _); [unfold live_add; by wlp_pure|].
    unfold upd. wlp_pure. set (s6 := S_ _ _ _ _ _ _ _ _ _). eapply wlp_mono; [apply (do_handshake_wlp s6); done|]. intros r s7 H7. destruct (negb _); [|].
    - apply wlp_bind. intros [] s8 _. by apply wlp_ret.
    - apply wlp_ret. intros _ Ha7. destruct (H7 Ha7) as [HA HR]. rewrite HR. done. }
  destruct (W _ _ E eq_refl Ha) as [A _]. pose proof A as (? & ? & ? & ? & ? & ? & ? & _ & (_ & _ & V) & _). destruct V as (? & ? & ? & ro & ? & ? & ? & _ & _ & _ & _ & _ & Er & _).
  exists ro. by rewrite <- Er.
Qed.
End Auth.
End TlsAuth.
