(* ===== verification/TlsWorld.v ===== *)
(** * TlsWorld: a device, a server, and what the TLS client does with them

    A device with toy primitives shows that the hypotheses of the theorems on the
    client can hold, with a whole handshake as the example.  The other examples
    are behaviours of the code that its documentation excludes. *)

From Stdlib Require Import ZArith Lia Bool String Ascii.
From stdpp Require Import base list numbers.
From S2P Require Import Prelude Monad Dlfcn Crypto TlsRoots TlsClient TlsSafe TlsKeys TlsRecord TlsAuth.

Module TlsWorld.
Import TlsClient TlsSafe TlsKeys TlsRecord TlsAuth.

(** ** The toy primitives *)

Definition mask : Z := 2 ^ 256 - 1.
Fixpoint le_bytes (n : nat) (x : Z) : str := match n with O => [] | S n => x mod 256 :: le_bytes n (x / 256) end.
Definition num (l : str) : Z := foldr (fun b x => b + 256 * x) 0 l.

Definition toy_sha (m : str) : str := le_bytes 32 (foldl (fun h b => Z.land (h * 263 + b + 1) mask) 5381 m).
Definition toy_tag (k n a p : str) : str := take 16 (toy_sha (k ++ n ++ a ++ p)).

(** Sealing appends a tag; a chain is good when it is the roots followed by the
    name, a signature when it is the digest. *)
Definition toy : Prims := {|
  sha := toy_sha;
  mac k m := toy_sha (k ++ [256] ++ m);
  seal k n a p := p ++ toy_tag k n a p;
  unseal k n a c :=
    let p := take (length c - 16) c in if bool_decide (c = p ++ toy_tag k n a p) then Some p else None;
  dh a b := le_bytes 32 (num a * num (take 32 b));
  trusted c r h t := bool_decide (c = r ++ h);
  signs c s m g := bool_decide (g = toy_sha m)
|}.

Lemma le_bytes_length n x : length (le_bytes n x) = n.
Proof. revert x. induction n as [|n IH]; intros x; cbn; [done|]. by rewrite IH. Qed.

Lemma toy_tag_length k n a p : length (toy_tag k n a p) = 16%nat.
Proof. unfold toy_tag, toy_sha. by rewrite length_take, le_bytes_length. Qed.

#[global] Instance toy_ok : PrimsOk toy.
Proof.
  split; intros; cbn [sha mac dh seal unseal toy]; try apply le_bytes_length.
  - by rewrite length_app, toy_tag_length.
  - cbv zeta. rewrite length_app, toy_tag_length. replace (length p + 16 - 16)%nat with (length p) by lia. rewrite take_app_length. by rewrite bool_decide_eq_true_2.
Qed.

(** The device: its state is a counter for the random numbers. *)
#[global] Instance toy_dev : Crypto.CryptoDev nat := {|
  Crypto.dev_open _ := true;
  Crypto.dev_ioctl r k :=
    match r with
    | Crypto.Random n => (Crypto.Reply 0 (repeat (Z.of_nat k + 1) (Z.to_nat n)) [], S k)
    | Crypto.Hash 0 m => (Crypto.Reply 0 (sha toy m) [], k)
    | Crypto.Hmac 0 x m => (Crypto.Reply 0 (mac toy x m) [], k)
    | Crypto.Aead 0 0 x n a p c => if Z.of_nat (length p) + 16 <=? c then (Crypto.Reply 0 (seal toy x n a p) [], k) else (Crypto.Reply (-1) [] [], k)
    | Crypto.Aead 0 1 x n a p _ => match unseal toy x n a p with Some q => (Crypto.Reply 0 q [], k) | None => (Crypto.Reply (-1) [] [], k) end
    | Crypto.KxDerive 0 a b => (Crypto.Reply 0 (dh toy a b) [], k)
    | Crypto.X509Verify c r h t s m g => (Crypto.Reply (if x509 toy c r h t s m g then 0 else -1) [] [], k)
    | _ => (Crypto.Reply (-1) [] [], k)
    end
|}.

#[global] Instance toy_device : Device toy.
Proof. split; intros; try done. cbn. by rewrite (proj2 (Z.leb_le _ _)). Qed.

(** Requests of less than 2 GB are granted; it is the start of the epoch; there
    is no bundle, so the anchors are those a program set. *)
#[global] Instance host : Host := { grants _ n := n <? 2 ^ 31; now := 0 }.
#[global] Instance bundles : TlsRoots.Bundles := {| TlsRoots.env_bundle := None; TlsRoots.file_reads _ := None; TlsRoots.grants _ := true |}.

Lemma host_small k n : grants k n = true -> n < 2 ^ 31.
Proof. apply Z.ltb_lt. Qed.

Definition anchors : str := [7; 7; 7].
Definition begin (q : list rd_ev) : st nat := S_ (fresh 3 []) (Some anchors) [] q [] [] (Crypto.Cst 0%nat 0) 0 0.

(** ** The server *)

Definition name : str := txt "a.b".

(** The device's numbers: the key, then the two of the hello. *)
Definition c_priv : str := repeat 1 32.
Definition ch : str := client_hello (repeat 2 32) (repeat 3 32) name (dh toy c_priv (x25519_basepoint ++ repeat 0 33)).
Definition s_priv : str := repeat 5 32.
Definition s_pub : str := dh toy s_priv (x25519_basepoint ++ repeat 0 33).
Definition shared : str := dh toy s_priv (dh toy c_priv (x25519_basepoint ++ repeat 0 33)).

Definition msg (ty : Z) (b : str) : str := [ty; 0] ++ enc16 (Z.of_nat (length b)) ++ b.
Definition sh : str :=
  let ext := [0; 43; 0; 2; 3; 4] ++ [0; 51; 0; 36; 0; 29; 0; 32] ++ s_pub in
  msg HS_SERVER_HELLO ([3; 3] ++ repeat 4 32 ++ [32] ++ repeat 3 32 ++ enc16 TLS_SUITE_AES128_GCM_SHA256 ++ [0] ++ enc16 (Z.of_nat (length ext)) ++ ext).

Definition ee : str := msg HS_ENCRYPTED_EXTENSIONS [0; 0].
Definition cert : str :=
  let c := anchors ++ name in let e := [0] ++ enc16 (Z.of_nat (length c)) ++ c ++ [0; 0] in
  msg HS_CERTIFICATE ([0; 0] ++ enc16 (Z.of_nat (length e)) ++ e).
Definition verify (scheme : Z) (sig : str) : str := msg HS_CERTIFICATE_VERIFY (enc16 scheme ++ enc16 (Z.of_nat (length sig)) ++ sig).
Definition sig_over (ms : str) : str := toy_sha (cv_message (toy_sha ms)).
Definition fin (ms : str) : str := msg HS_FINISHED (Finished toy (secret (s_hs_traffic toy shared (ch ++ sh))) ms).

(** The records of the server: its hello in the clear, the flight under the
    handshake keys. *)
Definition hello_record : str := header CT_HANDSHAKE (Z.of_nat (length sh)) ++ sh.
Definition hs_dir : dir := dir_of (s_hs_traffic toy shared (ch ++ sh)).
Definition flight_of (ms : list str) : str := record toy hs_dir CT_HANDSHAKE (concat ms).

Definition signed : list str := [ee; cert; verify 1027 (sig_over (ch ++ sh ++ ee ++ cert))].
Definition whole (ms : list str) : list str := ms ++ [fin (ch ++ sh ++ concat ms)].
Definition accepted : list rd_ev := [RData hello_record; RData (flight_of (whole signed))].

Abbreviation connect q := (cact_tls_connect 3 (Some name) (begin q)).
Definition shows (f : st nat -> bool) (r : option (bool * st nat)) : bool := match r with Some (true, s) => f s | _ => false end.
Definition is_state (x : state_t) (s : st nat) : bool :=
  match state (tls s), x with ST_HANDSHAKE, ST_HANDSHAKE | ST_APP, ST_APP | ST_CLOSED, ST_CLOSED => true | _, _ => false end.

Lemma shows_some f r : shows f r = true -> exists s, r = Some (true, s) /\ f s = true.
Proof. destruct r as [[[] s]|]; cbn; [|done..]. eauto. Qed.

Lemma is_state_eq x s : is_state x s = true -> state (tls s) = x.
Proof. unfold is_state. by destruct (state (tls s)), x. Qed.

(** ** The hypotheses hold *)

Lemma toy_polite : polite (CD := toy_dev).
Proof.
  intros r k. cbn [toy_dev Crypto.dev_ioctl]. repeat case_match; cbn [fst Crypto.result]; done.
Qed.

(** The handshake above, some application data, and then a socket that fails
    for ever. *)
Lemma client_total_witness :
  exists ok s', session 3 (Some name) [Write (Crypto.Buf [1; 2; 3]); Read 10; Read 10] (begin (accepted ++ [RBroken])) = Some (ok, s').
Proof. apply (client_total host_small); [right; split; [done|exact toy_polite]|]. repeat constructor; done. Defined.

Lemma key_schedule_rfc_witness :
  let s := begin [] in let s' := set_tls (set_hs_secret (Handshake_Secret toy shared) (tls s)) s in
  exists s1, setup_application_keys s' = Some (0, s1) /\ c_ap (tls s1) = c_ap_traffic toy shared (data (tr (tls s'))).
Proof. intros s s'. destruct (key_schedule_rfc toy shared s s' shared eq_refl) as (_ & (s1 & E & H & _) & _). exists s1. exact (conj E H). Defined.

Lemma nonce_injective_witness : nonce_from (repeat 9 12) 5 = nonce_from (repeat 9 12) (6 - 1) /\ 5 = 6 - 1.
Proof. split; [reflexivity|]. apply (nonce_injective (repeat 9 12)); [reflexivity|lia|lia|reflexivity]. Defined.

Lemma connect_authenticated_witness : exists s', connect accepted = Some (true, s') /\ exists ro, roots s' = Some ro /\ authenticated toy name (Some ro) (tls s').
Proof.
  destruct (shows_some (is_state ST_APP) (connect accepted)) as (s' & E & H); [vm_compute; reflexivity|]. exists s'. split; [exact E|].
  apply (connect_authenticated toy 3 name (begin accepted) s'); [exact E|]. by apply is_state_eq.
Defined.

(** Two ends with the same keys. *)
Definition app_dir : dir := Dir (repeat 1 16) (repeat 2 12) 0.
Definition ready (q : list rd_ev) : st nat :=
  let s := begin q in set_tls (set_state ST_APP (set_rd app_dir (set_wr app_dir (set_enc true true (tls s))))) s.
Definition sent_by (l : list str) : str := wire toy app_dir l.

Lemma ready_ok q : tls_ok (tls (ready q)).
Proof. destruct (fresh_ok 3 [] ltac:(cbn; lia)). unfold ready. constructor; cbn [tls set_tls set_state set_rd set_wr set_enc rec plain app app_len app_off hs tr chain hs_off hostname begin]; done. Qed.

Lemma data_roundtrip_witness : exists sw', writes [[1; 2; 3]; [4]] (ready []) = Some ([3; 1], sw') /\
  (clean (rin (ready [RData (sent_by [[1; 2; 3]; [4]])])) -> sent sw' = sent (ready []) ++ stream (rin (ready [RData (sent_by [[1; 2; 3]; [4]])])) ->
   exists outs rest sr', reads [2; 2; 2] (ready [RData (sent_by [[1; 2; 3]; [4]])]) = Some (outs, sr') /\ concat [[1; 2; 3]; [4]] = concat outs ++ rest /\
     (Forall (fun o => o <> []) outs \/ rest = [])).
Proof.
  apply (data_roundtrip toy [[1; 2; 3]; [4]] [2; 2; 2] (ready []) (ready [RData (sent_by [[1; 2; 3]; [4]])])).
  all: try apply ready_ok; try done; repeat constructor; done.
Defined.

(** ** Behaviours *)

(** When the server closes the connection before it has said anything, the
    handshake code is 0 and [cact_tls_connect] returns a connection: what is
    written on it leaves in the clear. *)
Theorem eof_gives_plaintext_connection :
  match connect [] with
  | Some (true, s) =>
      state (tls s) = ST_HANDSHAKE /\ wr_enc (tls s) = false /\
      match cact_tls_write true (Crypto.Buf (txt "password")) s with
      | Some (n, s') => n = 8 /\ sent s' = sent s ++ header CT_APP 8 ++ txt "password" | None => False end
  | _ => False
  end.
Proof. vm_compute. done. Qed.

(** When it closes after its hello, the data leaves under keys that anyone who
    answered can compute. *)
Theorem eof_after_hello_unauthenticated :
  match connect [RData hello_record] with
  | Some (true, s) =>
      state (tls s) = ST_HANDSHAKE /\
      match cact_tls_write true (Crypto.Buf (txt "password")) s with
      | Some (n, s') => n = 8 /\ sent s' = sent s ++ record toy (dir_of (c_hs_traffic toy shared (ch ++ sh))) CT_APP (txt "password") | None => False end
  | _ => False
  end.
Proof. vm_compute. done. Qed.

(** A CertificateVerify with scheme 0, which the client did not offer, and no
    signature: the verifier does not look at the signature then, and the
    handshake completes. *)
Theorem scheme_zero_accepted : shows (is_state ST_APP) (connect [RData hello_record; RData (flight_of (whole [ee; cert; verify 0 []]))]) = true.
Proof. vm_compute. done. Qed.

(** A record with no application data ends the read with 0, as the end of the
    connection does; the connection is still open. *)
Theorem empty_record_reads_zero :
  match cact_tls_read true true 100 (ready [RData (sent_by [[]; [1; 2; 3]])]) with
  | Some ((n, out), s) => n = 0 /\ state (tls s) = ST_APP /\ match cact_tls_read true true 100 s with Some (r, _) => r = (3, [1; 2; 3]) | None => False end
  | None => False
  end.
Proof. vm_compute. done. Qed.

(** A key update makes new keys and does not use them: the direction keeps its
    key and its iv and counts from 0 again. *)
Theorem key_update_keeps_the_key (s : st nat) : exists s', key_update false s = Some (0, s') /\ wr (tls s') = Dir (key (wr (tls s))) (iv (wr (tls s))) 0.
Proof.
  unfold key_update. cbv zeta iota. unfold the at 1. rewrite (bind_run (gets _) _ s _ s eq_refl).
  rewrite (bind_run _ _ _ _ _ (derive_empty_run toy _ "traffic upd" s ltac:(cbn; lia))). change (negb (0 =? 0)) with false. cbv iota.
  rewrite (bind_run _ _ _ _ _ (upd_run _ _)), (bind_run _ _ _ _ _ (traffic_keys_run toy _ _)). change (negb (0 =? 0)) with false. cbv iota.
  rewrite (bind_run _ _ _ _ _ (upd_run _ _)). eexists. done.
Qed.

(** So the answer to a request for one is sealed with the nonce that the next
    record uses again, for other data. *)
Theorem key_update_reuses_nonce :
  match (let* _ := cact_tls_read true true 100 in cact_tls_write true (Crypto.Buf [1; 2; 3]))
          (ready [RData (record toy app_dir CT_HANDSHAKE [HS_KEY_UPDATE; 0; 0; 1; 1]); RFail]) with
  | Some (_, s) => sent s = record toy app_dir CT_HANDSHAKE [HS_KEY_UPDATE; 0; 0; 1; 0] ++ record toy app_dir CT_APP [1; 2; 3]
  | None => False
  end.
Proof. vm_compute. done. Qed.

(** [read] does not set [errno], so an interrupted read ends the connection, and
    a socket that keeps failing is read for ever once [errno] is EINTR from an
    earlier call. *)
Theorem interrupted_read_fails q n acc er : er <> EINTR -> read_loop (RFail :: q) (S n) acc er = Some (-1, acc, q).
Proof. intros H. cbn. by rewrite (proj2 (Z.eqb_neq _ _) H). Qed.

Theorem stale_eintr_spins k q n acc :
  read_loop (repeat RFail k ++ q) (S n) acc EINTR = read_loop q (S n) acc EINTR /\ read_loop (RBroken :: q) (S n) acc EINTR = None.
Proof. split; [|done]. induction k as [|k IH]; [done|]. exact IH. Qed.

(** So a session with EINTR left in [errno] may not return. *)
Theorem stale_eintr_session :
  session 3 (Some name) [] (S_ (fresh 3 []) (Some anchors) [] [RBroken] [] [] (Crypto.Cst 0%nat EINTR) 0 0) = None.
Proof. vm_compute. done. Qed.

(** An info of 300 bytes passes the guard, and the second block of the expansion
    writes one byte more than the message array has. *)
Theorem hkdf_expand_overrun : hkdf_expand [1] (repeat 0 300) 64 (begin []) = None.
Proof. vm_compute. done. Qed.
End TlsWorld.
