(* ===== verification/Sys.v ===== *)
(** * Sys: system calls, src/nodeio.c, src/unistd.c, src/fcntl.c, src/stat.c,
    src/wait.c

    Every service of the kernel is one of a few traps; most are an ioctl on an
    open node.  The kernel is the class [Kernel]: a call and the kernel's state
    give a reply and the next state.  What the kernel stores through a pointer
    is part of its reply, and what a function stores through one part of its
    result; a string is the list of its bytes without the terminator. *)

From Stdlib Require Import ZArith Lia Bool String Ascii.
From stdpp Require Import base list numbers.
From S2P Require Import Prelude Monad Dlfcn Time.

Module Sys.
Abbreviation str := (list Z).
Abbreviation txt := Dlfcn.txt.

Definition ESRCH : Z := 3.
Definition ENOENT : Z := 2.
Definition EIO : Z := 5.
Definition EINVAL : Z := 22.
Definition ERANGE : Z := 34.
Definition ENAMETOOLONG : Z := 36.

Definition O_RDONLY : Z := 0.
Definition O_WRONLY : Z := 1.
Definition O_RDWR : Z := 2.
Definition O_ACCMODE : Z := 3.
Definition O_CREAT : Z := 64.
Definition O_EXCL : Z := 128.
Definition O_TRUNC : Z := 512.
Definition O_NONBLOCK : Z := 2048.
Definition O_CLOEXEC : Z := 524288.

Definition F_DUPFD : Z := 0.
Definition F_GETFD : Z := 1.
Definition F_SETFD : Z := 2.
Definition F_GETFL : Z := 3.
Definition F_SETFL : Z := 4.
Definition F_DUPFD_CLOEXEC : Z := 1030.
Definition FD_CLOEXEC : Z := 1.

Definition SEEK_SET : Z := 0.
Definition SEEK_CUR : Z := 1.

Definition POLLIN : Z := 1.
Definition POLLOUT : Z := 4.
Definition POLLERR : Z := 8.
Definition POLLHUP : Z := 16.

(** The commands of ioctl_abi.h. *)
Definition FDCTL (n : Z) : Z := 12288 + n.
Definition DIRCTL (n : Z) : Z := 12544 + n.
Definition PROCCTL (n : Z) : Z := 12800 + n.
Definition SYSCTL (n : Z) : Z := 13568 + n.
Definition CACT_PIPECTL_CREATE : Z := 13825.
Definition CACT_TTYCTL_SET_FG : Z := 15621.
Definition TIOCGWINSZ : Z := 21523.

(** The fields of an argument structure, in order. *)
Inductive arg := AInt (x : Z) | AStr (s : str) | ANull.

Inductive call :=
| Open (path : str) (flags : Z)
| Close (fd : Z)
| Read (fd n : Z)
| Write (fd : Z) (bs : str)
| Ioctl (fd cmd : Z) (args : list arg)
| Exec (path : str) (argv envp : list str)
| Waitpid (pid options : Z)
| Poll (fds : list (Z * Z)) (ms : Z)
| Brk (addr : Z)
| Mmap (addr length prot flags fd offset : Z)
| Munmap (addr length : Z)
| Mprotect (addr length prot : Z).

(** The result in eax, the words and the bytes stored. *)
Record reply := Reply { value : Z; words : list Z; bytes : str }.

Class Kernel (K : Type) := { trap : call -> K -> reply * K }.

(** The kernel, [errno], and the two statics of the library. *)
Record st (K : Type) := S_ { kern : K; errno : Z; pid_cache : Z; ctl_fd : Z }.
#[global] Arguments S_ {K} _ _ _ _.
#[global] Arguments kern {K} _.
#[global] Arguments errno {K} _.
#[global] Arguments pid_cache {K} _.
#[global] Arguments ctl_fd {K} _.

Section Calls.
Context {K : Type} `{KR : Kernel K}.
Abbreviation C := (St (st K)).

Definition sys (c : call) : C reply := fun s => let '(r, k) := trap c (kern s) in Some (r, S_ k (errno s) (pid_cache s) (ctl_fd s)).
Definition set_errno (e : Z) : C unit := modify (fun s => S_ (kern s) e (pid_cache s) (ctl_fd s)).
Definition fail (e : Z) : C Z := let* _ := set_errno e in ret (-1).

(** ** Nodes *)

Definition nio_open (path : str) (flags : Z) : C Z := let* r := sys (Open path flags) in ret (value r).
Definition nio_close (fd : Z) : C Z := let* r := sys (Close fd) in ret (value r).
Definition nio_read (fd n : Z) : C (Z * str) := let* r := sys (Read fd n) in ret (value r, bytes r).
Definition nio_write (fd : Z) (bs : str) : C Z := let* r := sys (Write fd bs) in ret (value r).
Definition nio_ioctl (fd cmd : Z) (args : list arg) : C reply := sys (Ioctl fd cmd args).

Definition no_reply : reply := Reply (-1) [] [].

Definition nio_ctl (cmd : Z) (args : list arg) : C reply :=
  let* fd := nio_open (txt "/proc/self/ctl") O_RDWR in
  if fd <? 0 then ret no_reply
  else let* r := nio_ioctl fd cmd args in let* _ := nio_close fd in ret r.

Definition nio_read_file (path : str) (size : Z) : C (Z * str) :=
  let* fd := nio_open path O_RDONLY in
  if fd <? 0 then ret (-1, [])
  else let* r := nio_read fd size in let* _ := nio_close fd in ret r.

Definition sizeof_info : Z := 44.
Definition nio_self_info : C (Z * str) := nio_read_file (txt "/proc/self/info") sizeof_info.

(** The array has 32 bytes. *)
Definition dev_path (dev : str) : str := txt "/dev/" ++ take 26 dev.

Definition nio_dev_cmd (dev : str) (cmd : Z) (args : list arg) : C reply :=
  let* fd := nio_open (dev_path dev) O_RDWR in
  if fd <? 0 then ret no_reply
  else let* r := nio_ioctl fd cmd args in let* _ := nio_close fd in ret r.

(** What is before and after the last slash, if there is one. *)
Fixpoint last_slash (p : str) : option (str * str) :=
  match p with
  | [] => None
  | c :: p =>
      match last_slash p with
      | Some (d, b) => Some (c :: d, b)
      | None => if c =? 47 then Some ([], p) else None
      end
  end.

(** The copy into an array of [n] bytes. *)
Definition cut (n : Z) (s : str) : str := take (Z.to_nat (n - 1)) s.

(** The descriptor of the directory and the base name; [None] is a null path. *)
Definition nio_open_parent (path : option str) (base_max : Z) : C (Z * str) :=
  match default [] path with
  | [] => let* r := fail EINVAL in ret (r, [])
  | p =>
      match last_slash p with
      | None => let* fd := nio_open (txt ".") O_RDONLY in ret (fd, cut base_max p)
      | Some (d, b) =>
          match b with
          | [] => let* r := fail EINVAL in ret (r, [])
          | _ =>
              if Z.of_nat (length d) + 1 >=? 512 then let* r := fail ENAMETOOLONG in ret (r, cut base_max b)
              else let* fd := nio_open (if bool_decide (d = []) then txt "/" else d) O_RDONLY in ret (fd, cut base_max b)
          end
      end
  end.

Definition nio_map (r : Z) : C Z := match Time.nio_map r with inl r => ret r | inr e => fail e end.

(** ** Processes *)

Definition read (fd n : Z) : C (Z * str) := nio_read fd n.
Definition write (fd : Z) (bs : str) : C Z := nio_write fd bs.
Definition close (fd : Z) : C Z := nio_close fd.
Definition open (path : str) (flags : Z) : C Z := nio_open path flags.
Definition ioctl (fd cmd : Z) (args : list arg) : C reply := nio_ioctl fd cmd args.

(** [inl] when the new image runs and nothing returns. *)
Definition execve (path : str) (argv envp : list str) : C (unit + Z) :=
  let* r := sys (Exec path argv envp) in ret (if value r >=? 0 then inl tt else inr (value r)).

(** The result and the status stored. *)
Definition waitpid (pid options : Z) : C (Z * Z) := let* r := sys (Waitpid pid options) in ret (value r, default 0 (head (words r))).
Definition wait4 (pid options : Z) : C (Z * Z) := waitpid pid 0.
Definition wait3 (options : Z) : C (Z * Z) := wait4 (-1) options.
Definition wait : C (Z * Z) := wait4 (-1) 0.

Definition sleep (seconds : Z) : C Z := let* _ := sys (Poll [] (u32 (seconds * 1000))) in ret 0.
Definition usleep (usec : Z) : C Z :=
  let ms := u32 (usec + 999) / 1000 in
  let* _ := sys (Poll [] (if ms =? 0 then 1 else ms)) in ret 0.

(** A word of a structure of words. *)
Definition word (i : nat) (bs : str) : Z := foldr (fun b x => b + 256 * x) 0 (take 4 (drop (4 * i) bs)).

(** [None] is -1; the caller's variable is 0 then. *)
Definition _self_field (which : nat) : C (option Z) :=
  let* (r, bs) := nio_self_info in
  if negb (r =? sizeof_info) then ret None else ret (if (which <=? 8)%nat then Some (word which bs) else None).

Definition self (which : nat) : C Z := let* v := _self_field which in ret (s32 (default 0 v)).

Definition gettid : C Z := self 0.
Definition __cact_pid_init : C unit :=
  let* c := gets pid_cache in
  if negb (c =? 0) then ret tt
  else let* t := gettid in modify (fun s => S_ (kern s) (errno s) t (ctl_fd s)).
Definition getpid : C Z := let* c := gets pid_cache in if negb (c =? 0) then ret c else self 0.
Definition getppid : C Z := self 1.
Definition getuid : C Z := let* v := _self_field 4 in ret (default 0 v).
Definition getgid : C Z := let* v := _self_field 5 in ret (default 0 v).
Definition geteuid : C Z := let* v := _self_field 6 in ret (default 0 v).
Definition getegid : C Z := let* v := _self_field 7 in ret (default 0 v).
Definition getpgrp : C Z := self 2.

(** The digits of the loop, the last first. *)
Fixpoint digits (fuel : nat) (x : Z) (acc : str) : str :=
  match fuel with
  | O => acc
  | S fuel => if x =? 0 then acc else digits fuel (x / 10) ((48 + x mod 10) :: acc)
  end.
Definition proc_path (pid : Z) : str :=
  txt "/proc/" ++ (if u32 pid =? 0 then [48] else digits 10 (u32 pid) []) ++ txt "/info".

Definition _proc_info (pid : Z) : C (Z * str) :=
  let* pid := (if pid =? 0 then getpid else ret pid) in
  let* me := getpid in
  if pid =? me then let* (r, bs) := nio_self_info in ret (if r =? sizeof_info then 0 else -1, bs)
  else
    let* fd := open (proc_path pid) O_RDONLY in
    if fd <? 0 then let* r := fail ESRCH in ret (r, [])
    else
      let* (r, bs) := read fd sizeof_info in
      let* _ := close fd in
      if negb (r =? sizeof_info) then let* r := fail ESRCH in ret (r, []) else ret (0, bs).

Definition getpgid (pid : Z) : C Z := let* (r, bs) := _proc_info pid in ret (if r <? 0 then -1 else s32 (word 2 bs)).
Definition getsid (pid : Z) : C Z := let* (r, bs) := _proc_info pid in ret (if r <? 0 then -1 else s32 (word 3 bs)).

(** The command on /proc/self/ctl, mapped. *)
Definition ctl (cmd : Z) (args : list arg) : C Z := let* r := nio_ctl cmd args in nio_map (value r).
Definition on (fd cmd : Z) (args : list arg) : C Z := let* r := nio_ioctl fd cmd args in nio_map (value r).

Definition setsid : C Z := ctl (PROCCTL 0) [].
Definition setpgid (pid pgid : Z) : C Z := ctl (PROCCTL 1) [AInt (u32 pid); AInt (u32 pgid)].
Definition tcsetpgrp (fd pgid : Z) : C Z := on fd CACT_TTYCTL_SET_FG [AInt (u32 pgid)].
Definition setuid (uid : Z) : C Z := ctl (PROCCTL 2) [AInt uid].
Definition setgid (gid : Z) : C Z := ctl (PROCCTL 3) [AInt gid].
Definition umask (mask : Z) : C Z := let* r := nio_ctl (PROCCTL 4) [AInt mask] in ret (u32 (value r)).
Definition chdir (path : str) : C Z := ctl (PROCCTL 5) [AStr path].
Definition chroot (path : str) : C Z := ctl (PROCCTL 6) [AStr path].

(** ** Descriptors *)

Definition lseek (fd offset whence : Z) : C Z := on fd (FDCTL 4) [AInt (s32 offset); AInt (u32 whence)].
Definition dup (fd : Z) : C Z := on fd (FDCTL 1) [].
Definition dup2 (fd newfd : Z) : C Z := on fd (FDCTL 2) [AInt (u32 newfd)].

Definition set_fd (fd cmd x : Z) : C Z := on fd (FDCTL 3) [AInt cmd; AInt (u32 x)].

Definition fcntl (fd cmd arg : Z) : C Z :=
  if (cmd =? F_DUPFD) || (cmd =? F_DUPFD_CLOEXEC) then
    let* r := set_fd fd F_DUPFD arg in
    if r <? 0 then ret r
    else if cmd =? F_DUPFD_CLOEXEC then
      let* e := set_fd r F_SETFD FD_CLOEXEC in
      if e <? 0 then let* _ := close r in fail EINVAL else ret r
    else ret r
  else if (cmd =? F_GETFD) || (cmd =? F_GETFL) then set_fd fd cmd 0
  else if (cmd =? F_SETFD) || (cmd =? F_SETFL) then set_fd fd cmd arg
  else fail EINVAL.

Definition creat (path : str) (mode : Z) : C Z := open path (Z.lor (Z.lor O_WRONLY O_CREAT) O_TRUNC).

(** Flags other than the two. *)
Definition bad_flags (flags : Z) : bool := negb (Z.land flags (Z.lnot (Z.lor O_CLOEXEC O_NONBLOCK)) =? 0).
Definition has (flags bit : Z) : bool := negb (Z.land flags bit =? 0).

Definition dup3 (oldfd newfd flags : Z) : C Z :=
  if bad_flags flags then fail EINVAL
  else
    let* r := dup2 oldfd newfd in
    if r <? 0 then ret (-1)
    else if has flags O_CLOEXEC then
      let* e := fcntl newfd F_SETFD FD_CLOEXEC in if e <? 0 then ret (-1) else ret newfd
    else ret newfd.

(** The code and the two descriptors. *)
Definition pipe : C (Z * (Z * Z)) :=
  let* r := nio_dev_cmd (txt "pipe") CACT_PIPECTL_CREATE [] in
  if value r <? 0 then let* e := nio_map (value r) in ret (e, (0, 0))
  else ret (0, (s32 (nth 0 (words r) 0), s32 (nth 1 (words r) 0))).

Definition pipe2 (flags : Z) : C (Z * (Z * Z)) :=
  if bad_flags flags then let* e := fail EINVAL in ret (e, (0, 0))
  else
    let* (r, (a, b)) := pipe in
    if r <? 0 then ret (-1, (a, b))
    else
      let* _ := (if has flags O_CLOEXEC then let* _ := fcntl a F_SETFD FD_CLOEXEC in fcntl b F_SETFD FD_CLOEXEC else ret 0) in
      let* _ := (if has flags O_NONBLOCK then
                   let* fl0 := fcntl a F_GETFL 0 in
                   let* fl1 := fcntl b F_GETFL 0 in
                   let* _ := (if fl0 >=? 0 then fcntl a F_SETFL (Z.lor fl0 O_NONBLOCK) else ret 0) in
                   if fl1 >=? 0 then fcntl b F_SETFL (Z.lor fl1 O_NONBLOCK) else ret 0
                 else ret 0) in
      ret (0, (a, b)).

(** ** Waiting *)

(** The code and the [revents]. *)
Definition poll (fds : list (Z * Z)) (ms : Z) : C (Z * list Z) :=
  let* r := sys (Poll fds ms) in
  if value r <? 0 then let* e := fail (s32 (- value r)) in ret (e, []) else ret (value r, words r).

Definition FD_SETSIZE : Z := 256.

(** A set is its eight words; beside them lies another object. *)
Definition FD_ZERO : list Z := repeat 0 8.
Definition FD_ISSET (fd : Z) (s : list Z) : option bool :=
  if 0 <=? fd then w ← s !! Z.to_nat (fd / 32); Some (Z.testbit w (fd mod 32)) else None.
Definition FD_SET (fd : Z) (s : list Z) : option (list Z) :=
  if 0 <=? fd then w ← s !! Z.to_nat (fd / 32); Some (<[Z.to_nat (fd / 32) := Z.lor w (Z.shiftl 1 (fd mod 32))]> s) else None.

Definition lift {A} (o : option A) : C A := fun s => match o with Some a => Some (a, s) | None => None end.

Definition fd_set := option (list Z).
Definition isset (fd : Z) (s : fd_set) : option bool := match s with None => Some false | Some l => FD_ISSET fd l end.
Definition bit (b : bool) (x : Z) : Z := if b then x else 0.

(** What is asked of the descriptors from [fd] on. *)
Fixpoint asked (n : nat) (fd : Z) (r w e : fd_set) : option (list (Z * Z)) :=
  match n with
  | O => Some []
  | S n =>
      br ← isset fd r; bw ← isset fd w; be ← isset fd e;
      let ev := Z.lor (Z.lor (bit br POLLIN) (bit bw POLLOUT)) (bit be POLLERR) in
      rest ← asked n (fd + 1) r w e;
      Some (if ev =? 0 then rest else (fd, ev) :: rest)
  end.

Definition select_ms (timeout : option (Z * Z)) : Z :=
  match timeout with
  | None => -1
  | Some (sec, usec) => if (sec =? 0) && (usec =? 0) then 0 else s32 (sec * 1000 + usec ÷ 1000)
  end.

Definition mark (b : bool) (fd : Z) (s : fd_set) : option fd_set :=
  match s with None => Some None | Some l => if b then l ← FD_SET fd l; Some (Some l) else Some s end.

(** The answers, into the sets. *)
Fixpoint answered (fds : list (Z * Z)) (revs : list Z) (r w e : fd_set) (count : Z) : option (Z * (fd_set * fd_set * fd_set)) :=
  match fds with
  | [] => Some (count, (r, w, e))
  | (fd, _) :: fds =>
      rev ← head revs;
      if rev =? 0 then answered fds (tail revs) r w e count
      else
        r ← mark (has rev (Z.lor (Z.lor POLLIN POLLHUP) POLLERR)) fd r;
        w ← mark (has rev (Z.lor POLLOUT POLLERR)) fd w;
        e ← mark (has rev POLLERR) fd e;
        answered fds (tail revs) r w e (count + 1)
  end.

Definition zeroed (s : fd_set) : fd_set := match s with None => None | Some _ => Some FD_ZERO end.

Definition select (nfds : Z) (r w e : fd_set) (timeout : option (Z * Z)) : C (Z * (fd_set * fd_set * fd_set)) :=
  let* fds := lift (asked (Z.to_nat nfds) 0 r w e) in
  if Z.of_nat (length fds) >? FD_SETSIZE then fault
  else
    let* (c, revs) := poll fds (select_ms timeout) in
    if c <? 0 then ret (-1, (r, w, e)) else lift (answered fds revs (zeroed r) (zeroed w) (zeroed e) 0).

Definition ppoll (fds : list (Z * Z)) (timeout : option (Z * Z)) : C (Z * list Z) :=
  let ms := match timeout with
            | None => -1
            | Some (sec, nsec) => let m := s64 (sec * 1000 + nsec ÷ 1000000) in if m <? 0 then 0 else Z.min m 2147483647
            end in
  poll fds ms.

(** ** Memory *)

Definition UINTPTR_MAX : Z := 2 ^ 32 - 1.
Definition sbrk (increment : Z) : C Z :=
  let* r := sys (Brk 0) in
  let cur := u32 (value r) in
  if cur =? UINTPTR_MAX then ret UINTPTR_MAX
  else if increment =? 0 then ret cur
  else
    let req := u32 (cur + increment) in
    if req <? cur then ret UINTPTR_MAX
    else let* r := sys (Brk req) in if u32 (value r) =? UINTPTR_MAX then ret UINTPTR_MAX else ret cur.
Definition brk (addr : Z) : C Z := let* r := sys (Brk addr) in ret (if u32 (value r) =? UINTPTR_MAX then -1 else 0).

(** ** Paths *)

(** A command on the directory that holds the path. *)
Definition at_parent (path : option str) (cmd : Z) (args : str -> list arg) : C reply :=
  let* (fd, base) := nio_open_parent path 128 in
  if fd <? 0 then ret no_reply
  else let* r := nio_ioctl fd cmd (args base) in let* _ := nio_close fd in let* e := nio_map (value r) in ret (Reply e (words r) (bytes r)).
Definition at_parent_ (path : option str) (cmd : Z) (args : str -> list arg) : C Z := let* r := at_parent path cmd args in ret (value r).

Definition mkdir (path : option str) (mode : Z) : C Z := at_parent_ path (DIRCTL 3) (fun b => [AStr b]).
Definition rmdir (path : option str) : C Z := at_parent_ path (DIRCTL 4) (fun b => [AStr b]).
Definition unlink (path : option str) : C Z := at_parent_ path (DIRCTL 5) (fun b => [AStr b]).
Definition cact_create (path : option str) : C Z := at_parent_ path (DIRCTL 15) (fun b => [AStr b; AInt 0]).
Definition cact_delete (path : option str) : C Z := unlink path.
Definition access (path : option str) (mode : Z) : C Z := at_parent_ path (DIRCTL 10) (fun b => [AStr b; AInt (u32 mode)]).
Definition truncate (path : option str) (length : Z) : C Z := at_parent_ path (DIRCTL 13) (fun b => [AStr b; AInt (u32 length)]).
Definition chmod (path : option str) (mode : Z) : C Z := at_parent_ path (DIRCTL 11) (fun b => [AStr b; AInt (u32 mode)]).
Definition chown (path : option str) (uid gid : Z) : C Z := at_parent_ path (DIRCTL 12) (fun b => [AStr b; AInt (u32 uid); AInt (u32 gid)]).
Definition mknod (path : option str) (mode dev : Z) : C Z := at_parent_ path (DIRCTL 14) (fun b => [AStr b; AInt (u32 mode); AInt (u32 dev)]).
Definition symlink (target : str) (linkpath : option str) : C Z := at_parent_ linkpath (DIRCTL 7) (fun b => [AStr target; AStr b]).
(** The code and the bytes stored. *)
Definition readlink (path : option str) (bufsiz : Z) : C (Z * str) :=
  let* r := at_parent path (DIRCTL 8) (fun b => [AStr b; AInt (u32 bufsiz)]) in ret (value r, bytes r).

Definition link (oldpath : option str) (newpath : str) : C Z :=
  let* (fd, obase) := nio_open_parent oldpath 128 in
  if fd <? 0 then ret (-1)
  else
    let nbase := cut 128 (match last_slash newpath with Some (_, b) => b | None => newpath end) in
    if bool_decide (nbase = []) then let* _ := nio_close fd in fail EINVAL
    else let* r := nio_ioctl fd (DIRCTL 6) [AStr obase; AStr nbase] in let* _ := nio_close fd in nio_map (value r).

Definition ftruncate (fd length : Z) : C Z := on fd (FDCTL 6) [AInt (u32 length)].
Definition sync : C Z := ret 0.
Definition fsync (fd : Z) : C Z := on fd (FDCTL 8) [].
Definition fdatasync (fd : Z) : C Z := fsync fd.

(** [None] is NULL. *)
Definition getcwd (size : Z) : C (option str) :=
  let* (r, bs) := nio_read_file (txt "/proc/self/cwd") 512 in
  if r <? 0 then ret None
  else if r >=? size then let* _ := set_errno ERANGE in ret None
  else ret (Some (take (Z.to_nat r) bs)).

(** Slashes at the end go, but not the first character. *)
Fixpoint strip_rev (p : str) : str :=
  match p with
  | c :: ((_ :: _) as q) => if c =? 47 then strip_rev q else p
  | _ => p
  end.
Definition stripped (path : str) : str := rev (strip_rev (rev (cut 512 path))).

Definition is_root (path : str) : bool := bool_decide (path = txt "/").

(** The four ways to look at a file: on the root itself, or through its parent. *)
Definition look (path : option str) (buf : bool) (root : Z * list arg) (cmd : Z) (args : str -> list arg) : C reply :=
  match path with
  | None => let* e := fail ENOENT in ret (Reply e [] [])
  | Some p =>
      if negb buf then let* e := fail ENOENT in ret (Reply e [] [])
      else if is_root p then
        let* fd := nio_open (txt "/") O_RDONLY in
        if fd <? 0 then ret no_reply
        else
          let* r := nio_ioctl fd (fst root) (snd root) in
          let* _ := nio_close fd in let* e := nio_map (value r) in ret (Reply e (words r) (bytes r))
      else at_parent (Some (stripped p)) cmd args
  end.

Definition CACT_AT_SYMLINK_NOFOLLOW : Z := 256.

(** The structure is what the kernel stored; [stat] does not look at its buffer. *)
Definition stat (path : option str) : C reply := look path true (FDCTL 5, []) (DIRCTL 2) (fun b => [AStr b]).
Definition fstat (fd : Z) : C reply := let* r := nio_ioctl fd (FDCTL 5) [] in let* e := nio_map (value r) in ret (Reply e (words r) (bytes r)).
(** Words 0, 1, 5 and 11 of the larger structure: ino, mode, size and type. *)
Definition lstat (path : option str) (buf : bool) : C reply :=
  let* r := look path buf (FDCTL 5, []) (DIRCTL 16) (fun b => [AStr b; AInt CACT_AT_SYMLINK_NOFOLLOW]) in
  ret (if value r <? 0 then r else if bool_decide (path = Some (txt "/")) then r
       else Reply 0 ((fun i => nth i (words r) 0) <$> [0; 1; 5; 11]%nat) []).
Definition statfs (path : option str) (buf : bool) : C reply := look path buf (DIRCTL 18, [ANull]) (DIRCTL 18) (fun b => [AStr b]).
Definition cact_statx (path : option str) (buf : bool) (flags : Z) : C reply := look path buf (FDCTL 9, []) (DIRCTL 16) (fun b => [AStr b; AInt flags]).

(** ** Positions and vectors *)

Definition pread (fd count offset : Z) : C (Z * str) :=
  let* cur := lseek fd 0 SEEK_CUR in
  if cur <? 0 then ret (-1, [])
  else
    let* e := lseek fd offset SEEK_SET in
    if e <? 0 then ret (-1, [])
    else let* r := read fd count in let* _ := lseek fd cur SEEK_SET in ret r.

Definition pwrite (fd : Z) (bs : str) (offset : Z) : C Z :=
  let* cur := lseek fd 0 SEEK_CUR in
  if cur <? 0 then ret (-1)
  else
    let* e := lseek fd offset SEEK_SET in
    if e <? 0 then ret (-1)
    else let* r := write fd bs in let* _ := lseek fd cur SEEK_SET in ret r.

(** The sizes of the buffers; the result and what was stored in each. *)
Fixpoint readv (fd : Z) (iov : list Z) (total : Z) : C (Z * list str) :=
  match iov with
  | [] => ret (total, [])
  | l :: iov =>
      if l =? 0 then let* (t, bs) := readv fd iov total in ret (t, [] :: bs)
      else
        let* (r, b) := read fd l in
        if r <? 0 then ret (if negb (total =? 0) then total else -1, [])
        else
          let total := total + r in
          if r <? l then ret (total, [b]) else let* (t, bs) := readv fd iov total in ret (t, b :: bs)
  end.

Fixpoint writev (fd : Z) (iov : list str) (total : Z) : C Z :=
  match iov with
  | [] => ret total
  | l :: iov =>
      if bool_decide (l = []) then writev fd iov total
      else
        let* r := write fd l in
        if r <? 0 then ret (if negb (total =? 0) then total else -1)
        else
          let total := total + r in
          if r <? Z.of_nat (length l) then ret total else writev fd iov total
  end.

(** ** The system *)

Definition dev (name : string) (cmd : Z) (args : list arg) : C Z := let* r := nio_dev_cmd (txt name) cmd args in nio_map (value r).
Definition mount (src target fstype : str) : C Z := dev "sys" (SYSCTL 1) [AStr src; AStr target; AStr fstype].
Definition umount (target : str) : C Z := dev "sys" (SYSCTL 2) [AStr target].
Definition reboot (cmd : Z) : C Z := dev "sys" (SYSCTL 3) [AInt (u32 cmd)].
Definition module_load (path : str) (vendor_id device_id : Z) : C Z := dev "sys" (SYSCTL 4) [AStr path; AInt vendor_id; AInt device_id].
Definition module_unload (target : str) : C Z := dev "sys" (SYSCTL 5) [AStr target].

(** The five fields of 65 bytes. *)
Definition uname : C (option (list str)) :=
  let* (r, bs) := nio_read_file (txt "/proc/uname") 325 in
  if negb (r =? 325) then ret None else ret (Some ((fun i => take 65 (drop (65 * i) bs)) <$> List.seq 0 5)).

Definition isatty (fd : Z) : C Z := let* r := nio_ioctl fd TIOCGWINSZ [] in ret (if value r >=? 0 then 1 else 0).

(** The entries of a search path. *)
Fixpoint entries (p : str) : list str :=
  match p with
  | [] => [[]]
  | c :: p =>
      if c =? 58 then [] :: entries p
      else match entries p with e :: es => (c :: e) :: es | [] => [[c]] end
  end.

Definition default_path : str := txt "/usr/bin:/usr/sbin:/bin:/sbin".

(** The candidate in an array of 512 bytes. *)
Definition candidate (d file : str) : option str :=
  if bool_decide (d = []) then if Z.of_nat (length file) + 1 <=? 512 then Some file else None
  else if Z.of_nat (length d) + 1 + Z.of_nat (length file) + 1 <=? 512 then Some (d ++ [47] ++ file) else None.

Fixpoint try_all (ds : list str) (file : str) (argv environ : list str) : C (unit + Z) :=
  match ds with
  | [] => let* r := fail ENOENT in ret (inr r)
  | d :: ds =>
      match candidate d file with
      | None => try_all ds file argv environ
      | Some c => let* r := execve c argv environ in match r with inl _ => ret (inl tt) | inr _ => try_all ds file argv environ end
      end
  end.

(** [path] is the variable PATH. *)
Definition execvp (file : option str) (argv environ : list str) (path : option str) : C (unit + Z) :=
  match default [] file with
  | [] => let* r := fail ENOENT in ret (inr r)
  | f =>
      if existsb (Z.eqb 47) f then execve f argv environ
      else try_all (entries (match path with Some (c :: p) => c :: p | _ => default_path end)) f argv environ
  end.
End Calls.
End Sys.
