(* ===== verification/SysSpec.v ===== *)
(** * SysSpec: what the system calls of the library promise

    Descriptors: the calls on paths close what they open.  Searching: [execvp]
    runs the first candidate of the search path that the kernel accepts.
    Waiting: [select] says of each descriptor what [poll] said.  Vectors:
    [writev] writes a prefix of its buffers, in order. *)

From Stdlib Require Import ZArith Lia Bool String Ascii.
From stdpp Require Import base list numbers gmap.
From S2P Require Import Prelude Monad Dlfcn Time Sys.

Module SysSpec.
Import Sys.

(** ** Descriptors *)

(** The commands that hand out a descriptor or replace one; the last four make,
    pair, accept and receive sockets. *)
Definition makes_fd (cmd : Z) : bool :=
  existsb (Z.eqb cmd) [FDCTL 1; FDCTL 2; FDCTL 3; DIRCTL 1; DIRCTL 15; CACT_PIPECTL_CREATE; 13060; 13069; 13313; 13317].

(** A kernel with a table of descriptors. *)
Class Table (K : Type) `{KR : Kernel K} := {
  opened : K -> gset Z;
  open_law p f k : let '(r, k') := trap (Open p f) k in
    if value r <? 0 then opened k' = opened k else value r ∉ opened k /\ opened k' = {[value r]} ∪ opened k;
  close_law fd k : let '(_, k') := trap (Close fd) k in opened k' = opened k ∖ {[fd]};
  ioctl_law fd c a k : makes_fd c = false -> opened (snd (trap (Ioctl fd c a) k)) = opened k;
  read_law fd n k : opened (snd (trap (Read fd n) k)) = opened k;
  write_law fd b k : opened (snd (trap (Write fd b) k)) = opened k
}.

Section Balance.
Context {K : Type} `{KR : Kernel K} `{TA : !Table K}.
Implicit Types s : st K.

(** The computation returns and leaves the table as it was. *)
Definition balanced {A} (c : St (st K) A) : Prop := forall s, wp c s (fun _ s' => opened (kern s') = opened (kern s)).

Lemma balanced_ret {A} (a : A) : balanced (ret a).
Proof. done. Qed.

Lemma balanced_bind {A B} (c : St (st K) A) (k : A -> St (st K) B) : balanced c -> (forall a, balanced (k a)) -> balanced (bind c k).
Proof. intros Hc Hk s. apply wp_bind. eapply wp_mono; [apply Hc|]. intros a s1 E. eapply wp_mono; [apply Hk|]. intros b s2 E2. congruence. Qed.

Lemma balanced_errno e : balanced (set_errno e).
Proof. done. Qed.

Lemma balanced_fail e : balanced (fail e).
Proof. done. Qed.

Lemma balanced_gets {A} (f : st K -> A) : balanced (gets f).
Proof. done. Qed.

Lemma balanced_map r : balanced (nio_map r).
Proof. unfold nio_map. destruct (Time.nio_map r); done. Qed.

Lemma balanced_sys c : (forall k, opened (snd (trap c k)) = opened k) -> balanced (sys c).
Proof. intros H s. unfold wp, sys. specialize (H (kern s)). by destruct (trap c (kern s)). Qed.

Lemma balanced_ioctl fd c a : makes_fd c = false -> balanced (nio_ioctl fd c a).
Proof. intros H. apply balanced_sys. intros k. by apply ioctl_law. Qed.

(** Opening, using and closing. *)
Lemma open_close {A} p f (b : Z -> St (st K) A) (z : A) :
  (forall fd, balanced (b fd)) ->
  balanced (let* fd := nio_open p f in if fd <? 0 then ret z else let* r := b fd in let* _ := nio_close fd in ret r).
Proof.
  intros Hb s. apply wp_bind. unfold nio_open. apply wp_bind. unfold wp at 1, sys. pose proof (open_law p f (kern s)) as H. destruct (trap _ _) as [r k]. cbn.
  apply wp_ret. destruct (value r <? 0); [by apply wp_ret|]. destruct H as [Hn Ho]. apply wp_bind. eapply wp_mono; [apply Hb|]. intros a s1 E1.
  apply wp_bind. unfold nio_close. apply wp_bind. unfold wp at 1, sys. pose proof (close_law (value r) (kern s1)) as Hc. destruct (trap _ _) as [r2 k2].
  apply wp_ret, wp_ret. cbn in *. rewrite Hc, E1, Ho. set_solver.
Qed.

Lemma balanced_if {A} (b : bool) (c d : St (st K) A) : balanced c -> balanced d -> balanced (if b then c else d).
Proof. by destruct b. Qed.

(** The same with the parent of a path, whose errors come first. *)
Lemma parent_close {A} p n (b : Z -> str -> St (st K) A) (z : A) :
  (forall fd base, balanced (b fd base)) ->
  balanced (let* (fd, base) := nio_open_parent p n in if fd <? 0 then ret z else let* r := b fd base in let* _ := nio_close fd in ret r).
Proof.
  intros Hb.
  assert (F : forall e base, balanced (let* (fd, base) := (let* r := fail e in ret (r, base)) in
    if fd <? 0 then ret z else let* r := b fd base in let* _ := nio_close fd in ret r)) by (intros e base s; done).
  assert (O : forall d base, balanced (let* (fd, base) := (let* fd := nio_open d O_RDONLY in ret (fd, base)) in
    if fd <? 0 then ret z else let* r := b fd base in let* _ := nio_close fd in ret r)).
  { intros d base s. pose proof (open_close d O_RDONLY (fun fd => b fd base) z (fun fd => Hb fd base) s) as H. revert H. unfold wp, bind.
    destruct (nio_open d O_RDONLY s) as [[fd s1]|]; done. }
  unfold nio_open_parent. destruct (default [] p) as [|c q]; [apply F|]. destruct (last_slash (c :: q)) as [[d b0]|]; [|apply O].
  destruct b0; [apply F|]. destruct (_ >=? _); [apply F|apply O].
Qed.
End Balance.

(** The calls that take a path. *)
Inductive path_call :=
| Mkdir (p : option str) (mode : Z) | Rmdir (p : option str) | Unlink (p : option str) | Access (p : option str) (mode : Z)
| Truncate (p : option str) (n : Z) | Chmod (p : option str) (mode : Z) | Chown (p : option str) (uid gid : Z) | Mknod (p : option str) (mode dev : Z)
| Symlink (target : str) (p : option str) | Readlink (p : option str) (n : Z) | Link (old : option str) (new : str)
| Stat (p : option str) | Lstat (p : option str) (buf : bool) | Statfs (p : option str) (buf : bool) | Statx (p : option str) (buf : bool) (flags : Z).

Section Paths.
Context {K : Type} `{KR : Kernel K} `{TA : !Table K}.

Definition path_run (c : path_call) : St (st K) Z :=
  match c with
  | Mkdir p m => mkdir p m | Rmdir p => rmdir p | Unlink p => unlink p | Access p m => access p m | Truncate p n => truncate p n
  | Chmod p m => chmod p m | Chown p u g => chown p u g | Mknod p m d => mknod p m d | Symlink t p => symlink t p
  | Readlink p n => let* (r, _) := readlink p n in ret r | Link o n => link o n
  | Stat p => let* r := stat p in ret (value r) | Lstat p b => let* r := lstat p b in ret (value r)
  | Statfs p b => let* r := statfs p b in ret (value r) | Statx p b f => let* r := cact_statx p b f in ret (value r)
  end.

Lemma at_parent_balanced p cmd args : makes_fd cmd = false -> balanced (at_parent p cmd args).
Proof.
  intros Hc s. unfold at_parent.
  pose proof (parent_close p 128 (fun fd base => let* r := nio_ioctl fd cmd (args base) in ret r) no_reply) as H.
  specialize (H ltac:(intros; apply balanced_bind; [by apply balanced_ioctl|intros; apply balanced_ret]) s). revert H. unfold wp, bind.
  destruct (nio_open_parent p 128 s) as [[[fd base] s1]|]; [|done]. destruct (fd <? 0); [done|]. destruct (nio_ioctl fd cmd (args base) s1) as [[r s2]|]; [|done]. cbn.
  destruct (nio_close fd s2) as [[r2 s3]|]; [|done]. cbn. intros E. unfold nio_map. by destruct (Time.nio_map (value r)).
Qed.

Lemma look_balanced p buf root cmd args : makes_fd (fst root) = false -> makes_fd cmd = false -> balanced (look p buf root cmd args).
Proof.
  intros Hr Hc s. unfold look. destruct p as [p|]; [|done]. destruct buf; cbn [negb]; [|done]. destruct (is_root p); [|by apply at_parent_balanced].
  pose proof (open_close (txt "/") O_RDONLY (fun fd => nio_ioctl fd (fst root) (snd root)) no_reply ltac:(intros; by apply balanced_ioctl) s) as H. revert H. unfold wp, bind.
  destruct (nio_open (txt "/") O_RDONLY s) as [[fd s1]|]; [|done]. destruct (fd <? 0); [done|]. destruct (nio_ioctl fd _ _ s1) as [[r s2]|]; [|done].
  destruct (nio_close fd s2) as [[r2 s3]|]; [|done]. cbn. intros E. unfold nio_map. by destruct (Time.nio_map (value r)).
Qed.

Lemma link_balanced o n : balanced (link o n).
Proof.
  intros s. unfold link. set (nbase := cut 128 _).
  pose proof (parent_close o 128 (fun fd base => if bool_decide (nbase = []) then ret no_reply else nio_ioctl fd (DIRCTL 6) [AStr base; AStr nbase]) no_reply) as H.
  specialize (H ltac:(intros; apply balanced_if; [apply balanced_ret|by apply balanced_ioctl]) s). revert H. unfold wp, bind.
  destruct (nio_open_parent o 128 s) as [[[fd base] s1]|]; [|done]. destruct (fd <? 0); [done|]. fold nbase. destruct (bool_decide (nbase = [])).
  - cbn. destruct (nio_close fd s1) as [[r2 s3]|]; done.
  - destruct (nio_ioctl _ _ _ s1) as [[r s2]|]; [|done]. destruct (nio_close fd s2) as [[r2 s3]|]; [|done]. cbn. intros E. unfold nio_map. by destruct (Time.nio_map (value r)).
Qed.

(** the calls that take a path return and leave no descriptor behind: whatever
    the path and whatever the kernel answers, the open descriptors are those
    from before the call. *)
Theorem path_calls_close c (s : st K) : exists r s', path_run c s = Some (r, s') /\ opened (kern s') = opened (kern s).
Proof.
  assert (B : balanced (path_run c)).
  { destruct c; cbn [path_run]; try (apply balanced_bind; [by apply at_parent_balanced|intros; apply balanced_ret]); try apply link_balanced.
    - apply balanced_bind; [|intros []; apply balanced_ret]. apply balanced_bind; [by apply at_parent_balanced|intros; apply balanced_ret].
    - apply balanced_bind; [by apply look_balanced|intros; apply balanced_ret].
    - apply balanced_bind; [|intros; apply balanced_ret]. apply balanced_bind; [by apply look_balanced|intros; apply balanced_ret].
    - apply balanced_bind; [by apply look_balanced|intros; apply balanced_ret].
    - apply balanced_bind; [by apply look_balanced|intros; apply balanced_ret]. }
  destruct (wp_total _ _ _ (B s)) as (r & s' & E & H). eauto.
Qed.
End Paths.

(** ** Splitting a path *)

Lemma no_slash_none p : last_slash p = None <-> 47 ∉ p.
Proof.
  induction p as [|c p IH]; cbn; [set_solver|]. destruct (last_slash p) as [[d b]|].
  - split; [done|]. rewrite not_elem_of_cons. intros [_ H]. by apply IH in H.
  - rewrite not_elem_of_cons. destruct (Z.eqb_spec c 47); [split; [done|intros [? _]; congruence]|]. split; [|done]. intros _. split; [congruence|by apply IH].
Qed.

Lemma last_slash_split d b : 47 ∉ b -> last_slash (d ++ 47 :: b) = Some (d, b).
Proof.
  intros Hb. induction d as [|c d IH]; cbn; [|by rewrite IH]. apply no_slash_none in Hb. by rewrite Hb.
Qed.

Section Split.
Context {K : Type} `{KR : Kernel K}.

(** The parent of a path with a slash is what comes before the last one. *)
Lemma open_parent_split d b s : 47 ∉ b -> b <> [] -> Z.of_nat (length d) < 511 ->
  nio_open_parent (Some (d ++ 47 :: b)) 128 s = (let* fd := nio_open (if bool_decide (d = []) then txt "/" else d) O_RDONLY in ret (fd, take 127 b)) s.
Proof.
  intros Hb Hne Hd. unfold nio_open_parent. cbn [default id]. assert (Hp : d ++ 47 :: b <> []) by by destruct d.
  pose proof (last_slash_split d b Hb) as E. destruct (d ++ 47 :: b); [done|]. rewrite E. destruct b; [done|]. rewrite Z.geb_leb, (proj2 (Z.leb_gt _ _)) by lia. done.
Qed.

(** A name of more than 127 characters is cut without an error: removing it
    removes the file whose name is its beginning. *)
Theorem long_name_truncated d b x s : 47 ∉ b -> 47 ∉ x -> length b = 127%nat -> Z.of_nat (length d) < 511 ->
  unlink (Some (d ++ 47 :: b ++ x)) s = unlink (Some (d ++ 47 :: b)) s.
Proof.
  intros Hb Hx Hl Hd. assert (Hne : b <> []) by (by intros ->). assert (E : nio_open_parent (Some (d ++ 47 :: b ++ x)) 128 s = nio_open_parent (Some (d ++ 47 :: b)) 128 s).
  { rewrite (open_parent_split d (b ++ x)); [|rewrite not_elem_of_app; tauto|by destruct b|done]. rewrite (open_parent_split d b) by done.
    rewrite (take_ge b) by lia. by rewrite take_app_le, take_ge by lia. }
  unfold unlink, at_parent_, at_parent, bind. by rewrite E.
Qed.
End Split.

(** ** Searching for a program *)

(** A kernel that runs some files, and where a refused one changes nothing. *)
Class Execs (K : Type) `{KR : Kernel K} := {
  runs : K -> str -> bool;
  image : str -> list str -> list str -> K -> K;
  exec_law p a e k : if runs k p then 0 <= value (fst (trap (Exec p a e) k)) /\ snd (trap (Exec p a e) k) = image p a e k
                     else value (fst (trap (Exec p a e) k)) < 0 /\ snd (trap (Exec p a e) k) = k
}.

Section Search.
Context {K : Type} `{KR : Kernel K} `{EX : !Execs K}.
Implicit Types s : st K.

(** The candidates of a search path, in order. *)
Definition candidates (path file : str) : list str := omap (fun d => candidate d file) (entries path).

Lemma execve_run p a e s : execve p a e s =
  if runs (kern s) p then Some (inl tt, S_ (image p a e (kern s)) (errno s) (pid_cache s) (ctl_fd s))
  else Some (inr (value (fst (trap (Exec p a e) (kern s)))), s).
Proof.
  unfold execve, bind, sys. pose proof (exec_law p a e (kern s)) as H. destruct (trap _ _) as [r k]. cbn in *. destruct (runs (kern s) p); destruct H as [H ->].
  - by rewrite Z.geb_leb, (proj2 (Z.leb_le _ _)).
  - rewrite Z.geb_leb, (proj2 (Z.leb_gt _ _)) by done. by destruct s.
Qed.

Lemma try_all_run ds f a e s : try_all ds f a e s =
  match find (runs (kern s)) (omap (fun d => candidate d f) ds) with
  | Some p => Some (inl tt, S_ (image p a e (kern s)) (errno s) (pid_cache s) (ctl_fd s))
  | None => Some (inr (-1), S_ (kern s) ENOENT (pid_cache s) (ctl_fd s))
  end.
Proof.
  induction ds as [|d ds IH]; [done|]. cbn [try_all omap list_omap]. destruct (candidate d f) as [c|]; [|exact IH]. cbn [find].
  unfold bind at 1. rewrite execve_run. destruct (runs (kern s) c); [done|exact IH].
Qed.

(** [execvp] runs the first file along the search path that the kernel accepts,
    with the given arguments; when there is none it says ENOENT and the process
    is as it was. *)
Theorem execvp_search c file a e path s : 47 ∉ c :: file ->
  execvp (Some (c :: file)) a e path s =
    match find (runs (kern s)) (candidates (match path with Some (x :: p) => x :: p | _ => default_path end) (c :: file)) with
    | Some p => Some (inl tt, S_ (image p a e (kern s)) (errno s) (pid_cache s) (ctl_fd s))
    | None => Some (inr (-1), S_ (kern s) ENOENT (pid_cache s) (ctl_fd s))
    end.
Proof.
  intros Hs. unfold execvp. cbn [default id]. assert (E : existsb (Z.eqb 47) (c :: file) = false).
  { apply not_true_iff_false. rewrite existsb_exists. intros (x & Hx & Ex). apply Z.eqb_eq in Ex as <-. apply Hs. by apply list_elem_of_In. }
  rewrite E. apply try_all_run.
Qed.
End Search.

Lemma entries_ne p : entries p <> [].
Proof. induction p as [|c p IH]; [done|]. cbn. destruct (c =? 58); [done|]. by destruct (entries p). Qed.

(** The entries, joined with colons, are the path again. *)
Lemma entries_join p : concat (match entries p with [] => [] | e :: es => e :: ((fun x => 58 :: x) <$> es) end) = p.
Proof.
  induction p as [|c p IH]; [done|]. cbn [entries]. pose proof (entries_ne p). destruct (entries p) as [|e es]; [done|].
  destruct (Z.eqb_spec c 58) as [->|]; cbn in *; by rewrite IH.
Qed.

(** ** Vectors *)

(** A kernel that takes some of the bytes written. *)
Class Streams (K : Type) `{KR : Kernel K} := {
  written : K -> Z -> str;
  write_stream fd bs k : let '(r, k') := trap (Write fd bs) k in
    if value r <? 0 then written k' fd = written k fd
    else value r <= Z.of_nat (length bs) /\ written k' fd = written k fd ++ take (Z.to_nat (value r)) bs
}.

Section Vectors.
Context {K : Type} `{KR : Kernel K} `{SM : !Streams K}.
Implicit Types s : st K.

Lemma writev_run fd iov total s : 0 <= total -> exists r s' n, writev fd iov total s = Some (r, s') /\
  written (kern s') fd = written (kern s) fd ++ take n (concat iov) /\ (n <= length (concat iov))%nat /\
  (r = total + Z.of_nat n \/ r = -1 /\ n = 0%nat /\ total = 0).
Proof.
  revert total s. induction iov as [|l iov IH]; intros total s Ht.
  { exists total, s, 0%nat. split_and!; [done|cbn; by rewrite app_nil_r|done|left; lia]. }
  cbn [writev concat]. destruct (bool_decide_reflect (l = [])) as [->|Hl]; [by apply IH|]. unfold bind at 1, write, nio_write, bind, sys.
  pose proof (write_stream fd l (kern s)) as H. destruct (trap (Write fd l) (kern s)) as [r k]. cbn. destruct (Z.ltb_spec (value r) 0) as [Hr|Hr].
  - eexists _, _, 0%nat. split_and!; [done|cbn; by rewrite take_0, app_nil_r|lia|]. destruct (Z.eqb_spec total 0); cbn [negb]; [right|left]; csplit.
  - destruct H as [Hv Hw]. destruct (Z.ltb_spec (value r) (Z.of_nat (length l))).
    + eexists _, _, (Z.to_nat (value r)). split_and!; [done| |rewrite length_app; lia|left; lia]. cbn. rewrite Hw. by rewrite take_app_le by lia.
    + destruct (IH (total + value r) (S_ k (errno s) (pid_cache s) (ctl_fd s)) ltac:(lia)) as (r' & s' & n & E & W & Hn & Hd).
      exists r', s', (length l + n)%nat. rewrite E. split_and!; [done| |rewrite length_app; lia|].
      * rewrite W. cbn. rewrite Hw, (take_ge l) by lia. rewrite <- app_assoc. by rewrite take_app_add.
      * destruct Hd as [->|(_ & _ & Hz)]; [left; lia|]. exfalso. assert (length l <> 0%nat) by by destruct l. lia.
Qed.

(** [writev] writes a beginning of its buffers, in order and without gaps, and
    returns its length; it says -1 only when nothing was written. *)
Theorem writev_prefix fd iov s : exists r s' n, writev fd iov 0 s = Some (r, s') /\
  written (kern s') fd = written (kern s) fd ++ take n (concat iov) /\ (n <= length (concat iov))%nat /\ (r = Z.of_nat n \/ r = -1 /\ n = 0%nat).
Proof. destruct (writev_run fd iov 0 s ltac:(lia)) as (r & s' & n & E & W & Hn & Hd). exists r, s', n. split_and!; [done..|]. destruct Hd as [->|(-> & -> & _)]; auto. Qed.
End Vectors.

(** ** Selecting *)

Definition in_words (x : Z) (l : list Z) : bool := Z.testbit (default 0 (l !! Z.to_nat (x / 32))) (x mod 32).
Definition member (x : Z) (s : fd_set) : bool := match s with None => false | Some l => in_words x l end.
Definition set_ok (s : fd_set) : Prop := match s with None => True | Some l => length l = 8%nat end.

Lemma word_in x (l : list Z) : 0 <= x < 256 -> length l = 8%nat -> exists w, l !! Z.to_nat (x / 32) = Some w.
Proof. intros Hx Hl. apply lookup_lt_is_Some_2. assert (x / 32 < 8) by (apply Z.div_lt_upper_bound; lia). assert (0 <= x / 32) by (apply Z.div_pos; lia). lia. Qed.

Lemma isset_member x s : 0 <= x < 256 -> set_ok s -> isset x s = Some (member x s).
Proof.
  intros Hx Hs. destruct s as [l|]; [|done]. cbn. unfold FD_ISSET, in_words. rewrite (proj2 (Z.leb_le 0 x)) by lia. by destruct (word_in x l Hx Hs) as [w ->].
Qed.

Lemma fd_set_words fd (l : list Z) : 0 <= fd < 256 -> length l = 8%nat ->
  exists l', FD_SET fd l = Some l' /\ length l' = 8%nat /\ forall x, 0 <= x < 256 -> in_words x l' = (fd =? x) || in_words x l.
Proof.
  intros Hf Hl. unfold FD_SET. rewrite (proj2 (Z.leb_le 0 fd)) by lia. destruct (word_in fd l Hf Hl) as [w E]. rewrite E. eexists. split; [done|].
  split; [by rewrite length_insert|]. intros x Hx. unfold in_words. assert (0 <= fd / 32) by (apply Z.div_pos; lia). assert (0 <= x / 32) by (apply Z.div_pos; lia).
  pose proof (Z.div_mod fd 32 ltac:(lia)). pose proof (Z.div_mod x 32 ltac:(lia)). pose proof (Z.mod_pos_bound fd 32 ltac:(lia)). pose proof (Z.mod_pos_bound x 32 ltac:(lia)).
  destruct (decide (x / 32 = fd / 32)) as [Eq|Ne].
  - rewrite Eq, list_lookup_insert_eq, E by (apply lookup_lt_Some in E; lia). cbn. rewrite Z.lor_spec, Z.shiftl_spec by lia. rewrite orb_comm. f_equal.
    destruct (Z.eqb_spec fd x) as [->|Hne]; [by rewrite Z.sub_diag|]. destruct (Z.ltb_spec (x mod 32) (fd mod 32)); [apply Z.testbit_neg_r; lia|].
    apply Z.bits_above_log2; [lia|]. change (Z.log2 1) with 0. lia.
  - rewrite list_lookup_insert_ne by lia. destruct (Z.eqb_spec fd x); [congruence|done].
Qed.

(** Marking a set: the descriptor goes in when the answer says so. *)
Lemma mark_member b fd s : 0 <= fd < 256 -> set_ok s ->
  exists s', mark b fd s = Some s' /\ set_ok s' /\ (s' = None <-> s = None) /\
    forall x, 0 <= x < 256 -> member x s' = (bool_decide (s <> None) && (b && (fd =? x))) || member x s.
Proof.
  intros Hf Hs. destruct s as [l|]; [|by exists None]. cbn. destruct b.
  - destruct (fd_set_words fd l Hf Hs) as (l' & -> & Hl & Hm). exists (Some l'). split_and!; [done..|]. intros x Hx. cbn. by rewrite Hm.
  - exists (Some l). split_and!; done.
Qed.

(** What a descriptor is asked for. *)
Definition wants (r w e : fd_set) (x : Z) : Z := Z.lor (Z.lor (bit (member x r) POLLIN) (bit (member x w) POLLOUT)) (bit (member x e) POLLERR).
Definition watched (r w e : fd_set) (xs : list Z) : list (Z * Z) :=
  omap (fun x => if wants r w e x =? 0 then None else Some (x, wants r w e x)) xs.

Lemma asked_watched r w e n fd : set_ok r -> set_ok w -> set_ok e -> 0 <= fd -> fd + Z.of_nat n <= 256 -> asked n fd r w e = Some (watched r w e (seqZ fd (Z.of_nat n))).
Proof.
  intros Hr Hw He. revert fd. induction n as [|n IH]; intros fd H0 H1; [done|]. cbn [asked]. rewrite !isset_member by (done || lia). cbn [mbind option_bind].
  rewrite IH by lia. cbn [mbind option_bind]. rewrite (seqZ_cons fd (Z.of_nat (S n))) by lia. replace (Z.pred (Z.of_nat (S n))) with (Z.of_nat n) by lia. change (Z.succ fd) with (fd + 1).
  unfold watched. cbn [omap list_omap]. fold (wants r w e fd). by destruct (wants r w e fd =? 0).
Qed.

Lemma watched_range r w e n x ev : (x, ev) ∈ watched r w e (seqZ 0 n) -> 0 <= x < n.
Proof. unfold watched. rewrite list_elem_of_omap. intros (y & Hy & E). apply elem_of_seqZ in Hy. destruct (_ =? 0); [done|]. injection E as -> _. lia. Qed.

Lemma watched_length r w e xs : (length (watched r w e xs) <= length xs)%nat.
Proof. unfold watched. induction xs as [|x xs IH]; cbn; [done|]. destruct (_ =? 0); cbn; lia. Qed.

(** Whether an answer for the descriptor has one of the bits. *)
Definition said (fds : list (Z * Z)) (revs : list Z) (m x : Z) : bool := existsb (fun p => (fst (fst p) =? x) && has (snd p) m) (zip fds revs).

Lemma has_0 m : has 0 m = false.
Proof. unfold has. by rewrite Z.land_0_l. Qed.

Lemma or_here n y h q m : (n && y) || ((n && (h && q)) || m) = (n && ((q && h) || y)) || m.
Proof. by destruct n, y, h, q, m. Qed.

Lemma answered_run fds revs r w e count : Forall (fun p => 0 <= fst p < 256) fds -> length revs = length fds -> set_ok r -> set_ok w -> set_ok e ->
  exists r' w' e', answered fds revs r w e count = Some (count + Z.of_nat (length (List.filter (fun v => negb (v =? 0)) revs)), (r', w', e')) /\
    forall x, 0 <= x < 256 ->
      member x r' = (bool_decide (r <> None) && said fds revs (Z.lor (Z.lor POLLIN POLLHUP) POLLERR) x) || member x r /\
      member x w' = (bool_decide (w <> None) && said fds revs (Z.lor POLLOUT POLLERR) x) || member x w /\
      member x e' = (bool_decide (e <> None) && said fds revs POLLERR x) || member x e.
Proof.
  intros Hf. revert revs r w e count. induction Hf as [|[fd ev] fds Hfd _ IH]; intros revs r w e count Hl Hr Hw He.
  { destruct revs; [|done]. exists r, w, e. split; [cbn; by rewrite Z.add_0_r|]. intros x _. cbn. by rewrite !andb_false_r. }
  destruct revs as [|v revs]; [done|]. injection Hl as Hl. cbn [answered head tail mbind option_bind]. cbn [fst] in Hfd. destruct (Z.eqb_spec v 0) as [->|Hv].
  { destruct (IH revs r w e count Hl Hr Hw He) as (r' & w' & e' & E & H). exists r', w', e'. rewrite E. split; [done|]. intros x Hx.
    unfold said. cbn [zip zip_with existsb fst snd]. rewrite !has_0, !andb_false_r. exact (H x Hx). }
  destruct (mark_member (has v (Z.lor (Z.lor POLLIN POLLHUP) POLLERR)) fd r Hfd Hr) as (r1 & -> & Hr1 & Ir & Mr). cbn [mbind option_bind].
  destruct (mark_member (has v (Z.lor POLLOUT POLLERR)) fd w Hfd Hw) as (w1 & -> & Hw1 & Iw & Mw). cbn [mbind option_bind].
  destruct (mark_member (has v POLLERR) fd e Hfd He) as (e1 & -> & He1 & Ie & Me). cbn [mbind option_bind].
  destruct (IH revs r1 w1 e1 (count + 1) Hl Hr1 Hw1 He1) as (r' & w' & e' & E & H). exists r', w', e'. rewrite E. split.
  { cbn [List.filter]. rewrite (proj2 (Z.eqb_neq _ _) Hv). cbn [negb length]. do 2 f_equal. lia. }
  assert (Nn : forall s1 s2 : fd_set, (s1 = None <-> s2 = None) -> bool_decide (s1 <> None) = bool_decide (s2 <> None)).
  { intros s1 s2 Es. apply bool_decide_ext. tauto. }
  intros x Hx. destruct (H x Hx) as (-> & -> & ->). rewrite (Nn _ _ Ir), (Nn _ _ Iw), (Nn _ _ Ie), (Mr x Hx), (Mw x Hx), (Me x Hx).
  unfold said. cbn [zip zip_with existsb fst snd]. split_and!; apply or_here.
Qed.

Lemma zeroed_ok s : set_ok (zeroed s) /\ (zeroed s = None <-> s = None) /\ forall x, 0 <= x < 256 -> member x (zeroed s) = false.
Proof.
  destruct s as [l|]; [|done]. split_and!; [done..|]. intros x Hx. change (in_words x FD_ZERO = false). unfold in_words. destruct (word_in x FD_ZERO Hx eq_refl) as [w E]. rewrite E.
  unfold FD_ZERO in E. apply list_elem_of_lookup_2, list_elem_of_In, repeat_spec in E as ->. cbn. apply Z.testbit_0_l.
Qed.

Section Select.
Context {K : Type} `{KR : Kernel K}.

(** C34: [select] returns for sets of up to 256 descriptors, asks [poll] for exactly
    the descriptors in the sets, and then, when [poll] succeeds, a descriptor is in
    a set exactly when [poll] answered one of the set's events for it; the result
    is the number of descriptors with an answer. *)
Theorem select_correct nfds r w e timeout (s : st K) rep k :
  0 <= nfds <= 256 -> set_ok r -> set_ok w -> set_ok e ->
  let fds := watched r w e (seqZ 0 nfds) in
  trap (Poll fds (select_ms timeout)) (kern s) = (rep, k) -> 0 <= value rep -> length (words rep) = length fds ->
  exists r' w' e', select nfds r w e timeout s =
      Some ((Z.of_nat (length (List.filter (fun v => negb (v =? 0)) (words rep))), (r', w', e')), S_ k (errno s) (pid_cache s) (ctl_fd s)) /\
    forall x, 0 <= x < 256 ->
      member x r' = bool_decide (r <> None) && said fds (words rep) (Z.lor (Z.lor POLLIN POLLHUP) POLLERR) x /\
      member x w' = bool_decide (w <> None) && said fds (words rep) (Z.lor POLLOUT POLLERR) x /\
      member x e' = bool_decide (e <> None) && said fds (words rep) POLLERR x.
Proof.
  intros Hn Hr Hw He fds Ht Hv Hl. unfold select.
  assert (Ea : asked (Z.to_nat nfds) 0 r w e = Some fds) by (unfold fds; rewrite <- (Z2Nat.id nfds) at 2 by lia; apply asked_watched; (done || lia)).
  unfold bind at 1, lift at 1. rewrite Ea. pose proof (watched_length r w e (seqZ 0 nfds)) as Hlen. rewrite length_seqZ in Hlen. fold fds in Hlen.
  unfold FD_SETSIZE. rewrite Z.gtb_ltb, (proj2 (Z.ltb_ge _ _)) by lia. unfold poll, bind, sys. rewrite Ht. rewrite (proj2 (Z.ltb_ge _ _)) by lia. cbn [ret].
  rewrite (proj2 (Z.ltb_ge (value rep) 0)) by lia.
  destruct (zeroed_ok r) as (Zr & Nr & Mr), (zeroed_ok w) as (Zw & Nw & Mw), (zeroed_ok e) as (Ze & Ne & Me).
  destruct (answered_run fds (words rep) (zeroed r) (zeroed w) (zeroed e) 0) as (r' & w' & e' & E & H); [|done..|].
  { apply Forall_forall. intros [x ev] Hx. apply watched_range in Hx. cbn. lia. }
  unfold lift. rewrite E. exists r', w', e'. split; [done|]. intros x Hx. destruct (H x Hx) as (-> & -> & ->). rewrite (Mr x Hx), (Mw x Hx), (Me x Hx), !orb_false_r.
  split_and!; f_equal; apply bool_decide_ext; tauto.
Qed.
End Select.

(** ** A kernel *)

(** Descriptors, what was written, the program that runs, and what [poll] says
    of every descriptor. *)
Record toy := Toy { t_fds : gset Z; t_out : str; t_image : option str; t_rev : Z }.

Definition fresh_fd (k : toy) : Z := 3 + foldr Z.max 0 (elements (t_fds k)).

Lemma fresh_fd_new k : fresh_fd k ∉ t_fds k.
Proof.
  rewrite <- elem_of_elements. unfold fresh_fd. intros H.
  assert (M : forall x l, x ∈ l -> x <= foldr Z.max 0 l) by (intros x l; induction 1; cbn; lia). apply M in H. lia.
Qed.

Lemma fresh_fd_pos k : 0 <= fresh_fd k.
Proof. unfold fresh_fd. induction (elements (t_fds k)); cbn; lia. Qed.

Definition ls : str := txt "/bin/ls".

#[global] Instance toy_kernel : Kernel toy := {|
  trap c k :=
    match c with
    | Open _ _ => (Reply (fresh_fd k) [] [], Toy ({[fresh_fd k]} ∪ t_fds k) (t_out k) (t_image k) (t_rev k))
    | Close fd => (Reply 0 [] [], Toy (t_fds k ∖ {[fd]}) (t_out k) (t_image k) (t_rev k))
    | Write _ bs => (Reply (Z.min 4 (Z.of_nat (length bs))) [] [], Toy (t_fds k) (t_out k ++ take 4 bs) (t_image k) (t_rev k))
    | Exec p _ _ => if bool_decide (p = ls) then (Reply 0 [] [], Toy (t_fds k) (t_out k) (Some p) (t_rev k)) else (Reply (-1) [] [], k)
    | Poll fds _ => (Reply (Z.of_nat (length fds)) ((fun _ => t_rev k) <$> fds) [], k)
    | _ => (Reply 0 [] [], k)
    end
|}.

#[global] Instance toy_table : Table toy.
Proof.
  refine {| opened := t_fds |}; try done. intros p f k. cbn. pose proof (fresh_fd_pos k). rewrite (proj2 (Z.ltb_ge _ _)) by lia. split; [apply fresh_fd_new|done].
Defined.

#[global] Instance toy_execs : Execs toy.
Proof.
  refine {| runs _ p := bool_decide (p = ls); image p _ _ k := Toy (t_fds k) (t_out k) (Some p) (t_rev k) |}. intros p a e k. cbn. by case_bool_decide.
Defined.

#[global] Instance toy_streams : Streams toy.
Proof.
  refine {| written k _ := t_out k |}. intros fd bs k. cbn. rewrite (proj2 (Z.ltb_ge _ _)) by lia. split; [lia|]. f_equal.
  destruct (Z.min_spec 4 (Z.of_nat (length bs))) as [[? ->]|[? ->]]; [done|]. by rewrite !take_ge by lia.
Defined.

Definition start (rev : Z) : st toy := S_ (Toy ∅ [] None rev) 0 0 (-1).

Lemma execvp_search_witness : exists s', execvp (Some (txt "ls")) [] [] (Some (txt "/usr/bin:/bin")) (start 0) = Some (inl tt, s') /\ t_image (kern s') = Some ls.
Proof. eexists. split; [rewrite (execvp_search 108 [115] [] [] (Some (txt "/usr/bin:/bin")) (start 0)) by (apply (bool_decide_unpack _); vm_compute; exact I); reflexivity|reflexivity]. Defined.

(** Descriptors 1 and 40 to read, 2 to write. *)
Definition rset : fd_set := Some [2; 256; 0; 0; 0; 0; 0; 0].
Definition wset : fd_set := Some [4; 0; 0; 0; 0; 0; 0; 0].

Lemma select_correct_witness : exists r' w' e', select 64 rset wset None None (start POLLIN) = Some ((3, (r', w', e')), start POLLIN) /\ member 40 r' = true /\ member 2 w' = false.
Proof.
  destruct (select_correct 64 rset wset None None (start POLLIN) (Reply 3 [1; 1; 1] []) (kern (start POLLIN))) as (r' & w' & e' & E & H);
    [lia|reflexivity|reflexivity|exact I|reflexivity|cbn; lia|reflexivity|]. exists r', w', e'. split; [exact E|]. split.
  - rewrite (proj1 (H 40 ltac:(lia))). reflexivity.
  - rewrite (proj1 (proj2 (H 2 ltac:(lia)))). reflexivity.
Defined.

(** ** Behaviours *)

(** A descriptor that is only in the set for writing comes back in the set for
    reading when the other end hung up; POSIX leaves in a set only what was in
    it. *)
Theorem select_adds_unrequested :
  exists r' w' e' s', select 8 (Some FD_ZERO) wset None None (start (Z.lor POLLOUT POLLHUP)) = Some ((1, (r', w', e')), s') /\ member 2 (Some FD_ZERO) = false /\ member 2 r' = true.
Proof. do 4 eexists. split; [vm_compute; reflexivity|done]. Qed.

(** A descriptor that is ready in two sets counts once; POSIX counts the bits. *)
Theorem select_counts_once :
  exists r' w' e' s', select 8 wset wset None None (start (Z.lor POLLIN POLLOUT)) = Some ((1, (r', w', e')), s') /\ member 2 r' = true /\ member 2 w' = true.
Proof. do 4 eexists. split; [vm_compute; reflexivity|done]. Qed.

(** Less than a millisecond becomes no wait at all, and 25 days a wait without
    end. *)
Theorem select_timeouts : select_ms (Some (0, 999)) = 0 /\ select_ms (Some (2147484, 0)) < 0.
Proof. by vm_compute. Qed.

(** The directory of the new name is not looked at: the link is made beside the
    old one. *)
Theorem link_ignores_directory {K} `{Kernel K} (old : option str) (d d' b : str) (s : st K) : 47 ∉ b -> link old (d ++ 47 :: b) s = link old (d' ++ 47 :: b) s.
Proof. intros Hb. unfold link. by rewrite !last_slash_split. Qed.
End SysSpec.
