(* ===== verification/Signal.v ===== *)
(** * Signal: signals, src/signal.c

    A signal is named by its bit in the kernel's masks or by a classic number;
    both become an index.  Sets are 32-bit masks, and the rest are requests to
    /proc/self/ctl over the kernel of [Sys]. *)

From Stdlib Require Import ZArith Lia Bool String Ascii.
From stdpp Require Import base list numbers.
From S2P Require Import Prelude Monad Dlfcn Time Sys.

Module Signal.
Import Sys.

Definition KERNEL_NSIG : Z := 13.
Definition SIGKILL : Z := 1.
Definition SIGSTOP : Z := 4.
Definition SA_SIGINFO : Z := 4.
Definition SS_DISABLE : Z := 2.
Definition CACT_SS_ONSTACK : Z := 1.
Definition CACT_SS_DISABLE : Z := 2.
Definition MINSIGSTKSZ : Z := 2048.
Definition EPERM : Z := 1.
Definition EINTR : Z := 4.
Definition ENOMEM : Z := 12.
Definition EAGAIN : Z := 11.
Definition SIG_ERR : Z := 2 ^ 32 - 1.

(** The shifts of the loop. *)
Fixpoint log2_loop (fuel : nat) (t bit : Z) : Z :=
  match fuel with
  | O => bit
  | S fuel => if t >? 1 then log2_loop fuel (Z.shiftr t 1) (bit + 1) else bit
  end.

Definition sig_number_to_sigindex (signum : Z) : Z :=
  let u := u32 signum in
  if (u >? 0) && (Z.land u (u - 1) =? 0) then
    let bit := log2_loop 32 u 0 in
    if (bit >=? 1) && (bit <? KERNEL_NSIG) then bit else -1
  else if signum =? 1 then 10
  else if signum =? 2 then 11
  else if signum =? 3 then 12
  else if signum =? 13 then 4
  else if signum =? 14 then 5
  else if signum =? 15 then 1
  else if signum =? 17 then 6
  else if signum =? 18 then 3
  else if signum =? 19 then 2
  else if (signum >=? 1) && (signum <? KERNEL_NSIG) then signum
  else -1.

Record sigaction_t := Sa { sa_handler : Z; sa_mask : Z; sa_flags : Z; sa_sigaction : Z }.
Record stack_t := Ss { ss_sp : Z; ss_flags : Z; ss_size : Z }.

Section Calls.
Context {K : Type} `{KR : Kernel K}.
Abbreviation C := (St (st K)).

(** [errno = -r] when the request failed. *)
Definition raw (r : Z) : C Z := if r <? 0 then fail (s32 (- r)) else ret r.
Definition done0 (r : Z) : C Z := let* r := raw r in ret (if r <? 0 then -1 else 0).

Definition CTL_SIGACTION : Z := PROCCTL 8.

Definition sigaction (signum : Z) (act : option sigaction_t) : C Z :=
  match act with
  | None => fail EINVAL
  | Some a =>
      let idx := sig_number_to_sigindex signum in
      if idx <? 0 then fail EINVAL
      else
        let h := if has (sa_flags a) SA_SIGINFO && negb (sa_sigaction a =? 0) then sa_sigaction a else sa_handler a in
        let* r := nio_ctl CTL_SIGACTION [AInt idx; AInt h; AInt (u32 (sa_flags a)); AInt (sa_mask a)] in
        done0 (value r)
  end.

Definition altstack_request (sp size flags : Z) : C reply := nio_ctl (PROCCTL 23) [AInt sp; AInt size; AInt flags].
(** The old stack, from the three words the kernel stored. *)
Definition old_stack (r : reply) : stack_t :=
  let sp := nth 0 (words r) 0 in
  let f := Z.land (nth 2 (words r) 0) (Z.lor CACT_SS_ONSTACK CACT_SS_DISABLE) in
  Ss sp (if sp =? 0 then Z.lor f SS_DISABLE else f) (nth 1 (words r) 0).

(** What the new stack asks for, or the error. *)
Definition new_stack (ss : stack_t) : Z + (Z * Z * Z) :=
  if negb (Z.land (ss_flags ss) (Z.lnot SS_DISABLE) =? 0) then inl EINVAL
  else if has (ss_flags ss) SS_DISABLE then inr (0, 0, CACT_SS_DISABLE)
  else if ss_sp ss =? 0 then inl EINVAL
  else if ss_size ss <? MINSIGSTKSZ then inl ENOMEM
  else inr (ss_sp ss, ss_size ss, 0).

Definition sigaltstack (ss : option stack_t) : C (Z * option stack_t) :=
  let set sp size flags :=
    (let* r := altstack_request sp size flags in
     if value r <? 0 then let* e := fail (s32 (- value r)) in ret (e, None) else ret (0, Some (old_stack r))) in
  match ss with
  | None => set 0 0 0
  | Some x =>
      let* r := altstack_request 0 0 0 in
      if value r <? 0 then let* e := fail (s32 (- value r)) in ret (e, None)
      else if has (nth 2 (words r) 0) CACT_SS_ONSTACK then let* e := fail EPERM in ret (e, None)
      else match new_stack x with
           | inl e => let* r := fail e in ret (r, None)
           | inr (sp, size, flags) => set sp size flags
           end
  end.

(** ** Sets; [None] is a null pointer *)

Definition with_index (set : option Z) (signum : Z) (f : Z -> Z -> Z * Z) : C (Z * Z) :=
  match set with
  | None => let* e := fail EINVAL in ret (e, 0)
  | Some m =>
      let idx := sig_number_to_sigindex signum in
      if idx <? 0 then let* e := fail EINVAL in ret (e, m) else ret (f m idx)
  end.

(** The code and the set. *)
Definition sigaddset (set : option Z) (signum : Z) : C (Z * Z) := with_index set signum (fun m i => (0, Z.lor m (Z.shiftl 1 i))).
Definition sigdelset (set : option Z) (signum : Z) : C (Z * Z) := with_index set signum (fun m i => (0, Z.land m (u32 (Z.lnot (Z.shiftl 1 i))))).
Definition sigismember (set : option Z) (signum : Z) : C Z :=
  let* (r, _) := with_index set signum (fun m i => (if negb (Z.land m (Z.shiftl 1 i) =? 0) then 1 else 0, m)) in ret r.
Definition sigfillset (set : bool) : C (Z * Z) :=
  if negb set then let* e := fail EINVAL in ret (e, 0)
  else ret (0, Z.land (u32 (Z.shiftl 1 KERNEL_NSIG - 1)) (u32 (Z.lnot (Z.lor SIGKILL SIGSTOP)))).

Definition sigprocmask (how : Z) (set : option Z) : C (Z * Z) :=
  let* r := nio_ctl (PROCCTL 9) [AInt (u32 how); AInt (default 0 set); AInt 0] in
  let* e := done0 (value r) in ret (e, nth 0 (words r) 0).
Definition sigpending (set : bool) : C (Z * Z) :=
  if negb set then let* e := fail EINVAL in ret (e, 0)
  else let* r := nio_ctl (PROCCTL 10) [AInt 0] in let* e := done0 (value r) in ret (e, nth 0 (words r) 0).
Definition sigsuspend (mask : option Z) : C Z :=
  let* r := nio_ctl (PROCCTL 11) [AInt (default 0 mask)] in
  if value r <? 0 then fail (s32 (- value r)) else fail EINTR.
Definition alarm (seconds : Z) : C Z :=
  let* r := nio_ctl (PROCCTL 12) [AInt seconds] in
  if value r <? 0 then let* _ := fail (s32 (- value r)) in ret 0 else ret (u32 (value r)).

(** Seconds and microseconds of a value and an interval. *)
Record itimerval := Itv { v_sec : Z; v_usec : Z; i_sec : Z; i_usec : Z }.
Definition to_ms (sec usec : Z) : Z := u32 (u32 (s32 (sec * 1000)) + u32 (usec ÷ 1000)).
Definition of_ms (ms : Z) : Z * Z := (s32 (ms / 1000), s32 (ms mod 1000 * 1000)).

Definition setitimer (which : Z) (new : option itimerval) : C (Z * ((Z * Z) * (Z * Z))) :=
  let bad := (let* e := fail EINVAL in ret (e, ((0, 0), (0, 0)))) in
  if negb (which =? 0) then bad
  else
    let go v i :=
      (let* r := nio_ctl (PROCCTL 13) [AInt v; AInt i] in
       let* e := done0 (value r) in ret (e, (of_ms (nth 0 (words r) 0), of_ms (nth 1 (words r) 0)))) in
    match new with
    | None => go 0 0
    | Some n =>
        if (v_sec n <? 0) || (v_usec n <? 0) || (i_sec n <? 0) || (i_usec n <? 0) then bad
        else go (to_ms (v_sec n) (v_usec n)) (to_ms (i_sec n) (i_usec n))
    end.

(** ** Sending *)

(** [signal] leaves the flags, the mask and the other handler of its structure
    unset: [junk] is what is there. *)
Definition signal (junk : sigaction_t) (signum handler : Z) : C Z :=
  if sig_number_to_sigindex signum <? 0 then ret SIG_ERR
  else
    let* r := sigaction signum (Some (Sa handler (sa_mask junk) (sa_flags junk) (sa_sigaction junk))) in
    if r <? 0 then ret SIG_ERR else ret handler.

Definition or_kill (idx : Z) : Z := if idx <? 0 then 0 else idx.
Definition kill (pid sig : Z) : C Z :=
  let* r := nio_ctl (PROCCTL 7) [AInt (u32 pid); AInt (or_kill (sig_number_to_sigindex sig))] in done0 (value r).
Definition killpg (pgid sig : Z) : C Z :=
  let* r := nio_ctl (PROCCTL 22) [AInt (u32 pgid); AInt (or_kill (sig_number_to_sigindex sig))] in done0 (value r).
Definition raise (sig : Z) : C Z := let* p := getpid in kill p sig.
Definition sigqueue (pid sig v : Z) : C Z :=
  let idx := sig_number_to_sigindex sig in
  if idx <? 0 then fail EINVAL
  else let* r := nio_ctl (PROCCTL 27) [AInt (u32 pid); AInt idx; AInt (u32 v)] in done0 (value r).

(** ** Waiting *)

(** The error number, then the signal, its code and its value. *)
Definition sigwait_core (set : option Z) (timeout_ms : Z) : C (Z * (Z * Z * Z)) :=
  match set with
  | None => ret (EINVAL, (0, 0, 0))
  | Some m =>
      let* r := nio_ctl (PROCCTL 26) [AInt m; AInt timeout_ms; AInt 0; AInt 0; AInt 0] in
      if value r <? 0 then ret (s32 (- value r), (0, 0, 0))
      else ret (0, (s32 (u32 (Z.shiftl 1 (nth 0 (words r) 0))), nth 1 (words r) 0, nth 2 (words r) 0))
  end.

Definition sigwait (set : option Z) (sig : bool) : C (Z * Z) :=
  if negb sig then ret (EINVAL, 0)
  else let* (r, (s, _, _)) := sigwait_core set (-1) in ret (r, if negb (r =? 0) then 0 else s).

(** The number, the code, the address and the value. *)
Record siginfo_t := Si { si_signo : Z; si_code : Z; si_addr : Z; si_value : Z }.

Definition waitinfo (set : option Z) (ms : Z) : C (Z * option siginfo_t) :=
  let* (r, (s, code, v)) := sigwait_core set ms in
  if negb (r =? 0) then let* e := fail r in ret (e, None) else ret (s, Some (Si s (s32 code) 0 (s32 v))).

Definition sigwaitinfo (set : option Z) : C (Z * option siginfo_t) := waitinfo set (-1).

Definition bad_timespec (sec nsec : Z) : bool := (sec <? 0) || (nsec <? 0) || (nsec >=? 1000000000).
(** Rounded up, and clamped. *)
Definition wait_ms (sec nsec : Z) : Z := Z.min ((sec * 1000000000 + nsec + 999999) / 1000000) 2147483647.

Definition sigtimedwait (set : option Z) (timeout : option (Z * Z)) : C (Z * option siginfo_t) :=
  match timeout with
  | None => waitinfo set (-1)
  | Some (sec, nsec) => if bad_timespec sec nsec then let* e := fail EINVAL in ret (e, None) else waitinfo set (wait_ms sec nsec)
  end.
End Calls.

(** ** Names *)

(** The bits of the kernel's signals are their own index. *)
Lemma mask_index i : 1 <= i < KERNEL_NSIG -> sig_number_to_sigindex (2 ^ i) = i.
Proof.
  intros Hi. assert (H : forallb (fun n => sig_number_to_sigindex (2 ^ Z.of_nat n) =? Z.of_nat n) (List.seq 1 12) = true) by (vm_compute; reflexivity).
  rewrite forallb_forall in H. specialize (H (Z.to_nat i)). rewrite Z2Nat.id in H by lia. apply Z.eqb_eq, H, in_seq. unfold KERNEL_NSIG in Hi. lia.
Qed.

Lemma index_range signum : -1 <= sig_number_to_sigindex signum < KERNEL_NSIG.
Proof.
  unfold sig_number_to_sigindex, KERNEL_NSIG. set (bit := log2_loop _ _ _). destruct (_ && (Z.land _ _ =? 0)).
  - destruct (_ && (bit <? 13)) eqn:E; [|lia]. rewrite andb_true_iff, Z.geb_leb, Z.leb_le, Z.ltb_lt in E. lia.
  - repeat (destruct (signum =? _); [lia|]). destruct (_ && _) eqn:E; [|lia]. rewrite andb_true_iff, Z.geb_leb, Z.leb_le, Z.ltb_lt in E. lia.
Qed.

(** The names of three signals are the numbers of others: SIGILL is taken for
    SIGPIPE, SIGABRT for SIGALRM and SIGBUS for SIGTERM. *)
Theorem signal_names_collide :
  sig_number_to_sigindex 13 = sig_number_to_sigindex (2 ^ 4) /\ sig_number_to_sigindex 14 = sig_number_to_sigindex (2 ^ 5) /\
  sig_number_to_sigindex 15 = sig_number_to_sigindex (2 ^ 1).
Proof. done. Qed.

(** The classic numbers that are powers of two mean other signals: 2, the
    interrupt, is SIGTERM, 8 is SIGCONT, and 1 is none. *)
Theorem classic_numbers_collide :
  sig_number_to_sigindex 2 = 1 /\ sig_number_to_sigindex 8 = 3 /\ sig_number_to_sigindex 1 = -1.
Proof. done. Qed.

(** ** Sets *)

Section Sets.
Context {K : Type} `{KR : Kernel K}.

(** A set is the set of its bits: adding and removing a signal changes that bit
    alone, and membership reads it, for every signal the kernel knows and every
    set of 32 bits. *)
Theorem sigset_laws n m (s : st K) : let i := sig_number_to_sigindex n in
  0 <= i -> 0 <= m < 2 ^ 32 ->
  exists a d, sigaddset (Some m) n s = Some ((0, a), s) /\ sigdelset (Some m) n s = Some ((0, d), s) /\
    sigismember (Some m) n s = Some ((if Z.testbit m i then 1 else 0), s) /\
    (forall j, 0 <= j < 32 -> Z.testbit a j = (i =? j) || Z.testbit m j) /\ (forall j, 0 <= j < 32 -> Z.testbit d j = negb (i =? j) && Z.testbit m j) /\
    0 <= a < 2 ^ 32 /\ 0 <= d < 2 ^ 32.
Proof.
  intros i Hi Hm. pose proof (index_range n) as Hr. fold i in Hr. unfold KERNEL_NSIG in Hr.
  assert (E1 : Z.shiftl 1 i = 2 ^ i) by (rewrite Z.shiftl_mul_pow2; lia).
  assert (Hb : forall j, 0 <= j < 32 -> Z.testbit (2 ^ i) j = (i =? j)).
  { intros j Hj. destruct (Z.eqb_spec i j) as [->|]; [by apply Z.pow2_bits_true; lia|by apply Z.pow2_bits_false]. }
  assert (Hp : 0 < 2 ^ i < 2 ^ 32) by (split; [apply Z.pow_pos_nonneg; lia|apply Z.pow_lt_mono_r; lia]).
  unfold sigaddset, sigdelset, sigismember, with_index, bind. fold i. rewrite (proj2 (Z.ltb_ge _ _)), E1 by lia. eexists _, _. split_and!; [done|done| | | | | | |].
  - unfold ret. do 2 f_equal. rewrite land_pow2 by lia. destruct (Z.testbit m i); [|done]. by rewrite (proj2 (Z.eqb_neq _ _)) by lia.
  - intros j Hj. rewrite Z.lor_spec, Hb by lia. apply orb_comm.
  - intros j Hj. rewrite Z.land_spec. unfold u32, wrapu. rewrite Z.mod_pow2_bits_low, Z.lnot_spec, Hb by lia. apply andb_comm.
  - apply Z.lor_nonneg. lia.
  - destruct (Z.eq_dec (Z.lor m (2 ^ i)) 0); [lia|]. apply Z.log2_lt_pow2; [assert (0 <= Z.lor m (2 ^ i)) by (apply Z.lor_nonneg; lia); lia|]. rewrite Z.log2_lor by lia.
    apply Z.max_lub_lt; [|rewrite Z.log2_pow2; lia]. destruct (Z.eq_dec m 0) as [->|]; [done|]. apply Z.log2_lt_pow2; lia.
  - apply Z.land_nonneg. lia.
  - rewrite <- (Z.mod_small m (2 ^ 32)), <- Z.land_ones, <- Z.land_assoc, (Z.land_comm (Z.ones 32)), Z.land_assoc, Z.land_ones by lia. apply Z.mod_pos_bound. lia.
Qed.

(** ** Waiting *)

(** The wait is never shorter than asked for and less than a millisecond longer,
    up to the 24 days of an int. *)
Lemma wait_ms_bounds sec nsec : 0 <= sec -> 0 <= nsec < 1000000000 -> sec * 1000 + nsec / 1000000 < 2147483647 ->
  sec * 1000000000 + nsec <= wait_ms sec nsec * 1000000 < sec * 1000000000 + nsec + 1000000.
Proof.
  intros Hs Hn Hm. unfold wait_ms. set (x := sec * 1000000000 + nsec). pose proof (Z.div_mod (x + 999999) 1000000 ltac:(lia)). pose proof (Z.mod_pos_bound (x + 999999) 1000000 ltac:(lia)).
  pose proof (Z.div_mod nsec 1000000 ltac:(lia)). pose proof (Z.mod_pos_bound nsec 1000000 ltac:(lia)). rewrite Z.min_l by (unfold x in *; lia). lia.
Qed.

(** ** Sending *)

(** Signal 0, which probes whether a process exists, and every number that is
    no signal are sent as SIGKILL. *)
Theorem kill_zero_kills pid (s : st K) : kill pid 0 s = kill pid 20 s /\ kill pid 0 s = kill pid SIGKILL s.
Proof. done. Qed.
End Sets.

(** A timer of less than a millisecond is one of nothing: it is switched off. *)
Theorem short_timer_disarms : to_ms 0 999 = 0.
Proof. done. Qed.
End Signal.
