(* ===== verification/Mqueue.v ===== *)
(** * Mqueue: message queues and shared memory by name, src/mqueue.c, src/shm_open.c

    Both are names under a directory of the kernel; a queue is used with ioctls
    on its descriptor.  Over the kernel of [Sys] and the clock of [Time]. *)

From Stdlib Require Import ZArith Lia Bool String Ascii.
From stdpp Require Import base list numbers.
From S2P Require Import Prelude Monad Dlfcn Time Sys.

Module Mqueue.
Import Sys.

Definition MQ_NAME_MAX : Z := 127.
Definition MQ_MAXMSG_LIMIT : Z := 256.
Definition MQ_MSGSIZE_LIMIT : Z := 8192.
Definition MQ_DEFAULT_MAXMSG : Z := 10.
Definition MQ_DEFAULT_MSGSIZE : Z := 8192.
Definition SHM_NAME_MAX : Z := 127.
Definition MQCTL (n : Z) : Z := 16384 + n.
Definition EEXIST : Z := 17.
Definition EACCES : Z := 13.
Definition EAGAIN : Z := 11.
Definition ETIMEDOUT : Z := 110.
Definition SIGEV_SIGNAL : Z := 0.
Definition SIGEV_NONE : Z := 1.

(** A slash and one component; [None] is a null pointer. *)
Definition mq_name_ok (name : option str) : bool :=
  match name with
  | Some (47 :: c :: n) => negb (existsb (Z.eqb 47) (c :: n))
  | _ => false
  end.
Definition mq_name_len (name : str) : Z := Z.of_nat (length name) - 1.
Definition MQ_DIR : str := txt "/dev/mqueue".
Definition mq_path (name : str) : str := MQ_DIR ++ [47] ++ drop 1 name.

Definition shm_name_ok (name : option str) : bool := mq_name_ok name.
Definition shm_name_len (name : str) : Z := mq_name_len name.
Definition SHM_DIR : str := txt "/dev/shm".
Definition shm_path (name : str) : str := SHM_DIR ++ [47] ++ drop 1 name.

Record mq_attr := Attr { mq_flags : Z; mq_maxmsg : Z; mq_msgsize : Z; mq_curmsgs : Z }.

Section Calls.
Context {K : Type} `{KR : Kernel K} `{CK : Time.Clock}.
Abbreviation C := (St (st K)).

(** The relative time in milliseconds and whether the deadline has passed. *)
Definition mq_timeout_ms (abs : option (Z * Z)) : Z * bool :=
  match abs with
  | None => (-1, false)
  | Some (sec, nsec) =>
      if (sec <? 0) || (nsec <? 0) || (nsec >=? 1000000000) then (0, true)
      else
        match Time.clock_gettime Time.CLOCK_REALTIME with
        | inr _ => (-1, false)
        | inl now =>
            let ns := s64 ((sec - Time.tv_sec now) * 1000000000 + (nsec - Time.tv_nsec now)) in
            if ns <=? 0 then (0, true)
            else if ns >? 2147483647000000 then (2147483647, false)
            else (s32 ((ns + 999999) ÷ 1000000), false)
        end
  end.

(** The limits of a new queue. *)
Definition bad_limits (maxmsg msgsize : Z) : bool :=
  (maxmsg <=? 0) || (maxmsg >? MQ_MAXMSG_LIMIT) || (msgsize <=? 0) || (msgsize >? MQ_MSGSIZE_LIMIT).

Definition mq_init (fd : Z) (attr : option (Z * Z)) : C Z :=
  let '(maxmsg, msgsize) := match attr with Some (a, b) => (s32 a, s32 b) | None => (MQ_DEFAULT_MAXMSG, MQ_DEFAULT_MSGSIZE) end in
  if bad_limits maxmsg msgsize then let* _ := close fd in fail EINVAL
  else
    let* r := ioctl fd (MQCTL 1) [AInt 0; AInt maxmsg; AInt msgsize; AInt 0] in
    if value r <? 0 then let* _ := close fd in fail (s32 (- value r)) else ret 0.

(** [attr] is looked at with [O_CREAT] only. *)
Definition mq_open (name : option str) (oflag : Z) (attr : option (Z * Z)) : C Z :=
  if negb (mq_name_ok name) then fail EINVAL
  else
    let n := default [] name in
    if mq_name_len n >? MQ_NAME_MAX then fail ENAMETOOLONG
    else if Z.land oflag O_ACCMODE =? O_ACCMODE then fail EINVAL
    else
      let path := mq_path n in
      let open_flags := Z.lor (Z.land oflag O_ACCMODE) (Z.land oflag O_NONBLOCK) in
      let finish fd := (let* _ := fcntl fd F_SETFD FD_CLOEXEC in ret fd) in
      let existing := (let* fd := open path open_flags in if fd <? 0 then fail ENOENT else finish fd) in
      if has oflag O_CREAT then
        let* fd := open path (Z.lor (Z.lor open_flags O_CREAT) O_EXCL) in
        if fd >=? 0 then let* e := mq_init fd attr in if e <? 0 then ret (-1) else finish fd
        else if has oflag O_EXCL then fail EEXIST
        else existing
      else existing.

Definition mq_close (mqdes : Z) : C Z := close mqdes.

Definition mq_unlink (name : option str) : C Z :=
  if negb (mq_name_ok name) then fail EINVAL
  else
    let n := default [] name in
    if mq_name_len n >? MQ_NAME_MAX then fail ENAMETOOLONG else unlink (Some (mq_path n)).

Definition timed_out (expired : bool) (r : Z) : C Z :=
  let e := s32 (- r) in fail (if expired && (e =? EAGAIN) then ETIMEDOUT else e).

Definition mq_send_common (mqdes : Z) (msg : str) (prio : Z) (abs : option (Z * Z)) : C Z :=
  let '(ms, expired) := mq_timeout_ms abs in
  let* r := ioctl mqdes (MQCTL 2) [AStr msg; AInt (Z.of_nat (length msg)); AInt (u32 prio); AInt ms] in
  if value r <? 0 then timed_out expired (value r) else ret 0.

(** The length, the message and the priority. *)
Definition mq_receive_common (mqdes len : Z) (abs : option (Z * Z)) : C (Z * str * Z) :=
  let '(ms, expired) := mq_timeout_ms abs in
  let* r := ioctl mqdes (MQCTL 3) [AInt (u32 len); AInt 0; AInt ms] in
  if value r <? 0 then let* e := timed_out expired (value r) in ret (e, [], 0)
  else ret (s32 (nth 0 (words r) 0), bytes r, nth 1 (words r) 0).

Definition mq_send (mqdes : Z) (msg : str) (prio : Z) : C Z := mq_send_common mqdes msg prio None.
Definition mq_receive (mqdes len : Z) : C (Z * str * Z) := mq_receive_common mqdes len None.
Definition mq_timedsend (mqdes : Z) (msg : str) (prio : Z) (abs : option (Z * Z)) : C Z := mq_send_common mqdes msg prio abs.
Definition mq_timedreceive (mqdes len : Z) (abs : option (Z * Z)) : C (Z * str * Z) := mq_receive_common mqdes len abs.

Definition mq_attr_from_wire (w : list Z) : mq_attr := Attr (s32 (nth 0 w 0)) (s32 (nth 1 w 0)) (s32 (nth 2 w 0)) (s32 (nth 3 w 0)).

Definition mq_getattr (mqdes : Z) (attr : bool) : C (Z * option mq_attr) :=
  if negb attr then let* e := fail EINVAL in ret (e, None)
  else
    let* r := ioctl mqdes (MQCTL 4) [] in
    if value r <? 0 then let* e := fail (s32 (- value r)) in ret (e, None) else ret (0, Some (mq_attr_from_wire (words r))).

Definition mq_setattr (mqdes : Z) (newattr : option Z) : C (Z * option mq_attr) :=
  match newattr with
  | None => let* e := fail EINVAL in ret (e, None)
  | Some f =>
      let* r := ioctl mqdes (MQCTL 5) [AInt (s32 f); AInt 0; AInt 0; AInt 0] in
      if value r <? 0 then let* e := fail (s32 (- value r)) in ret (e, None) else ret (0, Some (mq_attr_from_wire (words r)))
  end.

(** The kind of notification and the signal. *)
Definition mq_notify (mqdes : Z) (sevp : option (Z * Z)) : C Z :=
  let go signo := (let* r := ioctl mqdes (MQCTL 6) [AInt signo] in if value r <? 0 then fail (s32 (- value r)) else ret 0) in
  match sevp with
  | None => go 0
  | Some (how, signo) => if how =? SIGEV_NONE then go 0 else if how =? SIGEV_SIGNAL then go (u32 signo) else fail EINVAL
  end.

(** ** Shared memory *)

Definition shm_open (name : option str) (oflag mode : Z) : C Z :=
  if negb (shm_name_ok name) then fail EINVAL
  else
    let n := default [] name in
    if shm_name_len n >? SHM_NAME_MAX then fail ENAMETOOLONG
    else
      let acc := Z.land oflag O_ACCMODE in
      if negb (acc =? O_RDONLY) && negb (acc =? O_RDWR) then fail EINVAL
      else
        let* fd := open (shm_path n) oflag in
        if fd <? 0 then fail (if has oflag O_CREAT && has oflag O_EXCL then EEXIST else if negb (has oflag O_CREAT) then ENOENT else EACCES)
        else let* _ := fcntl fd F_SETFD FD_CLOEXEC in ret fd.

Definition shm_unlink (name : option str) : C Z :=
  if negb (shm_name_ok name) then fail EINVAL
  else
    let n := default [] name in
    if shm_name_len n >? SHM_NAME_MAX then fail ENAMETOOLONG else unlink (Some (shm_path n)).

(** ** Deadlines *)

(** The kernel waits at least until the deadline and less than a millisecond
    longer. *)
Lemma timeout_bounds now sec nsec : Time.clock_gettime Time.CLOCK_REALTIME = inl now ->
  0 <= Time.tv_sec now < 2 ^ 31 -> 0 <= Time.tv_nsec now < 1000000000 -> 0 <= sec < 2 ^ 31 -> 0 <= nsec < 1000000000 ->
  let left := (sec * 1000000000 + nsec) - (Time.tv_sec now * 1000000000 + Time.tv_nsec now) in
  match mq_timeout_ms (Some (sec, nsec)) with
  | (ms, true) => ms = 0 /\ left <= 0
  | (ms, false) => 0 < left /\ (left <= ms * 1000000 < left + 1000000 \/ ms = 2147483647 /\ 2147483647000000 < left)
  end.
Proof.
  intros E Hs Hn Hs' Hn' left. unfold mq_timeout_ms. rewrite (proj2 (Z.ltb_ge sec 0)), (proj2 (Z.ltb_ge nsec 0)) by lia. rewrite Z.geb_leb, (proj2 (Z.leb_gt 1000000000 nsec)) by lia. cbn [orb]. rewrite E.
  replace ((sec - Time.tv_sec now) * 1000000000 + (nsec - Time.tv_nsec now)) with left by (unfold left; lia). rewrite s64_small by (unfold left; lia).
  destruct (Z.leb_spec left 0); [lia|]. rewrite Z.gtb_ltb. destruct (Z.ltb_spec 2147483647000000 left); [split; [lia|]; right; lia|]. split; [lia|]. left.
  rewrite Z.quot_div_nonneg by lia. pose proof (Z.div_mod (left + 999999) 1000000 ltac:(lia)). pose proof (Z.mod_pos_bound (left + 999999) 1000000 ltac:(lia)).
  rewrite s32_small by lia. lia.
Qed.
End Calls.

(** ** Creating *)

Definition fd_ok (fd : Z) : Prop := 0 <= fd < 2 ^ 31.

(** A kernel with named queues: what an open with and without creation does, and
    the limits that the first request on a new one sets. *)
Class Queues (K : Type) `{KR : Kernel K} := {
  queue : K -> str -> option (option (Z * Z));
  create_law p f k : has f O_CREAT = true -> has f O_EXCL = true ->
    match queue k p with
    | Some _ => value (fst (trap (Open p f) k)) = -1 /\ snd (trap (Open p f) k) = k
    | None => fd_ok (value (fst (trap (Open p f) k))) /\ queue (snd (trap (Open p f) k)) p = Some None
    end;
  open_law p f k : has f O_CREAT = false ->
    match queue k p with
    | Some q => fd_ok (value (fst (trap (Open p f) k))) /\ queue (snd (trap (Open p f) k)) p = Some q
    | None => value (fst (trap (Open p f) k)) = -1 /\ snd (trap (Open p f) k) = k
    end;
  init_law p f k : queue k p = None -> has f O_CREAT = true -> has f O_EXCL = true -> forall a b,
    let fd := value (fst (trap (Open p f) k)) in
    let k1 := snd (trap (Open p f) k) in
    value (fst (trap (Ioctl fd (MQCTL 1) [AInt 0; AInt a; AInt b; AInt 0]) k1)) = 0 /\
    queue (snd (trap (Ioctl fd (MQCTL 1) [AInt 0; AInt a; AInt b; AInt 0]) k1)) p = Some (Some (a, b));
  fcntl_law fd a k p : queue (snd (trap (Ioctl fd (FDCTL 3) a) k)) p = queue k p;
  closing_law fd k p : queue (snd (trap (Close fd) k)) p = queue k p
}.

Section Create.
Context {K : Type} `{KR : Kernel K} `{QU : !Queues K}.
Implicit Types s : st K.

Definition limits (attr : option (Z * Z)) : Z * Z := match attr with Some (a, b) => (s32 a, s32 b) | None => (MQ_DEFAULT_MAXMSG, MQ_DEFAULT_MSGSIZE) end.
Definition open_bits (oflag : Z) : Z := Z.lor (Z.land oflag O_ACCMODE) (Z.land oflag O_NONBLOCK).

Lemma open_bits_plain oflag : has (open_bits oflag) O_CREAT = false.
Proof. unfold has, open_bits. rewrite Z.land_lor_distr_l, <- !Z.land_assoc. cbn. by rewrite !Z.land_0_r. Qed.

Lemma has_lor_r a b : b <> 0 -> has (Z.lor a b) b = true.
Proof. intros Hb. unfold has. rewrite Z.land_lor_distr_l, Z.land_diag. destruct (Z.eqb_spec (Z.lor (Z.land a b) b) 0) as [E|]; [|done]. by apply Z.lor_eq_0_iff in E as []. Qed.

Lemma has_lor_l a b c : has a c = true -> has (Z.lor a b) c = true.
Proof.
  unfold has. rewrite Z.land_lor_distr_l, !negb_true_iff, !Z.eqb_neq. intros H E. by apply Z.lor_eq_0_iff in E as [].
Qed.

Lemma create_bits oflag : has (Z.lor (Z.lor (open_bits oflag) O_CREAT) O_EXCL) O_CREAT = true /\ has (Z.lor (Z.lor (open_bits oflag) O_CREAT) O_EXCL) O_EXCL = true.
Proof. split; [by apply has_lor_l, has_lor_r|by apply has_lor_r]. Qed.

Lemma open_run p f s : open p f s = Some (value (fst (trap (Open p f) (kern s))), S_ (snd (trap (Open p f) (kern s))) (errno s) (pid_cache s) (ctl_fd s)).
Proof. unfold open, nio_open, bind, sys. by destruct (trap (Open p f) (kern s)). Qed.

Lemma setfd_keeps fd s p : exists e s', fcntl fd F_SETFD FD_CLOEXEC s = Some (e, s') /\ queue (kern s') p = queue (kern s) p.
Proof.
  unfold fcntl. cbn [Z.eqb Z.leb]. change (F_SETFD =? F_DUPFD) with false. change (F_SETFD =? F_DUPFD_CLOEXEC) with false. change (F_SETFD =? F_GETFD) with false.
  change (F_SETFD =? F_GETFL) with false. change (F_SETFD =? F_SETFD) with true. cbn [orb]. unfold set_fd, on, nio_ioctl, bind, sys.
  pose proof (fcntl_law fd [AInt F_SETFD; AInt (u32 FD_CLOEXEC)] (kern s) p) as H. destruct (trap _ _) as [r k]. cbn in *. unfold nio_map. destruct (Time.nio_map (value r)); eexists _, _; done.
Qed.

Lemma existing_run p f s q : has f O_CREAT = false -> queue (kern s) p = Some q ->
  exists r s', (let* fd := open p f in if fd <? 0 then fail ENOENT else let* _ := fcntl fd F_SETFD FD_CLOEXEC in ret fd) s = Some (r, s') /\ fd_ok r /\ queue (kern s') p = Some q.
Proof.
  intros Hf Hq. rewrite (bind_run _ _ _ _ _ (open_run p f s)). pose proof (open_law p f (kern s) Hf) as H. rewrite Hq in H. destruct H as [[H0 H1] Hk].
  rewrite (proj2 (Z.ltb_ge _ _)) by lia. set (s1 := S_ _ _ _ _). destruct (setfd_keeps (value (fst (trap (Open p f) (kern s)))) s1 p) as (e & s2 & E & H2).
  rewrite (bind_run _ _ _ _ _ E). eexists _, _. split_and!; [done|done..|]. by rewrite H2.
Qed.

Lemma missing_run p f s : has f O_CREAT = false -> queue (kern s) p = None ->
  exists s', (let* fd := open p f in if fd <? 0 then fail ENOENT else let* _ := fcntl fd F_SETFD FD_CLOEXEC in ret fd) s = Some (-1, s') /\ errno s' = ENOENT /\ kern s' = kern s.
Proof.
  intros Hf Hq. rewrite (bind_run _ _ _ _ _ (open_run p f s)). pose proof (open_law p f (kern s) Hf) as H. rewrite Hq in H. destruct H as [-> ->]. eexists. done.
Qed.

Lemma created_run p f attr s : has f O_CREAT = true -> has f O_EXCL = true -> queue (kern s) p = None -> uncurry bad_limits (limits attr) = false ->
  exists r s', (let* fd := open p f in if fd >=? 0 then let* e := mq_init fd attr in if e <? 0 then ret (-1) else let* _ := fcntl fd F_SETFD FD_CLOEXEC in ret fd else ret (-1)) s = Some (r, s') /\
    fd_ok r /\ queue (kern s') p = Some (Some (limits attr)).
Proof.
  intros Hc Hx Hq Hl. rewrite (bind_run _ _ _ _ _ (open_run p f s)). pose proof (create_law p f (kern s) Hc Hx) as H. rewrite Hq in H. destruct H as [[H0 H1] Hk].
  rewrite Z.geb_leb, (proj2 (Z.leb_le _ _)) by lia. unfold mq_init. fold (limits attr). destruct (limits attr) as [a b] eqn:El. cbn in Hl. rewrite Hl.
  pose proof (init_law p f (kern s) Hq Hc Hx a b) as [Hv Hk2]. set (fd := value _) in *. set (k1 := snd _) in *. set (s1 := S_ k1 _ _ _).
  set (s2 := S_ (snd (trap (Ioctl fd (MQCTL 1) [AInt 0; AInt a; AInt b; AInt 0]) k1)) (errno s) (pid_cache s) (ctl_fd s)).
  assert (E : (let* r := ioctl fd (MQCTL 1) [AInt 0; AInt a; AInt b; AInt 0] in if value r <? 0 then let* _ := close fd in fail (s32 (- value r)) else ret 0) s1 = Some (0, s2)).
  { unfold ioctl, nio_ioctl, bind, sys, s2. cbn [kern s1]. destruct (trap _ k1) as [r k2]. cbn in *. by rewrite Hv. }
  rewrite (bind_run _ _ _ _ _ E). change (0 <? 0) with false. cbv iota. destruct (setfd_keeps fd s2 p) as (e & s3 & E3 & H3). rewrite (bind_run _ _ _ _ _ E3).
  eexists _, _. split_and!; [done|done..|]. rewrite H3. exact Hk2.
Qed.

(** [mq_open] with a good name opens the queue that is there or, when asked to,
    creates one; the limits are set when and only when this call created it;
    with O_EXCL an existing queue is EEXIST, and without O_CREAT a missing one
    is ENOENT, and both leave the kernel as it was. *)
Theorem mq_open_creates_once name oflag attr s :
  mq_name_ok (Some name) = true -> mq_name_len name <= MQ_NAME_MAX -> Z.land oflag O_ACCMODE <> O_ACCMODE -> uncurry bad_limits (limits attr) = false ->
  exists r s', mq_open (Some name) oflag attr s = Some (r, s') /\
    match queue (kern s) (mq_path name) with
    | Some q =>
        if has oflag O_CREAT && has oflag O_EXCL then r = -1 /\ errno s' = EEXIST /\ kern s' = kern s
        else fd_ok r /\ queue (kern s') (mq_path name) = Some q
    | None =>
        if has oflag O_CREAT then fd_ok r /\ queue (kern s') (mq_path name) = Some (Some (limits attr))
        else r = -1 /\ errno s' = ENOENT /\ kern s' = kern s
    end.
Proof.
  intros Hn Hl Ha Hlim. unfold mq_open. rewrite Hn. cbn [negb default id]. rewrite Z.gtb_ltb, (proj2 (Z.ltb_ge _ _)), (proj2 (Z.eqb_neq _ _) Ha) by done.
  cbv zeta. fold (open_bits oflag). set (p := mq_path name). pose proof (open_bits_plain oflag) as Hp. destruct (create_bits oflag) as [Hc Hx].
  set (g := Z.lor (Z.lor _ _) _) in *. destruct (has oflag O_CREAT) eqn:Ec; cbn [andb].
  - destruct (queue (kern s) p) as [q|] eqn:Eq.
    + rewrite (bind_run _ _ _ _ _ (open_run p g s)). pose proof (create_law p g (kern s) Hc Hx) as H. rewrite Eq in H. destruct H as [-> ->].
      change (-1 >=? 0) with false. cbv iota. destruct (has oflag O_EXCL); [by eexists _, _|]. replace (S_ (kern s) (errno s) (pid_cache s) (ctl_fd s)) with s by by destruct s.
      by apply existing_run.
    + destruct (created_run p g attr s Hc Hx Eq Hlim) as (r & s' & E & Hr & Hq). exists r, s'. split; [|done]. rewrite (bind_run _ _ _ _ _ (open_run p g s)) in E. rewrite (bind_run _ _ _ _ _ (open_run p g s)).
      pose proof (create_law p g (kern s) Hc Hx) as H. rewrite Eq in H. destruct H as [[H0 H1] _]. rewrite Z.geb_leb, (proj2 (Z.leb_le _ _)) in E by lia. rewrite Z.geb_leb, (proj2 (Z.leb_le _ _)) by lia. exact E.
  - destruct (queue (kern s) p) as [q|] eqn:Eq; [by apply existing_run|]. destruct (missing_run p (open_bits oflag) s Hp Eq) as (s' & E & H). by exists (-1), s'.
Qed.

(** When the limits are refused the new queue is not removed: the call fails and
    the queue is there, with no limits of its own. *)
Theorem refused_limits_leave_queue name oflag attr s :
  mq_name_ok (Some name) = true -> mq_name_len name <= MQ_NAME_MAX -> Z.land oflag O_ACCMODE <> O_ACCMODE -> has oflag O_CREAT = true ->
  queue (kern s) (mq_path name) = None -> uncurry bad_limits (limits attr) = true ->
  exists s', mq_open (Some name) oflag attr s = Some (-1, s') /\ errno s' = EINVAL /\ queue (kern s') (mq_path name) = Some None.
Proof.
  intros Hn Hl Ha Ec Eq Hlim. unfold mq_open. rewrite Hn. cbn [negb default id]. rewrite Z.gtb_ltb, (proj2 (Z.ltb_ge _ _)), (proj2 (Z.eqb_neq _ _) Ha) by done.
  cbv zeta. fold (open_bits oflag). set (p := mq_path name) in *. destruct (create_bits oflag) as [Hc Hx]. set (g := Z.lor (Z.lor _ _) _) in *. rewrite Ec.
  rewrite (bind_run _ _ _ _ _ (open_run p g s)). pose proof (create_law p g (kern s) Hc Hx) as H. rewrite Eq in H. destruct H as [[H0 H1] Hk].
  rewrite Z.geb_leb, (proj2 (Z.leb_le _ _)) by lia. unfold mq_init. fold (limits attr). destruct (limits attr) as [a b]. cbn in Hlim. rewrite Hlim.
  unfold close, nio_close, bind, sys. cbn [kern]. pose proof (closing_law (value (fst (trap (Open p g) (kern s)))) (snd (trap (Open p g) (kern s))) p) as Hcl.
  destruct (trap (Close _) _) as [r k2]. cbn in *. eexists. split_and!; [done|done|]. cbn. congruence.
Qed.
End Create.

(** ** A kernel with queues *)

(** The queues by path, and the path the one descriptor stands for. *)
Record mqk := Mqk { qs : str -> option (option (Z * Z)); last_path : str }.
Definition put (p : str) (v : option (Z * Z)) (q : str -> option (option (Z * Z))) : str -> option (option (Z * Z)) :=
  fun x => if bool_decide (x = p) then Some v else q x.

Lemma put_same p v q : put p v q p = Some v.
Proof. unfold put. by rewrite bool_decide_eq_true_2. Qed.

#[global] Instance mq_kernel : Kernel mqk := {|
  trap c k :=
    match c with
    | Open p f =>
        if has f O_CREAT then
          match qs k p with Some _ => (Reply (-1) [] [], k) | None => (Reply 3 [] [], Mqk (put p None (qs k)) p) end
        else match qs k p with Some _ => (Reply 3 [] [], Mqk (qs k) p) | None => (Reply (-1) [] [], k) end
    | Ioctl _ c [AInt _; AInt a; AInt b; AInt _] => if c =? MQCTL 1 then (Reply 0 [] [], Mqk (put (last_path k) (Some (a, b)) (qs k)) (last_path k)) else (Reply 0 [] [], k)
    | _ => (Reply 0 [] [], k)
    end
|}.

#[global] Instance mq_queues : Queues mqk.
Proof.
  refine {| queue := qs |}.
  - intros p f k Hc Hx. cbn. rewrite Hc. destruct (qs k p); [done|]. split; [by unfold fd_ok|]. apply put_same.
  - intros p f k Hc. cbn. rewrite Hc. destruct (qs k p) eqn:E; [|done]. cbn. by unfold fd_ok.
  - intros p f k Hq Hc Hx a b. cbn. rewrite Hc, Hq. split; [done|]. apply put_same.
  - intros fd a k p. cbn. by repeat case_match.
  - done.
Defined.

Definition no_queues : st mqk := S_ (Mqk (fun _ => None) []) 0 0 (-1).

Lemma mq_open_creates_once_witness : exists r s', mq_open (Some (txt "/q")) (Z.lor O_RDWR O_CREAT) (Some (5, 64)) no_queues = Some (r, s') /\
  fd_ok r /\ queue (kern s') (mq_path (txt "/q")) = Some (Some (5, 64)).
Proof. exact (mq_open_creates_once (txt "/q") (Z.lor O_RDWR O_CREAT) (Some (5, 64)) no_queues eq_refl ltac:(vm_compute; discriminate) ltac:(vm_compute; discriminate) eq_refl). Defined.
End Mqueue.
