(* ===== verification/Flock.v ===== *)
(** * Flock: advisory locks of one process, src/flock.c

    A table of 64 slots keyed by inode; [fstat] and the sleeps between two tries
    are those of [Sys]. *)

From Stdlib Require Import ZArith Lia Bool.
From stdpp Require Import base list numbers.
From S2P Require Import Prelude Monad Sys.

Module Flock.
Import Sys.

Definition FLOCK_SLOTS : nat := 64.
Definition FLOCK_RETRY_US : Z := 1000.
Definition FLOCK_RETRY_MAX : nat := 5000.
Definition LOCK_SH : Z := 1.
Definition LOCK_EX : Z := 2.
Definition LOCK_NB : Z := 4.
Definition LOCK_UN : Z := 8.
Definition ENOLCK : Z := 37.
Definition EWOULDBLOCK : Z := 11.

Inductive lock_mode := FLOCK_FREE | FLOCK_SHARED | FLOCK_EXCLUSIVE.
#[global] Instance lock_mode_eq : EqDecision lock_mode.
Proof. solve_decision. Defined.

Record flock_slot := Slot { ino : Z; mode : lock_mode; holders : Z }.
Definition free (s : flock_slot) : bool := bool_decide (mode s = FLOCK_FREE).

(** The index of the first slot that a test accepts. *)
Fixpoint first (f : flock_slot -> bool) (l : list flock_slot) : option nat :=
  match l with
  | [] => None
  | s :: l => if f s then Some 0%nat else S <$> first f l
  end.

Definition slot_find (i : Z) (l : list flock_slot) : option nat := first (fun s => negb (free s) && (ino s =? i)) l.

(** The index and the table, where a free slot got the inode. *)
Definition slot_take (i : Z) (l : list flock_slot) : option (nat * list flock_slot) :=
  match slot_find i l with
  | Some k => Some (k, l)
  | None => k ← first free l; Some (k, <[k := Slot i FLOCK_FREE 0]> l)
  end.

Definition at_slot (k : nat) (f : flock_slot -> flock_slot) (l : list flock_slot) : list flock_slot := alter f k l.

(** The code, the error number it sets, the table. *)
Definition grant (i : Z) (shared : bool) (l : list flock_slot) : Z * option Z * list flock_slot :=
  let s := slot_find i l in
  let on k := l !! k in
  let refused := match s ≫= on with
                 | None => false
                 | Some x => if shared then bool_decide (mode x = FLOCK_EXCLUSIVE) else holders x >? 0
                 end in
  if refused then (-1, None, l)
  else
    match (match s with Some k => Some (k, l) | None => slot_take i l end) with
    | None => (-1, Some ENOLCK, l)
    | Some (k, l) =>
        (0, None, at_slot k (fun x => if shared then Slot (ino x) FLOCK_SHARED (u32 (holders x + 1)) else Slot (ino x) FLOCK_EXCLUSIVE 1) l)
    end.

Definition release (i : Z) (l : list flock_slot) : list flock_slot :=
  match slot_find i l with
  | None => l
  | Some k => at_slot k (fun x =>
      let h := if holders x >? 0 then holders x - 1 else holders x in
      Slot (ino x) (if h =? 0 then FLOCK_FREE else mode x) h) l
  end.

Section Calls.
Context {K : Type} `{KR : Kernel K}.

(** The table beside the rest. *)
Record fst_ := Fst { base : st K; slots : list flock_slot }.
Abbreviation C := (St fst_).

Definition lifted {A} (c : St (st K) A) : C A := fun s => match c (base s) with Some (a, b) => Some (a, Fst b (slots s)) | None => None end.
Definition put (l : list flock_slot) : C unit := modify (fun s => Fst (base s) l).

Definition grant_ (i : Z) (shared : bool) : C Z :=
  let* l := gets slots in
  let '(r, e, l) := grant i shared l in
  let* _ := put l in
  let* _ := (match e with Some e => lifted (set_errno e) | None => ret tt end) in ret r.

Fixpoint tries (n : nat) (i : Z) (shared nb : bool) : C Z :=
  match n with
  | O => lifted (fail EWOULDBLOCK)
  | S n =>
      let* r := grant_ i shared in
      if r =? 0 then ret 0
      else let* _ := (if nb then ret 0 else lifted (usleep FLOCK_RETRY_US)) in tries n i shared nb
  end.

Definition flock (fd operation : Z) : C Z :=
  let* r := lifted (fstat fd) in
  if negb (value r =? 0) then ret (-1)
  else
    let op := Z.land operation (Z.lnot LOCK_NB) in
    let nb := has operation LOCK_NB in
    let i := nth 0 (words r) 0 in
    if op =? LOCK_UN then let* l := gets slots in let* _ := put (release i l) in ret 0
    else if op =? LOCK_SH then tries (if nb then 1 else FLOCK_RETRY_MAX) i true nb
    else if op =? LOCK_EX then tries (if nb then 1 else FLOCK_RETRY_MAX) i false nb
    else lifted (fail EINVAL).
End Calls.

(** ** The table *)

Lemma first_some f l k : first f l = Some k <-> (exists s, l !! k = Some s /\ f s = true) /\ forall j s, (j < k)%nat -> l !! j = Some s -> f s = false.
Proof.
  revert k. induction l as [|x l IH]; intros k; cbn.
  { split; [done|]. intros [(s & E & _) _]. by rewrite lookup_nil in E. }
  destruct (f x) eqn:Ef.
  - split.
    + intros [= <-]. split; [by exists x|]. lia.
    + intros [_ H]. destruct k as [|k]; [done|]. specialize (H 0%nat x ltac:(lia) eq_refl). congruence.
  - destruct k as [|k].
    + split; [by destruct (first f l)|]. intros [(s & [= ->] & E) _]. congruence.
    + transitivity (first f l = Some k); [destruct (first f l); cbn; naive_solver|]. rewrite IH. split.
      * intros [H1 H2]. split; [done|]. intros [|j] s Hj E; [by injection E as ->|]. apply (H2 j); [lia|done].
      * intros [H1 H2]. split; [done|]. intros j s Hj E. apply (H2 (S j)); [lia|done].
Qed.

Lemma first_none f l : first f l = None <-> forall k s, l !! k = Some s -> f s = false.
Proof.
  induction l as [|x l IH]; cbn; [done|]. destruct (f x) eqn:Ef.
  - split; [done|]. intros H. specialize (H 0%nat x eq_refl). congruence.
  - transitivity (first f l = None); [by destruct (first f l)|]. rewrite IH. split.
    + intros H [|k] s E; [by injection E as <-|by apply (H k)].
    + intros H k s E. by apply (H (S k)).
Qed.

(** An inode has at most one slot in use; an exclusive lock has one holder and a
    shared one at least one. *)
Record table_ok (l : list flock_slot) : Prop := {
  tk_len : length l = FLOCK_SLOTS;
  tk_one : forall j k a b, l !! j = Some a -> l !! k = Some b -> free a = false -> free b = false -> ino a = ino b -> j = k;
  tk_mode : forall k s, l !! k = Some s -> match mode s with FLOCK_FREE => True | FLOCK_SHARED => 0 < holders s < 2 ^ 32 | FLOCK_EXCLUSIVE => holders s = 1 end
}.

(** What the table says of a file. *)
Inductive held := Unlocked | Shared (n : Z) | Exclusive.
Definition lock_of (i : Z) (l : list flock_slot) : held :=
  match slot_find i l ≫= (fun k => l !! k) with
  | None => Unlocked
  | Some s => match mode s with FLOCK_FREE => Unlocked | FLOCK_SHARED => Shared (holders s) | FLOCK_EXCLUSIVE => Exclusive end
  end.

Lemma slot_find_iff i l k : table_ok l -> slot_find i l = Some k <-> exists s, l !! k = Some s /\ free s = false /\ ino s = i.
Proof.
  intros Hl. unfold slot_find. rewrite first_some. setoid_rewrite andb_true_iff. setoid_rewrite negb_true_iff. setoid_rewrite Z.eqb_eq. split; [by intros [H _]|].
  intros (s & E & Hf & Hi). split; [by exists s|]. intros j t Hj Et. apply andb_false_iff. destruct (free t) eqn:Eft; [by left|]. right. apply Z.eqb_neq. intros Hti.
  assert (j = k) by (apply (tk_one l Hl j k t s); congruence). lia.
Qed.

Lemma slot_find_none i l : slot_find i l = None <-> forall k s, l !! k = Some s -> free s = false -> ino s <> i.
Proof.
  unfold slot_find. rewrite first_none. setoid_rewrite andb_false_iff. setoid_rewrite negb_false_iff. setoid_rewrite Z.eqb_neq. split.
  - intros H k s E Hf. destruct (H k s E) as [?|?]; [congruence|done].
  - intros H k s E. destruct (free s) eqn:Ef; [by left|]. right. by apply (H k).
Qed.

(** What a slot says of its file. *)
Definition says (s : flock_slot) : held :=
  match mode s with FLOCK_FREE => Unlocked | FLOCK_SHARED => Shared (holders s) | FLOCK_EXCLUSIVE => Exclusive end.
Definition mode_ok (s : flock_slot) : Prop :=
  match mode s with FLOCK_FREE => True | FLOCK_SHARED => 0 < holders s < 2 ^ 32 | FLOCK_EXCLUSIVE => holders s = 1 end.

Lemma says_free s : free s = true <-> says s = Unlocked.
Proof. unfold free, says. rewrite bool_decide_eq_true. by destruct (mode s). Qed.

Lemma lock_of_at l k s : table_ok l -> l !! k = Some s -> free s = false -> lock_of (ino s) l = says s.
Proof. intros Hl E Hf. unfold lock_of. rewrite (proj2 (slot_find_iff (ino s) l k Hl)) by eauto. cbn. by rewrite E. Qed.

Lemma lock_of_none l i : (forall k s, l !! k = Some s -> free s = false -> ino s <> i) -> lock_of i l = Unlocked.
Proof. intros H. unfold lock_of. by rewrite (proj2 (slot_find_none i l) H). Qed.

(** A slot may be written when it was free or belonged to the same file, and no
    other slot belongs to the file written. *)
Lemma put_slot l k old s :
  table_ok l -> l !! k = Some old -> free old = true \/ ino old = ino s -> mode_ok s ->
  (forall j t, l !! j = Some t -> free t = false -> ino t = ino s -> j = k) ->
  table_ok (<[k := s]> l) /\ forall j, lock_of j (<[k := s]> l) = if j =? ino s then says s else lock_of j l.
Proof.
  intros Hl Ek Ho Hs Hu. assert (Hlt := lookup_lt_Some _ _ _ Ek).
  assert (Hok : table_ok (<[k := s]> l)).
  { split.
    - rewrite length_insert. apply Hl.
    - intros a b x y Ea Eb Hx Hy Hxy. apply list_lookup_insert_Some in Ea, Eb.
      destruct Ea as [(<- & <- & _)|[Ha Ea]], Eb as [(<- & <- & _)|[Hb Eb]]; try done.
      + exfalso. apply Hb. symmetry. by apply (Hu b y).
      + exfalso. apply Ha. symmetry. by apply (Hu a x).
      + by apply (tk_one l Hl a b x y).
    - intros a x Ea. apply list_lookup_insert_Some in Ea. destruct Ea as [(<- & <- & _)|[Ha Ea]]; [done|by apply (tk_mode l Hl a)]. }
  split; [done|]. intros j. destruct (Z.eqb_spec j (ino s)) as [->|Hj].
  - destruct (free s) eqn:Ef.
    + rewrite (proj1 (says_free s) Ef). apply lock_of_none. intros a x Ea Hx Hi. apply list_lookup_insert_Some in Ea.
      destruct Ea as [(<- & <- & _)|[Ha Ea]]; [congruence|]. apply Ha. symmetry. by apply (Hu a x).
    + apply (lock_of_at _ k); [done| |done]. by apply list_lookup_insert_eq.
  - destruct (slot_find j l) as [a|] eqn:Ea.
    + apply (slot_find_iff j l a Hl) in Ea. destruct Ea as (x & Ex & Hx & <-). rewrite (lock_of_at l a x Hl Ex Hx).
      apply (lock_of_at _ a); [done| |done]. rewrite list_lookup_insert_ne; [done|]. intros <-. rewrite Ek in Ex. injection Ex as <-. destruct Ho; congruence.
    + rewrite slot_find_none in Ea. rewrite (lock_of_none l j Ea). apply lock_of_none. intros a x Eax Hx.
      apply list_lookup_insert_Some in Eax. destruct Eax as [(<- & <- & _)|[Ha Eax]]; [by apply not_eq_sym|by apply (Ea a)].
Qed.

(** ** Granting and releasing against the lock of one file *)

Definition acquire (shared : bool) (h : held) : option held :=
  match shared, h with
  | true, Unlocked => Some (Shared 1)
  | true, Shared n => Some (Shared (n + 1))
  | false, Unlocked => Some Exclusive
  | _, _ => None
  end.
Definition drop_one (h : held) : held :=
  match h with Shared n => if n =? 1 then Unlocked else Shared (n - 1) | _ => Unlocked end.

Definition full (l : list flock_slot) : Prop := first free l = None.
#[global] Instance full_dec l : Decision (full l).
Proof. unfold full. apply _. Defined.
#[global] Instance held_eq : EqDecision held.
Proof. solve_decision. Defined.

Lemma alter_at {A} (l : list A) k f s : l !! k = Some s -> alter f k l = <[k := f s]> l.
Proof. revert k. induction l as [|x l IH]; intros [|k] E; cbn in *; try done; [by injection E as ->|]. f_equal. by apply IH. Qed.

Lemma lock_found l i k s : table_ok l -> slot_find i l = Some k -> l !! k = Some s -> lock_of i l = says s /\ ino s = i /\ free s = false.
Proof.
  intros Hl Ek Es. apply (slot_find_iff i l k Hl) in Ek. destruct Ek as (x & Ex & Hf & Hi). rewrite Es in Ex. injection Ex as <-.
  split; [|done]. rewrite <- Hi. by apply (lock_of_at l k).
Qed.

(** Granting does to the lock of the file what [acquire] says, and nothing to any
    other file: a refused request leaves the table, a granted one needs a free slot
    only where the file had none. The shared count stays below 2^32. *)
Theorem grant_refines l i shared :
  table_ok l -> lock_of i l <> Shared (2 ^ 32 - 1) ->
  let '(r, e, l') := grant i shared l in
  table_ok l' /\
  match acquire shared (lock_of i l) with
  | None => r = -1 /\ e = None /\ l' = l
  | Some h =>
      if decide (lock_of i l = Unlocked /\ full l) then r = -1 /\ e = Some ENOLCK /\ l' = l
      else r = 0 /\ forall j, lock_of j l' = if j =? i then h else lock_of j l
  end.
Proof.
  intros Hl Hw. unfold grant, slot_take. destruct (slot_find i l) as [k|] eqn:Ek; cbn [mbind option_bind].
  - destruct (l !! k) as [s|] eqn:Es.
    2: { apply (slot_find_iff i l k Hl) in Ek. destruct Ek as (x & Ex & _). congruence. }
    destruct (lock_found l i k s Hl Ek Es) as (Hh & Hi & Hf). rewrite Hh in *. assert (Hm := tk_mode l Hl k s Es).
    assert (Hone : forall j t, l !! j = Some t -> free t = false -> ino t = ino s -> j = k) by (intros j t Ej Hj Hij; by apply (tk_one l Hl j k t s)).
    unfold free in Hf. rewrite bool_decide_eq_false in Hf. unfold says in *. destruct (mode s) eqn:Em; [done| |]; destruct shared; cbn [acquire bool_decide].
    + rewrite bool_decide_eq_false_2 by done. assert (holders s < 2 ^ 32 - 1) by (destruct Hm; assert (holders s <> 2 ^ 32 - 1) by congruence; lia).
      rewrite decide_False by naive_solver.
      unfold at_slot. rewrite (alter_at l k _ s Es).
      edestruct (put_slot l k s (Slot (ino s) FLOCK_SHARED (u32 (holders s + 1))) Hl Es) as [H1 H2]; [by right| |done|].
      { unfold mode_ok. cbn [mode holders]. rewrite u32_small; lia. }
      split; [done|]. split; [done|]. intros j. rewrite H2. cbn. rewrite Hi. by rewrite u32_small by lia.
    + rewrite (proj2 (Z.gtb_lt _ _)) by lia. done.
    + done.
    + rewrite Hm. done.
  - assert (Hn := proj1 (slot_find_none i l) Ek). assert (Hu : lock_of i l = Unlocked) by by apply lock_of_none.
    rewrite Hu. destruct (first free l) as [k|] eqn:Ef; cbn [mbind option_bind].
    + destruct (proj1 (first_some _ _ _) Ef) as [(s & Es & Hs) _].
      assert (Hlt := lookup_lt_Some _ _ _ Es).
      set (new := if shared then Slot i FLOCK_SHARED (u32 (0 + 1)) else Slot i FLOCK_EXCLUSIVE 1).
      assert (Hat : at_slot k (fun x => if shared then Slot (ino x) FLOCK_SHARED (u32 (holders x + 1)) else Slot (ino x) FLOCK_EXCLUSIVE 1) (<[k := Slot i FLOCK_FREE 0]> l) = <[k := new]> l).
      { unfold at_slot. rewrite (alter_at _ k _ (Slot i FLOCK_FREE 0)) by by apply list_lookup_insert_eq. rewrite list_insert_insert_eq. by destruct shared. }
      rewrite Hat. edestruct (put_slot l k s new Hl Es) as [H1 H2]; [by left|by destruct shared| |].
      { intros j t Ej Hj Hij. exfalso. apply (Hn j t Ej Hj). rewrite Hij. by destruct shared. }
      split; [done|]. destruct shared; cbn [acquire]; rewrite decide_False by (unfold full; naive_solver); (split; [done|]); intros j; by rewrite H2.
    + split; [done|]. destruct shared; cbn [acquire]; by rewrite decide_True.
Qed.

(** [LOCK_UN] gives up one share, or the exclusive lock, of that file alone. *)
Theorem release_refines l i : table_ok l -> table_ok (release i l) /\ forall j, lock_of j (release i l) = if j =? i then drop_one (lock_of i l) else lock_of j l.
Proof.
  intros Hl. unfold release. destruct (slot_find i l) as [k|] eqn:Ek.
  - destruct (l !! k) as [s|] eqn:Es.
    2: { apply (slot_find_iff i l k Hl) in Ek. destruct Ek as (x & Ex & _). congruence. }
    destruct (lock_found l i k s Hl Ek Es) as (Hh & Hi & Hf). assert (Hm := tk_mode l Hl k s Es).
    unfold at_slot. rewrite (alter_at l k _ s Es). rewrite Hh.
    unfold free in Hf. rewrite bool_decide_eq_false in Hf.
    assert (Hpos : 0 < holders s) by (destruct (mode s); [done|lia|lia]). rewrite (proj2 (Z.gtb_lt _ _)) by lia.
    edestruct (put_slot l k s (Slot (ino s) (if holders s - 1 =? 0 then FLOCK_FREE else mode s) (holders s - 1)) Hl Es) as [H1 H2]; [by right| | |].
    { red. cbn. destruct (Z.eqb_spec (holders s - 1) 0); [done|]. destruct (mode s); [done|lia|lia]. }
    { intros j t Ej Hj Hij. apply (tk_one l Hl j k t s); try done. unfold free. by rewrite bool_decide_eq_false. }
    split; [done|]. intros j. rewrite H2. cbn. rewrite Hi. destruct (j =? i); [|done]. unfold says. cbn. destruct (mode s); [done| |].
    + cbn. replace (holders s - 1 =? 0) with (holders s =? 1) by (apply eq_true_iff_eq; rewrite !Z.eqb_eq; lia). by destruct (holders s =? 1).
    + by rewrite Hm.
  - split; [done|]. intros j. destruct (Z.eqb_spec j i) as [->|]; [|done].
    by rewrite (lock_of_none l i (proj1 (slot_find_none i l) Ek)).
Qed.

(** ** Consequences *)

Definition empty_table : list flock_slot := repeat (Slot 0 FLOCK_FREE 0) FLOCK_SLOTS.

Lemma empty_table_ok : table_ok empty_table.
Proof.
  split; [done| |].
  - intros j k a b Ea _ Ha. apply list_elem_of_lookup_2, list_elem_of_In, repeat_spec in Ea. by subst.
  - intros k s E. apply list_elem_of_lookup_2, list_elem_of_In, repeat_spec in E. by subst.
Qed.

Lemma grant_refines_witness :
  let '(r, _, l) := grant 7 false empty_table in table_ok l /\ r = 0 /\ lock_of 7 l = Exclusive /\ lock_of 8 l = Unlocked.
Proof.
  pose proof (grant_refines empty_table 7 false empty_table_ok) as H. specialize (H ltac:(vm_compute; congruence)).
  destruct (grant 7 false empty_table) as [[r e] l] eqn:E. destruct H as [H _]. vm_compute in E. injection E as <- <- <-. split; [exact H|]. split_and!; reflexivity.
Defined.

(** No owner is recorded: after one descriptor takes an exclusive lock, an unlock
    through any other descriptor of the file makes it free. *)
Theorem anyone_unlocks l i : table_ok l -> lock_of i l = Exclusive -> lock_of i (release i l) = Unlocked.
Proof. intros Hl E. rewrite (proj2 (release_refines l i Hl)), Z.eqb_refl, E. done. Qed.

(** And the holder of an exclusive lock is refused it again, and a share of it,
    where flock converts the lock. *)
Theorem holder_refused l i shared : table_ok l -> lock_of i l = Exclusive -> grant i shared l = (-1, None, l).
Proof.
  intros Hl E. assert (H := grant_refines l i shared Hl). rewrite E in H. specialize (H ltac:(done)).
  destruct (grant i shared l) as [[r e] l']. destruct shared; cbn in H; naive_solver.
Qed.
End Flock.
