(* ===== verification/Devices.v ===== *)
(** * Devices: the small interfaces of the kernel

    src/epoll.c, src/eventfd.c, src/timerfd.c, src/signalfd.c, src/shm.c,
    src/futex.c, src/random.c, src/sysconf.c, src/termios.c, src/sched.c,
    src/mman.c, src/dns.c and src/wlan.c, over the kernel of [Sys].  A pointer
    that may be null is an option; the words of a reply are the fields the
    kernel stores, in order. *)

From Stdlib Require Import ZArith Lia Bool String Ascii.
From stdpp Require Import base list numbers.
From S2P Require Import Prelude Monad Dlfcn Time Sys.

Module Devices.
Import Sys.

Definition EPERM : Z := 1.
Definition NONBLOCK : Z := 2048.
Definition CLOEXEC : Z := 524288.
Definition EFD_SEMAPHORE : Z := 1.
Definition TFD_TIMER_ABSTIME : Z := 1.
Definition SCHED_OTHER : Z := 0.
Definition MAP_FAILED : Z := 2 ^ 32 - 1.

Definition EVENTFDCTL_CREATE : Z := 14593.
Definition TIMERFDCTL_CREATE : Z := 14849.
Definition TIMERFD_SETTIME : Z := 14864.
Definition TIMERFD_GETTIME : Z := 14865.
Definition SIGNALFDCTL_CREATE : Z := 15105.
Definition SIGNALFD_SETMASK : Z := 15106.
Definition EPOLLCTL_CREATE : Z := 15361.
Definition EPOLL_CTL : Z := 15376.
Definition EPOLL_WAIT : Z := 15377.
Definition NETCTL_DNS_RESOLVE : Z := 13315.
Definition WLANCTL (n : Z) : Z := 16128 + n.
Definition TCGETS : Z := 21505.
Definition TCSETS : Z := 21506.
Definition TCSETSW : Z := 21507.
Definition TCSETSF : Z := 21508.
Definition TCSADRAIN : Z := 1.
Definition TCSAFLUSH : Z := 2.

Section Calls.
Context {K : Type} `{KR : Kernel K} `{CK : Time.Clock}.
Abbreviation C := (St (st K)).

(** [if (r < 0) { errno = -r; return -1; }] before the result [x]. *)
Definition or_errno (r x : Z) : C Z := if r <? 0 then fail (s32 (- r)) else ret x.
Definition dev_fd (name : string) (cmd : Z) (args : list arg) : C Z :=
  let* r := nio_dev_cmd (txt name) cmd args in or_errno (value r) (value r).
Definition fd_cmd (fd cmd : Z) (args : list arg) : C Z := let* r := nio_ioctl fd cmd args in or_errno (value r) 0.

(** ** Event descriptors *)

Definition epoll_create1 (flags : Z) : C Z := dev_fd "epoll" EPOLLCTL_CREATE [AInt (Z.land (u32 flags) CLOEXEC)].
Definition epoll_create (size : Z) : C Z := epoll_create1 0.

(** An event is its mask and its datum. *)
Definition epoll_ctl (epfd op fd : Z) (event : option (Z * Z)) : C Z :=
  let '(ev, data) := default (0, 0) event in fd_cmd epfd EPOLL_CTL [AInt op; AInt fd; AInt ev; AInt data].

(** The count and the events stored. *)
Definition epoll_wait (epfd : Z) (events : bool) (maxevents timeout_ms : Z) : C (Z * str) :=
  if (maxevents <=? 0) || negb events then let* e := fail EINVAL in ret (e, [])
  else
    let* r := nio_ioctl epfd EPOLL_WAIT [AInt (u32 maxevents); AInt timeout_ms] in
    let* e := or_errno (value r) (value r) in ret (e, bytes r).

Definition eventfd (initval flags : Z) : C Z :=
  dev_fd "eventfd" EVENTFDCTL_CREATE [AInt initval; AInt (Z.land (u32 flags) (Z.lor (Z.lor EFD_SEMAPHORE NONBLOCK) CLOEXEC))].

Definition timerfd_create (clockid flags : Z) : C Z :=
  dev_fd "timerfd" TIMERFDCTL_CREATE [AInt clockid; AInt (Z.land (u32 flags) (Z.lor NONBLOCK CLOEXEC))].

Definition _timespec_to_ms (ts : option Time.timespec) : Z :=
  match ts with
  | None => 0
  | Some ts =>
      if (Time.tv_sec ts <? 0) || (Time.tv_nsec ts <? 0) then 0
      else u32 (u32 (Time.tv_sec ts * 1000) + Time.tv_nsec ts / 1000000)
  end.
Definition _ms_to_timespec (ms : Z) : Time.timespec := Time.Timespec (s32 (ms / 1000)) (s32 (ms mod 1000) * 1000000).

(** The first expiry and the interval. *)
Record itimerspec := Itimer { it_value : Time.timespec; it_interval : Time.timespec }.

(** An absolute deadline from now; [None] when the clock cannot be read and the
    variable is not set. *)
Definition from_now (v : Time.timespec) : option Z :=
  match Time.clock_gettime Time.CLOCK_MONOTONIC with
  | inr _ => None
  | inl now =>
      let sec := s32 (Time.tv_sec v - Time.tv_sec now) in
      let nsec := s32 (Time.tv_nsec v - Time.tv_nsec now) in
      let ms := s32 (s32 (sec * 1000) + nsec ÷ 1000000) in
      Some (u32 (if ms <? 1 then 1 else ms))
  end.

(** The code and the old setting. *)
Definition timerfd_settime (fd flags : Z) (new_value : option itimerspec) : C (Z * option itimerspec) :=
  match new_value with
  | None => let* e := fail EINVAL in ret (e, None)
  | Some n =>
      let* v := lift (if has flags TFD_TIMER_ABSTIME then from_now (it_value n) else Some (_timespec_to_ms (Some (it_value n)))) in
      let* r := nio_ioctl fd TIMERFD_SETTIME [AInt 0; AInt v; AInt (_timespec_to_ms (Some (it_interval n)))] in
      let* e := or_errno (value r) 0 in
      ret (e, if e <? 0 then None else Some (Itimer (_ms_to_timespec (nth 0 (words r) 0)) (_ms_to_timespec (nth 1 (words r) 0))))
  end.

Definition timerfd_gettime (fd : Z) (curr_value : bool) : C (Z * option itimerspec) :=
  if negb curr_value then let* e := fail EINVAL in ret (e, None)
  else
    let* r := nio_ioctl fd TIMERFD_GETTIME [] in
    let* e := or_errno (value r) 0 in
    ret (e, if e <? 0 then None else Some (Itimer (_ms_to_timespec (nth 0 (words r) 0)) (_ms_to_timespec (nth 1 (words r) 0)))).

Definition signalfd (fd : Z) (mask : option Z) (flags : Z) : C Z :=
  let args := [AInt (u32 (default 0 mask)); AInt (Z.land (u32 flags) (Z.lor NONBLOCK CLOEXEC))] in
  if fd <? 0 then dev_fd "signalfd" SIGNALFDCTL_CREATE args
  else let* r := nio_ioctl fd SIGNALFD_SETMASK args in or_errno (value r) fd.

(** ** Memory *)

Definition mmap (addr length prot flags fd offset : Z) : C Z :=
  let* r := sys (Mmap addr length prot flags fd offset) in ret (if value r =? -1 then MAP_FAILED else u32 (value r)).
Definition munmap (addr length : Z) : C Z := let* r := sys (Munmap addr length) in ret (value r).
Definition mprotect (addr length prot : Z) : C Z := let* r := sys (Mprotect addr length prot) in ret (value r).
Definition msync (addr length flags : Z) : C Z := ret 0.

Definition ctl_errno (cmd : Z) (args : list arg) (ok : reply -> Z) : C Z :=
  let* r := nio_ctl cmd args in or_errno (value r) (ok r).
Definition shmget (key size flags : Z) : C Z := ctl_errno (PROCCTL 14) [AInt (u32 key); AInt size; AInt (u32 flags)] value.
(** The address is both read and stored by the kernel; -1 is the last address. *)
Definition shmat (shmid shmaddr flags : Z) : C Z :=
  let* a := ctl_errno (PROCCTL 15) [AInt (u32 shmid); AInt (u32 shmaddr); AInt (u32 flags)] (fun r => nth 0 (words r) 0) in ret (u32 a).
Definition shmdt (shmaddr : Z) : C Z := ctl_errno (PROCCTL 16) [AInt (u32 shmaddr)] (fun _ => 0).
Definition shmctl (shmid cmd buf : Z) : C Z := ctl_errno (PROCCTL 17) [AInt (u32 shmid); AInt (u32 cmd); AInt buf] (fun _ => 0).

(** ** Futexes: one descriptor for the whole process *)

Definition set_ctl_fd (fd : Z) : C unit := modify (fun s => S_ (kern s) (errno s) (pid_cache s) fd).

Definition cact_ctl (cmd : Z) (args : list arg) : C reply :=
  let* fd := gets ctl_fd in
  if fd <? 0 then
    let* fd := nio_open (txt "/proc/self/ctl") O_RDWR in
    if fd <? 0 then ret no_reply
    else let* _ := set_ctl_fd fd in nio_ioctl fd cmd args
  else nio_ioctl fd cmd args.

Definition futex_op (uaddr op val timeout_ms : Z) : C Z :=
  let* r := cact_ctl (PROCCTL 20) [AInt (u32 uaddr); AInt op; AInt val; AInt timeout_ms] in ret (value r).
Definition cact_futex_wait (uaddr expected timeout_ms : Z) : C Z := futex_op uaddr 0 expected timeout_ms.
Definition cact_futex_wake (uaddr count : Z) : C Z := futex_op uaddr 1 count 0.
Definition cact_futex_wait_shared (uaddr expected timeout_ms : Z) : C Z := futex_op uaddr 2 expected timeout_ms.
Definition cact_futex_wake_shared (uaddr count : Z) : C Z := futex_op uaddr 3 count 0.

(** ** Random bytes *)

(** The bytes so far; at most [fuel] reads. *)
Fixpoint fill (fuel : nat) (fd buflen : Z) (got : Z) (acc : str) : C (Z * str) :=
  match fuel with
  | O => fault
  | S fuel =>
      if got <? buflen then
        let* (r, bs) := read fd (buflen - got) in
        if r <=? 0 then ret (got, acc) else fill fuel fd buflen (got + r) (acc ++ bs)
      else ret (got, acc)
  end.

Definition getrandom (buf : bool) (buflen : Z) : C (Z * str) :=
  if negb buf && negb (buflen =? 0) then let* e := fail EINVAL in ret (e, [])
  else
    let* fd := open (txt "/dev/urandom") O_RDONLY in
    if fd <? 0 then let* e := fail EIO in ret (e, [])
    else
      let* (got, bs) := fill (S (Z.to_nat buflen)) fd buflen 0 [] in
      let* _ := close fd in ret (s32 got, bs).

(** ** Limits *)

Definition getpagesize : Z := 4096.

(** The bytes before the first 0. *)
Fixpoint c_str (bs : str) : str := match bs with [] => [] | b :: bs => if b =? 0 then [] else b :: c_str bs end.

(** The places where [w] begins. *)
Fixpoint starts (w s : str) : bool :=
  match w, s with
  | [], _ => true
  | _, [] => false
  | a :: w, b :: s => (a =? b) && starts w s
  end.
Fixpoint occurrences (w s : str) : Z :=
  match s with
  | [] => 0
  | _ :: s' => (if starts w s then 1 else 0) + occurrences w s'
  end.

Definition cpu_count : C Z :=
  let* (n, bs) := nio_read_file (txt "/proc/cpuinfo") 8191 in
  if n <=? 0 then ret 1
  else let count := occurrences (txt "processor") (c_str (take (Z.to_nat n) bs)) in ret (if count >? 0 then count else 1).

Definition sysconf (name : Z) : C Z :=
  match name with
  | 4 => ret 4096
  | 2 => ret 100
  | 3 => ret 256
  | 1 => ret 1024
  | 0 => ret 131072
  | 7 => ret 200809
  | 5 | 6 => cpu_count
  | _ => fail EINVAL
  end.

(** ** Terminals, scheduling, names *)

(** The settings are the bytes of the structure. *)
Definition tcgetattr (fd : Z) : C reply := ioctl fd TCGETS [].
Definition tcsetattr (fd action : Z) (t : str) : C Z :=
  let* r := ioctl fd (if action =? TCSADRAIN then TCSETSW else if action =? TCSAFLUSH then TCSETSF else TCSETS) [AStr t] in ret (value r).

Definition names_self (pid : Z) : C bool := if pid =? 0 then ret true else let* p := getpid in ret (pid =? p).
Definition policy_supported (policy : Z) : bool := policy =? SCHED_OTHER.

(** A parameter is its priority. *)
Definition sched_setscheduler (pid policy : Z) (param : option Z) : C Z :=
  match param with
  | None => fail EINVAL
  | Some p =>
      if pid <? 0 then fail EINVAL
      else if negb (policy_supported policy) then fail EINVAL
      else if negb (p =? 0) then fail EINVAL
      else let* me := names_self pid in if negb me then fail EPERM else ret 0
  end.
Definition sched_getscheduler (pid : Z) : C Z :=
  if pid <? 0 then fail EINVAL else let* me := names_self pid in if negb me then fail EPERM else ret SCHED_OTHER.
Definition sched_setparam (pid : Z) (param : option Z) : C Z :=
  match param with
  | None => fail EINVAL
  | Some p =>
      if pid <? 0 then fail EINVAL
      else if negb (p =? 0) then fail EINVAL
      else let* me := names_self pid in if negb me then fail EPERM else ret 0
  end.
(** The code and the priority stored. *)
Definition sched_getparam (pid : Z) (param : bool) : C (Z * option Z) :=
  if (pid <? 0) || negb param then let* e := fail EINVAL in ret (e, None)
  else let* me := names_self pid in if negb me then let* e := fail EPERM in ret (e, None) else ret (0, Some 0).
Definition sched_get_priority_max (policy : Z) : C Z := if negb (policy_supported policy) then fail EINVAL else ret 0.
Definition sched_get_priority_min (policy : Z) : C Z := if negb (policy_supported policy) then fail EINVAL else ret 0.
Definition sched_rr_get_interval (pid : Z) (interval : bool) : C Z := fail EINVAL.
Definition sched_yield : C Z := ctl (PROCCTL 25) [].

(** The code and the address. *)
Definition dns_resolve (name : str) : C (Z * option Z) :=
  let* r := nio_dev_cmd (txt "net") NETCTL_DNS_RESOLVE [AStr name] in
  let* e := or_errno (value r) 0 in ret (e, if e <? 0 then None else head (words r)).

(** ** The radio *)

Definition CACT_WLAN_SSID_MAX : Z := 33.
Definition CACT_WLAN_KEY_MAX : Z := 32.
Definition CACT_WLAN_EAPOL_MAX : Z := 512.

(** [n] bytes of a zeroed array. *)
Definition padded (n : Z) (bs : str) : str := take (Z.to_nat n) (bs ++ repeat 0 (Z.to_nat n)).

Definition wl (fd n : Z) (args : list arg) : C Z := let* r := ioctl fd (WLANCTL n) args in nio_map (value r).
Definition wl_scan (fd : Z) : C Z := wl fd 0 [].
(** The structure goes in and out. *)
Definition wl_get_bss (fd : Z) (bss : option str) : C (Z * str) :=
  match bss with
  | None => let* e := nio_map (-22) in ret (e, [])
  | Some b => let* r := ioctl fd (WLANCTL 1) [AStr b] in let* e := nio_map (value r) in ret (e, bytes r)
  end.
Definition wl_connect (fd : Z) (bssid ssid : option str) (ssid_len : Z) : C Z :=
  match bssid with
  | None => nio_map (-22)
  | Some b =>
      let n := match ssid with
               | None => 0
               | Some _ => if ssid_len >? CACT_WLAN_SSID_MAX - 1 then CACT_WLAN_SSID_MAX - 1 else ssid_len
               end in
      wl fd 2 [AStr (take 6 b); AStr (padded CACT_WLAN_SSID_MAX (take (Z.to_nat n) (default [] ssid))); AInt n]
  end.
Definition wl_disconnect (fd : Z) : C Z := wl fd 3 [].
Definition wl_set_key (fd kind key_id : Z) (key : option str) (key_len : Z) : C Z :=
  match key with
  | None => nio_map (-22)
  | Some k =>
      if (key_len =? 0) || (key_len >? CACT_WLAN_KEY_MAX) then nio_map (-22)
      else wl fd 5 [AInt kind; AInt key_id; AInt key_len; AStr (padded CACT_WLAN_KEY_MAX (take (Z.to_nat key_len) k))]
  end.
Definition wl_status (fd : Z) (st_ : bool) : C (Z * str) :=
  if negb st_ then let* e := nio_map (-22) in ret (e, [])
  else let* r := ioctl fd (WLANCTL 6) [] in let* e := nio_map (value r) in ret (e, bytes r).
Definition wl_eapol_tx (fd : Z) (dst eapol : option str) (len : Z) : C Z :=
  match eapol with
  | None => nio_map (-22)
  | Some d =>
      if (len =? 0) || (len >? CACT_WLAN_EAPOL_MAX) then nio_map (-22)
      else wl fd 7 [AStr (padded 6 (take 6 (default [] dst))); AInt len; AStr (padded CACT_WLAN_EAPOL_MAX (take (Z.to_nat len) d))]
  end.

(** The code, the length, the bytes copied to the caller's buffer and the
    sender.  The kernel stores the length, then six bytes and the data; a length
    beyond the structure's array is read past it. *)
Definition wl_eapol_rx (fd : Z) : C (Z * option (Z * str * str)) :=
  let* r := ioctl fd (WLANCTL 8) [AInt 0] in
  let* e := nio_map (value r) in
  if e <? 0 then ret (-1, None)
  else
    let len := nth 0 (words r) 0 in
    if len =? 0 then ret (0, None)
    else if len >? CACT_WLAN_EAPOL_MAX then fault
    else ret (1, Some (len, take (Z.to_nat len) (drop 6 (bytes r)), take 6 (bytes r))).
End Calls.

(** ** Theorems *)

Section Random.
Context {K : Type} `{KR : Kernel K}.

(** A read stores what it says, and no more than was asked. *)
Definition reads_honest : Prop := forall fd n k, let r := fst (trap (Read fd n) k) in value r <= n /\ (0 < value r -> Z.of_nat (length (bytes r)) = value r).

Lemma fill_total (Hk : reads_honest) fuel : forall fd n got acc (s : st K), 0 <= got <= n -> (Z.to_nat (n - got) < fuel)%nat -> Z.of_nat (length acc) = got ->
  exists r bs s', fill fuel fd n got acc s = Some ((r, bs), s') /\ 0 <= r <= n /\ Z.of_nat (length bs) = r.
Proof.
  induction fuel as [|fuel IH]; intros fd n got acc s Hg Hf Hl; [lia|]. cbn [fill].
  destruct (Z.ltb_spec got n); [|by exists got, acc, s].
  unfold read, nio_read, sys, bind. cbn. pose proof (Hk fd (n - got) (kern s)) as Hr. destruct (trap _ _) as [r k]. destruct Hr as [H1 H2]. cbn in *.
  destruct (Z.leb_spec (value r) 0); [exists got, acc; eexists; split; [reflexivity|lia]|].
  apply IH; [lia|lia|]. rewrite length_app. specialize (H2 ltac:(lia)). lia.
Qed.

Lemma node_open_total p f (s : st K) : exists fd s', open p f s = Some (fd, s').
Proof. unfold open, nio_open, sys, bind. destruct (trap _ _). by do 2 eexists. Qed.

Lemma node_close_total fd (s : st K) : exists e s', close fd s = Some (e, s').
Proof. unfold close, nio_close, sys, bind. destruct (trap _ _). by do 2 eexists. Qed.

(** [getrandom] always returns: -1, or the count of the bytes it stored, which is
    at most what was asked. *)
Theorem getrandom_total n (s : st K) : reads_honest -> 0 <= n < 2 ^ 31 ->
  exists r bs s', getrandom true n s = Some ((r, bs), s') /\ (r = -1 /\ bs = [] \/ 0 <= r <= n /\ Z.of_nat (length bs) = r).
Proof.
  intros Hk Hn. unfold getrandom. cbn [negb andb]. unfold bind at 1.
  destruct (node_open_total (txt "/dev/urandom") O_RDONLY s) as (fd & s1 & ->).
  destruct (Z.ltb_spec fd 0); [do 3 eexists; split; [reflexivity|by left]|].
  edestruct (fill_total Hk (S (Z.to_nat n)) fd n 0 []) as (got & bs & s2 & E & Hr & Hb); [lia|lia|done|].
  unfold bind at 1. rewrite E. unfold bind. destruct (node_close_total fd s2) as (e & s3 & ->).
  do 3 eexists. split; [reflexivity|]. right. rewrite s32_small by lia. done.
Qed.
End Random.

(** Once the control descriptor is open, every futex operation is one trap on it. *)
Theorem ctl_opens_once {K} `{Kernel K} cmd args (s s' : st K) r :
  cact_ctl cmd args s = Some (r, s') -> 0 <= ctl_fd s' ->
  forall cmd' args', cact_ctl cmd' args' s' = sys (Ioctl (ctl_fd s') cmd' args') s' /\
                     (0 <= ctl_fd s -> ctl_fd s' = ctl_fd s).
Proof.
  intros E Hp cmd' args'. split.
  - unfold cact_ctl, bind, gets. rewrite (proj2 (Z.ltb_ge _ _)) by lia. reflexivity.
  - intros Hs. unfold cact_ctl, bind, gets, nio_ioctl, sys in E. rewrite (proj2 (Z.ltb_ge _ _)) in E by lia.
    destruct (trap _ _). by injection E as <- <-.
Qed.

(** A machine has at least one processor. *)
Theorem cpu_count_pos {K} `{Kernel K} (s : st K) : exists n s', cpu_count s = Some (n, s') /\ 1 <= n.
Proof.
  unfold cpu_count, nio_read_file, nio_open, nio_read, nio_close, sys, bind. cbn.
  destruct (trap (Open _ _) _) as [r k]. cbn. destruct (value r <? 0); cbn; [by do 2 eexists|].
  destruct (trap (Read _ _) _) as [r1 k1]. cbn. destruct (trap (Close _) _) as [r2 k2]. cbn.
  destruct (value r1 <=? 0); [by do 2 eexists|]. do 2 eexists. split; [reflexivity|].
  match goal with |- 1 <= (if ?c >? 0 then _ else _) => destruct (Z.gtb_spec c 0) end; lia.
Qed.

(** ** Timers *)

(** What a timer reports can be given back to it. *)
Theorem timer_ms_roundtrip ms : 0 <= ms < 2 ^ 32 -> _timespec_to_ms (Some (_ms_to_timespec ms)) = ms.
Proof.
  intros H. unfold _timespec_to_ms, _ms_to_timespec. cbn [Time.tv_sec Time.tv_nsec].
  pose proof (Z.mod_pos_bound ms 1000 ltac:(lia)). assert (0 <= ms / 1000 < 2 ^ 31) by (split; [apply Z.div_pos; lia|apply Z.div_lt_upper_bound; lia]).
  rewrite !s32_small by lia. rewrite (proj2 (Z.ltb_ge _ _)), (proj2 (Z.ltb_ge _ _)) by lia. cbn [orb].
  rewrite Z.div_mul by lia. pose proof (Z.div_mod ms 1000 ltac:(lia)). rewrite (u32_small (ms / 1000 * 1000)) by lia. rewrite u32_small; lia.
Qed.

(** An absolute deadline becomes a delay that ends less than a millisecond away
    from it, or one millisecond when less is left. *)
Theorem from_now_close `{Time.Clock} v now :
  Time.clock_gettime Time.CLOCK_MONOTONIC = inl now ->
  0 <= Time.tv_sec now < 2 ^ 31 -> 0 <= Time.tv_nsec now < 1000000000 ->
  0 <= Time.tv_sec v < 2 ^ 31 -> 0 <= Time.tv_nsec v < 1000000000 ->
  - 2000000 <= Time.tv_sec v - Time.tv_sec now < 2000000 ->
  exists ms, from_now v = Some ms /\
    let left := (Time.tv_sec v - Time.tv_sec now) * 1000000000 + (Time.tv_nsec v - Time.tv_nsec now) in
    (left < 1000000 -> ms = 1) /\ (1000000 <= left -> Z.abs (ms * 1000000 - left) < 1000000).
Proof.
  intros Hc ???? Hd. unfold from_now. rewrite Hc. cbv zeta. eexists. split; [reflexivity|].
  set (ds := Time.tv_sec v - Time.tv_sec now) in *. set (dn := Time.tv_nsec v - Time.tv_nsec now) in *.
  assert (Hn : -1000000000 < dn < 1000000000) by lia.
  pose proof (Z.quot_rem dn 1000000 ltac:(lia)). pose proof (Z.rem_bound_abs dn 1000000 ltac:(lia)).
  rewrite (s32_small ds), (s32_small dn) by lia. rewrite (s32_small (ds * 1000)) by lia. rewrite s32_small by lia.
  destruct (Z.ltb_spec (ds * 1000 + dn ÷ 1000000) 1); rewrite u32_small by lia; split; intros; lia.
Qed.

(** A relative time below a millisecond disarms the timer. *)
Theorem short_timerfd_disarms nsec : 0 < nsec < 1000000 -> _timespec_to_ms (Some (Time.Timespec 0 nsec)) = 0.
Proof.
  intros H. unfold _timespec_to_ms. cbn [Time.tv_sec Time.tv_nsec]. rewrite (proj2 (Z.ltb_ge nsec 0)) by lia. cbn [orb Z.ltb Z.compare].
  rewrite Z.div_small by lia. reflexivity.
Qed.

(** A relative time of 50 days is less than a second. *)
Theorem long_timerfd_wraps : _timespec_to_ms (Some (Time.Timespec 4294968 0)) = 704.
Proof. reflexivity. Qed.

(** Zero as an absolute time, which disarms, arms the timer for a millisecond. *)
Theorem absolute_zero_arms `{Time.Clock} sec usec :
  Time.proc_time = Some (sec, usec) -> 0 < sec < 2000000 -> 0 <= usec < 1000000 -> from_now (Time.Timespec 0 0) = Some 1.
Proof.
  intros Ht Hs Hu. assert (Hc : Time.clock_gettime Time.CLOCK_MONOTONIC = inl (Time.Timespec sec (usec * 1000))).
  { unfold Time.clock_gettime, Time._read_time, Time.CLOCK_MONOTONIC, Time.CLOCK_REALTIME. rewrite Ht. change (1 =? 1) with true. rewrite andb_false_r. cbn iota beta. rewrite (s32_small sec), (s32_small usec), s32_small by lia. reflexivity. }
  destruct (from_now_close (Time.Timespec 0 0) _ Hc) as (ms & -> & H1 & _); cbn [Time.tv_sec Time.tv_nsec] in *; try lia. rewrite H1; [done|lia].
Qed.
End Devices.
