(* ===== verification/Socket.v ===== *)
(** * Socket: sockets and descriptor passing, src/socket.c

    Over the kernel of [Sys].  An address is the bytes of its structure; a
    message's buffers are lists, and its control area is a list of bytes at an
    address, because the walk over the headers compares addresses. *)

From Stdlib Require Import ZArith Lia Bool String Ascii.
From stdpp Require Import base list numbers gmap.
From S2P Require Import Prelude Monad Dlfcn Sys SysSpec.

Module Socket.
Import Sys SysSpec.

Definition AF_UNIX : Z := 1.
Definition AF_INET : Z := 2.
Definition SOCK_CLOEXEC : Z := 524288.
Definition SOCK_NONBLOCK : Z := 2048.
Definition SOL_SOCKET : Z := 1.
Definition SCM_RIGHTS : Z := 1.
Definition MSG_CTRUNC : Z := 8.
Definition EAFNOSUPPORT : Z := 97.
Definition ENOMEM : Z := 12.
Definition NETCTL_SOCKET : Z := 13313.
Definition NETCTL_SOCKETPAIR : Z := 13317.
Definition SOCKCTL (n : Z) : Z := 13056 + n.
Definition sizeof_sockaddr_in : Z := 16.
Definition sizeof_path : Z := 108.

(** ** Bytes *)

Definition half (i : nat) (bs : str) : Z := foldr (fun b x => b + 256 * x) 0 (take 2 (drop i bs)).
Definition le (n : nat) (x : Z) : str := (fun i => x / 256 ^ Z.of_nat i mod 256) <$> List.seq 0 n.

Definition _family (sa : str) : Z := half 0 sa.

(** The fields of a [sockaddr_in]: the address and the port. *)
Definition sin_addr (sa : str) : Z := word 1 sa.
Definition sin_port (sa : str) : Z := half 2 sa.
(** Family, port and address; the rest is left. *)
Definition sin (port addr : Z) : str := le 2 AF_INET ++ le 2 port ++ le 4 addr.

(** The path of a [sockaddr_un], in the kernel's array. *)
Definition unix_path (sa : str) (addrlen : Z) : str :=
  let n := Z.min (addrlen - 2) sizeof_path in
  take 107 (take (Z.to_nat n) (drop 2 sa) ++ repeat 0 107) ++ [0].

(** ** Control messages *)

Definition sizeof_cmsghdr : Z := 12.
Definition CMSG_ALIGN (n : Z) : Z := Z.land (u32 (n + 3)) (u32 (Z.lnot 3)).
Definition CMSG_LEN (n : Z) : Z := u32 (CMSG_ALIGN sizeof_cmsghdr + n).
Definition CMSG_SPACE (n : Z) : Z := CMSG_LEN n.

(** The control area: its address and its bytes. *)
Record area := Area { at_ : Z; ctl : str }.
Definition size (a : area) : Z := Z.of_nat (length (ctl a)).
(** [n] bytes at an address, inside the area. *)
Definition get (a : area) (p n : Z) : option str :=
  let o := p - at_ a in
  if (0 <=? o) && (o + n <=? size a) then Some (take (Z.to_nat n) (drop (Z.to_nat o) (ctl a))) else None.

(** 0 is the null pointer. *)
Definition __cmsg_first (a : area) : Z := if size a <? sizeof_cmsghdr then 0 else at_ a.
Definition __cmsg_next (a : area) (c len : Z) : Z :=
  let next := u32 (c + CMSG_ALIGN len) in
  if u32 (next + sizeof_cmsghdr) >? u32 (at_ a + size a) then 0 else next.

(** The descriptors of the SCM_RIGHTS messages from [c] on; [None] when the walk
    leaves the area or does not end within the fuel. *)
Fixpoint rights (fuel : nat) (a : area) (c : Z) (fds : list Z) : option (list Z) :=
  match fuel with
  | O => None
  | S fuel =>
      if (c =? 0) || negb (length fds <? 16)%nat then Some fds
      else
        h ← get a c sizeof_cmsghdr;
        let len := word 0 h in
        fds ← (if (s32 (word 1 h) =? SOL_SOCKET) && (s32 (word 2 h) =? SCM_RIGHTS) then
                 let hdr := CMSG_ALIGN sizeof_cmsghdr in
                 let bytes := if len >=? hdr then len - hdr else 0 in
                 let cnt := Z.min (bytes / 4) (16 - Z.of_nat (length fds)) in
                 d ← get a (c + hdr) (4 * cnt);
                 Some (fds ++ ((fun i => s32 (word i d)) <$> List.seq 0 (Z.to_nat cnt)))
               else Some fds);
        rights fuel a (__cmsg_next a c len) fds
  end.

Section Calls.
Context {K : Type} `{KR : Kernel K}.
Abbreviation C := (St (st K)).

Definition or_errno (r x : Z) : C Z := if r <? 0 then fail (s32 (- r)) else ret x.
Definition cmd (fd c : Z) (args : list arg) : C Z := let* r := nio_ioctl fd c args in or_errno (value r) 0.

(** ** Creation *)

Definition _fd_apply_flags (fd type_flags : Z) : C Z :=
  let* a := (if has type_flags SOCK_CLOEXEC then set_fd fd F_SETFD FD_CLOEXEC else ret 0) in
  if a <? 0 then ret (-1)
  else
    let* b := (if has type_flags SOCK_NONBLOCK then set_fd fd F_SETFL O_NONBLOCK else ret 0) in
    ret (if b <? 0 then -1 else 0).

Definition both : Z := Z.lor SOCK_CLOEXEC SOCK_NONBLOCK.

Definition socket (domain type protocol : Z) : C Z :=
  let flags := Z.land type both in
  let* r := nio_dev_cmd (txt "net") NETCTL_SOCKET [AInt (u32 domain); AInt (u32 (Z.land type (Z.lnot both))); AInt (u32 protocol)] in
  if value r <? 0 then fail (s32 (- value r))
  else
    let* e := (if negb (flags =? 0) then _fd_apply_flags (value r) flags else ret 0) in
    if e <? 0 then let* _ := close (value r) in fail EINVAL else ret (value r).

(** The code and the pair; [sv] is null or not. *)
Definition socketpair (domain type : Z) (sv : bool) : C (Z * (Z * Z)) :=
  if negb (domain =? AF_UNIX) then let* e := fail EAFNOSUPPORT in ret (e, (0, 0))
  else if negb sv then let* e := fail EINVAL in ret (e, (0, 0))
  else
    let flags := Z.land type both in
    let* r := nio_dev_cmd (txt "net") NETCTL_SOCKETPAIR [AInt (u32 (Z.land type (Z.lnot both))); AInt 0; AInt 0] in
    if value r <? 0 then let* e := fail (s32 (- value r)) in ret (e, (0, 0))
    else
      let a := s32 (nth 0 (words r) 0) in
      let b := s32 (nth 1 (words r) 0) in
      let* e := (if negb (flags =? 0) then
                   let* e := _fd_apply_flags a flags in if e <? 0 then ret e else _fd_apply_flags b flags
                 else ret 0) in
      if e <? 0 then let* _ := close a in let* _ := close b in let* e := fail EINVAL in ret (e, (a, b))
      else ret (0, (a, b)).

(** ** Addresses *)

(** [bind] and [connect] differ in the two commands. *)
Definition name_call (un inet fd : Z) (addr : option str) (addrlen : Z) : C Z :=
  match addr with
  | None => fail EINVAL
  | Some sa =>
      if _family sa =? AF_UNIX then
        if addrlen <=? 2 then fail EINVAL else cmd fd un [AStr (unix_path sa addrlen)]
      else if _family sa =? AF_INET then
        if addrlen <? sizeof_sockaddr_in then fail EINVAL else cmd fd inet [AInt (sin_addr sa); AInt (sin_port sa)]
      else fail EAFNOSUPPORT
  end.
Definition bind (fd : Z) (addr : option str) (addrlen : Z) : C Z := name_call (SOCKCTL 10) (SOCKCTL 1) fd addr addrlen.
Definition connect (fd : Z) (addr : option str) (addrlen : Z) : C Z := name_call (SOCKCTL 11) (SOCKCTL 2) fd addr addrlen.
Definition listen (fd backlog : Z) : C Z := cmd fd (SOCKCTL 3) [].

(** The descriptor, and with a non-null [addrlen] the length and the bytes that
    go to a non-null [addr].  The kernel stores the peer's address, its port and
    the length. *)
Definition accept (fd : Z) : C (Z * option (Z * str)) :=
  let* r := nio_ioctl fd (SOCKCTL 4) [AInt 0] in
  if value r <? 0 then let* e := fail (s32 (- value r)) in ret (e, None)
  else
    ret (value r, Some (if nth 2 (words r) 0 =? sizeof_sockaddr_in
                        then (sizeof_sockaddr_in, sin (nth 1 (words r) 0 mod 2 ^ 16) (nth 0 (words r) 0))
                        else (2, le 2 AF_UNIX))).

Definition accept4 (fd flags : Z) : C (Z * option (Z * str)) :=
  let* (n, peer) := accept fd in
  if n <? 0 then ret (n, peer)
  else
    let* e := (if has flags both then _fd_apply_flags n flags else ret 0) in
    if e <? 0 then let* _ := close n in let* e := fail EINVAL in ret (e, peer) else ret (n, peer).

Definition sendto (fd : Z) (buf : str) (dest : option str) (addrlen : Z) : C Z :=
  match dest with
  | None => fail EINVAL
  | Some sa =>
      if negb (_family sa =? AF_INET) then fail EAFNOSUPPORT
      else if addrlen <? sizeof_sockaddr_in then fail EINVAL
      else let* r := nio_ioctl fd (SOCKCTL 8) [AInt (sin_addr sa); AInt (sin_port sa); AStr buf] in or_errno (value r) (value r)
  end.

(** The code, the bytes, and the sender where there is one. *)
Definition recvfrom (fd len : Z) : C (Z * str * option str) :=
  let* r := nio_ioctl fd (SOCKCTL 9) [AInt len] in
  let* e := or_errno (value r) (value r) in
  ret (e, if e <? 0 then [] else bytes r, if e >? 0 then Some (sin (nth 1 (words r) 0 mod 2 ^ 16) (nth 0 (words r) 0)) else None).

Definition send (fd : Z) (buf : str) : C Z := let* r := sys (Write fd buf) in or_errno (value r) (value r).
Definition recv (fd len : Z) : C (Z * str) := let* r := sys (Read fd len) in let* e := or_errno (value r) (value r) in ret (e, bytes r).
Definition shutdown (fd how : Z) : C Z := cmd fd (SOCKCTL 5) [AInt (u32 how)].

(** The code, the whole [sockaddr_in] and the length. *)
Definition _sock_name (fd c : Z) (addr : bool) (addrlen : option Z) : C (Z * option (str * Z)) :=
  match addrlen with
  | None => let* e := fail EINVAL in ret (e, None)
  | Some n =>
      if negb addr then let* e := fail EINVAL in ret (e, None)
      else
        let* r := nio_ioctl fd c [AInt 0; AInt 0; AInt n] in
        if value r <? 0 then let* e := fail (s32 (- value r)) in ret (e, None)
        else
          let m := nth 2 (words r) 0 in
          if m <? sizeof_sockaddr_in then let* e := fail EINVAL in ret (e, None)
          else ret (0, Some (sin (nth 1 (words r) 0 mod 2 ^ 16) (nth 0 (words r) 0) ++ repeat 0 8, m))
  end.
Definition getsockname (fd : Z) (addr : bool) (addrlen : option Z) : C (Z * option (str * Z)) := _sock_name fd (SOCKCTL 14) addr addrlen.
Definition getpeername (fd : Z) (addr : bool) (addrlen : option Z) : C (Z * option (str * Z)) := _sock_name fd (SOCKCTL 15) addr addrlen.

Definition setsockopt (fd level optname : Z) (optval : option Z) (optlen : Z) : C Z :=
  match optval with
  | None => fail EINVAL
  | Some v => if optlen <? 4 then fail EINVAL else cmd fd (SOCKCTL 6) [AInt (u32 level); AInt (u32 optname); AInt (u32 v)]
  end.

(** The code and the value; a null [optlen] leaves [errno]. *)
Definition getsockopt (fd level optname : Z) (optval : bool) (optlen : option Z) : C (Z * option Z) :=
  match optlen with
  | None => ret (-1, None)
  | Some n =>
      if negb optval || (n <? 4) then let* e := fail EINVAL in ret (e, None)
      else
        let* r := nio_ioctl fd (SOCKCTL 7) [AInt (u32 level); AInt (u32 optname)] in
        let* e := or_errno (value r) 0 in ret (e, if e <? 0 then None else Some (s32 (nth 0 (words r) 0)))
  end.

(** ** Messages *)

(** The sum of the lengths, or [None] on overflow. *)
Fixpoint total_len (iov : list str) (total : Z) : option Z :=
  match iov with
  | [] => Some total
  | b :: iov =>
      let l := Z.of_nat (length b) in
      if u32 (total + l) <? total then None else total_len iov (u32 (total + l))
  end.

(** Enough for every walk that moves on by a word at least. *)
Definition walk_fuel (a : area) : nat := S (length (ctl a)).

(** [mem] is the success of malloc; a null array of buffers is an empty one. *)
Definition sendmsg (mem : bool) (fd : Z) (iov : list str) (control : option area) : C Z :=
  if bool_decide (iov = []) then fail EINVAL
  else
    match total_len iov 0 with
    | None => fail EINVAL
    | Some total =>
        if negb (total =? 0) && negb mem then fail ENOMEM
        else
          let* fds := lift (match control with
                            | Some a => if size a =? 0 then Some [] else rights (walk_fuel a) a (__cmsg_first a) []
                            | None => Some []
                            end) in
          let* r := nio_ioctl fd (SOCKCTL 12) [AStr (concat iov); AStr fds] in or_errno (value r) (value r)
    end.

(** What [recvmsg] stored: a part per buffer it reached, the length of the
    control area, the descriptors put in it and the flags, and the family put in
    a name; the length of the name becomes 0. *)
Record received := Received { parts : list str; passed : list Z; controllen : Z; msg_flags : Z; family : option Z }.

(** The payload, spread over buffers of the given sizes. *)
Fixpoint scatter (iov : list Z) (payload : str) : list str :=
  match iov, payload with
  | [], _ => []
  | _, [] => []
  | l :: iov, _ => take (Z.to_nat l) payload :: scatter iov (drop (Z.to_nat l) payload)
  end.

Definition close_all (fds : list Z) : C unit := for_each (fun fd => let* _ := close fd in ret tt) fds.

(** [control] is the length of a non-null control area and [name] that of a
    non-null name. *)
Definition recvmsg (mem : bool) (fd : Z) (iov : list Z) (control name : option Z) : C (Z * option received) :=
  let cap := foldl (fun c l => u32 (c + l)) 0 iov in
  if negb (cap =? 0) && negb mem then let* e := fail ENOMEM in ret (e, None)
  else
    let* r := nio_ioctl fd (SOCKCTL 13) [AInt cap; AInt 16] in
    if value r <? 0 then let* e := fail (s32 (- value r)) in ret (e, None)
    else
      let got := value r in
      let fam := n ← name; if 2 <=? n then Some AF_UNIX else None in
      let data := scatter iov (take (Z.to_nat got) (bytes r)) in
      let fds := words r in
      let n := Z.of_nat (length fds) in
      if n =? 0 then ret (got, Some (Received data [] 0 0 fam))
      else
        let room := default 0 control in
        if (sizeof_cmsghdr <=? room) && (CMSG_SPACE (n * 4) <=? room)
        then ret (got, Some (Received data fds (CMSG_SPACE (n * 4)) 0 fam))
        else let* _ := close_all fds in ret (got, Some (Received data [] 0 MSG_CTRUNC fam)).
End Calls.

(** ** The control messages a program writes *)

(** A message with descriptors or other words as its data, as CMSG_LEN and
    CMSG_DATA lay it out. *)
Record message := Message { level : Z; type_ : Z; data : list Z }.
Definition ints (ds : list Z) : str := concat ((fun d => le 4 (u32 d)) <$> ds).
Definition laid_out (m : message) : str :=
  le 4 (12 + 4 * Z.of_nat (length (data m))) ++ le 4 (u32 (level m)) ++ le 4 (u32 (type_ m)) ++ ints (data m).
Definition control_of (ms : list message) : str := concat (laid_out <$> ms).
Definition is_rights (m : message) : bool := (level m =? SOL_SOCKET) && (type_ m =? SCM_RIGHTS).
Definition rights_of (ms : list message) : list Z := concat (data <$> filter (fun m => is_rights m = true) ms).
Definition is_int (x : Z) : Prop := - 2 ^ 31 <= x < 2 ^ 31.
Definition message_ok (m : message) : Prop := is_int (level m) /\ is_int (type_ m) /\ Forall is_int (data m).

Lemma length_le n x : length (le n x) = n.
Proof. unfold le. by rewrite length_fmap, length_seq. Qed.

Lemma word_le x l : 0 <= x < 2 ^ 32 -> word 0 (le 4 x ++ l) = x.
Proof.
  intros Hx. unfold word. cbn [Nat.mul]. rewrite drop_0. rewrite take_app_le by (rewrite length_le; lia). rewrite take_ge by (rewrite length_le; lia).
  cbn -[Z.pow Z.div Z.modulo]. change (256 ^ 0) with 1. change (256 ^ 1) with 256. change (256 ^ 2) with 65536. change (256 ^ 3) with 16777216.
  Z.to_euclidean_division_equations. lia.
Qed.

Lemma word_skip i x l : word (S i) (le 4 x ++ l) = word i l.
Proof. unfold word. do 2 f_equal. rewrite drop_app_ge by (rewrite length_le; lia). rewrite length_le. f_equal. lia. Qed.

Lemma length_ints ds : length (ints ds) = (4 * length ds)%nat.
Proof. unfold ints. induction ds as [|d ds IH]; [done|]. cbn [fmap list_fmap concat length]. rewrite length_app, length_le, IH. lia. Qed.

Lemma ints_read ds n : Forall is_int ds -> (n <= length ds)%nat -> (fun i => s32 (word i (ints ds))) <$> List.seq 0 n = take n ds.
Proof.
  intros H. revert n. induction H as [|d ds Hd _ IH]; intros [|n] Hn; try done; [cbn in Hn; lia|].
  cbn [take List.seq fmap list_fmap]. unfold ints. cbn [fmap list_fmap concat]. f_equal.
  - rewrite word_le by apply u32_range. rewrite s32_u32. by apply s32_small.
  - rewrite <- seq_shift, <- list_fmap_compose. rewrite <- (IH n) by (cbn in Hn; lia). apply list_fmap_ext. intros j x _. cbn [compose]. by rewrite word_skip.
Qed.

Lemma ints_take n ds : take (4 * n) (ints ds) = ints (take n ds).
Proof.
  revert n. induction ds as [|d ds IH]; intros [|n]; try done. unfold ints in *. cbn [take fmap list_fmap concat].
  rewrite take_app_ge by (rewrite length_le; lia). rewrite length_le. replace (4 * S n - 4)%nat with (4 * n)%nat by lia. by rewrite IH.
Qed.

Lemma length_laid m : length (laid_out m) = (12 + 4 * length (data m))%nat.
Proof. unfold laid_out. rewrite !length_app, !length_le, length_ints. lia. Qed.

Lemma get_at a pre mid post : get (Area a (pre ++ mid ++ post)) (a + Z.of_nat (length pre)) (Z.of_nat (length mid)) = Some mid.
Proof.
  unfold get, size. cbn [at_ ctl]. rewrite !length_app. replace (a + Z.of_nat (length pre) - a) with (Z.of_nat (length pre)) by lia.
  rewrite (proj2 (Z.leb_le _ _)), (proj2 (Z.leb_le _ _)) by lia. cbn [andb]. rewrite !Nat2Z.id. by rewrite drop_app_length, take_app_length.
Qed.

Lemma align_of n : 0 <= n < 2 ^ 32 - 3 -> n mod 4 = 0 -> CMSG_ALIGN n = n.
Proof.
  intros Hn Hm. unfold CMSG_ALIGN. rewrite (u32_small (n + 3)) by lia. change (Z.lnot 3) with (Z.lnot (2 ^ 2 - 1)).
  rewrite land_u32_mask by lia. change (2 ^ 2) with 4. Z.to_euclidean_division_equations. lia.
Qed.

(** One message read where it lies. *)
Lemma rights_step fuel a pre m post fds :
  message_ok m -> 0 < a -> a + Z.of_nat (length (pre ++ laid_out m ++ post)) + 12 < 2 ^ 32 -> (length fds < 16)%nat ->
  let area := Area a (pre ++ laid_out m ++ post) in
  let c := a + Z.of_nat (length pre) in
  rights (S fuel) area c fds =
  rights fuel area (if bool_decide (Z.of_nat (length post) < 12) then 0 else c + Z.of_nat (length (laid_out m)))
         (if is_rights m then take 16 (fds ++ data m) else fds).
Proof.
  intros (Hl & Ht & Hd) Ha Hs Hf area c. rewrite !length_app, length_laid in Hs.
  cbn [rights]. rewrite (proj2 (Z.eqb_neq c 0)) by (unfold c; lia). rewrite (proj2 (Nat.ltb_lt _ _)) by lia. cbn [negb orb].
  set (h := le 4 (12 + 4 * Z.of_nat (length (data m))) ++ le 4 (u32 (level m)) ++ le 4 (u32 (type_ m))).
  assert (Hh : length h = 12%nat) by (unfold h; rewrite !length_app, !length_le; lia).
  assert (Hm : laid_out m = h ++ ints (data m)) by (unfold laid_out, h; by rewrite <- !app_assoc).
  assert (Eg : get area c sizeof_cmsghdr = Some h).
  { unfold area, c, sizeof_cmsghdr. rewrite Hm, <- app_assoc. change 12 with (Z.of_nat 12). rewrite <- Hh. apply get_at. }
  rewrite Eg. cbn [mbind option_bind].
  assert (E0 : word 0 h = 12 + 4 * Z.of_nat (length (data m))) by (unfold h; apply word_le; lia).
  assert (E1 : s32 (word 1 h) = level m) by (unfold h; rewrite word_skip, word_le by apply u32_range; rewrite s32_u32; by apply s32_small).
  assert (E2 : s32 (word 2 h) = type_ m).
  { unfold h. rewrite !word_skip. rewrite <- (app_nil_r (le 4 (u32 (type_ m)))). rewrite word_le by apply u32_range. rewrite s32_u32. by apply s32_small. }
  rewrite E0, E1, E2. fold (is_rights m).
  assert (En : __cmsg_next area c (12 + 4 * Z.of_nat (length (data m))) =
               (if bool_decide (Z.of_nat (length post) < 12) then 0 else c + Z.of_nat (length (laid_out m)))).
  { unfold __cmsg_next, size, area, c, sizeof_cmsghdr. cbn [at_ ctl]. rewrite !length_app, length_laid.
    rewrite align_of; [|lia|Z.to_euclidean_division_equations; lia]. rewrite !u32_small by (rewrite ?u32_small; lia).
    case_bool_decide; destruct (Z.gtb_spec (a + Z.of_nat (length pre) + (12 + 4 * Z.of_nat (length (data m))) + 12) (a + Z.of_nat (length pre + (12 + 4 * length (data m) + length post)))); lia. }
  rewrite En. destruct (is_rights m); [|reflexivity].
  change (CMSG_ALIGN sizeof_cmsghdr) with 12. rewrite (proj2 (Z.geb_le _ _)) by lia.
  replace (12 + 4 * Z.of_nat (length (data m)) - 12) with (Z.of_nat (length (data m)) * 4) by lia. rewrite Z.div_mul by lia.
  set (cnt := Z.min (Z.of_nat (length (data m))) (16 - Z.of_nat (length fds))).
  assert (Ed : get area (c + 12) (4 * cnt) = Some (ints (take (Z.to_nat cnt) (data m)))).
  { rewrite <- ints_take. rewrite <- (take_drop (4 * Z.to_nat cnt) (ints (data m))) in Hm.
    replace (4 * cnt) with (Z.of_nat (length (take (4 * Z.to_nat cnt) (ints (data m))))) by (rewrite length_take, length_ints; lia).
    replace (c + 12) with (a + Z.of_nat (length (pre ++ h))) by (rewrite length_app; unfold c; lia).
    unfold area. rewrite Hm. rewrite <- !app_assoc. rewrite (app_assoc pre h). apply get_at. }
  rewrite Ed. cbn [mbind option_bind]. rewrite ints_read; [|by apply Forall_take|rewrite length_take; lia].
  do 2 f_equal. rewrite take_take. rewrite take_app_ge by lia. f_equal. unfold cnt.
  destruct (decide (Z.of_nat (length (data m)) <= 16 - Z.of_nat (length fds))); [rewrite !take_ge by lia; done|f_equal; lia].
Qed.

Lemma length_control_pos m ms : (12 <= length (control_of (m :: ms)))%nat.
Proof. unfold control_of. cbn [fmap list_fmap concat]. rewrite length_app, length_laid. lia. Qed.

Lemma control_short ms : bool_decide (Z.of_nat (length (control_of ms)) < 12) = bool_decide (ms = []).
Proof.
  destruct ms as [|m ms]; [done|]. pose proof (length_control_pos m ms). rewrite bool_decide_eq_false_2 by lia. by rewrite bool_decide_eq_false_2.
Qed.

Lemma take_16 (x y z : list Z) : take 16 (take 16 (x ++ y) ++ z) = take 16 (x ++ y ++ z).
Proof.
  rewrite app_assoc. destruct (decide (length (x ++ y) <= 16)%nat).
  - by rewrite (take_ge (x ++ y)) by lia.
  - rewrite (take_app_le (take 16 (x ++ y))) by (rewrite length_take; lia). rewrite (take_app_le (x ++ y)) by lia. by rewrite take_take.
Qed.

Lemma rights_walk ms : forall fuel a pre fds,
  Forall message_ok ms -> 0 < a -> a + Z.of_nat (length (pre ++ control_of ms)) + 12 < 2 ^ 32 -> (length fds <= 16)%nat -> (length ms < fuel)%nat ->
  rights fuel (Area a (pre ++ control_of ms)) (if bool_decide (ms = []) then 0 else a + Z.of_nat (length pre)) fds = Some (take 16 (fds ++ rights_of ms)).
Proof.
  induction ms as [|m ms IH]; intros fuel a pre fds Hok Ha Hs Hf Hn; (destruct fuel as [|fuel]; [cbn in Hn; lia|]).
  { rewrite bool_decide_eq_true_2 by done. change (rights_of []) with (@nil Z). rewrite (app_nil_r fds), (take_ge fds) by lia. reflexivity. }
  apply Forall_cons in Hok. destruct Hok as [Hm Hok]. rewrite bool_decide_eq_false_2 by done.
  destruct (decide (length fds = 16%nat)) as [E16|].
  { cbn [rights]. rewrite (proj2 (Nat.ltb_ge _ _)) by lia. rewrite orb_true_r. by rewrite take_app_le, take_ge by lia. }
  change (control_of (m :: ms)) with (laid_out m ++ control_of ms) in *.
  rewrite (rights_step fuel a pre m (control_of ms) fds Hm Ha Hs) by lia. rewrite control_short.
  rewrite (app_assoc pre). rewrite (app_assoc pre) in Hs.
  replace (a + Z.of_nat (length pre) + Z.of_nat (length (laid_out m))) with (a + Z.of_nat (length (pre ++ laid_out m))) by (rewrite length_app; lia).
  rewrite (IH fuel a (pre ++ laid_out m)); [|done|done|done|destruct (is_rights m); rewrite ?length_take; lia|cbn in Hn; lia].
  f_equal. unfold rights_of. rewrite filter_cons. destruct (is_rights m) eqn:Er.
  - rewrite decide_True by done. cbn [fmap list_fmap concat]. apply take_16.
  - by rewrite decide_False by congruence.
Qed.

(** The walk over the control messages of a program finds the descriptors of the
    SCM_RIGHTS messages, in order, up to sixteen. *)
Theorem rights_roundtrip a ms :
  ms <> [] -> Forall message_ok ms -> 0 < a -> a + Z.of_nat (length (control_of ms)) + 12 < 2 ^ 32 ->
  let area := Area a (control_of ms) in
  rights (walk_fuel area) area (__cmsg_first area) [] = Some (take 16 (rights_of ms)).
Proof.
  intros Hne Hok Ha Hs area. pose proof (rights_walk ms (walk_fuel area) a [] [] Hok Ha Hs ltac:(cbn; lia)) as H.
  rewrite bool_decide_eq_false_2 in H by done. cbn [app length] in H. rewrite Z.add_0_r in H. unfold __cmsg_first, size, area, sizeof_cmsghdr in *. cbn [ctl at_] in *.
  destruct ms as [|m ms]; [done|]. pose proof (length_control_pos m ms). rewrite (proj2 (Z.ltb_ge _ _)) by lia. apply H.
  unfold walk_fuel. cbn [ctl]. apply le_n_S. clear. induction (m :: ms) as [|x l IH]; [cbn; lia|]. unfold control_of in *. cbn [fmap list_fmap concat length]. rewrite length_app, length_laid. lia.
Qed.

Lemma rights_roundtrip_witness :
  let ms := [Message 1 1 [3; 4]; Message 0 7 [9]; Message 1 1 [5]] in
  let area := Area 4096 (control_of ms) in
  rights (walk_fuel area) area (__cmsg_first area) [] = Some [3; 4; 5].
Proof.
  apply (rights_roundtrip 4096 [Message 1 1 [3; 4]; Message 0 7 [9]; Message 1 1 [5]]); [done| |done|vm_compute; reflexivity].
  unfold message_ok, is_int. rewrite !Forall_cons. cbn [level type_ data]. rewrite !Forall_cons, !Forall_nil. lia.
Defined.

(** A header of length 0 is never left: [sendmsg] does not return. *)
Theorem zero_cmsg_spins fuel a : 0 < a -> a + 24 < 2 ^ 32 -> rights fuel (Area a (repeat 0 12)) a [] = None.
Proof.
  intros Ha Hb. induction fuel as [|fuel IH]; [done|]. cbn [rights length]. rewrite (proj2 (Z.eqb_neq a 0)) by lia.
  assert (E : get (Area a (repeat 0 12)) a sizeof_cmsghdr = Some (repeat 0 12)).
  { pose proof (get_at a [] (repeat 0 12) []) as H. cbn [app length] in H. rewrite Z.add_0_r, app_nil_r in H. exact H. }
  cbn [negb orb Nat.ltb Nat.leb]. rewrite E. cbn [mbind option_bind].
  assert (En : __cmsg_next (Area a (repeat 0 12)) a 0 = a).
  { unfold __cmsg_next, size, sizeof_cmsghdr. cbn [at_ ctl]. change (CMSG_ALIGN 0) with 0. change (Z.of_nat (length (repeat 0 12))) with 12. rewrite Z.add_0_r, (u32_small a) by lia.
    by rewrite Z.gtb_ltb, Z.ltb_irrefl. }
  change (word 0 (repeat 0 12)) with 0. change ((s32 (word 1 (repeat 0 12)) =? SOL_SOCKET) && (s32 (word 2 (repeat 0 12)) =? SCM_RIGHTS)) with false. cbn iota. cbn [mbind option_bind]. rewrite En. apply IH.
Qed.

(** ** Receiving *)

(** The buffers hold the payload, as far as they reach. *)
Theorem scatter_concat iov payload : Forall (fun l => 0 <= l) iov -> concat (scatter iov payload) = take (Z.to_nat (foldr Z.add 0 iov)) payload.
Proof.
  intros H. revert payload. induction H as [|l iov Hl Hr IH]; intros payload; [done|].
  assert (0 <= foldr Z.add 0 iov) by (clear -Hr; induction Hr; cbn in *; lia).
  destruct payload as [|b p]; [cbn; by rewrite take_nil|]. cbn [scatter concat foldr]. rewrite IH, Z2Nat.inj_add by lia.
  rewrite <- (take_drop (Z.to_nat l) (b :: p)) at 3. rewrite take_app. rewrite (take_take (b :: p)). rewrite Nat.min_r by lia. f_equal.
  destruct (decide (Z.to_nat l <= length (b :: p))%nat).
  - rewrite length_take. f_equal. lia.
  - by rewrite !drop_ge, !take_nil by lia.
Qed.

(** What sockets do to the table of descriptors: a new one is not in use, those
    received are new, and setting flags changes nothing. *)
Class Sockets (K : Type) `{KR : Kernel K} `{TA : !Table K} := {
  flags_law fd c x k : c <> F_DUPFD -> opened (snd (trap (Ioctl fd (FDCTL 3) [AInt c; AInt x]) k)) = opened k;
  make_law fd c args k : c = NETCTL_SOCKET \/ c = SOCKCTL 4 -> let '(r, k') := trap (Ioctl fd c args) k in
    if value r <? 0 then opened k' = opened k else value r ∉ opened k /\ opened k' = {[value r]} ∪ opened k;
  recv_law fd args k : let '(r, k') := trap (Ioctl fd (SOCKCTL 13) args) k in
    if value r <? 0 then opened k' = opened k else (forall x, x ∈ words r -> x ∉ opened k) /\ opened k' = list_to_set (words r) ∪ opened k
}.

Section Leaks.
Context {K : Type} `{KR : Kernel K} `{TA : !Table K} `{SO : !Sockets K}.
Implicit Types s : st K.

Lemma balanced_set_fd fd c x : c <> F_DUPFD -> balanced (set_fd fd c x).
Proof. intros H. apply balanced_bind; [|intros; apply balanced_map]. apply balanced_sys. intros k. by apply flags_law. Qed.

Lemma balanced_flags fd f : balanced (_fd_apply_flags fd f).
Proof.
  unfold _fd_apply_flags. apply balanced_bind; [apply balanced_if; [by apply balanced_set_fd|apply balanced_ret]|]. intros a. apply balanced_if; [apply balanced_ret|].
  apply balanced_bind; [apply balanced_if; [by apply balanced_set_fd|apply balanced_ret]|]. intros b. apply balanced_ret.
Qed.

Lemma wp_close fd s (Q : Z -> st K -> Prop) : (forall r s', opened (kern s') = opened (kern s) ∖ {[fd]} -> Q r s') -> wp (close fd) s Q.
Proof.
  intros H. unfold close, nio_close. apply wp_bind. unfold wp at 1, sys. pose proof (close_law fd (kern s)). destruct (trap _ _) as [r k]. apply wp_ret. by apply H.
Qed.

Lemma close_all_table fds : forall s, wp (close_all fds) s (fun _ s' => opened (kern s') = opened (kern s) ∖ list_to_set fds).
Proof.
  induction fds as [|fd fds IH]; intros s; cbn; [set_solver|]. apply wp_bind, wp_bind, wp_close. intros r s1 E1. apply wp_ret. eapply wp_mono; [apply IH|]. intros [] s2 E2. cbn in *. rewrite E2, E1. set_solver.
Qed.

(** C33: No descriptor that arrives is lost: the open descriptors grow by exactly
    those handed to the caller, and none are handed over by a failed call or with
    a message marked as truncated. *)
Theorem recvmsg_no_leak mem fd iov control name s :
  wp (recvmsg mem fd iov control name) s (fun '(r, m) s' =>
    match m with
    | None => r = -1 /\ opened (kern s') = opened (kern s)
    | Some m => opened (kern s') = list_to_set (passed m) ∪ opened (kern s) /\ (forall x, x ∈ passed m -> x ∉ opened (kern s)) /\
                (msg_flags m = MSG_CTRUNC -> passed m = [])
    end).
Proof.
  unfold recvmsg. cbv zeta. destruct (negb _ && negb mem); [done|]. apply wp_bind. unfold wp at 1, nio_ioctl, sys.
  match goal with |- context [trap (Ioctl fd (SOCKCTL 13) ?a) (kern s)] => pose proof (recv_law fd a (kern s)) as H end.
  destruct (trap _ _) as [r k]. destruct (value r <? 0); [done|]. destruct H as [Hn Ho].
  destruct (Z.eqb_spec (Z.of_nat (length (words r))) 0) as [E0|E0].
  { apply wp_ret. cbn. assert (words r = []) as E by (apply nil_length_inv; lia). rewrite E in *. split; [done|]. split; [set_solver|done]. }
  destruct (_ && _); [by apply wp_ret|]. apply wp_bind. eapply wp_mono; [apply close_all_table|]. intros [] s2 E2. apply wp_ret. cbn in *.
  rewrite E2, Ho. split; [|set_solver]. apply set_eq. intros x. specialize (Hn x). set_solver.
Qed.

(** A socket whose flags cannot be set is closed again: a failed [accept4] leaves
    the table as it was and a successful one adds the new descriptor. *)
Theorem accept4_table fd flags s :
  wp (accept4 fd flags) s (fun '(r, _) s' => if r <? 0 then opened (kern s') = opened (kern s) else r ∉ opened (kern s) /\ opened (kern s') = {[r]} ∪ opened (kern s)).
Proof.
  unfold accept4, accept. apply wp_bind, wp_bind. unfold wp at 1, nio_ioctl, sys. pose proof (make_law fd (SOCKCTL 4) [AInt 0] (kern s) ltac:(by right)) as H.
  destruct (trap _ _) as [r k]. destruct (Z.ltb_spec (value r) 0) as [Hr|Hr]; [done|]. destruct H as [Hn Ho]. apply wp_ret. rewrite (proj2 (Z.ltb_ge _ _)) by lia.
  apply wp_bind. eapply wp_mono; [apply (balanced_if (has flags both) _ _ (balanced_flags (value r) flags) (balanced_ret 0))|]. intros e s1 E1. cbn in E1.
  destruct (e <? 0); [|apply wp_ret; rewrite (proj2 (Z.ltb_ge _ _)) by lia; by rewrite E1].
  apply wp_bind, wp_close. intros _ s2 E2. cbn. rewrite E2, E1, Ho. set_solver.
Qed.
End Leaks.

(** ** A kernel with a table, which passes one descriptor with every message *)

Definition tab : Type := gset Z.
Definition unused (k : tab) : Z := foldr Z.max 0 (elements k) + 1.

Lemma unused_new k : unused k ∉ k /\ 0 <= unused k.
Proof.
  unfold unused. split.
  - rewrite <- elem_of_elements. intros H. assert (M : forall x l, x ∈ l -> x <= foldr Z.max 0 l) by (intros x l; induction 1; cbn; lia). apply M in H. lia.
  - induction (elements k); cbn; lia.
Qed.

#[global] Instance tab_kernel : Kernel tab := {|
  trap c k :=
    match c with
    | Open _ _ => (Reply (unused k) [] [], {[unused k]} ∪ k)
    | Close fd => (Reply 0 [] [], k ∖ {[fd]})
    | Ioctl _ c _ =>
        if c =? SOCKCTL 13 then (Reply 2 [unused k] [104; 105], {[unused k]} ∪ k)
        else if (c =? NETCTL_SOCKET) || (c =? SOCKCTL 4) then (Reply (unused k) [] [], {[unused k]} ∪ k)
        else (Reply 0 [] [], k)
    | _ => (Reply 0 [] [], k)
    end
|}.

Lemma tab_fresh (k : tab) : if unused k <? 0 then {[unused k]} ∪ k = k else unused k ∉ k /\ ({[unused k]} ∪ k : tab) = {[unused k]} ∪ k.
Proof. pose proof (unused_new k) as [H1 H2]. by rewrite (proj2 (Z.ltb_ge _ _)). Qed.

#[global] Instance tab_table : Table tab.
Proof.
  refine {| opened := fun k => k |}; try done; [intros p f k; apply tab_fresh|]. intros fd c a k Hc. cbn.
  destruct (Z.eqb_spec c (SOCKCTL 13)) as [->|]; [done|]. destruct (Z.eqb_spec c NETCTL_SOCKET) as [->|]; [done|]. by destruct (Z.eqb_spec c (SOCKCTL 4)) as [->|].
Defined.

#[global] Instance tab_sockets : Sockets tab.
Proof.
  split.
  - done.
  - intros fd c args k [-> | ->]; apply tab_fresh.
  - intros fd args k. cbn. pose proof (unused_new k) as [H1 H2]. split; set_solver.
Defined.

Lemma recvmsg_no_leak_witness :
  exists s', recvmsg true 3 [5] None None (S_ ({[3]} : tab) 0 0 (-1)) = Some ((2, Some (Received [[104; 105]] [] 0 MSG_CTRUNC None)), s') /\ opened (kern s') = {[3]}.
Proof.
  pose proof (recvmsg_no_leak true 3 [5] None None (S_ ({[3]} : tab) 0 0 (-1))) as H. unfold wp in H.
  assert (F : fst <$> recvmsg true 3 [5] None None (S_ ({[3]} : tab) 0 0 (-1)) = Some (2, Some (Received [[104; 105]] [] 0 MSG_CTRUNC None))) by (vm_compute; reflexivity).
  destruct (recvmsg true 3 [5] None None (S_ ({[3]} : tab) 0 0 (-1))) as [[x s']|]; [|discriminate F].
  cbn in F. injection F as ->. exists s'. split; [reflexivity|]. destruct H as [H _]. rewrite H. set_solver.
Defined.
End Socket.
