(* ===== verification/Spawn.v ===== *)
(** * Spawn: starting a process, src/spawn.c

    The file actions and attributes, what the child does before it becomes the
    new program, and the report of its failure to the parent through a pipe that
    a successful exec closes.  Both processes make the system calls of [Sys]; the
    machine below them takes the number of the process with the call.  The
    parent's read waits for the child, which runs to its exec or its exit before
    the read is answered.  The handlers of [fork] are those of [Handlers]; none is
    registered here. *)

From Stdlib Require Import ZArith Lia Bool String Ascii.
From stdpp Require Import base list numbers.
From S2P Require Import Prelude Monad Dlfcn Time Sys Signal Devices Socket.

Module Spawn.
Import Sys.

Definition ENOMEM : Z := 12.
Definition EAGAIN : Z := 11.
Definition POSIX_SPAWN_RESETIDS : Z := 1.
Definition POSIX_SPAWN_SETPGROUP : Z := 2.
Definition POSIX_SPAWN_SETSIGDEF : Z := 4.
Definition POSIX_SPAWN_SETSIGMASK : Z := 8.
Definition POSIX_SPAWN_SETSCHEDPARAM : Z := 16.
Definition POSIX_SPAWN_SETSCHEDULER : Z := 32.
Definition SIG_SETMASK : Z := 2.
Definition SIG_DFL : Z := 0.

(** ** File actions; [None] is a null pointer, and the code comes with the object *)

Inductive posix_spawn_file_action := FA_OPEN (fd : Z) (path : str) (oflag mode : Z) | FA_CLOSE (fd : Z) | FA_DUP2 (fd newfd : Z).
Record posix_spawn_file_actions := Fas { acts : list posix_spawn_file_action; cap : Z }.

Definition posix_spawn_file_actions_init (fa : option posix_spawn_file_actions) : Z * option posix_spawn_file_actions :=
  match fa with None => (EINVAL, None) | Some _ => (0, Some (Fas [] 0)) end.
Definition posix_spawn_file_actions_destroy (fa : option posix_spawn_file_actions) : Z * option posix_spawn_file_actions :=
  match fa with None => (EINVAL, None) | Some _ => (0, Some (Fas [] 0)) end.

(** [mem] is the success of realloc. *)
Definition fa_push (mem : bool) (a : posix_spawn_file_action) (fa : posix_spawn_file_actions) : option posix_spawn_file_actions :=
  if Z.of_nat (length (acts fa)) =? cap fa
  then if mem then Some (Fas (acts fa ++ [a]) (if negb (cap fa =? 0) then cap fa * 2 else 4)) else None
  else Some (Fas (acts fa ++ [a]) (cap fa)).

(** The common end: a refused push is ENOMEM. *)
Definition pushed (fa : posix_spawn_file_actions) (r : option posix_spawn_file_actions) : Z * option posix_spawn_file_actions :=
  match r with Some fa' => (0, Some fa') | None => (ENOMEM, Some fa) end.

(** [copy] is the success of the copy's malloc. *)
Definition posix_spawn_file_actions_addopen (copy mem : bool) (fa : option posix_spawn_file_actions) (fd : Z) (path : option str) (oflag mode : Z) : Z * option posix_spawn_file_actions :=
  match fa, path with
  | Some f, Some p =>
      if fd <? 0 then (EINVAL, fa) else if negb copy then (ENOMEM, fa) else pushed f (fa_push mem (FA_OPEN fd p oflag mode) f)
  | _, _ => (EINVAL, fa)
  end.
Definition posix_spawn_file_actions_addclose (mem : bool) (fa : option posix_spawn_file_actions) (fd : Z) : Z * option posix_spawn_file_actions :=
  match fa with
  | Some f => if fd <? 0 then (EINVAL, fa) else pushed f (fa_push mem (FA_CLOSE fd) f)
  | None => (EINVAL, fa)
  end.
Definition posix_spawn_file_actions_adddup2 (mem : bool) (fa : option posix_spawn_file_actions) (fd newfd : Z) : Z * option posix_spawn_file_actions :=
  match fa with
  | Some f => if (fd <? 0) || (newfd <? 0) then (EINVAL, fa) else pushed f (fa_push mem (FA_DUP2 fd newfd) f)
  | None => (EINVAL, fa)
  end.

(** ** Attributes *)

Record posix_spawnattr := Attr { flags : Z; pgroup : Z; sigdefault : Z; sigmask : Z; sched_policy : Z; sched_param : Z }.

Definition posix_spawnattr_init (a : option posix_spawnattr) : Z * option posix_spawnattr :=
  match a with None => (EINVAL, None) | Some _ => (0, Some (Attr 0 0 0 0 Devices.SCHED_OTHER 0)) end.
Definition posix_spawnattr_destroy (a : option posix_spawnattr) : Z * option posix_spawnattr :=
  match a with None => (EINVAL, None) | Some _ => (0, a) end.

(** The code and the value, where there is somewhere to put it. *)
Definition getter (f : posix_spawnattr -> Z) (a : option posix_spawnattr) (out : bool) : Z * option Z :=
  match a with Some x => if out then (0, Some (f x)) else (EINVAL, None) | None => (EINVAL, None) end.
Definition posix_spawnattr_getflags := getter flags.
Definition posix_spawnattr_getpgroup := getter pgroup.
Definition posix_spawnattr_getsigdefault := getter sigdefault.
Definition posix_spawnattr_getsigmask := getter sigmask.
Definition posix_spawnattr_getschedparam := getter sched_param.
Definition posix_spawnattr_getschedpolicy := getter sched_policy.

(** The code and the object; a value behind a pointer may be null. *)
Definition setter (f : Z -> posix_spawnattr -> posix_spawnattr) (a : option posix_spawnattr) (v : option Z) : Z * option posix_spawnattr :=
  match a, v with Some x, Some v => (0, Some (f v x)) | _, _ => (EINVAL, a) end.
Definition posix_spawnattr_setflags (a : option posix_spawnattr) (v : Z) :=
  setter (fun v x => Attr v (pgroup x) (sigdefault x) (sigmask x) (sched_policy x) (sched_param x)) a (Some v).
Definition posix_spawnattr_setpgroup (a : option posix_spawnattr) (v : Z) :=
  setter (fun v x => Attr (flags x) v (sigdefault x) (sigmask x) (sched_policy x) (sched_param x)) a (Some v).
Definition posix_spawnattr_setsigdefault := setter (fun v x => Attr (flags x) (pgroup x) v (sigmask x) (sched_policy x) (sched_param x)).
Definition posix_spawnattr_setsigmask := setter (fun v x => Attr (flags x) (pgroup x) (sigdefault x) v (sched_policy x) (sched_param x)).
Definition posix_spawnattr_setschedparam := setter (fun v x => Attr (flags x) (pgroup x) (sigdefault x) (sigmask x) (sched_policy x) v).
Definition posix_spawnattr_setschedpolicy (a : option posix_spawnattr) (v : Z) :=
  setter (fun v x => Attr (flags x) (pgroup x) (sigdefault x) (sigmask x) v (sched_param x)) a (Some v).

(** ** The child *)

Section Child.
Context {K : Type} `{KR : Kernel K}.
(** The end of the process with a status. *)
Context (leave : Z -> K -> K).
(** What [signal] finds in its uninitialised structure. *)
Context (junk : Signal.sigaction_t).
Abbreviation C := (St (st K)).

Definition _exit (status : Z) : C unit := modify (fun s => S_ (leave status (kern s)) (errno s) (pid_cache s) (ctl_fd s)).

(** Where the process may end: [inl] goes on. *)
Definition exiting (A : Type) : Type := C (A + unit).
Definition then_ {A B} (c : exiting A) (k : A -> exiting B) : exiting B :=
  let* r := c in match r with inl a => k a | inr _ => ret (inr tt) end.
Definition go : exiting unit := ret (inl tt).
Definition plain {A} (c : C A) : exiting A := let* a := c in ret (inl a).

Definition child_fail (errfd err : Z) : exiting unit :=
  let* _ := write errfd (Socket.le 4 (u32 (if err <=? 0 then EIO else err))) in
  let* _ := _exit 127 in ret (inr tt).
(** [child_fail (errfd, errno)]. *)
Definition fail_errno (errfd : Z) : exiting unit := let* e := gets errno in child_fail errfd e.

Definition act (errfd : Z) (a : posix_spawn_file_action) : exiting unit :=
  match a with
  | FA_OPEN to path oflag _ =>
      then_ (plain (open path oflag)) (fun fd =>
      if fd <? 0 then fail_errno errfd
      else if fd =? to then go
      else then_ (plain (dup2 fd to)) (fun r => if r <? 0 then fail_errno errfd else then_ (plain (close fd)) (fun _ => go)))
  | FA_CLOSE fd => then_ (plain (close fd)) (fun _ => go)
  | FA_DUP2 fd newfd => then_ (plain (dup2 fd newfd)) (fun r => if r <? 0 then fail_errno errfd else go)
  end.

Fixpoint act_all (errfd : Z) (l : list posix_spawn_file_action) : exiting unit :=
  match l with [] => go | a :: l => then_ (act errfd a) (fun _ => act_all errfd l) end.

Fixpoint reset_all (bits : list nat) (set : Z) : C unit :=
  match bits with
  | [] => ret tt
  | b :: bits =>
      let sig := Z.shiftl 1 (Z.of_nat b) in
      let* _ := (if has set sig then Signal.signal junk sig SIG_DFL else ret 0) in reset_all bits set
  end.

(** After a failed scheduling call. *)
Definition sched_fail (errfd : Z) : exiting unit :=
  let* e := gets errno in child_fail errfd (if negb (e =? 0) then e else EINVAL).

Definition apply_attr (errfd : Z) (a : posix_spawnattr) : exiting unit :=
  let* _ := (if has (flags a) POSIX_SPAWN_SETPGROUP then setpgid 0 (pgroup a) else ret 0) in
  let* _ := (if has (flags a) POSIX_SPAWN_SETSIGMASK then let* _ := Signal.sigprocmask SIG_SETMASK (Some (sigmask a)) in ret 0 else ret 0) in
  let* _ := (if has (flags a) POSIX_SPAWN_SETSIGDEF then reset_all (List.seq 0 13) (sigdefault a) else ret tt) in
  let* _ := (if has (flags a) POSIX_SPAWN_RESETIDS then
               let* g := getgid in let* _ := setgid g in let* u := getuid in let* _ := setuid u in ret tt
             else ret tt) in
  if has (flags a) POSIX_SPAWN_SETSCHEDULER then
    let* r := Devices.sched_setscheduler 0 (sched_policy a) (Some (sched_param a)) in
    if negb (r =? 0) then sched_fail errfd else go
  else if has (flags a) POSIX_SPAWN_SETSCHEDPARAM then
    let* r := Devices.sched_setparam 0 (Some (sched_param a)) in
    if negb (r =? 0) then sched_fail errfd else go
  else go.

Definition child_setup (fa : option posix_spawn_file_actions) (attr : option posix_spawnattr) (errfd : Z) : exiting unit :=
  then_ (match fa with Some f => act_all errfd (acts f) | None => go end) (fun _ =>
  match attr with None => go | Some a => apply_attr errfd a end).

(** The child from [fork] on; whether the new program runs. *)
Definition child_main (rd wr : Z) (path : str) (search_path : bool) (fa : option posix_spawn_file_actions) (attr : option posix_spawnattr)
  (argv : list str) (envp : option (list str)) (environ : list str) (PATH : option str) : C bool :=
  let* _ := close rd in
  let* r := child_setup fa attr wr in
  match r with
  | inr _ => ret false
  | inl _ =>
      let* x := (if search_path then execvp (Some path) argv environ PATH else execve path argv (default environ envp)) in
      match x with
      | inl _ => ret true
      | inr _ =>
          let* e := gets errno in
          let* _ := write wr (Socket.le 4 (u32 (if negb (e =? 0) then e else ENOENT))) in
          let* _ := _exit 127 in ret false
      end
  end.
End Child.

(** ** The parent *)

(** System calls of several processes: the number of the caller, the call; a fork
    gives the number of the child or an error. *)
Class Machine (P : Type) := {
  ptrap : Z -> call -> P -> reply * P;
  pfork : Z -> P -> Z * P;
  pexit : Z -> Z -> P -> P
}.

Section Parent.
Context {P : Type} `{MA : Machine P}.
Context (junk : Signal.sigaction_t).
Abbreviation C := (St (st P)).

Definition as_ (p : Z) : Kernel P := {| trap := ptrap p |}.
Definition by_ {A} (p : Z) (c : forall KR : Kernel P, C A) : C A := c (as_ p).

Definition fork (me : Z) : C Z := fun s => let '(r, k) := pfork me (kern s) in Some (r, S_ k (errno s) (pid_cache s) (ctl_fd s)).

(** The child has copies of the variables of the library. *)
Definition in_child {A} (c : C A) : C A := fun s =>
  match c s with Some (a, s') => Some (a, S_ (kern s') (errno s) (pid_cache s) (ctl_fd s)) | None => None end.

(** The parent after a fork that made the child, and the child while it waits. *)
Definition parent_main (me child rd wr : Z) (path : str) (search_path : bool) (fa : option posix_spawn_file_actions) (attr : option posix_spawnattr)
  (argv : list str) (envp : option (list str)) (environ : list str) (PATH : option str) : C (Z * option Z) :=
  let* _ := by_ me (fun _ => close wr) in
  let* _ := in_child (by_ child (fun _ => child_main (pexit child) junk rd wr path search_path fa attr argv envp environ PATH)) in
  let* (n, bs) := by_ me (fun _ => read rd 4) in
  let* _ := by_ me (fun _ => close rd) in
  if n >? 0 then let* _ := by_ me (fun _ => waitpid child 0) in ret (s32 (word 0 bs), None)
  else ret (0, Some child).

(** The error number, and the process number that is stored. *)
Definition spawn_common (me : Z) (path : option str) (search_path : bool) (fa : option posix_spawn_file_actions) (attr : option posix_spawnattr)
  (argv : list str) (envp : option (list str)) (environ : list str) (PATH : option str) : C (Z * option Z) :=
  match default [] path with
  | [] => ret (ENOENT, None)
  | p =>
      let* (r, (rd, wr)) := by_ me (fun _ => pipe) in
      if negb (r =? 0) then let* e := gets errno in ret (if negb (e =? 0) then e else EIO, None)
      else
        let* _ := by_ me (fun _ => fcntl wr F_SETFD FD_CLOEXEC) in
        let* child := fork me in
        if child <? 0 then
          let* e := gets errno in
          let* _ := by_ me (fun _ => close rd) in
          let* _ := by_ me (fun _ => close wr) in
          ret (if negb (e =? 0) then e else EAGAIN, None)
        else parent_main me child rd wr p search_path fa attr argv envp environ PATH
  end.

Definition posix_spawn (me : Z) (path : option str) (fa : option posix_spawn_file_actions) (attr : option posix_spawnattr) (argv : list str) (envp : option (list str)) (environ : list str) (PATH : option str) : C (Z * option Z) :=
  spawn_common me path false fa attr argv envp environ PATH.
Definition posix_spawnp (me : Z) (file : option str) (fa : option posix_spawn_file_actions) (attr : option posix_spawnattr) (argv : list str) (envp : option (list str)) (environ : list str) (PATH : option str) : C (Z * option Z) :=
  spawn_common me file true fa attr argv envp environ PATH.
End Parent.

(** ** The contract *)

(** A call that leaves a descriptor alone and makes no copy of it. *)
Definition spares (b : Z) (c : call) : bool :=
  match c with
  | Close fd | Write fd _ => negb (fd =? b)
  | Ioctl fd c args =>
      negb (fd =? b) && match args with AInt n :: _ => negb ((c =? FDCTL 2) && (n =? b)) | _ => true end
  | Exec _ _ _ => false
  | _ => true
  end.

(** The pipe and the child: whether the parent and the child have the write end
    open, whether exec closes it, what is in the pipe, the program the child has
    become, with its arguments and environment, and whether it has ended and not
    been waited for. *)
Abbreviation program := (str * list str * list str)%type.
Record ends := Ends { parent_w : bool; child_w : bool; cloexec : bool; piped : str; image : option program; zombie : bool }.

(** What the kernel promises of a pipe with the read end [rd] and the write end
    [wr], and of a child made by a fork of the process [me] that has it.  A read
    of an empty pipe that some process can still write to waits, and nothing is
    promised of it; it is the end of the file only when no write end is open.
    F_SETFD fails only on a descriptor that is not open.  Signals that would
    interrupt the parent's read or wait are left out. *)
Class Spawning (P : Type) `{MA : Machine P} (me child rd wr : Z) := {
  see : P -> ends;
  child_pos : 0 < child;
  setfd_law k : parent_w (see k) = true ->
    let '(r, k') := ptrap me (Ioctl wr (FDCTL 3) [AInt F_SETFD; AInt FD_CLOEXEC]) k in
    let v := see k in 0 <= value r /\ see k' = Ends (parent_w v) (child_w v) true (piped v) (image v) (zombie v);
  fork_law k : let '(c, k') := pfork me k in let v := see k in
    if c <? 0 then see k' = v else c = child /\ see k' = Ends (parent_w v) (parent_w v) (cloexec v) (piped v) None false;
  quiet_law c k : spares wr c = true -> child_w (see k) = true -> see (snd (ptrap child c k)) = see k;
  open_new p f k : child_w (see k) = true -> value (fst (ptrap child (Open p f) k)) <> wr;
  write_law bs k : child_w (see k) = true -> piped (see k) = [] -> length bs = 4%nat -> let v := see k in
    see (snd (ptrap child (Write wr bs) k)) = Ends (parent_w v) (child_w v) (cloexec v) bs (image v) (zombie v);
  exec_law p argv envp k : child_w (see k) = true -> let '(r, k') := ptrap child (Exec p argv envp) k in let v := see k in
    see k' = if value r >=? 0 then Ends (parent_w v) (negb (cloexec v)) (cloexec v) (piped v) (Some (p, argv, envp)) (zombie v) else v;
  exit_law status k : let v := see k in see (pexit child status k) = Ends (parent_w v) false (cloexec v) (piped v) (image v) true;
  parent_close fd k : let v := see k in
    see (snd (ptrap me (Close fd) k)) = if fd =? wr then Ends false (child_w v) (cloexec v) (piped v) (image v) (zombie v) else v;
  parent_read k : let '(r, k') := ptrap me (Read rd 4) k in let v := see k in
    (exists l, see k' = Ends (parent_w v) (child_w v) (cloexec v) l (image v) (zombie v)) /\
    match piped v with
    | [] => parent_w v = false -> child_w v = false -> value r = 0
    | l => 0 < value r /\ bytes r = take 4 l
    end;
  parent_wait k : let v := see k in zombie v = true ->
    see (snd (ptrap me (Waitpid child 0) k)) = Ends (parent_w v) (child_w v) (cloexec v) (piped v) (image v) false
}.

Section Protocol.
Context {P : Type} `{MA : Machine P} {me child rd wr : Z} `{SP : !Spawning P me child rd wr}.
Context (junk : Signal.sigaction_t).
Implicit Types s : st P.

#[local] Instance child_kernel : Kernel P := as_ child.

Definition ok s : Prop := child_w (see (kern s)) = true /\ Socket.is_int (errno s).

(** The child still reports to the parent, and nothing has been said. *)
Definition quiet {A} (c : St (st P) A) : Prop := forall s, ok s -> wp c s (fun _ s' => ok s' /\ see (kern s') = see (kern s)).

Lemma hush_ret {A} (a : A) : quiet (ret a).
Proof. done. Qed.

Lemma hush_bind {A B} (c : St (st P) A) (k : A -> St (st P) B) : quiet c -> (forall a, quiet (k a)) -> quiet (bind c k).
Proof.
  intros Hc Hk s Hs. apply wp_bind. eapply wp_mono; [by apply Hc|]. intros a s1 [H1 E1]. eapply wp_mono; [by apply Hk|]. intros b s2 [H2 E2]. split; [done|congruence].
Qed.

Lemma quiet_if {A} (b : bool) (c d : St (st P) A) : quiet c -> quiet d -> quiet (if b then c else d).
Proof. by destruct b. Qed.

Lemma hush_gets {A} (f : st P -> A) : quiet (gets f).
Proof. done. Qed.

Lemma quiet_errno e : Socket.is_int e -> quiet (set_errno e).
Proof. intros He s [H1 H2]. split; [by split|done]. Qed.

Lemma quiet_fail e : Socket.is_int e -> quiet (fail e).
Proof. intros He. apply hush_bind; [by apply quiet_errno|intros; apply hush_ret]. Qed.

Lemma quiet_map r : quiet (nio_map r).
Proof.
  unfold nio_map, Time.nio_map. destruct (r >=? 0); [apply hush_ret|]. destruct (r =? -1); [by apply quiet_fail|].
  apply quiet_fail. destruct (_ && _); [apply s32_range|done].
Qed.

Lemma wp_sys c s (Q : reply -> st P -> Prop) :
  Q (fst (ptrap child c (kern s))) (S_ (snd (ptrap child c (kern s))) (errno s) (pid_cache s) (ctl_fd s)) -> wp (sys c) s Q.
Proof. unfold wp, sys. change (trap c (kern s)) with (ptrap child c (kern s)). by destruct (ptrap child c (kern s)). Qed.

Lemma quiet_sys c : spares wr c = true -> quiet (sys c).
Proof.
  intros Hc s [H1 H2]. unfold wp, sys. pose proof (quiet_law c (kern s) Hc H1) as Ha. cbn. destruct (ptrap child c (kern s)) as [r k]. cbn in *.
  split; [split; [cbn; congruence|done]|done].
Qed.

(** The new descriptor is another one. *)
Lemma quiet_open {A} p f (k : Z -> St (st P) A) : (forall fd, fd <> wr -> quiet (k fd)) -> quiet (let* fd := nio_open p f in k fd).
Proof.
  intros Hk s Hs. apply wp_bind. unfold nio_open. apply wp_bind. unfold wp at 1, sys. pose proof (open_new p f (kern s) (proj1 Hs)) as Hn.
  pose proof (quiet_law (Open p f) (kern s) eq_refl (proj1 Hs)) as Ha. cbn. destruct (ptrap child _ (kern s)) as [r q]. cbn in *. apply wp_ret.
  eapply wp_mono; [apply Hk; [done|]; split; [cbn; rewrite Ha; apply Hs|apply Hs]|]. intros x s2 [H2 E2]. split; [done|]. rewrite E2. cbn. congruence.
Qed.

Lemma quiet_close fd : fd <> wr -> quiet (nio_close fd).
Proof. intros H. apply hush_bind; [apply quiet_sys; cbn; by rewrite (proj2 (Z.eqb_neq _ _))|intros; apply hush_ret]. Qed.

Lemma quiet_ioctl fd c args : fd <> wr -> c <> FDCTL 2 -> quiet (nio_ioctl fd c args).
Proof. intros Hf H. apply quiet_sys. cbn. rewrite (proj2 (Z.eqb_neq _ _) Hf), (proj2 (Z.eqb_neq _ _) H). by destruct args as [|[] ?]. Qed.

Lemma quiet_nio_ctl c args : c <> FDCTL 2 -> quiet (nio_ctl c args).
Proof.
  intros H. apply quiet_open. intros fd Hf. apply quiet_if; [apply hush_ret|]. apply hush_bind; [by apply quiet_ioctl|]. intros r.
  apply hush_bind; [by apply quiet_close|intros; apply hush_ret].
Qed.

Lemma quiet_ctl c args : c <> FDCTL 2 -> quiet (ctl c args).
Proof. intros H. apply hush_bind; [by apply quiet_nio_ctl|intros; apply quiet_map]. Qed.

Lemma quiet_self i : quiet (_self_field i).
Proof.
  apply hush_bind; [|intros [r bs]; destruct (negb _); apply hush_ret]. apply quiet_open. intros fd Hf. apply quiet_if; [apply hush_ret|].
  apply hush_bind; [apply hush_bind; [by apply quiet_sys|intros; apply hush_ret]|]. intros r. apply hush_bind; [by apply quiet_close|intros; apply hush_ret].
Qed.

Lemma quiet_dup2 fd n : fd <> wr -> u32 n <> wr -> quiet (dup2 fd n).
Proof.
  intros Hf H. apply hush_bind; [|intros; apply quiet_map]. apply quiet_sys. cbn. rewrite (proj2 (Z.eqb_neq (u32 n) wr)), (proj2 (Z.eqb_neq fd wr)) by done. by rewrite andb_false_r.
Qed.

(** ** The child: it becomes the program, or reports an error and ends *)

Definition fresh s : Prop := ok s /\ see (kern s) = Ends false true true [] None false.
Definition failed (k : P) : Prop :=
  exists e, Socket.is_int e /\ e <> 0 /\ see k = Ends false false true (Socket.le 4 (u32 e)) None true.
Definition running (progs : list program) (k : P) : Prop :=
  exists x, x ∈ progs /\ see k = Ends false false true [] (Some x) false.

Definition sound (c : exiting (K := P) unit) : Prop :=
  forall s, fresh s -> wp c s (fun r s' => match r with inl _ => fresh s' | inr _ => failed (kern s') end).

Lemma fresh_quiet {A} (c : St (st P) A) s (Q : A -> st P -> Prop) : quiet c -> fresh s -> (forall a s', fresh s' -> Q a s') -> wp c s Q.
Proof. intros Hc [Hs Hv] HQ. eapply wp_mono; [by apply Hc|]. intros a s' [H1 H2]. apply HQ. split; [done|congruence]. Qed.

Lemma sound_go : sound go.
Proof. intros s Hs. by apply wp_ret. Qed.

Lemma sound_bind {A} (c : St (st P) A) (k : A -> exiting (K := P) unit) : quiet c -> (forall a, sound (k a)) -> sound (bind c k).
Proof. intros Hc Hk s Hs. apply wp_bind. apply (fresh_quiet c); [done|done|]. intros a s' Hs'. by apply Hk. Qed.

Lemma sound_plain {A} (c : St (st P) A) (k : A -> exiting (K := P) unit) : quiet c -> (forall a, sound (k a)) -> sound (then_ (plain c) k).
Proof.
  intros Hc Hk s Hs. unfold then_, plain. apply wp_bind, wp_bind. apply (fresh_quiet c); [done|done|]. intros a s' Hs'. apply wp_ret. by apply Hk.
Qed.

Lemma sound_then (c d : exiting (K := P) unit) : sound c -> sound d -> sound (then_ c (fun _ => d)).
Proof.
  intros Hc Hd s Hs. unfold then_. apply wp_bind. eapply wp_mono; [by apply Hc|]. intros [[]|[]] s1 H1; [by apply Hd|by apply wp_ret].
Qed.

Lemma sound_if (b : bool) (c d : exiting (K := P) unit) : sound c -> sound d -> sound (if b then c else d).
Proof. by destruct b. Qed.

(** The write of the error and the exit after it. *)
Lemma wp_report e s : fresh s -> Socket.is_int e -> e <> 0 ->
  wp (let* _ := write wr (Socket.le 4 (u32 e)) in _exit (pexit child) 127) s (fun _ s' => failed (kern s')).
Proof.
  intros [[Hh _] Hv] He Hne. unfold write, nio_write. apply wp_bind, wp_bind, wp_sys, wp_ret.
  pose proof (write_law (Socket.le 4 (u32 e)) (kern s) Hh) as H. rewrite Hv in H. specialize (H eq_refl (Socket.length_le _ _)).
  unfold _exit. apply wp_modify. cbn [kern]. exists e. split; [done|]. split; [done|].
  pose proof (exit_law 127 (snd (ptrap child (Write wr (Socket.le 4 (u32 e))) (kern s)))) as E. cbv zeta in E. by rewrite H in E.
Qed.

Lemma sound_fail e : Socket.is_int e -> sound (child_fail (pexit child) wr e).
Proof.
  intros He s Hs. unfold child_fail. set (e' := if e <=? 0 then EIO else e).
  assert (He' : Socket.is_int e' /\ e' <> 0) by (unfold e'; destruct (Z.leb_spec e 0); split; try done; lia).
  pose proof (wp_report e' s Hs (proj1 He') (proj2 He')) as H. revert H. unfold wp, bind. destruct (write wr _ s) as [[a s1]|]; [|done]. cbn. done.
Qed.

Lemma sound_errno : sound (fail_errno (pexit child) wr).
Proof. intros s Hs. apply wp_bind, wp_gets. apply sound_fail; [apply Hs|done]. Qed.

(** An action that does not close the report, put anything in its place or copy it. *)
Definition spares_act (a : posix_spawn_file_action) : Prop :=
  match a with FA_OPEN to _ _ _ => u32 to <> wr | FA_CLOSE fd => fd <> wr | FA_DUP2 fd n => fd <> wr /\ u32 n <> wr end.

Lemma sound_act a : spares_act a -> sound (act (pexit child) wr a).
Proof.
  destruct a as [to path oflag mode|fd|fd n]; cbn [act spares_act]; intros Ha.
  - intros s Hs. unfold then_, plain. apply wp_bind, wp_bind. unfold open.
    assert (Q : quiet (let* fd := nio_open path oflag in if bool_decide (fd = wr) then (fun _ => None) else ret fd)).
    { apply quiet_open. intros fd Hf. rewrite bool_decide_eq_false_2 by done. apply hush_ret. }
    pose proof (Q s (proj1 Hs)) as H. revert H. unfold wp at 1 2, bind at 1. destruct (nio_open path oflag s) as [[fd s1]|]; [|done].
    case_bool_decide as Hw; [done|]. cbn. intros [H1 H2]. assert (F : fresh s1) by (split; [done|rewrite H2; apply Hs]).
    apply wp_ret. apply sound_if; [apply sound_errno| |done]. apply sound_if; [apply sound_go|].
    apply sound_plain; [by apply quiet_dup2|]. intros r. apply sound_if; [apply sound_errno|].
    apply sound_plain; [by apply quiet_close|intros; apply sound_go].
  - apply sound_plain; [by apply quiet_close|intros; apply sound_go].
  - destruct Ha. apply sound_plain; [by apply quiet_dup2|]. intros r. apply sound_if; [apply sound_errno|apply sound_go].
Qed.

Lemma sound_act_all l : Forall spares_act l -> sound (act_all (pexit child) wr l).
Proof. induction 1 as [|a l Ha _ IH]; cbn [act_all]; [apply sound_go|]. apply sound_then; [by apply sound_act|done]. Qed.

Lemma quiet_signal sig h : quiet (Signal.signal junk sig h).
Proof.
  unfold Signal.signal. apply quiet_if; [apply hush_ret|]. apply hush_bind; [|intros; apply quiet_if; apply hush_ret]. cbn [Signal.sigaction].
  apply quiet_if; [by apply quiet_fail|]. apply hush_bind; [by apply quiet_nio_ctl|]. intros r.
  apply hush_bind; [|intros; apply hush_ret]. apply quiet_if; [apply quiet_fail, s32_range|apply hush_ret].
Qed.

Lemma quiet_reset bits set : quiet (reset_all junk bits set).
Proof. induction bits as [|b bits IH]; cbn [reset_all]; [apply hush_ret|]. apply hush_bind; [apply quiet_if; [apply quiet_signal|apply hush_ret]|done]. Qed.

Lemma quiet_field i : quiet (let* v := _self_field i in ret (default 0 v)).
Proof. apply hush_bind; [apply quiet_self|intros; apply hush_ret]. Qed.

Lemma sound_sched : sound (sched_fail (pexit child) wr).
Proof. intros s Hs. apply wp_bind, wp_gets. apply sound_fail; [|done]. destruct (negb _); [apply Hs|done]. Qed.

Lemma quiet_setscheduler pol prio : quiet (Devices.sched_setscheduler 0 pol prio).
Proof. unfold Devices.sched_setscheduler. destruct prio; [|by apply quiet_fail]. repeat (apply quiet_if; [by apply quiet_fail|]). apply hush_bind; [apply hush_ret|]. intros. apply quiet_if; [by apply quiet_fail|apply hush_ret]. Qed.

Lemma quiet_setparam prio : quiet (Devices.sched_setparam 0 prio).
Proof. unfold Devices.sched_setparam. destruct prio; [|by apply quiet_fail]. repeat (apply quiet_if; [by apply quiet_fail|]). apply hush_bind; [apply hush_ret|]. intros. apply quiet_if; [by apply quiet_fail|apply hush_ret]. Qed.

Lemma sound_attr a : sound (apply_attr (pexit child) junk wr a).
Proof.
  unfold apply_attr. apply sound_bind; [apply quiet_if; [by apply quiet_ctl|apply hush_ret]|intros _].
  apply sound_bind.
  { apply quiet_if; [|apply hush_ret]. apply hush_bind; [|intros; apply hush_ret]. apply hush_bind; [by apply quiet_nio_ctl|]. intros r.
    apply hush_bind; [|intros; apply hush_ret]. apply hush_bind; [|intros; apply hush_ret]. apply quiet_if; [apply quiet_fail, s32_range|apply hush_ret]. }
  intros _. apply sound_bind; [apply quiet_if; [apply quiet_reset|apply hush_ret]|intros _].
  apply sound_bind.
  { apply quiet_if; [|apply hush_ret]. apply hush_bind; [apply quiet_field|]. intros g. apply hush_bind; [by apply quiet_ctl|]. intros _.
    apply hush_bind; [apply quiet_field|]. intros u. apply hush_bind; [by apply quiet_ctl|intros; apply hush_ret]. }
  intros _. apply sound_if; [|apply sound_if; [|apply sound_go]];
    (apply sound_bind; [apply quiet_setscheduler || apply quiet_setparam|]; intros r; apply sound_if; [apply sound_sched|apply sound_go]).
Qed.

Definition spares_all (fa : option posix_spawn_file_actions) : Prop := match fa with Some f => Forall spares_act (acts f) | None => True end.

Lemma sound_setup fa attr : spares_all fa -> sound (child_setup (pexit child) junk fa attr wr).
Proof.
  intros H. unfold child_setup. apply sound_then; [destruct fa; [by apply sound_act_all|apply sound_go]|]. destruct attr; [apply sound_attr|apply sound_go].
Qed.

(** ** Exec *)

Definition exec_post (progs : list program) (r : unit + Z) s : Prop := match r with inl _ => running progs (kern s) | inr _ => fresh s end.

Lemma exec_execve progs p argv envp s : fresh s -> (p, argv, envp) ∈ progs -> wp (execve p argv envp) s (exec_post progs).
Proof.
  intros [[Hh Hi] Hv] Hp. unfold execve. apply wp_bind. unfold wp at 1, sys. pose proof (exec_law p argv envp (kern s) Hh) as H. cbn. destruct (ptrap child _ (kern s)) as [r k].
  rewrite Hv in H. apply wp_ret. destruct (value r >=? 0); cbn; [by exists (p, argv, envp)|]. split; [split; [cbn; by rewrite H|done]|done].
Qed.

Lemma exec_try progs ds f argv env s : fresh s -> (forall d c, d ∈ ds -> candidate d f = Some c -> (c, argv, env) ∈ progs) ->
  wp (try_all ds f argv env) s (exec_post progs).
Proof.
  intros Hs Hd. revert s Hs. induction ds as [|d ds IH]; intros s Hs; cbn [try_all].
  - apply wp_bind. apply (fresh_quiet (fail ENOENT)); [by apply quiet_fail|done|]. intros a s' Hs'. by apply wp_ret.
  - assert (IH' : forall s, fresh s -> wp (try_all ds f argv env) s (exec_post progs)) by (apply IH; intros d' c Hin; apply Hd; by right).
    destruct (candidate d f) as [c|] eqn:Ec; [|by apply IH']. apply wp_bind.
    eapply wp_mono; [apply exec_execve; [done|apply (Hd d); [by left|done]]|]. intros [[]|z] s1 H1; [by apply wp_ret|by apply IH'].
Qed.

(** The programs the child may become: the path as it is or, with [posix_spawnp]
    and no slash, the file in a directory of the search path; [posix_spawnp] runs
    it in the environment of the caller. *)
Definition programs (sp : bool) (path : str) (argv : list str) (envp : option (list str)) (env : list str) (PATH : option str) : list program :=
  if sp then
    if existsb (Z.eqb 47) path then [(path, argv, env)]
    else (fun p => (p, argv, env)) <$> omap (fun d => candidate d path) (entries (match PATH with Some (c :: p) => c :: p | _ => default_path end))
  else [(path, argv, default env envp)].

Lemma exec_any sp path argv envp env PATH s : fresh s ->
  wp (if sp : bool then execvp (Some path) argv env PATH else execve path argv (default env envp)) s (exec_post (programs sp path argv envp env PATH)).
Proof.
  intros Hs. unfold programs. destruct sp; [|apply exec_execve; [done|by left]]. unfold execvp. cbn [default id]. destruct path as [|c q].
  - apply wp_bind. apply (fresh_quiet (fail ENOENT)); [by apply quiet_fail|done|]. intros a s' Hs'. by apply wp_ret.
  - destruct (existsb _ _); [apply exec_execve; [done|by left]|]. apply exec_try; [done|]. intros d x Hd Hx.
    apply list_elem_of_fmap. exists x. split; [done|]. apply list_elem_of_omap. eauto.
Qed.

Lemma child_outcome path sp fa attr argv envp env PATH s :
  rd <> wr -> spares_all fa -> fresh s ->
  wp (child_main (pexit child) junk rd wr path sp fa attr argv envp env PATH) s
    (fun ran s' => if ran then running (programs sp path argv envp env PATH) (kern s') else failed (kern s')).
Proof.
  intros Hrw Hfa Hs. unfold child_main. apply wp_bind. apply (fresh_quiet (close rd)); [by apply quiet_close|done|]. intros _ s1 H1.
  apply wp_bind. eapply wp_mono; [by apply sound_setup|]. intros [[]|[]] s2 H2; [|by apply wp_ret].
  apply wp_bind. eapply wp_mono; [by apply (exec_any sp path argv envp env PATH)|].
  intros [[]|z] s3 H3; [by apply wp_ret|]. apply wp_bind, wp_gets. set (e := if negb (errno s3 =? 0) then errno s3 else ENOENT).
  assert (He : Socket.is_int e /\ e <> 0).
  { unfold e. destruct (Z.eqb_spec (errno s3) 0); cbn; [done|]. split; [apply H3|done]. }
  pose proof (wp_report e s3 H3 (proj1 He) (proj2 He)) as H. revert H. unfold wp, bind. destruct (write wr _ s3) as [[a s4]|]; [|done]. cbn. done.
Qed.

(** ** The parent learns which *)

(** What the caller is told, and what is the case. *)
Definition verdict (progs : list program) (e : Z) (pid : option Z) (v : ends) : Prop :=
  parent_w v = false /\ zombie v = false /\
  if e =? 0 then pid = Some child /\ exists x, x ∈ progs /\ image v = Some x else pid = None /\ image v = None.

Lemma wp_sys_as p c s (Q : reply -> st P -> Prop) :
  Q (fst (ptrap p c (kern s))) (S_ (snd (ptrap p c (kern s))) (errno s) (pid_cache s) (ctl_fd s)) -> wp (@sys P (as_ p) c) s Q.
Proof. unfold wp, sys. change (@trap P (as_ p) c (kern s)) with (ptrap p c (kern s)). by destruct (ptrap p c (kern s)). Qed.

Lemma parent_outcome path sp fa attr argv envp env PATH s :
  rd <> wr -> spares_all fa -> see (kern s) = Ends true true true [] None false -> Socket.is_int (errno s) ->
  wp (parent_main junk me child rd wr path sp fa attr argv envp env PATH) s
    (fun '(e, pid) s' => verdict (programs sp path argv envp env PATH) e pid (see (kern s'))).
Proof.
  intros Hrw Hfa Hs He. unfold parent_main, by_. apply wp_bind. unfold close, nio_close. apply wp_bind, wp_sys_as, wp_ret.
  pose proof (parent_close wr (kern s)) as Hc. cbv zeta in Hc. rewrite Z.eqb_refl, Hs in Hc. cbn in Hc.
  set (s1 := S_ _ _ _ _). assert (F : fresh s1) by (split; [split; [unfold s1; cbn [kern]; by rewrite Hc|done]|done]).
  apply wp_bind. pose proof (child_outcome path sp fa attr argv envp env PATH s1 Hrw Hfa F) as H. clear Hc. revert H.
  unfold wp at 1, in_child, wp at 1. change child_kernel with (as_ child). destruct (child_main _ _ _ _ _ _ _ _ _ _ _ _ s1) as [[ran s2]|]; [|done].
  intros H. apply wp_bind. unfold read, nio_read. apply wp_bind, wp_sys_as, wp_ret. cbn [kern]. pose proof (parent_read (kern s2)) as R.
  destruct (ptrap me (Read rd 4) (kern s2)) as [r k3]. destruct R as ([l R1] & R2). cbn [fst snd].
  apply wp_bind, wp_bind, wp_sys_as, wp_ret. cbn [kern fst snd]. pose proof (parent_close rd k3) as C. cbv zeta in C. rewrite (proj2 (Z.eqb_neq rd wr) Hrw), R1 in C.
  destruct ran.
  - destruct H as (x & Hx & H). rewrite H in R2, C. cbn in R2, C. rewrite (R2 eq_refl eq_refl). apply wp_ret. unfold verdict. cbn [Z.eqb kern]. rewrite C. cbn [kern parent_w zombie image]. split; [done|]. split; [done|]. split; [done|]. exists x. by split.
  - destruct H as (e & Hi & Hne & H). rewrite H in R2, C. cbn [piped parent_w child_w cloexec image zombie] in R2, C.
    destruct (Socket.le 4 (u32 e)) as [|b bs] eqn:El; [by apply (f_equal length) in El; rewrite Socket.length_le in El|].
    destruct R2 as [R3 R4]. rewrite (proj2 (Z.gtb_lt _ _)) by lia. apply wp_bind. unfold waitpid. apply wp_bind, wp_sys_as, wp_ret, wp_ret. cbn [kern].
    assert (Ew : s32 (word 0 (bytes r)) = e).
    { rewrite R4, <- El, take_ge by (rewrite Socket.length_le; lia). rewrite <- (app_nil_r (Socket.le 4 _)). rewrite Socket.word_le by apply u32_range. rewrite s32_u32. by apply s32_small. }
    rewrite Ew. unfold verdict. rewrite (proj2 (Z.eqb_neq e 0)) by done. pose proof (parent_wait (snd (ptrap me (Close rd) k3))) as W. cbv zeta in W. rewrite C in W. specialize (W eq_refl).
    rewrite W. done.
Qed.

(** The fork and what follows it, and the fork that fails. *)
Lemma fork_outcome path sp fa attr argv envp env PATH s :
  rd <> wr -> spares_all fa -> see (kern s) = Ends true false true [] None false -> Socket.is_int (errno s) ->
  wp (let* c := fork me in
      if c <? 0 then
        let* e := gets errno in
        let* _ := by_ me (fun _ => close rd) in
        let* _ := by_ me (fun _ => close wr) in
        ret (if negb (e =? 0) then e else EAGAIN, None)
      else parent_main junk me c rd wr path sp fa attr argv envp env PATH) s
    (fun '(e, pid) s' => verdict (programs sp path argv envp env PATH) e pid (see (kern s'))).
Proof.
  intros Hrw Hfa Hs He. apply wp_bind. unfold wp at 1, fork. pose proof (fork_law (kern s)) as F. destruct (pfork me (kern s)) as [c k]. rewrite Hs in F.
  destruct (c <? 0) eqn:Ec; [|by destruct F as [-> F]; apply parent_outcome].
  apply wp_bind, wp_gets. unfold by_, close, nio_close. do 2 (apply wp_bind, wp_bind, wp_sys_as, wp_ret). cbn [kern snd fst].
  pose proof (parent_close rd k) as C1. cbv zeta in C1. rewrite (proj2 (Z.eqb_neq rd wr) Hrw) in C1.
  pose proof (parent_close wr (snd (ptrap me (Close rd) k))) as C2. cbv zeta in C2. rewrite Z.eqb_refl, C1, F in C2.
  apply wp_ret. unfold verdict. cbn [kern errno]. rewrite C2. cbn [parent_w zombie image]. split; [done|]. split; [done|].
  destruct (Z.eqb_spec (errno s) 0); cbn [negb]; [done|]. by rewrite (proj2 (Z.eqb_neq _ _)).
Qed.
End Protocol.

(** C11: [posix_spawn] and [posix_spawnp] tell the truth, when the file actions
    leave the write end of the error pipe alone and no signal interrupts the
    parent: they return 0 and the process exactly when the child has become one
    of the programs that the path names, with the arguments and the environment
    given ([posix_spawnp]: the caller's environment); and otherwise an error
    number other than 0, with no child left or waited for, also when the pipe or
    the process cannot be made.  In every case the parent has closed its write
    end, and its read, which waits while a write end is open, ends. *)
Theorem spawn_sound {P} `{MA : Machine P} me child rd wr `{SP : !Spawning P me child rd wr} junk c q sp fa attr argv envp env PATH (s : st P) :
  wp (by_ me (fun _ => pipe)) s (fun '(r, (a, b)) s1 => Socket.is_int (errno s1) /\
    if r =? 0 then a = rd /\ b = wr /\ see (kern s1) = Ends true false false [] None false
    else parent_w (see (kern s1)) = false /\ image (see (kern s1)) = None /\ zombie (see (kern s1)) = false) ->
  rd <> wr -> spares_all (wr := wr) fa ->
  wp (spawn_common junk me (Some (c :: q)) sp fa attr argv envp env PATH) s
    (fun '(e, pid) s' => verdict (child := child) (programs sp (c :: q) argv envp env PATH) e pid (see (kern s'))).
Proof.
  intros Hp Hrw Hfa. unfold spawn_common. cbn [default id]. apply wp_bind. eapply wp_mono; [exact Hp|]. intros [r [a b]] s1 [Hi H].
  destruct (r =? 0); cbn [negb].
  - destruct H as (-> & -> & H). apply wp_bind. unfold by_ at 1, fcntl, set_fd, on, nio_ioctl.
    change ((F_SETFD =? F_DUPFD) || (F_SETFD =? F_DUPFD_CLOEXEC)) with false. change ((F_SETFD =? F_GETFD) || (F_SETFD =? F_GETFL)) with false.
    change ((F_SETFD =? F_SETFD) || (F_SETFD =? F_SETFL)) with true. cbv iota. change (u32 FD_CLOEXEC) with FD_CLOEXEC.
    apply wp_bind, wp_sys_as. pose proof (setfd_law (kern s1)) as F. rewrite H in F. specialize (F eq_refl).
    destruct (ptrap me _ (kern s1)) as [r1 k1]. destruct F as [Hr F]. cbn [fst snd]. unfold nio_map, Time.nio_map.
    rewrite Z.geb_leb, (proj2 (Z.leb_le _ _)) by done. apply wp_ret. by apply (fork_outcome (SP := SP)).
  - apply wp_bind, wp_gets, wp_ret. destruct H as (H1 & H2 & H3). unfold verdict. split; [done|]. split; [done|].
    destruct (Z.eqb_spec (errno s1) 0); cbn [negb]; [done|]. by rewrite (proj2 (Z.eqb_neq _ _)).
Qed.

(** ** A machine of two processes and one pipe *)

(** Process 1 forks process 2; the pipe has the descriptors 3 and 4, and other
    files are opened at 9.  A read of the empty pipe with a write end open, which
    waits, is answered with -1. *)
Definition duo := ends.
Definition with_child (b : bool) (k : duo) : duo := Ends (parent_w k) b (cloexec k) (piped k) (image k) (zombie k).
Definition with_pipe (l : str) (k : duo) : duo := Ends (parent_w k) (child_w k) (cloexec k) l (image k) (zombie k).

Definition child_trap (c : call) (k : duo) : reply * duo :=
  match c with
  | Open _ _ => (Reply 9 [] [], k)
  | Close fd => (Reply 0 [] [], if fd =? 4 then with_child false k else k)
  | Ioctl _ c (AInt n :: _) => (Reply n [] [], if (c =? FDCTL 2) && (n =? 4) then with_child false k else k)
  | Write fd bs => (Reply (Z.of_nat (length bs)) [] [], if (fd =? 4) && child_w k then with_pipe (piped k ++ bs) k else k)
  | Exec p a e => if bool_decide (p = txt "/bin/ls") then (Reply 0 [] [], Ends (parent_w k) (child_w k && negb (cloexec k)) (cloexec k) (piped k) (Some (p, a, e)) (zombie k)) else (Reply (-1) [] [], k)
  | _ => (Reply 0 [] [], k)
  end.

Definition parent_trap (c : call) (k : duo) : reply * duo :=
  match c with
  | Open _ _ => (Reply 9 [] [], k)
  | Close fd => (Reply 0 [] [], if fd =? 4 then Ends false (child_w k) (cloexec k) (piped k) (image k) (zombie k) else k)
  | Ioctl fd c _ =>
      if c =? CACT_PIPECTL_CREATE then (Reply 0 [3; 4] [], Ends true false false [] None false)
      else if (fd =? 4) && (c =? FDCTL 3) then (Reply 0 [] [], Ends (parent_w k) (child_w k) true (piped k) (image k) (zombie k))
      else (Reply 0 [] [], k)
  | Read 3 n =>
      match piped k with
      | [] => (Reply (if parent_w k || child_w k then -1 else 0) [] [], k)
      | l => (Reply (Z.of_nat (length (take (Z.to_nat n) l))) [] (take (Z.to_nat n) l), with_pipe (drop (Z.to_nat n) l) k)
      end
  | Waitpid _ _ => (Reply 2 [] [], Ends (parent_w k) (child_w k) (cloexec k) (piped k) (image k) false)
  | _ => (Reply 0 [] [], k)
  end.

#[global] Instance duo_machine : Machine duo := {|
  ptrap p := if p =? 1 then parent_trap else child_trap;
  pfork _ k := (2, Ends (parent_w k) (parent_w k) (cloexec k) (piped k) None false);
  pexit _ _ k := Ends (parent_w k) false (cloexec k) (piped k) (image k) true
|}.

#[global] Instance duo_spawning : Spawning duo 1 2 3 4.
Proof.
  refine {| see := fun k => k |}; try done.
  - intros c k Hc Hh. change (ptrap 2 c k) with (child_trap c k). destruct c; try done; unfold spares in Hc; cbn [child_trap snd].
    + apply negb_true_iff in Hc. by rewrite Hc.
    + apply negb_true_iff in Hc. by rewrite Hc.
    + apply andb_true_iff in Hc as [_ Hc]. destruct args as [|[] ?]; try done. apply negb_true_iff in Hc. cbn [child_trap snd]. by rewrite Hc.
  - intros bs k Hh Hp _. change (ptrap 2 (Write 4 bs) k) with (child_trap (Write 4 bs) k). destruct k as [pw cw ce l im z]. cbn in *. by subst.
  - intros p a e k Hh. change (ptrap 2 (Exec p a e) k) with (child_trap (Exec p a e) k). cbn [child_trap]. destruct (bool_decide (p = txt "/bin/ls")); [|done]. by rewrite Hh.
  - intros k. change (ptrap 1 (Read 3 4) k) with (parent_trap (Read 3 4) k). cbn [parent_trap]. destruct k as [pw cw ce [|x l] im z]; cbn.
    + split; [by eexists|]. by intros -> ->.
    + split; [by eexists|]. by split.
Defined.

Definition no_junk : Signal.sigaction_t := Signal.Sa 0 0 0 0.
Definition begin (e : Z) : st duo := S_ (Ends false false false [] None false) e 0 (-1).
Definition spawn (e : Z) (path : str) (fa : list posix_spawn_file_action) : option ((Z * option Z) * st duo) :=
  posix_spawn no_junk 1 (Some path) (Some (Fas fa 4)) None [] None [] None (begin e).

Lemma spawn_sound_witness :
  wp (spawn_common no_junk 1 (Some (txt "/bin/ls")) false (Some (Fas [FA_DUP2 7 1] 4)) None [] None [] None) (begin 0)
    (fun '(e, pid) s' => verdict (child := 2) [(txt "/bin/ls", [], [])] e pid (see (kern s'))).
Proof.
  apply (spawn_sound 1 2 3 4 no_junk 47 (txt "bin/ls") false (Some (Fas [FA_DUP2 7 1] 4)) None [] None [] None (begin 0));
    [|lia|constructor; [split; vm_compute; congruence|constructor]].
  vm_compute. repeat split; (reflexivity || discriminate).
Defined.

(** The two results. *)
Lemma spawn_runs : (fst <$> spawn 0 (txt "/bin/ls") []) = Some (0, Some 2).
Proof. reflexivity. Qed.

Lemma spawn_reports : (fst <$> spawn 0 (txt "/bin/no") []) = Some (ENOENT, None).
Proof. reflexivity. Qed.

(** A file action that closes the number the pipe happens to have makes the
    failure of the child look like its success. *)
Theorem report_closed : exists s', spawn 0 (txt "/bin/no") [FA_CLOSE 4] = Some ((0, Some 2), s') /\ image (see (kern s')) = None /\ zombie (see (kern s')) = true.
Proof. eexists. split; [vm_compute; reflexivity|split; reflexivity]. Qed.

(** [execve] does not set [errno]: the error reported is the one an earlier call
    of the parent left there. *)
Theorem stale_error : (fst <$> spawn 13 (txt "/bin/no") []) = Some (13, None).
Proof. reflexivity. Qed.

(** [posix_spawnp] does not use its environment. *)
Theorem spawnp_drops_envp {P} `{Machine P} junk me file fa attr argv envp envp' env PATH :
  posix_spawnp junk me file fa attr argv envp env PATH = posix_spawnp junk me file fa attr argv envp' env PATH.
Proof. reflexivity. Qed.

(** After the first thread, the child of a fork takes itself for its parent. *)
Theorem forked_getpid {P} `{Machine P} (child : Z) (s : st P) : pid_cache s <> 0 -> in_child (by_ child (fun _ => getpid)) s = Some (pid_cache s, s).
Proof. intros E. unfold in_child, by_, getpid, bind, gets. rewrite (proj2 (Z.eqb_neq _ _)) by done. by destruct s. Qed.
End Spawn.
