(* ===== verification/Files.v ===== *)
(** * Files: streams by name, temporary files, paths and shells

    The rest of src/stdio.c and src/stdlib.c that reaches the kernel: opening and
    closing streams, [rename], [perror], [tmpfile], [mkostemp], [realpath], and
    the processes of [system], [popen] and [pclose].  Over the kernel of [Sys] and
    the machine of [Spawn]; the results of malloc are arguments. *)

From Stdlib Require Import ZArith Lia Bool String Ascii.
From stdpp Require Import base list numbers.
From S2P Require Import Prelude Monad Memory CString Stdio Strerror Dlfcn Time Sys Signal Devices Socket Spawn.

Module Files.
Import Sys.
Abbreviation FILE := Stdio.FILE.
Abbreviation File := Stdio.File.

Definition O_APPEND : Z := 1024.
Definition ENOMEM : Z := 12.
Definition EEXIST : Z := 17.
Definition X_OK : Z := 1.
Definition PATHBUF_MAX : Z := 512.
Definition POPEN_MAX : nat := 8.

Section Calls.
Context {K : Type} `{KR : Kernel K}.
Abbreviation C := (St (st K)).

(** ** Streams *)

(** A character of the mode, 0 past its end. *)
Definition ch (mode : str) (i : nat) : Z := nth i mode 0.

Definition mode_flags (mode : str) : Z :=
  let m := ch mode 0 in
  let plus := ch mode 1 =? 43 in
  if (m =? 114) && plus then O_RDWR
  else if (m =? 119) && plus then Z.lor (Z.lor O_RDWR O_CREAT) O_TRUNC
  else if (m =? 97) && plus then Z.lor (Z.lor O_RDWR O_CREAT) O_APPEND
  else if m =? 119 then Z.lor (Z.lor O_WRONLY O_CREAT) O_TRUNC
  else if m =? 97 then Z.lor (Z.lor O_WRONLY O_CREAT) O_APPEND
  else O_RDONLY.

(** [mem] is the success of malloc. *)
Definition fopen (mem : bool) (path mode : str) : C (option FILE) :=
  let* fd := open path (mode_flags mode) in
  if fd <? 0 then ret None
  else if negb mem then let* _ := close fd in ret None
  else ret (Some (File fd 0 (-1))).
Definition fdopen (mem : bool) (fd : Z) : option FILE := if mem then Some (File fd 0 (-1)) else None.
(** [std] when the stream is one of the three. *)
Definition fclose (std : bool) (f : FILE) : C Z := if std then ret 0 else close (Stdio.fd f).
Definition fseek (f : FILE) (offset whence : Z) : C Z := let* r := lseek (Stdio.fd f) offset whence in ret (if r <? 0 then -1 else 0).
Definition ftell (f : FILE) : C Z := lseek (Stdio.fd f) 0 SEEK_CUR.
Definition fflush : C Z := ret 0.
Definition fileno (f : FILE) : Z := Stdio.fd f.
Definition open_memstream : option FILE := None.

Definition remove (path : option str) : C Z := unlink path.

(** The last component of a path and its directory, in arrays of 128 and 512. *)
Definition new_name (path : str) : str * str :=
  match last_slash path with
  | Some (d, b) => (cut 128 b, if bool_decide (d = []) then txt "/" else cut 512 d)
  | None => (cut 128 path, txt ".")
  end.
Definition rename (oldpath : option str) (newpath : str) : C Z :=
  let* (fd, obase) := nio_open_parent oldpath 128 in
  if fd <? 0 then ret (-1)
  else
    let '(nbase, ndir) := new_name newpath in
    if bool_decide (nbase = []) then let* _ := nio_close fd in fail EINVAL
    else let* r := nio_ioctl fd (DIRCTL 17) [AStr obase; AStr ndir; AStr nbase] in let* _ := nio_close fd in nio_map (value r).

(** ** Messages *)

(** Until all is written or a write fails. *)
Fixpoint write_all (fuel : nat) (fd : Z) (s : str) : C unit :=
  match fuel, s with
  | _, [] => ret tt
  | O, _ => fault
  | S fuel, _ => let* w := nio_write fd s in if w <=? 0 then ret tt else write_all fuel fd (drop (Z.to_nat w) s)
  end.
Definition kprint (s : str) : C unit :=
  let* fd := nio_open (txt "/dev/console") O_WRONLY in
  if fd <? 0 then ret tt else let* _ := write_all (length s) fd s in let* _ := nio_close fd in ret tt.
Definition putchar (c : Z) : C Z := let* _ := write 1 [u8 c] in ret c.
Definition puts (s : str) : C Z := let* _ := write 1 s in let* _ := write 1 [10] in ret 0.
Definition perror (strerror : Z -> str) (s : option str) : C unit :=
  let* _ := (match s with Some ((_ :: _) as t) => let* _ := write 2 t in write 2 (txt ": ") | _ => ret 0 end) in
  let* e := gets errno in
  let* _ := write 2 (strerror e) in
  let* _ := write 2 [10] in ret tt.

(** ** Temporary files *)

Definition chars : str := txt "abcdefghijklmnopqrstuvwxyz0123456789".
Definition suffix (rnd : str) : str := (fun b => nth (Z.to_nat (b mod 36)) chars 0) <$> take 6 rnd.

(** The descriptor and the template as it is then. *)
Fixpoint attempts (n : nat) (pre tail : str) (flags : Z) : C (Z * str) :=
  match n with
  | O => let* e := fail EEXIST in ret (e, pre ++ tail)
  | S n =>
      let* (r, rnd) := Devices.getrandom true 6 in
      if negb (r =? 6) then let* e := fail EEXIST in ret (e, pre ++ tail)
      else
        let* fd := open (pre ++ suffix rnd) (Z.lor (Z.lor O_RDWR O_CREAT) flags) in
        if fd >=? 0 then ret (fd, pre ++ suffix rnd) else attempts n pre (suffix rnd) flags
  end.

Definition mkostemp (tmpl : option str) (flags : Z) : C (Z * str) :=
  match tmpl with
  | None => let* e := fail EINVAL in ret (e, [])
  | Some t =>
      let n := length t in
      if (n <? 6)%nat || negb (bool_decide (drop (n - 6) t = txt "XXXXXX")) then let* e := fail EINVAL in ret (e, t)
      else attempts 128 (take (n - 6) t) (drop (n - 6) t) flags
  end.
Definition mkstemp (tmpl : option str) : C (Z * str) := mkostemp tmpl 0.
Definition tmpfile (mem : bool) : C (option FILE) :=
  let* (fd, _) := mkstemp (Some (txt "/tmp/tmpXXXXXX")) in
  if fd <? 0 then ret None
  else match fdopen mem fd with None => let* _ := close fd in ret None | f => ret f end.

(** ** Paths *)

(** Drop while the test holds, but not the last. *)
Fixpoint back_while (f : Z -> bool) (r : str) : str :=
  match r with
  | c :: ((_ :: _) as q) => if f c then back_while f q else r
  | _ => r
  end.
Definition _rp_remove_last (out : str) : str :=
  let r := back_while (fun c => negb (c =? 47)) (back_while (Z.eqb 47) (rev out)) in
  rev (match r with _ :: ((_ :: _) as q) => q | _ => r end).

Fixpoint skip_slashes (p : str) : str := match p with c :: q => if c =? 47 then skip_slashes q else p | [] => [] end.
(** At most 255 characters up to a slash, and what follows. *)
Fixpoint name_of (n : nat) (p : str) : str * str :=
  match n, p with
  | S n, c :: q => if c =? 47 then ([], p) else let '(a, r) := name_of n q in (c :: a, r)
  | _, _ => ([], p)
  end.

(** The length of the path bounds the rounds; [inr] when the array is full. *)
Fixpoint rp_loop (fuel : nat) (p out : str) : str + unit :=
  match fuel with
  | O => inl out
  | S fuel =>
      match skip_slashes p with
      | [] => inl out
      | q =>
          let '(name, rest) := name_of 255 q in
          if bool_decide (name = [46]) then rp_loop fuel rest out
          else if bool_decide (name = [46; 46]) then rp_loop fuel rest (_rp_remove_last out)
          else if Z.of_nat (length out) + Z.of_nat (length name) + 2 >? PATHBUF_MAX then inr tt
          else rp_loop fuel rest ((if bool_decide (out = [47]) then out else out ++ [47]) ++ name)
      end
  end.

(** [mem] is the success of the malloc that a null buffer asks for. *)
Definition realpath (mem : bool) (path : option str) : C (option str) :=
  match default [] path with
  | [] => let* _ := set_errno ENOENT in ret None
  | p =>
      if negb mem then let* _ := set_errno ENOMEM in ret None
      else
        let* out := (match p with 47 :: _ => ret (Some [47]) | _ => getcwd PATHBUF_MAX end) in
        match out with
        | None => let* _ := set_errno ENOENT in ret None
        | Some out =>
            match rp_loop (S (length p)) p out with
            | inl r => ret (Some r)
            | inr _ => let* _ := set_errno ENAMETOOLONG in ret None
            end
        end
  end.
End Calls.

(** ** Shells *)

Section Shells.
Context {P : Type} `{MA : Spawn.Machine P}.
Abbreviation C := (St (st P)).
Abbreviation by_ := Spawn.by_.

Definition shell : str := txt "/usr/bin/cactsole".
Definition shell_argv (command : str) : list str := [txt "cactsole"; txt "-c"; command].

(** The child's part, after its descriptors are in place. *)
Definition exec_shell (child : Z) (command : str) (environ : list str) : C unit :=
  let* x := by_ child (fun _ => execve shell (shell_argv command) environ) in
  match x with inl _ => ret tt | inr _ => Spawn._exit (Spawn.pexit child) 127 end.

(** The status; the parent waits for the child. *)
Definition system (me : Z) (command : option str) (environ : list str) : C Z :=
  match command with
  | None => ret 1
  | Some c =>
      let* child := Spawn.fork me in
      if child <? 0 then ret (-1)
      else
        let* _ := Spawn.in_child (exec_shell child c environ) in
        let* (_, status) := by_ me (fun _ => waitpid child 0) in ret status
  end.

(** The table of [popen]: the address of the stream and the process, of each slot. *)
Record popen_st := Pst { base : st P; pops : list (Z * Z) }.
Abbreviation PC := (St popen_st).
Definition lifted {A} (c : C A) : PC A := fun s => match c (base s) with Some (a, b) => Some (a, Pst b (pops s)) | None => None end.

(** The first slot whose entry passes gets the new entry. *)
Fixpoint put_first (f : Z * Z -> bool) (e : Z * Z) (l : list (Z * Z)) : list (Z * Z) :=
  match l with [] => [] | x :: l => if f x then e :: l else x :: put_first f e l end.

Definition popen_child (child rd wr : Z) (w : bool) (command : str) (environ : list str) : C unit :=
  let* _ := by_ child (fun _ => if w then dup2 rd 0 else dup2 wr 1) in
  let* _ := by_ child (fun _ => close rd) in
  let* _ := by_ child (fun _ => close wr) in
  exec_shell child command environ.

(** [addr] is what malloc gives for the stream, 0 when it fails.  The child runs at
    some time after the fork, here before the parent goes on.  The address and the
    stream; 0 is the null pointer. *)
Definition popen (me addr : Z) (command type : option str) (environ : list str) : PC (Z * option FILE) :=
  match command, type with
  | Some c, Some t =>
      let w := ch t 0 =? 119 in
      if negb (ch t 0 =? 114) && negb w || (ch t 1 =? 43) then ret (0, None)
      else
        let* a := lifted (by_ me (fun _ => access (Some shell) X_OK)) in
        if negb (a =? 0) then let* _ := lifted (set_errno ENOENT) in ret (0, None)
        else
          let* (r, (rd, wr)) := lifted (by_ me (fun _ => pipe)) in
          if negb (r =? 0) then ret (0, None)
          else
            let* pid := lifted (Spawn.fork me) in
            if pid <? 0 then
              let* _ := lifted (by_ me (fun _ => close rd)) in
              let* _ := lifted (by_ me (fun _ => close wr)) in ret (0, None)
            else
              let* _ := lifted (Spawn.in_child (popen_child pid rd wr w c environ)) in
              let keep := if w then wr else rd in
              let* _ := lifted (by_ me (fun _ => close (if w then rd else wr))) in
              if addr =? 0 then
                let* _ := lifted (by_ me (fun _ => close keep)) in
                let* _ := lifted (by_ me (fun _ => waitpid pid 0)) in ret (0, None)
              else
                let* _ := modify (fun s => Pst (base s) (put_first (fun x => snd x =? 0) (addr, pid) (pops s))) in
                ret (addr, Some (File keep 0 (-1)))
  | _, _ => ret (0, None)
  end.

(** The process of a stream and the table without it. *)
Definition pop_pid (addr : Z) (l : list (Z * Z)) : Z := match List.find (fun x => fst x =? addr) l with Some (_, pid) => pid | None => 0 end.

(** The stream is not one of the three. *)
Definition pclose (me addr : Z) (f : FILE) : PC Z :=
  let* l := gets pops in
  let pid := pop_pid addr l in
  let* _ := modify (fun s => Pst (base s) (put_first (fun x => fst x =? addr) (0, 0) l)) in
  let* st := lifted (by_ me (fun _ => fclose false f)) in
  if negb (pid =? 0) then let* (_, status) := lifted (by_ me (fun _ => waitpid pid 0)) in ret status else ret st.
End Shells.

(** ** What [realpath] computes: the components of the path, with the dots resolved *)

(** The pieces between slashes, and those that are not empty. *)
Fixpoint pieces (p : str) : list str :=
  match p with
  | [] => [[]]
  | c :: p => if c =? 47 then [] :: pieces p else match pieces p with e :: es => (c :: e) :: es | [] => [[c]] end
  end.
Definition comps (p : str) : list str := filter (fun c => c <> []) (pieces p).

Definition resolve (cs : list str) (c : str) : list str :=
  if bool_decide (c = [46]) then cs else if bool_decide (c = [46; 46]) then take (length cs - 1) cs else cs ++ [c].
Definition render (cs : list str) : str := match cs with [] => [47] | _ => concat ((cons 47) <$> cs) end.

(** A component: not empty, without a slash. *)
Definition plain (c : str) : Prop := c <> [] /\ Forall (fun x => x <> 47) c.

Lemma pieces_ne p : pieces p <> [].
Proof. induction p as [|c p IH]; [done|]. cbn. destruct (c =? 47); [done|]. by destruct (pieces p). Qed.

Lemma pieces_name n a r : pieces (n ++ a :: r) = match pieces (a :: r) with e :: es => (n ++ e) :: es | [] => [] end \/ Exists (eq 47) n.
Proof.
  induction n as [|c n IH]; [left; cbn [app]; by destruct (pieces (a :: r))|]. destruct (decide (47 = c)); [right; by left|]. destruct IH as [IH|IH]; [left|right; by right].
  change (pieces ((c :: n) ++ a :: r)) with (if c =? 47 then [] :: pieces (n ++ a :: r) else match pieces (n ++ a :: r) with e :: es => (c :: e) :: es | [] => [[c]] end).
  rewrite (proj2 (Z.eqb_neq c 47)) by congruence. rewrite IH. pose proof (pieces_ne (a :: r)). by destruct (pieces (a :: r)).
Qed.

Lemma pieces_plain n : Forall (fun x => x <> 47) n -> pieces n = [n].
Proof. induction 1 as [|c n Hc _ IH]; [done|]. cbn. by rewrite (proj2 (Z.eqb_neq c 47)), IH by done. Qed.

Lemma comps_slash p : comps (47 :: p) = comps p.
Proof. done. Qed.

Lemma comps_skip p : comps (skip_slashes p) = comps p.
Proof. induction p as [|c p IH]; [done|]. cbn [skip_slashes]. destruct (Z.eqb_spec c 47) as [->|]; [by rewrite comps_slash|done]. Qed.

(** A name, then the end or a slash. *)
Lemma comps_cons n r : plain n -> r = [] \/ head r = Some 47 -> comps (n ++ r) = n :: comps r.
Proof.
  intros [Hn Hs] Hr. unfold comps. destruct r as [|a r].
  - rewrite app_nil_r, pieces_plain by done. by rewrite filter_cons_True.
  - destruct Hr as [|[= ->]]; [done|]. destruct (pieces_name n 47 r) as [E|E].
    + rewrite E. change (pieces (47 :: r)) with ([] :: pieces r). cbn iota. rewrite app_nil_r. by rewrite filter_cons_True.
    + exfalso. apply Exists_exists in E as (x & Hx & <-). rewrite Forall_forall in Hs. by apply (Hs 47).
Qed.

Lemma name_of_spec m p : let '(n, r) := name_of m p in p = n ++ r /\ Forall (fun x => x <> 47) n /\ (length n <= m)%nat /\ (length n = m \/ r = [] \/ head r = Some 47).
Proof.
  revert p. induction m as [|m IH]; intros p; cbn [name_of]; [destruct p; cbn; auto|]. destruct p as [|c p]; [cbn; split_and!; auto; lia|].
  destruct (Z.eqb_spec c 47) as [->|Hc]; [cbn; split_and!; auto; lia|]. specialize (IH p). destruct (name_of m p) as [n r]. destruct IH as (-> & H1 & H2 & H3).
  split_and!; [done|by constructor|cbn; lia|]. destruct H3 as [H3|H3]; [left; cbn; lia|by right].
Qed.

Lemma skip_head p : match skip_slashes p with [] => True | c :: _ => c <> 47 end.
Proof. induction p as [|c p IH]; [done|]. cbn [skip_slashes]. by destruct (Z.eqb_spec c 47). Qed.

Lemma skip_slashes_length p : (length (skip_slashes p) <= length p)%nat /\ (head p = Some 47 -> (length (skip_slashes p) < length p)%nat).
Proof.
  induction p as [|c p [IH1 IH2]]; [done|]. cbn [skip_slashes]. destruct (Z.eqb_spec c 47) as [->|Hc]; cbn [length]; [split; intros; lia|]. split; [lia|]. intros [=]. done.
Qed.

(** The next component of a path whose components are short. *)
Lemma next_comp p c q : skip_slashes p = c :: q -> Forall (fun n => (length n <= 255)%nat) (comps p) ->
  let '(n, r) := name_of 255 (c :: q) in plain n /\ (r = [] \/ head r = Some 47) /\ comps p = n :: comps r /\ (length (c :: q) = length n + length r)%nat.
Proof.
  intros Es Hs. pose proof (name_of_spec 255 (c :: q)) as H. pose proof (skip_head p) as Hh. rewrite Es in Hh.
  assert (Hc : (fst (name_of 255 (c :: q))) <> []) by (change (name_of 255 (c :: q)) with (if c =? 47 then ([], c :: q) else let '(a, r) := name_of 254 q in (c :: a, r));
    rewrite (proj2 (Z.eqb_neq c 47)) by done; by destruct (name_of 254 q)).
  destruct (name_of 255 (c :: q)) as [n r]. cbn in Hc. destruct H as (E & Hn & Hl & Hr).
  assert (P : plain n) by done. rewrite <- comps_skip, Es, E in Hs |- *.
  assert (R : r = [] \/ head r = Some 47).
  { destruct Hr as [Hl2|Hr]; [|done]. destruct r as [|x r]; [by left|]. right. destruct (decide (x = 47)) as [->|Hx]; [done|]. exfalso.
    assert (Hex : exists m, m ∈ comps (n ++ x :: r) /\ (256 <= length m)%nat).
    { unfold comps. destruct (pieces_name n x r) as [Ep|Ep].
      - cbn [pieces] in Ep. rewrite (proj2 (Z.eqb_neq x 47)) in Ep by done. pose proof (pieces_ne r). destruct (pieces r) as [|e es]; [done|]. rewrite Ep.
        exists (n ++ x :: e). split; [|rewrite length_app; cbn; lia]. apply list_elem_of_filter. split; [by destruct n|]. left.
      - apply Exists_exists in Ep as (y & Hy & <-). rewrite Forall_forall in Hn. by destruct (Hn 47). }
    destruct Hex as (m & Hm & Hlen). rewrite Forall_forall in Hs. apply list_elem_of_In in Hm. specialize (Hs m Hm). lia. }
  split_and!; [done|done|by apply comps_cons|]. rewrite length_app. done.
Qed.

(** The buffer holds the rendering of plain components. *)
Lemma render_add cs n : plain n -> Forall plain cs -> (if bool_decide (render cs = [47]) then render cs else render cs ++ [47]) ++ n = render (cs ++ [n]).
Proof.
  intros [Hn _] Hcs. destruct cs as [|c cs].
  - cbn. by rewrite app_nil_r.
  - apply Forall_cons_1 in Hcs as [[Hc _] _]. rewrite bool_decide_eq_false_2.
    + cbn [render app]. unfold render. cbn [app fmap list_fmap concat]. rewrite fmap_app, concat_app. cbn. rewrite app_nil_r, <- !app_assoc. done.
    + cbn. destruct c; done.
Qed.

Lemma back_while_app f a x b : Forall (fun c => f c = true) a -> f x = false -> back_while f (a ++ x :: b) = x :: b.
Proof.
  intros Ha Hx. induction Ha as [|c a Hc _ IH]; [cbn; destruct b; [done|by rewrite Hx]|]. cbn [app].
  destruct (a ++ x :: b) as [|y l] eqn:E; [by destruct a|]. change (back_while f (c :: y :: l)) with (if f c then back_while f (y :: l) else c :: y :: l).
  by rewrite Hc.
Qed.

Lemma rev_plain n : plain n -> exists x m, rev n = x :: m /\ x <> 47 /\ Forall (fun c => negb (c =? 47) = true) (rev n).
Proof.
  intros [Hn Hs]. assert (F : Forall (fun c => negb (c =? 47) = true) (rev n)).
  { rewrite Forall_forall in *. intros c Hc. apply negb_true_iff, Z.eqb_neq, Hs. by apply in_rev. }
  destruct (rev n) as [|x m] eqn:E; [exfalso; apply Hn; rewrite <- (rev_involutive n), E; done|]. exists x, m. split; [done|]. split; [|done].
  apply Forall_cons_1 in F as [Hx _]. by apply negb_true_iff, Z.eqb_neq in Hx.
Qed.

Lemma render_snoc cs n : render (cs ++ [n]) = (if bool_decide (cs = []) then [] else render cs) ++ 47 :: n.
Proof. destruct cs as [|c cs]; cbn; [by rewrite app_nil_r|]. rewrite fmap_app, concat_app. cbn. by rewrite app_nil_r, <- app_assoc. Qed.

Lemma remove_last_render cs : Forall plain cs -> _rp_remove_last (render cs) = render (take (length cs - 1) cs).
Proof.
  intros H. destruct cs as [|c0 cs0] using rev_ind; [done|]. clear IHcs0. rewrite length_app. cbn [length]. replace (length cs0 + 1 - 1)%nat with (length cs0) by lia. rewrite take_app_length.
  apply Forall_app in H as [H1 H2]. apply Forall_cons_1 in H2 as [H2 _]. rewrite render_snoc. unfold _rp_remove_last.
  rewrite rev_app_distr. cbn [rev]. rewrite <- app_assoc. cbn [app].
  destruct (rev_plain c0 H2) as (x & m & E & Hx & F).
  assert (E1 : forall b, back_while (Z.eqb 47) (rev c0 ++ 47 :: b) = rev c0 ++ 47 :: b).
  { intros b. rewrite E. cbn [app back_while]. destruct (m ++ 47 :: b) eqn:Em; [done|]. by rewrite (proj2 (Z.eqb_neq 47 x)) by congruence. }
  rewrite E1, back_while_app by done. destruct cs0 as [|c cs]; [done|]. rewrite bool_decide_eq_false_2 by done.
  destruct (rev (render (c :: cs))) as [|y l] eqn:Er; [apply (f_equal (@length Z)) in Er; by rewrite length_rev in Er|].
  rewrite <- Er. by rewrite rev_involutive.
Qed.

Lemma resolve_plain cs n : plain n -> Forall plain cs -> Forall plain (resolve cs n).
Proof. intros Hn Hcs. unfold resolve. case_bool_decide; [done|]. case_bool_decide; [by apply Forall_take|]. apply Forall_app. split; [done|by constructor]. Qed.

Lemma length_render cs : Forall plain cs -> (1 <= length (render cs))%nat /\ (length (render (take (length cs - 1) cs)) <= length (render cs))%nat.
Proof.
  intros H. split; [destruct cs; cbn; [lia|rewrite ?length_app; lia]|]. destruct cs as [|c0 cs0 _] using rev_ind; [done|].
  rewrite length_app. cbn [length]. replace (length cs0 + 1 - 1)%nat with (length cs0) by lia. rewrite take_app_length, render_snoc, length_app. cbn [length].
  apply Forall_app in H as [_ H]. apply Forall_cons_1 in H as [[H _] _]. destruct c0; [done|]. case_bool_decide as E; [rewrite E; cbn; lia|lia].
Qed.

Lemma rp_loop_run fuel : forall p cs, (length p < fuel)%nat -> p = [] \/ head p = Some 47 -> Forall (fun n => (length n <= 255)%nat) (comps p) -> Forall plain cs ->
  (length (render cs) + length p <= 511)%nat ->
  rp_loop fuel p (render cs) = inl (render (foldl resolve cs (comps p))) /\
  (length (render (foldl resolve cs (comps p))) <= length (render cs) + length p)%nat.
Proof.
  induction fuel as [|fuel IH]; intros p cs Hf Hp Hl Hcs Hb; [lia|]. cbn [rp_loop]. destruct (skip_slashes p) as [|c q] eqn:Es.
  { rewrite <- comps_skip, Es. change (comps []) with (@nil str); cbn [foldl]; split; [done|lia]. }
  pose proof (next_comp p c q Es Hl) as H. destruct (name_of 255 (c :: q)) as [n r]. destruct H as (Pn & Hr & E & Hlen).
  assert (Hs : (length (c :: q) < length p)%nat). { destruct Hp as [->|Hp]; [done|]. rewrite <- Es. by apply skip_slashes_length. }
  rewrite E in *. apply Forall_cons_1 in Hl as [_ Hl]. cbn [foldl].
  assert (R : resolve cs n = if bool_decide (n = [46]) then cs else if bool_decide (n = [46; 46]) then take (length cs - 1) cs else cs ++ [n]) by reflexivity.
  rewrite R. clear R.
  destruct (length_render cs Hcs) as [L1 L2].
  case_bool_decide as B1; [destruct (IH r cs) as [-> ?]; [lia|done|done|done|lia|split; [done|lia]]|]. case_bool_decide as B2.
  { rewrite remove_last_render by done. destruct (IH r (take (length cs - 1) cs)) as [-> ?]; [lia|done|done|by apply Forall_take|lia|split; [done|lia]]. }
  unfold PATHBUF_MAX. rewrite Z.gtb_ltb, (proj2 (Z.ltb_ge _ _)) by lia. rewrite render_add by done.
  assert (Hadd : (length (render (cs ++ [n])) <= length (render cs) + length n + 1)%nat) by (rewrite render_snoc, length_app; cbn [length]; case_bool_decide; cbn [length]; lia).
  destruct (IH r (cs ++ [n])) as [-> ?]; [lia|done|done|apply Forall_app; split; [done|by constructor]|lia|split; [done|lia]].
Qed.

(** A component that resolving leaves. *)
Definition canonical (c : str) : Prop := plain c /\ c <> [46] /\ c <> [46; 46].

Lemma pieces_no_slash p : Forall (Forall (fun x => x <> 47)) (pieces p).
Proof.
  induction p as [|c p IH]; [by repeat constructor|]. cbn. destruct (Z.eqb_spec c 47); [by constructor|]. destruct (pieces p) as [|e es]; [by repeat constructor|].
  apply Forall_cons_1 in IH as [H1 H2]. constructor; [by constructor|done].
Qed.

Lemma comps_plain p : Forall plain (comps p).
Proof.
  unfold comps. pose proof (pieces_no_slash p) as H. induction H as [|e es He _ IH]; [done|]. destruct (decide (e = [])) as [->|Hne].
  - rewrite filter_cons_False by naive_solver; exact IH.
  - rewrite filter_cons_True by done. by constructor.
Qed.

Lemma comps_render cs : Forall plain cs -> comps (render cs) = cs.
Proof.
  intros H. assert (G : comps (concat (cons 47 <$> cs)) = cs).
  { induction H as [|c cs Hc Hcs IH]; [done|]. cbn [fmap list_fmap concat app]. rewrite comps_slash, comps_cons; [by rewrite IH|done|]. destruct cs; [by left|by right]. }
  by destruct cs.
Qed.

Lemma resolve_canonical cs l : Forall canonical cs -> foldl resolve l cs = l ++ cs.
Proof.
  intros H. revert l. induction H as [|c cs (Hp & H1 & H2) _ IH]; intros l; cbn [foldl]; [by rewrite app_nil_r|].
  rewrite IH. unfold resolve. rewrite !bool_decide_eq_false_2 by done. by rewrite <- app_assoc.
Qed.

Lemma resolve_forall (Q : str -> Prop) cs l : Forall Q l -> Forall (fun c => c <> [46] -> c <> [46; 46] -> Q c) cs -> Forall Q (foldl resolve l cs).
Proof.
  intros Hl H. revert l Hl. induction H as [|c cs Hc _ IH]; intros l Hl; cbn [foldl]; [done|]. apply IH. unfold resolve.
  case_bool_decide as B1; [done|]. case_bool_decide as B2; [by apply Forall_take|]. apply Forall_app. split; [done|]. constructor; [by apply Hc|done].
Qed.

(** C35: [realpath] of an absolute path of at most 509 characters, with components
    of at most 255, is the path of its components with the dots resolved: none of
    them is empty, a dot or two dots, and resolving again changes nothing.
    (Longer components are split: [long_name_split].) *)
Theorem realpath_canonical {K} `{Kernel K} q (s : st K) :
  let p := 47 :: q in
  (length p <= 509)%nat -> Forall (fun n => (length n <= 255)%nat) (comps p) ->
  let r := render (foldl resolve [] (comps p)) in
  realpath true (Some p) s = Some (Some r, s) /\ Forall canonical (comps r) /\ realpath true (Some r) s = Some (Some r, s).
Proof.
  intros p Hl Hc r.
  assert (Run : forall q' : str, (S (length q') <= 510)%nat -> Forall (fun n => (length n <= 255)%nat) (comps (47 :: q')) ->
    realpath true (Some (47 :: q')) s = Some (Some (render (foldl resolve [] (comps (47 :: q')))), s)).
  { intros q' Hq Hcq. pose proof (rp_loop_run (S (length (47 :: q'))) (47 :: q') [] ltac:(lia) ltac:(by right) Hcq ltac:(done) ltac:(cbn [render length] in *; lia)) as [E _].
    unfold realpath, bind. change (default [] (Some (47 :: q'))) with (47 :: q'). cbn [negb ret]. unfold ret at 1. change [47] with (render []). by rewrite E. }
  assert (Hcan : Forall canonical (foldl resolve [] (comps p))).
  { apply resolve_forall; [done|]. eapply Forall_impl; [|apply comps_plain]. by intros c Hp. }
  assert (Hpl : Forall plain (foldl resolve [] (comps p))) by (eapply Forall_impl; [|exact Hcan]; by intros c []).
  assert (Hcr : comps r = foldl resolve [] (comps p)) by (by apply comps_render).
  split; [apply Run; [unfold p in Hl; cbn [length] in Hl; lia|done]|]. rewrite Hcr. split; [done|].
  assert (Hlen : (length r <= 510)%nat).
  { pose proof (rp_loop_run (S (length p)) p [] ltac:(lia) ltac:(by right) Hc ltac:(done) ltac:(cbn [render length] in *; lia)) as [_ E]. fold r in E. cbn [render length] in E. lia. }
  assert (exists q', r = 47 :: q') as [q' Eq] by (unfold r, render; destruct (foldl resolve [] (comps p)); eexists; reflexivity).
  rewrite Eq in *. rewrite Run; [|done|].
  - do 2 f_equal. f_equal. rewrite Hcr, resolve_canonical by done. cbn [app]. by rewrite <- Eq.
  - rewrite Hcr. apply resolve_forall; [done|]. eapply Forall_impl; [|exact Hc]. by intros c Hlc.
Qed.

Lemma realpath_canonical_witness : realpath true (Some (txt "//usr/./lib/../bin/")) (S_ (∅ : Socket.tab) 0 0 (-1)) = Some (Some (txt "/usr/bin"), S_ (∅ : Socket.tab) 0 0 (-1)).
Proof.
  destruct (realpath_canonical (txt "/usr/./lib/../bin/") (S_ (∅ : Socket.tab) 0 0 (-1))) as [E _]; [cbn; lia| |exact E].
  apply Forall_forall. intros n Hn. repeat (destruct Hn as [<-|Hn]; [cbn; lia|]). destruct Hn.
Defined.

(** A name of 256 characters is taken for two. *)
Theorem long_name_split {K} `{Kernel K} (s : st K) : realpath true (Some (47 :: repeat 97 256)) s = Some (Some (47 :: repeat 97 255 ++ [47; 97]), s).
Proof. reflexivity. Qed.

(** ** [popen] and [pclose] *)

(** [pclose] finds the process that [popen] put into a free slot. *)
Theorem pclose_finds addr pid l : addr <> 0 -> Forall (fun x => fst x <> addr) l -> Exists (fun x => snd x = 0) l ->
  pop_pid addr (put_first (fun x => snd x =? 0) (addr, pid) l) = pid.
Proof.
  intros Ha Hf He. unfold pop_pid. induction l as [|[f p] l IH]; [by apply Exists_nil in He|]. apply Forall_cons_1 in Hf as [Hx Hf]. cbn [put_first snd].
  destruct (Z.eqb_spec p 0) as [->|Hp]; cbn [List.find fst]; [by rewrite Z.eqb_refl|]. cbn in Hx. rewrite (proj2 (Z.eqb_neq f addr)) by done.
  apply IH; [done|]. apply Exists_cons in He as [He|He]; [done|done].
Qed.

(** Beyond eight open pipes [popen] forgets its process: the table stays as it
    is, and [pclose] neither waits for the child nor returns its status. *)
Theorem ninth_popen_forgotten addr pid l : addr <> 0 -> Forall (fun x => fst x <> addr /\ snd x <> 0) l ->
  put_first (fun x => snd x =? 0) (addr, pid) l = l /\ pop_pid addr l = 0.
Proof.
  intros Ha H. unfold pop_pid. induction H as [|[f p] l [H1 H2] _ [IH1 IH2]]; [done|]. cbn in *. rewrite (proj2 (Z.eqb_neq p 0)), (proj2 (Z.eqb_neq f addr)) by done. by rewrite IH1.
Qed.

(** The mode [rb+] opens the file for reading only. *)
Theorem binary_plus_ignored : mode_flags (txt "rb+") = O_RDONLY /\ mode_flags (txt "r+b") = O_RDWR.
Proof. done. Qed.
End Files.
